(* ===== verification/_CoqProject ===== *)
-Q . S2P
Prelude.v
Utf.v
Streams.v
CStrings.v
Values.v
Lists.v
Links.v
Db.v
Properties.v
Layout.v
Tables.v
Objects.v
Sample.v
PropertyOps.v
RenameProp.v
Reparent.v
ObjectOps.v
Renumber.v
Libc.v
Functions.v
Numbers.v
Words.v
Preps.v
Match.v
ParseCmd.v
Verbs.v
VerbCache.v
VerbOps.v
ObjectBuiltins.v
Invariant.v
Handlers.v
Recycle.v
PropBuiltins.v
VerbBuiltins.v
PropBuiltinOps.v
VerbBuiltinOps.v
Steps.v
Validate.v
Dbio.v
DbFile.v
DbFileOps.v
Ast.v
CodeGen.v
CodeShape.v
CodeExpr.v
CodeLink.v
CodeStmt.v
CodeLimits.v
EvalEnv.v
Vm.v
VmRun.v
VmTasks.v
Eval.v
VmCode.v
VmInstr.v
VmExpr.v
Exec.v
VmStmt.v
VmProgram.v
VmOps.v
VmLoop.v
VmCalls.v
InputQueue.v
TaskQueues.v
TaskOps.v
VmFrame.v
RunTasks.v
RunOps.v
TaskSteps.v
TurnOps.v
Intrinsic.v
