(* ===== verification/Prelude.v ===== *)
(** * LambdaMOO server: a verification library

    The LambdaMOO server (a C program, in src/) keeps a database of programmable objects in
    memory and runs the commands and programs of its players against it.  This library
    models the part of it that decides what the database is and what values are, function by
    function, and proves that it does what it means to.

    ** The parts of the server and where they are modelled

    - Bytes and characters: [Utf] is src/utf.c, [Streams] the growable buffers of
      src/streams.c, [CStrings] the string routines of src/utils.c, [Libc] what the numeric
      code uses of the C library.
    - Values: [Values] is the union [Var] of src/structures.h with equality, truth and
      packages (src/utils.c, src/functions.c); [Lists] src/list.c and the indexing opcodes of
      src/execute.c; [Numbers] src/numbers.c; [Functions] the registry and the checked call
      of built-in functions (src/functions.c).
    - The database: [Db] has the records of src/db_private.h, the object table and the
      attributes of src/db_objects.c; [Links] the intrusive lists that hold both hierarchies
      (parents and places); [Properties] is src/db_properties.c; [Objects] the structural
      operations of src/db_objects.c (create, destroy, chparent, move, renumber); [Verbs]
      src/db_verbs.c with its cache; [Preps] its table of prepositions.
    - Commands: [Words] is the tokenizer of src/parse_cmd.c, [Match] src/match.c, [ParseCmd]
      the analysis of a command line.
    - Built-in functions on the database: [ObjectBuiltins] is src/objects.c and src/quota.c,
      and as much of [call_verb] (src/execute.c) as these need; [PropBuiltins] is
      src/property.c and [VerbBuiltins] src/verbs.c.
    - The database file: [Dbio] has the elementary reads and writes of src/db_io.c, [DbFile]
      the file of src/db_file.c, [Validate] the checks and repairs after it has been read.
    - The language: [Ast] has the syntax trees of src/ast.h and the instructions of
      src/opcode.h, [CodeGen] is src/code_gen.c, the translation of one to the other.
    - The interpreter: [EvalEnv] has the environments of src/eval_env.c, [Vm] the activations,
      the unwinding of the stack and the calling of verbs of src/execute.c, [VmRun] its
      instructions and the loop [run], [VmTasks] the start and the limits of tasks, the
      built-in functions on them and [eval()].  Code goes from [CodeGen.generate_code] to
      [VmRun.run]; verbs are found by [Verbs.db_find_callable_verb], properties by
      [Properties.db_find_property], operators are those of [Lists] and [Numbers].
    - Tasks (src/tasks.c): [InputQueue] has the doubly threaded lines of input with their
      pointers, [TaskQueues] the task queues, with lists for the threads, and every operation
      that the server and programs call, [RunTasks] the commands, logins and [.program], and
      the choice of the next task, [run_ready_tasks], which starts the interpreter through
      [VmTasks].

    State is passed explicitly: a [db] record goes in and comes out.  Pointers into tables
    are numbers or keys into finite maps, so that sharing is visible; an operation that C
    would let fault answers [Fail] (below), and most theorems begin with the statement that
    it does not.  Integers are [Z] with their wrapping written out ([wrap16], [wrap32],
    [wrap64], [u32]); bytes are [ascii]; a C string is a list of bytes without a NUL
    ([nul_free]); floats are IEEE binary64 of [SpecFloat].

    ** What is proved

    - [Layout], [Tables], [PropertyOps], [RenameProp], [Reparent]: the arrays of property cells that
      src/db_properties.c shuffles implement tables from definitions to cells.
    - [ObjectOps], [Renumber]: the operations of src/db_objects.c refine operations on two
      forests with ordered children ([Links]), and keep [wf_db] ([Objects]): links, tables,
      users, verbs.
    - [VerbCache], [VerbOps]: a search through the cache answers what a search without it
      does, and every change leaves the cache without a stale entry.
    - [Invariant] gathers these as [good]; [Handlers] and [Recycle] prove that the built-in
      functions never fault, what each of their errors means, and that recycling ends;
      [Steps] puts everything together: a transition system whose reachable databases are
      all [good], and on which no permitted operation is stuck.
    - [PropBuiltinOps], [VerbBuiltinOps]: the functions on properties and verbs are safe, ask
      for the permissions that they should, and set what is read back.
    - [DbFileOps], [Dbio]: what is saved is loaded again, values and whole databases;
      [Validate]: the checks of the hierarchies accept exactly the forests.
    - The compiler and the interpreter: [CodeShape] has the invariant of a growing program and
      a calculus for the generator, [CodeExpr] and [CodeStmt] describe the code of every
      expression and statement, [CodeLink] the final vector with its references.  [Eval] and
      [Exec] are a reference semantics on syntax trees; [VmCode], [VmInstr], [VmExpr] and
      [VmStmt] prove that the interpreter does the same with the code, and [VmProgram] puts
      this together: a compiled program returns what the semantics says, or raises its error.
      Calls, forks and handlers of errors are outside of the semantics, but not of the
      description of the code.
    - [VmOps], [VmCalls]: what shifts compute, and what the call of a verb sets up.
    - [InputQueue]: the threaded queue represents the list of its lines.  [TaskOps] has the
      invariant [sound] of the task queues and that every operation keeps it; [RunOps] says
      what a turn of the server does before a task runs and where the queue goes after it;
      [TaskSteps] is the transition system of all operations, whose reachable queues are all
      [sound].  [VmFrame] proves that programs change the world only through the functions of
      [Vm.Host], messages and the timer, and [TurnOps] uses that for whole turns.
      [Intrinsic]: the hash of the intrinsic commands, and the option that enables them.
    - [Words], [ParseCmd], [Match], [Preps]: in-place tokenizing equals a functional one, a
      round trip through quoting, and the meaning of a command line.
    - [Utf], [Streams], [CStrings], [Values], [Lists], [Numbers], [Functions]: round trips,
      memory safety, equality as an equivalence, type soundness of arithmetic, and the checks
      before a built-in function runs.

    Some theorems state defects of the code, where it does not do what it means to
    ([Lists.range_ref_truncates], [Utf.get_utf_call_accepts_truncated],
    [CStrings.strrindex_misses], [Preps.off_of_unreachable], [Match.match_object_numbers],
    [CodeLimits.variable_256_is_lost], [CodeLimits.deep_stack_overflows],
    [VmLoop.named_while_never_stops], [TaskSteps.resume_task_is_not_counted],
    [TaskSteps.log_in_strands_tasks], [TaskSteps.far_tasks_keep_the_server_busy]).

    [Sample] has a checker for the invariants and a small database, on which the theorems are
    instantiated; the lemma [t_witness] behind a theorem [t] does that.

    ** Fuel

    Loops over a hierarchy take the number of objects (plus one) as fuel, which is enough
    because a path in a forest has no repetitions ([Links.path_length]); loops over a buffer
    take its length; the loops of [recycle] take one more than the number of objects, which
    bounds the children or contents that they remove one by one; exponentiation takes 64;
    reading a file takes the length of what is left of it; defining a label the number of
    references; unwinding one for every activation and two more; flushing, dropping and
    running the lines of a queue one more than these, moving tasks likewise, and the search
    for a queue that runs a task as many turns as there are active queues.  [run] takes the number of
    instructions, and [Exec.exec] the number of turns of a loop, which nothing bounds; the
    theorems give enough of it.
    That the fuel suffices is part of every theorem that says that a function answers [Ok].

    ** Parameters

    What the functions use of code that is not modelled is an argument: the memory of a new
    object before it is filled, whether there is room for another activation, the generator
    of random numbers, the mathematical functions of the C library, the sizes of programs, the
    parser of program texts and the decompiler.  The interpreter has a class [Vm.Host] of
    what it calls: built-in functions, forking and suspending tasks, waifs, line numbers.
    Tasks are also given the output to a player and the timer.  The queues of tasks are a part
    of the world ([RunTasks.HasQueues]), with the clock; what is done to connections is recorded
    in order; the random numbers that become numbers of tasks are a list, and the tasks that other parts of
    the server hold are lists of machines; [player_connected] of src/server.c is an argument.
    The limit of queued input is the default 65536.

    ** Not modelled

    The parser (a yacc grammar, src/parser.y) and the building of its trees (src/ast.c), the
    decompiler and the disassembler, dumping and loading of suspended programs
    (src/eval_vm.c), the functions of src/execute.c that suspend, read, or raise errors, listing, dumping and loading of tasks (src/tasks.c), the history of commands, the server loop and the processes that write checkpoints, networking,
    waifs apart from what properties leave of them, the printing of values, memory
    management (models hold values instead of counted references), and vendored code. *)

From Stdlib Require Export ZArith Lia Ascii.
From stdpp Require Export base functions tactics list numbers strings gmap.

#[global] Open Scope Z_scope.

(** ** Outcomes of C code

    [Panic] is a call of [panic()], [Segv] the dereference of a null or
    dangling pointer (or an index outside of its array), [Undefined] any other
    operation that C leaves undefined (an integer division that traps, a union
    read at a member that was not stored), and [OutOfFuel] is the artefact of a
    loop whose iteration bound was too small: the theorems show that none of the
    four arises in a well-formed state, or say exactly when one does. *)
Inductive failure :=
  | Panic (msg : string)
  | Segv
  | Undefined
  | OutOfFuel.

Inductive res (A : Type) :=
  | Ok (a : A)
  | Fail (f : failure).
Arguments Ok {A} a.
Arguments Fail {A} f.

#[export] Instance res_ret : MRet res := @Ok.
#[export] Instance res_bind : MBind res := fun A B f m =>
  match m with Ok a => f a | Fail e => Fail e end.
#[export] Instance res_fmap : FMap res := fun A B f m =>
  match m with Ok a => Ok (f a) | Fail e => Fail e end.

(** Dereferencing a pointer that may be null. *)
Definition deref {A} (o : option A) : res A :=
  match o with Some a => Ok a | None => Fail Segv end.

Lemma res_bind_Ok {A B} (m : res A) (f : A -> res B) b :
  (m ≫= f) = Ok b <-> exists a, m = Ok a /\ f a = Ok b.
Proof.
  destruct m as [a|e]; cbn; split.
  - intros H; eauto.
  - by intros (? & [= ->] & ?).
  - done.
  - by intros (? & ? & ?).
Qed.

Lemma res_fmap_Ok {A B} (m : res A) (f : A -> B) b :
  (f <$> m) = Ok b <-> exists a, m = Ok a /\ f a = b.
Proof.
  destruct m as [a|e]; cbn; split.
  - intros [= <-]; eauto.
  - by intros (? & [= ->] & <-).
  - done.
  - by intros (? & ? & ?).
Qed.

Lemma deref_Ok {A} (o : option A) a : deref o = Ok a <-> o = Some a.
Proof. destruct o; cbn; split; congruence. Qed.

(** [simplify_res] inverts every equation [m = Ok _] between monadic terms. *)
Ltac simplify_res :=
  repeat match goal with
  | H : (_ ≫= _) = Ok _ |- _ => apply res_bind_Ok in H as (? & ? & ?)
  | H : (_ <$> _) = Ok _ |- _ => apply res_fmap_Ok in H as (? & ? & ?)
  | H : deref _ = Ok _ |- _ => apply deref_Ok in H
  | H : Ok _ = Ok _ |- _ => injection H as H
  | H : Fail _ = Ok _ |- _ => discriminate H
  | _ => progress simplify_eq
  end.

(** ** Machine integers *)

(** [lia] with division and remainder. *)
Ltac dlia := Z.to_euclidean_division_equations; lia.

(** Conversion to a signed [n]-bit integer, the way two's complement wraps. *)
Definition swrap (n z : Z) : Z := (z + 2 ^ (n - 1)) mod 2 ^ n - 2 ^ (n - 1).
Definition wrap16 (z : Z) : Z := swrap 16 z.
Definition wrap32 (z : Z) : Z := swrap 32 z.
Definition wrap64 (z : Z) : Z := swrap 64 z.
Definition u32 (z : Z) : Z := z mod 2 ^ 32.

Definition int_range (n z : Z) : Prop := - 2 ^ (n - 1) <= z < 2 ^ (n - 1).

Lemma pow2_pred n : 0 < n -> 2 ^ n = 2 * 2 ^ (n - 1).
Proof. intros. rewrite <- Z.pow_succ_r by lia. f_equal; lia. Qed.

Lemma swrap_range n z : 0 < n -> int_range n (swrap n z).
Proof.
  intros Hn. unfold int_range, swrap. pose proof (pow2_pred n Hn).
  pose proof (Z.mod_pos_bound (z + 2 ^ (n - 1)) (2 ^ n) ltac:(lia)). lia.
Qed.

Lemma swrap_id n z : 0 < n -> int_range n z -> swrap n z = z.
Proof.
  intros Hn [??]. unfold swrap. pose proof (pow2_pred n Hn).
  rewrite Z.mod_small by lia. lia.
Qed.

Lemma swrap_congr n z : 0 < n -> (swrap n z) mod 2 ^ n = z mod 2 ^ n.
Proof.
  intros Hn. unfold swrap. rewrite Zminus_mod_idemp_l. f_equal. lia.
Qed.

(** ** C strings

    A [char *] is the list of the bytes before its terminating NUL; reading at
    or past the end of the list yields the terminator. *)
Abbreviation cstr := (list ascii).

Definition ord (c : ascii) : Z := Z.of_N (N_of_ascii c).
Definition chr (z : Z) : ascii := ascii_of_N (Z.to_N (z mod 256)).
(** The text of a string literal. *)
Definition lit (s : string) : cstr := String.list_ascii_of_string s.
(** [s[i]]. *)
Definition at_ (s : cstr) (i : nat) : Z := default 0 (ord <$> s !! i).
(** [*s]. *)
Definition cur (s : cstr) : Z := at_ s 0.
(** The strings that C code can hold: no NUL before the end. *)
Definition nul_free (s : cstr) : Prop := Forall (fun c => ord c <> 0) s.

#[global] Arguments ord : simpl never.
#[global] Arguments chr : simpl never.
#[global] Arguments at_ : simpl never.
#[global] Arguments cur : simpl never.

#[export] Instance nul_free_dec s : Decision (nul_free s).
Proof. unfold nul_free. apply _. Defined.

Lemma ord_range c : 0 <= ord c < 256.
Proof.
  unfold ord. pose proof (N_ascii_bounded c). lia.
Qed.

Lemma chr_ord c : chr (ord c) = c.
Proof.
  pose proof (ord_range c). unfold chr. rewrite Z.mod_small by done.
  unfold ord. rewrite N2Z.id. apply ascii_N_embedding.
Qed.

Lemma ord_chr z : 0 <= z < 256 -> ord (chr z) = z.
Proof.
  intros. unfold ord, chr. rewrite Z.mod_small by done.
  rewrite N_ascii_embedding; lia.
Qed.

Lemma ord_inj c1 c2 : ord c1 = ord c2 -> c1 = c2.
Proof. intros H. rewrite <- (chr_ord c1), <- (chr_ord c2). congruence. Qed.

Lemma at_range s i : 0 <= at_ s i < 256.
Proof.
  unfold at_. destruct (s !! i) as [c|]; cbn; [apply ord_range|lia].
Qed.

Lemma at_cons_S c s i : at_ (c :: s) (S i) = at_ s i.
Proof. done. Qed.

Lemma at_app_l s1 s2 i : (i < length s1)%nat -> at_ (s1 ++ s2) i = at_ s1 i.
Proof. intros. unfold at_. by rewrite lookup_app_l. Qed.

Lemma at_end s i : (length s <= i)%nat -> at_ s i = 0.
Proof. intros. unfold at_. by rewrite lookup_ge_None_2. Qed.

Lemma at_drop s n i : at_ (drop n s) i = at_ s (n + i).
Proof. unfold at_. by rewrite lookup_drop. Qed.

Lemma nul_free_at s i : nul_free s -> (i < length s)%nat -> at_ s i <> 0.
Proof.
  intros Hs Hi. unfold at_.
  destruct (lookup_lt_is_Some_2 s i Hi) as [c Hc]. rewrite Hc. cbn.
  by eapply (Forall_lookup_1 (fun c => ord c <> 0)).
Qed.

Lemma nul_free_at_iff s i : nul_free s -> at_ s i <> 0 <-> (i < length s)%nat.
Proof.
  intros Hs. split; [|by apply nul_free_at].
  intros Hi. destruct (decide (i < length s)%nat); [done|].
  destruct Hi. apply at_end. lia.
Qed.

Lemma nul_free_drop s n : nul_free s -> nul_free (drop n s).
Proof. apply Forall_drop. Qed.

Lemma nul_free_app s1 s2 : nul_free (s1 ++ s2) <-> nul_free s1 /\ nul_free s2.
Proof. apply Forall_app. Qed.

Create HintDb moo.
Create Rewrite HintDb moo.
#[export] Hint Resolve nul_free_drop ord_range at_range : moo.

(** ** Bit operations as arithmetic *)

Lemma land_ones_mod z k : 0 <= k -> Z.land z (Z.ones k) = z mod 2 ^ k.
Proof. intros. by apply Z.land_ones. Qed.

Lemma lor_disjoint a b k : 0 <= k -> 0 <= b < 2 ^ k ->
  Z.lor (a * 2 ^ k) b = a * 2 ^ k + b.
Proof.
  intros Hk Hb. assert (Hl : Z.land (a * 2 ^ k) b = 0).
  { apply Z.bits_inj'. intros i Hi. rewrite Z.land_spec, Z.bits_0.
    destruct (Z.lt_ge_cases i k).
    - rewrite Z.mul_pow2_bits_low by lia. done.
    - rewrite <- (Z.mod_small b (2 ^ k)), <- Z.land_ones by lia.
      rewrite Z.land_spec, Z.ones_spec_high by lia. rewrite andb_false_r.
      by rewrite andb_false_r. }
  by rewrite Z.add_nocarry_lxor, Z.lxor_lor.
Qed.

Lemma at_cons_0 c s : at_ (c :: s) 0 = ord c.
Proof. done. Qed.

Lemma cur_cons c s : cur (c :: s) = ord c.
Proof. done. Qed.

Lemma cur_nil : cur [] = 0.
Proof. done. Qed.

Lemma cur_nul_free s : nul_free s -> cur s = 0 <-> s = [].
Proof.
  intros Hs. destruct s as [|c s]; [done|].
  inversion Hs; subst. rewrite cur_cons. naive_solver.
Qed.

(** A decidable property of all 256 byte values, checked by evaluation. *)
Lemma byte_forall (P : Z -> bool) : forallb P (seqZ 0 256) = true ->
  forall z, 0 <= z < 256 -> P z = true.
Proof.
  rewrite forallb_forall. intros H z Hz. apply H.
  apply list_elem_of_In, elem_of_seqZ. lia.
Qed.

(** ** Searches in lists *)

Lemma find_app {A} (f : A -> bool) l1 l2 : List.find f (l1 ++ l2) =
  match List.find f l1 with Some x => Some x | None => List.find f l2 end.
Proof. induction l1 as [|x l1 IH]; cbn; [done|]. by destruct (f x). Qed.

Lemma find_fmap {A B} (f : B -> bool) (g : A -> B) xs :
  List.find f (g <$> xs) = g <$> List.find (fun x => f (g x)) xs.
Proof. induction xs as [|x xs IH]; cbn; [done|]. by destruct (f (g x)). Qed.

Lemma find_ext {A} (f g : A -> bool) xs : (forall x, x ∈ xs -> f x = g x) ->
  List.find f xs = List.find g xs.
Proof.
  induction xs as [|x xs IH]; intros H; cbn; [done|].
  rewrite <- (H x) by (apply elem_of_cons; by left). destruct (f x); [done|].
  apply IH. intros y Hy. apply H, elem_of_cons. by right.
Qed.
