(* ===== verification/Utf.v ===== *)
(** * UTF-8 (src/utf.c)

    Decoding ([get_utf], [get_utf_call]), encoding ([put_utf]) and the counting
    routines built on them. *)

From S2P Require Import Prelude.

Open Scope Z_scope.

Definition INVALID_RUNE : Z := 0xfffd.

(** The macro [GET_CONT]: one continuation byte at offset [p], into the
    accumulator [v].  [c] is an [unsigned char], so [c -= 0x80] wraps modulo
    256; [inr p] is the [goto bad_cont], which leaves [p] unadvanced. *)
Definition get_cont (s : cstr) (v : Z) (p : nat) : (Z * nat) + nat :=
  let c := (at_ s p - 0x80) mod 256 in
  if c >? 0x3f then inr p else inl (Z.shiftl v 6 + c, S p).

(** [k] continuation bytes, then the validity test [bad] on the value. *)
Fixpoint get_conts (k : nat) (s : cstr) (v : Z) (p : nat) (bad : Z -> bool)
    : Z * nat :=
  match k with
  | O => (if bad v then INVALID_RUNE else v, p)
  | S k => match get_cont s v p with
           | inl (v, p) => get_conts k s v p bad
           | inr p => (INVALID_RUNE, p)
           end
  end.

(** The range tests of the two-, three- and four-byte forms. *)
Definition bad2 (v : Z) : bool := v <=? 0x7f.
Definition bad3 (v : Z) : bool := (v <=? 0x7ff) || (0xd800 <=? v) && (v <=? 0xdfff).
Definition bad4 (v : Z) : bool := (v <=? 0xffff) || (v >? 0x10ffff).

(** [get_utf s] is the decoded value and the number of bytes [*pp] advances. *)
Definition get_utf (s : cstr) : Z * nat :=
  let c := cur s in
  if c <=? 0x7f then (c, 1%nat)
  else if c <=? 0xbf then (INVALID_RUNE, 1%nat)
  else if c <=? 0xdf then get_conts 1 s (Z.land c 0x1f) 1 bad2
  else if c <=? 0xef then get_conts 2 s (Z.land c 0x0f) 1 bad3
  else if c <=? 0xf7 then get_conts 3 s (Z.land c 0x07) 1 bad4
  else (INVALID_RUNE, 1%nat).

(** [put_utf vv]: the bytes written, or [None] when it returns -1.  The
    parameter is an [int] that is converted to [unsigned int]. *)
Definition put_utf (vv : Z) : option cstr :=
  let v := u32 vv in
  if v <=? 0x7f then Some [chr v]
  else if v <=? 0x7ff then
    Some [chr (Z.lor 0xc0 (Z.shiftr v 6)); chr (Z.lor 0x80 (Z.land v 0x3f))]
  else if v <=? 0xffff then
    if u32 (v - 0xd800) <=? 0xdfff - 0xd800 then None
    else Some [chr (Z.lor 0xe0 (Z.shiftr v 12));
               chr (Z.lor 0x80 (Z.land (Z.shiftr v 6) 0x3f));
               chr (Z.lor 0x80 (Z.land v 0x3f))]
  else if v <=? 0x10ffff then
    Some [chr (Z.lor 0xf0 (Z.shiftr v 18));
          chr (Z.lor 0x80 (Z.land (Z.shiftr v 12) 0x3f));
          chr (Z.lor 0x80 (Z.land (Z.shiftr v 6) 0x3f));
          chr (Z.lor 0x80 (Z.land v 0x3f))]
  else None.

(** A byte source for [get_utf_call]: [c_getch] returns the next byte, or [EOF]
    (-1) at the end of the input. *)
Definition c_getch (src : cstr) : Z * cstr :=
  match src with [] => (-1, []) | c :: src => (ord c, src) end.

(** The second [GET_CONT], in which [c] is an [int]: there is no wrap-around, so
    a byte below 0x80 gives a negative [c] that passes the test. *)
Definition get_cont_call (src : cstr) (v : Z) : (Z * cstr) + (Z * cstr) :=
  let '(cc, src) := c_getch src in
  let c := cc - 0x80 in
  if c >? 0x3f then inr (cc, src) else inl (Z.shiftl v 6 + c, src).

Fixpoint get_conts_call (k : nat) (src : cstr) (v : Z) (bad : Z -> bool)
    : Z * cstr * Z :=
  match k with
  | O => (if bad v then INVALID_RUNE else v, src, -1)
  | S k => match get_cont_call src v with
           | inl (v, src) => get_conts_call k src v bad
           | inr (cc, src) => (INVALID_RUNE, src, cc)
           end
  end.

(** [get_utf_call src state] is the rune (or EOF), the remaining source and the
    new [*state]. *)
Definition get_utf_call (src : cstr) (state : Z) : Z * cstr * Z :=
  let '(c, src) := if state =? -1 then c_getch src else (state, src) in
  if (state =? -1) && (c =? -1) then (-1, src, state)
  else if c <=? 0x7f then (c, src, -1)
  else if c <=? 0xbf then (INVALID_RUNE, src, -1)
  else if c <=? 0xdf then get_conts_call 1 src (Z.land c 0x1f) bad2
  else if c <=? 0xef then get_conts_call 2 src (Z.land c 0x0f) bad3
  else if c <=? 0xf7 then get_conts_call 3 src (Z.land c 0x07) bad4
  else (INVALID_RUNE, src, -1).

(** [skip_utf s i]: the byte offset after [i] runes, or at the NUL.  The loop
    runs at most once per byte, so [length s] iterations are enough. *)
Fixpoint skip_utf_loop (fuel : nat) (s : cstr) (i : Z) : nat :=
  match fuel with
  | O => 0%nat
  | S fuel =>
      if (cur s =? 0) || (i =? 0) then 0%nat
      else let n := (get_utf s).2 in (n + skip_utf_loop fuel (drop n s) (i - 1))%nat
  end.
Definition skip_utf (s : cstr) (i : Z) : nat := skip_utf_loop (length s) s i.

(** [strlen_utf]: at most one iteration per byte, and the final one. *)
Fixpoint strlen_utf_loop (fuel : nat) (s : cstr) (i : Z) : Z :=
  match fuel with
  | O => i
  | S fuel =>
      let '(v, n) := get_utf s in
      if v =? 0 then i else strlen_utf_loop fuel (drop n s) (i + 1)
  end.
Definition strlen_utf (s : cstr) : Z := strlen_utf_loop (S (length s)) s 0.

Definition clearance_utf (c : Z) : nat :=
  if c <=? 0x7f then 1%nat
  else if c <=? 0xbf then 1%nat
  else if c <=? 0xdf then 2%nat
  else if c <=? 0xef then 3%nat
  else if c <=? 0xf7 then 4%nat
  else 1%nat.

(** ** The form of encoded characters *)

(** The encodings, with arithmetic in place of bit operations. *)
Definition utf_bytes (v : Z) : list Z :=
  if v <=? 0x7f then [v]
  else if v <=? 0x7ff then [0xc0 + v / 64; 0x80 + v mod 64]
  else if v <=? 0xffff then [0xe0 + v / 4096; 0x80 + v / 64 mod 64; 0x80 + v mod 64]
  else [0xf0 + v / 262144; 0x80 + v / 4096 mod 64; 0x80 + v / 64 mod 64; 0x80 + v mod 64].

Definition scalar (v : Z) : Prop :=
  0 <= v <= 0x10ffff /\ ~ (0xd800 <= v <= 0xdfff).

Lemma lor_base a b k base : 0 <= k -> base = a * 2 ^ k -> 0 <= b < 2 ^ k ->
  Z.lor base b = base + b.
Proof. intros ? -> ?. by apply lor_disjoint. Qed.

Lemma land_63 v : Z.land v 0x3f = v mod 64.
Proof. change 0x3f with (Z.ones 6). by rewrite Z.land_ones. Qed.

Lemma cont_byte v : Z.lor 0x80 (v mod 64) = 0x80 + v mod 64.
Proof. apply (lor_base 2 _ 6); dlia. Qed.

Lemma put_utf_spec vv bs : put_utf vv = Some bs <->
  scalar (u32 vv) /\ bs = chr <$> utf_bytes (u32 vv).
Proof.
  unfold put_utf, utf_bytes. set (v := u32 vv).
  assert (0 <= v < 2 ^ 32) by (apply Z.mod_pos_bound; lia). clearbody v. clear vv.
  rewrite !Z.shiftr_div_pow2, !land_63, !cont_byte by lia.
  unfold scalar.
  assert (Hs : (u32 (v - 0xd800) <=? 0xdfff - 0xd800)
               = bool_decide (0xd800 <= v <= 0xdfff)).
  { unfold u32. case_bool_decide.
    - rewrite Z.mod_small by lia. lia.
    - destruct (Z.le_gt_cases 0xd800 v); [rewrite Z.mod_small by lia; lia|].
      rewrite <- (Z.mod_unique_pos _ (2 ^ 32) (-1) (v - 0xd800 + 2 ^ 32)) by lia. lia. }
  rewrite Hs. clear Hs.
  assert (Hok : forall l, (0 <= v <= 0x10ffff /\ ~ (0xd800 <= v <= 0xdfff)) ->
    Some l = Some bs <-> (0 <= v <= 0x10ffff /\ ~ (0xd800 <= v <= 0xdfff)) /\ bs = l).
  { intros l Hl. split; [intros [= <-]; done|intros [_ ->]; done]. }
  assert (Hno : forall l, ~ (0 <= v <= 0x10ffff /\ ~ (0xd800 <= v <= 0xdfff)) ->
    None = Some bs <-> (0 <= v <= 0x10ffff /\ ~ (0xd800 <= v <= 0xdfff)) /\ bs = l).
  { intros l Hl. split; [done|intros [? _]; done]. }
  destruct (Z.leb_spec v 0x7f); [apply Hok; lia|].
  destruct (Z.leb_spec v 0x7ff).
  { rewrite (lor_base 6 _ 5) by dlia. apply Hok; lia. }
  destruct (Z.leb_spec v 0xffff).
  { rewrite (lor_base 14 _ 4) by dlia. case_bool_decide; [apply Hno|apply Hok]; lia. }
  destruct (Z.leb_spec v 0x10ffff); [|apply Hno; lia].
  rewrite (lor_base 30 _ 3) by dlia. apply Hok; lia.
Qed.

(** Decoding, on explicit bytes. *)
Lemma get_cont_at s v p : get_cont s v p =
  if bool_decide (0x80 <= at_ s p < 0xc0) then inl (64 * v + (at_ s p - 0x80), S p)
  else inr p.
Proof.
  unfold get_cont. pose proof (at_range s p). set (c := at_ s p) in *. clearbody c.
  rewrite Z.shiftl_mul_pow2 by lia.
  case_bool_decide.
  - rewrite Z.mod_small by lia. destruct (Z.gtb_spec (c - 128) 63); [lia|].
    do 2 f_equal. lia.
  - destruct (Z.le_gt_cases 0x80 c).
    + rewrite Z.mod_small by lia. destruct (Z.gtb_spec (c - 128) 63); [done|lia].
    + rewrite <- (Z.mod_unique_pos (c - 128) 256 (-1) (c + 128)) by lia.
      destruct (Z.gtb_spec (c + 128) 63); [done|lia].
Qed.

Lemma land_31 c : Z.land c 0x1f = c mod 32.
Proof. change 0x1f with (Z.ones 5). by rewrite Z.land_ones. Qed.
Lemma land_15 c : Z.land c 0x0f = c mod 16.
Proof. change 0x0f with (Z.ones 4). by rewrite Z.land_ones. Qed.
Lemma land_7 c : Z.land c 0x07 = c mod 8.
Proof. change 0x07 with (Z.ones 3). by rewrite Z.land_ones. Qed.

(** Decide every comparison of the goal by arithmetic. *)
Ltac cmp := repeat match goal with
  | |- context [?a <=? ?b] =>
      first [rewrite (proj2 (Z.leb_le a b)) by dlia
            |rewrite (proj2 (Z.leb_gt a b)) by dlia]
  | |- context [?a >? ?b] =>
      first [rewrite (proj2 (Z.gtb_lt a b)) by dlia
            |rewrite (Z.gtb_ltb a b), (proj2 (Z.ltb_ge b a)) by dlia]
  | |- context [bool_decide ?P] =>
      first [rewrite (bool_decide_true P) by dlia|rewrite (bool_decide_false P) by dlia]
  end.

(** *** Decoding an encoded character *)

Lemma get_utf_bytes v rest : scalar v ->
  get_utf ((chr <$> utf_bytes v) ++ rest) = (v, length (utf_bytes v)).
Proof.
  intros [Hv Hs]. unfold get_utf, utf_bytes.
  destruct (Z.leb_spec v 0x7f).
  { cbn [fmap list_fmap app length]. rewrite cur_cons, ord_chr by lia. by cmp. }
  destruct (Z.leb_spec v 0x7ff).
  { cbn [fmap list_fmap app length]. rewrite cur_cons, ord_chr by dlia. cmp.
    cbn [get_conts]. rewrite get_cont_at, land_31, at_cons_S, at_cons_0, ord_chr by dlia.
    cmp. unfold bad2. cmp. f_equal. dlia. }
  destruct (Z.leb_spec v 0xffff).
  { cbn [fmap list_fmap app length]. rewrite cur_cons, ord_chr by dlia. cmp.
    cbn [get_conts]. rewrite get_cont_at, land_15, at_cons_S, at_cons_0, ord_chr by dlia.
    cmp. rewrite get_cont_at, !at_cons_S, at_cons_0, ord_chr by dlia. cmp.
    replace (64 * _ + _) with v by dlia.
    unfold bad3. cmp. destruct (Z.leb_spec 0xd800 v); cmp; done. }
  cbn [fmap list_fmap app length]. rewrite cur_cons, ord_chr by dlia. cmp.
  cbn [get_conts]. rewrite get_cont_at, land_7, at_cons_S, at_cons_0, ord_chr by dlia.
  cmp. rewrite get_cont_at, !at_cons_S, at_cons_0, ord_chr by dlia. cmp.
  rewrite get_cont_at, !at_cons_S, at_cons_0, ord_chr by dlia. cmp.
  replace (64 * _ + _) with v by dlia. unfold bad4. by cmp.
Qed.

Lemma length_utf_bytes v : (1 <= length (utf_bytes v) <= 4)%nat.
Proof. unfold utf_bytes. repeat case_match; cbn; lia. Qed.

(** *** Bounds of a decoding step *)

Lemma get_utf_nil : get_utf [] = (0, 1%nat).
Proof. done. Qed.

Lemma get_conts_bounds k s v p bad v' n : nul_free s -> (p <= length s)%nat ->
  get_conts k s v p bad = (v', n) -> (p <= n <= length s)%nat.
Proof.
  intros Hs. revert v p. induction k as [|k IH]; intros v p Hp; cbn.
  { intros [= _ <-]. lia. }
  rewrite get_cont_at. case_bool_decide as Hc; [|intros [= _ <-]; lia].
  intros Hg. assert (p < length s)%nat by (apply nul_free_at_iff; [done|lia]).
  apply IH in Hg; lia.
Qed.

Lemma get_utf_bounds s v n : nul_free s -> s <> [] ->
  get_utf s = (v, n) -> (1 <= n <= length s)%nat.
Proof.
  intros Hs Hne. assert (1 <= length s)%nat by (destruct s; cbn; [done|lia]).
  unfold get_utf. repeat case_match; intros Hg;
    try (simplify_eq; lia); eapply get_conts_bounds in Hg; eauto.
Qed.

Lemma get_conts_value k s v p bad v' n :
  get_conts k s v p bad = (v', n) -> v' = INVALID_RUNE \/ bad v' = false.
Proof.
  revert v p. induction k as [|k IH]; intros v p; cbn.
  { destruct (bad v) eqn:Hb; intros [= <- _]; [by left|by right]. }
  rewrite get_cont_at. case_bool_decide; [apply IH|intros [= <- _]; by left].
Qed.

Lemma get_utf_nonzero s v n : nul_free s -> s <> [] -> get_utf s = (v, n) -> v <> 0.
Proof.
  intros Hs Hne. pose proof (cur_nul_free s Hs) as Hc. unfold get_utf.
  repeat case_match; intros Hg; try (apply get_conts_value in Hg as [->|Hg]);
    unfold INVALID_RUNE, bad2, bad3, bad4 in *; simplify_eq; first [lia|by rewrite Hc].
Qed.

(** What the bytes are when decoding succeeds: the value's base-64 digits. *)
Lemma get_conts_sound k s v p bad v' n : 0 <= v ->
  get_conts k s v p bad = (v', n) -> v' <> INVALID_RUNE ->
  n = (p + k)%nat /\ bad v' = false /\ v' / 64 ^ Z.of_nat k = v /\ 0 <= v' /\
  forall i, (i < k)%nat ->
    at_ s (p + i) = 0x80 + v' / 64 ^ Z.of_nat (k - 1 - i) mod 64.
Proof.
  revert v p. induction k as [|k IH]; intros v p Hv; cbn [get_conts].
  { destruct (bad v) eqn:Hb; intros [= <- <-] ?; [done|].
    split_and!; try lia; try done. by rewrite Z.div_1_r. }
  rewrite get_cont_at. case_bool_decide as Hc; [|by intros [= <- _]].
  intros Hg Hne. apply IH in Hg as (-> & Hb & Hd & H0 & Hi); [|lia|done].
  rewrite Nat2Z.inj_succ, Z.pow_succ_r, Z.mul_comm by lia.
  rewrite <- Z.div_div by lia. rewrite Hd.
  split_and!; [lia|done|dlia|done|].
  intros [|i] Hi'.
  - rewrite Nat.add_0_r. replace (S k - 1 - 0)%nat with k by lia. rewrite Hd. dlia.
  - replace (p + S i)%nat with (S p + i)%nat by lia. rewrite Hi by lia.
    do 4 f_equal. lia.
Qed.

Lemma take_bytes s zs : (forall i z, zs !! i = Some z -> at_ s i = z /\ z <> 0) ->
  take (length zs) s = chr <$> zs.
Proof.
  revert s. induction zs as [|z zs IH]; intros s H; [done|].
  destruct (H 0%nat z eq_refl) as [H0 Hz]. destruct s as [|c s].
  { change (at_ [] 0) with 0 in H0. congruence. }
  cbn. rewrite <- H0, at_cons_0, chr_ord. f_equal. apply IH.
  intros i z' Hi. apply (H (S i)), Hi.
Qed.

(** One multi-byte form of [get_utf_sound]: lead byte [base + hi] with the value's
    high part [hi], then [k] continuation bytes. *)
Lemma get_utf_sound_multi k s bad v n hi zs : 0 <= hi -> 0 < at_ s 0 ->
  get_conts k s hi 1 bad = (v, n) -> v <> INVALID_RUNE ->
  length zs = S k -> zs !! 0%nat = Some (at_ s 0) ->
  (forall i, (i < k)%nat ->
    zs !! S i = Some (0x80 + v / 64 ^ Z.of_nat (k - 1 - i) mod 64)) ->
  take n s = chr <$> zs.
Proof.
  intros Hhi Hs Hg Hne Hlen H0 HS.
  apply get_conts_sound in Hg as (-> & _ & _ & _ & Hi); [|done..].
  rewrite Nat.add_1_l, <- Hlen. apply take_bytes. intros [|i] z Hz.
  { rewrite H0 in Hz. injection Hz as <-. lia. }
  assert (i < k)%nat by (apply lookup_lt_Some in Hz; lia).
  rewrite HS in Hz by done. injection Hz as <-. rewrite <- Hi by done.
  split; [done|]. rewrite Hi by done. dlia.
Qed.

(** Evaluate the powers of 64. *)
Ltac pow64 := repeat match goal with
  | H : context [64 ^ Z.of_nat ?k] |- _ =>
      let x := eval vm_compute in (64 ^ Z.of_nat k) in
      change (64 ^ Z.of_nat k) with x in H
  | |- context [64 ^ Z.of_nat ?k] =>
      let x := eval vm_compute in (64 ^ Z.of_nat k) in
      change (64 ^ Z.of_nat k) with x
  end.

Lemma get_utf_sound s v n : nul_free s -> s <> [] -> get_utf s = (v, n) ->
  v <> INVALID_RUNE -> scalar v /\ take n s = chr <$> utf_bytes v.
Proof.
  intros Hs Hne. assert (H0 : 0 < at_ s 0 < 256).
  { pose proof (at_range s 0). assert (at_ s 0 <> 0); [|lia].
    apply nul_free_at; [done|]. destruct s; cbn; [done|lia]. }
  unfold get_utf. change (cur s) with (at_ s 0).
  destruct (Z.leb_spec (at_ s 0) 0x7f).
  { intros [= <- <-] _. split; [unfold scalar; lia|]. unfold utf_bytes. cmp.
    apply (take_bytes s [_]). intros [|i] z [= <-]. lia. }
  destruct (Z.leb_spec (at_ s 0) 0xbf); [by intros [= <- _]|].
  rewrite land_31, land_15, land_7.
  repeat case_match; intros Hg Hv; try (by simplify_eq);
    pose proof Hg as Hg'; apply get_conts_sound in Hg' as (_ & Hb & Hd & _ & Hi);
    try done; try dlia;
    [pose proof (Hi 0%nat ltac:(lia)); unfold bad2 in Hb
    |pose proof (Hi 0%nat ltac:(lia)); unfold bad3 in Hb
    |pose proof (Hi 0%nat ltac:(lia)); unfold bad4 in Hb];
    pow64; (split; [unfold scalar; dlia|]);
    (eapply get_utf_sound_multi; [| |exact Hg|..]; [dlia|lia|done|..]);
    unfold utf_bytes; cmp; try done; cbn;
    try (f_equal; dlia);
    intros i Hik; repeat (destruct i as [|i]; [cbn; pow64; by rewrite ?Z.div_1_r|]); lia.
Qed.

(** ** Strings as sequences of characters

    [utf_chunks s] cuts a string, well-formed UTF-8 or not, at the places where
    [get_utf] stops: the abstract view that the counting routines implement. *)
Fixpoint utf_chunks_aux (fuel : nat) (s : cstr) : list cstr :=
  match fuel, s with
  | S fuel, _ :: _ =>
      let n := (get_utf s).2 in take n s :: utf_chunks_aux fuel (drop n s)
  | _, _ => []
  end.
Definition utf_chunks (s : cstr) : list cstr := utf_chunks_aux (length s) s.

Section chunks.
(** The induction that follows the decoding loop. *)
Lemma utf_ind (P : cstr -> Prop) :
  P [] ->
  (forall s v n, nul_free s -> s <> [] -> get_utf s = (v, n) -> v <> 0 ->
    (1 <= n <= length s)%nat -> P (drop n s) -> P s) ->
  forall s, nul_free s -> P s.
Proof.
  intros H0 HS s. remember (length s) as k eqn:Hk. revert s Hk.
  induction (lt_wf k) as [k _ IH]. intros s -> Hs.
  destruct (decide (s = [])) as [->|Hne]; [done|].
  destruct (get_utf s) as [v n] eqn:Hg.
  pose proof (get_utf_bounds s v n Hs Hne Hg).
  eapply HS; eauto using get_utf_nonzero.
  eapply IH; [|done|by apply nul_free_drop]. rewrite length_drop. lia.
Qed.

Lemma utf_chunks_fuel s : nul_free s -> forall f1 f2,
  (length s <= f1)%nat -> (length s <= f2)%nat ->
  utf_chunks_aux f1 s = utf_chunks_aux f2 s.
Proof.
  intros Hs. pattern s. revert s Hs. apply utf_ind; [by intros [] []|].
  intros s v n Hs Hne Hg Hv Hn IH f1 f2 H1 H2.
  destruct s as [|c s]; [done|]. destruct f1, f2; cbn in H1, H2; try lia.
  cbn [utf_chunks_aux]. rewrite Hg. cbn [snd].
  f_equal. apply IH; rewrite length_drop; cbn [length] in *; lia.
Qed.

Lemma utf_chunks_unfold s v n : nul_free s -> s <> [] -> get_utf s = (v, n) ->
  utf_chunks s = take n s :: utf_chunks (drop n s).
Proof.
  intros Hs Hne Hg. pose proof (get_utf_bounds s v n Hs Hne Hg).
  unfold utf_chunks at 1. destruct s as [|c s]; [done|].
  cbn [length utf_chunks_aux]. rewrite Hg. cbn [snd]. f_equal.
  apply utf_chunks_fuel; [by apply nul_free_drop|..];
    rewrite length_drop; cbn [length] in *; lia.
Qed.

Lemma concat_utf_chunks s : nul_free s -> concat (utf_chunks s) = s.
Proof.
  revert s. apply utf_ind; [done|]. intros s v n Hs Hne Hg _ Hn IH.
  rewrite (utf_chunks_unfold s v n) by done. cbn. by rewrite IH, take_drop.
Qed.

Lemma strlen_utf_loop_chunks s : nul_free s -> forall f i, (length s < f)%nat ->
  strlen_utf_loop f s i = i + Z.of_nat (length (utf_chunks s)).
Proof.
  revert s. apply (utf_ind (fun s => forall f i, _ -> _)).
  { intros [|f] i Hf; [cbn in Hf; lia|].
    cbn [strlen_utf_loop]. rewrite get_utf_nil. cbn. lia. }
  intros s v n Hs Hne Hg Hv Hn IH [|f] i Hf; [lia|].
  cbn [strlen_utf_loop]. rewrite Hg. destruct (Z.eqb_spec v 0); [done|].
  rewrite IH, (utf_chunks_unfold s v n) by (done || rewrite length_drop; lia).
  cbn [length]. lia.
Qed.

Lemma skip_utf_loop_chunks s : nul_free s -> forall f i,
  (length s <= f)%nat -> 0 <= i ->
  skip_utf_loop f s i = length (concat (take (Z.to_nat i) (utf_chunks s))).
Proof.
  revert s. apply (utf_ind (fun s => forall f i, _ -> _ -> _)).
  { intros [|f] i Hf Hi; cbn [skip_utf_loop]; rewrite ?cur_nil; cbn;
      by rewrite take_nil. }
  intros s v n Hs Hne Hg Hv Hn IH [|f] i Hf Hi; [lia|].
  cbn [skip_utf_loop]. rewrite (utf_chunks_unfold s v n) by done.
  destruct (Z.eqb_spec (cur s) 0); [by apply cur_nul_free in e|].
  destruct (Z.eqb_spec i 0) as [->|]; [done|]. cbn [orb].
  rewrite Hg. cbn [snd]. rewrite IH by (rewrite ?length_drop; lia).
  replace (Z.to_nat i) with (S (Z.to_nat (i - 1))) by lia.
  cbn. rewrite length_app, length_take. lia.
Qed.

(** The chunks of an encoded text are its encoded characters. *)
Lemma utf_chunks_encoded v rest : scalar v -> v <> 0 -> nul_free rest ->
  utf_chunks ((chr <$> utf_bytes v) ++ rest)
    = (chr <$> utf_bytes v) :: utf_chunks rest.
Proof.
  intros Hv Hv0 Hr. pose proof (get_utf_bytes v rest Hv) as Hg.
  assert (nul_free (chr <$> utf_bytes v)).
  { destruct Hv as [Hv Hsur]. unfold utf_bytes, nul_free.
    repeat case_match; cbn; repeat constructor; rewrite ord_chr; dlia. }
  assert ((chr <$> utf_bytes v) ++ rest <> []).
  { pose proof (length_utf_bytes v). destruct (utf_bytes v); cbn in *; [lia|done]. }
  assert (nul_free ((chr <$> utf_bytes v) ++ rest)) by (by apply nul_free_app).
  rewrite (utf_chunks_unfold _ _ _) by done.
  rewrite <- (length_fmap chr), take_app_length, drop_app_length. done.
Qed.
End chunks.

(** The UTF-8 text of the code points [vs], written by successive [put_utf]s. *)
Definition encode (vs : list Z) : option cstr :=
  concat (A:=ascii) <$> mapM put_utf vs.

(** ** Properties *)

Lemma encode_cons v vs s : encode (v :: vs) = Some s <->
  exists bs s', put_utf v = Some bs /\ encode vs = Some s' /\ s = bs ++ s'.
Proof.
  unfold encode. cbn. destruct (put_utf v) as [bs|]; cbn.
  2: { split; [done|by intros (? & ? & [=] & _)]. }
  destruct (mapM put_utf vs); cbn.
  - split; [intros [= <-]; eauto|by intros (? & ? & [= <-] & [= <-] & ->)].
  - split; [done|by intros (? & ? & _ & [=] & _)].
Qed.

Lemma put_utf_int v bs : int_range 32 v -> put_utf v = Some bs ->
  scalar v /\ bs = chr <$> utf_bytes v.
Proof.
  intros Hr [Hs ->]%put_utf_spec. unfold int_range, scalar, u32 in *.
  destruct (Z.le_gt_cases 0 v).
  - rewrite Z.mod_small in * by lia. done.
  - rewrite <- (Z.mod_unique_pos v (2 ^ 32) (-1) (v + 2 ^ 32)) in Hs by lia. lia.
Qed.

(** A text of non-NUL code points: its bytes, and its chunks. *)
Lemma encode_chunks vs s : Forall (fun v => 0 < v < 2 ^ 31) vs -> encode vs = Some s ->
  nul_free s /\ Forall2 (fun v c => scalar v /\ c = chr <$> utf_bytes v) vs (utf_chunks s).
Proof.
  revert s. induction vs as [|v vs IH]; intros s Hvs He.
  { injection He as <-. split; constructor. }
  inversion Hvs as [|?? Hv Hvs']; subst.
  apply encode_cons in He as (bs & s' & Hp & He & ->).
  apply put_utf_int in Hp as [Hsc ->]; [|unfold int_range; lia].
  destruct (IH s' Hvs' He) as [Hn Hf]. split.
  - apply nul_free_app. split; [|done]. destruct Hsc. unfold utf_bytes, nul_free.
    repeat case_match; cbn; repeat constructor; rewrite ord_chr; dlia.
  - rewrite utf_chunks_encoded by (done || lia). constructor; auto.
Qed.

(** What [put_utf] writes, [get_utf] reads back, whatever follows it. *)
Theorem get_put_utf vv bs rest : put_utf vv = Some bs ->
  get_utf (bs ++ rest) = (u32 vv, length bs).
Proof.
  intros [Hs ->]%put_utf_spec. rewrite get_utf_bytes, length_fmap by done. done.
Qed.

Lemma get_put_utf_witness :
  get_utf ([chr 0xe2; chr 0x82; chr 0xac] ++ lit "!") = (0x20ac, 3%nat).
Proof. apply (get_put_utf 0x20ac). vm_compute. reflexivity. Defined.

(** [get_utf] accepts only the shortest form: a successful decoding consumes
    the very bytes that [put_utf] writes for the rune. *)
Theorem get_utf_canonical s v n : nul_free s -> s <> [] ->
  get_utf s = (v, n) -> v <> INVALID_RUNE -> put_utf v = Some (take n s).
Proof.
  intros Hs Hne Hg Hv. destruct (get_utf_sound s v n Hs Hne Hg Hv) as [Hsc ->].
  apply put_utf_spec.
  by replace (u32 v) with v by (unfold u32; rewrite Z.mod_small; destruct Hsc; lia).
Qed.

Lemma get_utf_canonical_witness :
  put_utf 0xe9 = Some (take 2 [chr 0xc3; chr 0xa9; chr 0x61]).
Proof.
  apply get_utf_canonical; vm_compute; first [reflexivity|congruence|idtac].
  repeat constructor; vm_compute; congruence.
Defined.

(** On every string, well-formed or not, a decoding step stays before the NUL
    and makes progress, and only the NUL decodes to 0. *)
Theorem get_utf_safe s : nul_free s -> s <> [] ->
  (1 <= (get_utf s).2 <= length s)%nat /\ (get_utf s).1 <> 0.
Proof.
  intros Hs Hne. destruct (get_utf s) as [v n] eqn:Hg. cbn. split.
  - by eapply get_utf_bounds.
  - by eapply get_utf_nonzero.
Qed.

Lemma get_utf_safe_witness :
  (1 <= (get_utf [chr 0xe3; chr 0x80]).2 <= 2)%nat /\ (get_utf [chr 0xe3; chr 0x80]).1 <> 0.
Proof.
  apply (get_utf_safe [chr 0xe3; chr 0x80]); [|done].
  repeat constructor; vm_compute; congruence.
Defined.

(** The character view: [strlen_utf] is the
    number of chunks, [skip_utf] the bytes of the first [i] of them. *)
Lemma utf_counting_spec s : nul_free s ->
  concat (utf_chunks s) = s /\
  strlen_utf s = Z.of_nat (length (utf_chunks s)) /\
  forall i, 0 <= i -> skip_utf s i = length (concat (take (Z.to_nat i) (utf_chunks s))).
Proof.
  intros Hs. split_and!.
  - by apply concat_utf_chunks.
  - unfold strlen_utf. rewrite strlen_utf_loop_chunks by (done || lia). lia.
  - intros i Hi. by apply skip_utf_loop_chunks.
Qed.

(** On every byte string (well-formed UTF-8 or not), [strlen_utf] counts the
    characters of its division into chunks, the chunks together are the string, and
    [skip_utf] gives the offset of the [i]-th of them. *)
Theorem utf_counting s : nul_free s ->
  concat (utf_chunks s) = s /\
  strlen_utf s = Z.of_nat (length (utf_chunks s)) /\
  forall i, 0 <= i -> skip_utf s i = length (concat (take (Z.to_nat i) (utf_chunks s))).
Proof. apply utf_counting_spec. Qed.

Lemma utf_counting_witness :
  let s := [chr 0x61; chr 0xc3; chr 0xa9; chr 0x80] in
  strlen_utf s = 3 /\ skip_utf s 2 = 3%nat.
Proof.
  intros s. destruct (utf_counting s) as (_ & -> & H).
  - repeat constructor; vm_compute; congruence.
  - split; [reflexivity|]. rewrite H by lia. reflexivity.
Defined.

(** *** The callback version *)

Lemma get_cont_call_cons c src v : 0x80 <= ord c < 0xc0 ->
  get_cont_call (c :: src) v = inl (64 * v + (ord c - 0x80), src).
Proof.
  intros Hc. unfold get_cont_call. cbn [c_getch].
  destruct (Z.gtb_spec (ord c - 0x80) 0x3f); [lia|].
  rewrite Z.shiftl_mul_pow2 by lia. do 2 f_equal. lia.
Qed.

(** on well-formed input [get_utf_call] agrees with [get_utf]: it returns the
    encoded rune, consumes exactly its bytes, and leaves no pushed-back byte. *)
Theorem get_utf_call_encoded v rest : scalar v ->
  get_utf_call ((chr <$> utf_bytes v) ++ rest) (-1) = (v, rest, -1).
Proof.
  intros [Hv Hs]. unfold get_utf_call, utf_bytes. rewrite Z.eqb_refl.
  destruct (Z.leb_spec v 0x7f).
  { cbn [fmap list_fmap app c_getch]. rewrite ord_chr by lia.
    destruct (Z.eqb_spec v (-1)); [lia|]. cbn [andb]. by cmp. }
  destruct (Z.leb_spec v 0x7ff); [|destruct (Z.leb_spec v 0xffff)];
    cbn [fmap list_fmap app c_getch]; rewrite ord_chr by dlia;
    match goal with |- context [?a =? -1] => destruct (Z.eqb_spec a (-1)); [dlia|] end;
    cbn [andb]; cmp; cbn [get_conts_call];
    rewrite !get_cont_call_cons by (rewrite ord_chr; dlia);
    rewrite ?land_31, ?land_15, ?land_7, !ord_chr by dlia;
    replace (64 * _ + _) with v by dlia; unfold bad2, bad3, bad4; cmp; try done.
  destruct (Z.leb_spec 0xd800 v); cmp; done.
Qed.

Lemma get_utf_call_encoded_witness :
  get_utf_call ((chr <$> utf_bytes 0x20ac) ++ lit "x") (-1) = (0x20ac, lit "x", -1).
Proof. apply get_utf_call_encoded. unfold scalar. lia. Defined.

(** the example of the comment above [get_utf_call]: the bytes E3 80 41 are an
    invalid sequence followed by "A" for [get_utf], but [get_utf_call], whose [c] is
    a signed [int], accepts 41 as a continuation byte and returns one valid-looking
    rune; a sequence cut short by the end of input is accepted the same way. *)
Theorem get_utf_call_accepts_truncated :
  (get_utf [chr 0xe3; chr 0x80; chr 0x41] = (INVALID_RUNE, 2%nat) /\
   get_utf_call [chr 0xe3; chr 0x80; chr 0x41] (-1) = (0x2fc1, [], -1)) /\
  (get_utf [chr 0xe3; chr 0x80] = (INVALID_RUNE, 2%nat) /\
   get_utf_call [chr 0xe3; chr 0x80] (-1) = (0x2f7f, [], -1)).
Proof. vm_compute. done. Qed.
