(* ===== verification/Streams.v ===== *)
(** * Growable byte buffers (src/streams.c)

    A [Stream] is a heap block of [buflen] bytes and the number [current] of bytes
    in use.  Every write goes through [poke], which faults outside of the block, so
    the theorems include memory safety.  The abstract view is the byte string
    [contents]; each operation refines an operation on it. *)

From S2P Require Import Prelude Utf.

Open Scope Z_scope.

(** The cells of [buffer] beyond [current] are whatever [malloc] returned. *)
Record Stream := mkStream { buffer : cstr; current : nat }.

Definition buflen (s : Stream) : nat := length (buffer s).

(** A fresh block of [n] bytes with unspecified contents. *)
Definition fresh_block (n : nat) : cstr := replicate n zero.

(** [memcpy] of [bytes] to offset [pos] of a block. *)
Definition poke (b : cstr) (pos : nat) (bytes : cstr) : res cstr :=
  if decide (pos + length bytes <= length b)%nat
  then Ok (take pos b ++ bytes ++ drop (pos + length bytes) b)
  else Fail Segv.

Definition new_stream (size : Z) : Stream :=
  let size := if size <? 1 then 1 else size in
  mkStream (fresh_block (Z.to_nat size)) 0.

Definition grow (s : Stream) (newlen : nat) : res Stream :=
  newbuf ← poke (fresh_block newlen) 0 (take (current s) (buffer s));
  Ok (mkStream newbuf (current s)).

Definition stream_add_char (s : Stream) (c : ascii) : res Stream :=
  s ← (if decide (buflen s <= current s + 1)%nat then grow s (buflen s * 2) else Ok s);
  b ← poke (buffer s) (current s) [c];
  Ok (mkStream b (current s + 1)).

(** The result code of [put_utf] is returned: 0, or -1 with nothing written. *)
Definition stream_add_utf (s : Stream) (c : Z) : res (Z * Stream) :=
  s ← (if decide (buflen s <= current s + 4)%nat
       then grow s (buflen s * 2 + 4) else Ok s);
  match put_utf c with
  | Some bs =>
      b ← poke (buffer s) (current s) bs;
      Ok (0, mkStream b (current s + length bs))
  | None => Ok (-1, s)
  end.

Definition stream_delete_char (s : Stream) : Stream :=
  if decide (0 < current s)%nat then mkStream (buffer s) (current s - 1) else s.

(** [(c & 0xc0) == 0x80]: a continuation byte. *)
Definition is_cont (c : Z) : bool := Z.land c 0xc0 =? 0x80.

(** The loop that backs over continuation bytes; it reads [buffer[-1]] when there
    is no other byte before them. *)
Fixpoint back_over (b : cstr) (pos : nat) : res nat :=
  c ← deref (b !! pos);
  if is_cont (ord c) then match pos with O => Fail Segv | S pos => back_over b pos end
  else Ok pos.

Definition stream_delete_utf (s : Stream) : res Stream :=
  if decide (0 < current s)%nat then
    pos ← back_over (buffer s) (current s - 1);
    Ok (mkStream (buffer s) pos)
  else Ok s.

(** The common growth step of [stream_add_string], [stream_add_bytes] and
    [stream_printf]: room for [len] bytes and a NUL. *)
Definition make_room (s : Stream) (len : nat) : res Stream :=
  if decide (buflen s <= current s + len)%nat then
    let newlen := (buflen s * 2)%nat in
    let newlen := if decide (newlen <= current s + len)%nat
                  then (current s + len + 1)%nat else newlen in
    grow s newlen
  else Ok s.

(** [strcpy] also writes the terminating NUL. *)
Definition stream_add_string (s : Stream) (string : cstr) : res Stream :=
  let len := length string in
  s ← make_room s len;
  b ← poke (buffer s) (current s) (string ++ [zero]);
  Ok (mkStream b (current s + len)).

Definition stream_add_bytes (s : Stream) (bytes : cstr) : res Stream :=
  let len := length bytes in
  s ← make_room s len;
  b ← poke (buffer s) (current s) bytes;
  Ok (mkStream b (current s + len)).

(** [vsnprintf] into the free part of a block: at most [room - 1] bytes of the
    formatted text and a NUL are written; the full length is returned. *)
Definition vsnprintf (b : cstr) (pos : nat) (text : cstr) : res (nat * cstr) :=
  let room := (length b - pos)%nat in
  b ← (match room with
       | O => Ok b
       | S room => poke b pos (take room text ++ [zero])
       end);
  Ok (length text, b).

(** [text] is the formatted output for the arguments. *)
Definition stream_printf (s : Stream) (text : cstr) : res Stream :=
  '(len, b) ← vsnprintf (buffer s) (current s) text;
  let s := mkStream b (current s) in
  if decide (buflen s <= current s + len)%nat then
    s ← make_room s len;
    '(len, b) ← vsnprintf (buffer s) (current s) text;
    Ok (mkStream b (current s + len))
  else Ok (mkStream (buffer s) (current s + len)).

Definition contents (s : Stream) : cstr := take (current s) (buffer s).

Definition stream_contents (s : Stream) : res (cstr * Stream) :=
  b ← poke (buffer s) (current s) [zero];
  Ok (take (current s) b, mkStream b (current s)).

Definition reset_stream (s : Stream) : res (cstr * Stream) :=
  b ← poke (buffer s) (current s) [zero];
  Ok (take (current s) b, mkStream b 0).

Definition stream_length (s : Stream) : nat := current s.

(** ** Refinement to byte strings *)

(** The invariant: there is always room for the terminating NUL. *)
Definition wf_stream (s : Stream) : Prop := (current s < buflen s)%nat.

(** [refines m s str]: the C operation succeeds, keeps the invariant, and leaves
    [str] in the stream. *)
Definition refines (m : res Stream) (str : cstr) : Prop :=
  exists s, m = Ok s /\ wf_stream s /\ contents s = str.

Lemma poke_Ok b pos bytes : (pos + length bytes <= length b)%nat ->
  exists b', poke b pos bytes = Ok b' /\ length b' = length b /\
    take (pos + length bytes) b' = take pos b ++ bytes.
Proof.
  intros H. unfold poke. rewrite decide_True by done. eexists. split_and!; [done|..].
  - rewrite !length_app, length_take, length_drop. lia.
  - rewrite app_assoc, take_app_le by (rewrite length_app, length_take; lia).
    apply take_ge. rewrite length_app, length_take. lia.
Qed.

Lemma grow_Ok s n : wf_stream s -> (current s <= n)%nat ->
  exists s', grow s n = Ok s' /\ buflen s' = n /\ current s' = current s /\
    contents s' = contents s.
Proof.
  intros Hwf Hn. unfold wf_stream, buflen in *. unfold grow.
  destruct (poke_Ok (fresh_block n) 0 (take (current s) (buffer s))) as (b & -> & Hl & Ht).
  { unfold fresh_block. rewrite length_take, length_replicate. lia. }
  eexists. split_and!; [done|..]; unfold buflen, contents; cbn; try done.
  - rewrite Hl. apply length_replicate.
  - rewrite take_0 in Ht. rewrite length_take in Ht.
    by replace (0 + current s `min` length (buffer s))%nat with (current s) in Ht by lia.
Qed.

(** Appending after making sure that there is room. *)
Lemma append_Ok s bytes more : (current s + length (bytes ++ more) <= buflen s)%nat ->
  (current s + length bytes < buflen s)%nat ->
  refines (b ← poke (buffer s) (current s) (bytes ++ more);
           Ok (mkStream b (current s + length bytes))) (contents s ++ bytes).
Proof.
  intros H H'. destruct (poke_Ok _ _ _ H) as (b & -> & Hl & Ht). eexists.
  split_and!; [done|..].
  - unfold wf_stream, buflen in *. cbn. rewrite Hl. done.
  - unfold contents. cbn. apply (f_equal (take (current s + length bytes))) in Ht.
    rewrite take_take, length_app, Nat.min_l in Ht by lia. rewrite Ht, app_assoc.
    rewrite take_app_le by (rewrite length_app, length_take; unfold buflen in *; lia).
    apply take_ge. rewrite length_app, length_take. lia.
Qed.

Lemma make_room_Ok s len : wf_stream s -> exists s', make_room s len = Ok s' /\
  current s' = current s /\ contents s' = contents s /\ (current s' + len < buflen s')%nat.
Proof.
  intros Hwf. unfold make_room. case_decide; [|exists s; split_and!; done || lia].
  set (n := if decide _ then _ else _).
  assert (current s + len < n)%nat by (unfold n; case_decide; lia).
  destruct (grow_Ok s n Hwf) as (s' & -> & Hb & Hc & Hs); [lia|].
  exists s'. split_and!; try done. lia.
Qed.

Lemma add_char_refines s c : wf_stream s ->
  refines (stream_add_char s c) (contents s ++ [c]).
Proof.
  intros Hwf. unfold stream_add_char. case_decide as Hd.
  - destruct (grow_Ok s (buflen s * 2) Hwf) as (s' & -> & Hb & Hc & <-).
    { unfold wf_stream in *. lia. }
    rewrite <- (app_nil_r [c]). apply append_Ok; cbn; unfold wf_stream in *; lia.
  - cbn. apply (append_Ok s [c] []); cbn; unfold wf_stream in *; lia.
Qed.

Lemma add_string_refines s str : wf_stream s ->
  refines (stream_add_string s str) (contents s ++ str).
Proof.
  intros Hwf. unfold stream_add_string.
  destruct (make_room_Ok s (length str) Hwf) as (s' & -> & Hc & <- & Hr). cbn.
  apply append_Ok; [rewrite length_app; cbn; lia|lia].
Qed.

Lemma add_bytes_refines s bytes : wf_stream s ->
  refines (stream_add_bytes s bytes) (contents s ++ bytes).
Proof.
  intros Hwf. unfold stream_add_bytes.
  destruct (make_room_Ok s (length bytes) Hwf) as (s' & -> & Hc & <- & Hr). cbn.
  rewrite <- (app_nil_r bytes) at 1. apply append_Ok; [rewrite app_nil_r|]; lia.
Qed.

(** [vsnprintf] past the bytes in use leaves them alone. *)
Lemma vsnprintf_Ok s text : wf_stream s -> exists b,
  vsnprintf (buffer s) (current s) text = Ok (length text, b) /\
  length b = buflen s /\ take (current s) b = contents s /\
  ((current s + length text < buflen s)%nat ->
     take (current s + length text) b = contents s ++ text).
Proof.
  intros Hwf. unfold wf_stream, buflen, vsnprintf in *.
  destruct (length (buffer s) - current s)%nat as [|room] eqn:Hroom; [lia|].
  destruct (poke_Ok (buffer s) (current s) (take room text ++ [zero]))
    as (b & -> & Hl & Ht).
  { rewrite length_app, length_take. cbn. lia. }
  exists b. cbn. split_and!; [done|done|..].
  - apply (f_equal (take (current s))) in Ht.
    rewrite take_take, Nat.min_l, take_app_le in Ht by (rewrite ?length_take; lia).
    rewrite Ht. rewrite take_take. unfold contents. f_equal. lia.
  - intros Hlt. unfold contents. apply (f_equal (take (current s + length text))) in Ht.
    rewrite (take_ge text) in Ht by lia.
    rewrite take_take, length_app, Nat.min_l in Ht by lia. rewrite Ht, app_assoc.
    rewrite take_app_le by (rewrite length_app, length_take; lia).
    apply take_ge. rewrite length_app, length_take. lia.
Qed.

Lemma printf_refines s text : wf_stream s ->
  refines (stream_printf s text) (contents s ++ text).
Proof.
  intros Hwf. unfold stream_printf.
  destruct (vsnprintf_Ok s text Hwf) as (b & -> & Hl & Ht & Hfull). cbn.
  set (s1 := mkStream b (current s)).
  assert (Hwf1 : wf_stream s1) by (unfold wf_stream, buflen in *; cbn; lia).
  assert (Hc1 : contents s1 = contents s) by done.
  assert (Hb1 : buflen s1 = buflen s) by done.
  case_decide as Hd.
  - destruct (make_room_Ok s1 (length text) Hwf1) as (s2 & -> & Hc & Hs & Hr). cbn.
    destruct (vsnprintf_Ok s2 text) as (b2 & -> & Hl2 & _ & Hfull2).
    { unfold wf_stream. lia. }
    cbn. eexists. split_and!; [done|..].
    + unfold wf_stream, buflen in *. cbn in *. lia.
    + unfold contents at 1. cbn. rewrite Hfull2 by done. congruence.
  - eexists. split_and!; [done|..].
    + unfold wf_stream, buflen in *. cbn in *. lia.
    + unfold contents at 1. cbn. apply Hfull. cbn in Hd. lia.
Qed.

Lemma add_utf_refines s c : wf_stream s -> exists r s',
  stream_add_utf s c = Ok (r, s') /\ wf_stream s' /\
  match put_utf c with
  | Some bs => r = 0 /\ contents s' = contents s ++ bs
  | None => r = -1 /\ contents s' = contents s
  end.
Proof.
  intros Hwf. unfold stream_add_utf.
  set (m := if decide _ then _ else _).
  assert (exists s1, m = Ok s1 /\ contents s1 = contents s /\
    (current s1 + 4 < buflen s1)%nat) as (s1 & -> & <- & Hr).
  { unfold m, wf_stream in *. case_decide; [|exists s; split_and!; done || lia].
    destruct (grow_Ok s (buflen s * 2 + 4)) as (s1 & -> & Hb & Hc & Hs);
      [unfold wf_stream; lia..|]. exists s1. split_and!; try done. lia. }
  cbn. destruct (put_utf c) as [bs|] eqn:Hp.
  2: { exists (-1), s1. split_and!; try done. unfold wf_stream. lia. }
  assert (length bs <= 4)%nat.
  { apply put_utf_spec in Hp as [_ ->]. rewrite length_fmap. apply length_utf_bytes. }
  destruct (append_Ok s1 bs []) as (s2 & He & Hw & Hc); [rewrite app_nil_r; lia|lia|].
  rewrite app_nil_r in He. exists 0, s2.
  destruct (poke _ _ bs); cbn in *; simplify_eq. done.
Qed.

(** ** Properties *)

(** The appending operations, as commands. *)
Inductive stream_op :=
  | AddChar (c : ascii)
  | AddUtf (c : Z)
  | AddString (str : cstr)
  | AddBytes (bytes : cstr)
  | Printf (text : cstr).

Definition run_op (s : Stream) (op : stream_op) : res Stream :=
  match op with
  | AddChar c => stream_add_char s c
  | AddUtf c => '(_, s) ← stream_add_utf s c; Ok s
  | AddString str => stream_add_string s str
  | AddBytes bytes => stream_add_bytes s bytes
  | Printf text => stream_printf s text
  end.

Fixpoint run_ops (s : Stream) (ops : list stream_op) : res Stream :=
  match ops with
  | [] => Ok s
  | op :: ops => s ← run_op s op; run_ops s ops
  end.

(** What an operation appends. *)
Definition op_text (op : stream_op) : cstr :=
  match op with
  | AddChar c => [c]
  | AddUtf c => default [] (put_utf c)
  | AddString t | AddBytes t | Printf t => t
  end.

Lemma run_op_refines s op : wf_stream s ->
  refines (run_op s op) (contents s ++ op_text op).
Proof.
  intros Hwf. destruct op as [c|c|str|bytes|text]; cbn [run_op op_text].
  - by apply add_char_refines.
  - destruct (add_utf_refines s c Hwf) as (r & s' & -> & Hw & Hc). cbn.
    exists s'. split_and!; try done.
    destruct (put_utf c); destruct Hc as [_ ->]; [done|]. by rewrite app_nil_r.
  - by apply add_string_refines.
  - by apply add_bytes_refines.
  - by apply printf_refines.
Qed.

(** Any sequence of appends to a new stream, whatever the initial size, stays
    inside the (growing) buffer, keeps room for the NUL, and [reset_stream] returns
    the concatenation of the appended texts. *)
Theorem stream_appends size ops : exists s s',
  run_ops (new_stream size) ops = Ok s /\ wf_stream s /\
  reset_stream s = Ok (concat (op_text <$> ops), s') /\ wf_stream s' /\ contents s' = [].
Proof.
  assert (Hrun : forall s, wf_stream s ->
    refines (run_ops s ops) (contents s ++ concat (op_text <$> ops))).
  { induction ops as [|op ops IH]; intros s Hwf; cbn.
    - exists s. by rewrite app_nil_r.
    - destruct (run_op_refines s op Hwf) as (s1 & -> & Hw & Hc). cbn.
      rewrite app_assoc, <- Hc. by apply IH. }
  destruct (Hrun (new_stream size)) as (s & Hs & Hwf & Hc).
  { unfold wf_stream, buflen, new_stream, fresh_block. cbn.
    rewrite length_replicate. case_match; lia. }
  exists s. unfold reset_stream, wf_stream, buflen in *.
  destruct (poke_Ok (buffer s) (current s) [zero]) as (b & -> & Hl & Ht); [cbn; lia|].
  cbn. exists (mkStream b 0). split_and!; [done|done| |cbn; lia|done].
  f_equal. f_equal. change (contents (new_stream size)) with (@nil ascii) in Hc.
  cbn in Hc. rewrite <- Hc. apply (f_equal (take (current s))) in Ht.
  rewrite take_take, Nat.min_l, take_app_le in Ht by (rewrite ?length_take; lia).
  rewrite Ht, take_take. unfold contents. f_equal. lia.
Qed.

(** The characters that [back_over] passes. *)
Lemma back_over_Ok b pos : (pos < length b)%nat ->
  Exists (fun c => is_cont (ord c) = false) (take (S pos) b) ->
  exists pos', back_over b pos = Ok pos' /\ (pos' <= pos)%nat /\
    is_cont (at_ b pos') = false /\
    forall i, (pos' < i <= pos)%nat -> is_cont (at_ b i) = true.
Proof.
  revert b. induction pos as [|pos IH]; intros b Hp Hex;
    destruct (lookup_lt_is_Some_2 b _ Hp) as [c Hc];
    (erewrite take_S_r in Hex by done); apply Exists_app in Hex;
    cbn [back_over]; rewrite Hc; cbn [deref mbind res_bind].
  - destruct Hex as [Hex|Hex]; [by inversion Hex|].
    apply Exists_cons in Hex as [Hex|Hex]; [|by inversion Hex].
    rewrite Hex. exists 0%nat. unfold at_. rewrite Hc. cbn.
    split_and!; [done|lia|done|lia].
  - destruct (is_cont (ord c)) eqn:Hcc.
    + destruct Hex as [Hex|Hex].
      2: { apply Exists_cons in Hex as [Hex|Hex]; [congruence|by inversion Hex]. }
      destruct (IH b) as (p & -> & Hle & Hnc & Hall); [lia|done|].
      exists p. split_and!; [done|lia|done|]. intros i Hi.
      destruct (decide (i = S pos)) as [->|]; [|apply Hall; lia].
      unfold at_. by rewrite Hc.
    + exists (S pos). unfold at_ at 1. rewrite Hc. cbn. split_and!; [done|lia|done|lia].
Qed.

Lemma is_cont_spec z : 0 <= z < 256 -> is_cont z = bool_decide (0x80 <= z < 0xc0).
Proof.
  intros Hz. apply eqb_prop. revert z Hz.
  apply (byte_forall (fun z => Bool.eqb (is_cont z) (bool_decide (0x80 <= z < 0xc0)))).
  vm_compute. reflexivity.
Qed.

(** The bytes of an encoded character: one lead byte, then continuation bytes. *)
Lemma utf_bytes_shape v : scalar v -> exists c bs, chr <$> utf_bytes v = c :: bs /\
  is_cont (ord c) = false /\ Forall (fun c => is_cont (ord c) = true) bs.
Proof.
  intros [Hv _]. unfold utf_bytes.
  repeat case_match; cbn; eexists _, _; (split; [done|]);
    rewrite ?is_cont_spec by apply ord_range;
    (split; [rewrite ord_chr by dlia; apply bool_decide_false; dlia|]);
    repeat constructor; rewrite is_cont_spec by apply ord_range;
    apply bool_decide_true; rewrite ord_chr by dlia; dlia.
Qed.

(** [stream_delete_utf] undoes a successful [stream_add_utf]: it removes the
    whole character, however many bytes it has. *)
Theorem delete_utf_add_utf s c s' : wf_stream s -> stream_add_utf s c = Ok (0, s') ->
  exists s'', stream_delete_utf s' = Ok s'' /\ wf_stream s'' /\ contents s'' = contents s.
Proof.
  intros Hwf Hadd. destruct (add_utf_refines s c Hwf) as (r & s1 & He & Hw & Hc).
  rewrite Hadd in He. simplify_eq. destruct (put_utf c) as [bs|] eqn:Hp; [|lia].
  destruct Hc as [_ Hc]. apply put_utf_spec in Hp as [Hsc ->].
  destruct (utf_bytes_shape _ Hsc) as (c0 & cs & Heq & Hc0 & Hcs). rewrite Heq in Hc.
  unfold wf_stream, buflen, contents in *.
  assert (Hcur : current s1 = (current s + S (length cs))%nat).
  { apply (f_equal length) in Hc. rewrite length_app, !length_take in Hc. cbn in Hc. lia. }
  assert (Hat : forall i, (i < current s1)%nat ->
    at_ (buffer s1) i = at_ (take (current s) (buffer s) ++ c0 :: cs) i).
  { intros i Hi. rewrite <- Hc. unfold at_. by rewrite lookup_take_lt. }
  assert (Hlen : length (take (current s) (buffer s)) = current s)
    by (rewrite length_take; lia).
  assert (Hlead : at_ (buffer s1) (current s) = ord c0).
  { rewrite Hat by lia. unfold at_. rewrite lookup_app_r, Hlen, Nat.sub_diag by lia. done. }
  unfold stream_delete_utf. rewrite decide_True by lia.
  destruct (back_over_Ok (buffer s1) (current s1 - 1)) as (p & -> & Hle & Hnc & Hall).
  { lia. }
  { replace (S (current s1 - 1)) with (current s1) by lia. rewrite Hc.
    apply Exists_app. right. by constructor. }
  assert (p = current s) as ->.
  { destruct (lt_eq_lt_dec p (current s)) as [[Hlt|]|Hgt]; [|done|].
    - specialize (Hall (current s) ltac:(lia)). rewrite Hlead in Hall. congruence.
    - rewrite Hat in Hnc by lia. unfold at_ in Hnc.
      rewrite lookup_app_r, Hlen in Hnc by lia.
      destruct (p - current s)%nat as [|k] eqn:Hk; [lia|].
      change ((c0 :: cs) !! S k) with (cs !! k) in Hnc. destruct (lookup_lt_is_Some_2 cs k) as [c1 Hc1]; [lia|].
      rewrite Hc1 in Hnc. eapply Forall_lookup_1 in Hcs; [|done]. cbn in *. congruence. }
  cbn. eexists. split_and!; [done|cbn; lia|]. cbn.
  apply (f_equal (take (current s))) in Hc.
  rewrite take_take, Nat.min_l, take_app_le, take_take, Nat.min_l in Hc by lia. done.
Qed.

Lemma delete_utf_add_utf_witness : exists s'',
  stream_delete_utf (mkStream (lit "ab" ++ [chr 0xe2; chr 0x82; chr 0xac] ++ fresh_block 3) 5)
    = Ok s'' /\ wf_stream s'' /\ contents s'' = lit "ab".
Proof.
  apply (delete_utf_add_utf (mkStream (lit "ab" ++ fresh_block 6) 2) 0x20ac).
  - unfold wf_stream. vm_compute. lia.
  - vm_compute. reflexivity.
Defined.
