(* ===== verification/CStrings.v ===== *)
(** * String routines (src/utils.c)

    Case-insensitive comparison, the verb-name matcher, the string hash,
    substitution and search, and the "binary string" encoding. *)

From S2P Require Import Prelude Utf.

Open Scope Z_scope.

(** ** Comparison *)

(** A plain [char] is signed (as on x86-64): a byte read through it. *)
Definition schar (z : Z) : Z := if z <? 128 then z else z - 256.

(** The table [cmap], indexed by an [unsigned char]: ASCII upper case letters are
    mapped to lower case and every other byte to itself. *)
Definition cmap (c : Z) : Z :=
  schar (if (0x41 <=? c) && (c <=? 0x5a) then c + 0x20 else c).

(** The result is 0 or the difference at the first mismatch. *)
Fixpoint mystrcasecmp (s t : cstr) : Z :=
  if cmap (cur s) =? cmap (cur t) then
    match s with
    | [] => 0
    | c :: s' => if ord c =? 0 then 0 else mystrcasecmp s' (tail t)
    end
  else cmap (cur s) - cmap (cur t).

Fixpoint mystrncasecmp_loop (s t : cstr) (n : Z) : Z :=
  if cmap (cur s) =? cmap (cur t) then
    match s with
    | [] => 0
    | c :: s' => if (ord c =? 0) || (n - 1 =? 0) then 0
                 else mystrncasecmp_loop s' (tail t) (n - 1)
    end
  else cmap (cur s) - cmap (cur t).
Definition mystrncasecmp (s t : cstr) (n : Z) : Z :=
  if n =? 0 then 0 else mystrncasecmp_loop s t n.

(** The C library's [strcmp] and [strncmp]: the sign of the first difference. *)
Fixpoint strcmp (s t : cstr) : Z :=
  if cur s =? cur t then
    match s with
    | [] => 0
    | c :: s' => if ord c =? 0 then 0 else strcmp s' (tail t)
    end
  else Z.sgn (cur s - cur t).

Fixpoint strncmp (s t : cstr) (n : nat) : Z :=
  match n with
  | O => 0
  | S n => if cur s =? cur t then
             if cur s =? 0 then 0 else strncmp (tail s) (tail t) n
           else Z.sgn (cur s - cur t)
  end.

(** ** Verb names

    [verbcasecmp verb word]: does [word] match one of the space-separated names
    of [verb], in which stars abbreviate? *)
Inductive star_state := none | inner | end_.

#[export] Instance star_state_eq_dec : EqDecision star_state.
Proof. solve_decision. Defined.

Definition STAR : Z := 42.
Definition SPACE : Z := 32.

Definition at_end_of_name (v : cstr) : bool := (cur v =? 0) || (cur v =? SPACE).

(** [while ( *v == '*') ...] *)
Fixpoint skip_stars (v : cstr) (star : star_state) : cstr * star_state :=
  match v with
  | c :: v' => if ord c =? STAR
               then skip_stars v' (if at_end_of_name v' then end_ else inner)
               else (v, star)
  | [] => (v, star)
  end.

(** [while (1) ...]: the final positions in the word and in the name. *)
Fixpoint match_name (w v : cstr) (star : star_state) : cstr * cstr * star_state :=
  let '(v, star) := skip_stars v star in
  match w, v with
  | cw :: w', cv :: v' =>
      if at_end_of_name v || (ord cw =? 0) || negb (cmap (ord cw) =? cmap (ord cv))
      then (w, v, star) else match_name w' v' star
  | _, _ => (w, v, star)
  end.

Fixpoint skip_while (p : Z -> bool) (v : cstr) : cstr :=
  match v with
  | c :: v' => if p (ord c) then skip_while p v' else v
  | [] => v
  end.

(** [while ( *v && *v != ' ') v++; while ( *v == ' ') v++;] *)
Definition next_name (v : cstr) : cstr :=
  skip_while (fun c => c =? SPACE) (skip_while (fun c => negb (c =? 0) && negb (c =? SPACE)) v).

(** Every iteration moves forward, so [length verb] of them are enough. *)
Fixpoint verbcasecmp_loop (fuel : nat) (v word : cstr) : bool :=
  match fuel with
  | O => false
  | S fuel =>
      if cur v =? 0 then false
      else
        let '(w, v, star) := match_name word v none in
        if (if cur w =? 0 then negb (bool_decide (star = none)) || at_end_of_name v
            else bool_decide (star = end_)) then true
        else verbcasecmp_loop fuel (next_name v) word
  end.
(** [same] says that [verb] and [word] are one pointer, which the function tests
    first. *)
Definition verbcasecmp (same : bool) (verb word : cstr) : bool :=
  same || verbcasecmp_loop (length verb) verb word.

(** ** Hashing *)

Fixpoint str_hash_loop (s : cstr) (ans : Z) : Z :=
  match s with
  | c :: s => str_hash_loop s (u32 (Z.shiftl ans 3 + Z.shiftr ans 28 + cmap (ord c)))
  | [] => ans
  end.
Definition str_hash (s : cstr) : Z := str_hash_loop s 0.

(** ** Substitution and search *)

(** Do the first [length what] characters of [s] match [what]? *)
Definition str_match (s what : cstr) (case_counts : bool) : bool :=
  (if case_counts then strncmp s what (length what)
   else mystrncasecmp s what (Z.of_nat (length what))) =? 0.

(** With an empty [what] the C loop does not end, and neither does this one. *)
Fixpoint strsub_loop (fuel : nat) (source what with_ : cstr) (case_counts : bool)
    (str : cstr) : res cstr :=
  match source with
  | [] => Ok str
  | c :: source' =>
      match fuel with
      | O => Fail OutOfFuel
      | S fuel =>
          if str_match source what case_counts
          then strsub_loop fuel (drop (length what) source) what with_ case_counts
                 (str ++ with_)
          else strsub_loop fuel source' what with_ case_counts (str ++ [c])
      end
  end.
Definition strsub (source what with_ : cstr) (case_counts : bool) : res cstr :=
  strsub_loop (length source) source what with_ case_counts [].

(** [s <= e] holds while at least [length what] bytes remain. *)
Fixpoint strindex_loop (fuel : nat) (s what : cstr) (case_counts : bool) (ind : Z) : Z :=
  match fuel with
  | O => 0
  | S fuel =>
      if decide (length what <= length s)%nat then
        if str_match s what case_counts then ind + 1
        else strindex_loop fuel (drop (get_utf s).2 s) what case_counts (ind + 1)
      else 0
  end.
Definition strindex (source what : cstr) (case_counts : bool) : Z :=
  strindex_loop (S (length source)) source what case_counts 0.

(** [strrindex] walks a pointer, here the offset [s] from [source], backwards. *)
Definition read_at (source : cstr) (s : Z) : res Z :=
  if s <? 0 then Fail Segv else Ok (at_ source (Z.to_nat s)).

Fixpoint skip_back (fuel : nat) (source : cstr) (s : Z) : res Z :=
  match fuel with
  | O => Fail OutOfFuel
  | S fuel =>
      c ← read_at source s;
      if Z.land c 0xc0 =? 0x80 then skip_back fuel source (s - 1) else Ok s
  end.

Fixpoint strrindex_loop (fuel : nat) (source what : cstr) (case_counts : bool)
    (s ind : Z) : res Z :=
  match fuel with
  | O => Fail OutOfFuel
  | S fuel =>
      if s <? 0 then Ok 0
      else if str_match (drop (Z.to_nat s) source) what case_counts then Ok (ind + 1)
      else
        s ← skip_back (length source + 2) source s;
        strrindex_loop fuel source what case_counts (s - 1) (ind - 1)
  end.
Definition strrindex (source what : cstr) (case_counts : bool) : res Z :=
  let s := Z.of_nat (length source) - Z.of_nat (length what) in
  if s <? 0 then Ok 0
  else
    s ← skip_back (length source + 2) source s;
    let ind := strlen_utf source - strlen_utf (drop (Z.to_nat s) source) in
    strrindex_loop (length source + 2) source what case_counts s ind.

(** ** Binary strings *)

Definition hex_digit (d : Z) : ascii := chr (if d <? 10 then 48 + d else 87 + d).

(** [printf("~%02x", c)] for a byte [c]. *)
Definition escape (c : Z) : cstr := [chr 126; hex_digit (c / 16); hex_digit (c mod 16)].

(** [buffer] is a counted array and may hold NULs. *)
Definition raw_bytes_to_binary (buffer : list ascii) : cstr :=
  concat ((fun b => let c := ord b in
                    if (c >=? 32) && (c <? 126) then [b] else escape c) <$> buffer).

(** One hexadecimal digit: [c = *ptr++ | 0x20] and its value, if it is one. *)
Definition hex_value (c : Z) : option Z :=
  let c := Z.lor c 0x20 in
  if (48 <=? c) && (c <=? 57) then Some (c - 48)
  else if (97 <=? c) && (c <=? 102) then Some (c - 97 + 10)
  else None.

Definition TILDE : Z := 126.

(** [cc] is a [char]: the byte stored is the value modulo 256. *)
Fixpoint binary_to_raw_bytes (binary : cstr) : option (list ascii) :=
  match binary with
  | [] => Some []
  | c :: ptr =>
      if ord c =? 0 then Some []
      else if negb (ord c =? TILDE) then cons c <$> binary_to_raw_bytes ptr
      else match ptr with
           | d1 :: d2 :: ptr =>
               h1 ← hex_value (ord d1);
               h2 ← hex_value (ord d2);
               cons (chr (Z.shiftl h1 4 + h2)) <$> binary_to_raw_bytes ptr
           | _ => None
           end
  end.

(** ** Equality up to case *)

(** The string that the comparisons see. *)
Definition fold_case (s : cstr) : list Z := (fun c => cmap (ord c)) <$> s.

Definition ci_eq (s t : cstr) : Prop := fold_case s = fold_case t.

#[export] Instance ci_eq_equivalence : Equivalence ci_eq.
Proof.
  unfold ci_eq. split; [done|by intros ???|]. intros x y z -> ->. done.
Qed.

#[export] Instance ci_eq_dec s t : Decision (ci_eq s t).
Proof. unfold ci_eq. apply _. Defined.

#[export] Instance length_ci_eq : Proper (ci_eq ==> eq) (@length ascii).
Proof.
  intros s t H. apply (f_equal length) in H. unfold fold_case in H.
  by rewrite !length_fmap in H.
Qed.

#[export] Instance str_hash_ci_eq : Proper (ci_eq ==> eq) str_hash.
Proof.
  intros s. unfold str_hash. generalize 0 as h.
  induction s as [|c s IH]; intros h [|d t] H; try done.
  injection H as Hc H. cbn. rewrite Hc. by apply IH.
Qed.

Lemma cmap_zero c : 0 <= c < 256 -> cmap c = 0 <-> c = 0.
Proof.
  intros Hc. unfold cmap, schar. repeat case_match; try lia.
Qed.

Lemma fold_case_cons c s : fold_case (c :: s) = cmap (ord c) :: fold_case s.
Proof. done. Qed.

Lemma cmap_nonzero c : ord c <> 0 -> cmap (ord c) <> 0.
Proof. intros Hc H. apply Hc, cmap_zero; [apply ord_range|done]. Qed.

Lemma mystrcasecmp_zero s t : nul_free s -> nul_free t ->
  mystrcasecmp s t = 0 <-> ci_eq s t.
Proof.
  intros Hs. revert t. induction Hs as [|c s Hc Hs IH]; intros t Ht;
    cbn [mystrcasecmp]; rewrite ?cur_nil, ?cur_cons; change (cmap 0) with 0.
  - destruct Ht as [|d t Hd%cmap_nonzero Ht]; [done|]. rewrite cur_cons.
    destruct (Z.eqb_spec 0 (cmap (ord d))); [lia|]. split; [lia|done].
  - pose proof (cmap_nonzero c Hc). destruct Ht as [|d t Hd Ht].
    + change (cmap (cur [])) with 0.
      destruct (Z.eqb_spec (cmap (ord c)) 0); [lia|]. split; [lia|done].
    + rewrite cur_cons. unfold ci_eq. rewrite !fold_case_cons.
      destruct (Z.eqb_spec (cmap (ord c)) (cmap (ord d))) as [He|He].
      * destruct (Z.eqb_spec (ord c) 0); [done|]. cbn [tail]. rewrite IH by done.
        unfold ci_eq. split; [congruence|by intros [= _ ?]].
      * split; [lia|congruence].
Qed.

Lemma mystrcasecmp_refl s : mystrcasecmp s s = 0.
Proof.
  induction s as [|c s IH]; cbn; rewrite Z.eqb_refl; [done|].
  by case_match.
Qed.

(** [str_match]: a prefix test, exact or up to case. *)
Definition prefix_match (s what : cstr) (case_counts : bool) : Prop :=
  if case_counts then take (length what) s = what
  else ci_eq (take (length what) s) what.

Lemma strncmp_zero s t : nul_free s -> nul_free t ->
  strncmp s t (length t) = 0 <-> take (length t) s = t.
Proof.
  intros Hs Ht. revert s Hs. induction Ht as [|d t Hd Ht IH]; intros s Hs; cbn; [done|].
  rewrite cur_cons. destruct Hs as [|c s Hc Hs]; cbn.
  - rewrite cur_nil. destruct (Z.eqb_spec 0 (ord d)); [congruence|].
    split; [|done]. pose proof (ord_range d). lia.
  - rewrite cur_cons. destruct (Z.eqb_spec (ord c) (ord d)) as [He|He].
    + destruct (Z.eqb_spec (ord c) 0); [done|]. apply ord_inj in He as ->.
      rewrite IH by done. split; congruence.
    + split; [|congruence]. intros ?%Z.sgn_null_iff. lia.
Qed.

Lemma mystrncasecmp_loop_zero s t : nul_free s -> nul_free t -> t <> [] ->
  mystrncasecmp_loop s t (Z.of_nat (length t)) = 0 <-> ci_eq (take (length t) s) t.
Proof.
  intros Hs. revert t. induction Hs as [|c s Hc Hs IH]; intros t Ht Hne;
    (destruct Ht as [|d t Hd%cmap_nonzero Ht]; [done|]);
    cbn [mystrncasecmp_loop length take]; rewrite ?cur_cons.
  - change (cmap (cur [])) with 0.
    destruct (Z.eqb_spec 0 (cmap (ord d))); [lia|]. split; [lia|done].
  - unfold ci_eq. rewrite !fold_case_cons.
    destruct (Z.eqb_spec (cmap (ord c)) (cmap (ord d))) as [He|He].
    + destruct (Z.eqb_spec (ord c) 0); [done|]. cbn [orb tail].
      destruct (decide (t = [])) as [->|Hnet]; [by rewrite He|].
      destruct (Z.eqb_spec (Z.of_nat (S (length t)) - 1) 0).
      { destruct t; cbn in *; [done|lia]. }
      replace (Z.of_nat (S (length t)) - 1) with (Z.of_nat (length t)) by lia.
      rewrite IH by done. unfold ci_eq. split; [congruence|by intros [= _ ?]].
    + split; [lia|congruence].
Qed.

Lemma str_match_spec s what case_counts : nul_free s -> nul_free what ->
  str_match s what case_counts = true <-> prefix_match s what case_counts.
Proof.
  intros Hs Hw. unfold str_match, prefix_match. rewrite Z.eqb_eq.
  destruct case_counts; [by apply strncmp_zero|].
  unfold mystrncasecmp. destruct (Z.eqb_spec (Z.of_nat (length what)) 0).
  - destruct what; [done|]. cbn in *. lia.
  - apply mystrncasecmp_loop_zero; [done..|]. by intros ->.
Qed.

(** ** What the verb-name matcher decides

    A name without stars matches the words equal to it up to case.  A name with
    stars matches every abbreviation of its letters that keeps at least those before
    the first star and, when it ends with a star, every word that starts with its
    letters. *)
Definition is_star (c : ascii) : bool := ord c =? STAR.
Definition is_space (c : ascii) : bool := ord c =? SPACE.
Definition letters (a : cstr) : cstr := List.filter (fun c => negb (is_star c)) a.
Definition has_star (a : cstr) : bool := existsb is_star a.
Fixpoint stem (a : cstr) : nat :=
  match a with [] => 0 | c :: a => if is_star c then 0 else S (stem a) end%nat.
Definition ends_star (a : cstr) : bool :=
  match last a with Some c => is_star c | None => false end.

Definition abbreviates (a word : cstr) : Prop :=
  ci_eq word (take (length word) (letters a)).
Definition extends (a word : cstr) : Prop :=
  ci_eq (take (length (letters a)) word) (letters a).

Definition name_matches (a word : cstr) : Prop :=
  if has_star a
  then (abbreviates a word /\ (stem a <= length word)%nat) \/ (ends_star a = true /\ extends a word)
  else ci_eq word a.

(** The names of a verb: its parts between runs of spaces (with an empty first part
    when it starts with a space). *)
Definition no_space (a : cstr) : Prop := Forall (fun c => is_space c = false) a.

Inductive name_in : cstr -> cstr -> Prop :=
  | name_here a rest : no_space a -> at_end_of_name rest = true ->
      a ++ rest <> [] -> name_in (a ++ rest) a
  | name_later a spaces rest b : no_space a ->
      spaces <> [] -> Forall (fun c => is_space c = true) spaces ->
      (forall c rest', rest = c :: rest' -> is_space c = false) ->
      name_in rest b -> name_in (a ++ spaces ++ rest) b.

(** *** One name *)

Definition stars (p : cstr) : Prop := Forall (fun c => is_star c = true) p.

Lemma span_stars a : exists p a', a = p ++ a' /\ stars p /\
  (forall c a'', a' = c :: a'' -> is_star c = false).
Proof.
  induction a as [|c a (p & a' & -> & Hp & Ha')].
  - exists [], []. split_and!; [done|constructor|done].
  - destruct (is_star c) eqn:Hc.
    + exists (c :: p), a'. split_and!; [done|by constructor|done].
    + exists [], (c :: p ++ a'). split_and!; [done|constructor|]. by intros ?? [= <- _].
Qed.

Lemma skip_stars_prefix p v star : stars p -> cur v <> STAR ->
  skip_stars (p ++ v) star =
    (v, if decide (p = []) then star else if at_end_of_name v then end_ else inner).
Proof.
  intros Hp Hv. revert star. induction Hp as [|c p Hc Hp IH]; intros star.
  - rewrite decide_True by done. destruct v as [|c v]; [done|]. cbn.
    rewrite cur_cons in Hv. by destruct (Z.eqb_spec (ord c) STAR).
  - rewrite decide_False by done. cbn [app skip_stars]. unfold is_star in Hc. rewrite Hc.
    rewrite IH. case_decide; by subst.
Qed.

Section star_facts.
Lemma letters_stars p a : stars p -> letters (p ++ a) = letters a.
Proof. intros Hp. unfold letters. induction Hp as [|c q Hc Hq IH]; cbn; [done|]. by rewrite Hc. Qed.
Lemma has_star_stars p a : stars p ->
  has_star (p ++ a) = negb (bool_decide (p = [])) || has_star a.
Proof. intros Hp. destruct Hp as [|c q Hc Hq]; [done|]. cbn. by rewrite Hc. Qed.
Lemma stem_stars p a : stars p -> p <> [] -> stem (p ++ a) = 0%nat.
Proof. intros Hp. destruct Hp as [|c q Hc Hq]; [done|]. cbn. by rewrite Hc. Qed.
Lemma ends_star_stars p a : stars p -> ends_star (p ++ a) =
  if decide (a = []) then negb (bool_decide (p = [])) else ends_star a.
Proof.
  intros Hp. unfold ends_star. case_decide as Ha; [subst a; rewrite app_nil_r|].
  - destruct (last p) as [c|] eqn:Hl.
    + rewrite bool_decide_false by (by intros ->). apply last_Some_elem_of in Hl.
      by eapply (proj1 (Forall_forall _ _)) in Hp.
    + apply last_None in Hl. by subst.
  - rewrite last_app. destruct (last a) eqn:Hl; [done|]. by apply last_None in Hl.
Qed.
End star_facts.

Definition accepts (r : cstr * cstr * star_state) : bool :=
  let '(w, v, star) := r in
  if cur w =? 0 then negb (bool_decide (star = none)) || at_end_of_name v
  else bool_decide (star = end_).

(** The generalisation for a scan that may already have passed a star. *)
Definition matches_from (a w : cstr) (star : star_state) : Prop :=
  (abbreviates a w /\
     (star = inner \/ (has_star a = true /\ (stem a <= length w)%nat)
      \/ length w = length (letters a)))
  \/ (ends_star a = true /\ extends a w).

Lemma matches_from_stars p a w star : stars p -> p <> [] ->
  matches_from (p ++ a) w star <->
    if decide (a = []) then True else matches_from a w inner.
Proof.
  intros Hp Hne. unfold matches_from, abbreviates, extends.
  rewrite letters_stars, ends_star_stars, has_star_stars, stem_stars by done.
  rewrite bool_decide_false by done. case_decide as Ha.
  - subst a. split; [done|]. intros _. right. done.
  - cbn. split; intros [[H1 H2]|H]; auto; left; split; auto. right. left. split; [done|lia].
Qed.

(** Consuming an equal letter. *)
Lemma matches_from_letter ca a cw w star : is_star ca = false ->
  cmap (ord cw) = cmap (ord ca) ->
  matches_from (ca :: a) (cw :: w) star <-> matches_from a w star.
Proof.
  intros Hca Heq. unfold matches_from, abbreviates, extends, ci_eq.
  assert (letters (ca :: a) = ca :: letters a) as -> by (unfold letters; cbn; by rewrite Hca).
  assert (ends_star (ca :: a) = true -> ends_star a = true) as He.
  { unfold ends_star. destruct a; [cbn; congruence|done]. }
  assert (ends_star a = true -> ends_star (ca :: a) = true) as He'.
  { unfold ends_star. destruct a; [done|done]. }
  cbn [length take has_star existsb stem]. rewrite Hca, !fold_case_cons, Heq. cbn [orb].
  split; (intros [[H1 H2]|[H1 H2]]; [left|right]);
    (split; [try congruence; auto|]); try (by injection H2); try (by f_equal);
    destruct H2 as [?|[[??]|?]]; auto; right; (left; split; [done|lia]) || (right; lia).
Qed.

Lemma at_end_app a rest : no_space a -> nul_free a -> at_end_of_name rest = true ->
  at_end_of_name (a ++ rest) = bool_decide (a = []).
Proof.
  intros Hns Hnf Hr. destruct Hns as [|c a Hc Hns]; [done|].
  inversion Hnf as [|?? Hc0 _]; subst. rewrite bool_decide_false by done.
  unfold at_end_of_name. cbn. rewrite cur_cons. unfold is_space in Hc. rewrite Hc.
  by destruct (Z.eqb_spec (ord c) 0).
Qed.

Lemma matches_from_mismatch ca a cw w star : is_star ca = false ->
  cmap (ord cw) <> cmap (ord ca) -> ~ matches_from (ca :: a) (cw :: w) star.
Proof.
  intros Hca Hne. unfold matches_from, abbreviates, extends, ci_eq.
  assert (letters (ca :: a) = ca :: letters a) as -> by (unfold letters; cbn; by rewrite Hca).
  cbn [length take]. rewrite !fold_case_cons. intros [[[= ?] _]|[_ [= ?]]]; congruence.
Qed.

Lemma matches_from_no_word ca a star : is_star ca = false ->
  matches_from (ca :: a) [] star <-> star = inner.
Proof.
  intros Hca. unfold matches_from, abbreviates, extends, ci_eq.
  assert (letters (ca :: a) = ca :: letters a) as -> by (unfold letters; cbn; by rewrite Hca).
  cbn [length take stem]. rewrite Hca. split; [|by auto].
  intros [[_ [?|[[_ ?]|?]]]|[_ ?]]; [done|lia|done|done].
Qed.

Lemma matches_from_no_name cw w star : ~ matches_from [] (cw :: w) star.
Proof. intros [[? _]|[? _]]; done. Qed.

Lemma matches_from_empty star : matches_from [] [] star.
Proof. left. split; [done|]. right. by right. Qed.

(** What the scan has reached after the stars [p]. *)
Definition star_after (p a : cstr) (star : star_state) : star_state :=
  if decide (p = []) then star else if bool_decide (a = []) then end_ else inner.

Lemma matches_from_after p a w star : stars p -> a <> [] ->
  matches_from (p ++ a) w star <-> matches_from a w (star_after p a star).
Proof.
  intros Hp Ha. unfold star_after. rewrite bool_decide_false by done.
  case_decide as Hpe; [by subst|].
  rewrite matches_from_stars by done. by rewrite decide_False.
Qed.

Lemma match_name_spec w a rest star : nul_free w -> no_space a -> nul_free a ->
  at_end_of_name rest = true -> star <> end_ ->
  exists w' a' star', match_name w (a ++ rest) star = (w', a' ++ rest, star') /\
    (exists p, a = p ++ a') /\
    (accepts (w', a' ++ rest, star') = true <-> matches_from a w star).
Proof.
  intros Hw. revert a star. induction Hw as [|cw w Hcw Hw IH];
    intros a star Hns Hnf Hrest Hstar;
    destruct (span_stars a) as (p & a' & -> & Hp & Ha');
    apply Forall_app in Hns as [_ Hns]; apply Forall_app in Hnf as [_ Hnf];
    pose proof (at_end_app a' rest Hns Hnf Hrest) as Hend;
    (assert (cur (a' ++ rest) <> STAR) as Hcur by
      (destruct a' as [|c a'']; [cbn; intros He; unfold at_end_of_name in Hrest;
         rewrite He in Hrest; done|
       cbn; rewrite cur_cons; specialize (Ha' c a'' eq_refl); unfold is_star in Ha';
         by destruct (Z.eqb_spec (ord c) STAR)]));
    rewrite <- app_assoc; cbn [match_name];
    rewrite skip_stars_prefix, Hend by done; fold (star_after p a' star).
  - exists [], a', (star_after p a' star). split_and!; [done|by exists p|].
    cbn [accepts]. rewrite Hend, cur_nil, Z.eqb_refl.
    destruct a' as [|ca a'].
    { rewrite (bool_decide_true ([] = [])), orb_true_r, app_nil_r by done. split; [intros _|done].
      destruct (decide (p = [])) as [->|]; [apply matches_from_empty|].
      rewrite <- (app_nil_r p). apply matches_from_stars; [done..|by rewrite decide_True]. }
    rewrite matches_from_after, matches_from_no_word by (done || eauto).
    unfold star_after. rewrite (bool_decide_false (ca :: a' = [])) by done.
    case_decide; [destruct star|]; vm_compute; split; congruence.
  - destruct a' as [|ca a']; cbn [app].
    { exists (cw :: w), [], (star_after p [] star).
      split_and!; [destruct rest; [done|by rewrite bool_decide_true]|by exists p|].
      cbn [accepts]. rewrite cur_cons, app_nil_r. destruct (Z.eqb_spec (ord cw) 0); [done|].
      unfold star_after. case_decide as Hpe.
      - subst p. rewrite bool_decide_false by done.
        split; [done|]. by intros ?%matches_from_no_name.
      - split; [intros _|done]. rewrite <- (app_nil_r p).
        apply matches_from_stars; [done..|by rewrite decide_True]. }
    cbn in Hend. destruct (Z.eqb_spec (ord cw) 0); [done|].
    cbn [orb bool_decide negb]. rewrite bool_decide_false by done.
    assert (Hsa : star_after p (ca :: a') star <> end_).
    { unfold star_after. by case_decide. }
    destruct (Z.eqb_spec (cmap (ord cw)) (cmap (ord ca))) as [Heq|Hne]; cbn [orb negb].
    + inversion Hns; subst. inversion Hnf; subst.
      destruct (IH a' (star_after p (ca :: a') star)) as (w' & a2 & st' & -> & [q ->] & Hacc);
        [done..|].
      exists w', a2, st'. split; [done|]. split; [exists (p ++ ca :: q); by rewrite <- app_assoc|].
      rewrite Hacc, (matches_from_after p), matches_from_letter by (done || eauto). done.
    + exists (cw :: w), (ca :: a'), (star_after p (ca :: a') star).
      split; [done|]. split; [by exists p|].
      cbn [accepts]. rewrite cur_cons. destruct (Z.eqb_spec (ord cw) 0); [done|].
      rewrite bool_decide_false by done. split; [done|].
      rewrite matches_from_after by done. intros ?%matches_from_mismatch; eauto.
Qed.

Lemma matches_from_none a w : matches_from a w none <-> name_matches a w.
Proof.
  unfold name_matches. destruct (has_star a) eqn:Hs.
  - unfold matches_from. rewrite Hs. split.
    + intros [[H [?|[[_ H1]|H1]]]|H]; [done|auto|left|by right].
      split; [done|]. rewrite H1. clear. induction a as [|c a IH]; [done|].
      unfold letters. cbn. destruct (is_star c); cbn; [lia|fold (letters a); lia].
    + intros [[H1 H2]|H]; [left; auto|by right].
  - assert (letters a = a) as Hl.
    { unfold letters. induction a as [|c a IH]; [done|]. cbn in *.
      destruct (is_star c); [done|]. cbn. by rewrite IH. }
    assert (ends_star a = false) as He.
    { unfold ends_star. destruct (last a) as [c|] eqn:Hc; [|done].
      apply last_Some_elem_of in Hc. destruct (is_star c) eqn:Hc'; [|done].
      assert (has_star a = true); [|congruence].
      apply existsb_exists. exists c. by rewrite <- list_elem_of_In. }
    unfold matches_from, abbreviates. rewrite Hl, He, Hs. split.
    + intros [[H [?|[[? _]|Hlen]]]|[? _]]; try done. by rewrite Hlen, firstn_all in H.
    + intros H. left. rewrite H at 2. rewrite firstn_all. split; [done|].
      right. right. by rewrite H.
Qed.

(** *** All the names of a verb *)

Lemma skip_while_span p v : exists a rest, v = a ++ rest /\ skip_while p v = rest /\
  Forall (fun c => p (ord c) = true) a /\ (forall c r, rest = c :: r -> p (ord c) = false).
Proof.
  induction v as [|c v (a & rest & -> & Hs & Ha & Hr)].
  - exists [], []. split_and!; [done|done|constructor|done].
  - cbn. destruct (p (ord c)) eqn:Hc.
    + exists (c :: a), rest. split_and!; [done|done|by constructor|done].
    + exists [], (c :: a ++ rest). split_and!; [done|done|constructor|]. by intros ?? [= <- _].
Qed.

Lemma span_unique {A} (P : A -> Prop) a1 a2 r1 r2 : Forall P a1 -> Forall P a2 ->
  (forall c r, r1 = c :: r -> ~ P c) -> (forall c r, r2 = c :: r -> ~ P c) ->
  a1 ++ r1 = a2 ++ r2 -> a1 = a2 /\ r1 = r2.
Proof.
  intros H1. revert a2. induction H1 as [|c a1 Hc H1 IH]; intros a2 H2 Hr1 Hr2 He;
    destruct H2 as [|d a2 Hd H2]; cbn in He.
  - done.
  - exfalso. by eapply Hr1.
  - exfalso. by eapply Hr2.
  - injection He as -> He. destruct (IH a2) as [-> ->]; done.
Qed.

(** The first name of a string and what [next_name] leaves. *)
Lemma split_name v : nul_free v -> v <> [] -> exists a spaces rest,
  v = a ++ spaces ++ rest /\ no_space a /\ Forall (fun c => is_space c = true) spaces /\
  (forall c r, rest = c :: r -> is_space c = false) /\ (spaces = [] -> rest = []) /\
  (forall a2 p, a = p ++ a2 -> next_name (a2 ++ spaces ++ rest) = rest) /\
  (length rest < length v)%nat.
Proof.
  intros Hv Hne.
  destruct (skip_while_span (fun c => negb (c =? 0) && negb (c =? SPACE)) v)
    as (a & r & -> & _ & Ha & Hr).
  destruct (skip_while_span (fun c => c =? SPACE) r) as (sp & rest & -> & _ & Hsp & Hrest).
  apply Forall_app in Hv as [Hva Hvr].
  assert (Hnext : forall b, Forall (fun c => (negb (ord c =? 0) && negb (ord c =? SPACE))
    = true) b -> next_name (b ++ sp ++ rest) = rest).
  { intros b Hb. unfold next_name.
    destruct (skip_while_span (fun c => negb (c =? 0) && negb (c =? SPACE)) (b ++ sp ++ rest))
      as (b' & r' & Heq & -> & Hb' & Hr').
    destruct (span_unique (fun c => (negb (ord c =? 0) && negb (ord c =? SPACE)) = true)
      b b' (sp ++ rest) r') as [_ <-]; try done.
    - intros c r Hc. by rewrite (Hr c r Hc).
    - intros c r Hc. by rewrite (Hr' c r Hc).
    - destruct (skip_while_span (fun c => c =? SPACE) (sp ++ rest))
        as (s' & r'' & Heq2 & -> & Hs' & Hr'').
      destruct (span_unique (fun c => (ord c =? SPACE) = true) sp s' rest r'') as [_ ->];
        try done; [intros c r ->; by rewrite (Hrest c r)|intros c r ->; by rewrite (Hr'' c r)]. }
  exists a, sp, rest. split_and!; try done.
  - eapply Forall_impl; [exact Ha|]. intros c [_ Hc]%andb_true_iff.
    unfold is_space. by apply negb_true_iff.
  - intros ->. destruct rest as [|c rest]; [done|]. specialize (Hr c rest eq_refl).
    specialize (Hrest c rest eq_refl). inversion Hvr; subst. cbn in Hr.
    rewrite Hrest in Hr. by destruct (Z.eqb_spec (ord c) 0).
  - intros a2 p ->. apply Forall_app in Ha as [_ Ha]. by apply Hnext.
  - rewrite !length_app. destruct a; cbn; [|lia]. destruct sp; cbn; [|lia].
    destruct rest as [|c rest]; [done|]. specialize (Hr c rest eq_refl).
    specialize (Hrest c rest eq_refl). inversion Hvr; subst. cbn in Hr.
    rewrite Hrest in Hr. by destruct (Z.eqb_spec (ord c) 0).
Qed.

Lemma name_in_nil b : ~ name_in [] b.
Proof.
  intros H. remember ([] : cstr) as v eqn:Hv.
  destruct H as [a rest _ _ Hne|a sp rest b _ Hne _ _ _]; [done|].
  apply app_nil in Hv as [_ Hv]. by apply app_nil in Hv as [? _].
Qed.

Lemma name_in_split a spaces rest b : no_space a ->
  Forall (fun c => is_space c = true) spaces ->
  (forall c r, rest = c :: r -> is_space c = false) -> (spaces = [] -> rest = []) ->
  nul_free (a ++ spaces ++ rest) -> a ++ spaces ++ rest <> [] ->
  name_in (a ++ spaces ++ rest) b <-> b = a \/ name_in rest b.
Proof.
  intros Ha Hsp Hrest Hsr Hnf Hne.
  assert (Hhd : forall c r, spaces ++ rest = c :: r -> ~ is_space c = false).
  { intros c r Hc Hf. destruct Hsp as [|d spaces Hd Hsp].
    - by rewrite Hsr in Hc.
    - cbn in Hc. congruence. }
  assert (Hend : forall r, at_end_of_name r = true -> nul_free r ->
    forall c r', r = c :: r' -> ~ is_space c = false).
  { intros r Hr Hn c r' -> Hc. unfold at_end_of_name in Hr. rewrite cur_cons in Hr.
    unfold is_space in Hc. rewrite Hc in Hr. inversion Hn; subst.
    by destruct (Z.eqb_spec (ord c) 0). }
  split.
  - intros H. remember (a ++ spaces ++ rest) as v eqn:Hv.
    destruct H as [a' rest' Ha' Hr' _|a' sp' rest' b Ha' Hne' Hsp' Hr' Hb].
    + left. apply nul_free_app in Hnf as [_ Hnf].
      by destruct (span_unique _ a' a rest' (spaces ++ rest) Ha' Ha (Hend _ Hr' Hnf) Hhd Hv).
    + right. destruct (span_unique _ a' a (sp' ++ rest') (spaces ++ rest) Ha' Ha) as [_ He];
        [|done|done|].
      { intros c r Hc Hf. destruct Hsp' as [|d sp' Hd Hsp']; [done|]. cbn in Hc. congruence. }
      destruct (span_unique (fun c => is_space c = true) sp' spaces rest' rest) as [_ <-];
        try done; [intros c r ->; by rewrite (Hr' c r)|intros c r ->; by rewrite (Hrest c r)].
  - intros [->|Hb].
    + apply name_here; [done| |done]. destruct Hsp as [|c sp Hc Hsp].
      * by rewrite Hsr.
      * unfold at_end_of_name. cbn. rewrite cur_cons. unfold is_space in Hc. rewrite Hc.
        apply orb_true_r.
    + destruct (decide (spaces = [])) as [->|Hsne]; [|by apply name_later].
      rewrite Hsr in Hb by done. by apply name_in_nil in Hb.
Qed.

Lemma verbcasecmp_loop_spec fuel v word : nul_free v -> nul_free word ->
  (length v <= fuel)%nat ->
  verbcasecmp_loop fuel v word = true <-> exists a, name_in v a /\ name_matches a word.
Proof.
  intros Hv Hw. revert v Hv. induction fuel as [|fuel IH]; intros v Hv Hlen.
  all: destruct (decide (v = [])) as [->|Hne].
  1, 3: by (split; [|intros (a & Hb%name_in_nil & _)]).
  { destruct v; cbn in Hlen; [done|lia]. }
  destruct (split_name v Hv Hne) as (a & sp & rest & -> & Ha & Hsp & Hrest & Hsr & Hnext & Hlt).
  cbn [verbcasecmp_loop].
  destruct (Z.eqb_spec (cur (a ++ sp ++ rest)) 0) as [Hc|_]; [by apply cur_nul_free in Hc|].
  assert (at_end_of_name (sp ++ rest) = true) as Hend.
  { destruct Hsp as [|c sp Hc Hsp]; [by rewrite Hsr|]. unfold at_end_of_name. cbn.
    rewrite cur_cons. unfold is_space in Hc. rewrite Hc. apply orb_true_r. }
  pose proof Hv as Hv2. apply nul_free_app in Hv2 as [Hva Hvr].
  destruct (match_name_spec word a (sp ++ rest) none Hw Ha Hva Hend)
    as (w' & a' & star' & -> & [p Hp] & Hacc); [done|].
  rewrite matches_from_none in Hacc. cbn [accepts] in Hacc.
  rewrite (Hnext a' p Hp).
  assert (Hall : (exists b, name_in (a ++ sp ++ rest) b /\ name_matches b word) <->
    name_matches a word \/ exists b, name_in rest b /\ name_matches b word).
  { setoid_rewrite name_in_split; [|done..]. split.
    - intros (b & [->|Hb] & Hm); eauto.
    - intros [Hm|(b & Hb & Hm)]; eauto. }
  rewrite Hall, <- Hacc, <- IH; [|by apply nul_free_app in Hvr as [_ ?]|lia].
  destruct (if cur w' =? 0 then _ else _); [by split; auto|]. split; [auto|]. by intros [?|?].
Qed.

(** *** Compatibility with case folding *)

Lemma fold_case_take n s : fold_case (take n s) = take n (fold_case s).
Proof. unfold fold_case. by rewrite fmap_take. Qed.

#[export] Instance name_matches_ci_eq a : Proper (ci_eq ==> iff) (name_matches a).
Proof.
  intros w1 w2 Hw. unfold name_matches, abbreviates, extends, ci_eq.
  rewrite !fold_case_take, (length_ci_eq w1 w2 Hw). unfold ci_eq in Hw. by rewrite Hw.
Qed.

(** ** Properties *)

(** [mystrcasecmp] returns 0 exactly for strings that are equal up to ASCII case,
    and such strings have the same hash. *)
Theorem mystrcasecmp_correct s t : nul_free s -> nul_free t ->
  (mystrcasecmp s t = 0 <-> ci_eq s t) /\ (ci_eq s t -> str_hash s = str_hash t).
Proof.
  intros Hs Ht. split; [by apply mystrcasecmp_zero|]. by intros ->.
Qed.

Lemma mystrcasecmp_correct_witness :
  mystrcasecmp (lit "Look@[") (lit "lOOK@[") = 0 /\
  str_hash (lit "Look@[") = str_hash (lit "lOOK@[").
Proof.
  destruct (mystrcasecmp_correct (lit "Look@[") (lit "lOOK@[")) as [H1 H2];
    [apply (bool_decide_unpack _); vm_compute; exact I..|].
  assert (ci_eq (lit "Look@[") (lit "lOOK@[")) as He by (vm_compute; reflexivity).
  split; [by apply H1|by apply H2].
Defined.

(** [verbcasecmp] decides the documented matching of verb names: some name of the
    verb matches the word, where a star allows abbreviation and a final star any
    continuation. *)
Theorem verbcasecmp_correct verb word : nul_free verb -> nul_free word ->
  verbcasecmp false verb word = true <-> exists a, name_in verb a /\ name_matches a word.
Proof. intros Hv Hw. by apply verbcasecmp_loop_spec. Qed.

Lemma verbcasecmp_correct_witness :
  exists a, name_in (lit "get l*ook") a /\ name_matches a (lit "LOO").
Proof.
  apply (verbcasecmp_correct (lit "get l*ook") (lit "LOO"));
    [apply (bool_decide_unpack _); vm_compute; exact I..|].
  vm_compute. reflexivity.
Defined.

(** *** Substitution *)

(** [replaced what with_ cc s out]: [out] is [s] with the leftmost non-overlapping
    occurrences of [what] replaced. *)
Inductive replaced (what with_ : cstr) (case_counts : bool) : cstr -> cstr -> Prop :=
  | replaced_nil : replaced what with_ case_counts [] []
  | replaced_hit s out : s <> [] -> prefix_match s what case_counts ->
      replaced what with_ case_counts (drop (length what) s) out ->
      replaced what with_ case_counts s (with_ ++ out)
  | replaced_miss c s out : ~ prefix_match (c :: s) what case_counts ->
      replaced what with_ case_counts s out ->
      replaced what with_ case_counts (c :: s) (c :: out).

Lemma strsub_loop_spec what with_ cc : nul_free what -> what <> [] ->
  forall fuel source str, nul_free source -> (length source <= fuel)%nat ->
  exists out, strsub_loop fuel source what with_ cc str = Ok (str ++ out) /\
    replaced what with_ cc source out.
Proof.
  intros Hw Hne. assert (0 < length what)%nat by (destruct what; cbn; [done|lia]).
  induction fuel as [|fuel IH]; intros source str Hs Hlen;
    (destruct source as [|c source];
      [exists []; rewrite app_nil_r; split; [done|constructor]|]); [cbn in Hlen; lia|].
  cbn [strsub_loop]. destruct (str_match (c :: source) what cc) eqn:Hm.
  - apply str_match_spec in Hm; [|done..].
    destruct (IH (drop (length what) (c :: source)) (str ++ with_)) as (out & -> & Hr).
    { by apply nul_free_drop. } { rewrite length_drop. cbn [length] in *. lia. }
    exists (with_ ++ out). rewrite app_assoc. split; [done|]. by constructor.
  - inversion Hs; subst. destruct (IH source (str ++ [c])) as (out & -> & Hr);
      [done|cbn in Hlen; lia|].
    exists (c :: out). rewrite <- app_assoc. split; [done|].
    constructor; [|done]. rewrite <- str_match_spec, Hm by done. done.
Qed.

(** With a non-empty [what], [strsub] terminates within its bound and replaces the
    leftmost non-overlapping occurrences. *)
Theorem strsub_correct source what with_ cc : nul_free source -> nul_free what ->
  what <> [] ->
  exists out, strsub source what with_ cc = Ok out /\ replaced what with_ cc source out.
Proof.
  intros Hs Hw Hne. by destruct (strsub_loop_spec what with_ cc Hw Hne (length source)
    source [] Hs ltac:(lia)) as (out & ? & ?); eauto.
Qed.

Lemma strsub_correct_witness : exists out,
  strsub (lit "aXAx") (lit "x") (lit "--") false = Ok out /\
  replaced (lit "x") (lit "--") false (lit "aXAx") out.
Proof.
  apply strsub_correct; [apply (bool_decide_unpack _); vm_compute; exact I..|done].
Defined.

(** The empty [what], which the built-in function refuses, would loop for ever. *)
Lemma strsub_empty_diverges source with_ cc fuel str : source <> [] ->
  strsub_loop fuel source [] with_ cc str = Fail OutOfFuel.
Proof.
  intros Hne. destruct source as [|c source]; [done|]. revert str.
  induction fuel as [|fuel IH]; intros str; [done|].
  cbn [strsub_loop]. replace (str_match (c :: source) [] cc) with true by (by destruct cc).
  by rewrite drop_0.
Qed.

(** *** Search *)

Lemma skip_utf_0 s : skip_utf s 0 = 0%nat.
Proof. unfold skip_utf. destruct s; cbn; by rewrite ?orb_true_r. Qed.

Lemma skip_utf_step s v n j : nul_free s -> s <> [] -> get_utf s = (v, n) -> 0 <= j ->
  skip_utf s (j + 1) = (n + skip_utf (drop n s) j)%nat.
Proof.
  intros Hs Hne Hg Hj. pose proof (get_utf_bounds s v n Hs Hne Hg).
  destruct (utf_counting_spec s Hs) as (_ & _ & ->); [|lia].
  destruct (utf_counting_spec _ (nul_free_drop s n Hs)) as (_ & _ & ->); [|lia].
  rewrite (utf_chunks_unfold s v n) by done.
  replace (Z.to_nat (j + 1)) with (S (Z.to_nat j)) by lia.
  cbn. rewrite length_app, length_take. lia.
Qed.

Lemma strlen_utf_step s v n : nul_free s -> s <> [] -> get_utf s = (v, n) ->
  strlen_utf s = 1 + strlen_utf (drop n s).
Proof.
  intros Hs Hne Hg. destruct (utf_counting_spec s Hs) as (_ & -> & _).
  destruct (utf_counting_spec _ (nul_free_drop s n Hs)) as (_ & -> & _).
  rewrite (utf_chunks_unfold s v n) by done. cbn [length]. lia.
Qed.

(** Is there an occurrence of [what] at character [j] of [s]? *)
Definition occurs_at (s what : cstr) (cc : bool) (j : Z) : Prop :=
  prefix_match (drop (skip_utf s j) s) what cc.

Lemma prefix_match_length s what cc : prefix_match s what cc ->
  (length what <= length s)%nat.
Proof.
  destruct cc; cbn.
  - intros H. apply (f_equal length) in H. rewrite length_take in H. lia.
  - intros H. apply length_ci_eq in H. rewrite length_take in H. lia.
Qed.

Lemma occurs_at_step s v n what cc j : nul_free s -> s <> [] -> get_utf s = (v, n) ->
  0 <= j -> occurs_at s what cc (j + 1) <-> occurs_at (drop n s) what cc j.
Proof.
  intros Hs Hne Hg Hj. unfold occurs_at.
  by rewrite (skip_utf_step s v n), drop_drop by done.
Qed.

(** The two possible outcomes of a search that starts at index [ind]. *)
Definition found_first (s what : cstr) (cc : bool) (ind r : Z) : Prop :=
  (r = 0 /\ forall j, 0 <= j -> ~ occurs_at s what cc j) \/
  (exists k, 0 <= k <= strlen_utf s /\ r = ind + k + 1 /\ occurs_at s what cc k /\
     forall j, 0 <= j < k -> ~ occurs_at s what cc j).

Lemma strindex_loop_spec what cc : nul_free what -> forall s, nul_free s ->
  forall fuel ind, (length s < fuel)%nat ->
  found_first s what cc ind (strindex_loop fuel s what cc ind).
Proof.
  intros Hw. apply (utf_ind (fun s => forall fuel ind, _ -> _)).
  { intros [|fuel] ind Hf; [cbn in Hf; lia|]. cbn [strindex_loop]. case_decide as Hl.
    - destruct what; cbn in Hl; [|lia].
      replace (str_match [] [] cc) with true by (by destruct cc).
      right. exists 0. split_and!; [lia|vm_compute; congruence|lia|by destruct cc|lia].
    - left. split; [done|]. intros j Hj Ho. unfold occurs_at in Ho.
      rewrite drop_nil in Ho. apply prefix_match_length in Ho. done. }
  intros s v n Hs Hne Hg Hv Hn IH [|fuel] ind Hf; [lia|]. cbn [strindex_loop].
  assert (Hsl : 0 <= strlen_utf (drop n s)).
  { destruct (utf_counting_spec _ (nul_free_drop s n Hs)) as (_ & -> & _). lia. }
  pose proof (strlen_utf_step s v n Hs Hne Hg) as Hlen.
  case_decide as Hl.
  2: { left. split; [done|]. intros j Hj Ho. apply prefix_match_length in Ho.
       rewrite length_drop in Ho. lia. }
  destruct (str_match s what cc) eqn:Hm.
  - apply str_match_spec in Hm; [|done..]. right. exists 0.
    split_and!; [lia..| |lia]. unfold occurs_at. by rewrite skip_utf_0, drop_0.
  - assert (Hno : ~ occurs_at s what cc 0).
    { unfold occurs_at. rewrite skip_utf_0, drop_0, <- str_match_spec, Hm by done. done. }
    rewrite Hg. cbn [snd].
    destruct (IH fuel (ind + 1)) as [[-> Hall]|(k & Hk & -> & Ho & Hall)];
      [rewrite length_drop; lia|left|right].
    + split; [done|]. intros j Hj. destruct (decide (j = 0)) as [->|]; [done|].
      replace j with (j - 1 + 1) by lia. rewrite occurs_at_step by (done || lia).
      apply Hall. lia.
    + exists (k + 1). split_and!; [lia..|by apply (occurs_at_step s v n); [..|lia|]|].
      intros j Hj. destruct (decide (j = 0)) as [->|]; [done|].
      replace j with (j - 1 + 1) by lia. rewrite occurs_at_step by (done || lia).
      apply Hall. lia.
Qed.

(** [strindex] is 0 when [what] occurs at no character of [source], and otherwise
    one more than the first character at which it occurs. *)
Theorem strindex_correct source what cc : nul_free source -> nul_free what ->
  found_first source what cc 0 (strindex source what cc).
Proof. intros Hs Hw. apply strindex_loop_spec; [done..|lia]. Qed.

Lemma strindex_correct_witness :
  found_first (lit "xaBx") (lit "b") false 0 (strindex (lit "xaBx") (lit "b") false).
Proof.
  apply strindex_correct; apply (bool_decide_unpack _); vm_compute; exact I.
Defined.

(** [strrindex] misses occurrences that start with a multi-byte character: after
    stepping back into such a character, the loop moves to its first byte and then past
    it without comparing there.  In "éab" it finds "b" but not "é", which [strindex]
    finds. *)
Theorem strrindex_misses :
  let eab := [chr 0xc3; chr 0xa9] ++ lit "ab" in
  let e := [chr 0xc3; chr 0xa9] in
  strindex eab e true = 1 /\ strrindex eab e true = Ok 0 /\
  strrindex eab (lit "b") true = Ok 3.
Proof. vm_compute. done. Qed.

(** *** Binary strings *)

Lemma hex_digit_value d : 0 <= d < 16 -> hex_value (ord (hex_digit d)) = Some d.
Proof.
  intros Hd. assert (Hall : forallb (fun d => bool_decide (hex_value (ord (hex_digit d)) = Some d))
    (seqZ 0 16) = true) by (vm_compute; reflexivity).
  rewrite forallb_forall in Hall. eapply bool_decide_eq_true, Hall.
  apply list_elem_of_In, elem_of_seqZ. lia.
Qed.

(** Every byte array survives the "binary string" encoding: decoding what
    [raw_bytes_to_binary] produced gives it back, and the encoding is printable. *)
Theorem binary_roundtrip buffer :
  binary_to_raw_bytes (raw_bytes_to_binary buffer) = Some buffer /\
  Forall (fun c => 32 <= ord c < 127) (raw_bytes_to_binary buffer).
Proof.
  induction buffer as [|b buffer [IH1 IH2]]; [done|].
  change (raw_bytes_to_binary (b :: buffer)) with
    ((if (ord b >=? 32) && (ord b <? 126) then [b] else escape (ord b))
     ++ raw_bytes_to_binary buffer).
  set (rest := raw_bytes_to_binary buffer) in *. clearbody rest.
  pose proof (ord_range b) as Hb. case_match eqn:Hp.
  - cbn [app binary_to_raw_bytes]. unfold TILDE.
    destruct (Z.eqb_spec (ord b) 0); [lia|]. destruct (Z.eqb_spec (ord b) 126); [lia|].
    cbn [negb]. rewrite IH1. split; [done|]. constructor; [lia|done].
  - unfold escape. cbn [app binary_to_raw_bytes]. rewrite ord_chr by lia. cbn [Z.eqb negb].
    rewrite !hex_digit_value by dlia. cbn.
    rewrite IH1, Z.shiftl_mul_pow2 by lia. cbn. split.
    + do 2 f_equal. rewrite <- (chr_ord b) at 3. f_equal. dlia.
    + repeat constructor; rewrite ?ord_chr by lia; try lia; try done;
        unfold hex_digit; rewrite ord_chr; case_match; dlia.
Qed.
