(* ===== verification/Values.v ===== *)
(** * MOO values (src/structures.h, src/utils.c, src/numbers.c, src/unparse.c)

    The tagged union [Var], the error codes, truth, equality and sizes, and the
    [package]s with which built-in functions answer. *)

From S2P Require Import Prelude CStrings.
From Stdlib Require Export SpecFloat.

Open Scope Z_scope.
#[local] Set Warnings "-register-all".

(** ** Floats: IEEE binary64 *)

Abbreviation double := spec_float.
Definition prec : Z := 53.
Definition emax : Z := 1024.

#[export] Instance spec_float_eq_dec : EqDecision spec_float.
Proof. solve_decision. Defined.

(** [IS_REAL(x)]: [-HUGE_VAL < x && x < HUGE_VAL]. *)
Definition IS_REAL (x : double) : bool :=
  SFltb (S754_infinity true) x && SFltb x (S754_infinity false).

(** [(double) n]. *)
Definition double_of_int (n : Z) : double := binary_normalize prec emax n 0 false.

(** ** Errors *)

Inductive error :=
  | E_NONE | E_TYPE | E_DIV | E_PERM | E_PROPNF | E_VERBNF | E_VARNF | E_INVIND
  | E_RECMOVE | E_MAXREC | E_RANGE | E_ARGS | E_NACC | E_INVARG | E_QUOTA | E_FLOAT.

#[export] Instance error_eq_dec : EqDecision error.
Proof. solve_decision. Defined.

(** The enumeration values, which are stored in the database file. *)
Definition error_num (e : error) : Z :=
  match e with
  | E_NONE => 0 | E_TYPE => 1 | E_DIV => 2 | E_PERM => 3 | E_PROPNF => 4
  | E_VERBNF => 5 | E_VARNF => 6 | E_INVIND => 7 | E_RECMOVE => 8 | E_MAXREC => 9
  | E_RANGE => 10 | E_ARGS => 11 | E_NACC => 12 | E_INVARG => 13 | E_QUOTA => 14
  | E_FLOAT => 15
  end.

Definition unparse_error (e : error) : cstr :=
  lit match e with
  | E_NONE => "No error"
  | E_TYPE => "Type mismatch"
  | E_DIV => "Division by zero"
  | E_PERM => "Permission denied"
  | E_PROPNF => "Property not found"
  | E_VERBNF => "Verb not found"
  | E_VARNF => "Variable not found"
  | E_INVIND => "Invalid indirection"
  | E_RECMOVE => "Recursive move"
  | E_MAXREC => "Too many verb calls"
  | E_RANGE => "Range error"
  | E_ARGS => "Incorrect number of arguments"
  | E_NACC => "Move refused by destination"
  | E_INVARG => "Invalid argument"
  | E_QUOTA => "Resource limit exceeded"
  | E_FLOAT => "Floating-point arithmetic error"
  end%string.

Definition error_name (e : error) : cstr :=
  lit match e with
  | E_NONE => "E_NONE" | E_TYPE => "E_TYPE" | E_DIV => "E_DIV" | E_PERM => "E_PERM"
  | E_PROPNF => "E_PROPNF" | E_VERBNF => "E_VERBNF" | E_VARNF => "E_VARNF"
  | E_INVIND => "E_INVIND" | E_RECMOVE => "E_RECMOVE" | E_MAXREC => "E_MAXREC"
  | E_RANGE => "E_RANGE" | E_ARGS => "E_ARGS" | E_NACC => "E_NACC"
  | E_INVARG => "E_INVARG" | E_QUOTA => "E_QUOTA" | E_FLOAT => "E_FLOAT"
  end%string.

(** ** Values *)

(** The special object numbers. *)
Definition SYSTEM_OBJECT : Z := 0.
Definition NOTHING : Z := -1.
Definition AMBIGUOUS : Z := -2.
Definition FAILED_MATCH : Z := -3.

Definition MAXINT : Z := 9223372036854775807.
Definition MININT : Z := - 2 ^ 63.

(** The variant [var_type] and the union [v] together.  A list is the list of its
    elements 1, 2, ... (element 0, the length, is [length]).  A waif is a pointer. *)
Inductive Var :=
  | Int (num : Z)
  | Obj (obj : Z)
  | Str (str : cstr)
  | Err (err : error)
  | List (list : list Var)
  | Clear
  | None_
  | Catch (num : Z)
  | Finally (num : Z)
  | Float (fnum : double)
  | WaifV (waif : positive).

(** [var_type], without the flag for complex types. *)
Inductive var_type :=
  | TYPE_INT | TYPE_OBJ | TYPE_STR | TYPE_ERR | TYPE_LIST | TYPE_CLEAR | TYPE_NONE
  | TYPE_CATCH | TYPE_FINALLY | TYPE_FLOAT | TYPE_WAIF.

#[export] Instance var_type_eq_dec : EqDecision var_type.
Proof. solve_decision. Defined.

Definition type_of (v : Var) : var_type :=
  match v with
  | Int _ => TYPE_INT | Obj _ => TYPE_OBJ | Str _ => TYPE_STR | Err _ => TYPE_ERR
  | List _ => TYPE_LIST | Clear => TYPE_CLEAR | None_ => TYPE_NONE
  | Catch _ => TYPE_CATCH | Finally _ => TYPE_FINALLY | Float _ => TYPE_FLOAT
  | WaifV _ => TYPE_WAIF
  end.

Definition zero_var : Var := Int 0.

(** Induction over nested lists. *)
Section Var_ind.
Context (P : Var -> Prop).
Hypothesis HInt : forall n, P (Int n).
Hypothesis HObj : forall n, P (Obj n).
Hypothesis HStr : forall s, P (Str s).
Hypothesis HErr : forall e, P (Err e).
Hypothesis HList : forall l, Forall P l -> P (List l).
Hypothesis HClear : P Clear.
Hypothesis HNone : P None_.
Hypothesis HCatch : forall n, P (Catch n).
Hypothesis HFinally : forall n, P (Finally n).
Hypothesis HFloat : forall f, P (Float f).
Hypothesis HWaif : forall w, P (WaifV w).

Fixpoint Var_nested_ind (v : Var) : P v :=
  match v with
  | Int n => HInt n | Obj n => HObj n | Str s => HStr s | Err e => HErr e
  | List l => HList l ((fix go (l : list Var) : Forall P l :=
      match l with
      | [] => Stdlib.Lists.List.Forall_nil _
      | v :: l => @Stdlib.Lists.List.Forall_cons _ P v l (Var_nested_ind v) (go l)
      end) l)
  | Clear => HClear | None_ => HNone | Catch n => HCatch n | Finally n => HFinally n
  | Float f => HFloat f | WaifV w => HWaif w
  end.
End Var_ind.

#[export] Instance Var_eq_dec : EqDecision Var.
Proof.
  refine (fix go (v w : Var) : {v = w} + {v <> w} :=
    let _ : EqDecision Var := go in _).
  unfold Decision. destruct v, w; try (right; discriminate);
    try (left; reflexivity); try (solve [refine (cast_if (decide (num = num0))); congruence]).
  - refine (cast_if (decide (obj = obj0))); congruence.
  - refine (cast_if (decide (str = str0))); congruence.
  - refine (cast_if (decide (err = err0))); congruence.
  - refine (cast_if (decide (list = list0))); congruence.
  - refine (cast_if (decide (fnum = fnum0))); congruence.
  - refine (cast_if (decide (waif = waif0))); congruence.
Defined.

(** The types of the values that programs can hold. *)
Fixpoint user_value (v : Var) : bool :=
  match v with
  | Int _ | Obj _ | Str _ | Err _ | Float _ | WaifV _ => true
  | List l => forallb user_value l
  | _ => false
  end.

Definition is_true (v : Var) : bool :=
  match v with
  | Int n => negb (n =? 0)
  | Float f => negb (SFeqb f (S754_zero false))
  | Str s => negb (cur s =? 0)
  | List l => negb (Z.of_nat (length l) =? 0)
  | _ => false
  end.

(** numbers.c: [do_equals], for a pair with at least one float. *)
Definition do_equals (lhs rhs : Var) : bool :=
  match lhs, rhs with
  | Float a, Float b => SFeqb a b
  | _, _ => false
  end.

(** [equality]: case folding applies to strings at every depth.  Types that
    programs cannot hold make the server panic. *)
Fixpoint equality (lhs rhs : Var) (case_matters : bool) : res bool :=
  match lhs, rhs with
  | Float _, _ | _, Float _ => Ok (do_equals lhs rhs)
  | Int a, Int b => Ok (a =? b)
  | Obj a, Obj b => Ok (a =? b)
  | Err a, Err b => Ok (bool_decide (a = b))
  | Str a, Str b =>
      Ok (if case_matters then strcmp a b =? 0 else mystrcasecmp a b =? 0)
  | List a, List b =>
      if negb (Z.of_nat (length a) =? Z.of_nat (length b)) then Ok false
      else
        (fix go (a b : list Var) : res bool :=
           match a, b with
           | x :: a, y :: b =>
               e ← equality x y case_matters;
               if (e : bool) then go a b else Ok false
           | _, _ => Ok true
           end) a b
  | WaifV a, WaifV b => Ok (bool_decide (a = b))
  | Clear, Clear | None_, None_ | Catch _, Catch _ | Finally _, Finally _ =>
      Fail (Panic "EQUALITY: Unknown value type")
  | _, _ => Ok false
  end.

(** The sizes of the C types on a 64-bit machine. *)
Definition sizeof_Var : Z := 16.
Definition sizeof_double : Z := 8.

(** [value_bytes]: an [int], so the sum wraps.  [waif_bytes] is waif.c's measure. *)
Fixpoint value_bytes (waif_bytes : positive -> Z) (v : Var) : Z :=
  wrap32 (sizeof_Var +
    match v with
    | Str s => Z.of_nat (length s) + 1
    | Float _ => sizeof_double
    | List l => sizeof_Var + foldr Z.add 0 (value_bytes waif_bytes <$> l)
    | WaifV w => waif_bytes w
    | _ => 0
    end).

(** ** Answers of built-in functions (src/functions.c) *)

Inductive package :=
  | ReturnPack (v : Var)                          (* BI_RETURN *)
  | RaisePack (code : error) (msg : cstr) (value : Var)  (* BI_RAISE *)
  | CallPack (pc : Z)                             (* BI_CALL, without data *)
  | KillPack.                                     (* BI_KILL *)

Definition make_raise_pack (e : error) (msg : cstr) (value : Var) : package :=
  RaisePack e msg value.
Definition make_error_pack (e : error) : package :=
  make_raise_pack e (unparse_error e) zero_var.
Definition make_var_pack (v : Var) : package := ReturnPack v.
Definition make_int_pack (n : Z) : package := ReturnPack (Int n).
Definition make_float_pack (d : double) : package := ReturnPack (Float d).
Definition no_var_pack : package := ReturnPack zero_var.
Definition make_call_pack (pc : Z) : package := CallPack pc.
Definition tail_call_pack : package := make_call_pack 0.
Definition make_kill_pack : package := KillPack.

(** ** What equality means *)

(** Values that the interpreter can hand to the comparisons: user-visible types, C
    strings, and no NaN (the arithmetic never produces one). *)
Fixpoint good_value (v : Var) : bool :=
  match v with
  | Int _ | Obj _ | Err _ | WaifV _ => true
  | Str s => bool_decide (nul_free s)
  | Float S754_nan => false
  | Float _ => true
  | List l => forallb good_value l
  | _ => false
  end.

(** Equality of values: structural, with strings compared exactly or up to case and
    floats as IEEE does. *)
Inductive veq (case_matters : bool) : Var -> Var -> Prop :=
  | veq_int n : veq case_matters (Int n) (Int n)
  | veq_obj n : veq case_matters (Obj n) (Obj n)
  | veq_err e : veq case_matters (Err e) (Err e)
  | veq_waif w : veq case_matters (WaifV w) (WaifV w)
  | veq_float a b : SFeqb a b = true -> veq case_matters (Float a) (Float b)
  | veq_str s t : (if case_matters then s = t else ci_eq s t) ->
      veq case_matters (Str s) (Str t)
  | veq_list l k : Forall2 (veq case_matters) l k -> veq case_matters (List l) (List k).

Lemma strcmp_zero s t : nul_free s -> nul_free t -> strcmp s t = 0 <-> s = t.
Proof.
  intros Hs. revert t. induction Hs as [|c s Hc Hs IH]; intros t Ht; cbn [strcmp];
    rewrite ?cur_cons, ?cur_nil.
  - destruct Ht as [|d t Hd Ht]; [done|]. rewrite cur_cons.
    destruct (Z.eqb_spec 0 (ord d)); [lia|]. split; [|done].
    intros ?%Z.sgn_null_iff. lia.
  - destruct Ht as [|d t Hd Ht].
    + rewrite cur_nil. destruct (Z.eqb_spec (ord c) 0); [done|]. split; [|done].
      intros ?%Z.sgn_null_iff. lia.
    + rewrite cur_cons. destruct (Z.eqb_spec (ord c) (ord d)) as [He|He].
      * destruct (Z.eqb_spec (ord c) 0); [done|]. apply ord_inj in He as ->.
        cbn [tail]. rewrite IH by done. split; [congruence|by intros [= ?]].
      * split; [|congruence]. intros ?%Z.sgn_null_iff. lia.
Qed.

Lemma equality_list l k c : equality (List l) (List k) c =
  if negb (Z.of_nat (length l) =? Z.of_nat (length k)) then Ok false
  else (fix go (a b : list Var) : res bool :=
          match a, b with
          | x :: a, y :: b => e ← equality x y c; if (e : bool) then go a b else Ok false
          | _, _ => Ok true
          end) l k.
Proof. done. Qed.

Lemma equality_spec l r c : good_value l = true -> good_value r = true ->
  exists b, equality l r c = Ok b /\ (b = true <-> veq c l r).
Proof.
  revert r. induction l as [n|n|s|e|l IH| | | | |f|w] using Var_nested_ind;
    intros r Hl Hr; try done;
    destruct r as [n'|n'|s'|e'|k| | | | |f'|w']; try done;
    try (exists false; split; [done|]; split; [done|intros H; inversion H]).
  - exists (n =? n'). split; [done|]. rewrite Z.eqb_eq.
    split; [intros ->; constructor|intros H; by inversion H].
  - exists (n =? n'). split; [done|]. rewrite Z.eqb_eq.
    split; [intros ->; constructor|intros H; by inversion H].
  - eexists. split; [done|]. cbn in Hl, Hr.
    apply bool_decide_eq_true in Hl. apply bool_decide_eq_true in Hr.
    destruct c; rewrite Z.eqb_eq, ?strcmp_zero, ?mystrcasecmp_zero by done;
      (split; [by constructor|intros H; by inversion H]).
  - eexists. split; [done|]. rewrite bool_decide_eq_true.
    split; [intros ->; constructor|intros H; by inversion H].
  - rewrite equality_list. cbn in Hl, Hr.
    destruct (Z.eqb_spec (Z.of_nat (length l)) (Z.of_nat (length k))) as [Hlen|Hlen]; cbn [negb].
    2: { exists false. split; [done|]. split; [done|]. intros H. inversion H as [| | | | | |?? H2].
         apply Forall2_length in H2. lia. }
    assert (exists b, (fix go (a b : list Var) : res bool :=
          match a, b with
          | x :: a, y :: b => e ← equality x y c; if (e : bool) then go a b else Ok false
          | _, _ => Ok true
          end) l k = Ok b /\ (b = true <-> Forall2 (veq c) l k)) as (b & Hb & Hiff).
    { revert k Hr Hlen. induction IH as [|x l Hx IH IHl]; intros [|y k] Hr Hlen;
        cbn in Hlen; try lia.
      - by exists true.
      - cbn in Hl, Hr. apply andb_true_iff in Hl as [Hlx Hl].
        apply andb_true_iff in Hr as [Hry Hr].
        destruct (Hx y Hlx Hry) as ([|] & -> & Hxy); cbn [mbind res_bind].
        + destruct (IHl Hl k Hr) as (b & Hb & Hiff); [lia|]. exists b. split; [done|].
          rewrite Hiff. split; [by constructor; [apply Hxy|]|by inversion 1].
        + exists false. split; [done|]. split; [done|]. inversion 1. by apply Hxy. }
    exists b. split; [done|]. rewrite Hiff. split; [by constructor|by inversion 1].
  - eexists. split; [done|]. cbn.
    split; [by constructor|intros H; by inversion H].
  - eexists. split; [done|]. rewrite bool_decide_eq_true.
    split; [intros ->; constructor|intros H; by inversion H].
Qed.

Lemma SFeqb_refl f : f <> S754_nan -> SFeqb f f = true.
Proof.
  unfold SFeqb, SFcompare. destruct f as [[]|[]| |[] m e]; try done;
    by rewrite Z.compare_refl, Pos.compare_refl.
Qed.

Lemma SFeqb_sym f g : SFeqb f g = SFeqb g f.
Proof.
  unfold SFeqb, SFcompare.
  destruct f as [[]|[]| |[] m e], g as [[]|[]| |[] m' e']; try done;
    rewrite (Z.compare_antisym e e');
    pose proof (Pos.compare_antisym m m') as Hm; unfold Pos.compare in Hm; rewrite Hm;
    destruct (e ?= e'), (Pos.compare_cont Eq m m'); done.
Qed.

(** Equal finite floats are one float, except that the zeros are equal. *)
Lemma SFeqb_trans f g h : SFeqb f g = true -> SFeqb g h = true -> SFeqb f h = true.
Proof.
  unfold SFeqb, SFcompare.
  destruct f as [[]|[]| |[] m e], g as [[]|[]| |[] m' e'], h as [[]|[]| |[] m2 e2]; try done;
    change (Pos.compare_cont Eq) with Pos.compare;
    destruct (Z.compare_spec e e') as [->| |]; try done;
    destruct (Pos.compare_spec m m') as [->| |]; done.
Qed.

Lemma veq_refl c v : good_value v = true -> veq c v v.
Proof.
  induction v as [n|n|s|e|l IH| | | | |f|w] using Var_nested_ind; intros Hv; try done;
    try constructor.
  - destruct c; done.
  - cbn in Hv. induction IH as [|x l Hx _ IHl]; [constructor|].
    cbn in Hv. apply andb_true_iff in Hv as [Hx' Hv]. constructor; auto.
  - apply SFeqb_refl. by intros ->.
Qed.

Lemma veq_sym c v w : veq c v w -> veq c w v.
Proof.
  revert w. induction v as [n|n|s|e|l IH| | | | |f|w'] using Var_nested_ind;
    intros w H; inversion H as [| | | |? b Hf|? t Hs|? k Hl]; subst; try constructor.
  - destruct c; [done|]. by symmetry.
  - clear H. induction Hl as [|x y l k Hxy Hl IHl]; [constructor|].
    inversion IH; subst. constructor; auto.
  - by rewrite SFeqb_sym.
Qed.

Lemma veq_trans c u v w : veq c u v -> veq c v w -> veq c u w.
Proof.
  revert v w. induction u as [n|n|s|e|l IH| | | | |f|w'] using Var_nested_ind;
    intros v w H1 H2; inversion H1 as [| | | |? b Hf|? t Hs|? k Hl]; subst;
    inversion H2 as [| | | |? b' Hf'|? t' Hs'|? k' Hl']; subst; try constructor.
  - destruct c; by etrans.
  - clear H1 H2. revert k' Hl'. induction Hl as [|x y l k Hxy Hl IHl]; intros k' Hl';
      inversion Hl'; subst; [constructor|]. inversion IH; subst. constructor; eauto.
  - by eapply SFeqb_trans.
Qed.

(** ** Properties *)

(** on the values that programs can hold, [equality] returns (it never panics) and
    decides an equivalence relation: structural equality, with strings compared
    exactly or up to case. *)
Theorem equality_correct l r c : good_value l = true -> good_value r = true ->
  (exists b, equality l r c = Ok b /\ (b = true <-> veq c l r)) /\
  equality l l c = Ok true /\ equality l r c = equality r l c.
Proof.
  intros Hl Hr. destruct (equality_spec l r c Hl Hr) as (b & Hb & Hiff). split_and!.
  - by exists b.
  - destruct (equality_spec l l c Hl Hl) as ([] & Ha & Hl'); [done|].
    by destruct (proj2 Hl' (veq_refl c l Hl)).
  - destruct (equality_spec r l c Hr Hl) as (b' & Hb' & Hiff'). rewrite Hb, Hb'. f_equal.
    destruct b, b'; try done.
    + by rewrite (proj2 Hiff' (veq_sym _ _ _ (proj1 Hiff eq_refl))).
    + by rewrite (proj2 Hiff (veq_sym _ _ _ (proj1 Hiff' eq_refl))).
Qed.

Lemma equality_correct_witness :
  equality (List [Str (lit "Foo"); Int 1]) (List [Str (lit "fOO"); Int 1]) false
  = equality (List [Str (lit "fOO"); Int 1]) (List [Str (lit "Foo"); Int 1]) false.
Proof. apply equality_correct; vm_compute; reflexivity. Defined.
