(* ===== verification/Lists.v ===== *)
(** * Lists and strings as sequences (src/list.c, src/execute.c)

    The operations on list values and on the characters of string values, and the
    interpreter's checked indexing of both.  Positions are C [int]s counted from 1; a
    copy loop that would leave the array faults. *)

From S2P Require Import Prelude Utf CStrings Values.

Open Scope Z_scope.

(** ** Lists *)

Definition len (l : list Var) : Z := Z.of_nat (length l).

(** The loop [for (i = from; i <= to; i++) ... list[i]]. *)
Definition slice (l : list Var) (from to : Z) : res (list Var) :=
  if to <? from then Ok []
  else if (from <? 1) || (to >? len l) then Fail Segv
  else Ok (take (Z.to_nat (to - from + 1)) (drop (Z.to_nat (from - 1)) l)).

(** [ismember]: the first position of an equal element, or 0. *)
Fixpoint ismember_from (lhs : Var) (l : list Var) (case_matters : bool) (i : Z) : res Z :=
  match l with
  | [] => Ok 0
  | x :: l =>
      e ← equality lhs x case_matters;
      if (e : bool) then Ok i else ismember_from lhs l case_matters (i + 1)
  end.
Definition ismember (lhs : Var) (l : list Var) (case_matters : bool) : res Z :=
  ismember_from lhs l case_matters 1.

(** [listset]: the caller has made sure that the list is not shared. *)
Definition listset (l : list Var) (value : Var) (pos : Z) : res (list Var) :=
  if (pos <? 1) || (pos >? len l) then Fail Segv
  else Ok (<[Z.to_nat (pos - 1) := value]> l).

Definition doinsert (l : list Var) (value : Var) (pos : Z) : res (list Var) :=
  before ← slice l 1 (pos - 1);
  after ← slice l pos (len l);
  Ok (before ++ value :: after).

Definition listinsert (l : list Var) (value : Var) (pos : Z) : res (list Var) :=
  let pos := if pos <=? 0 then 1 else if pos >? len l then len l + 1 else pos in
  doinsert l value pos.

Definition listappend (l : list Var) (value : Var) : res (list Var) :=
  doinsert l value (len l + 1).

Definition listdelete (l : list Var) (pos : Z) : res (list Var) :=
  before ← slice l 1 (pos - 1);
  after ← slice l (pos + 1) (len l);
  Ok (before ++ after).

Definition listconcat (first second : list Var) : res (list Var) :=
  a ← slice first 1 (len first);
  b ← slice second 1 (len second);
  Ok (a ++ b).

Definition setadd (l : list Var) (value : Var) : res (list Var) :=
  i ← ismember value l false;
  if negb (i =? 0) then Ok l else listappend l value.

Definition setremove (l : list Var) (value : Var) : res (list Var) :=
  i ← ismember value l false;
  if negb (i =? 0) then listdelete l i else Ok l.

Definition listrangeset (base : list Var) (from to : Z) (value : list Var)
    : res (list Var) :=
  let base_len := len base in
  let lenleft := if from >? 1 then wrap32 (from - 1) else 0 in
  let lenright := if base_len >? to then wrap32 (base_len - to) else 0 in
  left ← slice base 1 lenleft;
  right ← slice base (to + 1) (to + lenright);
  Ok (left ++ value ++ right).

Definition sublist (l : list Var) (lower upper : Z) : res (list Var) :=
  if lower >? upper then Ok [] else slice l lower upper.

(** ** Characters of strings *)

Definition strrangeset (base : cstr) (from to : Z) (value : cstr) : cstr :=
  let charsleft := if from >? 1 then wrap32 (from - 1) else 0 in
  let lenleft := skip_utf base charsleft in
  let indright :=
    (lenleft + skip_utf (drop lenleft base) (wrap32 (to - from + 1)))%nat in
  take lenleft base ++ value ++ drop indright base.

Definition substr (str : cstr) (lower upper : Z) : cstr :=
  if lower >? upper then []
  else
    let lower_ind := skip_utf str (wrap32 (lower - 1)) in
    let n := skip_utf (drop lower_ind str) (wrap32 (upper + 1 - lower)) in
    take n (drop lower_ind str).

(** [strget str i]: [strncpy] stops at the end of the string. *)
Definition strget (str : cstr) (i : Z) : cstr :=
  let ind := skip_utf str (wrap32 (i - 1)) in
  take (clearance_utf (at_ str ind)) (drop ind str).

(** ** Indexing in the interpreter (src/execute.c)

    The handlers of the indexing opcodes, from the popped operands to the pushed value
    or error.  The operands are 64-bit; the functions above take [int]s. *)

(** [OP_REF]. *)
Definition op_ref (l index : Var) : res Var :=
  match l, index with
  | List xs, Int i =>
      if (i <=? 0) || (i >? len xs) then Ok (Err E_RANGE)
      else deref (xs !! Z.to_nat (i - 1))
  | Str s, Int i =>
      if (i <=? 0) || (i >? strlen_utf s) then Ok (Err E_RANGE)
      else Ok (Str (strget s i))
  | _, _ => Ok (Err E_TYPE)
  end.

(** [OP_RANGE_REF]. *)
Definition op_range_ref (base from to : Var) : res Var :=
  match base, from, to with
  | (List _ | Str _), Int from, Int to =>
      let n := match base with Str s => strlen_utf s | List xs => len xs | _ => 0 end in
      if (from <=? to) && ((from <=? 0) || (from >? n) || (to <=? 0) || (to >? n))
      then Ok (Err E_RANGE)
      else match base with
      | Str s => Ok (Str (substr s (wrap32 from) (wrap32 to)))
      | List xs => List <$> sublist xs (wrap32 from) (wrap32 to)
      | _ => Ok (Err E_TYPE)
      end
  | _, _, _ => Ok (Err E_TYPE)
  end.

(** [OP_INDEXSET]. *)
Definition op_indexset (l index value : Var) : res Var :=
  match l, index with
  | List xs, Int i =>
      if (i <? 1) || (i >? len xs) then Ok (Err E_RANGE)
      else List <$> listset xs value (wrap32 i)
  | Str s, Int i =>
      match value with
      | Str v =>
          if (i <? 1) || (i >? strlen_utf s) then Ok (Err E_RANGE)
          else if negb (strlen_utf v =? 1) then Ok (Err E_INVARG)
          else Ok (Str (strrangeset s (wrap32 i) (wrap32 i) v))
      | _ => Ok (Err E_TYPE)
      end
  | _, _ => Ok (Err E_TYPE)
  end.

Definition rangeset_check (end_ from to : Z) : bool :=
  (from >? wrap32 (end_ + 1)) || (to <? 0).

(** [EOP_RANGESET]: the bound for a string is its number of bytes. *)
Definition op_rangeset (base from to value : Var) : res Var :=
  match base, value, from, to with
  | List xs, List ys, Int from, Int to =>
      if rangeset_check (len xs) (wrap32 from) (wrap32 to) then Ok (Err E_RANGE)
      else List <$> listrangeset xs (wrap32 from) (wrap32 to) ys
  | Str s, Str v, Int from, Int to =>
      if rangeset_check (Z.of_nat (length s)) (wrap32 from) (wrap32 to)
      then Ok (Err E_RANGE)
      else Ok (Str (strrangeset s (wrap32 from) (wrap32 to) v))
  | _, _, _, _ => Ok (Err E_TYPE)
  end.

(** ** Lemmas on lists *)

(** The lengths that fit an [int], as every allocated list and string does. *)
Definition fits (n : Z) : Prop := 0 <= n < 2 ^ 31 - 1.

Lemma wrap32_id z : int_range 32 z -> wrap32 z = z.
Proof. by apply swrap_id. Qed.

Lemma wrap32_fits n z : fits n -> -2 ^ 31 <= z <= n + 1 -> wrap32 z = z.
Proof. unfold fits. intros. apply wrap32_id. unfold int_range. lia. Qed.

Lemma wrap32_fits0 n z : fits n -> 0 <= z <= n -> wrap32 z = z.
Proof. unfold fits. intros. apply wrap32_id. unfold int_range. lia. Qed.

Lemma len_nonneg l : 0 <= len l.
Proof. unfold len. lia. Qed.

Lemma slice_prefix l n : 0 <= n <= len l -> slice l 1 n = Ok (take (Z.to_nat n) l).
Proof.
  unfold slice, len. intros Hn. destruct (Z.ltb_spec n 1).
  - replace (Z.to_nat n) with 0%nat by lia. done.
  - destruct (Z.gtb_spec n (Z.of_nat (length l))); [lia|]. cbn. by do 2 f_equal; lia.
Qed.

Lemma slice_suffix l n : 0 <= n -> slice l (n + 1) (len l) = Ok (drop (Z.to_nat n) l).
Proof.
  unfold slice, len. intros Hn. destruct (Z.ltb_spec (Z.of_nat (length l)) (n + 1)).
  - rewrite drop_ge by lia. done.
  - destruct (Z.ltb_spec (n + 1) 1); [lia|].
    rewrite (proj2 (Z.gtb_ltb _ _) eq_refl) || (destruct (Z.gtb_spec (Z.of_nat (length l)) (Z.of_nat (length l))); [lia|]).
    cbn [orb]. replace (Z.to_nat (n + 1 - 1)) with (Z.to_nat n) by lia.
    rewrite take_ge; [done|]. rewrite length_drop. lia.
Qed.

Lemma slice_middle l a b : 1 <= a -> a <= b + 1 -> b <= len l ->
  slice l a b = Ok (take (Z.to_nat (b - a + 1)) (drop (Z.to_nat (a - 1)) l)).
Proof.
  unfold slice, len. intros Ha Hab Hb. destruct (Z.ltb_spec b a).
  - replace (Z.to_nat (b - a + 1)) with 0%nat by lia. done.
  - destruct (Z.ltb_spec a 1); [lia|].
    destruct (Z.gtb_spec b (Z.of_nat (length l))); [lia|]. done.
Qed.

#[export] Hint Rewrite slice_prefix slice_suffix using (unfold len in *; lia) : moo.

Lemma doinsert_Ok l v p : 0 <= p <= len l ->
  doinsert l v (p + 1) = Ok (take (Z.to_nat p) l ++ v :: drop (Z.to_nat p) l).
Proof.
  intros Hp. unfold doinsert. replace (p + 1 - 1) with p by lia.
  by rewrite slice_prefix, slice_suffix by lia.
Qed.

Lemma listappend_Ok l v : listappend l v = Ok (l ++ [v]).
Proof.
  unfold listappend. rewrite doinsert_Ok by (pose proof (len_nonneg l); lia).
  unfold len. by rewrite Nat2Z.id, take_ge, drop_ge.
Qed.

Lemma listinsert_Ok l v pos :
  let p := Z.max 0 (Z.min (pos - 1) (len l)) in
  listinsert l v pos = Ok (take (Z.to_nat p) l ++ v :: drop (Z.to_nat p) l).
Proof.
  cbv zeta. unfold listinsert. pose proof (len_nonneg l).
  rewrite <- doinsert_Ok by lia. f_equal.
  destruct (Z.leb_spec pos 0); [lia|]. destruct (Z.gtb_spec pos (len l)); lia.
Qed.

Lemma listdelete_Ok l p : 1 <= p <= len l ->
  listdelete l p = Ok (take (Z.to_nat (p - 1)) l ++ drop (Z.to_nat p) l).
Proof.
  intros Hp. unfold listdelete. by rewrite slice_prefix, slice_suffix by lia.
Qed.

Lemma listset_Ok l v p : 1 <= p <= len l -> listset l v p = Ok (<[Z.to_nat (p - 1) := v]> l).
Proof.
  intros Hp. unfold listset. destruct (Z.ltb_spec p 1); [lia|].
  destruct (Z.gtb_spec p (len l)); [lia|]. done.
Qed.

Lemma sublist_Ok l a b : 1 <= a -> b <= len l ->
  sublist l a b = Ok (take (Z.to_nat (b - a + 1)) (drop (Z.to_nat (a - 1)) l)).
Proof.
  intros Ha Hb. unfold sublist. destruct (Z.gtb_spec a b).
  - replace (Z.to_nat (b - a + 1)) with 0%nat by lia. done.
  - apply slice_middle; lia.
Qed.

Lemma listrangeset_Ok l a b w : fits (len l) -> a <= len l + 1 -> 0 <= b < 2 ^ 31 ->
  listrangeset l a b w = Ok (take (Z.to_nat (a - 1)) l ++ w ++ drop (Z.to_nat b) l).
Proof.
  intros Hf Ha Hb. unfold listrangeset. unfold fits in Hf.
  assert (Hl : slice l 1 (if a >? 1 then wrap32 (a - 1) else 0) = Ok (take (Z.to_nat (a - 1)) l)).
  { destruct (Z.gtb_spec a 1).
    - rewrite wrap32_id by (unfold int_range; lia). apply slice_prefix. lia.
    - replace (Z.to_nat (a - 1)) with 0%nat by lia. done. }
  rewrite Hl. cbn [mbind res_bind].
  destruct (Z.gtb_spec (len l) b).
  - rewrite wrap32_id by (unfold int_range; lia). replace (b + (len l - b)) with (len l) by lia.
    rewrite slice_suffix by lia. done.
  - unfold slice at 1. rewrite Z.add_0_r. destruct (Z.ltb_spec b (b + 1)); [|lia].
    cbn. rewrite drop_ge by (unfold len in *; lia). done.
Qed.

(** ** Membership and sets *)

(** [x] is in [l], up to equality of values. *)
Definition In_veq (c : bool) (x : Var) (l : list Var) : Prop := Exists (veq c x) l.

Lemma ismember_from_spec v l c i : 0 < i -> good_value v = true ->
  forallb good_value l = true ->
  (exists k x, l !! k = Some x /\ veq c v x /\
     (forall j y, (j < k)%nat -> l !! j = Some y -> ~ veq c v y) /\
     ismember_from v l c i = Ok (i + Z.of_nat k)) \/
  (~ In_veq c v l /\ ismember_from v l c i = Ok 0).
Proof.
  revert i. induction l as [|x l IH]; intros i Hi Hv Hl; cbn [ismember_from].
  { right. split; [|done]. intros H. inversion H. }
  cbn in Hl. apply andb_true_iff in Hl as [Hx Hl].
  destruct (equality_spec v x c Hv Hx) as ([|] & -> & Hb); cbn [mbind res_bind].
  - left. exists 0%nat, x. split_and!; [done|by apply Hb| |f_equal; lia]. intros j y Hj. lia.
  - assert (Hn : ~ veq c v x) by (intros H%Hb; done).
    destruct (IH (i + 1)) as [(k & y & Hk & Hy & Hmin & ->)|[Hno ->]]; [lia|done..| |].
    + left. exists (S k), y. split_and!; [done..| |f_equal; lia].
      intros [|j] z Hj; cbn; [by intros [= <-]|]. apply Hmin. lia.
    + right. split; [|done]. intros H. inversion H; subst; done.
Qed.

Lemma ismember_spec v l c : good_value v = true -> forallb good_value l = true ->
  (exists k x, l !! k = Some x /\ veq c v x /\
     (forall j y, (j < k)%nat -> l !! j = Some y -> ~ veq c v y) /\
     ismember v l c = Ok (Z.of_nat k + 1)) \/
  (~ In_veq c v l /\ ismember v l c = Ok 0).
Proof.
  intros Hv Hl. destruct (ismember_from_spec v l c 1) as [(k & x & ? & ? & ? & H)|]; try done.
  - left. exists k, x. split_and!; try done. unfold ismember. rewrite H. f_equal. lia.
  - by right.
Qed.

(** ** Strings as sequences of code points *)

Lemma chunks_drop s : nul_free s -> forall i,
  utf_chunks (concat (drop i (utf_chunks s))) = drop i (utf_chunks s).
Proof.
  revert s. apply (utf_ind (fun s => forall i, _)).
  { by intros [|i]. }
  intros s v n Hs Hne Hg _ _ IH [|i].
  - by rewrite !drop_0, concat_utf_chunks.
  - rewrite (utf_chunks_unfold s v n) at 1 2 by done. apply IH.
Qed.

Lemma concat_split (cs : list cstr) i : concat (take i cs) ++ concat (drop i cs) = concat cs.
Proof. by rewrite <- concat_app, take_drop. Qed.

(** The two parts of a string before and after its first [i] characters. *)
Lemma skip_utf_split s i : nul_free s -> 0 <= i ->
  let k := skip_utf s i in let n := Z.to_nat i in
  take k s = concat (take n (utf_chunks s)) /\ drop k s = concat (drop n (utf_chunks s)) /\
  utf_chunks (drop k s) = drop n (utf_chunks s) /\ nul_free (drop k s).
Proof.
  intros Hs Hi. cbv zeta. destruct (utf_counting_spec s Hs) as (Hc & _ & Hk).
  rewrite Hk by done. set (n := Z.to_nat i).
  assert (Hd : drop (length (concat (take n (utf_chunks s)))) s = concat (drop n (utf_chunks s))).
  { rewrite <- Hc at 2. rewrite <- (concat_split (utf_chunks s) n). apply drop_app_length. }
  split_and!.
  - rewrite <- Hc at 2. rewrite <- (concat_split (utf_chunks s) n). apply take_app_length.
  - done.
  - rewrite Hd. by apply chunks_drop.
  - by apply nul_free_drop.
Qed.

Lemma substr_chunks s a b : nul_free s -> fits (Z.of_nat (length (utf_chunks s))) ->
  1 <= a -> a <= b -> b <= Z.of_nat (length (utf_chunks s)) ->
  substr s a b = concat (take (Z.to_nat (b - a + 1)) (drop (Z.to_nat (a - 1)) (utf_chunks s))).
Proof.
  intros Hs Hf Ha Hab Hb. unfold substr. destruct (Z.gtb_spec a b); [lia|].
  rewrite !(wrap32_fits _ _ Hf) by lia.
  destruct (skip_utf_split s (a - 1) Hs) as (_ & _ & Hch & Hn); [lia|].
  set (s' := drop (skip_utf s (a - 1)) s) in *.
  destruct (skip_utf_split s' (b + 1 - a) Hn) as (-> & _); [lia|].
  rewrite Hch. do 2 f_equal. lia.
Qed.

Lemma strrangeset_chunks s a b w : nul_free s -> fits (Z.of_nat (length (utf_chunks s))) ->
  1 <= a -> a <= b + 1 -> b <= Z.of_nat (length (utf_chunks s)) ->
  strrangeset s a b w = concat (take (Z.to_nat (a - 1)) (utf_chunks s)) ++ w ++
                        concat (drop (Z.to_nat b) (utf_chunks s)).
Proof.
  intros Hs Hf Ha Hab Hb. unfold strrangeset.
  assert (Hl : (if a >? 1 then wrap32 (a - 1) else 0) = a - 1).
  { destruct (Z.gtb_spec a 1); [|lia]. apply (wrap32_fits _ _ Hf). lia. }
  rewrite Hl, (wrap32_fits _ _ Hf) by lia.
  destruct (skip_utf_split s (a - 1) Hs) as (-> & _ & Hch & Hn); [lia|].
  rewrite <- drop_drop. set (s' := drop (skip_utf s (a - 1)) s) in *.
  destruct (skip_utf_split s' (b - a + 1) Hn) as (_ & -> & _); [lia|].
  rewrite Hch, drop_drop. do 4 f_equal. lia.
Qed.

(** Code points that a string can hold. *)
Definition code_points (vs : list Z) : Prop := Forall (fun v => 0 < v < 2 ^ 31) vs.

Definition encodes (v : Z) (c : cstr) : Prop := scalar v /\ c = chr <$> utf_bytes v.

Lemma encode_of_chunks vs cs : code_points vs -> Forall2 encodes vs cs ->
  encode vs = Some (concat cs).
Proof.
  intros Hvs H. induction H as [|v c vs cs [Hv ->] _ IH]; [done|].
  inversion Hvs as [|? ? Hr Hvs']; subst. apply encode_cons. eexists _, _.
  split_and!; [|by apply IH|done]. apply put_utf_spec. unfold u32.
  rewrite Z.mod_small by lia. done.
Qed.

Lemma clearance_encodes v c rest : scalar v -> c = chr <$> utf_bytes v ->
  clearance_utf (cur (c ++ rest)) = length c.
Proof.
  intros Hv ->. destruct Hv as [Hv _]. unfold utf_bytes, clearance_utf.
  destruct (Z.leb_spec v 0x7f); [|destruct (Z.leb_spec v 0x7ff);
    [|destruct (Z.leb_spec v 0xffff)]];
    cbn [fmap list_fmap app length]; rewrite cur_cons, ord_chr by dlia; cmp; done.
Qed.

Lemma strget_chunks s i c v : nul_free s -> fits (Z.of_nat (length (utf_chunks s))) ->
  1 <= i <= Z.of_nat (length (utf_chunks s)) ->
  utf_chunks s !! Z.to_nat (i - 1) = Some c -> encodes v c -> strget s i = c.
Proof.
  intros Hs Hf Hi Hc [Hv Hcv]. unfold strget. rewrite (wrap32_fits _ _ Hf) by lia.
  destruct (skip_utf_split s (i - 1) Hs) as (_ & Hd & _); [lia|].
  set (k := skip_utf s (i - 1)) in *.
  assert (Hat : at_ s k = cur (drop k s)) by (unfold cur; by rewrite at_drop, Nat.add_0_r).
  rewrite Hat, Hd, (drop_S _ c) by done. cbn [concat].
  rewrite (clearance_encodes v) by done. apply take_app_length.
Qed.

(** ** Properties *)

(** on a string that encodes a sequence of code points, length, indexing, ranges and
    assignment to a range (also an empty or a whole one) act on that sequence. *)
Theorem strings_are_code_points vs s ws w :
  code_points vs -> encode vs = Some s -> fits (Z.of_nat (length vs)) ->
  code_points ws -> encode ws = Some w ->
  let n := Z.of_nat (length vs) in
  strlen_utf s = n /\
  (forall i v, 1 <= i <= n -> vs !! Z.to_nat (i - 1) = Some v ->
     encode [v] = Some (strget s i)) /\
  (forall a b, 1 <= a -> a <= b -> b <= n ->
     encode (take (Z.to_nat (b - a + 1)) (drop (Z.to_nat (a - 1)) vs)) = Some (substr s a b)) /\
  (forall a b, 1 <= a -> a <= b + 1 -> b <= n ->
     encode (take (Z.to_nat (a - 1)) vs ++ ws ++ drop (Z.to_nat b) vs)
     = Some (strrangeset s a b w)).
Proof.
  intros Hvs Hs Hf Hws Hw. cbv zeta. destruct (encode_chunks vs s Hvs Hs) as [Hn Hc].
  destruct (encode_chunks ws w Hws Hw) as [Hnw Hcw].
  pose proof (Forall2_length _ _ _ Hc) as Hl. rewrite Hl in *. split_and!.
  - by destruct (utf_counting_spec s Hn) as (_ & -> & _).
  - intros i v Hi Hv.
    destruct (Forall2_lookup_l _ _ _ _ _ Hc Hv) as (c & Hci & Hvc).
    rewrite (strget_chunks s i c v) by done. rewrite <- (app_nil_r c).
    apply (encode_of_chunks [v] [c]).
    + constructor; [|constructor]. exact (Forall_lookup_1 _ _ _ _ Hvs Hv).
    + constructor; [done|constructor].
  - intros a b Ha Hab Hb. rewrite substr_chunks by done. apply encode_of_chunks.
    + by apply Forall_take, Forall_drop.
    + by apply Forall2_take, Forall2_drop.
  - intros a b Ha Hab Hb. rewrite strrangeset_chunks by done.
    destruct (utf_counting_spec w Hnw) as (<- & _). rewrite <- !concat_app.
    apply encode_of_chunks.
    + unfold code_points. rewrite !Forall_app. split_and!; [by apply Forall_take|done|by apply Forall_drop].
    + apply Forall2_app; [by apply Forall2_take|]. apply Forall2_app; [done|by apply Forall2_drop].
Qed.

Lemma strings_are_code_points_witness :
  let vs := [0x48; 0xe9; 0x1f600; 0x21] in
  exists s, encode vs = Some s /\ strlen_utf s = 4 /\ encode [0x1f600] = Some (strget s 3).
Proof.
  intros vs. destruct (encode vs) as [s|] eqn:Hs; [|vm_compute in Hs; discriminate].
  exists s. split; [reflexivity|].
  destruct (strings_are_code_points vs s [0x41] [chr 0x41]) as (Hl & Hg & _).
  - apply (bool_decide_unpack _). vm_compute. exact I.
  - exact Hs.
  - vm_compute. intuition discriminate.
  - apply (bool_decide_unpack _). vm_compute. exact I.
  - reflexivity.
  - split; [exact Hl|]. apply Hg; [vm_compute; intuition discriminate|reflexivity].
Defined.

(** [setadd] appends a value exactly when no element equals it, [setremove] deletes the
    first equal element and nothing else; neither can fail on program values, and both
    keep lists without duplicates so. *)
Theorem set_operations_correct l v : forallb good_value l = true -> good_value v = true ->
  (exists l', setadd l v = Ok l' /\ In_veq false v l' /\
     ((In_veq false v l /\ l' = l) \/ (~ In_veq false v l /\ l' = l ++ [v]))) /\
  (exists l', setremove l v = Ok l' /\
     ((~ In_veq false v l /\ l' = l) \/
      (exists l1 x l2, l = l1 ++ x :: l2 /\ veq false v x /\ ~ In_veq false v l1 /\
         l' = l1 ++ l2))).
Proof.
  intros Hl Hv. unfold setadd, setremove.
  destruct (ismember_spec v l false Hv Hl) as [(k & x & Hk & Hx & Hmin & ->)|[Hno ->]];
    cbn [mbind res_bind].
  - assert (Hin : In_veq false v l).
    { apply Exists_exists. exists x. split; [by eapply list_elem_of_lookup_2|done]. }
    destruct (Z.eqb_spec (Z.of_nat k + 1) 0); [lia|]. cbn [negb]. split; [eauto 6|].
    pose proof (lookup_lt_Some _ _ _ Hk) as Hlt.
    rewrite listdelete_Ok by (unfold len; lia). eexists. split; [done|]. right.
    exists (take k l), x, (drop (S k) l). split_and!.
    + by rewrite take_drop_middle.
    + done.
    + intros (y & Hy & Hvy)%Exists_exists. apply list_elem_of_lookup_1 in Hy as [j Hj].
      pose proof (lookup_lt_Some _ _ _ Hj) as Hjk. rewrite length_take in Hjk.
      rewrite lookup_take_lt in Hj by lia. apply (Hmin j y); [lia|done..].
    + f_equal; f_equal; lia.
  - cbn [negb Z.eqb]. rewrite listappend_Ok. split; eexists; (split; [done|]).
    + split; [|by right]. apply Exists_app. right. constructor. by apply veq_refl.
    + by left.
Qed.

Lemma set_operations_correct_witness : exists l',
  setadd [Int 1; Str (lit "foo")] (Str (lit "FOO")) = Ok l' /\
  In_veq false (Str (lit "FOO")) l'.
Proof.
  destruct (set_operations_correct [Int 1; Str (lit "foo")] (Str (lit "FOO")))
    as [(l' & He & Hin & _) _]; [vm_compute; reflexivity..|].
  exists l'. split; [exact He|exact Hin].
Defined.

(** the list opcodes on a list of [n] elements, [n] fitting an [int]: [l[i] = v]
    changes that element only, [l[i]] reads it back; [l[a..b]] is the segment, and
    [l[a..b] = w] replaces it.  Bad positions give [E_RANGE]; no operation reads
    outside of the list. *)
Theorem list_indexing_correct xs i a b v ws : fits (len xs) -> int_range 32 i ->
  int_range 32 a -> int_range 32 b ->
  (if decide (1 <= i <= len xs)
   then exists ys x, op_indexset (List xs) (Int i) v = Ok (List ys) /\
          ys = <[Z.to_nat (i - 1) := v]> xs /\ op_ref (List ys) (Int i) = Ok v /\
          op_ref (List xs) (Int i) = Ok x /\ xs !! Z.to_nat (i - 1) = Some x
   else op_indexset (List xs) (Int i) v = Ok (Err E_RANGE) /\
        op_ref (List xs) (Int i) = Ok (Err E_RANGE)) /\
  op_range_ref (List xs) (Int a) (Int b) =
    (if decide (b < a) then Ok (List [])
     else if decide (1 <= a /\ b <= len xs)
     then Ok (List (take (Z.to_nat (b - a + 1)) (drop (Z.to_nat (a - 1)) xs)))
     else Ok (Err E_RANGE)) /\
  (op_rangeset (List xs) (Int a) (Int b) (List ws) =
     if decide (a <= len xs + 1 /\ 0 <= b)
     then Ok (List (take (Z.to_nat (a - 1)) xs ++ ws ++ drop (Z.to_nat b) xs))
     else Ok (Err E_RANGE)).
Proof.
  intros Hf Hi Ha Hb. pose proof (len_nonneg xs) as Hn. split_and!.
  - case_decide as Hd.
    + destruct (lookup_lt_is_Some_2 xs (Z.to_nat (i - 1))) as [x Hx]; [unfold len in *; lia|].
      exists (<[Z.to_nat (i - 1) := v]> xs), x. unfold op_indexset, op_ref, len.
      rewrite length_insert. fold (len xs).
      destruct (Z.ltb_spec i 1), (Z.gtb_spec i (len xs)), (Z.leb_spec i 0); try lia.
      cbn [orb]. rewrite wrap32_id, listset_Ok by done.
      rewrite list_lookup_insert_eq by (unfold len in *; lia). rewrite Hx. done.
    + unfold op_indexset, op_ref.
      destruct (Z.ltb_spec i 1), (Z.gtb_spec i (len xs)), (Z.leb_spec i 0); done || lia.
  - unfold op_range_ref. rewrite !wrap32_id by done.
    destruct (Z.leb_spec a b); [rewrite decide_False by lia|rewrite decide_True by lia].
    + case_decide as Hd; destruct (Z.leb_spec a 0), (Z.gtb_spec a (len xs)),
        (Z.leb_spec b 0), (Z.gtb_spec b (len xs)); try lia; cbn [andb orb]; try done.
      by rewrite sublist_Ok by lia.
    + cbn [andb]. unfold sublist. destruct (Z.gtb_spec a b); [done|lia].
  - unfold op_rangeset, rangeset_check. rewrite !wrap32_id by
      (done || unfold int_range, fits in *; lia).
    unfold int_range, fits in *. case_decide as Hd;
      destruct (Z.gtb_spec a (len xs + 1)), (Z.ltb_spec b 0); try lia; cbn [orb]; try done.
    rewrite listrangeset_Ok by (unfold fits; lia). done.
Qed.

Lemma list_indexing_correct_witness :
  op_range_ref (List [Int 5; Int 6; Int 7]) (Int 2) (Int 3) = Ok (List [Int 6; Int 7]).
Proof.
  assert (H : fits (len [Int 5; Int 6; Int 7]) /\ int_range 32 2 /\ int_range 32 3)
    by (vm_compute; intuition discriminate).
  destruct H as (Hf & H2 & H3).
  destruct (list_indexing_correct [Int 5; Int 6; Int 7] 2 2 3 (Int 0) [] Hf H2 H2 H3)
    as (_ & Hr & _).
  rewrite Hr. vm_compute. reflexivity.
Defined.

(** The range operator compares 64-bit bounds but passes [int]s on: with bounds out of
    the 32-bit range it reads outside of the list, or answers elements for an empty
    range. *)
Theorem range_ref_truncates :
  op_range_ref (List [Int 5]) (Int 4294967297) (Int 2) = Fail Segv /\
  op_range_ref (List [Int 5]) (Int 4294967297) (Int 1) = Ok (List [Int 5]).
Proof. split; vm_compute; reflexivity. Qed.
