(* ===== verification/Links.v ===== *)
(** * Intrusive linked lists between objects (src/db_objects.c)

    The inheritance and the containment hierarchies are stored the same way: an object
    holds the number of its owner in the hierarchy ([up]), of the first object below it
    ([first]) and of the next object below the same owner ([nxt]).  The operations are
    the macros [LL_REMOVE] and [LL_APPEND]; the interface [Links] gives the three fields
    of either hierarchy, with its laws in [LawfulLinks].  The abstract view is a forest
    with ordered children, and moving a node refines the obvious operation on it. *)

From S2P Require Import Prelude Values.

Open Scope Z_scope.

(** ** The fields of a hierarchy *)

Record Links (A : Type) := mkLinks {
  up : A -> Z;
  first : A -> Z;
  nxt : A -> Z;
  set_up : Z -> A -> A;
  set_first : Z -> A -> A;
  set_nxt : Z -> A -> A }.
Arguments up {A} _ _.
Arguments first {A} _ _.
Arguments nxt {A} _ _.
Arguments set_up {A} _ _ _.
Arguments set_first {A} _ _ _.
Arguments set_nxt {A} _ _ _.

(** All three fields replaced. *)
Definition relink {A} (L : Links A) (u f n : Z) (o : A) : A :=
  set_up L u (set_nxt L n (set_first L f o)).

Class LawfulLinks {A} (L : Links A) : Prop := {
  up_set_up v o : up L (set_up L v o) = v;
  up_set_first v o : up L (set_first L v o) = up L o;
  up_set_nxt v o : up L (set_nxt L v o) = up L o;
  first_set_up v o : first L (set_up L v o) = first L o;
  first_set_first v o : first L (set_first L v o) = v;
  first_set_nxt v o : first L (set_nxt L v o) = first L o;
  nxt_set_up v o : nxt L (set_up L v o) = nxt L o;
  nxt_set_first v o : nxt L (set_first L v o) = nxt L o;
  nxt_set_nxt v o : nxt L (set_nxt L v o) = v;
  set_up_relink v o : set_up L v o = relink L v (first L o) (nxt L o) o;
  set_first_relink v o : set_first L v o = relink L (up L o) v (nxt L o) o;
  set_nxt_relink v o : set_nxt L v o = relink L (up L o) (first L o) v o;
  relink_self o : relink L (up L o) (first L o) (nxt L o) o = o;
  relink_relink u f n u' f' n' o : relink L u f n (relink L u' f' n' o) = relink L u f n o;
}.

Create Rewrite HintDb links.
#[export] Hint Rewrite @up_set_up @up_set_first @up_set_nxt @first_set_up @first_set_first
  @first_set_nxt @nxt_set_up @nxt_set_first @nxt_set_nxt using apply _ : links.

(** ** The operations *)

Section ops.
Context {A : Type} (L : Links A).
Implicit Types (objs : gmap Z A).

(** [objects[x]], dereferenced. *)
Definition get (objs : gmap Z A) (x : Z) : res A := deref (objs !! x).

(** [objects[x]->field = ...]. *)
Definition upd (objs : gmap Z A) (x : Z) (f : A -> A) : res (gmap Z A) :=
  o ← get objs x;
  Ok (<[x := f o]> objs).

(** The loop of [LL_REMOVE]: the object before [what], if any. *)
Fixpoint ll_before (fuel : nat) (objs : gmap Z A) (lid what : Z) : res (option Z) :=
  match fuel with
  | O => Fail OutOfFuel
  | S fuel =>
      if lid =? NOTHING then Ok None
      else
        o ← get objs lid;
        if nxt L o =? what then Ok (Some lid) else ll_before fuel objs (nxt L o) what
  end.

Definition LL_REMOVE (objs : gmap Z A) (where_ what : Z) : res (gmap Z A) :=
  ow ← get objs where_;
  objs ← (if first L ow =? what then
            o ← get objs what;
            upd objs where_ (set_first L (nxt L o))
          else
            p ← ll_before (S (size objs)) objs (first L ow) what;
            match p with
            | Some lid => o ← get objs what; upd objs lid (set_nxt L (nxt L o))
            | None => Ok objs
            end);
  upd objs what (set_nxt L NOTHING).

(** The loop of [LL_APPEND]: the last object of the list. *)
Fixpoint ll_last (fuel : nat) (objs : gmap Z A) (lid : Z) : res Z :=
  match fuel with
  | O => Fail OutOfFuel
  | S fuel =>
      o ← get objs lid;
      if nxt L o =? NOTHING then Ok lid else ll_last fuel objs (nxt L o)
  end.

Definition LL_APPEND (objs : gmap Z A) (where_ what : Z) : res (gmap Z A) :=
  ow ← get objs where_;
  objs ← (if first L ow =? NOTHING then upd objs where_ (set_first L what)
          else
            lid ← ll_last (S (size objs)) objs (first L ow);
            upd objs lid (set_nxt L what));
  upd objs what (set_nxt L NOTHING).

(** The loop [for (c = start; c != NOTHING; c = objects[c]->nxt)]: the objects that it
    visits. *)
Fixpoint ll_list (fuel : nat) (objs : gmap Z A) (c : Z) : res (list Z) :=
  match fuel with
  | O => Fail OutOfFuel
  | S fuel =>
      if c =? NOTHING then Ok []
      else
        o ← get objs c;
        cons c <$> ll_list fuel objs (nxt L o)
  end.

(** The objects below [oid]. *)
Definition ll_below (objs : gmap Z A) (oid : Z) : res (list Z) :=
  o ← get objs oid;
  ll_list (S (size objs)) objs (first L o).

End ops.

(** ** Paths *)

(** From [s], following [nx] to [NOTHING], one visits [l]. *)
Fixpoint path (nx : Z -> option Z) (s : Z) (l : list Z) : Prop :=
  match l with
  | [] => s = NOTHING
  | x :: l => s = x /\ s <> NOTHING /\ exists n, nx x = Some n /\ path nx n l
  end.

Lemma path_functional nx s l1 l2 : path nx s l1 -> path nx s l2 -> l1 = l2.
Proof.
  revert s l2. induction l1 as [|x l1 IH]; intros s [|y l2]; cbn.
  - done.
  - intros -> (_ & [] & _). done.
  - intros (_ & H & _) ->. done.
  - intros (-> & _ & n & Hn & H1) (-> & _ & m & Hm & H2). f_equal.
    apply (IH n); congruence.
Qed.

Lemma path_app nx s l1 x l2 : path nx s (l1 ++ x :: l2) -> path nx x (x :: l2).
Proof.
  revert s. induction l1 as [|y l1 IH]; intros s; cbn [app path].
  - intros (-> & H). split; [done|]. exact H.
  - intros (_ & _ & n & _ & H). by apply (IH n).
Qed.

Lemma path_NoDup nx s l : path nx s l -> NoDup l.
Proof.
  revert s. induction l as [|x l IH]; intros s; cbn [path]; [constructor|].
  intros (-> & Hx & n & Hn & H). constructor; [|by apply (IH n)].
  intros (l1 & l2 & ->)%list_elem_of_split. apply path_app in H as H2.
  assert (H1 : path nx x (x :: l1 ++ x :: l2)) by (cbn; eauto).
  pose proof (f_equal length (path_functional _ _ _ _ H1 H2)) as Hl.
  cbn in Hl. rewrite length_app in Hl. cbn in Hl. lia.
Qed.

Lemma path_some nx s l x : path nx s l -> x ∈ l -> is_Some (nx x) /\ x <> NOTHING.
Proof.
  intros H (l1 & l2 & ->)%list_elem_of_split. apply path_app in H as (_ & ? & n & ? & _). eauto.
Qed.

Lemma path_ext nx nx' s l : (forall x, x ∈ l -> nx' x = nx x) -> path nx s l -> path nx' s l.
Proof.
  revert s. induction l as [|x l IH]; intros s Heq; cbn [path]; [done|].
  intros (-> & Hx & n & Hn & H). split_and!; [done..|]. exists n.
  split; [rewrite Heq by set_solver; done|]. apply IH; [set_solver|done].
Qed.

Lemma exists_last_or_nil {B} (l : list B) : l = [] \/ exists l' x, l = l' ++ [x].
Proof. destruct l as [|y l]; [by left|]. right. destruct (exists_last (l := y :: l)) as (l' & x & ->); eauto. Qed.

(** In a list without duplicates, an element has one predecessor. *)
Lemma NoDup_before {B} (l0 : list B) p x l2 l1 y l3 : NoDup (l0 ++ p :: x :: l2) ->
  l0 ++ p :: x :: l2 = l1 ++ y :: x :: l3 -> p = y.
Proof.
  revert l1. induction l0 as [|z l0 IH]; intros [|z' l1] Hnd He; cbn [app] in *.
  - congruence.
  - injection He as -> He. apply NoDup_cons in Hnd as [_ Hnd].
    destruct l1; cbn in He; injection He as -> He; subst;
      apply NoDup_cons in Hnd as [Hx _]; set_solver.
  - injection He as -> He. apply NoDup_cons in Hnd as [_ Hnd].
    destruct l0; cbn in *; injection He as -> He; subst;
      apply NoDup_cons in Hnd as [Hx _]; set_solver.
  - injection He as -> He. apply NoDup_cons in Hnd as [_ Hnd]. by apply (IH l1).
Qed.

(** The end of a path, and replacing what follows a prefix. *)
Lemma path_snoc_inv nx s l x : path nx s (l ++ [x]) -> nx x = Some NOTHING.
Proof. intros H%path_app. cbn in H. destruct H as (_ & _ & n & ? & ->). done. Qed.

Lemma path_replace nx nx' s l1 p r r' l2 :
  path nx s (l1 ++ p :: r) -> (forall x, x ∈ l1 -> nx' x = nx x) ->
  nx' p = Some r' -> path nx' r' l2 -> path nx' s (l1 ++ p :: l2).
Proof.
  revert s. induction l1 as [|x l1 IH]; intros s; cbn [app path].
  - intros (-> & ? & _) _ Hp Hr. eauto.
  - intros (-> & ? & n & Hn & H) Heq Hp Hr. split_and!; [done..|]. exists n.
    split; [rewrite Heq by set_solver; done|]. apply IH; [done|set_solver|done..].
Qed.

Lemma path_length {B} (m : gmap Z B) nx s l : path nx s l ->
  (forall x, is_Some (nx x) -> is_Some (m !! x)) -> (length l <= size m)%nat.
Proof.
  intros Hp Hm. rewrite <- size_dom, <- (size_list_to_set (C:=gset Z) l) by (by eapply path_NoDup).
  apply subseteq_size. intros x Hx%elem_of_list_to_set. apply elem_of_dom, Hm.
  by eapply path_some.
Qed.

(** ** The fields as functions of the object number *)

Section spec.
Context {A : Type} (L : Links A) `{!LawfulLinks L}.
Implicit Types (objs : gmap Z A).

Definition ups objs (x : Z) : option Z := up L <$> objs !! x.
Definition fsts objs (x : Z) : option Z := first L <$> objs !! x.
Definition nxts objs (x : Z) : option Z := nxt L <$> objs !! x.

(** Equal but for the fields of this hierarchy. *)
Definition relinked (o o' : A) : Prop := o' = relink L (up L o') (first L o') (nxt L o') o.

Lemma relinked_intro u f n o : relinked o (relink L u f n o).
Proof. unfold relinked, relink. by autorewrite with links. Qed.

#[export] Instance relinked_refl : Reflexive relinked.
Proof. intros o. symmetry. apply relink_self. Qed.

#[export] Instance relinked_trans : Transitive relinked.
Proof. intros o1 o2 o3 H1 H2. unfold relinked in *. rewrite H2, H1 at 1. by rewrite relink_relink. Qed.

Lemma path_objs_length objs s l : path (nxts objs) s l -> (length l <= size objs)%nat.
Proof.
  intros H. eapply path_length; [done|]. intros x. unfold nxts. by rewrite fmap_is_Some.
Qed.

Lemma ll_before_Ok objs s l1 p what l2 fuel :
  path (nxts objs) s (l1 ++ p :: what :: l2) -> (length l1 < fuel)%nat ->
  ll_before L fuel objs s what = Ok (Some p).
Proof.
  revert s fuel. induction l1 as [|x l1 IH]; intros s [|fuel] Hp Hf; cbn in Hf; try lia;
    cbn [app path] in Hp; cbn [ll_before].
  - destruct Hp as (-> & Hn & n & Hx & Hw). destruct (Z.eqb_spec p NOTHING); [done|].
    unfold nxts in Hx. apply fmap_Some in Hx as (o & Ho & ->). unfold get. rewrite Ho.
    cbn. destruct Hw as [<- _]. by rewrite Z.eqb_refl.
  - destruct Hp as (-> & Hn & n & Hx & Hw). destruct (Z.eqb_spec x NOTHING); [done|].
    unfold nxts in Hx. apply fmap_Some in Hx as (o & Ho & ->). unfold get at 1. rewrite Ho.
    cbn [mbind res_bind deref]. destruct (Z.eqb_spec (nxt L o) what) as [He|He].
    + pose proof (path_NoDup _ _ _ Hw) as Hnd. rewrite He in Hw.
      destruct l1 as [|y l1]; cbn in Hw, Hnd.
      * destruct Hw as [-> _]. inversion Hnd; set_solver.
      * destruct Hw as [-> _]. inversion Hnd; set_solver.
    + apply IH; [done|lia].
Qed.

Lemma ll_last_Ok objs s l1 p fuel :
  path (nxts objs) s (l1 ++ [p]) -> (length l1 < fuel)%nat -> ll_last L fuel objs s = Ok p.
Proof.
  revert s fuel. induction l1 as [|x l1 IH]; intros s [|fuel] Hp Hf; cbn in Hf; try lia;
    cbn [app path] in Hp; destruct Hp as (-> & Hn & n & Hx & Hw); cbn [ll_last];
    unfold nxts in Hx; apply fmap_Some in Hx as (o & Ho & ->); unfold get at 1; rewrite Ho;
    cbn [mbind res_bind deref].
  - cbn in Hw. by rewrite Hw.
  - destruct (Z.eqb_spec (nxt L o) NOTHING) as [He|He]; [|apply IH; [done|lia]].
    destruct l1; cbn in Hw; destruct Hw as (<- & ? & _); done.
Qed.

Lemma ll_list_Ok objs s l fuel :
  path (nxts objs) s l -> (length l < fuel)%nat -> ll_list L fuel objs s = Ok l.
Proof.
  revert s fuel. induction l as [|x l IH]; intros s [|fuel] Hp Hf; cbn in Hf; try lia;
    cbn [path] in Hp; cbn [ll_list].
  - by rewrite Hp.
  - destruct Hp as (-> & Hn & n & Hx & Hw). destruct (Z.eqb_spec x NOTHING); [done|].
    unfold nxts in Hx. apply fmap_Some in Hx as (o & Ho & ->). unfold get. rewrite Ho. cbn.
    rewrite IH; [done..|lia].
Qed.

Lemma upd_Ok objs x o f : objs !! x = Some o -> upd objs x f = Ok (<[x := f o]> objs).
Proof. intros H. unfold upd, get. by rewrite H. Qed.

Lemma fld_insert {B} (f : A -> B) objs x o y :
  f <$> (<[x := o]> objs) !! y = if decide (y = x) then Some (f o) else f <$> objs !! y.
Proof. case_decide as H; [subst; by rewrite lookup_insert_eq|by rewrite lookup_insert_ne]. Qed.

(** The same objects, equal but for the fields of this hierarchy. *)
Definition same_nodes objs objs' : Prop := forall y, option_Forall2 relinked (objs !! y) (objs' !! y).

#[export] Instance same_nodes_refl : Reflexive same_nodes.
Proof. intros objs y. reflexivity. Qed.

#[export] Instance same_nodes_trans : Transitive same_nodes.
Proof. intros o1 o2 o3 H1 H2 y. by transitivity (o2 !! y). Qed.

Lemma same_nodes_insert objs x o o' : objs !! x = Some o -> relinked o o' ->
  same_nodes objs (<[x := o']> objs).
Proof.
  intros Hx Ho y. destruct (decide (y = x)) as [->|].
  - rewrite Hx, lookup_insert_eq. by constructor.
  - rewrite lookup_insert_ne by done. reflexivity.
Qed.

(** [objs] has the nodes of [objs0], and the fields are the functions [u], [f], [n]. *)
Definition view objs0 objs (u f n : Z -> option Z) : Prop :=
  same_nodes objs0 objs /\
  forall y, ups objs y = u y /\ fsts objs y = f y /\ nxts objs y = n y.

Lemma view_intro objs : view objs objs (ups objs) (fsts objs) (nxts objs).
Proof. split; [reflexivity|done]. Qed.

Lemma view_lookup objs0 objs u f n x v : view objs0 objs u f n -> n x = Some v ->
  exists o, objs !! x = Some o /\ nxt L o = v.
Proof.
  intros [_ Hv] Hx. destruct (Hv x) as (_ & _ & Hn). rewrite Hx in Hn.
  by apply fmap_Some in Hn as (o & ? & ->); eauto.
Qed.

Lemma view_path objs0 objs u f n s l : view objs0 objs u f n -> path n s l ->
  path (nxts objs) s l.
Proof. intros [_ Hv]. apply path_ext. intros y _. apply Hv. Qed.

Lemma upd_view objs0 objs u f n x o o' (u' f' n' : Z -> option Z) :
  view objs0 objs u f n -> objs !! x = Some o -> relinked o o' ->
  u' = <[x := Some (up L o')]> u -> f' = <[x := Some (first L o')]> f ->
  n' = <[x := Some (nxt L o')]> n ->
  view objs0 (<[x := o']> objs) u' f' n'.
Proof.
  intros [Hs Hv] Hx Ho -> -> ->. split.
  - etrans; [done|]. by apply same_nodes_insert with o.
  - intros y. destruct (Hv y) as (Hu & Hf & Hn). unfold ups, fsts, nxts in *.
    rewrite !fld_insert. destruct (decide (y = x)) as [->|Hyx].
    + by rewrite !fn_lookup_insert.
    + by rewrite !fn_lookup_insert_ne.
Qed.

Lemma view_ext objs0 objs u f n u' f' n' : view objs0 objs u f n ->
  (forall y, u' y = u y) -> (forall y, f' y = f y) -> (forall y, n' y = n y) ->
  view objs0 objs u' f' n'.
Proof.
  intros [Hs Hv] Hu Hf Hn. split; [done|]. intros y. by rewrite Hu, Hf, Hn.
Qed.

Lemma fn_insert_id (g : Z -> option Z) x v y : g x = v -> (<[x := v]> g : Z -> option Z) y = g y.
Proof.
  intros <-. destruct (decide (y = x)) as [->|]; [by rewrite fn_lookup_insert|].
  by rewrite fn_lookup_insert_ne.
Qed.

Lemma upd_set_first objs0 objs u f n x v : view objs0 objs u f n -> is_Some (objs !! x) ->
  exists objs', upd objs x (set_first L v) = Ok objs' /\
    view objs0 objs' u (<[x := Some v]> f) n.
Proof.
  intros Hw [o Ho]. rewrite (upd_Ok _ _ _ _ Ho). eexists; split; [done|].
  destruct Hw as [Hs Hv]. destruct (Hv x) as (Hu & Hf & Hn).
  unfold ups, fsts, nxts in *. rewrite Ho in *. cbn in *.
  eapply view_ext; [eapply (upd_view _ _ u f n x o _ _ _ _ (conj Hs Hv) Ho);
    [rewrite set_first_relink; apply relinked_intro|reflexivity..]|..]; intros y;
    autorewrite with links; try done; symmetry; by apply fn_insert_id.
Qed.

Lemma upd_set_nxt objs0 objs u f n x v : view objs0 objs u f n -> is_Some (objs !! x) ->
  exists objs', upd objs x (set_nxt L v) = Ok objs' /\
    view objs0 objs' u f (<[x := Some v]> n).
Proof.
  intros Hw [o Ho]. rewrite (upd_Ok _ _ _ _ Ho). eexists; split; [done|].
  destruct Hw as [Hs Hv]. destruct (Hv x) as (Hu & Hf & Hn).
  unfold ups, fsts, nxts in *. rewrite Ho in *. cbn in *.
  eapply view_ext; [eapply (upd_view _ _ u f n x o _ _ _ _ (conj Hs Hv) Ho);
    [rewrite set_nxt_relink; apply relinked_intro|reflexivity..]|..]; intros y;
    autorewrite with links; try done; symmetry; by apply fn_insert_id.
Qed.

Lemma upd_set_up objs0 objs u f n x v : view objs0 objs u f n -> is_Some (objs !! x) ->
  exists objs', upd objs x (set_up L v) = Ok objs' /\
    view objs0 objs' (<[x := Some v]> u) f n.
Proof.
  intros Hw [o Ho]. rewrite (upd_Ok _ _ _ _ Ho). eexists; split; [done|].
  destruct Hw as [Hs Hv]. destruct (Hv x) as (Hu & Hf & Hn).
  unfold ups, fsts, nxts in *. rewrite Ho in *. cbn in *.
  eapply view_ext; [eapply (upd_view _ _ u f n x o _ _ _ _ (conj Hs Hv) Ho);
    [rewrite set_up_relink; apply relinked_intro|reflexivity..]|..]; intros y;
    autorewrite with links; try done; symmetry; by apply fn_insert_id.
Qed.

(** *** The two macros *)

(** After [LL_REMOVE]: the list of [w] without [x]. *)
Lemma LL_REMOVE_view objs0 objs u f n w s l1 x l2 : view objs0 objs u f n ->
  f w = Some s -> path n s (l1 ++ x :: l2) ->
  exists objs' f' n', LL_REMOVE L objs w x = Ok objs' /\ view objs0 objs' u f' n' /\
    (exists s', f' w = Some s' /\ path n' s' (l1 ++ l2)) /\ n' x = Some NOTHING /\
    (forall y, y ∉ l1 ++ x :: l2 -> n' y = n y) /\ (forall y, y <> w -> f' y = f y).
Proof.
  intros Hw Hs Hp. pose proof (path_NoDup _ _ _ Hp) as Hnd.
  pose proof (view_path _ _ _ _ _ _ _ Hw Hp) as Hpo.
  assert (Hx : exists nx, n x = Some nx /\ path n nx l2 /\ x <> NOTHING).
  { apply path_app in Hp as (_ & ? & nx & ? & ?). eauto. }
  destruct Hx as (nx & Hnx & Hp2 & Hx0).
  destruct (view_lookup _ _ _ _ _ _ _ Hw Hnx) as (o & Ho & Hon).
  assert (Hgw : exists ow, objs !! w = Some ow /\ first L ow = s).
  { destruct Hw as [_ Hv]. destruct (Hv w) as (_ & Hf & _). rewrite Hs in Hf.
    apply fmap_Some in Hf as (ow & ? & ->). eauto. }
  destruct Hgw as (ow & How & Hows).
  assert (Hstep : forall objs1 f1 n1, view objs0 objs1 u f1 n1 -> exists objs',
    upd objs1 x (set_nxt L NOTHING) = Ok objs' /\ view objs0 objs' u f1 (<[x := Some NOTHING]> n1)).
  { intros objs1 f1 n1 Hw1. apply upd_set_nxt; [done|].
    destruct Hw as [H1 _], Hw1 as [H2 _]. specialize (H1 x). specialize (H2 x).
    rewrite Ho in H1. inversion H1 as [o0 ? ? Ho0|]; subst. rewrite <- Ho0 in H2.
    inversion H2; eauto. }
  unfold LL_REMOVE, get. rewrite How. cbn [deref mbind res_bind]. rewrite Hows.
  destruct l1 as [|y l1]; cbn [app] in *.
  - destruct Hp as [-> _]. rewrite Z.eqb_refl, Ho. cbn [deref mbind res_bind]. rewrite Hon.
    destruct (upd_set_first _ _ _ _ _ w nx Hw) as (objs1 & -> & Hw1); [by exists ow|].
    destruct (Hstep _ _ _ Hw1) as (objs2 & H2 & Hw2). cbn [mbind res_bind]. rewrite H2.
    eexists _, _, _. split; [done|]. split; [done|]. split_and!.
    + exists nx. split; [by rewrite fn_lookup_insert|]. eapply path_ext; [|done].
      intros y Hy. apply NoDup_cons in Hnd as [Hnin _].
      rewrite fn_lookup_insert_ne; [done|]. by intros ->.
    + by rewrite fn_lookup_insert.
    + intros y Hy. rewrite fn_lookup_insert_ne; [done|set_solver].
    + intros y Hy. by rewrite fn_lookup_insert_ne.
  - destruct (exists_last (l := y :: l1)) as (l0 & p & Hl0); [done|].
    assert (Hl : y :: l1 ++ x :: l2 = l0 ++ p :: x :: l2).
    { change (y :: l1 ++ x :: l2) with ((y :: l1) ++ x :: l2). rewrite Hl0, <- app_assoc. done. }
    assert (Hsx : s <> x).
    { destruct Hp as [-> _]. apply NoDup_cons in Hnd as [Hnin _]. set_solver. }
    destruct (Z.eqb_spec s x); [done|]. rewrite Hl in *.
    rewrite (ll_before_Ok _ _ l0 p x l2) by
      (done || pose proof (path_objs_length _ _ _ Hpo) as Hlen; rewrite length_app in Hlen; lia).
    rewrite Ho. cbn [deref mbind res_bind]. rewrite Hon.
    pose proof (path_app _ _ _ _ _ Hp) as Hpp. cbn in Hpp.
    destruct Hpp as (_ & Hp0 & np & Hnp & _).
    destruct (view_lookup _ _ _ _ _ _ _ Hw Hnp) as (op & Hop & _).
    destruct (upd_set_nxt _ _ _ _ _ p nx Hw) as (objs1 & -> & Hw1); [by exists op|].
    destruct (Hstep _ _ _ Hw1) as (objs2 & H2 & Hw2). cbn [mbind res_bind]. rewrite H2.
    apply NoDup_app in Hnd as (Hnd0 & Hdis & Hnd1).
    apply NoDup_cons in Hnd1 as [Hpn Hnd1]. apply NoDup_cons in Hnd1 as [Hxn Hnd1].
    assert (Hpx : p <> x) by set_solver.
    eexists _, _, _. split; [done|]. split; [done|]. split_and!.
    + exists s. split; [done|].
      assert (Hlr : y :: l1 ++ l2 = l0 ++ p :: l2).
      { change (y :: l1 ++ l2) with ((y :: l1) ++ l2). rewrite Hl0, <- app_assoc. done. }
      rewrite Hlr. eapply path_replace; [exact Hp|..].
      * intros z Hz. rewrite !fn_lookup_insert_ne; [done|..]; intros ->;
          apply (Hdis _ Hz); set_solver.
      * rewrite fn_lookup_insert_ne by done. by rewrite fn_lookup_insert.
      * eapply path_ext; [|done]. intros z Hz.
        rewrite !fn_lookup_insert_ne; [done|set_solver..].
    + by rewrite fn_lookup_insert.
    + intros z Hz. rewrite !fn_lookup_insert_ne; [done|set_solver..].
    + done.
Qed.

(** After [LL_APPEND] of an object outside of the list of [w]. *)
Lemma LL_APPEND_view objs0 objs u f n w s l x : view objs0 objs u f n ->
  f w = Some s -> path n s l -> is_Some (objs !! x) -> x ∉ l -> x <> NOTHING ->
  exists objs' f' n', LL_APPEND L objs w x = Ok objs' /\ view objs0 objs' u f' n' /\
    (exists s', f' w = Some s' /\ path n' s' (l ++ [x])) /\ n' x = Some NOTHING /\
    (forall y, y ∉ l ++ [x] -> n' y = n y) /\ (forall y, y <> w -> f' y = f y).
Proof.
  intros Hw Hs Hp Hx Hxl Hx0.
  pose proof (view_path _ _ _ _ _ _ _ Hw Hp) as Hpo.
  assert (Hgw : exists ow, objs !! w = Some ow /\ first L ow = s).
  { destruct Hw as [_ Hv]. destruct (Hv w) as (_ & Hf & _). rewrite Hs in Hf.
    apply fmap_Some in Hf as (ow & ? & ->). eauto. }
  destruct Hgw as (ow & How & Hows).
  assert (Hstep : forall objs1 f1 n1, view objs0 objs1 u f1 n1 -> exists objs',
    upd objs1 x (set_nxt L NOTHING) = Ok objs' /\ view objs0 objs' u f1 (<[x := Some NOTHING]> n1)).
  { intros objs1 f1 n1 Hw1. apply upd_set_nxt; [done|]. destruct Hx as [o Ho].
    destruct Hw as [H1 _], Hw1 as [H2 _]. specialize (H1 x). specialize (H2 x).
    rewrite Ho in H1. inversion H1 as [o0 ? ? Ho0|]; subst. rewrite <- Ho0 in H2.
    inversion H2; eauto. }
  unfold LL_APPEND, get. rewrite How. cbn [deref mbind res_bind]. rewrite Hows.
  destruct (exists_last_or_nil l) as [->|(l0 & p & ->)].
  - cbn in Hp. rewrite Hp, Z.eqb_refl.
    destruct (upd_set_first _ _ _ _ _ w x Hw) as (objs1 & -> & Hw1); [by exists ow|].
    destruct (Hstep _ _ _ Hw1) as (objs2 & H2 & Hw2). cbn [mbind res_bind]. rewrite H2.
    eexists _, _, _. split; [done|]. split; [done|]. split_and!.
    + exists x. split; [by rewrite fn_lookup_insert|]. cbn. split_and!; [done..|].
      exists NOTHING. by rewrite fn_lookup_insert.
    + by rewrite fn_lookup_insert.
    + intros y Hy. rewrite fn_lookup_insert_ne; [done|set_solver].
    + intros y Hy. by rewrite fn_lookup_insert_ne.
  - assert (Hs0 : s <> NOTHING) by (destruct l0; cbn in Hp; destruct Hp as (-> & ? & _); done).
    destruct (Z.eqb_spec s NOTHING); [done|].
    rewrite (ll_last_Ok _ _ l0 p) by
      (done || pose proof (path_objs_length _ _ _ Hpo) as Hlen; rewrite length_app in Hlen; lia).
    pose proof (path_NoDup _ _ _ Hp) as Hnd. apply NoDup_app in Hnd as (Hnd0 & Hdis & _).
    pose proof (path_app _ _ _ _ _ Hp) as Hpp. cbn in Hpp.
    destruct Hpp as (_ & Hp0 & np & Hnp & _).
    destruct (view_lookup _ _ _ _ _ _ _ Hw Hnp) as (op & Hop & _). cbn [mbind res_bind].
    destruct (upd_set_nxt _ _ _ _ _ p x Hw) as (objs1 & -> & Hw1); [by exists op|].
    destruct (Hstep _ _ _ Hw1) as (objs2 & H2 & Hw2). cbn [mbind res_bind]. rewrite H2.
    assert (Hpx : p <> x) by set_solver.
    eexists _, _, _. split; [done|]. split; [done|]. split_and!.
    + exists s. split; [done|]. rewrite <- app_assoc. eapply path_replace; [exact Hp|..].
      * intros z Hz. rewrite !fn_lookup_insert_ne; [done|..]; intros ->.
        -- apply (Hdis _ Hz). set_solver.
        -- set_solver.
      * rewrite fn_lookup_insert_ne by done. by rewrite fn_lookup_insert.
      * cbn. split_and!; [done..|]. exists NOTHING. by rewrite fn_lookup_insert.
    + by rewrite fn_lookup_insert.
    + intros z Hz. rewrite !fn_lookup_insert_ne; [done|set_solver..].
    + done.
Qed.

End spec.

(** ** Forests *)

(** The abstract state of a hierarchy: who is above whom, and in which order. *)
Record forest := mkForest { par : gmap Z Z; kids : gmap Z (list Z) }.

(** The objects from [x] up to its root. *)
Definition lineage (F : forest) (x : Z) (l : list Z) : Prop := path (fun y => par F !! y) x l.

Record wf_forest (F : forest) : Prop := {
  wf_dom x : is_Some (par F !! x) <-> is_Some (kids F !! x);
  wf_nothing : par F !! NOTHING = None;
  wf_par x p : par F !! x = Some p -> p = NOTHING \/ is_Some (par F !! p);
  wf_kids x l : kids F !! x = Some l -> NoDup l /\ forall c, c ∈ l <-> par F !! c = Some x;
  wf_acyclic x : is_Some (par F !! x) -> exists l, lineage F x l }.

Definition without (x : Z) (l : list Z) : list Z := filter (fun y => y <> x) l.

(** Moving [x] below [new] (or making it a root): it becomes the last child. *)
Definition move_node (F : forest) (x new : Z) : forest :=
  mkForest (<[x := new]> (par F))
    (alter (fun l => l ++ [x]) new (without x <$> kids F)).

(** A move that keeps the forest one: [new] is not below [x]. *)
Definition legal_move (F : forest) (x new : Z) : Prop :=
  is_Some (par F !! x) /\
  (new = NOTHING \/ exists l, lineage F new l /\ is_Some (par F !! new) /\ x ∉ l).

Lemma move_kids F x new w : kids (move_node F x new) !! w =
  if decide (w = new) then (fun l => without x l ++ [x]) <$> kids F !! w
  else without x <$> kids F !! w.
Proof.
  unfold move_node. cbn [kids]. case_decide as H.
  - subst. rewrite lookup_alter_eq, lookup_fmap. by destruct (kids F !! new).
  - by rewrite lookup_alter_ne, lookup_fmap.
Qed.

Lemma elem_without x y l : y ∈ without x l <-> y ∈ l /\ y <> x.
Proof. unfold without. rewrite list_elem_of_filter. tauto. Qed.

Lemma without_id x l : x ∉ l -> without x l = l.
Proof.
  intros Hx. unfold without. induction l as [|y l IH]; [done|].
  rewrite filter_cons, decide_True by set_solver. f_equal. apply IH. set_solver.
Qed.

Lemma without_app x l1 l2 : NoDup (l1 ++ x :: l2) -> without x (l1 ++ x :: l2) = l1 ++ l2.
Proof.
  intros (_ & Hd & Hn)%NoDup_app. apply NoDup_cons in Hn as [Hx _]. unfold without.
  rewrite filter_app, filter_cons, decide_False by (intros H; by apply H).
  f_equal; apply without_id; [|done]. intros H. apply (Hd x H). set_solver.
Qed.

Lemma move_lineage F x new y l ln : lineage F y l -> x ∉ ln ->
  (new = NOTHING /\ ln = [] \/ lineage F new ln) ->
  exists l', lineage (move_node F x new) y l'.
Proof.
  intros Hl Hx Hnew. unfold lineage in *. cbn [move_node par].
  assert (Hn : path (fun z => (<[x := new]> (par F)) !! z) new ln).
  { destruct Hnew as [[-> ->]|Hp]; [done|]. eapply path_ext; [|done].
    intros z Hz. rewrite lookup_insert_ne; [done|]. by intros ->. }
  destruct (decide (x ∈ l)) as [(l1 & l2 & ->)%list_elem_of_split|Hnx].
  - exists (l1 ++ x :: ln). pose proof (path_NoDup _ _ _ Hl) as (_ & Hd & _)%NoDup_app.
    eapply path_replace; [done| |by rewrite lookup_insert_eq|done].
    intros z Hz. rewrite lookup_insert_ne; [done|]. intros ->. apply (Hd _ Hz). set_solver.
  - exists l. eapply path_ext; [|done]. intros z Hz.
    rewrite lookup_insert_ne; [done|]. by intros ->.
Qed.

Lemma move_wf F x new : wf_forest F -> legal_move F x new -> wf_forest (move_node F x new).
Proof.
  intros [Hdom H0 Hpar Hkids Hac] [Hx Hnew].
  assert (Hx0 : x <> NOTHING) by (intros ->; rewrite H0 in Hx; by destruct Hx).
  assert (Hsome : forall y, is_Some (<[x := new]> (par F) !! y) <-> is_Some (par F !! y)).
  { intros y. destruct (decide (y = x)) as [->|].
    - rewrite lookup_insert_eq. split; eauto.
    - by rewrite lookup_insert_ne. }
  split; cbn [move_node par].
  - intros y. rewrite Hsome, Hdom. change (alter _ _ _) with (kids (move_node F x new)).
    rewrite move_kids. case_decide; by rewrite fmap_is_Some.
  - by rewrite lookup_insert_ne.
  - intros y p. destruct (decide (y = x)) as [->|].
    + rewrite lookup_insert_eq. intros [= <-]. destruct Hnew as [->|(_ & _ & Hs & _)]; [by left|].
      right. by apply Hsome.
    + rewrite lookup_insert_ne by done. intros [|Hp]%Hpar; [by left|right]. by apply Hsome.
  - intros w l. change (alter _ _ _) with (kids (move_node F x new)). rewrite move_kids.
    assert (Hc : forall l0, kids F !! w = Some l0 -> NoDup (without x l0) /\
      forall c, c ∈ without x l0 <-> c <> x /\ par F !! c = Some w).
    { intros l0 Hl0. destruct (Hkids w l0 Hl0) as [Hnd Hiff]. split; [by apply NoDup_filter|].
      intros c. rewrite elem_without, Hiff. tauto. }
    case_decide as Hw.
    + subst. intros (l0 & Hl0 & ->)%fmap_Some_1.
      destruct (Hc l0 Hl0) as [Hnd Hiff]. split.
      * apply NoDup_app. split_and!; [done| |apply NoDup_singleton].
        intros c Hc1%Hiff ->%list_elem_of_singleton. tauto.
      * intros c. rewrite elem_of_app, Hiff, list_elem_of_singleton.
        destruct (decide (c = x)) as [->|]; [rewrite lookup_insert_eq|rewrite lookup_insert_ne by done]; tauto.
    + intros (l0 & Hl0 & ->)%fmap_Some_1. destruct (Hc l0 Hl0) as [Hnd Hiff]. split; [done|].
      intros c. rewrite Hiff. destruct (decide (c = x)) as [->|].
      * rewrite lookup_insert_eq. split; [tauto|congruence].
      * rewrite lookup_insert_ne by done. tauto.
  - intros y [l Hl]%Hsome%Hac. destruct Hnew as [->|(ln & Hln & _ & Hxl)].
    + apply (move_lineage F x NOTHING y l []); [done|set_solver|by left].
    + apply (move_lineage F x new y l ln); [done|done|by right].
Qed.

(** ** Moving an object *)

Section forests.
Context {A : Type} (L : Links A) `{!LawfulLinks L}.
Implicit Types (objs : gmap Z A).

(** The fields of the objects represent the forest. *)
Definition represents_fields (u f n : Z -> option Z) (F : forest) : Prop :=
  forall x, u x = par F !! x /\
    (forall l, kids F !! x = Some l -> exists s, f x = Some s /\ path n s l) /\
    (par F !! x = Some NOTHING -> n x = Some NOTHING).

Definition represents objs (F : forest) : Prop :=
  represents_fields (ups L objs) (fsts L objs) (nxts L objs) F.

(** The common body of [db_change_parent] and [db_change_location]; [present] is the
    test of whether there is an object above. *)
Definition relocate (present : gmap Z A -> Z -> bool) (objs : gmap Z A) (oid new : Z)
    : res (gmap Z A) :=
  o ← get objs oid;
  let old := up L o in
  objs ← (if present objs old then LL_REMOVE L objs old oid else Ok objs);
  objs ← (if present objs new then LL_APPEND L objs new oid else Ok objs);
  upd objs oid (set_up L new).

Definition agrees (present : gmap Z A -> Z -> bool) (F : forest) : Prop :=
  forall objs, (forall x, is_Some (objs !! x) <-> is_Some (par F !! x)) ->
    (forall p, is_Some (par F !! p) -> present objs p = true) /\ present objs NOTHING = false.

Lemma represents_dom objs F : represents objs F ->
  forall x, is_Some (objs !! x) <-> is_Some (par F !! x).
Proof.
  intros H x. destruct (H x) as [<- _]. unfold ups. by rewrite fmap_is_Some.
Qed.

Lemma view_dom objs0 objs u f n : view L objs0 objs u f n ->
  forall x, is_Some (objs !! x) <-> is_Some (objs0 !! x).
Proof.
  intros [H _] x. specialize (H x).
  inversion H; split; intros [? ?]; eauto; congruence.
Qed.

(** The list of every other object is untouched by changes to the objects of one list. *)
Lemma detach_fields objs0 objs u f n F x old : wf_forest F ->
  view L objs0 objs u f n -> represents_fields u f n F -> par F !! x = Some old ->
  old <> NOTHING ->
  exists objs' f' n', LL_REMOVE L objs old x = Ok objs' /\ view L objs0 objs' u f' n' /\
    n' x = Some NOTHING /\
    (forall w l, kids F !! w = Some l -> exists s, f' w = Some s /\ path n' s (without x l)) /\
    (forall y, par F !! y = Some NOTHING -> n' y = Some NOTHING).
Proof.
  intros HF Hw Hr Hx Hold. destruct (wf_par F HF x old Hx) as [|[po Hpo]]; [done|].
  destruct (proj1 (wf_dom F HF old) (ex_intro _ _ Hpo)) as [l Hl].
  destruct (wf_kids F HF old l Hl) as [Hnd Hiff].
  destruct (list_elem_of_split l x (proj2 (Hiff x) Hx)) as (l1 & l2 & ->).
  destruct (Hr old) as (_ & Hk & _). destruct (Hk _ Hl) as (s & Hs & Hp).
  destruct (LL_REMOVE_view L objs0 objs u f n old s l1 x l2 Hw Hs Hp)
    as (objs' & f' & n' & -> & Hw' & (s' & Hs' & Hp') & Hx' & Hn' & Hf').
  exists objs', f', n'. split_and!; try done.
  - intros w lw Hlw. destruct (decide (w = old)) as [->|Hwo].
    + replace lw with (l1 ++ x :: l2) by congruence. rewrite without_app by done. eauto.
    + destruct (Hr w) as (_ & Hkw & _). destruct (Hkw _ Hlw) as (sw & Hsw & Hpw).
      destruct (wf_kids F HF w lw Hlw) as [_ Hiffw].
      assert (Hdisj : forall y, y ∈ lw -> y ∉ l1 ++ x :: l2).
      { intros y Hy%Hiffw Hy'%Hiff. congruence. }
      exists sw. rewrite Hf' by done. split; [done|]. rewrite without_id.
      * eapply path_ext; [|done]. intros y Hy. apply Hn'. auto.
      * intros Hxl. apply (Hdisj x Hxl). set_solver.
  - intros y Hy. destruct (Hr y) as (_ & _ & Hroot). rewrite Hn'; [auto|].
    intros Hy'%Hiff. congruence.
Qed.

Lemma attach_fields objs0 objs u f n F x new : wf_forest F ->
  view L objs0 objs u f n -> is_Some (objs !! x) -> x <> NOTHING -> n x = Some NOTHING ->
  (forall w l, kids F !! w = Some l -> exists s, f w = Some s /\ path n s (without x l)) ->
  (forall y, par F !! y = Some NOTHING -> n y = Some NOTHING) ->
  is_Some (par F !! new) -> new <> NOTHING ->
  exists objs' f' n', LL_APPEND L objs new x = Ok objs' /\ view L objs0 objs' u f' n' /\
    n' x = Some NOTHING /\
    (forall w l, kids (move_node F x new) !! w = Some l -> exists s, f' w = Some s /\ path n' s l) /\
    (forall y, par F !! y = Some NOTHING -> n' y = Some NOTHING).
Proof.
  intros HF Hw Hx Hx0 Hxn Hlists Hroots Hnew Hnew0.
  destruct (proj1 (wf_dom F HF new) Hnew) as [l Hl].
  destruct (Hlists new l Hl) as (s & Hs & Hp).
  destruct (LL_APPEND_view L objs0 objs u f n new s (without x l) x Hw Hs Hp Hx)
    as (objs' & f' & n' & -> & Hw' & (s' & Hs' & Hp') & Hx' & Hn' & Hf'); [|done|].
  { intros H%elem_without. tauto. }
  destruct (wf_kids F HF new l Hl) as [_ Hiff].
  exists objs', f', n'. split_and!; try done.
  - intros w lw. rewrite move_kids. case_decide as Hwn.
    + subst. rewrite Hl. intros [= <-]. eauto.
    + intros (l0 & Hl0 & ->)%fmap_Some_1. destruct (Hlists w l0 Hl0) as (sw & Hsw & Hpw).
      exists sw. rewrite Hf' by done. split; [done|]. eapply path_ext; [|done].
      intros y [Hy Hyx]%elem_without. apply Hn'. rewrite elem_of_app, elem_without, list_elem_of_singleton.
      apply (wf_kids F HF w l0 Hl0) in Hy. rewrite Hiff. intros [[??]|?]; congruence.
  - intros y Hy. destruct (decide (y = x)) as [->|Hyx]; [done|]. rewrite Hn'; [auto|].
    rewrite elem_of_app, elem_without, list_elem_of_singleton, Hiff.
    intros [[??]|?]; congruence.
Qed.

(** The refinement. *)
Lemma relocate_refines present objs F x new : wf_forest F -> represents objs F ->
  legal_move F x new -> agrees present F ->
  exists objs', relocate present objs x new = Ok objs' /\ same_nodes L objs objs' /\
    represents objs' (move_node F x new).
Proof.
  intros HF Hr [Hx Hnew] Hpres.
  assert (Hx0 : x <> NOTHING) by (intros ->; rewrite (wf_nothing F HF) in Hx; by destruct Hx).
  pose proof (represents_dom objs F Hr) as Hdom.
  destruct Hx as [old Hold]. destruct (proj2 (Hdom x)) as [o Ho]; [by eexists|].
  assert (Hup : up L o = old).
  { destruct (Hr x) as [Hu _]. unfold ups in Hu. rewrite Ho, Hold in Hu. by injection Hu. }
  unfold relocate, get. rewrite Ho. cbn [deref mbind res_bind]. rewrite Hup.
  pose proof (view_intro L objs) as Hw0.
  assert (H1 : exists objs1 f1 n1,
    (if present objs old then LL_REMOVE L objs old x else Ok objs) = Ok objs1 /\
    view L objs objs1 (ups L objs) f1 n1 /\ n1 x = Some NOTHING /\
    (forall w l, kids F !! w = Some l -> exists s, f1 w = Some s /\ path n1 s (without x l)) /\
    (forall y, par F !! y = Some NOTHING -> n1 y = Some NOTHING)).
  { destruct (wf_par F HF x old Hold) as [->|Hs].
    - rewrite (proj2 (Hpres objs Hdom)). exists objs, (fsts L objs), (nxts L objs).
      split_and!; [done..| | |].
      + destruct (Hr x) as (_ & _ & H). by apply H.
      + intros w l Hl. destruct (Hr w) as (_ & H & _). rewrite without_id; [by apply H|].
        intros Hxl. apply (wf_kids F HF w l Hl) in Hxl.
        rewrite Hold in Hxl. injection Hxl as <-.
        assert (is_Some (kids F !! NOTHING)) as Hk by eauto.
        apply (wf_dom F HF) in Hk as [? Hk]. by rewrite (wf_nothing F HF) in Hk.
      + intros y Hy. destruct (Hr y) as (_ & _ & H). by apply H.
    - rewrite (proj1 (Hpres objs Hdom)) by done.
      apply (detach_fields objs objs _ _ _ F x old HF Hw0 Hr Hold). intros ->. rewrite (wf_nothing F HF) in Hs. by destruct Hs. }
  destruct H1 as (objs1 & f1 & n1 & -> & Hw1 & Hx1 & Hk1 & Hr1). cbn [mbind res_bind].
  pose proof (view_dom _ _ _ _ _ Hw1) as Hd1.
  assert (Hdom1 : forall y, is_Some (objs1 !! y) <-> is_Some (par F !! y)).
  { intros y. by rewrite Hd1, Hdom. }
  assert (H2 : exists objs2 f2 n2,
    (if present objs1 new then LL_APPEND L objs1 new x else Ok objs1) = Ok objs2 /\
    view L objs objs2 (ups L objs) f2 n2 /\ n2 x = Some NOTHING /\
    (forall w l, kids (move_node F x new) !! w = Some l -> exists s, f2 w = Some s /\ path n2 s l) /\
    (forall y, par F !! y = Some NOTHING -> n2 y = Some NOTHING)).
  { destruct Hnew as [->|(ln & _ & Hs & _)].
    - rewrite (proj2 (Hpres objs1 Hdom1)). exists objs1, f1, n1. split_and!; try done.
      intros w l. rewrite move_kids. case_decide as Hwn.
      + subst. intros (l0 & Hl0 & _)%fmap_Some_1.
        assert (is_Some (kids F !! NOTHING)) as Hk by eauto.
        apply (wf_dom F HF) in Hk as [? Hk]. by rewrite (wf_nothing F HF) in Hk.
      + intros (l0 & Hl0 & ->)%fmap_Some_1. by apply Hk1.
    - rewrite (proj1 (Hpres objs1 Hdom1)) by done.
      apply (attach_fields objs objs1 _ _ _ F x new HF Hw1); try done; [by apply Hdom1; eexists|].
      intros ->. rewrite (wf_nothing F HF) in Hs. by destruct Hs. }
  destruct H2 as (objs2 & f2 & n2 & -> & Hw2 & Hx2 & Hk2 & Hr2). cbn [mbind res_bind].
  destruct (upd_set_up L objs objs2 _ f2 n2 x new Hw2) as (objs3 & -> & Hs3 & Hv3).
  { apply (view_dom _ _ _ _ _ Hw2). eauto. }
  exists objs3. split_and!; [done..|]. intros y. destruct (Hv3 y) as (Hu & Hf & Hn).
  rewrite Hu, Hf, Hn. split_and!.
  - cbn. destruct (Hr y) as [Hpy _]. destruct (decide (y = x)) as [->|].
    + by rewrite fn_lookup_insert, lookup_insert_eq.
    + by rewrite fn_lookup_insert_ne, lookup_insert_ne.
  - intros l Hl. destruct (Hk2 y l Hl) as (s & Hs & Hp). exists s. split; [done|].
    eapply path_ext; [|done]. intros z _. apply Hv3.
  - cbn. destruct (decide (y = x)) as [->|]; [done|]. rewrite lookup_insert_ne by done. apply Hr2.
Qed.

(** Enumerating what is below an object. *)
Lemma ll_below_Ok objs F x l : represents objs F -> kids F !! x = Some l ->
  ll_below L objs x = Ok l.
Proof.
  intros Hr Hl. destruct (Hr x) as (_ & H & _). destruct (H l Hl) as (s & Hs & Hp).
  unfold fsts in Hs. apply fmap_Some in Hs as (o & Ho & ->). unfold ll_below, get. rewrite Ho.
  cbn [deref mbind res_bind]. eapply ll_list_Ok; [done|].
  pose proof (path_objs_length L objs _ _ Hp). lia.
Qed.

End forests.

(** ** Renumbering an object *)

(** The transposition of two numbers. *)
Definition swap (a b x : Z) : Z := if decide (x = a) then b else if decide (x = b) then a else x.

Lemma swap_swap a b x : swap a b (swap a b x) = x.
Proof. unfold swap. repeat case_decide; congruence. Qed.

#[export] Instance swap_inj a b : Inj (=) (=) (swap a b).
Proof. intros x y H. rewrite <- (swap_swap a b x), H. apply swap_swap. Qed.

Lemma swap_surj a b x : exists y, x = swap a b y.
Proof. exists (swap a b x). by rewrite swap_swap. Qed.

Lemma swap_l a b : swap a b a = b.
Proof. unfold swap. by rewrite decide_True. Qed.

Lemma swap_r a b : swap a b b = a.
Proof. unfold swap. case_decide; [done|]. by rewrite decide_True. Qed.

Lemma swap_other a b x : x <> a -> x <> b -> swap a b x = x.
Proof. intros. unfold swap. by rewrite !decide_False. Qed.

Definition rename_forest (a b : Z) (F : forest) : forest :=
  mkForest (kmap (M2 := gmap Z) (swap a b) (swap a b <$> par F))
    (kmap (M2 := gmap Z) (swap a b) ((fun l : list Z => swap a b <$> l) <$> kids F)).

Lemma rename_par a b F x : par (rename_forest a b F) !! swap a b x = swap a b <$> par F !! x.
Proof. cbn. by rewrite (lookup_kmap (M2:=gmap Z) (swap a b)), lookup_fmap. Qed.

Lemma rename_kids a b F x :
  kids (rename_forest a b F) !! swap a b x = (fun l => swap a b <$> l) <$> kids F !! x.
Proof. cbn. by rewrite (lookup_kmap (M2:=gmap Z) (swap a b)), lookup_fmap. Qed.

(** Renaming commutes with following pointers. *)
Lemma path_rename a b nx nx' s l : a <> NOTHING -> b <> NOTHING ->
  (forall x, x ∈ l -> nx' (swap a b x) = swap a b <$> nx x) ->
  path nx s l -> path nx' (swap a b s) (swap a b <$> l).
Proof.
  intros Ha Hb. assert (H0 : swap a b NOTHING = NOTHING) by (apply swap_other; congruence).
  revert s. induction l as [|x l IH]; intros s Heq; cbn [path fmap list_fmap].
  - intros ->. done.
  - intros (-> & Hx & n & Hn & Hp). split; [done|]. split.
    + rewrite <- H0. by intros ?%(inj (swap a b)).
    + exists (swap a b n). split; [rewrite Heq, Hn by set_solver; done|].
      apply IH; [set_solver|done].
Qed.

Lemma rename_wf a b F : a <> NOTHING -> b <> NOTHING -> wf_forest F ->
  wf_forest (rename_forest a b F).
Proof.
  intros Ha Hb [Hdom H0 Hpar Hkids Hac].
  assert (Hn : swap a b NOTHING = NOTHING) by (apply swap_other; congruence).
  split.
  - intros y. destruct (swap_surj a b y) as [x ->].
    rewrite rename_par, rename_kids, !fmap_is_Some. apply Hdom.
  - rewrite <- Hn, rename_par, H0. done.
  - intros y p. destruct (swap_surj a b y) as [x ->]. rewrite rename_par.
    intros (q & Hq & ->)%fmap_Some_1. destruct (Hpar x q Hq) as [->|Hs].
    + by left.
    + right. by rewrite rename_par, fmap_is_Some.
  - intros y l. destruct (swap_surj a b y) as [x ->]. rewrite rename_kids.
    intros (k & Hk & ->)%fmap_Some_1. destruct (Hkids x k Hk) as [Hnd Hiff].
    split; [by apply NoDup_fmap_2; [apply _|]|].
    intros d. destruct (swap_surj a b d) as [c ->]. rewrite rename_par, list_elem_of_fmap. split.
    + intros (y & Hy & Hyk). apply (inj (swap a b)) in Hy as <-. apply Hiff in Hyk. by rewrite Hyk.
    + intros (q & Hq & Hqx)%fmap_Some_1. apply (inj (swap a b)) in Hqx as <-.
      exists c. split; [done|]. by apply Hiff.
  - intros y. destruct (swap_surj a b y) as [x ->]. rewrite rename_par, fmap_is_Some.
    intros [l Hl]%Hac. exists (swap a b <$> l). unfold lineage.
    eapply path_rename; [done..| |exact Hl]. intros z _. apply rename_par.
Qed.

Section renumber.
Context {A : Type} (L : Links A) `{!LawfulLinks L}.
Implicit Types (objs : gmap Z A).

(** A pointer to a field: the first-pointer of an object, or its next-pointer. *)
Inductive slot := FirstOf (w : Z) | NextOf (y : Z).

Definition read_slot (objs : gmap Z A) (sl : slot) : res Z :=
  match sl with
  | FirstOf w => o ← get objs w; Ok (first L o)
  | NextOf y => o ← get objs y; Ok (nxt L o)
  end.

Definition write_slot (objs : gmap Z A) (sl : slot) (v : Z) : res (gmap Z A) :=
  match sl with
  | FirstOf w => upd objs w (set_first L v)
  | NextOf y => upd objs y (set_nxt L v)
  end.

(** [while ( *oidp != old && *oidp != NOTHING) oidp = &objects[*oidp]->sibling;] *)
Fixpoint find_slot (fuel : nat) (objs : gmap Z A) (oidp : slot) (old : Z) : res slot :=
  match fuel with
  | O => Fail OutOfFuel
  | S fuel =>
      v ← read_slot objs oidp;
      if (v =? old) || (v =? NOTHING) then Ok oidp else find_slot fuel objs (NextOf v) old
  end.

(** [for (oid = c; oid != NOTHING; oid = objects[oid]->sibling) objects[oid]->parent = new;] *)
Fixpoint set_ups (fuel : nat) (objs : gmap Z A) (c new : Z) : res (gmap Z A) :=
  match fuel with
  | O => Fail OutOfFuel
  | S fuel =>
      if c =? NOTHING then Ok objs
      else
        objs ← upd objs c (set_up L new);
        o ← get objs c;
        set_ups fuel objs (nxt L o) new
  end.

(** One of the two "fix up the hierarchy" blocks of [db_renumber_object]; the object is
    already in place at [new]. *)
Definition renumber_links (msg : string) (objs : gmap Z A) (old new : Z) : res (gmap Z A) :=
  o ← get objs new;
  objs ← (if negb (up L o =? NOTHING) then
            sl ← find_slot (S (S (size objs))) objs (FirstOf (up L o)) old;
            v ← read_slot objs sl;
            if v =? NOTHING then Fail (Panic msg) else write_slot objs sl new
          else Ok objs);
  o ← get objs new;
  set_ups (S (size objs)) objs (first L o) new.

(** From [s], following [nx] through [l], one arrives at [e]. *)
Fixpoint segment (nx : Z -> option Z) (s : Z) (l : list Z) (e : Z) : Prop :=
  match l with
  | [] => s = e
  | x :: l => s = x /\ s <> NOTHING /\ exists n, nx x = Some n /\ segment nx n l e
  end.

Lemma path_segment nx s l1 x l2 : path nx s (l1 ++ x :: l2) -> segment nx s l1 x.
Proof.
  revert s. induction l1 as [|y l1 IH]; intros s; cbn [app path segment].
  - by intros (-> & _).
  - intros (-> & ? & n & ? & H). split_and!; [done..|]. eauto.
Qed.

Lemma segment_ext nx nx' s l e : (forall x, x ∈ l -> nx' x = nx x) -> segment nx s l e ->
  segment nx' s l e.
Proof.
  revert s. induction l as [|x l IH]; intros s Heq; cbn [segment]; [done|].
  intros (-> & Hx & n & Hn & H). split_and!; [done..|]. exists n.
  split; [rewrite Heq by set_solver; done|]. apply IH; [set_solver|done].
Qed.

(** The slot that [find_slot] stops at, having passed the objects [l]. *)
Definition slot_after (sl : slot) (l : list Z) : slot :=
  match last l with Some p => NextOf p | None => sl end.

Lemma find_slot_Ok objs sl s l old fuel : read_slot objs sl = Ok s ->
  segment (nxts L objs) s l old -> old ∉ l -> (length l < fuel)%nat ->
  find_slot fuel objs sl old = Ok (slot_after sl l) /\
  read_slot objs (slot_after sl l) = Ok old.
Proof.
  revert sl s fuel. induction l as [|x l IH]; intros sl s [|fuel] Hs Hp Hx Hf; cbn in Hf; try lia;
    cbn [segment] in Hp; cbn [find_slot]; rewrite Hs; cbn [mbind res_bind].
  - subst s. by rewrite Z.eqb_refl.
  - destruct Hp as (-> & Hn & n & Hnx & Hp).
    destruct (Z.eqb_spec x old); [set_solver|]. destruct (Z.eqb_spec x NOTHING); [done|]. cbn [orb].
    destruct (IH (NextOf x) n fuel) as [-> Hr].
    + cbn. unfold nxts in Hnx. apply fmap_Some in Hnx as (o & Ho & ->). unfold get. by rewrite Ho.
    + done.
    + set_solver.
    + lia.
    + assert (He : slot_after (NextOf x) l = slot_after sl (x :: l)).
      { unfold slot_after. destruct l as [|y l]; [done|].
        rewrite !last_cons. by destruct (last l). }
      by rewrite <- He.
Qed.

Lemma set_ups_Ok objs0 objs u f n s l new fuel : view L objs0 objs u f n ->
  path n s l -> (length l < fuel)%nat ->
  exists objs', set_ups fuel objs s new = Ok objs' /\
    view L objs0 objs' (fun y => if decide (y ∈ l) then Some new else u y) f n.
Proof.
  revert objs u s fuel. induction l as [|x l IH]; intros objs u s [|fuel] Hw Hp Hf;
    cbn in Hf; try lia; cbn [path] in Hp; cbn [set_ups].
  - subst s. exists objs. split; [done|]. eapply view_ext; [done|intros y..|done|done].
    by rewrite decide_False by set_solver.
  - destruct Hp as (-> & Hx & m & Hm & Hp). destruct (Z.eqb_spec x NOTHING); [done|].
    destruct (view_lookup L _ _ _ _ _ _ _ Hw Hm) as (o & Ho & _).
    destruct (upd_set_up L _ _ _ _ _ x new Hw) as (objs1 & -> & Hw1); [by exists o|].
    cbn [mbind res_bind].
    destruct (view_lookup L _ _ _ _ _ _ _ Hw1 Hm) as (o1 & Ho1 & Hn1).
    unfold get. rewrite Ho1. cbn [deref mbind res_bind]. rewrite Hn1.
    destruct (IH objs1 _ m fuel Hw1 Hp) as (objs2 & -> & Hw2); [lia|].
    exists objs2. split; [done|]. eapply view_ext; [done|intros y|done..]. cbn beta.
    destruct (decide (y ∈ l)) as [Hy|Hy].
    + by rewrite decide_True by set_solver.
    + destruct (decide (y = x)) as [->|Hyx].
      * by rewrite decide_True, fn_lookup_insert by set_solver.
      * rewrite decide_False by set_solver. by rewrite fn_lookup_insert_ne.
Qed.

(** *** Who points where, in objects that represent a forest *)

Section pointers.
Context (objs : gmap Z A) (F : forest) (HF : wf_forest F) (Hr : represents L objs F).

Lemma first_points y v : fsts L objs y = Some v ->
  v = NOTHING \/ (par F !! v = Some y /\ y <> NOTHING).
Proof.
  intros Hv. destruct (Hr y) as (Hu & Hk & _).
  assert (Hy : is_Some (par F !! y)).
  { rewrite <- Hu. unfold fsts, ups in *. apply fmap_is_Some. by apply fmap_Some in Hv as (o & -> & _). }
  apply (wf_dom F HF) in Hy as [l Hl]. destruct (Hk l Hl) as (s & Hs & Hp).
  replace s with v in Hp by congruence.
  destruct l as [|x l]; [by left|right]. cbn in Hp. destruct Hp as [-> _]. split.
  - apply (wf_kids F HF y _ Hl). set_solver.
  - intros ->. assert (Hk0 : is_Some (kids F !! NOTHING)) by eauto.
    apply (wf_dom F HF) in Hk0. rewrite (wf_nothing F HF) in Hk0. by destruct Hk0.
Qed.

Lemma next_points y v : nxts L objs y = Some v -> v = NOTHING \/
  exists w l1 l2, par F !! v = Some w /\ kids F !! w = Some (l1 ++ y :: v :: l2).
Proof.
  intros Hv. destruct (Hr y) as (Hu & _ & Hroot).
  assert (Hy : is_Some (par F !! y)).
  { rewrite <- Hu. unfold nxts, ups in *. apply fmap_is_Some. by apply fmap_Some in Hv as (o & -> & _). }
  destruct Hy as [w Hw]. destruct (wf_par F HF y w Hw) as [->|Hws].
  { left. specialize (Hroot Hw). congruence. }
  apply (wf_dom F HF) in Hws as [l Hl]. destruct (wf_kids F HF w l Hl) as [_ Hiff].
  destruct (list_elem_of_split l y) as (l1 & l2 & ->); [by apply Hiff|].
  destruct (Hr w) as (_ & Hk & _). destruct (Hk _ Hl) as (s & Hs & Hp).
  apply path_app in Hp. cbn in Hp. destruct Hp as (_ & _ & n & Hn & Hp).
  replace n with v in Hp by congruence. destruct l2 as [|x l2]; [by left|right].
  cbn in Hp. destruct Hp as [-> _]. exists w, l1, l2. split; [|done].
  apply Hiff. set_solver.
Qed.

Lemma par_irrefl x w : par F !! x = Some w -> w <> x.
Proof.
  intros Hx ->. destruct (wf_acyclic F HF x) as [l Hl]; [by eexists|]. unfold lineage in Hl.
  destruct l as [|y l]; cbn in Hl.
  - subst x. by rewrite (wf_nothing F HF) in Hx.
  - destruct Hl as (<- & Hn & n & Hn' & Hp). replace n with x in Hp by congruence.
    assert (H : path (fun y => par F !! y) x (x :: l)) by (cbn; eauto).
    pose proof (f_equal length (path_functional _ _ _ _ Hp H)) as He. cbn in He. lia.
Qed.

Lemma first_valid y v : fsts L objs y = Some v -> v = NOTHING \/ is_Some (par F !! v).
Proof. intros [|[H _]]%first_points; eauto. Qed.

Lemma next_valid y v : nxts L objs y = Some v -> v = NOTHING \/ is_Some (par F !! v).
Proof. intros [|(w & _ & _ & H & _)]%next_points; eauto. Qed.

End pointers.

(** A function of object numbers after the object [old] has become number [new]. *)
Definition relocated (old new : Z) (g : Z -> option Z) (y : Z) : option Z :=
  if decide (y = new) then g old else if decide (y = old) then None else g y.

Section renumbered.
Context (objs : gmap Z A) (F : forest) (HF : wf_forest F) (Hr : represents L objs F).
Context (old new : Z) (Hold : is_Some (par F !! old)) (Hnew : par F !! new = None)
  (Hnew0 : new <> NOTHING).

Lemma old_not_nothing : old <> NOTHING.
Proof. intros ->. rewrite (wf_nothing F HF) in Hold. by destruct Hold. Qed.

Lemma old_not_new : old <> new.
Proof. intros ->. rewrite Hnew in Hold. by destruct Hold. Qed.

(** A value that is valid, or [NOTHING], is not [new]. *)
Lemma swap_valid v : v = NOTHING \/ is_Some (par F !! v) -> v <> old -> swap old new v = v.
Proof.
  intros Hv Hvo. apply swap_other; [done|]. intros ->. rewrite Hnew in Hv.
  destruct Hv as [|[? ?]]; done.
Qed.

(** Every pointer that is not to [old] is unchanged by the renaming. *)
Lemma swap_fld (g : Z -> option Z) y :
  (forall v, g y = Some v -> v = NOTHING \/ is_Some (par F !! v)) ->
  g y <> Some old -> swap old new <$> g y = g y.
Proof.
  intros Hv Ho. destruct (g y) as [v|] eqn:E; [|done]. cbn. f_equal.
  apply swap_valid; [by apply Hv|congruence].
Qed.

(** The state after the pointer to [old] has been redirected. *)
Definition redirected (f n : Z -> option Z) : Prop :=
  (forall y, y <> new -> y <> old -> f y = swap old new <$> fsts L objs y) /\
  (forall y, y <> new -> y <> old -> n y = swap old new <$> nxts L objs y) /\
  f new = fsts L objs old /\ n new = nxts L objs old.

Lemma relocated_other g y : y <> new -> y <> old -> relocated old new g y = g y.
Proof. intros. unfold relocated. by rewrite !decide_False. Qed.

Lemma relocated_new g : relocated old new g new = g old.
Proof. unfold relocated. by rewrite decide_True. Qed.

Lemma redirected_first y : y <> new -> y <> old -> fsts L objs y <> Some old ->
  relocated old new (fsts L objs) y = swap old new <$> fsts L objs y.
Proof.
  intros Hy Hy' Ho. rewrite relocated_other by done. symmetry. apply swap_fld; [|done].
  apply (first_valid objs F HF Hr).
Qed.

Lemma redirected_next y : y <> new -> y <> old -> nxts L objs y <> Some old ->
  relocated old new (nxts L objs) y = swap old new <$> nxts L objs y.
Proof.
  intros Hy Hy' Ho. rewrite relocated_other by done. symmetry. apply swap_fld; [|done].
  apply (next_valid objs F HF Hr).
Qed.

(** A root is not pointed at. *)
Lemma redirect_root : par F !! old = Some NOTHING ->
  redirected (relocated old new (fsts L objs)) (relocated old new (nxts L objs)).
Proof.
  intros Hroot. pose proof old_not_nothing as Ho. split_and!.
  - intros y Hy Hy'. apply redirected_first; [done..|].
    intros [H|[H Hn]]%(first_points objs F HF Hr); congruence.
  - intros y Hy Hy'. apply redirected_next; [done..|].
    intros [H|(w & l1 & l2 & H & Hk)]%(next_points objs F HF Hr); [congruence|].
    rewrite Hroot in H. injection H as <-.
    assert (Hk0 : is_Some (kids F !! NOTHING)) by eauto.
    apply (wf_dom F HF) in Hk0. rewrite (wf_nothing F HF) in Hk0. by destruct Hk0.
  - apply relocated_new.
  - apply relocated_new.
Qed.

(** An only or first child is pointed at by its parent alone. *)
Lemma redirect_first w l2 : par F !! old = Some w -> kids F !! w = Some (old :: l2) ->
  redirected (<[w := Some new]> (relocated old new (fsts L objs)))
    (relocated old new (nxts L objs)).
Proof.
  intros Hw Hk. pose proof old_not_nothing as Ho. pose proof old_not_new as Hon.
  pose proof (par_irrefl F HF old w Hw) as Hwo.
  assert (Hwn : w <> new).
  { intros ->. assert (H : is_Some (kids F !! new)) by eauto. apply (wf_dom F HF) in H.
    rewrite Hnew in H. by destruct H. }
  destruct (Hr w) as (_ & Hkw & _). destruct (Hkw _ Hk) as (s & Hs & Hp).
  cbn in Hp. destruct Hp as (-> & _).
  split_and!.
  - intros y Hy Hy'. destruct (decide (y = w)) as [->|Hyw].
    + rewrite fn_lookup_insert, Hs. cbn. by rewrite swap_l.
    + rewrite fn_lookup_insert_ne by done. apply redirected_first; [done..|].
      intros [H|[H Hn]]%(first_points objs F HF Hr); congruence.
  - intros y Hy Hy'. apply redirected_next; [done..|].
    intros [H|(w' & l1 & l3 & H & Hk')]%(next_points objs F HF Hr); [congruence|].
    replace w' with w in Hk' by congruence. rewrite Hk in Hk'. injection Hk' as Hl.
    destruct (wf_kids F HF w _ Hk) as [Hnd _]. apply NoDup_cons in Hnd as [Hnd _].
    destruct l1; cbn in Hl; injection Hl; intros; subst; set_solver.
  - rewrite fn_lookup_insert_ne by done. apply relocated_new.
  - apply relocated_new.
Qed.

(** A later child is pointed at by the child before it alone. *)
Lemma redirect_next w l0 p l2 : par F !! old = Some w ->
  kids F !! w = Some (l0 ++ p :: old :: l2) ->
  redirected (relocated old new (fsts L objs))
    (<[p := Some new]> (relocated old new (nxts L objs))).
Proof.
  intros Hw Hk. pose proof old_not_nothing as Ho. pose proof old_not_new as Hon.
  destruct (wf_kids F HF w _ Hk) as [Hnd Hiff].
  assert (Hpp : par F !! p = Some w) by (apply Hiff; set_solver).
  assert (Hpn : p <> new) by congruence.
  destruct (Hr w) as (_ & Hkw & _). destruct (Hkw _ Hk) as (s & Hs & Hp).
  assert (Hps : nxts L objs p = Some old).
  { apply path_app in Hp. cbn in Hp. destruct Hp as (_ & _ & n & Hn & -> & _). done. }
  assert (Hpo : p <> old).
  { intros ->. apply NoDup_app in Hnd as (_ & _ & Hnd). apply NoDup_cons in Hnd. set_solver. }
  assert (Hso : s <> old).
  { intros ->. destruct l0 as [|y l0]; cbn in Hp; destruct Hp as [<- _]; [done|].
    apply NoDup_cons in Hnd. set_solver. }
  split_and!.
  - intros y Hy Hy'. apply redirected_first; [done..|].
    intros Hf. destruct (first_points objs F HF Hr y old Hf) as [H|[H Hn]]; congruence.
  - intros y Hy Hy'. destruct (decide (y = p)) as [->|Hyp].
    + rewrite fn_lookup_insert, Hps. cbn. by rewrite swap_l.
    + rewrite fn_lookup_insert_ne by done. apply redirected_next; [done..|].
      intros [H|(w' & l1 & l3 & H & Hk')]%(next_points objs F HF Hr); [congruence|].
      replace w' with w in Hk' by congruence. rewrite Hk in Hk'. injection Hk' as Hl.
      apply Hyp. symmetry. eapply (NoDup_before l0 p old l2 l1 y l3); done.
  - apply relocated_new.
  - rewrite fn_lookup_insert_ne by done. apply relocated_new.
Qed.

Lemma path_nothing_of_some (s : Z) l : path (nxts L objs) s l -> old ∉ l -> s <> old.
Proof.
  intros Hp Hl ->. destruct l as [|x l]; cbn in Hp; [by apply old_not_nothing|].
  destruct Hp as [-> _]. set_solver.
Qed.

(** The whole of a block: [objs1] holds the object under its new number. *)
Lemma renumber_links_Ok objs1 msg :
  view L objs1 objs1 (relocated old new (ups L objs)) (relocated old new (fsts L objs))
    (relocated old new (nxts L objs)) ->
  exists objs2, renumber_links msg objs1 old new = Ok objs2 /\ same_nodes L objs1 objs2 /\
    represents L objs2 (rename_forest old new F).
Proof.
  intros Hw1. pose proof old_not_nothing as Ho. pose proof old_not_new as Hon.
  destruct Hold as [w Hw]. destruct (proj2 (represents_dom L objs F Hr old)) as [o Hobj]; [done|].
  assert (Hup : ups L objs old = Some w) by (destruct (Hr old) as [-> _]; done).
  assert (Hget : forall objs', view L objs1 objs' (relocated old new (ups L objs))
                   (relocated old new (fsts L objs)) (relocated old new (nxts L objs)) ->
    exists o1, objs' !! new = Some o1 /\ up L o1 = w).
  { intros objs' [_ Hv]. destruct (Hv new) as (Hu & _ & _).
    rewrite relocated_new, Hup in Hu. apply fmap_Some in Hu as (o1 & ? & ->); eauto. }
  destruct (Hget _ Hw1) as (o1 & Ho1 & Hupo). unfold renumber_links, get.
  rewrite Ho1. cbn [deref mbind res_bind]. rewrite Hupo.
  (* the pointer to the object *)
  assert (H2 : exists objs2 f2 n2,
    (if negb (w =? NOTHING) then
       sl ← find_slot (S (S (size objs1))) objs1 (FirstOf w) old;
       v ← read_slot objs1 sl;
       if v =? NOTHING then Fail (Panic msg) else write_slot objs1 sl new
     else Ok objs1) = Ok objs2 /\
    view L objs1 objs2 (relocated old new (ups L objs)) f2 n2 /\ redirected f2 n2).
  { destruct (Z.eqb_spec w NOTHING) as [->|Hw0]; cbn [negb].
    { eexists _, _, _. split_and!; [done|exact Hw1|by apply redirect_root]. }
    destruct (wf_par F HF old w Hw) as [|Hws]; [done|]. apply (wf_dom F HF) in Hws as [l Hk].
    destruct (wf_kids F HF w l Hk) as [Hnd Hiff].
    destruct (list_elem_of_split l old) as (l1 & l2 & ->); [by apply Hiff|].
    destruct (Hr w) as (_ & Hkw & _). destruct (Hkw _ Hk) as (s & Hs & Hp).
    pose proof (par_irrefl F HF old w Hw) as Hwo.
    assert (Hin : forall y, y ∈ l1 -> y <> new /\ y <> old).
    { intros y Hy. assert (par F !! y = Some w) by (apply Hiff; set_solver).
      split; [congruence|]. intros ->. apply NoDup_app in Hnd as (_ & Hd & _).
      apply (Hd old Hy). set_solver. }
    assert (Hwn : w <> new).
    { intros ->. assert (H : is_Some (kids F !! new)) by eauto. apply (wf_dom F HF) in H.
      rewrite Hnew in H. by destruct H. }
    assert (Hread : read_slot objs1 (FirstOf w) = Ok s).
    { destruct Hw1 as [_ Hv]. destruct (Hv w) as (_ & Hf & _).
      rewrite relocated_other, Hs in Hf by done. unfold fsts in Hf.
      apply fmap_Some in Hf as (ow & How & ->). cbn. unfold get. by rewrite How. }
    assert (Hseg : segment (nxts L objs1) s l1 old).
    { eapply segment_ext; [|eapply path_segment, Hp]. intros y [Hy Hy']%Hin.
      destruct Hw1 as [_ Hv]. destruct (Hv y) as (_ & _ & ->). by apply relocated_other. }
    destruct (find_slot_Ok objs1 (FirstOf w) s l1 old (S (S (size objs1))) Hread Hseg)
      as [-> Hrs].
    - intros H%Hin. tauto.
    - assert (Hsub : (length l1 <= size objs1)%nat); [|lia].
      rewrite <- size_dom, <- (size_list_to_set (C:=gset Z) l1)
        by (by apply NoDup_app in Hnd as (? & _)).
      apply subseteq_size. intros y Hy%elem_of_list_to_set. apply elem_of_dom.
      destruct (Hin y Hy) as [Hyn Hyo]. destruct Hw1 as [_ Hv]. destruct (Hv y) as (Hu & _).
      rewrite relocated_other in Hu by done. apply (fmap_is_Some (up L)). fold (ups L objs1 y).
      rewrite Hu. destruct (Hr y) as [-> _]. exists w. apply Hiff. set_solver.
    - cbn [mbind res_bind]. rewrite Hrs. cbn [mbind res_bind].
      destruct (Z.eqb_spec old NOTHING); [done|].
      destruct (exists_last_or_nil l1) as [->|(l0 & p & ->)].
      + cbn. destruct (upd_set_first L _ _ _ _ _ w new Hw1) as (objs2 & -> & Hw2).
        { apply (fmap_is_Some (first L)). fold (fsts L objs1 w). destruct Hw1 as [_ Hv].
          destruct (Hv w) as (_ & -> & _). rewrite relocated_other, Hs by done. eauto. }
        eexists _, _, _. split_and!; [done|exact Hw2|by eapply redirect_first].
      + unfold slot_after. rewrite last_snoc. cbn [write_slot]. rewrite <- app_assoc in *.
        destruct (upd_set_nxt L _ _ _ _ _ p new Hw1) as (objs2 & -> & Hw2).
        { destruct (Hin p) as [Hpn Hpo]; [set_solver|].
          apply (fmap_is_Some (up L)). fold (ups L objs1 p). destruct Hw1 as [_ Hv].
          destruct (Hv p) as (-> & _). rewrite relocated_other by done.
          destruct (Hr p) as [-> _]. exists w. apply Hiff. set_solver. }
        eexists _, _, _. split_and!; [done|exact Hw2|exact (redirect_next w l0 p l2 Hw Hk)]. }
  destruct H2 as (objs2 & f2 & n2 & -> & Hw2 & Hf2 & Hn2 & Hfnew & Hnnew).
  cbn [mbind res_bind].
  (* the objects below it *)
  destruct (proj1 (wf_dom F HF old) (ex_intro _ _ Hw)) as [l Hk].
  destruct (wf_kids F HF old l Hk) as [Hnd Hiff].
  destruct (Hr old) as (_ & Hkold & _). destruct (Hkold _ Hk) as (s & Hs & Hp).
  assert (Hl : forall y, y ∈ l -> y <> new /\ y <> old).
  { intros y Hy%Hiff. split; [congruence|]. intros ->. by apply (par_irrefl F HF old old Hy). }
  assert (Hg2 : exists o2, objs2 !! new = Some o2 /\ first L o2 = s).
  { destruct Hw2 as [_ Hv]. destruct (Hv new) as (_ & Hf & _). rewrite Hfnew, Hs in Hf.
    apply fmap_Some in Hf as (o2 & ? & ->); eauto. }
  destruct Hg2 as (o2 & -> & Ho2). cbn [deref mbind res_bind]. rewrite Ho2.
  assert (Hp2 : path n2 s l).
  { eapply path_ext; [|exact Hp]. intros y Hy. destruct (Hl y Hy) as [Hyn Hyo].
    rewrite Hn2 by done. apply swap_fld; [apply (next_valid objs F HF Hr)|].
    intros Hyold. destruct (list_elem_of_split l y Hy) as (l1 & l2 & ->).
    pose proof (path_app _ _ _ _ _ Hp) as Hpy. cbn in Hpy. destruct Hpy as (_ & _ & m & Hm & Hpm).
    replace m with old in Hpm by congruence.
    destruct l2; cbn in Hpm; [congruence|]. destruct Hpm as [<- _].
    destruct (Hl old); [set_solver|]. done. }
  destruct (set_ups_Ok objs1 objs2 _ f2 n2 s l new (S (size objs2)) Hw2 Hp2)
    as (objs3 & -> & Hs3 & Hv3).
  { pose proof (path_objs_length L objs2 s l (view_path L _ _ _ _ _ _ _ Hw2 Hp2)). lia. }
  exists objs3. split; [done|]. split; [done|].
  (* the fields are the renamed ones *)
  assert (Hfn : forall y, y <> new -> y <> old ->
    fsts L objs3 y = swap old new <$> fsts L objs y /\ nxts L objs3 y = swap old new <$> nxts L objs y).
  { intros y Hy Hy'. destruct (Hv3 y) as (_ & -> & ->). split; [by apply Hf2|by apply Hn2]. }
  assert (Hself : fsts L objs3 new = swap old new <$> fsts L objs old /\
                  nxts L objs3 new = swap old new <$> nxts L objs old).
  { destruct (Hv3 new) as (_ & -> & ->). rewrite Hfnew, Hnnew. split; symmetry.
    - apply swap_fld; [apply (first_valid objs F HF Hr)|]. rewrite Hs. intros [= ->].
      by eapply path_nothing_of_some; [exact Hp|intros []%Hl|].
    - apply swap_fld; [apply (next_valid objs F HF Hr)|].
      intros [|(w' & l1 & l2 & Hpo & Hk')]%(next_points objs F HF Hr); [done|].
      destruct (wf_kids F HF w' _ Hk') as [Hnd' _]. apply NoDup_app in Hnd' as (_ & _ & Hnd').
      apply NoDup_cons in Hnd'. set_solver. }
  assert (Hall : forall y, is_Some (par F !! y) ->
    fsts L objs3 (swap old new y) = swap old new <$> fsts L objs y /\
    nxts L objs3 (swap old new y) = swap old new <$> nxts L objs y).
  { intros y Hy. destruct (decide (y = old)) as [->|Hyo]; [by rewrite swap_l|].
    assert (y <> new) by (intros ->; rewrite Hnew in Hy; by destruct Hy).
    rewrite swap_other by done. by apply Hfn. }
  intros z. destruct (swap_surj old new z) as [y ->]. rewrite rename_par, rename_kids. split_and!.
  - destruct (Hv3 (swap old new y)) as (-> & _ & _). destruct (Hr y) as [Huy _].
    destruct (decide (y = old)) as [->|Hyo].
    + rewrite swap_l. rewrite decide_False by (intros []%Hl; done).
      rewrite relocated_new, Hup, Hw. cbn. f_equal. symmetry. apply swap_valid.
      * by apply (wf_par F HF old).
      * by apply (par_irrefl F HF old).
    + destruct (decide (y = new)) as [->|Hyn].
      * rewrite swap_r. rewrite decide_False by (intros []%Hl; done). rewrite Hnew. unfold relocated.
        by rewrite decide_False, decide_True by done.
      * rewrite swap_other by done. rewrite relocated_other by done. rewrite Huy.
        case_decide as Hyl.
        -- apply Hiff in Hyl. rewrite Hyl. cbn. by rewrite swap_l.
        -- symmetry. apply (swap_fld (fun y => par F !! y)); [intros v; apply (wf_par F HF y)|].
           by intros ?%Hiff.
  - intros l' (k & Hky & ->)%fmap_Some_1. destruct (Hr y) as (_ & Hkk & _).
    destruct (Hkk k Hky) as (t & Ht & Hpt).
    assert (Hy : is_Some (par F !! y)) by (apply (wf_dom F HF); eauto).
    destruct (Hall y Hy) as [-> _]. rewrite Ht. cbn. eexists; split; [done|].
    eapply path_rename; [done..| |exact Hpt]. intros c Hc. apply Hall. eexists.
    by apply (wf_kids F HF y k Hky).
  - intros (v & Hv & Hv')%fmap_Some_1. assert (Hy : is_Some (par F !! y)) by eauto.
    assert (v = NOTHING) as ->.
    { apply (inj (swap old new)). rewrite <- Hv'. symmetry. by apply swap_other. }
    destruct (Hall y Hy) as [_ ->]. destruct (Hr y) as (_ & _ & Hroot).
    rewrite (Hroot Hv). cbn. f_equal. by apply swap_other.
Qed.

End renumbered.

End renumber.
