(* ===== verification/Db.v ===== *)
(** * The database in memory (src/db_private.h, src/db.h, src/db_objects.c)

    Objects, their verb definitions and property tables, the object table, and the
    attribute functions of db_objects.c.  Verb definitions are kept in a heap of their
    own, because handles point to them. *)

From S2P Require Import Prelude Values Lists Links.

Open Scope Z_scope.

(** ** Data *)

(** [Verbdef], without the link [next]: an object holds the list of its verbs'
    addresses.  A program is a pointer. *)
Record Verbdef := mkVerbdef {
  v_name : cstr;
  v_program : option positive;
  v_owner : Z;
  v_perms : Z;
  v_prep : Z }.

Record Propdef := mkPropdef { pd_name : cstr; pd_hash : Z }.

(** [Proplist]: [cur_length] is the length of the list [l]. *)
Record Proplist := mkProplist { max_length : Z; l : list Propdef }.
Definition cur_length (p : Proplist) : nat := length (l p).

Record Pval := mkPval { p_var : Var; p_owner : Z; p_perms : Z }.

(** waif.h: the cached table of waif properties, shared with waifs. *)
Record WaifPropdefs := mkWaifPropdefs { w_refcount : Z; w_defs : list Propdef }.

Record Object := mkObject {
  id : Z;
  owner : Z;
  location : Z;
  contents : Z;
  next : Z;
  parent : Z;
  child : Z;
  sibling : Z;
  name : cstr;
  flags : Z;
  verbdefs : list positive;
  propdefs : Proplist;
  propval : list Pval;
  waif_propdefs : option positive }.

(** db_verbs.c: a handle and an entry of the verb cache; a null [verbdef] records a
    failed lookup. *)
Record handle := mkHandle { definer : Z; verbdef : positive }.
Record vc_entry := mkEntry { vc_hash : Z; oid_key : Z; verbname : cstr; vc_h : option handle }.

Record db := mkDb {
  objects : gmap Z Object;      (* the entries of the table that are not null *)
  num_objects : Z;
  max_objects : Z;
  all_users : list Var;
  verbs : gmap positive Verbdef;
  wpds : gmap positive WaifPropdefs;
  vc_table : option (gmap Z (list vc_entry));
  db_verb_generation : Z;
  verbcache_hit : Z;
  verbcache_neg_hit : Z;
  verbcache_miss : Z }.

(** *** Field updates *)

Definition set_owner v o := mkObject (id o) v (location o) (contents o) (next o) (parent o)
  (child o) (sibling o) (name o) (flags o) (verbdefs o) (propdefs o) (propval o) (waif_propdefs o).
Definition set_id v o := mkObject v (owner o) (location o) (contents o) (next o) (parent o)
  (child o) (sibling o) (name o) (flags o) (verbdefs o) (propdefs o) (propval o) (waif_propdefs o).
Definition set_location v o := mkObject (id o) (owner o) v (contents o) (next o) (parent o)
  (child o) (sibling o) (name o) (flags o) (verbdefs o) (propdefs o) (propval o) (waif_propdefs o).
Definition set_contents v o := mkObject (id o) (owner o) (location o) v (next o) (parent o)
  (child o) (sibling o) (name o) (flags o) (verbdefs o) (propdefs o) (propval o) (waif_propdefs o).
Definition set_next v o := mkObject (id o) (owner o) (location o) (contents o) v (parent o)
  (child o) (sibling o) (name o) (flags o) (verbdefs o) (propdefs o) (propval o) (waif_propdefs o).
Definition set_parent v o := mkObject (id o) (owner o) (location o) (contents o) (next o) v
  (child o) (sibling o) (name o) (flags o) (verbdefs o) (propdefs o) (propval o) (waif_propdefs o).
Definition set_child v o := mkObject (id o) (owner o) (location o) (contents o) (next o)
  (parent o) v (sibling o) (name o) (flags o) (verbdefs o) (propdefs o) (propval o) (waif_propdefs o).
Definition set_sibling v o := mkObject (id o) (owner o) (location o) (contents o) (next o)
  (parent o) (child o) v (name o) (flags o) (verbdefs o) (propdefs o) (propval o) (waif_propdefs o).
Definition set_name v o := mkObject (id o) (owner o) (location o) (contents o) (next o)
  (parent o) (child o) (sibling o) v (flags o) (verbdefs o) (propdefs o) (propval o) (waif_propdefs o).
Definition set_flags v o := mkObject (id o) (owner o) (location o) (contents o) (next o)
  (parent o) (child o) (sibling o) (name o) v (verbdefs o) (propdefs o) (propval o) (waif_propdefs o).
Definition set_verbdefs v o := mkObject (id o) (owner o) (location o) (contents o) (next o)
  (parent o) (child o) (sibling o) (name o) (flags o) v (propdefs o) (propval o) (waif_propdefs o).
Definition set_propdefs v o := mkObject (id o) (owner o) (location o) (contents o) (next o)
  (parent o) (child o) (sibling o) (name o) (flags o) (verbdefs o) v (propval o) (waif_propdefs o).
Definition set_propval v o := mkObject (id o) (owner o) (location o) (contents o) (next o)
  (parent o) (child o) (sibling o) (name o) (flags o) (verbdefs o) (propdefs o) v (waif_propdefs o).
Definition set_waif_propdefs v o := mkObject (id o) (owner o) (location o) (contents o) (next o)
  (parent o) (child o) (sibling o) (name o) (flags o) (verbdefs o) (propdefs o) (propval o) v.

Definition with_objects (f : gmap Z Object) (d : db) : db := mkDb f (num_objects d)
  (max_objects d) (all_users d) (verbs d) (wpds d) (vc_table d) (db_verb_generation d)
  (verbcache_hit d) (verbcache_neg_hit d) (verbcache_miss d).
Definition with_table (o : gmap Z Object) (n m : Z) (d : db) : db := mkDb o n m (all_users d)
  (verbs d) (wpds d) (vc_table d) (db_verb_generation d)
  (verbcache_hit d) (verbcache_neg_hit d) (verbcache_miss d).
Definition with_users (u : list Var) (d : db) : db := mkDb (objects d) (num_objects d)
  (max_objects d) u (verbs d) (wpds d) (vc_table d) (db_verb_generation d)
  (verbcache_hit d) (verbcache_neg_hit d) (verbcache_miss d).
Definition with_verbs (v : gmap positive Verbdef) (d : db) : db := mkDb (objects d)
  (num_objects d) (max_objects d) (all_users d) v (wpds d) (vc_table d) (db_verb_generation d)
  (verbcache_hit d) (verbcache_neg_hit d) (verbcache_miss d).
Definition with_wpds (w : gmap positive WaifPropdefs) (d : db) : db := mkDb (objects d)
  (num_objects d) (max_objects d) (all_users d) (verbs d) w (vc_table d) (db_verb_generation d)
  (verbcache_hit d) (verbcache_neg_hit d) (verbcache_miss d).
Definition with_cache (t : option (gmap Z (list vc_entry))) (g h n m : Z) (d : db) : db :=
  mkDb (objects d) (num_objects d) (max_objects d) (all_users d) (verbs d) (wpds d) t g h n m.

(** ** The hierarchies *)

Definition family : Links Object :=
  mkLinks Object parent child sibling set_parent set_child set_sibling.
Definition place : Links Object :=
  mkLinks Object location contents next set_location set_contents set_next.

#[export] Instance family_lawful : LawfulLinks family.
Proof. by split; intros; try (destruct o; reflexivity). Qed.
#[export] Instance place_lawful : LawfulLinks place.
Proof. by split; intros; try (destruct o; reflexivity). Qed.

(** ** The object table *)

Definition dbpriv_find_object (d : db) (oid : Z) : option Object :=
  if (oid <? 0) || (oid >=? num_objects d) then None else objects d !! oid.

Definition valid (d : db) (oid : Z) : bool := bool_decide (is_Some (dbpriv_find_object d oid)).

Definition db_last_used_objid (d : db) : Z := num_objects d - 1.

(** [while ( !objects[num_objects - 1]) num_objects--;], which reads below the table when
    there is no object. *)
Fixpoint reset_last (fuel : nat) (objs : gmap Z Object) (n : Z) : res Z :=
  match fuel with
  | O => Fail Segv
  | S fuel =>
      match objs !! (n - 1) with
      | Some _ => Ok n
      | None => reset_last fuel objs (n - 1)
      end
  end.
Definition db_reset_last_used_objid (d : db) : res db :=
  n ← reset_last (Z.to_nat (num_objects d)) (objects d) (num_objects d);
  Ok (with_table (objects d) n (max_objects d) d).

(** Only the capacity changes; the entries are copied. *)
Definition ensure_new_object (d : db) : db :=
  let max := if max_objects d =? 0 then 100 else max_objects d in
  let max := if num_objects d >=? max then max * 2 else max in
  with_table (objects d) (num_objects d) max d.

(** [objects[num_objects] = ...]: an index outside of the allocated table faults.  The
    fields of the new object, other than these two, are whatever the allocated block
    holds, [garbage]. *)
Definition dbpriv_new_object (garbage : Object) (d : db) : res (Z * db) :=
  let d := ensure_new_object d in
  let n := num_objects d in
  if n >=? max_objects d then Fail Segv
  else
    let o := set_waif_propdefs None (set_id n garbage) in
    Ok (n, with_table (<[n := o]> (objects d)) (n + 1) (max_objects d) d).

Definition dbpriv_new_recycled_object (d : db) : res db :=
  let d := ensure_new_object d in
  let n := num_objects d in
  if n >=? max_objects d then Fail Segv
  else Ok (with_table (delete n (objects d)) (n + 1) (max_objects d) d).

Definition db_create_object (garbage : Object) (d : db) : res (Z * db) :=
  '(oid, d) ← dbpriv_new_object garbage d;
  o ← get (objects d) oid;
  let o := set_name [] (set_flags 0 o) in
  let o := set_sibling NOTHING (set_child NOTHING (set_parent NOTHING o)) in
  let o := set_next NOTHING (set_contents NOTHING (set_location NOTHING o)) in
  let o := set_verbdefs [] (set_propdefs (mkProplist 0 []) (set_propval [] o)) in
  Ok (oid, with_objects (<[oid := o]> (objects d)) d).

(** Updating one object in the database. *)
Definition upd_object (oid : Z) (f : Object -> Object) (d : db) : res db :=
  objs ← upd (objects d) oid f;
  Ok (with_objects objs d).

(** ** Attributes *)

Definition db_object_owner (d : db) (oid : Z) : res Z := o ← get (objects d) oid; Ok (owner o).
Definition db_set_object_owner (d : db) (oid v : Z) : res db := upd_object oid (set_owner v) d.
Definition db_object_name (d : db) (oid : Z) : res cstr := o ← get (objects d) oid; Ok (name o).
Definition db_set_object_name (d : db) (oid : Z) (v : cstr) : res db :=
  upd_object oid (set_name v) d.
Definition db_object_parent (d : db) (oid : Z) : res Z := o ← get (objects d) oid; Ok (parent o).
Definition db_object_location (d : db) (oid : Z) : res Z :=
  o ← get (objects d) oid; Ok (location o).

(** The objects that [db_for_all_children] and [db_for_all_contents] visit, when the
    callback never answers true. *)
Definition children (d : db) (oid : Z) : res (list Z) := ll_below family (objects d) oid.
Definition contents_of (d : db) (oid : Z) : res (list Z) := ll_below place (objects d) oid.

Definition db_count_children (d : db) (oid : Z) : res Z :=
  cs ← children d oid; Ok (Z.of_nat (length cs)).
Definition db_count_contents (d : db) (oid : Z) : res Z :=
  cs ← contents_of d oid; Ok (Z.of_nat (length cs)).

(** The callback loop: [func] is called in order until it answers true. *)
Fixpoint for_all {D : Type} (func : D -> Z -> bool * D) (data : D) (cs : list Z) : bool * D :=
  match cs with
  | [] => (false, data)
  | c :: cs =>
      let '(stop, data) := func data c in
      if (stop : bool) then (true, data) else for_all func data cs
  end.
Definition db_for_all_children {D} (d : db) (oid : Z) (func : D -> Z -> bool * D) (data : D)
    : res (bool * D) :=
  cs ← children d oid; Ok (for_all func data cs).
Definition db_for_all_contents {D} (d : db) (oid : Z) (func : D -> Z -> bool * D) (data : D)
    : res (bool * D) :=
  cs ← contents_of d oid; Ok (for_all func data cs).

(** *** Flags *)

Inductive db_object_flag :=
  | FLAG_USER | FLAG_PROGRAMMER | FLAG_WIZARD | FLAG_OBSOLETE_1 | FLAG_READ | FLAG_WRITE
  | FLAG_OBSOLETE_2 | FLAG_FERTILE.

#[export] Instance flag_eq_dec : EqDecision db_object_flag.
Proof. solve_decision. Defined.

Definition flag_num (f : db_object_flag) : Z :=
  match f with
  | FLAG_USER => 0 | FLAG_PROGRAMMER => 1 | FLAG_WIZARD => 2 | FLAG_OBSOLETE_1 => 3
  | FLAG_READ => 4 | FLAG_WRITE => 5 | FLAG_OBSOLETE_2 => 6 | FLAG_FERTILE => 7
  end.

Definition has_flag (o : Object) (f : db_object_flag) : bool :=
  negb (Z.land (flags o) (Z.shiftl 1 (flag_num f)) =? 0).

Definition db_object_has_flag (d : db) (oid : Z) (f : db_object_flag) : res bool :=
  o ← get (objects d) oid; Ok (has_flag o f).

Definition db_set_object_flag (d : db) (oid : Z) (f : db_object_flag) : res db :=
  d ← upd_object oid (fun o => set_flags (Z.lor (flags o) (Z.shiftl 1 (flag_num f))) o) d;
  if bool_decide (f = FLAG_USER) then
    u ← setadd (all_users d) (Obj oid);
    Ok (with_users u d)
  else Ok d.

Definition db_clear_object_flag (d : db) (oid : Z) (f : db_object_flag) : res db :=
  d ← upd_object oid
        (fun o => set_flags (Z.land (flags o) (Z.lnot (Z.shiftl 1 (flag_num f)))) o) d;
  if bool_decide (f = FLAG_USER) then
    u ← setremove (all_users d) (Obj oid);
    Ok (with_users u d)
  else Ok d.

Definition valid_with_flag (f : db_object_flag) (d : db) (oid : Z) : res bool :=
  if valid d oid then db_object_has_flag d oid f else Ok false.

Definition is_wizard := valid_with_flag FLAG_WIZARD.
Definition is_programmer := valid_with_flag FLAG_PROGRAMMER.
Definition is_user := valid_with_flag FLAG_USER.

Definition db_object_allows (d : db) (oid progr : Z) (f : db_object_flag) : res bool :=
  own ← db_object_owner d oid;
  if progr =? own then Ok true
  else
    w ← is_wizard d progr;
    if (w : bool) then Ok true else db_object_has_flag d oid f.

Definition db_all_users (d : db) : list Var := all_users d.
Definition dbpriv_set_all_users (d : db) (v : list Var) : db := with_users v d.

(** ** The verb cache is emptied (src/db_verbs.c) *)

Definition db_priv_affected_callable_verb_lookup (d : db) : db :=
  match vc_table d with
  | None => d
  | Some _ => with_cache (Some ∅) (wrap32 (db_verb_generation d + 1)) (verbcache_hit d)
                (verbcache_neg_hit d) (verbcache_miss d) d
  end.

(** ** Waif property tables (src/waif.c) *)

Definition free_waif_propdefs (wpd : option positive) (d : db) : res db :=
  match wpd with
  | None => Ok d
  | Some p =>
      w ← deref (wpds d !! p);
      let n := w_refcount w - 1 in
      Ok (with_wpds (if n >? 0 then <[p := mkWaifPropdefs n (w_defs w)]> (wpds d)
                     else delete p (wpds d)) d)
  end.

(** ** Well-formedness *)

(** Object numbers and the table. *)
Record wf_table (d : db) : Prop := {
  wf_range x o : objects d !! x = Some o -> 0 <= x < num_objects d;
  wf_id x o : objects d !! x = Some o -> id o = x;
  wf_capacity : 0 <= num_objects d <= max_objects d }.

(** The list of all users: exactly the objects with the flag, once each. *)
Record wf_users (d : db) : Prop := {
  wf_users_obj v : v ∈ all_users d -> exists x, v = Obj x;
  wf_users_nodup : NoDup (all_users d);
  wf_users_flag x o : objects d !! x = Some o ->
    (Obj x ∈ all_users d <-> has_flag o FLAG_USER = true);
  wf_users_valid x : Obj x ∈ all_users d -> is_Some (objects d !! x) }.
