(* ===== verification/Properties.v ===== *)
(** * Properties of objects (src/db_properties.c)

    An object stores the values of all properties of its ancestors in one array: first
    those that it defines itself, then those that its parent defines, and so on.  The
    operations that add, delete or rename a definition, or change a parent, have to
    rearrange the arrays of all descendants. *)

From S2P Require Import Prelude CStrings Values Lists Links Db.

Open Scope Z_scope.

(** ** Loops *)

(** [for (o = dbpriv_find_object(oid); o; o = dbpriv_find_object(o->parent))]: the objects
    that the loop visits.  A cycle would run out of fuel. *)
Fixpoint ancestry_from (fuel : nat) (d : db) (oid : Z) : res (list Object) :=
  match dbpriv_find_object d oid with
  | None => Ok []
  | Some o =>
      match fuel with
      | O => Fail OutOfFuel
      | S fuel => cons o <$> ancestry_from fuel d (parent o)
      end
  end.
Definition ancestry (d : db) (oid : Z) : res (list Object) :=
  ancestry_from (size (objects d)) d oid.

(** [for (c = ...; c != NOTHING; c = dbpriv_find_object(c)->sibling) body(c);], where the
    body may change the database. *)
Fixpoint each_child (fuel : nat) (body : Z -> db -> res db) (c : Z) (d : db) : res db :=
  match fuel with
  | O => Fail OutOfFuel
  | S fuel =>
      if c =? NOTHING then Ok d
      else
        d ← body c d;
        o ← deref (dbpriv_find_object d c);
        each_child fuel body (sibling o) d
  end.

(** The recursion scheme of the functions that visit an object and then its children:
    [down] computes a child's argument from the two objects and the parent's one. *)
Fixpoint walk {X} (fuel : nat) (visit : Z -> X -> db -> res db)
    (down : Object -> Object -> X -> X) (root : Z) (a : X) (d : db) : res db :=
  match fuel with
  | O => Fail OutOfFuel
  | S fuel =>
      d ← visit root a d;
      o ← deref (dbpriv_find_object d root);
      each_child (S (size (objects d)))
        (fun c d =>
           oc ← deref (dbpriv_find_object d c);
           walk fuel visit down c (down o oc a) d)
        (child o) d
  end.

(** Copying [n] cells of an array from index [i]. *)
Definition copy {A} (a : list A) (i n : nat) : res (list A) :=
  if decide (i + n <= length a)%nat then Ok (take n (drop i a)) else Fail Segv.

(** ** Property definitions *)

Definition dbpriv_new_propdef (name : cstr) : Propdef := mkPropdef name (str_hash name).

Definition dbpriv_count_properties (d : db) (oid : Z) : res nat :=
  os ← ancestry d oid;
  Ok (sum_list_with (fun o => cur_length (propdefs o)) os).

(** The test that the loops over property definitions use. *)
Definition same_prop (pname : cstr) (phash : Z) (p : Propdef) : bool :=
  (pd_hash p =? phash) && (mystrcasecmp (pd_name p) pname =? 0).

Fixpoint any_res {A} (f : A -> res bool) (xs : list A) : res bool :=
  match xs with
  | [] => Ok false
  | x :: xs => b ← f x; if (b : bool) then Ok true else any_res f xs
  end.

Fixpoint defined_below (fuel : nat) (d : db) (pname : cstr) (phash oid : Z) : res bool :=
  match fuel with
  | O => Fail OutOfFuel
  | S fuel =>
      o ← deref (dbpriv_find_object d oid);
      if existsb (same_prop pname phash) (l (propdefs o)) then Ok true
      else
        cs ← ll_list family (S (size (objects d))) (objects d) (child o);
        any_res (defined_below fuel d pname phash) cs
  end.
Definition property_defined_at_or_below (d : db) (pname : cstr) (phash oid : Z) : res bool :=
  defined_below (S (size (objects d))) d pname phash oid.

(** ** Values in the arrays *)

Definition PF_READ : Z := 1.
Definition PF_WRITE : Z := 2.
Definition PF_CHOWN : Z := 4.

(** [propval[i].owner = o->owner] for properties with the [c] bit. *)
Definition chown (o : Object) (pv : Pval) : Pval :=
  if negb (Z.land (p_perms pv) PF_CHOWN =? 0) then mkPval (p_var pv) (owner o) (p_perms pv)
  else pv.

Definition clear_pval (pv : Pval) : Pval := mkPval Clear (p_owner pv) (p_perms pv).

(** [free_waif_propdefs(o->waif_propdefs); o->waif_propdefs = NULL;] *)
Definition drop_waif_propdefs (oid : Z) (d : db) : res db :=
  o ← deref (dbpriv_find_object d oid);
  d ← free_waif_propdefs (waif_propdefs o) d;
  upd_object oid (set_waif_propdefs None) d.

Definition insert_prop (oid : Z) (a : nat * Pval) (d : db) : res db :=
  let '(pos, pval) := a in
  nprops ← dbpriv_count_properties d oid;
  d ← drop_waif_propdefs oid d;
  o ← deref (dbpriv_find_object d oid);
  before ← copy (propval o) 0 pos;
  after ← copy (propval o) pos (nprops - (pos + 1));
  if decide (pos < nprops)%nat then
    upd_object oid (set_propval (before ++ chown o pval :: after)) d
  else Fail Segv.

Definition insert_prop_recursively (root : Z) (root_pos : nat) (pv : Pval) (d : db) : res db :=
  walk (S (size (objects d))) insert_prop
    (fun _ oc '(pos, pv) => ((cur_length (propdefs oc) + pos)%nat, clear_pval pv))
    root (root_pos, pv) d.

Definition remove_prop (oid : Z) (pos : nat) (d : db) : res db :=
  o ← deref (dbpriv_find_object d oid);
  nprops ← dbpriv_count_properties d oid;
  d ← drop_waif_propdefs oid d;
  _ ← deref (propval o !! pos);
  if decide (nprops = 0)%nat then upd_object oid (set_propval []) d
  else if decide (pos <= nprops)%nat then
    before ← copy (propval o) 0 pos;
    after ← copy (propval o) (pos + 1) (nprops - pos);
    upd_object oid (set_propval (before ++ after)) d
  else Fail Segv.

Definition remove_prop_recursively (root : Z) (root_pos : nat) (d : db) : res db :=
  walk (S (size (objects d))) remove_prop
    (fun _ oc pos => (cur_length (propdefs oc) + pos)%nat) root root_pos d.

(** ** Built-in properties *)

Inductive bi_prop :=
  | BP_NAME | BP_OWNER | BP_PROGRAMMER | BP_WIZARD | BP_R | BP_W | BP_F
  | BP_LOCATION | BP_CONTENTS.

Definition ptable : list (cstr * bi_prop) :=
  [(lit "name", BP_NAME); (lit "owner", BP_OWNER); (lit "programmer", BP_PROGRAMMER);
   (lit "wizard", BP_WIZARD); (lit "r", BP_R); (lit "w", BP_W); (lit "f", BP_F);
   (lit "location", BP_LOCATION); (lit "contents", BP_CONTENTS)].

Definition flag_value (d : db) (oid : Z) (f : db_object_flag) : res Var :=
  b ← db_object_has_flag d oid f;
  Ok (Int (if (b : bool) then 1 else 0)).

Definition get_bi_value (d : db) (bp : bi_prop) (oid : Z) : res Var :=
  match bp with
  | BP_NAME => n ← db_object_name d oid; Ok (Str n)
  | BP_OWNER => n ← db_object_owner d oid; Ok (Obj n)
  | BP_PROGRAMMER => flag_value d oid FLAG_PROGRAMMER
  | BP_WIZARD => flag_value d oid FLAG_WIZARD
  | BP_R => flag_value d oid FLAG_READ
  | BP_W => flag_value d oid FLAG_WRITE
  | BP_F => flag_value d oid FLAG_FERTILE
  | BP_LOCATION => n ← db_object_location d oid; Ok (Obj n)
  | BP_CONTENTS => cs ← contents_of d oid; Ok (List (Obj <$> cs))
  end.

(** ** Looking a property up *)

(** [db_prop_handle]: a built-in property of an object, or the cell [p_index] of the
    array of [p_oid]. *)
Inductive db_prop_handle :=
  | BuiltIn (bp : bi_prop) (oid : Z)
  | Slot (p_definer p_oid : Z) (p_index : nat).

Definition find_builtin (name : cstr) : option bi_prop :=
  snd <$> List.find (fun e => (str_hash (fst e) =? str_hash name)
                              && (mystrcasecmp name (fst e) =? 0)) ptable.

(** The position of the first definition that matches, with the rest of the count. *)
Fixpoint find_def (name : cstr) (hash : Z) (defs : list Propdef) (n : nat) : nat + nat :=
  match defs with
  | [] => inr n
  | p :: defs =>
      if (pd_hash p =? hash) && (mystrcasecmp (pd_name p) name =? 0) then inl n
      else find_def name hash defs (S n)
  end.

Fixpoint find_in_ancestry (name : cstr) (hash : Z) (os : list Object) (n : nat)
    : option (Z * nat) :=
  match os with
  | [] => None
  | o :: os =>
      match find_def name hash (l (propdefs o)) n with
      | inl n => Some (id o, n)
      | inr n => find_in_ancestry name hash os n
      end
  end.

(** [while (prop->var.type == TYPE_CLEAR) ...]: the value is the parent's.  The offset
    [n] and the pointer go down together; a negative offset is outside of the array. *)
Fixpoint resolve_clear (fuel : nat) (d : db) (o : Object) (n : nat) : res Var :=
  match fuel with
  | O => Fail OutOfFuel
  | S fuel =>
      pv ← deref (propval o !! n);
      match p_var pv with
      | Clear =>
          if decide (cur_length (propdefs o) <= n)%nat then
            let n := (n - cur_length (propdefs o))%nat in
            o ← deref (dbpriv_find_object d (parent o));
            resolve_clear fuel d o n
          else Fail Segv
      | v => Ok v
      end
  end.

(** [db_find_property], without the value. *)
Definition find_property_handle (d : db) (oid : Z) (name : cstr) : res (option db_prop_handle) :=
  match find_builtin name with
  | Some bp => Ok (Some (BuiltIn bp oid))
  | None =>
      os ← ancestry d oid;
      Ok match find_in_ancestry name (str_hash name) os 0 with
         | Some (def, n) => Some (Slot def oid n)
         | None => None
         end
  end.

(** [db_find_property] with a non-null [value]. *)
Definition db_find_property (d : db) (oid : Z) (name : cstr)
    : res (option (db_prop_handle * Var)) :=
  h ← find_property_handle d oid name;
  match h with
  | None => Ok None
  | Some (BuiltIn bp oid as h) => v ← get_bi_value d bp oid; Ok (Some (h, v))
  | Some (Slot _ oid n as h) =>
      o ← deref (dbpriv_find_object d oid);
      v ← resolve_clear (S (size (objects d))) d o n;
      Ok (Some (h, v))
  end.

(** ** Adding, renaming and deleting definitions *)

(** Room for one more definition. *)
Definition grow_propdefs (p : Proplist) : Proplist :=
  if Z.of_nat (cur_length p) =? max_length p
  then mkProplist (if max_length p =? 0 then 8 else 2 * max_length p) (l p)
  else p.

Definition db_add_propdef (oid : Z) (pname : cstr) (value : Var) (own pflags : Z) (d : db)
    : res (bool * db) :=
  h ← find_property_handle d oid pname;
  below ← (match h with
           | Some _ => Ok true
           | None => property_defined_at_or_below d pname (str_hash pname) oid
           end);
  if (below : bool) then Ok (false, d)
  else
    o ← deref (dbpriv_find_object d oid);
    let p := grow_propdefs (propdefs o) in
    if Z.of_nat (cur_length p) >=? max_length p then Fail Segv
    else
      let p := mkProplist (max_length p) (l p ++ [dbpriv_new_propdef pname]) in
      d ← upd_object oid (set_propdefs p) d;
      d ← insert_prop_recursively oid (cur_length p - 1) (mkPval value own (wrap16 pflags)) d;
      Ok (true, d).

Definition WAIF_PROP_PREFIX : Z := 58.

(** waif.c: the entry for [old] is renamed; the C code finds it by its address. *)
Fixpoint rename_entry (old new : cstr) (defs : list Propdef) : res (list Propdef) :=
  match defs with
  | [] => Fail (Panic "waif_rename_propdef(): missing old propdef?")
  | p :: defs =>
      if bool_decide (pd_name p = old) then Ok (mkPropdef new (str_hash new) :: defs)
      else cons p <$> rename_entry old new defs
  end.

Definition waif_rename_propdef (oid : Z) (old new : cstr) (d : db) : res db :=
  o ← deref (dbpriv_find_object d oid);
  p ← deref (waif_propdefs o);
  if (cur old =? WAIF_PROP_PREFIX) && (cur new =? WAIF_PROP_PREFIX) then
    w ← deref (wpds d !! p);
    defs ← rename_entry old new (w_defs w);
    Ok (with_wpds (<[p := mkWaifPropdefs (w_refcount w) defs]> (wpds d)) d)
  else drop_waif_propdefs oid d.

Definition rename_prop_recursively (root : Z) (old new : cstr) (d : db) : res db :=
  walk (S (size (objects d)))
    (fun oid (_ : unit) d =>
       o ← deref (dbpriv_find_object d oid);
       match waif_propdefs o with
       | Some _ => waif_rename_propdef oid old new d
       | None => Ok d
       end)
    (fun _ _ u => u) root tt d.

(** The position of the definition of that name on the object itself. *)
Definition own_def (o : Object) (pname : cstr) : option nat :=
  match find_def pname (str_hash pname) (l (propdefs o)) 0 with inl i => Some i | inr _ => None end.

Definition db_rename_propdef (oid : Z) (old new : cstr) (d : db) : res (bool * db) :=
  o ← deref (dbpriv_find_object d oid);
  match own_def o old with
  | None => Ok (false, d)
  | Some i =>
      taken ← (if negb (mystrcasecmp old new =? 0) then
                 h ← find_property_handle d oid new;
                 match h with
                 | Some _ => Ok true
                 | None => property_defined_at_or_below d new (str_hash new) oid
                 end
               else Ok false);
      if (taken : bool) then Ok (false, d)
      else
        p ← deref (l (propdefs o) !! i);
        d ← rename_prop_recursively oid (pd_name p) new d;
        d ← upd_object oid (fun o => set_propdefs (mkProplist (max_length (propdefs o))
               (<[i := dbpriv_new_propdef new]> (l (propdefs o)))) o) d;
        Ok (true, d)
  end.

(** The definitions without the one at [i], and the array halved when it is mostly
    empty. *)
Definition shrink_propdefs (p : Proplist) (i : nat) : Proplist :=
  let max := max_length p in
  mkProplist
    (if (max >? 8) && (Z.of_nat (cur_length p) <=? (max * 3) / 8) then max / 2 else max)
    (take i (l p) ++ drop (S i) (l p)).

Definition db_delete_propdef (oid : Z) (pname : cstr) (d : db) : res (bool * db) :=
  o ← deref (dbpriv_find_object d oid);
  match own_def o pname with
  | None => Ok (false, d)
  | Some i =>
      d ← upd_object oid (set_propdefs (shrink_propdefs (propdefs o) i)) d;
      d ← remove_prop_recursively oid i d;
      Ok (true, d)
  end.

Definition db_count_propdefs (d : db) (oid : Z) : res nat :=
  o ← deref (dbpriv_find_object d oid); Ok (cur_length (propdefs o)).

Definition db_for_all_propdefs {D} (d : db) (oid : Z) (func : D -> cstr -> bool * D) (data : D)
    : res (bool * D) :=
  o ← deref (dbpriv_find_object d oid);
  Ok ((fix go (ps : list Propdef) (data : D) :=
         match ps with
         | [] => (false, data)
         | p :: ps => let '(stop, data) := func data (pd_name p) in
                      if (stop : bool) then (true, data) else go ps data
         end) (l (propdefs o)) data).

(** ** Access through handles *)

Definition slot_pval (d : db) (oid : Z) (n : nat) : res Pval :=
  o ← deref (dbpriv_find_object d oid);
  deref (propval o !! n).

Definition upd_slot (oid : Z) (n : nat) (f : Pval -> Pval) (d : db) : res db :=
  pv ← slot_pval d oid n;
  upd_object oid (fun o => set_propval (<[n := f pv]> (propval o)) o) d.

Definition db_property_value (d : db) (h : db_prop_handle) : res Var :=
  match h with
  | BuiltIn bp oid => get_bi_value d bp oid
  | Slot _ oid n => pv ← slot_pval d oid n; Ok (p_var pv)
  end.

Definition complain : failure := Panic "Inappropriate value in DB_SET_PROPERTY_VALUE!".

Definition set_flag_to (oid : Z) (f : db_object_flag) (v : Var) (d : db) : res db :=
  if is_true v then db_set_object_flag d oid f else db_clear_object_flag d oid f.

Definition db_set_property_value (h : db_prop_handle) (value : Var) (d : db) : res db :=
  match h with
  | Slot _ oid n => upd_slot oid n (fun pv => mkPval value (p_owner pv) (p_perms pv)) d
  | BuiltIn bp oid =>
      match bp with
      | BP_NAME => match value with Str s => db_set_object_name d oid s | _ => Fail complain end
      | BP_OWNER => match value with Obj o => db_set_object_owner d oid o | _ => Fail complain end
      | BP_PROGRAMMER => set_flag_to oid FLAG_PROGRAMMER value d
      | BP_WIZARD => set_flag_to oid FLAG_WIZARD value d
      | BP_R => set_flag_to oid FLAG_READ value d
      | BP_W => set_flag_to oid FLAG_WRITE value d
      | BP_F => set_flag_to oid FLAG_FERTILE value d
      | BP_LOCATION | BP_CONTENTS => Fail complain
      end
  end.

Definition db_property_owner (d : db) (h : db_prop_handle) : res Z :=
  match h with
  | BuiltIn _ _ => Fail (Panic "Built-in property in DB_PROPERTY_OWNER!")
  | Slot _ oid n => pv ← slot_pval d oid n; Ok (p_owner pv)
  end.

Definition db_set_property_owner (h : db_prop_handle) (v : Z) (d : db) : res db :=
  match h with
  | BuiltIn _ _ => Fail (Panic "Built-in property in DB_SET_PROPERTY_OWNER!")
  | Slot _ oid n => upd_slot oid n (fun pv => mkPval (p_var pv) v (p_perms pv)) d
  end.

(** [perms] is a [short], and is handed out as an [unsigned]. *)
Definition db_property_flags (d : db) (h : db_prop_handle) : res Z :=
  match h with
  | BuiltIn _ _ => Fail (Panic "Built-in property in DB_PROPERTY_FLAGS!")
  | Slot _ oid n => pv ← slot_pval d oid n; Ok (u32 (p_perms pv))
  end.

Definition db_set_property_flags (h : db_prop_handle) (v : Z) (d : db) : res db :=
  match h with
  | BuiltIn _ _ => Fail (Panic "Built-in property in DB_SET_PROPERTY_FLAGS!")
  | Slot _ oid n => upd_slot oid n (fun pv => mkPval (p_var pv) (p_owner pv) (wrap16 v)) d
  end.

Definition db_property_allows (d : db) (h : db_prop_handle) (progr flag : Z) : res bool :=
  fl ← db_property_flags d h;
  if negb (Z.land fl flag =? 0) then Ok true
  else
    own ← db_property_owner d h;
    if progr =? own then Ok true else is_wizard d progr.

(** ** Changing parents *)

(** One object of [fix_props]: [old] cells after the [local] ones are dropped, [new]
    cells taken over from the parent, cleared, and the last [common] ones kept.  The
    parent is looked at only if there are new cells. *)
Definition fix_one (old new common : nat) (oid : Z) (parent_local : nat) (d : db) : res db :=
  me ← deref (dbpriv_find_object d oid);
  let par := dbpriv_find_object d (parent me) in
  d ← drop_waif_propdefs oid d;
  let local := (parent_local + cur_length (propdefs me))%nat in
  _ ← copy (propval me) local old;
  if decide (local + new + common = 0)%nat then upd_object oid (set_propval []) d
  else
    mine ← copy (propval me) 0 local;
    theirs ← (if decide (new = 0)%nat then Ok []
              else p ← deref par; copy (propval p) parent_local new);
    rest ← copy (propval me) (local + old) common;
    upd_object oid
      (set_propval (mine ++ ((fun pv => chown me (clear_pval pv)) <$> theirs) ++ rest)) d.

Definition fix_props (oid : Z) (parent_local old new common : nat) (d : db) : res db :=
  walk (S (size (objects d))) (fix_one old new common)
    (fun o _ parent_local => (parent_local + cur_length (propdefs o))%nat) oid parent_local d.

(** Does any definition of the objects occur at or below [oid]? *)
Definition dbpriv_check_properties_for_chparent (d : db) (oid new_parent : Z) : res bool :=
  os ← ancestry d new_parent;
  clash ← any_res (fun o => any_res (fun p =>
            property_defined_at_or_below d (pd_name p) (pd_hash p) oid) (l (propdefs o))) os;
  Ok (negb clash).

(** [for (o = start; o != NOTHING; o = db_object_parent(o))]: the numbers visited. *)
Fixpoint parents_from (fuel : nat) (d : db) (oid : Z) : res (list Z) :=
  match fuel with
  | O => Fail OutOfFuel
  | S fuel =>
      if oid =? NOTHING then Ok []
      else
        p ← db_object_parent d oid;
        cons oid <$> parents_from fuel d p
  end.
Definition parents (d : db) (oid : Z) : res (list Z) :=
  parents_from (S (size (objects d))) d oid.

(** The nearest common ancestor, or [NOTHING]; the inner loop runs for every object of
    the outer one. *)
Definition common_ancestor (d : db) (new_parent old_parent : Z) : res Z :=
  o1s ← parents d new_parent;
  match o1s with
  | [] => Ok NOTHING
  | _ =>
      o2s ← parents d old_parent;
      Ok (default NOTHING (List.find (fun o1 => bool_decide (o1 ∈ o2s)) o1s))
  end.

Definition dbpriv_fix_properties_after_chparent (oid old_parent : Z) (d : db) : res db :=
  new_parent ← db_object_parent d oid;
  common ← common_ancestor d new_parent old_parent;
  common_props ← (if common =? NOTHING then Ok 0%nat else dbpriv_count_properties d common);
  old_count ← dbpriv_count_properties d old_parent;
  new_count ← dbpriv_count_properties d new_parent;
  fix_props oid 0 (old_count - common_props) (new_count - common_props) common_props d.
