(* ===== verification/Layout.v ===== *)
(** * The layout of property arrays: lemmas about Properties.v

    The invariant [wf_props] says that the array of an object has one cell for each
    definition on the way to its root.  The lemmas here describe what the loops of
    db_properties.c do in a database whose inheritance hierarchy is a forest. *)

From S2P Require Import Prelude CStrings Values Lists Links Db Properties.

Open Scope Z_scope.

(** ** Below an object *)

Definition below (F : forest) (root y : Z) : Prop := exists l, lineage F y l /\ root ∈ l.

Section below.
Context (F : forest) (HF : wf_forest F).

Lemma lineage_cons x p : par F !! x = Some p -> exists l, lineage F p l /\ lineage F x (x :: l).
Proof.
  intros Hp. destruct (wf_acyclic F HF x) as [l Hl]; [by eexists|].
  destruct l as [|y l]; unfold lineage in *; cbn in Hl.
  - subst x. by rewrite (wf_nothing F HF) in Hp.
  - destruct Hl as (<- & Hx & n & Hn & Hl). replace n with p in Hl by congruence.
    exists l. split; [done|]. cbn. eauto.
Qed.

Lemma lineage_self x l : is_Some (par F !! x) -> lineage F x l -> exists l', l = x :: l'.
Proof.
  intros Hx. destruct l as [|y l]; cbn; [|intros [<- _]; eauto].
  unfold lineage. cbn. intros ->. rewrite (wf_nothing F HF) in Hx. by destruct Hx.
Qed.

Lemma below_refl x : is_Some (par F !! x) -> below F x x.
Proof.
  intros [p Hp]. destruct (lineage_cons x p Hp) as (l & _ & Hl). exists (x :: l).
  split; [done|set_solver].
Qed.

Lemma below_valid x y : below F x y -> is_Some (par F !! y) /\ is_Some (par F !! x).
Proof.
  intros (l & Hl & Hx). split.
  - destruct l as [|z l]; [set_solver|]. unfold lineage in Hl. cbn in Hl.
    destruct Hl as (-> & _ & n & Hn & _). eauto.
  - by apply (path_some _ _ _ _ Hl Hx).
Qed.

(** Below a child is below the object; everything below, except for itself, is below one
    of the children, and of one only. *)
Lemma below_kid root ks c y : kids F !! root = Some ks -> c ∈ ks -> below F c y ->
  below F root y /\ y <> root.
Proof.
  intros Hk Hc (l & Hl & Hcl). apply (wf_kids F HF root ks Hk) in Hc.
  destruct (list_elem_of_split l c Hcl) as (l1 & l2 & ->).
  pose proof (path_app _ _ _ _ _ Hl) as Hp. cbn in Hp. destruct Hp as (_ & _ & n & Hn & Hp).
  replace n with root in Hp by congruence.
  destruct l2 as [|z l2]; cbn in Hp.
  { subst root. assert (is_Some (kids F !! NOTHING)) as H by eauto.
    apply (wf_dom F HF) in H. rewrite (wf_nothing F HF) in H. by destruct H. }
  destruct Hp as (<- & _). split; [exists (l1 ++ c :: root :: l2); split; [done|set_solver]|].
  intros ->. destruct (lineage_self root (l1 ++ c :: root :: l2)) as [l' Hl'].
  { apply (below_valid root root). exists (l1 ++ c :: root :: l2). split; [done|set_solver]. }
  { done. }
  pose proof (path_NoDup _ _ _ Hl) as Hnd. destruct l1 as [|z l1]; cbn in Hl'.
  - injection Hl' as -> _. cbn in Hnd. apply NoDup_cons in Hnd. set_solver.
  - injection Hl' as -> _. cbn in Hnd. apply NoDup_cons in Hnd. set_solver.
Qed.

Lemma below_inv root ks y : kids F !! root = Some ks -> below F root y -> y <> root ->
  exists c, c ∈ ks /\ below F c y.
Proof.
  intros Hk (l & Hl & Hr) Hy. destruct (list_elem_of_split l root Hr) as (l1 & l2 & ->).
  destruct (exists_last_or_nil l1) as [->|(l0 & c & ->)].
  - unfold lineage in Hl. cbn in Hl. destruct Hl as [-> _]. done.
  - exists c. rewrite <- app_assoc in Hl. cbn in Hl.
    pose proof (path_app _ _ _ _ _ Hl) as Hp. cbn in Hp.
    destruct Hp as (_ & _ & n & Hn & -> & _). split.
    + by apply (wf_kids F HF root ks Hk).
    + exists (l0 ++ c :: root :: l2). split; [done|set_solver].
Qed.

Lemma below_one_kid root ks c1 c2 y : kids F !! root = Some ks -> c1 ∈ ks -> c2 ∈ ks ->
  below F c1 y -> below F c2 y -> c1 = c2.
Proof.
  intros Hk Hc1 Hc2 (l & Hl & H1) (l' & Hl' & H2).
  replace l' with l in H2 by (by eapply path_functional).
  apply (wf_kids F HF root ks Hk) in Hc1, Hc2.
  assert (Hnext : forall c l1 l2, par F !! c = Some root -> l = l1 ++ c :: l2 ->
            exists l3, l2 = root :: l3).
  { intros c l1 l2 Hc ->. pose proof (path_app _ _ _ _ _ Hl) as Hp. cbn in Hp.
    destruct Hp as (_ & _ & n & Hn & Hp). replace n with root in Hp by congruence.
    destruct l2 as [|z l2]; cbn in Hp; [|destruct Hp as [<- _]; eauto].
    subst root. assert (is_Some (kids F !! NOTHING)) as H by eauto.
    apply (wf_dom F HF) in H. rewrite (wf_nothing F HF) in H. by destruct H. }
  destruct (list_elem_of_split l c1 H1) as (a1 & b1 & E1).
  destruct (list_elem_of_split l c2 H2) as (a2 & b2 & E2).
  destruct (Hnext c1 a1 b1 Hc1 E1) as [t1 ->]. destruct (Hnext c2 a2 b2 Hc2 E2) as [t2 ->].
  apply (NoDup_before a1 c1 root t1 a2 c2 t2).
  - rewrite <- E1. by eapply path_NoDup.
  - congruence.
Qed.

Lemma below_parent root x : below F root x -> x <> root ->
  exists p, par F !! x = Some p /\ below F root p.
Proof.
  intros (ls & Hl & Hin) Hne. destruct ls as [|y ls]; [set_solver|].
  unfold lineage in Hl. cbn in Hl. destruct Hl as (-> & Hx & p & Hp & Hls).
  exists p. split; [done|]. exists ls. split; [done|set_solver].
Qed.

Lemma par_not_below root q : par F !! root = Some q -> ~ below F root q.
Proof.
  intros Hp (ls & Hl & Hin). destruct (list_elem_of_split ls root Hin) as (l1 & l2 & ->).
  destruct (lineage_cons root q Hp) as (ln & Hln & Hlr).
  pose proof (path_app _ _ _ _ _ Hl) as Hpr.
  pose proof (path_functional _ _ _ _ Hlr Hpr) as E1.
  pose proof (path_functional _ _ _ _ Hln Hl) as E2. injection E1 as ->.
  apply (f_equal length) in E2. rewrite length_app in E2. cbn in E2. lia.
Qed.

(** The number of objects between [y] and the end of the subtree bounds recursion. *)
Lemma below_step root ks c : kids F !! root = Some ks -> c ∈ ks -> is_Some (par F !! c) /\
  c <> root.
Proof.
  intros Hk Hc. apply (wf_kids F HF root ks Hk) in Hc. split; [eauto|].
  intros ->. destruct (lineage_cons root root Hc) as (l & Hl & Hl').
  pose proof (f_equal length (path_functional _ _ _ _ Hl Hl')) as H. cbn in H. lia.
Qed.

End below.

(** ** What the operations on properties leave alone *)

Definition skeleton (o : Object) : Object := set_propval [] (set_waif_propdefs None o).

(** [d] differs from [d0] in property arrays and waif tables only. *)
Definition framed (d0 d : db) : Prop :=
  with_wpds ∅ (with_objects ∅ d0) = with_wpds ∅ (with_objects ∅ d) /\
  forall y, skeleton <$> objects d !! y = skeleton <$> objects d0 !! y.

#[export] Instance framed_refl : Reflexive framed.
Proof. done. Qed.
#[export] Instance framed_trans : Transitive framed.
Proof. intros d1 d2 d3 [H1 H2] [H3 H4]. split; [congruence|]. intros y. by rewrite H4. Qed.

(** A field that the skeleton determines. *)
Lemma framed_field {B} (f : Object -> B) d0 d y : (forall o, f (skeleton o) = f o) ->
  framed d0 d -> f <$> objects d !! y = f <$> objects d0 !! y.
Proof.
  intros Hf [_ H]. specialize (H y).
  destruct (objects d !! y) as [o|], (objects d0 !! y) as [o0|]; cbn in *; try done.
  f_equal. rewrite <- (Hf o), <- (Hf o0). congruence.
Qed.

Lemma framed_lookup d0 d y o : framed d0 d -> objects d !! y = Some o ->
  exists o0, objects d0 !! y = Some o0 /\ skeleton o = skeleton o0.
Proof.
  intros [_ H] Hy. specialize (H y). rewrite Hy in H. cbn in H. symmetry in H.
  apply fmap_Some in H as (o0 & ? & ?). eauto.
Qed.

Lemma framed_lookup_r d0 d y o0 : framed d0 d -> objects d0 !! y = Some o0 ->
  exists o, objects d !! y = Some o /\ skeleton o = skeleton o0.
Proof.
  intros [_ H] Hy. specialize (H y). rewrite Hy in H. cbn in H.
  apply fmap_Some in H as (o & ? & ?). eauto.
Qed.

Lemma framed_represents L F d0 d : (forall o, up L (skeleton o) = up L o) ->
  (forall o, first L (skeleton o) = first L o) -> (forall o, nxt L (skeleton o) = nxt L o) ->
  framed d0 d -> represents L (objects d0) F -> represents L (objects d) F.
Proof.
  intros Hu Hf Hn Hfr Hr x. destruct (Hr x) as (H1 & H2 & H3). unfold ups, fsts, nxts in *.
  rewrite (framed_field (up L) d0 d), (framed_field (first L) d0 d) by done.
  split; [done|]. split.
  - intros l Hl. destruct (H2 l Hl) as (s & Hs & Hp). exists s. split; [done|].
    eapply path_ext; [|done]. intros y _. by apply framed_field.
  - intros H. rewrite (framed_field (nxt L) d0 d) by done. auto.
Qed.

Lemma framed_family F d0 d : framed d0 d -> represents family (objects d0) F ->
  represents family (objects d) F.
Proof. by apply framed_represents. Qed.

Lemma framed_num d0 d : framed d0 d -> num_objects d = num_objects d0 /\
  max_objects d = max_objects d0 /\ all_users d = all_users d0 /\ verbs d = verbs d0.
Proof. intros [H _]. destruct d0, d. cbn in *. by injection H as -> -> -> -> -> -> -> -> ->. Qed.

Lemma framed_table d0 d : framed d0 d -> wf_table d0 -> wf_table d.
Proof.
  intros Hf [Hr Hi Hc]. destruct (framed_num _ _ Hf) as (Hn & Hm & _). split.
  - intros x o Ho. destruct (framed_lookup _ _ _ _ Hf Ho) as (o0 & Ho0 & _). rewrite Hn. eauto.
  - intros x o Ho. destruct (framed_lookup _ _ _ _ Hf Ho) as (o0 & Ho0 & Hs).
    apply (f_equal id) in Hs. cbn in Hs. rewrite Hs. eauto.
  - congruence.
Qed.

(** The table of objects and the test of validity agree. *)
Lemma find_object_eq d x : wf_table d -> dbpriv_find_object d x = objects d !! x.
Proof.
  intros Hw. unfold dbpriv_find_object. destruct (objects d !! x) as [o|] eqn:E.
  - destruct (wf_range d Hw x o E). destruct (Z.ltb_spec x 0); [lia|].
    destruct (Z.geb_spec x (num_objects d)); [lia|done].
  - by destruct (_ || _).
Qed.

(** ** Waif tables *)

(** The cached tables of the objects exist, and no two objects share one. *)
Definition wf_wpds (d : db) : Prop :=
  (forall x o p, objects d !! x = Some o -> waif_propdefs o = Some p -> is_Some (wpds d !! p)) /\
  (forall x y ox oy p, objects d !! x = Some ox -> objects d !! y = Some oy ->
     waif_propdefs ox = Some p -> waif_propdefs oy = Some p -> x = y).

Lemma upd_object_Ok d x o f : objects d !! x = Some o ->
  upd_object x f d = Ok (with_objects (<[x := f o]> (objects d)) d).
Proof. intros H. unfold upd_object. by rewrite (upd_Ok _ _ _ _ H). Qed.

Lemma framed_insert d x o o' : objects d !! x = Some o -> skeleton o' = skeleton o ->
  framed d (with_objects (<[x := o']> (objects d)) d).
Proof.
  intros Ho Hs. split; [done|]. intros y. cbn. destruct (decide (y = x)) as [->|].
  - rewrite lookup_insert_eq, Ho. cbn. by rewrite Hs.
  - by rewrite lookup_insert_ne.
Qed.

Lemma drop_waif_Ok d x o : wf_table d -> wf_wpds d -> objects d !! x = Some o ->
  exists d', drop_waif_propdefs x d = Ok d' /\ framed d d' /\ wf_wpds d' /\
    objects d' = <[x := set_waif_propdefs None o]> (objects d).
Proof.
  intros Ht [Hv Hs] Ho. unfold drop_waif_propdefs. rewrite (find_object_eq d x Ht), Ho.
  cbn [deref mbind res_bind].
  assert (Hwp : forall d1, objects d1 = objects d -> framed d d1 ->
    (forall p, is_Some (wpds d !! p) -> waif_propdefs o <> Some p -> is_Some (wpds d1 !! p)) ->
    exists d', upd_object x (set_waif_propdefs None) d1 = Ok d' /\ framed d d' /\ wf_wpds d' /\
      objects d' = <[x := set_waif_propdefs None o]> (objects d)).
  { intros d1 He Hf Hp. rewrite <- He in Ho. rewrite (upd_object_Ok d1 x o) by done.
    eexists. split; [done|]. split_and!.
    - etrans; [done|]. by apply framed_insert with o.
    - split; cbn.
      + intros y oy p. destruct (decide (y = x)) as [->|].
        * rewrite lookup_insert_eq. by intros [= <-].
        * rewrite lookup_insert_ne by done. rewrite He. intros Hy Hyp. apply Hp; [by eapply Hv|].
          intros Hop. rewrite He in Ho. pose proof (Hs y x oy o p Hy Ho Hyp Hop). done.
      + intros y z oy oz p. destruct (decide (y = x)) as [->|]; destruct (decide (z = x)) as [->|];
          rewrite ?lookup_insert_eq, ?lookup_insert_ne by done;
          try (by intros [= <-]); try (by intros _ [= <-]).
        rewrite He. apply Hs.
    - cbn. by rewrite He. }
  destruct (waif_propdefs o) as [p|] eqn:Hop; cbn [free_waif_propdefs mbind res_bind].
  - destruct (Hv x o p Ho Hop) as [w Hw]. rewrite Hw. cbn [deref mbind res_bind].
    apply Hwp; [done|by split|]. intros q Hq Hqp. cbn. assert (q <> p) by congruence.
    case_match; [by rewrite lookup_insert_ne|by rewrite lookup_delete_ne].
  - apply Hwp; done.
Qed.

(** What every visit does: the waif table goes, and the array is replaced. *)
Lemma store_propval d x o : wf_table d -> wf_wpds d -> objects d !! x = Some o ->
  exists d1, drop_waif_propdefs x d = Ok d1 /\ wf_table d1 /\
    objects d1 !! x = Some (set_waif_propdefs None o) /\
    (forall z, z <> x -> objects d1 !! z = objects d !! z) /\
    forall v, exists d2, upd_object x (set_propval v) d1 = Ok d2 /\ framed d d2 /\ wf_wpds d2 /\
      objects d2 = <[x := set_propval v (set_waif_propdefs None o)]> (objects d).
Proof.
  intros Ht Hw Ho. destruct (drop_waif_Ok d x o Ht Hw Ho) as (d1 & -> & Hf1 & Hw1 & Ho1).
  assert (Hx : objects d1 !! x = Some (set_waif_propdefs None o)) by (by rewrite Ho1, lookup_insert_eq).
  exists d1. split_and!; [done|by eapply framed_table|done|intros; by rewrite Ho1, lookup_insert_ne|].
  intros v. rewrite (upd_object_Ok d1 x _ _ Hx). eexists. split; [done|]. split_and!.
  - etrans; [exact Hf1|]. by apply framed_insert with (set_waif_propdefs None o).
  - destruct Hw1 as [Ha Hb]. split; cbn; rewrite Ho1 in *; rewrite insert_insert_eq.
    + intros y oy p. destruct (decide (y = x)) as [->|].
      * rewrite lookup_insert_eq. by intros [= <-].
      * rewrite lookup_insert_ne by done. intros Hy. apply (Ha y oy p). by rewrite lookup_insert_ne.
    + intros y z oy oz p. destruct (decide (y = x)) as [->|]; destruct (decide (z = x)) as [->|];
        rewrite ?lookup_insert_eq, ?lookup_insert_ne by done; try (by intros [= <-]);
        try (by intros _ [= <-]).
      intros Hy Hz. apply (Hb y z oy oz p); by rewrite lookup_insert_ne.
  - cbn. by rewrite Ho1, insert_insert_eq.
Qed.

(** ** Walking a subtree *)

Section walk.
Context (F : forest) (HF : wf_forest F) {X : Type}.
Context (visit : Z -> X -> db -> res db) (down : Object -> Object -> X -> X).
Context (d0 : db) (Hr0 : represents family (objects d0) F) (Ht0 : wf_table d0).
Context (top : Z) (args : Z -> X) (Done : Z -> Object -> Prop).

(** Outside of the subtree, [d] is as [d0]. *)
Definition outside (d : db) : Prop :=
  forall y, ~ below F top y -> objects d !! y = objects d0 !! y.

(** What a visit may assume and must establish. *)
Definition visit_ok : Prop := forall x d, below F top x -> framed d0 d -> wf_wpds d ->
  outside d -> objects d !! x = objects d0 !! x ->
  (forall p o, x <> top -> par F !! x = Some p -> objects d !! p = Some o -> Done p o) ->
  exists d' o', visit x (args x) d = Ok d' /\ framed d0 d' /\ wf_wpds d' /\
    objects d' = <[x := o']> (objects d) /\ Done x o'.

Context (Hvisit : visit_ok).
Context (Hargs : forall x c ks o oc, below F top x -> kids F !! x = Some ks -> c ∈ ks ->
  skeleton <$> objects d0 !! x = Some (skeleton o) ->
  skeleton <$> objects d0 !! c = Some (skeleton oc) -> down o oc (args x) = args c).

(** The subtree of [x] is as in [d0]. *)
Definition untouched (x : Z) (d : db) : Prop :=
  forall y, below F x y -> objects d !! y = objects d0 !! y.

(** The subtree of [x] is finished, and nothing else has changed since [d]. *)
Definition finished (x : Z) (d d' : db) : Prop :=
  framed d0 d' /\ wf_wpds d' /\
  (forall y, ~ below F x y -> objects d' !! y = objects d !! y) /\
  (forall y o, below F x y -> objects d' !! y = Some o -> Done y o).

Definition parent_done (x : Z) (d : db) : Prop :=
  forall p o, x <> top -> par F !! x = Some p -> objects d !! p = Some o -> Done p o.

Lemma each_child_Ok body root kr s ks d fuel : kids F !! root = Some kr ->
  (forall k, k ∈ ks -> k ∈ kr) -> NoDup ks -> (length ks < fuel)%nat ->
  path (nxts family (objects d0)) s ks -> framed d0 d -> wf_wpds d -> outside d ->
  (forall k y, k ∈ kr -> below F k y -> below F top y) -> (forall o, objects d !! root = Some o -> Done root o) ->
  (forall k, k ∈ ks -> untouched k d) ->
  (forall k d, k ∈ ks -> framed d0 d -> wf_wpds d -> outside d -> untouched k d ->
     parent_done k d ->
     exists d', body k d = Ok d' /\ finished k d d') ->
  exists d', each_child fuel body s d = Ok d' /\ framed d0 d' /\ wf_wpds d' /\
    (forall y, (forall k, k ∈ ks -> ~ below F k y) -> objects d' !! y = objects d !! y) /\
    (forall y o k, k ∈ ks -> below F k y -> objects d' !! y = Some o -> Done y o).
Proof.
  intros Hkr. revert s d fuel.
  induction ks as [|k ks IH]; intros s d [|fuel] Hks Hnd Hlen Hp Hf Hw Hos Hbt Hroot
    Hunt Hbody; cbn in Hlen; try lia; cbn [path] in Hp; cbn [each_child].
  { rewrite Hp. exists d. split_and!; try done. intros y o k Hk. set_solver. }
  destruct Hp as (-> & Hk0 & n & Hn & Hp). destruct (Z.eqb_spec k NOTHING); [done|].
  assert (Hkp : par F !! k = Some root) by (apply (wf_kids F HF root kr Hkr), Hks; set_solver).
  apply NoDup_cons in Hnd as [Hkn Hnd].
  destruct (Hbody k d) as (d1 & -> & Hf1 & Hw1 & Hout & Hin);
    [set_solver|done|done|done|by apply Hunt; set_solver| |].
  { intros p o _ Hpk Ho. replace p with root in * by congruence. auto. }
  cbn [mbind res_bind]. pose proof (framed_table d0 d1 Hf1 Ht0) as Ht1.
  rewrite (find_object_eq d1 k Ht1).
  assert (Hn1 : nxts family (objects d1) k = Some n).
  { unfold nxts in *. rewrite (framed_field (nxt family) d0 d1) by done. done. }
  apply fmap_Some in Hn1 as (o1 & Ho1 & ->). rewrite Ho1. cbn [deref mbind res_bind].
  assert (Hdisj : forall k' y, k' ∈ ks -> below F k' y -> ~ below F k y).
  { intros k' y Hk' Hy' Hy. assert (k' = k); [|set_solver].
    apply (below_one_kid F HF root kr k' k y Hkr); [apply Hks; set_solver..|done|done]. }
  assert (Hroot1 : ~ below F k root).
  { intros H. by apply (below_kid F HF root kr k root Hkr) in H as [_ ?]; [|apply Hks; set_solver]. }
  destruct (IH (sibling o1) d1 fuel) as (d2 & -> & Hf2 & Hw2 & Hout2 & Hin2).
  - set_solver.
  - done.
  - lia.
  - done.
  - done.
  - done.
  - intros y Hy. rewrite Hout; [by apply Hos|]. intros Hky. apply Hy.
    apply (Hbt k y); [apply Hks; set_solver|done].
  - done.
  - intros o. rewrite Hout by done. apply Hroot.
  - intros k' Hk' y Hy. rewrite Hout by (by eapply Hdisj). apply (Hunt k'); [set_solver|done].
  - intros k' d' Hk'. apply Hbody. set_solver.
  - exists d2. split_and!; try done.
    + intros y Hy. rewrite Hout2 by (intros; apply Hy; set_solver). apply Hout, Hy. set_solver.
    + intros y o k' [->|Hk']%elem_of_cons Hy Ho; [|by eapply Hin2].
      apply (Hin y o Hy). rewrite <- Ho. symmetry. apply Hout2.
      intros k' Hk' Hy'. by apply (Hdisj k' y).
Qed.

(** The fuel is at least the height of the subtree. *)
Definition deep_enough (fuel : nat) (x : Z) : Prop :=
  forall y l1 t, lineage F y (l1 ++ x :: t) -> (length l1 < fuel)%nat.

Lemma walk_Ok fuel x d : below F top x -> deep_enough fuel x -> framed d0 d -> wf_wpds d ->
  outside d -> untouched x d -> parent_done x d ->
  exists d', walk fuel visit down x (args x) d = Ok d' /\ finished x d d'.
Proof.
  revert x d. induction fuel as [|fuel IH]; intros x d Hx Hdeep Hf Hw Hos Hunt Hpar.
  { destruct (below_valid F HF top x Hx) as [[p Hp] _].
    destruct (lineage_cons F HF x p Hp) as (l & _ & Hl). pose proof (Hdeep x [] l Hl).
    cbn in *. lia. }
  destruct (below_valid F HF top x Hx) as [Hxv _].
  cbn [walk]. destruct (Hvisit x d) as (d1 & o1 & -> & Hf1 & Hw1 & Ho1 & Hdone);
    [done|done|done|done|by apply Hunt, below_refl|done|].
  cbn [mbind res_bind]. pose proof (framed_table d0 d1 Hf1 Ht0) as Ht1.
  rewrite (find_object_eq d1 x Ht1), Ho1, lookup_insert_eq. cbn [deref mbind res_bind].
  rewrite <- Ho1.
  apply (wf_dom F HF) in Hxv as [ks Hks].
  pose proof (framed_family F d0 d1 Hf1 Hr0) as Hr1.
  destruct (Hr1 x) as (_ & Hkx & _). destruct (Hkx ks Hks) as (s & Hs & Hp).
  assert (Hc : child o1 = s).
  { unfold fsts in Hs. rewrite Ho1, lookup_insert_eq in Hs. by injection Hs. }
  rewrite Hc. destruct (wf_kids F HF x ks Hks) as [Hnd Hiff].
  pose proof (framed_lookup d0 d1 x o1 Hf1 (eq_trans (f_equal (.!! x) Ho1) (lookup_insert_eq _ _ _)))
    as (ox & Hox & Hskx).
  assert (Hsub : forall y, below F x y -> below F top y).
  { intros y (ly & Hly & Hxy). destruct Hx as (lx & Hlx & Htx). exists ly. split; [done|].
    destruct (list_elem_of_split ly x Hxy) as (a & b & ->). pose proof (path_app _ _ _ _ _ Hly) as Hpx.
    assert (lx = x :: b) as -> by (by eapply path_functional). set_solver. }
  destruct (each_child_Ok
    (fun c d => oc ← deref (dbpriv_find_object d c);
                walk fuel visit down c (down o1 oc (args x)) d)
    x ks s ks d1 (S (size (objects d1)))) as (d2 & -> & Hf2 & Hw2 & Hout & Hin); try done.
  - pose proof (path_objs_length family (objects d1) s ks Hp). lia.
  - eapply path_ext; [|exact Hp]. intros y _. unfold nxts. symmetry. by apply framed_field.
  - intros y Hy. rewrite Ho1, lookup_insert_ne; [by apply Hos|]. intros <-. apply Hy, Hsub.
    apply below_refl; [done|]. apply (wf_dom F HF). eauto.
  - intros k y Hk Hy. apply Hsub. by apply (below_kid F HF x ks k y Hks Hk).
  - intros o. rewrite Ho1, lookup_insert_eq. by intros [= <-].
  - intros k Hk y Hy. destruct (below_kid F HF x ks k y Hks Hk Hy) as [Hxy Hne].
    rewrite Ho1, lookup_insert_ne by done. by apply Hunt.
  - intros k d' Hk Hf' Hw' Hos' Hunt' Hpar'.
    assert (Hkv : is_Some (par F !! k)) by (eexists; by apply Hiff).
    destruct (proj2 (represents_dom family (objects d0) F Hr0 k) Hkv) as [ok Hok].
    destruct (framed_lookup_r d0 d' k ok Hf' Hok) as (ok' & Hok' & Hskk).
    rewrite (find_object_eq d' k (framed_table d0 d' Hf' Ht0)), Hok'. cbn [deref mbind res_bind].
    rewrite (Hargs x k ks o1 ok' Hx Hks Hk).
    + apply IH; try done.
      * destruct Hx as (l & Hl & Htop). apply Hiff in Hk.
        destruct (lineage_cons F HF k x Hk) as (l' & Hl' & Hlk). exists (k :: l').
        assert (l' = l) as -> by (by eapply path_functional). split; [done|set_solver].
      * intros y l1 t Hly. apply Hiff in Hk. pose proof (path_app _ _ _ _ _ Hly) as Hpk. cbn in Hpk.
        destruct Hpk as (_ & _ & m & Hm & Hpm). replace m with x in Hpm by congruence.
        destruct t as [|z t]; cbn in Hpm.
        -- exfalso. subst x. assert (is_Some (kids F !! NOTHING)) as H by eauto.
           apply (wf_dom F HF) in H. rewrite (wf_nothing F HF) in H. by destruct H.
        -- destruct Hpm as (<- & _). pose proof (Hdeep y (l1 ++ [k]) t) as H.
           rewrite <- app_assoc in H. specialize (H Hly). rewrite length_app in H. cbn in H. lia.
    + rewrite Hox. cbn. by rewrite Hskx.
    + rewrite Hok. cbn. by rewrite Hskk.
  - exists d2. split; [done|]. split_and!; try done.
    + intros y Hy. rewrite Hout.
      * rewrite Ho1. apply lookup_insert_ne. intros <-. apply Hy, below_refl; [done|].
        apply (wf_dom F HF). eauto.
      * intros k Hk Hky. apply Hy. by apply (below_kid F HF x ks k y Hks Hk).
    + intros y o Hy Ho. destruct (decide (y = x)) as [->|Hyx].
      * rewrite Hout in Ho.
        -- rewrite Ho1, lookup_insert_eq in Ho. by injection Ho as <-.
        -- intros k Hk Hky. by apply (below_kid F HF x ks k x Hks Hk) in Hky as [_ ?].
      * destruct (below_inv F HF x ks y Hks Hy Hyx) as (c & Hc' & Hcy). by eapply Hin.
Qed.

End walk.

(** ** Counting *)

(** The number of properties that [y] itself defines, and that the objects of a path do. *)
Definition ndefs (d : db) (y : Z) : nat :=
  from_option (fun o => cur_length (propdefs o)) 0%nat (objects d !! y).
Definition width (d : db) (ls : list Z) : nat := sum_list_with (ndefs d) ls.

(** [dbpriv_count_properties], where it returns. *)
Definition total (d : db) (y : Z) : nat :=
  match dbpriv_count_properties d y with Ok n => n | Fail _ => 0%nat end.

Lemma width_app d l1 l2 : width d (l1 ++ l2) = (width d l1 + width d l2)%nat.
Proof. apply sum_list_with_app. Qed.

Section counting.
Context (d : db) (F : forest) (HF : wf_forest F) (Hr : represents family (objects d) F)
  (Ht : wf_table d).

Lemma ancestry_from_Ok x ls fuel : path (fun y => par F !! y) x ls -> (length ls <= fuel)%nat ->
  exists os, ancestry_from fuel d x = Ok os /\
    Forall2 (fun y o => objects d !! y = Some o) ls os.
Proof.
  revert x fuel. induction ls as [|y ls IH]; intros x fuel Hp Hf; cbn [path] in Hp.
  - subst x. exists []. split; [|constructor].
    assert (H : dbpriv_find_object d NOTHING = None) by done.
    destruct fuel; cbn [ancestry_from]; by rewrite H.
  - destruct Hp as (-> & _ & n & Hn & Hp). destruct fuel as [|fuel]; cbn in Hf; [lia|].
    cbn [ancestry_from]. rewrite (find_object_eq d y Ht).
    destruct (proj2 (represents_dom family _ F Hr y)) as [o Ho]; [eauto|]. rewrite Ho.
    destruct (Hr y) as (Hu & _). unfold ups in Hu. rewrite Ho, Hn in Hu. injection Hu as Hu.
    cbn in Hu. rewrite Hu. destruct (IH n fuel Hp) as (os & -> & Hos); [lia|].
    exists (o :: os). split; [done|]. by constructor.
Qed.

Lemma ancestry_Ok x ls : lineage F x ls -> exists os, ancestry d x = Ok os /\
  Forall2 (fun y o => objects d !! y = Some o) ls os.
Proof.
  intros Hl. apply ancestry_from_Ok; [done|]. eapply path_length; [exact Hl|].
  intros y. by rewrite (represents_dom family _ F Hr).
Qed.

Lemma count_Ok x ls : lineage F x ls -> dbpriv_count_properties d x = Ok (width d ls).
Proof.
  intros Hl. unfold dbpriv_count_properties. destruct (ancestry_Ok x ls Hl) as (os & -> & Hos).
  cbn [mbind res_bind]. f_equal. clear Hl. induction Hos as [|y o ls os Ho _ IH]; [done|].
  cbn. unfold width in *. cbn. rewrite IH. unfold ndefs at 2. by rewrite Ho.
Qed.

Lemma total_eq x ls : lineage F x ls -> total d x = width d ls.
Proof. intros Hl. unfold total. by rewrite (count_Ok x ls). Qed.

Lemma count_total x ls : lineage F x ls -> dbpriv_count_properties d x = Ok (total d x).
Proof. intros Hl. by rewrite (total_eq x ls), (count_Ok x ls). Qed.

Lemma total_kid x c : par F !! c = Some x -> total d c = (ndefs d c + total d x)%nat.
Proof.
  intros Hc. destruct (lineage_cons F HF c x Hc) as (ls & Hl & Hlc).
  by rewrite (total_eq c (c :: ls)), (total_eq x ls).
Qed.

Lemma lineage_total x : is_Some (par F !! x) -> exists ls, lineage F x (x :: ls) /\
  total d x = (ndefs d x + width d ls)%nat.
Proof.
  intros [p Hp]. destruct (lineage_cons F HF x p Hp) as (ls & Hl & Hlx). exists ls.
  split; [done|]. by rewrite (total_eq x (x :: ls)).
Qed.

(** Going down, the number only grows. *)
Lemma total_below x y l1 l2 : lineage F y (l1 ++ x :: l2) ->
  total d y = (width d l1 + total d x)%nat.
Proof.
  intros Hl. rewrite (total_eq y (l1 ++ x :: l2)) by done. rewrite width_app.
  rewrite (total_eq x (x :: l2)); [done|]. by eapply path_app.
Qed.

Lemma below_total x y : below F x y -> (total d x <= total d y)%nat.
Proof.
  intros (ls & Hl & Hx). destruct (list_elem_of_split ls x Hx) as (l1 & l2 & ->).
  rewrite (total_below x y l1 l2 Hl). lia.
Qed.

Lemma deep_enough_size x : is_Some (par F !! x) -> deep_enough F (S (size (objects d))) x.
Proof.
  intros Hx y l1 t Hl. assert (length (l1 ++ x :: t) <= size (objects d))%nat as H.
  { eapply path_length; [exact Hl|]. intros z. by rewrite (represents_dom family _ F Hr). }
  rewrite length_app in H. cbn in H. lia.
Qed.

End counting.

Lemma framed_ndefs d0 d y : framed d0 d -> ndefs d y = ndefs d0 y.
Proof.
  intros Hf. unfold ndefs. pose proof (framed_field (fun o => cur_length (propdefs o)) d0 d y
    (fun _ => eq_refl) Hf) as H.
  destruct (objects d !! y), (objects d0 !! y); cbn in *; congruence.
Qed.

Lemma framed_total F d0 d x : wf_forest F -> framed d0 d -> represents family (objects d0) F ->
  wf_table d0 -> is_Some (par F !! x) -> total d x = total d0 x.
Proof.
  intros HF Hf Hr Ht Hx. destruct (wf_acyclic F HF x Hx) as [ls Hl].
  rewrite (total_eq d F (framed_family F d0 d Hf Hr) (framed_table d0 d Hf Ht) x ls Hl).
  rewrite (total_eq d0 F Hr Ht x ls Hl). unfold width.
  induction ls as [|y ls IH] in Hl |- *; [done|]. cbn. clear Hl.
  rewrite (framed_ndefs d0 d) by done. f_equal.
  clear IH. induction ls as [|z ls IH]; [done|]. cbn. by rewrite (framed_ndefs d0 d), IH.
Qed.

(** ** Inserting and removing a cell *)

Definition insert_at {A} (i : nat) (x : A) (xs : list A) : list A := take i xs ++ x :: drop i xs.
Definition remove_at {A} (i : nat) (xs : list A) : list A := take i xs ++ drop (S i) xs.

Lemma copy_Ok {A} (a : list A) i n : (i + n <= length a)%nat ->
  copy a i n = Ok (take n (drop i a)).
Proof. intros H. unfold copy. by rewrite decide_True. Qed.

Lemma copy_prefix {A} (a : list A) n : (n <= length a)%nat -> copy a 0 n = Ok (take n a).
Proof. intros H. by rewrite copy_Ok. Qed.

Lemma copy_suffix {A} (a : list A) i n : (i + n = length a)%nat -> copy a i n = Ok (drop i a).
Proof.
  intros H. rewrite copy_Ok by lia. rewrite take_ge; [done|]. rewrite length_drop. lia.
Qed.

Section insert_remove.
Context (F : forest) (HF : wf_forest F) (d0 : db).
Context (Hr0 : represents family (objects d0) F) (Ht0 : wf_table d0).
Context (root : Z) (pos : nat) (Hroot : is_Some (par F !! root)).

(** The cell of an object below [root] that belongs to the definition at [pos]. *)
Definition cell_index (y : Z) : nat := (total d0 y - total d0 root + pos)%nat.

Lemma cell_index_root : cell_index root = pos.
Proof. unfold cell_index. lia. Qed.

Lemma cell_index_kid x c : below F root x -> par F !! c = Some x ->
  cell_index c = (ndefs d0 c + cell_index x)%nat.
Proof.
  intros Hx Hc. unfold cell_index. rewrite (total_kid d0 F HF Hr0 Ht0 x c Hc).
  pose proof (below_total d0 F Hr0 Ht0 root x Hx). lia.
Qed.

Lemma kid_ndefs c oc : skeleton <$> objects d0 !! c = Some (skeleton oc) ->
  cur_length (propdefs oc) = ndefs d0 c.
Proof.
  intros H. apply fmap_Some in H as (o' & Ho' & Hs).
  unfold ndefs. rewrite Ho'. apply (f_equal (fun o => cur_length (propdefs o))) in Hs. done.
Qed.

(** The new cell: at [root] as given, below it cleared. *)
Definition new_cell (pv : Pval) (y : Z) : Pval := if decide (y = root) then pv else clear_pval pv.

Definition inserted (pv : Pval) (y : Z) (o' : Object) : Prop :=
  exists o, objects d0 !! y = Some o /\
    o' = set_propval (insert_at (cell_index y) (chown o (new_cell pv y)) (propval o))
           (set_waif_propdefs None o).

Lemma insert_prop_visit pv : (pos < total d0 root)%nat ->
  (forall y o, below F root y -> objects d0 !! y = Some o ->
     length (propval o) = (total d0 y - 1)%nat) ->
  visit_ok F insert_prop d0 root (fun y => (cell_index y, new_cell pv y)) (inserted pv).
Proof.
  intros Hpos Hlen x d Hx Hf Hw _ Hsame _.
  destruct (below_valid F HF root x Hx) as [Hxv _].
  destruct (proj2 (represents_dom family _ F Hr0 x) Hxv) as [o Ho].
  pose proof (framed_family F d0 d Hf Hr0) as Hr. pose proof (framed_table d0 d Hf Ht0) as Ht.
  destruct (wf_acyclic F HF x Hxv) as [ls Hl]. cbn [insert_prop].
  rewrite (count_total d F Hr Ht x ls Hl), (framed_total F d0 d x HF Hf Hr0 Ht0 Hxv).
  cbn [mbind res_bind]. rewrite Ho in Hsame.
  destruct (store_propval d x o Ht Hw Hsame) as (d1 & -> & Ht1 & Ho1 & _ & Hstore).
  cbn [mbind res_bind]. rewrite (find_object_eq d1 x Ht1), Ho1.
  cbn [deref mbind res_bind propval set_waif_propdefs].
  pose proof (below_total d0 F Hr0 Ht0 root x Hx) as Hle.
  pose proof (Hlen x o Hx Ho) as Hlo.
  rewrite copy_prefix by (unfold cell_index; lia). cbn [mbind res_bind].
  rewrite copy_suffix by (unfold cell_index; lia). cbn [mbind res_bind].
  rewrite decide_True by (unfold cell_index; lia).
  destruct (Hstore (insert_at (cell_index x) (chown o (new_cell pv x)) (propval o)))
    as (d2 & H2 & Hf2 & Hw2 & Ho2).
  exists d2. eexists. split; [exact H2|]. split_and!; [by etrans|done|exact Ho2|].
  exists o. split; done.
Qed.

(** The subtree of [root] after the walk. *)
Definition walked (Done : Z -> Object -> Prop) (d : db) : Prop :=
  framed d0 d /\ wf_wpds d /\
  (forall y, ~ below F root y -> objects d !! y = objects d0 !! y) /\
  (forall y o, below F root y -> objects d !! y = Some o -> Done y o).

Lemma walked_of_walk {X} visit down (args : Z -> X) Done : wf_wpds d0 ->
  visit_ok F visit d0 root args Done ->
  (forall x c ks o oc, below F root x -> kids F !! x = Some ks -> c ∈ ks ->
     skeleton <$> objects d0 !! x = Some (skeleton o) ->
     skeleton <$> objects d0 !! c = Some (skeleton oc) -> down o oc (args x) = args c) ->
  exists d, walk (S (size (objects d0))) visit down root (args root) d0 = Ok d /\ walked Done d.
Proof.
  intros Hw Hv Ha.
  destruct (walk_Ok F HF visit down d0 Hr0 Ht0 root args Done Hv Ha (S (size (objects d0))) root d0)
    as (d & -> & H); try done.
  - by apply below_refl.
  - by eapply deep_enough_size.
  - by intros p o ?.
  - by exists d.
Qed.

Lemma insert_prop_recursively_Ok pv : wf_wpds d0 -> (pos < total d0 root)%nat ->
  (forall y o, below F root y -> objects d0 !! y = Some o ->
     length (propval o) = (total d0 y - 1)%nat) ->
  exists d, insert_prop_recursively root pos pv d0 = Ok d /\ walked (inserted pv) d.
Proof.
  intros Hw Hpos Hlen. unfold insert_prop_recursively.
  assert (Ha : (cell_index root, new_cell pv root) = (pos, pv)).
  { rewrite cell_index_root. unfold new_cell. by rewrite decide_True. }
  rewrite <- Ha.
  apply (walked_of_walk insert_prop _ (fun y => (cell_index y, new_cell pv y))); [done|by apply insert_prop_visit|].
  intros x c ks o oc Hx Hk Hc _ Hoc. apply (wf_kids F HF x ks Hk) in Hc as Hcx. f_equal.
  - rewrite (cell_index_kid x c Hx Hcx), (kid_ndefs c oc Hoc). done.
  - destruct (below_kid F HF x ks c c Hk Hc) as [Hxc Hcx'].
    { apply below_refl; [done|eauto]. }
    assert (c <> root).
    { intros ->. by apply (par_not_below F HF root x Hcx). }
    unfold new_cell. rewrite (decide_False (P := c = root)) by done. by case_decide.
Qed.

(** *** Removal *)

Definition removed (y : Z) (o' : Object) : Prop :=
  exists o, objects d0 !! y = Some o /\
    o' = set_propval (remove_at (cell_index y) (propval o)) (set_waif_propdefs None o).

Lemma remove_prop_visit :
  (pos <= total d0 root)%nat ->
  (forall y o, below F root y -> objects d0 !! y = Some o ->
     length (propval o) = S (total d0 y)) ->
  visit_ok F remove_prop d0 root cell_index removed.
Proof.
  intros Hpos Hlen x d Hx Hf Hw _ Hsame _.
  destruct (below_valid F HF root x Hx) as [Hxv _].
  destruct (proj2 (represents_dom family _ F Hr0 x) Hxv) as [o Ho].
  pose proof (framed_family F d0 d Hf Hr0) as Hr. pose proof (framed_table d0 d Hf Ht0) as Ht.
  destruct (wf_acyclic F HF x Hxv) as [ls Hl]. rewrite Ho in Hsame. unfold remove_prop.
  rewrite (find_object_eq d x Ht), Hsame. cbn [deref mbind res_bind].
  rewrite (count_total d F Hr Ht x ls Hl), (framed_total F d0 d x HF Hf Hr0 Ht0 Hxv).
  cbn [mbind res_bind].
  destruct (store_propval d x o Ht Hw Hsame) as (d1 & -> & _ & _ & _ & Hstore).
  cbn [mbind res_bind].
  pose proof (below_total d0 F Hr0 Ht0 root x Hx) as Hle.
  pose proof (Hlen x o Hx Ho) as Hlo.
  destruct (lookup_lt_is_Some_2 (propval o) (cell_index x)) as [pv Hpv].
  { unfold cell_index. lia. }
  rewrite Hpv. cbn [deref mbind res_bind].
  destruct (Hstore (remove_at (cell_index x) (propval o))) as (d2 & H2 & Hf2 & Hw2 & Ho2).
  assert (Hres : (if decide (total d0 x = 0)%nat then upd_object x (set_propval []) d1
    else if decide (cell_index x <= total d0 x)%nat then
      before ← copy (propval o) 0 (cell_index x);
      after ← copy (propval o) (cell_index x + 1) (total d0 x - cell_index x);
      upd_object x (set_propval (before ++ after)) d1
    else Fail Segv) = Ok d2).
  { case_decide as Hz.
    - rewrite <- H2. f_equal. f_equal. unfold remove_at.
      replace (cell_index x) with 0%nat by (unfold cell_index; lia). cbn [take app].
      rewrite drop_ge; [done|lia].
    - rewrite decide_True by (unfold cell_index; lia).
      rewrite copy_prefix by (unfold cell_index; lia). cbn [mbind res_bind].
      rewrite copy_suffix by (unfold cell_index; lia). cbn [mbind res_bind].
      rewrite <- H2. unfold remove_at. by rewrite Nat.add_1_r. }
  rewrite Hres. exists d2. eexists. split; [done|]. split_and!; [by etrans|done|exact Ho2|].
  exists o. split; done.
Qed.

Lemma remove_prop_recursively_Ok : wf_wpds d0 -> (pos <= total d0 root)%nat ->
  (forall y o, below F root y -> objects d0 !! y = Some o ->
     length (propval o) = S (total d0 y)) ->
  exists d, remove_prop_recursively root pos d0 = Ok d /\ walked removed d.
Proof.
  intros Hw Hpos Hlen. unfold remove_prop_recursively.
  pose proof (walked_of_walk remove_prop (fun _ oc pos => (cur_length (propdefs oc) + pos)%nat)
    cell_index removed Hw (remove_prop_visit Hpos Hlen)) as H.
  rewrite cell_index_root in H. apply H.
  intros x c ks o oc Hx Hk Hc _ Hoc. apply (wf_kids F HF x ks Hk) in Hc as Hcx.
  rewrite (cell_index_kid x c Hx Hcx), (kid_ndefs c oc Hoc). done.
Qed.

End insert_remove.

(** ** Changing the inherited part of the arrays *)

Lemma chown_clear_chown o p pv :
  chown o (clear_pval (chown p (clear_pval pv))) = chown o (clear_pval pv).
Proof.
  unfold chown, clear_pval. cbn.
  destruct (negb (Z.land (p_perms pv) PF_CHOWN =? 0)) eqn:E; cbn; by rewrite E.
Qed.

Section fix_props.
Context (F : forest) (HF : wf_forest F) (d0 : db).
Context (Hr0 : represents family (objects d0) F) (Ht0 : wf_table d0).
Context (root q : Z) (Hroot : par F !! root = Some q).
Context (old new common : nat).
Context (Hwidth : total d0 root = (ndefs d0 root + new + common)%nat).

(** The cells of [y] for the definitions in the subtree of [root]. *)
Definition local_cells (y : Z) : nat := (total d0 y - (new + common))%nat.

(** The cells that the subtree newly inherits, as they are at the new parent. *)
Definition inherited : list Pval := take new (from_option propval [] (objects d0 !! q)).

Context (Hlen : forall y o, below F root y -> objects d0 !! y = Some o ->
  length (propval o) = (local_cells y + old + common)%nat).
Context (Hq : new <> 0%nat -> exists oq, objects d0 !! q = Some oq /\
  length (propval oq) = (new + common)%nat).

Definition fixed (y : Z) (o' : Object) : Prop :=
  exists o, objects d0 !! y = Some o /\
    o' = set_propval (take (local_cells y) (propval o) ++
                      ((fun pv => chown o (clear_pval pv)) <$> inherited) ++
                      drop (local_cells y + old) (propval o))
           (set_waif_propdefs None o).

Lemma local_kid x c : below F root x -> par F !! c = Some x ->
  local_cells c = (ndefs d0 c + local_cells x)%nat.
Proof.
  intros Hx Hc. unfold local_cells. rewrite (total_kid d0 F HF Hr0 Ht0 x c Hc).
  pose proof (below_total d0 F Hr0 Ht0 root x Hx). lia.
Qed.

Lemma local_root : local_cells root = ndefs d0 root.
Proof. unfold local_cells. lia. Qed.

Lemma local_ndefs x : below F root x -> (ndefs d0 x <= local_cells x)%nat.
Proof.
  intros Hx. destruct (decide (x = root)) as [->|Hne]; [by rewrite local_root|].
  destruct (below_parent F HF root x Hx Hne) as (p & Hp & Hbp).
  rewrite (local_kid p x Hbp Hp). lia.
Qed.

Lemma length_inherited : length inherited = new.
Proof.
  unfold inherited. destruct (decide (new = 0)%nat) as [->|Hn]; [done|].
  destruct (Hq Hn) as (oq & Hoq & Hl). rewrite Hoq. cbn. rewrite length_take. lia.
Qed.

(** What the parent holds in the cells that are copied. *)
Lemma theirs_Ok x d : below F root x -> framed d0 d -> outside F d0 root d ->
  (forall p o, x <> root -> par F !! x = Some p -> objects d !! p = Some o -> fixed p o) ->
  new <> 0%nat -> exists p op theirs, par F !! x = Some p /\ objects d !! p = Some op /\
    copy (propval op) (local_cells x - ndefs d0 x) new = Ok theirs /\
    forall o, ((fun pv => chown o (clear_pval pv)) <$> theirs)
              = ((fun pv => chown o (clear_pval pv)) <$> inherited).
Proof.
  intros Hx Hf Hos Hdone Hn. destruct (decide (x = root)) as [->|Hne].
  - destruct (Hq Hn) as (oq & Hoq & Hl). exists q, oq, inherited. split_and!; [done| | |done].
    + rewrite Hos; [done|]. intros Hb. by apply (par_not_below F HF root q Hroot).
    + rewrite local_root, Nat.sub_diag, copy_prefix by lia. unfold inherited. by rewrite Hoq.
  - destruct (below_parent F HF root x Hx Hne) as (p & Hp & Hbp).
    destruct (proj2 (represents_dom family _ F (framed_family F d0 d Hf Hr0) p)) as [op Hop].
    { apply (below_valid F HF root p Hbp). }
    destruct (Hdone p op Hne Hp Hop) as (op0 & Hop0 & ->).
    eexists p, _, ((fun pv => chown op0 (clear_pval pv)) <$> inherited). split_and!; [done|exact Hop| |].
    + cbn [propval set_propval]. rewrite (local_kid p x Hbp Hp).
      pose proof (Hlen p op0 Hbp Hop0) as Hlp.
      replace (ndefs d0 x + local_cells p - ndefs d0 x)%nat with (local_cells p) by lia.
      rewrite copy_Ok.
      * f_equal. rewrite drop_app_ge by (rewrite length_take; lia).
        rewrite length_take, Nat.min_l by lia. rewrite Nat.sub_diag, drop_0.
        rewrite take_app_le by (rewrite length_fmap, length_inherited; lia).
        rewrite take_ge; [done|]. by rewrite length_fmap, length_inherited.
      * rewrite !length_app, length_take, length_fmap, length_inherited. lia.
    + intros o. rewrite <- list_fmap_compose. apply list_fmap_ext.
      intros i pv _. apply chown_clear_chown.
Qed.

Lemma fix_one_visit : visit_ok F (fix_one old new common) d0 root
  (fun y => (local_cells y - ndefs d0 y)%nat) fixed.
Proof.
  intros x d Hx Hf Hw Hos Hsame Hdone.
  destruct (below_valid F HF root x Hx) as [Hxv _].
  destruct (proj2 (represents_dom family _ F Hr0 x) Hxv) as [o Ho].
  pose proof (framed_family F d0 d Hf Hr0) as Hr. pose proof (framed_table d0 d Hf Ht0) as Ht.
  rewrite Ho in Hsame. unfold fix_one. rewrite (find_object_eq d x Ht), Hsame.
  cbn [deref mbind res_bind].
  destruct (store_propval d x o Ht Hw Hsame) as (d1 & -> & _ & _ & _ & Hstore).
  cbn [mbind res_bind].
  assert (Hnd : cur_length (propdefs o) = ndefs d0 x) by (unfold ndefs; by rewrite Ho).
  pose proof (local_ndefs x Hx) as Hle. rewrite Hnd.
  replace (local_cells x - ndefs d0 x + ndefs d0 x)%nat with (local_cells x) by lia.
  pose proof (Hlen x o Hx Ho) as Hlo.
  rewrite (copy_Ok (propval o) (local_cells x) old) by lia. cbn [mbind res_bind].
  destruct (Hstore (take (local_cells x) (propval o) ++
                      ((fun pv => chown o (clear_pval pv)) <$> inherited) ++
                      drop (local_cells x + old) (propval o))) as (d2 & H2 & Hf2 & Hw2 & Ho2).
  exists d2. eexists. split; [|split_and!; [by etrans|done|exact Ho2|by exists o]].
  rewrite <- H2. case_decide as Hz.
  - do 2 f_equal. assert (Hi : inherited = []).
    { apply nil_length_inv. rewrite length_inherited. lia. }
    rewrite Hi. cbn. rewrite drop_ge by lia.
    replace (local_cells x) with 0%nat by lia. done.
  - rewrite copy_prefix by lia. cbn [mbind res_bind].
    rewrite (copy_suffix (propval o) (local_cells x + old)) by lia.
    case_decide as Hn.
    + assert (Hi : inherited = []) by (apply nil_length_inv; by rewrite length_inherited).
      rewrite Hi. done.
    + destruct (theirs_Ok x d Hx Hf Hos Hdone Hn) as (p & op & theirs & Hp & Hop & Hcopy & Heq).
      assert (Hpar : parent o = p).
      { destruct (Hr0 x) as (Hu & _). unfold ups in Hu. rewrite Ho, Hp in Hu. by injection Hu. }
      rewrite Hpar, (find_object_eq d p Ht), Hop. cbn [deref mbind res_bind].
      rewrite Hcopy. cbn [mbind res_bind]. by rewrite Heq.
Qed.

Lemma fix_props_Ok : wf_wpds d0 ->
  exists d, fix_props root 0 old new common d0 = Ok d /\ walked F d0 root fixed d.
Proof.
  intros Hw. unfold fix_props.
  pose proof (walked_of_walk F HF d0 Hr0 Ht0 root (ex_intro _ q Hroot) (fix_one old new common)
    (fun o _ parent_local => (parent_local + cur_length (propdefs o))%nat)
    (fun y => (local_cells y - ndefs d0 y)%nat) fixed Hw fix_one_visit) as H.
  cbn beta in H. rewrite local_root, Nat.sub_diag in H. apply H.
  intros x c ks o oc Hx Hk Hc Hso _. apply (wf_kids F HF x ks Hk) in Hc.
  rewrite (local_kid x c Hx Hc), (kid_ndefs d0 x o Hso). pose proof (local_ndefs x Hx). lia.
Qed.

End fix_props.
