(* ===== verification/Tables.v ===== *)
(** * What the operations on properties promise (src/db_properties.c, src/db.h)

    Abstractly every object has a table: for each definition on the way to its root, a
    cell with a value, an owner and permissions.  The theorems say that the operations of
    db_properties.c, which shuffle arrays, do the obvious thing to these tables. *)

From S2P Require Import Prelude CStrings Values Lists Links Db Properties Layout.

Open Scope Z_scope.

(** ** Schemas and tables *)

(** A definition is known by its definer. *)
Abbreviation key := (Z * Propdef)%type.

Definition defs_of (o : Object) : list key := pair (id o) <$> l (propdefs o).

Definition schema (d : db) (x : Z) : list key :=
  match ancestry d x with Ok os => os ≫= defs_of | Fail _ => [] end.

Definition table (d : db) (x : Z) : list (key * Pval) :=
  zip (schema d x) (from_option propval [] (objects d !! x)).

(** The name of a definition, up to case. *)
Definition folded (k : key) : list Z := fold_case (pd_name (snd k)).

(** What holds of every definition: the hash is the name's, and no built-in property is
    shadowed. *)
Record def_ok (p : Propdef) : Prop := {
  def_name : nul_free (pd_name p);
  def_hash : pd_hash p = str_hash (pd_name p);
  def_builtin : find_builtin (pd_name p) = None }.

Record wf_props (F : forest) (d : db) : Prop := {
  wp_forest : wf_forest F;
  wp_family : represents family (objects d) F;
  wp_table : wf_table d;
  wp_waif : wf_wpds d;
  wp_cells x o : objects d !! x = Some o -> length (propval o) = length (schema d x);
  wp_def x o p : objects d !! x = Some o -> p ∈ l (propdefs o) -> def_ok p;
  wp_unique x : NoDup (folded <$> schema d x);
  wp_capacity x o : objects d !! x = Some o ->
    Z.of_nat (cur_length (propdefs o)) <= max_length (propdefs o);
  wp_clear x o n pv : objects d !! x = Some o -> propval o !! n = Some pv ->
    (n < cur_length (propdefs o))%nat -> p_var pv <> Clear }.

(** The value that an object has for a definition: its own, or what its parent has. *)
Inductive value_of (d : db) : Z -> key -> Var -> Prop :=
  | value_own x k pv : (k, pv) ∈ table d x -> p_var pv <> Clear -> value_of d x k (p_var pv)
  | value_inherited x o k pv v : objects d !! x = Some o -> (k, pv) ∈ table d x ->
      p_var pv = Clear -> value_of d (parent o) k v -> value_of d x k v.

(** No object at, above or below [oid] defines the name, and it is not a built-in one. *)
Definition fresh (F : forest) (d : db) (oid : Z) (pname : cstr) : Prop :=
  find_builtin pname = None /\
  forall y k, below F oid y -> k ∈ schema d y -> ~ ci_eq (pd_name (snd k)) pname.

(** Nothing but the definitions, the cells and the waif tables changes. *)
Definition bones (o : Object) : Object := set_propdefs (mkProplist 0 []) (skeleton o).
Definition same_bones (d d' : db) : Prop :=
  with_wpds ∅ (with_objects ∅ d) = with_wpds ∅ (with_objects ∅ d') /\
  forall y, bones <$> objects d' !! y = bones <$> objects d !! y.

(** ** Schemas *)

Lemma schema_eq F d x ls : represents family (objects d) F -> wf_table d ->
  lineage F x ls -> exists os, ancestry d x = Ok os /\ schema d x = os ≫= defs_of /\
    Forall2 (fun y o => objects d !! y = Some o) ls os.
Proof.
  intros Hr Ht Hl. destruct (ancestry_Ok d F Hr Ht x ls Hl) as (os & Ho & Hos).
  exists os. unfold schema. by rewrite Ho.
Qed.

(** The part of a schema that comes from some objects. *)
Definition along (d : db) (ls : list Z) : list key :=
  ls ≫= fun y => from_option defs_of [] (objects d !! y).

Lemma along_app d l1 l2 : along d (l1 ++ l2) = along d l1 ++ along d l2.
Proof. apply bind_app. Qed.

Lemma along_cons d y ls : along d (y :: ls) = from_option defs_of [] (objects d !! y) ++ along d ls.
Proof. done. Qed.

Lemma length_along d ls : length (along d ls) = width d ls.
Proof.
  induction ls as [|y ls IH]; [done|]. rewrite along_cons, length_app, IH.
  unfold width. cbn. f_equal. unfold ndefs, cur_length.
  destruct (objects d !! y) as [o|]; [|done]. cbn. unfold defs_of. by rewrite length_fmap.
Qed.

Lemma schema_along F d x ls : represents family (objects d) F -> wf_table d ->
  lineage F x ls -> schema d x = along d ls.
Proof.
  intros Hr Ht Hl. destruct (schema_eq F d x ls Hr Ht Hl) as (os & _ & -> & Hos).
  clear Hl. induction Hos as [|y o ls os Ho _ IH]; [done|].
  rewrite along_cons, Ho. cbn. by rewrite <- IH.
Qed.

Lemma length_schema F d x : wf_forest F -> represents family (objects d) F -> wf_table d ->
  is_Some (par F !! x) -> length (schema d x) = total d x.
Proof.
  intros HF Hr Ht Hx. destruct (wf_acyclic F HF x Hx) as [ls Hl].
  rewrite (schema_along F d x ls Hr Ht Hl), length_along. symmetry. by apply (total_eq d F).
Qed.

Lemma defs_of_bones o o' : skeleton o = skeleton o' -> defs_of o = defs_of o'.
Proof. intros H. apply (f_equal defs_of) in H. exact H. Qed.

Lemma framed_along d0 d ls : framed d0 d -> along d ls = along d0 ls.
Proof.
  intros Hf. unfold along. apply list_bind_ext; [|done]. intros y.
  pose proof (framed_field defs_of d0 d y (fun _ => eq_refl) Hf) as H.
  destruct (objects d !! y), (objects d0 !! y); cbn in *; congruence.
Qed.

Lemma schema_invalid F d x : represents family (objects d) F -> wf_table d ->
  par F !! x = None -> schema d x = [].
Proof.
  intros Hr Ht Hx. unfold schema, ancestry.
  assert (Hn : dbpriv_find_object d x = None).
  { rewrite find_object_eq by done. destruct (objects d !! x) eqn:E; [|done].
    assert (is_Some (par F !! x)) as H by (apply (represents_dom family _ F Hr); eauto).
    rewrite Hx in H. by destruct H. }
  destruct (size (objects d)); cbn [ancestry_from]; by rewrite Hn.
Qed.

Lemma framed_schema F d0 d x : framed d0 d -> wf_forest F -> represents family (objects d0) F ->
  wf_table d0 -> schema d x = schema d0 x.
Proof.
  intros Hf HF Hr Ht. pose proof (framed_family F d0 d Hf Hr). pose proof (framed_table d0 d Hf Ht).
  destruct (par F !! x) as [p|] eqn:Hx.
  - destruct (wf_acyclic F HF x) as [ls Hl]; [eauto|].
    rewrite (schema_along F d x ls), (schema_along F d0 x ls) by done. by apply framed_along.
  - by rewrite (schema_invalid F d x), (schema_invalid F d0 x).
Qed.

(** ** Names *)

Lemma same_prop_spec pname p : def_ok p -> nul_free pname ->
  same_prop pname (str_hash pname) p = true <-> ci_eq (pd_name p) pname.
Proof.
  intros [Hn Hh _] Hp. unfold same_prop. rewrite andb_true_iff, !Z.eqb_eq.
  rewrite mystrcasecmp_zero by done. split; [tauto|]. intros H. split; [|done].
  by rewrite Hh, H.
Qed.

(** ** Looking names up *)

Lemma find_def_spec pname h ps n : find_def pname h ps n =
  match list_find (fun p => same_prop pname h p = true) ps with
  | Some (i, _) => inl (n + i)%nat
  | None => inr (n + length ps)%nat
  end.
Proof.
  revert n. induction ps as [|p ps IH]; intros n; cbn [find_def list_find].
  - cbn. by rewrite Nat.add_0_r.
  - change (_ && _) with (same_prop pname h p). destruct (same_prop pname h p) eqn:E.
    + rewrite decide_True by done. by rewrite Nat.add_0_r.
    + rewrite decide_False by congruence. rewrite IH. cbn [length].
      destruct (list_find _ ps) as [[i q]|]; cbn; f_equal; lia.
Qed.

Lemma list_find_fmap_pair {A B} (P : B -> Prop) `{!forall b, Decision (P b)} (a : A) (ps : list B) :
  list_find (fun k => P (snd k)) (pair a <$> ps) =
  (fun '(i, p) => (i, (a, p))) <$> list_find P ps.
Proof.
  induction ps as [|p ps IH]; [done|]. cbn. case_decide; [done|]. rewrite IH.
  by destruct (list_find P ps) as [[i q]|].
Qed.

Lemma find_in_ancestry_spec pname h os n : find_in_ancestry pname h os n =
  (fun '(i, k) => (fst k, (n + i)%nat)) <$>
    list_find (fun k : key => same_prop pname h (snd k) = true) (os ≫= defs_of).
Proof.
  revert n. induction os as [|o os IH]; intros n; [done|]. cbn [find_in_ancestry].
  rewrite find_def_spec. change (mbind defs_of (o :: os)) with (defs_of o ++ os ≫= defs_of).
  unfold defs_of at 1.
  pose proof (list_find_fmap_pair (fun p => same_prop pname h p = true) (id o) (l (propdefs o))) as Hl.
  destruct (list_find (fun p => same_prop pname h p = true) (l (propdefs o))) as [[i p]|] eqn:E.
  - cbn in Hl. by rewrite (list_find_app_l _ _ _ _ _ Hl).
  - cbn in Hl. rewrite (list_find_app_r _ _ _ Hl), IH, length_fmap.
    destruct (list_find _ (os ≫= defs_of)) as [[i k]|]; cbn; [|done]. do 2 f_equal. lia.
Qed.

Lemma schema_def_ok F d x k : wf_props F d -> k ∈ schema d x -> def_ok (snd k).
Proof.
  intros Hw Hk. destruct (par F !! x) as [p|] eqn:Hx.
  - destruct (wf_acyclic F (wp_forest _ _ Hw) x) as [ls Hl]; [eauto|].
    rewrite (schema_along F d x ls (wp_family _ _ Hw) (wp_table _ _ Hw) Hl) in Hk.
    apply list_elem_of_bind in Hk as (y & Hk & _).
    destruct (objects d !! y) as [o|] eqn:Ho; cbn in Hk; [|set_solver].
    apply list_elem_of_fmap in Hk as (q & -> & Hq). cbn. by eapply wp_def.
  - rewrite (schema_invalid F d x (wp_family _ _ Hw) (wp_table _ _ Hw) Hx) in Hk. set_solver.
Qed.

(** The search finds the definition of that name, if there is one. *)
Lemma find_handle_spec F d x pname : wf_props F d -> nul_free pname ->
  find_builtin pname = None -> is_Some (objects d !! x) ->
  exists h, find_property_handle d x pname = Ok h /\
    match h with
    | None => forall k, k ∈ schema d x -> ~ ci_eq (pd_name (snd k)) pname
    | Some (Slot def oid n) => oid = x /\ exists p, schema d x !! n = Some (def, p) /\
        ci_eq (pd_name p) pname
    | Some (BuiltIn _ _) => False
    end.
Proof.
  intros Hw Hn Hb Hx. pose proof (wp_family _ _ Hw) as Hr.
  apply (represents_dom family _ F Hr) in Hx.
  destruct (wf_acyclic F (wp_forest _ _ Hw) x Hx) as [ls Hl].
  destruct (schema_eq F d x ls Hr (wp_table _ _ Hw) Hl) as (os & Hos & Hs & _).
  unfold find_property_handle. rewrite Hb, Hos. cbn [mbind res_bind].
  rewrite find_in_ancestry_spec, <- Hs.
  destruct (list_find _ (schema d x)) as [[i [def p]]|] eqn:E; cbn.
  - apply list_find_Some in E as (Hi & Hp & _). eexists. split; [done|]. split; [done|].
    exists p. split; [done|]. cbn in Hp. apply same_prop_spec in Hp; [done| |done].
    apply (schema_def_ok F d x (def, p) Hw). by eapply list_elem_of_lookup_2.
  - eexists. split; [done|]. intros k Hk Hc. apply list_find_None in E.
    rewrite Forall_forall in E. apply (E k Hk). apply same_prop_spec; [|done|done].
    by apply (schema_def_ok F d x k).
Qed.

(** ** Values *)

Lemma table_lookup d x o n k pv : objects d !! x = Some o -> schema d x !! n = Some k ->
  propval o !! n = Some pv -> table d x !! n = Some (k, pv).
Proof. intros Ho Hk Hpv. unfold table. rewrite Ho. by rewrite lookup_zip_with, Hk; cbn; rewrite Hpv. Qed.

Lemma table_elem d x o n k pv : objects d !! x = Some o -> schema d x !! n = Some k ->
  propval o !! n = Some pv -> (k, pv) ∈ table d x.
Proof. intros Ho Hk Hpv. eapply list_elem_of_lookup_2, table_lookup; done. Qed.

Lemma schema_parent F d x o p : wf_props F d -> objects d !! x = Some o -> par F !! x = Some p ->
  parent o = p /\ schema d x = defs_of o ++ schema d p /\
  (schema d p <> [] -> is_Some (objects d !! p)).
Proof.
  intros Hw Ho Hp. pose proof (wp_family _ _ Hw) as Hr. pose proof (wp_forest _ _ Hw) as HF.
  destruct (lineage_cons F HF x p Hp) as (ls & Hl & Hlx). split_and!.
  - destruct (Hr x) as (Hu & _). unfold ups in Hu. rewrite Ho, Hp in Hu. by injection Hu.
  - rewrite (schema_along F d x (x :: ls)), (schema_along F d p ls) by (done || apply Hw).
    by rewrite along_cons, Ho.
  - intros Hs. apply (represents_dom family _ F Hr).
    destruct (par F !! p) as [q|] eqn:Hq; [eauto|].
    by rewrite (schema_invalid F d p Hr (wp_table _ _ Hw) Hq) in Hs.
Qed.

Lemma resolve_clear_Ok F d : wf_props F d -> forall ls x o n k fuel, lineage F x ls ->
  objects d !! x = Some o -> schema d x !! n = Some k -> (length ls < fuel)%nat ->
  exists v, resolve_clear fuel d o n = Ok v /\ value_of d x k v.
Proof.
  intros Hw. pose proof (wp_family _ _ Hw) as Hr. pose proof (wp_forest _ _ Hw) as HF.
  induction ls as [|y ls IH]; intros x o n k fuel Hl Ho Hk Hfuel.
  - unfold lineage in Hl. cbn in Hl. subst x.
    by rewrite (schema_invalid F d NOTHING Hr (wp_table _ _ Hw) (wf_nothing F HF)) in Hk.
  - unfold lineage in Hl. cbn in Hl. destruct Hl as (-> & _ & p & Hp & Hl).
    destruct fuel as [|fuel]; [lia|]. cbn [resolve_clear].
    destruct (schema_parent F d y o p Hw Ho Hp) as (Hpar & Hs & Hpv).
    destruct (lookup_lt_is_Some_2 (propval o) n) as [pv Hn].
    { rewrite (wp_cells _ _ Hw y o Ho). by eapply lookup_lt_Some. }
    rewrite Hn. cbn [deref mbind res_bind].
    pose proof (table_elem d y o n k pv Ho Hk Hn) as Ht.
    destruct (decide (p_var pv = Clear)) as [Hc|Hc].
    + rewrite Hc. destruct (decide (cur_length (propdefs o) <= n)%nat) as [Hle|Hlt].
      2:{ exfalso. apply (wp_clear _ _ Hw y o n pv Ho Hn); [lia|done]. }
      assert (Hdl : length (defs_of o) = cur_length (propdefs o)).
      { unfold defs_of. by rewrite length_fmap. }
      rewrite Hs, lookup_app_r, Hdl in Hk by lia.
      destruct Hpv as [op Hop]. { by intros E; rewrite E in Hk. }
      rewrite (find_object_eq d (parent o)), Hpar, Hop by apply Hw. cbn [deref mbind res_bind].
      destruct (IH p op (n - cur_length (propdefs o))%nat k fuel) as (v & Hv & Hval); try done.
      { cbn in Hfuel. lia. }
      exists v. split; [done|]. eapply value_inherited; [done|done|done|]. by rewrite Hpar.
    + exists (p_var pv). split; [|by apply value_own]. by destruct (p_var pv).
Qed.

Lemma table_functional F d x k pv1 pv2 : wf_props F d -> (k, pv1) ∈ table d x ->
  (k, pv2) ∈ table d x -> pv1 = pv2.
Proof.
  intros Hw (i & Hi)%list_elem_of_lookup_1 (j & Hj)%list_elem_of_lookup_1. unfold table in *.
  apply lookup_zip_with_Some in Hi as (k1 & v1 & [= <- <-] & Hk1 & Hv1).
  apply lookup_zip_with_Some in Hj as (k2 & v2 & [= <- <-] & Hk2 & Hv2).
  assert (i = j) as ->; [|congruence]. eapply (NoDup_lookup (folded <$> schema d x)).
  - by apply Hw.
  - by rewrite list_lookup_fmap, Hk1.
  - by rewrite list_lookup_fmap, Hk2.
Qed.

Lemma value_of_functional F d x k v1 v2 : wf_props F d -> value_of d x k v1 ->
  value_of d x k v2 -> v1 = v2.
Proof.
  intros Hw H1. revert v2. induction H1 as [x k pv Ht Hc|x o k pv v Ho Ht Hc Hv IH]; intros v2 H2.
  - inversion H2 as [x' k' pv' Ht' Hc'|x' o' k' pv' v' Ho' Ht' Hc' Hv']; subst;
      pose proof (table_functional F d x k _ _ Hw Ht Ht') as ->; done.
  - inversion H2 as [x' k' pv' Ht' Hc'|x' o' k' pv' v' Ho' Ht' Hc' Hv']; subst;
      pose proof (table_functional F d x k _ _ Hw Ht Ht') as ->; [done|].
    apply IH. congruence.
Qed.

(** ** Definitions at or below an object *)

Lemma any_res_Ok {A} (f : A -> res bool) (g : A -> Prop) xs :
  (forall x, x ∈ xs -> exists b, f x = Ok b /\ (b = true <-> g x)) ->
  exists b, any_res f xs = Ok b /\ (b = true <-> exists x, x ∈ xs /\ g x).
Proof.
  induction xs as [|x xs IH]; intros H; cbn [any_res].
  { exists false. split; [done|]. split; [done|]. intros (x & ? & _). set_solver. }
  destruct (H x) as (b & -> & Hb); [set_solver|]. cbn [mbind res_bind]. destruct b.
  - exists true. split; [done|]. split; [|done]. intros _. exists x. split; [set_solver|tauto].
  - destruct IH as (b & -> & Hb'); [intros; apply H; set_solver|]. exists b. split; [done|].
    rewrite Hb'. split; intros (y & Hy & Hg); exists y.
    + split; [set_solver|done].
    + split; [|done]. apply elem_of_cons in Hy as [->|]; [|done]. by apply Hb in Hg.
Qed.

(** The object [y] defines a property of that name. *)
Definition defines (d : db) (pname : cstr) (y : Z) : Prop :=
  exists o p, objects d !! y = Some o /\ p ∈ l (propdefs o) /\ ci_eq (pd_name p) pname.

Lemma defined_below_Ok F d pname : wf_props F d -> nul_free pname -> forall fuel x,
  is_Some (par F !! x) -> deep_enough F fuel x ->
  exists b, defined_below fuel d pname (str_hash pname) x = Ok b /\
    (b = true <-> exists y, below F x y /\ defines d pname y).
Proof.
  intros Hw Hn. pose proof (wp_family _ _ Hw) as Hr. pose proof (wp_forest _ _ Hw) as HF.
  induction fuel as [|fuel IH]; intros x Hx Hdeep.
  { destruct Hx as [q Hq]. destruct (lineage_cons F HF x q Hq) as (ls & _ & Hl).
    pose proof (Hdeep x [] ls Hl). cbn in *. lia. }
  destruct (proj2 (represents_dom family _ F Hr x) Hx) as [o Ho].
  cbn [defined_below]. rewrite (find_object_eq d x (wp_table _ _ Hw)), Ho.
  cbn [deref mbind res_bind].
  destruct (existsb _ (l (propdefs o))) eqn:E.
  - exists true. split; [done|]. split; [|done]. intros _. exists x.
    split; [by apply below_refl|]. apply existsb_exists in E as (p & Hp%list_elem_of_In & Hs).
    exists o, p. split_and!; [done..|]. apply same_prop_spec in Hs; [done| |done]. by eapply wp_def.
  - destruct (proj1 (wf_dom F HF x) Hx) as [ks Hks].
    destruct (Hr x) as (_ & Hkx & _). destruct (Hkx ks Hks) as (s & Hs & Hp).
    assert (child o = s) as ->. { unfold fsts in Hs. rewrite Ho in Hs. by injection Hs. }
    rewrite (ll_list_Ok family (objects d) s ks) by
      (try done; pose proof (path_objs_length family (objects d) s ks Hp); lia).
    cbn [mbind res_bind].
    destruct (any_res_Ok (defined_below fuel d pname (str_hash pname))
                (fun c => exists y, below F c y /\ defines d pname y) ks) as (b & Hb & Hiff).
    { intros c Hc. pose proof Hc as Hcp. apply (wf_kids F HF x ks Hks) in Hcp. apply IH; [eauto|].
      intros y l1 t Hly. pose proof (path_app _ _ _ _ _ Hly) as Hpc. cbn in Hpc.
      destruct Hpc as (_ & _ & m & Hm & Hpm). replace m with x in Hpm by congruence.
      destruct (lineage_self F HF x t Hx Hpm) as [t' ->].
      pose proof (Hdeep y (l1 ++ [c]) t') as H. rewrite <- app_assoc in H. specialize (H Hly).
      rewrite length_app in H. cbn in H. lia. }
    exists b. split; [done|]. rewrite Hiff. split.
    + intros (c & Hc & y & Hy & Hd). exists y. split; [|done]. by eapply below_kid.
    + intros (y & Hy & Hd). destruct (decide (y = x)) as [->|Hyx].
      * exfalso. destruct Hd as (o' & p & Ho' & Hpin & Hci). replace o' with o in Hpin by congruence.
        apply not_true_iff_false in E. apply E, existsb_exists. exists p.
        split; [by apply list_elem_of_In|]. apply same_prop_spec; [exact (wp_def F d Hw x o p Ho Hpin)|done|done].
      * destruct (below_inv F HF x ks y Hks Hy Hyx) as (c & Hc & Hcy). eauto.
Qed.

Lemma at_or_below_Ok F d pname x : wf_props F d -> nul_free pname -> is_Some (par F !! x) ->
  exists b, property_defined_at_or_below d pname (str_hash pname) x = Ok b /\
    (b = true <-> exists y, below F x y /\ defines d pname y).
Proof.
  intros Hw Hn Hx. apply (defined_below_Ok F); [done..|].
  apply (deep_enough_size d F); [apply Hw|done].
Qed.

(** ** Changing the definitions of one object *)

Lemma lineage_split F oid y l1 l2 : lineage F y (l1 ++ oid :: l2) -> oid ∉ l1 /\ oid ∉ l2.
Proof.
  intros Hl. pose proof (path_NoDup _ _ _ Hl) as (_ & Hd & Hn)%NoDup_app.
  apply NoDup_cons in Hn as [Hn _]. split; [|done]. intros H. apply (Hd oid H). set_solver.
Qed.

Section redefine.
Context (F : forest) (d : db) (Hw : wf_props F d) (oid : Z) (o : Object) (p' : Proplist).
Context (Ho : objects d !! oid = Some o).

Definition redefined : db := with_objects (<[oid := set_propdefs p' o]> (objects d)) d.

Lemma redefined_lookup y : objects redefined !! y =
  (if decide (y = oid) then set_propdefs p' else fun o => o) <$> objects d !! y.
Proof.
  unfold redefined. cbn. case_decide as H.
  - subst. by rewrite lookup_insert_eq, Ho.
  - rewrite lookup_insert_ne by done. by destruct (objects d !! y).
Qed.

Lemma redefined_field {B} (f : Object -> B) y : f (set_propdefs p' o) = f o ->
  f <$> objects redefined !! y = f <$> objects d !! y.
Proof.
  intros Hf. rewrite redefined_lookup. case_decide as H.
  - subst. rewrite Ho. cbn. by rewrite Hf.
  - by destruct (objects d !! y).
Qed.

Lemma redefined_family : represents family (objects redefined) F.
Proof.
  intros x. destruct (wp_family _ _ Hw x) as (H1 & H2 & H3). unfold ups, fsts, nxts in *.
  rewrite !redefined_field by done. split; [done|]. split; [|done].
  intros ls Hls. destruct (H2 ls Hls) as (s & Hs & Hp). exists s. split; [done|].
  eapply path_ext; [|done]. intros y _. by apply redefined_field.
Qed.

Lemma redefined_table : wf_table redefined.
Proof.
  destruct (wp_table _ _ Hw) as [Hr Hi Hc]. split; cbn; [| |done]; intros x ox;
    (destruct (decide (x = oid)) as [->|]; [rewrite lookup_insert_eq; intros [= <-]|
      rewrite lookup_insert_ne by done; eauto]); [by eapply Hr|by apply Hi in Ho].
Qed.

Lemma redefined_waif : wf_wpds redefined.
Proof.
  destruct (wp_waif _ _ Hw) as [Hv Hs]. split.
  - intros x ox p Hx Hp. rewrite redefined_lookup in Hx. apply fmap_Some in Hx as (ox0 & Hx & ->).
    apply (Hv x ox0 p Hx). by case_decide.
  - intros x y ox oy p Hx Hy Hpx Hpy. rewrite redefined_lookup in Hx, Hy.
    apply fmap_Some in Hx as (ox0 & Hx & ->), Hy as (oy0 & Hy & ->).
    apply (Hs x y ox0 oy0 p Hx Hy); by repeat case_decide.
Qed.

Lemma along_redefined ls : oid ∉ ls -> along redefined ls = along d ls.
Proof.
  intros Hn. induction ls as [|y ls IH]; [done|]. rewrite !along_cons, IH by set_solver.
  rewrite redefined_lookup, decide_False by set_solver. by destruct (objects d !! y).
Qed.

Lemma schema_redefined y l1 l2 : lineage F y (l1 ++ oid :: l2) ->
  schema d y = along d l1 ++ (pair oid <$> l (propdefs o)) ++ along d l2 /\
  schema redefined y = along d l1 ++ (pair oid <$> l p') ++ along d l2.
Proof.
  intros Hl. destruct (lineage_split F oid y l1 l2 Hl) as [H1 H2].
  pose proof (wf_id d (wp_table _ _ Hw) oid o Ho) as Hid.
  rewrite (schema_along F d y _ (wp_family _ _ Hw) (wp_table _ _ Hw) Hl).
  rewrite (schema_along F redefined y _ redefined_family redefined_table Hl).
  rewrite !along_app, !along_cons, !(along_redefined _) by done.
  rewrite redefined_lookup, decide_True, Ho by done. cbn. unfold defs_of. cbn. by rewrite Hid.
Qed.

Lemma schema_redefined_other y : ~ below F oid y -> schema redefined y = schema d y.
Proof.
  intros Hb. destruct (par F !! y) as [p|] eqn:Hy.
  - destruct (wf_acyclic F (wp_forest _ _ Hw) y) as [ls Hl]; [eauto|].
    rewrite (schema_along F d y _ (wp_family _ _ Hw) (wp_table _ _ Hw) Hl).
    rewrite (schema_along F redefined y _ redefined_family redefined_table Hl).
    apply along_redefined. intros H. apply Hb. by exists ls.
  - rewrite (schema_invalid F d y (wp_family _ _ Hw) (wp_table _ _ Hw) Hy).
    by rewrite (schema_invalid F redefined y redefined_family redefined_table Hy).
Qed.

Lemma total_redefined y : is_Some (par F !! y) -> total redefined y = length (schema redefined y).
Proof.
  intros Hy. symmetry. apply (length_schema F); [apply Hw|apply redefined_family|apply redefined_table|done].
Qed.

(** Where the cells of the definitions of [oid] start. *)
Lemma cell_index_redefined pos y l1 l2 : lineage F y (l1 ++ oid :: l2) ->
  cell_index redefined oid pos y = (length (along d l1) + pos)%nat.
Proof.
  intros Hl. destruct (lineage_split F oid y l1 l2 Hl) as [H1 _]. unfold cell_index.
  rewrite (total_below redefined F redefined_family redefined_table oid y l1 l2 Hl).
  rewrite <- length_along, along_redefined by done. lia.
Qed.

(** What a walk over the subtree leaves of the invariant. *)
Lemma walked_bones Done d' : walked F redefined oid Done d' -> same_bones d d'.
Proof.
  intros (Hf & _). split; [apply Hf|]. intros y.
  assert (H : bones <$> objects d' !! y = bones <$> objects redefined !! y).
  { by apply framed_field. }
  rewrite H, redefined_lookup. case_decide; [|by destruct (objects d !! y)].
  subst. by rewrite Ho.
Qed.

End redefine.

(** ** After a walk *)

Lemma below_or_not F oid x : wf_forest F -> below F oid x \/ ~ below F oid x.
Proof.
  intros HF. destruct (par F !! x) as [q|] eqn:Hx.
  - destruct (wf_acyclic F HF x) as [ls Hl]; [eauto|].
    destruct (decide (oid ∈ ls)) as [Hi|Hi]; [left; by exists ls|right].
    intros (ls' & Hl' & Hi'). by rewrite (path_functional _ _ _ _ Hl' Hl) in Hi'.
  - right. intros [[? Hb] _]%(below_valid F HF). congruence.
Qed.

(** The array of an object fits its schema, and its own properties have values. *)
Definition cells_ok (d : db) (x : Z) (o : Object) : Prop :=
  length (propval o) = length (schema d x) /\
  forall n pv, propval o !! n = Some pv -> (n < ndefs d x)%nat -> p_var pv <> Clear.

Lemma wf_cells_ok F d x o : wf_props F d -> objects d !! x = Some o -> cells_ok d x o.
Proof.
  intros Hw Ho. split; [by apply Hw|]. intros n pv Hn. unfold ndefs. rewrite Ho. cbn. by eapply wp_clear.
Qed.

(** The definitions are well-formed, whatever the arrays hold. *)
Record wf_defs (F : forest) (d : db) : Prop := {
  wd_forest : wf_forest F;
  wd_family : represents family (objects d) F;
  wd_table : wf_table d;
  wd_def x o p : objects d !! x = Some o -> p ∈ l (propdefs o) -> def_ok p;
  wd_unique x : NoDup (folded <$> schema d x);
  wd_capacity x o : objects d !! x = Some o ->
    Z.of_nat (cur_length (propdefs o)) <= max_length (propdefs o) }.

Lemma walked_wf F d0 oid Done d' : wf_defs F d0 -> walked F d0 oid Done d' ->
  (forall x o, objects d0 !! x = Some o -> ~ below F oid x -> cells_ok d0 x o) ->
  (forall x o, below F oid x -> Done x o -> cells_ok d0 x o) ->
  wf_props F d' /\ forall x, schema d' x = schema d0 x.
Proof.
  intros [HF Hr Ht Hdef Hun Hcap] (Hf & Hwp & Hout & Hin) Hco Hci.
  assert (Hs : forall x, schema d' x = schema d0 x) by (intros x; by apply (framed_schema F)).
  assert (Hold : forall x o, objects d' !! x = Some o -> exists o0, objects d0 !! x = Some o0 /\
            propdefs o = propdefs o0).
  { intros x o Ho. destruct (framed_lookup d0 d' x o Hf Ho) as (o0 & Ho0 & Hsk).
    exists o0. split; [done|]. apply (f_equal propdefs) in Hsk. exact Hsk. }
  assert (Hc : forall x o, objects d' !! x = Some o -> cells_ok d0 x o).
  { intros x o Ho. destruct (below_or_not F oid x HF) as [Hb|Hb]; [by apply Hci, Hin|]. apply Hco; [|done]. by rewrite <- Hout. }
  split; [|done]. split.
  - done.
  - by eapply framed_family.
  - by eapply framed_table.
  - done.
  - intros x o Ho. rewrite Hs. by apply Hc.
  - intros x o p Ho Hp. destruct (Hold x o Ho) as (o0 & Ho0 & He). rewrite He in Hp. by eapply Hdef.
  - intros x. rewrite Hs. apply Hun.
  - intros x o Ho. destruct (Hold x o Ho) as (o0 & Ho0 & He). rewrite He. by eapply Hcap.
  - intros x o n pv Ho Hn Hlt. destruct (Hc x o Ho) as [_ H]. eapply H; [done|].
    destruct (Hold x o Ho) as (o0 & Ho0 & He). unfold ndefs. rewrite Ho0. cbn. by rewrite <- He.
Qed.

(** *** Tables as lists with a cell more or less *)

Lemma elem_insert_at {A} i (x y : A) xs : y ∈ insert_at i x xs <-> y = x \/ y ∈ xs.
Proof.
  unfold insert_at. rewrite elem_of_app, elem_of_cons. rewrite <- (take_drop i xs) at 3.
  rewrite elem_of_app. tauto.
Qed.

Lemma length_insert_at {A} i (x : A) xs : length (insert_at i x xs) = S (length xs).
Proof.
  unfold insert_at. rewrite length_app. cbn. rewrite length_take, length_drop. lia.
Qed.

Lemma insert_at_lookup {A} i (x : A) xs n : (i <= length xs)%nat ->
  insert_at i x xs !! n = if decide (n < i)%nat then xs !! n
                          else if decide (n = i) then Some x else xs !! (n - 1)%nat.
Proof.
  intros Hi. unfold insert_at. destruct (decide (n < i)%nat).
  - rewrite lookup_app_l by (rewrite length_take; lia). by apply lookup_take_lt.
  - rewrite lookup_app_r, length_take, Nat.min_l by (rewrite ?length_take; lia).
    destruct (decide (n = i)) as [->|]; [by rewrite Nat.sub_diag|].
    destruct (n - i)%nat as [|m] eqn:E; [lia|]. trans (drop i xs !! m); [done|].
    rewrite lookup_drop. f_equal. lia.
Qed.

Lemma zip_insert_at {A B} i (a : A) (b : B) xs ys : length xs = length ys ->
  (i <= length xs)%nat -> zip (insert_at i a xs) (insert_at i b ys) = insert_at i (a, b) (zip xs ys).
Proof.
  intros Hl Hi. unfold insert_at. rewrite zip_with_app by (rewrite !length_take; lia). cbn.
  by rewrite zip_with_take, zip_with_drop.
Qed.

Lemma remove_at_lookup {A} i (xs : list A) n : (i <= length xs)%nat ->
  remove_at i xs !! n = if decide (n < i)%nat then xs !! n else xs !! (S n).
Proof.
  intros Hi. unfold remove_at. case_decide.
  - rewrite lookup_app_l by (rewrite length_take; lia). by apply lookup_take_lt.
  - rewrite lookup_app_r, length_take, Nat.min_l by (rewrite ?length_take; lia).
    rewrite lookup_drop. f_equal. lia.
Qed.

Lemma length_remove_at {A} i (xs : list A) : (i < length xs)%nat ->
  S (length (remove_at i xs)) = length xs.
Proof.
  intros Hi. unfold remove_at. rewrite length_app, length_take, length_drop. lia.
Qed.

Lemma zip_remove_at {A B} i (xs : list A) (ys : list B) : length xs = length ys ->
  zip (remove_at i xs) (remove_at i ys) = remove_at i (zip xs ys).
Proof.
  intros Hl. unfold remove_at. rewrite zip_with_app by (rewrite !length_take; lia).
  by rewrite zip_with_take, zip_with_drop.
Qed.

Lemma elem_remove_at {A} i (x y : A) xs : NoDup xs -> xs !! i = Some x ->
  y ∈ remove_at i xs <-> y ∈ xs /\ y <> x.
Proof.
  intros Hn Hx. pose proof (take_drop_middle xs i x Hx) as He. rewrite <- He in Hn |- * at 2.
  apply NoDup_app in Hn as (_ & Hd & (Hnx & _)%NoDup_cons). unfold remove_at.
  rewrite !elem_of_app, elem_of_cons. specialize (Hd x). split.
  - intros [H|H]; (split; [tauto|]); intros ->; [|done]. apply Hd; [done|set_solver].
  - tauto.
Qed.

Lemma remove_at_sublist {A} i (xs : list A) : remove_at i xs `sublist_of` xs.
Proof. unfold remove_at. rewrite <- delete_take_drop. apply sublist_delete. Qed.

Lemma elem_remove_at_in {A} i (x : A) xs : x ∈ remove_at i xs -> x ∈ xs.
Proof. intros H. eapply elem_of_submseteq; [done|]. apply sublist_submseteq, remove_at_sublist. Qed.

Lemma below_split F oid y : below F oid y -> exists l1 l2, lineage F y (l1 ++ oid :: l2).
Proof. intros (ls & Hl & Hi). destruct (list_elem_of_split ls oid Hi) as (l1 & l2 & ->). eauto. Qed.

(** What is on the way to [oid] is below it. *)
Lemma elem_below F oid y l1 l2 z : lineage F y (l1 ++ oid :: l2) -> z ∈ l1 ++ [oid] ->
  below F oid z.
Proof.
  intros Hl [Hz| ->%list_elem_of_singleton]%elem_of_app.
  - destruct (list_elem_of_split _ z Hz) as (a & b & ->). rewrite <- app_assoc in Hl.
    exists (z :: b ++ oid :: l2). split; [exact (path_app _ _ _ _ _ Hl)|].
    rewrite elem_of_cons, elem_of_app, elem_of_cons. tauto.
  - exists (oid :: l2). split; [exact (path_app _ _ _ _ _ Hl)|apply list_elem_of_here].
Qed.


(** Paths from an object to itself are empty. *)
Lemma lineage_self_split F oid l1 l2 : lineage F oid (l1 ++ oid :: l2) -> l1 = [].
Proof.
  intros Hl. destruct l1 as [|z l1]; [done|]. pose proof (lineage_split F oid oid _ _ Hl) as [Hni _].
  unfold lineage in Hl. cbn in Hl. destruct Hl as (-> & _). set_solver.
Qed.

Lemma valid_par F d x o : wf_props F d -> objects d !! x = Some o -> is_Some (par F !! x).
Proof. intros Hw Ho. apply (represents_dom family _ F (wp_family _ _ Hw)). eauto. Qed.

(** *** Names in a schema *)

Lemma schema_name_inj F d x k1 k2 : wf_props F d -> k1 ∈ schema d x -> k2 ∈ schema d x ->
  folded k1 = folded k2 -> k1 = k2.
Proof.
  intros Hw (i & Hi)%list_elem_of_lookup_1 (j & Hj)%list_elem_of_lookup_1 Hf.
  assert (i = j) as ->; [|congruence]. eapply (NoDup_lookup (folded <$> schema d x)).
  - by apply Hw.
  - by rewrite list_lookup_fmap, Hi.
  - rewrite list_lookup_fmap, Hj. cbn. by rewrite Hf.
Qed.

Lemma table_NoDup F d x : wf_props F d -> NoDup (table d x).
Proof.
  intros Hw. apply NoDup_alt. intros i j [k pv] Hi Hj. unfold table in *.
  apply lookup_zip_with_Some in Hi as (k1 & v1 & [= <- <-] & Hk1 & _).
  apply lookup_zip_with_Some in Hj as (k2 & v2 & [= <- <-] & Hk2 & _).
  eapply (NoDup_lookup (folded <$> schema d x)).
  - by apply Hw.
  - by rewrite list_lookup_fmap, Hk1.
  - by rewrite list_lookup_fmap, Hk2.
Qed.

Lemma table_schema d x k pv : (k, pv) ∈ table d x -> k ∈ schema d x.
Proof.
  intros (i & Hi)%list_elem_of_lookup_1. unfold table in Hi.
  apply lookup_zip_with_Some in Hi as (k1 & v1 & [= <- <-] & Hk1 & _).
  by eapply list_elem_of_lookup_2.
Qed.

(** *** What redefining one object preserves *)

Section redefined_wf.
Context (F : forest) (d : db) (Hw : wf_props F d) (oid : Z) (o : Object) (p' : Proplist).
Context (Ho : objects d !! oid = Some o).
Let d1 := redefined d oid o p'.

Lemma redefined_defs : (forall p, p ∈ l p' -> def_ok p) ->
  Z.of_nat (cur_length p') <= max_length p' ->
  (forall x l1 l2, lineage F x (l1 ++ oid :: l2) -> NoDup (folded <$> schema d1 x)) ->
  wf_defs F d1.
Proof.
  intros Hp' Hcap Hnd. split.
  - apply Hw.
  - by apply redefined_family.
  - by eapply redefined_table.
  - intros x ox p Hx Hp. unfold d1 in Hx. rewrite redefined_lookup in Hx by done.
    apply fmap_Some in Hx as (ox0 & Hx & ->). case_decide as Hxo; [by apply Hp'|].
    exact (wp_def F d Hw x ox0 p Hx Hp).
  - intros x. destruct (below_or_not F oid x (wp_forest _ _ Hw)) as [Hb|Hb].
    + destruct (below_split F oid x Hb) as (l1 & l2 & Hl). by eapply Hnd.
    + unfold d1. rewrite (schema_redefined_other F d) by done. by apply Hw.
  - intros x ox Hx. unfold d1 in Hx. rewrite redefined_lookup in Hx by done.
    apply fmap_Some in Hx as (ox0 & Hx & ->). case_decide; [done|]. by eapply wp_capacity.
Qed.

Lemma not_below_neq y : ~ below F oid y -> y <> oid.
Proof. intros Hy ->. apply Hy, below_refl; [apply Hw|by eapply valid_par]. Qed.

Lemma redefined_cells_other x ox : objects d1 !! x = Some ox -> ~ below F oid x ->
  cells_ok d1 x ox.
Proof.
  intros Hx Hb. unfold d1 in Hx. rewrite redefined_lookup in Hx by done.
  apply fmap_Some in Hx as (o0 & Hx & ->). pose proof (not_below_neq x Hb) as Hne.
  rewrite decide_False by done. destruct (wf_cells_ok F d x o0 Hw Hx) as [H1 H2]. split.
  - rewrite H1. unfold d1. by rewrite (schema_redefined_other F d).
  - intros n pv' Hpv' Hlt. eapply H2; [done|]. unfold ndefs, d1 in *.
    rewrite redefined_lookup, decide_False, Hx in Hlt by done. by rewrite Hx.
Qed.

Lemma ndefs_redefined y l1 l2 : lineage F y (l1 ++ oid :: l2) -> y <> oid ->
  (ndefs d1 y <= length (along d l1))%nat /\ ndefs d1 y = ndefs d y.
Proof.
  intros Hl Hy. destruct l1 as [|z l1].
  - unfold lineage in Hl. cbn in Hl. by destruct Hl as [-> _].
  - pose proof (lineage_split F oid y _ _ Hl) as [Hni _].
    unfold lineage in Hl. cbn in Hl. destruct Hl as (-> & _). split.
    + rewrite <- (along_redefined F d Hw oid o p' Ho) by done.
      rewrite length_along. fold d1. unfold width. cbn. lia.
    + unfold ndefs, d1. rewrite redefined_lookup, decide_False by done. by destruct (objects d !! z).
Qed.

Lemma walked_other Done d' y : walked F d1 oid Done d' -> ~ below F oid y ->
  objects d' !! y = objects d !! y.
Proof.
  intros (_ & _ & Hout & _) Hy. rewrite Hout by done. unfold d1.
  rewrite redefined_lookup, decide_False by (done || by apply not_below_neq).
  by destruct (objects d !! y).
Qed.

Lemma walked_own_defs Done d' o' : walked F d1 oid Done d' -> objects d' !! oid = Some o' ->
  propdefs o' = p'.
Proof.
  intros (Hf & _) Ho'. destruct (framed_lookup d1 d' oid o' Hf Ho') as (o1 & Ho1 & Hsk).
  apply (f_equal propdefs) in Hsk. cbn in Hsk. rewrite Hsk.
  unfold d1 in Ho1. rewrite redefined_lookup, decide_True, Ho in Ho1 by done. by injection Ho1 as <-.
Qed.

(** An object of the subtree before and after. *)
Lemma walked_below Done d' y : walked F d1 oid Done d' -> wf_props F d' -> below F oid y ->
  exists o' oy, objects d' !! y = Some o' /\ objects d !! y = Some oy /\ Done y o' /\
    forall o1, objects d1 !! y = Some o1 ->
      propval o1 = propval oy /\ (forall pv, chown o1 pv = chown oy pv).
Proof.
  intros (_ & _ & _ & Hin) Hwf Hb. destruct (below_valid F (wp_forest _ _ Hw) oid y Hb) as [Hv _].
  destruct (proj2 (represents_dom family _ F (wp_family _ _ Hwf) y) Hv) as [o' Ho'].
  destruct (proj2 (represents_dom family _ F (wp_family _ _ Hw) y) Hv) as [oy Hoy].
  exists o', oy. split_and!; [done|done|by apply Hin|].
  unfold d1. intros o1. rewrite redefined_lookup, Hoy by done. cbn. intros [= <-]. by case_decide.
Qed.

End redefined_wf.
