(* ===== verification/Objects.v ===== *)
(** * Operations on objects (src/db_objects.c)

    Creating, destroying, moving and renumbering objects.  What they do to the two
    hierarchies is stated with the forests of Links.v, what they do to properties with
    the tables of Tables.v. *)

From S2P Require Import Prelude CStrings Values Lists Links Db Properties Layout Tables.

Open Scope Z_scope.

(** ** Destroying *)

(** [for (v = o->verbdefs; v; v = w)]: every verb is read and freed. *)
Fixpoint free_verbs (vs : list positive) (heap : gmap positive Verbdef)
    : res (gmap positive Verbdef) :=
  match vs with
  | [] => Ok heap
  | v :: vs => _ ← deref (heap !! v); free_verbs vs (delete v heap)
  end.

(** Programs are freed by program.c. *)
Definition db_destroy_object (oid : Z) (d : db) : res db :=
  let d := db_priv_affected_callable_verb_lookup d in
  match dbpriv_find_object d oid with
  | None => Fail (Panic "DB_DESTROY_OBJECT: Invalid object!")
  | Some o =>
      if negb (location o =? NOTHING) || negb (contents o =? NOTHING)
         || negb (parent o =? NOTHING) || negb (child o =? NOTHING)
      then Fail (Panic "DB_DESTROY_OBJECT: Not a barren orphan!")
      else
        user ← is_user d oid;
        d ← (if (user : bool) then u ← setremove (all_users d) (Obj oid); Ok (with_users u d)
             else Ok d);
        _ ← copy (propval o) 0 (cur_length (propdefs o));
        heap ← free_verbs (verbdefs o) (verbs d);
        Ok (with_objects (delete oid (objects d)) (with_verbs heap d))
  end.

(** ** Changing the parent or the location *)

Definition db_change_parent (oid new_parent : Z) (d : db) : res (bool * db) :=
  fits ← dbpriv_check_properties_for_chparent d oid new_parent;
  if negb fits then Ok (false, d)
  else
    o ← get (objects d) oid;
    let d := if (child o =? NOTHING) && bool_decide (verbdefs o = []) then d
             else db_priv_affected_callable_verb_lookup d in
    let old_parent := parent o in
    objs ← relocate family (fun _ p => negb (p =? NOTHING)) (objects d) oid new_parent;
    d ← dbpriv_fix_properties_after_chparent oid old_parent (with_objects objs d);
    Ok (true, d).

(** [valid] of Db.v on a bare table. *)
Definition valid_in (n : Z) (objs : gmap Z Object) (x : Z) : bool :=
  bool_decide (0 <= x < n /\ is_Some (objs !! x)).

Definition db_change_location (oid new_location : Z) (d : db) : res db :=
  objs ← relocate place (valid_in (num_objects d)) (objects d) oid new_location;
  Ok (with_objects objs d).

(** ** Renumbering *)

Definition rename_owner (old new x : Z) : Z :=
  if x =? new then NOTHING else if x =? old then new else x.

(** The first user [old] in the list becomes [new], in place.  The elements are read as
    objects without a look at their types. *)
Fixpoint rename_user (old new : Z) (us : list Var) : res (list Var) :=
  match us with
  | [] => Ok []
  | Obj x :: us =>
      if x =? old then Ok (Obj new :: us) else cons (Obj x) <$> rename_user old new us
  | _ :: _ => Fail Undefined
  end.

Fixpoint rename_verb_owners (old new : Z) (vs : list positive) (heap : gmap positive Verbdef)
    : res (gmap positive Verbdef) :=
  match vs with
  | [] => Ok heap
  | v :: vs =>
      vd ← deref (heap !! v);
      rename_verb_owners old new vs
        (<[v := mkVerbdef (v_name vd) (v_program vd) (rename_owner old new (v_owner vd))
                  (v_perms vd) (v_prep vd)]> heap)
  end.

Definition rename_cell (old new : Z) (pv : Pval) : Pval :=
  mkPval (p_var pv) (rename_owner old new (p_owner pv)) (p_perms pv).

(** One turn of the loop over all objects. *)
Definition rename_owners_of (old new oid : Z) (d : db) : res db :=
  match objects d !! oid with
  | None => Ok d
  | Some o =>
      d ← upd_object oid (set_owner (rename_owner old new (owner o))) d;
      heap ← rename_verb_owners old new (verbdefs o) (verbs d);
      let d := with_verbs heap d in
      count ← dbpriv_count_properties d oid;
      cells ← copy (propval o) 0 count;
      upd_object oid
        (set_propval ((rename_cell old new <$> cells) ++ drop count (propval o))) d
  end.

Fixpoint rename_owners (old new : Z) (oids : list Z) (d : db) : res db :=
  match oids with
  | [] => Ok d
  | oid :: oids => d ← rename_owners_of old new oid d; rename_owners old new oids d
  end.

(** The part of the body of the loop that runs for the first unused number. *)
Definition renumber (old new : Z) (d : db) : res db :=
  o ← get (objects d) old;
  let objs := <[new := set_id new o]> (delete old (objects d)) in
  objs ← renumber_links family "Object not in parent's children list" objs old new;
  objs ← renumber_links place "Object not in location's contents list" objs old new;
  let d := with_objects objs d in
  user ← is_user d new;
  d ← (if (user : bool) then u ← rename_user old new (all_users d); Ok (with_users u d)
       else Ok d);
  rename_owners old new (seqZ 0 (num_objects d)) d.

Definition db_renumber_object (old : Z) (d : db) : res (Z * db) :=
  let d := db_priv_affected_callable_verb_lookup d in
  match List.find (fun new => bool_decide (objects d !! new = None)) (seqZ 0 old) with
  | None => Ok (old, d)
  | Some new => d ← renumber old new d; Ok (new, d)
  end.

(** ** Memory used *)

(** The sizes of the structs, and the measure of programs (src/program.c) and of waifs
    (src/waif.c), are parameters.  The sum is kept in an [int]. *)
Section bytes.
Context (sizeof_Object sizeof_ptr sizeof_Verbdef sizeof_Propdef sizeof_Pval : Z)
  (program_bytes : positive -> Z) (waif_bytes : positive -> Z).

Fixpoint sum_res {A} (f : A -> res Z) (xs : list A) : res Z :=
  match xs with
  | [] => Ok 0
  | x :: xs => n ← f x; m ← sum_res f xs; Ok (n + m)
  end.

Definition verb_bytes (d : db) (v : positive) : res Z :=
  vd ← deref (verbs d !! v);
  Ok (sizeof_Verbdef + Z.of_nat (length (v_name vd)) + 1
      + match v_program vd with Some p => program_bytes p | None => 0 end).

Definition db_object_bytes (d : db) (oid : Z) : res Z :=
  o ← get (objects d) oid;
  vs ← sum_res (verb_bytes d) (verbdefs o);
  ps ← sum_res (fun p => Ok (Z.of_nat (length (pd_name p)) + 1)) (l (propdefs o));
  len ← dbpriv_count_properties d oid;
  cells ← copy (propval o) 0 len;
  cs ← sum_res (fun pv => Ok (value_bytes waif_bytes (p_var pv))) cells;
  Ok (wrap32 (sizeof_Object + sizeof_ptr + Z.of_nat (length (name o)) + 1 + vs
      + sizeof_Propdef * Z.of_nat (cur_length (propdefs o)) + ps
      + (sizeof_Pval - sizeof_Var) * Z.of_nat len + cs)).

End bytes.

(** ** The invariant of the database *)

(** Verbs belong to one object, and exist. *)
Record wf_verbs (d : db) : Prop := {
  wv_exists x o v : objects d !! x = Some o -> v ∈ verbdefs o -> is_Some (verbs d !! v);
  wv_nodup x o : objects d !! x = Some o -> NoDup (verbdefs o);
  wv_owner x y ox oy v : objects d !! x = Some ox -> objects d !! y = Some oy ->
    v ∈ verbdefs ox -> v ∈ verbdefs oy -> x = y }.

Record wf_db (F P : forest) (d : db) : Prop := {
  wdb_props : wf_props F d;
  wdb_place_forest : wf_forest P;
  wdb_place : represents place (objects d) P;
  wdb_users : wf_users d;
  wdb_verbs : wf_verbs d }.

(** ** Forests with one root more or less *)

Definition add_root (n : Z) (F : forest) : forest :=
  mkForest (<[n := NOTHING]> (par F)) (<[n := []]> (kids F)).
Definition remove_root (n : Z) (F : forest) : forest :=
  mkForest (delete n (par F)) (delete n (kids F)).

(** A node without relatives. *)
Definition barren (F : forest) (n : Z) : Prop :=
  par F !! n = Some NOTHING /\ kids F !! n = Some [].

Lemma lineage_ext F F' x ls : (forall y, y ∈ ls -> par F' !! y = par F !! y) ->
  lineage F x ls -> lineage F' x ls.
Proof. apply path_ext. Qed.

Lemma lineage_valid F x ls y : lineage F x ls -> y ∈ ls -> is_Some (par F !! y).
Proof. intros Hl Hy. by apply (path_some _ _ _ _ Hl Hy). Qed.

(** Lineages avoid a node that nothing is below. *)
Lemma lineage_avoids F n x ls : (forall y, par F !! y <> Some n) -> x <> n ->
  lineage F x ls -> n ∉ ls.
Proof.
  intros Hn Hx Hl (l1 & l2 & ->)%list_elem_of_split.
  destruct (exists_last_or_nil l1) as [->|(l0 & z & ->)].
  - unfold lineage in Hl. cbn in Hl. by destruct Hl as [-> _].
  - rewrite <- app_assoc in Hl. pose proof (path_app _ _ _ _ _ Hl) as Hp. cbn in Hp.
    destruct Hp as (_ & _ & m & Hm & <- & _). by apply (Hn z).
Qed.

Lemma add_root_wf n F : wf_forest F -> par F !! n = None -> n <> NOTHING ->
  wf_forest (add_root n F).
Proof.
  intros [Hdom H0 Hpar Hkids Hac] Hn Hn0.
  assert (Hkn : kids F !! n = None).
  { destruct (kids F !! n) eqn:E; [|done]. assert (is_Some (par F !! n)) as [? ?] by (apply Hdom; eauto).
    congruence. }
  split; cbn.
  - intros x. destruct (decide (x = n)) as [->|]; [rewrite !lookup_insert_eq|rewrite !lookup_insert_ne by done; apply Hdom].
    split; eauto.
  - by rewrite lookup_insert_ne.
  - intros x p. destruct (decide (x = n)) as [->|]; [rewrite lookup_insert_eq; intros [= <-]; by left|].
    rewrite lookup_insert_ne by done. intros [|Hp]%Hpar; [by left|right].
    destruct (decide (p = n)) as [->|]; [by rewrite lookup_insert_eq; eauto|by rewrite lookup_insert_ne].
  - intros x ks. destruct (decide (x = n)) as [->|].
    + rewrite lookup_insert_eq. intros [= <-]. split; [constructor|]. intros c. split; [set_solver|].
      destruct (decide (c = n)) as [->|]; [rewrite lookup_insert_eq; intros [= ?]; congruence|].
      rewrite lookup_insert_ne by done. intros [|[q Hq]]%Hpar; [done|congruence].
    + rewrite lookup_insert_ne by done. intros Hks. destruct (Hkids x ks Hks) as [Hnd Hiff].
      split; [done|]. intros c. rewrite Hiff. destruct (decide (c = n)) as [->|];
        [rewrite lookup_insert_eq|by rewrite lookup_insert_ne].
      rewrite Hn. split; [done|]. intros [= <-]. exfalso.
      assert (is_Some (kids F !! NOTHING)) as [q Hq]%Hdom by eauto. congruence.
  - intros x. destruct (decide (x = n)) as [->|].
    + intros _. exists [n]. unfold lineage. cbn. rewrite lookup_insert_eq. split_and!; eauto.
    + rewrite lookup_insert_ne by done. intros [ls Hl]%Hac. exists ls.
      eapply lineage_ext; [|done]. intros y Hy. cbn. rewrite lookup_insert_ne; [done|].
      intros <-. destruct (lineage_valid F x ls n Hl Hy). congruence.
Qed.

Lemma remove_root_wf n F : wf_forest F -> barren F n -> wf_forest (remove_root n F).
Proof.
  intros [Hdom H0 Hpar Hkids Hac] [Hn Hkn].
  assert (Hnp : forall x, par F !! x <> Some n).
  { intros x Hx. apply (Hkids n [] Hkn) in Hx. set_solver. }
  split; cbn.
  - intros x. destruct (decide (x = n)) as [->|]; [rewrite !lookup_delete_eq|rewrite !lookup_delete_ne by done; apply Hdom].
    split; intros [? ?]; done.
  - destruct (decide (NOTHING = n)) as [<-|]; [by rewrite lookup_delete_eq|by rewrite lookup_delete_ne].
  - intros x p. destruct (decide (x = n)) as [->|]; [by rewrite lookup_delete_eq|].
    rewrite lookup_delete_ne by done. intros Hx. destruct (Hpar x p Hx) as [|Hp]; [by left|right].
    rewrite lookup_delete_ne; [done|]. intros <-. by apply (Hnp x).
  - intros x ks. destruct (decide (x = n)) as [->|]; [by rewrite lookup_delete_eq|].
    rewrite lookup_delete_ne by done. intros Hks. destruct (Hkids x ks Hks) as [Hnd Hiff].
    split; [done|]. intros c. rewrite Hiff. destruct (decide (c = n)) as [->|];
      [rewrite lookup_delete_eq|by rewrite lookup_delete_ne].
    split; [|done]. rewrite Hn. intros [= <-]. exfalso.
    assert (is_Some (kids F !! NOTHING)) as [q Hq]%Hdom by eauto. congruence.
  - intros x. destruct (decide (x = n)) as [->|]; [rewrite lookup_delete_eq; by intros [? ?]|].
    rewrite lookup_delete_ne by done. intros [ls Hl]%Hac. exists ls.
    eapply lineage_ext; [|done]. intros y Hy. cbn. rewrite lookup_delete_ne; [done|].
    intros <-. by apply (lineage_avoids F n x ls Hnp).
Qed.

(** *** In the database *)

Section one_object.
Context (L : Links Object) `{!LawfulLinks L}.

Lemma represents_add objs F n o : wf_forest F -> represents L objs F -> par F !! n = None ->
  up L o = NOTHING -> first L o = NOTHING -> nxt L o = NOTHING ->
  represents L (<[n := o]> objs) (add_root n F).
Proof.
  intros HF Hr Hn Hu Hf Hx y. unfold ups, fsts, nxts. cbn.
  destruct (decide (y = n)) as [->|Hy].
  - rewrite !lookup_insert_eq. cbn. rewrite Hu, Hf, Hx. split_and!; [done| |done].
    intros ks [= <-]. by exists NOTHING.
  - rewrite !lookup_insert_ne by done. destruct (Hr y) as (H1 & H2 & H3). split; [done|].
    split; [|done]. intros ks Hks. destruct (H2 ks Hks) as (s & Hs & Hp). exists s.
    split; [done|]. eapply path_ext; [|done]. intros z Hz. unfold nxts.
    rewrite lookup_insert_ne; [done|]. intros <-. apply (wf_kids F HF y ks Hks) in Hz. congruence.
Qed.

Lemma represents_remove objs F n : wf_forest F -> represents L objs F -> barren F n ->
  represents L (delete n objs) (remove_root n F).
Proof.
  intros HF Hr [Hn Hkn] y. unfold ups, fsts, nxts. cbn.
  destruct (decide (y = n)) as [->|Hy].
  - rewrite !lookup_delete_eq. done.
  - rewrite !lookup_delete_ne by done. destruct (Hr y) as (H1 & H2 & H3). split; [done|].
    split; [|done]. intros ks Hks. destruct (H2 ks Hks) as (s & Hs & Hp). exists s.
    split; [done|]. eapply path_ext; [|done]. intros z Hz. unfold nxts.
    rewrite lookup_delete_ne; [done|]. intros <-. apply (wf_kids F HF y ks Hks) in Hz.
    rewrite Hn in Hz. injection Hz as <-.
    assert (is_Some (kids F !! NOTHING)) as Hk by eauto. apply (wf_dom F HF) in Hk as [? Hk].
    by rewrite (wf_nothing F HF) in Hk.
Qed.

(** An object that points to nothing is barren. *)
Lemma barren_spec objs F n o : represents L objs F -> objs !! n = Some o -> wf_forest F ->
  up L o = NOTHING /\ first L o = NOTHING <-> barren F n.
Proof.
  intros Hr Ho HF. destruct (Hr n) as (Hu & Hk & _). unfold ups, fsts in *. rewrite Ho in Hu, Hk.
  cbn in Hu, Hk. unfold barren. rewrite <- Hu. split.
  - intros [-> Hf]. split; [done|]. destruct (proj1 (wf_dom F HF n)) as [ks Hks]; [eauto|].
    rewrite Hks. destruct (Hk ks Hks) as (s & [= <-] & Hp). rewrite Hf in Hp.
    destruct ks as [|k ks]; [done|]. cbn in Hp. by destruct Hp as (_ & ? & _).
  - intros [[= ->] Hks]. split; [done|]. destruct (Hk [] Hks) as (s & [= <-] & Hp). done.
Qed.

End one_object.

(** An object that is in nobody's lineage does not matter to the schemas of others. *)
Lemma schema_unrelated F F' d d' n x : wf_forest F -> represents family (objects d) F ->
  wf_table d -> wf_forest F' -> represents family (objects d') F' -> wf_table d' ->
  (forall y, par F !! y <> Some n) -> x <> n ->
  (forall y, y <> n -> par F' !! y = par F !! y /\ objects d' !! y = objects d !! y) ->
  schema d' x = schema d x.
Proof.
  intros HF Hr Ht HF' Hr' Ht' Hn Hx Hsame. destruct (par F !! x) as [p|] eqn:Hp.
  - destruct (wf_acyclic F HF x) as [ls Hl]; [eauto|].
    pose proof (lineage_avoids F n x ls Hn Hx Hl) as Hni.
    assert (Hy : forall y, y ∈ ls -> y <> n) by (intros y Hy ->; done).
    assert (Hl' : lineage F' x ls).
    { eapply lineage_ext; [|done]. intros y Hin. by apply Hsame, Hy. }
    rewrite (schema_along F d x ls Hr Ht Hl), (schema_along F' d' x ls Hr' Ht' Hl').
    clear -Hy Hsame. induction ls as [|y ls IH]; [done|]. rewrite !along_cons, IH by set_solver.
    destruct (Hsame y) as [_ ->]; [set_solver|done].
  - rewrite (schema_invalid F d x Hr Ht Hp), (schema_invalid F' d' x Hr' Ht'); [done|].
    by rewrite (proj1 (Hsame x Hx)).
Qed.

Lemma not_parent F n y : wf_forest F -> par F !! n = None -> n <> NOTHING -> par F !! y <> Some n.
Proof. intros HF Hn H0 Hy. destruct (wf_par F HF y n Hy) as [|[? ?]]; congruence. Qed.

Lemma barren_not_parent F n y : wf_forest F -> barren F n -> par F !! y <> Some n.
Proof. intros HF [_ Hk] Hy. apply (wf_kids F HF n [] Hk) in Hy. set_solver. Qed.

(** ** Creation *)

Record blank (n : Z) (o : Object) : Prop := {
  blank_id : id o = n;
  blank_flags : flags o = 0;
  blank_family : parent o = NOTHING /\ child o = NOTHING /\ sibling o = NOTHING;
  blank_place : location o = NOTHING /\ contents o = NOTHING /\ next o = NOTHING;
  blank_props : l (propdefs o) = [] /\ max_length (propdefs o) = 0 /\ propval o = [];
  blank_verbs : verbdefs o = [];
  blank_waif : waif_propdefs o = None }.

Lemma has_flag_zero o f : flags o = 0 -> has_flag o f = false.
Proof. intros H. unfold has_flag. by rewrite H, Z.land_0_l. Qed.

Section create.
Context (F P : forest) (d : db) (Hw : wf_db F P d) (o : Object) (d' : db).
Let n := num_objects d.
Context (Hb : blank n o) (Hobjs : objects d' = <[n := o]> (objects d)).
Context (Hnum : num_objects d' = n + 1) (Hmax : n + 1 <= max_objects d').
Context (Husers : all_users d' = all_users d) (Hverbs : verbs d' = verbs d)
  (Hwpds : wpds d' = wpds d).

Lemma new_is_new : objects d !! n = None.
Proof.
  destruct (objects d !! n) as [o'|] eqn:E; [|done].
  apply (wf_range d (wp_table _ _ (wdb_props _ _ _ Hw))) in E. unfold n in E. lia.
Qed.

Lemma new_no_par : par F !! n = None /\ par P !! n = None /\ n <> NOTHING.
Proof.
  pose proof new_is_new as Hn. split_and!.
  - destruct (Links.represents_dom family _ F (wp_family _ _ (wdb_props _ _ _ Hw)) n) as [_ H].
    destruct (par F !! n); [|done]. destruct H; [eauto|congruence].
  - destruct (Links.represents_dom place _ P (wdb_place _ _ _ Hw) n) as [_ H].
    destruct (par P !! n); [|done]. destruct H; [eauto|congruence].
  - pose proof (wf_capacity d (wp_table _ _ (wdb_props _ _ _ Hw))). unfold n, NOTHING. lia.
Qed.

Lemma lookup_new x ox : objects d' !! x = Some ox ->
  x = n /\ ox = o \/ x <> n /\ objects d !! x = Some ox.
Proof.
  rewrite Hobjs. destruct (decide (x = n)) as [->|];
    [rewrite lookup_insert_eq; intros [= <-]; by left|rewrite lookup_insert_ne by done; by right].
Qed.

Lemma create_table : wf_table d'.
Proof.
  destruct (wp_table _ _ (wdb_props _ _ _ Hw)) as [Hr Hi Hc]. split.
  - intros x ox [[-> ->]|[_ Hx%Hr]]%lookup_new; unfold n in *; lia.
  - intros x ox [[-> ->]|[_ Hx]]%lookup_new; [apply Hb|by apply Hi].
  - unfold n in *. lia.
Qed.

Lemma create_family : represents family (objects d') (add_root n F).
Proof.
  destruct new_no_par as (HnF & _ & Hn0). rewrite Hobjs.
  apply represents_add; [apply Hw|apply Hw|done|apply Hb..].
Qed.

Lemma create_schema x : schema d' x = if decide (x = n) then [] else schema d x.
Proof.
  destruct new_no_par as (HnF & _ & Hn0). pose proof (wp_forest _ _ (wdb_props _ _ _ Hw)) as HF.
  case_decide as Hx.
  - subst x. assert (Hl : lineage (add_root n F) n [n]).
    { unfold lineage. cbn. rewrite lookup_insert_eq. eauto. }
    rewrite (schema_along _ d' n _ create_family create_table Hl), along_cons.
    rewrite Hobjs, lookup_insert_eq. cbn. unfold defs_of.
    by destruct (blank_props n o Hb) as (-> & _).
  - eapply (schema_unrelated F (add_root n F) d d' n); try done.
    + apply Hw.
    + apply Hw.
    + by apply add_root_wf.
    + apply create_family.
    + apply create_table.
    + intros y. by apply not_parent.
    + intros y Hy. cbn. rewrite Hobjs, !lookup_insert_ne by done. done.
Qed.

Lemma create_wf : wf_db (add_root n F) (add_root n P) d'.
Proof.
  destruct new_no_par as (HnF & HnP & Hn0). pose proof new_is_new as Hnew.
  destruct Hw as [[HF Hr Ht [Hwe Hws] Hc Hd Hu Hcap Hcl] HP HrP [Huo Hun Huf Huv] [Hve Hvn Hvo]].
  destruct (blank_props n o Hb) as (Hbl & Hbm & Hbp).
  split; [split| | | |].
  - by apply add_root_wf.
  - apply create_family.
  - apply create_table.
  - split; rewrite ?Hwpds.
    + intros x ox p [[-> ->]|[_ Hx]]%lookup_new; [by rewrite (blank_waif n o Hb)|by eapply Hwe].
    + intros x y ox oy p [[-> ->]|[_ Hx]]%lookup_new [[-> ->]|[_ Hy]]%lookup_new;
        rewrite ?(blank_waif n o Hb); try done. by eapply Hws.
  - intros x ox [[-> ->]|[Hxn Hx]]%lookup_new; rewrite create_schema.
    + rewrite decide_True by done. by rewrite Hbp.
    + rewrite decide_False by done. by apply Hc.
  - intros x ox p [[-> ->]|[_ Hx]]%lookup_new; [rewrite Hbl; set_solver|by eapply Hd].
  - intros x. rewrite create_schema. case_decide; [constructor|apply Hu].
  - intros x ox [[-> ->]|[_ Hx]]%lookup_new; [|by eapply Hcap].
    unfold cur_length. rewrite Hbl, Hbm. done.
  - intros x ox i pv [[-> ->]|[_ Hx]]%lookup_new; [by rewrite Hbp|by eapply Hcl].
  - by apply add_root_wf.
  - rewrite Hobjs. apply represents_add; [done|done|done|apply Hb..].
  - split; rewrite ?Husers; [done|done| |].
    + intros x ox [[-> ->]|[_ Hx]]%lookup_new; [|by apply Huf].
      rewrite has_flag_zero by apply Hb. split; [|done]. intros [? ?]%Huv. congruence.
    + intros x [ox Hx]%Huv. rewrite Hobjs. rewrite lookup_insert_ne; [eauto|]. congruence.
  - split; rewrite ?Hverbs.
    + intros x ox v [[-> ->]|[_ Hx]]%lookup_new; [rewrite (blank_verbs n o Hb); set_solver|by eapply Hve].
    + intros x ox [[-> ->]|[_ Hx]]%lookup_new; [rewrite (blank_verbs n o Hb); constructor|by eapply Hvn].
    + intros x y ox oy v [[-> ->]|[_ Hx]]%lookup_new [[-> ->]|[_ Hy]]%lookup_new;
        rewrite ?(blank_verbs n o Hb); first [set_solver|by eapply Hvo].
Qed.

End create.

Lemma room_for_one d : wf_table d -> exists m, ensure_new_object d = with_table (objects d)
  (num_objects d) m d /\ num_objects d < m.
Proof.
  intros [_ _ Hc]. unfold ensure_new_object. eexists. split; [done|].
  destruct (Z.eqb_spec (max_objects d) 0);
    destruct (Z.geb_spec (num_objects d) (if max_objects d =? 0 then 100 else max_objects d));
    repeat case_match; lia.
Qed.

Lemma create_Ok F P d garbage : wf_db F P d -> exists o d',
  db_create_object garbage d = Ok (num_objects d, d') /\ blank (num_objects d) o /\
  objects d' = <[num_objects d := o]> (objects d) /\ num_objects d' = num_objects d + 1 /\
  num_objects d + 1 <= max_objects d' /\ all_users d' = all_users d /\ verbs d' = verbs d /\
  wpds d' = wpds d /\ vc_table d' = vc_table d.
Proof.
  intros Hw. unfold db_create_object, dbpriv_new_object.
  destruct (room_for_one d (wp_table _ _ (wdb_props _ _ _ Hw))) as (m & -> & Hm).
  cbn [num_objects max_objects with_table].
  destruct (Z.geb_spec (num_objects d) m); [lia|]. cbn [mbind res_bind]. unfold get. cbn [objects with_table].
  rewrite lookup_insert_eq. cbn [deref mbind res_bind].
  eexists _, _. split; [done|]. cbn. rewrite insert_insert_eq.
  split; [|split; [reflexivity|split_and!; try done; lia]]. by split.
Qed.

(** ** Lists of users *)

Lemma obj_list (us : list Var) : (forall v, v ∈ us -> exists x, v = Obj x) ->
  exists xs, us = Obj <$> xs.
Proof.
  induction us as [|v us IH]; intros H; [by exists []|].
  destruct (H v) as [x ->]; [set_solver|]. destruct IH as [xs ->]; [intros; apply H; set_solver|].
  by exists (x :: xs).
Qed.

#[export] Instance Obj_inj : Inj (=) (=) Obj.
Proof. by intros ?? [=]. Qed.

Lemma good_objs xs : forallb good_value (Obj <$> xs) = true.
Proof. by induction xs. Qed.

Lemma In_veq_obj x xs : In_veq false (Obj x) (Obj <$> xs) <-> x ∈ xs.
Proof.
  unfold In_veq. rewrite Exists_exists. split.
  - intros (v & (y & -> & Hy)%list_elem_of_fmap & Hv). by inversion Hv; subst.
  - intros Hx. exists (Obj x). split; [by apply list_elem_of_fmap; exists x|constructor].
Qed.

Lemma setremove_objs xs x : NoDup xs -> setremove (Obj <$> xs) (Obj x) = Ok (Obj <$> without x xs).
Proof.
  intros Hnd. unfold setremove.
  destruct (ismember_spec (Obj x) (Obj <$> xs) false) as
    [(k & v & Hk & Hv & _ & ->)|[Hno ->]]; [done|apply good_objs| |]; cbn [mbind res_bind].
  - destruct (Z.eqb_spec (Z.of_nat k + 1) 0); [lia|]. cbn [negb].
    pose proof (lookup_lt_Some _ _ _ Hk) as Hlt.
    rewrite listdelete_Ok by (unfold len; lia). f_equal.
    rewrite list_lookup_fmap in Hk. apply fmap_Some in Hk as (y & Hk & ->).
    inversion Hv; subst. replace (Z.to_nat (Z.of_nat k + 1 - 1)) with k by lia.
    replace (Z.to_nat (Z.of_nat k + 1)) with (S k) by lia. rewrite <- fmap_take, <- fmap_drop, <- fmap_app.
    f_equal. rewrite <- (take_drop_middle xs k y Hk) in Hnd |- * at 3. symmetry.
    by apply without_app.
  - rewrite In_veq_obj in Hno. by rewrite without_id.
Qed.

Lemma setadd_objs xs x : setadd (Obj <$> xs) (Obj x) =
  Ok (Obj <$> (if decide (x ∈ xs) then xs else xs ++ [x])).
Proof.
  unfold setadd. destruct (ismember_spec (Obj x) (Obj <$> xs) false) as
    [(k & v & Hk & Hv & _ & ->)|[Hno ->]]; [done|apply good_objs| |]; cbn [mbind res_bind].
  - destruct (Z.eqb_spec (Z.of_nat k + 1) 0); [lia|]. cbn [negb].
    rewrite list_lookup_fmap in Hk. apply fmap_Some in Hk as (y & Hk & ->). inversion Hv; subst.
    rewrite decide_True; [done|]. by eapply list_elem_of_lookup_2.
  - rewrite In_veq_obj in Hno. rewrite decide_False by done. cbn. by rewrite listappend_Ok, fmap_app.
Qed.

(** The users of a well-formed database, as numbers. *)
Lemma users_list d : wf_users d -> exists xs, all_users d = Obj <$> xs /\ NoDup xs /\
  (forall x o, objects d !! x = Some o -> (x ∈ xs <-> has_flag o FLAG_USER = true)) /\
  (forall x, x ∈ xs -> is_Some (objects d !! x)).
Proof.
  intros [Ho Hn Hf Hv]. destruct (obj_list _ Ho) as [xs Hxs]. exists xs. rewrite Hxs in *.
  assert (Hel : forall x, Obj x ∈ (Obj <$> xs) <-> x ∈ xs).
  { intros x. rewrite list_elem_of_fmap. split; [by intros (y & [= ->] & ?)|eauto]. }
  split_and!; [done|by eapply NoDup_fmap_1| |].
  - intros x o Hx. by rewrite <- Hel, Hf.
  - intros x. rewrite <- Hel. apply Hv.
Qed.

Lemma users_intro d xs : all_users d = Obj <$> xs -> NoDup xs ->
  (forall x o, objects d !! x = Some o -> (x ∈ xs <-> has_flag o FLAG_USER = true)) ->
  (forall x, x ∈ xs -> is_Some (objects d !! x)) -> wf_users d.
Proof.
  intros Hu Hn Hf Hv.
  assert (Hel : forall x, Obj x ∈ (Obj <$> xs) <-> x ∈ xs).
  { intros x. rewrite list_elem_of_fmap. split; [by intros (y & [= ->] & ?)|eauto]. }
  split; rewrite ?Hu.
  - intros v (x & -> & _)%list_elem_of_fmap. eauto.
  - by apply NoDup_fmap; [intros ??[=]|].
  - intros x o. rewrite Hel. apply Hf.
  - intros x. rewrite Hel. apply Hv.
Qed.

(** ** Destruction *)

Lemma free_verbs_Ok vs heap : NoDup vs -> (forall v, v ∈ vs -> is_Some (heap !! v)) ->
  exists heap', free_verbs vs heap = Ok heap' /\ forall v, heap' !! v = if decide (v ∈ vs) then None else heap !! v.
Proof.
  revert heap. induction vs as [|v vs IH]; intros heap Hnd Hin; cbn [free_verbs].
  - exists heap. split; [done|]. intros v. rewrite decide_False by set_solver. done.
  - apply NoDup_cons in Hnd as [Hv Hnd]. destruct (Hin v) as [vd Hvd]; [set_solver|]. rewrite Hvd.
    cbn [deref mbind res_bind]. destruct (IH (delete v heap) Hnd) as (heap' & -> & Hh).
    { intros w Hw. rewrite lookup_delete_ne by (intros ->; done). apply Hin. set_solver. }
    exists heap'. split; [done|]. intros w. rewrite Hh. destruct (decide (w = v)) as [->|Hwv].
    + rewrite lookup_delete_eq. rewrite (decide_True (P := v ∈ v :: vs)) by set_solver. by case_decide.
    + rewrite lookup_delete_ne by done. repeat case_decide; set_solver.
Qed.

Section destroy.
Context (F P : forest) (d : db) (Hw : wf_db F P d) (n : Z) (o : Object).
Context (Ho : objects d !! n = Some o) (HbF : barren F n) (HbP : barren P n).
Context (d' : db) (Hobjs : objects d' = delete n (objects d)) (Hnum : num_objects d' = num_objects d)
  (Hmax : max_objects d' = max_objects d) (Hwpds : wpds d' = wpds d).
Context (xs : list Z) (Hxs : all_users d = Obj <$> xs) (Hxs' : all_users d' = Obj <$> without n xs).
Context (Hverbs : forall v, verbs d' !! v = if decide (v ∈ verbdefs o) then None else verbs d !! v).

Lemma lookup_gone x ox : objects d' !! x = Some ox -> x <> n /\ objects d !! x = Some ox.
Proof.
  rewrite Hobjs. destruct (decide (x = n)) as [->|]; [by rewrite lookup_delete_eq|].
  by rewrite lookup_delete_ne.
Qed.

Lemma destroy_table : wf_table d'.
Proof.
  destruct (wp_table _ _ (wdb_props _ _ _ Hw)) as [Hr Hi Hc].
  split; rewrite ?Hnum, ?Hmax; [| |done]; intros x ox [_ Hx]%lookup_gone; eauto.
Qed.

Lemma destroy_family : represents family (objects d') (remove_root n F).
Proof. rewrite Hobjs. apply represents_remove; [apply Hw|apply Hw|done]. Qed.

Lemma destroy_schema x : x <> n -> schema d' x = schema d x.
Proof.
  intros Hx. pose proof (wp_forest _ _ (wdb_props _ _ _ Hw)) as HF. pose proof (wdb_props _ _ _ Hw) as Hp.
  apply (schema_unrelated F (remove_root n F) d d' n x HF (wp_family _ _ Hp) (wp_table _ _ Hp)
           (remove_root_wf n F HF HbF) destroy_family destroy_table); [|done|].
  - intros y. by apply barren_not_parent.
  - intros y Hy. cbn. rewrite Hobjs, !lookup_delete_ne by done. done.
Qed.

Lemma destroy_wf : wf_db (remove_root n F) (remove_root n P) d'.
Proof.
  destruct (users_list d (wdb_users _ _ _ Hw)) as (xs' & Hu1 & Hu2 & Hu3 & Hu4).
  assert (xs' = xs) as ->.
  { apply (list_fmap_eq_inj Obj); [apply _|]. exact (eq_trans (eq_sym Hu1) Hxs). }
  destruct Hw as [[HF Hr Ht [Hwe Hws] Hc Hd Hu Hcap Hcl] HP HrP _ [Hve Hvn Hvo]].
  split; [split| | | |].
  - by apply remove_root_wf.
  - apply destroy_family.
  - apply destroy_table.
  - split; rewrite ?Hwpds.
    + intros x ox p [_ Hx]%lookup_gone. by eapply Hwe.
    + intros x y ox oy p [_ Hx]%lookup_gone [_ Hy]%lookup_gone. by eapply Hws.
  - intros x ox [Hxn Hx]%lookup_gone. rewrite destroy_schema by done. by apply Hc.
  - intros x ox p [_ Hx]%lookup_gone. by eapply Hd.
  - intros x. destruct (decide (x = n)) as [->|Hx]; [|rewrite destroy_schema by done; apply Hu].
    rewrite (schema_invalid (remove_root n F)).
    + constructor.
    + apply destroy_family.
    + apply destroy_table.
    + cbn. by rewrite lookup_delete_eq.
  - intros x ox [_ Hx]%lookup_gone. by eapply Hcap.
  - intros x ox i pv [_ Hx]%lookup_gone. by eapply Hcl.
  - by apply remove_root_wf.
  - rewrite Hobjs. apply represents_remove; done.
  - apply (users_intro d' (without n xs)); [done|by apply NoDup_filter| |].
    + intros x ox [Hxn Hx]%lookup_gone. rewrite elem_without, <- (Hu3 x ox Hx). tauto.
    + intros x [Hx Hxn]%elem_without. rewrite Hobjs, lookup_delete_ne by done. by apply Hu4.
  - split.
    + intros x ox v [Hxn Hx]%lookup_gone Hv. rewrite Hverbs. case_decide as Hvo'.
      * destruct Hxn. by eapply Hvo.
      * by eapply Hve.
    + intros x ox [_ Hx]%lookup_gone. by eapply Hvn.
    + intros x y ox oy v [_ Hx]%lookup_gone [_ Hy]%lookup_gone. by eapply Hvo.
Qed.

End destroy.

Lemma flush_same d : objects (db_priv_affected_callable_verb_lookup d) = objects d /\
  num_objects (db_priv_affected_callable_verb_lookup d) = num_objects d /\
  max_objects (db_priv_affected_callable_verb_lookup d) = max_objects d /\
  all_users (db_priv_affected_callable_verb_lookup d) = all_users d /\
  verbs (db_priv_affected_callable_verb_lookup d) = verbs d /\
  wpds (db_priv_affected_callable_verb_lookup d) = wpds d.
Proof. unfold db_priv_affected_callable_verb_lookup. by destruct (vc_table d). Qed.

Lemma ancestry_same d d' x : objects d' = objects d -> num_objects d' = num_objects d ->
  ancestry d' x = ancestry d x.
Proof.
  intros Ho Hn. unfold ancestry. rewrite Ho. generalize (size (objects d)) as fuel. intros fuel.
  revert x. induction fuel as [|fuel IH]; intros x; cbn [ancestry_from];
    replace (dbpriv_find_object d' x) with (dbpriv_find_object d x)
      by (unfold dbpriv_find_object; by rewrite Ho, Hn); [done|].
  destruct (dbpriv_find_object d x); [by rewrite IH|done].
Qed.

(** A field of no consequence to well-formedness. *)
Lemma wf_db_ext F P d d' : wf_db F P d -> objects d' = objects d -> num_objects d' = num_objects d ->
  max_objects d' = max_objects d -> all_users d' = all_users d -> verbs d' = verbs d ->
  wpds d' = wpds d -> wf_db F P d'.
Proof.
  intros [[HF Hr [? ? ?] [? ?] Hc Hd Hu Hcap Hcl] HP HrP [? ? ? ?] [? ? ?]] Ho Hn Hm Hus Hvs Hws.
  assert (Hs : forall x, schema d' x = schema d x).
  { intros x. unfold schema. by rewrite (ancestry_same d d' x Ho Hn). }
  split; [split| | | |]; try (rewrite ?Ho; done); try (split; rewrite ?Ho, ?Hn, ?Hm, ?Hus, ?Hvs, ?Hws; done).
  - intros x o. rewrite Ho, Hs. apply Hc.
  - intros x. by rewrite Hs.
Qed.

Lemma is_user_Ok d x o : wf_table d -> objects d !! x = Some o ->
  is_user d x = Ok (has_flag o FLAG_USER).
Proof.
  intros Ht Ho. unfold is_user, valid_with_flag, valid, db_object_has_flag, get.
  rewrite find_object_eq, Ho by done. by rewrite bool_decide_eq_true_2 by eauto.
Qed.

(** ** Updates of attributes that the properties do not depend on *)

Definition core (o : Object) : Object :=
  set_location 0 (set_contents 0 (set_next 0 (set_owner 0 (set_name [] (set_flags 0
    (set_verbdefs [] o)))))).

Record alike (d d' : db) : Prop := {
  alike_num : num_objects d' = num_objects d;
  alike_max : max_objects d' = max_objects d;
  alike_wpds : wpds d' = wpds d;
  alike_core y : core <$> objects d' !! y = core <$> objects d !! y }.

Section alike.
Context (d d' : db) (Ha : alike d d').

Lemma alike_field {B} (f : Object -> B) y : (forall o, f (core o) = f o) ->
  f <$> objects d' !! y = f <$> objects d !! y.
Proof.
  intros Hf. pose proof (alike_core _ _ Ha y) as H.
  destruct (objects d' !! y) as [o'|], (objects d !! y) as [o|]; cbn in *; try done.
  f_equal. rewrite <- (Hf o'), <- (Hf o). congruence.
Qed.

Lemma alike_lookup y o' : objects d' !! y = Some o' ->
  exists o, objects d !! y = Some o /\ core o' = core o.
Proof.
  intros Ho. pose proof (alike_core _ _ Ha y) as H. rewrite Ho in H. cbn in H. symmetry in H.
  apply fmap_Some in H as (o & ? & ?). eauto.
Qed.

Lemma alike_family F : represents family (objects d) F -> represents family (objects d') F.
Proof.
  intros Hr x. destruct (Hr x) as (H1 & H2 & H3). unfold ups, fsts, nxts in *.
  rewrite !alike_field by done. split; [done|]. split; [|done].
  intros ls Hls. destruct (H2 ls Hls) as (s & Hs & Hp). exists s. split; [done|].
  eapply path_ext; [|done]. intros y _. by apply alike_field.
Qed.

Lemma alike_table : wf_table d -> wf_table d'.
Proof.
  intros [Hr Hi Hc]. split; rewrite ?(alike_num _ _ Ha), ?(alike_max _ _ Ha); [| |done].
  - intros x o' (o & Ho & _)%alike_lookup. eauto.
  - intros x o' (o & Ho & He)%alike_lookup. apply (f_equal id) in He. cbn in He. rewrite He. eauto.
Qed.

Lemma alike_schema F x : wf_forest F -> represents family (objects d) F -> wf_table d ->
  schema d' x = schema d x.
Proof.
  intros HF Hr Ht. pose proof (alike_family F Hr) as Hr'. pose proof (alike_table Ht) as Ht'.
  destruct (par F !! x) as [p|] eqn:Hx.
  - destruct (wf_acyclic F HF x) as [ls Hl]; [eauto|].
    rewrite (schema_along F d x ls), (schema_along F d' x ls) by done.
    unfold along. apply list_bind_ext; [|done]. intros y.
    pose proof (alike_field defs_of y (fun _ => eq_refl)) as H.
    destruct (objects d !! y), (objects d' !! y); cbn in *; congruence.
  - by rewrite (schema_invalid F d x), (schema_invalid F d' x).
Qed.

Lemma alike_props F : wf_props F d -> wf_props F d'.
Proof.
  intros [HF Hr Ht [Hwe Hws] Hc Hd Hu Hcap Hcl].
  assert (Hf : forall x o', objects d' !! x = Some o' -> exists o, objects d !! x = Some o /\
            propdefs o' = propdefs o /\ propval o' = propval o /\ waif_propdefs o' = waif_propdefs o).
  { intros x o' (o & Ho & He)%alike_lookup. exists o. split; [done|].
    pose proof (f_equal propdefs He). pose proof (f_equal propval He).
    pose proof (f_equal waif_propdefs He). done. }
  split.
  - done.
  - by apply alike_family.
  - by apply alike_table.
  - split; rewrite ?(alike_wpds _ _ Ha).
    + intros x o p (o0 & Ho & _ & _ & ->)%Hf. by eapply Hwe.
    + intros x y ox oy p (o0 & Ho & _ & _ & ->)%Hf (o1 & Ho1 & _ & _ & ->)%Hf. by eapply Hws.
  - intros x o (o0 & Ho & _ & -> & _)%Hf. rewrite (alike_schema F) by done. by apply Hc.
  - intros x o p (o0 & Ho & -> & _)%Hf. by eapply Hd.
  - intros x. rewrite (alike_schema F) by done. apply Hu.
  - intros x o (o0 & Ho & -> & _)%Hf. by eapply Hcap.
  - intros x o n pv (o0 & Ho & -> & -> & _)%Hf. by eapply Hcl.
Qed.

Lemma alike_table_of F x : wf_props F d -> table d' x = table d x.
Proof.
  intros Hw. unfold table. rewrite (alike_schema F) by apply Hw. f_equal.
  pose proof (alike_field propval x (fun _ => eq_refl)) as H.
  destruct (objects d' !! x), (objects d !! x); cbn in *; congruence.
Qed.

End alike.
