(* ===== verification/Sample.v ===== *)
(** * A checker for the invariants, and a small database

    The invariant of the database is checked by evaluation for a concrete one, which the
    examples use. *)

From S2P Require Import Prelude CStrings Values Lists Links Db Properties Layout Tables Objects.

Open Scope Z_scope.

(** ** Checking forests *)

Fixpoint climb (fuel : nat) (F : forest) (x : Z) : option (list Z) :=
  if bool_decide (x = NOTHING) then Some [] else
  match fuel with
  | O => None
  | S fuel =>
      match par F !! x with
      | Some p => cons x <$> climb fuel F p
      | None => None
      end
  end.

Lemma climb_lineage fuel F x ls : climb fuel F x = Some ls -> lineage F x ls.
Proof.
  unfold lineage. revert x ls. induction fuel as [|fuel IH]; intros x ls; cbn [climb];
    (destruct (bool_decide_reflect (x = NOTHING)) as [->|Hx]; [by intros [= <-]|]).
  { done. }
  destruct (par F !! x) as [p|] eqn:Hp; [|done].
  intros (l & Hl & ->)%fmap_Some_1. cbn. split_and!; eauto.
Qed.

Definition forest_ok (F : forest) : bool :=
  bool_decide (dom (par F) = dom (kids F)) && bool_decide (par F !! NOTHING = None) &&
  bool_decide (map_Forall (fun x p =>
    (p = NOTHING \/ is_Some (par F !! p)) /\ is_Some (climb (size (par F)) F x) /\
    (p = NOTHING \/ x ∈ default [] (kids F !! p))) (par F)) &&
  bool_decide (map_Forall (fun x ls => NoDup ls /\ Forall (fun c => par F !! c = Some x) ls) (kids F)).

Lemma forest_ok_wf F : forest_ok F = true -> wf_forest F.
Proof.
  unfold forest_ok. rewrite !andb_true_iff, !bool_decide_eq_true. intros [[[Hdom H0] Hpar] Hkids].
  split.
  - intros x. rewrite <- !elem_of_dom. by rewrite Hdom.
  - done.
  - intros x p Hp. apply (Hpar x p Hp).
  - intros x ls Hls. destruct (Hkids x ls Hls) as [Hnd Hall]. split; [done|].
    intros c. rewrite Forall_forall in Hall. split; [apply Hall|].
    intros Hc. destruct (Hpar c x Hc) as (_ & _ & [->|Hin]).
    + assert (is_Some (kids F !! NOTHING)) as H by eauto.
      apply elem_of_dom in H. rewrite <- Hdom in H. apply elem_of_dom in H as [? H]. congruence.
    + by rewrite Hls in Hin.
  - intros x [p Hp]. destruct (Hpar x p Hp) as (_ & [ls Hls] & _). exists ls.
    by eapply climb_lineage.
Qed.

Fixpoint follows (nx : Z -> option Z) (s : Z) (ls : list Z) : bool :=
  match ls with
  | [] => bool_decide (s = NOTHING)
  | x :: ls => bool_decide (s = x /\ s <> NOTHING) &&
               match nx x with Some n => follows nx n ls | None => false end
  end.

Lemma follows_path nx s ls : follows nx s ls = true -> path nx s ls.
Proof.
  revert s. induction ls as [|x ls IH]; intros s; cbn.
  - by rewrite bool_decide_eq_true.
  - rewrite andb_true_iff, bool_decide_eq_true. intros [[-> Hx] H].
    destruct (nx x) as [n|]; [|done]. eauto 6.
Qed.

Definition links_ok (L : Links Object) (objs : gmap Z Object) (F : forest) : bool :=
  bool_decide (up L <$> objs = par F) &&
  bool_decide (map_Forall (fun x ls => from_option (fun s => follows (nxts L objs) s ls) false
                                         (fsts L objs x) = true) (kids F)) &&
  bool_decide (map_Forall (fun x p => p = NOTHING -> nxts L objs x = Some NOTHING) (par F)).

Lemma links_ok_represents L objs F : links_ok L objs F = true -> represents L objs F.
Proof.
  unfold links_ok. rewrite !andb_true_iff, !bool_decide_eq_true. intros [[Hu Hk] Hr] x.
  split_and!.
  - unfold ups. by rewrite <- Hu, lookup_fmap.
  - intros ls Hls. specialize (Hk x ls Hls). cbn in Hk. destruct (fsts L objs x) as [s|]; [|discriminate Hk].
    exists s. split; [done|]. by apply follows_path.
  - intros Hx. by apply (Hr x NOTHING Hx).
Qed.

(** ** Checking databases *)

Definition is_clear (v : Var) : bool := match v with Clear => true | _ => false end.
Definition is_user_number (x : Z) (v : Var) : bool := match v with Obj y => x =? y | _ => false end.

Definition def_okb (p : Propdef) : bool :=
  bool_decide (nul_free (pd_name p)) && (pd_hash p =? str_hash (pd_name p)) &&
  match find_builtin (pd_name p) with None => true | Some _ => false end.

Definition props_ok (F : forest) (d : db) : bool :=
  bool_decide (map_Forall (fun x o =>
    0 <= x < num_objects d /\ id o = x /\ waif_propdefs o = None /\
    length (propval o) = length (schema d x) /\
    forallb def_okb (l (propdefs o)) = true /\ NoDup (folded <$> schema d x) /\
    Z.of_nat (cur_length (propdefs o)) <= max_length (propdefs o) /\
    forallb (fun pv => negb (is_clear (p_var pv))) (take (cur_length (propdefs o)) (propval o)) = true)
    (objects d)) &&
  bool_decide (0 <= num_objects d <= max_objects d).

Lemma props_ok_wf F d : forest_ok F = true -> links_ok family (objects d) F = true ->
  props_ok F d = true -> wf_props F d.
Proof.
  intros HF%forest_ok_wf Hr%links_ok_represents Hp. unfold props_ok in Hp.
  rewrite andb_true_iff, !bool_decide_eq_true in Hp. destruct Hp as [Hp Hc].
  assert (Ht : wf_table d).
  { split; [| |done]; intros x o Ho; by destruct (Hp x o Ho) as (? & ? & _). }
  split; try done.
  - split.
    + intros x o p Ho. by destruct (Hp x o Ho) as (_ & _ & -> & _).
    + intros x y ox oy p Hx _. by destruct (Hp x ox Hx) as (_ & _ & -> & _).
  - intros x o Ho. by destruct (Hp x o Ho) as (_ & _ & _ & ? & _).
  - intros x o p Ho Hin. destruct (Hp x o Ho) as (_ & _ & _ & _ & Hd & _).
    rewrite forallb_forall in Hd. specialize (Hd p (proj1 (list_elem_of_In _ _) Hin)).
    unfold def_okb in Hd. rewrite !andb_true_iff, bool_decide_eq_true, Z.eqb_eq in Hd.
    destruct Hd as [[Hn Hh] Hb]. split; [done|done|]. by destruct (find_builtin (pd_name p)).
  - intros x. destruct (objects d !! x) as [o|] eqn:Ho; [by destruct (Hp x o Ho) as (_ & _ & _ & _ & _ & ? & _)|].
    rewrite (schema_invalid F d x Hr Ht); [constructor|].
    destruct (Hr x) as [<- _]. unfold ups. by rewrite Ho.
  - intros x o Ho. by destruct (Hp x o Ho) as (_ & _ & _ & _ & _ & _ & ? & _).
  - intros x o n pv Ho Hn Hlt Hcl. destruct (Hp x o Ho) as (_ & _ & _ & _ & _ & _ & _ & Hc').
    rewrite forallb_forall in Hc'. specialize (Hc' pv).
    rewrite <- list_elem_of_In, Hcl in Hc'. cbn in Hc'. by discriminate Hc'; apply elem_of_take; eauto.
Qed.

Definition users_ok (d : db) : bool :=
  forallb (fun v => match v with Obj x => bool_decide (is_Some (objects d !! x)) | _ => false end)
    (all_users d) &&
  bool_decide (NoDup (omap (fun v => match v with Obj x => Some x | _ => None end) (all_users d))) &&
  bool_decide (map_Forall (fun x o =>
    existsb (is_user_number x) (all_users d) = has_flag o FLAG_USER) (objects d)).

Lemma users_ok_wf d : users_ok d = true -> wf_users d.
Proof.
  unfold users_ok. rewrite !andb_true_iff, forallb_forall, !bool_decide_eq_true.
  intros [[Hall Hnd] Hfl].
  assert (Hobj : forall v, v ∈ all_users d -> exists x, v = Obj x).
  { intros v Hv%list_elem_of_In%Hall. destruct v; try done. eauto. }
  destruct (obj_list _ Hobj) as [xs Hxs].
  assert (Hom : omap (fun v => match v with Obj x => Some x | _ => None end) (all_users d) = xs).
  { rewrite Hxs. clear. induction xs as [|x xs IH]; [done|]. cbn. f_equal. exact IH. }
  rewrite Hom in Hnd. apply (users_intro d xs); [done|done| |].
  - intros x o Ho. rewrite <- (Hfl x o Ho), existsb_exists, Hxs. split.
    + intros Hx. exists (Obj x). split; [apply list_elem_of_In, list_elem_of_fmap; eauto|]. cbn. lia.
    + intros (v & (y & -> & Hy)%list_elem_of_In%list_elem_of_fmap & He). cbn in He.
      apply Z.eqb_eq in He. by subst.
  - intros x Hx. specialize (Hall (Obj x)). cbn in Hall. rewrite bool_decide_eq_true in Hall.
    apply Hall, list_elem_of_In. rewrite Hxs. apply list_elem_of_fmap. eauto.
Qed.

Definition verbs_ok (d : db) : bool :=
  bool_decide (map_Forall (fun x ox =>
    Forall (fun v => is_Some (verbs d !! v)) (verbdefs ox) /\ NoDup (verbdefs ox) /\
    map_Forall (fun y oy => x = y \/ Forall (fun v => v ∉ verbdefs oy) (verbdefs ox)) (objects d))
    (objects d)).

Lemma verbs_ok_wf d : verbs_ok d = true -> wf_verbs d.
Proof.
  unfold verbs_ok. rewrite bool_decide_eq_true. intros H. split.
  - intros x o v Ho Hv. destruct (H x o Ho) as [Ha _]. rewrite Forall_forall in Ha. auto.
  - intros x o Ho. by apply (H x o Ho).
  - intros x y ox oy v Hx Hy Hvx Hvy. destruct (H x ox Hx) as (_ & _ & Hxy).
    destruct (Hxy y oy Hy) as [|Hn]; [done|]. rewrite Forall_forall in Hn. by destruct (Hn v Hvx).
Qed.

Definition db_ok (F P : forest) (d : db) : bool :=
  forest_ok F && forest_ok P && links_ok family (objects d) F && links_ok place (objects d) P &&
  props_ok F d && users_ok d && verbs_ok d.

Lemma db_ok_wf F P d : db_ok F P d = true -> wf_db F P d.
Proof.
  unfold db_ok. rewrite !andb_true_iff. intros [[[[[[H1 H2] H3] H4] H5] H6] H7]. split.
  - by apply props_ok_wf.
  - by apply forest_ok_wf.
  - by apply links_ok_represents.
  - by apply users_ok_wf.
  - by apply verbs_ok_wf.
Qed.

(** ** The sample

    #0 is the root class with a verb and a property, #1 and #5 are users below it, #2 is a
    room with a property, #3 is below it, #4 has been recycled, #6 is barren. *)

Definition pval (v : Var) (own perms : Z) : Pval := mkPval v own perms.

Definition sample_objects : gmap Z Object := list_to_map
  [(0, mkObject 0 1 (-1) (-1) (-1) (-1) 1 (-1) (lit "root") 0 [1%positive]
         (mkProplist 8 [dbpriv_new_propdef (lit "p")]) [pval (Int 5) 0 5] None);
   (1, mkObject 1 1 2 (-1) (-1) 0 (-1) 5 (lit "wizard") 7 []
         (mkProplist 0 []) [pval Clear 1 5] None);
   (2, mkObject 2 1 (-1) 1 (-1) (-1) 3 (-1) (lit "room") 0 []
         (mkProplist 8 [dbpriv_new_propdef (lit "q")]) [pval (Str (lit "x")) 5 1] None);
   (3, mkObject 3 4 (-1) (-1) (-1) 2 (-1) (-1) (lit "closet") 0 []
         (mkProplist 0 []) [pval Clear 5 1] None);
   (5, mkObject 5 5 (-1) (-1) (-1) 0 (-1) (-1) (lit "guest") 1 [2%positive]
         (mkProplist 8 [dbpriv_new_propdef (lit "size")]) [pval (Int 1) 5 1; pval Clear 5 5] None);
   (6, mkObject 6 5 (-1) (-1) (-1) (-1) (-1) (-1) (lit "thing") 0 []
         (mkProplist 0 []) [] None)].

Definition sample_verbs : gmap positive Verbdef := list_to_map
  [(1%positive, mkVerbdef (lit "l*ook") None 1 13 (-1));
   (2%positive, mkVerbdef (lit "home") None 5 12 (-1))].

Definition sample : db := mkDb sample_objects 7 100 [Obj 1; Obj 5] sample_verbs ∅ None 0 0 0 0.

Definition sample_family : forest := mkForest
  (list_to_map [(0, -1); (1, 0); (2, -1); (3, 2); (5, 0); (6, -1)])
  (list_to_map [(0, [1; 5]); (1, []); (2, [3]); (3, []); (5, []); (6, [])]).
Definition sample_place : forest := mkForest
  (list_to_map [(0, -1); (1, 2); (2, -1); (3, -1); (5, -1); (6, -1)])
  (list_to_map [(0, []); (1, []); (2, [1]); (3, []); (5, []); (6, [])]).

(** The truth value that an operation answers. *)
Definition answer {A} (r : res (bool * A)) : bool :=
  match r with Ok (b, _) => b | Fail _ => false end.

Lemma sample_wf : wf_db sample_family sample_place sample.
Proof. apply db_ok_wf. vm_compute. reflexivity. Qed.
