(* ===== verification/PropertyOps.v ===== *)
(** * Finding, adding and deleting properties: the theorems (src/db_properties.c)

    Each operation is related to what it does to the tables of all objects. *)

From S2P Require Import Prelude CStrings Values Lists Links Db Properties Layout Tables Objects.
From S2P Require Import Sample.

Open Scope Z_scope.

(** ** Who defines what *)

Section who.
Context (F : forest) (d : db) (Hw : wf_props F d).

Lemma along_elem ls k : k ∈ along d ls -> exists z o, z ∈ ls /\ objects d !! z = Some o /\
  k = (z, snd k) /\ snd k ∈ l (propdefs o).
Proof.
  intros (z & Hk & Hz)%list_elem_of_bind. destruct (objects d !! z) as [o|] eqn:Ho; [|set_solver].
  cbn in Hk. apply list_elem_of_fmap in Hk as (p & -> & Hp).
  exists z, o. split_and!; [done|done| |done]. cbn. f_equal. by apply (wf_id d (wp_table _ _ Hw)).
Qed.

Lemma along_defines ls z pname : z ∈ ls -> defines d pname z ->
  exists k, k ∈ along d ls /\ fst k = z /\ ci_eq (pd_name (snd k)) pname.
Proof.
  intros Hz (o & p & Ho & Hp & Hc). exists (z, p). split_and!; [|done|done].
  apply list_elem_of_bind. exists z. split; [|done]. rewrite Ho. cbn.
  apply list_elem_of_fmap. exists p. split; [|done]. f_equal. symmetry.
  by apply (wf_id d (wp_table _ _ Hw)).
Qed.

Lemma schema_below oid y l1 l2 : lineage F y (l1 ++ oid :: l2) ->
  schema d y = along d l1 ++ schema d oid.
Proof.
  intros Hl. rewrite (schema_along F d y _ (wp_family _ _ Hw) (wp_table _ _ Hw) Hl).
  rewrite along_app. f_equal. symmetry.
  apply (schema_along F d oid); [apply Hw..|]. by eapply path_app.
Qed.

Lemma fresh_spec oid pname : is_Some (par F !! oid) -> find_builtin pname = None ->
  (forall k, k ∈ schema d oid -> ~ ci_eq (pd_name (snd k)) pname) ->
  (fresh F d oid pname <-> ~ exists y, below F oid y /\ defines d pname y).
Proof.
  intros Hx Hb Hs. split.
  - intros [_ Hf] (y & Hy & Hd). pose proof Hy as (ls & Hl & Hin).
    destruct (lineage_self F (wp_forest _ _ Hw) y ls) as [ls' ->].
    { by apply (below_valid F (wp_forest _ _ Hw) oid). }
    { done. }
    destruct (along_defines (y :: ls') y pname) as (k & Hk & _ & Hc); [set_solver|done|].
    apply (Hf y k Hy); [|done].
    by rewrite (schema_along F d y _ (wp_family _ _ Hw) (wp_table _ _ Hw) Hl).
  - intros Hn. split; [done|]. intros y k (ls & Hl & Hin) Hk Hc.
    destruct (list_elem_of_split ls oid Hin) as (l1 & l2 & ->).
    rewrite (schema_below oid y l1 l2 Hl), elem_of_app in Hk. destruct Hk as [Hk|Hk]; [|by eapply Hs].
    destruct (along_elem l1 k Hk) as (z & o & Hz & Ho & Hkz & Hp). apply Hn. exists z. split.
    + eapply elem_below; [exact Hl|]. rewrite elem_of_app. by left.
    + by exists o, (snd k).
Qed.

End who.

(** ** Adding a definition *)

(** The tables after an addition: every object at or below [oid] has one cell more, which
    is clear below, and owned by the object itself if the permissions say so. *)
Definition addition (F : forest) (d : db) (oid : Z) (pname : cstr) (pv : Pval) (d' : db) : Prop :=
  same_bones d d' /\
  (forall y, ~ below F oid y -> objects d' !! y = objects d !! y) /\
  (forall o o', objects d !! oid = Some o -> objects d' !! oid = Some o' ->
     l (propdefs o') = l (propdefs o) ++ [dbpriv_new_propdef pname]) /\
  (forall y o, objects d !! y = Some o -> below F oid y -> forall k pv',
     (k, pv') ∈ table d' y <-> (k, pv') ∈ table d y \/
       k = (oid, dbpriv_new_propdef pname) /\
       pv' = chown o (if decide (y = oid) then pv else clear_pval pv)).

Section add.
Context (F : forest) (d : db) (Hw : wf_props F d) (oid : Z) (o : Object).
Context (Ho : objects d !! oid = Some o).
Context (pname : cstr) (Hn : nul_free pname) (Hfresh : fresh F d oid pname).

Let newdef := dbpriv_new_propdef pname.
Context (p' : Proplist) (Hp' : l p' = l (propdefs o) ++ [newdef])
  (Hcap : Z.of_nat (cur_length p') <= max_length p').
Let d1 := redefined d oid o p'.
Let pos := length (l (propdefs o)).

Lemma newdef_ok : def_ok newdef.
Proof. split; [done|done|]. apply Hfresh. Qed.

(** The new definition in the schema of an object below. *)
Lemma schema_added y l1 l2 : lineage F y (l1 ++ oid :: l2) ->
  cell_index d1 oid pos y = (length (along d l1) + pos)%nat /\
  (cell_index d1 oid pos y <= length (schema d y))%nat /\
  schema d1 y = insert_at (cell_index d1 oid pos y) (oid, newdef) (schema d y).
Proof.
  intros Hl. unfold d1. rewrite (cell_index_redefined F d Hw oid o p' Ho pos y l1 l2 Hl).
  destruct (schema_redefined F d Hw oid o p' Ho y l1 l2 Hl) as [-> ->]. rewrite Hp'.
  split; [done|]. split.
  - rewrite !length_app, length_fmap. unfold pos. lia.
  - rewrite fmap_app. cbn. rewrite !app_assoc.
    set (A := along d l1 ++ (pair oid <$> l (propdefs o))).
    replace (length (along d l1) + pos)%nat with (length A).
    2:{ unfold A. rewrite length_app, length_fmap. done. }
    unfold insert_at. rewrite take_app_length, drop_app_length. by rewrite <- app_assoc.
Qed.

Lemma added_defs : wf_defs F d1.
Proof.
  apply (redefined_defs F d Hw oid o p' Ho); [|done|].
  - intros p. rewrite Hp', elem_of_app, list_elem_of_singleton. intros [Hp| ->]; [|apply newdef_ok].
    exact (wp_def F d Hw oid o p Ho Hp).
  - intros x l1 l2 Hl. destruct (schema_added x l1 l2 Hl) as (_ & _ & Hs). fold d1. rewrite Hs.
    unfold insert_at. rewrite fmap_app, fmap_cons, <- Permutation_middle, <- fmap_app, take_drop.
    apply NoDup_cons. split; [|by apply Hw]. intros (k & Hk & Hin)%list_elem_of_fmap.
    destruct Hfresh as [_ Hf]. apply (Hf x k); [|done|exact (eq_sym Hk)].
    eexists. split; [exact Hl|set_solver].
Qed.

Lemma added_cells pv y o' : p_var pv <> Clear -> below F oid y ->
  inserted d1 oid pos pv y o' -> cells_ok d1 y o'.
Proof.
  intros Hpv Hb (o1 & Ho1 & ->). destruct (below_split F oid y Hb) as (l1 & l2 & Hl).
  destruct (schema_added y l1 l2 Hl) as (Hci & Hle & Hs). unfold d1 in Ho1.
  rewrite redefined_lookup in Ho1 by done. apply fmap_Some in Ho1 as (o0 & Ho0 & ->).
  destruct (wf_cells_ok F d y o0 Hw Ho0) as [Hlen Hcl].
  assert (Hpl : propval ((if decide (y = oid) then set_propdefs p' else fun o => o) o0) = propval o0).
  { by case_decide. }
  rewrite Hpl. split; cbn [propval set_propval set_waif_propdefs].
  - rewrite Hs, !length_insert_at. by f_equal.
  - intros n pv' Hn' Hlt. rewrite insert_at_lookup in Hn' by lia.
    destruct (decide (y = oid)) as [->|Hyo].
    + assert (Hnd : ndefs d1 oid = S pos /\ ndefs d oid = pos).
      { unfold ndefs, d1. rewrite redefined_lookup, decide_True, Ho by done. cbn.
        unfold cur_length, pos. rewrite Hp', length_app. cbn. lia. }
      rewrite (lineage_self_split F oid l1 l2 Hl) in Hci. cbn in Hci. rewrite Hci in Hn'.
      case_decide; [eapply Hcl; [done|lia]|]. rewrite decide_True in Hn' by lia.
      injection Hn' as <-. unfold new_cell, chown. rewrite decide_True by done. by case_match.
    + destruct (ndefs_redefined F d Hw oid o p' Ho y l1 l2 Hl Hyo) as [Hnd Hnd'].
      fold d1 in Hnd, Hnd'. rewrite decide_True in Hn' by lia. eapply Hcl; [done|lia].
Qed.

Lemma added_table pv d' : p_var pv <> Clear -> walked F d1 oid (inserted d1 oid pos pv) d' ->
  wf_props F d' /\ addition F d oid pname pv d'.
Proof.
  intros Hpv Hwk. destruct (walked_wf F d1 oid _ d' added_defs Hwk) as [Hwf Hsch].
  { intros x ox. by apply redefined_cells_other. }
  { intros x ox Hb Hd. by eapply added_cells. }
  split; [done|]. split_and!.
  - by eapply walked_bones.
  - intros y. by apply (walked_other F d Hw oid o p' Ho _ d' y Hwk).
  - intros o0 o' Ho0 Ho'. rewrite (walked_own_defs F d oid o p' Ho _ d' o' Hwk Ho').
    replace o0 with o by congruence. exact Hp'.
  - intros y oy Hoy Hb k pv'. destruct (below_split F oid y Hb) as (l1 & l2 & Hl).
    destruct (schema_added y l1 l2 Hl) as (Hci & Hle & Hs).
    destruct (walked_below F d Hw oid o p' Ho _ d' y Hwk Hwf Hb)
      as (o' & oy' & Ho' & Hoy' & (o1 & Ho1 & ->) & Hsame).
    replace oy' with oy in * by congruence. destruct (Hsame o1 Ho1) as [Hpl Hch].
    unfold table. rewrite Ho', Hoy, Hsch, Hs. cbn [from_option propval set_propval set_waif_propdefs].
    rewrite Hpl, zip_insert_at by (try done; symmetry; by apply Hw).
    rewrite elem_insert_at, Hch. unfold new_cell.
    split; [intros [[= -> ->]|?]; [by right|by left]|intros [?|[-> ->]]; [by right|by left]].
Qed.

End add.

Lemma grow_room p : Z.of_nat (cur_length p) <= max_length p ->
  Z.of_nat (cur_length (grow_propdefs p)) < max_length (grow_propdefs p) /\
  l (grow_propdefs p) = l p.
Proof.
  intros H. unfold grow_propdefs.
  destruct (Z.eqb_spec (Z.of_nat (cur_length p)) (max_length p)); [|split; [lia|done]].
  split; [|done]. unfold cur_length in *. cbn. destruct (Z.eqb_spec (max_length p) 0); lia.
Qed.

(** The test for an existing definition decides freshness. *)
Lemma taken_Ok F d oid pname : wf_props F d -> is_Some (objects d !! oid) -> nul_free pname ->
  exists b, (h ← find_property_handle d oid pname;
             match h with
             | Some _ => Ok true
             | None => property_defined_at_or_below d pname (str_hash pname) oid
             end) = Ok b /\ (b = false <-> fresh F d oid pname).
Proof.
  intros Hw Ho Hn. pose proof Ho as Hv. apply (represents_dom family _ F (wp_family _ _ Hw)) in Hv.
  destruct (find_builtin pname) as [bp|] eqn:Hb.
  - unfold find_property_handle. rewrite Hb. exists true. split; [done|].
    split; [done|]. intros [Hf _]. congruence.
  - destruct (find_handle_spec F d oid pname Hw Hn Hb Ho) as (h & -> & Hh). cbn [mbind res_bind].
    destruct h as [[bp x|def x n]|]; [done| |].
    + exists true. split; [done|]. split; [done|]. destruct Hh as (-> & p & Hk & Hc).
      intros [_ Hf]. destruct (Hf oid (def, p)); [by apply below_refl; [apply Hw|]| |done].
      by eapply list_elem_of_lookup_2.
    + destruct (at_or_below_Ok F d pname oid Hw Hn Hv) as (b & -> & Hiff). exists b.
      split; [done|]. rewrite (fresh_spec F d Hw oid pname Hv Hb Hh), <- Hiff.
      destruct b; naive_solver.
Qed.

Lemma add_propdef_Ok F d oid pname value own pflags :
  wf_props F d -> is_Some (objects d !! oid) -> nul_free pname -> value <> Clear ->
  exists b d', db_add_propdef oid pname value own pflags d = Ok (b, d') /\ wf_props F d' /\
    (b = true <-> fresh F d oid pname) /\
    if (b : bool) then addition F d oid pname (mkPval value own (wrap16 pflags)) d' else d' = d.
Proof.
  intros Hw [o Ho] Hn Hv. unfold db_add_propdef.
  destruct (taken_Ok F d oid pname Hw (ex_intro _ o Ho) Hn) as (b & Hb & Hfresh).
  apply res_bind_Ok in Hb as (h & -> & Hb). cbn [mbind res_bind]. rewrite Hb.
  cbn [mbind res_bind]. destruct b.
  { exists false, d. split_and!; [done|done| |done]. split; [done|]. intros H.
    apply Hfresh in H. done. }
  assert (Hf : fresh F d oid pname) by (by apply Hfresh).
  rewrite (find_object_eq d oid (wp_table _ _ Hw)), Ho. cbn [deref mbind res_bind].
  destruct (grow_room (propdefs o) (wp_capacity _ _ Hw oid o Ho)) as [Hroom Hl].
  destruct (Z.geb_spec (Z.of_nat (cur_length (grow_propdefs (propdefs o))))
              (max_length (grow_propdefs (propdefs o)))); [lia|].
  rewrite (upd_object_Ok d oid o _ Ho). cbn [mbind res_bind]. rewrite Hl.
  set (p' := mkProplist _ _). change (with_objects _ d) with (redefined d oid o p').
  assert (Hp' : l p' = l (propdefs o) ++ [dbpriv_new_propdef pname]) by done.
  assert (Hpos : (cur_length p' - 1)%nat = length (l (propdefs o))).
  { unfold cur_length. rewrite Hp', length_app. cbn. lia. }
  rewrite Hpos. pose proof (valid_par F d oid o Hw Ho) as Hval.
  destruct (insert_prop_recursively_Ok F (wp_forest _ _ Hw) (redefined d oid o p')
    (redefined_family F d Hw oid o p' Ho) (redefined_table F d Hw oid o p' Ho) oid
    (length (l (propdefs o))) Hval (mkPval value own (wrap16 pflags))
    (redefined_waif F d Hw oid o p' Ho)) as (d' & -> & Hwk).
  - rewrite (total_redefined F d Hw oid o p' Ho oid Hval).
    destruct (wf_acyclic F (wp_forest _ _ Hw) oid Hval) as [ls Hls].
    destruct (lineage_self F (wp_forest _ _ Hw) oid ls Hval Hls) as [l2 ->].
    destruct (schema_redefined F d Hw oid o p' Ho oid [] l2 Hls) as [_ ->].
    rewrite Hp'. cbn. rewrite length_app, length_fmap, length_app. cbn. lia.
  - intros y oy Hb' Hoy. destruct (below_split F oid y Hb') as (l1 & l2 & Hls).
    rewrite redefined_lookup in Hoy by done. apply fmap_Some in Hoy as (oy0 & Hoy & ->).
    assert (is_Some (par F !! y)) as Hyv by (by eapply valid_par).
    rewrite (total_redefined F d Hw oid o p' Ho y Hyv).
    destruct (schema_added F d Hw oid o Ho pname p' Hp' y l1 l2 Hls) as (_ & _ & ->).
    rewrite length_insert_at, <- (wp_cells _ _ Hw y oy0 Hoy). by case_decide; cbn; lia.
  - cbn [mbind res_bind]. exists true, d'.
    destruct (added_table F d Hw oid o Ho pname Hn Hf p' Hp') with (pv := mkPval value own (wrap16 pflags))
      (d' := d') as [Hwf Hadd]; [|done|done|].
    { unfold cur_length in *. rewrite Hp', length_app. cbn in *. rewrite Hl in Hroom. lia. }
    split_and!; [done|done|done|done].
Qed.

(** C8: Adding a property never faults on a well-formed database.  It is refused, without
    any effect, exactly when the name is a built-in property's or is defined by the object,
    an ancestor or a descendant; otherwise the table of every object at or below gets the
    one new cell (clear below, owned by the object itself when the permissions have the
    [c] bit), every other cell keeps its contents although the arrays are shifted, and the
    invariant on the arrays of all objects is preserved. *)
Theorem db_add_propdef_correct F d oid pname value own pflags :
  wf_props F d -> is_Some (objects d !! oid) -> nul_free pname -> value <> Clear ->
  exists b d', db_add_propdef oid pname value own pflags d = Ok (b, d') /\ wf_props F d' /\
    (b = true <-> fresh F d oid pname) /\
    if (b : bool) then addition F d oid pname (mkPval value own (wrap16 pflags)) d' else d' = d.
Proof. apply add_propdef_Ok. Qed.

Lemma db_add_propdef_correct_witness :
  (exists d', db_add_propdef 0 (lit "z") (Int 1) 1 5 sample = Ok (true, d') /\
     wf_props sample_family d') /\
  db_add_propdef 3 (lit "Q") (Int 1) 1 5 sample = Ok (false, sample).
Proof.
  split.
  - destruct (db_add_propdef_correct sample_family sample 0 (lit "z") (Int 1) 1 5)
      as (b & d' & H & Hw & _ & _).
    + exact (wdb_props _ _ _ sample_wf).
    + vm_compute. eauto.
    + apply (bool_decide_unpack _). vm_compute. exact I.
    + discriminate.
    + pose proof (f_equal answer H) as Hb. vm_compute in Hb. subst b. exists d'. exact (conj H Hw).
  - destruct (db_add_propdef_correct sample_family sample 3 (lit "Q") (Int 1) 1 5)
      as (b & d' & H & _ & _ & Hd).
    + exact (wdb_props _ _ _ sample_wf).
    + vm_compute. eauto.
    + apply (bool_decide_unpack _). vm_compute. exact I.
    + discriminate.
    + pose proof (f_equal answer H) as Hb. vm_compute in Hb. subst b d'. exact H.
Defined.

(** ** Deleting a definition *)

(** The tables after a deletion: the cells of the definition are gone. *)
Definition deletion (F : forest) (d : db) (oid : Z) (pname : cstr) (d' : db) : Prop :=
  same_bones d d' /\
  (forall y, ~ below F oid y -> objects d' !! y = objects d !! y) /\
  (forall y o, objects d !! y = Some o -> below F oid y -> forall k pv,
     (k, pv) ∈ table d' y <->
     (k, pv) ∈ table d y /\ ~ (fst k = oid /\ ci_eq (pd_name (snd k)) pname)).

Section delete.
Context (F : forest) (d : db) (Hw : wf_props F d) (oid : Z) (o : Object).
Context (Ho : objects d !! oid = Some o).
Context (pname : cstr) (i : nat) (p : Propdef) (Hp : l (propdefs o) !! i = Some p)
  (Hname : ci_eq (pd_name p) pname).
Context (p' : Proplist) (Hp' : l p' = remove_at i (l (propdefs o)))
  (Hcap : Z.of_nat (cur_length p') <= max_length p').
Let d1 := redefined d oid o p'.

Lemma pos_lt : (i < length (l (propdefs o)))%nat.
Proof. by eapply lookup_lt_Some. Qed.

Lemma schema_deleted y l1 l2 : lineage F y (l1 ++ oid :: l2) ->
  cell_index d1 oid i y = (length (along d l1) + i)%nat /\
  schema d y !! cell_index d1 oid i y = Some (oid, p) /\
  schema d1 y = remove_at (cell_index d1 oid i y) (schema d y).
Proof.
  intros Hl. unfold d1. rewrite (cell_index_redefined F d Hw oid o p' Ho i y l1 l2 Hl).
  destruct (schema_redefined F d Hw oid o p' Ho y l1 l2 Hl) as [-> ->]. rewrite Hp'.
  pose proof pos_lt as Hlt. split; [done|]. split.
  - rewrite lookup_app_r by lia. replace (_ + i - _)%nat with i by lia.
    rewrite lookup_app_l by (by rewrite length_fmap). by rewrite list_lookup_fmap, Hp.
  - unfold remove_at. rewrite fmap_app, take_app_ge, drop_app_ge by lia.
    replace (length (along d l1) + i - length (along d l1))%nat with i by lia.
    replace (S (length (along d l1) + i) - length (along d l1))%nat with (S i) by lia.
    rewrite take_app_le, drop_app_le by (rewrite length_fmap; lia).
    by rewrite fmap_take, fmap_drop, <- !app_assoc.
Qed.

Lemma deleted_defs : wf_defs F d1.
Proof.
  apply (redefined_defs F d Hw oid o p' Ho); [|done|].
  - intros q Hq. apply (wp_def F d Hw oid o q Ho). rewrite Hp' in Hq.
    by eapply elem_remove_at_in.
  - intros x l1 l2 Hl. destruct (schema_deleted x l1 l2 Hl) as (_ & _ & Hs). fold d1. rewrite Hs.
    eapply sublist_NoDup; [by apply (wp_unique _ _ Hw x)|]. apply fmap_sublist, remove_at_sublist.
Qed.

Lemma deleted_cells y o' : below F oid y -> removed d1 oid i y o' -> cells_ok d1 y o'.
Proof.
  intros Hb (o1 & Ho1 & ->). destruct (below_split F oid y Hb) as (l1 & l2 & Hl).
  destruct (schema_deleted y l1 l2 Hl) as (Hci & Hk & Hs). unfold d1 in Ho1.
  rewrite redefined_lookup in Ho1 by done. apply fmap_Some in Ho1 as (o0 & Ho0 & ->).
  destruct (wf_cells_ok F d y o0 Hw Ho0) as [Hlen Hcl].
  assert (Hpl : propval ((if decide (y = oid) then set_propdefs p' else fun o => o) o0) = propval o0).
  { by case_decide. }
  apply lookup_lt_Some in Hk.
  rewrite Hpl. split; cbn [propval set_propval set_waif_propdefs].
  - apply (inj S). rewrite Hs, !length_remove_at; lia.
  - intros n pv' Hn' Hlt. rewrite remove_at_lookup in Hn' by lia.
    destruct (decide (y = oid)) as [->|Hyo].
    + assert (Hnd : S (ndefs d1 oid) = ndefs d oid).
      { unfold ndefs, d1. rewrite redefined_lookup, decide_True, Ho by done. cbn.
        unfold cur_length. rewrite Hp'. apply length_remove_at, pos_lt. }
      case_decide; (eapply Hcl; [done|lia]).
    + destruct (ndefs_redefined F d Hw oid o p' Ho y l1 l2 Hl Hyo) as [Hnd Hnd'].
      fold d1 in Hnd, Hnd'. rewrite decide_True in Hn' by lia. eapply Hcl; [done|lia].
Qed.

Lemma deleted_table d' : walked F d1 oid (removed d1 oid i) d' ->
  wf_props F d' /\ deletion F d oid pname d'.
Proof.
  intros Hwk. destruct (walked_wf F d1 oid _ d' deleted_defs Hwk) as [Hwf Hsch].
  { intros x ox. by apply redefined_cells_other. }
  { intros x ox Hb Hd. by eapply deleted_cells. }
  split; [done|]. split_and!.
  - by eapply walked_bones.
  - intros y. by apply (walked_other F d Hw oid o p' Ho _ d' y Hwk).
  - intros y oy Hoy Hb k pv. destruct (below_split F oid y Hb) as (l1 & l2 & Hl).
    destruct (schema_deleted y l1 l2 Hl) as (_ & Hk & Hs).
    destruct (walked_below F d Hw oid o p' Ho _ d' y Hwk Hwf Hb)
      as (o' & oy' & Ho' & Hoy' & (o1 & Ho1 & ->) & Hsame).
    replace oy' with oy in * by congruence. destruct (Hsame o1 Ho1) as [Hpl _].
    destruct (lookup_lt_is_Some_2 (propval oy) (cell_index d1 oid i y)) as [pv0 Hpv0].
    { rewrite (wp_cells _ _ Hw y oy Hoy). by eapply lookup_lt_Some. }
    pose proof (table_lookup d y oy _ _ _ Hoy Hk Hpv0) as Ht.
    assert (Htab : table d' y = remove_at (cell_index d1 oid i y) (table d y)).
    { unfold table. rewrite Ho', Hoy, Hsch, Hs. cbn [from_option propval set_propval set_waif_propdefs].
      rewrite Hpl, zip_remove_at; [done|]. symmetry. by apply Hw. }
    rewrite Htab, (elem_remove_at _ _ _ _ (table_NoDup F d y Hw) Ht).
    split; (intros [Hin Hne]; split; [done|]).
    + intros [Hko Hkn]. apply Hne. assert (k = (oid, p)) as ->.
      { apply (schema_name_inj F d y k (oid, p) Hw).
        - by eapply table_schema.
        - by eapply list_elem_of_lookup_2.
        - unfold folded. cbn. unfold ci_eq in *. congruence. }
      f_equal. eapply (table_functional F d y); [done|done|]. by eapply list_elem_of_lookup_2.
    + intros [= -> ->]. by apply Hne.
Qed.

Lemma own_schema q : q ∈ l (propdefs o) -> (oid, q) ∈ schema d oid.
Proof.
  intros Hq. pose proof (valid_par F d oid o Hw Ho) as Hval.
  destruct (wf_acyclic F (wp_forest _ _ Hw) oid Hval) as [ls Hls].
  destruct (lineage_self F (wp_forest _ _ Hw) oid ls Hval Hls) as [l2 ->].
  destruct (schema_redefined F d Hw oid o p' Ho oid [] l2 Hls) as [-> _]. cbn.
  rewrite elem_of_app. left. apply list_elem_of_fmap. eauto.
Qed.

Lemma own_defs_NoDup : NoDup (l (propdefs o)).
Proof.
  pose proof (valid_par F d oid o Hw Ho) as Hval.
  destruct (wf_acyclic F (wp_forest _ _ Hw) oid Hval) as [ls Hls].
  destruct (lineage_self F (wp_forest _ _ Hw) oid ls Hval Hls) as [l2 ->].
  destruct (schema_redefined F d Hw oid o p' Ho oid [] l2 Hls) as [Hs _].
  pose proof (wp_unique _ _ Hw oid) as Hu. rewrite Hs in Hu. cbn in Hu.
  apply NoDup_fmap_1, NoDup_app in Hu as [Hu _]. by eapply NoDup_fmap_1.
Qed.

Lemma deleted_undefined d' : walked F d1 oid (removed d1 oid i) d' -> ~ defines d' pname oid.
Proof.
  intros Hwk (o' & q & Ho' & Hq & Hc).
  rewrite (walked_own_defs F d oid o p' Ho _ d' o' Hwk Ho'), Hp' in Hq.
  apply (elem_remove_at i p q) in Hq as [Hq Hqp]; [|apply own_defs_NoDup|done]. apply Hqp.
  assert ((oid, q) = (oid, p)) as [= ->]; [|done]. apply (schema_name_inj F d oid).
  - done.
  - by apply own_schema.
  - apply own_schema. by eapply list_elem_of_lookup_2.
  - unfold folded. cbn. unfold ci_eq in *. congruence.
Qed.

End delete.

Lemma own_def_spec F d oid o pname : wf_props F d -> objects d !! oid = Some o ->
  nul_free pname ->
  match own_def o pname with
  | Some i => exists p, l (propdefs o) !! i = Some p /\ ci_eq (pd_name p) pname
  | None => ~ defines d pname oid
  end.
Proof.
  intros Hw Ho Hn. unfold own_def. rewrite find_def_spec.
  destruct (list_find _ (l (propdefs o))) as [[i p]|] eqn:E.
  - apply list_find_Some in E as (Hi & Hs & _). exists p. split; [done|].
    apply same_prop_spec in Hs; [done| |done]. eapply (wp_def _ _ Hw oid o p Ho).
    by eapply list_elem_of_lookup_2.
  - intros (o' & p & Ho' & Hp & Hc). replace o' with o in Hp by congruence.
    apply list_find_None in E. rewrite Forall_forall in E. apply (E p Hp).
    apply same_prop_spec; [by apply (wp_def _ _ Hw oid o p Ho)|done|done].
Qed.

Lemma shrink_room p i : (i < cur_length p)%nat -> Z.of_nat (cur_length p) <= max_length p ->
  l (shrink_propdefs p i) = remove_at i (l p) /\
  Z.of_nat (cur_length (shrink_propdefs p i)) <= max_length (shrink_propdefs p i).
Proof.
  intros Hi Hm. split; [done|]. pose proof (length_remove_at i (l p) Hi) as Hl.
  unfold cur_length, shrink_propdefs in *. cbn. unfold remove_at in Hl.
  destruct (_ && _) eqn:E; [|lia]. apply andb_true_iff in E as [E1 E2].
  apply Z.gtb_lt in E1. apply Z.leb_le in E2.
  unfold cur_length in E2. dlia.
Qed.

Lemma delete_propdef_Ok F d oid pname :
  wf_props F d -> is_Some (objects d !! oid) -> nul_free pname ->
  exists b d', db_delete_propdef oid pname d = Ok (b, d') /\ wf_props F d' /\
    (b = true <-> defines d pname oid) /\
    if (b : bool) then deletion F d oid pname d' /\ ~ defines d' pname oid else d' = d.
Proof.
  intros Hw [o Ho] Hn. unfold db_delete_propdef.
  rewrite (find_object_eq d oid (wp_table _ _ Hw)), Ho. cbn [deref mbind res_bind].
  pose proof (own_def_spec F d oid o pname Hw Ho Hn) as Hown.
  destruct (own_def o pname) as [i|].
  2:{ exists false, d. split_and!; [done|done| |done]. done. }
  destruct Hown as (p & Hp & Hname).
  assert (Hdef : defines d pname oid).
  { exists o, p. split_and!; [done| |done]. by eapply list_elem_of_lookup_2. }
  pose proof (lookup_lt_Some _ _ _ Hp) as Hi.
  destruct (shrink_room (propdefs o) i Hi (wp_capacity _ _ Hw oid o Ho)) as [Hp' Hcap].
  rewrite (upd_object_Ok d oid o _ Ho). cbn [mbind res_bind].
  set (p' := shrink_propdefs _ _) in *. change (with_objects _ d) with (redefined d oid o p').
  pose proof (valid_par F d oid o Hw Ho) as Hval.
  destruct (remove_prop_recursively_Ok F (wp_forest _ _ Hw) (redefined d oid o p')
    (redefined_family F d Hw oid o p' Ho) (redefined_table F d Hw oid o p' Ho) oid i Hval
    (redefined_waif F d Hw oid o p' Ho)) as (d' & -> & Hwk).
  - rewrite (total_redefined F d Hw oid o p' Ho oid Hval).
    destruct (wf_acyclic F (wp_forest _ _ Hw) oid Hval) as [ls Hls].
    destruct (lineage_self F (wp_forest _ _ Hw) oid ls Hval Hls) as [l2 ->].
    destruct (schema_redefined F d Hw oid o p' Ho oid [] l2 Hls) as [_ ->].
    rewrite Hp'. cbn. rewrite length_app, length_fmap.
    pose proof (length_remove_at i (l (propdefs o)) Hi). lia.
  - intros y oy Hb' Hoy. destruct (below_split F oid y Hb') as (l1 & l2 & Hls).
    rewrite redefined_lookup in Hoy by done. apply fmap_Some in Hoy as (oy0 & Hoy & ->).
    assert (is_Some (par F !! y)) as Hyv by (by eapply valid_par).
    rewrite (total_redefined F d Hw oid o p' Ho y Hyv).
    destruct (schema_deleted F d Hw oid o Ho i p Hp p' Hp' y l1 l2 Hls) as (_ & Hk & ->).
    rewrite length_remove_at by (by eapply lookup_lt_Some).
    rewrite <- (wp_cells _ _ Hw y oy0 Hoy). by case_decide.
  - cbn [mbind res_bind]. exists true, d'.
    destruct (deleted_table F d Hw oid o Ho pname i p Hp Hname p' Hp' Hcap d' Hwk) as [Hwf Hdel].
    split_and!; [done|done|done|done|].
    by apply (deleted_undefined F d Hw oid o Ho pname i p Hp Hname p' Hp' d').
Qed.

(** C9: Deleting a property never faults on a well-formed database.  It is refused, without
    any effect, exactly when the object itself does not define that name; otherwise the
    definition and its cell in the table of every object at or below are gone, every other
    cell of every object keeps its contents, and the invariant on the arrays is
    preserved. *)
Theorem db_delete_propdef_correct F d oid pname :
  wf_props F d -> is_Some (objects d !! oid) -> nul_free pname ->
  exists b d', db_delete_propdef oid pname d = Ok (b, d') /\ wf_props F d' /\
    (b = true <-> defines d pname oid) /\
    if (b : bool) then deletion F d oid pname d' /\ ~ defines d' pname oid else d' = d.
Proof. apply delete_propdef_Ok. Qed.

Lemma db_delete_propdef_correct_witness :
  (exists d', db_delete_propdef 0 (lit "P") sample = Ok (true, d') /\ wf_props sample_family d' /\
     ~ defines d' (lit "P") 0) /\
  db_delete_propdef 1 (lit "p") sample = Ok (false, sample).
Proof.
  split.
  - destruct (db_delete_propdef_correct sample_family sample 0 (lit "P"))
      as (b & d' & H & Hw & _ & Hd).
    + exact (wdb_props _ _ _ sample_wf).
    + vm_compute. eauto.
    + apply (bool_decide_unpack _). vm_compute. exact I.
    + pose proof (f_equal answer H) as Hb. vm_compute in Hb. subst b. exists d'.
      exact (conj H (conj Hw (proj2 Hd))).
  - destruct (db_delete_propdef_correct sample_family sample 1 (lit "p"))
      as (b & d' & H & _ & _ & Hd).
    + exact (wdb_props _ _ _ sample_wf).
    + vm_compute. eauto.
    + apply (bool_decide_unpack _). vm_compute. exact I.
    + pose proof (f_equal answer H) as Hb. vm_compute in Hb. subst b d'. exact H.
Defined.

(** ** Finding a property *)

Lemma value_of_not_clear d x k v : value_of d x k v -> v <> Clear.
Proof. by induction 1. Qed.

Lemma find_property_Ok F d oid name :
  wf_props F d -> is_Some (objects d !! oid) -> nul_free name -> find_builtin name = None ->
  exists r, db_find_property d oid name = Ok r /\
    match r with
    | None => forall k, k ∈ schema d oid -> ~ ci_eq (pd_name (snd k)) name
    | Some (BuiltIn _ _, _) => False
    | Some (Slot def x n, v) => x = oid /\ v <> Clear /\
        exists p, schema d oid !! n = Some (def, p) /\ ci_eq (pd_name p) name /\
          forall w, value_of d oid (def, p) w <-> w = v
    end.
Proof.
  intros Hw Hx Hn Hb. destruct (find_handle_spec F d oid name Hw Hn Hb Hx) as (h & Hh & Hspec).
  unfold db_find_property. rewrite Hh. cbn [mbind res_bind]. destruct Hx as [o Ho].
  destruct h as [[bp x|def x n]|]; [done| |by exists None].
  destruct Hspec as (-> & p & Hp & Hc). rewrite (find_object_eq d oid (wp_table _ _ Hw)), Ho.
  cbn [deref mbind res_bind]. pose proof (valid_par F d oid o Hw Ho) as Hv.
  destruct (wf_acyclic F (wp_forest _ _ Hw) oid Hv) as [ls Hl].
  destruct (resolve_clear_Ok F d Hw ls oid o n (def, p) (S (size (objects d))) Hl Ho Hp)
    as (v & -> & Hval).
  { assert (length ls <= size (objects d))%nat; [|lia]. eapply path_length; [exact Hl|].
    intros y. by rewrite (represents_dom family _ F (wp_family _ _ Hw)). }
  cbn [mbind res_bind]. eexists. split; [done|]. cbn. split; [done|].
  split; [by eapply value_of_not_clear|]. exists p. split_and!; [done|done|].
  intros w. split; [|by intros ->]. intros Hw'. by apply (value_of_functional F d oid (def, p)).
Qed.

(** C14: Looking up a property that is not a built-in one never faults and always ends: it
    fails exactly when neither the object nor an ancestor defines the name; otherwise the
    handle is the object's own cell for the definition (whose definer it names), and the
    value is the one of the nearest ancestor, or the object itself, whose cell is not
    clear.  That value is unique and never clear. *)
Theorem db_find_property_correct F d oid name :
  wf_props F d -> is_Some (objects d !! oid) -> nul_free name -> find_builtin name = None ->
  exists r, db_find_property d oid name = Ok r /\
    match r with
    | None => forall k, k ∈ schema d oid -> ~ ci_eq (pd_name (snd k)) name
    | Some (BuiltIn _ _, _) => False
    | Some (Slot def x n, v) => x = oid /\ v <> Clear /\
        exists p, schema d oid !! n = Some (def, p) /\ ci_eq (pd_name p) name /\
          forall w, value_of d oid (def, p) w <-> w = v
    end.
Proof. apply find_property_Ok. Qed.

Lemma db_find_property_correct_witness :
  exists k, db_find_property sample 5 (lit "P") = Ok (Some (Slot 0 5 1, Int 5)) /\
    schema sample 5 !! 1%nat = Some (0, k) /\ value_of sample 5 (0, k) (Int 5).
Proof.
  destruct (db_find_property_correct sample_family sample 5 (lit "P")) as (r & Hr & H).
  - exact (wdb_props _ _ _ sample_wf).
  - vm_compute. eauto.
  - apply (bool_decide_unpack _). vm_compute. exact I.
  - reflexivity.
  - assert (E : db_find_property sample 5 (lit "P") = Ok (Some (Slot 0 5 1, Int 5)))
      by (vm_compute; reflexivity).
    rewrite E in Hr. injection Hr as <-. destruct H as (_ & _ & p & Hp & _ & Hv).
    exists p. split; [exact E|]. split; [exact Hp|]. by apply Hv.
Defined.
