(* ===== verification/RenameProp.v ===== *)
(** * Renaming properties: the theorem (src/db_properties.c)

    A definition gets another name in place; the cells stay where they are, and the tables
    of all objects at or below have them under the new name. *)

From S2P Require Import Prelude CStrings Values Lists Links Db Properties Layout Tables Objects.
From S2P Require Import Sample PropertyOps.

Open Scope Z_scope.

(** ** Names that differ in case only *)

Lemma ptable_nul_free : Forall (fun e => nul_free (fst e)) ptable.
Proof. repeat (constructor; [apply (bool_decide_unpack _); vm_compute; exact I|]). constructor. Qed.

Lemma find_builtin_ci s t : nul_free s -> nul_free t -> ci_eq s t -> find_builtin s = find_builtin t.
Proof.
  intros Hs Ht Hst. unfold find_builtin. f_equal. apply find_ext. intros e He.
  pose proof (proj1 (Forall_forall _ _) ptable_nul_free e He) as Hn. rewrite (str_hash_ci_eq s t Hst). f_equal.
  apply eq_true_iff_eq. rewrite !Z.eqb_eq, !mystrcasecmp_zero by done. unfold ci_eq in *. by rewrite Hst.
Qed.

(** ** The waif tables *)

Section walk.
Context (F : forest) (d : db) (Hw : wf_props F d) (root : Z) (old new : cstr).

(** A name of a waif property stays one only together with its table. *)
Definition no_waif_rename : Prop := (cur old =? WAIF_PROP_PREFIX) && (cur new =? WAIF_PROP_PREFIX) = false.

Definition untabled (y : Z) (o' : Object) : Prop :=
  exists o, objects d !! y = Some o /\ o' = set_waif_propdefs None o.

Lemma rename_walk_Ok : no_waif_rename -> is_Some (par F !! root) ->
  exists d', rename_prop_recursively root old new d = Ok d' /\ walked F d root untabled d'.
Proof.
  intros Hno Hroot. unfold rename_prop_recursively.
  apply (walked_of_walk F (wp_forest _ _ Hw) d (wp_family _ _ Hw) (wp_table _ _ Hw) root Hroot
    _ (fun _ _ u => u) (fun _ => tt) untabled); [apply Hw| |done].
  intros x d1 Hx Hf Hwp _ Hsame _. pose proof (framed_table d d1 Hf (wp_table _ _ Hw)) as Ht.
  destruct (below_valid F (wp_forest _ _ Hw) root x Hx) as [Hxv _].
  destruct (proj2 (represents_dom family _ F (wp_family _ _ Hw) x) Hxv) as [o Ho]. rewrite Ho in Hsame.
  rewrite (find_object_eq d1 x Ht), Hsame. cbn [deref mbind res_bind].
  destruct (waif_propdefs o) as [p|] eqn:Hp.
  - destruct (drop_waif_Ok d1 x o Ht Hwp Hsame) as (d2 & H2 & Hf2 & Hw2 & Ho2).
    unfold waif_rename_propdef. rewrite (find_object_eq d1 x Ht), Hsame. cbn [deref mbind res_bind].
    rewrite Hp. cbn [deref mbind res_bind]. rewrite Hno, H2.
    exists d2, (set_waif_propdefs None o). split_and!; [done|by etrans|done|done|by exists o].
  - assert (E : set_waif_propdefs None o = o) by (destruct o; cbn in *; by rewrite Hp).
    exists d1, o. split_and!; [done|done|done|by rewrite insert_id|]. exists o. by rewrite E.
Qed.

Lemma untabled_wf d' : walked F d root untabled d' -> wf_props F d' /\ (forall y, schema d' y = schema d y) /\
  forall y, propval <$> objects d' !! y = propval <$> objects d !! y.
Proof.
  intros Hwk. assert (Hd : wf_defs F d) by (destruct Hw; by split).
  destruct (walked_wf F d root _ d' Hd Hwk) as [Hwf Hs].
  - intros y o Ho _. by apply (wf_cells_ok F).
  - intros y o' _ (o & Ho & ->). by apply (wf_cells_ok F d y o).
  - split; [done|]. split; [done|]. intros y. destruct Hwk as (_ & _ & Hout & Hin).
    destruct (below_or_not F root y (wp_forest _ _ Hw)) as [Hb|Hb]; [|by rewrite Hout].
    destruct (below_valid F (wp_forest _ _ Hw) root y Hb) as [Hyv _].
    destruct (proj2 (represents_dom family _ F (wp_family _ _ Hwf) y) Hyv) as [o' Ho'].
    destruct (Hin y o' Hb Ho') as (o & Ho & ->). by rewrite Ho', Ho.
Qed.
End walk.

(** ** The definition *)

#[export] Instance Propdef_eq_dec : EqDecision Propdef.
Proof. solve_decision. Defined.

Lemma zip_fmap_l {A B C} (f : A -> B) (xs : list A) (ys : list C) :
  zip (f <$> xs) ys = (fun xy => (f (fst xy), snd xy)) <$> zip xs ys.
Proof. revert ys. induction xs as [|x xs IH]; intros [|y ys]; cbn; f_equal; auto. Qed.

(** A definition under its new name. *)
Definition renamed (k0 k1 k : key) : key := if decide (k = k0) then k1 else k.

Section rename.
Context (F : forest) (d : db) (Hw : wf_props F d) (oid : Z) (o : Object).
Context (Ho : objects d !! oid = Some o).
Context (new : cstr) (Hn : nul_free new) (i : nat) (p : Propdef) (Hp : l (propdefs o) !! i = Some p).
Context (Hnew : ci_eq (pd_name p) new \/ fresh F d oid new).

Let q := dbpriv_new_propdef new.
Let p' := mkProplist (max_length (propdefs o)) (<[i := q]> (l (propdefs o))).
Let d1 := redefined d oid o p'.

Lemma renamed_ok : def_ok q.
Proof.
  split; [done|done|]. change (find_builtin new = None). destruct Hnew as [Hci|[Hb _]]; [|done].
  destruct (wp_def _ _ Hw oid o p Ho (list_elem_of_lookup_2 _ _ _ Hp)) as [Hpn _ Hpb].
  by rewrite <- (find_builtin_ci (pd_name p) new).
Qed.

(** Where the definition is in the schema of an object below. *)
Lemma schema_after_rename y l1 l2 : lineage F y (l1 ++ oid :: l2) ->
  let n := (length (along d l1) + i)%nat in
  schema d y !! n = Some (oid, p) /\ schema d1 y = <[n := (oid, q)]> (schema d y).
Proof.
  intros Hl n. unfold d1. destruct (schema_redefined F d Hw oid o p' Ho y l1 l2 Hl) as [-> ->].
  pose proof (lookup_lt_Some _ _ _ Hp) as Hi. unfold n. split.
  - rewrite lookup_app_r by lia. replace (_ + i - _)%nat with i by lia.
    rewrite lookup_app_l by (by rewrite length_fmap). by rewrite list_lookup_fmap, Hp.
  - rewrite insert_app_r, insert_app_l by (by rewrite length_fmap). f_equal. f_equal.
    cbn. by rewrite list_fmap_insert.
Qed.

Lemma NoDup_renamed {A} (xs : list A) n x y : NoDup xs -> xs !! n = Some x -> y = x \/ y ∉ xs ->
  NoDup (<[n := y]> xs).
Proof.
  intros Hnd Hx [->|Hy]; [by rewrite list_insert_id|]. pose proof (lookup_lt_Some _ _ _ Hx) as Hlt.
  pose proof (take_drop_middle xs n x Hx) as E. rewrite insert_take_drop by done.
  rewrite <- E in Hnd, Hy. rewrite elem_of_app, elem_of_cons in Hy.
  apply NoDup_app in Hnd as (H1 & H2 & [_ H3]%NoDup_cons). apply NoDup_app. split_and!; [done| |].
  - intros z Hz [->|Hz2]%elem_of_cons; [tauto|]. apply (H2 z Hz), elem_of_cons. by right.
  - apply NoDup_cons. tauto.
Qed.

Lemma renamed_defs : wf_defs F d1.
Proof.
  apply (redefined_defs F d Hw oid o p' Ho).
  - intros r Hr. cbn in Hr. apply list_elem_of_lookup_1 in Hr as [j Hr].
    apply list_lookup_insert_Some in Hr as [(_ & <- & _)|[_ Hr]]; [apply renamed_ok|].
    eapply (wp_def _ _ Hw oid o), list_elem_of_lookup_2; done.
  - unfold cur_length. cbn. rewrite length_insert. by apply (wp_capacity _ _ Hw oid o).
  - intros y l1 l2 Hl. destruct (schema_after_rename y l1 l2 Hl) as [Hk Hs]. fold d1. rewrite Hs, list_fmap_insert.
    eapply NoDup_renamed; [by apply (wp_unique _ _ Hw y)|by rewrite list_lookup_fmap, Hk|].
    destruct Hnew as [Hci|[_ Hf]]; [left; by symmetry|right].
    intros (k & Hk2 & Hin)%list_elem_of_fmap. apply (Hf y k); [|done|exact (eq_sym Hk2)].
    eexists. split; [exact Hl|]. apply elem_of_app. right. apply list_elem_of_here.
Qed.

(** Every schema has the definition under its new name, and is otherwise the same. *)
Lemma schema_all_renamed y : schema d1 y = renamed (oid, p) (oid, q) <$> schema d y.
Proof.
  destruct (below_or_not F oid y (wp_forest _ _ Hw)) as [Hb|Hb].
  - destruct (below_split F oid y Hb) as (l1 & l2 & Hl). destruct (schema_after_rename y l1 l2 Hl) as [Hk ->].
    set (n := (length (along d l1) + i)%nat) in *. pose proof (lookup_lt_Some _ _ _ Hk) as Hlt.
    apply list_eq. intros j. rewrite list_lookup_fmap. destruct (decide (j = n)) as [->|Hj].
    + rewrite list_lookup_insert_eq, Hk by done. cbn. unfold renamed. by rewrite decide_True.
    + rewrite list_lookup_insert_ne by done. destruct (schema d y !! j) as [k|] eqn:E; [|done]. cbn. f_equal.
      unfold renamed. rewrite decide_False; [done|]. intros ->. apply Hj.
      eapply (NoDup_lookup (folded <$> schema d y)); [by apply (wp_unique _ _ Hw)|..];
        rewrite list_lookup_fmap; [by rewrite E|by rewrite Hk].
  - unfold d1. rewrite (schema_redefined_other F d) by done. rewrite <- (list_fmap_id (schema d y)) at 1.
    apply list_fmap_ext. intros j k Hk. cbn. unfold renamed. rewrite decide_False; [done|]. intros ->.
    apply Hb. destruct (par F !! y) as [z|] eqn:Hy.
    + destruct (wf_acyclic F (wp_forest _ _ Hw) y) as [ls Hl]; [by eexists|].
      rewrite (schema_along F d y ls (wp_family _ _ Hw) (wp_table _ _ Hw) Hl) in Hk.
      apply list_elem_of_lookup_2 in Hk. destruct (along_elem F d Hw ls _ Hk) as (z' & _ & Hz & _ & Ez & _).
      injection Ez as ->. by exists ls.
    + by rewrite (schema_invalid F d y (wp_family _ _ Hw) (wp_table _ _ Hw) Hy) in Hk.
Qed.

Lemma renamed_wf : wf_props F d1 /\
  forall y, table d1 y = (fun kv : key * Pval => (renamed (oid, p) (oid, q) (fst kv), snd kv)) <$> table d y.
Proof.
  assert (Hpv : forall y, propval <$> objects d1 !! y = propval <$> objects d !! y)
    by (intros y; by apply redefined_field).
  assert (Hlook : forall y oy, objects d1 !! y = Some oy -> exists oy0, objects d !! y = Some oy0 /\
            propval oy = propval oy0 /\ ndefs d1 y = ndefs d y).
  { intros y oy Hy. unfold d1 in Hy. rewrite redefined_lookup in Hy by done.
    apply fmap_Some in Hy as (oy0 & Hy & ->). exists oy0. split; [done|]. split; [by case_decide|].
    unfold ndefs, d1. rewrite redefined_lookup, Hy by done. cbn. unfold cur_length.
    case_decide as Hd; [|done]. subst y. replace oy0 with o by congruence. cbn. by rewrite length_insert. }
  assert (Hcells : forall y oy, objects d1 !! y = Some oy -> cells_ok d1 y oy).
  { intros y oy Hy. destruct (Hlook y oy Hy) as (oy0 & Hy0 & E & Hnd).
    destruct (wf_cells_ok F d y oy0 Hw Hy0) as [H1 H2]. split; [|by rewrite Hnd, E].
    by rewrite E, H1, schema_all_renamed, length_fmap. }
  split.
  - apply (walked_wf F d1 oid (fun y oy => objects d1 !! y = Some oy) d1 renamed_defs).
    + split; [done|]. split; [by apply (redefined_waif F)|]. done.
    + intros y oy Hy _. by apply Hcells.
    + intros y oy _ Hy. by apply Hcells.
  - intros y. unfold table. rewrite schema_all_renamed.
    assert (E : from_option propval [] (objects d1 !! y) = from_option propval [] (objects d !! y)).
    { specialize (Hpv y). destruct (objects d1 !! y), (objects d !! y); cbn in *; congruence. }
    rewrite E. apply zip_fmap_l.
Qed.

End rename.

(** The test for a new name that is taken. *)
Lemma rename_taken_Ok F d oid old new : wf_props F d -> is_Some (objects d !! oid) ->
  nul_free old -> nul_free new ->
  exists b, (if negb (mystrcasecmp old new =? 0) then
               h ← find_property_handle d oid new;
               match h with
               | Some _ => Ok true
               | None => property_defined_at_or_below d new (str_hash new) oid
               end
             else Ok false) = Ok b /\ (b = false <-> ci_eq old new \/ fresh F d oid new).
Proof.
  intros Hw Ho Hold Hnew. pose proof (mystrcasecmp_zero old new Hold Hnew) as Hz.
  destruct (Z.eqb_spec (mystrcasecmp old new) 0) as [E|E]; cbn [negb].
  - exists false. split; [done|]. split; [|done]. intros _. left. by apply Hz.
  - destruct (taken_Ok F d oid new Hw Ho Hnew) as (b & -> & Hb). exists b. split; [done|].
    rewrite Hb. split; [by right|]. intros [Hci|?]; [|done]. by destruct E; apply Hz.
Qed.

Lemma no_waif_rename_ci old old' new : ci_eq old old' -> no_waif_rename old new -> no_waif_rename old' new.
Proof.
  unfold no_waif_rename. intros Hci <-. f_equal.
  assert (Hc : forall c, (ord c =? 58) = (cmap (ord c) =? 58)).
  { intros c. apply eqb_prop. apply (byte_forall (fun z => Bool.eqb (z =? 58) (cmap z =? 58))); [vm_compute; reflexivity|].
    apply ord_range. }
  unfold WAIF_PROP_PREFIX. destruct old as [|a s], old' as [|b s']; try done. rewrite !cur_cons, !Hc.
  by injection Hci as -> _.
Qed.

Lemma rename_propdef_Ok F d oid old new : wf_props F d -> is_Some (objects d !! oid) ->
  nul_free old -> nul_free new -> no_waif_rename old new ->
  exists b d', db_rename_propdef oid old new d = Ok (b, d') /\ wf_props F d' /\
    (b = true <-> defines d old oid /\ (ci_eq old new \/ fresh F d oid new)) /\
    if (b : bool) then
      same_bones d d' /\ exists p, ci_eq (pd_name p) old /\ (oid, p) ∈ schema d oid /\
        let r := renamed (oid, p) (oid, dbpriv_new_propdef new) in
        forall y, schema d' y = r <$> schema d y /\
          table d' y = (fun kv : key * Pval => (r (fst kv), snd kv)) <$> table d y
    else d' = d.
Proof.
  intros Hw Hx Hold Hnew Hno. pose proof Hx as [o Ho]. unfold db_rename_propdef.
  rewrite (find_object_eq d oid (wp_table _ _ Hw)), Ho. cbn [deref mbind res_bind].
  pose proof (own_def_spec F d oid o old Hw Ho Hold) as Hown. destruct (own_def o old) as [i|].
  2: { exists false, d. split_and!; [done|done| |done]. split; [done|]. by intros [? _]. }
  destruct Hown as (p & Hp & Hname). pose proof (list_elem_of_lookup_2 _ _ _ Hp) as Hin.
  assert (Hdef : defines d old oid) by (by exists o, p).
  destruct (rename_taken_Ok F d oid old new Hw Hx Hold Hnew) as (b & -> & Hb). cbn [mbind res_bind].
  destruct b; cbn iota.
  { exists false, d. split_and!; [done|done| |done]. split; [done|]. intros [_ H%Hb]. done. }
  pose proof (proj1 Hb eq_refl) as Hcase. rewrite Hp. cbn [deref mbind res_bind].
  pose proof (valid_par F d oid o Hw Ho) as Hval.
  destruct (rename_walk_Ok F d Hw oid (pd_name p) new) as (d1 & -> & Hwk);
    [by apply (no_waif_rename_ci old)|done|]. cbn [mbind res_bind].
  destruct (untabled_wf F d Hw oid d1 Hwk) as (Hw1 & Hs1 & Hpv1).
  assert (Ho1 : objects d1 !! oid = Some (set_waif_propdefs None o)).
  { destruct Hwk as (_ & _ & _ & Hdone). destruct (proj2 (represents_dom family _ F (wp_family _ _ Hw1) oid) Hval) as [o1 Ho1].
    destruct (Hdone oid o1 (below_refl F (wp_forest _ _ Hw) oid Hval) Ho1) as (o0 & Ho0 & ->). congruence. }
  set (o1 := set_waif_propdefs None o) in *.
  rewrite (upd_object_Ok d1 oid o1) by done. cbn [mbind res_bind].
  assert (Hnew1 : ci_eq (pd_name p) new \/ fresh F d1 oid new).
  { destruct Hcase as [Hci|[Hf1 Hf2]]; [left; by etrans|right]. split; [done|]. intros y k. rewrite Hs1. apply Hf2. }
  destruct (renamed_wf F d1 Hw1 oid o1 Ho1 new Hnew i p Hp Hnew1) as [Hw2 Ht2].
  do 2 eexists. split; [done|]. split; [exact Hw2|]. split; [by split|]. split.
  - assert (Hb1 : same_bones d d1) by (split; [apply Hwk|]; intros y; apply (framed_field bones); [done|apply Hwk]).
    destruct Hb1 as [E1 E2]. split; [exact E1|]. intros y. rewrite <- E2. by apply (redefined_field d1 oid o1 _ Ho1 bones).
  - exists p. split; [done|]. split.
    { rewrite <- Hs1. apply (own_schema F d1 Hw1 oid o1 Ho1 (propdefs o1) p). by eapply list_elem_of_lookup_2. }
    intros y. split; [by rewrite (schema_all_renamed F d1 Hw1 oid o1 Ho1 new i p Hp), Hs1|].
    rewrite Ht2. f_equal. unfold table. rewrite Hs1. f_equal. specialize (Hpv1 y). destruct (objects d1 !! y), (objects d !! y); cbn in *; congruence.
Qed.

(** C15: Renaming a property never faults (unless it turns one waif property into another,
    which is left out here).  It is refused, without any effect, exactly when the object does
    not define the old name, or the new one differs by more than case and is taken; otherwise
    every object has the same cells as before, those of the definition under its new name. *)
Theorem db_rename_propdef_correct F d oid old new : wf_props F d -> is_Some (objects d !! oid) ->
  nul_free old -> nul_free new -> no_waif_rename old new ->
  exists b d', db_rename_propdef oid old new d = Ok (b, d') /\ wf_props F d' /\
    (b = true <-> defines d old oid /\ (ci_eq old new \/ fresh F d oid new)) /\
    if (b : bool) then
      same_bones d d' /\ exists p, ci_eq (pd_name p) old /\ (oid, p) ∈ schema d oid /\
        let r := renamed (oid, p) (oid, dbpriv_new_propdef new) in
        forall y, schema d' y = r <$> schema d y /\
          table d' y = (fun kv : key * Pval => (r (fst kv), snd kv)) <$> table d y
    else d' = d.
Proof. apply rename_propdef_Ok. Qed.

Lemma db_rename_propdef_correct_witness : exists d', db_rename_propdef 2 (lit "q") (lit "Quux") sample = Ok (true, d') /\
  wf_props sample_family d' /\ exists p, ci_eq (pd_name p) (lit "q") /\ forall y,
    schema d' y = renamed (2, p) (2, dbpriv_new_propdef (lit "Quux")) <$> schema sample y.
Proof.
  destruct (db_rename_propdef_correct sample_family sample 2 (lit "q") (lit "Quux")) as (b & d' & H & Hw & _ & Ht).
  - exact (wdb_props _ _ _ sample_wf).
  - vm_compute. eauto.
  - apply (bool_decide_unpack _). vm_compute. exact I.
  - apply (bool_decide_unpack _). vm_compute. exact I.
  - vm_compute. reflexivity.
  - pose proof (f_equal answer H) as Hb. vm_compute in Hb. subst b. exists d'. split; [exact H|].
    split; [exact Hw|]. destruct Ht as (_ & p & Hp & _ & Ht). exists p. split; [exact Hp|].
    intros y. exact (proj1 (Ht y)).
Defined.
