(* ===== verification/Reparent.v ===== *)
(** * Changing parents: lemmas (src/db_objects.c, src/db_properties.c)

    How a change of parent changes lineages and schemas, and what
    [dbpriv_fix_properties_after_chparent] makes of the arrays below. *)

From S2P Require Import Prelude CStrings Values Lists Links Db Properties Layout Tables Objects.
From S2P Require Import PropertyOps.

Open Scope Z_scope.

(** ** The test for clashing names *)

(** No name that [new] has is defined at or below [oid]. *)
Definition compatible (F : forest) (d : db) (oid new : Z) : Prop :=
  forall k y, k ∈ schema d new -> below F oid y -> ~ defines d (pd_name (snd k)) y.

Lemma any_res_bind {A B} (f : A -> res bool) (g : B -> list A) (P : A -> Prop) (xs : list B) :
  (forall x a, x ∈ xs -> a ∈ g x -> exists b, f a = Ok b /\ (b = true <-> P a)) ->
  exists b, any_res (fun x => any_res f (g x)) xs = Ok b /\
    (b = true <-> exists a, a ∈ (xs ≫= g) /\ P a).
Proof.
  intros H. destruct (any_res_Ok (fun x => any_res f (g x)) (fun x => exists a, a ∈ g x /\ P a) xs)
    as (b & Hb & Hiff).
  { intros x Hx. apply any_res_Ok. intros a Ha. by apply (H x). }
  exists b. split; [done|]. rewrite Hiff. setoid_rewrite list_elem_of_bind. naive_solver.
Qed.

Lemma check_Ok F d oid new : wf_props F d -> is_Some (par F !! oid) ->
  new = NOTHING \/ is_Some (par F !! new) ->
  exists b, dbpriv_check_properties_for_chparent d oid new = Ok b /\
    (b = true <-> compatible F d oid new).
Proof.
  intros Hw Ho Hnew. unfold dbpriv_check_properties_for_chparent.
  assert (Hl : exists ls, lineage F new ls).
  { destruct Hnew as [->|Hn]; [by exists []|by apply (wf_acyclic F (wp_forest _ _ Hw))]. }
  destruct Hl as [ls Hl].
  destruct (schema_eq F d new ls (wp_family _ _ Hw) (wp_table _ _ Hw) Hl) as (os & -> & Hs & Hos).
  cbn [mbind res_bind].
  destruct (any_res_bind (fun p => property_defined_at_or_below d (pd_name p) (pd_hash p) oid)
    (fun o => l (propdefs o)) (fun p => exists y, below F oid y /\ defines d (pd_name p) y) os)
    as (b & -> & Hiff).
  { intros o p Hin Hp. apply list_elem_of_lookup_1 in Hin as (i & Hi).
    destruct (Forall2_lookup_r _ _ _ _ _ Hos Hi) as (y & _ & Hy).
    destruct (wp_def _ _ Hw y o p Hy Hp) as [Hn Hh _]. rewrite Hh. by apply (at_or_below_Ok F). }
  cbn [mbind res_bind]. exists (negb b). split; [done|]. rewrite negb_true_iff, <- not_true_iff_false, Hiff.
  unfold compatible. rewrite Hs. split.
  - intros Hno k y Hk Hy Hd. apply Hno. apply list_elem_of_bind in Hk as (o & Hk & Hin).
    unfold defs_of in Hk. apply list_elem_of_fmap in Hk as (p & -> & Hp). cbn in Hd.
    exists p. split; [|eauto]. apply list_elem_of_bind. eauto.
  - intros Hno (p & Hp & y & Hy & Hd). apply list_elem_of_bind in Hp as (o & Hp & Hin).
    apply (Hno (id o, p) y); [|done|done]. apply list_elem_of_bind. exists o. split; [|done].
    unfold defs_of. apply list_elem_of_fmap. eauto.
Qed.

(** ** Two lineages *)

(** Two lineages share exactly a final part. *)
Lemma lineages_meet F x y lx ly : wf_forest F -> lineage F x lx -> lineage F y ly ->
  exists a b c, lx = a ++ c /\ ly = b ++ c /\ (forall z, z ∈ a -> z ∉ ly) /\
    (forall z, z ∈ b -> z ∉ lx) /\
    List.find (fun o1 => bool_decide (o1 ∈ ly)) lx = head c.
Proof.
  intros HF Hx Hy. revert x Hx. induction lx as [|z lx IH]; intros x Hx.
  - exists [], ly, []. split_and!; [done|by rewrite app_nil_r|set_solver|set_solver|done].
  - cbn [List.find]. destruct (bool_decide_reflect (z ∈ ly)) as [Hz|Hz].
    + destruct (list_elem_of_split ly z Hz) as (b & c & ->). exists [], b, (z :: c).
      pose proof (path_app _ _ _ _ _ Hy) as Hyz.
      assert (Hxz : x = z) by (unfold lineage in Hx; cbn in Hx; by destruct Hx). subst x.
      pose proof (path_functional _ _ _ _ Hx Hyz) as ->.
      split_and!; [done|done|set_solver| |done].
      intros w Hw Hw'. apply path_NoDup in Hy. apply NoDup_app in Hy as (_ & Hd & _).
      by apply (Hd w Hw).
    + unfold lineage in Hx. cbn in Hx. destruct Hx as (-> & _ & n & Hn & Hx).
      destruct (IH n Hx) as (a & b & c & -> & -> & Ha & Hb & Hf). exists (z :: a), b, c.
      split_and!; [done|done|set_solver| |done].
      intros w Hw Hw'. apply elem_of_cons in Hw' as [->|Hw']; [set_solver|by apply (Hb w)].
Qed.

Lemma parents_Ok F d x ls : represents family (objects d) F -> lineage F x ls ->
  parents d x = Ok ls.
Proof.
  intros Hr Hl. unfold parents.
  assert (Hf : (length ls < S (size (objects d)))%nat).
  { pose proof (path_length (objects d) (fun y => par F !! y) x ls Hl) as H.
    assert (length ls <= size (objects d))%nat; [|lia]. apply H.
    intros y. by rewrite (represents_dom family _ F Hr). }
  revert x Hl Hf. generalize (S (size (objects d))) as fuel. intros fuel.
  revert fuel. induction ls as [|y ls IH]; intros fuel x Hl Hf; (destruct fuel as [|fuel]; [lia|]);
    unfold lineage in Hl; cbn [path] in Hl; cbn [parents_from].
  - by rewrite Hl.
  - destruct Hl as (-> & Hy & n & Hn & Hl). destruct (Z.eqb_spec y NOTHING); [done|].
    unfold db_object_parent, get. destruct (proj2 (represents_dom family _ F Hr y)) as [o Ho]; [eauto|].
    rewrite Ho. cbn [deref mbind res_bind].
    destruct (Hr y) as (Hu & _). unfold ups in Hu. rewrite Ho, Hn in Hu. injection Hu as Hu. cbn in Hu.
    rewrite Hu. cbn in Hf. by rewrite (IH fuel n) by (done || lia).
Qed.

(** The nearest common ancestor starts the shared part. *)
Lemma common_ancestor_Ok F d x y lx ly : wf_forest F -> represents family (objects d) F ->
  lineage F x lx -> lineage F y ly ->
  exists a b c, lx = a ++ c /\ ly = b ++ c /\ (forall z, z ∈ a -> z ∉ ly) /\
    (forall z, z ∈ b -> z ∉ lx) /\ common_ancestor d x y = Ok (default NOTHING (head c)) /\
    lineage F (default NOTHING (head c)) c.
Proof.
  intros HF Hr Hx Hy. destruct (lineages_meet F x y lx ly HF Hx Hy) as (a & b & c & Hlx & Hly & Ha & Hb & Hf).
  exists a, b, c. split_and!; try done.
  - unfold common_ancestor. rewrite (parents_Ok F d x lx Hr Hx). cbn [mbind res_bind].
    destruct lx as [|z lx].
    { apply eq_sym, app_nil in Hlx as [-> ->]. done. }
    rewrite (parents_Ok F d y ly Hr Hy). cbn [mbind res_bind]. by rewrite Hf.
  - destruct c as [|z c]; [done|]. cbn. subst ly. exact (path_app _ _ _ _ _ Hy).
Qed.

(** ** What a change of parent does to the tables *)

(** Every object at or below [oid] keeps the cells of the definitions below [oid] and of
    the ancestors that it keeps, loses those of the ancestors that it loses, and gets
    cleared copies of the cells that the new parent has for its other ancestors. *)
Definition reparented (F : forest) (d : db) (oid old new : Z) (d' : db) : Prop :=
  (forall y, ~ below F oid y -> table d' y = table d y) /\
  (forall y o, objects d !! y = Some o -> below F oid y -> forall k pv,
     (k, pv) ∈ table d' y <->
     ((k, pv) ∈ table d y /\ (below F oid (fst k) \/ below F (fst k) new)) \/
     (below F (fst k) new /\ ~ below F (fst k) old /\
      exists pv0, (k, pv0) ∈ table d new /\ pv = chown o (clear_pval pv0))).

(** ** Zipping *)

Lemma zip_app3 {A B} (k1 k2 k3 : list A) (v : list B) n1 n2 : length k1 = n1 -> length k2 = n2 ->
  (n1 + n2 <= length v)%nat ->
  zip (k1 ++ k2 ++ k3) v
  = zip k1 (take n1 v) ++ zip k2 (take n2 (drop n1 v)) ++ zip k3 (drop (n1 + n2) v).
Proof.
  intros H1 H2 Hv. rewrite <- (take_drop n1 v) at 1. rewrite zip_with_app by (rewrite length_take; lia).
  f_equal. rewrite <- (take_drop n2 (drop n1 v)) at 1.
  rewrite zip_with_app by (rewrite length_take, length_drop; lia). by rewrite drop_drop.
Qed.

Lemma elem_zip_fmap {A B} (f : B -> B) (ks : list A) (vs : list B) k v :
  (k, v) ∈ zip ks (f <$> vs) <-> exists v0, (k, v0) ∈ zip ks vs /\ v = f v0.
Proof.
  rewrite zip_with_fmap_r, !elem_of_lookup_zip_with. split.
  - intros (i & x & y & [= -> ->] & Hx & Hy). exists y. split; [|done].
    apply elem_of_lookup_zip_with. eauto 6.
  - intros (v0 & (i & x & y & [= -> ->] & Hx & Hy)%elem_of_lookup_zip_with & ->). eauto 6.
Qed.

Lemma elem_zip_key {A B} (ks : list A) (vs : list B) k v : (k, v) ∈ zip ks vs -> k ∈ ks.
Proof. intros H. by apply elem_of_zip_l in H. Qed.

(** ** After the move *)

Section moved.
Context (F : forest) (HF : wf_forest F) (oid new : Z) (Hlegal : legal_move F oid new).
Let F' := move_node F oid new.

Lemma moved_forest : wf_forest F'.
Proof. by apply move_wf. Qed.

Lemma new_lineage : exists ln, lineage F new ln /\ oid ∉ ln.
Proof.
  destruct Hlegal as [_ [->|(ln & Hl & _ & Hn)]]; [exists []; split; [done|set_solver]|by exists ln].
Qed.

Lemma moved_other y ls : lineage F y ls -> oid ∉ ls -> lineage F' y ls.
Proof.
  intros Hl Hn. eapply lineage_ext; [|done]. intros z Hz. cbn. rewrite lookup_insert_ne; [done|].
  by intros <-.
Qed.

Lemma moved_below y l1 l2 ln : lineage F y (l1 ++ oid :: l2) -> lineage F new ln -> oid ∉ ln ->
  lineage F' y (l1 ++ oid :: ln).
Proof.
  intros Hl Hn Hni. destruct (lineage_split F oid y l1 l2 Hl) as [H1 _].
  eapply (path_replace _ _ _ l1 oid); [exact Hl| | |].
  - intros z Hz. cbn. rewrite lookup_insert_ne; [done|]. by intros <-.
  - cbn. by rewrite lookup_insert_eq.
  - exact (moved_other new ln Hn Hni).
Qed.

Lemma moved_dom y : is_Some (par F' !! y) <-> is_Some (par F !! y).
Proof.
  cbn. destruct (decide (y = oid)) as [->|]; [|by rewrite lookup_insert_ne].
  rewrite lookup_insert_eq. destruct Hlegal as [? _]. split; eauto.
Qed.

Lemma below_moved y : below F' oid y <-> below F oid y.
Proof.
  destruct new_lineage as (ln & Hln & Hni). split.
  - intros Hb. pose proof (proj1 (below_valid F' moved_forest oid y Hb)) as Hy.
    apply moved_dom in Hy. destruct (wf_acyclic F HF y Hy) as [ls Hl].
    destruct (decide (oid ∈ ls)) as [Hi|Hi]; [by exists ls|].
    destruct Hb as (ls' & Hl' & Hi'). pose proof (moved_other y ls Hl Hi) as Hl2.
    by rewrite (path_functional _ _ _ _ Hl' Hl2) in Hi'.
  - intros Hb. destruct (below_split F oid y Hb) as (l1 & l2 & Hl).
    exists (l1 ++ oid :: ln). split; [by eapply moved_below|set_solver].
Qed.

(** *** In the database *)

Context (d : db) (Hw : wf_props F d) (d1 : db).
Context (Hsame : same_nodes family (objects d) (objects d1)).
Context (Hnum : num_objects d1 = num_objects d) (Hmax : max_objects d1 = max_objects d)
  (Hwpds : wpds d1 = wpds d).
Context (Hr1 : represents family (objects d1) F').

Lemma moved_field {B} (f : Object -> B) y : (forall u v w o, f (relink family u v w o) = f o) ->
  f <$> objects d1 !! y = f <$> objects d !! y.
Proof.
  intros Hf. pose proof (Hsame y) as H. inversion H as [o o' Ho Hx Hy|Hx Hy]; [|done].
  cbn. f_equal. unfold relinked in Ho. rewrite Ho. apply Hf.
Qed.

Lemma moved_lookup y o' : objects d1 !! y = Some o' -> exists o, objects d !! y = Some o /\
  propdefs o' = propdefs o /\ propval o' = propval o /\ waif_propdefs o' = waif_propdefs o /\
  id o' = id o /\ owner o' = owner o.
Proof.
  intros Hy. pose proof (Hsame y) as H. rewrite Hy in H. inversion H as [o o2 Ho Hx Hy'|]; subst.
  exists o. split; [done|]. unfold relinked in Ho. by rewrite Ho.
Qed.

Lemma moved_table : wf_table d1.
Proof.
  destruct (wp_table _ _ Hw) as [Hr Hi Hc]. split; rewrite ?Hnum, ?Hmax; [| |done].
  - intros x o' (o & Ho & _)%moved_lookup. eauto.
  - intros x o' (o & Ho & _ & _ & _ & -> & _)%moved_lookup. eauto.
Qed.

Lemma moved_waif : wf_wpds d1.
Proof.
  destruct (wp_waif _ _ Hw) as [Hv Hs]. split; rewrite ?Hwpds.
  - intros x o p (o0 & Ho & _ & _ & -> & _)%moved_lookup. by eapply Hv.
  - intros x y ox oy p (o0 & Hx & _ & _ & -> & _)%moved_lookup
      (o1 & Hy & _ & _ & -> & _)%moved_lookup. by eapply Hs.
Qed.

Lemma along_moved ls : along d1 ls = along d ls.
Proof.
  unfold along. apply list_bind_ext; [|done]. intros y.
  pose proof (moved_field defs_of y (fun _ _ _ _ => eq_refl)) as H.
  destruct (objects d !! y), (objects d1 !! y); cbn in *; congruence.
Qed.

Lemma schema_moved y l1 l2 ln : lineage F y (l1 ++ oid :: l2) -> lineage F new ln -> oid ∉ ln ->
  schema d y = along d (l1 ++ [oid]) ++ along d l2 /\
  schema d1 y = along d (l1 ++ [oid]) ++ along d ln.
Proof.
  intros Hl Hn Hni. split.
  - rewrite (schema_along F d y _ (wp_family _ _ Hw) (wp_table _ _ Hw) Hl).
    by rewrite (cons_middle oid l1 l2), app_assoc, along_app.
  - rewrite (schema_along F' d1 y _ Hr1 moved_table (moved_below y l1 l2 ln Hl Hn Hni)).
    by rewrite along_moved, (cons_middle oid l1 ln), app_assoc, along_app.
Qed.

Lemma schema_moved_other y : ~ below F oid y -> schema d1 y = schema d y.
Proof.
  intros Hb. destruct (par F !! y) as [p|] eqn:Hy.
  - destruct (wf_acyclic F HF y) as [ls Hl]; [eauto|].
    assert (Hi : oid ∉ ls) by (intros Hi; apply Hb; by exists ls).
    rewrite (schema_along F d y _ (wp_family _ _ Hw) (wp_table _ _ Hw) Hl).
    rewrite (schema_along F' d1 y _ Hr1 moved_table (moved_other y ls Hl Hi)). apply along_moved.
  - rewrite (schema_invalid F d y (wp_family _ _ Hw) (wp_table _ _ Hw) Hy).
    apply (schema_invalid F' d1 y Hr1 moved_table).
    destruct (par F' !! y) eqn:E; [|done].
    assert (is_Some (par F !! y)) as [? ?] by (apply moved_dom; eauto). congruence.
Qed.

Lemma ndefs_moved y : ndefs d1 y = ndefs d y.
Proof.
  unfold ndefs. pose proof (moved_field (fun o => cur_length (propdefs o)) y (fun _ _ _ _ => eq_refl)) as H.
  destruct (objects d !! y), (objects d1 !! y); cbn in *; congruence.
Qed.

(** The definitions of the new ancestors do not clash with those below. *)
Lemma moved_defs : compatible F d oid new -> wf_defs F' d1.
Proof.
  intros Hc. split.
  - apply moved_forest.
  - done.
  - apply moved_table.
  - intros x o p (o0 & Ho & -> & _)%moved_lookup. by eapply wp_def.
  - intros x. destruct (below_or_not F oid x HF) as [Hb|Hb]; [|rewrite schema_moved_other by done; apply Hw].
    destruct (below_split F oid x Hb) as (l1 & l2 & Hl). destruct new_lineage as (ln & Hln & Hni).
    destruct (schema_moved x l1 l2 ln Hl Hln Hni) as [Hs ->]. rewrite fmap_app.
    pose proof (wp_unique _ _ Hw x) as Hu. rewrite Hs, fmap_app in Hu.
    apply NoDup_app in Hu as (Hu & _). apply NoDup_app. split_and!; [done| |].
    + intros n (k & -> & Hk)%list_elem_of_fmap (k' & Hn & Hk')%list_elem_of_fmap.
      destruct (along_elem F d Hw _ k Hk) as (z & o & Hz & Ho & _ & Hp).
      apply (Hc k' z).
      * by rewrite (schema_along F d new ln (wp_family _ _ Hw) (wp_table _ _ Hw) Hln).
      * by eapply elem_below.
      * exists o, (snd k). split_and!; [done|done|]. exact Hn.
    + pose proof (wp_unique _ _ Hw new) as Hun.
      by rewrite (schema_along F d new ln (wp_family _ _ Hw) (wp_table _ _ Hw) Hln) in Hun.
  - intros x o (o0 & Ho & -> & _)%moved_lookup. by eapply wp_capacity.
Qed.

(** *** The arrays *)

Section rearranged.
Context (old : Z) (lo ln a b c : list Z).
Context (Hold : par F !! oid = Some old) (Hlo : lineage F old lo) (Hln : lineage F new ln).
Context (Hni : oid ∉ ln) (Ea : ln = a ++ c) (Eb : lo = b ++ c).
Context (Hda : forall z, z ∈ a -> z ∉ lo) (Hdb : forall z, z ∈ b -> z ∉ ln).
Context (Hcompat : compatible F d oid new).

Lemma below_old y l1 l2 : lineage F y (l1 ++ oid :: l2) -> l2 = lo.
Proof.
  intros Hl. pose proof (path_app _ _ _ _ _ Hl) as Hp. cbn in Hp. destruct Hp as (_ & _ & m & Hm & Hp).
  rewrite Hold in Hm. injection Hm as <-. exact (path_functional _ _ _ _ Hp Hlo).
Qed.

Lemma below_split_old y : below F oid y -> exists l1, lineage F y (l1 ++ oid :: lo).
Proof.
  intros (l1 & l2 & Hl)%below_split. pose proof (below_old y l1 l2 Hl) as ->. eauto.
Qed.

Lemma total_d1 y l1 : lineage F y (l1 ++ oid :: lo) ->
  total d1 y = (width d (l1 ++ [oid]) + width d a + width d c)%nat.
Proof.
  intros Hl. rewrite <- (length_schema F' d1 y moved_forest Hr1 moved_table).
  - destruct (schema_moved y l1 lo ln Hl Hln Hni) as [_ ->].
    rewrite length_app, !length_along, Ea, (width_app d a c). lia.
  - apply moved_dom. apply (below_valid F HF oid y). exists (l1 ++ oid :: lo).
    split; [done|set_solver].
Qed.

Lemma local_d1 y l1 : lineage F y (l1 ++ oid :: lo) ->
  local_cells d1 (width d a) (width d c) y = width d (l1 ++ [oid]).
Proof. intros Hl. unfold local_cells. rewrite (total_d1 y l1 Hl). lia. Qed.

Lemma oid_lineage : lineage F oid ([] ++ oid :: lo).
Proof.
  destruct (lineage_cons F HF oid old Hold) as (l & Hl & Hlx).
  by rewrite <- (path_functional _ _ _ _ Hl Hlo).
Qed.

Lemma cells_d y oy l1 : objects d !! y = Some oy -> lineage F y (l1 ++ oid :: lo) ->
  length (propval oy) = (width d (l1 ++ [oid]) + width d b + width d c)%nat.
Proof.
  intros Hoy Hl. rewrite (wp_cells _ _ Hw y oy Hoy).
  destruct (schema_moved y l1 lo ln Hl Hln Hni) as [-> _].
  rewrite length_app, !length_along, Eb, (width_app d b c). lia.
Qed.

Lemma new_cells : width d a <> 0%nat -> exists on, objects d1 !! new = Some on /\
  length (propval on) = (width d a + width d c)%nat.
Proof.
  intros Hne. assert (Hln0 : is_Some (par F !! new)).
  { destruct ln as [|z ln']; [apply eq_sym, app_nil in Ea as [-> _]; done|].
    unfold lineage in Hln. cbn in Hln. destruct Hln as (-> & _ & n & Hn & _). eauto. }
  destruct (proj2 (represents_dom family _ F' Hr1 new)) as [on Hon]; [by apply moved_dom|].
  exists on. split; [done|]. destruct (moved_lookup new on Hon) as (o0 & Ho0 & _ & -> & _).
  rewrite (wp_cells _ _ Hw new o0 Ho0).
  rewrite (schema_along F d new ln (wp_family _ _ Hw) (wp_table _ _ Hw) Hln).
  by rewrite length_along, Ea, (width_app d a c).
Qed.

Lemma fix_walk : exists d', fix_props oid 0 (width d b) (width d a) (width d c) d1 = Ok d' /\
  walked F' d1 oid (fixed d1 new (width d b) (width d a) (width d c)) d'.
Proof.
  assert (Hpar : par F' !! oid = Some new) by (cbn; by rewrite lookup_insert_eq).
  apply (fix_props_Ok F' moved_forest d1 Hr1 moved_table oid new Hpar).
  - rewrite (total_d1 oid [] oid_lineage), ndefs_moved. unfold width. cbn. lia.
  - intros y o Hb Ho. apply below_moved, below_split_old in Hb as [l1 Hl].
    rewrite (local_d1 y l1 Hl). destruct (moved_lookup y o Ho) as (o0 & Ho0 & _ & -> & _).
    exact (cells_d y o0 l1 Ho0 Hl).
  - apply new_cells.
  - apply moved_waif.
Qed.

Lemma length_inherited_d1 : length (inherited d1 new (width d a)) = width d a.
Proof.
  unfold inherited. destruct (decide (width d a = 0)%nat) as [->|Hne]; [done|].
  destruct (new_cells Hne) as (o & -> & Ho). cbn. rewrite length_take. lia.
Qed.

Lemma fixed_cells y o' : below F oid y ->
  fixed d1 new (width d b) (width d a) (width d c) y o' -> cells_ok d1 y o'.
Proof.
  intros Hb (o1 & Ho1 & ->). destruct (below_split_old y Hb) as [l1 Hl].
  destruct (moved_lookup y o1 Ho1) as (oy & Hoy & _ & Hpv & _).
  pose proof (cells_d y oy l1 Hoy Hl) as Hlen. rewrite <- Hpv in Hlen.
  rewrite (local_d1 y l1 Hl). split; cbn [propval set_propval set_waif_propdefs].
  - destruct (schema_moved y l1 lo ln Hl Hln Hni) as [_ ->].
    rewrite !length_app, !length_along, length_take, length_fmap, length_inherited_d1, length_drop.
    rewrite Ea, (width_app d a c). lia.
  - intros n pv Hn Hlt. rewrite ndefs_moved in Hlt.
    assert (Hle : (ndefs d y <= width d (l1 ++ [oid]))%nat).
    { destruct l1 as [|z l1]; unfold lineage in Hl; cbn in Hl; destruct Hl as (-> & _);
        unfold width; cbn; lia. }
    rewrite lookup_app_l in Hn by (rewrite length_take; lia). rewrite lookup_take_lt in Hn by lia.
    rewrite Hpv in Hn. by apply (wf_cells_ok F d y oy Hw Hoy) in Hn.
Qed.

(** The three parts of a table, before and after. *)
Lemma table_before y oy l1 : objects d !! y = Some oy -> lineage F y (l1 ++ oid :: lo) ->
  let n := width d (l1 ++ [oid]) in
  table d y = zip (along d (l1 ++ [oid])) (take n (propval oy))
    ++ zip (along d b) (take (width d b) (drop n (propval oy)))
    ++ zip (along d c) (drop (n + width d b) (propval oy)).
Proof.
  intros Hoy Hl n. unfold table. rewrite Hoy. cbn [from_option].
  destruct (schema_moved y l1 lo ln Hl Hln Hni) as [-> _]. rewrite Eb, (along_app d b c).
  apply zip_app3; [apply length_along|apply length_along|].
  rewrite (cells_d y oy l1 Hoy Hl). unfold n. lia.
Qed.

Lemma table_after y oy o' l1 d' : objects d !! y = Some oy -> lineage F y (l1 ++ oid :: lo) ->
  objects d' !! y = Some o' -> fixed d1 new (width d b) (width d a) (width d c) y o' ->
  schema d' y = schema d1 y ->
  let n := width d (l1 ++ [oid]) in
  table d' y = zip (along d (l1 ++ [oid])) (take n (propval oy))
    ++ zip (along d a) ((fun pv => chown oy (clear_pval pv)) <$> inherited d1 new (width d a))
    ++ zip (along d c) (drop (n + width d b) (propval oy)).
Proof.
  intros Hoy Hl Ho' (o1 & Ho1 & ->) Hs n. unfold table. rewrite Ho', Hs.
  cbn [from_option propval set_propval set_waif_propdefs].
  destruct (moved_lookup y o1 Ho1) as (oy' & Hoy' & _ & Hpv & _ & _ & Hown).
  replace oy' with oy in * by congruence. rewrite Hpv.
  destruct (schema_moved y l1 lo ln Hl Hln Hni) as [_ ->]. rewrite Ea, (along_app d a c).
  rewrite (local_d1 y l1 Hl). pose proof (cells_d y oy l1 Hoy Hl) as Hlen.
  assert (Hch : forall pv, chown o1 pv = chown oy pv) by (intros; unfold chown; by rewrite Hown).
  rewrite (list_fmap_ext _ (fun pv => chown oy (clear_pval pv)) (inherited d1 new (width d a)))
    by (intros; apply Hch).
  rewrite !zip_with_app; [done| |].
  - rewrite length_along, length_fmap. symmetry. apply length_inherited_d1.
  - rewrite length_along, length_take. lia.
Qed.

(** The cells of the new parent. *)
Lemma table_new : table d new =
  zip (along d a) (inherited d1 new (width d a))
  ++ zip (along d c) (drop (width d a) (from_option propval [] (objects d !! new))).
Proof.
  unfold table. rewrite (schema_along F d new ln (wp_family _ _ Hw) (wp_table _ _ Hw) Hln).
  rewrite Ea, (along_app d a c). unfold inherited.
  assert (Hpv : from_option propval [] (objects d1 !! new) = from_option propval [] (objects d !! new)).
  { pose proof (moved_field propval new (fun _ _ _ _ => eq_refl)) as H.
    destruct (objects d1 !! new), (objects d !! new); cbn in *; congruence. }
  rewrite Hpv. rewrite <- (take_drop (width d a) (from_option propval [] (objects d !! new))) at 1.
  apply zip_with_app. rewrite length_along. symmetry. rewrite <- Hpv. apply length_inherited_d1.
Qed.

Lemma below_new z : below F z new <-> z ∈ ln.
Proof.
  split; [|intros Hz; by exists ln]. intros (l & Hl & Hz). by rewrite (path_functional _ _ _ _ Hl Hln) in Hz.
Qed.

Lemma below_old_iff z : below F z old <-> z ∈ lo.
Proof.
  split; [|intros Hz; by exists lo]. intros (l & Hl & Hz). by rewrite (path_functional _ _ _ _ Hl Hlo) in Hz.
Qed.

(** Where the definitions of each part come from. *)
Lemma key_of ls (k : key) (pv : Pval) vs : (k, pv) ∈ zip (along d ls) vs -> fst k ∈ ls.
Proof.
  intros Hk%elem_zip_key. destruct (along_elem F d Hw ls k Hk) as (z & o & Hz & _ & -> & _). done.
Qed.

Lemma lo_not_below z : z ∈ lo -> ~ below F oid z.
Proof.
  intros Hz (l & Hl & Hi). destruct (list_elem_of_split lo z Hz) as (l1 & l2 & E).
  pose proof Hlo as Hlo'. rewrite E in Hlo'. pose proof (path_app _ _ _ _ _ Hlo') as Hp.
  rewrite (path_functional _ _ _ _ Hl Hp) in Hi.
  pose proof (path_NoDup _ _ _ oid_lineage) as Hnd. cbn in Hnd. apply NoDup_cons in Hnd as [Hnd _].
  apply Hnd. rewrite E. set_solver.
Qed.

Lemma rearranged d' : walked F' d1 oid (fixed d1 new (width d b) (width d a) (width d c)) d' ->
  wf_props F' d' /\ reparented F d oid old new d'.
Proof.
  intros Hwk. destruct (walked_wf F' d1 oid _ d' (moved_defs Hcompat) Hwk) as [Hwf Hsch].
  { intros x o' Ho' Hb. rewrite below_moved in Hb.
    destruct (moved_lookup x o' Ho') as (o & Ho & _ & Hpv & _).
    destruct (wf_cells_ok F d x o Hw Ho) as [H1 H2]. split; rewrite ?Hpv, ?ndefs_moved; [|done].
    by rewrite H1, schema_moved_other. }
  { intros x o' Hb%below_moved. by apply fixed_cells. }
  split; [done|]. destruct Hwk as (Hf & _ & Hout & Hin). split.
  - intros y Hb. unfold table. rewrite Hsch, schema_moved_other by done. f_equal.
    rewrite Hout by (by rewrite below_moved).
    pose proof (moved_field propval y (fun _ _ _ _ => eq_refl)) as H.
    destruct (objects d1 !! y), (objects d !! y); cbn in *; congruence.
  - intros y oy Hoy Hb k pv. destruct (below_split_old y Hb) as [l1 Hl].
    assert (exists o', objects d' !! y = Some o') as [o' Ho'].
    { apply (represents_dom family _ F' (wp_family _ _ Hwf)), moved_dom. exact (proj1 (below_valid F HF oid y Hb)). }
    rewrite (table_after y oy o' l1 d' Hoy Hl Ho' (Hin y o' (proj2 (below_moved y) Hb) Ho') (Hsch y)).
    rewrite (table_before y oy l1 Hoy Hl), table_new, below_new, below_old_iff.
    rewrite !elem_of_app, elem_zip_fmap. split.
    + intros [Hk|[(pv0 & Hk & ->)|Hk]].
      * left. split; [by left|]. left. apply key_of in Hk. by eapply elem_below.
      * right. pose proof (key_of _ _ _ _ Hk) as Hka. split_and!; [rewrite Ea; set_solver|by apply Hda|].
        exists pv0. split; [|done]. rewrite elem_of_app. by left.
      * left. split; [by right; right|]. right. apply key_of in Hk. rewrite Ea. set_solver.
    + intros [[[Hk|[Hk|Hk]] Hkey]|(Hka & Hko & pv0 & Hk & ->)]; [by left| |by right; right|].
      * exfalso. apply key_of in Hk. assert (fst k ∈ lo) as Hlo' by (rewrite Eb; set_solver).
        destruct Hkey as [Hkey|Hkey]; [by apply (lo_not_below (fst k))|by apply (Hdb (fst k))].
      * right; left. exists pv0. split; [|done]. rewrite elem_of_app in Hk. destruct Hk as [Hk|Hk]; [done|].
        apply key_of in Hk. destruct Hko. rewrite Eb. set_solver.
Qed.

End rearranged.

End moved.

(** ** The whole of the second half of [db_change_parent] *)

Lemma fix_properties_Ok F d oid old new d1 : wf_props F d -> legal_move F oid new ->
  par F !! oid = Some old -> same_nodes family (objects d) (objects d1) ->
  num_objects d1 = num_objects d -> max_objects d1 = max_objects d -> wpds d1 = wpds d ->
  represents family (objects d1) (move_node F oid new) -> compatible F d oid new ->
  exists d', dbpriv_fix_properties_after_chparent oid old d1 = Ok d' /\
    wf_props (move_node F oid new) d' /\ reparented F d oid old new d' /\ framed d1 d' /\
    (forall y, ~ below F oid y -> objects d' !! y = objects d1 !! y).
Proof.
  intros Hw Hlegal Hold Hsame Hnum Hmax Hwpds Hr1 Hcompat. pose proof (wp_forest _ _ Hw) as HF.
  set (F' := move_node F oid new) in *.
  destruct (new_lineage F HF oid new Hlegal) as (ln & Hln & Hni).
  destruct (lineage_cons F HF oid old Hold) as (lo & Hlo & Hloid).
  assert (Hoi : oid ∉ lo).
  { pose proof (path_NoDup _ _ _ Hloid) as Hnd. by apply NoDup_cons in Hnd as [? _]. }
  pose proof (moved_other F oid new new ln Hln Hni) as Hln'.
  pose proof (moved_other F oid new old lo Hlo Hoi) as Hlo'.
  pose proof (moved_forest F HF oid new Hlegal) as HF'. fold F' in Hln', Hlo', HF'.
  pose proof (moved_table F d Hw d1 Hsame Hnum Hmax) as Ht1.
  destruct (common_ancestor_Ok F' d1 new old ln lo HF' Hr1 Hln' Hlo')
    as (a & b & c & Ea & Eb & Ha & Hb & Hcom & Hlc).
  unfold dbpriv_fix_properties_after_chparent.
  assert (Hpar : db_object_parent d1 oid = Ok new).
  { destruct (Hr1 oid) as (Hu & _). unfold ups in Hu. cbn in Hu. rewrite lookup_insert_eq in Hu.
    apply fmap_Some in Hu as (o & Ho & Hp). unfold db_object_parent, get. rewrite Ho. cbn.
    by rewrite Hp. }
  rewrite Hpar. cbn [mbind res_bind]. rewrite Hcom. cbn [mbind res_bind].
  assert (Hwd : forall ls, width d1 ls = width d ls).
  { intros ls. by rewrite <- !length_along, (along_moved d d1 Hsame). }
  assert (Hcp : (if default NOTHING (head c) =? NOTHING then Ok 0%nat
                 else dbpriv_count_properties d1 (default NOTHING (head c))) = Ok (width d c)).
  { destruct c as [|z c]; [done|].
    change (default NOTHING (head (z :: c))) with z in *.
    pose proof (count_Ok d1 F' Hr1 Ht1 z (z :: c) Hlc) as Hcount. rewrite Hwd in Hcount.
    unfold lineage in Hlc. cbn in Hlc. destruct Hlc as (_ & Hz & _).
    destruct (Z.eqb_spec z NOTHING); [done|exact Hcount]. }
  rewrite Hcp. cbn [mbind res_bind].
  rewrite (count_Ok d1 F' Hr1 Ht1 old lo Hlo'), (count_Ok d1 F' Hr1 Ht1 new ln Hln'), !Hwd.
  cbn [mbind res_bind].
  replace (width d lo - width d c)%nat with (width d b) by (rewrite Eb, (width_app d b c); lia).
  replace (width d ln - width d c)%nat with (width d a) by (rewrite Ea, (width_app d a c); lia).
  destruct (fix_walk F HF oid new Hlegal d Hw d1 Hsame Hnum Hmax Hwpds Hr1 old lo ln a b c
              Hold Hlo Hln Hni Ea Eb Ha Hb Hcompat) as (d' & -> & Hwk).
  exists d'. split; [done|].
  destruct (rearranged F HF oid new Hlegal d Hw d1 Hsame Hnum Hmax Hwpds Hr1 old lo ln a b c
              Hold Hlo Hln Hni Ea Eb Ha Hb Hcompat d' Hwk) as [Hwf Hrep].
  split_and!; [done|done|apply Hwk|]. intros y Hy. destruct Hwk as (_ & _ & Hout & _).
  apply Hout. by rewrite (below_moved F HF oid new Hlegal).
Qed.
