(* ===== verification/ObjectOps.v ===== *)
(** * Operations on objects: the theorems (src/db_objects.c)

    Creating, destroying, moving and renumbering objects keep the database well-formed,
    and do to the two hierarchies and to the tables of properties what their names say. *)

From S2P Require Import Prelude CStrings Values Lists Links Db Properties Layout Tables Objects.
From S2P Require Import Sample PropertyOps Reparent.

Open Scope Z_scope.

(** ** What depends on some fields only *)

Lemma wf_users_ext d d' : all_users d' = all_users d ->
  (forall y, flags <$> objects d' !! y = flags <$> objects d !! y) -> wf_users d -> wf_users d'.
Proof.
  intros Hu Hf [Ho Hn Hfl Hv]. split; rewrite ?Hu; [done|done| |].
  - intros x o Hx. pose proof (Hf x) as H. rewrite Hx in H. cbn in H. symmetry in H.
    apply fmap_Some in H as (o0 & Hx0 & He). rewrite (Hfl x o0 Hx0). unfold has_flag. by rewrite He.
  - intros x Hx%Hv. rewrite <- (fmap_is_Some flags), Hf. by apply fmap_is_Some.
Qed.

Lemma wf_verbs_ext d d' : verbs d' = verbs d ->
  (forall y, verbdefs <$> objects d' !! y = verbdefs <$> objects d !! y) ->
  wf_verbs d -> wf_verbs d'.
Proof.
  intros Hv Hf [He Hn Ho].
  assert (Hl : forall x o', objects d' !! x = Some o' -> exists o, objects d !! x = Some o /\
            verbdefs o' = verbdefs o).
  { intros x o' Hx. pose proof (Hf x) as H. rewrite Hx in H. cbn in H. symmetry in H.
    apply fmap_Some in H as (o & ? & ?). eauto. }
  split; rewrite ?Hv.
  - intros x o v (o0 & Hx & ->)%Hl. by eapply He.
  - intros x o (o0 & Hx & ->)%Hl. by eapply Hn.
  - intros x y ox oy v (o0 & Hx & ->)%Hl (o1 & Hy & ->)%Hl. by eapply Ho.
Qed.

Lemma represents_ext (L : Links Object) objs objs' F :
  (forall y, up L <$> objs' !! y = up L <$> objs !! y) ->
  (forall y, first L <$> objs' !! y = first L <$> objs !! y) ->
  (forall y, nxt L <$> objs' !! y = nxt L <$> objs !! y) ->
  represents L objs F -> represents L objs' F.
Proof.
  intros Hu Hf Hn Hr x. destruct (Hr x) as (H1 & H2 & H3). unfold ups, fsts, nxts in *.
  rewrite Hu, Hf, Hn. split; [done|]. split; [|done]. intros ls Hls.
  destruct (H2 ls Hls) as (s & Hs & Hp). exists s. split; [done|].
  eapply path_ext; [|exact Hp]. intros y _. apply Hn.
Qed.

(** ** Creation and destruction *)

Lemma create_object_Ok F P d garbage : wf_db F P d ->
  let n := num_objects d in
  exists d', db_create_object garbage d = Ok (n, d') /\ valid d n = false /\ valid d' n = true /\
    wf_db (add_root n F) (add_root n P) d' /\
    (forall x, x <> n -> objects d' !! x = objects d !! x) /\
    exists o, objects d' !! n = Some o /\ blank n o.
Proof.
  intros Hw n. destruct (create_Ok F P d garbage Hw) as
    (o & d' & H & Hb & Ho & Hn & Hm & Hu & Hv & Hp & _).
  pose proof (create_wf F P d Hw o d' Hb Ho Hn Hm Hu Hv Hp) as Hw'.
  exists d'. split_and!; [done| | |done| |].
  - unfold valid. rewrite find_object_eq by (by eapply wp_table, wdb_props).
    pose proof (new_is_new F P d Hw) as Hnew. cbv zeta in Hnew. fold n in Hnew. rewrite Hnew. by rewrite bool_decide_eq_false_2 by (by intros [? ?]).
  - unfold valid. rewrite find_object_eq by (by eapply wp_table, wdb_props).
    rewrite Ho, lookup_insert_eq. by rewrite bool_decide_eq_true_2 by eauto.
  - intros x Hx. by rewrite Ho, lookup_insert_ne.
  - exists o. split; [|done]. by rewrite Ho, lookup_insert_eq.
Qed.

(** C21: Creating an object never faults and grows the table as needed.  The new object gets
    the next number, all its links are null and it has no properties, verbs or flags; it
    becomes a lone root of both hierarchies, no other object changes, and the database
    stays well-formed. *)
Theorem db_create_object_correct F P d garbage : wf_db F P d ->
  let n := num_objects d in
  exists d', db_create_object garbage d = Ok (n, d') /\ valid d n = false /\ valid d' n = true /\
    wf_db (add_root n F) (add_root n P) d' /\
    (forall x, x <> n -> objects d' !! x = objects d !! x) /\
    exists o, objects d' !! n = Some o /\ blank n o.
Proof. apply create_object_Ok. Qed.

Lemma db_create_object_correct_witness : exists d', db_create_object
    (mkObject 0 0 0 0 0 0 0 0 [] 255 [] (mkProplist 0 []) [] None) sample = Ok (7, d') /\
  valid d' 7 = true /\ wf_db (add_root 7 sample_family) (add_root 7 sample_place) d'.
Proof.
  destruct (db_create_object_correct sample_family sample_place sample
    (mkObject 0 0 0 0 0 0 0 0 [] 255 [] (mkProplist 0 []) [] None) sample_wf)
    as (d' & H & _ & Hv & Hw & _). exists d'. exact (conj H (conj Hv Hw)).
Defined.

Lemma destroy_Ok F P d n o : wf_db F P d -> objects d !! n = Some o -> barren F n -> barren P n ->
  exists d' xs, db_destroy_object n d = Ok d' /\ wf_db (remove_root n F) (remove_root n P) d' /\
    objects d' = delete n (objects d) /\ all_users d = Obj <$> xs /\
    all_users d' = Obj <$> without n xs.
Proof.
  intros Hw Ho HbF HbP. destruct (flush_same d) as (Fo & Fn & Fm & Fu & Fv & Fp).
  unfold db_destroy_object. set (d1 := db_priv_affected_callable_verb_lookup d) in *.
  pose proof (wf_db_ext F P d d1 Hw Fo Fn Fm Fu Fv Fp) as Hw1.
  pose proof (wdb_props _ _ _ Hw1) as Hp1. pose proof (wp_table _ _ Hp1) as Ht1.
  assert (Ho1 : objects d1 !! n = Some o) by congruence. rewrite (find_object_eq d1 n Ht1), Ho1.
  destruct (proj2 (barren_spec family _ F n o (wp_family _ _ Hp1) Ho1 (wp_forest _ _ Hp1)) HbF) as [H1 H2].
  destruct (proj2 (barren_spec place _ P n o (wdb_place _ _ _ Hw1) Ho1 (wdb_place_forest _ _ _ Hw1)) HbP)
    as [H3 H4]. cbn in H1, H2, H3, H4. rewrite H1, H2, H3, H4. cbn [negb orb Z.eqb NOTHING].
  change (negb (NOTHING =? NOTHING)) with false. cbn [orb].
  rewrite (is_user_Ok d1 n o Ht1 Ho1). cbn [mbind res_bind].
  destruct (users_list d1 (wdb_users _ _ _ Hw1)) as (xs & Hxs & Hnd & Hfl & Hval).
  assert (Hus : exists d2, (if has_flag o FLAG_USER then
      u ← setremove (all_users d1) (Obj n); Ok (with_users u d1) else Ok d1) = Ok d2 /\
      d2 = with_users (Obj <$> without n xs) d1).
  { destruct (has_flag o FLAG_USER) eqn:E.
    - rewrite Hxs, setremove_objs by done. eauto.
    - exists d1. split; [done|]. rewrite without_id, <- Hxs by (rewrite (Hfl n o Ho1), E; done).
      by destruct d1. }
  destruct Hus as (d2 & -> & ->). cbn [mbind res_bind].
  pose proof (wp_cells _ _ Hp1 n o Ho1) as Hlen.
  assert (Hl : lineage F n [n]).
  { destruct HbF as [Hn _]. unfold lineage. cbn. split_and!; [done| |eauto].
    intros ->. by rewrite (wf_nothing F (wp_forest _ _ Hp1)) in Hn. }
  rewrite (schema_along F d1 n [n] (wp_family _ _ Hp1) Ht1 Hl), along_cons, Ho1, app_nil_r in Hlen.
  cbn [from_option] in Hlen. unfold defs_of in Hlen. rewrite length_fmap in Hlen.
  rewrite copy_prefix by (unfold cur_length; lia). cbn [mbind res_bind].
  destruct (free_verbs_Ok (verbdefs o) (verbs d1)) as (heap & Hh & Hheap).
  { by apply (wv_nodup d1 (wdb_verbs _ _ _ Hw1) n o). }
  { intros v Hv. by apply (wv_exists d1 (wdb_verbs _ _ _ Hw1) n o v). }
  cbn [verbs with_users]. rewrite Hh. cbn [mbind res_bind]. eexists _, xs. split; [done|].
  split_and!; [|by cbn; rewrite Fo|by rewrite <- Fu|done].
  by apply (destroy_wf F P d1 Hw1 n o Ho1 HbF HbP
    (with_objects (delete n (objects d1)) (with_verbs heap (with_users (Obj <$> without n xs) d1)))
    eq_refl eq_refl eq_refl eq_refl xs Hxs eq_refl).
Qed.

(** C20: Destroying is refused by a panic exactly when the object is not valid, or has
    relatives in one of the hierarchies; otherwise it never faults, although it reads the
    arrays and verbs of the object, the object disappears from the table, from the two
    hierarchies and from the list of users, and the database stays well-formed. *)
Theorem db_destroy_object_correct F P d n : wf_db F P d ->
  (objects d !! n = None ->
     db_destroy_object n d = Fail (Panic "DB_DESTROY_OBJECT: Invalid object!")) /\
  (is_Some (objects d !! n) -> ~ (barren F n /\ barren P n) ->
     db_destroy_object n d = Fail (Panic "DB_DESTROY_OBJECT: Not a barren orphan!")) /\
  (barren F n -> barren P n -> exists d', db_destroy_object n d = Ok d' /\
     wf_db (remove_root n F) (remove_root n P) d' /\ objects d' = delete n (objects d) /\
     Obj n ∉ all_users d' /\ (forall x, x <> n -> Obj x ∈ all_users d' <-> Obj x ∈ all_users d)).
Proof.
  intros Hw. pose proof (wdb_props _ _ _ Hw) as Hp. destruct (flush_same d) as (Fo & Fn & _).
  split_and!.
  - intros Hn. unfold db_destroy_object, dbpriv_find_object. rewrite Fo, Fn, Hn. by destruct (_ || _).
  - intros [o Ho] Hnb. unfold db_destroy_object, dbpriv_find_object. rewrite Fo, Fn, Ho.
    destruct (wf_range d (wp_table _ _ Hp) n o Ho).
    destruct (Z.ltb_spec n 0); [lia|]. destruct (Z.geb_spec n (num_objects d)); [lia|]. cbn [orb].
    pose proof (barren_spec family _ F n o (wp_family _ _ Hp) Ho (wp_forest _ _ Hp)) as HF.
    pose proof (barren_spec place _ P n o (wdb_place _ _ _ Hw) Ho (wdb_place_forest _ _ _ Hw)) as HP.
    cbn in HF, HP.
    destruct (Z.eqb_spec (location o) NOTHING), (Z.eqb_spec (contents o) NOTHING),
      (Z.eqb_spec (parent o) NOTHING), (Z.eqb_spec (child o) NOTHING); try done. tauto.
  - intros HbF HbP. assert (is_Some (objects d !! n)) as [o Ho].
    { apply (represents_dom family _ F (wp_family _ _ Hp)). destruct HbF. eauto. }
    destruct (destroy_Ok F P d n o Hw Ho HbF HbP) as (d' & xs & -> & Hw' & Ho' & Hu & Hu').
    exists d'. split_and!; [done|done|done| |].
    + rewrite Hu'. by intros (x & [= <-] & [_ ?]%elem_without)%list_elem_of_fmap.
    + intros x Hx. rewrite Hu', Hu, !list_elem_of_fmap. setoid_rewrite elem_without. naive_solver.
Qed.

Lemma db_destroy_object_correct_witness :
  (exists d', db_destroy_object 6 sample = Ok d' /\
     wf_db (remove_root 6 sample_family) (remove_root 6 sample_place) d') /\
  db_destroy_object 3 sample = Fail (Panic "DB_DESTROY_OBJECT: Not a barren orphan!").
Proof.
  split.
  - destruct (db_destroy_object_correct sample_family sample_place sample 6 sample_wf) as (_ & _ & H).
    destruct H as (d' & H & Hw & _); [split; reflexivity..|]. exists d'. exact (conj H Hw).
  - apply (db_destroy_object_correct sample_family sample_place sample 3 sample_wf).
    + vm_compute. eauto.
    + intros [[H _] _]. vm_compute in H. discriminate.
Defined.

(** ** Moving *)

Lemma same_nodes_field {B} (L : Links Object) (f : Object -> B) objs objs' :
  (forall u v w o, f (relink L u v w o) = f o) -> same_nodes L objs objs' ->
  forall y, f <$> objs' !! y = f <$> objs !! y.
Proof.
  intros Hf Hs y. pose proof (Hs y) as H. inversion H as [o o' Ho Hx Hy|Hx Hy]; [|done].
  cbn. f_equal. unfold relinked in Ho. rewrite Ho. apply Hf.
Qed.

Lemma change_location_Ok F P d oid new : wf_db F P d -> legal_move P oid new ->
  exists d', db_change_location oid new d = Ok d' /\ wf_db F (move_node P oid new) d' /\
    same_nodes place (objects d) (objects d').
Proof.
  intros Hw Hl. pose proof (wdb_props _ _ _ Hw) as Hp. unfold db_change_location.
  destruct (relocate_refines place (valid_in (num_objects d)) (objects d) P oid new)
    as (objs & -> & Hs & Hr); [apply Hw|apply Hw|done| |].
  { intros objs Hdom. unfold valid_in. split.
    - intros p Hpp. apply bool_decide_eq_true_2. split; [|by apply Hdom].
      apply (represents_dom place _ P (wdb_place _ _ _ Hw)) in Hpp as [o Ho].
      by apply (wf_range d (wp_table _ _ Hp) p o).
    - apply bool_decide_eq_false_2. unfold NOTHING. lia. }
  cbn [mbind res_bind]. eexists. split; [done|]. split; [|done].
  assert (Ha : alike d (with_objects objs d)).
  { split; try done. intros y. cbn. by apply (same_nodes_field place). }
  split.
  - by apply (alike_props d).
  - apply move_wf; [apply Hw|done].
  - done.
  - apply (wf_users_ext d); [done| |apply Hw]. intros y. by apply (same_nodes_field place).
  - apply (wf_verbs_ext d); [done| |apply Hw]. intros y. by apply (same_nodes_field place).
Qed.

(** Moving an object to a new location that is not inside it (or to nowhere) never
    faults: it leaves the contents of its old location, whose order is kept, and becomes
    the last of the new one's; nothing else of any object changes, and the database stays
    well-formed. *)
Theorem db_change_location_correct F P d oid new : wf_db F P d -> legal_move P oid new ->
  exists d', db_change_location oid new d = Ok d' /\ wf_db F (move_node P oid new) d' /\
    db_object_location d' oid = Ok new /\
    (forall x ks, kids P !! x = Some ks -> contents_of d' x =
       Ok (if decide (x = new) then without oid ks ++ [oid] else without oid ks)) /\
    (forall x, children d' x = children d x) /\ (forall x, table d' x = table d x).
Proof.
  intros Hw Hl. destruct (change_location_Ok F P d oid new Hw Hl) as (d' & H & Hw' & Hs).
  assert (Hfam : forall x, children d' x = children d x).
  { intros x. pose proof (wdb_props _ _ _ Hw) as Hp. pose proof (wdb_props _ _ _ Hw') as Hp'.
    destruct (kids F !! x) as [ks|] eqn:Hk.
    - unfold children. rewrite (ll_below_Ok family _ F x ks (wp_family _ _ Hp) Hk).
      exact (ll_below_Ok family _ F x ks (wp_family _ _ Hp') Hk).
    - assert (Hn : forall e, wf_db F P e \/ wf_db F (move_node P oid new) e -> objects e !! x = None).
      { intros e He. destruct (objects e !! x) eqn:Ho; [|done].
        assert (is_Some (par F !! x)) as [q Hq]%(wf_dom F (wp_forest _ _ Hp)); [|congruence].
        destruct He as [He|He];
          (apply (represents_dom family _ F (wp_family _ _ (wdb_props _ _ _ He))); eauto). }
      unfold children, ll_below, get. rewrite (Hn d), (Hn d') by auto. done. }
  exists d'. split_and!; [done|done| | |done|].
  - pose proof (wdb_place _ _ _ Hw' oid) as (Hu & _). cbn in Hu. rewrite lookup_insert_eq in Hu.
    unfold ups in Hu. apply fmap_Some in Hu as (o & Ho & Hloc).
    unfold db_object_location, get. rewrite Ho. cbn. by rewrite Hloc.
  - intros x ks Hk. apply (ll_below_Ok place _ (move_node P oid new)); [apply Hw'|].
    rewrite move_kids, Hk. by case_decide.
  - intros x. unfold db_change_location in H. apply res_bind_Ok in H as (objs & Hr & [= <-]).
    apply (alike_table_of d (with_objects objs d)) with F; [|apply Hw].
    split; try done. intros y. cbn. by apply (same_nodes_field place).
Qed.

Lemma db_change_location_correct_witness : exists d', db_change_location 1 3 sample = Ok d' /\
  wf_db sample_family (move_node sample_place 1 3) d' /\ contents_of d' 3 = Ok [1] /\
  contents_of d' 2 = Ok [].
Proof.
  destruct (db_change_location_correct sample_family sample_place sample 1 3 sample_wf)
    as (d' & H & Hw & _ & Hc & _).
  - split; [vm_compute; eauto|]. right. exists [3]. split_and!.
    + apply (climb_lineage 2). reflexivity.
    + vm_compute. eauto.
    + apply (bool_decide_unpack _). vm_compute. exact I.
  - exists d'. split; [exact H|]. split; [exact Hw|]. split.
    + exact (Hc 3 [] eq_refl).
    + exact (Hc 2 [1] eq_refl).
Defined.

(** ** Changing the parent *)

Lemma agrees_not_nothing (F : forest) : wf_forest F ->
  agrees (A:=Object) (fun _ p => negb (p =? NOTHING)) F.
Proof.
  intros HF objs _. split; [|done]. intros p Hp. destruct (Z.eqb_spec p NOTHING) as [->|]; [|done].
  rewrite (wf_nothing F HF) in Hp. by destruct Hp.
Qed.

(** What a change of parent leaves alone. *)
Definition traits (o : Object) := (name o, owner o, flags o, verbdefs o, (location o, contents o, next o)).

Lemma change_parent_Ok F P d oid new : wf_db F P d -> legal_move F oid new ->
  compatible F d oid new -> exists d' old, db_change_parent oid new d = Ok (true, d') /\
    par F !! oid = Some old /\ wf_db (move_node F oid new) P d' /\ reparented F d oid old new d' /\
    verbs d' = verbs d /\ (forall y, traits <$> objects d' !! y = traits <$> objects d !! y) /\
    (vc_table d' = vc_table (db_priv_affected_callable_verb_lookup d) \/
     vc_table d' = vc_table d /\ exists o, objects d !! oid = Some o /\ child o = NOTHING /\ verbdefs o = []).
Proof.
  intros Hw Hl Hc. pose proof (wdb_props _ _ _ Hw) as Hp. pose proof (wp_family _ _ Hp) as Hr.
  pose proof (wp_forest _ _ Hp) as HF. pose proof Hl as [Hx Hnew].
  destruct (check_Ok F d oid new Hp Hx) as (b & Hb & Hiff).
  { destruct Hnew as [->|(_ & _ & ? & _)]; [by left|by right]. }
  unfold db_change_parent. rewrite Hb. cbn [mbind res_bind].
  assert (b = true) as -> by (by apply Hiff). cbn [negb].
  destruct (proj2 (represents_dom family _ F Hr oid) Hx) as [o Ho]. unfold get. rewrite Ho.
  cbn [deref mbind res_bind]. destruct Hx as [old Hold].
  assert (Hpar : parent o = old).
  { destruct (Hr oid) as (Hu & _). unfold ups in Hu. rewrite Ho, Hold in Hu. by injection Hu. }
  rewrite Hpar. destruct (flush_same d) as (Fo & Fn & Fm & Fu & Fv & Fp).
  assert (Hd1 : exists d1, (if (child o =? NOTHING) && bool_decide (verbdefs o = []) then d
      else db_priv_affected_callable_verb_lookup d) = d1 /\ objects d1 = objects d /\
      num_objects d1 = num_objects d /\ max_objects d1 = max_objects d /\
      all_users d1 = all_users d /\ verbs d1 = verbs d /\ wpds d1 = wpds d /\
      (vc_table d1 = vc_table (db_priv_affected_callable_verb_lookup d) \/
       vc_table d1 = vc_table d /\ child o = NOTHING /\ verbdefs o = [])).
  { destruct (_ && _) eqn:E; eexists; (split; [done|]); split_and!; try done; [right|by left].
    apply andb_true_iff in E as [?%Z.eqb_eq ?%bool_decide_eq_true]. done. }
  destruct Hd1 as (d1 & -> & E1 & E2 & E3 & E4 & E5 & E6 & E7).
  pose proof (wf_db_ext F P d d1 Hw E1 E2 E3 E4 E5 E6) as Hw1. rewrite E1.
  destruct (relocate_refines family (fun _ p => negb (p =? NOTHING)) (objects d) F oid new)
    as (objs & -> & Hs & Hr'); [done|done|done|by apply agrees_not_nothing|].
  cbn [mbind res_bind].
  destruct (fix_properties_Ok F d oid old new (with_objects objs d1) Hp Hl Hold Hs E2 E3 E6 Hr' Hc)
    as (d' & Hfix & Hwf & Hrep & Hfr & _).
  rewrite Hfix. cbn [mbind res_bind].
  destruct (framed_num _ _ Hfr) as (_ & _ & Hu & Hv). cbn in Hu, Hv.
  assert (Hfield : forall B (f : Object -> B), (forall o, f (skeleton o) = f o) ->
            (forall u v w o, f (relink family u v w o) = f o) ->
            forall y, f <$> objects d' !! y = f <$> objects d !! y).
  { intros B f Hf1 Hf2 y. rewrite (framed_field f _ _ y Hf1 Hfr). cbn.
    by apply (same_nodes_field family). }
  pose proof (f_equal vc_table (proj1 Hfr)) as Hvc. cbn in Hvc.
  exists d', old. rewrite <- Hvc. split_and!; [done|done| |done|congruence|by apply Hfield|].
  2: { destruct E7 as [?|(? & ? & ?)]; [by left|right]. split; [done|]. by exists o. }
  split.
  - done.
  - apply Hw.
  - apply (represents_ext place (objects d)); [by apply Hfield..|apply Hw].
  - apply (wf_users_ext d); [congruence|by apply Hfield|apply Hw].
  - apply (wf_verbs_ext d); [congruence|by apply Hfield|apply Hw].
Qed.

(** C4: Changing the parent of an object to one that is not below it (or to none) never
    faults.  It is refused, without any effect, exactly when a property of the new parent
    or its ancestors is defined at or below the object.  Otherwise the object becomes the
    last child of the new parent, and the table of every object at or below it keeps the
    cells of all definitions that it still inherits, loses those it no longer does, and
    gets clear ones (owned by itself when the permissions say so) for the new ones; the
    tables of all other objects are unchanged and the database stays well-formed. *)
Theorem db_change_parent_correct F P d oid new : wf_db F P d -> legal_move F oid new ->
  exists b d', db_change_parent oid new d = Ok (b, d') /\ (b = true <-> compatible F d oid new) /\
    if (b : bool) then
      wf_db (move_node F oid new) P d' /\ db_object_parent d' oid = Ok new /\
      exists old, par F !! oid = Some old /\ reparented F d oid old new d'
    else d' = d.
Proof.
  intros Hw Hl. pose proof (wdb_props _ _ _ Hw) as Hp. pose proof Hl as [Hx Hnew].
  destruct (check_Ok F d oid new Hp Hx) as (b & Hb & Hiff).
  { destruct Hnew as [->|(_ & _ & ? & _)]; [by left|by right]. }
  destruct b.
  - destruct (change_parent_Ok F P d oid new Hw Hl) as (d' & old & H & Hold & Hw' & Hrep & _).
    { by apply Hiff. }
    exists true, d'. split_and!; [done|done|done| |eauto].
    destruct (wp_family _ _ (wdb_props _ _ _ Hw') oid) as (Hu & _). cbn in Hu.
    rewrite lookup_insert_eq in Hu. unfold ups in Hu. apply fmap_Some in Hu as (o & Ho & Hpar).
    unfold db_object_parent, get. rewrite Ho. cbn. by rewrite Hpar.
  - exists false, d. split_and!; [|done|done]. unfold db_change_parent. by rewrite Hb.
Qed.

Lemma db_change_parent_correct_witness :
  (exists d', db_change_parent 5 2 sample = Ok (true, d') /\
     wf_db (move_node sample_family 5 2) sample_place d').
Proof.
  destruct (db_change_parent_correct sample_family sample_place sample 5 2 sample_wf)
    as (b & d' & H & _ & Hd).
  - split; [vm_compute; eauto|]. right. exists [2]. split_and!.
    + apply (climb_lineage 2). reflexivity.
    + vm_compute. eauto.
    + apply (bool_decide_unpack _). vm_compute. exact I.
  - pose proof (f_equal answer H) as Hb. vm_compute in Hb. subst b. exists d'.
    exact (conj H (proj1 Hd)).
Defined.
