(* ===== verification/Renumber.v ===== *)
(** * Renumbering objects: the theorem (src/db_objects.c)

    [db_renumber_object] gives an object the first unused number, and patches every
    pointer to it: in the two hierarchies, in the list of users, and where it is the owner
    of an object, a verb or a property. *)

From S2P Require Import Prelude CStrings Values Lists Links Db Properties Layout Tables Objects.
From S2P Require Import Sample PropertyOps Reparent ObjectOps.

Open Scope Z_scope.

(** ** The hierarchies *)

Section links.
Context (F P : forest) (d : db) (Hw : wf_db F P d) (old new : Z) (o : Object).
Context (Ho : objects d !! old = Some o) (Hnew : objects d !! new = None) (Hrange : 0 <= new < old).
Let F' := rename_forest old new F.
Let P' := rename_forest old new P.

Lemma dom_family x : is_Some (objects d !! x) <-> is_Some (par F !! x).
Proof. apply (represents_dom family). apply Hw. Qed.

Lemma dom_place x : is_Some (objects d !! x) <-> is_Some (par P !! x).
Proof. apply (represents_dom place). apply Hw. Qed.

Lemma new_free (G : forest) : (forall x, is_Some (objects d !! x) <-> is_Some (par G !! x)) ->
  par G !! new = None /\ is_Some (par G !! old).
Proof.
  intros H. split; [|apply H; eauto]. destruct (par G !! new) eqn:E; [|done].
  assert (is_Some (objects d !! new)) as [? ?] by (apply H; eauto). congruence.
Qed.

Lemma numbers_ok : old <> NOTHING /\ new <> NOTHING /\ old <> new.
Proof. unfold NOTHING. lia. Qed.

(** The object in its new place. *)
Definition placed : gmap Z Object := <[new := set_id new o]> (delete old (objects d)).

Lemma placed_swap {B} (f : Object -> B) x : f (set_id new o) = f o ->
  f <$> placed !! swap old new x = f <$> objects d !! x.
Proof.
  intros Hf. destruct numbers_ok as (_ & _ & Hne). unfold placed.
  destruct (decide (x = old)) as [->|Hxo]; [|destruct (decide (x = new)) as [->|Hxn]].
  - rewrite swap_l, lookup_insert_eq, Ho. cbn. by rewrite Hf.
  - rewrite swap_r, lookup_insert_ne, lookup_delete_eq, Hnew by done. done.
  - rewrite swap_other, lookup_insert_ne, lookup_delete_ne by done. done.
Qed.

Lemma placed_field (f : Object -> Z) y : f (set_id new o) = f o ->
  relocated old new (fun y => f <$> objects d !! y) y = f <$> placed !! y.
Proof.
  intros Hf. destruct numbers_ok as (_ & _ & Hne). unfold relocated, placed.
  case_decide as H1; [subst; rewrite lookup_insert_eq, Ho; cbn; by rewrite Hf|].
  rewrite lookup_insert_ne by done. case_decide as H2; [subst; by rewrite lookup_delete_eq|].
  by rewrite lookup_delete_ne.
Qed.

Lemma renumbered_links : exists objs2 objs3,
  renumber_links family "Object not in parent's children list" placed old new = Ok objs2 /\
  renumber_links place "Object not in location's contents list" objs2 old new = Ok objs3 /\
  same_nodes family placed objs2 /\ same_nodes place objs2 objs3 /\
  represents family objs3 F' /\ represents place objs3 P'.
Proof.
  destruct numbers_ok as (H1 & H2 & H3). pose proof (wdb_props _ _ _ Hw) as Hp.
  destruct (new_free F dom_family) as [HnF HoF]. destruct (new_free P dom_place) as [HnP HoP].
  destruct (renumber_links_Ok family (objects d) F (wp_forest _ _ Hp) (wp_family _ _ Hp) old new
    HoF HnF H2 placed "Object not in parent's children list") as (objs2 & E2 & Hs2 & Hr2).
  { apply (view_ext family _ _ _ _ _ _ _ _ (view_intro family placed)); intros y;
      by apply placed_field. }
  destruct (renumber_links_Ok place (objects d) P (wdb_place_forest _ _ _ Hw) (wdb_place _ _ _ Hw)
    old new HoP HnP H2 objs2 "Object not in location's contents list") as (objs3 & E3 & Hs3 & Hr3).
  { apply (view_ext place _ _ _ _ _ _ _ _ (view_intro place objs2)); intros y; unfold ups, fsts, nxts;
      rewrite (same_nodes_field family _ placed objs2) by done; by apply placed_field. }
  exists objs2, objs3. split_and!; try done.
  apply (represents_ext family objs2); [by apply (same_nodes_field place)..|done].
Qed.

(** What the patches of the links leave alone. *)
Lemma carried {B} (f : Object -> B) objs2 objs3 : same_nodes family placed objs2 ->
  same_nodes place objs2 objs3 -> f (set_id new o) = f o ->
  (forall u v w o, f (relink family u v w o) = f o) -> (forall u v w o, f (relink place u v w o) = f o) ->
  forall x, f <$> objs3 !! swap old new x = f <$> objects d !! x.
Proof.
  intros H2 H3 Hi Hf Hg x. rewrite (same_nodes_field place f objs2 objs3) by done.
  rewrite (same_nodes_field family f placed objs2) by done. by apply placed_swap.
Qed.

End links.

(** ** After the hierarchies and the list of users *)

Section relinked.
Context (F P : forest) (d : db) (Hw : wf_db F P d) (old new : Z) (o : Object).
Context (Ho : objects d !! old = Some o) (Hnew : objects d !! new = None) (Hrange : 0 <= new < old).
Let F' := rename_forest old new F.
Let P' := rename_forest old new P.
Context (d' : db).
Context (Hcarry : forall B (f : Object -> B), f (set_id new o) = f o ->
  (forall u v w o, f (relink family u v w o) = f o) -> (forall u v w o, f (relink place u v w o) = f o) ->
  forall x, f <$> objects d' !! swap old new x = f <$> objects d !! x).
Context (Hids : forall x o', objects d' !! x = Some o' -> id o' = x).
Context (Hfam : represents family (objects d') F') (Hpla : represents place (objects d') P').
Context (Hnum : num_objects d' = num_objects d) (Hmax : max_objects d' = max_objects d)
  (Hverbs : verbs d' = verbs d) (Hwpds : wpds d' = wpds d).

Definition rename_key (k : key) : key := (swap old new (fst k), snd k).

Lemma carried_lookup x o' : objects d' !! x = Some o' -> exists y oy, x = swap old new y /\
  objects d !! y = Some oy /\ owner o' = owner oy /\ name o' = name oy /\ flags o' = flags oy /\
  verbdefs o' = verbdefs oy /\ propdefs o' = propdefs oy /\ propval o' = propval oy /\
  waif_propdefs o' = waif_propdefs oy.
Proof.
  intros Hx. destruct (swap_surj old new x) as [y ->].
  set (f := fun o => (owner o, name o, flags o, verbdefs o, propdefs o, propval o, waif_propdefs o)).
  pose proof (Hcarry _ f eq_refl (fun _ _ _ _ => eq_refl) (fun _ _ _ _ => eq_refl) y) as H.
  rewrite Hx in H. cbn in H. symmetry in H. apply fmap_Some in H as (oy & Hoy & He).
  exists y, oy. unfold f in He. injection He. intros. split_and!; congruence.
Qed.

Lemma relinked_table : wf_table d'.
Proof.
  destruct (wp_table _ _ (wdb_props _ _ _ Hw)) as [Hr Hi Hc].
  split; rewrite ?Hnum, ?Hmax; [|done|done].
  intros x o' (y & oy & -> & Hy & _)%carried_lookup.
  pose proof (Hr y oy Hy). pose proof (Hr old o Ho). unfold swap. repeat case_decide; lia.
Qed.

Lemma along_renamed ls : along d' (swap old new <$> ls) = rename_key <$> along d ls.
Proof.
  induction ls as [|y ls IH]; [done|]. rewrite fmap_cons, !along_cons, fmap_app, IH. f_equal.
  pose proof (Hcarry _ (fun o => l (propdefs o)) eq_refl (fun _ _ _ _ => eq_refl)
                (fun _ _ _ _ => eq_refl) y) as H.
  destruct (objects d' !! swap old new y) as [o'|] eqn:Ho', (objects d !! y) as [oy|] eqn:Hoy;
    cbn in H |- *; try done. injection H as H. unfold defs_of. rewrite <- list_fmap_compose, H.
  rewrite (Hids _ _ Ho'). pose proof (wf_id d (wp_table _ _ (wdb_props _ _ _ Hw)) y oy Hoy) as ->.
  done.
Qed.

Lemma lineage_renamed x ls : lineage F x ls -> lineage F' (swap old new x) (swap old new <$> ls).
Proof.
  unfold lineage. intros Hl. eapply path_rename; [unfold NOTHING; lia..| |exact Hl].
  intros z _. apply rename_par.
Qed.

Lemma schema_renamed x : schema d' (swap old new x) = rename_key <$> schema d x.
Proof.
  pose proof (wdb_props _ _ _ Hw) as Hp. destruct (par F !! x) as [p|] eqn:Hx.
  - destruct (wf_acyclic F (wp_forest _ _ Hp) x) as [ls Hl]; [eauto|].
    rewrite (schema_along F d x ls (wp_family _ _ Hp) (wp_table _ _ Hp) Hl).
    rewrite (schema_along F' d' _ _ Hfam relinked_table (lineage_renamed x ls Hl)).
    apply along_renamed.
  - rewrite (schema_invalid F d x (wp_family _ _ Hp) (wp_table _ _ Hp) Hx).
    apply (schema_invalid F' d'); [done|apply relinked_table|]. unfold F'. by rewrite rename_par, Hx.
Qed.

Lemma relinked_props : wf_props F' d'.
Proof.
  pose proof (wdb_props _ _ _ Hw) as [HF Hr Ht [Hwe Hws] Hc Hd Hu Hcap Hcl].
  split.
  - apply rename_wf; [unfold NOTHING; lia..|done].
  - done.
  - apply relinked_table.
  - split; rewrite ?Hwpds.
    + intros x o' p (y & oy & -> & Hy & _ & _ & _ & _ & _ & _ & ->)%carried_lookup. by eapply Hwe.
    + intros x z ox oz p (y & oy & -> & Hy & _ & _ & _ & _ & _ & _ & ->)%carried_lookup
        (y' & oy' & -> & Hy' & _ & _ & _ & _ & _ & _ & ->)%carried_lookup Hpx Hpz.
      f_equal. exact (Hws y y' oy oy' p Hy Hy' Hpx Hpz).
  - intros x o' (y & oy & -> & Hy & _ & _ & _ & _ & _ & -> & _)%carried_lookup.
    rewrite schema_renamed, length_fmap. by apply Hc.
  - intros x o' p (y & oy & -> & Hy & _ & _ & _ & _ & -> & _)%carried_lookup. by eapply Hd.
  - intros x. destruct (swap_surj old new x) as [y ->]. rewrite schema_renamed, <- list_fmap_compose.
    apply Hu.
  - intros x o' (y & oy & -> & Hy & _ & _ & _ & _ & -> & _)%carried_lookup. by eapply Hcap.
  - intros x o' n pv (y & oy & -> & Hy & _ & _ & _ & _ & -> & -> & _)%carried_lookup. by eapply Hcl.
Qed.

Lemma relinked_verbs : wf_verbs d'.
Proof.
  destruct (wdb_verbs _ _ _ Hw) as [He Hn Hvo]. split; rewrite ?Hverbs.
  - intros x o' v (y & oy & -> & Hy & _ & _ & _ & -> & _)%carried_lookup. by eapply He.
  - intros x o' (y & oy & -> & Hy & _ & _ & _ & -> & _)%carried_lookup. by eapply Hn.
  - intros x z ox oz v (y & oy & -> & Hy & _ & _ & _ & -> & _)%carried_lookup
      (y' & oy' & -> & Hy' & _ & _ & _ & -> & _)%carried_lookup Hvx Hvz.
    f_equal. exact (Hvo y y' oy oy' v Hy Hy' Hvx Hvz).
Qed.

Lemma relinked_users xs : all_users d = Obj <$> xs -> all_users d' = Obj <$> (swap old new <$> xs) ->
  wf_users d'.
Proof.
  intros Hu Hu'. destruct (users_list d (wdb_users _ _ _ Hw)) as (xs' & E & Hnd & Hfl & Hv).
  assert (xs' = xs) as ->.
  { apply (list_fmap_eq_inj Obj); [apply _|]. exact (eq_trans (eq_sym E) Hu). }
  apply (users_intro d' (swap old new <$> xs)); [done|by apply NoDup_fmap_2; [apply _|]| |].
  - intros x o' (y & oy & -> & Hy & _ & _ & Hf & _)%carried_lookup. unfold has_flag. rewrite Hf.
    rewrite list_elem_of_fmap. change (negb _) with (has_flag oy FLAG_USER). rewrite <- (Hfl y oy Hy).
    split; [by intros (z & ->%(inj (swap old new)) & ?)|eauto].
  - intros x (y & -> & Hy%Hv)%list_elem_of_fmap. rewrite <- (fmap_is_Some flags).
    rewrite Hcarry by done. by apply fmap_is_Some.
Qed.

Lemma relinked_wf xs : all_users d = Obj <$> xs -> all_users d' = Obj <$> (swap old new <$> xs) ->
  wf_db F' P' d'.
Proof.
  intros Hu Hu'. split.
  - apply relinked_props.
  - apply rename_wf; [unfold NOTHING; lia..|apply Hw].
  - done.
  - by eapply relinked_users.
  - apply relinked_verbs.
Qed.

End relinked.

(** ** The list of users *)

Lemma rename_user_Ok old new xs : new ∉ xs -> NoDup xs ->
  rename_user old new (Obj <$> xs) = Ok (Obj <$> (swap old new <$> xs)).
Proof.
  intros Hn Hnd. induction xs as [|x xs IH]; [done|]. cbn [fmap list_fmap rename_user].
  apply NoDup_cons in Hnd as [Hx Hnd]. destruct (Z.eqb_spec x old) as [->|Hxo].
  - rewrite swap_l. f_equal. f_equal. f_equal.
    rewrite <- (list_fmap_id xs) at 1. apply list_fmap_ext. intros i y Hy%list_elem_of_lookup_2.
    cbn. symmetry. apply swap_other; [by intros ->|set_solver].
  - rewrite IH by set_solver. cbn. rewrite swap_other by set_solver. done.
Qed.

(** ** The owners *)

Section owners.
Context (old new : Z).

Definition rename_verb (vd : Verbdef) : Verbdef :=
  mkVerbdef (v_name vd) (v_program vd) (rename_owner old new (v_owner vd)) (v_perms vd) (v_prep vd).

Lemma rename_verb_owners_Ok vs heap : NoDup vs -> (forall v, v ∈ vs -> is_Some (heap !! v)) ->
  exists heap', rename_verb_owners old new vs heap = Ok heap' /\
    forall v, heap' !! v = if decide (v ∈ vs) then rename_verb <$> heap !! v else heap !! v.
Proof.
  revert heap. induction vs as [|v vs IH]; intros heap Hnd Hin; cbn [rename_verb_owners].
  - exists heap. split; [done|]. intros v. rewrite decide_False by set_solver. done.
  - apply NoDup_cons in Hnd as [Hv Hnd]. destruct (Hin v) as [vd Hvd]; [set_solver|]. rewrite Hvd.
    cbn [deref mbind res_bind]. fold (rename_verb vd).
    destruct (IH (<[v := rename_verb vd]> heap) Hnd) as (heap' & -> & Hh).
    { intros w Hw. rewrite lookup_insert_ne by (intros ->; done). apply Hin. set_solver. }
    exists heap'. split; [done|]. intros w. rewrite Hh. destruct (decide (w = v)) as [->|Hwv].
    + rewrite (decide_False (P := v ∈ vs)), lookup_insert_eq by done.
      rewrite (decide_True (P := v ∈ v :: vs)) by set_solver. by rewrite Hvd.
    + rewrite lookup_insert_ne by done. repeat case_decide; set_solver.
Qed.

Definition rename_object (o : Object) : Object :=
  set_propval (rename_cell old new <$> propval o) (set_owner (rename_owner old new (owner o)) o).

(** The database [d] with the owners of the objects [xs] and of what they hold renamed. *)
Definition partly_renamed (d : db) (xs : list Z) (d' : db) : Prop :=
  num_objects d' = num_objects d /\ max_objects d' = max_objects d /\
  all_users d' = all_users d /\ wpds d' = wpds d /\
  (forall y, objects d' !! y = (if decide (y ∈ xs) then rename_object else fun o => o) <$> objects d !! y) /\
  (forall v y o, y ∈ xs -> objects d !! y = Some o -> v ∈ verbdefs o ->
     verbs d' !! v = rename_verb <$> verbs d !! v) /\
  (forall v, (forall y o, y ∈ xs -> objects d !! y = Some o -> v ∉ verbdefs o) ->
     verbs d' !! v = verbs d !! v).

Lemma partly_field {B} (f : Object -> B) d xs d' : partly_renamed d xs d' ->
  (forall o, f (rename_object o) = f o) -> forall y, f <$> objects d' !! y = f <$> objects d !! y.
Proof.
  intros (_ & _ & _ & _ & Ho & _) Hf y. rewrite Ho. destruct (objects d !! y); [|done]. cbn.
  case_decide; [by rewrite Hf|done].
Qed.

Context (F P : forest) (d : db) (Hw : wf_db F P d).

(** Owners and cells do not matter to the counts. *)
Definition bare (o : Object) : Object := set_propval [] (set_owner 0 o).

Section bare.
Context (d' : db) (En : num_objects d' = num_objects d) (Em : max_objects d' = max_objects d).
Context (Hbare : forall y, bare <$> objects d' !! y = bare <$> objects d !! y).

Lemma bare_field {B} (f : Object -> B) y : (forall o, f (bare o) = f o) ->
  f <$> objects d' !! y = f <$> objects d !! y.
Proof.
  intros Hf. specialize (Hbare y).
  destruct (objects d' !! y) as [o'|], (objects d !! y) as [oy|]; cbn in *; try done.
  f_equal. rewrite <- (Hf o'), <- (Hf oy). congruence.
Qed.

Lemma bare_family : represents family (objects d') F.
Proof.
  apply (represents_ext family (objects d)); [intros; by apply bare_field..|apply Hw].
Qed.

Lemma bare_table : wf_table d'.
Proof.
  destruct (wp_table _ _ (wdb_props _ _ _ Hw)) as [H1 H2 H3]. split; rewrite ?En, ?Em; [| |done];
    intros y o' Hy; pose proof (bare_field id y (fun _ => eq_refl)) as H; rewrite Hy in H; cbn in H;
    symmetry in H; apply fmap_Some in H as (oy & Hoy & He); [by eapply H1|]. rewrite He. by apply H2.
Qed.

Lemma bare_along ls : along d' ls = along d ls.
Proof.
  unfold along. apply list_bind_ext; [|done]. intros y.
  pose proof (bare_field defs_of y (fun _ => eq_refl)) as H.
  destruct (objects d !! y), (objects d' !! y); cbn in *; congruence.
Qed.

Lemma bare_schema x : schema d' x = schema d x.
Proof.
  pose proof (wdb_props _ _ _ Hw) as Hp. destruct (par F !! x) as [p|] eqn:Hx.
  - destruct (wf_acyclic F (wp_forest _ _ Hp) x) as [ls Hl]; [eauto|].
    rewrite (schema_along F d x ls (wp_family _ _ Hp) (wp_table _ _ Hp) Hl).
    rewrite (schema_along F d' x ls bare_family bare_table Hl). apply bare_along.
  - rewrite (schema_invalid F d x (wp_family _ _ Hp) (wp_table _ _ Hp) Hx).
    by apply (schema_invalid F d' x bare_family bare_table).
Qed.

Lemma bare_count x o : objects d !! x = Some o ->
  dbpriv_count_properties d' x = Ok (length (propval o)).
Proof.
  intros Hx. pose proof (wdb_props _ _ _ Hw) as Hp.
  assert (Hv : is_Some (par F !! x)) by (by eapply valid_par).
  destruct (wf_acyclic F (wp_forest _ _ Hp) x Hv) as [ls Hl].
  rewrite (count_Ok d' F bare_family bare_table x ls Hl), (wp_cells _ _ Hp x o Hx).
  rewrite (schema_along F d x ls (wp_family _ _ Hp) (wp_table _ _ Hp) Hl).
  by rewrite <- (bare_along ls), length_along.
Qed.

End bare.

(** One turn of the loop. *)
Lemma rename_owners_of_Ok xs d' x : partly_renamed d xs d' -> x ∉ xs ->
  exists d'', rename_owners_of old new x d' = Ok d'' /\ partly_renamed d (xs ++ [x]) d''.
Proof.
  intros Hd Hx. pose proof Hd as (En & Em & Eu & Ew & Eo & Ev1 & Ev2). unfold rename_owners_of.
  rewrite (Eo x), decide_False by done. destruct (objects d !! x) as [o|] eqn:Hox; cbn [fmap option_fmap option_map].
  2:{ exists d'. split; [done|]. split_and!; try done.
      - intros y. rewrite Eo. destruct (decide (y = x)) as [->|Hy]; [by rewrite Hox|].
        destruct (decide (y ∈ xs)); [rewrite decide_True by set_solver|rewrite decide_False by set_solver]; done.
      - intros v y oy [Hy| ->%list_elem_of_singleton]%elem_of_app Hoy; [by eapply Ev1|congruence].
      - intros v Hv. apply Ev2. intros y oy Hy. apply Hv. set_solver. }
  assert (Hox' : objects d' !! x = Some o) by (rewrite Eo, Hox, decide_False by done; done).
  rewrite (upd_object_Ok d' x o _ Hox'). cbn [mbind res_bind verbs with_objects].
  pose proof (wdb_verbs _ _ _ Hw) as [He Hnd Hvo].
  assert (Hsame : forall v, v ∈ verbdefs o -> verbs d' !! v = verbs d !! v).
  { intros v Hv. apply Ev2. intros y oy Hy Hoy Hvy. by rewrite (Hvo x y o oy v Hox Hoy Hv Hvy) in Hx. }
  destruct (rename_verb_owners_Ok (verbdefs o) (verbs d')) as (heap & -> & Hheap).
  { by eapply Hnd. } { intros v Hv. rewrite Hsame by done. by eapply He. }
  cbn [mbind res_bind].
  set (d1 := with_verbs heap _).
  assert (Hcount : dbpriv_count_properties d1 x = Ok (length (propval o))).
  { apply bare_count; [done|done| |done]. intros y. cbn. destruct (decide (y = x)) as [->|Hy].
    - by rewrite lookup_insert_eq, Hox.
    - rewrite lookup_insert_ne by done. by apply (partly_field bare d xs). }
  rewrite Hcount. cbn [mbind res_bind]. rewrite copy_prefix by done. cbn [mbind res_bind].
  rewrite firstn_all, drop_all, app_nil_r.
  assert (Hox1 : objects d1 !! x = Some (set_owner (rename_owner old new (owner o)) o)) by (apply lookup_insert_eq).
  rewrite (upd_object_Ok d1 x _ _ Hox1). eexists. split; [done|]. cbn. split_and!; try done.
  - intros y. cbn [objects with_objects with_verbs d1]. rewrite insert_insert_eq. destruct (decide (y = x)) as [->|Hy].
    + rewrite lookup_insert_eq, Hox, decide_True by set_solver. done.
    + rewrite lookup_insert_ne, Eo by done.
      destruct (decide (y ∈ xs)); [rewrite decide_True by set_solver|rewrite decide_False by set_solver]; done.
  - intros v y oy [Hy| ->%list_elem_of_singleton]%elem_of_app Hoy Hv; rewrite Hheap.
    + rewrite decide_False; [by eapply Ev1|]. intros Hvx.
      by rewrite (Hvo x y o oy v Hox Hoy Hvx Hv) in Hx.
    + replace oy with o in * by congruence. rewrite decide_True by done. by rewrite Hsame.
  - intros v Hv. rewrite Hheap, decide_False by (apply (Hv x o); [set_solver|done]).
    apply Ev2. intros y oy Hy. apply Hv. set_solver.
Qed.

Lemma rename_owners_Ok ys : forall xs d', NoDup (xs ++ ys) -> partly_renamed d xs d' ->
  exists d'', rename_owners old new ys d' = Ok d'' /\ partly_renamed d (xs ++ ys) d''.
Proof.
  induction ys as [|y ys IH]; intros xs d' Hnd Hd; cbn [rename_owners].
  - exists d'. by rewrite app_nil_r.
  - destruct (rename_owners_of_Ok xs d' y Hd) as (d1 & -> & Hd1).
    { apply NoDup_app in Hnd as (_ & Hn & _). intros H. apply (Hn y H). set_solver. }
    cbn [mbind res_bind]. destruct (IH (xs ++ [y]) d1) as (d2 & -> & Hd2).
    + by rewrite <- app_assoc.
    + done.
    + exists d2. by rewrite <- app_assoc in Hd2.
Qed.

(** The invariant does not depend on owners. *)
Lemma partly_renamed_wf xs d' : partly_renamed d xs d' -> wf_db F P d' /\
  (forall x, table d' x = (if decide (x ∈ xs) then prod_map (fun k => k) (rename_cell old new)
                           else fun e => e) <$> table d x).
Proof.
  intros Hd. pose proof Hd as (En & Em & Eu & Ew & Eo & Ev1 & Ev2).
  pose proof (partly_field bare d xs d' Hd (fun _ => eq_refl)) as Hbare.
  pose proof (bare_schema d' En Em Hbare) as Hs.
  assert (Hl : forall x o', objects d' !! x = Some o' -> exists o, objects d !! x = Some o /\
    flags o' = flags o /\ verbdefs o' = verbdefs o /\ propdefs o' = propdefs o /\
    waif_propdefs o' = waif_propdefs o /\
    propval o' = (if decide (x ∈ xs) then rename_cell old new else fun c => c) <$> propval o).
  { intros x o'. rewrite Eo. intros (o & Ho & ->)%fmap_Some_1. exists o. split; [done|].
    case_decide; [done|]. by rewrite list_fmap_id. }
  pose proof (wdb_props _ _ _ Hw) as [HF Hr Ht [Hwe Hws] Hc Hdef Hu Hcap Hcl].
  split; [split; [split| | | |]|].
  - done.
  - by apply bare_family.
  - by apply bare_table.
  - split; rewrite ?Ew.
    + intros x o' p (o & Ho & _ & _ & _ & -> & _)%Hl. by eapply Hwe.
    + intros x y ox oy p (o & Ho & _ & _ & _ & -> & _)%Hl (o2 & Ho2 & _ & _ & _ & -> & _)%Hl.
      by eapply Hws.
  - intros x o' (o & Ho & _ & _ & _ & _ & ->)%Hl. rewrite Hs, length_fmap. by apply Hc.
  - intros x o' p (o & Ho & _ & _ & -> & _)%Hl. by eapply Hdef.
  - intros x. rewrite Hs. apply Hu.
  - intros x o' (o & Ho & _ & _ & -> & _)%Hl. by eapply Hcap.
  - intros x o' n pv (o & Ho & _ & _ & -> & _ & ->)%Hl. rewrite list_lookup_fmap.
    intros (pv0 & Hpv & ->)%fmap_Some_1 Hlt. pose proof (Hcl x o n pv0 Ho Hpv Hlt). by case_decide.
  - apply Hw.
  - apply (represents_ext place (objects d)); [intros; by apply (partly_field _ d xs)..|apply Hw].
  - apply (wf_users_ext d); [done|intros; by apply (partly_field _ d xs)|apply Hw].
  - destruct (wdb_verbs _ _ _ Hw) as [He Hn Hvo]. split.
    + intros x o' v (o & Ho & _ & -> & _)%Hl Hv. destruct (decide (x ∈ xs)) as [Hx|Hx].
      * rewrite (Ev1 v x o Hx Ho Hv). apply fmap_is_Some. by eapply He.
      * rewrite Ev2; [by eapply He|]. intros y oy Hy Hoy Hvy.
        by rewrite (Hvo x y o oy v Ho Hoy Hv Hvy) in Hx.
    + intros x o' (o & Ho & _ & -> & _)%Hl. by eapply Hn.
    + intros x y ox oy v (o & Ho & _ & -> & _)%Hl (o2 & Ho2 & _ & -> & _)%Hl. by eapply Hvo.
  - intros x. unfold table. rewrite Hs. destruct (objects d' !! x) as [o'|] eqn:Hx'.
    + destruct (Hl x o' Hx') as (o & -> & _ & _ & _ & _ & Hpv). cbn [from_option]. rewrite Hpv.
      case_decide.
      * rewrite (prod_map_zip (fun k => k) (rename_cell old new)). by rewrite list_fmap_id.
      * by rewrite !list_fmap_id.
    + rewrite Eo in Hx'. apply fmap_None in Hx'. rewrite Hx'. cbn. by destruct (schema d x).
Qed.

End owners.

(** ** The operation *)

Lemma swap_same a x : swap a a x = x.
Proof. unfold swap. repeat case_decide; congruence. Qed.

Lemma rename_same a F : rename_forest a a F = F.
Proof.
  destruct F as [p k]. unfold rename_forest. cbn. f_equal; apply map_eq; intros x.
  - pose proof (rename_par a a (mkForest p k) x) as H. cbn in H. rewrite swap_same in H. rewrite H.
    destruct (p !! x) as [y|]; [|done]. cbn. by rewrite swap_same.
  - pose proof (rename_kids a a (mkForest p k) x) as H. cbn in H. rewrite swap_same in H. rewrite H.
    destruct (k !! x) as [ys|]; [|done]. cbn. f_equal. rewrite <- (list_fmap_id ys) at 2.
    apply list_fmap_ext. intros i y _. apply swap_same.
Qed.

(** The search for the first unused number. *)
Lemma find_unused {B} (objs : gmap Z B) n : 0 <= n ->
  match List.find (fun new => bool_decide (objs !! new = None)) (seqZ 0 n) with
  | Some m => 0 <= m < n /\ objs !! m = None /\ forall x, 0 <= x < m -> is_Some (objs !! x)
  | None => forall x, 0 <= x < n -> is_Some (objs !! x)
  end.
Proof.
  intros Hn. rewrite <- (Z2Nat.id n) by done. generalize (Z.to_nat n) as k. clear n Hn. intros k.
  induction k as [|k IH].
  - intros x. lia.
  - replace (Z.of_nat (S k)) with (Z.of_nat k + 1) by lia. rewrite seqZ_app by lia.
    replace (seqZ (0 + Z.of_nat k) 1) with [Z.of_nat k] by (unfold seqZ; cbn; f_equal; lia).
    rewrite find_app. destruct (List.find _ (seqZ 0 (Z.of_nat k))) as [m|].
    + destruct IH as (H1 & H2 & H3). split; [lia|done].
    + cbn [List.find]. destruct (bool_decide_reflect (objs !! Z.of_nat k = None)) as [E|E].
      * split; [lia|]. done.
      * intros x Hx. destruct (decide (x = Z.of_nat k)) as [->|]; [|apply IH; lia].
        by apply not_eq_None_Some.
Qed.

(** What a renumbering promises besides well-formedness. *)
Record renumbered (d : db) (old new : Z) (d' : db) : Prop := {
  rn_table x : table d' (swap old new x) =
    prod_map (rename_key old new) (rename_cell old new) <$> table d x;
  rn_users x : Obj (swap old new x) ∈ all_users d' <-> Obj x ∈ all_users d;
  rn_object x o : objects d !! x = Some o -> exists o', objects d' !! swap old new x = Some o' /\
    owner o' = rename_owner old new (owner o) /\ name o' = name o /\ flags o' = flags o /\
    verbdefs o' = verbdefs o;
  rn_verb x o v : objects d !! x = Some o -> v ∈ verbdefs o ->
    verbs d' !! v = rename_verb old new <$> verbs d !! v }.

Section operation.
Context (F P : forest) (d : db) (Hw : wf_db F P d) (old new : Z) (o : Object).
Context (Ho : objects d !! old = Some o) (Hnew : objects d !! new = None) (Hrange : 0 <= new < old).

Lemma renumber_relinked : exists objs3 xs,
  (objs ← renumber_links family "Object not in parent's children list" (placed d old new o) old new;
   renumber_links place "Object not in location's contents list" objs old new) = Ok objs3 /\
  all_users d = Obj <$> xs /\ NoDup xs /\ new ∉ xs /\
  (old ∈ xs <-> has_flag o FLAG_USER = true) /\
  let d3 := with_objects objs3 d in
  let d4 := with_users (Obj <$> (swap old new <$> xs)) d3 in
  wf_table d3 /\ wf_db (rename_forest old new F) (rename_forest old new P) d4 /\
  (forall x, schema d4 (swap old new x) = rename_key old new <$> schema d x) /\
  forall x, (fun o => (owner o, name o, flags o, verbdefs o, propval o)) <$> objs3 !! swap old new x =
            (fun o => (owner o, name o, flags o, verbdefs o, propval o)) <$> objects d !! x.
Proof.
  destruct (renumbered_links F P d Hw old new o Ho Hnew Hrange)
    as (objs2 & objs3 & E2 & E3 & Hs2 & Hs3 & Hr & Hpl).
  destruct (users_list d (wdb_users _ _ _ Hw)) as (xs & Hxs & Hnd & Hfl & Hv).
  exists objs3, xs. rewrite E2. cbn [mbind res_bind].
  split; [done|]. split; [done|]. split; [done|]. split; [intros [? ?]%Hv; congruence|].
  split; [by apply Hfl|].
  assert (Hcarry : forall B (f : Object -> B), f (set_id new o) = f o ->
    (forall u v w o, f (relink family u v w o) = f o) -> (forall u v w o, f (relink place u v w o) = f o) ->
    forall x, f <$> objs3 !! swap old new x = f <$> objects d !! x).
  { intros B f H1 H2 H3. by apply (carried d old new o Ho Hnew Hrange f objs2 objs3). }
  assert (Hids : forall x o', objs3 !! x = Some o' -> id o' = x).
  { intros x o' Hx. pose proof (same_nodes_field place id objs2 objs3 (fun _ _ _ _ => eq_refl) Hs3 x) as H3.
    pose proof (same_nodes_field family id _ objs2 (fun _ _ _ _ => eq_refl) Hs2 x) as H2.
    rewrite Hx, H2 in H3. cbn in H3. unfold placed in H3. destruct (decide (x = new)) as [->|Hxn].
    - rewrite lookup_insert_eq in H3. by injection H3.
    - rewrite lookup_insert_ne in H3 by done. destruct (decide (x = old)) as [->|Hxo];
        [by rewrite lookup_delete_eq in H3|]. rewrite lookup_delete_ne in H3 by done.
      destruct (objects d !! x) as [ox|] eqn:Hox; [|done]. injection H3 as ->.
      by apply (wf_id d (wp_table _ _ (wdb_props _ _ _ Hw))). }
  cbv zeta. split; [|split; [|split]].
  - exact (relinked_table F P d Hw old new o Ho Hrange (with_objects objs3 d) Hcarry Hids eq_refl eq_refl).
  - apply (relinked_wf F P d Hw old new o Ho Hrange
      (with_users (Obj <$> (swap old new <$> xs)) (with_objects objs3 d)) Hcarry Hids Hr Hpl
      eq_refl eq_refl eq_refl eq_refl xs Hxs eq_refl).
  - apply (schema_renamed F P d Hw old new o Ho Hrange
      (with_users (Obj <$> (swap old new <$> xs)) (with_objects objs3 d)) Hcarry Hids Hr eq_refl eq_refl).
  - by apply Hcarry.
Qed.

Lemma renumber_Ok : exists d', renumber old new d = Ok d' /\
  wf_db (rename_forest old new F) (rename_forest old new P) d' /\ renumbered d old new d'.
Proof.
  destruct renumber_relinked as (objs3 & xs & Hlinks & Hxs & Hnd & Hnx & Hfl & Ht3 & Hw4 & Hsch & Hcarry).
  unfold renumber, get. rewrite Ho. cbn [deref mbind res_bind].
  apply res_bind_Ok in Hlinks as (objs2 & H2 & H3). unfold placed in H2. rewrite H2.
  cbn [mbind res_bind]. rewrite H3. cbn [mbind res_bind].
  set (d3 := with_objects objs3 d) in *. set (d4 := with_users _ d3) in *.
  assert (Hnewo : exists o', objs3 !! new = Some o' /\ has_flag o' FLAG_USER = has_flag o FLAG_USER).
  { pose proof (Hcarry old) as H. rewrite swap_l, Ho in H. apply fmap_Some in H as (o' & ? & He).
    exists o'. split; [done|]. injection He. intros. unfold has_flag. congruence. }
  destruct Hnewo as (o' & Ho' & Hfo').
  rewrite (is_user_Ok d3 new o' Ht3 Ho'). cbn [mbind res_bind].
  assert (Hus : (if has_flag o' FLAG_USER then
      u ← rename_user old new (all_users d3); Ok (with_users u d3) else Ok d3) = Ok d4).
  { rewrite Hfo'. destruct (has_flag o FLAG_USER) eqn:E.
    - cbn [all_users d3 with_objects]. rewrite Hxs, rename_user_Ok by done. done.
    - f_equal. unfold d4. replace (swap old new <$> xs) with xs.
      + rewrite <- Hxs. by destruct d.
      + rewrite <- (list_fmap_id xs) at 1. apply list_fmap_ext. intros i y Hy%list_elem_of_lookup_2.
        change (y = swap old new y). symmetry. apply swap_other; [|by intros ->]. intros ->. by apply Hfl in Hy. }
  rewrite Hus. cbn [mbind res_bind].
  destruct (rename_owners_Ok old new _ _ d4 Hw4 (seqZ 0 (num_objects d4)) [] d4) as (d' & Hd' & Hpr).
  { apply NoDup_seqZ. }
  { split_and!; try done; [intros y; by destruct (objects d4 !! y)|intros v y oy Hy; set_solver]. }
  rewrite Hd'. exists d'. split; [done|].
  destruct (partly_renamed_wf old new _ _ d4 Hw4 _ d' Hpr) as [Hw' Htab]. split; [done|].
  destruct Hpr as (_ & _ & Hu & _ & Hobj & Hv & _).
  assert (Hin : forall x ox, objects d4 !! x = Some ox -> x ∈ [] ++ seqZ 0 (num_objects d4)).
  { intros x ox Hx. apply elem_of_seqZ.
    exact (wf_range d4 (wp_table _ _ (wdb_props _ _ _ Hw4)) x ox Hx). }
  split.
  - intros x. rewrite Htab.
    assert (Ht4 : table d4 (swap old new x) = prod_map (rename_key old new) (fun c => c) <$> table d x).
    { unfold table. rewrite Hsch, prod_map_zip, list_fmap_id. f_equal.
      pose proof (Hcarry x) as H. cbn [objects d4 with_users d3 with_objects].
      destruct (objs3 !! swap old new x), (objects d !! x); cbn in H |- *; congruence. }
    destruct (objects d4 !! swap old new x) as [o4|] eqn:H4.
    + rewrite decide_True by (by eapply Hin). rewrite Ht4, <- list_fmap_compose.
      apply list_fmap_ext. intros i [k pv] _. done.
    + assert (Hx : objects d !! x = None).
      { pose proof (Hcarry x) as H. cbn in H4. rewrite H4 in H. cbn in H. symmetry in H.
        by apply fmap_None in H. }
      unfold table. rewrite H4, Hx. cbn. rewrite !zip_with_nil_r. by case_decide.
  - intros x. rewrite Hu, Hxs. unfold d4. cbn [all_users with_users]. rewrite !list_elem_of_fmap. split.
    + intros (y & [= <-] & (z & ->%(inj (swap old new)) & Hz)%list_elem_of_fmap). eauto.
    + intros (y & [= ->] & Hy). exists (swap old new y). split; [done|]. apply list_elem_of_fmap. eauto.
  - intros x ox Hx. pose proof (Hcarry x) as H. rewrite Hx in H. apply fmap_Some in H as (o3 & Ho3 & He).
    exists (rename_object old new o3). rewrite Hobj. rewrite decide_True by (by eapply Hin).
    cbn [objects d4 with_users d3 with_objects]. rewrite Ho3. injection He. intros.
    split; [done|]. cbn. split_and!; congruence.
  - intros x ox v Hx Hvx. pose proof (Hcarry x) as H. rewrite Hx in H. apply fmap_Some in H as (o3 & Ho3 & He).
    injection He. intros _ Hvd _ _ _. rewrite (Hv v (swap old new x) o3); [done|by eapply Hin|done|congruence].
Qed.

End operation.

Lemma renumber_object_Ok F P d old : wf_db F P d -> is_Some (objects d !! old) ->
  exists n d', db_renumber_object old d = Ok (n, d') /\ 0 <= n <= old /\
    (forall x, 0 <= x < n -> is_Some (objects d !! x)) /\
    wf_db (rename_forest old n F) (rename_forest old n P) d' /\
    (n <> old -> objects d !! n = None /\ renumbered d old n d') /\
    (n = old -> objects d' = objects d /\ all_users d' = all_users d /\ verbs d' = verbs d).
Proof.
  intros Hw [o Ho]. destruct (flush_same d) as (Fo & Fn & Fm & Fu & Fv & Fp).
  unfold db_renumber_object. set (d0 := db_priv_affected_callable_verb_lookup d) in *.
  pose proof (wf_db_ext F P d d0 Hw Fo Fn Fm Fu Fv Fp) as Hw0. rewrite <- Fo in Ho |- *.
  pose proof (wf_range d0 (wp_table _ _ (wdb_props _ _ _ Hw0)) old o Ho) as Hr.
  pose proof (find_unused (objects d0) old (proj1 Hr)) as Hfind.
  destruct (List.find _ (seqZ 0 old)) as [n|].
  - destruct Hfind as (Hn & Hno & Hlt).
    destruct (renumber_Ok F P d0 Hw0 old n o Ho Hno Hn) as (d' & -> & Hw' & Hren).
    exists n, d'. cbn [mbind res_bind]. split_and!; [done|lia|lia|done|done| |lia].
    intros _. split; [done|]. destruct Hren as [R1 R2 R3 R4].
    assert (Hs : forall x, table d0 x = table d x).
    { intros x. unfold table, schema. by rewrite (ancestry_same d d0 x Fo Fn), Fo. }
    split.
    + intros x. by rewrite <- Hs.
    + intros x. by rewrite <- Fu.
    + intros x ox. rewrite <- Fo. apply R3.
    + intros x ox v. rewrite <- Fo, <- Fv. apply R4.
  - exists old, d0. rewrite !rename_same. split_and!; [done|lia|lia|done|done|done|done].
Qed.

(** C7: Renumbering gives an object the least unused number (none smaller than the old one
    being unused, it keeps its number) and never faults.  Every trace of the old number
    follows: both hierarchies are renamed, the list of users too, the table of every object
    has the same cells in the same order with the definer renamed, the object owns what it
    owned before, and what the unused number seemed to own is owned by nobody.  The
    database stays well-formed. *)
Theorem db_renumber_object_correct F P d old : wf_db F P d -> is_Some (objects d !! old) ->
  exists n d', db_renumber_object old d = Ok (n, d') /\ 0 <= n <= old /\
    (forall x, 0 <= x < n -> is_Some (objects d !! x)) /\
    wf_db (rename_forest old n F) (rename_forest old n P) d' /\
    (n <> old -> objects d !! n = None /\ renumbered d old n d') /\
    (n = old -> objects d' = objects d /\ all_users d' = all_users d /\ verbs d' = verbs d).
Proof. apply renumber_object_Ok. Qed.

Lemma db_renumber_object_correct_witness : exists d', db_renumber_object 5 sample = Ok (4, d') /\
  wf_db (rename_forest 5 4 sample_family) (rename_forest 5 4 sample_place) d' /\
  Obj 4 ∈ all_users d'.
Proof.
  destruct (db_renumber_object_correct sample_family sample_place sample 5 sample_wf)
    as (n & d' & H & _ & _ & Hw & Hne & _); [vm_compute; eauto|].
  pose proof (f_equal (fun r => match r with Ok (n, _) => n | Fail _ => -1 end) H) as Hn.
  vm_compute in Hn. subst n. exists d'. split; [exact H|]. split; [exact Hw|].
  destruct Hne as [_ Hren]; [discriminate|].
  apply (rn_users _ _ _ _ Hren 5). apply (bool_decide_unpack _). vm_compute. exact I.
Defined.
