(* ===== verification/Libc.v ===== *)
(** * The C library functions that the server's numeric code calls

    Number scanning ([strtoimax], [strtod]), number printing ([%d] and [%.15g],
    [%.*f], [%.*e]), and the exact floating-point functions ([fmod], [floor],
    [ceil], [fabs]), over the IEEE binary64 of [Stdlib.Floats.SpecFloat].  These are
    models of the standard library of the language, in the default locale. *)

From S2P Require Import Prelude CStrings Values.

Open Scope Z_scope.

(** ** Scanning *)

Definition isspace (c : Z) : bool := (c =? 32) || ((9 <=? c) && (c <=? 13)).

Definition dec_value (c : Z) : option Z :=
  if (48 <=? c) && (c <=? 57) then Some (c - 48) else None.

Definition xdigit_value (c : Z) : option Z :=
  if (48 <=? c) && (c <=? 57) then Some (c - 48)
  else if (97 <=? c) && (c <=? 102) then Some (c - 87)
  else if (65 <=? c) && (c <=? 70) then Some (c - 55)
  else None.

(** The digits at the front of [s]: their value after [acc], how many there are after
    [n], and the rest of the string. *)
Fixpoint scan_digits (digit : Z -> option Z) (base : Z) (s : cstr) (acc n : Z)
    : Z * Z * cstr :=
  match s with
  | [] => (acc, n, [])
  | c :: s' =>
      match digit (ord c) with
      | Some d => scan_digits digit base s' (acc * base + d) (n + 1)
      | None => (acc, n, s)
      end
  end.

Definition scan_sign (s : cstr) : bool * cstr :=
  if cur s =? 45 then (true, tail s)
  else if cur s =? 43 then (false, tail s)
  else (false, s).

(** [strtoimax(s, &p, 10)]: the value, saturated, and [p]. *)
Definition strtoimax (s : cstr) : Z * cstr :=
  let '(neg, s1) := scan_sign (skip_while isspace s) in
  let '(v, n, p) := scan_digits dec_value 10 s1 0 0 in
  if n =? 0 then (0, s)
  else (Z.max MININT (Z.min MAXINT (if neg : bool then - v else v)), p).

(** The double nearest to [n / d]. *)
Definition double_of_ratio (neg : bool) (n d : Z) : double :=
  match n with
  | Zpos _ =>
      let '(q, e, l) := SFdiv_core_binary prec emax n 0 d 0 in
      binary_round_aux prec emax neg q e l
  | _ => S754_zero neg
  end.

(** An optional exponent introduced by one of the two characters [lo], [up]. *)
Definition scan_exponent (lo up : Z) (s : cstr) : Z * cstr :=
  if (cur s =? lo) || (cur s =? up) then
    let '(neg, s1) := scan_sign (tail s) in
    let '(e, n, s2) := scan_digits dec_value 10 s1 0 0 in
    if n =? 0 then (0, s) else (if neg : bool then - e else e, s2)
  else (0, s).

(** Digits with an optional point: the digits' value, the number of digits, the number
    of digits after the point, the rest. *)
Definition scan_mantissa (digit : Z -> option Z) (base : Z) (s : cstr) : Z * Z * Z * cstr :=
  let '(m, n, s1) := scan_digits digit base s 0 0 in
  if cur s1 =? 46 then
    let '(m2, k, s2) := scan_digits digit base (tail s1) m 0 in
    (m2, n + k, k, if n + k =? 0 then s else s2)
  else (m, n, 0, s1).

Definition decimal (neg : bool) (m e : Z) : double :=
  if 0 <=? e then double_of_ratio neg (m * 10 ^ e) 1
  else double_of_ratio neg m (10 ^ (- e)).

Definition binary (neg : bool) (m e : Z) : double :=
  if 0 <=? e then double_of_ratio neg (m * 2 ^ e) 1
  else double_of_ratio neg m (2 ^ (- e)).

(** The optional [(n-char-sequence)] after [nan]. *)
Definition skip_nan_chars (s : cstr) : cstr :=
  if cur s =? 40 then
    let alnum c := (c =? 95) || ((48 <=? c) && (c <=? 57)) || ((65 <=? c) && (c <=? 90))
                   || ((97 <=? c) && (c <=? 122)) in
    let s' := skip_while alnum (tail s) in
    if cur s' =? 41 then tail s' else s
  else s.

(** [strtod(s, &p)]: the value, correctly rounded, and [p]. *)
Definition strtod (s : cstr) : double * cstr :=
  let '(neg, s1) := scan_sign (skip_while isspace s) in
  if mystrncasecmp s1 (lit "infinity") 8 =? 0 then (S754_infinity neg, drop 8 s1)
  else if mystrncasecmp s1 (lit "inf") 3 =? 0 then (S754_infinity neg, drop 3 s1)
  else if mystrncasecmp s1 (lit "nan") 3 =? 0 then (S754_nan, skip_nan_chars (drop 3 s1))
  else
    let '(hm, hn, hk, hs) := scan_mantissa xdigit_value 16 (drop 2 s1) in
    if (mystrncasecmp s1 (lit "0x") 2 =? 0) && negb (hn =? 0) then
      let '(e, p) := scan_exponent 112 80 hs in
      (binary neg hm (e - 4 * hk), p)
    else
      let '(m, n, k, s2) := scan_mantissa dec_value 10 s1 in
      if n =? 0 then (S754_zero false, s)
      else
        let '(e, p) := scan_exponent 101 69 s2 in
        (decimal neg m (e - k), p).

(** ** Printing *)

(** The decimal digits of [0 <= n < 10 ^ fuel]. *)
Fixpoint dec_digits (fuel : nat) (n : Z) (acc : cstr) : cstr :=
  match fuel with
  | O => acc
  | S fuel =>
      let acc := chr (48 + n mod 10) :: acc in
      if n <? 10 then acc else dec_digits fuel (n / 10) acc
  end.

Definition dec_nat (n : Z) : cstr := dec_digits (S (Z.to_nat (Z.log2 n))) n [].

(** [%d]. *)
Definition print_int (n : Z) : cstr :=
  if n <? 0 then chr 45 :: dec_nat (- n) else dec_nat n.

(** [n] with at least [w] digits. *)
Definition pad_nat (w : nat) (n : Z) : cstr :=
  let d := dec_nat n in replicate (w - length d) (chr 48) ++ d.

(** [a / b] rounded to an integer, ties to even. *)
Definition round_ratio (a b : Z) : Z :=
  let q := a / b in
  let r := a mod b in
  match (2 * r) ?= b with
  | Lt => q
  | Gt => q + 1
  | Eq => if Z.even q then q else q + 1
  end.

Definition scale10 (a b k : Z) : Z * Z :=
  if 0 <=? k then (a * 10 ^ k, b) else (a, b * 10 ^ (- k)).

(** The exponent [x] with [10 ^ x <= a / b < 10 ^ (x + 1)], searched upwards. *)
Fixpoint log10_from (fuel : nat) (a b x : Z) : Z :=
  match fuel with
  | O => x
  | S fuel =>
      let '(n, d) := scale10 a b (- (x + 1)) in
      if n <? d then x else log10_from fuel a b (x + 1)
  end.

Definition log10_ratio (a b : Z) : Z :=
  log10_from 10 a b ((Z.log2 a - Z.log2 b) * 1233 / 4096 - 2).

(** [a / b > 0] as [n * 10 ^ (x - p)] with [p + 1] significant digits. *)
Definition sci_digits (p a b : Z) : Z * Z :=
  let x := log10_ratio a b in
  let '(n, d) := scale10 a b (p - x) in
  let r := round_ratio n d in
  if r =? 10 ^ (p + 1) then (r / 10, x + 1) else (r, x).

(** The magnitude of a finite double as a ratio. *)
Definition ratio_of (m : positive) (e : Z) : Z * Z :=
  if 0 <=? e then (Zpos m * 2 ^ e, 1) else (Zpos m, 2 ^ (- e)).

Definition with_point (ip fp : cstr) : cstr :=
  match fp with [] => ip | _ => ip ++ chr 46 :: fp end.

Definition fixed_nat (prec : nat) (n : Z) : cstr :=
  with_point (dec_nat (n / 10 ^ Z.of_nat prec))
    (if prec is O then [] else pad_nat prec (n mod 10 ^ Z.of_nat prec)).

Definition exp_suffix (x : Z) : cstr :=
  chr 101 :: (if x <? 0 then chr 45 else chr 43) :: pad_nat 2 (Z.abs x).

(** The trailing zeros of the fraction, removed. *)
Fixpoint strip_zeros_rev (s : cstr) : cstr :=
  match s with
  | c :: s' =>
      if ord c =? 48 then strip_zeros_rev s' else if ord c =? 46 then s' else s
  | [] => []
  end.
Definition strip_zeros (s : cstr) : cstr :=
  if existsb (fun c => ord c =? 46) s then rev (strip_zeros_rev (rev s)) else s.

Definition signed (neg : bool) (s : cstr) : cstr := if neg then chr 45 :: s else s.

(** [%.<prec>f]. *)
Definition print_f (prec : Z) (d : double) : cstr :=
  match d with
  | S754_nan => lit "nan"
  | S754_infinity neg => signed neg (lit "inf")
  | S754_zero neg => signed neg (fixed_nat (Z.to_nat prec) 0)
  | S754_finite neg m e =>
      let '(a, b) := ratio_of m e in
      signed neg (fixed_nat (Z.to_nat prec) (round_ratio (a * 10 ^ prec) b))
  end.

(** [%.<prec>e]. *)
Definition print_e (prec : Z) (d : double) : cstr :=
  match d with
  | S754_nan => lit "nan"
  | S754_infinity neg => signed neg (lit "inf")
  | S754_zero neg => signed neg (fixed_nat (Z.to_nat prec) 0 ++ exp_suffix 0)
  | S754_finite neg m e =>
      let '(a, b) := ratio_of m e in
      let '(n, x) := sci_digits prec a b in
      signed neg (fixed_nat (Z.to_nat prec) n ++ exp_suffix x)
  end.

(** [%.<prec>g], for [1 <= prec]. *)
Definition print_g (prec : Z) (d : double) : cstr :=
  match d with
  | S754_nan => lit "nan"
  | S754_infinity neg => signed neg (lit "inf")
  | S754_zero neg => signed neg (lit "0")
  | S754_finite neg m e =>
      let '(a, b) := ratio_of m e in
      let '(n, x) := sci_digits (prec - 1) a b in
      signed neg
        (if (x <? -4) || (prec <=? x) then
           strip_zeros (fixed_nat (Z.to_nat (prec - 1)) n) ++ exp_suffix x
         else
           let f := prec - 1 - x in
           strip_zeros (fixed_nat (Z.to_nat f) (round_ratio (a * 10 ^ f) b)))
  end.

(** ** Exact floating-point functions *)

(** [(Num) d]: truncation; a value that does not fit becomes the "integer indefinite"
    of the x86-64 conversion instruction. *)
Definition Num_of_double (d : double) : Z :=
  match d with
  | S754_zero _ => 0
  | S754_finite neg m e =>
      let '(a, b) := ratio_of m e in
      let z := if neg then - (a / b) else a / b in
      if decide (int_range 64 z) then z else MININT
  | _ => MININT
  end.

Definition signed_Z (neg : bool) (z : Z) : double :=
  if z =? 0 then S754_zero neg else binary_normalize prec emax (if neg then - z else z) 0 neg.

Definition libc_floor (d : double) : double :=
  match d with
  | S754_finite neg m e =>
      let '(a, b) := ratio_of m e in
      signed_Z neg (if neg then (a + b - 1) / b else a / b)
  | _ => d
  end.

Definition libc_ceil (d : double) : double :=
  match d with
  | S754_finite neg m e =>
      let '(a, b) := ratio_of m e in
      signed_Z neg (if neg then a / b else (a + b - 1) / b)
  | _ => d
  end.

Definition fmod (x y : double) : double :=
  match x, y with
  | S754_nan, _ | _, S754_nan | S754_infinity _, _ | _, S754_zero _ => S754_nan
  | S754_zero _, _ | _, S754_infinity _ => x
  | S754_finite sx mx ex, S754_finite _ my ey =>
      let e := Z.min ex ey in
      let r := (Zpos mx * 2 ^ (ex - e)) mod (Zpos my * 2 ^ (ey - e)) in
      if r =? 0 then S754_zero sx
      else binary_normalize prec emax (if sx then - r else r) e sx
  end.

(** ** Lemmas *)

Lemma dec_digits_app fuel n acc : dec_digits fuel n acc = dec_digits fuel n [] ++ acc.
Proof.
  revert n acc. induction fuel as [|fuel IH]; intros n acc; [done|]. cbn [dec_digits].
  case_match; [done|]. by rewrite IH, (IH _ [_]), <- app_assoc.
Qed.

Lemma scan_digits_app s t acc n acc' n' :
  scan_digits dec_value 10 s acc n = (acc', n', []) ->
  scan_digits dec_value 10 (s ++ t) acc n = scan_digits dec_value 10 t acc' n'.
Proof.
  revert acc n. induction s as [|c s IH]; intros acc n; cbn [scan_digits app].
  - by intros [= <- <-].
  - destruct (dec_value (ord c)) as [d|]; [|discriminate]. apply IH.
Qed.

Lemma ord_digit d : 0 <= d < 10 -> ord (chr (48 + d)) = 48 + d.
Proof. intros. apply ord_chr. lia. Qed.

Lemma dec_value_digit d : 0 <= d < 10 -> dec_value (ord (chr (48 + d))) = Some d.
Proof.
  intros. rewrite ord_digit by done. unfold dec_value.
  rewrite (proj2 (Z.leb_le _ _)), (proj2 (Z.leb_le _ _)) by lia. cbn. f_equal. lia.
Qed.

Lemma scan_dec_digits fuel n : 0 <= n < 10 ^ Z.of_nat fuel -> (0 < fuel)%nat ->
  exists k, 0 < k /\ scan_digits dec_value 10 (dec_digits fuel n []) 0 0 = (n, k, []) /\
    k = Z.of_nat (length (dec_digits fuel n [])).
Proof.
  revert n. induction fuel as [|fuel IH]; intros n Hn Hf; [lia|].
  cbn [dec_digits]. destruct (Z.ltb_spec n 10).
  - exists 1. split; [lia|]. split; [|done]. cbn [scan_digits].
    rewrite dec_value_digit by dlia. rewrite Z.mod_small by lia. done.
  - destruct fuel as [|fuel].
    { change (10 ^ Z.of_nat 1) with 10 in Hn. lia. }
    destruct (IH (n / 10)) as (k & Hk & Hs & Hl); [|lia|].
    { rewrite (Nat2Z.inj_succ (S fuel)), Z.pow_succ_r in Hn by lia. dlia. }
    exists (k + 1). rewrite dec_digits_app. split; [lia|]. split.
    + rewrite (scan_digits_app _ _ _ _ _ _ Hs). cbn [scan_digits].
      rewrite dec_value_digit by dlia. do 2 f_equal. f_equal. dlia.
    + rewrite length_app. cbn [length]. lia.
Qed.

Lemma dec_fuel n : 0 <= n -> n < 10 ^ Z.of_nat (S (Z.to_nat (Z.log2 n))).
Proof.
  intros Hn. destruct (Z.eq_dec n 0) as [->|]; [done|].
  pose proof (Z.log2_spec n ltac:(lia)). pose proof (Z.log2_nonneg n).
  rewrite Nat2Z.inj_succ, Z2Nat.id by lia.
  apply Z.lt_le_trans with (2 ^ Z.succ (Z.log2 n)); [lia|].
  apply Z.pow_le_mono_l. lia.
Qed.

Lemma scan_dec_nat n : 0 <= n ->
  exists k, 0 < k /\ scan_digits dec_value 10 (dec_nat n) 0 0 = (n, k, []) /\
    k = Z.of_nat (length (dec_nat n)).
Proof. intros. apply scan_dec_digits; [|lia]. split; [done|]. by apply dec_fuel. Qed.

(** Every character that [print_int] writes is a digit or a minus sign. *)
Definition is_dec (c : ascii) : Prop := 48 <= ord c < 58.

Lemma dec_digits_chars fuel n acc : 0 <= n -> Forall is_dec acc ->
  Forall is_dec (dec_digits fuel n acc).
Proof.
  revert n acc. induction fuel as [|fuel IH]; intros n acc Hn Ha; [done|]. cbn [dec_digits].
  assert (Forall is_dec (chr (48 + n mod 10) :: acc)).
  { constructor; [|done]. unfold is_dec. rewrite ord_digit by dlia. dlia. }
  case_match; [done|]. apply IH; [dlia|done].
Qed.

Lemma dec_nat_chars n : 0 <= n -> Forall is_dec (dec_nat n).
Proof. intros. by apply dec_digits_chars. Qed.

Lemma dec_nat_head n : 0 <= n -> exists c s, dec_nat n = c :: s /\ is_dec c.
Proof.
  intros Hn. pose proof (dec_nat_chars n Hn) as Hc.
  destruct (scan_dec_nat n Hn) as (k & Hk & _ & Hl).
  destruct (dec_nat n) as [|c s]; [cbn in Hl; lia|].
  inversion Hc; subst. by exists c, s.
Qed.

Lemma print_int_nul_free n : nul_free (print_int n).
Proof.
  assert (Hd : forall n, 0 <= n -> nul_free (dec_nat n)).
  { intros m Hm. eapply Forall_impl; [by apply dec_nat_chars|]. unfold is_dec. intros; cbn; lia. }
  unfold print_int. destruct (Z.ltb_spec n 0).
  - constructor; [done|]. apply Hd. lia.
  - by apply Hd.
Qed.

Lemma skip_while_head p c s : p (ord c) = false -> skip_while p (c :: s) = c :: s.
Proof. intros H. cbn [skip_while]. by rewrite H. Qed.

(** Scanning what [%d] printed gives the number back, when no digit follows. *)
Definition no_digit (t : cstr) : Prop := match t with [] => True | c :: _ => dec_value (ord c) = None end.

Lemma scan_dec_nat_then n t : 0 <= n -> no_digit t ->
  exists k, 0 < k /\ scan_digits dec_value 10 (dec_nat n ++ t) 0 0 = (n, k, t).
Proof.
  intros Hn Ht. destruct (scan_dec_nat n Hn) as (k & Hk & Hs & _). exists k. split; [done|].
  rewrite (scan_digits_app _ _ _ _ _ _ Hs). destruct t as [|c t]; [done|]. cbn [scan_digits no_digit] in *.
  by rewrite Ht.
Qed.

Lemma strtoimax_print_then n t : int_range 64 n -> no_digit t -> strtoimax (print_int n ++ t) = (n, t).
Proof.
  intros Hr Ht. unfold int_range in Hr. unfold strtoimax, print_int.
  assert (Hs : forall neg m s, 0 <= m -> -2 ^ 63 <= (if neg : bool then - m else m) < 2 ^ 63 ->
    (let '(v, n0, p) := scan_digits dec_value 10 (dec_nat m ++ t) 0 0 in
     if n0 =? 0 then (0, s) else (Z.max MININT (Z.min MAXINT (if neg then - v else v)), p))
    = (if neg then - m else m, t)).
  { intros neg m s Hm Hb. destruct (scan_dec_nat_then m t Hm Ht) as (k & Hk & ->).
    destruct (Z.eqb_spec k 0); [lia|]. unfold MININT, MAXINT. f_equal. lia. }
  destruct (Z.ltb_spec n 0).
  - cbn [app]. rewrite skip_while_head by done. unfold scan_sign. rewrite cur_cons.
    change (ord (chr 45) =? 45) with true. cbv iota beta. cbn [tail].
    rewrite (Hs true (- n)); [|lia..]. f_equal. lia.
  - destruct (dec_nat_head n) as (c & s & He & Hc); [lia|]. unfold is_dec in Hc.
    specialize (Hs false n). rewrite He in *. cbn [app] in *.
    rewrite skip_while_head.
    2: { unfold isspace. destruct (Z.eqb_spec (ord c) 32), (Z.leb_spec 9 (ord c)),
         (Z.leb_spec (ord c) 13); cbn; lia || done. }
    unfold scan_sign. rewrite cur_cons.
    destruct (Z.eqb_spec (ord c) 45), (Z.eqb_spec (ord c) 43); try lia.
    apply Hs; lia.
Qed.

Lemma strtoimax_print n : int_range 64 n -> strtoimax (print_int n) = (n, []).
Proof. intros Hr. pose proof (strtoimax_print_then n [] Hr I) as H. by rewrite app_nil_r in H. Qed.

(** A 64-bit number has at most nineteen digits. *)
Lemma dec_digits_length fuel n k : 0 <= n < 10 ^ Z.of_nat k -> (0 < k)%nat -> (length (dec_digits fuel n []) <= k)%nat.
Proof.
  revert n k. induction fuel as [|fuel IH]; intros n k Hn Hk; cbn [dec_digits length]; [lia|].
  destruct (Z.ltb_spec n 10); [cbn; lia|]. rewrite dec_digits_app, length_app. cbn [length].
  destruct k as [|k]; [lia|]. destruct k as [|k]; [change (10 ^ Z.of_nat 1) with 10 in Hn; lia|].
  rewrite (Nat2Z.inj_succ (S k)), Z.pow_succ_r in Hn by lia.
  specialize (IH (n / 10) (S k)). enough (length (dec_digits fuel (n / 10) []) <= S k)%nat by lia.
  apply IH; [dlia|lia].
Qed.

Lemma print_int_length n : int_range 64 n -> (length (print_int n) <= 20)%nat.
Proof.
  unfold int_range. change (64 - 1) with 63. intros Hn.
  assert (H : forall m, 0 <= m <= 2 ^ 63 -> (length (dec_nat m) <= 19)%nat).
  { intros m Hm. apply dec_digits_length; [|lia]. split; [lia|].
    apply Z.le_lt_trans with (2 ^ 63); [lia|]. vm_compute. reflexivity. }
  unfold print_int. destruct (Z.ltb_spec n 0); [cbn [length]; specialize (H (- n)); lia|specialize (H n); lia].
Qed.

Lemma print_int_inj a b : int_range 64 a -> int_range 64 b ->
  print_int a = print_int b -> a = b.
Proof.
  intros Ha Hb H. pose proof (strtoimax_print a Ha) as H1.
  rewrite H, strtoimax_print in H1 by done. congruence.
Qed.

(** Scanning returns what is left of its argument. *)
Lemma scan_digits_suffix digit base s acc n : exists j, (scan_digits digit base s acc n).2 = drop j s.
Proof.
  revert acc n. induction s as [|c s IH]; intros acc n; cbn [scan_digits].
  - by exists O.
  - destruct (digit (ord c)); [|by exists O].
    destruct (IH (acc * base + z) (n + 1)) as [j Hj]. by exists (S j).
Qed.

(** Sanity checks against the C library. *)
Example strtod_ex : strtod (lit " -12.5e1x") = (double_of_int (-125), lit "x").
Proof. vm_compute. reflexivity. Qed.
Example strtod_hex : strtod (lit "0x1.8p1") = (double_of_int 3, []).
Proof. vm_compute. reflexivity. Qed.
Example print_g_ex : print_g 15 (strtod (lit "0.1")).1 = lit "0.1".
Proof. vm_compute. reflexivity. Qed.
Example print_g_exp : print_g 15 (strtod (lit "1e100")).1 = lit "1e+100".
Proof. vm_compute. reflexivity. Qed.
Example print_g_third : print_g 15 (SFdiv prec emax (double_of_int 1) (double_of_int 3))
  = lit "0.333333333333333".
Proof. vm_compute. reflexivity. Qed.
Example print_f_ex : print_f 2 (strtod (lit "2.675")).1 = lit "2.67".
Proof. vm_compute. reflexivity. Qed.
Example fmod_ex : fmod (double_of_int (-7)) (double_of_int 3) = double_of_int (-1).
Proof. vm_compute. reflexivity. Qed.
