(* ===== verification/Functions.v ===== *)
(** * The registry of built-in functions (src/functions.c)

    Built-in functions are registered with their argument counts and types, looked up
    by name when a program is compiled, and called through [call_bi_func], which
    checks the arguments so that the functions themselves need not.  The state that a
    function works on is a parameter, [St]. *)

From S2P Require Import Prelude CStrings Values.

Open Scope Z_scope.

(** The types in a prototype: a type, [TYPE_ANY] or [TYPE_NUMERIC]. *)
Inductive proto := Proto (t : var_type) | TYPE_ANY | TYPE_NUMERIC.

Section Registry.
  Context {St : Type}.

Record bft_entry := mkEntry {
  name : cstr;
  protect_str : cstr;
  verb_str : cstr;
  minargs : Z;
  maxargs : Z;
  prototype : list proto;
  func : list Var -> St -> res (package * St);
  protected : bool }.

Definition MAX_FUNC : nat := 256.

(** [register_common]: the table grows at its end; [None] for the call that the full
    table refuses. *)
Definition register_common (bf_table : list bft_entry) (name : cstr) (minargs maxargs : Z)
    (func : list Var -> St -> res (package * St)) (args : list proto)
    : nat * list bft_entry :=
  let num_arg_types := if maxargs =? -1 then minargs else maxargs in
  if decide (length bf_table = MAX_FUNC) then (0%nat, bf_table)
  else
    (length bf_table,
     bf_table ++ [mkEntry name (lit "protect_" ++ name) (lit "bf_" ++ name) minargs maxargs
                    (take (Z.to_nat num_arg_types) args) func false]).

Definition name_func_by_num (bf_table : list bft_entry) (n : nat) : cstr :=
  match bf_table !! n with
  | Some e => name e
  | None => lit "no such function"
  end.

Fixpoint number_func_by_name (bf_table : list bft_entry) (str : cstr) : option nat :=
  match bf_table with
  | [] => None                                 (* FUNC_NOT_FOUND *)
  | e :: rest =>
      if mystrcasecmp str (name e) =? 0 then Some O
      else S <$> number_func_by_name rest str
  end.

Definition accepts_type (p : proto) (arg : var_type) : bool :=
  match p with
  | TYPE_ANY => true
  | TYPE_NUMERIC => bool_decide (arg = TYPE_INT) || bool_decide (arg = TYPE_FLOAT)
  | Proto t => bool_decide (t = arg)
  end.

(** The loop over the first [max] arguments; reading past the prototype is an access
    outside of the array. *)
Fixpoint check_types (max : nat) (ps : list proto) (args : list Var) : res bool :=
  match max with
  | O => Ok true
  | S max =>
      match ps, args with
      | p :: ps, a :: args =>
          if accepts_type p (type_of a) then check_types max ps args else Ok false
      | _, _ => Fail Segv
      end
  end.

(** [call_bi_func] on first entry ([func_pc == 1]).  [call_verb2] tries [#0:bf_name]
    for a protected function. *)
Definition call_bi_func (call_verb2 : cstr -> list Var -> St -> res (error * St))
    (caller_is_system is_wizard : bool)
    (bf_table : list bft_entry) (n : nat) (args : list Var) (st : St)
    : res (package * St) :=
  match bf_table !! n with
  | None => Ok (no_var_pack, st)
  | Some f =>
      let run st :=
        let nargs := Z.of_nat (length args) in
        if (nargs <? minargs f) || (negb (maxargs f =? -1) && (nargs >? maxargs f)) then
          Ok (make_error_pack E_ARGS, st)
        else
          let max := if maxargs f =? -1 then minargs f else nargs in
          ok ← check_types (Z.to_nat max) (prototype f) args;
          if (ok : bool) then func f args st else Ok (make_error_pack E_TYPE, st) in
      if negb caller_is_system && protected f then
        '(e, st) ← call_verb2 (verb_str f) args st;
        if bool_decide (e = E_NONE) then Ok (tail_call_pack, st)
        else if bool_decide (e = E_MAXREC) || negb is_wizard then
          Ok (make_error_pack (if bool_decide (e = E_MAXREC) then e else E_PERM), st)
        else run st
      else run st
  end.

(** ** What registration guarantees *)

(** An entry whose prototype covers the arguments that are checked, as every
    [register_function] call in the source provides. *)
Definition wf_entry (f : bft_entry) : Prop :=
  0 <= minargs f /\
  ((maxargs f = -1 /\ minargs f = Z.of_nat (length (prototype f))) \/
   (minargs f <= maxargs f /\ maxargs f = Z.of_nat (length (prototype f)))).

Definition good_count (f : bft_entry) (args : list Var) : Prop :=
  let nargs := Z.of_nat (length args) in
  minargs f <= nargs /\ (maxargs f = -1 \/ nargs <= maxargs f).

(** The contract between the checks and the function: [args] are as registered. *)
Definition admissible (f : bft_entry) (args : list Var) : Prop :=
  good_count f args /\
  forall i p a, prototype f !! i = Some p -> args !! i = Some a ->
    accepts_type p (type_of a) = true.

Lemma check_types_spec max ps args : (max <= length ps)%nat -> (max <= length args)%nat ->
  exists b, check_types max ps args = Ok b /\
    (b = true <-> forall i p a, (i < max)%nat -> ps !! i = Some p -> args !! i = Some a ->
       accepts_type p (type_of a) = true).
Proof.
  revert ps args. induction max as [|max IH]; intros [|p ps] [|a args] Hp Ha; cbn in Hp, Ha;
    try lia; try (exists true; split; [done|]; split; [lia|done]).
  cbn [check_types]. destruct (accepts_type p (type_of a)) eqn:E.
  - destruct (IH ps args) as (b & -> & Hb); [lia..|]. exists b. split; [done|].
    rewrite Hb. split.
    + intros H [|i] q c Hi; [cbn; congruence|]. apply H. lia.
    + intros H i q c Hi. apply (H (S i)). lia.
  - exists false. split; [done|]. split; [done|]. intros H.
    pose proof (H 0%nat p a ltac:(lia) eq_refl eq_refl). congruence.
Qed.

(** ** Properties *)

(** Calling a registered function by its number: with a wrong number of arguments
    the answer is [E_ARGS], with arguments of other types than registered it is
    [E_TYPE], in both cases without a change of state, and otherwise the function runs
    on admissible arguments; the checks themselves never read outside of the arrays. *)
Theorem call_bi_func_checks cv2 wiz bf_table n f args st :
  bf_table !! n = Some f -> wf_entry f ->
  let m := call_bi_func cv2 true wiz bf_table n args st in
  (admissible f args /\ m = func f args st) \/
  (~ good_count f args /\ m = Ok (make_error_pack E_ARGS, st)) \/
  (~ admissible f args /\ m = Ok (make_error_pack E_TYPE, st)).
Proof.
  intros Hf (Hmin & Hmax). cbv zeta. unfold call_bi_func. rewrite Hf. cbn [negb andb].
  set (nargs := Z.of_nat (length args)).
  destruct ((nargs <? minargs f) || (negb (maxargs f =? -1) && (nargs >? maxargs f))) eqn:Hc.
  - right; left. split; [|done]. intros [H1 H2].
    apply orb_true_iff in Hc as [Hc|Hc]; [lia|].
    apply andb_true_iff in Hc as [Hc1 Hc2]. destruct (Z.eqb_spec (maxargs f) (-1)); [done|lia].
  - apply orb_false_iff in Hc as [Hc1 Hc2].
    assert (Hcount : good_count f args).
    { split; fold nargs; [lia|].
      destruct (Z.eqb_spec (maxargs f) (-1)); [by left|]. cbn in Hc2. lia. }
    set (max := if maxargs f =? -1 then minargs f else nargs).
    assert (Hle : (Z.to_nat max <= length (prototype f))%nat /\
      (Z.to_nat max <= length args)%nat /\
      forall i, (i < Z.to_nat max)%nat <->
        (i < length (prototype f))%nat /\ (i < length args)%nat).
    { unfold good_count in Hcount. fold nargs in Hcount. subst max nargs.
      destruct (Z.eqb_spec (maxargs f) (-1)); split_and!; try lia; intros i; lia. }
    destruct Hle as (Hp & Ha & Hi).
    destruct (check_types_spec (Z.to_nat max) (prototype f) args Hp Ha) as (b & -> & Hb).
    assert (Hadm : b = true <-> admissible f args).
    { rewrite Hb. unfold admissible. split.
      - intros H. split; [done|]. intros i p a Hp' Ha'. eapply H; [|done..].
        apply Hi. split; eapply lookup_lt_Some; done.
      - intros (_ & H) i p a _. apply H. }
    cbn [mbind res_bind]. destruct b.
    + left. split; [by apply Hadm|done].
    + right; right. split; [|done]. intros H%Hadm. done.
Qed.

End Registry.

#[global] Arguments bft_entry St : clear implicits.

Lemma call_bi_func_checks_witness :
  let f := @mkEntry unit (lit "typeof") (lit "protect_typeof") (lit "bf_typeof") 1 1 [TYPE_ANY]
             (fun args st => Ok (make_int_pack 1, st)) false in
  let m := call_bi_func (fun _ _ st => Ok (E_VERBNF, st)) true false [f] 0 [] tt in
  (admissible f [] /\ m = func f [] tt) \/
  (~ good_count f [] /\ m = Ok (make_error_pack E_ARGS, tt)) \/
  (~ admissible f [] /\ m = Ok (make_error_pack E_TYPE, tt)).
Proof.
  intros f m. apply call_bi_func_checks; [reflexivity|].
  split; [discriminate|right; split; [discriminate|reflexivity]].
Defined.
