(* ===== verification/Numbers.v ===== *)
(** * Arithmetic and its built-in functions (src/numbers.c)

    Integer arithmetic wraps at 64 bits, float arithmetic is IEEE binary64 with every
    infinite or undefined result turned into [E_FLOAT]. *)

From S2P Require Import Prelude CStrings Values Libc Functions.

Open Scope Z_scope.

(** ** Parsing numbers *)

(** The loop over trailing blanks: has the whole string been used? *)
Fixpoint only_blanks (p : cstr) : bool :=
  match p with
  | [] => true
  | c :: p => if ord c =? 32 then only_blanks p else false
  end.

(** [parse_number]: the value stored in [*result] and the answer. *)
Definition parse_number (str : cstr) (try_floating_point : bool) : Z * bool :=
  let '(result, p) := strtoimax str in
  let '(result, p) :=
    if try_floating_point &&
       (Nat.eqb (length p) (length str) || (cur p =? 46) || (cur p =? 101) || (cur p =? 69))
    then let '(d, p) := strtod str in (Num_of_double d, p)
    else (result, p) in
  if Nat.eqb (length p) (length str) then (result, false)
  else (result, only_blanks p).

Definition skip_blanks (s : cstr) : cstr := skip_while (fun c => c =? 32) s.

(** [parse_object]: the number, if the string is one. *)
Definition parse_object (str : cstr) : option Z :=
  let str := skip_blanks str in
  let str := if cur str =? 35 then tail str else str in
  let '(number, ok) := parse_number str false in
  if (ok : bool) then Some number else None.

Definition parse_float (str : cstr) : option double :=
  let str := skip_blanks str in
  let '(negative, str) := if cur str =? 45 then (true, tail str) else (false, str) in
  let '(result, p) := strtod str in
  if Nat.eqb (length p) (length str) then None
  else if negb (only_blanks p) then None
  else Some (if negative then SFopp result else result).

(** ** Coercions *)

Definition become_integer (v : Var) (called_from_tonum : bool) : error + Z :=
  match v with
  | Int n => inr n
  | Str s =>
      inr (if called_from_tonum then
             let '(n, ok) := parse_number s true in if (ok : bool) then n else 0
           else default 0 (parse_object s))
  | Obj o => inr o
  | Err e => inr (error_num e)
  | Float f => if negb (IS_REAL f) then inl E_FLOAT else inr (Num_of_double f)
  | _ => inl E_TYPE
  end.

Definition become_float (v : Var) : error + double :=
  match v with
  | Int n => inr (double_of_int n)
  | Str s =>
      match parse_float s with
      | Some d => if negb (IS_REAL d) then inl E_INVARG else inr d
      | None => inl E_INVARG
      end
  | Obj o => inr (double_of_int o)
  | Err e => inr (double_of_int (error_num e))
  | Float f => inr f
  | _ => inl E_TYPE
  end.

(** ** Operators

    The operand types have been checked by the interpreter: reading the float member
    of any other value is undefined. *)

Definition fnum (v : Var) : res double :=
  match v with Float f => Ok f | _ => Fail Undefined end.

Definition compare_integers (a b : Z) : Z :=
  if a <? b then -1 else if a >? b then 1 else 0.

Definition compare_numbers (a b : Var) : res Var :=
  if negb (bool_decide (type_of a = type_of b)) then Ok (Err E_TYPE)
  else match a, b with
  | Int m, Int n => Ok (Int (if m <? n then -1 else if m >? n then 1 else 0))
  | _, _ =>
      x ← fnum a;
      y ← fnum b;
      Ok (Int (if SFltb x y then -1 else if SFltb y x then 1 else 0))
  end.

(** The common end of the float cases. *)
Definition real_result (d : double) : Var :=
  if negb (IS_REAL d) then Err E_FLOAT else Float d.

(** The macro [SIMPLE_BINARY]. *)
Definition SIMPLE_BINARY (iop : Z -> Z -> Z) (fop : double -> double -> double)
    (a b : Var) : res Var :=
  if negb (bool_decide (type_of a = type_of b)) then Ok (Err E_TYPE)
  else match a, b with
  | Int m, Int n => Ok (Int (wrap64 (iop m n)))
  | _, _ =>
      x ← fnum a;
      y ← fnum b;
      Ok (real_result (fop x y))
  end.

Definition do_add := SIMPLE_BINARY Z.add (SFadd prec emax).
Definition do_subtract := SIMPLE_BINARY Z.sub (SFsub prec emax).
Definition do_multiply := SIMPLE_BINARY Z.mul (SFmul prec emax).

(** The processor's signed division traps when the quotient does not fit. *)
Definition int_div (op : Z -> Z -> Z) (m n : Z) : res Z :=
  if (m =? MININT) && (n =? -1) then Fail Undefined else Ok (op m n).

(** The macro [DIVISION_OP]. *)
Definition DIVISION_OP (iop : Z -> Z -> Z) (fexpr : double -> double -> double)
    (a b : Var) : res Var :=
  if negb (bool_decide (type_of a = type_of b)) then Ok (Err E_TYPE)
  else match a, b with
  | Int m, Int n =>
      if negb (n =? 0) then q ← int_div iop m n; Ok (Int q) else Ok (Err E_DIV)
  | Float x, Float y =>
      if negb (SFeqb y (S754_zero false)) then Ok (real_result (fexpr x y))
      else Ok (Err E_DIV)
  | _, _ => Ok (Err E_DIV)
  end.

Definition do_divide := DIVISION_OP Z.quot (SFdiv prec emax).
Definition do_modulus := DIVISION_OP Z.rem fmod.

(** The square-and-multiply loop of [do_power]; [b] loses a bit per turn. *)
Fixpoint power_loop (fuel : nat) (a b r : Z) : res Z :=
  if b =? 0 then Ok r
  else match fuel with
  | O => Fail OutOfFuel
  | S fuel =>
      let r := if negb (Z.land b 1 =? 0) then wrap64 (r * a) else r in
      power_loop fuel (wrap64 (a * a)) (Z.shiftr b 1) r
  end.

(** [pow] is libm's, with the [errno] that it sets. *)
Definition do_power (pow : double -> double -> double * Z) (lhs rhs : Var) : res Var :=
  match lhs with
  | Int a =>
      match rhs with
      | Int b =>
          if b <? 0 then
            Ok (if a =? -1 then Int (if negb (Z.land b 1 =? 0) then 1 else -1)
                else if a =? 0 then Err E_DIV
                else if a =? 1 then Int 1
                else Int 0)
          else r ← power_loop 64 a b 1; Ok (Int r)
      | _ => Ok (Err E_TYPE)
      end
  | Float x =>
      let power d :=
        let '(d, errno) := pow x d in
        Ok (if negb (errno =? 0) || negb (IS_REAL d) then Err E_FLOAT else Float d) in
      match rhs with
      | Int n => power (double_of_int n)
      | Float y => power y
      | _ => Ok (Err E_TYPE)
      end
  | _ => Ok (Err E_TYPE)
  end.

(** ** Built-in functions *)

(** [arglist.v.list[i]]. *)
Definition arg (args : list Var) (i : nat) : res Var := deref (args !! (i - 1)%nat).

Definition num (v : Var) : res Z :=
  match v with Int n => Ok n | _ => Fail Undefined end.

Definition bf_toint (args : list Var) : res package :=
  v ← arg args 1;
  Ok match become_integer v true with
     | inl e => make_error_pack e
     | inr n => make_var_pack (Int n)
     end.

Definition bf_tofloat (args : list Var) : res package :=
  v ← arg args 1;
  Ok match become_float v with
     | inl e => make_error_pack e
     | inr d => make_var_pack (Float d)
     end.

(** The loops of [bf_min] and [bf_max]: [better x r] decides whether argument [x]
    replaces [r]. *)
Fixpoint extremum (t : var_type) (better : Var -> Var -> bool) (r : Var) (bad_types : bool)
    (args : list Var) : Var * bool :=
  match args with
  | [] => (r, bad_types)
  | x :: args =>
      if negb (bool_decide (type_of x = t)) then extremum t better r true args
      else extremum t better (if better x r then x else r) bad_types args
  end.

Definition num_lt (x r : Var) : bool :=
  match x, r with Int m, Int n => m <? n | Float a, Float b => SFltb a b | _, _ => false end.

Definition minmax (better : Var -> Var -> bool) (args : list Var) : res package :=
  r ← arg args 1;
  let '(r, bad_types) :=
    extremum (if bool_decide (type_of r = TYPE_INT) then TYPE_INT else TYPE_FLOAT)
      better r false (tail args) in
  Ok (if (bad_types : bool) then make_error_pack E_TYPE else make_var_pack r).

Definition bf_min := minmax num_lt.
Definition bf_max := minmax (fun x r => num_lt r x).

Definition bf_abs (args : list Var) : res package :=
  r ← arg args 1;
  match r with
  | Int n => Ok (make_var_pack (Int (if n <? 0 then wrap64 (- n) else n)))
  | _ => f ← fnum r; Ok (make_var_pack (Float (SFabs f)))
  end.

Definition EDOM : Z := 33.

(** The common end of the functions over libm. *)
Definition math_result (de : double * Z) : package :=
  let '(d, errno) := de in
  if errno =? EDOM then make_error_pack E_INVARG
  else if negb (errno =? 0) || negb (IS_REAL d) then make_error_pack E_FLOAT
  else make_float_pack d.

(** The macro [MATH_FUNC]; [name] is libm's function with the [errno] it sets. *)
Definition MATH_FUNC (name : double -> double * Z) (args : list Var) : res package :=
  v ← arg args 1;
  d ← fnum v;
  Ok (math_result (name d)).

Definition bf_ceil := MATH_FUNC (fun d => (libc_ceil d, 0)).
Definition bf_floor := MATH_FUNC (fun d => (libc_floor d, 0)).

Definition bf_trunc (args : list Var) : res package :=
  v ← arg args 1;
  d ← fnum v;
  Ok (math_result
        ((if SFltb d (S754_zero false) then libc_ceil d else libc_floor d), 0)).

Definition bf_atan (atan : double -> double * Z) (atan2 : double -> double -> double * Z)
    (args : list Var) : res package :=
  v ← arg args 1;
  d ← fnum v;
  if 2 <=? Z.of_nat (length args) then
    w ← arg args 2;
    dd ← fnum w;
    Ok (math_result (atan2 d dd))
  else Ok (math_result (atan d)).

(** [rr] for [RAND_MAX == 2147483647], from three calls of [RANDOM()]. *)
Definition random_rr (r1 r2 r3 : Z) : Z :=
  wrap64 (wrap64 (wrap64 (Z.shiftl r1 32) + wrap64 (Z.shiftl r2 1)) + Z.shiftr r3 30).

Definition bf_random (r1 r2 r3 : Z) (args : list Var) : res package :=
  n ← (if 1 <=? Z.of_nat (length args) then v ← arg args 1; num v else Ok MAXINT);
  if n <=? 0 then Ok (make_error_pack E_INVARG)
  else Ok (make_var_pack (Int (wrap64 (1 + Z.rem (random_rr r1 r2 r3) n)))).

Definition bf_floatstr (args : list Var) : res package :=
  v ← arg args 1;
  d ← fnum v;
  w ← arg args 2;
  prec ← num w;
  use_sci ← (if 3 <=? Z.of_nat (length args) then x ← arg args 3; Ok (is_true x)
             else Ok false);
  let DECIMAL_DIG := 21 in
  let prec' := if prec >? DECIMAL_DIG then DECIMAL_DIG else prec in
  if prec' <? 0 then Ok (make_error_pack E_INVARG)
  else Ok (make_var_pack (Str (if (use_sci : bool) then print_e prec' d else print_f prec' d))).

(** ** Specifications *)

(** The operators of the language on numbers. *)
Inductive arith_op := OpAdd | OpSubtract | OpMultiply | OpDivide | OpModulus | OpPower.

Definition run_arith (pow : double -> double -> double * Z) (op : arith_op) : Var -> Var -> res Var :=
  match op with
  | OpAdd => do_add
  | OpSubtract => do_subtract
  | OpMultiply => do_multiply
  | OpDivide => do_divide
  | OpModulus => do_modulus
  | OpPower => do_power pow
  end.

(** The numbers that programs can hold. *)
Definition numeric (v : Var) : Prop :=
  match v with
  | Int n => int_range 64 n
  | Float f => IS_REAL f = true
  | _ => False
  end.

(** The one case in which the server's process dies. *)
Definition traps (op : arith_op) (a b : Var) : Prop :=
  (op = OpDivide \/ op = OpModulus) /\ a = Int MININT /\ b = Int (-1).

Definition is_zero (v : Var) : Prop :=
  match v with Int n => n = 0 | Float f => SFeqb f (S754_zero false) = true | _ => False end.

(** Strictness: [^] alone takes an integer on the right of a float. *)
Definition mismatch (op : arith_op) (a b : Var) : Prop :=
  type_of a <> type_of b /\ ~ (op = OpPower /\ type_of a = TYPE_FLOAT).

Definition divides_by_zero (op : arith_op) (a b : Var) : Prop :=
  match op with
  | OpDivide | OpModulus => is_zero b
  | OpPower => match a, b with Int a, Int b => a = 0 /\ b < 0 | _, _ => False end
  | _ => False
  end.

(** Integer expressions, with the operators at each of their nodes. *)
Inductive int_expr :=
  | Lit (n : Z)
  | Plus (a b : int_expr)
  | Minus (a b : int_expr)
  | Times (a b : int_expr).

Fixpoint eval_expr (e : int_expr) : res Var :=
  match e with
  | Lit n => Ok (Int (wrap64 n))
  | Plus a b => x ← eval_expr a; y ← eval_expr b; do_add x y
  | Minus a b => x ← eval_expr a; y ← eval_expr b; do_subtract x y
  | Times a b => x ← eval_expr a; y ← eval_expr b; do_multiply x y
  end.

(** Its value in the unbounded integers. *)
Fixpoint denote_expr (e : int_expr) : Z :=
  match e with
  | Lit n => n
  | Plus a b => denote_expr a + denote_expr b
  | Minus a b => denote_expr a - denote_expr b
  | Times a b => denote_expr a * denote_expr b
  end.

(** ** Lemmas *)

Lemma wrap64_range z : int_range 64 (wrap64 z).
Proof. by apply swrap_range. Qed.

Lemma wrap64_id z : int_range 64 z -> wrap64 z = z.
Proof. by apply swrap_id. Qed.

Lemma wrap64_eq a b : a mod 2 ^ 64 = b mod 2 ^ 64 -> wrap64 a = wrap64 b.
Proof.
  intros H. unfold wrap64, swrap. f_equal.
  rewrite <- (Zplus_mod_idemp_l a), <- (Zplus_mod_idemp_l b). by rewrite H.
Qed.

Lemma wrap64_congr z : wrap64 z mod 2 ^ 64 = z mod 2 ^ 64.
Proof. by apply swrap_congr. Qed.

Lemma wrap64_op (op : Z -> Z -> Z) a b :
  (forall x y, (op (x mod 2 ^ 64) (y mod 2 ^ 64)) mod 2 ^ 64 = (op x y) mod 2 ^ 64) ->
  wrap64 (op (wrap64 a) (wrap64 b)) = wrap64 (op a b).
Proof.
  intros H. apply wrap64_eq. by rewrite <- H, !wrap64_congr, H.
Qed.

Lemma wrap64_add a b : wrap64 (wrap64 a + wrap64 b) = wrap64 (a + b).
Proof. apply (wrap64_op Z.add). intros. symmetry. apply Zplus_mod. Qed.

Lemma wrap64_sub a b : wrap64 (wrap64 a - wrap64 b) = wrap64 (a - b).
Proof. apply (wrap64_op Z.sub). intros. symmetry. apply Zminus_mod. Qed.

Lemma wrap64_mul a b : wrap64 (wrap64 a * wrap64 b) = wrap64 (a * b).
Proof. apply (wrap64_op Z.mul). intros. symmetry. apply Zmult_mod. Qed.

#[export] Hint Resolve wrap64_range : moo.
#[export] Hint Rewrite wrap64_add wrap64_sub wrap64_mul : moo.

Lemma real_result_numeric d : numeric (real_result d) \/ real_result d = Err E_FLOAT.
Proof. unfold real_result. destruct (IS_REAL d) eqn:E; cbn; auto. Qed.

Lemma odd_land b : negb (Z.land b 1 =? 0) = Z.odd b.
Proof.
  change 1 with (Z.ones 1) at 1. rewrite Z.land_ones, Z.pow_1_r, Zmod_odd by lia. by destruct (Z.odd b).
Qed.

Lemma power_loop_spec fuel a b r : 0 <= b < 2 ^ Z.of_nat fuel -> int_range 64 r ->
  power_loop fuel a b r = Ok (wrap64 (r * a ^ b)).
Proof.
  revert a b r. induction fuel as [|fuel IH]; intros a b r Hb Hr; cbn [power_loop];
    destruct (Z.eqb_spec b 0) as [->|Hn].
  1,3: by rewrite Z.pow_0_r, Z.mul_1_r, wrap64_id.
  { cbn in Hb. lia. }
  rewrite odd_land, Z.shiftr_div_pow2, Z.pow_1_r by lia.
  rewrite Nat2Z.inj_succ, Z.pow_succ_r in Hb by lia.
  assert (Hpow : forall k x y, 0 <= k -> x mod 2 ^ 64 = y mod 2 ^ 64 ->
            (x ^ k) mod 2 ^ 64 = (y ^ k) mod 2 ^ 64).
  { intros k x y _ Hxy. by rewrite <- (Z.mod_pow_l x), <- (Z.mod_pow_l y), Hxy. }
  rewrite IH; [|dlia|destruct (Z.odd b); auto with moo]. f_equal.
  assert (Hsq : (wrap64 (a * a)) ^ (b / 2) mod 2 ^ 64 = (a ^ (2 * (b / 2))) mod 2 ^ 64).
  { rewrite (Hpow _ _ (a * a)) by (try apply wrap64_congr; dlia).
    by rewrite Z.pow_mul_r, Z.pow_2_r by dlia. }
  apply wrap64_eq.
  rewrite (Zmult_mod _ (_ ^ _)), Hsq, <- Zmult_mod.
  destruct (Z.odd b) eqn:Ho.
  - rewrite Zmult_mod, wrap64_congr, <- Zmult_mod. f_equal.
    rewrite <- Z.mul_assoc. f_equal.
    rewrite <- Z.pow_succ_r by dlia. f_equal. pose proof (Zmod_odd b) as Hm.
    rewrite Ho in Hm. dlia.
  - do 3 f_equal. pose proof (Zmod_odd b) as Hm. rewrite Ho in Hm. dlia.
Qed.

Lemma power_int a b pow : int_range 64 a -> int_range 64 b -> 0 <= b ->
  do_power pow (Int a) (Int b) = Ok (Int (wrap64 (a ^ b))).
Proof.
  intros Ha Hb H. cbn [do_power]. destruct (Z.ltb_spec b 0); [lia|].
  rewrite power_loop_spec; [|unfold int_range in Hb; lia|done].
  cbn. do 2 f_equal. by rewrite Z.mul_1_l.
Qed.

Lemma int_div_spec op m n q : int_div op m n = Ok q <->
  ~ (m = MININT /\ n = -1) /\ q = op m n.
Proof.
  unfold int_div. destruct (Z.eqb_spec m MININT), (Z.eqb_spec n (-1)); cbn [andb];
    (split; [intros [= <-]; (split; tauto) | intros [H ->]; tauto || done]).
Qed.

Lemma quot_range m n : int_range 64 m -> int_range 64 n -> n <> 0 ->
  ~ (m = MININT /\ n = -1) -> int_range 64 (Z.quot m n).
Proof.
  unfold int_range, MININT. intros Hm Hn H0 Ht. change (64 - 1) with 63 in *.
  destruct (Z.eq_dec n (-1)) as [->|].
  { change (-1) with (Z.opp 1). rewrite Z.quot_opp_r, Z.quot_1_r by lia. lia. }
  pose proof (Z.quot_abs m n H0). pose proof (Z.quot_le_upper_bound).
  destruct (Z.eq_dec n 1) as [->|]; [rewrite Z.quot_1_r; lia|].
  assert (Z.quot (Z.abs m) (Z.abs n) < 2 ^ 63); [|lia].
  destruct (Z.eq_dec m 0) as [->|]; [by rewrite Z.quot_0_l by lia|].
  pose proof (Z.quot_lt (Z.abs m) (Z.abs n)). lia.
Qed.

Lemma rem_range m n : int_range 64 n -> n <> 0 -> int_range 64 (Z.rem m n).
Proof.
  unfold int_range. intros Hn H0. change (64 - 1) with 63 in *.
  pose proof (Z.rem_bound_abs m n H0). lia.
Qed.

(** The answer of an operator: a number of the left operand's type, or the error for
    exactly the documented reason. *)
Definition arith_answer (op : arith_op) (a b v : Var) : Prop :=
  (mismatch op a b /\ v = Err E_TYPE) \/
  (~ mismatch op a b /\ divides_by_zero op a b /\ v = Err E_DIV) \/
  (~ mismatch op a b /\ ~ divides_by_zero op a b /\
   ((numeric v /\ type_of v = type_of a) \/ (type_of a = TYPE_FLOAT /\ v = Err E_FLOAT))).

Lemma answer_mismatch op a b : mismatch op a b -> arith_answer op a b (Err E_TYPE).
Proof. intros. by left. Qed.

Lemma answer_real op a b d : ~ mismatch op a b -> ~ divides_by_zero op a b ->
  type_of a = TYPE_FLOAT -> arith_answer op a b (real_result d).
Proof.
  intros Hm Hd Ha. right; right. split_and!; [done..|].
  unfold real_result. destruct (IS_REAL d) eqn:E; cbn; rewrite Ha; auto.
Qed.

Lemma answer_int op a b n : ~ mismatch op (Int a) (Int b) ->
  ~ divides_by_zero op (Int a) (Int b) -> int_range 64 n ->
  arith_answer op (Int a) (Int b) (Int n).
Proof. intros Hm Hd Hn. right; right. split_and!; [done..|]. by left. Qed.

Lemma simple_binary_answer op iop fop a b :
  (forall x y, ~ divides_by_zero op x y) -> op <> OpPower -> numeric a -> numeric b ->
  exists v, SIMPLE_BINARY iop fop a b = Ok v /\ arith_answer op a b v.
Proof.
  intros Hd Hop Ha Hb. unfold SIMPLE_BINARY.
  destruct a as [m| | | | | | | | |x|], b as [n| | | | | | | | |y|]; try done;
    cbn -[Z.add]; eexists; (split; [done|]).
  - apply answer_int; [intros [??]; done|done|apply wrap64_range].
  - apply answer_mismatch. split; [done|tauto].
  - apply answer_mismatch. split; [done|tauto].
  - apply answer_real; [intros [??]; done|done..].
Qed.

Lemma division_answer op (iop : Z -> Z -> Z) fop a b : op = OpDivide \/ op = OpModulus ->
  (forall m n, int_range 64 m -> int_range 64 n -> n <> 0 ->
     ~ (m = MININT /\ n = -1) -> int_range 64 (iop m n)) ->
  numeric a -> numeric b ->
  (traps op a b /\ DIVISION_OP iop fop a b = Fail Undefined) \/
  (~ traps op a b /\ exists v, DIVISION_OP iop fop a b = Ok v /\ arith_answer op a b v).
Proof.
  intros Hop Hr Ha Hb. unfold DIVISION_OP, traps.
  assert (Hdz : forall x y, divides_by_zero op x y <-> is_zero y) by (by destruct Hop as [-> | ->]).
  assert (Hnp : op <> OpPower) by (destruct Hop; congruence).
  destruct a as [m| | | | | | | | |x|], b as [n| | | | | | | | |y|]; try done; cbn.
  - destruct (Z.eqb_spec n 0) as [->|Hn]; cbn.
    { right. split; [intros (_ & _ & [=])|]. eexists; split; [done|].
      right; left. split_and!; [intros [??]; done|by apply Hdz|done]. }
    destruct (decide (m = MININT /\ n = -1)) as [[-> ->]|Ht].
    { left. split; [done|]. reflexivity. }
    right. split; [intros (_ & [=] & [=]); auto|].
    rewrite (proj2 (int_div_spec iop m n _) (conj Ht eq_refl)). cbn. eexists; split; [done|].
    apply answer_int; [intros [??]; done|by rewrite Hdz|auto].
  - right. split; [intros (_ & _ & [=])|]. eexists; split; [done|].
    apply answer_mismatch. split; [done|tauto].
  - right. split; [intros (_ & [=] & _)|]. eexists; split; [done|].
    apply answer_mismatch. split; [done|tauto].
  - right. split; [intros (_ & [=] & _)|]. destruct (SFeqb y (S754_zero false)) eqn:E; cbn.
    + eexists; split; [done|]. right; left.
      split_and!; [intros [??]; done|by apply Hdz|done].
    + eexists; split; [done|]. apply answer_real; [intros [??]; done|rewrite Hdz; cbn; congruence|done].
Qed.

Lemma power_answer pow a b : numeric a -> numeric b ->
  exists v, do_power pow a b = Ok v /\ arith_answer OpPower a b v.
Proof.
  intros Ha Hb.
  assert (Hf : forall x d, exists v,
    (let '(d, errno) := pow x d in
     Ok (if negb (errno =? 0) || negb (IS_REAL d) then Err E_FLOAT else Float d)) = Ok v /\
    arith_answer OpPower (Float x) b v).
  { intros x d. destruct (pow x d) as [d' errno]. eexists; split; [done|].
    right; right. split_and!; [intros [_ H]; by apply H|intros []|].
    destruct (negb (errno =? 0)); cbn; [by right|].
    destruct (IS_REAL d') eqn:E; cbn; [left; done|by right]. }
  destruct a as [m| | | | | | | | |x|], b as [n| | | | | | | | |y|]; try done.
  - destruct (Z.ltb_spec n 0) as [Hn|Hn].
    + cbn [do_power]. rewrite (proj2 (Z.ltb_lt _ _) Hn). eexists; split; [done|].
      assert (Hm : ~ mismatch OpPower (Int m) (Int n)) by (intros [??]; done).
      destruct (Z.eqb_spec m (-1)) as [->|].
      { destruct (negb _); apply answer_int; try done; cbn; lia. }
      destruct (Z.eqb_spec m 0) as [->|]; [by right; left|].
      destruct (Z.eqb_spec m 1) as [->|]; apply answer_int; try done; cbn; lia.
    + rewrite power_int by done. eexists; split; [done|].
      apply answer_int; [intros [??]; done|cbn; lia|apply wrap64_range].
  - eexists; split; [done|]. apply answer_mismatch. split; [done|]. by intros [_ ?].
  - apply Hf.
  - apply Hf.
Qed.

Lemma simple_binary_int iop fop m n :
  SIMPLE_BINARY iop fop (Int m) (Int n) = Ok (Int (wrap64 (iop m n))).
Proof. done. Qed.

Lemma eval_expr_spec e : eval_expr e = Ok (Int (wrap64 (denote_expr e))).
Proof.
  induction e as [n|a IHa b IHb|a IHa b IHb|a IHa b IHb]; cbn [eval_expr denote_expr]; [done|..];
    rewrite IHa, IHb; cbn [mbind res_bind]; unfold do_add, do_subtract, do_multiply;
    rewrite simple_binary_int; autorewrite with moo; done.
Qed.

Lemma random_rr_spec r1 r2 r3 : 0 <= r1 < 2 ^ 31 -> 0 <= r2 < 2 ^ 31 -> 0 <= r3 < 2 ^ 31 ->
  random_rr r1 r2 r3 = r1 * 2 ^ 32 + r2 * 2 + r3 / 2 ^ 30 /\ 0 <= random_rr r1 r2 r3 <= MAXINT.
Proof.
  intros H1 H2 H3. unfold random_rr. rewrite !Z.shiftl_mul_pow2, Z.shiftr_div_pow2 by lia.
  assert (0 <= r3 / 2 ^ 30 <= 1) by dlia. change (2 ^ 1) with 2.
  rewrite (wrap64_id (r1 * _)), (wrap64_id (r2 * _)) by (unfold int_range; lia).
  rewrite (wrap64_id (_ + r2 * 2)), wrap64_id by (unfold int_range; lia).
  unfold MAXINT. lia.
Qed.

(** ** Properties *)

(** C38: each of [+ - * / % ^] on two numbers answers a number of the left operand's type
    (an integer in the 64-bit range, a float that is neither infinite nor undefined),
    [E_TYPE] exactly for mixed types, [E_DIV] exactly for a zero divisor (or [0] to a
    negative power), [E_FLOAT] only for floats; and the server traps exactly on the least
    integer divided by [-1]. *)
Theorem arithmetic_sound pow op a b : numeric a -> numeric b ->
  (traps op a b /\ run_arith pow op a b = Fail Undefined) \/
  (~ traps op a b /\ exists v, run_arith pow op a b = Ok v /\ arith_answer op a b v).
Proof.
  intros Ha Hb.
  assert (Hnt : op <> OpDivide -> op <> OpModulus -> ~ traps op a b) by (intros ?? [[]]; done).
  destruct op; cbn [run_arith].
  1-3: right; split; [by apply Hnt|]; apply simple_binary_answer; done || (intros ?? []).
  - apply division_answer; auto using quot_range.
  - apply division_answer; auto using rem_range.
  - right. split; [by apply Hnt|]. by apply power_answer.
Qed.

Lemma arithmetic_sound_witness : exists v,
  run_arith (fun x _ => (x, 0)) OpDivide (Int 7) (Int (-2)) = Ok v /\
  arith_answer OpDivide (Int 7) (Int (-2)) v.
Proof.
  assert (H : numeric (Int 7) /\ numeric (Int (-2))) by (split; vm_compute; intuition discriminate).
  destruct (arithmetic_sound (fun x _ => (x, 0)) OpDivide (Int 7) (Int (-2)) (proj1 H) (proj2 H))
    as [[Ht _]|[_ Hv]]; [|exact Hv].
  destruct Ht as (_ & Hx & _). discriminate Hx.
Defined.

(** however deep an expression over [+], [-] and [*] is, wrapping at each operation
    gives the value in the unbounded integers, wrapped once. *)
Theorem int_expressions_wrap e : eval_expr e = Ok (Int (wrap64 (denote_expr e))).
Proof. apply eval_expr_spec. Qed.

(** C39: integer exponentiation terminates within 64 turns and computes the power modulo
    2^64; a negative exponent truncates the rational power, [0] raised to it being an
    error, except that the base [-1] gets the wrong sign. *)
Theorem power_correct pow a b : int_range 64 a -> int_range 64 b ->
  do_power pow (Int a) (Int b) =
  Ok (if decide (0 <= b) then Int (wrap64 (a ^ b))
      else if decide (a = 0) then Err E_DIV
      else if decide (a = -1) then Int (- (-1) ^ (- b))
      else Int (Z.quot 1 (a ^ (- b)))).
Proof.
  intros Ha Hb. case_decide as Hs; [by apply power_int|].
  cbn [do_power]. destruct (Z.ltb_spec b 0); [|lia]. f_equal.
  assert (Hone : forall k, 0 <= k -> (-1) ^ k = if Z.odd k then -1 else 1).
  { intros k Hk. destruct (Z.odd k) eqn:E.
    - apply Z.odd_spec in E as [j ->]. rewrite Z.pow_add_r, Z.pow_mul_r by lia.
      change ((-1) ^ 2) with 1. rewrite Z.pow_1_l by lia. done.
    - rewrite <- Z.negb_even in E. apply negb_false_iff, Z.even_spec in E as [j ->].
      rewrite Z.pow_mul_r by lia. apply Z.pow_1_l. lia. }
  destruct (Z.eqb_spec a (-1)) as [->|].
  { rewrite decide_False, decide_True by lia. rewrite Hone, Z.odd_opp, odd_land by lia.
    destruct (Z.odd b); reflexivity. }
  destruct (Z.eqb_spec a 0) as [->|]; [by rewrite decide_True|].
  rewrite !decide_False by done. destruct (Z.eqb_spec a 1) as [->|]; [rewrite Z.pow_1_l by lia; reflexivity|].
  f_equal. symmetry. apply Z.quot_small_iff.
  - apply Z.pow_nonzero; lia.
  - rewrite Z.abs_pow. change (Z.abs 1) with 1. apply Z.pow_gt_1; lia.
Qed.

Lemma power_correct_witness :
  do_power (fun x _ => (x, 0)) (Int 3) (Int 41) = Ok (Int (wrap64 (3 ^ 41))).
Proof.
  assert (H : int_range 64 3 /\ int_range 64 41) by (vm_compute; intuition discriminate).
  exact (power_correct (fun x _ => (x, 0)) 3 41 (proj1 H) (proj2 H)).
Defined.

(** The last case: [(-1) ^ (-1)] is [1] and [(-1) ^ (-2)] is [-1]. *)
Lemma power_minus_one_sign pow :
  do_power pow (Int (-1)) (Int (-1)) = Ok (Int 1) /\
  do_power pow (Int (-1)) (Int (-2)) = Ok (Int (-1)).
Proof. split; reflexivity. Qed.

(** [random(n)] answers a number between [1] and [n], without overflow, and for every
    number of the range there are outputs of the generator that give it. *)
Theorem random_correct n : int_range 64 n -> 0 < n ->
  (forall r1 r2 r3, 0 <= r1 < 2 ^ 31 -> 0 <= r2 < 2 ^ 31 -> 0 <= r3 < 2 ^ 31 ->
     exists k, bf_random r1 r2 r3 [Int n] = Ok (make_var_pack (Int k)) /\ 1 <= k <= n) /\
  (forall k, 1 <= k <= n -> exists r1 r2 r3,
     0 <= r1 < 2 ^ 31 /\ 0 <= r2 < 2 ^ 31 /\ 0 <= r3 < 2 ^ 31 /\
     bf_random r1 r2 r3 [Int n] = Ok (make_var_pack (Int k))).
Proof.
  intros Hn Hp. unfold int_range in Hn. change (64 - 1) with 63 in Hn.
  assert (Heq : forall r1 r2 r3, bf_random r1 r2 r3 [Int n] =
    Ok (make_var_pack (Int (wrap64 (1 + Z.rem (random_rr r1 r2 r3) n))))).
  { intros. unfold bf_random. change (1 <=? Z.of_nat (length [Int n])) with true.
    cbn -[random_rr Z.rem Z.add wrap64]. destruct (Z.leb_spec n 0); [lia|]. reflexivity. }
  split.
  - intros r1 r2 r3 H1 H2 H3. destruct (random_rr_spec r1 r2 r3 H1 H2 H3) as [_ Hrr].
    eexists. rewrite Heq. split; [done|].
    pose proof (Z.rem_bound_pos (random_rr r1 r2 r3) n ltac:(lia) Hp).
    rewrite wrap64_id by (unfold int_range; lia). lia.
  - intros k Hk. exists ((k - 1) / 2 ^ 32), ((k - 1) / 2 mod 2 ^ 31), ((k - 1) mod 2 * 2 ^ 30).
    split_and!; try dlia. rewrite Heq. destruct (random_rr_spec ((k - 1) / 2 ^ 32)
      ((k - 1) / 2 mod 2 ^ 31) ((k - 1) mod 2 * 2 ^ 30)) as [-> _]; [dlia..|].
    rewrite Z.div_mul by lia.
    replace (_ + _ + _) with (k - 1) by dlia.
    rewrite Z.rem_small, wrap64_id by (unfold int_range; lia). do 3 f_equal. lia.
Qed.

Lemma random_correct_witness : exists k,
  bf_random 5 6 7 [Int 10] = Ok (make_var_pack (Int k)) /\ 1 <= k <= 10.
Proof.
  assert (H : int_range 64 10) by (vm_compute; intuition discriminate).
  apply (random_correct 10 H ltac:(lia)); lia.
Defined.
