(* ===== verification/Words.v ===== *)
(** * Command lines into words (src/parse_cmd.c)

    The tokenizer works in place: it compacts the words at the front of the buffer it
    reads and answers pointers into it.  Here the buffer is a list of bytes with its NUL,
    pointers are offsets, and every access is checked. *)

From S2P Require Import Prelude CStrings Values.

Open Scope Z_scope.

(** ** The buffer *)

Definition NUL : ascii := chr 0.
Definition BLANK : ascii := chr 32.
Definition QUOTE : ascii := chr 34.
Definition BACKSLASH : ascii := chr 92.

Definition peek (buf : list ascii) (i : nat) : res ascii := deref (buf !! i).
Definition poke (buf : list ascii) (i : nat) (c : ascii) : res (list ascii) :=
  if decide (i < length buf)%nat then Ok (<[i := c]> buf) else Fail Segv.

(** The C string at an offset. *)
Fixpoint until_nul (buf : list ascii) : cstr :=
  match buf with
  | [] => []
  | c :: buf => if decide (c = NUL) then [] else c :: until_nul buf
  end.
Definition string_at (buf : list ascii) (off : nat) : cstr := until_nul (drop off buf).

(** ** [parse_into_words] *)

(** [while ( *input == ' ') input++;] *)
Fixpoint skip_blanks (fuel : nat) (buf : list ascii) (input : nat) : res nat :=
  match fuel with
  | O => Fail OutOfFuel
  | S fuel =>
      c ← peek buf input;
      if decide (c = BLANK) then skip_blanks fuel buf (S input) else Ok input
  end.

(** [while ( *input != 0 && (in_quotes || *input != ' ')) ...]: the buffer, [input],
    [ptr] and [in_quotes]. *)
Fixpoint scan_word (fuel : nat) (buf : list ascii) (input ptr : nat) (in_quotes : bool)
    : res (list ascii * nat * nat * bool) :=
  match fuel with
  | O => Fail OutOfFuel
  | S fuel =>
      c ← peek buf input;
      if decide (c = NUL) then Ok (buf, input, ptr, in_quotes)
      else if negb in_quotes && bool_decide (c = BLANK) then Ok (buf, input, ptr, in_quotes)
      else
        let input := S input in
        if decide (c = QUOTE) then scan_word fuel buf input ptr (negb in_quotes)
        else if decide (c = BACKSLASH) then
          n ← peek buf input;
          if decide (n = NUL) then scan_word fuel buf input ptr in_quotes
          else
            buf ← poke buf ptr n;
            scan_word fuel buf (S input) (S ptr) in_quotes
        else
          buf ← poke buf ptr c;
          scan_word fuel buf input (S ptr) in_quotes
  end.

(** The loop over the words.  [words] are the pointers stored so far, [max_words] the
    size of the array that holds them, doubled when it is full. *)
Fixpoint split_words (fuel : nat) (buf : list ascii) (input ptr : nat) (in_quotes : bool)
    (words : list nat) (max_words : nat) : res (list ascii * list nat * nat) :=
  match fuel with
  | O => Fail OutOfFuel
  | S fuel =>
      c ← peek buf input;
      if decide (c = NUL) then Ok (buf, words, max_words)
      else
        let max_words := if decide (length words = max_words)
                         then (max_words * 2)%nat else max_words in
        if decide (length words < max_words)%nat then
          let words := words ++ [ptr] in
          '(buf, input, ptr, in_quotes) ← scan_word (S (length buf)) buf input ptr in_quotes;
          input ← skip_blanks (S (length buf)) buf input;
          buf ← poke buf ptr NUL;
          split_words fuel buf input (S ptr) in_quotes words max_words
        else Fail Segv
  end.

(** The array outlives the calls: [max_words] is its size before the call (0 before the
    first one) and, in the answer, after it. *)
Definition parse_into_words (max_words : nat) (buf : list ascii)
    : res (list ascii * list nat * nat) :=
  let max_words := if decide (max_words = 0%nat) then 50%nat else max_words in
  input ← skip_blanks (S (length buf)) buf 0;
  split_words (S (length buf)) buf input 0 false [] max_words.

(** [build_string]: the words with one space between them. *)
Fixpoint build_string (argv : list cstr) : cstr :=
  match argv with
  | [] => []
  | [w] => w
  | w :: argv => w ++ BLANK :: build_string argv
  end.

(** The words of a copy of [command]. *)
Definition argv_of (max_words : nat) (command : cstr) : res (list cstr * nat) :=
  r ← parse_into_words max_words (command ++ [NUL]);
  let '(buf, words, max_words) := (r : list ascii * list nat * nat) in
  Ok (string_at buf <$> words, max_words).

Definition parse_into_wordlist (max_words : nat) (command : cstr) : res (Var * nat) :=
  '(argv, max_words) ← argv_of max_words command;
  Ok (List (Str <$> argv), max_words).

(** ** The words of a string, without a buffer *)

(** The first word and the rest, which is empty or starts with a blank. *)
Fixpoint word (s : cstr) (in_quotes : bool) : cstr * cstr :=
  match s with
  | [] => ([], [])
  | c :: t =>
      if negb in_quotes && bool_decide (c = BLANK) then ([], s)
      else if decide (c = QUOTE) then word t (negb in_quotes)
      else if decide (c = BACKSLASH) then
        match t with
        | [] => ([], [])
        | n :: t => let '(w, r) := word t in_quotes in (n :: w, r)
        end
      else let '(w, r) := word t in_quotes in (c :: w, r)
  end.

Definition blanks (s : cstr) : cstr := skip_while (fun c => c =? 32) s.

Fixpoint tokens_from (fuel : nat) (s : cstr) : list cstr :=
  match fuel, s with
  | S fuel, _ :: _ => let '(w, r) := word s false in w :: tokens_from fuel (blanks r)
  | _, _ => []
  end.
Definition tokens (s : cstr) : list cstr := tokens_from (length s) (blanks s).

(** *** Bytes *)

Lemma NUL_iff c : ord c = 0 <-> c = NUL.
Proof.
  split; [|intros ->; by apply ord_chr].
  intros H. apply ord_inj. rewrite H. symmetry. by apply ord_chr.
Qed.

Lemma nul_free_NUL s : nul_free s <-> NUL ∉ s.
Proof.
  unfold nul_free. rewrite Forall_forall. split.
  - intros H Hin. by apply (H NUL Hin), NUL_iff.
  - intros H c Hc Hz. apply NUL_iff in Hz as ->. done.
Qed.

Lemma nul_free_cons c s : nul_free (c :: s) <-> c <> NUL /\ nul_free s.
Proof. rewrite !nul_free_NUL, not_elem_of_cons. naive_solver. Qed.

Lemma until_nul_app w rest : nul_free w -> until_nul (w ++ NUL :: rest) = w.
Proof.
  induction w as [|c w IH]; [done|]. intros [Hc Hw]%nul_free_cons. cbn [app until_nul].
  rewrite decide_False by done. by rewrite IH.
Qed.

Lemma blanks_cons c s : blanks (c :: s) = if decide (c = BLANK) then blanks s else c :: s.
Proof.
  unfold blanks. cbn [skip_while]. destruct (Z.eqb_spec (ord c) 32) as [H|H].
  - rewrite decide_True; [done|]. apply ord_inj. rewrite H. symmetry. by apply ord_chr.
  - rewrite decide_False; [done|]. intros ->. apply H. by apply ord_chr.
Qed.

Lemma blanks_spec s : exists p, s = p ++ blanks s /\ Forall (eq BLANK) p /\
  (blanks s = [] \/ exists c t, blanks s = c :: t /\ c <> BLANK).
Proof.
  induction s as [|c s (p & Hs & Hp & Hb)]; [by exists []; split_and!; [..|left]|].
  rewrite blanks_cons. destruct (decide (c = BLANK)) as [->|Hc].
  - exists (BLANK :: p). split_and!; [cbn; by f_equal|by constructor|done].
  - exists []. split_and!; [done|done|right; eauto].
Qed.

Lemma blanks_length s : (length (blanks s) <= length s)%nat.
Proof. destruct (blanks_spec s) as (p & Hs & _). rewrite Hs at 2. rewrite length_app. lia. Qed.

Lemma blanks_nul_free s : nul_free s -> nul_free (blanks s).
Proof. destruct (blanks_spec s) as (p & Hs & _). rewrite Hs at 1. rewrite nul_free_app. tauto. Qed.

(** What [word] answers. *)
Lemma word_spec s q : nul_free s -> nul_free (word s q).1 /\ nul_free (word s q).2 /\
  (length (word s q).2 <= length s)%nat /\
  ((word s q).2 = [] \/ exists r, (word s q).2 = BLANK :: r).
Proof.
  revert q. induction s as [s IH] using (well_founded_induction (well_founded_ltof _ (@length ascii))).
  intros q Hs. destruct s as [|c t]; [by split_and!; [..|left]|].
  pose proof (proj1 (nul_free_cons _ _) Hs) as [Hc Ht]. cbn [word].
  destruct (negb q && bool_decide (c = BLANK)) eqn:E.
  { apply andb_true_iff in E as [_ ->%bool_decide_eq_true]. split_and!; [constructor|done|done|].
    right; eauto. }
  clear E. repeat case_decide.
  - destruct (IH t ltac:(unfold ltof; cbn; lia) (negb q) Ht) as (H1 & H2 & H3 & H4).
    split_and!; [done|done|cbn; lia|done].
  - destruct t as [|n t]; [split_and!; [constructor|constructor|cbn; lia|by left]|].
    apply nul_free_cons in Ht as [Hn Ht].
    destruct (IH t ltac:(unfold ltof; cbn; lia) q Ht) as (H1 & H2 & H3 & H4).
    destruct (word t q) as [w r]. cbn in *. split_and!; [by apply nul_free_cons|done|lia|done].
  - destruct (IH t ltac:(unfold ltof; cbn; lia) q Ht) as (H1 & H2 & H3 & H4).
    destruct (word t q) as [w r]. cbn in *. split_and!; [by apply nul_free_cons|done|lia|done].
Qed.

(** A word that does not start with a blank takes something away. *)
Lemma word_progress c t : nul_free (c :: t) -> c <> BLANK ->
  (length (blanks (word (c :: t) false).2) < length (c :: t))%nat.
Proof.
  intros Hs Hc. pose proof (proj1 (nul_free_cons _ _) Hs) as [_ Ht]. cbn [word negb].
  rewrite bool_decide_eq_false_2 by done. cbn [andb].
  assert (forall q t', nul_free t' -> (length t' <= length t)%nat ->
    (length (blanks (word t' q).2) < length (c :: t))%nat) as Hle.
  { intros q t' Ht' Hl. pose proof (blanks_length (word t' q).2).
    destruct (word_spec t' q Ht') as (_ & _ & ? & _). cbn. lia. }
  repeat case_decide.
  - by apply Hle.
  - destruct t as [|n t]; [cbn; lia|]. apply nul_free_cons in Ht as [_ Ht].
    specialize (Hle false t Ht ltac:(cbn; lia)). destruct (word t false). exact Hle.
  - specialize (Hle false t Ht ltac:(done)). destruct (word t false). exact Hle.
Qed.

Lemma tokens_from_more fuel s : nul_free s -> (s = [] \/ exists c t, s = c :: t /\ c <> BLANK) ->
  (length s <= fuel)%nat -> tokens_from fuel s = tokens_from (length s) s.
Proof.
  revert s. induction fuel as [fuel IH] using lt_wf_ind. intros s Hs Hb Hl.
  destruct Hb as [->|(c & t & -> & Hc)]; [by destruct fuel|].
  destruct fuel as [|fuel]; [cbn in Hl; lia|]. cbn [length tokens_from].
  pose proof (word_progress c t Hs Hc) as Hp. destruct (word_spec _ false Hs) as (_ & Hr & _).
  destruct (word (c :: t) false) as [w r]. cbn [fst snd] in *. f_equal.
  destruct (blanks_spec r) as (_ & _ & _ & Hb). pose proof (blanks_nul_free r Hr).
  cbn [length] in *. rewrite (IH fuel), (IH (length t)); try done; lia.
Qed.

Lemma tokens_cons s c t : nul_free s -> blanks s = c :: t ->
  tokens s = (word (c :: t) false).1 :: tokens (word (c :: t) false).2.
Proof.
  intros Hs Hb. pose proof (blanks_nul_free s Hs) as Hn. rewrite Hb in Hn.
  destruct (blanks_spec s) as (_ & _ & _ & Hc). rewrite Hb in Hc.
  assert (c <> BLANK) as Hcb by naive_solver. unfold tokens at 1. rewrite Hb.
  rewrite tokens_from_more; [|done|by eauto|by rewrite <- Hb; apply blanks_length].
  cbn [length tokens_from]. pose proof (word_progress c t Hn Hcb) as Hp.
  destruct (word_spec _ false Hn) as (_ & Hr & _).
  destruct (word (c :: t) false) as [w r]. cbn [fst snd] in *. f_equal.
  destruct (blanks_spec r) as (_ & _ & _ & Hbr). unfold tokens.
  pose proof (blanks_nul_free r Hr). cbn [length] in *.
  rewrite (tokens_from_more (length t)), (tokens_from_more (length r)); try done;
    [apply blanks_length|lia].
Qed.

Lemma tokens_nil s : blanks s = [] -> tokens s = [].
Proof. intros Hb. unfold tokens. rewrite Hb. by destruct (length s). Qed.

(** ** The buffer during the loop

    [rest] is still to be read at [input], and nothing that was written at the front
    reaches it. *)
Definition pending (buf : list ascii) (input : nat) (rest : cstr) : Prop :=
  drop input buf = rest ++ [NUL].

Lemma pending_nil buf i : pending buf i [] -> peek buf i = Ok NUL.
Proof. intros H. unfold peek. rewrite <- (Nat.add_0_r i), <- lookup_drop, H. done. Qed.

Lemma pending_cons buf i c t : pending buf i (c :: t) -> peek buf i = Ok c /\ pending buf (S i) t.
Proof.
  intros H. split.
  - unfold peek. rewrite <- (Nat.add_0_r i), <- lookup_drop, H. done.
  - unfold pending. rewrite <- Nat.add_1_r, <- drop_drop, H. done.
Qed.

Lemma pending_length buf i rest : pending buf i rest -> length buf = (i + length rest + 1)%nat.
Proof.
  intros H. pose proof (f_equal length H) as Hl. rewrite length_drop, length_app in Hl.
  cbn in Hl. lia.
Qed.

Lemma poke_pending buf i ptr c rest : pending buf i rest -> (ptr < i)%nat ->
  exists buf', poke buf ptr c = Ok buf' /\ pending buf' i rest /\ length buf' = length buf /\
    take (S ptr) buf' = take ptr buf ++ [c].
Proof.
  intros H Hp. pose proof (pending_length _ _ _ H). unfold poke. rewrite decide_True by lia.
  exists (<[ptr := c]> buf). split_and!; [done| |apply length_insert|].
  - unfold pending. by rewrite drop_insert_lt.
  - rewrite (take_S_r _ _ c) by (apply list_lookup_insert_eq; lia).
    by rewrite take_insert_ge by lia.
Qed.

Lemma skip_blanks_Ok fuel buf i rest : pending buf i rest -> (length rest < fuel)%nat ->
  exists i', skip_blanks fuel buf i = Ok i' /\ pending buf i' (blanks rest) /\
    i' = (i + (length rest - length (blanks rest)))%nat.
Proof.
  revert i rest. induction fuel as [|fuel IH]; intros i rest H Hl; [lia|]. cbn [skip_blanks].
  destruct rest as [|c t].
  - rewrite (pending_nil _ _ H). cbn [mbind res_bind]. exists i. rewrite decide_False by done.
    split_and!; [done|done|cbn; lia].
  - destruct (pending_cons _ _ _ _ H) as [-> Ht]. cbn [mbind res_bind]. rewrite blanks_cons.
    pose proof (blanks_length t). case_decide.
    + destruct (IH (S i) t Ht ltac:(cbn in Hl; lia)) as (i' & -> & Hp & ->). exists (S i + (length t - length (blanks t)))%nat.
      split_and!; [done|done|cbn [length]; lia].
    + exists i. split_and!; [done|done|cbn; lia].
Qed.

Lemma scan_word_Ok fuel s q buf i ptr : nul_free s -> pending buf i s -> (ptr <= i)%nat ->
  (length s < fuel)%nat ->
  exists buf' i' q', scan_word fuel buf i ptr q = Ok (buf', i', (ptr + length (word s q).1)%nat, q') /\
    pending buf' i' (word s q).2 /\ (ptr + length (word s q).1 <= i')%nat /\
    take (ptr + length (word s q).1) buf' = take ptr buf ++ (word s q).1 /\
    length buf' = length buf /\ ((word s q).2 <> [] -> q' = false).
Proof.
  revert s q buf i ptr. induction fuel as [|fuel IH]; intros s q buf i ptr Hs H Hp Hl; [lia|].
  cbn [scan_word]. destruct s as [|c t].
  { rewrite (pending_nil _ _ H). cbn [mbind res_bind]. rewrite decide_True by done.
    exists buf, i, q. cbn. rewrite Nat.add_0_r, app_nil_r. split_and!; done. }
  pose proof (proj1 (nul_free_cons _ _) Hs) as [Hc Ht].
  destruct (pending_cons _ _ _ _ H) as [-> Hpt]. cbn [mbind res_bind word].
  rewrite decide_False by done. cbn [length] in Hl.
  destruct (negb q && bool_decide (c = BLANK)) eqn:E.
  { exists buf, i, q. cbn [fst snd length]. rewrite Nat.add_0_r, app_nil_r. split_and!; try done.
    by destruct q. }
  destruct (decide (c = QUOTE)); [apply (IH t); [done..|lia|lia]|].
  destruct (decide (c = BACKSLASH)) as [->|].
  - destruct t as [|d t].
    { rewrite (pending_nil _ _ Hpt). cbn [mbind res_bind]. rewrite decide_True by done.
      destruct (IH [] q buf (S i) ptr) as (buf' & i' & q' & IH'); [constructor|done|lia|cbn in *; lia|].
      exists buf', i', q'. exact IH'. }
    apply nul_free_cons in Ht as [Hd Ht]. destruct (pending_cons _ _ _ _ Hpt) as [-> Hpt'].
    cbn [mbind res_bind]. rewrite decide_False by done.
    destruct (poke_pending buf (S (S i)) ptr d t Hpt' ltac:(lia)) as (b1 & -> & Hp1 & Hl1 & Ht1).
    cbn [mbind res_bind].
    destruct (IH t q b1 (S (S i)) (S ptr) Ht Hp1 ltac:(lia) ltac:(cbn in *; lia))
      as (buf' & i' & q' & -> & H1 & H2 & H3 & H4 & H5).
    destruct (word t q) as [w r]. cbn [fst snd length] in *. exists buf', i', q'.
    rewrite Nat.add_succ_r. rewrite Ht1, <- app_assoc in H3. split_and!; [done..|congruence|done].
  - destruct (poke_pending buf (S i) ptr c t Hpt ltac:(lia)) as (b1 & -> & Hp1 & Hl1 & Ht1).
    cbn [mbind res_bind].
    destruct (IH t q b1 (S i) (S ptr) Ht Hp1 ltac:(lia) ltac:(lia))
      as (buf' & i' & q' & -> & H1 & H2 & H3 & H4 & H5).
    destruct (word t q) as [w r]. cbn [fst snd length] in *. exists buf', i', q'.
    rewrite Nat.add_succ_r. rewrite Ht1, <- app_assoc in H3. split_and!; [done..|congruence|done].
Qed.

(** The NUL after a word, which may be the one at the end of the buffer. *)
Lemma poke_nul buf i ptr rest : pending buf i rest -> (ptr <= i)%nat -> (rest <> [] -> ptr < i)%nat ->
  exists buf', poke buf ptr NUL = Ok buf' /\ pending buf' i rest /\ length buf' = length buf /\
    take (S ptr) buf' = take ptr buf ++ [NUL].
Proof.
  intros H Hp Hne. destruct (decide (ptr < i)%nat) as [|Hge]; [by apply poke_pending|].
  destruct rest as [|c t]; [|exfalso; apply Hge, Hne; done]. assert (ptr = i) as -> by lia.
  pose proof (pending_nil _ _ H) as Hn. unfold peek in Hn. apply deref_Ok in Hn.
  pose proof (lookup_lt_Some _ _ _ Hn). unfold poke. rewrite decide_True by done. exists buf.
  rewrite list_insert_id by done. split_and!; try done. by apply take_S_r.
Qed.

(** The words as they lie in the buffer, and where they start. *)
Definition stored (ws : list cstr) : list ascii := ws ≫= (fun w => w ++ [NUL]).
Fixpoint starts (ptr : nat) (ws : list cstr) : list nat :=
  match ws with [] => [] | w :: ws => ptr :: starts (ptr + S (length w)) ws end.

Lemma tokens_blanks s : nul_free s -> tokens (blanks s) = tokens s.
Proof.
  intros Hs. unfold tokens. destruct (blanks_spec s) as (_ & _ & _ & Hb).
  assert (blanks (blanks s) = blanks s) as ->.
  { destruct Hb as [->|(c & t & -> & Hc)]; [done|]. rewrite blanks_cons. by case_decide. }
  symmetry. apply tokens_from_more; [by apply blanks_nul_free|done|apply blanks_length].
Qed.

(** One word: the characters are moved to the front and the blanks after it skipped. *)
Lemma store_word c t buf i ptr : nul_free (c :: t) -> c <> BLANK -> pending buf i (c :: t) ->
  (ptr <= i)%nat ->
  let '(w, r) := word (c :: t) false in
  exists b1 i1 q1 i2 b2,
    scan_word (S (length buf)) buf i ptr false = Ok (b1, i1, (ptr + length w)%nat, q1) /\
    skip_blanks (S (length b1)) b1 i1 = Ok i2 /\ poke b1 (ptr + length w) NUL = Ok b2 /\
    pending b2 i2 (blanks r) /\ length b2 = length buf /\
    take (S (ptr + length w)) b2 = take ptr buf ++ w ++ [NUL] /\
    (blanks r <> [] -> q1 = false /\ (S (ptr + length w) <= i2)%nat).
Proof.
  intros Hs Hc H Hp. pose proof (pending_length _ _ _ H) as Hlen.
  destruct (scan_word_Ok (S (length buf)) (c :: t) false buf i ptr Hs H Hp ltac:(lia))
    as (b1 & i1 & q1 & Hscan & Hp1 & Hle1 & Ht1 & Hl1 & Hq1).
  destruct (word_spec (c :: t) false Hs) as (_ & Hr & _ & Hcase).
  destruct (word (c :: t) false) as [w r]. cbn [fst snd] in *.
  destruct (skip_blanks_Ok (S (length b1)) b1 i1 r Hp1) as (i2 & Hskip & Hp2 & Hi2).
  { rewrite (pending_length _ _ _ Hp1). lia. }
  assert (r <> [] -> (ptr + length w < i2)%nat) as Hlt.
  { intros Hne. destruct Hcase as [->|[r' ->]]; [done|]. pose proof (blanks_length r') as Hbl'.
    rewrite blanks_cons, decide_True in Hi2 by done. cbn [length] in Hi2. lia. }
  assert (blanks r <> [] -> r <> []) as Hne by (by intros Hb ->).
  destruct (poke_nul b1 i2 (ptr + length w) (blanks r) Hp2) as (b2 & Hpoke & Hp3 & Hl2 & Ht2);
    [lia|by intros ?%Hne%Hlt|].
  exists b1, i1, q1, i2, b2. split_and!; try done; [congruence| |].
  - rewrite Ht2, Ht1, <- app_assoc. done.
  - intros Hb. split; [by apply Hq1, Hne|]. specialize (Hlt (Hne Hb)). lia.
Qed.

(** When nothing is left to read, neither [ptr] nor the quotes matter. *)
Lemma split_words_Ok fuel : forall s buf i ptr q words mx, nul_free s -> pending buf i s ->
  (s <> [] -> q = false /\ (ptr <= i)%nat) ->
  (s = [] \/ exists c t, s = c :: t /\ c <> BLANK) ->
  (length s < fuel)%nat -> (length words <= mx)%nat -> (0 < mx)%nat ->
  exists buf' mx', split_words fuel buf i ptr q words mx
    = Ok (buf', words ++ starts ptr (tokens s), mx') /\ length buf' = length buf /\
    take (ptr + length (stored (tokens s))) buf' = take ptr buf ++ stored (tokens s) /\
    (length (words ++ starts ptr (tokens s)) <= mx')%nat /\ (0 < mx')%nat.
Proof.
  induction fuel as [|fuel IH]; intros s buf i ptr q words mx Hs H Hq Hb Hl Hmx H0; [lia|].
  cbn [split_words]. destruct Hb as [->|(c & t & -> & Hc)].
  { rewrite (pending_nil _ _ H). cbn [mbind res_bind]. rewrite decide_True by done.
    exists buf, mx. cbn. rewrite !app_nil_r, Nat.add_0_r. done. }
  destruct (Hq ltac:(done)) as [-> Hp]. pose proof (proj1 (nul_free_cons _ _) Hs) as [Hc0 _].
  destruct (pending_cons _ _ _ _ H) as [-> _]. cbn [mbind res_bind]. rewrite decide_False by done.
  set (mx1 := if decide _ then _ else mx).
  assert (length words < mx1)%nat by (unfold mx1; case_decide; lia).
  rewrite decide_True by done. pose proof (word_progress c t Hs Hc) as Hpr.
  assert (blanks (c :: t) = c :: t) as Hbl by (rewrite blanks_cons; by case_decide).
  rewrite (tokens_cons (c :: t) c t Hs Hbl).
  destruct (word_spec (c :: t) false Hs) as (_ & Hr & _).
  pose proof (store_word c t buf i ptr Hs Hc H Hp) as Hst.
  destruct (word (c :: t) false) as [w r]. cbn [fst snd] in *.
  destruct Hst as (b1 & i1 & q1 & i2 & b2 & -> & Hskip & Hpoke & Hp2 & Hl2 & Ht2 & Hq2).
  cbn [mbind res_bind]. rewrite Hskip. cbn [mbind res_bind]. rewrite Hpoke. cbn [mbind res_bind].
  destruct (IH (blanks r) b2 i2 (S (ptr + length w)) q1 (words ++ [ptr]) mx1)
    as (buf' & mx' & -> & Hl3 & Ht3 & Hm3 & Hm0); try done.
  { by apply blanks_nul_free. }
  { by destruct (blanks_spec r) as (_ & _ & _ & ?). }
  { cbn in *. lia. }
  { rewrite length_app. cbn. lia. }
  { lia. }
  rewrite tokens_blanks in * by done. exists buf', mx'. cbn [starts stored mbind list_bind].
  rewrite <- app_assoc in *. cbn [app] in *. fold (stored (tokens r)). rewrite Nat.add_succ_r.
  split_and!; [done|congruence| |done|done].
  rewrite !length_app. cbn [length]. rewrite Ht2 in Ht3.
  replace (ptr + (length w + 1 + length (stored (tokens r))))%nat
    with (S (ptr + length w) + length (stored (tokens r)))%nat by lia.
  rewrite Ht3, <- !app_assoc. done.
Qed.

Lemma starts_strings ws pre post : Forall nul_free ws ->
  string_at (pre ++ stored ws ++ post) <$> starts (length pre) ws = ws.
Proof.
  revert pre. induction ws as [|w ws IH]; intros pre Hw; [done|]. inversion_clear Hw.
  cbn [starts stored mbind list_bind fmap list_fmap]. fold (stored ws). f_equal.
  - unfold string_at. rewrite drop_app_length, <- !app_assoc. by apply until_nul_app.
  - replace (length pre + S (length w))%nat with (length (pre ++ w ++ [NUL]))
      by (rewrite !length_app; cbn; lia).
    replace (pre ++ ((w ++ [NUL]) ++ stored ws) ++ post)
      with ((pre ++ w ++ [NUL]) ++ stored ws ++ post) by (by rewrite <- !app_assoc).
    by apply IH.
Qed.

Lemma tokens_nul_free s : nul_free s -> Forall nul_free (tokens s).
Proof.
  induction s as [s IH] using (well_founded_induction (well_founded_ltof _ (@length ascii))).
  intros Hs. destruct (blanks s) as [|c t] eqn:Hb; [by rewrite tokens_nil|].
  rewrite (tokens_cons s c t Hs Hb). pose proof (blanks_nul_free s Hs) as Hn. rewrite Hb in Hn.
  destruct (word_spec (c :: t) false Hn) as (Hw & Hr & _). constructor; [done|].
  rewrite <- tokens_blanks by done. apply IH; [|by apply blanks_nul_free].
  unfold ltof. pose proof (blanks_length s) as Hl. rewrite Hb in Hl.
  destruct (blanks_spec s) as (_ & _ & _ & Hc). rewrite Hb in Hc.
  pose proof (word_progress c t Hn ltac:(naive_solver)). lia.
Qed.

Lemma parse_into_words_Ok mx command : nul_free command ->
  exists buf words mx', parse_into_words mx (command ++ [NUL]) = Ok (buf, words, mx') /\
    string_at buf <$> words = tokens command /\ length buf = S (length command) /\
    (length words <= mx')%nat.
Proof.
  intros Hs. unfold parse_into_words. set (buf := command ++ [NUL]). set (mx0 := if decide _ then _ else _).
  assert (0 < mx0)%nat by (unfold mx0; case_decide; lia).
  assert (Hp : pending buf 0 command) by done.
  destruct (skip_blanks_Ok (S (length buf)) buf 0 command Hp) as (i & -> & Hpi & _).
  { unfold buf. rewrite length_app. lia. }
  cbn [mbind res_bind].
  destruct (split_words_Ok (S (length buf)) (blanks command) buf i 0 false [] mx0)
    as (buf' & mx' & -> & Hl & Ht & Hm & _).
  { by apply blanks_nul_free. } { done. } { intros; split; [done|lia]. }
  { by destruct (blanks_spec command) as (_ & _ & _ & ?). }
  { unfold buf. rewrite length_app. pose proof (blanks_length command). lia. }
  { cbn; lia. } { done. }
  rewrite tokens_blanks in * by done. exists buf', (starts 0 (tokens command)), mx'.
  split_and!; [done| |rewrite Hl; unfold buf; rewrite length_app; cbn; lia|done].
  rewrite <- (take_drop (0 + length (stored (tokens command))) buf'), Ht.
  apply (starts_strings (tokens command) []). by apply tokens_nul_free.
Qed.

Lemma argv_of_Ok mx command : nul_free command ->
  exists mx', argv_of mx command = Ok (tokens command, mx').
Proof.
  intros Hs. destruct (parse_into_words_Ok mx command Hs) as (buf & ws & mx' & H & Hw & _).
  exists mx'. unfold argv_of. rewrite H. cbn [mbind res_bind]. by rewrite Hw.
Qed.

(** ** Spelling words *)

(** A word can be typed as it is, if nothing in it is special, or between quotes. *)
Definition special (c : ascii) : bool :=
  bool_decide (c = BLANK \/ c = QUOTE \/ c = BACKSLASH).
Definition escape_char (c : ascii) : cstr :=
  if bool_decide (c = QUOTE \/ c = BACKSLASH) then [BACKSLASH; c] else [c].
Definition quoted (w : cstr) : cstr := QUOTE :: (w ≫= escape_char) ++ [QUOTE].

Inductive spells : cstr -> cstr -> Prop :=
  | spells_plain w : w <> [] -> Forall (fun c => special c = false) w -> spells w w
  | spells_quoted w : spells (quoted w) w.

(** After a word: the end, or a blank. *)
Definition word_end (r : cstr) : Prop := r = [] \/ exists t, r = BLANK :: t.

Lemma word_at_end r : word_end r -> word r false = ([], r).
Proof. intros [->|[t ->]]; done. Qed.

Lemma word_plain w r : Forall (fun c => special c = false) w -> word_end r ->
  word (w ++ r) false = (w, r).
Proof.
  intros Hw Hr. induction w as [|c w IH]; [by apply word_at_end|]. inversion_clear Hw as [|? ? Hc Hw'].
  unfold special in Hc. apply bool_decide_eq_false in Hc. cbn [app word negb].
  rewrite bool_decide_eq_false_2 by tauto. cbn [andb]. rewrite !decide_False by tauto.
  by rewrite IH.
Qed.

Lemma word_escaped w s : word ((w ≫= escape_char) ++ s) true = (w ++ (word s true).1, (word s true).2).
Proof.
  induction w as [|c w IH]; [cbn [mbind list_bind app]; apply surjective_pairing|].
  cbn [mbind list_bind]. fold (mbind (M:=list) escape_char). unfold escape_char at 1.
  destruct (decide (c = QUOTE \/ c = BACKSLASH)) as [Hc|Hc].
  - rewrite bool_decide_eq_true_2 by done. cbn [app]. cbn [word negb andb].
    rewrite decide_False, decide_True by done. cbn in IH. by rewrite IH.
  - rewrite bool_decide_eq_false_2 by done. cbn [app]. cbn [word negb andb].
    rewrite !decide_False by tauto. cbn in IH. by rewrite IH.
Qed.

Lemma word_spelled s w r : spells s w -> word_end r -> word (s ++ r) false = (w, r).
Proof.
  intros [w' Hne Hw|w'] Hr; [by apply word_plain|]. unfold quoted. cbn [app].
  cbn [word negb]. rewrite bool_decide_eq_false_2 by done. cbn [andb].
  rewrite decide_True by done. rewrite <- app_assoc, word_escaped. cbn [app].
  assert (word (QUOTE :: r) true = ([], r)) as ->.
  { cbn [word negb andb]. rewrite decide_True by done. by apply word_at_end. }
  cbn. by rewrite app_nil_r.
Qed.

Lemma spells_head s w : spells s w -> exists c t, s = c :: t /\ c <> BLANK.
Proof.
  intros [w' Hne Hw|w']; [|by exists QUOTE, ((w' ≫= escape_char) ++ [QUOTE])].
  destruct w' as [|c t]; [done|]. exists c, t. split; [done|]. intros ->.
  inversion_clear Hw as [|? ? Hc _]. by vm_compute in Hc.
Qed.

Lemma quoted_nul_free w : nul_free w -> nul_free (quoted w).
Proof.
  intros Hw. apply nul_free_cons. split; [done|]. apply nul_free_app. split.
  - induction w as [|c w IH]; [constructor|]. apply nul_free_cons in Hw as [Hc Hw].
    cbn [mbind list_bind]. apply nul_free_app. split; [|by apply IH].
    unfold escape_char. case_bool_decide;
      repeat (apply nul_free_cons; split; [done|]); constructor.
  - apply nul_free_cons. split; [done|constructor].
Qed.

Lemma spells_nul_free s w : spells s w -> nul_free w -> nul_free s.
Proof. intros [w' _ _|w'] Hw; [done|by apply quoted_nul_free]. Qed.

Lemma tokens_spelled ss ws : Forall2 spells ss ws -> Forall nul_free ws ->
  tokens (build_string ss) = ws /\ nul_free (build_string ss).
Proof.
  intros H. induction H as [|s w ss ws Hs H IH]; intros Hn; [split; [done|constructor]|].
  inversion_clear Hn as [|? ? Hw Hws]. destruct (IH Hws) as [IHt IHn].
  pose proof (spells_nul_free s w Hs Hw) as Hsn. destruct (spells_head s w Hs) as (c & t & Es & Hc).
  set (r := match ss with [] => [] | _ => BLANK :: build_string ss end).
  assert (build_string (s :: ss) = s ++ r) as ->.
  { unfold r. destruct ss; [by rewrite app_nil_r|done]. }
  assert (Hr : word_end r) by (unfold r; destruct ss; [by left|right; eauto]).
  assert (Hrn : nul_free r).
  { unfold r. destruct ss; [constructor|]. apply nul_free_cons. by split. }
  assert (Hall : nul_free (s ++ r)) by (by apply nul_free_app). split; [|done].
  rewrite (tokens_cons (s ++ r) c (t ++ r)); [|done|].
  - replace (c :: t ++ r) with (s ++ r) by (by rewrite Es). rewrite (word_spelled s w r Hs Hr).
    cbn [fst snd]. f_equal. rewrite <- tokens_blanks by done. unfold r.
    destruct H; [done|]. rewrite blanks_cons, decide_True by done. by rewrite tokens_blanks.
  - rewrite Es. cbn [app]. rewrite blanks_cons. by case_decide.
Qed.

(** ** Properties *)

(** C34: The in-place tokenizer always ends, never reads or writes outside of the buffer it is
    given nor of its array of words, which it grows as needed, and the strings it leaves in
    the buffer are the words of the line as the functional tokenizer defines them. *)
Theorem parse_into_words_correct mx command : nul_free command ->
  exists buf words mx', parse_into_words mx (command ++ [NUL]) = Ok (buf, words, mx') /\
    string_at buf <$> words = tokens command /\ length buf = S (length command) /\
    (length words <= mx')%nat.
Proof. apply parse_into_words_Ok. Qed.

Lemma parse_into_words_correct_witness : exists buf words mx',
  parse_into_words 1 (lit " put 'a b' \c in" ++ [NUL]) = Ok (buf, words, mx') /\
  string_at buf <$> words = [lit "put"; lit "'a"; lit "b'"; lit "c"; lit "in"].
Proof.
  destruct (parse_into_words_correct 1 (lit " put 'a b' \c in")) as (buf & words & mx' & H & Hs & _).
  - apply (bool_decide_unpack _). vm_compute. exact I.
  - exists buf, words, mx'. split; [exact H|]. rewrite Hs. vm_compute. reflexivity.
Defined.

(** Every list of words can be typed: whichever words are quoted (with backslashes before
    quotes and backslashes) and whichever plain ones are not, parsing the line that
    [build_string] makes of the spellings gives the words back, empty ones included. *)
Theorem words_roundtrip mx ss ws : Forall2 spells ss ws -> Forall nul_free ws ->
  exists mx', parse_into_wordlist mx (build_string ss) = Ok (List (Str <$> ws), mx').
Proof.
  intros H Hn. destruct (tokens_spelled ss ws H Hn) as [Ht Hs].
  destruct (argv_of_Ok mx _ Hs) as [mx' Ha]. exists mx'. unfold parse_into_wordlist.
  rewrite Ha. cbn [mbind res_bind]. by rewrite Ht.
Qed.

Lemma words_roundtrip_witness : exists mx',
  parse_into_wordlist 0 (build_string [lit "give"; quoted []; quoted (QUOTE :: lit "x y\")])
  = Ok (List [Str (lit "give"); Str []; Str (QUOTE :: lit "x y\")], mx').
Proof.
  apply (words_roundtrip 0 _ [lit "give"; []; QUOTE :: lit "x y\"]).
  - repeat constructor; try discriminate.
  - apply (bool_decide_unpack _). vm_compute. exact I.
Defined.
