(* ===== verification/Preps.v ===== *)
(** * Prepositions (src/db_verbs.c)

    The table of prepositional phrases, and finding a phrase among the words of a
    command. *)

From Stdlib Require Import Btauto.
From S2P Require Import Prelude CStrings Values Libc Words.

Open Scope Z_scope.

(** ** The table *)

Definition MAXPPHRASE : nat := 3.

Definition prep_list : list cstr :=
  [lit "with/using"; lit "at/to"; lit "in front of"; lit "in/inside/into";
   lit "on top of/on/onto/upon"; lit "out of/from inside/from"; lit "over"; lit "through";
   lit "under/underneath/beneath"; lit "behind"; lit "beside"; lit "for/about"; lit "is";
   lit "as"; lit "off/off of"].
Definition NPREPS : Z := Z.of_nat (length prep_list).

(** [pt_entry]: the words of one phrase, at most [MAXPPHRASE]. *)
Definition pt_entry : Type := list cstr.

Definition SLASH : ascii := chr 47.

(** [while ( *p && *p != '/') *t++ = *p++;] *)
Fixpoint span_slash (p : cstr) : cstr * cstr :=
  match p with
  | [] => ([], [])
  | c :: p' => if decide (c = SLASH) then ([], p)
               else let '(t, r) := span_slash p' in (c :: t, r)
  end.

(** The phrases of one preposition.  [cprep] has room for 100 bytes, an entry for
    [MAXPPHRASE] words. *)
Fixpoint build_aliases (fuel : nat) (mx : nat) (p : cstr) : res (list pt_entry * nat) :=
  match p with
  | [] => Ok ([], mx)
  | c :: p' =>
      match fuel with
      | O => Fail OutOfFuel
      | S fuel =>
          let '(cprep, p) := span_slash (if decide (c = SLASH) then p' else p) in
          if decide (100 <= length cprep)%nat then Fail Segv
          else
            '(words, mx) ← argv_of mx cprep;
            if decide (MAXPPHRASE < length words)%nat then Fail Segv
            else
              '(rest, mx) ← build_aliases fuel mx p;
              Ok (words :: rest, mx)
      end
  end.

Fixpoint build_table (mx : nat) (preps : list cstr) : res (list (list pt_entry) * nat) :=
  match preps with
  | [] => Ok ([], mx)
  | p :: preps =>
      '(aliases, mx) ← build_aliases (length p) mx p;
      '(rest, mx) ← build_table mx preps;
      Ok (aliases :: rest, mx)
  end.
Definition dbpriv_build_prep_table : res (list (list pt_entry) * nat) := build_table 0 prep_list.

(** What [dbpriv_build_prep_table] leaves in [prep_table]. *)
Definition prep_table : list (list pt_entry) :=
  match dbpriv_build_prep_table with Ok (t, _) => t | Fail _ => [] end.

(** ** Finding a phrase *)

Definition PREP_ANY : Z := -2.
Definition PREP_NONE : Z := -1.

(** [for (k = 0; k < alias->nwords; k++) ...] *)
Fixpoint phrase_at (argv : list cstr) (alias : pt_entry) {struct alias} : bool :=
  match alias, argv with
  | [], _ => true
  | w :: alias, a :: argv => (mystrcasecmp a w =? 0) && phrase_at argv alias
  | _ :: _, [] => false
  end.

(** The loops over [j] and [alias], on the words from [i] on. *)
Definition alias_matches (exact : bool) (argv : list cstr) (alias : pt_entry) : bool :=
  bool_decide (length alias <= length argv)%nat && phrase_at argv alias
  && (negb exact || bool_decide (length alias = length argv)).

Fixpoint find_phrase (exact : bool) (argv : list cstr) (table : list (list pt_entry)) (j : Z)
    : option (Z * nat) :=
  match table with
  | [] => None
  | aliases :: table =>
      match List.find (alias_matches exact argv) aliases with
      | Some alias => Some (j, length alias)
      | None => find_phrase exact argv table (j + 1)
      end
  end.

(** [exact] is [first == 0 || last == 0]; otherwise the positions of the phrase are
    answered. *)
Fixpoint find_prep_from (exact : bool) (argv : list cstr) (i : nat) : Z * option (nat * nat) :=
  match argv with
  | [] => (PREP_NONE, None)
  | _ :: argv' =>
      match find_phrase exact argv prep_table 0 with
      | Some (j, n) => (j, if exact then None else Some (i, (i + n - 1)%nat))
      | None => if exact then (PREP_NONE, None) else find_prep_from exact argv' (S i)
      end
  end.
Definition db_find_prep (exact : bool) (argv : list cstr) : Z * option (nat * nat) :=
  find_prep_from exact argv 0.

(** ** Matching and printing a specification *)

Definition HASH : ascii := chr 35.
Definition isdigit (c : Z) : bool := (48 <=? c) && (c <=? 57).

(** [free_str(s)], [moved] saying that [s] no longer points to the start of the copy. *)
Definition free_copy (moved : bool) : res unit := if moved then Fail Undefined else Ok tt.

(** An [enum] compared with an unsigned [NPREPS]. *)
Definition db_match_prep (mx : nat) (prepname : cstr) : res (Z * nat) :=
  let moved := bool_decide (head prepname = Some HASH) in
  let s := if moved then tail prepname else prepname in
  let '(num, rest) := strtoimax s in
  let prep := wrap32 num in
  match rest with
  | [] =>
      _ ← free_copy moved;
      Ok (if negb (isdigit (cur s)) || (prep mod 2 ^ 64 >=? NPREPS) then PREP_NONE else prep, mx)
  | _ =>
      '(argv, mx) ← argv_of mx (span_slash s).1;
      _ ← free_copy moved;
      Ok ((db_find_prep true argv).1, mx)
  end.

Definition db_unparse_prep (prep : Z) : res cstr :=
  if prep =? PREP_NONE then Ok (lit "none")
  else if prep =? PREP_ANY then Ok (lit "any")
  else if prep <? 0 then Fail Segv else deref (prep_list !! Z.to_nat prep).

(** ** What a search finds *)

(** [argv] starts with a phrase of preposition [j]. *)
Definition starts_with (argv : list cstr) (alias : pt_entry) : Prop :=
  exists ws rest, argv = ws ++ rest /\ Forall2 ci_eq ws alias.
Definition phrase_of (j : Z) (alias : pt_entry) : Prop :=
  0 <= j /\ exists aliases, prep_table !! Z.to_nat j = Some aliases /\ alias ∈ aliases.

Lemma table_eq : dbpriv_build_prep_table = Ok (prep_table, 50%nat).
Proof. vm_compute. reflexivity. Qed.

(** Every phrase has words, and they are C strings. *)
Definition phrase_ok (alias : pt_entry) : bool :=
  forallb (fun w => bool_decide (nul_free w)) alias && bool_decide (alias <> []).

Lemma forallb_elem {A} (f : A -> bool) xs x : forallb f xs = true -> x ∈ xs -> f x = true.
Proof. rewrite forallb_forall. intros H Hx. by apply H, list_elem_of_In. Qed.

Lemma table_phrases : forallb (forallb phrase_ok) prep_table = true.
Proof. vm_compute. reflexivity. Qed.

#[local] Opaque prep_table.

Lemma phrase_words j alias : phrase_of j alias -> Forall nul_free alias /\ alias <> [].
Proof.
  intros (_ & aliases & Hj & Ha). apply list_elem_of_lookup_2 in Hj.
  pose proof (forallb_elem _ _ _ (forallb_elem _ _ _ table_phrases Hj) Ha) as H.
  apply andb_true_iff in H as [H Hne]. apply bool_decide_eq_true in Hne. split; [|done].
  apply Forall_forall. intros w Hw.
  exact (proj1 (bool_decide_eq_true _) (forallb_elem _ _ _ H Hw)).
Qed.

Lemma phrase_at_spec argv alias : Forall nul_free argv -> Forall nul_free alias ->
  phrase_at argv alias = true <-> starts_with argv alias.
Proof.
  revert argv. induction alias as [|w alias IH]; intros argv Ha Hw.
  { split; [|done]. intros _. exists [], argv. by split; [|constructor]. }
  inversion_clear Hw as [|? ? Hw0 Hws]. destruct argv as [|a argv]; cbn [phrase_at].
  { split; [done|]. intros (ws & rest & He & H). destruct ws; [|done]. inversion H. }
  inversion_clear Ha as [|? ? Ha0 Has].
  rewrite andb_true_iff, Z.eqb_eq, mystrcasecmp_zero, IH by done. split.
  - intros (Hc & ws & rest & -> & H). exists (a :: ws), rest. split; [done|by constructor].
  - intros (ws & rest & He & H). inversion H as [|a' ? ws' ? H1 H2]; subst. injection He as -> ->.
    split; [done|]. by exists ws', rest.
Qed.

Lemma starts_with_length argv alias : starts_with argv alias -> (length alias <= length argv)%nat.
Proof.
  intros (ws & rest & -> & H). rewrite length_app, <- (Forall2_length _ _ _ H). lia.
Qed.

Definition found (exact : bool) (argv : list cstr) (alias : pt_entry) : Prop :=
  starts_with argv alias /\ (exact = true -> length alias = length argv).

Lemma alias_matches_spec exact argv alias : Forall nul_free argv -> Forall nul_free alias ->
  alias_matches exact argv alias = true <-> found exact argv alias.
Proof.
  intros Ha Hw. unfold alias_matches, found.
  rewrite !andb_true_iff, bool_decide_eq_true, phrase_at_spec, orb_true_iff, negb_true_iff,
    bool_decide_eq_true by done.
  split.
  - intros [[_ H] Hor]. split; [done|]. intros ->. by destruct Hor.
  - intros [H He]. pose proof (starts_with_length _ _ H). destruct exact; [|tauto].
    split; [tauto|]. right. by apply He.
Qed.

Lemma find_None {A} (f : A -> bool) xs : List.find f xs = None -> forall x, x ∈ xs -> f x = false.
Proof. intros H x Hx. apply (List.find_none f xs H). by apply list_elem_of_In. Qed.

(** The first preposition with a phrase at the front. *)
Lemma find_phrase_spec exact argv table j0 : Forall nul_free argv ->
  Forall (Forall (Forall nul_free)) table ->
  match find_phrase exact argv table j0 with
  | Some (j, n) => j0 <= j /\ exists aliases alias, table !! Z.to_nat (j - j0) = Some aliases /\
      alias ∈ aliases /\ n = length alias /\ found exact argv alias /\
      forall j' aliases' alias', j0 <= j' < j -> table !! Z.to_nat (j' - j0) = Some aliases' ->
        alias' ∈ aliases' -> ~ found exact argv alias'
  | None => forall aliases alias, aliases ∈ table -> alias ∈ aliases -> ~ found exact argv alias
  end.
Proof.
  intros Ha. revert j0. induction table as [|al table IH]; intros j0 Ht; cbn [find_phrase]; [set_solver|].
  inversion_clear Ht as [|? ? Hal Htab]. destruct (List.find (alias_matches exact argv) al) as [alias|] eqn:E.
  - apply List.find_some in E as [Hin E]. apply list_elem_of_In in Hin.
    apply alias_matches_spec in E; [|done|exact (proj1 (Forall_forall _ _) Hal alias Hin)].
    split; [lia|]. exists al, alias. rewrite Z.sub_diag. split_and!; try done. intros; lia.
  - assert (Hno : forall alias, alias ∈ al -> ~ found exact argv alias).
    { intros alias Hin Hf. pose proof (find_None _ _ E alias Hin) as Hm.
      apply alias_matches_spec in Hf; [congruence|done|exact (proj1 (Forall_forall _ _) Hal alias Hin)]. }
    specialize (IH (j0 + 1) Htab). destruct (find_phrase exact argv table (j0 + 1)) as [[j n]|].
    + destruct IH as (Hj & aliases & alias & Hl & Hin & Hn & Hf & Hmin). split; [lia|].
      exists aliases, alias. replace (Z.to_nat (j - j0)) with (S (Z.to_nat (j - (j0 + 1)))) by lia.
      split_and!; try done. intros j' aliases' alias' Hj' Hl' Hin'.
      destruct (decide (j' = j0)) as [->|].
      * rewrite Z.sub_diag in Hl'. injection Hl' as ->. by apply Hno.
      * replace (Z.to_nat (j' - j0)) with (S (Z.to_nat (j' - (j0 + 1)))) in Hl' by lia.
        apply (Hmin j' aliases'); [lia|done|done].
    + intros aliases alias [->|Hin]%elem_of_cons; [apply Hno|by apply IH].
Qed.

Lemma table_nul_free : Forall (Forall (Forall nul_free)) prep_table.
Proof.
  apply Forall_lookup. intros i aliases Hi. apply Forall_forall. intros alias Ha.
  refine (proj1 (phrase_words (Z.of_nat i) alias (conj (Nat2Z.is_nonneg i) (ex_intro _ aliases _)))).
  rewrite Nat2Z.id. exact (conj Hi Ha).
Qed.

(** A search at one position. *)
Lemma find_here exact argv : Forall nul_free argv ->
  match find_phrase exact argv prep_table 0 with
  | Some (j, n) => exists alias, phrase_of j alias /\ n = length alias /\ found exact argv alias /\
      forall j' alias', j' < j -> phrase_of j' alias' -> ~ found exact argv alias'
  | None => forall j alias, phrase_of j alias -> ~ found exact argv alias
  end.
Proof.
  intros Ha. pose proof (find_phrase_spec exact argv prep_table 0 Ha table_nul_free) as H.
  destruct (find_phrase exact argv prep_table 0) as [[j n]|].
  - destruct H as (Hj & aliases & alias & Hl & Hin & Hn & Hf & Hmin). rewrite Z.sub_0_r in Hl.
    exists alias. split_and!; [by split; [|eauto]|done|done|].
    intros j' alias' Hj' (H0 & al' & Hl' & Hin'). apply (Hmin j' al'); [lia|by rewrite Z.sub_0_r|done].
  - intros j alias (_ & aliases & Hl & Hin). apply (H aliases); [|done].
    by eapply list_elem_of_lookup_2.
Qed.

Lemma find_prep_from_spec argv i : Forall nul_free argv ->
  match find_prep_from false argv i with
  | (j, Some (a, b)) => (i <= a)%nat /\ exists alias, phrase_of j alias /\
      b = (a + length alias - 1)%nat /\ starts_with (drop (a - i) argv) alias /\
      (forall j' alias', j' < j -> phrase_of j' alias' -> ~ starts_with (drop (a - i) argv) alias') /\
      (forall k j' alias', (i <= k < a)%nat -> phrase_of j' alias' ->
         ~ starts_with (drop (k - i) argv) alias')
  | (j, None) => j = PREP_NONE /\ forall k j' alias', phrase_of j' alias' ->
      ~ starts_with (drop k argv) alias'
  end.
Proof.
  revert i. induction argv as [|w argv IH]; intros i Ha.
  { cbn. split; [done|]. intros k j' alias' Hp Hs. destruct (phrase_words _ _ Hp) as [_ Hne].
    apply starts_with_length in Hs. rewrite drop_nil in Hs. destruct alias'; [done|cbn in Hs; lia]. }
  cbn [find_prep_from]. pose proof (find_here false (w :: argv) Ha) as H.
  destruct (find_phrase false (w :: argv) prep_table 0) as [[j n]|].
  - destruct H as (alias & Hp & -> & [Hf _] & Hmin). split; [lia|]. exists alias.
    rewrite Nat.sub_diag. split_and!; try done; [|intros; lia].
    intros j' alias' Hj' Hp' Hs. apply (Hmin j' alias' Hj' Hp'). by split.
  - inversion_clear Ha as [|? ? Hw Hws]. specialize (IH (S i) Hws).
    assert (Hno : forall j' alias', phrase_of j' alias' -> ~ starts_with (w :: argv) alias').
    { intros j' alias' Hp Hs. apply (H j' alias' Hp). by split. }
    destruct (find_prep_from false argv (S i)) as [j [[a b]|]].
    + destruct IH as (Hle & alias & Hp & Hb & Hs & Hmin & Hfst). split; [lia|]. exists alias.
      replace (a - i)%nat with (S (a - S i)) by lia. cbn [drop]. split_and!; try done.
      intros k j' alias' Hk Hp'. destruct (decide (k = i)) as [->|].
      * rewrite Nat.sub_diag. by apply (Hno j').
      * replace (k - i)%nat with (S (k - S i)) by lia. apply (Hfst k j'); [lia|done].
    + destruct IH as [-> IH]. split; [done|]. intros [|k] j' alias' Hp; [by apply (Hno j')|].
      by apply (IH k j').
Qed.

(** Matching the whole sequence. *)
Lemma find_prep_exact argv : Forall nul_free argv ->
  let j := (db_find_prep true argv).1 in
  (j = PREP_NONE \/ exists alias, phrase_of j alias /\ Forall2 ci_eq argv alias) /\
  forall j' alias', phrase_of j' alias' -> Forall2 ci_eq argv alias' -> 0 <= j <= j'.
Proof.
  intros Ha. assert (Hall : forall alias, found true argv alias <-> Forall2 ci_eq argv alias).
  { intros alias. split.
    - intros [(ws & rest & -> & H) He]. specialize (He eq_refl). rewrite length_app in He.
      pose proof (Forall2_length _ _ _ H). destruct rest; [by rewrite app_nil_r|cbn in He; lia].
    - intros H. split; [|by intros; symmetry; eapply Forall2_length].
      exists argv, []. by rewrite app_nil_r. }
  unfold db_find_prep. destruct argv as [|w argv]; cbn [find_prep_from fst].
  { split; [by left|]. intros j' alias' Hp H. destruct (phrase_words _ _ Hp) as [_ Hne].
    by inversion H; subst. }
  pose proof (find_here true (w :: argv) Ha) as H.
  destruct (find_phrase true (w :: argv) prep_table 0) as [[j n]|]; cbn [fst].
  - destruct H as (alias & Hp & _ & Hf & Hmin). split; [right; exists alias; by rewrite <- Hall|].
    intros j' alias' Hp' H'. split; [apply Hp|].
    destruct (Z.le_gt_cases j j'); [done|]. destruct (Hmin j' alias'); [lia|done|by apply Hall].
  - split; [by left|]. intros j' alias' Hp' H'%Hall. by destruct (H j' alias').
Qed.

Lemma prep_range j alias : phrase_of j alias -> 0 <= j < NPREPS.
Proof.
  intros (H0 & aliases & Hj & _). apply lookup_lt_Some in Hj.
  assert (length prep_table = 15%nat) as Hl by (vm_compute; reflexivity).
  rewrite Hl in Hj. change NPREPS with 15. lia.
Qed.

(** No phrase names two prepositions. *)
Definition numbered : list (Z * pt_entry) :=
  concat (imap (fun i aliases => pair (Z.of_nat i) <$> aliases) prep_table).

Lemma numbered_elem j alias : phrase_of j alias -> (j, alias) ∈ numbered.
Proof.
  intros (H0 & aliases & Hj & Ha). 
  refine (proj2 (list_elem_of_In _ _) (proj2 (in_concat _ _) _)).
  exists (pair j <$> aliases). rewrite <- !list_elem_of_In. split.
  - apply elem_of_lookup_imap. exists (Z.to_nat j), aliases. rewrite Z2Nat.id by done.
    exact (conj eq_refl Hj).
  - by apply list_elem_of_fmap_2.
Qed.

Lemma numbered_unique : forallb (fun x => forallb (fun y =>
  if bool_decide (Forall2 ci_eq (snd x) (snd y)) then fst x =? fst y else true) numbered) numbered = true.
Proof. vm_compute. reflexivity. Qed.

Lemma phrase_unique j j' alias alias' : phrase_of j alias -> phrase_of j' alias' ->
  Forall2 ci_eq alias alias' -> j = j'.
Proof.
  intros Hj%numbered_elem Hj'%numbered_elem Hc.
  pose proof (forallb_elem _ _ _ (forallb_elem _ _ _ numbered_unique Hj) Hj') as H.
  cbn [fst snd] in H. rewrite bool_decide_eq_true_2 in H by done. by apply Z.eqb_eq.
Qed.

Lemma find_prep_phrase j alias argv : phrase_of j alias -> Forall nul_free argv ->
  Forall2 ci_eq argv alias -> (db_find_prep true argv).1 = j.
Proof.
  intros Hp Ha Hc. destruct (find_prep_exact argv Ha) as [Hex Hmin]. cbv zeta in *.
  pose proof (Hmin j alias Hp Hc) as [H0 _].
  destruct Hex as [E|(alias' & Hp' & Hc')]; [rewrite E in H0; unfold PREP_NONE in H0; lia|].
  apply (phrase_unique _ _ alias' alias Hp' Hp). transitivity argv; [by symmetry|done].
Qed.

Lemma span_slash_nul_free s : nul_free s -> nul_free (span_slash s).1.
Proof.
  induction s as [|c s IH]; [done|]. intros [Hc Hs]%nul_free_cons. cbn [span_slash].
  case_decide; [constructor|]. specialize (IH Hs). destruct (span_slash s) as [t r]. by apply nul_free_cons.
Qed.

(** A name that is not a number is matched by its words, up to the first slash. *)
Lemma db_match_prep_name mx s : nul_free s -> head s <> Some HASH -> (strtoimax s).2 <> [] ->
  exists mx', db_match_prep mx s = Ok ((db_find_prep true (tokens (span_slash s).1)).1, mx').
Proof.
  intros Hs Hh Hr. unfold db_match_prep. rewrite bool_decide_eq_false_2 by done.
  destruct (strtoimax s) as [num rest]. cbn [snd] in Hr. destruct rest as [|c rest]; [done|].
  destruct (argv_of_Ok mx (span_slash s).1) as [mx' ->]; [by apply span_slash_nul_free|].
  by exists mx'.
Qed.

Definition unparses (j : Z) : bool :=
  match db_unparse_prep j with
  | Ok s => bool_decide (nul_free s /\ head s <> Some HASH /\ (strtoimax s).2 <> [])
            && ((db_find_prep true (tokens (span_slash s).1)).1 =? j)
  | Fail _ => false
  end.
Lemma unparses_all : forallb unparses (seqZ 0 NPREPS) = true.
Proof. vm_compute. reflexivity. Qed.

Lemma print_int_cur n : int_range 32 n -> isdigit (cur (print_int n)) = (0 <=? n) /\
  head (print_int n) <> Some HASH.
Proof.
  intros Hn. unfold print_int. destruct (Z.ltb_spec n 0); [|].
  - cbn. destruct (Z.leb_spec 0 n); [lia|]. done.
  - destruct (dec_nat_head n ltac:(lia)) as (c & s & -> & Hc). destruct (Z.leb_spec 0 n); [|lia].
    unfold is_dec in Hc. rewrite cur_cons. unfold isdigit. split; [|intros [= ->]; vm_compute in Hc; intuition congruence].
    destruct (Z.leb_spec 48 (ord c)), (Z.leb_spec (ord c) 57); try done; lia.
Qed.

(** A phrase whose first word is another one does not match. *)
Lemma other_phrase w1 rest w a alias : nul_free w1 -> ci_eq w1 w -> bool_decide (nul_free a) = true ->
  bool_decide (ci_eq w a) = false -> alias_matches false (w1 :: rest) (a :: alias) = false.
Proof.
  intros Hw1 Hc Ha%bool_decide_eq_true Hno%bool_decide_eq_false.
  unfold alias_matches. cbn [phrase_at]. destruct (Z.eqb_spec (mystrcasecmp w1 a) 0) as [E|]; [|btauto].
  exfalso. apply Hno. apply mystrcasecmp_zero in E; [|done..]. by rewrite <- Hc.
Qed.

(** ** Properties *)

(** The search for a preposition answers the leftmost position at which a phrase of the
    table starts, up to case, and the least number of a preposition with a phrase there,
    with the positions of the phrase's first and last words; and none exactly when no phrase
    starts anywhere. *)
Theorem db_find_prep_correct argv : Forall nul_free argv ->
  match db_find_prep false argv with
  | (j, Some (a, b)) => exists alias, phrase_of j alias /\
      (a <= b < length argv)%nat /\ b = (a + length alias - 1)%nat /\
      starts_with (drop a argv) alias /\
      (forall j' alias', j' < j -> phrase_of j' alias' -> ~ starts_with (drop a argv) alias') /\
      (forall k j' alias', (k < a)%nat -> phrase_of j' alias' -> ~ starts_with (drop k argv) alias')
  | (j, None) => j = PREP_NONE /\
      forall k j' alias', phrase_of j' alias' -> ~ starts_with (drop k argv) alias'
  end.
Proof.
  intros Ha. unfold db_find_prep. pose proof (find_prep_from_spec argv 0 Ha) as H.
  destruct (find_prep_from false argv 0) as [j [[a b]|]]; [|done].
  destruct H as (_ & alias & Hp & -> & Hs & Hmin & Hfst). exists alias. rewrite Nat.sub_0_r in *.
  destruct (phrase_words _ _ Hp) as [_ Hne]. pose proof (starts_with_length _ _ Hs) as Hl.
  rewrite length_drop in Hl. assert (0 < length alias)%nat by (destruct alias; [done|cbn; lia]).
  split_and!; try done; [lia|lia|].
  intros k j' alias' Hk Hp'. specialize (Hfst k j' alias' ltac:(lia) Hp').
  by rewrite Nat.sub_0_r in Hfst.
Qed.

Lemma db_find_prep_correct_witness :
  db_find_prep false [lit "ball"; lit "IN"; lit "Front"; lit "of"; lit "me"] = (2, Some (1%nat, 3%nat)) /\
  starts_with (drop 1 [lit "ball"; lit "IN"; lit "Front"; lit "of"; lit "me"])
    [lit "in"; lit "front"; lit "of"].
Proof.
  pose proof (db_find_prep_correct [lit "ball"; lit "IN"; lit "Front"; lit "of"; lit "me"]
    ltac:(apply (bool_decide_unpack _); vm_compute; exact I)) as H.
  split; [vm_compute; reflexivity|].
  assert (E : db_find_prep false [lit "ball"; lit "IN"; lit "Front"; lit "of"; lit "me"]
    = (2, Some (1%nat, 3%nat))) by (vm_compute; reflexivity).
  rewrite E in H. destruct H as (alias & (_ & aliases & Ht & Hin) & _ & _ & Hs & _).
  assert (Et : prep_table !! Z.to_nat 2 = Some [[lit "in"; lit "front"; lit "of"]])
    by (vm_compute; reflexivity).
  injection (eq_trans (eq_sym Ht) Et) as ->. apply list_elem_of_singleton in Hin as ->. exact Hs.
Defined.


(** A phrase of the table, in any case, is matched as its preposition; printing a
    preposition and matching the text gives it back; a number is matched as itself if it is
    that of a preposition and as none otherwise.  A name that begins with a hash mark is not
    answered: the copy is freed through a pointer past its start. *)
Theorem db_match_prep_correct mx :
  (forall j alias argv, phrase_of j alias -> Forall nul_free argv -> Forall2 ci_eq argv alias ->
     (db_find_prep true argv).1 = j) /\
  (forall j, 0 <= j < NPREPS -> exists s mx',
     db_unparse_prep j = Ok s /\ db_match_prep mx s = Ok (j, mx')) /\
  (forall n, int_range 32 n ->
     db_match_prep mx (print_int n) = Ok (if decide (0 <= n < NPREPS) then n else PREP_NONE, mx)) /\
  (forall s, nul_free s -> db_match_prep mx (HASH :: s) = Fail Undefined).
Proof.
  split_and!.
  - intros j alias argv. apply find_prep_phrase.
  - intros j Hj. assert (Hu : unparses j = true).
    { apply (forallb_elem _ _ _ unparses_all). apply elem_of_seqZ. lia. }
    unfold unparses in Hu. destruct (db_unparse_prep j) as [s|]; [|done].
    apply andb_true_iff in Hu as [(Hs & Hh & Hr)%bool_decide_eq_true Hu%Z.eqb_eq].
    destruct (db_match_prep_name mx s Hs Hh Hr) as [mx' Hm]. rewrite Hu in Hm. eauto.
  - intros n Hn. destruct (print_int_cur n Hn) as [Hd Hh]. unfold db_match_prep.
    rewrite bool_decide_eq_false_2 by done. rewrite strtoimax_print.
    2: { unfold int_range in *. cbn in *. lia. }
    rewrite Hd. unfold wrap32. rewrite swrap_id by done. cbn [free_copy mbind res_bind].
    unfold int_range in Hn. cbn in Hn. f_equal. f_equal.
    destruct (Z.leb_spec 0 n); cbn [negb orb]; [|by rewrite decide_False by lia].
    rewrite Z.mod_small by (cbn; lia). destruct (Z.geb_spec n NPREPS); case_decide; done || lia.
  - intros s Hs. unfold db_match_prep. cbn [head]. rewrite bool_decide_eq_true_2 by done. cbn [tail].
    destruct (strtoimax s) as [num [|c rest]]; [done|].
    destruct (argv_of_Ok mx (span_slash s).1) as [mx' ->]; [by apply span_slash_nul_free|]. done.
Qed.

Lemma db_match_prep_correct_witness : exists mx',
  db_match_prep 50 (lit "on top of/on/onto/upon") = Ok (4, mx') /\
  db_match_prep 50 (print_int 4) = Ok (4, 50%nat).
Proof.
  destruct (db_match_prep_correct 50) as (_ & Hu & Hn & _).
  destruct (Hu 4) as (s & mx' & Hs & Hm); [vm_compute; split; [discriminate|reflexivity]|].
  vm_compute in Hs. injection Hs as <-. exists mx'. split; [exact Hm|].
  refine (Hn 4 _). vm_compute. split; [discriminate|reflexivity].
Defined.

(** The two-word phrase "off of" is in the table, but a command never matches it: the
    shorter "off" before it wins, and "of" is left to the indirect object. *)
Theorem off_of_unreachable w1 rest : ci_eq w1 (lit "off") -> nul_free w1 ->
  phrase_of 14 [lit "off"; lit "of"] /\ db_find_prep false (w1 :: rest) = (14, Some (0%nat, 0%nat)).
Proof.
  intros Hc Hn. split.
  { split; [done|]. exists [[lit "off"]; [lit "off"; lit "of"]]. split; [vm_compute; reflexivity|set_solver]. }
  unfold db_find_prep. cbn [find_prep_from].
  assert (Hoff : alias_matches false (w1 :: rest) [lit "off"] = true).
  { apply andb_true_iff. split; [|done]. apply andb_true_iff. split; [apply bool_decide_eq_true; cbn; lia|].
    cbn [phrase_at]. rewrite andb_true_r. apply Z.eqb_eq, mystrcasecmp_zero; [done| |done].
    apply (bool_decide_unpack _); vm_compute; exact I. }
  assert (E : exists t, prep_table = t) by eauto. destruct E as [t E]. rewrite E.
  vm_compute in E. subst t. cbn [find_phrase List.find].
  repeat (rewrite (other_phrase w1 rest (lit "off")); [|done|done|vm_compute; reflexivity..]).
  change [["o"%char; "f"%char; "f"%char]] with [lit "off"]. rewrite Hoff. reflexivity.
Qed.

Lemma off_of_unreachable_witness :
  db_find_prep false [lit "Off"; lit "of"; lit "table"] = (14, Some (0%nat, 0%nat)).
Proof.
  apply (off_of_unreachable (lit "Off") [lit "of"; lit "table"]).
  - vm_compute. reflexivity.
  - apply (bool_decide_unpack _). vm_compute. exact I.
Defined.
