(* ===== verification/Match.v ===== *)
(** * Finding the object that a word names (src/match.c)

    A name is looked for among the contents of the player and of its location, by exact
    matches with the names and aliases of objects, and failing that by prefixes. *)

From S2P Require Import Prelude CStrings Values Lists Libc Links Db Properties Layout Tables.
From S2P Require Import Objects Sample PropertyOps Words Preps.

Open Scope Z_scope.

(** The value of the property [aliases], if it is a list. *)
Definition aliases (d : db) (oid : Z) : res (list Var) :=
  r ← db_find_property d oid (lit "aliases");
  Ok match r with Some (_, List names) => names | _ => [] end.

(** The names that [match_proc] tries, in order: elements that are not strings are
    passed over. *)
Definition str_of (v : Var) : option cstr := match v with Str s => Some s | _ => None end.
Definition names_of (d : db) (oid : Z) : res (list cstr) :=
  names ← aliases d oid;
  n ← db_object_name d oid;
  Ok (n :: omap str_of names).

(** [struct match_data], as far as it changes: [exact] and [partial]. *)
Definition match_data : Type := Z * Z.

(** The loop of [match_proc]: it answers true to stop the enumeration. *)
Fixpoint match_names (name : cstr) (oid : Z) (names : list cstr) (md : match_data)
    : bool * match_data :=
  match names with
  | [] => (false, md)
  | n :: names =>
      let '(exact, partial) := md in
      if mystrncasecmp n name (Z.of_nat (length name)) =? 0 then
        if at_ n (length name) =? 0 then
          if (exact =? NOTHING) || (exact =? oid)
          then match_names name oid names (oid, partial)
          else (true, md)
        else
          match_names name oid names
            (exact, if (partial =? FAILED_MATCH) || (partial =? oid) then oid else AMBIGUOUS)
      else match_names name oid names md
  end.

Definition match_proc (d : db) (name : cstr) (md : match_data) (oid : Z)
    : res (bool * match_data) :=
  names ← names_of d oid;
  Ok (match_names name oid names md).

(** [db_for_all_contents(oid, match_proc, &d)]. *)
Fixpoint match_all (d : db) (name : cstr) (md : match_data) (oids : list Z)
    : res (bool * match_data) :=
  match oids with
  | [] => Ok (false, md)
  | oid :: oids =>
      '(stop, md) ← match_proc d name md oid;
      if (stop : bool) then Ok (true, md) else match_all d name md oids
  end.

(** The two steps of the loop of [match_contents]. *)
Fixpoint match_places (d : db) (name : cstr) (md : match_data) (places : list Z) : res Z :=
  match places with
  | [] =>
      let '(exact, partial) := md in
      Ok (if negb (exact =? NOTHING) then exact else partial)
  | oid :: places =>
      if negb (valid d oid) then match_places d name md places
      else
        cs ← contents_of d oid;
        '(stop, md) ← match_all d name md cs;
        if (stop : bool) then Ok AMBIGUOUS else match_places d name md places
  end.

Definition match_contents (d : db) (player : Z) (name : cstr) : res Z :=
  if negb (valid d player) then Ok FAILED_MATCH
  else
    loc ← db_object_location d player;
    match_places d name (NOTHING, FAILED_MATCH) [player; loc].

Definition match_object (d : db) (player : Z) (name : cstr) : res Z :=
  match name with
  | [] => Ok NOTHING
  | c :: num =>
      if decide (c = HASH) then
        let '(r, p) := strtoimax num in
        Ok (if negb (bool_decide (p = [])) || negb (valid d r) then FAILED_MATCH else r)
      else if negb (valid d player) then Ok FAILED_MATCH
      else if mystrcasecmp name (lit "me") =? 0 then Ok player
      else if mystrcasecmp name (lit "here") =? 0 then db_object_location d player
      else match_contents d player name
  end.

(** ** What a match answers *)

(** One object, or none, or several. *)
Inductive verdict (S : Z -> Prop) (failed : Z) : Z -> Prop :=
  | verdict_none : (forall x, ~ S x) -> verdict S failed failed
  | verdict_one x : S x -> (forall y, S y -> y = x) -> verdict S failed x
  | verdict_many x y : S x -> S y -> x <> y -> verdict S failed AMBIGUOUS.

(** A name is matched whole, or by its beginning. *)
Definition whole (name n : cstr) : Prop := ci_eq n name.
Definition beginning (name n : cstr) : Prop :=
  fold_case name `prefix_of` fold_case n /\ (length name < length n)%nat.

(** The pairs of an object and one of its names, in the order of the loops. *)
Definition hits (how : cstr -> Prop) (pairs : list (Z * cstr)) (x : Z) : Prop :=
  exists n, (x, n) ∈ pairs /\ how n.

(** The objects around the player: what is in it, and what is in its location. *)
Definition near (d : db) (player x : Z) : Prop :=
  exists loc place ks, db_object_location d player = Ok loc /\ place ∈ [player; loc] /\
    valid d place = true /\ contents_of d place = Ok ks /\ x ∈ ks.
Definition called (d : db) (player : Z) (how : cstr -> Prop) (x : Z) : Prop :=
  near d player x /\ exists names n, names_of d x = Ok names /\ n ∈ names /\ how n.

(** ** The loops as one pass over the pairs *)

Fixpoint run (name : cstr) (pairs : list (Z * cstr)) (md : match_data) : bool * match_data :=
  match pairs with
  | [] => (false, md)
  | (oid, n) :: pairs =>
      let '(stop, md) := match_names name oid [n] md in
      if stop : bool then (true, md) else run name pairs md
  end.

Lemma match_names_run name oid names md :
  match_names name oid names md = run name (pair oid <$> names) md.
Proof.
  revert md. induction names as [|n names IH]; intros [e p]; [done|].
  cbn [match_names run fmap list_fmap].
  repeat match goal with |- context [if ?b then _ else _] => destruct b end; by rewrite ?IH.
Qed.

Lemma run_app name p1 p2 md : run name (p1 ++ p2) md =
  let '(stop, md') := run name p1 md in if (stop : bool) then (true, md') else run name p2 md'.
Proof.
  revert md. induction p1 as [|[oid n] p1 IH]; intros md; [done|]. cbn [app run].
  destruct (match_names name oid [n] md) as [[|] md']; [done|]. apply IH.
Qed.

(** The pairs of a list of objects. *)
Fixpoint pairs_of (d : db) (oids : list Z) : res (list (Z * cstr)) :=
  match oids with
  | [] => Ok []
  | oid :: oids =>
      names ← names_of d oid;
      rest ← pairs_of d oids;
      Ok ((pair oid <$> names) ++ rest)
  end.

Lemma match_all_run d name oids ps md : pairs_of d oids = Ok ps ->
  match_all d name md oids = Ok (run name ps md).
Proof.
  revert ps md. induction oids as [|oid oids IH]; intros ps md H; cbn [pairs_of] in H.
  - by injection H as <-.
  - apply res_bind_Ok in H as (names & Hn & H). apply res_bind_Ok in H as (rest & Hr & [= <-]).
    cbn [match_all]. unfold match_proc. rewrite Hn. cbn [mbind res_bind].
    rewrite match_names_run, run_app. destruct (run name (pair oid <$> names) md) as [[|] md'];
      cbn [mbind res_bind]; [done|by apply IH].
Qed.

(** ** What the pass has found

    [found_so_far]: the two results summarise the pairs seen. *)
Definition found_so_far (name : cstr) (seen : list (Z * cstr)) (md : match_data) : Prop :=
  ((md.1 = NOTHING /\ forall x, ~ hits (whole name) seen x) \/
   (md.1 <> NOTHING /\ hits (whole name) seen md.1 /\
    forall y, hits (whole name) seen y -> y = md.1)) /\
  verdict (hits (beginning name) seen) FAILED_MATCH md.2.

Definition good_pairs (pairs : list (Z * cstr)) : Prop :=
  forall x n, (x, n) ∈ pairs -> 0 <= x /\ nul_free n.

Lemma hits_snoc how seen x n y : hits how (seen ++ [(x, n)]) y <->
  hits how seen y \/ (y = x /\ how n).
Proof.
  unfold hits. split.
  - intros (m & [Hm|Hm]%elem_of_app & Hh); [left; eauto|].
    apply list_elem_of_singleton in Hm as [= -> ->]. by right.
  - intros [(m & Hm & Hh)|[-> Hh]]; [exists m|exists n]; (split; [|done]).
    + apply elem_of_app. by left.
    + apply elem_of_app. right. by apply list_elem_of_singleton.
Qed.

Lemma matches_spec name n : nul_free name -> nul_free n ->
  (mystrncasecmp n name (Z.of_nat (length name)) =? 0) = true <->
  fold_case name `prefix_of` fold_case n.
Proof.
  intros Hs Hn. change (str_match n name false = true <-> fold_case name `prefix_of` fold_case n).
  rewrite str_match_spec by done. cbn. unfold ci_eq. rewrite fold_case_take. split.
  - intros <-. apply prefix_take.
  - intros [k Hk]. rewrite Hk. unfold fold_case at 1. rewrite take_app_length'; [done|].
    by rewrite length_fmap.
Qed.

Lemma whole_spec name n : nul_free name -> nul_free n ->
  fold_case name `prefix_of` fold_case n ->
  ((at_ n (length name) =? 0) = true -> whole name n /\ ~ beginning name n) /\
  ((at_ n (length name) =? 0) = false -> beginning name n /\ ~ whole name n).
Proof.
  intros Hs Hn Hp. pose proof (nul_free_at_iff n (length name) Hn) as Hat.
  assert (Hlen : (length name <= length n)%nat).
  { apply prefix_length in Hp. unfold fold_case in Hp. by rewrite !length_fmap in Hp. }
  assert (Hw : whole name n <-> length n = length name).
  { split; [intros H; exact (length_ci_eq n name H)|]. intros He. unfold whole, ci_eq. destruct Hp as [k Hk].
    assert (k = []) as ->; [|by rewrite Hk, app_nil_r].
    apply (f_equal length) in Hk. unfold fold_case in Hk. rewrite length_app, !length_fmap in Hk.
    destruct k; [done|cbn in Hk; lia]. }
  unfold beginning. rewrite Z.eqb_eq, Z.eqb_neq, Hw, Hat. split; intros H.
  - split; [|intros [_ ?]; lia]. destruct (decide (length name < length n)%nat) as [Hlt|]; [|lia].
    apply Hat in Hlt. lia.
  - split; [done|lia].
Qed.

Lemma not_prefix_neither name n : ~ fold_case name `prefix_of` fold_case n ->
  ~ whole name n /\ ~ beginning name n.
Proof.
  intros H. split; [|by intros [? _]]. unfold whole, ci_eq. intros He. apply H. by rewrite He.
Qed.

Lemma verdict_ext (S T : Z -> Prop) failed r : (forall x, S x <-> T x) ->
  verdict S failed r -> verdict T failed r.
Proof.
  intros H [Hn|x Hx Hu|x y Hx Hy Hne].
  - constructor. intros x. by rewrite <- H.
  - apply verdict_one; [by apply H|]. intros y. rewrite <- H. apply Hu.
  - apply (verdict_many _ _ x y); [by apply H..|done].
Qed.

(** One more object among the partial matches. *)
Lemma verdict_add (S : Z -> Prop) p oid : 0 <= oid -> verdict S FAILED_MATCH p ->
  (forall x, S x -> 0 <= x) ->
  verdict (fun y => S y \/ y = oid) FAILED_MATCH
    (if (p =? FAILED_MATCH) || (p =? oid) then oid else AMBIGUOUS).
Proof.
  intros H0 Hv Hpos. destruct Hv as [Hn|x Hx Hu|x y Hx Hy Hne].
  - rewrite Z.eqb_refl. cbn [orb]. apply verdict_one; [by right|]. intros y [Hy|]; [|done].
    by destruct (Hn y).
  - pose proof (Hpos x Hx). destruct (Z.eqb_spec x FAILED_MATCH); [unfold FAILED_MATCH in *; lia|].
    cbn [orb]. destruct (Z.eqb_spec x oid) as [->|].
    + apply verdict_one; [by right|]. intros y [Hy|]; [by apply Hu|done].
    + apply (verdict_many _ _ x oid); [by left|by right|done].
  - destruct (Z.eqb_spec AMBIGUOUS oid); [unfold AMBIGUOUS in *; lia|]. cbn.
    apply (verdict_many _ _ x y); [by left|by left|done].
Qed.

Lemma step_spec name x n seen md : nul_free name -> 0 <= x -> nul_free n -> good_pairs seen ->
  found_so_far name seen md ->
  match match_names name x [n] md with
  | (true, _) => exists y, hits (whole name) seen y /\ whole name n /\ y <> x
  | (false, md') => found_so_far name (seen ++ [(x, n)]) md'
  end.
Proof.
  intros Hs Hx Hn Hg [He Hp]. destruct md as [e p]. cbn [fst snd] in *. cbn [match_names].
  pose proof (matches_spec name n Hs Hn) as Hm.
  destruct (mystrncasecmp n name (Z.of_nat (length name)) =? 0).
  - destruct (whole_spec name n Hs Hn (proj1 Hm eq_refl)) as [Hw Hb].
    destruct (at_ n (length name) =? 0).
    + destruct (Hw eq_refl) as [Hwn Hbn]. clear Hw Hb.
      assert (Hp' : verdict (hits (beginning name) (seen ++ [(x, n)])) FAILED_MATCH p).
      { eapply verdict_ext; [|exact Hp]. intros y. rewrite hits_snoc. tauto. }
      destruct (Z.eqb_spec e NOTHING) as [->|Hne]; [|destruct (Z.eqb_spec e x) as [->|Hex]]; cbn [orb].
      * destruct He as [[_ He]|[He _]]; [|done]. split; [right|done]. cbn [fst].
        split; [unfold NOTHING; lia|]. rewrite hits_snoc. split; [by right|].
        intros y [Hy|[-> _]]%hits_snoc; [by destruct (He y)|done].
      * destruct He as [[? _]|(_ & Hh & Hu)]; [done|]. split; [right|done]. cbn [fst].
        split; [done|]. rewrite hits_snoc. split; [by right|].
        intros y [Hy|[-> _]]%hits_snoc; [by apply Hu|done].
      * destruct He as [[? _]|(_ & Hh & _)]; [done|]. by exists e.
    + destruct (Hb eq_refl) as [Hbn Hwn]. clear Hw Hb. split; cbn [fst snd].
      * destruct He as [[-> He]|(Hne & Hh & Hu)]; [left|right].
        -- split; [done|]. intros y [Hy|[_ ?]]%hits_snoc; [by apply (He y)|done].
        -- split; [done|]. rewrite hits_snoc. split; [by left|].
           intros y [Hy|[_ ?]]%hits_snoc; [by apply Hu|done].
      * eapply verdict_ext; [|apply verdict_add; [exact Hx|exact Hp|]].
        -- intros y. cbn beta. rewrite hits_snoc. tauto.
        -- intros y (m & Hm' & _). by apply (Hg y m).
  - destruct (not_prefix_neither name n) as [Hwn Hbn]; [by rewrite <- Hm|]. split; cbn [fst snd].
    + destruct He as [[-> He]|(Hne & Hh & Hu)]; [left|right].
      * split; [done|]. intros y [Hy|[_ ?]]%hits_snoc; [by apply (He y)|done].
      * split; [done|]. rewrite hits_snoc. split; [by left|].
        intros y [Hy|[_ ?]]%hits_snoc; [by apply Hu|done].
    + eapply verdict_ext; [|exact Hp]. intros y. rewrite hits_snoc. tauto.
Qed.

Lemma run_spec name pairs : nul_free name -> forall seen md, good_pairs seen -> good_pairs pairs ->
  found_so_far name seen md ->
  match run name pairs md with
  | (true, _) => exists x y, hits (whole name) (seen ++ pairs) x /\
      hits (whole name) (seen ++ pairs) y /\ x <> y
  | (false, md') => found_so_far name (seen ++ pairs) md'
  end.
Proof.
  intros Hs. induction pairs as [|[x n] pairs IH]; intros seen md Hg Hgp Hf; cbn [run].
  { by rewrite app_nil_r. }
  destruct (Hgp x n) as [Hx Hn]; [apply elem_of_cons; by left|].
  pose proof (step_spec name x n seen md Hs Hx Hn Hg Hf) as H.
  destruct (match_names name x [n] md) as [[|] md'].
  - destruct H as (y & (m & Hm & Hy) & Hw & Hne). exists y, x. split_and!; [| |done].
    + exists m. split; [apply elem_of_app; by left|done].
    + exists n. split; [|done]. apply elem_of_app. right. apply elem_of_cons. by left.
  - rewrite cons_middle, app_assoc. apply IH; [| |done].
    + intros y m [Hy|Hy]%elem_of_app; [by apply Hg|].
      apply list_elem_of_singleton in Hy as [= -> ->]. done.
    + intros y m Hy. apply Hgp. apply elem_of_cons. by right.
Qed.

(** ** All the places *)

Fixpoint place_pairs (d : db) (places : list Z) : res (list (Z * cstr)) :=
  match places with
  | [] => Ok []
  | oid :: places =>
      if negb (valid d oid) then place_pairs d places
      else
        cs ← contents_of d oid;
        ps ← pairs_of d cs;
        rest ← place_pairs d places;
        Ok (ps ++ rest)
  end.

Lemma match_places_run d name places ps md : place_pairs d places = Ok ps ->
  match_places d name md places = Ok
    (let '(stop, (exact, partial)) := run name ps md in
     if (stop : bool) then AMBIGUOUS else if negb (exact =? NOTHING) then exact else partial).
Proof.
  revert ps md. induction places as [|oid places IH]; intros ps md H; cbn [place_pairs match_places] in *.
  - injection H as <-. by destruct md.
  - destruct (negb (valid d oid)); [by apply IH|].
    apply res_bind_Ok in H as (cs & -> & H). apply res_bind_Ok in H as (ps1 & Hps & H).
    apply res_bind_Ok in H as (rest & Hr & [= <-]). cbn [mbind res_bind].
    rewrite (match_all_run d name cs ps1 md Hps), run_app. cbn [mbind res_bind].
    destruct (run name ps1 md) as [[|] [e p]]; [done|by apply IH].
Qed.

Section around.
Context (F P : forest) (d : db) (Hw : wf_db F P d).
Context (Hnames : forall x names, names_of d x = Ok names -> Forall nul_free names).

Lemma names_of_Ok x : is_Some (objects d !! x) -> exists names, names_of d x = Ok names.
Proof.
  intros Hx. destruct (find_property_Ok F d x (lit "aliases")) as (r & Hr & _);
    [apply Hw|done|apply (bool_decide_unpack _); vm_compute; exact I|reflexivity|].
  destruct Hx as [o Ho]. unfold names_of, aliases, db_object_name, get. rewrite Hr, Ho.
  cbn [mbind res_bind deref]. eauto.
Qed.

Lemma pairs_of_Ok cs : Forall (fun x => is_Some (objects d !! x)) cs ->
  exists ps, pairs_of d cs = Ok ps /\ good_pairs ps /\
    forall x n, (x, n) ∈ ps <-> x ∈ cs /\ exists names, names_of d x = Ok names /\ n ∈ names.
Proof.
  induction 1 as [|x cs Hx H (ps & Hps & Hg & Hin)].
  { exists []. split; [done|]. split; [by intros x n ?%elem_of_nil|]. intros x n.
    rewrite !elem_of_nil. tauto. }
  destruct (names_of_Ok x Hx) as [names Hn]. exists ((pair x <$> names) ++ ps).
  cbn [pairs_of]. rewrite Hn, Hps. split; [done|]. split.
  - intros y n [(m & [= -> ->] & Hm)%list_elem_of_fmap|Hy]%elem_of_app; [|by apply (Hg y n)].
    destruct Hx as [o Ho]. split; [apply (wf_range d (wp_table _ _ (wdb_props _ _ _ Hw)) x o Ho)|].
    exact (proj1 (Forall_forall _ _) (Hnames x names Hn) m Hm).
  - intros y n. rewrite elem_of_app, list_elem_of_fmap, Hin, elem_of_cons. split.
    + intros [(m & [= -> ->] & Hm)|(? & ?)]; [|tauto].
      split; [by left|]. exists names. exact (conj Hn Hm).
    + intros [[->|Hy] (ns & Hns & Hm)]; [left|right].
      * exists n. rewrite Hn in Hns. injection Hns as <-. exact (conj eq_refl Hm).
      * exact (conj Hy (ex_intro _ ns (conj Hns Hm))).
Qed.

Lemma contents_of_Ok x : valid d x = true -> exists ks, contents_of d x = Ok ks /\
  Forall (fun y => is_Some (objects d !! y)) ks.
Proof.
  intros Hx. unfold valid in Hx. apply bool_decide_eq_true in Hx.
  rewrite find_object_eq in Hx by apply Hw.
  assert (Hr := wdb_place _ _ _ Hw). assert (HP := wdb_place_forest _ _ _ Hw).
  apply (represents_dom place _ P Hr), (wf_dom P HP) in Hx as [ks Hks].
  exists ks. split; [by apply (ll_below_Ok place _ P)|]. apply Forall_forall. intros y Hy.
  apply (represents_dom place _ P Hr). destruct (wf_kids P HP x ks Hks) as [_ Hiff].
  apply Hiff in Hy. eauto.
Qed.

Lemma place_pairs_Ok places : exists ps, place_pairs d places = Ok ps /\ good_pairs ps /\
  forall x n, (x, n) ∈ ps <->
    (exists place ks, place ∈ places /\ valid d place = true /\ contents_of d place = Ok ks /\ x ∈ ks) /\
    exists names, names_of d x = Ok names /\ n ∈ names.
Proof.
  induction places as [|oid places (ps & Hps & Hg & Hin)].
  { exists []. split; [done|]. split; [by intros x n ?%elem_of_nil|]. intros x n.
    rewrite elem_of_nil. split; [done|]. by intros ((? & ? & ?%elem_of_nil & _) & _). }
  cbn [place_pairs]. destruct (valid d oid) eqn:Hv; cbn [negb].
  - destruct (contents_of_Ok oid Hv) as (ks & Hks & Hok).
    destruct (pairs_of_Ok ks Hok) as (ps1 & Hps1 & Hg1 & Hin1). rewrite Hks. cbn [mbind res_bind].
    rewrite Hps1, Hps. exists (ps1 ++ ps). split; [done|]. split.
    + intros x n [?|?]%elem_of_app; [by apply (Hg1 x n)|by apply (Hg x n)].
    + intros x n. rewrite elem_of_app, Hin, Hin1. split.
      * intros [[Hx Hn]|((p & ks' & Hp & H) & Hn)]; (split; [|done]).
        -- exists oid, ks. rewrite elem_of_cons. auto.
        -- exists p, ks'. rewrite elem_of_cons. auto.
      * intros ((p & ks' & [->|Hp]%elem_of_cons & Hvp & Hk & Hx) & Hn); [left|right; eauto 10].
        rewrite Hks in Hk. injection Hk as <-. auto.
  - exists ps. split_and!; [done|done|]. intros x n. rewrite Hin. split.
    + intros ((p & ks & Hp & H) & Hn). split; [|done]. exists p, ks. rewrite elem_of_cons. auto.
    + intros ((p & ks & [->|Hp]%elem_of_cons & Hvp & H) & Hn); [congruence|eauto 10].
Qed.

Lemma match_contents_Ok player name : valid d player = true -> nul_free name ->
  exists r, match_contents d player name = Ok r /\
    (verdict (called d player (whole name)) NOTHING r /\ r <> NOTHING \/
     (forall x, ~ called d player (whole name) x) /\
     verdict (called d player (beginning name)) FAILED_MATCH r).
Proof.
  intros Hv Hn. unfold match_contents. rewrite Hv. cbn [negb].
  assert (exists loc, db_object_location d player = Ok loc) as [loc Hloc].
  { unfold valid in Hv. apply bool_decide_eq_true in Hv. rewrite find_object_eq in Hv by apply Hw.
    destruct Hv as [o Ho]. unfold db_object_location, get. rewrite Ho. cbn. eauto. }
  rewrite Hloc. cbn [mbind res_bind].
  destruct (place_pairs_Ok [player; loc]) as (ps & Hps & Hg & Hin).
  rewrite (match_places_run d name _ ps _ Hps).
  assert (Hh : forall how x, hits how ps x <-> called d player how x).
  { intros how x. unfold hits, called, near. split.
    - intros (n & ((p & ks & H) & names & Hns & Hm)%Hin & Hh). split.
      + exists loc, p, ks. exact (conj Hloc H).
      + exists names, n. exact (conj Hns (conj Hm Hh)).
    - intros ((loc' & p & ks & Hl' & H) & names & n & Hns & Hm & Hh). rewrite Hloc in Hl'.
      injection Hl' as <-. exists n. refine (conj (proj2 (Hin x n) (conj _ _)) Hh).
      + exists p, ks. exact H.
      + exists names. exact (conj Hns Hm). }
  pose proof (run_spec name ps Hn [] (NOTHING, FAILED_MATCH)) as H. cbn [app] in H.
  specialize (H ltac:(by intros x n ?%elem_of_nil) Hg).
  destruct (run name ps (NOTHING, FAILED_MATCH)) as [stop [e p]]. eexists. split; [done|].
  assert (H0 : found_so_far name [] (NOTHING, FAILED_MATCH)).
  { split; [left; split; [done|]|apply verdict_none]; by intros x (n & ?%elem_of_nil & _). }
  specialize (H H0). destruct stop.
  - destruct H as (x & y & Hx & Hy & Hne). left. split; [|done].
    apply (verdict_many _ _ x y); [by apply Hh..|done].
  - destruct H as [He Hp]. cbn [fst snd] in *. destruct He as [[-> He]|(Hne & Hx & Hu)].
    + rewrite Z.eqb_refl. right. split; [intros x; rewrite <- Hh; apply He|].
      eapply verdict_ext; [|exact Hp]. intros x. apply Hh.
    + destruct (Z.eqb_spec e NOTHING); [done|]. left. split; [|done].
      apply verdict_one; [by apply Hh|]. intros y Hy. by apply Hu, Hh.
Qed.

End around.

(** Names are those of objects that exist. *)
Lemma names_of_valid d x names : names_of d x = Ok names -> is_Some (objects d !! x).
Proof.
  unfold names_of. intros (al & _ & (n & Hn & _)%res_bind_Ok)%res_bind_Ok.
  unfold db_object_name, get in Hn. apply res_bind_Ok in Hn as (o & Ho%deref_Ok & _). eauto.
Qed.

Definition names_ok (d : db) : bool := forallb (fun e =>
  match names_of d (fst e) with
  | Ok names => bool_decide (Forall nul_free names)
  | Fail _ => true
  end) (map_to_list (objects d)).

Lemma names_ok_spec d : names_ok d = true ->
  forall x names, names_of d x = Ok names -> Forall nul_free names.
Proof.
  intros H x names Hn. destruct (names_of_valid d x names Hn) as [o Ho%elem_of_map_to_list].
  pose proof (forallb_elem _ _ _ H Ho) as Hx. cbn [fst] in Hx. rewrite Hn in Hx.
  by apply bool_decide_eq_true in Hx.
Qed.

(** ** Properties *)

(** C36: On a well-formed database a name is matched without a fault.  A name that is neither a
    number, "me" nor "here" answers the one object around the player (in it, or in its
    location) that has the name or an alias equal to it up to case, [AMBIGUOUS] when there
    are several; when there is none, the one object with a name or alias that begins with
    it, [AMBIGUOUS] when there are several and [FAILED_MATCH] when there is none. *)
Theorem match_object_correct F P d player name : wf_db F P d ->
  (forall x names, names_of d x = Ok names -> Forall nul_free names) ->
  valid d player = true -> nul_free name -> name <> [] -> head name <> Some HASH ->
  ~ ci_eq name (lit "me") -> ~ ci_eq name (lit "here") ->
  exists r, match_object d player name = Ok r /\
    (verdict (called d player (whole name)) NOTHING r /\ r <> NOTHING \/
     (forall x, ~ called d player (whole name) x) /\
     verdict (called d player (beginning name)) FAILED_MATCH r).
Proof.
  intros Hw Hnames Hv Hn Hne Hh Hme Hhere. destruct name as [|c num]; [done|].
  unfold match_object. rewrite decide_False by (intros ->; done). rewrite Hv. cbn [negb].
  assert (Hno : forall s, bool_decide (nul_free s) = true -> ~ ci_eq (c :: num) s ->
            (mystrcasecmp (c :: num) s =? 0) = false).
  { intros s Hs%bool_decide_eq_true Hc. apply Z.eqb_neq. by rewrite mystrcasecmp_zero. }
  rewrite (Hno (lit "me")), (Hno (lit "here")) by (done || (vm_compute; reflexivity)).
  by apply (match_contents_Ok F P d Hw Hnames).
Qed.

Lemma match_object_correct_witness : match_object sample 1 (lit "WIZ") = Ok 1 /\
  ~ called sample 1 (whole (lit "WIZ")) 1.
Proof.
  destruct (match_object_correct sample_family sample_place sample 1 (lit "WIZ") sample_wf)
    as (r & Hr & H).
  - apply names_ok_spec. vm_compute. reflexivity.
  - vm_compute. reflexivity.
  - apply (bool_decide_unpack _). vm_compute. exact I.
  - discriminate.
  - discriminate.
  - apply (bool_decide_unpack _). vm_compute. exact I.
  - apply (bool_decide_unpack _). vm_compute. exact I.
  - assert (E : match_object sample 1 (lit "WIZ") = Ok 1) by (vm_compute; reflexivity).
    split; [exact E|]. intros (_ & names & n & Hns & Hn & Hc).
    assert (En : names_of sample 1 = Ok [lit "wizard"]) by (vm_compute; reflexivity).
    rewrite En in Hns. injection Hns as <-. apply list_elem_of_singleton in Hn as ->.
    vm_compute in Hc. discriminate Hc.
Defined.

(** The name [#n] answers the object [n] if it is valid.  A bare hash mark is answered too:
    the number that is missing is read as zero, so it names the system object. *)
Theorem match_object_numbers d player :
  (forall n, int_range 64 n -> match_object d player (HASH :: print_int n)
     = Ok (if valid d n then n else FAILED_MATCH)) /\
  match_object d player [HASH] = Ok (if valid d 0 then SYSTEM_OBJECT else FAILED_MATCH).
Proof.
  split; [intros n Hn|]; unfold match_object; rewrite decide_True by done.
  2: { change (strtoimax []) with (0, @nil ascii). cbv iota beta. rewrite bool_decide_eq_true_2 by done.
       cbn [negb orb]. by destruct (valid d 0). }
  rewrite strtoimax_print by done.
  rewrite bool_decide_eq_true_2 by done. cbn [negb orb]. by destruct (valid d n).
Qed.

Lemma match_object_numbers_witness : match_object sample 1 (HASH :: print_int 5) = Ok 5.
Proof.
  rewrite (proj1 (match_object_numbers sample 1) 5).
  - vm_compute. reflexivity.
  - vm_compute. split; [discriminate|reflexivity].
Defined.
