(* ===== verification/ParseCmd.v ===== *)
(** * Parsing commands (src/parse_cmd.c)

    A line typed by a player becomes a verb, its arguments, and the direct and indirect
    objects around a preposition. *)

From S2P Require Import Prelude CStrings Values Lists Libc Links Db Properties Layout Tables.
From S2P Require Import Objects Sample PropertyOps Words Preps Match.

Open Scope Z_scope.

Record Parsed_Command := mkParsed {
  pc_verb : cstr;
  pc_argstr : cstr;
  pc_args : Var;
  pc_dobjstr : cstr;
  pc_dobj : Z;
  pc_prepstr : cstr;
  pc_prep : Z;
  pc_iobjstr : cstr;
  pc_iobj : Z }.

(** The characters that stand for a verb. *)
Definition special_verb (c : ascii) : option cstr :=
  if decide (c = QUOTE) then Some (lit "say")
  else if decide (c = chr 58) then Some (lit "emote")
  else if decide (c = chr 59) then Some (lit "eval")
  else None.

(** [while ( *argstr && (in_quotes || *argstr != ' ')) ...] *)
Fixpoint skip_verb (argstr : cstr) (in_quotes : bool) : cstr :=
  match argstr with
  | [] => []
  | c :: rest =>
      if in_quotes || negb (bool_decide (c = BLANK)) then
        if decide (c = QUOTE) then skip_verb rest (negb in_quotes)
        else if decide (c = BACKSLASH) then
          match rest with
          | [] => []
          | _ :: rest => skip_verb rest in_quotes
          end
        else skip_verb rest in_quotes
      else argstr
  end.

(** The line to be split, and [argstr]. *)
Definition split_line (command : cstr) : cstr * cstr :=
  match head command ≫= special_verb with
  | Some verb => (verb ++ BLANK :: tail command, tail command)
  | None => (command, blanks (skip_verb command false))
  end.

(** [argc] words from a position on. *)
Definition words_at (argv : list cstr) (from argc : nat) : cstr :=
  build_string (take argc (drop from argv)).

(** [pstart] and [pend], with the preposition. *)
Definition locate_prep (argv : list cstr) : Z * nat * nat :=
  let argc := length argv in
  if decide (1 < argc)%nat then
    match db_find_prep false (tail argv) with
    | (prep, Some (first, last)) => (prep, S first, S last)
    | (prep, None) => (prep, argc, argc)
    end
  else (PREP_NONE, argc, argc).

Definition parse_command (d : db) (mx : nat) (command : cstr) (user : Z)
    : res (option Parsed_Command * nat) :=
  let '(buf, argstr) := split_line (blanks command) in
  '(argv, mx) ← argv_of mx buf;
  match argv with
  | [] => Ok (None, mx)
  | verb :: args =>
      let argc := length argv in
      let '(prep, pstart, pend) := locate_prep argv in
      '(prepstr, iobjstr, iobj) ←
        (if negb (prep =? PREP_NONE) then
           let prepstr := words_at argv pstart (pend - pstart + 1) in
           let iobjstr := words_at argv (pend + 1) (argc - (pend + 1)) in
           iobj ← match_object d user iobjstr;
           Ok (prepstr, iobjstr, iobj)
         else Ok ([], [], NOTHING));
      let dlen := (pstart - 1)%nat in
      '(dobjstr, dobj) ←
        (if decide (dlen = 0%nat) then Ok ([], NOTHING)
         else
           let dobjstr := words_at argv 1 dlen in
           dobj ← match_object d user dobjstr;
           Ok (dobjstr, dobj));
      Ok (Some (mkParsed verb argstr (List (Str <$> args)) dobjstr dobj prepstr prep iobjstr iobj), mx)
  end.

(** ** The words *)

Lemma skip_verb_word s q : skip_verb s q = (word s q).2.
Proof.
  revert q. induction s as [s IH] using (well_founded_induction (well_founded_ltof _ (@length ascii))).
  intros q. destruct s as [|c t]; [done|]. cbn [skip_verb word].
  destruct q, (bool_decide (c = BLANK)); cbn [negb orb andb]; [..|done|]; repeat case_decide; try done.
  all: try (destruct t as [|n t]; [done|]).
  all: rewrite IH by (unfold ltof; cbn; lia); by repeat case_match.
Qed.

Lemma special_plain c verb : special_verb c = Some verb ->
  verb <> [] /\ nul_free verb /\ Forall (fun c => special c = false) verb.
Proof.
  unfold special_verb. intros H. repeat case_decide; try discriminate H; injection H as <-;
    (split; [done|]; split; apply (bool_decide_unpack _); vm_compute; exact I).
Qed.

Lemma tokens_app_blank w s : w <> [] -> Forall (fun c => special c = false) w ->
  nul_free w -> nul_free s -> tokens (w ++ BLANK :: s) = w :: tokens s.
Proof.
  intros Hne Hw Hn Hs. destruct (spells_head w w (spells_plain w Hne Hw)) as (c & t & E & Hc).
  assert (Hall : nul_free (w ++ BLANK :: s)) by (apply nul_free_app; split; [done|by apply nul_free_cons]).
  rewrite (tokens_cons _ c (t ++ BLANK :: s)); [|done|].
  - replace (c :: t ++ BLANK :: s) with (w ++ BLANK :: s) by (by rewrite E).
    rewrite word_plain by (done || (right; eauto)). cbn [fst snd]. f_equal.
    rewrite <- tokens_blanks by (by apply nul_free_cons).
    rewrite blanks_cons, decide_True by done. by rewrite tokens_blanks.
  - rewrite E. cbn [app]. rewrite blanks_cons. by case_decide.
Qed.

(** The line begins with the verb, and [argstr] holds the arguments. *)
Lemma split_line_spec command buf argstr : nul_free command ->
  (command = [] \/ exists c t, command = c :: t /\ c <> BLANK) ->
  split_line command = (buf, argstr) ->
  nul_free buf /\ nul_free argstr /\
  match head command ≫= special_verb with
  | Some verb => tokens buf = verb :: tokens argstr /\ argstr = tail command
  | None => tokens buf = tokens command /\ (forall v args, tokens command = v :: args -> tokens argstr = args)
  end.
Proof.
  intros Hn Hb H. unfold split_line in H. destruct Hb as [->|(c & t & -> & Hc)].
  { injection H as <- <-. split_and!; [done|exact Hn|]. split; [done|]. intros v args E. discriminate E. }
  cbn [head mbind option_bind] in *. pose proof (proj1 (nul_free_cons _ _) Hn) as [_ Ht].
  destruct (special_verb c) as [verb|] eqn:Hs.
  - injection H as <- <-. destruct (special_plain c verb Hs) as (Hne & Hvn & Hp). cbn [tail].
    split_and!; [apply nul_free_app; split; [done|by apply nul_free_cons]|done| |done].
    by apply tokens_app_blank.
  - rewrite skip_verb_word in H. apply pair_eq in H as [<- <-].
    destruct (word_spec (c :: t) false Hn) as (_ & Hr & _).
    split_and!; [done|by apply blanks_nul_free|done|]. intros v args.
    rewrite (tokens_cons (c :: t) c t) by (done || (rewrite blanks_cons; by case_decide)).
    rewrite tokens_blanks by done. by intros [= _ ?].
Qed.

Lemma build_string_nul_free ws : Forall nul_free ws -> nul_free (build_string ws).
Proof.
  induction 1 as [|w ws Hw H IH]; [constructor|]. destruct ws; [done|].
  apply nul_free_app. split; [done|]. by apply nul_free_cons.
Qed.

(** ** The objects *)

Lemma match_object_total F P d player name : wf_db F P d ->
  (forall x names, names_of d x = Ok names -> Forall nul_free names) -> nul_free name ->
  exists r, match_object d player name = Ok r.
Proof.
  intros Hw Hnames Hn. destruct name as [|c num]; [by eexists|]. unfold match_object.
  case_decide; [destruct (strtoimax num); by eexists|].
  destruct (valid d player) eqn:Hv; cbn [negb]; [|by eexists].
  destruct (mystrcasecmp (c :: num) (lit "me") =? 0); [by eexists|].
  destruct (mystrcasecmp (c :: num) (lit "here") =? 0).
  - unfold valid in Hv. apply bool_decide_eq_true in Hv. rewrite find_object_eq in Hv by apply Hw.
    destruct Hv as [o Ho]. unfold db_object_location, get. rewrite Ho. cbn. eauto.
  - destruct (match_contents_Ok F P d Hw Hnames player (c :: num) Hv Hn) as (r & Hr & _). eauto.
Qed.

(** What is said of the objects and of the words around the preposition. *)
Definition objects_named (d : db) (user : Z) (args : list cstr) (pc : Parsed_Command) : Prop :=
  exists dw pw iw, args = dw ++ pw ++ iw /\
    pc_dobjstr pc = build_string dw /\ pc_prepstr pc = build_string pw /\
    pc_iobjstr pc = build_string iw /\
    match_object d user (pc_dobjstr pc) = Ok (pc_dobj pc) /\
    match_object d user (pc_iobjstr pc) = Ok (pc_iobj pc) /\
    (forall k j alias, (k < length dw)%nat -> phrase_of j alias -> ~ starts_with (drop k args) alias) /\
    if decide (pc_prep pc = PREP_NONE) then pw = [] /\ iw = []
    else exists alias, phrase_of (pc_prep pc) alias /\ Forall2 ci_eq pw alias.

Lemma words_at_middle (v : cstr) dw pw iw : words_at (v :: dw ++ pw ++ iw) (S (length dw)) (length pw)
  = build_string pw.
Proof.
  unfold words_at. cbn [drop]. rewrite drop_app_length. by rewrite take_app_length.
Qed.

(** The three groups of words. *)
Lemma locate_prep_spec v args : Forall nul_free args ->
  let '(prep, pstart, pend) := locate_prep (v :: args) in
  exists dw pw iw, args = dw ++ pw ++ iw /\ pstart = S (length dw) /\
    (forall k j alias, (k < length dw)%nat -> phrase_of j alias -> ~ starts_with (drop k args) alias) /\
    if decide (prep = PREP_NONE) then pw = [] /\ iw = []
    else pend = (length dw + length pw)%nat /\ pw <> [] /\
         exists alias, phrase_of prep alias /\ Forall2 ci_eq pw alias.
Proof.
  intros Ha. unfold locate_prep. cbn [tail length]. destruct args as [|w args].
  { rewrite decide_False by (cbn; lia). exists [], [], []. cbn. split_and!; try done; lia. }
  rewrite decide_True by (cbn; lia). unfold db_find_prep.
  pose proof (find_prep_from_spec (w :: args) 0 Ha) as H. set (ws := w :: args) in *.
  destruct (find_prep_from false ws 0) as [j [[a b]|]].
  - destruct H as (_ & alias & Hp & -> & (pw & iw & Hd & Hc) & _ & Hfst).
    rewrite Nat.sub_0_r in Hd. exists (take a ws), pw, iw. rewrite <- Hd, take_drop.
    destruct (phrase_words _ _ Hp) as [_ Hne]. pose proof (Forall2_length _ _ _ Hc) as Hl.
    assert (Hpw : pw <> []) by (intros ->; inversion Hc; subst; done).
    assert (0 < length pw)%nat by (destruct pw; [done|cbn; lia]).
    assert (Hlen : length (take a ws) = a).
    { rewrite length_take. apply (f_equal length) in Hd. rewrite length_drop, length_app in Hd. lia. }
    rewrite Hlen. split_and!; [done|done| |].
    + intros k j' alias' Hk Hp'. specialize (Hfst k j' alias' ltac:(lia) Hp').
      by rewrite Nat.sub_0_r in Hfst.
    + rewrite decide_False by (destruct Hp as [H0 _]; intros ->; unfold PREP_NONE in H0; lia).
      split_and!; [lia|done|by exists alias].
  - destruct H as [-> Hno]. exists ws, [], []. rewrite app_nil_r. split_and!; try done.
    intros k j alias _. apply Hno.
Qed.

(** Once the words are there. *)
Lemma parse_words F P d mx command user buf argstr v args mx' : wf_db F P d ->
  (forall x names, names_of d x = Ok names -> Forall nul_free names) ->
  split_line (blanks command) = (buf, argstr) -> argv_of mx buf = Ok (v :: args, mx') ->
  Forall nul_free args ->
  exists pc, parse_command d mx command user = Ok (Some pc, mx') /\ pc_verb pc = v /\
    pc_argstr pc = argstr /\ pc_args pc = List (Str <$> args) /\ objects_named d user args pc.
Proof.
  intros Hw Hnames Hs Ha Hn. unfold parse_command. rewrite Hs, Ha. cbn [mbind res_bind].
  pose proof (locate_prep_spec v args Hn) as H.
  destruct (locate_prep (v :: args)) as [[prep pstart] pend].
  destruct H as (dw & pw & iw & -> & -> & Hno & H).
  apply Forall_app in Hn as [Hnd [Hnp Hni]%Forall_app].
  assert (Hd : exists dobj, (if decide ((S (length dw) - 1)%nat = 0%nat) then Ok ([], NOTHING)
      else dobj ← match_object d user (words_at (v :: dw ++ pw ++ iw) 1 (S (length dw) - 1));
           Ok (words_at (v :: dw ++ pw ++ iw) 1 (S (length dw) - 1), dobj))
      = Ok (build_string dw, dobj) /\ match_object d user (build_string dw) = Ok dobj).
  { assert (words_at (v :: dw ++ pw ++ iw) 1 (S (length dw) - 1) = build_string dw) as ->.
    { unfold words_at. cbn [drop]. rewrite drop_0. rewrite take_app_length' by lia. done. }
    destruct dw as [|w dw]; [by exists NOTHING|]. rewrite decide_False by (cbn; lia).
    destruct (match_object_total F P d user (build_string (w :: dw)) Hw Hnames) as [r Hr];
      [by apply build_string_nul_free|]. exists r. by rewrite Hr. }
  destruct Hd as (dobj & Hd & Hdo).
  destruct (Z.eqb_spec prep PREP_NONE) as [->|Hp]; cbn [negb].
  - rewrite decide_True in H by done. destruct H as [-> ->]. rewrite !app_nil_r in *.
    cbn [mbind res_bind]. rewrite Hd. cbn [mbind res_bind]. eexists. split; [done|].
    cbn [pc_verb pc_argstr pc_args]. split_and!; [done..|]. exists dw, [], []. rewrite !app_nil_r.
    cbn. split_and!; done.
  - rewrite decide_False in H by done. destruct H as (-> & Hne & Hc).
    assert (0 < length pw)%nat by (destruct pw; [done|cbn; lia]).
    assert (words_at (v :: dw ++ pw ++ iw) (S (length dw)) (length dw + length pw - S (length dw) + 1)
            = build_string pw) as ->.
    { replace (length dw + length pw - S (length dw) + 1)%nat with (length pw) by lia.
      apply words_at_middle. }
    assert (words_at (v :: dw ++ pw ++ iw) (length dw + length pw + 1)
              (length (v :: dw ++ pw ++ iw) - (length dw + length pw + 1)) = build_string iw) as ->.
    { replace (length dw + length pw + 1)%nat with (S (length (dw ++ pw))) by (rewrite length_app; lia).
      replace (length (v :: dw ++ pw ++ iw) - S (length (dw ++ pw)))%nat with (length iw)
        by (cbn; rewrite !length_app; lia).
      pose proof (words_at_middle v (dw ++ pw) iw []) as Hm.
      rewrite app_nil_r, <- app_assoc in Hm. exact Hm. }
    destruct (match_object_total F P d user (build_string iw) Hw Hnames) as [iobj Hi];
      [by apply build_string_nul_free|].
    rewrite Hi. cbn [mbind res_bind]. rewrite Hd. cbn [mbind res_bind]. eexists. split; [done|].
    cbn [pc_verb pc_argstr pc_args]. split_and!; [done..|]. exists dw, pw, iw.
    cbn. rewrite decide_False by done. split_and!; done.
Qed.

(** ** Properties *)

(** C35: Parsing a command never faults.  A line that starts with a quote, a colon or a
    semicolon is a [say], [emote] or [eval] of the rest, as it stands; otherwise the first
    word is the verb, and an empty line is no command.  The arguments are the words of
    [argstr]; they are cut at the leftmost phrase that is a preposition into the direct
    object, the preposition and the indirect object, and both objects are looked up. *)
Theorem parse_command_correct F P d mx command user : wf_db F P d ->
  (forall x names, names_of d x = Ok names -> Forall nul_free names) -> nul_free command ->
  let parsed v pc := pc_verb pc = v /\ pc_args pc = List (Str <$> tokens (pc_argstr pc)) /\
    objects_named d user (tokens (pc_argstr pc)) pc in
  exists mx', match head (blanks command) ≫= special_verb, tokens command with
  | Some verb, _ => exists pc, parse_command d mx command user = Ok (Some pc, mx') /\
      pc_argstr pc = tail (blanks command) /\ parsed verb pc
  | None, [] => parse_command d mx command user = Ok (None, mx')
  | None, v :: args => exists pc, parse_command d mx command user = Ok (Some pc, mx') /\
      tokens (pc_argstr pc) = args /\ parsed v pc
  end.
Proof.
  intros Hw Hnames Hn. cbv zeta. pose proof (blanks_nul_free command Hn) as Hb.
  destruct (blanks_spec command) as (_ & _ & _ & Hc).
  destruct (split_line (blanks command)) as [buf argstr] eqn:Es.
  destruct (split_line_spec (blanks command) buf argstr Hb Hc Es) as (Hbuf & Harg & H).
  destruct (argv_of_Ok mx buf Hbuf) as [mx' Ha]. exists mx'.
  pose proof (tokens_nul_free argstr Harg) as Hts.
  destruct (head (blanks command) ≫= special_verb) as [verb|].
  - destruct H as [Ht Htail]. rewrite Ht in Ha.
    destruct (parse_words F P d mx command user buf argstr verb (tokens argstr) mx' Hw Hnames Es Ha Hts)
      as (pc & Hp & <- & Has & Hargs & Ho).
    exists pc. rewrite Has in *. split_and!; done.
  - destruct H as [Ht Hargs]. rewrite tokens_blanks in * by done. rewrite Ht in Ha.
    destruct (tokens command) as [|v args].
    + unfold parse_command. rewrite Es, Ha. done.
    + specialize (Hargs v args eq_refl). rewrite <- Hargs in *.
      destruct (parse_words F P d mx command user buf argstr v (tokens argstr) mx' Hw Hnames Es Ha Hts)
        as (pc & Hp & <- & Has & Hpargs & Ho).
      exists pc. rewrite Has in *. split_and!; done.
Qed.

Lemma parse_command_correct_witness : exists mx' pc,
  parse_command sample 50 (lit "  put 'cat food' in  box") 1 = Ok (Some pc, mx') /\
  pc_verb pc = lit "put" /\ pc_prep pc = 3 /\ pc_dobj pc = FAILED_MATCH /\
  pc_args pc = List (Str <$> tokens (pc_argstr pc)).
Proof.
  destruct (parse_command_correct sample_family sample_place sample 50 (lit "  put 'cat food' in  box") 1
    sample_wf) as (mx' & H).
  - apply names_ok_spec. vm_compute. reflexivity.
  - apply (bool_decide_unpack _). vm_compute. exact I.
  - assert (E : head (blanks (lit "  put 'cat food' in  box")) ≫= special_verb = None)
      by (vm_compute; reflexivity).
    assert (Et : tokens (lit "  put 'cat food' in  box")
      = [lit "put"; lit "'cat"; lit "food'"; lit "in"; lit "box"]) by (vm_compute; reflexivity).
    rewrite E, Et in H. destruct H as (pc & Hp & _ & Hv & Hargs & _). exists mx', pc.
    pose proof (f_equal (fun r => match r with Ok (Some pc, _) => (pc_prep pc, pc_dobj pc) | _ => (0, 0) end) Hp) as Hq.
    vm_compute in Hq.
    exact (conj Hp (conj Hv (conj (eq_sym (f_equal fst Hq)) (conj (eq_sym (f_equal snd Hq)) Hargs)))).
Defined.
