(* ===== verification/Verbs.v ===== *)
(** * Verbs and the verb cache (src/db_verbs.c)

    Defining, finding, changing and deleting verbs.  A successful or failed search for a
    callable verb is kept in a hash table, which every change that could matter empties. *)

From S2P Require Import Prelude CStrings Values Lists Libc Links Db Properties Layout Tables Objects.
From S2P Require Import Preps.

Open Scope Z_scope.

(** ** Permissions and argument specifications *)

Definition VF_READ : Z := 1.
Definition VF_WRITE : Z := 2.
Definition VF_EXEC : Z := 4.
Definition VF_DEBUG : Z := 8.

Definition ASPEC_NONE : Z := 0.
Definition ASPEC_ANY : Z := 1.
Definition ASPEC_THIS : Z := 2.

Definition DOBJSHIFT : Z := 4.
Definition IOBJSHIFT : Z := 6.
Definition OBJMASK : Z := 3.
Definition PERMMASK : Z := 15.

(** [perms] and [prep] are [short]s. *)
Definition pack_perms (flags dobj iobj : Z) : Z :=
  wrap16 (Z.lor (Z.lor flags (Z.shiftl dobj DOBJSHIFT)) (Z.shiftl iobj IOBJSHIFT)).
Definition verb_dobj (v : Verbdef) : Z := Z.land (Z.shiftr (v_perms v) DOBJSHIFT) OBJMASK.
Definition verb_iobj (v : Verbdef) : Z := Z.land (Z.shiftr (v_perms v) IOBJSHIFT) OBJMASK.

(** ** Handles

    A handle is a pointer to a pair of an object and a verb: to a static variable of the
    function that made it, which the next call of that function overwrites (here the pair
    itself), or to the one inside of a cache entry, which is gone when the cache is
    emptied. *)

#[export] Instance handle_eq_dec : EqDecision handle.
Proof. solve_decision. Defined.
#[export] Instance vc_entry_eq_dec : EqDecision vc_entry.
Proof. solve_decision. Defined.

Inductive db_verb_handle :=
  | NullHandle
  | StaticHandle (h : handle)
  | CachedHandle (e : vc_entry).

Definition DEFAULT_VC_SIZE : Z := 7507.
Definition bucket (t : gmap Z (list vc_entry)) (b : Z) : list vc_entry := default [] (t !! b).

Definition entry_live (d : db) (e : vc_entry) : bool :=
  match vc_table d with
  | Some t => bool_decide (e ∈ bucket t (vc_hash e mod DEFAULT_VC_SIZE))
  | None => false
  end.

(** [h->definer], [h->verbdef], after the test for a null pointer. *)
Definition deref_handle (d : db) (vh : db_verb_handle) (null : failure) : res handle :=
  match vh with
  | NullHandle => Fail null
  | StaticHandle h => Ok h
  | CachedHandle e => if entry_live d e then deref (vc_h e) else Fail Segv
  end.

(** ** Defining and counting *)

Definition db_add_verb (oid : Z) (vnames : cstr) (own flags dobj prep iobj : Z) (d : db)
    : res (Z * db) :=
  o ← deref (dbpriv_find_object d oid);
  let d := db_priv_affected_callable_verb_lookup d in
  let p : positive := base.fresh (dom (verbs d)) in
  let newv := mkVerbdef vnames None own (pack_perms flags dobj iobj) (wrap16 prep) in
  let vs := verbdefs o ++ [p] in
  d ← upd_object oid (set_verbdefs vs) (with_verbs (<[p := newv]> (verbs d)) d);
  Ok (wrap32 (Z.of_nat (length vs)), d).

(** The first verb of a list that satisfies a test. *)
Fixpoint find_verb (heap : gmap positive Verbdef) (test : positive -> Verbdef -> bool)
    (vs : list positive) : res (option positive) :=
  match vs with
  | [] => Ok None
  | v :: vs =>
      vd ← deref (heap !! v);
      if test v vd then Ok (Some v) else find_verb heap test vs
  end.

(** [same v]: is the name of [v] the very pointer that is searched for? *)
Definition find_verbdef_by_name (d : db) (o : Object) (same : positive -> bool) (vname : cstr)
    (check_x_bit : bool) : res (option positive) :=
  find_verb (verbs d) (fun v vd => verbcasecmp (same v) (v_name vd) vname
    && (negb check_x_bit || negb (Z.land (v_perms vd) VF_EXEC =? 0))) (verbdefs o).

Definition db_count_verbs (d : db) (oid : Z) : res Z :=
  o ← deref (dbpriv_find_object d oid);
  Ok (wrap32 (Z.of_nat (length (verbdefs o)))).

Fixpoint for_all_verbs {D : Type} (heap : gmap positive Verbdef) (func : D -> cstr -> bool * D)
    (data : D) (vs : list positive) : res (bool * D) :=
  match vs with
  | [] => Ok (false, data)
  | v :: vs =>
      vd ← deref (heap !! v);
      let '(stop, data) := func data (v_name vd) in
      if (stop : bool) then Ok (true, data) else for_all_verbs heap func data vs
  end.
Definition db_for_all_verbs {D} (d : db) (oid : Z) (func : D -> cstr -> bool * D) (data : D)
    : res (bool * D) :=
  o ← deref (dbpriv_find_object d oid);
  for_all_verbs (verbs d) func data (verbdefs o).

(** ** Deleting *)

(** [while (vv->next != v) vv = vv->next;] *)
Fixpoint unlink_verb (v : positive) (vs : list positive) : res (list positive) :=
  match vs with
  | [] => Fail Segv
  | x :: vs => if decide (x = v) then Ok vs else cons x <$> unlink_verb v vs
  end.

(** The program is freed by program.c. *)
Definition db_delete_verb (vh : db_verb_handle) (d : db) : res db :=
  h ← deref_handle d vh Segv;
  o ← deref (dbpriv_find_object d (definer h));
  let d := db_priv_affected_callable_verb_lookup d in
  vs ← unlink_verb (verbdef h) (verbdefs o);
  d ← upd_object (definer h) (set_verbdefs vs) d;
  _ ← deref (verbs d !! verbdef h);
  Ok (with_verbs (delete (verbdef h) (verbs d)) d).

(** ** Searches without the cache *)

Fixpoint find_in_objects (find : Object -> res (option positive)) (os : list Object)
    : res (option handle) :=
  match os with
  | [] => Ok None
  | o :: os =>
      v ← find o;
      match v with
      | Some v => Ok (Some (mkHandle (id o) v))
      | None => find_in_objects find os
      end
  end.

Definition static_handle (h : option handle) : db_verb_handle :=
  match h with Some h => StaticHandle h | None => NullHandle end.

Definition command_matches (same : positive -> bool) (verb : cstr) (dobj prep iobj : Z)
    (v : positive) (vd : Verbdef) : bool :=
  verbcasecmp (same v) (v_name vd) verb
  && ((verb_dobj vd =? ASPEC_ANY) || (verb_dobj vd =? dobj))
  && ((v_prep vd =? PREP_ANY) || (u32 (v_prep vd) =? u32 prep))
  && ((verb_iobj vd =? ASPEC_ANY) || (verb_iobj vd =? iobj)).

Definition db_find_command_verb (d : db) (same : positive -> bool) (oid : Z) (verb : cstr)
    (dobj prep iobj : Z) : res db_verb_handle :=
  os ← ancestry d oid;
  h ← find_in_objects (fun o =>
        find_verb (verbs d) (command_matches same verb dobj prep iobj) (verbdefs o)) os;
  Ok (static_handle h).

(** The number that [vname] stands for, or -1. *)
Definition verb_number (vname : cstr) (allow_numbers : bool) : Z :=
  if negb allow_numbers then -1
  else
    let '(num, p) := strtoimax vname in
    if isspace (cur vname) || negb (bool_decide (p = [])) then -1 else wrap32 num.

Fixpoint find_numbered (heap : gmap positive Verbdef) (same : positive -> bool) (vname : cstr)
    (num i : Z) (vs : list positive) : res (option positive) :=
  match vs with
  | [] => Ok None
  | v :: vs =>
      vd ← deref (heap !! v);
      if (i =? num) || verbcasecmp (same v) (v_name vd) vname then Ok (Some v)
      else find_numbered heap same vname num (i + 1) vs
  end.

Definition db_find_defined_verb (d : db) (same : positive -> bool) (oid : Z) (vname : cstr)
    (allow_numbers : bool) : res db_verb_handle :=
  o ← deref (dbpriv_find_object d oid);
  v ← find_numbered (verbs d) same vname (verb_number vname allow_numbers) 0 (verbdefs o);
  Ok (static_handle (mkHandle (id o) <$> v)).

(** [index] is unsigned, and counts from 1. *)
Definition db_find_indexed_verb (d : db) (oid index : Z) : res db_verb_handle :=
  o ← deref (dbpriv_find_object d oid);
  Ok (static_handle (mkHandle (id o) <$>
        (if index =? 0 then None else verbdefs o !! Z.to_nat (index - 1)))).

(** ** Searches through the cache *)

Definition make_vc_table (d : db) : db :=
  match vc_table d with
  | None => with_cache (Some ∅) (db_verb_generation d) (verbcache_hit d) (verbcache_neg_hit d)
              (verbcache_miss d) d
  | Some _ => d
  end.

(** The first object with verbs, and those above it. *)
Fixpoint drop_verbless (os : list Object) : list Object :=
  match os with
  | o :: os' => if bool_decide (verbdefs o = []) then drop_verbless os' else os
  | [] => []
  end.

Definition vc_key_hash (verb : cstr) (key : Z) : Z := u32 (Z.lxor (str_hash verb) (Z.lnot key)).

Definition entry_matches (verb : cstr) (hash key : Z) (e : vc_entry) : bool :=
  (hash =? vc_hash e) && (key =? oid_key e) && (mystrcasecmp verb (verbname e) =? 0).

Definition count_hit (d : db) : db := with_cache (vc_table d) (db_verb_generation d)
  (wrap32 (verbcache_hit d + 1)) (verbcache_neg_hit d) (verbcache_miss d) d.
Definition count_neg_hit (d : db) : db := with_cache (vc_table d) (db_verb_generation d)
  (verbcache_hit d) (wrap32 (verbcache_neg_hit d + 1)) (verbcache_miss d) d.
(** [verbcache_miss++], and the new entry in front of its bucket. *)
Definition add_entry (e : vc_entry) (d : db) : db :=
  let t := default ∅ (vc_table d) in
  let b := vc_hash e mod DEFAULT_VC_SIZE in
  with_cache (Some (<[b := e :: bucket t b]> t)) (db_verb_generation d)
    (verbcache_hit d) (verbcache_neg_hit d) (wrap32 (verbcache_miss d + 1)) d.

Definition db_find_callable_verb (same : positive -> bool) (oid : Z) (verb : cstr) (d : db)
    : res (db_verb_handle * db) :=
  let d := make_vc_table d in
  os ← ancestry d oid;
  let os := drop_verbless os in
  let key := match os with o :: _ => id o | [] => NOTHING end in
  let hash := vc_key_hash verb key in
  match List.find (entry_matches verb hash key)
          (bucket (default ∅ (vc_table d)) (hash mod DEFAULT_VC_SIZE)) with
  | Some e =>
      match vc_h e with
      | Some _ => Ok (CachedHandle e, count_hit d)
      | None => Ok (NullHandle, count_neg_hit d)
      end
  | None =>
      h ← find_in_objects (fun o => find_verbdef_by_name d o same verb true) os;
      let e := mkEntry hash key verb h in
      Ok (match h with Some _ => CachedHandle e | None => NullHandle end, add_entry e d)
  end.

Definition VC_CACHE_STATS_MAX : nat := 16.

(** How many buckets have [k] entries, [VC_CACHE_STATS_MAX] standing for it and more. *)
Definition depth_of (t : gmap Z (list vc_entry)) (b : Z) : nat :=
  Nat.min (length (bucket t b)) VC_CACHE_STATS_MAX.
Definition histogram (d : db) (k : nat) : Z :=
  match vc_table d with
  | None => 0
  | Some t => Z.of_nat (length (List.filter (fun b => Nat.eqb (depth_of t b) k) (seqZ 0 DEFAULT_VC_SIZE)))
  end.
Definition db_verb_cache_stats (d : db) : Var :=
  List [Int (verbcache_hit d); Int (verbcache_neg_hit d); Int (verbcache_miss d);
        Int (db_verb_generation d);
        List ((fun k => Int (histogram d k)) <$> seq 0 (S VC_CACHE_STATS_MAX))].

(** ** Reading and changing a verb

    The pointer to the handle is read before the cache is emptied, what it points to
    after. *)

Definition get_verb (d : db) (vh : db_verb_handle) (null : failure) : res Verbdef :=
  h ← deref_handle d vh null;
  deref (verbs d !! verbdef h).

Definition upd_verb (vh : db_verb_handle) (null : failure) (f : Verbdef -> Verbdef) (d : db)
    : res db :=
  h ← deref_handle d vh null;
  vd ← deref (verbs d !! verbdef h);
  Ok (with_verbs (<[verbdef h := f vd]> (verbs d)) d).

Definition db_verb_definer (d : db) (vh : db_verb_handle) : res Z :=
  definer <$> deref_handle d vh (Panic "DB_VERB_DEFINER: Null handle!").
Definition db_verb_names (d : db) (vh : db_verb_handle) : res cstr :=
  v_name <$> get_verb d vh (Panic "DB_VERB_NAMES: Null handle!").
Definition db_set_verb_names (vh : db_verb_handle) (names : cstr) (d : db) : res db :=
  upd_verb vh (Panic "DB_SET_VERB_NAMES: Null handle!")
    (fun v => mkVerbdef names (v_program v) (v_owner v) (v_perms v) (v_prep v))
    (db_priv_affected_callable_verb_lookup d).
Definition db_verb_owner (d : db) (vh : db_verb_handle) : res Z :=
  v_owner <$> get_verb d vh (Panic "DB_VERB_OWNER: Null handle!").
Definition db_set_verb_owner (vh : db_verb_handle) (own : Z) (d : db) : res db :=
  upd_verb vh (Panic "DB_SET_VERB_OWNER: Null handle!")
    (fun v => mkVerbdef (v_name v) (v_program v) own (v_perms v) (v_prep v)) d.
Definition db_verb_flags (d : db) (vh : db_verb_handle) : res Z :=
  (fun v => Z.land (v_perms v) PERMMASK) <$> get_verb d vh (Panic "DB_VERB_FLAGS: Null handle!").
Definition db_set_verb_flags (vh : db_verb_handle) (flags : Z) (d : db) : res db :=
  upd_verb vh (Panic "DB_SET_VERB_FLAGS: Null handle!")
    (fun v => mkVerbdef (v_name v) (v_program v) (v_owner v)
       (wrap16 (Z.lor (Z.land (v_perms v) (Z.lnot PERMMASK)) flags)) (v_prep v))
    (db_priv_affected_callable_verb_lookup d).
(** [null_program()] of src/program.c is a parameter. *)
Definition db_verb_program (null_program : positive) (d : db) (vh : db_verb_handle) : res positive :=
  (fun v => default null_program (v_program v)) <$> get_verb d vh (Panic "DB_VERB_PROGRAM: Null handle!").
Definition db_set_verb_program (vh : db_verb_handle) (program : positive) (d : db) : res db :=
  upd_verb vh (Panic "DB_SET_VERB_PROGRAM: Null handle!")
    (fun v => mkVerbdef (v_name v) (Some program) (v_owner v) (v_perms v) (v_prep v)) d.
Definition db_verb_arg_specs (d : db) (vh : db_verb_handle) : res (Z * Z * Z) :=
  (fun v => (verb_dobj v, v_prep v, verb_iobj v))
    <$> get_verb d vh (Panic "DB_VERB_ARG_SPECS: Null handle!").
Definition db_set_verb_arg_specs (vh : db_verb_handle) (dobj prep iobj : Z) (d : db) : res db :=
  upd_verb vh (Panic "DB_SET_VERB_ARG_SPECS: Null handle!")
    (fun v => mkVerbdef (v_name v) (v_program v) (v_owner v)
       (pack_perms (Z.land (v_perms v) PERMMASK) dobj iobj) (wrap16 prep))
    (db_priv_affected_callable_verb_lookup d).
Definition db_verb_allows (d : db) (vh : db_verb_handle) (progr flag : Z) : res bool :=
  fl ← db_verb_flags d vh;
  if negb (Z.land fl flag =? 0) then Ok true
  else
    own ← db_verb_owner d vh;
    if progr =? own then Ok true else is_wizard d progr.
