(* ===== verification/VerbCache.v ===== *)
(** * Searching for verbs: the theorems (src/db_verbs.c)

    What a search for a callable verb means, without and with the cache, and what keeps
    the cache coherent. *)

From S2P Require Import Prelude CStrings Values Lists Libc Links Db Properties Layout Tables Objects.
From S2P Require Import Sample ObjectOps Preps Verbs.

Open Scope Z_scope.

(** ** The meaning of a search

    The verbs of an object and its ancestors, in the order in which they are tried. *)
Definition chain (d : db) (ls : list Z) : list handle :=
  ls ≫= fun x => match objects d !! x with Some o => mkHandle x <$> verbdefs o | None => [] end.

(** The verb of a handle can be called by this name. *)
Definition answers (d : db) (verb : cstr) (h : handle) : bool :=
  match verbs d !! verbdef h with
  | Some vd => verbcasecmp false (v_name vd) verb && negb (Z.land (v_perms vd) VF_EXEC =? 0)
  | None => false
  end.

(** The names of verbs are C strings. *)
Definition wf_vnames (d : db) : Prop := forall v vd, verbs d !! v = Some vd -> nul_free (v_name vd).

(** The search that [db_find_callable_verb] makes when the cache does not know. *)
Definition uncached (d : db) (oid : Z) (verb : cstr) : res (option handle) :=
  os ← ancestry d oid;
  find_in_objects (fun o => find_verbdef_by_name d o (fun _ => false) verb true) os.

(** ** Searches *)

Lemma find_verb_Ok heap test vs : (forall v, v ∈ vs -> is_Some (heap !! v)) ->
  find_verb heap test vs
  = Ok (List.find (fun v => match heap !! v with Some vd => test v vd | None => false end) vs).
Proof.
  induction vs as [|v vs IH]; intros H; cbn; [done|].
  destruct (H v) as [vd Hv]; [apply elem_of_cons; by left|]. rewrite Hv. cbn [deref mbind res_bind].
  destruct (test v vd); [done|]. apply IH. intros w Hw. apply H, elem_of_cons. by right.
Qed.

(** The objects of a lineage. *)
Definition objects_along (d : db) (ls : list Z) (os : list Object) : Prop :=
  Forall2 (fun x o => objects d !! x = Some o) ls os.

Section search.
Context (F : forest) (d : db) (HF : wf_forest F) (Hr : represents family (objects d) F).
Context (Ht : wf_table d) (Hv : wf_verbs d).

Lemma objects_along_Ok x ls : lineage F x ls -> exists os, ancestry d x = Ok os /\ objects_along d ls os.
Proof.
  intros Hl. destruct (ancestry_Ok d F Hr Ht x ls Hl) as (os & Ho & Hos). exists os.
  split; [done|exact Hos].
Qed.

(** Every search goes along some list of objects, an empty one from an invalid object. *)
Lemma ancestry_any x : exists ls os, ancestry d x = Ok os /\ objects_along d ls os /\
  (lineage F x ls \/ (ls = [] /\ par F !! x = None)).
Proof.
  destruct (par F !! x) eqn:Hx.
  - destruct (wf_acyclic F HF x) as [ls Hl]; [eauto|].
    destruct (objects_along_Ok x ls Hl) as (os & H1 & H2). exists ls, os. auto.
  - exists [], []. split; [|split; [constructor|by right]].
    assert (Hn : objects d !! x = None).
    { destruct (objects d !! x) eqn:Ho; [|done].
      assert (is_Some (objects d !! x)) as Hs by eauto.
      apply (represents_dom family _ F Hr) in Hs as [? ?]. congruence. }
    unfold ancestry. destruct (size (objects d)); cbn [ancestry_from]; by rewrite (find_object_eq d x Ht), Hn.
Qed.

Lemma find_in_objects_Ok (find : Object -> res (option positive)) (test : handle -> bool) ls os :
  objects_along d ls os ->
  (forall x o, objects d !! x = Some o ->
     find o = Ok (List.find (fun v => test (mkHandle x v)) (verbdefs o))) ->
  find_in_objects find os = Ok (List.find test (chain d ls)).
Proof.
  intros H Hf. induction H as [|x o ls os Hx H IH]; [done|]. cbn [find_in_objects].
  unfold chain. cbn [mbind list_bind]. fold (chain d ls). rewrite Hx, (Hf x o Hx).
  cbn [mbind res_bind]. rewrite find_app, find_fmap.
  destruct (List.find _ (verbdefs o)) as [v|]; cbn [fmap option_fmap option_map]; [|done].
  by rewrite (wf_id d Ht x o Hx).
Qed.

Lemma find_verbdef_Ok verb x o : objects d !! x = Some o ->
  find_verbdef_by_name d o (fun _ => false) verb true
  = Ok (List.find (fun v => answers d verb (mkHandle x v)) (verbdefs o)).
Proof.
  intros Hx. unfold find_verbdef_by_name. rewrite find_verb_Ok.
  - done.
  - intros v Hin. by apply (wv_exists d Hv x o v).
Qed.

Lemma uncached_along x ls os verb : ancestry d x = Ok os -> objects_along d ls os ->
  uncached d x verb = Ok (List.find (answers d verb) (chain d ls)).
Proof.
  intros Ho Hos. unfold uncached. rewrite Ho. cbn [mbind res_bind].
  apply (find_in_objects_Ok _ _ ls os Hos). intros y o. apply find_verbdef_Ok.
Qed.

Lemma uncached_lineage x ls verb : lineage F x ls ->
  uncached d x verb = Ok (List.find (answers d verb) (chain d ls)).
Proof.
  intros Hl. destruct (objects_along_Ok x ls Hl) as (os & Ho & Hos). by apply (uncached_along x ls os).
Qed.

(** Objects without verbs are passed over: the search starts at the first one with verbs. *)
Lemma drop_verbless_spec x ls os : objects_along d ls os -> (lineage F x ls \/ ls = []) ->
  let os' := drop_verbless os in
  let key := match os' with o :: _ => id o | [] => NOTHING end in
  exists ls', objects_along d ls' os' /\ lineage F key ls' /\ chain d ls' = chain d ls /\
    (key = NOTHING \/ exists o, objects d !! key = Some o /\ verbdefs o <> []).
Proof.
  cbv zeta. intros H. revert x. induction H as [|y o ls os Hy H IH]; intros x Hl.
  { exists []. split_and!; [constructor|done|done|by left]. }
  destruct Hl as [Hl|]; [|done]. unfold lineage in Hl. cbn [path] in Hl.
  pose proof Hl as (-> & Hy0 & p & Hp & Hl'). cbn [drop_verbless]. case_bool_decide as Hvs.
  - destruct (IH p (or_introl Hl')) as (ls' & H1 & H2 & H3 & H4). exists ls'.
    split_and!; [done|done| |done]. rewrite H3. unfold chain at 2. cbn [mbind list_bind].
    by rewrite Hy, Hvs.
  - rewrite (wf_id d Ht y o Hy). exists (y :: ls). split_and!; [by constructor|exact Hl|done|].
    right. by exists o.
Qed.

(** The name matters up to case only. *)
Lemma answers_ci verb verb' h : wf_vnames d -> nul_free verb -> nul_free verb' -> ci_eq verb verb' ->
  answers d verb h = answers d verb' h.
Proof.
  intros Hn Hv1 Hv2 Hc. unfold answers. destruct (verbs d !! verbdef h) as [vd|] eqn:E; [|done].
  f_equal. apply eq_true_iff_eq. pose proof (Hn _ _ E) as Hnm.
  unfold verbcasecmp. cbn [orb]. rewrite !verbcasecmp_loop_spec by done.
  split; intros (a & Ha & Hm); exists a; (split; [done|]); [by rewrite <- Hc|by rewrite Hc].
Qed.

Lemma uncached_ci x verb verb' : wf_vnames d -> nul_free verb -> nul_free verb' -> ci_eq verb verb' ->
  uncached d x verb = uncached d x verb'.
Proof.
  intros Hn Hv1 Hv2 Hc. destruct (ancestry_any x) as (ls & os & Ho & Hos & _).
  rewrite !(uncached_along x ls os) by done. f_equal. apply find_ext. intros h _.
  by apply answers_ci.
Qed.

End search.

(** ** The cache

    Every entry is in the bucket of its hash, and holds what the search would answer now. *)
Record wf_entry (d : db) (e : vc_entry) : Prop := {
  we_hash : vc_hash e = vc_key_hash (verbname e) (oid_key e);
  we_name : nul_free (verbname e);
  we_key : oid_key e = NOTHING \/ exists o, objects d !! oid_key e = Some o /\ verbdefs o <> [];
  we_value : uncached d (oid_key e) (verbname e) = Ok (vc_h e) }.

Definition wf_cache (d : db) : Prop := forall t b e, vc_table d = Some t -> e ∈ bucket t b ->
  b = vc_hash e mod DEFAULT_VC_SIZE /\ wf_entry d e.

(** The cache and its counters aside, the databases are the same. *)
Definition same_but_cache (d d' : db) : Prop :=
  with_cache None 0 0 0 0 d' = with_cache None 0 0 0 0 d.

(** What a handle stands for. *)
Definition denotes (d : db) (vh : db_verb_handle) (r : option handle) : Prop :=
  match r with
  | None => vh = NullHandle
  | Some h => forall null, deref_handle d vh null = Ok h
  end.

Lemma same_but_cache_fields d d' : same_but_cache d d' -> objects d' = objects d /\
  num_objects d' = num_objects d /\ max_objects d' = max_objects d /\ all_users d' = all_users d /\
  verbs d' = verbs d /\ wpds d' = wpds d.
Proof. unfold same_but_cache, with_cache. intros [= ? ? ? ? ? ?]. done. Qed.

Lemma uncached_same d d' x verb : objects d' = objects d -> num_objects d' = num_objects d ->
  verbs d' = verbs d -> uncached d' x verb = uncached d x verb.
Proof.
  intros Ho Hn Hv. unfold uncached. rewrite (ancestry_same d d' x Ho Hn).
  destruct (ancestry d x) as [os|]; [|done]. cbn [mbind res_bind]. unfold find_verbdef_by_name.
  by rewrite Hv.
Qed.

Lemma wf_entry_same d d' e : objects d' = objects d -> num_objects d' = num_objects d ->
  verbs d' = verbs d -> wf_entry d e -> wf_entry d' e.
Proof.
  intros Ho Hn Hv [H1 H2 H3 H4]. split; [done|done| |].
  - by rewrite Ho.
  - by rewrite (uncached_same d d').
Qed.

Lemma wf_cache_empty d : vc_table d = None \/ vc_table d = Some ∅ -> wf_cache d.
Proof.
  intros [H|H] t b e Ht; rewrite H in Ht; [done|]. injection Ht as <-.
  unfold bucket. rewrite lookup_empty. by intros ?%elem_of_nil.
Qed.

Lemma flush_empty d : wf_cache (db_priv_affected_callable_verb_lookup d).
Proof.
  apply wf_cache_empty. unfold db_priv_affected_callable_verb_lookup.
  destruct (vc_table d) eqn:E; [by right|by left].
Qed.

Lemma bucket_insert t b x es : bucket (<[b := es]> t) x = if decide (x = b) then es else bucket t x.
Proof.
  unfold bucket. case_decide; [subst; by rewrite lookup_insert_eq|by rewrite lookup_insert_ne].
Qed.

Lemma add_entry_wf d e : wf_cache d -> wf_entry d e -> wf_cache (add_entry e d).
Proof.
  intros Hc He t b e' Ht Hin. unfold add_entry in Ht. cbn in Ht. injection Ht as <-.
  rewrite bucket_insert in Hin.
  assert (Hold : forall b, e' ∈ bucket (default ∅ (vc_table d)) b ->
            b = vc_hash e' mod DEFAULT_VC_SIZE /\ wf_entry d e').
  { intros b' Hb. destruct (vc_table d) as [t|] eqn:E; [by apply (Hc t)|].
    unfold bucket in Hb. cbn in Hb. rewrite lookup_empty in Hb. by apply elem_of_nil in Hb. }
  assert (H : b = vc_hash e' mod DEFAULT_VC_SIZE /\ wf_entry d e').
  { case_decide as Hb; [|by apply Hold]. apply elem_of_cons in Hin as [->|Hin]; [by split|].
    rewrite Hb. by apply Hold. }
  destruct H as [-> H]. split; [done|]. by apply (wf_entry_same d).
Qed.

Lemma add_entry_live d e : entry_live (add_entry e d) e = true.
Proof.
  unfold entry_live, add_entry. cbn. apply bool_decide_eq_true. rewrite bucket_insert, decide_True by done.
  apply elem_of_cons. by left.
Qed.

(** ** Searching through the cache *)

Section cached.
Context (F : forest) (d : db) (HF : wf_forest F) (Hr : represents family (objects d) F).
Context (Ht : wf_table d) (Hv : wf_verbs d) (Hn : wf_vnames d) (Hc : wf_cache d).
Context (t : gmap Z (list vc_entry)) (Htab : vc_table d = Some t).
Context (key : Z) (verb : cstr) (Hverb : nul_free verb).
Context (Hkey : key = NOTHING \/ exists o, objects d !! key = Some o /\ verbdefs o <> []).

Let hash := vc_key_hash verb key.

Lemma hit_Ok e : List.find (entry_matches verb hash key) (bucket t (hash mod DEFAULT_VC_SIZE)) = Some e ->
  entry_live d e = true /\ uncached d key verb = Ok (vc_h e).
Proof.
  intros [Hin Hm]%List.find_some. apply list_elem_of_In in Hin.
  unfold entry_matches in Hm. rewrite !andb_true_iff, !Z.eqb_eq in Hm. destruct Hm as [[Hh Hk] Hnm].
  destruct (Hc t _ e Htab Hin) as [Hb [Heh Hen _ Hev]].
  apply mystrcasecmp_zero in Hnm; [|done..]. split.
  - unfold entry_live. rewrite Htab. apply bool_decide_eq_true. by rewrite <- Hh.
  - rewrite (uncached_ci F d HF Hr Ht Hv key verb (verbname e)) by done. by rewrite Hk.
Qed.

Lemma new_entry_wf h : uncached d key verb = Ok h -> wf_entry d (mkEntry hash key verb h).
Proof. intros Hu. by split. Qed.

End cached.

Lemma callable_cached F d oid verb : wf_forest F -> represents family (objects d) F -> wf_table d ->
  wf_verbs d -> wf_vnames d -> wf_cache d -> nul_free verb ->
  exists r vh d', uncached d oid verb = Ok r /\
    db_find_callable_verb (fun _ => false) oid verb d = Ok (vh, d') /\
    denotes d' vh r /\ same_but_cache d d' /\ wf_cache d'.
Proof.
  intros HF Hr Ht Hv Hn Hc Hverb. unfold db_find_callable_verb.
  set (d0 := make_vc_table d).
  assert (Hs : same_but_cache d d0 /\ wf_cache d0 /\ exists t, vc_table d0 = Some t).
  { unfold d0, make_vc_table. destruct (vc_table d) as [t|] eqn:E; [by split; [|split; [|exists t]]|].
    split; [done|]. split; [by apply wf_cache_empty; right|by eexists]. }
  destruct Hs as (Hs & Hc0 & t & Htab). clearbody d0.
  destruct (same_but_cache_fields d d0 Hs) as (Ho & Hnum & Hmax & _ & Hvs & _).
  assert (Hr0 : represents family (objects d0) F) by (by rewrite Ho).
  assert (Ht0 : wf_table d0) by (destruct Ht; split; rewrite ?Ho, ?Hnum, ?Hmax; done).
  assert (Hv0 : wf_verbs d0) by (destruct Hv; split; rewrite ?Ho, ?Hvs; done).
  assert (Hn0 : wf_vnames d0) by (unfold wf_vnames; by rewrite Hvs).
  destruct (ancestry_any F d0 HF Hr0 Ht0 oid) as (ls & os & Ha & Hos & Hl). rewrite Ha.
  cbn [mbind res_bind].
  destruct (drop_verbless_spec F d0 Ht0 oid ls os Hos) as (ls' & Hos' & Hl' & Hch & Hkey); [tauto|].
  set (os' := drop_verbless os) in *. set (key := match os' with o :: _ => id o | [] => NOTHING end) in *.
  assert (Hunc : uncached d oid verb = uncached d0 key verb).
  { rewrite <- (uncached_same d d0) by done.
    rewrite (uncached_along d0 Ht0 Hv0 oid ls os verb Ha Hos).
    by rewrite (uncached_lineage F d0 Hr0 Ht0 Hv0 key ls' verb Hl'), Hch. }
  rewrite Htab. cbn [default from_option Datatypes.id].
  destruct (List.find (entry_matches verb (vc_key_hash verb key) key)
              (bucket t (vc_key_hash verb key mod DEFAULT_VC_SIZE))) as [e|] eqn:Ef.
  - destruct (hit_Ok F d0 HF Hr0 Ht0 Hv0 Hn0 Hc0 t Htab key verb Hverb e Ef) as [Hlive Hu].
    assert (Hcount : forall d1, same_but_cache d0 d1 -> vc_table d1 = vc_table d0 -> wf_cache d1).
    { intros d1 Hs1 Et t1 b e1 Et1 Hin. rewrite Et in Et1.
      destruct (same_but_cache_fields d0 d1 Hs1) as (? & ? & _ & _ & ? & _).
      destruct (Hc0 t1 b e1 Et1 Hin) as [-> He1]. split; [done|]. by apply (wf_entry_same d0). }
    exists (vc_h e). rewrite Hunc. destruct (vc_h e) as [h|] eqn:Eh.
    + exists (CachedHandle e), (count_hit d0). split_and!; [done|done| |exact Hs|by apply Hcount].
      intros null. cbn. change (entry_live (count_hit d0) e) with (entry_live d0 e).
      by rewrite Hlive, Eh.
    + exists NullHandle, (count_neg_hit d0). split_and!; [done|done|done|exact Hs|by apply Hcount].
  - assert (Hu : exists h, uncached d0 key verb = Ok h /\
      find_in_objects (fun o => find_verbdef_by_name d0 o (fun _ => false) verb true) os' = Ok h).
    { eexists. split; [exact (uncached_lineage F d0 Hr0 Ht0 Hv0 key ls' verb Hl')|].
      apply (find_in_objects_Ok d0 Ht0 _ _ ls' os' Hos'). intros y o. by apply find_verbdef_Ok. }
    destruct Hu as (h & Hu & ->). cbn [mbind res_bind]. rewrite Hunc.
    pose proof (new_entry_wf d0 key verb Hverb Hkey h Hu) as He. set (e := mkEntry _ _ _ _) in *.
    exists h, (match h with Some _ => CachedHandle e | None => NullHandle end), (add_entry e d0).
    split_and!; [done|done| |exact Hs|by apply add_entry_wf].
    destruct h as [h|]; [|done]. intros null. unfold deref_handle. by rewrite add_entry_live.
Qed.

(** ** What keeps the cache coherent *)

Section kept.
Context (F F' : forest) (d d' : db).
Context (HF : wf_forest F) (Hr : represents family (objects d) F) (Ht : wf_table d) (Hv : wf_verbs d).
Context (Hr' : represents family (objects d') F') (Ht' : wf_table d') (Hv' : wf_verbs d').
Context (Hverbs : forall v vd, verbs d !! v = Some vd -> exists vd', verbs d' !! v = Some vd' /\
  v_name vd' = v_name vd /\ v_perms vd' = v_perms vd).
(** The lineages of the objects with verbs, and the verbs along them. *)
Context (Hline : forall x o ls, objects d !! x = Some o -> verbdefs o <> [] -> lineage F x ls ->
  lineage F' x ls /\ forall y, y ∈ ls -> verbdefs <$> objects d' !! y = verbdefs <$> objects d !! y).

Lemma chain_ext ls : (forall y, y ∈ ls -> verbdefs <$> objects d' !! y = verbdefs <$> objects d !! y) ->
  chain d' ls = chain d ls.
Proof.
  induction ls as [|x ls IH]; intros H; [done|]. unfold chain. cbn [mbind list_bind].
  fold (chain d' ls) (chain d ls). rewrite IH by (intros y Hy; apply H, elem_of_cons; by right).
  f_equal. specialize (H x ltac:(apply elem_of_cons; by left)).
  destruct (objects d' !! x), (objects d !! x); cbn in *; congruence.
Qed.

Lemma chain_verb ls h : h ∈ chain d ls -> is_Some (verbs d !! verbdef h).
Proof.
  intros (x & Hx & _)%list_elem_of_bind. destruct (objects d !! x) as [o|] eqn:Ho; [|by apply elem_of_nil in Hx].
  apply list_elem_of_fmap in Hx as (v & -> & Hin). by apply (wv_exists d Hv x o v).
Qed.

Lemma uncached_kept x verb o : objects d !! x = Some o -> verbdefs o <> [] ->
  uncached d' x verb = uncached d x verb.
Proof.
  intros Ho Hne. assert (is_Some (par F !! x)) as Hx by (apply (represents_dom family _ F Hr); eauto).
  destruct (wf_acyclic F HF x Hx) as [ls Hl]. destruct (Hline x o ls Ho Hne Hl) as [Hl' Hvs].
  rewrite (uncached_lineage F d Hr Ht Hv x ls) by done.
  rewrite (uncached_lineage F' d' Hr' Ht' Hv' x ls) by done. f_equal. rewrite chain_ext by done.
  apply find_ext. intros h Hh. unfold answers. destruct (chain_verb ls h Hh) as [vd E].
  destruct (Hverbs _ _ E) as (vd' & E' & En & Ep). by rewrite E, E', En, Ep.
Qed.

Lemma cache_kept : vc_table d' = vc_table d -> wf_cache d -> wf_cache d'.
Proof.
  intros Et Hc t b e Htab Hin. rewrite Et in Htab. destruct (Hc t b e Htab Hin) as [Hb [H1 H2 H3 H4]].
  split; [done|]. destruct H3 as [Hk|(o & Ho & Hne)]; split; try done.
  - by left.
  - rewrite Hk in *. rewrite <- H4. rewrite (uncached_lineage F d Hr Ht Hv NOTHING []) by done.
    by rewrite (uncached_lineage F' d' Hr' Ht' Hv' NOTHING []).
  - right. assert (is_Some (par F !! oid_key e)) as Hx by (apply (represents_dom family _ F Hr); eauto).
    destruct (wf_acyclic F HF _ Hx) as [ls Hl]. destruct (Hline _ o ls Ho Hne Hl) as [_ Hvs].
    destruct (lineage_self F HF _ ls Hx Hl) as [l' ->].
    specialize (Hvs (oid_key e) ltac:(apply elem_of_cons; by left)). rewrite Ho in Hvs.
    apply fmap_Some in Hvs as (o' & Ho' & He). exists o'. split; [done|]. by rewrite <- He.
  - by rewrite (uncached_kept _ _ o).
Qed.

End kept.

(** ** Properties *)


Definition vnames_ok (d : db) : bool := forallb (fun e => bool_decide (nul_free (v_name (snd e))))
  (map_to_list (verbs d)).
Lemma vnames_ok_spec d : vnames_ok d = true -> wf_vnames d.
Proof.
  intros H v vd Hv%elem_of_map_to_list. pose proof (forallb_elem _ _ _ H Hv) as Hx.
  by apply bool_decide_eq_true in Hx.
Qed.

