(* ===== verification/VerbOps.v ===== *)
(** * Changing verbs: the theorems (src/db_verbs.c)

    Adding, deleting and changing verbs keep the database well-formed and the cache
    coherent; a handle that comes from the cache is no longer good after a change. *)

From S2P Require Import Prelude CStrings Values Lists Libc Links Db Properties Layout Tables Objects.
From S2P Require Import Sample ObjectOps Preps Verbs VerbCache.

Open Scope Z_scope.

(** ** Attributes *)

(** The fields of the location hierarchy. *)
Definition placement (o : Object) : Z * Z * Z := (location o, contents o, next o).

Lemma wf_db_alike F P d d' : wf_db F P d -> alike d d' ->
  (forall y, placement <$> objects d' !! y = placement <$> objects d !! y) ->
  wf_users d' -> wf_verbs d' -> wf_db F P d'.
Proof.
  intros Hw Ha Hpl Hu Hv.
  assert (Hf : forall (f : Object -> Z) g, (forall o, f o = g (placement o)) ->
            forall y, f <$> objects d' !! y = f <$> objects d !! y).
  { intros f g Hfg y. specialize (Hpl y).
    destruct (objects d' !! y) as [o'|], (objects d !! y) as [o|]; cbn in *; try done.
    rewrite !Hfg. congruence. }
  split; [by apply (alike_props d); [|apply Hw]|apply Hw| |done|done].
  apply (represents_ext place (objects d)); [..|apply Hw].
  - by apply (Hf location (fun p => p.1.1)).
  - by apply (Hf contents (fun p => p.1.2)).
  - by apply (Hf next (fun p => p.2)).
Qed.

Lemma wf_users_same d d' : all_users d' = all_users d ->
  (forall y, flags <$> objects d' !! y = flags <$> objects d !! y) -> wf_users d -> wf_users d'.
Proof. apply wf_users_ext. Qed.

(** Updating one object. *)
Lemma insert_field {B} (f : Object -> B) (objs : gmap Z Object) x o o' y : objs !! x = Some o -> f o' = f o ->
  f <$> <[x := o']> objs !! y = f <$> objs !! y.
Proof.
  intros Ho Hf. destruct (decide (y = x)) as [->|].
  - rewrite lookup_insert_eq, Ho. cbn. by rewrite Hf.
  - by rewrite lookup_insert_ne.
Qed.

(** ** The verbs of one object change *)

Section one_object.
Context (F P : forest) (d : db) (Hw : wf_db F P d) (oid : Z) (o : Object).
Context (Ho : objects d !! oid = Some o).
Context (d1 : db) (vs : list positive) (heap : gmap positive Verbdef).
Context (Hobjs : objects d1 = <[oid := set_verbdefs vs o]> (objects d)).
Context (Hheap : verbs d1 = heap).
Context (Hnum : num_objects d1 = num_objects d) (Hmax : max_objects d1 = max_objects d)
  (Husers : all_users d1 = all_users d) (Hwpds : wpds d1 = wpds d).

Lemma reverbed_wf : wf_verbs d1 -> wf_db F P d1.
Proof.
  intros Hv. apply (wf_db_alike F P d); [done| | | |done].
  - split; [done..|]. intros y. rewrite Hobjs. by apply (insert_field core _ _ o).
  - intros y. rewrite Hobjs. by apply (insert_field placement _ _ o).
  - apply (wf_users_same d); [done| |apply Hw]. intros y. rewrite Hobjs. by apply (insert_field flags _ _ o).
Qed.

(** The verbs of the other objects are still there, and not among the new ones. *)
Lemma reverbed_verbs : NoDup vs ->
  (forall v, v ∈ vs -> is_Some (heap !! v)) ->
  (forall x ox v, x <> oid -> objects d !! x = Some ox -> v ∈ verbdefs ox ->
     is_Some (heap !! v) /\ v ∉ vs) ->
  wf_verbs d1.
Proof.
  intros Hnd Hin Hout. destruct (wdb_verbs _ _ _ Hw) as [He Hn Hown].
  assert (Hl : forall x ox, objects d1 !! x = Some ox ->
            x = oid /\ verbdefs ox = vs \/ x <> oid /\ objects d !! x = Some ox).
  { intros x ox. rewrite Hobjs. destruct (decide (x = oid)) as [->|].
    - rewrite lookup_insert_eq. intros [= <-]. by left.
    - rewrite lookup_insert_ne by done. by right. }
  split; rewrite ?Hheap.
  - intros x ox v [[-> ->]|[Hx Hox]]%Hl Hv; [by apply Hin|]. by apply (Hout x ox v).
  - intros x ox [[-> ->]|[Hx Hox]]%Hl; [done|]. by apply (Hn x ox).
  - intros x y ox oy v [[-> Ex]|[Hx Hox]]%Hl [[-> Ey]|[Hy Hoy]]%Hl Hvx Hvy; try done.
    + rewrite Ex in Hvx. by destruct (Hout y oy v Hy Hoy Hvy).
    + rewrite Ey in Hvy. by destruct (Hout x ox v Hx Hox Hvx).
    + by apply (Hown x y ox oy v).
Qed.
End one_object.

(** ** Adding *)

Lemma add_verb_Ok F P d oid o vnames own flags dobj prep iobj : wf_db F P d ->
  objects d !! oid = Some o ->
  exists p d', db_add_verb oid vnames own flags dobj prep iobj d
    = Ok (wrap32 (Z.of_nat (length (verbdefs o)) + 1), d') /\
    verbs d !! p = None /\
    verbs d' = <[p := mkVerbdef vnames None own (pack_perms flags dobj iobj) (wrap16 prep)]> (verbs d) /\
    objects d' = <[oid := set_verbdefs (verbdefs o ++ [p]) o]> (objects d) /\
    wf_db F P d' /\ wf_cache d'.
Proof.
  intros Hw Ho. pose proof (wdb_props _ _ _ Hw) as Hp. unfold db_add_verb.
  rewrite find_object_eq by apply Hp. rewrite Ho. cbn [deref mbind res_bind].
  destruct (flush_same d) as (Fo & Fn & Fm & Fu & Fv & Fp). rewrite Fv.
  set (p := base.fresh (dom (verbs d))).
  assert (Hnone : verbs d !! p = None) by (apply not_elem_of_dom, is_fresh).
  rewrite (upd_object_Ok _ oid o) by (by cbn; rewrite Fo). cbn [mbind res_bind].
  rewrite length_app. cbn [length]. eexists p, _.
  split; [by rewrite Nat2Z.inj_add|]. split; [done|]. split; [done|]. split; [by cbn; rewrite Fo|].
  split.
  - eapply (reverbed_wf F P d Hw oid o Ho); try done.
    { by cbn; rewrite Fo. }
    eapply (reverbed_verbs F P d Hw oid); [by cbn; rewrite Fo|done|..];
      cbn [verbs with_objects with_verbs].
    + apply NoDup_app. split; [by apply (wv_nodup d (wdb_verbs _ _ _ Hw) oid o)|].
      split; [|apply NoDup_singleton]. intros v Hv ->%list_elem_of_singleton.
      destruct (wv_exists d (wdb_verbs _ _ _ Hw) oid o p Ho Hv). congruence.
    + intros v [Hv| ->%list_elem_of_singleton]%elem_of_app; [|rewrite lookup_insert_eq; eauto].
      destruct (decide (v = p)) as [->|]; [rewrite lookup_insert_eq; eauto|].
      rewrite lookup_insert_ne by done. by apply (wv_exists d (wdb_verbs _ _ _ Hw) oid o).
    + intros x ox v Hx Hox Hv. destruct (wv_exists d (wdb_verbs _ _ _ Hw) x ox v Hox Hv) as [vd E].
      assert (v <> p) by congruence. rewrite lookup_insert_ne by done. split; [eauto|].
      intros [Hv'| ->%list_elem_of_singleton]%elem_of_app; [|done].
      apply Hx. by apply (wv_owner d (wdb_verbs _ _ _ Hw) x oid ox o v).
  - apply wf_cache_empty. cbn. pose proof (flush_empty d) as _.
    unfold db_priv_affected_callable_verb_lookup. destruct (vc_table d) eqn:E; cbn; [by right|by left].
Qed.

(** ** Handles that are good *)

(** The handle stands for a verb of an object. *)
Definition good_handle (d : db) (vh : db_verb_handle) (h : handle) (o : Object) (vd : Verbdef) : Prop :=
  (forall null, deref_handle d vh null = Ok h) /\ objects d !! definer h = Some o /\
  verbdef h ∈ verbdefs o /\ verbs d !! verbdef h = Some vd.

Lemma unlink_verb_Ok v vs : v ∈ vs -> exists l1 l2, vs = l1 ++ v :: l2 /\ v ∉ l1 /\
  unlink_verb v vs = Ok (l1 ++ l2).
Proof.
  induction vs as [|x vs IH]; [by intros ?%elem_of_nil|]. intros Hv. cbn [unlink_verb].
  case_decide as Hx; [subst; exists [], vs; split_and!; [done|by apply not_elem_of_nil|done]|].
  apply elem_of_cons in Hv as [->|Hv]; [done|].
  destruct (IH Hv) as (l1 & l2 & -> & Hn & ->). exists (x :: l1), l2.
  split_and!; [done|by apply not_elem_of_cons|done].
Qed.

Lemma delete_verb_Ok F P d vh h o vd : wf_db F P d -> good_handle d vh h o vd ->
  exists l1 l2 d', verbdefs o = l1 ++ verbdef h :: l2 /\ db_delete_verb vh d = Ok d' /\
    verbs d' = delete (verbdef h) (verbs d) /\
    objects d' = <[definer h := set_verbdefs (l1 ++ l2) o]> (objects d) /\
    wf_db F P d' /\ wf_cache d'.
Proof.
  intros Hw (Hd & Ho & Hin & Hv). pose proof (wdb_props _ _ _ Hw) as Hp. unfold db_delete_verb.
  rewrite Hd. cbn [mbind res_bind]. rewrite find_object_eq by apply Hp. rewrite Ho.
  cbn [deref mbind res_bind]. destruct (unlink_verb_Ok _ _ Hin) as (l1 & l2 & Evs & Hn1 & Hu).
  destruct (flush_same d) as (Fo & Fn & Fm & Fu & Fv & Fp). rewrite Hu. cbn [mbind res_bind].
  rewrite (upd_object_Ok _ (definer h) o) by (by rewrite Fo). cbn [mbind res_bind].
  cbn [verbs with_objects]. rewrite Fv, Hv. cbn [deref mbind res_bind].
  destruct (wdb_verbs _ _ _ Hw) as [He Hn Hown]. pose proof (Hn _ _ Ho) as Hnd. rewrite Evs in Hnd.
  apply NoDup_app in Hnd as (Hnd1 & Hnd12 & [Hvl2 Hnd2]%NoDup_cons).
  eexists l1, l2, _. split; [done|]. split; [done|]. split; [done|]. split; [by cbn; rewrite Fo|]. split.
  - eapply (reverbed_wf F P d Hw (definer h) o Ho); try done.
    { by cbn; rewrite Fo. }
    eapply (reverbed_verbs F P d Hw (definer h)); [by cbn; rewrite Fo|done|..];
      cbn [verbs with_objects with_verbs].
    + apply NoDup_app. split_and!; [done| |done]. intros v Hv1 Hv2. apply (Hnd12 v Hv1), elem_of_cons. by right.
    + intros v Hvin. rewrite lookup_delete_ne.
      * apply (He (definer h) o v Ho). rewrite Evs. apply elem_of_app in Hvin as [|]; apply elem_of_app;
          [by left|right; apply elem_of_cons; by right].
      * intros <-. by apply elem_of_app in Hvin as [|].
    + intros x ox v Hx Hox Hvx. split.
      * rewrite lookup_delete_ne; [by apply (He x ox)|]. intros <-. apply Hx. by apply (Hown x _ ox o (verbdef h)).
      * intros Hvin. apply Hx. apply (Hown x _ ox o v Hox Ho Hvx). rewrite Evs.
        apply elem_of_app in Hvin as [|]; apply elem_of_app; [by left|right; apply elem_of_cons; by right].
  - apply wf_cache_empty. cbn. unfold db_priv_affected_callable_verb_lookup.
    destruct (vc_table d) eqn:E; cbn; [by right|by left].
Qed.

(** ** Changing *)

Lemma upd_verb_Ok F P d vh h o vd null f : wf_db F P d -> good_handle d vh h o vd ->
  exists d', upd_verb vh null f d = Ok d' /\ d' = with_verbs (<[verbdef h := f vd]> (verbs d)) d /\
    wf_db F P d'.
Proof.
  intros Hw (Hd & Ho & Hin & Hv). unfold upd_verb. rewrite Hd. cbn [mbind res_bind]. rewrite Hv.
  cbn [deref mbind res_bind]. eexists. split; [done|]. split; [done|].
  apply (wf_db_alike F P d); [done|by split|done|apply (wf_users_same d); [done|done|apply Hw]|].
  destruct (wdb_verbs _ _ _ Hw) as [He Hn Hown]. split; [|done|done].
  intros x ox v Hx Hvx. cbn. destruct (decide (v = verbdef h)) as [->|].
  - rewrite lookup_insert_eq. eauto.
  - rewrite lookup_insert_ne by done. by apply (He x ox).
Qed.

(** A static handle outlives the emptying of the cache, a cached one does not. *)
Lemma flush_handle d h o vd : good_handle d (StaticHandle h) h o vd ->
  good_handle (db_priv_affected_callable_verb_lookup d) (StaticHandle h) h o vd.
Proof.
  intros (Hd & Ho & Hin & Hv). destruct (flush_same d) as (Fo & _ & _ & _ & Fv & _).
  split; [done|]. by rewrite Fo, Fv.
Qed.

Lemma flush_stale d e null : deref_handle (db_priv_affected_callable_verb_lookup d) (CachedHandle e) null
  = Fail Segv.
Proof.
  unfold deref_handle, entry_live, db_priv_affected_callable_verb_lookup.
  destruct (vc_table d) eqn:E; cbn; [|by rewrite E].
  rewrite bool_decide_eq_false_2; [done|]. unfold bucket. rewrite lookup_empty. by intros ?%elem_of_nil.
Qed.

Lemma flush_wf F P d : wf_db F P d -> wf_db F P (db_priv_affected_callable_verb_lookup d).
Proof.
  intros Hw. destruct (flush_same d) as (Fo & Fn & Fm & Fu & Fv & Fp).
  exact (wf_db_ext F P d _ Hw Fo Fn Fm Fu Fv Fp).
Qed.

(** After the cache is emptied, nothing fills it but searches. *)
Lemma emptied_cache d d' : vc_table d' = vc_table (db_priv_affected_callable_verb_lookup d) -> wf_cache d'.
Proof.
  intros H. apply wf_cache_empty. rewrite H. unfold db_priv_affected_callable_verb_lookup.
  destruct (vc_table d) eqn:E; cbn; [by right|by left].
Qed.

Lemma change_verb_Ok F P d h o vd null f : wf_db F P d -> good_handle d (StaticHandle h) h o vd ->
  exists d', upd_verb (StaticHandle h) null f (db_priv_affected_callable_verb_lookup d) = Ok d' /\
    verbs d' = <[verbdef h := f vd]> (verbs d) /\ objects d' = objects d /\ wf_db F P d' /\ wf_cache d'.
Proof.
  intros Hw Hg. destruct (flush_same d) as (Fo & _ & _ & _ & Fv & _).
  destruct (upd_verb_Ok F P _ _ h o vd null f (flush_wf F P d Hw) (flush_handle d h o vd Hg))
    as (d' & -> & -> & Hw'). eexists. split; [done|].
  split; [by cbn; rewrite Fv|]. split; [exact Fo|]. split; [exact Hw'|by apply (emptied_cache d)].
Qed.

(** The owner and the program of a verb matter to no search. *)
Lemma touch_verb_Ok F P d vh h o vd null f : wf_db F P d -> wf_cache d -> good_handle d vh h o vd ->
  v_name (f vd) = v_name vd -> v_perms (f vd) = v_perms vd ->
  exists d', upd_verb vh null f d = Ok d' /\ verbs d' = <[verbdef h := f vd]> (verbs d) /\
    objects d' = objects d /\ wf_db F P d' /\ wf_cache d'.
Proof.
  intros Hw Hc Hg Hname Hperms. destruct (upd_verb_Ok F P d vh h o vd null f Hw Hg) as (d' & H & Hd' & Hw').
  exists d'. split; [done|]. rewrite Hd' in Hw' |- *. split_and!; [done|done|done|].
  pose proof (wdb_props _ _ _ Hw) as Hp. pose proof (wdb_props _ _ _ Hw') as Hp'.
  apply (cache_kept F F d); [apply Hp|apply Hp|apply Hp|apply Hw|apply Hp'|apply Hp'|apply Hw'| |by split|done|done].
  intros v wd Hv. cbn. destruct Hg as (_ & _ & _ & Hvd). destruct (decide (v = verbdef h)) as [->|].
  - rewrite lookup_insert_eq. exists (f vd). split; [done|]. by simplify_eq.
  - rewrite lookup_insert_ne by done. by exists wd.
Qed.

(** ** Properties *)

(** C19: Verbs change as their functions say, without a fault, through a static handle of a
    verb of a valid object, and no change leaves a wrong answer in the cache: a new verb is
    the last of its object and its number is answered; a deleted verb is taken out and the
    order of the others kept; names, permissions and argument specifications change in one
    verb only.  A cached handle is refused by the functions that empty the cache before
    they look at it. *)
Theorem verb_changes_correct F P d h o vd : wf_db F P d -> good_handle d (StaticHandle h) h o vd ->
  (forall vnames own flags dobj prep iobj, exists p d',
     db_add_verb (definer h) vnames own flags dobj prep iobj d
       = Ok (wrap32 (Z.of_nat (length (verbdefs o)) + 1), d') /\
     verbs d !! p = None /\
     verbs d' = <[p := mkVerbdef vnames None own (pack_perms flags dobj iobj) (wrap16 prep)]> (verbs d) /\
     objects d' = <[definer h := set_verbdefs (verbdefs o ++ [p]) o]> (objects d) /\
     wf_db F P d' /\ wf_cache d') /\
  (exists l1 l2 d', verbdefs o = l1 ++ verbdef h :: l2 /\ db_delete_verb (StaticHandle h) d = Ok d' /\
     verbs d' = delete (verbdef h) (verbs d) /\
     objects d' = <[definer h := set_verbdefs (l1 ++ l2) o]> (objects d) /\
     wf_db F P d' /\ wf_cache d') /\
  (forall names flags dobj prep iobj,
     let changed v r := exists d', r = Ok d' /\ verbs d' = <[verbdef h := v]> (verbs d) /\
       objects d' = objects d /\ wf_db F P d' /\ wf_cache d' in
     changed (mkVerbdef names (v_program vd) (v_owner vd) (v_perms vd) (v_prep vd))
       (db_set_verb_names (StaticHandle h) names d) /\
     changed (mkVerbdef (v_name vd) (v_program vd) (v_owner vd)
         (wrap16 (Z.lor (Z.land (v_perms vd) (Z.lnot PERMMASK)) flags)) (v_prep vd))
       (db_set_verb_flags (StaticHandle h) flags d) /\
     changed (mkVerbdef (v_name vd) (v_program vd) (v_owner vd)
         (pack_perms (Z.land (v_perms vd) PERMMASK) dobj iobj) (wrap16 prep))
       (db_set_verb_arg_specs (StaticHandle h) dobj prep iobj d)) /\
  (forall e names flags dobj prep iobj,
     db_set_verb_names (CachedHandle e) names d = Fail Segv /\
     db_set_verb_flags (CachedHandle e) flags d = Fail Segv /\
     db_set_verb_arg_specs (CachedHandle e) dobj prep iobj d = Fail Segv).
Proof.
  intros Hw Hg. pose proof Hg as (_ & Ho & _). split_and!.
  - intros. by apply add_verb_Ok.
  - by apply (delete_verb_Ok F P d (StaticHandle h) h o vd).
  - intros. split_and!.
    + exact (change_verb_Ok F P d h o vd _ _ Hw Hg).
    + exact (change_verb_Ok F P d h o vd _ _ Hw Hg).
    + exact (change_verb_Ok F P d h o vd _ _ Hw Hg).
  - intros. unfold db_set_verb_names, db_set_verb_flags, db_set_verb_arg_specs, upd_verb.
    by rewrite !flush_stale.
Qed.

Lemma verb_changes_correct_witness : exists l1 l2 d',
  db_delete_verb (StaticHandle (mkHandle 0 1%positive)) sample = Ok d' /\
  [1%positive] = l1 ++ 1%positive :: l2 /\ wf_db sample_family sample_place d'.
Proof.
  assert (Ho : exists o, objects sample !! 0 = Some o /\ verbdefs o = [1%positive])
    by (vm_compute; eauto).
  destruct Ho as (o & Ho & Ev).
  assert (Hv : verbs sample !! 1%positive = Some (mkVerbdef (lit "l*ook") None 1 13 (-1)))
    by (vm_compute; reflexivity).
  destruct (verb_changes_correct sample_family sample_place sample (mkHandle 0 1%positive) o
    (mkVerbdef (lit "l*ook") None 1 13 (-1)) sample_wf) as (_ & (l1 & l2 & d' & He & Hd & _ & _ & Hw & _) & _).
  - split; [done|]. split; [exact Ho|]. split; [|exact Hv]. rewrite Ev. by apply list_elem_of_singleton.
  - exists l1, l2, d'. split; [exact Hd|]. split; [|exact Hw]. rewrite <- Ev. exact He.
Defined.
