(* ===== verification/ObjectBuiltins.v ===== *)
(** * Built-in functions on objects (src/objects.c, src/quota.c)

    The functions that programs call, with their checks.  Those that call verbs stop there
    and are entered again, with a number and their data, when the verb returns.  The
    arguments have the types that the registry has checked. *)

From S2P Require Import Prelude CStrings Values Lists Libc Links Db Properties Layout Tables Objects.
From S2P Require Import Preps Verbs Numbers.

Open Scope Z_scope.

(** [arglist.v.list[i].v.obj] *)
Definition arg_obj (args : list Var) (i : nat) : res Z :=
  v ← deref (args !! (i - 1)%nat);
  match v with Obj x => Ok x | _ => Fail Undefined end.
Definition arg_var (args : list Var) (i : nat) : res Var := deref (args !! (i - 1)%nat).

Definition controls (d : db) (who what : Z) : res bool :=
  w ← is_wizard d who;
  if (w : bool) then Ok true else own ← db_object_owner d what; Ok (who =? own).

Definition make_arglist (what : Z) : list Var := [Obj what].

(** ** Quotas *)

Definition quota_name : cstr := lit "ownership_quota".

Definition decr_quota (player : Z) (d : db) : res (bool * db) :=
  if negb (valid d player) then Ok (true, d)
  else
    r ← db_find_property d player quota_name;
    match r with
    | Some (h, Int n) =>
        if n <=? 0 then Ok (false, d)
        else d ← db_set_property_value h (Int (n - 1)) d; Ok (true, d)
    | _ => Ok (true, d)
    end.

Definition incr_quota (player : Z) (d : db) : res db :=
  if negb (valid d player) then Ok d
  else
    r ← db_find_property d player quota_name;
    match r with
    | Some (h, Int n) => db_set_property_value h (Int (wrap64 (n + 1))) d
    | _ => Ok d
    end.

(** ** Calling verbs

    [call_verb(this, vname, args, 0)] of src/execute.c, as far as the answer and the
    database are concerned: [room] says whether [push_activation] succeeds. *)
Definition call_verb (room : bool) (this : Z) (vname : cstr) (d : db) : res (error * db) :=
  if negb (valid d this) then Ok (E_INVIND, d)
  else
    '(vh, d) ← db_find_callable_verb (fun _ => false) this vname d;
    match vh with
    | NullHandle => Ok (E_VERBNF, d)
    | _ => Ok (if room then E_NONE else E_MAXREC, d)
    end.

(** [for (oid = start; oid != NOTHING; oid = up(oid)) if (oid == what) ...] *)
Fixpoint climbs_to (fuel : nat) (up : Z -> res Z) (oid what : Z) : res bool :=
  if oid =? NOTHING then Ok false
  else if oid =? what then Ok true
  else
    match fuel with
    | O => Fail OutOfFuel
    | S fuel => p ← up oid; climbs_to fuel up p what
    end.

(** What a built-in function answers: a package, the data of a call that waits for a
    verb, and the database. *)
Definition outcome (A : Type) : Type := package * option A * db.
Definition done {A} (p : package) (d : db) : res (outcome A) := Ok (p, None, d).
Definition waits {A} (pc : Z) (data : A) (d : db) : res (outcome A) :=
  Ok (make_call_pack pc, Some data, d).

Section with_room.
Context (room : bool).

(** ** [move] *)

(** [case 4] *)
Definition move_entered (data : Z * Z) (d : db) : res (outcome (Z * Z)) := done no_var_pack d.

(** [case 3], after [exitfunc] *)
Definition move_exited (data : Z * Z) (d : db) : res (outcome (Z * Z)) :=
  let '(what, where_) := data in
  here ← (if valid d where_ && valid d what then
            loc ← db_object_location d what; Ok (loc =? where_)
          else Ok false);
  if (here : bool) then
    '(e, d) ← call_verb room where_ (lit "enterfunc") d;
    match e with
    | E_NONE => waits 4 data d
    | E_MAXREC => done (make_error_pack e) d
    | _ => move_entered data d
    end
  else move_entered data d.

(** [accepts_decided:] *)
Definition move_decided (data : Z * Z) (accepts : bool) (progr : Z) (d : db) : res (outcome (Z * Z)) :=
  let '(what, where_) := data in
  w ← is_wizard d progr;
  if negb w && negb accepts then done (make_error_pack E_NACC) d
  else
    stay ← (if negb (valid d what) || (negb (where_ =? NOTHING) && negb (valid d where_)) then Ok true
            else loc ← db_object_location d what; Ok (loc =? where_));
    if (stay : bool) then done no_var_pack d
    else
      loop ← climbs_to (size (objects d)) (db_object_location d) where_ what;
      if (loop : bool) then done (make_error_pack E_RECMOVE) d
      else
        oldloc ← db_object_location d what;
        d ← db_change_location what where_ d;
        '(e, d) ← call_verb room oldloc (lit "exitfunc") d;
        match e with
        | E_NONE => waits 3 data d
        | E_MAXREC => done (make_error_pack e) d
        | _ => move_exited data d
        end.

(** [arglist] is what the verb has returned, except in [case 1]. *)
Definition do_move (arglist : Var) (next : Z) (data : Z * Z) (progr : Z) (d : db)
    : res (outcome (Z * Z)) :=
  let '(what, where_) := data in
  if next =? 1 then
    if negb (valid d what) || (negb (valid d where_) && negb (where_ =? NOTHING))
    then done (make_error_pack E_INVARG) d
    else
      c ← controls d progr what;
      if negb c then done (make_error_pack E_PERM) d
      else if where_ =? NOTHING then move_decided data true progr d
      else
        '(e, d) ← call_verb room where_ (lit "accept") d;
        match e with
        | E_NONE => waits 2 data d
        | E_VERBNF => move_decided data false progr d
        | _ => done (make_error_pack e) d
        end
  else if next =? 2 then move_decided data (is_true arglist) progr d
  else if next =? 3 then move_exited data d
  else if next =? 4 then move_entered data d
  else Fail (Panic "Unknown PC in DO_MOVE").

(** The first call, and the later ones. *)
Definition bf_move (args : list Var) (progr : Z) (d : db) : res (outcome (Z * Z)) :=
  what ← arg_obj args 1;
  where_ ← arg_obj args 2;
  do_move (List args) 1 (what, where_) progr d.
Definition bf_move_again (returned : Var) (next : Z) (data : Z * Z) (progr : Z) (d : db)
    : res (outcome (Z * Z)) :=
  do_move returned next data progr d.

(** ** [toobj], [typeof], [valid], [max_object] *)

Definition bf_toobj (args : list Var) (d : db) : res (package * db) :=
  v ← arg_var args 1;
  Ok (match become_integer v false with
      | inl e => make_error_pack e
      | inr i => make_var_pack (Obj i)
      end, d).

(** The numbers of the types, which are stored in the database file. *)
Definition type_num (t : var_type) : Z :=
  match t with
  | TYPE_INT => 0 | TYPE_OBJ => 1 | TYPE_STR => 2 | TYPE_ERR => 3 | TYPE_LIST => 4
  | TYPE_CLEAR => 5 | TYPE_NONE => 6 | TYPE_CATCH => 7 | TYPE_FINALLY => 8
  | TYPE_FLOAT => 9 | TYPE_WAIF => 10
  end.
Definition bf_typeof (args : list Var) (d : db) : res (package * db) :=
  v ← arg_var args 1;
  Ok (make_var_pack (Int (type_num (type_of v))), d).

Definition bool_var (b : bool) : Var := Int (if b then 1 else 0).

Definition bf_valid (args : list Var) (d : db) : res (package * db) :=
  x ← arg_obj args 1;
  Ok (make_var_pack (bool_var (valid d x)), d).

Definition bf_max_object (d : db) : package * db := (make_var_pack (Obj (db_last_used_objid d)), d).

(** ** [create] *)

(** [garbage]: what the memory of a new object holds. *)
Definition bf_create (garbage : Object) (args : list Var) (progr : Z) (d : db) : res (outcome Z) :=
  parent ← arg_obj args 1;
  owner ← (if decide (length args = 2%nat) then arg_obj args 2 else Ok progr);
  refused ← (if valid d parent then a ← db_object_allows d parent progr FLAG_FERTILE; Ok (negb a)
             else Ok (negb (parent =? NOTHING)));
  refused ← (if (refused : bool) then Ok true
             else if negb (owner =? progr) then w ← is_wizard d progr; Ok (negb w) else Ok false);
  if (refused : bool) then done (make_error_pack E_PERM) d
  else
    '(granted, d) ← (if valid d owner then decr_quota owner d else Ok (true, d));
    if negb granted then done (make_error_pack E_QUOTA) d
    else
      '(oid, d) ← db_create_object garbage d;
      d ← db_set_object_name d oid [];
      d ← db_set_object_owner d oid (if owner =? NOTHING then oid else owner);
      '(_, d) ← db_change_parent oid parent d;
      '(e, d) ← call_verb room oid (lit "initialize") d;
      match e with
      | E_NONE => waits 2 oid d
      | E_MAXREC => done (make_error_pack e) d
      | _ => done (make_var_pack (Obj oid)) d
      end.
Definition bf_create_again (oid : Z) (d : db) : res (outcome Z) := done (make_var_pack (Obj oid)) d.

(** ** [chparent], [parent], [children] *)

Definition bf_chparent (args : list Var) (progr : Z) (d : db) : res (package * db) :=
  what ← arg_obj args 1;
  parent ← arg_obj args 2;
  if negb (valid d what) || (negb (valid d parent) && negb (parent =? NOTHING))
  then Ok (make_error_pack E_INVARG, d)
  else
    c ← controls d progr what;
    fertile ← (if (c : bool) && valid d parent then db_object_allows d parent progr FLAG_FERTILE
               else Ok true);
    if negb c || negb fertile then Ok (make_error_pack E_PERM, d)
    else
      loop ← climbs_to (size (objects d)) (db_object_parent d) parent what;
      if (loop : bool) then Ok (make_error_pack E_RECMOVE, d)
      else
        '(changed, d) ← db_change_parent what parent d;
        Ok (if (changed : bool) then no_var_pack else make_error_pack E_INVARG, d).

Definition bf_parent (args : list Var) (d : db) : res (package * db) :=
  x ← arg_obj args 1;
  if negb (valid d x) then Ok (make_error_pack E_INVARG, d)
  else p ← db_object_parent d x; Ok (make_var_pack (Obj p), d).

(** [new_list(db_count_children(oid))] is filled by [add_to_list]; a write past its end
    would fault. *)
Definition bf_children (args : list Var) (d : db) : res (package * db) :=
  x ← arg_obj args 1;
  if negb (valid d x) then Ok (make_error_pack E_INVARG, d)
  else
    n ← db_count_children d x;
    '(_, cs) ← db_for_all_children d x (fun r child => (false, r ++ [Obj child])) [];
    if Z.of_nat (length cs) =? n then Ok (make_var_pack (List cs), d) else Fail Segv.

(** ** [recycle] *)

Definition move_to_nothing (oid : Z) (d : db) : res (bool * db) :=
  oldloc ← db_object_location d oid;
  d ← db_change_location oid NOTHING d;
  '(e, d) ← call_verb room oldloc (lit "exitfunc") d;
  Ok (bool_decide (e = E_NONE), d).

(** [get_first] with one of the two enumerations: [first_proc] stops at once. *)
Definition get_first (all : res (list Z)) : res Z :=
  cs ← all;
  Ok (for_all (fun _ oid => (true, oid)) NOTHING cs).2.

(** The loop over the contents: true when a verb has been called. *)
Fixpoint recycle_contents (fuel : nat) (oid : Z) (d : db) : res (bool * db) :=
  match fuel with
  | O => Fail OutOfFuel
  | S fuel =>
      c ← get_first (contents_of d oid);
      if c =? NOTHING then Ok (false, d)
      else
        '(called, d) ← move_to_nothing c d;
        if (called : bool) then Ok (true, d) else recycle_contents fuel oid d
  end.

Fixpoint recycle_children (fuel : nat) (oid : Z) (d : db) : res db :=
  match fuel with
  | O => Fail OutOfFuel
  | S fuel =>
      c ← get_first (children d oid);
      if c =? NOTHING then Ok d
      else
        p ← db_object_parent d oid;
        '(_, d) ← db_change_parent c p d;
        recycle_children fuel oid d
  end.

(** What follows once the object holds nothing and is nowhere. *)
Definition recycle_last (oid : Z) (d : db) : res (outcome Z) :=
  d ← recycle_children (S (size (objects d))) oid d;
  '(_, d) ← db_change_parent oid NOTHING d;
  own ← db_object_owner d oid;
  d ← incr_quota own d;
  d ← db_destroy_object oid d;
  done no_var_pack d.

(** [moving_contents:] *)
Definition recycle_moving (oid : Z) (d : db) : res (outcome Z) :=
  if negb (valid d oid) then done no_var_pack d
  else
    '(called, d) ← recycle_contents (S (size (objects d))) oid d;
    if (called : bool) then waits 2 oid d
    else
      loc ← db_object_location d oid;
      '(called, d) ← (if negb (loc =? NOTHING) then move_to_nothing oid d else Ok (false, d));
      if (called : bool) then waits 2 oid d else recycle_last oid d.

Definition bf_recycle (args : list Var) (progr : Z) (d : db) : res (outcome Z) :=
  oid ← arg_obj args 1;
  if negb (valid d oid) then done (make_error_pack E_INVARG) d
  else
    c ← controls d progr oid;
    if negb c then done (make_error_pack E_PERM) d
    else
      '(e, d) ← call_verb room oid (lit "recycle") d;
      match e with
      | E_NONE => waits 2 oid d
      | _ => recycle_moving oid d
      end.
Definition bf_recycle_again (oid : Z) (d : db) : res (outcome Z) := recycle_moving oid d.

End with_room.

(** ** Players *)

Definition bf_players (d : db) : package * db := (make_var_pack (List (db_all_users d)), d).

Definition bf_is_player (args : list Var) (d : db) : res (package * db) :=
  x ← arg_obj args 1;
  if negb (valid d x) then Ok (make_error_pack E_INVARG, d)
  else b ← is_user d x; Ok (make_var_pack (bool_var b), d).

(** [boot_player] closes connections (src/server.c), which are not part of the database. *)
Definition bf_set_player_flag (args : list Var) (progr : Z) (d : db) : res (package * db) :=
  x ← arg_obj args 1;
  v ← arg_var args 2;
  if negb (valid d x) then Ok (make_error_pack E_INVARG, d)
  else
    w ← is_wizard d progr;
    if negb w then Ok (make_error_pack E_PERM, d)
    else
      d ← (if is_true v then db_set_object_flag d x FLAG_USER
           else db_clear_object_flag d x FLAG_USER);
      Ok (no_var_pack, d).

(** The measure of an object is a parameter here, [db_object_bytes] with its sizes. *)
Definition bf_object_bytes (bytes : db -> Z -> res Z) (args : list Var) (progr : Z) (d : db)
    : res (package * db) :=
  x ← arg_obj args 1;
  w ← is_wizard d progr;
  if negb w then Ok (make_error_pack E_PERM, d)
  else if negb (valid d x) then Ok (make_error_pack E_INVIND, d)
  else n ← bytes d x; Ok (make_var_pack (Int n), d).
