(* ===== verification/Invariant.v ===== *)
(** * The invariant of the whole database, operation by operation

    [good] gathers the invariants of the components.  Every operation of db_objects.c,
    db_properties.c and db_verbs.c keeps it. *)

From Stdlib Require Import Btauto.
From S2P Require Import Prelude CStrings Values Lists Libc Links Db Properties Layout Tables Objects.
From S2P Require Import Sample PropertyOps RenameProp Reparent ObjectOps Renumber Preps Verbs VerbCache VerbOps.

Open Scope Z_scope.

(** What holds of every verb: its permissions and argument specifications are in range. *)
Record verb_ok (vd : Verbdef) : Prop := {
  vo_name : nul_free (v_name vd);
  vo_perms : 0 <= v_perms vd < 256;
  vo_dobj : verb_dobj vd <= 2;
  vo_iobj : verb_iobj vd <= 2;
  vo_prep : PREP_ANY <= v_prep vd < NPREPS }.
Definition wf_vdefs (d : db) : Prop := forall v vd, verbs d !! v = Some vd -> verb_ok vd.

Lemma wf_vdefs_names d : wf_vdefs d -> wf_vnames d.
Proof. intros H v vd Hv. by apply (H v). Qed.
#[export] Hint Resolve wf_vdefs_names : core.

(** *** Packed permissions *)

(** Argument specifications as db.h enumerates them. *)
Definition good_spec (dobj prep iobj : Z) : Prop :=
  0 <= dobj <= 2 /\ PREP_ANY <= prep < NPREPS /\ 0 <= iobj <= 2.

Definition packs (flags dobj iobj : Z) : bool :=
  let p := pack_perms flags dobj iobj in
  (0 <=? p) && (p <? 256) && (Z.land (Z.shiftr p DOBJSHIFT) OBJMASK =? dobj) &&
  (Z.land (Z.shiftr p IOBJSHIFT) OBJMASK =? iobj) && (Z.land p PERMMASK =? flags).

Lemma packs_all : forallb (fun flags => forallb (fun dobj => forallb (packs flags dobj) (seqZ 0 3)) (seqZ 0 3))
  (seqZ 0 16) = true.
Proof. vm_compute. reflexivity. Qed.

Lemma packs_spec flags dobj iobj : 0 <= flags < 16 -> 0 <= dobj <= 2 -> 0 <= iobj <= 2 ->
  let p := pack_perms flags dobj iobj in
  0 <= p < 256 /\ Z.land (Z.shiftr p DOBJSHIFT) OBJMASK = dobj /\
  Z.land (Z.shiftr p IOBJSHIFT) OBJMASK = iobj /\ Z.land p PERMMASK = flags.
Proof.
  intros Hf Hd Hi. pose proof packs_all as H. rewrite forallb_forall in H. specialize (H flags).
  rewrite forallb_forall in H. specialize (fun Hf => H Hf dobj). rewrite forallb_forall in H.
  specialize (fun Hf Hd => H Hf Hd iobj). cbv zeta in H |- *. unfold packs in H.
  rewrite !andb_true_iff, !Z.eqb_eq, Z.leb_le, Z.ltb_lt in H.
  assert (Hin : forall n k, 0 <= k < n -> In k (seqZ 0 n)) by (intros n k Hk; apply list_elem_of_In, elem_of_seqZ; lia).
  destruct H as ((((? & ?) & ?) & ?) & ?); [apply Hin; lia..|done].
Qed.

Lemma permmask_range p : 0 <= Z.land p PERMMASK < 16.
Proof. change PERMMASK with (Z.ones 4). rewrite Z.land_ones by lia. apply Z.mod_pos_bound. lia. Qed.

Lemma prep_wrap prep : PREP_ANY <= prep < NPREPS -> wrap16 prep = prep.
Proof.
  intros Hp. unfold wrap16. apply swrap_id; [lia|]. change NPREPS with (Z.of_nat (length prep_list)) in Hp.
  unfold PREP_ANY in Hp. vm_compute (Z.of_nat _) in Hp. unfold int_range. cbn. lia.
Qed.

Lemma packed_ok names program own flags dobj prep iobj : nul_free names -> 0 <= flags < 16 ->
  good_spec dobj prep iobj ->
  verb_ok (mkVerbdef names program own (pack_perms flags dobj iobj) (wrap16 prep)).
Proof.
  intros Hn Hf (Hd & Hp & Hi). destruct (packs_spec flags dobj iobj Hf Hd Hi) as (H1 & H2 & H3 & _).
  split; unfold verb_dobj, verb_iobj; cbn [v_name v_perms v_prep]; [done|done|lia..|].
  by rewrite prep_wrap.
Qed.

Definition reflags (perms flags : Z) : Z := wrap16 (Z.lor (Z.land perms (Z.lnot PERMMASK)) flags).
Definition keeps_spec (perms flags : Z) : bool :=
  let p := reflags perms flags in
  (0 <=? p) && (p <? 256) && (Z.land (Z.shiftr p DOBJSHIFT) OBJMASK =? Z.land (Z.shiftr perms DOBJSHIFT) OBJMASK) &&
  (Z.land (Z.shiftr p IOBJSHIFT) OBJMASK =? Z.land (Z.shiftr perms IOBJSHIFT) OBJMASK) && (Z.land p PERMMASK =? flags).

Lemma keeps_spec_all : forallb (fun perms => forallb (keeps_spec perms) (seqZ 0 16)) (seqZ 0 256) = true.
Proof. vm_compute. reflexivity. Qed.

Lemma reflags_spec perms flags : 0 <= perms < 256 -> 0 <= flags < 16 ->
  let p := reflags perms flags in
  0 <= p < 256 /\ Z.land (Z.shiftr p DOBJSHIFT) OBJMASK = Z.land (Z.shiftr perms DOBJSHIFT) OBJMASK /\
  Z.land (Z.shiftr p IOBJSHIFT) OBJMASK = Z.land (Z.shiftr perms IOBJSHIFT) OBJMASK /\ Z.land p PERMMASK = flags.
Proof.
  intros Hp Hf. pose proof keeps_spec_all as H. rewrite forallb_forall in H. specialize (H perms).
  rewrite forallb_forall in H. specialize (fun Hp => H Hp flags). cbv zeta in H |- *. unfold keeps_spec in H.
  rewrite !andb_true_iff, !Z.eqb_eq, Z.leb_le, Z.ltb_lt in H.
  assert (Hin : forall n k, 0 <= k < n -> In k (seqZ 0 n)) by (intros n k Hk; apply list_elem_of_In, elem_of_seqZ; lia).
  destruct H as ((((? & ?) & ?) & ?) & ?); [apply Hin; lia..|done].
Qed.

Lemma flagged_ok vd flags : verb_ok vd -> 0 <= flags < 16 ->
  verb_ok (mkVerbdef (v_name vd) (v_program vd) (v_owner vd)
    (wrap16 (Z.lor (Z.land (v_perms vd) (Z.lnot PERMMASK)) flags)) (v_prep vd)).
Proof.
  intros [Hn Hp Hd Hi Hprep] Hf. destruct (reflags_spec (v_perms vd) flags Hp Hf) as (H1 & H2 & H3 & _).
  unfold reflags in *. split; unfold verb_dobj, verb_iobj in *; cbn [v_name v_perms v_prep]; rewrite ?H2, ?H3; done.
Qed.

(** For a concrete database. *)
Definition verb_okb (vd : Verbdef) : bool :=
  bool_decide (nul_free (v_name vd)) && bool_decide (0 <= v_perms vd < 256) && (verb_dobj vd <=? 2) &&
  (verb_iobj vd <=? 2) && bool_decide (PREP_ANY <= v_prep vd < NPREPS).
Definition vdefs_ok (d : db) : bool := bool_decide (map_Forall (fun _ vd => verb_okb vd = true) (verbs d)).
Lemma vdefs_ok_spec d : vdefs_ok d = true -> wf_vdefs d.
Proof.
  unfold vdefs_ok. rewrite bool_decide_eq_true. intros H v vd Hv. specialize (H v vd Hv). unfold verb_okb in H.
  rewrite !andb_true_iff, !bool_decide_eq_true, !Z.leb_le in H. by destruct H as ((((H1 & H2) & H3) & H4) & H5).
Qed.

Record good (F P : forest) (d : db) : Prop := {
  good_wf : wf_db F P d;
  good_names : wf_vdefs d;
  good_cache : wf_cache d }.

Lemma good_props F P d : good F P d -> wf_props F d.
Proof. intros Hg. apply Hg. Qed.

Lemma good_lookup F P d x : good F P d -> dbpriv_find_object d x = objects d !! x.
Proof. intros Hg. apply find_object_eq, Hg. Qed.

Lemma valid_iff F P d x : good F P d -> valid d x = true <-> is_Some (objects d !! x).
Proof. intros Hg. unfold valid. rewrite bool_decide_eq_true. by rewrite (good_lookup F P). Qed.

Lemma valid_family F P d x : good F P d -> is_Some (objects d !! x) <-> is_Some (par F !! x).
Proof. intros Hg. apply (represents_dom family). apply (wp_family _ _ (good_props _ _ _ Hg)). Qed.

Lemma valid_place F P d x : good F P d -> is_Some (objects d !! x) <-> is_Some (par P !! x).
Proof. intros Hg. apply (represents_dom place). apply (wdb_place _ _ _ (good_wf _ _ _ Hg)). Qed.

Lemma nothing_invalid F P d : good F P d -> objects d !! NOTHING = None.
Proof.
  intros Hg. destruct (objects d !! NOTHING) eqn:E; [|done].
  assert (is_Some (par F !! NOTHING)) as [q Hq] by (apply (valid_family F P d _ Hg); eauto).
  by rewrite (wf_nothing F (wp_forest _ _ (good_props _ _ _ Hg))) in Hq.
Qed.

Lemma sample_good : good sample_family sample_place sample.
Proof.
  split; [exact sample_wf|exact (vdefs_ok_spec sample eq_refl)|]. apply wf_cache_empty. by left.
Qed.

(** The invariant, with the forests forgotten. *)
Definition is_good (d : db) : Prop := exists F P, good F P d.

Lemma good_is_good F P d : good F P d -> is_good d.
Proof. by exists F, P. Qed.
#[export] Hint Resolve good_is_good : core.

(** ** Keeping it *)

Section keep.
Context (F P F' P' : forest) (d d' : db) (Hg : good F P d) (Hw' : wf_db F' P' d').

(** The cache is as it was, and so is everything that it depends on. *)
Lemma good_kept : vc_table d' = vc_table d -> verbs d' = verbs d ->
  (forall x o, objects d !! x = Some o -> verbdefs <$> objects d' !! x = Some (verbdefs o)) ->
  (forall x o ls, objects d !! x = Some o -> verbdefs o <> [] -> lineage F x ls -> lineage F' x ls) ->
  good F' P' d'.
Proof.
  intros Et Ev Hvs Hl. destruct Hg as [Hw Hn Hc]. split; [done|unfold wf_vdefs; by rewrite Ev|].
  pose proof (wdb_props _ _ _ Hw) as Hp. pose proof (wdb_props _ _ _ Hw') as Hp'.
  apply (cache_kept F F' d d'); [apply Hp|apply Hp|apply Hp|apply Hw|apply Hp'|apply Hp'|apply Hw'| | |done|done].
  - intros v vd Hv. rewrite Ev. by exists vd.
  - intros x o ls Ho Hne Hls. split; [by apply (Hl x o)|]. intros y Hy.
    destruct (proj2 (represents_dom family _ F (wp_family _ _ Hp) y) (lineage_valid F x ls y Hls Hy)) as [oy Hoy].
    rewrite Hoy. by apply Hvs.
Qed.

(** The cache has been emptied. *)
Lemma good_emptied : vc_table d' = vc_table (db_priv_affected_callable_verb_lookup d) ->
  wf_vdefs d' -> good F' P' d'.
Proof. intros Et Hn. split; [done|done|]. by apply (emptied_cache d). Qed.
End keep.

(** *** One object changes in a field that matters to nothing but itself *)

Lemma good_attribute F P d x o o' : good F P d -> objects d !! x = Some o -> core o' = core o ->
  placement o' = placement o -> flags o' = flags o -> verbdefs o' = verbdefs o ->
  good F P (with_objects (<[x := o']> (objects d)) d).
Proof.
  intros Hg Ho Hc Hpl Hf Hv. pose proof (good_wf _ _ _ Hg) as Hw.
  assert (Hvs : forall y, verbdefs <$> <[x := o']> (objects d) !! y = verbdefs <$> objects d !! y)
    by (intros y; by apply (insert_field verbdefs _ _ o)).
  apply (good_kept F P F P d); [done| |done|done| |done].
  - apply (wf_db_alike F P d); [done| | | |].
    + split; [done..|]. intros y. by apply (insert_field core _ _ o).
    + intros y. by apply (insert_field placement _ _ o).
    + apply (wf_users_same d); [done| |apply Hw]. intros y. by apply (insert_field flags _ _ o).
    + apply (wf_verbs_ext d); [done|done|apply Hw].
  - intros y oy Hy. cbn [objects with_objects]. by rewrite Hvs, Hy.
Qed.

Lemma altered (objs : gmap Z Object) x f o : objs !! x = Some o -> <[x := f o]> objs = alter f x objs.
Proof.
  intros Ho. apply map_eq. intros y. destruct (decide (y = x)) as [->|].
  - by rewrite lookup_insert_eq, lookup_alter_eq, Ho.
  - by rewrite lookup_insert_ne, lookup_alter_ne.
Qed.

Lemma good_set_name F P d x s : good F P d -> is_Some (objects d !! x) ->
  exists d', db_set_object_name d x s = Ok d' /\ good F P d' /\
    objects d' = alter (set_name s) x (objects d).
Proof.
  intros Hg [o Ho]. unfold db_set_object_name. rewrite (upd_object_Ok d x o) by done.
  eexists. split; [done|]. split; [by apply (good_attribute F P d x o)|]. by apply altered.
Qed.

Lemma good_set_owner F P d x v : good F P d -> is_Some (objects d !! x) ->
  exists d', db_set_object_owner d x v = Ok d' /\ good F P d' /\
    objects d' = alter (set_owner v) x (objects d).
Proof.
  intros Hg [o Ho]. unfold db_set_object_owner. rewrite (upd_object_Ok d x o) by done.
  eexists. split; [done|]. split; [by apply (good_attribute F P d x o)|]. by apply altered.
Qed.

(** *** Flags *)

Lemma has_flag_set o f f' : has_flag (set_flags (Z.lor (flags o) (Z.shiftl 1 (flag_num f))) o) f'
  = bool_decide (f = f') || has_flag o f'.
Proof.
  assert (Hn : forall f, 0 <= flag_num f) by (by intros []).
  assert (Hb : forall z g, negb (Z.land z (Z.shiftl 1 (flag_num g)) =? 0) = Z.testbit z (flag_num g)).
  { intros z g. rewrite Z.shiftl_1_l. specialize (Hn g).
    destruct (Z.testbit z (flag_num g)) eqn:E.
    - apply negb_true_iff, Z.eqb_neq. intros H. apply (f_equal (fun z => Z.testbit z (flag_num g))) in H.
      rewrite Z.land_spec, E, Z.pow2_bits_true, Z.bits_0 in H by done. done.
    - apply negb_false_iff, Z.eqb_eq. apply Z.bits_inj'. intros i Hi. rewrite Z.land_spec, Z.bits_0.
      destruct (decide (i = flag_num g)) as [->|]; [by rewrite E|].
      by rewrite Z.pow2_bits_false, andb_false_r by done. }
  unfold has_flag. cbn [flags set_flags]. rewrite !Hb, Z.lor_spec, Z.shiftl_1_l.
  rewrite orb_comm. f_equal. case_bool_decide as Hf; [subst; by apply Z.pow2_bits_true|].
  apply Z.pow2_bits_false. destruct f, f'; cbn; done.
Qed.

Lemma has_flag_clear o f f' :
  has_flag (set_flags (Z.land (flags o) (Z.lnot (Z.shiftl 1 (flag_num f)))) o) f'
  = negb (bool_decide (f = f')) && has_flag o f'.
Proof.
  assert (Hn : forall f, 0 <= flag_num f) by (by intros []).
  unfold has_flag. cbn [flags set_flags]. rewrite !Z.shiftl_1_l. case_bool_decide as Hf; cbn [negb andb].
  - subst. apply negb_false_iff, Z.eqb_eq. apply Z.bits_inj'. intros i Hi.
    rewrite !Z.land_spec, Z.lnot_spec, Z.bits_0 by done. destruct (Z.testbit _ i); btauto.
  - do 2 f_equal. apply Z.bits_inj'. intros i Hi. rewrite !Z.land_spec, Z.lnot_spec by done.
    destruct (decide (i = flag_num f')) as [->|].
    + rewrite (Z.pow2_bits_false (flag_num f)) by (destruct f, f'; cbn; done). btauto.
    + rewrite (Z.pow2_bits_false (flag_num f')) by done. btauto.
Qed.

Lemma good_users F P d x o o' xs : good F P d -> objects d !! x = Some o -> core o' = core o ->
  placement o' = placement o -> verbdefs o' = verbdefs o ->
  let d' := with_users (Obj <$> xs) (with_objects (<[x := o']> (objects d)) d) in
  NoDup xs -> (forall y, y <> x -> y ∈ xs <-> Obj y ∈ all_users d) ->
  (x ∈ xs <-> has_flag o' FLAG_USER = true) -> good F P d'.
Proof.
  intros Hg Ho Hc Hpl Hv d' Hnd Hother Hx. pose proof (good_wf _ _ _ Hg) as Hw.
  assert (Hvs : forall y, verbdefs <$> objects d' !! y = verbdefs <$> objects d !! y)
    by (intros y; by apply (insert_field verbdefs _ _ o)).
  apply (good_kept F P F P d); [done| |done|done| |done].
  - apply (wf_db_alike F P d); [done| | | |].
    + split; [done..|]. intros y. by apply (insert_field core _ _ o).
    + intros y. by apply (insert_field placement _ _ o).
    + apply (users_intro d' xs); [done|done| |].
      * intros y oy. cbn. destruct (decide (y = x)) as [->|].
        -- rewrite lookup_insert_eq. by intros [= <-].
        -- rewrite lookup_insert_ne by done. intros Hy. rewrite Hother by done.
           by apply (wf_users_flag d (wdb_users _ _ _ Hw)).
      * intros y Hy. cbn. destruct (decide (y = x)) as [->|]; [rewrite lookup_insert_eq; eauto|].
        rewrite lookup_insert_ne by done. apply (wf_users_valid d (wdb_users _ _ _ Hw)). by apply Hother.
    + apply (wf_verbs_ext d); [done|done|apply Hw].
  - intros y oy Hy. by rewrite Hvs, Hy.
Qed.

Lemma Obj_elem (xs : list Z) x : Obj x ∈ (Obj <$> xs) <-> x ∈ xs.
Proof. rewrite list_elem_of_fmap. split; [by intros (y & [= ->] & ?)|eauto]. Qed.

Lemma good_set_flag F P d x f : good F P d -> is_Some (objects d !! x) ->
  exists d', db_set_object_flag d x f = Ok d' /\ good F P d'.
Proof.
  intros Hg [o Ho]. unfold db_set_object_flag. rewrite (upd_object_Ok d x o) by done.
  cbn [mbind res_bind]. set (o' := set_flags _ o). pose proof (has_flag_set o f FLAG_USER) as Hf.
  fold o' in Hf. destruct (users_list d (wdb_users _ _ _ (good_wf _ _ _ Hg))) as (xs & Hu & Hnd & Hfl & Hval).
  case_bool_decide as Hfu; cbn [orb] in Hf.
  - cbn [all_users with_objects]. rewrite Hu, setadd_objs. cbn [mbind res_bind]. eexists. split; [done|].
    apply (good_users F P d x o o'); [done..| | |].
    + case_decide; [done|]. apply NoDup_app. split_and!; [done| |apply NoDup_singleton].
      by intros y Hy ->%list_elem_of_singleton.
    + intros y Hy. rewrite Hu, Obj_elem. case_decide; [done|]. rewrite elem_of_app, list_elem_of_singleton. tauto.
    + rewrite Hf. split; [done|]. intros _. case_decide; [done|]. rewrite elem_of_app, list_elem_of_singleton. auto.
  - eexists. split; [done|].
    assert (E : with_objects (<[x := o']> (objects d)) d
      = with_users (Obj <$> xs) (with_objects (<[x := o']> (objects d)) d)) by (rewrite <- Hu; by destruct d).
    rewrite E. apply (good_users F P d x o o'); [done..| |].
    + intros y Hy. by rewrite Hu, Obj_elem.
    + rewrite Hf. by apply Hfl.
Qed.

Lemma good_clear_flag F P d x f : good F P d -> is_Some (objects d !! x) ->
  exists d', db_clear_object_flag d x f = Ok d' /\ good F P d'.
Proof.
  intros Hg [o Ho]. unfold db_clear_object_flag. rewrite (upd_object_Ok d x o) by done.
  cbn [mbind res_bind]. set (o' := set_flags _ o). pose proof (has_flag_clear o f FLAG_USER) as Hf.
  fold o' in Hf. destruct (users_list d (wdb_users _ _ _ (good_wf _ _ _ Hg))) as (xs & Hu & Hnd & Hfl & Hval).
  case_bool_decide as Hfu; cbn [negb andb] in Hf.
  - cbn [all_users with_objects]. rewrite Hu, setremove_objs by done. cbn [mbind res_bind].
    eexists. split; [done|].
    apply (good_users F P d x o o'); [done..|by apply NoDup_filter| |].
    + intros y Hy. rewrite Hu, Obj_elem, elem_without. tauto.
    + rewrite Hf, elem_without. naive_solver.
  - eexists. split; [done|].
    assert (E : with_objects (<[x := o']> (objects d)) d
      = with_users (Obj <$> xs) (with_objects (<[x := o']> (objects d)) d)) by (rewrite <- Hu; by destruct d).
    rewrite E. apply (good_users F P d x o o'); [done..| |].
    + intros y Hy. by rewrite Hu, Obj_elem.
    + rewrite Hf. by apply Hfl.
Qed.

(** *** Creating and destroying *)

Lemma create_rest garbage d n d' : db_create_object garbage d = Ok (n, d') ->
  vc_table d' = vc_table d /\ verbs d' = verbs d.
Proof.
  unfold db_create_object, dbpriv_new_object. intros H.
  apply res_bind_Ok in H as ([m d1] & H1 & H). case_match; [done|]. injection H1 as <- <-.
  apply res_bind_Ok in H as (o & _ & H). injection H as <- <-. done.
Qed.

Lemma good_create F P d garbage : good F P d -> let n := num_objects d in
  exists d', db_create_object garbage d = Ok (n, d') /\ good (add_root n F) (add_root n P) d' /\
    objects d !! n = None /\ exists o, objects d' !! n = Some o /\ blank n o.
Proof.
  intros Hg n. destruct (create_object_Ok F P d garbage (good_wf _ _ _ Hg))
    as (d' & H & Hv & _ & Hw' & Hobj & o & Ho & Hb). fold n in H, Hv, Hw', Hobj, Ho, Hb.
  destruct (create_rest garbage d n d' H) as [Et Ev].
  assert (Hn : objects d !! n = None).
  { destruct (objects d !! n) eqn:E; [|done].
    assert (valid d n = true) by (apply (valid_iff F P d n Hg); eauto). congruence. }
  exists d'. split_and!; [done| |done|by exists o].
  assert (Hne : forall x ox, objects d !! x = Some ox -> x <> n) by (intros x ox Hx ->; congruence).
  apply (good_kept F P _ _ d); [done|done|done|done| |].
  - intros x ox Hx. rewrite Hobj by (by eapply Hne). by rewrite Hx.
  - intros x ox ls Hx _ Hl. eapply lineage_ext; [|exact Hl]. intros y Hy. cbn.
    rewrite lookup_insert_ne; [done|]. intros <-.
    apply (lineage_valid F x ls n Hl), (valid_family F P d n Hg) in Hy as [? ?]. congruence.
Qed.

Lemma free_verbs_sub vs heap heap' : free_verbs vs heap = Ok heap' ->
  forall v vd, heap' !! v = Some vd -> heap !! v = Some vd.
Proof.
  revert heap. induction vs as [|w vs IH]; intros heap H v vd Hv; cbn in H.
  - by injection H as <-.
  - apply res_bind_Ok in H as (_ & _ & H). specialize (IH _ H v vd Hv).
    by apply lookup_delete_Some in IH as [_ ?].
Qed.

Lemma destroy_rest n d d' : db_destroy_object n d = Ok d' ->
  vc_table d' = vc_table (db_priv_affected_callable_verb_lookup d) /\
  forall v vd, verbs d' !! v = Some vd -> verbs d !! v = Some vd.
Proof.
  unfold db_destroy_object. destruct (flush_same d) as (_ & _ & _ & _ & Fv & _).
  set (d1 := db_priv_affected_callable_verb_lookup d) in *. intros H.
  destruct (dbpriv_find_object d1 n) as [o|]; [|done]. destruct (_ || _); [done|].
  apply res_bind_Ok in H as (user & _ & H). apply res_bind_Ok in H as (d2 & H2 & H).
  apply res_bind_Ok in H as (_ & _ & H). apply res_bind_Ok in H as (heap & Hh & H).
  injection H as <-. cbn.
  assert (E : vc_table d2 = vc_table d1 /\ verbs d2 = verbs d1).
  { destruct user; [|by injection H2 as <-]. by apply res_bind_Ok in H2 as (u & _ & [= <-]). }
  destruct E as [-> Ev]. split; [done|]. intros v vd Hv. rewrite <- Fv, <- Ev. by apply (free_verbs_sub _ _ _ Hh).
Qed.

Lemma good_destroy F P d n : good F P d -> barren F n -> barren P n ->
  exists d', db_destroy_object n d = Ok d' /\ good (remove_root n F) (remove_root n P) d' /\
    objects d' = delete n (objects d).
Proof.
  intros Hg HbF HbP. assert (is_Some (objects d !! n)) as [o Ho].
  { apply (valid_family F P d n Hg). destruct HbF. eauto. }
  destruct (destroy_Ok F P d n o (good_wf _ _ _ Hg) Ho HbF HbP) as (d' & xs & H & Hw' & Hobj & _).
  destruct (destroy_rest n d d' H) as [Et Hv]. exists d'. split_and!; [done| |done].
  apply (good_emptied _ _ d d'); [done|done|]. intros v vd Hvd. by apply (good_names _ _ _ Hg v), Hv.
Qed.

(** *** Moving *)

Lemma good_change_location F P d x new : good F P d -> legal_move P x new ->
  exists d', db_change_location x new d = Ok d' /\ good F (move_node P x new) d' /\
    same_nodes place (objects d) (objects d').
Proof.
  intros Hg Hl. destruct (change_location_Ok F P d x new (good_wf _ _ _ Hg) Hl) as (d' & H & Hw' & Hs).
  exists d'. split_and!; [done| |done]. unfold db_change_location in H.
  apply res_bind_Ok in H as (objs & _ & [= <-]).
  apply (good_kept F P F _ d); [done|done|done|done| |done].
  intros y oy Hy. rewrite (same_nodes_field place verbdefs (objects d)) by done. by rewrite Hy.
Qed.

Lemma no_kids F P d x o : good F P d -> objects d !! x = Some o -> child o = NOTHING ->
  kids F !! x = Some [].
Proof.
  intros Hg Ho Hc. pose proof (good_props _ _ _ Hg) as Hp.
  destruct (wp_family _ _ Hp x) as (_ & Hk & _). unfold fsts in Hk. rewrite Ho in Hk.
  assert (is_Some (kids F !! x)) as [ks Hks].
  { apply (wf_dom F (wp_forest _ _ Hp)), (valid_family F P d x Hg). eauto. }
  destruct (Hk ks Hks) as (s & [= <-] & Hpath). cbn in Hpath. rewrite Hc in Hpath.
  destruct ks as [|k ks]; [done|]. cbn in Hpath. by destruct Hpath as (_ & ? & _).
Qed.

Lemma good_change_parent F P d x new : good F P d -> legal_move F x new ->
  exists b d', db_change_parent x new d = Ok (b, d') /\ (b = true <-> compatible F d x new) /\
    if (b : bool) then good (move_node F x new) P d' /\
      forall y, traits <$> objects d' !! y = traits <$> objects d !! y
    else d' = d.
Proof.
  intros Hg Hl. pose proof (good_wf _ _ _ Hg) as Hw. pose proof (good_props _ _ _ Hg) as Hp.
  pose proof Hl as [Hx Hnew]. destruct (check_Ok F d x new Hp Hx) as (b & Hb & Hiff).
  { destruct Hnew as [->|(_ & _ & ? & _)]; [by left|by right]. }
  destruct b; [|exists false, d; unfold db_change_parent; by rewrite Hb].
  destruct (change_parent_Ok F P d x new Hw Hl) as (d' & old & H & Hold & Hw' & _ & Ev & Hvs & Hvc);
    [by apply Hiff|].
  exists true, d'. split; [done|]. split; [done|]. split; [|done]. destruct Hvc as [Et|(Et & o & Ho & Hc & Hno)].
  - apply (good_emptied _ _ d d'); [done|done|]. unfold wf_vdefs. rewrite Ev. apply Hg.
  - apply (good_kept F P _ _ d); [done|done|done|done| |].
    + intros y oy Hy. specialize (Hvs y). rewrite Hy in Hvs.
      destruct (objects d' !! y) as [oy'|]; [|done]. cbn. by injection Hvs as _ _ _ -> _ _ _.
    + intros y oy ls Hy Hne Hls. eapply lineage_ext; [|exact Hls]. intros z Hz. cbn.
      rewrite lookup_insert_ne; [done|]. intros <-.
      (* the object that moves is in nobody's lineage but its own *)
      assert (Hk : forall w, par F !! w <> Some x).
      { intros w Hpw. destruct (wf_kids F (wp_forest _ _ Hp) x [] (no_kids F P d x o Hg Ho Hc)) as [_ Hin].
        by apply Hin, elem_of_nil in Hpw. }
      destruct (decide (y = x)) as [->|Hyx]; [congruence|].
      by apply (lineage_avoids F x y ls Hk Hyx Hls).
Qed.

(** *** Renumbering *)

(** The cache is not touched, and the verbs keep their names. *)
Definition but_owner (vd : Verbdef) := (v_name vd, v_perms vd, v_prep vd).

Lemma but_owner_ok vd vd' : but_owner vd' = but_owner vd -> verb_ok vd -> verb_ok vd'.
Proof. intros [= E1 E2 E3] [? ? ? ? ?]. split; unfold verb_dobj, verb_iobj in *; congruence. Qed.

Definition renames_no_verb (d d' : db) : Prop := vc_table d' = vc_table d /\
  forall v vd', verbs d' !! v = Some vd' -> exists vd, verbs d !! v = Some vd /\ but_owner vd' = but_owner vd.

#[export] Instance renames_no_verb_refl : Reflexive renames_no_verb.
Proof. intros d. split; [done|]. eauto. Qed.
#[export] Instance renames_no_verb_trans : Transitive renames_no_verb.
Proof.
  intros d1 d2 d3 [E1 H1] [E2 H2]. split; [congruence|]. intros v vd (vd2 & Hv2 & ->)%H2. by apply H1.
Qed.

Lemma rename_verb_owners_names old new vs heap heap' : rename_verb_owners old new vs heap = Ok heap' ->
  forall v vd', heap' !! v = Some vd' -> exists vd, heap !! v = Some vd /\ but_owner vd' = but_owner vd.
Proof.
  revert heap. induction vs as [|w vs IH]; intros heap H v vd' Hv; cbn in H.
  - injection H as <-. eauto.
  - apply res_bind_Ok in H as (wd & Hw%deref_Ok & H). destruct (IH _ H v vd' Hv) as (vd & Hvd & ->).
    destruct (decide (v = w)) as [->|].
    + rewrite lookup_insert_eq in Hvd. injection Hvd as <-. by exists wd.
    + rewrite lookup_insert_ne in Hvd by done. by exists vd.
Qed.

Lemma upd_object_rest x f d d' : upd_object x f d = Ok d' -> vc_table d' = vc_table d /\ verbs d' = verbs d.
Proof. unfold upd_object. by intros (objs & _ & [= <-])%res_bind_Ok. Qed.

Lemma renames_same d d' : vc_table d' = vc_table d -> verbs d' = verbs d -> renames_no_verb d d'.
Proof. intros E1 E2. split; [done|]. rewrite E2. eauto. Qed.

Lemma rename_owners_of_rest old new x d d' : rename_owners_of old new x d = Ok d' -> renames_no_verb d d'.
Proof.
  unfold rename_owners_of. destruct (objects d !! x) as [o|]; [|by intros [= <-]].
  intros (d1 & [E1 V1]%upd_object_rest & H)%res_bind_Ok.
  apply res_bind_Ok in H as (heap & Hh & H). apply res_bind_Ok in H as (n & _ & H).
  apply res_bind_Ok in H as (cells & _ & [E2 V2]%upd_object_rest). cbn in E2, V2.
  split; [congruence|]. rewrite V2, <- V1. by apply rename_verb_owners_names with old new (verbdefs o).
Qed.

Lemma rename_owners_rest old new xs d d' : rename_owners old new xs d = Ok d' -> renames_no_verb d d'.
Proof.
  revert d. induction xs as [|x xs IH]; intros d H; cbn in H; [by injection H as <-|].
  apply res_bind_Ok in H as (d1 & H1%rename_owners_of_rest & H). etrans; [exact H1|by apply IH].
Qed.

Lemma renumber_rest old d n d' : db_renumber_object old d = Ok (n, d') ->
  renames_no_verb (db_priv_affected_callable_verb_lookup d) d'.
Proof.
  unfold db_renumber_object. set (d0 := db_priv_affected_callable_verb_lookup d).
  destruct (List.find _ (seqZ 0 old)) as [new|]; [|by intros [= <- <-]].
  intros (d1 & H & [= <- <-])%res_bind_Ok. unfold renumber in H.
  apply res_bind_Ok in H as (o & _ & H). apply res_bind_Ok in H as (objs1 & _ & H).
  apply res_bind_Ok in H as (objs2 & _ & H). apply res_bind_Ok in H as (user & _ & H).
  apply res_bind_Ok in H as (d2 & H2 & H%rename_owners_rest). etrans; [|exact H].
  apply renames_same; (destruct user; [apply res_bind_Ok in H2 as (u & _ & [= <-])|injection H2 as <-]); done.
Qed.

Lemma good_renumber F P d old : good F P d -> is_Some (objects d !! old) ->
  exists n d', db_renumber_object old d = Ok (n, d') /\
    good (rename_forest old n F) (rename_forest old n P) d'.
Proof.
  intros Hg Ho. destruct (renumber_object_Ok F P d old (good_wf _ _ _ Hg) Ho)
    as (n & d' & H & _ & _ & Hw' & _).
  destruct (renumber_rest old d n d' H) as [Et Hv]. exists n, d'. split; [done|].
  apply (good_emptied _ _ d d'); [done|done|]. destruct (flush_same d) as (_ & _ & _ & _ & Fv & _).
  intros v vd (vd0 & Hv0 & E)%Hv. rewrite Fv in Hv0. by apply (but_owner_ok vd0 vd E), (good_names _ _ _ Hg v).
Qed.

(** *** Properties *)

Lemma wf_db_bones F P d d' : wf_db F P d -> same_bones d d' -> wf_props F d' ->
  wf_db F P d' /\ vc_table d' = vc_table d /\ verbs d' = verbs d /\
  forall y, verbdefs <$> objects d' !! y = verbdefs <$> objects d !! y.
Proof.
  intros Hw [Hrest Hb] Hp. unfold with_wpds, with_objects in Hrest. cbn in Hrest.
  injection Hrest as En Em Eu Ev Et _ _ _ _.
  assert (Hf : forall {B} (f : Object -> B), (forall o, f (bones o) = f o) ->
            forall y, f <$> objects d' !! y = f <$> objects d !! y).
  { intros B f Hf y. specialize (Hb y). destruct (objects d' !! y) as [o'|], (objects d !! y) as [o|];
      cbn in *; try done. rewrite <- (Hf o'), <- (Hf o). congruence. }
  split; [|by split_and!; [..|apply Hf]]. split; [done|apply Hw| | |].
  - apply (represents_ext place (objects d)); [by apply Hf..|apply Hw].
  - apply (wf_users_ext d); [done|by apply Hf|apply Hw].
  - apply (wf_verbs_ext d); [done|by apply Hf|apply Hw].
Qed.

Lemma good_bones F P d d' : good F P d -> same_bones d d' -> wf_props F d' -> good F P d'.
Proof.
  intros Hg Hb Hp. destruct (wf_db_bones F P d d' (good_wf _ _ _ Hg) Hb Hp) as (Hw' & Et & Ev & Hvs).
  apply (good_kept F P F P d); [done|done|done|done| |done]. intros x o Ho. by rewrite Hvs, Ho.
Qed.

Lemma good_add_propdef F P d x pname value own pflags : good F P d -> is_Some (objects d !! x) ->
  nul_free pname -> value <> Clear ->
  exists b d', db_add_propdef x pname value own pflags d = Ok (b, d') /\ good F P d'.
Proof.
  intros Hg Hx Hn Hv. destruct (add_propdef_Ok F d x pname value own pflags (good_props _ _ _ Hg) Hx Hn Hv)
    as (b & d' & H & Hp' & _ & Hd). exists b, d'. split; [done|]. destruct b; [|by subst].
  by apply (good_bones F P d); [|apply Hd|].
Qed.

Lemma good_delete_propdef F P d x pname : good F P d -> is_Some (objects d !! x) -> nul_free pname ->
  exists b d', db_delete_propdef x pname d = Ok (b, d') /\ good F P d'.
Proof.
  intros Hg Hx Hn. destruct (delete_propdef_Ok F d x pname (good_props _ _ _ Hg) Hx Hn)
    as (b & d' & H & Hp' & _ & Hd). exists b, d'. split; [done|]. destruct b; [|by subst].
  by apply (good_bones F P d); [|apply Hd|].
Qed.

Lemma good_rename_propdef F P d x old new : good F P d -> is_Some (objects d !! x) ->
  nul_free old -> nul_free new -> no_waif_rename old new ->
  exists b d', db_rename_propdef x old new d = Ok (b, d') /\ good F P d'.
Proof.
  intros Hg Hx Ho Hn Hw. destruct (rename_propdef_Ok F d x old new (good_props _ _ _ Hg) Hx Ho Hn Hw)
    as (b & d' & H & Hp' & _ & Hd). exists b, d'. split; [done|]. destruct b; [|by subst].
  by apply (good_bones F P d); [|apply Hd|].
Qed.

(** A cell gets another value, owner or permissions. *)
Lemma good_cell F P d x o n pv pv' : good F P d -> objects d !! x = Some o ->
  propval o !! n = Some pv -> (p_var pv' = Clear -> (cur_length (propdefs o) <= n)%nat) ->
  good F P (with_objects (<[x := set_propval (<[n := pv']> (propval o)) o]> (objects d)) d).
Proof.
  intros Hg Ho Hn Hc. pose proof (good_props _ _ _ Hg) as Hp. set (o' := set_propval _ o).
  set (d' := with_objects _ d).
  assert (Hf : framed d d') by (by apply (framed_insert d x o)).
  assert (Hl : forall y oy, objects d' !! y = Some oy -> exists oy0, objects d !! y = Some oy0 /\
            length (propval oy) = length (propval oy0) /\ propdefs oy = propdefs oy0 /\
            waif_propdefs oy = waif_propdefs oy0).
  { intros y oy. cbn. destruct (decide (y = x)) as [->|].
    - rewrite lookup_insert_eq. intros [= <-]. exists o. cbn. by rewrite length_insert.
    - rewrite lookup_insert_ne by done. eauto. }
  assert (Hs : forall y, schema d' y = schema d y)
    by (intros y; apply (framed_schema F); [done|apply Hp..]).
  apply (good_bones F P d); [done| |].
  - split; [done|]. intros y. apply (framed_field bones); done.
  - destruct Hp as [HF Hr Ht [Hwe Hws] Hcl Hd Hu Hcap Hclear]. split; try done.
    + by apply (framed_family F d).
    + by apply (framed_table d).
    + split.
      * intros y oy p (oy0 & Hy & _ & _ & ->)%Hl. by apply (Hwe y oy0).
      * intros y z oy oz p (oy0 & Hy & _ & _ & ->)%Hl (oz0 & Hz & _ & _ & ->)%Hl. by apply (Hws y z oy0 oz0).
    + intros y oy (oy0 & Hy & -> & _)%Hl. rewrite Hs. by apply Hcl.
    + intros y oy p (oy0 & Hy & _ & -> & _)%Hl. by apply (Hd y oy0).
    + intros y. rewrite Hs. apply Hu.
    + intros y oy (oy0 & Hy & _ & -> & _)%Hl. by apply (Hcap y oy0).
    + intros y oy i pvi. cbn. destruct (decide (y = x)) as [->|].
      * rewrite lookup_insert_eq. intros [= <-]. cbn. destruct (decide (i = n)) as [->|].
        -- rewrite list_lookup_insert_eq by (by eapply lookup_lt_Some). intros [= <-] Hi.
           intros E%Hc. lia.
        -- rewrite list_lookup_insert_ne by done. by apply (Hclear x o i).
      * rewrite lookup_insert_ne by done. by apply (Hclear y oy i).
Qed.

(** *** Verbs *)

Section verbs.
Context (F P : forest) (d : db) (Hg : good F P d).

Lemma find_numbered_Ok same vname num vs : Forall (fun v => is_Some (verbs d !! v)) vs -> forall i,
  exists r, find_numbered (verbs d) same vname num i vs = Ok r /\ forall v, r = Some v -> v ∈ vs.
Proof.
  intros Hvs. induction Hvs as [|v vs [vd Hv] _ IH]; intros i; cbn [find_numbered]; [by exists None|].
  rewrite Hv. cbn [deref mbind res_bind]. case_match.
  - exists (Some v). split; [done|]. intros w [= <-]. apply list_elem_of_here.
  - destruct (IH (i + 1)) as (r & -> & Hr). exists r. split; [done|]. intros w Hw. apply elem_of_cons. right. eauto.
Qed.

(** What a search on the object finds is good to be changed. *)
Lemma find_defined_Ok same x vname allow_numbers : is_Some (objects d !! x) ->
  exists vh, db_find_defined_verb d same x vname allow_numbers = Ok vh /\
    match vh with
    | NullHandle => True
    | StaticHandle h => exists o vd, good_handle d vh h o vd
    | CachedHandle _ => False
    end.
Proof.
  intros [o Ho]. pose proof (good_props _ _ _ Hg) as Hp. pose proof (wdb_verbs _ _ _ (good_wf _ _ _ Hg)) as Hw.
  unfold db_find_defined_verb. rewrite (good_lookup F P d x Hg), Ho. cbn [deref mbind res_bind].
  destruct (find_numbered_Ok same vname (verb_number vname allow_numbers) (verbdefs o)) with (i := 0) as (r & -> & Hr).
  { apply Forall_forall. intros v. by apply (wv_exists d Hw x o). }
  cbn [mbind res_bind]. eexists. split; [done|]. destruct r as [v|]; [|done].
  rewrite (wf_id d (wp_table _ _ Hp) x o Ho). specialize (Hr v eq_refl).
  destruct (wv_exists d Hw x o v Ho Hr) as [vd Hvd]. exists o, vd. by split.
Qed.

Lemma vdefs_insert v vd d' : verb_ok vd -> verbs d' = <[v := vd]> (verbs d) -> wf_vdefs d'.
Proof.
  intros Hn E w wd. rewrite E. destruct (decide (w = v)) as [->|].
  - rewrite lookup_insert_eq. by intros [= <-].
  - rewrite lookup_insert_ne by done. apply (good_names _ _ _ Hg w).
Qed.

Lemma good_change_verb h o vd null f : good_handle d (StaticHandle h) h o vd -> verb_ok (f vd) ->
  exists d', upd_verb (StaticHandle h) null f (db_priv_affected_callable_verb_lookup d) = Ok d' /\ good F P d' /\
    good_handle d' (StaticHandle h) h o (f vd) /\ objects d' = objects d /\
    verbs d' = <[verbdef h := f vd]> (verbs d).
Proof.
  intros Hh Hf.
  destruct (change_verb_Ok F P d h o vd null f (good_wf _ _ _ Hg) Hh) as (d' & -> & Ev & Eo & Hw' & Hc').
  exists d'. split; [done|]. split; [split; [done|by apply (vdefs_insert (verbdef h) (f vd))|done]|].
  split; [|done]. destruct Hh as (Hd & Ho & Hin & Hv). split; [done|]. by rewrite Eo, Ev, lookup_insert_eq.
Qed.

Lemma good_touch_verb h o vd null f : good_handle d (StaticHandle h) h o vd -> but_owner (f vd) = but_owner vd ->
  exists d', upd_verb (StaticHandle h) null f d = Ok d' /\ good F P d' /\
    good_handle d' (StaticHandle h) h o (f vd) /\ objects d' = objects d /\
    verbs d' = <[verbdef h := f vd]> (verbs d).
Proof.
  intros Hh Hf. pose proof Hf as [= Hf1 Hf2 _].
  destruct (touch_verb_Ok F P d _ h o vd null f (good_wf _ _ _ Hg) (good_cache _ _ _ Hg) Hh Hf1 Hf2)
    as (d' & -> & Ev & Eo & Hw' & Hc').
  assert (Hok : verb_ok vd) by (destruct Hh as (_ & _ & _ & Hv); by apply (good_names _ _ _ Hg (verbdef h))).
  exists d'. split; [done|]. split.
  - split; [done|apply (vdefs_insert (verbdef h) (f vd)); [by apply (but_owner_ok vd)|done]|done].
  - split; [|done]. destruct Hh as (Hd & Ho & Hin & Hv). split; [done|]. by rewrite Eo, Ev, lookup_insert_eq.
Qed.

Lemma good_delete_verb h o vd : good_handle d (StaticHandle h) h o vd ->
  exists d', db_delete_verb (StaticHandle h) d = Ok d' /\ good F P d'.
Proof.
  intros Hh. destruct (delete_verb_Ok F P d _ h o vd (good_wf _ _ _ Hg) Hh) as (l1 & l2 & d' & _ & -> & Ev & _ & Hw' & Hc').
  exists d'. split; [done|]. split; [done| |done].
  intros w wd. rewrite Ev. intros [_ Hwd]%lookup_delete_Some. by apply (good_names _ _ _ Hg w).
Qed.

Lemma good_add_verb x vnames own flags dobj prep iobj : is_Some (objects d !! x) -> nul_free vnames ->
  0 <= flags < 16 -> good_spec dobj prep iobj ->
  exists n d', db_add_verb x vnames own flags dobj prep iobj d = Ok (n, d') /\ good F P d'.
Proof.
  intros [o Ho] Hn Hf Hspec.
  destruct (add_verb_Ok F P d x o vnames own flags dobj prep iobj (good_wf _ _ _ Hg) Ho)
    as (p & d' & -> & _ & Ev & _ & Hw' & Hc').
  do 2 eexists. split; [done|]. split; [done|by apply (vdefs_insert p _ d') in Ev; [|apply packed_ok]|done].
Qed.
End verbs.
