(* ===== verification/Handlers.v ===== *)
(** * Built-in functions on objects: the theorems (src/objects.c, src/quota.c)

    No call of these functions, by whatever programmer and with whatever arguments, faults
    or breaks the database; the loops of [recycle] end. *)

From S2P Require Import Prelude CStrings Values Lists Libc Links Db Properties Layout Tables Objects.
From S2P Require Import Sample PropertyOps Reparent ObjectOps Renumber Preps Verbs VerbCache VerbOps.
From S2P Require Import Numbers ObjectBuiltins Invariant.

Open Scope Z_scope.

(** ** Looking at the database *)

Lemma fmap_dom {A B} (f : A -> B) (m1 m2 : option A) : f <$> m1 = f <$> m2 -> is_Some m1 <-> is_Some m2.
Proof. destruct m1, m2; intros H; try done; split; eauto. Qed.

Section reads.
Context (F P : forest) (d : db) (Hg : good F P d).

Lemma read_owner x : is_Some (objects d !! x) -> exists v, db_object_owner d x = Ok v.
Proof. intros [o Ho]. unfold db_object_owner, get. rewrite Ho. cbn. eauto. Qed.

Lemma read_parent x p : par F !! x = Some p -> db_object_parent d x = Ok p.
Proof.
  intros Hp. destruct (wp_family _ _ (good_props _ _ _ Hg) x) as (Hu & _). rewrite Hp in Hu.
  unfold ups in Hu. apply fmap_Some in Hu as (o & Ho & ->). unfold db_object_parent, get. by rewrite Ho.
Qed.

Lemma read_location x p : par P !! x = Some p -> db_object_location d x = Ok p.
Proof.
  intros Hp. destruct (wdb_place _ _ _ (good_wf _ _ _ Hg) x) as (Hu & _). rewrite Hp in Hu.
  unfold ups in Hu. apply fmap_Some in Hu as (o & Ho & ->). unfold db_object_location, get. by rewrite Ho.
Qed.

Lemma read_wizard x : exists b, is_wizard d x = Ok b.
Proof.
  unfold is_wizard, valid_with_flag. destruct (valid d x) eqn:E; [|eauto].
  apply (valid_iff F P d x Hg) in E as [o Ho]. unfold db_object_has_flag, get. rewrite Ho. cbn. eauto.
Qed.

Lemma read_controls who what : is_Some (objects d !! what) -> exists b, controls d who what = Ok b.
Proof.
  intros Hx. destruct (read_wizard who) as [b Hb], (read_owner what Hx) as [v Hv].
  unfold controls. rewrite Hb. cbn [mbind res_bind]. destruct b; [eauto|]. rewrite Hv. cbn. eauto.
Qed.

Lemma read_allows x who f : is_Some (objects d !! x) -> exists b, db_object_allows d x who f = Ok b.
Proof.
  intros Hx. destruct (read_wizard who) as [b Hb], (read_owner x Hx) as [v Hv].
  unfold db_object_allows. rewrite Hv. cbn [mbind res_bind]. destruct (who =? v); [eauto|].
  rewrite Hb. cbn [mbind res_bind]. destruct b; [eauto|]. destruct Hx as [o Ho].
  unfold db_object_has_flag, get. rewrite Ho. cbn. eauto.
Qed.

(** The loops that look for a cycle. *)
Lemma climbs_to_Ok (up : Z -> res Z) (Q : forest) x ls what fuel :
  lineage Q x ls -> (forall y p, par Q !! y = Some p -> up y = Ok p) ->
  (length ls <= fuel)%nat -> climbs_to fuel up x what = Ok (bool_decide (what ∈ ls)).
Proof.
  intros Hl Hup. revert x fuel Hl. induction ls as [|y ls IH]; intros x fuel Hl Hf; unfold lineage in Hl; cbn in Hl.
  - subst x. rewrite bool_decide_eq_false_2 by (by apply not_elem_of_nil). by destruct fuel.
  - destruct Hl as (-> & H0 & p & Hp & Hl). destruct fuel as [|fuel]; [cbn in Hf; lia|]. cbn [climbs_to].
    destruct (Z.eqb_spec y NOTHING); [done|]. destruct (Z.eqb_spec y what) as [->|Hne].
    + rewrite bool_decide_eq_true_2; [done|]. apply elem_of_cons. by left.
    + rewrite (Hup y p Hp). cbn [mbind res_bind]. rewrite (IH p fuel Hl) by (cbn in Hf; lia).
      f_equal. apply bool_decide_ext. rewrite elem_of_cons.
      split; [tauto|by intros [->|]].
Qed.

Lemma line_length Q x ls : (forall y, is_Some (objects d !! y) <-> is_Some (par Q !! y)) ->
  lineage Q x ls -> (length ls <= size (objects d))%nat.
Proof. intros Hdom Hl. eapply path_length; [exact Hl|]. intros y. by rewrite Hdom. Qed.

(** An object or nothing has a line of ancestors. *)
Lemma has_line (Q : forest) x : wf_forest Q -> x = NOTHING \/ is_Some (par Q !! x) -> exists ls, lineage Q x ls.
Proof. intros HQ [->|Hx]; [by exists []|]. by apply (wf_acyclic Q HQ). Qed.

Lemma line_valid (Q : forest) x ls : lineage Q x ls -> x = NOTHING \/ is_Some (par Q !! x).
Proof. destruct ls as [|y ls]; [by left|]. intros (-> & _ & p & Hp & _). eauto. Qed.

Lemma not_in_line (Q : forest) x new ls : lineage Q new ls -> is_Some (par Q !! x) -> x ∉ ls -> legal_move Q x new.
Proof.
  intros Hl Hx Hni. split; [done|]. destruct (line_valid Q new ls Hl) as [->|Hn]; [by left|right; by exists ls].
Qed.

End reads.

(** ** Calling a verb *)

Lemma good_same F P d d' : good F P d -> same_but_cache d d' -> wf_cache d' -> good F P d'.
Proof.
  intros [Hw Hn _] Hs Hc. destruct (same_but_cache_fields d d' Hs) as (Fo & Fn & Fm & Fu & Fv & Fp).
  split; [exact (wf_db_ext F P d d' Hw Fo Fn Fm Fu Fv Fp)|unfold wf_vdefs; by rewrite Fv|done].
Qed.

Lemma call_verb_Ok F P d room this vname : good F P d -> nul_free vname ->
  exists e d', call_verb room this vname d = Ok (e, d') /\ good F P d' /\ same_but_cache d d' /\
    (e = E_INVIND \/ e = E_VERBNF \/ e = E_NONE \/ e = E_MAXREC).
Proof.
  intros Hg Hv. unfold call_verb. destruct (valid d this); cbn [negb]; [|exists E_INVIND, d; split_and!; [done..|]; tauto].
  pose proof (good_props _ _ _ Hg) as Hp.
  destruct (callable_cached F d this vname) as (r & vh & d' & _ & -> & _ & Hs & Hc); try done;
    [first [apply Hp|apply wf_vdefs_names, Hg|apply Hg|apply (good_wf _ _ _ Hg)]..|]. cbn [mbind res_bind]. pose proof (good_same F P d d' Hg Hs Hc) as Hg'.
  destruct vh; [exists E_VERBNF, d'; tauto| |];
    (exists (if room then E_NONE else E_MAXREC), d'; split; [done|]; destruct room; tauto).
Qed.

(** ** Quotas *)

Lemma good_find_property F P d x pname : good F P d -> is_Some (objects d !! x) -> nul_free pname ->
  find_builtin pname = None ->
  exists r, db_find_property d x pname = Ok r /\
    match r with
    | None => True
    | Some (BuiltIn _ _, _) => False
    | Some (Slot _ y n, _) => y = x /\ exists o pv, objects d !! x = Some o /\ propval o !! n = Some pv /\
        ((n < cur_length (propdefs o))%nat -> defines d pname x)
    end.
Proof.
  intros Hg Hx Hn Hb. pose proof (good_props _ _ _ Hg) as Hp.
  destruct (find_property_Ok F d x pname Hp Hx Hn Hb) as (r & Hr & H). exists r. split; [done|].
  destruct r as [[[bp y|def y n] v]|]; [done| |done]. destruct H as (-> & _ & p & Hs & Hc & _). split; [done|].
  destruct Hx as [o Ho]. destruct (lookup_lt_is_Some_2 (propval o) n) as [pv Hpv].
  { rewrite (wp_cells _ _ Hp x o Ho). by eapply lookup_lt_Some. }
  exists o, pv. do 2 (split; [done|]). intros Hlt. exists o, p. split; [done|]. split; [|done].
  destruct (proj1 (valid_family F P d x Hg)) as [q Hq]; [by eexists|].
  destruct (schema_parent F d x o q Hp Ho Hq) as (_ & E & _). rewrite E, lookup_app_l in Hs.
  - unfold defs_of in Hs. rewrite list_lookup_fmap in Hs. apply fmap_Some in Hs as (p' & Hp' & [= _ ->]).
    by eapply list_elem_of_lookup_2.
  - unfold defs_of. by rewrite length_fmap.
Qed.

Lemma good_upd_slot F P d x n f o pv : good F P d -> objects d !! x = Some o ->
  propval o !! n = Some pv -> (p_var (f pv) = Clear -> (cur_length (propdefs o) <= n)%nat) ->
  exists d', upd_slot x n f d = Ok d' /\ good F P d' /\ num_objects d' = num_objects d /\
    objects d' = <[x := set_propval (<[n := f pv]> (propval o)) o]> (objects d).
Proof.
  intros Hg Ho Hn Hv. unfold upd_slot, slot_pval. rewrite (good_lookup F P) by done. rewrite Ho.
  cbn [deref mbind res_bind]. rewrite Hn. cbn [deref mbind res_bind]. rewrite (upd_object_Ok d x o) by done.
  eexists. split; [done|]. split; [by apply (good_cell F P d x o n pv)|done].
Qed.

Lemma quota_nul_free : nul_free quota_name /\ find_builtin quota_name = None.
Proof. split; [apply (bool_decide_unpack _); vm_compute; exact I|reflexivity]. Qed.

#[local] Opaque quota_name.

(** Only cells change. *)
Definition same_skeletons (d d' : db) : Prop := num_objects d' = num_objects d /\
  forall y, skeleton <$> objects d' !! y = skeleton <$> objects d !! y.

Lemma good_set_value F P d x def n v o pv : good F P d -> objects d !! x = Some o ->
  propval o !! n = Some pv -> (v = Clear -> (cur_length (propdefs o) <= n)%nat) ->
  exists d', db_set_property_value (Slot def x n) v d = Ok d' /\ good F P d' /\ same_skeletons d d'.
Proof.
  intros Hg Ho Hn Hv. destruct (good_upd_slot F P d x n (fun pv => mkPval v (p_owner pv) (p_perms pv)) o pv)
    as (d' & H & Hg' & Hnum & Hobj); [done..|].
  exists d'. split; [done|]. split; [done|]. split; [done|]. intros y. rewrite Hobj. by apply (insert_field skeleton _ _ o).
Qed.

Lemma decr_quota_Ok F P d x : good F P d ->
  exists b d', decr_quota x d = Ok (b, d') /\ good F P d' /\ same_skeletons d d' /\ (b = false -> d' = d).
Proof.
  intros Hg. unfold decr_quota. destruct (valid d x) eqn:Hv; cbn [negb]; [|exists true, d; by split_and!].
  apply (valid_iff F P d x Hg) in Hv. destruct quota_nul_free as [Hn Hb].
  destruct (good_find_property F P d x quota_name Hg Hv Hn Hb) as (r & -> & H). clear Hn Hb. cbn [mbind res_bind].
  destruct r as [[h v]|]; [|exists true, d; by split_and!].
  destruct v; try (by exists true, d; split_and!). destruct (num <=? 0); [exists false, d; by split_and!|].
  destruct h as [|def y i]; [done|]. destruct H as (-> & o & pv & Ho & Hpv & _).
  destruct (good_set_value F P d x def i (Int (num - 1)) o pv Hg Ho Hpv) as (d' & -> & Hg' & Hsk); [done|].
  by exists true, d'.
Qed.

Lemma incr_quota_Ok F P d x : good F P d ->
  exists d', incr_quota x d = Ok d' /\ good F P d' /\ same_skeletons d d'.
Proof.
  intros Hg. unfold incr_quota. destruct (valid d x) eqn:Hv; cbn [negb]; [|exists d; by split_and!].
  apply (valid_iff F P d x Hg) in Hv. destruct quota_nul_free as [Hn Hb].
  destruct (good_find_property F P d x quota_name Hg Hv Hn Hb) as (r & -> & H). clear Hn Hb. cbn [mbind res_bind].
  destruct r as [[h v]|]; [|exists d; by split_and!].
  destruct v; try (by exists d; split_and!).
  destruct h as [|def y i]; [done|]. destruct H as (-> & o & pv & Ho & Hpv & _).
  destruct (good_set_value F P d x def i (Int (wrap64 (num + 1))) o pv Hg Ho Hpv) as (d' & -> & Hg' & Hsk); [done|].
  by exists d'.
Qed.

(** ** [chparent] *)

Section climbing.
Context (F P : forest) (d : db) (Hg : good F P d).

(** The test for a cycle: what remains is a legal move. *)
Lemma climb_Ok Q up x new : wf_forest Q -> is_Some (par Q !! x) -> new = NOTHING \/ is_Some (par Q !! new) ->
  (forall y, is_Some (objects d !! y) <-> is_Some (par Q !! y)) ->
  (forall y p, par Q !! y = Some p -> up y = Ok p) ->
  exists b, climbs_to (size (objects d)) up new x = Ok b /\
    if (b : bool) then below Q x new else legal_move Q x new.
Proof.
  intros HQ Hx Hnew Hdom Hup. destruct (has_line Q new HQ Hnew) as [ls Hl].
  exists (bool_decide (x ∈ ls)). split.
  - apply (climbs_to_Ok up Q); [done|done|]. by apply (line_length d Q new).
  - case_bool_decide; [by exists ls|by apply (not_in_line Q x new ls)].
Qed.

Lemma climb_parents x new : is_Some (objects d !! x) -> new = NOTHING \/ is_Some (objects d !! new) ->
  exists b, climbs_to (size (objects d)) (db_object_parent d) new x = Ok b /\
    if (b : bool) then below F x new else legal_move F x new.
Proof.
  rewrite !(valid_family F P d) by done. intros Hx Hnew. apply climb_Ok; [apply good_props with P d, Hg|done..| |].
  - intros y. by apply (valid_family F P).
  - by apply (read_parent F P d).
Qed.

Lemma climb_locations x new : is_Some (objects d !! x) -> new = NOTHING \/ is_Some (objects d !! new) ->
  exists b, climbs_to (size (objects d)) (db_object_location d) new x = Ok b /\
    if (b : bool) then below P x new else legal_move P x new.
Proof.
  rewrite !(valid_place F P d) by done. intros Hx Hnew.
  apply climb_Ok; [apply (wdb_place_forest _ _ _ (good_wf _ _ _ Hg))|done..| |].
  - intros y. by apply (valid_place F P).
  - by apply (read_location F P d).
Qed.

Lemma invalid_iff x : valid d x = false <-> objects d !! x = None.
Proof. rewrite <- not_true_iff_false, (valid_iff F P d x Hg), <- eq_None_not_Some. done. Qed.
End climbing.

Ltac refuse := do 2 eexists; split; [reflexivity|]; right; split; [reflexivity|];
  eexists; split; [reflexivity|].

Lemma chparent_Ok F P d what p progr : good F P d ->
  exists pk d', bf_chparent [Obj what; Obj p] progr d = Ok (pk, d') /\
  (pk = no_var_pack /\ good (move_node F what p) P d' /\
     legal_move F what p /\ compatible F d what p /\ controls d progr what = Ok true /\
     (valid d p = true -> db_object_allows d p progr FLAG_FERTILE = Ok true) \/
   d' = d /\ exists e, pk = make_error_pack e /\
     match e with
     | E_INVARG => objects d !! what = None \/ p <> NOTHING /\ objects d !! p = None \/
         ~ compatible F d what p
     | E_PERM => controls d progr what = Ok false \/
         valid d p = true /\ db_object_allows d p progr FLAG_FERTILE = Ok false
     | E_RECMOVE => below F what p
     | _ => False
     end).
Proof.
  intros Hg. unfold bf_chparent.
  change (arg_obj [Obj what; Obj p] 1) with (Ok what). change (arg_obj [Obj what; Obj p] 2) with (Ok p).
  cbn [mbind res_bind].
  destruct (valid d what) eqn:Hwv; cbn [negb orb].
  2: { refuse. left.
       by apply (invalid_iff F P d). }
  apply (valid_iff F P d) in Hwv; [|done].
  destruct (negb (valid d p) && negb (p =? NOTHING)) eqn:Hpv.
  { apply andb_true_iff in Hpv as [Hpv%negb_true_iff Hne%negb_true_iff%Z.eqb_neq].
    refuse. right. left.
    split; [done|]. by apply (invalid_iff F P d). }
  assert (Hp : p = NOTHING \/ is_Some (objects d !! p)).
  { apply andb_false_iff in Hpv as [H%negb_false_iff|H%negb_false_iff%Z.eqb_eq]; [right|by left].
    by apply (valid_iff F P d). }
  destruct (read_controls F P d Hg progr what Hwv) as [c Hc]. rewrite Hc. cbn [mbind res_bind].
  destruct c; cbn [negb orb andb].
  2: { cbn. refuse. by left. }
  assert (exists b, (if valid d p then db_object_allows d p progr FLAG_FERTILE else Ok true) = Ok b /\
    (valid d p = true -> db_object_allows d p progr FLAG_FERTILE = Ok b) /\ (b = false -> valid d p = true))
    as (fert & -> & Hf1 & Hf2).
  { destruct (valid d p) eqn:E; [|by exists true]. apply (valid_iff F P d) in E; [|done].
    destruct (read_allows F P d Hg p progr FLAG_FERTILE E) as [b Hb]. by exists b. }
  cbn [mbind res_bind]. destruct fert; cbn [negb].
  2: { refuse. right. auto. }
  destruct (climb_parents F P d Hg what p Hwv Hp) as (b & -> & Hb). cbn [mbind res_bind]. destruct b.
  { refuse. done. }
  destruct (good_change_parent F P d what p Hg Hb) as (b & d' & -> & Hiff & Hd). cbn [mbind res_bind].
  do 2 eexists. split; [done|]. destruct b.
  - left. split_and!; [done|by destruct Hd|done|by apply Hiff|done|done].
  - right. split; [done|]. eexists. split; [done|]. right. right. rewrite <- Hiff. done.
Qed.


(** The package of an answer. *)
Definition pack_of {A} (r : res (package * A)) : option package :=
  match r with Ok (pk, _) => Some pk | Fail _ => None end.


(** ** [create] *)

(** A new object has nothing that could clash. *)
Lemma blank_compatible F P d n o p : good F P d -> par F !! n = Some NOTHING -> kids F !! n = Some [] ->
  objects d !! n = Some o -> blank n o -> compatible F d n p.
Proof.
  intros Hg Hpar Hkids Ho Hb k y _ Hy (oy & q & Hoy & Hq & _).
  pose proof (wp_forest _ _ (good_props _ _ _ Hg)) as HF.
  destruct (decide (y = n)) as [->|Hne].
  - replace oy with o in Hq by congruence. destruct (blank_props n o Hb) as (E & _). rewrite E in Hq.
    by apply not_elem_of_nil in Hq.
  - destruct (below_inv F HF n [] y Hkids Hy Hne) as (c & Hc & _). by apply not_elem_of_nil in Hc.
Qed.

Section creating.
Context (room : bool) (garbage : Object).

(** What is left once the arguments have been read. *)
Definition created F P d n p own d' : Prop :=
  objects d !! n = None /\ good (move_node (add_root n F) n p) (add_root n P) d' /\
  exists o, objects d' !! n = Some o /\ Db.owner o = own /\ Db.name o = [] /\ flags o = 0 /\
    location o = NOTHING /\ contents o = NOTHING.

Lemma create_rest_Ok F P d p own : good F P d -> p = NOTHING \/ is_Some (objects d !! p) ->
  let n := num_objects d in
  exists d1 d2 d3 d4, db_create_object garbage d = Ok (n, d1) /\ db_set_object_name d1 n [] = Ok d2 /\
    db_set_object_owner d2 n own = Ok d3 /\ db_change_parent n p d3 = Ok (true, d4) /\
    created F P d n p own d4.
Proof.
  intros Hg Hp n. destruct (good_create F P d garbage Hg) as (d1 & H1 & Hg1 & Hnew & o & Ho & Hb).
  fold n in H1, Hg1, Hnew, Ho, Hb. exists d1. set (F1 := add_root n F) in *. set (P1 := add_root n P) in *.
  destruct (good_set_name F1 P1 d1 n [] Hg1) as (d2 & H2 & Hg2 & E2); [by exists o|]. exists d2.
  destruct (good_set_owner F1 P1 d2 n own Hg2) as (d3 & H3 & Hg3 & E3).
  { rewrite E2, lookup_alter_eq, Ho. by eexists. }
  assert (Ho3 : objects d3 !! n = Some (set_owner own (set_name [] o)))
    by (by rewrite E3, lookup_alter_eq, E2, lookup_alter_eq, Ho).
  assert (Hb3 : blank n (set_owner own (set_name [] o))) by (destruct Hb; by split).
  exists d3. assert (Hpn : n <> NOTHING).
  { intros E. assert (objects d1 !! NOTHING = None) by (by apply (nothing_invalid F1 P1)). congruence. }
  assert (Hroot : par F1 !! n = Some NOTHING /\ kids F1 !! n = Some []) by (split; apply lookup_insert_eq).
  destruct Hroot as [Hpar Hkids].
  assert (Hl : legal_move F1 n p).
  { split; [by eexists|]. destruct Hp as [->|Hp]; [by left|right].
    pose proof (proj1 (valid_family F P d p Hg) Hp) as Hpf.
    destruct (wf_acyclic F (wp_forest _ _ (good_props _ _ _ Hg)) p Hpf) as [ls Hls].
    assert (Hni : n ∉ ls).
    { intros Hi. apply (lineage_valid F p ls n Hls), (valid_family F P d n Hg) in Hi as [? ?]. congruence. }
    exists ls. split; [|split; [|done]].
    - eapply lineage_ext; [|exact Hls]. intros y Hy. cbn. rewrite lookup_insert_ne; [done|]. by intros <-.
    - cbn. rewrite lookup_insert_ne; [done|]. intros <-. rewrite Hnew in Hp. by destruct Hp. }
  destruct (good_change_parent F1 P1 d3 n p Hg3 Hl) as (b & d4 & H4 & Hiff & Hd4).
  assert (b = true) as -> by (apply Hiff; by apply (blank_compatible F1 P1 d3 n (set_owner own (set_name [] o)))).
  exists d4. destruct Hd4 as [Hg4 Ht]. do 4 (split; [done|]). split; [done|]. split; [done|]. specialize (Ht n). rewrite Ho3 in Ht. cbn in Ht.
  destruct (objects d4 !! n) as [o4|] eqn:Ho4; [|done]. exists o4. injection Ht as E1 E4 E5 _ E6 E7 _.
  destruct (blank_place n o Hb) as (L1 & L2 & _). pose proof (blank_flags n o Hb). split_and!; cbn in *; congruence.
Qed.

(** The first test of [bf_create]. *)
Lemma create_refused_Ok F P d p who progr : good F P d ->
  exists b, (refused ← (if valid d p then a ← db_object_allows d p progr FLAG_FERTILE; Ok (negb a)
                        else Ok (negb (p =? NOTHING)));
             if (refused : bool) then Ok true
             else if negb (who =? progr) then w ← is_wizard d progr; Ok (negb w) else Ok false) = Ok b /\
    if (b : bool) then
      p <> NOTHING /\ objects d !! p = None \/
      valid d p = true /\ db_object_allows d p progr FLAG_FERTILE = Ok false \/
      who <> progr /\ is_wizard d progr = Ok false
    else p = NOTHING \/ is_Some (objects d !! p).
Proof.
  intros Hg. destruct (read_wizard F P d Hg progr) as [w Hw]. rewrite Hw. cbn [mbind res_bind].
  assert (Hlast : exists b, (if negb (who =? progr) then Ok (negb w) else Ok false) = Ok b /\
    (b = true -> who <> progr /\ w = false)).
  { destruct (Z.eqb_spec who progr); [by exists false|]. exists (negb w). by destruct w. }
  destruct Hlast as (b & -> & Hb). destruct (valid d p) eqn:Hv.
  - pose proof (proj1 (valid_iff F P d p Hg) Hv) as Hx.
    destruct (read_allows F P d Hg p progr FLAG_FERTILE Hx) as [a Ha]. rewrite Ha. cbn [mbind res_bind].
    destruct a; cbn [negb]; [|exists true; tauto]. exists b. split; [done|].
    destruct b; [|by right]. destruct (Hb eq_refl) as [? ->]. tauto.
  - apply (invalid_iff F P d Hg) in Hv. cbn [mbind res_bind]. destruct (Z.eqb_spec p NOTHING); cbn [negb].
    + exists b. split; [done|]. destruct b; [|by left]. destruct (Hb eq_refl) as [? ->]. tauto.
    + exists true. tauto.
Qed.

Lemma create_args_Ok F P d args p who progr : good F P d ->
  args = [Obj p] /\ who = progr \/ args = [Obj p; Obj who] ->
  let n := num_objects d in
  exists pk data d', bf_create room garbage args progr d = Ok (pk, data, d') /\
  (d' = d /\ data = None /\ (exists e, pk = make_error_pack e /\
     match e with
     | E_PERM => p <> NOTHING /\ objects d !! p = None \/
         valid d p = true /\ db_object_allows d p progr FLAG_FERTILE = Ok false \/
         who <> progr /\ is_wizard d progr = Ok false
     | E_QUOTA => valid d who = true
     | _ => False
     end) \/
   created F P d n p (if who =? NOTHING then n else who) d' /\
   (data = None /\ (pk = make_var_pack (Obj n) \/ pk = make_error_pack E_MAXREC) \/
    data = Some n /\ pk = make_call_pack 2)).
Proof.
  intros Hg Hargs n. unfold bf_create.
  assert (Ha : arg_obj args 1 = Ok p /\
    (if decide (length args = 2%nat) then arg_obj args 2 else Ok progr) = Ok who)
    by (destruct Hargs as [[-> ->]| ->]; done).
  destruct Ha as [-> ->]. cbn [mbind res_bind].
  destruct (create_refused_Ok F P d p who progr Hg) as (b & Hb & Hcase).
  apply res_bind_Ok in Hb as (r0 & -> & Hb). cbn [mbind res_bind] in Hb |- *. rewrite Hb.
  cbn [mbind res_bind]. clear Hb. destruct b.
  { do 3 eexists. split; [done|]. left. do 2 (split; [done|]). by exists E_PERM. }
  assert (exists g d0, (if valid d who then decr_quota who d else Ok (true, d)) = Ok (g, d0) /\ good F P d0 /\
    same_skeletons d d0 /\ (g = false -> d0 = d /\ valid d who = true)) as (g & d0 & -> & Hg0 & [En Es] & Hgf).
  { destruct (valid d who); [|by exists true, d].
    destruct (decr_quota_Ok F P d who Hg) as (g & d0 & ? & ? & ? & ?). exists g, d0. naive_solver. }
  cbn [mbind res_bind]. destruct g; cbn [negb].
  2: { destruct Hgf as [-> ?]; [done|]. do 3 eexists. split; [done|]. left. do 2 (split; [done|]). by exists E_QUOTA. }
  assert (Hdom : forall y, is_Some (objects d0 !! y) <-> is_Some (objects d !! y)).
  { intros y. by apply (fmap_dom skeleton). }
  destruct (create_rest_Ok F P d0 p (if who =? NOTHING then n else who) Hg0) as
    (d1 & d2 & d3 & d4 & -> & H2 & H3 & H4 & Hnew & Hg4 & Hobj).
  { destruct Hcase as [?|?]; [by left|right]. by apply Hdom. }
  rewrite En in H2, H3, H4, Hnew, Hg4, Hobj |- *. fold n in H2, H3, H4, Hnew, Hg4, Hobj |- *.
  cbn [mbind res_bind]. rewrite H2. cbn [mbind res_bind]. rewrite H3. cbn [mbind res_bind].
  rewrite H4. cbn [mbind res_bind].
  destruct (call_verb_Ok _ _ d4 room n (lit "initialize") Hg4) as (e & d5 & -> & Hg5 & Hs & He);
    [apply (bool_decide_unpack _); vm_compute; exact I|].
  destruct (same_but_cache_fields d4 d5 Hs) as (Eo & _).
  assert (Hc : created F P d n p (if who =? NOTHING then n else who) d5).
  { split; [|split; [done|by rewrite Eo]]. apply eq_None_not_Some. rewrite <- Hdom, Hnew. by intros [? ?]. }
  cbn [mbind res_bind]. destruct He as [->|[->|[->| ->]]]; do 3 eexists; (split; [done|]); right; (split; [done|]); auto.
Qed.


End creating.

(** ** [move] *)

Section moving.
Context (room : bool).

(** What a step of [bf_move] may have done to the database, and what it may answer. *)
Inductive moved F P d what where_ (may : Prop) : db -> Prop :=
  | moved_not d' : good F P d' -> objects d' = objects d -> moved F P d what where_ may d'
  | moved_to d' : may -> legal_move P what where_ -> good F (move_node P what where_) d' ->
      moved F P d what where_ may d'.

Definition move_error P d what where_ (accepts : bool) progr (e : error) : Prop :=
  match e with
  | E_INVARG => objects d !! what = None \/ where_ <> NOTHING /\ objects d !! where_ = None
  | E_PERM => controls d progr what = Ok false
  | E_NACC => is_wizard d progr = Ok false /\ accepts = false
  | E_RECMOVE => below P what where_
  | E_MAXREC => room = false
  | _ => False
  end.

(** The answer of step [next]: a value, an error, or a call that is a later step. *)
Definition move_answer (next : Z) (data : Z * Z) (bad : error -> Prop) (pk : package) (data' : option (Z * Z)) : Prop :=
  data' = None /\ (pk = no_var_pack \/ exists e, pk = make_error_pack e /\ bad e) \/
  data' = Some data /\ exists n, pk = make_call_pack n /\ next < n <= 4.

Definition literal_names : Prop := nul_free (lit "enterfunc") /\ nul_free (lit "exitfunc") /\ nul_free (lit "accept").
Lemma literal_names_Ok : literal_names.
Proof. repeat split; apply (bool_decide_unpack _); vm_compute; exact I. Qed.

(** [call_verb], with what its errors mean. *)
Lemma call_verb_cases F P d this vname : good F P d -> nul_free vname ->
  exists e d', call_verb room this vname d = Ok (e, d') /\ good F P d' /\ objects d' = objects d /\
    same_but_cache d d' /\ (e = E_INVIND /\ objects d !! this = None \/ e = E_VERBNF \/ e = E_NONE \/ e = E_MAXREC /\ room = false).
Proof.
  intros Hg Hv. destruct (call_verb_Ok F P d room this vname Hg Hv) as (e & d' & Hc & Hg' & Hs & He).
  exists e, d'. destruct (same_but_cache_fields d d' Hs) as (Eo & _). do 4 (split; [done|]).
  unfold call_verb in Hc. destruct (valid d this) eqn:E; cbn [negb] in Hc.
  - apply res_bind_Ok in Hc as ([vh d1] & _ & Hc). destruct vh, room; injection Hc as <- _; tauto.
  - injection Hc as <- _. left. split; [done|]. by apply (invalid_iff F P d Hg).
Qed.

Lemma same_reads d d' x y : same_but_cache d d' ->
  is_wizard d' x = is_wizard d x /\ controls d' x y = controls d x y.
Proof. destruct d, d'. unfold same_but_cache, with_cache. cbn. by intros [= <- <- <- <- <- <-]. Qed.

Lemma move_exited_Ok F P d what where_ bad : good F P d -> (room = false -> bad E_MAXREC) ->
  exists pk data' d', move_exited room (what, where_) d = Ok (pk, data', d') /\ good F P d' /\
    objects d' = objects d /\ move_answer 3 (what, where_) bad pk data'.
Proof.
  intros Hg Hbad. unfold move_exited.
  assert (exists b, (if valid d where_ && valid d what then loc ← db_object_location d what; Ok (loc =? where_)
                     else Ok false) = Ok b) as [b ->].
  { destruct (valid d where_), (valid d what) eqn:Hv; cbn [andb]; try by eexists.
    apply (valid_iff F P d what Hg), (valid_place F P d what Hg) in Hv as [p Hp].
    rewrite (read_location F P d Hg what p Hp). cbn. by eexists. }
  cbn [mbind res_bind]. destruct b.
  2: { do 3 eexists. split; [done|]. do 2 (split; [done|]). left. tauto. }
  destruct (call_verb_cases F P d where_ (lit "enterfunc") Hg (proj1 literal_names_Ok)) as
    (e & d' & -> & Hg' & Eo & _ & He). cbn [mbind res_bind].
  destruct He as [[-> _]|[->|[->|[-> Hr]]]]; do 3 eexists; (split; [done|]); do 2 (split; [done|]).
  - left. tauto.
  - left. tauto.
  - right. split; [done|]. exists 4. split; [done|lia].
  - left. split; [done|]. right. exists E_MAXREC. auto.
Qed.

Lemma move_decided_Ok F P d what where_ accepts progr next : good F P d -> next <= 2 ->
  exists pk data' d', move_decided room (what, where_) accepts progr d = Ok (pk, data', d') /\
    moved F P d what where_ (is_wizard d progr = Ok true \/ accepts = true) d' /\
    move_answer next (what, where_) (move_error P d what where_ accepts progr) pk data'.
Proof.
  intros Hg Hnext. unfold move_decided. destruct (read_wizard F P d Hg progr) as [w Hw]. rewrite Hw.
  assert (Hno : moved F P d what where_ (Ok w = Ok true \/ accepts = true) d) by (by apply moved_not).
  cbn [mbind res_bind]. destruct (negb w && negb accepts) eqn:Ew.
  { apply andb_true_iff in Ew as [Ew%negb_true_iff Ea%negb_true_iff]. do 3 eexists. split; [done|].
    split; [done|]. left. split; [done|]. right. exists E_NACC. split; [done|]. cbn. by rewrite Hw, Ew. }
  assert (Hmay : Ok w = Ok true \/ accepts = true) by (destruct w, accepts; auto).
  assert (exists b, (if negb (valid d what) || (negb (where_ =? NOTHING) && negb (valid d where_)) then Ok true
                     else loc ← db_object_location d what; Ok (loc =? where_)) = Ok b /\
    (b = false -> is_Some (objects d !! what) /\ (where_ = NOTHING \/ is_Some (objects d !! where_))))
    as (b & -> & Hb).
  { destruct (valid d what) eqn:Hv; cbn [negb orb]; [|by exists true].
    apply (valid_iff F P d what Hg) in Hv. destruct (negb (where_ =? NOTHING) && _) eqn:E; [by exists true|].
    destruct (proj1 (valid_place F P d what Hg) Hv) as [p Hp]. rewrite (read_location F P d Hg what p Hp).
    cbn [mbind res_bind]. eexists. split; [done|]. intros _. split; [done|].
    apply andb_false_iff in E as [H%negb_false_iff%Z.eqb_eq|H%negb_false_iff]; [by left|right].
    by apply (valid_iff F P d where_ Hg). }
  cbn [mbind res_bind]. destruct b.
  { do 3 eexists. split; [done|]. split; [done|]. left. auto. }
  destruct Hb as [Hx Hn]; [done|]. destruct (climb_locations F P d Hg what where_ Hx Hn) as (b & -> & Hb).
  cbn [mbind res_bind]. destruct b.
  { do 3 eexists. split; [done|]. split; [done|]. left. split; [done|]. right. by exists E_RECMOVE. }
  destruct (proj1 (valid_place F P d what Hg) Hx) as [p Hp]. rewrite (read_location F P d Hg what p Hp).
  cbn [mbind res_bind]. destruct (good_change_location F P d what where_ Hg Hb) as (d1 & -> & Hg1 & _).
  cbn [mbind res_bind]. destruct (call_verb_cases _ _ d1 p (lit "exitfunc") Hg1) as (e & d2 & -> & Hg2 & _ & _ & He);
    [apply literal_names_Ok|]. cbn [mbind res_bind].
  destruct (move_exited_Ok F _ d2 what where_ (move_error P d what where_ accepts progr) Hg2)
    as (pk & data' & d3 & Hm & Hg3 & _ & Ha); [done|].
  assert (Hend : exists pk data' d', move_exited room (what, where_) d2 = Ok (pk, data', d') /\
    moved F P d what where_ (Ok w = Ok true \/ accepts = true) d' /\
    move_answer next (what, where_) (move_error P d what where_ accepts progr) pk data').
  { exists pk, data', d3. split; [done|]. split; [by apply moved_to|].
    destruct Ha as [Ha|(? & n & ? & ?)]; [by left|right]. split; [done|]. exists n. split; [done|lia]. }
  destruct He as [[-> _]|[->|[->|[-> Hr]]]]; [done|done| |]; do 3 eexists; (split; [done|]);
    (split; [by apply moved_to|]).
  - right. split; [done|]. exists 3. split; [done|lia].
  - left. split; [done|]. right. exists E_MAXREC. auto.
Qed.

Lemma moved_imp F P d what where_ (may may' : Prop) d' : (may -> may') ->
  moved F P d what where_ may d' -> moved F P d what where_ may' d'.
Proof. intros Hm []; [by apply moved_not|by apply moved_to; auto]. Qed.

Lemma answer_imp next data (bad bad' : error -> Prop) pk data' : (forall e, bad e -> bad' e) ->
  move_answer next data bad pk data' -> move_answer next data bad' pk data'.
Proof. intros Hb [(? & [?|(e & ? & ?)])|?]; [by left; auto|left|by right]. split; [done|]. right. eauto. Qed.

(** The right to move [what]: at the first step its programmer controls it; the
    destination is nowhere or has a verb that accepts, unless the programmer is a wizard. *)
Definition may_move (d : db) (arglist : Var) (next : Z) (where_ progr what : Z) : Prop :=
  (next = 1 /\ controls d progr what = Ok true /\ (is_wizard d progr = Ok true \/ where_ = NOTHING)) \/
  (next = 2 /\ (is_wizard d progr = Ok true \/ is_true arglist = true)).

(** The answer of [accept]; at the first step nobody has been asked. *)
Definition accepted (arglist : Var) (next : Z) : bool := (next =? 2) && is_true arglist.

Lemma move_step_Ok F P d arglist next what where_ progr : good F P d -> 1 <= next <= 4 ->
  exists pk data' d', bf_move_again room arglist next (what, where_) progr d = Ok (pk, data', d') /\
    moved F P d what where_ (may_move d arglist next where_ progr what) d' /\
    move_answer next (what, where_) (move_error P d what where_ (accepted arglist next) progr) pk data'.
Proof.
  intros Hg Hnext. unfold bf_move_again, do_move.
  assert (Hno : forall may, moved F P d what where_ may d) by (intros may; by apply moved_not).
  assert (Hcases : next = 1 \/ next = 2 \/ next = 3 \/ next = 4) by lia.
  destruct Hcases as [->|[->|[->| ->]]]; cbn [Z.eqb Pos.eqb].
  - destruct (_ || _) eqn:E.
    { do 3 eexists. split; [done|]. split; [done|]. left. split; [done|]. right. exists E_INVARG.
      split; [done|]. cbn. apply orb_true_iff in E as [E%negb_true_iff|[E1%negb_true_iff E2%negb_true_iff]%andb_true_iff].
      - left. by apply (invalid_iff F P d Hg).
      - right. split; [by apply Z.eqb_neq|by apply (invalid_iff F P d Hg)]. }
    apply orb_false_iff in E as [Ex%negb_false_iff Ew]. apply (valid_iff F P d what Hg) in Ex.
    destruct (read_controls F P d Hg progr what Ex) as [c Hc]. rewrite Hc. cbn [mbind res_bind].
    destruct c; cbn [negb].
    2: { do 3 eexists. split; [done|]. split; [done|]. left. split; [done|]. right. by exists E_PERM. }
    destruct (Z.eqb_spec where_ NOTHING) as [->|Hne].
    { destruct (move_decided_Ok F P d what NOTHING true progr 1 Hg) as (pk & data' & d' & -> & Hm & Ha); [lia|].
      do 3 eexists. split; [done|]. split; [|revert Ha; apply answer_imp; intros [] He; try done; by destruct He].
      revert Hm. apply moved_imp. intros _. left. auto. }
    assert (Hv : is_Some (objects d !! where_)).
    { apply (valid_iff F P d where_ Hg). rewrite andb_true_r in Ew. by apply negb_false_iff. }
    destruct (call_verb_cases F P d where_ (lit "accept") Hg (proj2 (proj2 literal_names_Ok))) as
      (e & d1 & -> & Hg1 & Eo & Hs & He). cbn [mbind res_bind].
    destruct He as [[-> He]|[->|[->|[-> Hr]]]]; [rewrite He in Hv; by destruct Hv| | |].
    + destruct (move_decided_Ok F P d1 what where_ false progr 1 Hg1) as (pk & data' & d' & -> & Hm & Ha); [lia|].
      destruct (same_reads d d1 progr what Hs) as [Rw Rc].
      do 3 eexists. split; [done|]. split.
      * destruct Hm as [d' Hg' Ed|d' Hmay Hl Hg']; [apply moved_not; [done|congruence]|apply moved_to; [|done..]].
        left. rewrite Rw in Hmay. destruct Hmay as [?|?]; [by auto|done].
      * revert Ha. apply answer_imp. intros e. unfold move_error. rewrite Rw, Rc, Eo. done.
    + do 3 eexists. split; [done|]. split; [by apply moved_not|]. right. split; [done|]. exists 2. split; [done|lia].
    + do 3 eexists. split; [done|]. split; [by apply moved_not|]. left. split; [done|]. right. by exists E_MAXREC.
  - destruct (move_decided_Ok F P d what where_ (is_true arglist) progr 2 Hg) as (pk & data' & d' & -> & Hm & Ha); [lia|].
    do 3 eexists. split; [done|]. split; [|done]. revert Hm. apply moved_imp. intros H. by right.
  - destruct (move_exited_Ok F P d what where_ (move_error P d what where_ false progr) Hg)
      as (pk & data' & d' & -> & Hg' & Eo & Ha); [done|].
    do 3 eexists. split; [done|]. split; [by apply moved_not|done].
  - do 3 eexists. split; [done|]. split; [done|]. left. auto.
Qed.

(** C22: Every step of [bf_move], whatever the database has become since the step before: it
    never faults, and keeps the database well-formed.  Only the first two steps move the
    object, only with the right to do so, and never into itself or its contents.  The answer
    is a value, the error of the check that failed, or a call to be continued at a later
    step, of which there are four. *)
Theorem bf_move_correct F P d arglist next what where_ progr : good F P d -> 1 <= next <= 4 ->
  exists pk data' d', bf_move_again room arglist next (what, where_) progr d = Ok (pk, data', d') /\
    moved F P d what where_ (may_move d arglist next where_ progr what) d' /\
    move_answer next (what, where_) (move_error P d what where_ (accepted arglist next) progr) pk data'.
Proof. apply move_step_Ok. Qed.

End moving.

(** The package and the data of an answer. *)
Definition answer_of {A} (r : res (outcome A)) : option (package * option A) :=
  match r with Ok (p, _) => Some p | Fail _ => None end.

Definition junk : Object := mkObject 9 9 9 9 9 9 9 9 (lit "junk") 9 [] (mkProplist 0 []) [] None.


Lemma bf_move_correct_witness : exists d', bf_move_again true None_ 1 (1, 3) 1 sample = Ok (no_var_pack, None, d') /\
  moved sample_family sample_place sample 1 3 (may_move sample None_ 1 3 1 1) d'.
Proof.
  destruct (bf_move_correct true sample_family sample_place sample None_ 1 1 3 1 sample_good)
    as (pk & data & d' & H & Hm & _); [lia|].
  pose proof (f_equal answer_of H) as Hp. vm_compute in Hp. injection Hp as <- <-. exists d'.
  split; [exact H|exact Hm].
Defined.
