(* ===== verification/Recycle.v ===== *)
(** * Recycling: the loops of [bf_recycle] end (src/objects.c)

    Each round of the first loop moves one thing out of the object, each round of the second
    gives one child to the grandparent, which can never be refused. *)

From S2P Require Import Prelude CStrings Values Lists Libc Links Db Properties Layout Tables Objects.
From S2P Require Import Sample PropertyOps Reparent ObjectOps Renumber Preps Verbs VerbCache VerbOps.
From S2P Require Import Numbers ObjectBuiltins Invariant Handlers.

Open Scope Z_scope.

(** ** Forests *)

(** All of [cs] in turn below [new]. *)
Definition move_all (Q : forest) (cs : list Z) (new : Z) : forest :=
  foldl (fun Q c => move_node Q c new) Q cs.

Lemma par_move_all Q cs new y : par (move_all Q cs new) !! y =
  if decide (y ∈ cs) then Some new else par Q !! y.
Proof.
  unfold move_all. revert Q. induction cs as [|c cs IH]; intros Q; cbn.
  - by rewrite decide_False by apply not_elem_of_nil.
  - rewrite IH. cbn. destruct (decide (y ∈ cs)) as [Hy|Hy].
    + rewrite decide_True; [done|]. apply elem_of_cons. by right.
    + destruct (decide (y = c)) as [->|Hne].
      * rewrite lookup_insert_eq, decide_True; [done|]. apply elem_of_cons. by left.
      * rewrite lookup_insert_ne, decide_False; [done| |done]. rewrite elem_of_cons. by intros [?|?].
Qed.

Section forests.
Context (Q : forest) (HQ : wf_forest Q).

Lemma not_own_parent x : par Q !! x <> Some x.
Proof.
  intros Hx. destruct (lineage_cons Q HQ x x Hx) as (ls & Hl & Hl').
  pose proof (path_functional _ _ _ _ Hl Hl') as E. apply (f_equal length) in E. cbn in E. lia.
Qed.

Lemma node_not_nothing x : is_Some (par Q !! x) -> x <> NOTHING.
Proof. intros Hx ->. rewrite (wf_nothing Q HQ) in Hx. by destruct Hx. Qed.

Lemma kid_par x ks c : kids Q !! x = Some ks -> c ∈ ks -> par Q !! c = Some x.
Proof. intros Hk. apply (wf_kids Q HQ x ks Hk). Qed.

(** The first child moves to another place. *)
Lemma kids_left x c ks new : kids Q !! x = Some (c :: ks) -> new <> x ->
  kids (move_node Q c new) !! x = Some ks /\ par (move_node Q c new) !! x = par Q !! x.
Proof.
  intros Hk Hne. pose proof (kid_par x _ c Hk (list_elem_of_here _ _)) as Hc. split.
  - rewrite move_kids, decide_False by done. rewrite Hk. cbn [fmap option_fmap option_map].
    destruct (wf_kids Q HQ x _ Hk) as [Hnd _]. f_equal. exact (without_app c [] ks Hnd).
  - cbn. rewrite lookup_insert_ne; [done|]. intros ->. by apply (not_own_parent x).
Qed.

(** All the children have moved. *)
Lemma par_emptied x ks new y q : kids Q !! x = Some ks -> par Q !! y = Some q ->
  par (move_all Q ks new) !! y = Some (if decide (q = x) then new else q).
Proof.
  intros Hk Hq. rewrite par_move_all. pose proof (proj2 (wf_kids Q HQ x ks Hk) y) as Hin.
  rewrite Hq in Hin |- *. destruct (decide (y ∈ ks)) as [Hy|Hy].
  - apply Hin in Hy as [= ->]. by rewrite decide_True.
  - rewrite decide_False; [done|]. intros ->. by apply Hy, Hin.
Qed.

Lemma kids_fit d x ks : (forall y, is_Some (par Q !! y) -> is_Some (objects d !! y)) -> kids Q !! x = Some ks ->
  (length ks < S (size (objects d)))%nat.
Proof.
  intros Hdom Hk. destruct (wf_kids Q HQ x ks Hk) as [Hnd Hin]. apply Nat.lt_succ_r. rewrite <- size_dom.
  rewrite <- (size_list_to_set (C := gset Z) ks Hnd). apply subseteq_size. intros y Hy%elem_of_list_to_set%Hin.
  apply elem_of_dom, Hdom. by eexists.
Qed.

(** A child may move to the grandparent. *)
Lemma grandparent_legal x p c : par Q !! x = Some p -> par Q !! c = Some x -> legal_move Q c p.
Proof.
  intros Hx Hc. destruct (lineage_cons Q HQ c x Hc) as (lx & Hlx & Hlc).
  destruct (lineage_cons Q HQ x p Hx) as (lp & Hlp & Hlx').
  rewrite (path_functional _ _ _ _ Hlx Hlx') in Hlc.
  pose proof (path_NoDup _ _ _ Hlc) as [Hni _]%NoDup_cons.
  split; [by eexists|]. destruct (line_valid Q p lp Hlp) as [->|Hp]; [by left|right].
  exists lp. split_and!; [done|done|]. intros Hi. apply Hni, elem_of_cons. by right.
Qed.
End forests.

(** What is defined at or below a child does not clash with the grandparent. *)
Lemma grandparent_compatible F d x p c : wf_props F d -> par F !! x = Some p -> par F !! c = Some x ->
  compatible F d c p.
Proof.
  intros Hp Hx Hc k y Hk Hy (oy & q & Hoy & Hq & Hci). pose proof (wp_forest _ _ Hp) as HF.
  destruct (lineage_cons F HF c x Hc) as (lx & Hlx & Hlc).
  destruct (lineage_cons F HF x p Hx) as (lp & Hlp & Hlx').
  destruct (below_split F c y Hy) as (l1 & l2 & Hly).
  pose proof (path_functional _ _ _ _ (path_app _ _ _ _ _ Hly) Hlc) as E. injection E as ->.
  rewrite (path_functional _ _ _ _ Hlx Hlx') in Hly.
  rewrite (schema_along F d p lp (wp_family _ _ Hp) (wp_table _ _ Hp) Hlp) in Hk.
  pose proof (wp_unique _ _ Hp y) as Hnd. rewrite (schema_along F d y _ (wp_family _ _ Hp) (wp_table _ _ Hp) Hly) in Hnd.
  assert (exists l3, l1 ++ c :: x :: lp = y :: l3 ++ lp) as [l3 E].
  { destruct l1 as [|z l1]; cbn in Hly |- *.
    - destruct Hly as (-> & _). by exists [x].
    - destruct Hly as (-> & _). exists (l1 ++ [c; x]). by rewrite <- app_assoc. }
  rewrite E, along_cons, Hoy, along_app in Hnd. cbn [from_option] in Hnd. rewrite !fmap_app in Hnd.
  apply NoDup_app in Hnd as (_ & Hd & _). apply (Hd (folded (id oy, q))).
  - apply (list_elem_of_fmap_2 folded). unfold defs_of. by apply list_elem_of_fmap_2.
  - apply elem_of_app. right. replace (folded (id oy, q)) with (folded k) by (unfold folded; cbn; by symmetry).
    by apply list_elem_of_fmap_2.
Qed.

(** ** The loops *)

Section recycling.
Context (room : bool).

Lemma get_first_Ok ks : get_first (Ok ks) = Ok (hd NOTHING ks).
Proof. by destruct ks. Qed.

Lemma good_contents F P d x ks : good F P d -> kids P !! x = Some ks -> contents_of d x = Ok ks.
Proof. intros Hg. apply (ll_below_Ok place), Hg. Qed.

Lemma good_children F P d x ks : good F P d -> kids F !! x = Some ks -> children d x = Ok ks.
Proof. intros Hg. apply (ll_below_Ok family), (good_props _ _ _ Hg). Qed.

Lemma move_to_nothing_Ok F P d x : good F P d -> is_Some (par P !! x) ->
  exists b d', move_to_nothing room x d = Ok (b, d') /\ good F (move_node P x NOTHING) d'.
Proof.
  intros Hg Hx. unfold move_to_nothing. pose proof Hx as [p Hp].
  rewrite (read_location F P d Hg x p Hp). cbn [mbind res_bind].
  destruct (good_change_location F P d x NOTHING Hg) as (d1 & -> & Hg1 & _); [split; [done|by left]|].
  cbn [mbind res_bind]. destruct (call_verb_Ok _ _ d1 room p (lit "exitfunc") Hg1) as (e & d2 & -> & Hg2 & _);
    [apply literal_names_Ok|]. cbn [mbind res_bind]. by do 2 eexists.
Qed.

(** The contents leave one by one, until a verb must be waited for or none is left. *)
Lemma recycle_contents_Ok F x : forall fuel ks P d, good F P d -> kids P !! x = Some ks ->
  (length ks < fuel)%nat ->
  exists b n d', recycle_contents room fuel x d = Ok (b, d') /\
    let P' := move_all P (take n ks) NOTHING in
    good F P' d' /\ kids P' !! x = Some (drop n ks) /\ par P' !! x = par P !! x /\
    if (b : bool) then (0 < n)%nat /\ ks <> [] else drop n ks = [].
Proof.
  induction fuel as [|fuel IH]; intros ks P d Hg Hk Hf; [lia|]. cbn [recycle_contents].
  rewrite (good_contents F P d x ks Hg Hk), get_first_Ok. cbn [mbind res_bind].
  pose proof (wdb_place_forest _ _ _ (good_wf _ _ _ Hg)) as HP.
  destruct ks as [|c ks]; cbn [hd]; [by exists false, 0%nat, d|].
  pose proof (kid_par P HP x _ c Hk (list_elem_of_here _ _)) as Hc.
  rewrite (proj2 (Z.eqb_neq _ _)) by (apply (node_not_nothing P HP); by eexists).
  destruct (move_to_nothing_Ok F P d c Hg) as (b & d1 & -> & Hg1); [by eexists|]. cbn [mbind res_bind].
  assert (Hne : NOTHING <> x).
  { apply not_eq_sym, (node_not_nothing P HP), (wf_dom P HP). by eexists. }
  destruct (kids_left P HP x c ks NOTHING Hk Hne) as [Hk1 Hp1]. destruct b.
  - exists true, 1%nat, d1. split; [done|]. cbn. rewrite take_0, drop_0. split_and!; [done..|lia|done].
  - destruct (IH ks _ d1 Hg1 Hk1) as (b & n & d2 & -> & Hg2 & Hk2 & Hp2 & Hb); [cbn in Hf; lia|].
    exists b, (S n), d2. split; [done|]. cbn zeta in *. cbn [take drop move_all foldl].
    split; [done|]. split; [done|]. split; [etrans; [exact Hp2|exact Hp1]|].
    destruct b; [split; [lia|done]|done].
Qed.

(** Each child goes to the grandparent, which is never refused. *)
Lemma recycle_children_Ok P x p : forall fuel ks F d, good F P d -> kids F !! x = Some ks ->
  par F !! x = Some p -> (length ks < fuel)%nat ->
  exists d', recycle_children fuel x d = Ok d' /\ let F' := move_all F ks p in
    good F' P d' /\ kids F' !! x = Some [] /\ par F' !! x = Some p /\
    forall y, traits <$> objects d' !! y = traits <$> objects d !! y.
Proof.
  induction fuel as [|fuel IH]; intros ks F d Hg Hk Hp Hf; [lia|]. cbn [recycle_children].
  rewrite (good_children F P d x ks Hg Hk), get_first_Ok. cbn [mbind res_bind].
  pose proof (wp_forest _ _ (good_props _ _ _ Hg)) as HF.
  destruct ks as [|c ks]; cbn [hd]; [by exists d|].
  pose proof (kid_par F HF x _ c Hk (list_elem_of_here _ _)) as Hc.
  rewrite (proj2 (Z.eqb_neq _ _)) by (apply (node_not_nothing F HF); by eexists).
  rewrite (read_parent F P d Hg x p Hp). cbn [mbind res_bind].
  destruct (good_change_parent F P d c p Hg (grandparent_legal F HF x p c Hp Hc)) as (b & d1 & -> & Hiff & Hd1).
  assert (b = true) as -> by (apply Hiff, (grandparent_compatible F d x); [apply Hg|done..]).
  destruct Hd1 as [Hg1 Ht1]. cbn [mbind res_bind].
  assert (Hne : p <> x) by (intros ->; by apply (not_own_parent F HF x)).
  destruct (kids_left F HF x c ks p Hk Hne) as [Hk1 Hp1]. rewrite Hp in Hp1.
  destruct (IH ks _ d1 Hg1 Hk1 Hp1) as (d2 & -> & Hg2 & Hk2 & Hp2 & Ht2); [cbn in Hf; lia|].
  exists d2. split; [done|]. cbn zeta in *. cbn [move_all foldl]. do 3 (split; [done|]). intros y. by rewrite Ht2.
Qed.

(** How much there is to wait for: the contents, and leaving the place. *)
Definition load (P : forest) (x : Z) : nat :=
  match par P !! x with
  | None => 0
  | Some q => length (default [] (kids P !! x)) + (if decide (q = NOTHING) then 0 else 1)
  end.

(** What recycling comes to: nothing to do, one more verb to wait for, with less to do when
    it returns, or the end. *)
Inductive recycled F P d x : package -> option Z -> db -> Prop :=
  | recycled_gone : objects d !! x = None -> recycled F P d x no_var_pack None d
  | recycled_waits P' d' : good F P' d' -> (load P' x < load P x)%nat ->
      recycled F P d x (make_call_pack 2) (Some x) d'
  | recycled_done F' P' p d' : good F' P' d' -> objects d' !! x = None -> par F !! x = Some p ->
      (forall y q, y <> x -> par F !! y = Some q ->
         db_object_parent d' y = Ok (if decide (q = x) then p else q)) ->
      (forall y q, y <> x -> par P !! y = Some q ->
         db_object_location d' y = Ok (if decide (q = x) then NOTHING else q)) ->
      recycled F P d x no_var_pack None d'.

(** The last part, once the object holds nothing and is nowhere. *)
Lemma recycle_last_Ok F P d x p ks : good F P d -> barren P x -> par F !! x = Some p -> kids F !! x = Some ks ->
  exists d', recycle_last x d = Ok (no_var_pack, None, d') /\
    good (remove_root x (move_node (move_all F ks p) x NOTHING)) (remove_root x P) d' /\
    objects d' !! x = None.
Proof.
  intros Hg HbP Hp Hk. pose proof (wp_forest _ _ (good_props _ _ _ Hg)) as HF. unfold recycle_last.
  pose proof (kids_fit F HF d x ks (fun y => proj2 (valid_family F P d y Hg)) Hk) as Hlen.
  destruct (recycle_children_Ok P x p _ ks F d Hg Hk Hp Hlen) as (d1 & -> & Hg1 & Hk1 & Hp1 & _).
  set (F1 := move_all F ks p) in *. cbn [mbind res_bind].
  destruct (good_change_parent F1 P d1 x NOTHING Hg1) as (b & d2 & -> & Hiff & Hd2);
    [split; [by eexists|by left]|].
  assert (b = true) as ->.
  { apply Hiff. intros k y Hsch. pose proof (good_props _ _ _ Hg1) as Hp'.
    rewrite (schema_invalid F1 d1 NOTHING (wp_family _ _ Hp') (wp_table _ _ Hp') (wf_nothing F1 (wp_forest _ _ Hp'))) in Hsch.
    by apply not_elem_of_nil in Hsch. }
  destruct Hd2 as [Hg2 _]. cbn [mbind res_bind]. set (F2 := move_node F1 x NOTHING) in *.
  assert (HbF : barren F2 x).
  { split; [by cbn; rewrite lookup_insert_eq|]. unfold F2. rewrite move_kids, decide_False, Hk1; [done|].
    apply (node_not_nothing F HF). by eexists. }
  destruct (read_owner d2 x) as [own ->].
  { apply (valid_family F2 P d2 x Hg2). destruct HbF. by eexists. }
  cbn [mbind res_bind]. destruct (incr_quota_Ok F2 P d2 own Hg2) as (d3 & -> & Hg3 & _). cbn [mbind res_bind].
  destruct (good_destroy F2 P d3 x Hg3 HbF HbP) as (d4 & -> & Hg4 & Eo). cbn [mbind res_bind].
  exists d4. split; [done|]. split; [done|]. rewrite Eo. apply lookup_delete_eq.
Qed.

Lemma recycle_moving_Ok F P d x : good F P d ->
  exists pk data d', recycle_moving room x d = Ok (pk, data, d') /\ recycled F P d x pk data d'.
Proof.
  intros Hg. unfold recycle_moving. destruct (valid d x) eqn:Hv; cbn [negb].
  2: { do 3 eexists. split; [done|]. apply recycled_gone. by apply (invalid_iff F P d Hg). }
  apply (valid_iff F P d x Hg) in Hv. pose proof (wdb_place_forest _ _ _ (good_wf _ _ _ Hg)) as HP.
  pose proof (wp_forest _ _ (good_props _ _ _ Hg)) as HF.
  destruct (proj1 (valid_place F P d x Hg) Hv) as [loc Hloc], (proj1 (valid_family F P d x Hg) Hv) as [p Hp].
  destruct (proj1 (wf_dom P HP x)) as [cs Hcs]; [by eexists|].
  destruct (proj1 (wf_dom F HF x)) as [ks Hks]; [by eexists|].
  assert (Hx : x <> NOTHING) by (apply (node_not_nothing F HF); by eexists).
  pose proof (kids_fit P HP d x cs (fun y => proj2 (valid_place F P d y Hg)) Hcs) as Hlen.
  destruct (recycle_contents_Ok F x _ cs P d Hg Hcs Hlen) as (b & n & d1 & -> & Hg1 & Hk1 & Hp1 & Hb).
  set (P1 := move_all P (take n cs) NOTHING) in *. cbn [mbind res_bind]. rewrite Hloc in Hp1.
  assert (Hload : load P x = (length cs + if decide (loc = NOTHING) then 0 else 1)%nat).
  { unfold load. by rewrite Hcs, Hloc. }
  destruct b.
  { do 3 eexists. split; [done|]. apply recycled_waits with P1; [done|]. rewrite Hload. unfold load.
    rewrite Hk1, Hp1. simpl. rewrite length_drop.
    destruct Hb as [? ?]. assert (length cs <> 0%nat) by (by destruct cs). lia. }
  rewrite (read_location F P1 d1 Hg1 x loc Hp1). cbn [mbind res_bind].
  assert (Hparts : forall P2 d2, good F P2 d2 -> barren P2 x ->
    (forall y q, y <> x -> par P !! y = Some q -> par P2 !! y = Some (if decide (q = x) then NOTHING else q)) ->
    exists pk data d', recycle_last x d2 = Ok (pk, data, d') /\ recycled F P d x pk data d').
  { intros P2 d2 Hg2 HbP Hpl. destruct (recycle_last_Ok F P2 d2 x p ks Hg2 HbP Hp Hks) as (d' & -> & Hg' & Hno).
    do 3 eexists. split; [done|]. eapply recycled_done; [exact Hg'|done|done| |].
    - intros y q Hy Hq. apply (read_parent _ _ d' Hg'). cbn. rewrite lookup_delete_ne, lookup_insert_ne by done.
      by apply (par_emptied F HF).
    - intros y q Hy Hq. apply (read_location _ _ d' Hg'). cbn. rewrite lookup_delete_ne by done. by apply Hpl. }
  assert (HP1 : forall y q, y <> x -> par P !! y = Some q -> par P1 !! y = Some (if decide (q = x) then NOTHING else q)).
  { intros y q Hy Hq. assert (Ht : take n cs = cs) by (rewrite <- (take_drop n cs) at 2; by rewrite Hb, app_nil_r).
    unfold P1. rewrite Ht. by apply (par_emptied P HP). }
  rewrite Hb in Hk1. destruct (Z.eqb_spec loc NOTHING) as [->|Hne]; cbn [negb].
  { cbn [mbind res_bind]. by apply (Hparts P1). }
  destruct (move_to_nothing_Ok F P1 d1 x Hg1) as (b & d2 & -> & Hg2); [by eexists|]. cbn [mbind res_bind].
  assert (Hbar : barren (move_node P1 x NOTHING) x).
  { split; [by cbn; rewrite lookup_insert_eq|]. by rewrite move_kids, decide_False, Hk1. }
  destruct b; [|apply (Hparts _ _ Hg2 Hbar); intros y q Hy Hq; cbn; rewrite lookup_insert_ne by done; by apply HP1].
  do 3 eexists. split; [done|]. apply recycled_waits with (move_node P1 x NOTHING); [done|].
  rewrite Hload. unfold load. destruct Hbar as [-> ->]. cbn [default]. rewrite decide_True, decide_False by done. cbn. lia.
Qed.

(** C16: [bf_recycle_again], entered when a verb has returned, comes to an end on every
    database, although its loops are driven by the lists that they shorten: either the object
    is gone, or it waits for one more verb with strictly less left to do, or the object is
    destroyed, its children belong to its parent, its contents are nowhere, and all other
    objects are where they were. *)
Theorem recycle_terminates F P d x : good F P d ->
  exists pk data d', bf_recycle_again room x d = Ok (pk, data, d') /\ recycled F P d x pk data d'.
Proof. apply recycle_moving_Ok. Qed.

Lemma recycle_first_Ok F P d x progr : good F P d ->
  exists pk data d', bf_recycle room [Obj x] progr d = Ok (pk, data, d') /\
  (d' = d /\ data = None /\
     (pk = make_error_pack E_INVARG /\ objects d !! x = None \/
      pk = make_error_pack E_PERM /\ controls d progr x = Ok false) \/
   controls d progr x = Ok true /\ exists d1, objects d1 = objects d /\ good F P d1 /\
     (pk = make_call_pack 2 /\ data = Some x /\ d' = d1 \/ recycled F P d1 x pk data d')).
Proof.
  intros Hg. unfold bf_recycle. change (arg_obj [Obj x] 1) with (Ok x). cbn [mbind res_bind].
  destruct (valid d x) eqn:Hv; cbn [negb].
  2: { apply (invalid_iff F P d Hg) in Hv. do 3 eexists. split; [done|]. left. auto. }
  apply (valid_iff F P d x Hg) in Hv. destruct (read_controls F P d Hg progr x Hv) as [c Hc].
  rewrite Hc. cbn [mbind res_bind]. destruct c; cbn [negb].
  2: { do 3 eexists. split; [done|]. left. auto. }
  destruct (call_verb_cases room F P d x (lit "recycle") Hg) as (e & d1 & -> & Hg1 & Eo & _);
    [apply (bool_decide_unpack _); vm_compute; exact I|]. cbn [mbind res_bind].
  destruct (recycle_moving_Ok F P d1 x Hg1) as (pk & data & d2 & Hm & Hr).
  destruct e; try (do 3 eexists; split; [exact Hm|]; right; split; [done|]; exists d1; auto; fail).
  do 3 eexists. split; [done|]. right. split; [done|]. exists d1. do 2 (split; [done|]). by left.
Qed.

(** [bf_recycle] checks the object and the programmer, calls [recycle] on the object, and
    goes on at once when there is no such verb; it never faults. *)
Theorem bf_recycle_correct F P d x progr : good F P d ->
  exists pk data d', bf_recycle room [Obj x] progr d = Ok (pk, data, d') /\
  (d' = d /\ data = None /\
     (pk = make_error_pack E_INVARG /\ objects d !! x = None \/
      pk = make_error_pack E_PERM /\ controls d progr x = Ok false) \/
   controls d progr x = Ok true /\ exists d1, objects d1 = objects d /\ good F P d1 /\
     (pk = make_call_pack 2 /\ data = Some x /\ d' = d1 \/ recycled F P d1 x pk data d')).
Proof. apply recycle_first_Ok. Qed.

(** *** From the first verb to the last *)

(** The server goes on when the verb returns; [verbs n] is what the verbs do meanwhile. *)
Fixpoint recycle_on (verbs : nat -> db -> db) (fuel : nat) (x : Z) (d : db) : res (package * db) :=
  match fuel with
  | O => Fail OutOfFuel
  | S fuel =>
      '(pk, data, d) ← bf_recycle_again room x d;
      match data with
      | Some x => recycle_on verbs fuel x (verbs fuel d)
      | None => Ok (pk, d)
      end
  end.

(** C25: However the verbs that are called meanwhile change the database, as long as they
    leave it well-formed and put nothing more into the object, an object that is being
    recycled is gone after finitely many steps: one more than its contents and its place. *)
Theorem recycle_completes F P d x verbs : good F P d ->
  (forall n F P d, good F P d ->
     exists F' P', good F' P' (verbs n d) /\ (load P' x <= load P x)%nat) ->
  exists d', recycle_on verbs (S (load P x)) x d = Ok (no_var_pack, d') /\ objects d' !! x = None /\
    exists F' P', good F' P' d'.
Proof.
  intros Hg Hverbs. assert (Hrun : forall fuel F P d, good F P d -> (load P x < fuel)%nat ->
    exists d', recycle_on verbs fuel x d = Ok (no_var_pack, d') /\ objects d' !! x = None /\
      exists F' P', good F' P' d').
  { clear F P d Hg. induction fuel as [|fuel IH]; intros F P d Hg Hf; [lia|]. cbn [recycle_on].
    unfold bf_recycle_again.
    destruct (recycle_moving_Ok F P d x Hg) as (pk & data & d1 & -> & Hr). cbn [mbind res_bind].
    destruct Hr as [Hno|P' d1 Hg1 Hlt|F' P' p d1 Hg1 Hno _ _ _].
    - exists d. split_and!; [done|done|]. by exists F, P.
    - destruct (Hverbs fuel F P' d1 Hg1) as (F2 & P2 & Hg2 & Hle). apply (IH F2 P2); [done|lia].
    - exists d1. split_and!; [done|done|]. by exists F', P'. }
  apply (Hrun _ F P); [done|lia].
Qed.

End recycling.

Lemma recycle_terminates_witness : exists d', bf_recycle_again true 2 sample = Ok (no_var_pack, None, d') /\
  recycled sample_family sample_place sample 2 no_var_pack None d'.
Proof.
  destruct (recycle_terminates true sample_family sample_place sample 2 sample_good) as (pk & data & d' & H & Hr).
  pose proof (f_equal answer_of H) as Hp. vm_compute in Hp. injection Hp as <- <-. exists d'.
  split; [exact H|exact Hr].
Defined.

Lemma bf_recycle_correct_witness : exists d1 d', bf_recycle true [Obj 2] 1 sample = Ok (no_var_pack, None, d') /\
  recycled sample_family sample_place d1 2 no_var_pack None d'.
Proof.
  destruct (bf_recycle_correct true sample_family sample_place sample 2 1 sample_good) as (pk & data & d' & H & Hr).
  pose proof (f_equal answer_of H) as Hp. vm_compute in Hp. injection Hp as <- <-.
  destruct Hr as [(_ & _ & [[He _]|[He _]])|(_ & d1 & _ & _ & [(He & _)|Hr])]; [discriminate He..|].
  exists d1, d'. split; [exact H|exact Hr].
Defined.

Lemma recycle_completes_witness : load sample_place 2 = 1%nat /\
  exists d', recycle_on true (fun _ d => d) 2 2 sample = Ok (no_var_pack, d') /\ objects d' !! 2 = None.
Proof.
  split; [vm_compute; reflexivity|].
  destruct (recycle_completes true sample_family sample_place sample 2 (fun _ d => d) sample_good)
    as (d' & H & Hno & _).
  - intros n F P d Hg. exists F, P. split; [exact Hg|apply Nat.le_refl].
  - exists d'. split; [exact H|exact Hno].
Defined.
