(* ===== verification/PropBuiltins.v ===== *)
(** * Built-in functions on properties (src/property.c)

    The checks around db_properties.c.  Arguments have the types that the registry has
    checked; what a property holds is described by an owner, the letters of its permissions,
    and for a change perhaps a new name. *)

From S2P Require Import Prelude CStrings Values Lists Libc Links Db Properties Layout Tables Objects.
From S2P Require Import Preps Verbs Numbers ObjectBuiltins.

Open Scope Z_scope.

Definition arg_str (args : list Var) (i : nat) : res cstr :=
  v ← deref (args !! (i - 1)%nat);
  match v with Str s => Ok s | _ => Fail Undefined end.

(** ** Permissions as letters *)

(** The loop over the letters; each is a flag in either case. *)
Fixpoint parse_flags (letter : ascii -> option Z) (s : cstr) (flags : Z) : option Z :=
  match s with
  | [] => Some flags
  | c :: s =>
      match letter c with
      | Some f => parse_flags letter s (Z.lor flags f)
      | None => None
      end
  end.

(** [if (flags & FLAG) *s++ = letter;] for each flag in turn. *)
Definition unparse_flags (letters : list (Z * ascii)) (flags : Z) : cstr :=
  snd <$> List.filter (fun fl => negb (Z.land flags (fst fl) =? 0)) letters.

Definition pf_letter (c : ascii) : option Z :=
  if decide (c = "r" \/ c = "R")%char then Some PF_READ
  else if decide (c = "w" \/ c = "W")%char then Some PF_WRITE
  else if decide (c = "c" \/ c = "C")%char then Some PF_CHOWN
  else None.
Definition pf_letters : list (Z * ascii) := [(PF_READ, "r"); (PF_WRITE, "w"); (PF_CHOWN, "c")]%char.

(** [E_NONE] with the owner, the flags and the new name, or another error. *)
Definition validate_prop_info (d : db) (v : Var) : error + (Z * Z * option cstr) :=
  let check own perms nm :=
    if negb (valid d own) then inl E_INVARG
    else match parse_flags pf_letter perms 0 with
         | Some flags => inr (own, flags, nm)
         | None => inl E_INVARG
         end in
  match v with
  | List [Obj own; Str perms] => check own perms None
  | List [Obj own; Str perms; Str nm] => check own perms (Some nm)
  | _ => inl E_TYPE
  end.

(** ** The functions *)

Definition answer_pack (e : error) : package :=
  match e with E_NONE => no_var_pack | e => make_error_pack e end.

Definition bf_properties (args : list Var) (progr : Z) (d : db) : res (package * db) :=
  oid ← arg_obj args 1;
  if negb (valid d oid) then Ok (make_error_pack E_INVARG, d)
  else
    a ← db_object_allows d oid progr FLAG_READ;
    if negb a then Ok (make_error_pack E_PERM, d)
    else
      n ← db_count_propdefs d oid;
      '(_, names) ← db_for_all_propdefs d oid (fun r nm => (false, r ++ [Str nm])) [];
      if decide (length names = n) then Ok (make_var_pack (List names), d) else Fail Segv.

Definition bf_prop_info (args : list Var) (progr : Z) (d : db) : res (package * db) :=
  oid ← arg_obj args 1;
  pname ← arg_str args 2;
  if negb (valid d oid) then Ok (make_error_pack E_INVARG, d)
  else
    h ← find_property_handle d oid pname;
    match h with
    | None | Some (BuiltIn _ _) => Ok (make_error_pack E_PROPNF, d)
    | Some h =>
        a ← db_property_allows d h progr PF_READ;
        if negb a then Ok (make_error_pack E_PERM, d)
        else
          own ← db_property_owner d h;
          flags ← db_property_flags d h;
          Ok (make_var_pack (List [Obj own; Str (unparse_flags pf_letters flags)]), d)
    end.

Definition set_prop_info (oid : Z) (pname : cstr) (info : Var) (progr : Z) (d : db) : res (error * db) :=
  if negb (valid d oid) then Ok (E_INVARG, d)
  else
    match validate_prop_info d info with
    | inl e => Ok (e, d)
    | inr (new_owner, new_flags, new_name) =>
        h ← find_property_handle d oid pname;
        match h with
        | None | Some (BuiltIn _ _) => Ok (E_PROPNF, d)
        | Some h =>
            a ← db_property_allows d h progr PF_WRITE;
            refused ← (if negb a then Ok true
                       else
                         w ← is_wizard d progr;
                         if (w : bool) then Ok false
                         else own ← db_property_owner d h; Ok (negb (own =? new_owner)));
            if (refused : bool) then Ok (E_PERM, d)
            else
              '(ok, h, d) ← match new_name with
                            | None => Ok (true, Some h, d)
                            | Some nm =>
                                '(b, d) ← db_rename_propdef oid pname nm d;
                                if (b : bool) then h ← find_property_handle d oid nm; Ok (true, h, d)
                                else Ok (false, None, d)
                            end;
              if negb ok then Ok (E_INVARG, d)
              else
                h ← deref h;
                d ← db_set_property_owner h new_owner d;
                d ← db_set_property_flags h new_flags d;
                Ok (E_NONE, d)
        end
    end.

Definition bf_set_prop_info (args : list Var) (progr : Z) (d : db) : res (package * db) :=
  oid ← arg_obj args 1;
  pname ← arg_str args 2;
  info ← arg_var args 3;
  '(e, d) ← set_prop_info oid pname info progr d;
  Ok (answer_pack e, d).

Definition bf_add_prop (args : list Var) (progr : Z) (d : db) : res (package * db) :=
  oid ← arg_obj args 1;
  pname ← arg_str args 2;
  value ← arg_var args 3;
  info ← arg_var args 4;
  '(e, d) ← match validate_prop_info d info with
            | inl e => Ok (e, d)
            | inr (_, _, Some _) => Ok (E_TYPE, d)
            | inr (own, flags, None) =>
                if negb (valid d oid) then Ok (E_INVARG, d)
                else
                  a ← db_object_allows d oid progr FLAG_WRITE;
                  refused ← (if negb a then Ok true
                             else if progr =? own then Ok false
                             else w ← is_wizard d progr; Ok (negb w));
                  if (refused : bool) then Ok (E_PERM, d)
                  else
                    '(b, d) ← db_add_propdef oid pname value own flags d;
                    Ok (if (b : bool) then E_NONE else E_INVARG, d)
            end;
  Ok (answer_pack e, d).

Definition bf_delete_prop (args : list Var) (progr : Z) (d : db) : res (package * db) :=
  oid ← arg_obj args 1;
  pname ← arg_str args 2;
  if negb (valid d oid) then Ok (make_error_pack E_INVARG, d)
  else
    a ← db_object_allows d oid progr FLAG_WRITE;
    if negb a then Ok (make_error_pack E_PERM, d)
    else
      '(b, d) ← db_delete_propdef oid pname d;
      Ok (if (b : bool) then no_var_pack else make_error_pack E_PROPNF, d).

Definition bf_clear_prop (args : list Var) (progr : Z) (d : db) : res (package * db) :=
  oid ← arg_obj args 1;
  pname ← arg_str args 2;
  if negb (valid d oid) then Ok (make_error_pack E_INVARG, d)
  else
    h ← find_property_handle d oid pname;
    match h with
    | None => Ok (make_error_pack E_PROPNF, d)
    | Some (BuiltIn _ _) => Ok (make_error_pack E_PERM, d)
    | Some (Slot definer _ _ as h) =>
        own ← db_property_owner d h;
        refused ← (if progr =? own then Ok false else w ← is_wizard d progr; Ok (negb w));
        if (refused : bool) then Ok (make_error_pack E_PERM, d)
        else if definer =? oid then Ok (make_error_pack E_INVARG, d)
        else d ← db_set_property_value h Clear d; Ok (no_var_pack, d)
    end.

Definition bf_is_clear_prop (args : list Var) (progr : Z) (d : db) : res (package * db) :=
  oid ← arg_obj args 1;
  pname ← arg_str args 2;
  if negb (valid d oid) then Ok (make_error_pack E_INVARG, d)
  else
    h ← find_property_handle d oid pname;
    match h with
    | None => Ok (make_error_pack E_PROPNF, d)
    | Some (BuiltIn _ _) => Ok (make_var_pack (Int 0), d)
    | Some h =>
        a ← db_property_allows d h progr PF_READ;
        if negb a then Ok (make_error_pack E_PERM, d)
        else
          v ← db_property_value d h;
          Ok (make_var_pack (bool_var match v with Clear => true | _ => false end), d)
    end.
