(* ===== verification/VerbBuiltins.v ===== *)
(** * Built-in functions on verbs (src/verbs.c)

    The checks around db_verbs.c.  A verb is described by its number or its name; the
    compiler and the decompiler are parameters, and [eval] is left out. *)

From S2P Require Import Prelude CStrings Values Lists Libc Links Db Properties Layout Tables Objects.
From S2P Require Import Preps Verbs Numbers ObjectBuiltins PropBuiltins.

Open Scope Z_scope.

(** ** Descriptions *)

Definition vf_letter (c : ascii) : option Z :=
  if decide (c = "r" \/ c = "R")%char then Some VF_READ
  else if decide (c = "w" \/ c = "W")%char then Some VF_WRITE
  else if decide (c = "x" \/ c = "X")%char then Some VF_EXEC
  else if decide (c = "d" \/ c = "D")%char then Some VF_DEBUG
  else None.
Definition vf_letters : list (Z * ascii) :=
  [(VF_READ, "r"); (VF_WRITE, "w"); (VF_EXEC, "x"); (VF_DEBUG, "d")]%char.

(** [while ( **names == ' ') ( *names)++;] *)
Fixpoint skip_spaces (s : cstr) : cstr :=
  match s with
  | c :: s' => if decide (c = " "%char) then skip_spaces s' else s
  | [] => []
  end.

Definition validate_verb_info (d : db) (v : Var) : error + (Z * Z * cstr) :=
  match v with
  | List [Obj own; Str perms; Str names] =>
      if negb (valid d own) then inl E_INVARG
      else match parse_flags vf_letter perms 0 with
           | None => inl E_INVARG
           | Some flags =>
               match skip_spaces names with
               | [] => inl E_INVARG
               | names => inr (own, flags, names)
               end
           end
  | _ => inl E_TYPE
  end.

Definition match_arg_spec (s : cstr) : option Z :=
  if mystrcasecmp s (lit "none") =? 0 then Some ASPEC_NONE
  else if mystrcasecmp s (lit "any") =? 0 then Some ASPEC_ANY
  else if mystrcasecmp s (lit "this") =? 0 then Some ASPEC_THIS
  else None.

(** [mx] is the size of the tokenizer's array of words, which stays between calls. *)
Definition match_prep_spec (mx : nat) (s : cstr) : res (option Z * nat) :=
  if mystrcasecmp s (lit "none") =? 0 then Ok (Some PREP_NONE, mx)
  else if mystrcasecmp s (lit "any") =? 0 then Ok (Some PREP_ANY, mx)
  else
    '(prep, mx) ← db_match_prep mx s;
    Ok (if prep =? PREP_NONE then None else Some prep, mx).

Definition validate_verb_args (mx : nat) (v : Var) : res ((error + (Z * Z * Z)) * nat) :=
  match v with
  | List [Str s1; Str s2; Str s3] =>
      match match_arg_spec s1 with
      | None => Ok (inl E_INVARG, mx)
      | Some dobj =>
          '(p, mx) ← match_prep_spec mx s2;
          Ok (match p, match_arg_spec s3 with
              | Some prep, Some iobj => inr (dobj, prep, iobj)
              | _, _ => inl E_INVARG
              end, mx)
      end
  | _ => Ok (inl E_TYPE, mx)
  end.

Definition unparse_arg_spec (spec : Z) : res cstr :=
  if spec =? ASPEC_NONE then Ok (lit "none")
  else if spec =? ASPEC_ANY then Ok (lit "any")
  else if spec =? ASPEC_THIS then Ok (lit "this")
  else Fail (Panic "UNPARSE_ARG_SPEC: Unknown db_arg_spec!").

Definition validate_verb_descriptor (desc : Var) : error :=
  match desc with
  | Str _ => E_NONE
  | Int n => if n <=? 0 then E_INVARG else E_NONE
  | _ => E_TYPE
  end.

Section builtins.

(** [server_flag_option("support_numeric_verbname_strings")] of src/server.c, and whether a
    name is the very string of a verb (see [verbcasecmp]). *)
Context (numeric_names : bool) (same : positive -> bool).

Definition find_described_verb (d : db) (oid : Z) (desc : Var) : res db_verb_handle :=
  match desc with
  | Int n => db_find_indexed_verb d oid (u32 n)
  | Str s => db_find_defined_verb d same oid s numeric_names
  | _ => Fail Undefined
  end.

(** The checks that the functions on a described verb share: [k] gets its handle. *)
Definition with_verb {A} (d : db) (oid : Z) (desc : Var) (fail : error -> res A)
    (k : db_verb_handle -> res A) : res A :=
  match validate_verb_descriptor desc with
  | E_NONE =>
      if negb (valid d oid) then fail E_INVARG
      else
        vh ← find_described_verb d oid desc;
        match vh with NullHandle => fail E_VERBNF | vh => k vh end
  | e => fail e
  end.

Definition refuse (d : db) (e : error) : res (package * db) := Ok (make_error_pack e, d).

(** ** The functions *)

Definition bf_verbs (args : list Var) (progr : Z) (d : db) : res (package * db) :=
  oid ← arg_obj args 1;
  if negb (valid d oid) then refuse d E_INVARG
  else
    a ← db_object_allows d oid progr FLAG_READ;
    if negb a then refuse d E_PERM
    else
      n ← db_count_verbs d oid;
      '(_, names) ← db_for_all_verbs d oid (fun r nm => (false, r ++ [Str nm])) [];
      if Z.of_nat (length names) =? n then Ok (make_var_pack (List names), d) else Fail Segv.

Definition bf_add_verb (mx : nat) (args : list Var) (progr : Z) (d : db) : res (package * db) :=
  oid ← arg_obj args 1;
  info ← arg_var args 2;
  spec ← arg_var args 3;
  match validate_verb_info d info with
  | inl e => refuse d e
  | inr (own, flags, names) =>
      '(specs, _) ← validate_verb_args mx spec;
      match specs with
      | inl e => refuse d e
      | inr (dobj, prep, iobj) =>
          if negb (valid d oid) then refuse d E_INVARG
          else
            a ← db_object_allows d oid progr FLAG_WRITE;
            refused ← (if negb a then Ok true
                       else if progr =? own then Ok false
                       else w ← is_wizard d progr; Ok (negb w));
            if (refused : bool) then refuse d E_PERM
            else
              '(n, d) ← db_add_verb oid names own flags dobj prep iobj d;
              Ok (make_var_pack (Int n), d)
      end
  end.

Definition bf_delete_verb (args : list Var) (progr : Z) (d : db) : res (package * db) :=
  oid ← arg_obj args 1;
  desc ← arg_var args 2;
  match validate_verb_descriptor desc with
  | E_NONE =>
      if negb (valid d oid) then refuse d E_INVARG
      else
        a ← db_object_allows d oid progr FLAG_WRITE;
        if negb a then refuse d E_PERM
        else
          vh ← find_described_verb d oid desc;
          match vh with
          | NullHandle => refuse d E_VERBNF
          | vh => d ← db_delete_verb vh d; Ok (no_var_pack, d)
          end
  | e => refuse d e
  end.

Definition bf_verb_info (args : list Var) (progr : Z) (d : db) : res (package * db) :=
  oid ← arg_obj args 1;
  desc ← arg_var args 2;
  with_verb d oid desc (refuse d) (fun vh =>
    a ← db_verb_allows d vh progr VF_READ;
    if negb a then refuse d E_PERM
    else
      own ← db_verb_owner d vh;
      flags ← db_verb_flags d vh;
      names ← db_verb_names d vh;
      Ok (make_var_pack (List [Obj own; Str (unparse_flags vf_letters flags); Str names]), d)).

Definition bf_set_verb_info (args : list Var) (progr : Z) (d : db) : res (package * db) :=
  oid ← arg_obj args 1;
  desc ← arg_var args 2;
  info ← arg_var args 3;
  match validate_verb_descriptor desc with
  | E_NONE =>
      if negb (valid d oid) then refuse d E_INVARG
      else
        match validate_verb_info d info with
        | inl e => refuse d e
        | inr (new_owner, new_flags, new_names) =>
            vh ← find_described_verb d oid desc;
            match vh with
            | NullHandle => refuse d E_VERBNF
            | vh =>
                a ← db_verb_allows d vh progr VF_WRITE;
                refused ← (if negb a then Ok true
                           else
                             w ← is_wizard d progr;
                             if (w : bool) then Ok false
                             else own ← db_verb_owner d vh; Ok (negb (own =? new_owner)));
                if (refused : bool) then refuse d E_PERM
                else
                  d ← db_set_verb_owner vh new_owner d;
                  d ← db_set_verb_flags vh new_flags d;
                  d ← db_set_verb_names vh new_names d;
                  Ok (no_var_pack, d)
            end
        end
  | e => refuse d e
  end.

Definition bf_verb_args (args : list Var) (progr : Z) (d : db) : res (package * db) :=
  oid ← arg_obj args 1;
  desc ← arg_var args 2;
  with_verb d oid desc (refuse d) (fun vh =>
    a ← db_verb_allows d vh progr VF_READ;
    if negb a then refuse d E_PERM
    else
      '(dobj, prep, iobj) ← db_verb_arg_specs d vh;
      s1 ← unparse_arg_spec dobj;
      s2 ← db_unparse_prep prep;
      s3 ← unparse_arg_spec iobj;
      Ok (make_var_pack (List [Str s1; Str s2; Str s3]), d)).

Definition bf_set_verb_args (mx : nat) (args : list Var) (progr : Z) (d : db) : res (package * db) :=
  oid ← arg_obj args 1;
  desc ← arg_var args 2;
  spec ← arg_var args 3;
  match validate_verb_descriptor desc with
  | E_NONE =>
      if negb (valid d oid) then refuse d E_INVARG
      else
        '(specs, _) ← validate_verb_args mx spec;
        match specs with
        | inl e => refuse d e
        | inr (dobj, prep, iobj) =>
            vh ← find_described_verb d oid desc;
            match vh with
            | NullHandle => refuse d E_VERBNF
            | vh =>
                a ← db_verb_allows d vh progr VF_WRITE;
                if negb a then refuse d E_PERM
                else d ← db_set_verb_arg_specs vh dobj prep iobj d; Ok (no_var_pack, d)
            end
        end
  | e => refuse d e
  end.

(** [unparse_program] of src/decompile.c and src/unparse.c, and [null_program]. *)
Context (unparse_program : positive -> bool -> bool -> list cstr) (null_program : positive).

Definition bf_verb_code (args : list Var) (progr : Z) (d : db) : res (package * db) :=
  oid ← arg_obj args 1;
  desc ← arg_var args 2;
  let parens := bool_decide (3 <= length args)%nat && from_option is_true false (args !! 2%nat) in
  let indent := bool_decide (length args < 4)%nat || from_option is_true false (args !! 3%nat) in
  with_verb d oid desc (refuse d) (fun vh =>
    a ← db_verb_allows d vh progr VF_READ;
    if negb a then refuse d E_PERM
    else
      program ← db_verb_program null_program d vh;
      Ok (make_var_pack (List (Str <$> unparse_program program parens indent)), d)).

(** [parse_list_as_program] of src/parser.y, and whether the task has run out of time. *)
Context (parse_list_as_program : list Var -> option positive * Var) (task_timed_out : bool).

Definition bf_set_verb_code (args : list Var) (progr : Z) (d : db) : res (package * db) :=
  oid ← arg_obj args 1;
  desc ← arg_var args 2;
  code ← arg_var args 3;
  match code with
  | List code =>
      if negb (forallb (fun v => match v with Str _ => true | _ => false end) code) then refuse d E_TYPE
      else
        with_verb d oid desc (refuse d) (fun vh =>
          refused ← (p ← is_programmer d progr;
                     if negb p then Ok true
                     else a ← db_verb_allows d vh progr VF_WRITE; Ok (negb a));
          if (refused : bool) then refuse d E_PERM
          else
            let '(program, errors) := parse_list_as_program code in
            d ← match program with
                | Some p => if task_timed_out then Ok d else db_set_verb_program vh p d
                | None => Ok d
                end;
            Ok (make_var_pack errors, d))
  | _ => Fail Undefined
  end.

End builtins.
