(* ===== verification/PropBuiltinOps.v ===== *)
(** * Built-in functions on properties: the theorems (src/property.c) *)

From S2P Require Import Prelude CStrings Values Lists Libc Links Db Properties Layout Tables Objects.
From S2P Require Import Sample PropertyOps RenameProp Reparent ObjectOps Renumber Preps Verbs VerbCache VerbOps.
From S2P Require Import Numbers ObjectBuiltins PropBuiltins Invariant Handlers.

Open Scope Z_scope.

(** ** Letters *)

(** Flags that the letters of a table make. *)
Definition pf_sets : list Z := seqZ 0 8.

Lemma pf_letter_range c f : pf_letter c = Some f -> f ∈ [PF_READ; PF_WRITE; PF_CHOWN].
Proof. unfold pf_letter. repeat case_decide; intros [= <-]; set_solver. Qed.

Lemma parse_flags_range letter (ok : Z -> Prop) : (forall c f n, letter c = Some f -> ok n -> ok (Z.lor n f)) ->
  forall s n flags, ok n -> parse_flags letter s n = Some flags -> ok flags.
Proof.
  intros Hl. induction s as [|c s IH]; intros n flags Hn; cbn [parse_flags]; [by intros [= <-]|].
  destruct (letter c) as [f|] eqn:E; [|done]. apply IH. by apply (Hl c).
Qed.

Definition pf_closed : bool := forallb (fun n => forallb (fun f => (0 <=? Z.lor n f) && (Z.lor n f <? 8))
  [PF_READ; PF_WRITE; PF_CHOWN]) (seqZ 0 8).

Lemma pf_flags_range s flags : parse_flags pf_letter s 0 = Some flags -> 0 <= flags < 8.
Proof.
  apply (parse_flags_range pf_letter (fun n => 0 <= n < 8)); [|lia]. intros c f n Hc%pf_letter_range Hn.
  assert (H : pf_closed = true) by (vm_compute; reflexivity). unfold pf_closed in H.
  rewrite forallb_forall in H. specialize (H n). rewrite forallb_forall in H. specialize (fun Hn => H Hn f).
  rewrite andb_true_iff, Z.leb_le, Z.ltb_lt in H. apply H; [|by apply list_elem_of_In].
  apply list_elem_of_In, elem_of_seqZ. lia.
Qed.

(** ** Handles *)

Section handles.
Context (F P : forest) (d : db) (Hg : good F P d).

(** What a search for a property finds on a valid object. *)
Definition handle_ok (x : Z) (pname : cstr) (h : option db_prop_handle) : Prop :=
  match h with
  | None => find_builtin pname = None /\ forall k, k ∈ schema d x -> ~ ci_eq (pd_name (snd k)) pname
  | Some (BuiltIn bp y) => y = x /\ find_builtin pname = Some bp
  | Some (Slot def y n) => y = x /\ find_builtin pname = None /\
      exists p, schema d x !! n = Some (def, p) /\ ci_eq (pd_name p) pname
  end.

Lemma handle_Ok x pname : is_Some (objects d !! x) -> nul_free pname ->
  exists h, find_property_handle d x pname = Ok h /\ handle_ok x pname h.
Proof.
  intros Hx Hn. destruct (find_builtin pname) as [bp|] eqn:Hb.
  - unfold find_property_handle. rewrite Hb. by eexists.
  - destruct (find_handle_spec F d x pname (good_props _ _ _ Hg) Hn Hb Hx) as (h & Hh & Hs). exists h.
    split; [done|]. by destruct h as [[bp y|def y n]|]; [|destruct Hs as [-> ?]|].
Qed.

(** The definition with that name is the one that is found. *)
Lemma handle_found x pname n def p : is_Some (objects d !! x) -> nul_free pname -> find_builtin pname = None ->
  schema d x !! n = Some (def, p) -> ci_eq (pd_name p) pname ->
  find_property_handle d x pname = Ok (Some (Slot def x n)).
Proof.
  intros Hx Hn Hb Hs Hc. destruct (handle_Ok x pname Hx Hn) as (h & -> & Hh). f_equal.
  destruct h as [[bp y|def' y n']|]; cbn [handle_ok] in Hh; [by destruct Hh as [_ ?]; congruence| |].
  - destruct Hh as (-> & _ & p' & Hs' & Hc'). assert (n' = n) as ->; [|congruence].
    eapply (NoDup_lookup (folded <$> schema d x)); [by apply (wp_unique _ _ (good_props _ _ _ Hg))|..].
    + rewrite list_lookup_fmap, Hs'. cbn. reflexivity.
    + rewrite list_lookup_fmap, Hs. cbn. f_equal. unfold folded, ci_eq in *. cbn. congruence.
  - destruct Hh as [_ Hno]. destruct (Hno (def, p)); [by eapply list_elem_of_lookup_2|done].
Qed.

(** The cell of a definition. *)
Lemma slot_cell x n def p o : objects d !! x = Some o -> schema d x !! n = Some (def, p) ->
  exists pv, propval o !! n = Some pv /\ (def <> x -> (cur_length (propdefs o) <= n)%nat).
Proof.
  intros Ho Hs. pose proof (good_props _ _ _ Hg) as Hp.
  destruct (lookup_lt_is_Some_2 (propval o) n) as [pv Hpv].
  { rewrite (wp_cells _ _ Hp x o Ho). by eapply lookup_lt_Some. }
  exists pv. split; [done|]. intros Hne.
  destruct (decide (cur_length (propdefs o) <= n)%nat) as [|Hlt]; [done|]. destruct Hne.
  destruct (proj1 (valid_family F P d x Hg)) as [q Hq]; [by eexists|].
  destruct (schema_parent F d x o q Hp Ho Hq) as (_ & E & _). rewrite E, lookup_app_l in Hs.
  - unfold defs_of in Hs. rewrite list_lookup_fmap in Hs. apply fmap_Some in Hs as (p' & _ & [= -> _]).
    by apply (wf_id d (wp_table _ _ Hp)).
  - unfold defs_of. rewrite length_fmap. unfold cur_length in *. lia.
Qed.

Lemma slot_read x n o pv : objects d !! x = Some o -> propval o !! n = Some pv -> slot_pval d x n = Ok pv.
Proof.
  intros Ho Hpv. unfold slot_pval. rewrite (good_lookup F P d x Hg), Ho. cbn. by rewrite Hpv.
Qed.

Lemma read_prop_allows def x n o pv who f : objects d !! x = Some o -> propval o !! n = Some pv ->
  exists b, db_property_allows d (Slot def x n) who f = Ok b /\ (is_wizard d who = Ok true -> b = true).
Proof.
  intros Ho Hpv. unfold db_property_allows. cbn [db_property_flags db_property_owner].
  rewrite (slot_read x n o pv Ho Hpv). cbn [mbind res_bind].
  destruct (read_wizard F P d Hg who) as [w Hw]. rewrite Hw.
  destruct (negb _); [by exists true|]. destruct (who =? _); [by exists true|]. exists w. split; [done|].
  by intros [= ->].
Qed.

End handles.

Lemma validate_prop_cases d v : match validate_prop_info d v with
  | inl e => e = E_TYPE \/ e = E_INVARG
  | inr (own, flags, nm) => valid d own = true /\ 0 <= flags < 8
  end.
Proof.
  assert (Hc : forall own perms nm,
    match (if negb (valid d own) then inl E_INVARG
           else match parse_flags pf_letter perms 0 with
                | Some flags => inr (own, flags, nm)
                | None => inl E_INVARG
                end : error + (Z * Z * option cstr)) with
    | inl e => e = E_TYPE \/ e = E_INVARG
    | inr (own, flags, nm) => valid d own = true /\ 0 <= flags < 8
    end).
  { intros own perms nm. destruct (valid d own) eqn:E; cbn [negb]; [|auto].
    destruct (parse_flags pf_letter perms 0) as [flags|] eqn:Ef; [|auto]. split; [done|].
    by apply (pf_flags_range perms). }
  unfold validate_prop_info.
  repeat match goal with |- context [match ?x with _ => _ end] => is_var x; destruct x end;
    first [apply Hc|by left].
Qed.

(** ** Setting and reading *)

Lemma flags_back flags : 0 <= flags < 8 -> u32 (wrap16 flags) = flags.
Proof.
  intros Hf. unfold wrap16. rewrite swrap_id; [|lia|unfold int_range; cbn; lia].
  unfold u32. apply Z.mod_small. lia.
Qed.

(** The two writes at the end of [set_prop_info]. *)
Lemma write_info_Ok F P d def x n o pv own flags : good F P d -> objects d !! x = Some o -> propval o !! n = Some pv ->
  exists d', (d ← db_set_property_owner (Slot def x n) own d; db_set_property_flags (Slot def x n) flags d) = Ok d' /\
    good F P d' /\ objects d' = <[x := set_propval (<[n := mkPval (p_var pv) own (wrap16 flags)]> (propval o)) o]> (objects d).
Proof.
  intros Hg Ho Hpv. pose proof (good_props _ _ _ Hg) as Hp.
  assert (Hclear : forall own fl, p_var (mkPval (p_var pv) own fl) = Clear -> (cur_length (propdefs o) <= n)%nat).
  { cbn. intros _ _ E. destruct (decide (n < cur_length (propdefs o))%nat) as [Hlt|]; [|lia].
    by destruct (wp_clear _ _ Hp x o n pv Ho Hpv Hlt). }
  destruct (good_upd_slot F P d x n (fun pv => mkPval (p_var pv) own (p_perms pv)) o pv Hg Ho Hpv)
    as (d1 & H1 & Hg1 & _ & E1); [by apply Hclear|].
  cbn [db_set_property_owner db_set_property_flags]. rewrite H1. cbn [mbind res_bind].
  set (pv1 := mkPval (p_var pv) own (p_perms pv)) in *. set (o1 := set_propval (<[n := pv1]> (propval o)) o) in *.
  assert (Ho1 : objects d1 !! x = Some o1) by (by rewrite E1, lookup_insert_eq).
  assert (Hpv1 : propval o1 !! n = Some pv1) by (apply list_lookup_insert_eq; by eapply lookup_lt_Some).
  destruct (good_upd_slot F P d1 x n (fun pv => mkPval (p_var pv) (p_owner pv) (wrap16 flags)) o1 pv1 Hg1 Ho1 Hpv1)
    as (d2 & H2 & Hg2 & _ & E2); [by apply Hclear|].
  exists d2. split; [done|]. split; [done|]. rewrite E2, E1, insert_insert_eq. f_equal.
  unfold o1. cbn [propval set_propval]. by rewrite list_insert_insert_eq.
Qed.

(** What another cell of an object is called does not change. *)
Lemma cell_schema F P d d' x o v : good F P d -> objects d !! x = Some o -> good F P d' ->
  objects d' = <[x := set_propval v o]> (objects d) -> forall y, schema d' y = schema d y.
Proof.
  intros Hg Ho Hg' E y. pose proof (good_props _ _ _ Hg) as Hp. pose proof (good_props _ _ _ Hg') as Hp'.
  destruct (par F !! y) as [q|] eqn:Hy.
  - destruct (wf_acyclic F (wp_forest _ _ Hp) y) as [ls Hl]; [by eexists|].
    rewrite (schema_along F d y ls (wp_family _ _ Hp) (wp_table _ _ Hp) Hl).
    rewrite (schema_along F d' y ls (wp_family _ _ Hp') (wp_table _ _ Hp') Hl).
    apply list_bind_ext; [|done]. intros z. rewrite E. destruct (decide (z = x)) as [->|].
    + by rewrite lookup_insert_eq, Ho.
    + by rewrite lookup_insert_ne.
  - rewrite (schema_invalid F d y (wp_family _ _ Hp) (wp_table _ _ Hp) Hy).
    by rewrite (schema_invalid F d' y (wp_family _ _ Hp') (wp_table _ _ Hp') Hy).
Qed.

(** What [set_prop_info] leaves is what [bf_prop_info] tells a wizard. *)
Lemma info_back F P d x n def p o pv pname own flags : good F P d -> objects d !! x = Some o ->
  nul_free pname -> find_builtin pname = None -> schema d x !! n = Some (def, p) -> ci_eq (pd_name p) pname ->
  propval o !! n = Some pv -> 0 <= flags < 8 ->
  exists d', (d ← db_set_property_owner (Slot def x n) own d; db_set_property_flags (Slot def x n) flags d) = Ok d' /\
    good F P d' /\ forall w, is_wizard d' w = Ok true ->
      bf_prop_info [Obj x; Str pname] w d'
      = Ok (make_var_pack (List [Obj own; Str (unparse_flags pf_letters flags)]), d').
Proof.
  intros Hg Ho Hn Hb Hs Hc Hpv Hf.
  destruct (write_info_Ok F P d def x n o pv own flags Hg Ho Hpv) as (d' & H & Hg' & E).
  exists d'. split; [done|]. split; [done|]. intros w Hw. unfold bf_prop_info.
  change (arg_obj [Obj x; Str pname] 1) with (Ok x). change (arg_str [Obj x; Str pname] 2) with (Ok pname).
  cbn [mbind res_bind]. set (pv' := mkPval (p_var pv) own (wrap16 flags)) in *.
  set (o' := set_propval (<[n := pv']> (propval o)) o) in *.
  assert (Ho' : objects d' !! x = Some o') by (by rewrite E, lookup_insert_eq).
  assert (Hpv' : propval o' !! n = Some pv') by (apply list_lookup_insert_eq; by eapply lookup_lt_Some).
  rewrite (proj2 (valid_iff F P d' x Hg')) by (by eexists). cbn [negb].
  rewrite (handle_found F P d' Hg' x pname n def p); [|by eexists|done|done| |done].
  2: { by rewrite (cell_schema F P d d' x o _ Hg Ho Hg' E). }
  cbn [mbind res_bind]. destruct (read_prop_allows F P d' Hg' def x n o' pv' w PF_READ Ho' Hpv') as (b & -> & Hw2).
  rewrite (Hw2 Hw). cbn [mbind res_bind negb db_property_owner db_property_flags].
  rewrite (slot_read F P d' Hg' x n o' pv' Ho' Hpv'). cbn [mbind res_bind p_owner p_perms pv'].
  by rewrite flags_back.
Qed.

(** The strings of a description: a new name has no NUL, and turns no waif property into
    another. *)
Definition good_info (pname : cstr) (info : Var) : Prop :=
  match info with List [_; _; Str nm] => nul_free nm /\ no_waif_rename pname nm | _ => True end.

Lemma good_info_name d pname info own flags nm : validate_prop_info d info = inr (own, flags, Some nm) ->
  good_info pname info -> nul_free nm /\ no_waif_rename pname nm.
Proof.
  unfold validate_prop_info, good_info. intros H.
  repeat match goal with H : context [match ?x with _ => _ end] |- _ => is_var x; destruct x end; try done;
    (destruct (valid d obj); cbn [negb] in H; [|done]); destruct (parse_flags _ _ _); by simplify_eq.
Qed.

(** What can go wrong with [set_prop_info], and what it leaves otherwise. *)
Definition info_outcome d x pname info progr (e : error) d' : Prop :=
  match e with
  | E_NONE => exists own flags nm, validate_prop_info d info = inr (own, flags, nm) /\
      forall w, is_wizard d' w = Ok true ->
        bf_prop_info [Obj x; Str (default pname nm)] w d'
        = Ok (make_var_pack (List [Obj own; Str (unparse_flags pf_letters flags)]), d')
  | E_TYPE => d' = d /\ validate_prop_info d info = inl E_TYPE
  | E_INVARG => d' = d
  | E_PROPNF => d' = d /\ ((exists bp, find_builtin pname = Some bp) \/
      forall k, k ∈ schema d x -> ~ ci_eq (pd_name (snd k)) pname)
  | E_PERM => d' = d /\ is_wizard d progr = Ok false
  | _ => False
  end.

(** The last part: the handle is found again under a new name. *)
Lemma set_info_last_Ok F P d x n def p o pname nm own flags : good F P d -> objects d !! x = Some o ->
  nul_free pname -> find_builtin pname = None -> schema d x !! n = Some (def, p) -> ci_eq (pd_name p) pname ->
  0 <= flags < 8 -> match nm with Some nm => nul_free nm /\ no_waif_rename pname nm | None => True end ->
  exists e d', ('(ok, h, d) ← match nm with
                             | None => Ok (true, Some (Slot def x n), d)
                             | Some nm =>
                                 '(b, d) ← db_rename_propdef x pname nm d;
                                 if (b : bool) then h ← find_property_handle d x nm; Ok (true, h, d)
                                 else Ok (false, None, d)
                             end;
                if negb (ok : bool) then Ok (E_INVARG, d)
                else
                  h ← deref h;
                  d ← db_set_property_owner h own d;
                  d ← db_set_property_flags h flags d;
                  Ok (E_NONE, d)) = Ok (e, d') /\ good F P d' /\
    (e = E_INVARG /\ d' = d \/ e = E_NONE /\ forall w, is_wizard d' w = Ok true ->
        bf_prop_info [Obj x; Str (default pname nm)] w d'
        = Ok (make_var_pack (List [Obj own; Str (unparse_flags pf_letters flags)]), d')).
Proof.
  intros Hg Ho Hn Hb Hs Hc Hf Hnm.
  assert (Hend : forall d1 pname1 n1 def1 p1, good F P d1 -> is_Some (objects d1 !! x) -> nul_free pname1 ->
    find_builtin pname1 = None -> schema d1 x !! n1 = Some (def1, p1) -> ci_eq (pd_name p1) pname1 ->
    exists e d', (d ← db_set_property_owner (Slot def1 x n1) own d1;
                  d ← db_set_property_flags (Slot def1 x n1) flags d; Ok (E_NONE, d)) = Ok (e, d') /\ good F P d' /\
      (e = E_INVARG /\ d' = d \/ e = E_NONE /\ forall w, is_wizard d' w = Ok true ->
        bf_prop_info [Obj x; Str pname1] w d'
        = Ok (make_var_pack (List [Obj own; Str (unparse_flags pf_letters flags)]), d'))).
  { intros d1 pname1 n1 def1 p1 Hg1 [o1 Ho1] Hn1 Hb1 Hs1 Hc1.
    destruct (slot_cell F P d1 Hg1 x n1 def1 p1 o1 Ho1 Hs1) as (pv & Hpv & _).
    destruct (info_back F P d1 x n1 def1 p1 o1 pv pname1 own flags Hg1 Ho1 Hn1 Hb1 Hs1 Hc1 Hpv Hf)
      as (d' & (d2 & H1 & H2)%res_bind_Ok & Hg' & Hback).
    exists E_NONE, d'. rewrite H1. cbn [mbind res_bind]. rewrite H2. cbn [mbind res_bind]. auto. }
  destruct nm as [nm|]; cbn [default].
  2: { cbn [mbind res_bind negb deref]. apply (Hend d pname n def p); [done|by eexists|done..]. }
  destruct Hnm as [Hnm Hnw].
  destruct (rename_propdef_Ok F d x pname nm (good_props _ _ _ Hg)) as (b & d1 & H & Hp1 & _ & Hd); [by eexists|done..|].
  destruct (good_rename_propdef F P d x pname nm Hg) as (b' & d1' & H' & Hg1); [by eexists|done..|].
  rewrite H in H'. injection H' as <- <-. rewrite H. cbn [mbind res_bind]. destruct b.
  2: { cbn [mbind res_bind negb]. exists E_INVARG, d1. subst d1. auto. }
  destruct Hd as (_ & q & Hq & Hqs & Hsch). destruct (Hsch x) as [Hx _].
  assert (Hin : (x, dbpriv_new_propdef nm) ∈ schema d1 x).
  { rewrite Hx. apply list_elem_of_fmap. exists (x, q). split; [|done]. unfold renamed. by rewrite decide_True. }
  apply list_elem_of_lookup_1 in Hin as [n1 Hn1].
  assert (Hb1 : find_builtin nm = None).
  { assert (def_ok (dbpriv_new_propdef nm)) as [_ _ Hdb]; [|exact Hdb].
    change (dbpriv_new_propdef nm) with (snd (x, dbpriv_new_propdef nm)).
    apply (schema_def_ok F d1 x); [done|]. by eapply list_elem_of_lookup_2. }
  assert (Hx1 : is_Some (objects d1 !! x)).
  { apply (valid_family F P d1 x Hg1), (valid_family F P d x Hg). by eexists. }
  rewrite (handle_found F P d1 Hg1 x nm n1 x (dbpriv_new_propdef nm)) by done.
  cbn [mbind res_bind negb deref]. by apply (Hend d1 nm n1 x (dbpriv_new_propdef nm)).
Qed.

Lemma set_prop_info_Ok F P d x pname info progr : good F P d -> nul_free pname -> good_info pname info ->
  exists e d', set_prop_info x pname info progr d = Ok (e, d') /\ good F P d' /\
    info_outcome d x pname info progr e d'.
Proof.
  intros Hg Hn Hinfo. unfold set_prop_info. destruct (valid d x) eqn:Hv; cbn [negb]; [|by exists E_INVARG, d].
  apply (valid_iff F P d x Hg) in Hv. pose proof (validate_prop_cases d info) as Hcases.
  destruct (validate_prop_info d info) as [e|[[own flags] nm]] eqn:Ei.
  { exists e, d. split; [done|]. split; [done|]. destruct Hcases as [->| ->]; [done|done]. }
  destruct Hcases as [_ Hf]. destruct (handle_Ok F P d Hg x pname Hv Hn) as (h & -> & Hh). cbn [mbind res_bind].
  destruct h as [[bp y|def y n]|]; cbn [handle_ok] in Hh.
  - exists E_PROPNF, d. split; [done|]. split; [done|]. split; [done|]. left. exists bp. by destruct Hh.
  - destruct Hh as (-> & Hb & p & Hs & Hc). pose proof Hv as [o Ho].
    destruct (slot_cell F P d Hg x n def p o Ho Hs) as (pv & Hpv & _).
    destruct (read_prop_allows F P d Hg def x n o pv progr PF_WRITE Ho Hpv) as (a & -> & Ha). cbn [mbind res_bind].
    destruct (read_wizard F P d Hg progr) as [w Hw]. rewrite Hw.
    assert (exists b, (if negb a then Ok true
       else w ← Ok w; if (w : bool) then Ok false
            else own0 ← db_property_owner d (Slot def x n); Ok (negb (own0 =? own))) = Ok b /\
       (b = true -> w = false)) as (b & Eb & Hbw).
    { cbn [mbind res_bind db_property_owner]. rewrite (slot_read F P d Hg x n o pv Ho Hpv). cbn [mbind res_bind].
      destruct a, w; cbn [negb]; [by exists false|by eexists| |by exists true].
      by specialize (Ha Hw). }
    cbn [mbind res_bind] in Eb |- *. rewrite Eb. cbn [mbind res_bind]. destruct b.
    { exists E_PERM, d. split; [done|]. split; [done|]. split; [done|]. by rewrite (Hbw eq_refl) in Hw. }
    assert (Hnm : match nm with Some nm => nul_free nm /\ no_waif_rename pname nm | None => True end).
    { destruct nm as [nm|]; [|done]. by apply (good_info_name d pname info own flags nm). }
    destruct (set_info_last_Ok F P d x n def p o pname nm own flags Hg Ho Hn Hb Hs Hc Hf Hnm)
      as (e & d' & Hlast & Hg' & Hout).
    exists e, d'. split; [exact Hlast|]. split; [done|]. destruct Hout as [[-> ->]|[-> Hback]]; [done|].
    exists own, flags, nm. auto.
  - exists E_PROPNF, d. split; [done|]. split; [done|]. split; [done|]. right. apply Hh.
Qed.



(** ** The other functions *)

Section safe.
Context (F P : forest) (d : db) (Hg : good F P d).

(** The function answers, and the database stays well-formed. *)
Definition answers_well (r : res (package * db)) : Prop := exists pk d', r = Ok (pk, d') /\ good F P d'.

Lemma answers_same pk : answers_well (Ok (pk, d)).
Proof. by exists pk, d. Qed.

Lemma for_all_propdefs_Ok x o : objects d !! x = Some o ->
  db_for_all_propdefs d x (fun r nm => (false, r ++ [Str nm])) [] =
    Ok (false, (fun p => Str (pd_name p)) <$> l (propdefs o)).
Proof.
  intros Ho. unfold db_for_all_propdefs. rewrite (good_lookup F P d x Hg), Ho. cbn [deref mbind res_bind]. f_equal.
  assert (H : forall ps r, (fix go (ps : list Propdef) (data : list Var) :=
         match ps with
         | [] => (false, data)
         | p :: ps => let '(stop, data) := (false, data ++ [Str (pd_name p)]) in
                      if (stop : bool) then (true, data) else go ps data
         end) ps r = (false, r ++ ((fun p => Str (pd_name p)) <$> ps))); [|apply (H _ [])].
  induction ps as [|p ps IH]; intros r; cbn; [by rewrite app_nil_r|]. by rewrite IH, <- app_assoc.
Qed.

Lemma properties_keeps x progr : answers_well (bf_properties [Obj x] progr d).
Proof.
  unfold bf_properties. change (arg_obj _ 1) with (Ok x). cbn [mbind res_bind].
  destruct (valid d x) eqn:Hv; cbn [negb]; [|apply answers_same]. apply (valid_iff F P d x Hg) in Hv as [o Ho].
  destruct (read_allows F P d Hg x progr FLAG_READ) as [a ->]; [by eexists|]. cbn [mbind res_bind].
  destruct a; cbn [negb]; [|apply answers_same]. unfold db_count_propdefs.
  rewrite (good_lookup F P d x Hg), Ho. cbn [deref mbind res_bind]. rewrite (for_all_propdefs_Ok x o Ho).
  cbn [mbind res_bind]. rewrite decide_True by (by rewrite length_fmap). apply answers_same.
Qed.

Lemma prop_info_keeps x pname progr : nul_free pname -> answers_well (bf_prop_info [Obj x; Str pname] progr d).
Proof.
  intros Hn. unfold bf_prop_info. change (arg_obj _ 1) with (Ok x). change (arg_str _ 2) with (Ok pname).
  cbn [mbind res_bind]. destruct (valid d x) eqn:Hv; cbn [negb]; [|apply answers_same].
  apply (valid_iff F P d x Hg) in Hv. destruct (handle_Ok F P d Hg x pname Hv Hn) as (h & -> & Hh).
  cbn [mbind res_bind]. destruct h as [[bp y|def y n]|]; cbn [handle_ok] in Hh; try apply answers_same.
  destruct Hh as (-> & _ & p & Hs & _). destruct Hv as [o Ho].
  destruct (slot_cell F P d Hg x n def p o Ho Hs) as (pv & Hpv & _).
  destruct (read_prop_allows F P d Hg def x n o pv progr PF_READ Ho Hpv) as (a & -> & _). cbn [mbind res_bind].
  destruct a; cbn [negb]; [|apply answers_same]. cbn [db_property_owner db_property_flags].
  rewrite (slot_read F P d Hg x n o pv Ho Hpv). cbn [mbind res_bind]. apply answers_same.
Qed.

Lemma add_prop_keeps x pname value info progr : nul_free pname -> value <> Clear ->
  answers_well (bf_add_prop [Obj x; Str pname; value; info] progr d).
Proof.
  intros Hn Hval. unfold bf_add_prop. change (arg_obj _ 1) with (Ok x). change (arg_str _ 2) with (Ok pname).
  change (arg_var _ 3) with (Ok value). change (arg_var _ 4) with (Ok info). cbn [mbind res_bind].
  assert (Hdone : forall e, answers_well ('(e, d) ← Ok (e, d); Ok (answer_pack e, d))) by (intros e; apply answers_same).
  destruct (validate_prop_info d info) as [e|[[own flags] [nm|]]]; [apply Hdone|apply Hdone|].
  destruct (valid d x) eqn:Hv; cbn [negb]; [|apply Hdone]. apply (valid_iff F P d x Hg) in Hv.
  destruct (read_allows F P d Hg x progr FLAG_WRITE Hv) as [a ->]. destruct (read_wizard F P d Hg progr) as [w ->].
  cbn [mbind res_bind].
  assert (exists b, (if negb a then Ok true else if progr =? own then Ok false else Ok (negb w)) = Ok b) as [b ->]
    by (destruct a, (progr =? own); by eexists).
  cbn [mbind res_bind]. destruct b; [apply answers_same|].
  destruct (good_add_propdef F P d x pname value own flags Hg Hv Hn Hval) as (b & d' & -> & Hg').
  cbn [mbind res_bind]. by do 2 eexists.
Qed.

Lemma delete_prop_keeps x pname progr : nul_free pname -> answers_well (bf_delete_prop [Obj x; Str pname] progr d).
Proof.
  intros Hn. unfold bf_delete_prop. change (arg_obj _ 1) with (Ok x). change (arg_str _ 2) with (Ok pname).
  cbn [mbind res_bind]. destruct (valid d x) eqn:Hv; cbn [negb]; [|apply answers_same].
  apply (valid_iff F P d x Hg) in Hv. destruct (read_allows F P d Hg x progr FLAG_WRITE Hv) as [a ->].
  cbn [mbind res_bind]. destruct a; cbn [negb]; [|apply answers_same].
  destruct (good_delete_propdef F P d x pname Hg Hv Hn) as (b & d' & -> & Hg'). cbn [mbind res_bind]. by do 2 eexists.
Qed.

(** After it has been cleared, a property is clear. *)
Lemma clear_prop_keeps x pname progr : nul_free pname ->
  exists pk d', bf_clear_prop [Obj x; Str pname] progr d = Ok (pk, d') /\ good F P d' /\
    (pk = no_var_pack -> forall w, is_wizard d' w = Ok true ->
       bf_is_clear_prop [Obj x; Str pname] w d' = Ok (make_var_pack (Int 1), d')).
Proof.
  intros Hn. unfold bf_clear_prop. change (arg_obj _ 1) with (Ok x). change (arg_str _ 2) with (Ok pname).
  cbn [mbind res_bind].
  assert (Hno : forall e, exists pk d', Ok (make_error_pack e, d) = Ok (pk, d') /\ good F P d' /\
    (pk = no_var_pack -> forall w, is_wizard d' w = Ok true ->
       bf_is_clear_prop [Obj x; Str pname] w d' = Ok (make_var_pack (Int 1), d'))).
  { intros e. do 2 eexists. split; [done|]. by split. }
  destruct (valid d x) eqn:Hv; cbn [negb]; [|apply Hno]. apply (valid_iff F P d x Hg) in Hv.
  destruct (handle_Ok F P d Hg x pname Hv Hn) as (h & -> & Hh). cbn [mbind res_bind].
  destruct h as [[bp y|def y n]|]; cbn [handle_ok] in Hh; [apply Hno| |apply Hno].
  destruct Hh as (-> & Hb & p & Hs & Hc). pose proof Hv as [o Ho].
  destruct (slot_cell F P d Hg x n def p o Ho Hs) as (pv & Hpv & Hdef). cbn [db_property_owner].
  rewrite (slot_read F P d Hg x n o pv Ho Hpv). destruct (read_wizard F P d Hg progr) as [w ->]. cbn [mbind res_bind].
  assert (exists b, (if progr =? p_owner pv then Ok false else Ok (negb w)) = Ok b) as [b ->]
    by (destruct (progr =? p_owner pv); by eexists).
  cbn [mbind res_bind]. destruct b; [apply Hno|]. destruct (Z.eqb_spec def x) as [|Hne]; [apply Hno|].
  cbn [db_set_property_value].
  destruct (good_upd_slot F P d x n (fun pv => mkPval Clear (p_owner pv) (p_perms pv)) o pv Hg Ho Hpv)
    as (d' & -> & Hg' & _ & E); [by intros _; apply Hdef|]. cbn [mbind res_bind].
  do 2 eexists. split; [done|]. split; [done|]. intros _ u Hu. unfold bf_is_clear_prop.
  change (arg_obj _ 1) with (Ok x). change (arg_str _ 2) with (Ok pname). cbn [mbind res_bind].
  set (pv' := mkPval Clear (p_owner pv) (p_perms pv)) in *. set (o' := set_propval (<[n := pv']> (propval o)) o) in *.
  assert (Ho' : objects d' !! x = Some o') by (by rewrite E, lookup_insert_eq).
  assert (Hpv' : propval o' !! n = Some pv') by (apply list_lookup_insert_eq; by eapply lookup_lt_Some).
  rewrite (proj2 (valid_iff F P d' x Hg')) by (by eexists). cbn [negb].
  rewrite (handle_found F P d' Hg' x pname n def p); [|by eexists|done|done| |done].
  2: { by rewrite (cell_schema F P d d' x o _ Hg Ho Hg' E). }
  cbn [mbind res_bind]. destruct (read_prop_allows F P d' Hg' def x n o' pv' u PF_READ Ho' Hpv') as (a & -> & Ha).
  rewrite (Ha Hu). cbn [mbind res_bind negb db_property_value].
  rewrite (slot_read F P d' Hg' x n o' pv' Ho' Hpv'). done.
Qed.

Lemma is_clear_prop_keeps x pname progr : nul_free pname -> answers_well (bf_is_clear_prop [Obj x; Str pname] progr d).
Proof.
  intros Hn. unfold bf_is_clear_prop. change (arg_obj _ 1) with (Ok x). change (arg_str _ 2) with (Ok pname).
  cbn [mbind res_bind]. destruct (valid d x) eqn:Hv; cbn [negb]; [|apply answers_same].
  apply (valid_iff F P d x Hg) in Hv. destruct (handle_Ok F P d Hg x pname Hv Hn) as (h & -> & Hh).
  cbn [mbind res_bind]. destruct h as [[bp y|def y n]|]; cbn [handle_ok] in Hh; try apply answers_same.
  destruct Hh as (-> & _ & p & Hs & _). destruct Hv as [o Ho].
  destruct (slot_cell F P d Hg x n def p o Ho Hs) as (pv & Hpv & _).
  destruct (read_prop_allows F P d Hg def x n o pv progr PF_READ Ho Hpv) as (a & -> & _). cbn [mbind res_bind].
  destruct a; cbn [negb]; [|apply answers_same]. cbn [db_property_value].
  rewrite (slot_read F P d Hg x n o pv Ho Hpv). cbn [mbind res_bind]. apply answers_same.
Qed.

End safe.

(** C32: No call of the functions on properties faults or breaks the database, whatever the
    object, the name, the description of the property and the programmer; and a property
    that [clear_property] has cleared is clear. *)
Theorem prop_builtins_safe F P d x pname progr : good F P d -> nul_free pname ->
  answers_well F P (bf_properties [Obj x] progr d) /\
  answers_well F P (bf_prop_info [Obj x; Str pname] progr d) /\
  (forall value info, value <> Clear -> answers_well F P (bf_add_prop [Obj x; Str pname; value; info] progr d)) /\
  answers_well F P (bf_delete_prop [Obj x; Str pname] progr d) /\
  answers_well F P (bf_is_clear_prop [Obj x; Str pname] progr d) /\
  exists pk d', bf_clear_prop [Obj x; Str pname] progr d = Ok (pk, d') /\ good F P d' /\
    (pk = no_var_pack -> forall w, is_wizard d' w = Ok true ->
       bf_is_clear_prop [Obj x; Str pname] w d' = Ok (make_var_pack (Int 1), d')).
Proof.
  intros Hg Hn. split; [by apply properties_keeps|]. split; [by apply prop_info_keeps|].
  split; [intros; by apply add_prop_keeps|]. split; [by apply delete_prop_keeps|].
  split; [by apply is_clear_prop_keeps|by apply clear_prop_keeps].
Qed.

Lemma prop_builtins_safe_witness : exists d', bf_clear_prop [Obj 3; Str (lit "Q")] 1 sample = Ok (no_var_pack, d') /\
  good sample_family sample_place d'.
Proof.
  destruct (prop_builtins_safe sample_family sample_place sample 3 (lit "Q") 1 sample_good)
    as (_ & _ & _ & _ & _ & pk & d' & H & Hg & _).
  - apply (bool_decide_unpack _). vm_compute. exact I.
  - pose proof (f_equal pack_of H) as Hp. vm_compute in Hp. injection Hp as <-. exists d'.
    split; [exact H|exact Hg].
Defined.
