(* ===== verification/VerbBuiltinOps.v ===== *)
(** * Built-in functions on verbs: the theorems (src/verbs.c) *)

From S2P Require Import Prelude CStrings Values Lists Libc Links Db Properties Layout Tables Objects.
From S2P Require Import Sample PropertyOps RenameProp Reparent ObjectOps Renumber Words Preps Verbs VerbCache VerbOps.
From S2P Require Import Numbers ObjectBuiltins PropBuiltins VerbBuiltins Invariant Handlers PropBuiltinOps.

Open Scope Z_scope.

(** ** Descriptions *)

Lemma vf_letter_range c f : vf_letter c = Some f -> f ∈ [VF_READ; VF_WRITE; VF_EXEC; VF_DEBUG].
Proof. unfold vf_letter. repeat case_decide; intros [= <-]; set_solver. Qed.

Definition vf_closed : bool := forallb (fun n => forallb (fun f => (0 <=? Z.lor n f) && (Z.lor n f <? 16))
  [VF_READ; VF_WRITE; VF_EXEC; VF_DEBUG]) (seqZ 0 16).

Lemma vf_flags_range s flags : parse_flags vf_letter s 0 = Some flags -> 0 <= flags < 16.
Proof.
  apply (parse_flags_range vf_letter (fun n => 0 <= n < 16)); [|lia]. intros c f n Hc%vf_letter_range Hn.
  assert (H : vf_closed = true) by (vm_compute; reflexivity).
  assert (Hin : n ∈ seqZ 0 16) by (apply elem_of_seqZ; lia).
  pose proof (forallb_elem _ _ _ (forallb_elem _ _ _ H Hin) Hc) as Hb.
  apply andb_true_iff in Hb as [?%Z.leb_le ?%Z.ltb_lt]. lia.
Qed.

Lemma skip_spaces_nul_free s : nul_free s -> nul_free (skip_spaces s).
Proof.
  induction s as [|c s IH]; [done|]. intros Hs. cbn [skip_spaces]. case_decide; [|done].
  apply IH. by apply nul_free_cons in Hs as [_ ?].
Qed.

(** Names with no NUL; a preposition that does not start with a hash mark. *)
Definition good_names_of (info : Var) : Prop :=
  match info with List [_; _; Str names] => nul_free names | _ => True end.
Definition good_prep_of (spec : Var) : Prop :=
  match spec with List [_; Str s; _] => nul_free s /\ head s <> Some HASH | _ => True end.

Lemma validate_verb_info_Ok d info : good_names_of info ->
  match validate_verb_info d info with
  | inl e => e = E_TYPE \/ e = E_INVARG
  | inr (own, flags, names) => valid d own = true /\ 0 <= flags < 16 /\ nul_free names
  end.
Proof.
  unfold validate_verb_info, good_names_of. intros Hn.
  repeat match goal with |- context [match ?x with _ => _ end] => is_var x; destruct x end; try by left.
  destruct (valid d obj) eqn:E; cbn [negb]; [|by right].
  destruct (parse_flags vf_letter str 0) as [flags|] eqn:Ef; [|by right].
  apply skip_spaces_nul_free in Hn. destruct (skip_spaces str0) as [|c names]; [by right|].
  split; [done|]. split; [by apply (vf_flags_range str)|done].
Qed.

(** Matching a preposition always answers, but for a hash mark. *)
Lemma match_prep_Ok mx s : nul_free s -> head s <> Some HASH ->
  exists prep mx', db_match_prep mx s = Ok (prep, mx') /\ (prep = PREP_NONE \/ 0 <= prep < NPREPS).
Proof.
  intros Hs Hh. unfold db_match_prep. rewrite bool_decide_eq_false_2 by done.
  destruct (strtoimax s) as [num [|c rest]].
  - cbn [free_copy mbind res_bind]. do 2 eexists. split; [done|].
    destruct (isdigit (cur s)); cbn [negb orb]; [|by left].
    destruct (Z.geb_spec (wrap32 num mod 2 ^ 64) NPREPS) as [|Hlt]; [by left|right].
    assert (Hr : int_range 32 (wrap32 num)) by (apply swrap_range; lia). unfold int_range in Hr.
    change NPREPS with 15 in *. destruct (Z.le_gt_cases 0 (wrap32 num)).
    + rewrite Z.mod_small in Hlt by lia. lia.
    + rewrite <- (Z_mod_plus_full _ 1), Z.mod_small in Hlt by lia. lia.
  - pose proof (span_slash_nul_free s Hs) as Hp. destruct (argv_of_Ok mx (span_slash s).1 Hp) as [mx' ->].
    cbn [free_copy mbind res_bind]. do 2 eexists. split; [done|].
    destruct (find_prep_exact (tokens (span_slash s).1)) as [[H|(alias & H & _)] _];
      [by apply tokens_nul_free|by left|right; by apply (prep_range _ alias)].
Qed.

(** A hash mark reaches the bad [free_str]. *)
Lemma hash_prep mx s : nul_free s -> match_prep_spec mx (HASH :: s) = Fail Undefined.
Proof.
  intros Hs. unfold match_prep_spec.
  assert (Hne : forall w, w ∈ [lit "none"; lit "any"] -> (mystrcasecmp (HASH :: s) w =? 0) = false).
  { intros w Hw. apply Z.eqb_neq. rewrite mystrcasecmp_zero.
    - intros H. apply (f_equal head) in H.
      apply elem_of_cons in Hw as [->|Hw%list_elem_of_singleton]; [|subst w]; vm_compute in H; discriminate H.
    - apply nul_free_cons. split; [vm_compute; discriminate|done].
    - apply elem_of_cons in Hw as [->|Hw%list_elem_of_singleton]; [|subst w];
        apply (bool_decide_unpack _); vm_compute; exact I. }
  rewrite !Hne by set_solver. unfold db_match_prep. cbn [head]. rewrite bool_decide_eq_true_2 by done. cbn [tail].
  destruct (strtoimax s) as [num [|c rest]]; [done|].
  destruct (argv_of_Ok mx (span_slash s).1) as [mx' ->]; [by apply span_slash_nul_free|]. done.
Qed.

Lemma match_arg_spec_range s n : match_arg_spec s = Some n -> 0 <= n <= 2.
Proof. unfold match_arg_spec. repeat case_match; intros [= <-]; vm_compute; by split. Qed.

Lemma validate_verb_args_Ok mx spec : good_prep_of spec ->
  exists r mx', validate_verb_args mx spec = Ok (r, mx') /\
    match r with
    | inl e => e = E_TYPE \/ e = E_INVARG
    | inr (dobj, prep, iobj) => good_spec dobj prep iobj
    end.
Proof.
  unfold validate_verb_args, good_prep_of. intros Hp.
  assert (Htype : exists r mx', Ok (inl E_TYPE, mx) = Ok (r, mx') /\
    match r with
    | inl e => e = E_TYPE \/ e = E_INVARG
    | inr (dobj, prep, iobj) => good_spec dobj prep iobj
    end) by (do 2 eexists; split; [done|by left]).
  repeat match goal with |- context [match ?x with _ => _ end] => is_var x; destruct x end; try exact Htype.
  clear Htype. destruct Hp as [Hs Hh].
  destruct (match_arg_spec str) as [dobj|] eqn:E1; [|do 2 eexists; split; [done|by right]].
  apply match_arg_spec_range in E1.
  assert (exists p mx', match_prep_spec mx str0 = Ok (p, mx') /\ forall prep, p = Some prep -> PREP_ANY <= prep < NPREPS)
    as (p & mx' & -> & Hr).
  { unfold match_prep_spec. destruct (_ =? 0).
    { do 2 eexists. split; [done|]. intros ? [= <-]. by vm_compute. }
    destruct (_ =? 0).
    { do 2 eexists. split; [done|]. intros ? [= <-]. by vm_compute. }
    destruct (match_prep_Ok mx str0 Hs Hh) as (prep & mx' & -> & Hr). cbn [mbind res_bind].
    do 2 eexists. split; [done|]. unfold PREP_ANY. intros q. destruct (Z.eqb_spec prep PREP_NONE); intros [= <-]. lia. }
  cbn [mbind res_bind]. do 2 eexists. split; [done|]. destruct p as [prep|]; [|by right].
  destruct (match_arg_spec str1) as [iobj|] eqn:E3; [|by right]. apply match_arg_spec_range in E3.
  split; [done|]. split; [by apply Hr|done].
Qed.

(** ** Finding the verb *)

Lemma descriptor_cases desc : validate_verb_descriptor desc = E_NONE \/
  validate_verb_descriptor desc = E_INVARG \/ validate_verb_descriptor desc = E_TYPE.
Proof. destruct desc; cbn; try case_match; auto. Qed.

Section safe.
Context (numeric_names : bool) (same : positive -> bool).
Context (F P : forest) (d : db) (Hg : good F P d).
Local Abbreviation find := (find_described_verb numeric_names same d).

Lemma find_described_Ok x desc : is_Some (objects d !! x) -> validate_verb_descriptor desc = E_NONE ->
  find x desc = Ok NullHandle \/
  exists h o vd, find x desc = Ok (StaticHandle h) /\ good_handle d (StaticHandle h) h o vd /\ definer h = x.
Proof.
  intros Hx Hv. pose proof (good_props _ _ _ Hg) as Hp. pose proof (wdb_verbs _ _ _ (good_wf _ _ _ Hg)) as Hw.
  destruct desc; try discriminate Hv; cbn [find_described_verb].
  - destruct Hx as [o Ho]. unfold db_find_indexed_verb. rewrite (good_lookup F P d x Hg), Ho.
    cbn [deref mbind res_bind]. destruct (if u32 num =? 0 then None else _) as [v|] eqn:E; [right|by left].
    destruct (_ =? 0); [done|]. apply list_elem_of_lookup_2 in E.
    destruct (wv_exists d Hw x o v Ho E) as [vd Hvd]. rewrite (wf_id d (wp_table _ _ Hp) x o Ho).
    by exists (mkHandle x v), o, vd.
  - destruct (find_defined_Ok F P d Hg same x str numeric_names Hx) as (vh & H & Hh). 
    destruct vh as [|h|]; [by left| |done]. right. destruct Hh as (o & vd & Hh). exists h, o, vd.
    split; [done|]. split; [done|]. destruct Hx as [o' Ho']. unfold db_find_defined_verb in H.
    rewrite (good_lookup F P d x Hg), Ho' in H. cbn [deref mbind res_bind] in H.
    apply res_bind_Ok in H as ([v|] & _ & [= <-]). cbn. by apply (wf_id d (wp_table _ _ Hp)).
Qed.

(** ** Reading *)

Lemma read_verb h o vd null : good_handle d (StaticHandle h) h o vd -> get_verb d (StaticHandle h) null = Ok vd.
Proof. intros (_ & _ & _ & Hv). unfold get_verb. cbn [deref_handle mbind res_bind]. by rewrite Hv. Qed.

Lemma handle_verb_ok h o vd : good_handle d (StaticHandle h) h o vd -> verb_ok vd.
Proof. intros (_ & _ & _ & Hv). by apply (good_names _ _ _ Hg (verbdef h)). Qed.

Lemma read_verb_allows h o vd who f : good_handle d (StaticHandle h) h o vd ->
  exists b, db_verb_allows d (StaticHandle h) who f = Ok b /\ (is_wizard d who = Ok true -> b = true).
Proof.
  intros Hh. unfold db_verb_allows, db_verb_flags, db_verb_owner. rewrite !(read_verb h o vd _ Hh).
  cbn [fmap res_fmap mbind res_bind]. destruct (read_wizard F P d Hg who) as [w Hw]. rewrite Hw.
  destruct (negb _); [by exists true|]. destruct (who =? _); [by exists true|]. exists w. split; [done|].
  by intros [= ->].
Qed.

(** ** Functions on a described verb *)

Local Abbreviation well := (answers_well F P).

Lemma refuse_well e : well (refuse d e).
Proof. by do 2 eexists. Qed.
#[local] Hint Resolve refuse_well : core.

(** The descriptor's own errors come first. *)
Lemma descriptor_well desc k : (validate_verb_descriptor desc = E_NONE -> well k) ->
  well (match validate_verb_descriptor desc with E_NONE => k | e => refuse d e end).
Proof. destruct (descriptor_cases desc) as [E|[E|E]]; rewrite E; auto. Qed.

Lemma with_verb_well x desc k :
  (forall h o vd, good_handle d (StaticHandle h) h o vd -> definer h = x -> well (k (StaticHandle h))) ->
  well (with_verb numeric_names same d x desc (refuse d) k).
Proof.
  intros Hk. unfold with_verb. apply descriptor_well. intros Hd.
  destruct (valid d x) eqn:Hv; cbn [negb]; [|apply refuse_well]. apply (valid_iff F P d x Hg) in Hv.
  destruct (find_described_Ok x desc Hv Hd) as [->|(h & o & vd & -> & Hh & Hx)]; [apply refuse_well|].
  cbn [mbind res_bind]. by apply (Hk h o vd).
Qed.

Lemma verbs_well x progr : (forall o, objects d !! x = Some o -> Z.of_nat (length (verbdefs o)) < 2 ^ 31) ->
  well (bf_verbs [Obj x] progr d).
Proof.
  intros Hlen. unfold bf_verbs. change (arg_obj _ 1) with (Ok x). cbn [mbind res_bind].
  destruct (valid d x) eqn:Hv; cbn [negb]; [|apply refuse_well]. apply (valid_iff F P d x Hg) in Hv as [o Ho].
  destruct (read_allows F P d Hg x progr FLAG_READ) as [a ->]; [by eexists|]. cbn [mbind res_bind].
  destruct a; cbn [negb]; [|apply refuse_well]. unfold db_count_verbs, db_for_all_verbs.
  rewrite (good_lookup F P d x Hg), Ho. cbn [deref mbind res_bind].
  assert (Hall : forall vs r, (forall v, v ∈ vs -> is_Some (verbs d !! v)) ->
    exists r', for_all_verbs (verbs d) (fun r nm => (false, r ++ [Str nm])) r vs = Ok (false, r') /\
      length r' = (length r + length vs)%nat).
  { induction vs as [|v vs IH]; intros r Hvs; cbn [for_all_verbs length]; [by exists r; rewrite Nat.add_0_r|].
    destruct (Hvs v) as [vd ->]; [by left|]. cbn [deref mbind res_bind].
    destruct (IH (r ++ [Str (v_name vd)])) as (r' & -> & Hr); [intros w Hw; apply Hvs; by right|].
    exists r'. split; [done|]. rewrite Hr, length_app. cbn. lia. }
  destruct (Hall (verbdefs o) []) as (r & -> & Hr).
  { intros v. by apply (wv_exists d (wdb_verbs _ _ _ (good_wf _ _ _ Hg)) x o). }
  cbn [mbind res_bind length] in Hr |- *. unfold wrap32. rewrite swrap_id; [|lia|].
  - rewrite Hr, Z.eqb_refl. by do 2 eexists.
  - specialize (Hlen o Ho). unfold int_range. cbn in *. lia.
Qed.

Lemma add_verb_well mx x info spec progr : good_names_of info -> good_prep_of spec ->
  well (bf_add_verb mx [Obj x; info; spec] progr d).
Proof.
  intros Hi Hs. unfold bf_add_verb. change (arg_obj _ 1) with (Ok x). change (arg_var _ 2) with (Ok info).
  change (arg_var _ 3) with (Ok spec). cbn [mbind res_bind]. pose proof (validate_verb_info_Ok d info Hi) as Hinfo.
  destruct (validate_verb_info d info) as [e|[[own flags] names]]; [apply refuse_well|].
  destruct Hinfo as (_ & Hf & Hn). destruct (validate_verb_args_Ok mx spec Hs) as (r & mx' & -> & Hr).
  cbn [mbind res_bind]. destruct r as [e|[[dobj prep] iobj]]; [apply refuse_well|].
  destruct (valid d x) eqn:Hv; cbn [negb]; [|apply refuse_well]. apply (valid_iff F P d x Hg) in Hv.
  destruct (read_allows F P d Hg x progr FLAG_WRITE Hv) as [a ->]. destruct (read_wizard F P d Hg progr) as [w ->].
  cbn [mbind res_bind].
  assert (exists b, (if negb a then Ok true else if progr =? own then Ok false else Ok (negb w)) = Ok b) as [b ->]
    by (destruct a, (progr =? own); by eexists).
  cbn [mbind res_bind]. destruct b; [apply refuse_well|].
  destruct (good_add_verb F P d Hg x names own flags dobj prep iobj Hv Hn Hf Hr) as (n & d' & -> & Hg').
  cbn [mbind res_bind]. by do 2 eexists.
Qed.

Lemma delete_verb_well x desc progr : well (bf_delete_verb numeric_names same [Obj x; desc] progr d).
Proof.
  unfold bf_delete_verb. change (arg_obj _ 1) with (Ok x). change (arg_var _ 2) with (Ok desc).
  cbn [mbind res_bind]. apply descriptor_well. intros Hd.
  destruct (valid d x) eqn:Hv; cbn [negb]; [|apply refuse_well]. apply (valid_iff F P d x Hg) in Hv.
  destruct (read_allows F P d Hg x progr FLAG_WRITE Hv) as [a ->]. cbn [mbind res_bind].
  destruct a; cbn [negb]; [|apply refuse_well].
  destruct (find_described_Ok x desc Hv Hd) as [->|(h & o & vd & -> & Hh & Hx)]; [apply refuse_well|].
  cbn [mbind res_bind]. destruct (good_delete_verb F P d Hg h o vd Hh) as (d' & -> & Hg'). by do 2 eexists.
Qed.

(** Whoever may read the verb is told what it is. *)
Lemma verb_info_reads x desc h o vd : is_Some (objects d !! x) -> validate_verb_descriptor desc = E_NONE ->
  find x desc = Ok (StaticHandle h) -> good_handle d (StaticHandle h) h o vd ->
  forall who, exists b, (is_wizard d who = Ok true -> b = true) /\
    bf_verb_info numeric_names same [Obj x; desc] who d = Ok (if b then
      make_var_pack (List [Obj (v_owner vd); Str (unparse_flags vf_letters (Z.land (v_perms vd) PERMMASK));
                           Str (v_name vd)]) else make_error_pack E_PERM, d).
Proof.
  intros Hx Hd Hf Hh who. destruct (read_verb_allows h o vd who VF_READ Hh) as (b & Hb & Hw). exists b.
  split; [done|]. unfold bf_verb_info, with_verb. change (arg_obj _ 1) with (Ok x).
  change (arg_var _ 2) with (Ok desc). cbn [mbind res_bind]. rewrite Hd, (proj2 (valid_iff F P d x Hg) Hx).
  cbn [negb]. rewrite Hf. cbn [mbind res_bind]. rewrite Hb. cbn [mbind res_bind]. destruct b; [|done]. cbn [negb].
  unfold db_verb_owner, db_verb_flags, db_verb_names. by rewrite !(read_verb h o vd _ Hh).
Qed.

(** Either the description is refused, or it finds a verb. *)
Lemma with_verb_cases x desc :
  (forall k, exists e, with_verb numeric_names same d x desc (refuse d) k = refuse d e) \/
  exists h o vd, is_Some (objects d !! x) /\ validate_verb_descriptor desc = E_NONE /\
    find x desc = Ok (StaticHandle h) /\ good_handle d (StaticHandle h) h o vd.
Proof.
  unfold with_verb. destruct (descriptor_cases desc) as [E|[E|E]]; rewrite E; [|left; by eexists..].
  destruct (valid d x) eqn:Hv; cbn [negb]; [|left; by eexists]. apply (valid_iff F P d x Hg) in Hv.
  destruct (find_described_Ok x desc Hv E) as [->|(h & o & vd & Hf & Hh & _)]; [left; by eexists|].
  right. by exists h, o, vd.
Qed.

Lemma verb_info_well x desc progr : well (bf_verb_info numeric_names same [Obj x; desc] progr d).
Proof.
  destruct (with_verb_cases x desc) as [H|(h & o & vd & Hx & Hd & Hf & Hh)].
  - unfold bf_verb_info. change (arg_obj _ 1) with (Ok x). change (arg_var _ 2) with (Ok desc).
    cbn [mbind res_bind]. match goal with |- context [with_verb _ _ _ _ _ _ ?k] => destruct (H k) as [e He] end.
    rewrite He. apply refuse_well.
  - destruct (verb_info_reads x desc h o vd Hx Hd Hf Hh progr) as (b & _ & ->). by do 2 eexists.
Qed.

(** What the argument specifications print as. *)
Lemma unparse_arg_Ok n : 0 <= n <= 2 -> exists s, unparse_arg_spec n = Ok s /\ match_arg_spec s = Some n.
Proof.
  intros Hn. assert (n = 0 \/ n = 1 \/ n = 2) as [->|[->| ->]] by lia; eexists; (split; [reflexivity|]);
    vm_compute; reflexivity.
Qed.

Definition prep_prints (j : Z) : bool :=
  match db_unparse_prep j with
  | Ok s => negb (mystrcasecmp s (lit "none") =? 0) && negb (mystrcasecmp s (lit "any") =? 0)
  | Fail _ => false
  end.
Lemma prep_prints_all : forallb prep_prints (seqZ 0 NPREPS) = true.
Proof. vm_compute. reflexivity. Qed.

Lemma unparse_prep_Ok mx prep : PREP_ANY <= prep < NPREPS ->
  exists s mx', db_unparse_prep prep = Ok s /\ match_prep_spec mx s = Ok (Some prep, mx').
Proof.
  intros Hp. destruct (Z.lt_ge_cases prep 0) as [Hneg|Hpos].
  { unfold PREP_ANY in Hp. assert (prep = -2 \/ prep = -1) as [->| ->] by lia; do 2 eexists;
      (split; [reflexivity|]); vm_compute; reflexivity. }
  assert (Hin : prep ∈ seqZ 0 NPREPS) by (apply elem_of_seqZ; lia).
  pose proof (forallb_elem _ _ _ unparses_all Hin) as Hu. pose proof (forallb_elem _ _ _ prep_prints_all Hin) as Hn.
  unfold unparses in Hu. unfold prep_prints in Hn. destruct (db_unparse_prep prep) as [s|]; [|done].
  apply andb_true_iff in Hu as [(Hs & Hh & Hr)%bool_decide_eq_true Hu%Z.eqb_eq].
  destruct (db_match_prep_name mx s Hs Hh Hr) as [mx' Hm]. rewrite Hu in Hm. exists s, mx'. split; [done|].
  unfold match_prep_spec. apply andb_true_iff in Hn as [Hn1%negb_true_iff Hn2%negb_true_iff].
  rewrite Hn1, Hn2, Hm. cbn [mbind res_bind]. unfold PREP_NONE. destruct (Z.eqb_spec prep (-1)); [lia|done].
Qed.

Lemma verb_args_reads x desc h o vd : is_Some (objects d !! x) -> validate_verb_descriptor desc = E_NONE ->
  find x desc = Ok (StaticHandle h) -> good_handle d (StaticHandle h) h o vd ->
  forall who, exists b v, (is_wizard d who = Ok true -> b = true) /\
    bf_verb_args numeric_names same [Obj x; desc] who d =
      Ok (if b then make_var_pack v else make_error_pack E_PERM, d) /\
    forall mx, exists mx', validate_verb_args mx v = Ok (inr (verb_dobj vd, v_prep vd, verb_iobj vd), mx').
Proof.
  intros Hx Hd Hf Hh who. destruct (read_verb_allows h o vd who VF_READ Hh) as (b & Hb & Hw).
  destruct (handle_verb_ok h o vd Hh) as [_ Hperms Hdobj Hiobj Hprep].
  assert (Hpos : forall n, 0 <= Z.land n OBJMASK) by (intros n; change OBJMASK with (Z.ones 2);
    rewrite Z.land_ones by lia; apply Z.mod_pos_bound; lia).
  destruct (unparse_arg_Ok (verb_dobj vd)) as (s1 & E1 & M1); [split; [apply Hpos|done]|].
  destruct (unparse_arg_Ok (verb_iobj vd)) as (s3 & E3 & M3); [split; [apply Hpos|done]|].
  destruct (unparse_prep_Ok 0 (v_prep vd) Hprep) as (s2 & _ & E2 & _).
  exists b, (List [Str s1; Str s2; Str s3]). split; [done|]. split.
  - unfold bf_verb_args, with_verb. change (arg_obj _ 1) with (Ok x).
    change (arg_var _ 2) with (Ok desc). cbn [mbind res_bind]. rewrite Hd, (proj2 (valid_iff F P d x Hg) Hx).
    cbn [negb]. rewrite Hf. cbn [mbind res_bind]. rewrite Hb. cbn [mbind res_bind]. destruct b; [|done]. cbn [negb].
    unfold db_verb_arg_specs. rewrite (read_verb h o vd _ Hh). cbn [fmap res_fmap mbind res_bind].
    rewrite E1. cbn [mbind res_bind]. rewrite E2. cbn [mbind res_bind]. by rewrite E3.
  - intros mx. destruct (unparse_prep_Ok mx (v_prep vd) Hprep) as (s & mx' & E & M). rewrite E2 in E.
    injection E as <-. exists mx'. unfold validate_verb_args. rewrite M1, M. cbn [mbind res_bind]. by rewrite M3.
Qed.

Lemma verb_args_well x desc progr : well (bf_verb_args numeric_names same [Obj x; desc] progr d).
Proof.
  destruct (with_verb_cases x desc) as [H|(h & o & vd & Hx & Hd & Hf & Hh)].
  - unfold bf_verb_args. change (arg_obj _ 1) with (Ok x). change (arg_var _ 2) with (Ok desc).
    cbn [mbind res_bind]. match goal with |- context [with_verb _ _ _ _ _ _ ?k] => destruct (H k) as [e He] end.
    rewrite He. apply refuse_well.
  - destruct (verb_args_reads x desc h o vd Hx Hd Hf Hh progr) as (b & v & _ & -> & _). by do 2 eexists.
Qed.

End safe.

(** ** Changing *)

Section changes.
Context (numeric_names : bool) (same : positive -> bool).
Context (F P : forest) (d : db) (Hg : good F P d).
Local Abbreviation find := (find_described_verb numeric_names same d).

(** After a change of the verb, a wizard reads what was written, by any number that the verb
    had. *)
Definition info_told d' x h own flags names : Prop :=
  forall n w, validate_verb_descriptor (Int n) = E_NONE -> find x (Int n) = Ok (StaticHandle h) ->
    is_wizard d' w = Ok true ->
    bf_verb_info numeric_names same [Obj x; Int n] w d' =
      Ok (make_var_pack (List [Obj own; Str (unparse_flags vf_letters flags); Str names]), d').
Definition args_told d' x h spec : Prop :=
  forall n w, validate_verb_descriptor (Int n) = E_NONE -> find x (Int n) = Ok (StaticHandle h) ->
    is_wizard d' w = Ok true -> exists v,
    bf_verb_args numeric_names same [Obj x; Int n] w d' = Ok (make_var_pack v, d') /\
    forall mx, exists mx', validate_verb_args mx v = Ok (inr spec, mx').
Definition others_same d' h : Prop :=
  objects d' = objects d /\ forall v, v <> verbdef h -> verbs d' !! v = verbs d !! v.

(** Which of the outcomes of a change comes about; [done] is what success means. *)
Definition verb_outcome {A} x desc (valid_info : error + A) progr (done : handle -> A -> Prop) (e : error) d' : Prop :=
  match e with
  | E_NONE => exists h a, find x desc = Ok (StaticHandle h) /\ valid_info = inr a /\ others_same d' h /\ done h a
  | E_TYPE => d' = d /\ (validate_verb_descriptor desc = E_TYPE \/ valid_info = inl E_TYPE)
  | E_INVARG => d' = d
  | E_VERBNF => d' = d /\ find x desc = Ok NullHandle
  | E_PERM => d' = d /\ is_wizard d progr = Ok false
  | _ => False
  end.

Lemma same_number d' x n : good F P d' -> objects d' = objects d ->
  find_described_verb numeric_names same d' x (Int n) = find x (Int n).
Proof.
  intros Hg' E. cbn [find_described_verb]. unfold db_find_indexed_verb.
  by rewrite (good_lookup F P d x Hg), (good_lookup F P d' x Hg'), E.
Qed.

Lemma write_verb_info_Ok h o vd own flags names : good_handle d (StaticHandle h) h o vd -> 0 <= flags < 16 ->
  nul_free names ->
  exists d', (d ← db_set_verb_owner (StaticHandle h) own d;
              d ← db_set_verb_flags (StaticHandle h) flags d;
              d ← db_set_verb_names (StaticHandle h) names d; Ok (no_var_pack, d)) = Ok (no_var_pack, d') /\
    good F P d' /\ others_same d' h /\
    good_handle d' (StaticHandle h) h o (mkVerbdef names (v_program vd) own (reflags (v_perms vd) flags) (v_prep vd)).
Proof.
  intros Hh Hf Hn. unfold db_set_verb_owner.
  destruct (good_touch_verb F P d Hg h o vd (Panic "DB_SET_VERB_OWNER: Null handle!")
    (fun v => mkVerbdef (v_name v) (v_program v) own (v_perms v) (v_prep v)) Hh eq_refl)
    as (d1 & -> & Hg1 & Hh1 & O1 & V1). cbn [mbind res_bind].
  unfold db_set_verb_flags. set (vd1 := mkVerbdef _ _ _ _ _) in Hh1.
  assert (Hok1 : verb_ok vd1) by (destruct Hh1 as (_ & _ & _ & Hv); by apply (good_names _ _ _ Hg1 (verbdef h))).
  destruct (good_change_verb F P d1 Hg1 h o vd1 (Panic "DB_SET_VERB_FLAGS: Null handle!")
    (fun v => mkVerbdef (v_name v) (v_program v) (v_owner v)
       (wrap16 (Z.lor (Z.land (v_perms v) (Z.lnot PERMMASK)) flags)) (v_prep v)) Hh1)
    as (d2 & -> & Hg2 & Hh2 & O2 & V2); [by apply flagged_ok|]. cbn [mbind res_bind].
  unfold db_set_verb_names. set (vd2 := mkVerbdef _ _ _ _ _) in Hh2.
  assert (Hok2 : verb_ok vd2) by (destruct Hh2 as (_ & _ & _ & Hv); by apply (good_names _ _ _ Hg2 (verbdef h))).
  destruct (good_change_verb F P d2 Hg2 h o vd2 (Panic "DB_SET_VERB_NAMES: Null handle!")
    (fun v => mkVerbdef names (v_program v) (v_owner v) (v_perms v) (v_prep v)) Hh2)
    as (d3 & -> & Hg3 & Hh3 & O3 & V3); [by destruct Hok2|]. cbn [mbind res_bind].
  exists d3. split; [done|]. split; [done|]. split; [split|exact Hh3].
  - by rewrite O3, O2.
  - intros v Hv. by rewrite V3, V2, V1, !lookup_insert_ne by done.
Qed.

Lemma set_verb_info_Ok x desc info progr : good_names_of info ->
  exists e d', bf_set_verb_info numeric_names same [Obj x; desc; info] progr d = Ok (answer_pack e, d') /\
    good F P d' /\ verb_outcome x desc (validate_verb_info d info) progr
      (fun h '(own, flags, names) => info_told d' x h own flags names) e d'.
Proof.
  intros Hi. unfold bf_set_verb_info. change (arg_obj _ 1) with (Ok x). change (arg_var _ 2) with (Ok desc).
  change (arg_var _ 3) with (Ok info). cbn [mbind res_bind].
  destruct (descriptor_cases desc) as [E|[E|E]]; rewrite E;
    [|by exists E_INVARG, d|by exists E_TYPE, d; split; [done|]; split; [done|]; split; [done|left]].
  destruct (valid d x) eqn:Hv; cbn [negb]; [|by exists E_INVARG, d]. apply (valid_iff F P d x Hg) in Hv.
  pose proof (validate_verb_info_Ok d info Hi) as Hinfo.
  destruct (validate_verb_info d info) as [e|[[own flags] names]].
  { exists e, d. destruct Hinfo as [->| ->]; (split; [done|]); (split; [done|]); [|done]. split; [done|by right]. }
  destruct Hinfo as (_ & Hf & Hn).
  destruct (find_described_Ok numeric_names same F P d Hg x desc Hv E) as [Hfind|(h & o & vd & Hfind & Hh & Hx)]; rewrite Hfind.
  { by exists E_VERBNF, d. }
  cbn [mbind res_bind]. destruct (read_verb_allows F P d Hg h o vd progr VF_WRITE Hh) as (a & -> & Ha).
  destruct (read_wizard F P d Hg progr) as [w Hw]. rewrite Hw. cbn [mbind res_bind]. unfold db_verb_owner.
  rewrite (read_verb d h o vd _ Hh). cbn [fmap res_fmap mbind res_bind].
  assert (exists b, (if negb a then Ok true else if w then Ok false else Ok (negb (v_owner vd =? own))) = Ok b /\
     (b = true -> w = false)) as (b & -> & Hbw).
  { destruct a, w; cbn [negb]; [by exists false|by eexists| |by exists true]. by specialize (Ha Hw). }
  cbn [mbind res_bind]. destruct b.
  { exists E_PERM, d. split; [done|]. split; [done|]. split; [done|]. by rewrite Hw, Hbw. }
  destruct (write_verb_info_Ok h o vd own flags names Hh Hf Hn) as (d' & -> & Hg' & Hsame & Hh').
  exists E_NONE, d'. split; [done|]. split; [done|]. exists h, (own, flags, names).
  do 3 (split; [done|]). intros n u Hd Hnum Hu.
  destruct (handle_verb_ok F P d Hg h o vd Hh) as [_ Hperms _ _ _].
  destruct (reflags_spec (v_perms vd) flags Hperms Hf) as (_ & _ & _ & Hback).
  rewrite <- (same_number d' x n Hg' (proj1 Hsame)) in Hnum.
  assert (Hx' : is_Some (objects d' !! x)) by (by rewrite (proj1 Hsame)).
  destruct (verb_info_reads numeric_names same F P d' Hg' x (Int n) h o _ Hx' Hd Hnum Hh' u) as (b & Hb & ->). rewrite (Hb Hu). cbn [v_owner v_perms v_name]. by rewrite Hback.
Qed.

Lemma set_verb_args_Ok mx x desc spec progr : good_prep_of spec ->
  exists r mx' e d', validate_verb_args mx spec = Ok (r, mx') /\
    bf_set_verb_args numeric_names same mx [Obj x; desc; spec] progr d = Ok (answer_pack e, d') /\
    good F P d' /\ verb_outcome x desc r progr (fun h specs => args_told d' x h specs) e d'.
Proof.
  intros Hs. destruct (validate_verb_args_Ok mx spec Hs) as (r & mx' & Hvalid & Hr). exists r, mx'.
  unfold bf_set_verb_args. change (arg_obj _ 1) with (Ok x). change (arg_var _ 2) with (Ok desc).
  change (arg_var _ 3) with (Ok spec). cbn [mbind res_bind]. rewrite Hvalid.
  destruct (descriptor_cases desc) as [E|[E|E]]; rewrite E;
    [|by exists E_INVARG, d|by exists E_TYPE, d; do 2 (split; [done|]); split; [done|]; split; [done|left]].
  destruct (valid d x) eqn:Hv; cbn [negb]; [|by exists E_INVARG, d]. apply (valid_iff F P d x Hg) in Hv.
  cbn [mbind res_bind]. destruct r as [e|[[dobj prep] iobj]].
  { exists e, d. destruct Hr as [->| ->]; do 3 (split; [done|]); [|done]. split; [done|by right]. }
  destruct (find_described_Ok numeric_names same F P d Hg x desc Hv E) as [Hfind|(h & o & vd & Hfind & Hh & Hx)];
    rewrite Hfind; [by exists E_VERBNF, d|].
  cbn [mbind res_bind]. destruct (read_verb_allows F P d Hg h o vd progr VF_WRITE Hh) as (a & -> & Ha).
  cbn [mbind res_bind]. destruct a; cbn [negb].
  2: { exists E_PERM, d. do 4 (split; [done|]). destruct (read_wizard F P d Hg progr) as [[] Hw]; [|done].
       by specialize (Ha Hw). }
  destruct (handle_verb_ok F P d Hg h o vd Hh) as [Hname Hperms _ _ _].
  assert (Hmask : 0 <= Z.land (v_perms vd) PERMMASK < 16) by apply permmask_range.
  destruct (good_change_verb F P d Hg h o vd (Panic "DB_SET_VERB_ARG_SPECS: Null handle!")
    (fun v => mkVerbdef (v_name v) (v_program v) (v_owner v)
       (pack_perms (Z.land (v_perms v) PERMMASK) dobj iobj) (wrap16 prep)) Hh)
    as (d' & Hset & Hg' & Hh' & O' & V'); [by apply packed_ok|].
  unfold db_set_verb_arg_specs. rewrite Hset. cbn [mbind res_bind].
  exists E_NONE, d'. do 3 (split; [done|]). exists h, (dobj, prep, iobj). do 2 (split; [done|]). split.
  { split; [done|]. intros v Hne. by rewrite V', lookup_insert_ne. }
  intros n u Hd Hnum Hu. rewrite <- (same_number d' x n Hg' O') in Hnum.
  assert (Hx' : is_Some (objects d' !! x)) by (by rewrite O').
  destruct (verb_args_reads numeric_names same F P d' Hg' x (Int n) h o _ Hx' Hd Hnum Hh' u)
    as (b & v & Hb & H & Hback). exists v. rewrite (Hb Hu) in H. split; [done|]. intros mx0.
  destruct (Hback mx0) as [mx1 ->]. exists mx1. unfold verb_dobj, verb_iobj. cbn [v_perms v_prep].
  destruct Hr as (Hdobj & Hprep & Hiobj).
  destruct (packs_spec (Z.land (v_perms vd) PERMMASK) dobj iobj Hmask Hdobj Hiobj) as (_ & -> & -> & _).
  by rewrite prep_wrap.
Qed.

Lemma set_verb_code_well parse_list_as_program timed_out x desc code progr :
  answers_well F P (bf_set_verb_code numeric_names same parse_list_as_program timed_out
    [Obj x; desc; List code] progr d).
Proof.
  unfold bf_set_verb_code. change (arg_obj _ 1) with (Ok x). change (arg_var _ 2) with (Ok desc).
  change (arg_var _ 3) with (Ok (List code)). cbn [mbind res_bind]. destruct (forallb _ code); cbn [negb].
  2: { by do 2 eexists. }
  apply with_verb_well; [done|]. intros h o vd Hh Hx.
  assert (exists p, is_programmer d progr = Ok p) as [p ->].
  { unfold is_programmer, valid_with_flag. destruct (valid d progr) eqn:Ev; [|eauto].
    apply (valid_iff F P d progr Hg) in Ev as [op Hop]. unfold db_object_has_flag, get. rewrite Hop. cbn. eauto. }
  destruct (read_verb_allows F P d Hg h o vd progr VF_WRITE Hh) as (a & Ea & _). cbn [mbind res_bind].
  assert (exists b, (if negb p then Ok true else a ← db_verb_allows d (StaticHandle h) progr VF_WRITE; Ok (negb a)) = Ok b)
    as [b Eb] by (rewrite Ea; destruct p; cbn; by eexists).
  cbn [mbind res_bind] in Eb |- *. rewrite Eb. cbn [mbind res_bind].
  destruct b; [by do 2 eexists|]. destruct (parse_list_as_program code) as [[pr|] errors]; cbn [mbind res_bind].
  2: { by do 2 eexists. }
  destruct timed_out; cbn [mbind res_bind]; [by do 2 eexists|]. unfold db_set_verb_program.
  destruct (good_touch_verb F P d Hg h o vd (Panic "DB_SET_VERB_PROGRAM: Null handle!")
    (fun v => mkVerbdef (v_name v) (Some pr) (v_owner v) (v_perms v) (v_prep v)) Hh eq_refl)
    as (d1 & -> & Hg1 & _). cbn [mbind res_bind]. by do 2 eexists.
Qed.

Lemma verb_code_well unparse_program null_program x desc flags progr :
  answers_well F P (bf_verb_code numeric_names same unparse_program null_program (Obj x :: desc :: flags) progr d).
Proof.
  unfold bf_verb_code. change (arg_obj _ 1) with (Ok x). change (arg_var _ 2) with (Ok desc). cbn [mbind res_bind].
  apply with_verb_well; [done|]. intros h o vd Hh Hx.
  destruct (read_verb_allows F P d Hg h o vd progr VF_READ Hh) as (a & -> & _). cbn [mbind res_bind].
  destruct a; cbn [negb]; [|by do 2 eexists]. unfold db_verb_program. rewrite (read_verb d h o vd _ Hh).
  by do 2 eexists.
Qed.

End changes.

(** ** Properties *)


(** C33: No call of the functions on verbs faults or breaks the database, whatever the object,
    the description, the programmer, the compiler and the decompiler; but [add_verb] is not
    answered for a preposition that starts with a hash mark. *)
Theorem verb_builtins_safe numeric_names same F P d x desc progr : good F P d ->
  (forall o, objects d !! x = Some o -> Z.of_nat (length (verbdefs o)) < 2 ^ 31) ->
  answers_well F P (bf_verbs [Obj x] progr d) /\
  (forall mx info spec, good_names_of info -> good_prep_of spec ->
     answers_well F P (bf_add_verb mx [Obj x; info; spec] progr d)) /\
  answers_well F P (bf_delete_verb numeric_names same [Obj x; desc] progr d) /\
  answers_well F P (bf_verb_info numeric_names same [Obj x; desc] progr d) /\
  answers_well F P (bf_verb_args numeric_names same [Obj x; desc] progr d) /\
  (forall unparse_program null_program flags, answers_well F P
     (bf_verb_code numeric_names same unparse_program null_program (Obj x :: desc :: flags) progr d)) /\
  (forall parse_list_as_program timed_out code, answers_well F P
     (bf_set_verb_code numeric_names same parse_list_as_program timed_out [Obj x; desc; List code] progr d)) /\
  (forall mx own flags names iobj s, valid d own = true -> parse_flags vf_letter flags 0 <> None ->
     skip_spaces names <> [] -> nul_free s ->
     bf_add_verb mx [Obj x; List [Obj own; Str flags; Str names];
       List [Str (lit "this"); Str (HASH :: s); Str iobj]] progr d = Fail Undefined).
Proof.
  intros Hg Hlen. split; [by apply verbs_well|]. split; [by intros; apply add_verb_well|].
  split; [by apply delete_verb_well|]. split; [by apply verb_info_well|]. split; [by apply verb_args_well|].
  split; [intros; by apply verb_code_well|]. split; [intros; by apply set_verb_code_well|].
  intros mx own flags names iobj s Hv Hf Hnm Hs. unfold bf_add_verb. change (arg_obj _ 1) with (Ok x).
  change (arg_var ?l 2) with (Ok (List [Obj own; Str flags; Str names])).
  change (arg_var ?l 3) with (Ok (List [Str (lit "this"); Str (HASH :: s); Str iobj])).
  cbn [mbind res_bind validate_verb_info]. rewrite Hv. cbn [negb].
  destruct (parse_flags vf_letter flags 0) as [n|]; [|done]. destruct (skip_spaces names); [done|].
  cbn [validate_verb_args]. rewrite (hash_prep mx s Hs). done.
Qed.


Lemma verb_builtins_safe_witness : exists d',
  bf_delete_verb true (fun _ => false) [Obj 0; Str (lit "look")] 1 sample = Ok (no_var_pack, d') /\
  good sample_family sample_place d'.
Proof.
  destruct (verb_builtins_safe true (fun _ => false) sample_family sample_place sample 0 (Str (lit "look")) 1
    sample_good) as (_ & _ & (pk & d' & H & Hg) & _).
  - intros o Ho. vm_compute in Ho. injection Ho as <-. vm_compute. reflexivity.
  - pose proof (f_equal pack_of H) as Hp. vm_compute in Hp. injection Hp as <-. exists d'.
    split; [exact H|exact Hg].
Defined.
