(* ===== verification/Steps.v ===== *)
(** * Everything together: the database as a transition system

    A step is one call of a built-in function on objects, properties or verbs, whatever its
    arguments, or of an operation of the database that its callers allow.  Every database that steps lead to, from the empty one on, is
    well-formed, and no operation faults on it. *)

From stdpp Require Import relations.
From S2P Require Import Prelude CStrings Values Lists Libc Links Db Properties Layout Tables Objects.
From S2P Require Import Sample PropertyOps RenameProp Reparent ObjectOps Renumber Preps Verbs VerbCache VerbOps.
From S2P Require Import Numbers ObjectBuiltins PropBuiltins VerbBuiltins Invariant Handlers Recycle.
From S2P Require Import PropBuiltinOps VerbBuiltinOps.

Open Scope Z_scope.

(** ** Operations *)

(** How a verb that has been looked up changes. *)
Inductive verb_change :=
  | Delete
  | Names (names : cstr)
  | Flags (flags : Z)
  | ArgSpecs (dobj prep iobj : Z)
  | Owner (own : Z)
  | Program (program : positive).

Definition change_verb (c : verb_change) (vh : db_verb_handle) : db -> res db :=
  match c with
  | Delete => db_delete_verb vh
  | Names names => db_set_verb_names vh names
  | Flags flags => db_set_verb_flags vh flags
  | ArgSpecs dobj prep iobj => db_set_verb_arg_specs vh dobj prep iobj
  | Owner own => db_set_verb_owner vh own
  | Program program => db_set_verb_program vh program
  end.

(** How a property that has been looked up changes. *)
Inductive prop_change :=
  | Value (v : Var)
  | PropOwner (own : Z)
  | PropFlags (flags : Z).

Definition change_prop (c : prop_change) (h : db_prop_handle) : db -> res db :=
  match c with
  | Value v => db_set_property_value h v
  | PropOwner own => db_set_property_owner h own
  | PropFlags flags => db_set_property_flags h flags
  end.

(** The built-in functions on properties and on verbs that change the database. *)
Inductive prop_call :=
  | SetPropertyInfo (info : Var)
  | AddProperty (value info : Var)
  | DeleteProperty
  | ClearProperty.

Definition call_prop (c : prop_call) (x : Z) (pname : cstr) (progr : Z) : db -> res (package * db) :=
  match c with
  | SetPropertyInfo info => bf_set_prop_info [Obj x; Str pname; info] progr
  | AddProperty value info => bf_add_prop [Obj x; Str pname; value; info] progr
  | DeleteProperty => bf_delete_prop [Obj x; Str pname] progr
  | ClearProperty => bf_clear_prop [Obj x; Str pname] progr
  end.

Inductive verb_call :=
  | AddNewVerb (mx : nat) (info spec : Var)
  | DeleteVerb (desc : Var)
  | SetVerbInfo (desc info : Var)
  | SetVerbArgs (mx : nat) (desc spec : Var)
  | SetVerbCode (compile : list Var -> option positive * Var) (timed_out : bool) (desc : Var) (code : list Var).

Definition call_verb_function (c : verb_call) (numeric_names : bool) (same : positive -> bool) (x progr : Z)
    : db -> res (package * db) :=
  match c with
  | AddNewVerb mx info spec => bf_add_verb mx [Obj x; info; spec] progr
  | DeleteVerb desc => bf_delete_verb numeric_names same [Obj x; desc] progr
  | SetVerbInfo desc info => bf_set_verb_info numeric_names same [Obj x; desc; info] progr
  | SetVerbArgs mx desc spec => bf_set_verb_args numeric_names same mx [Obj x; desc; spec] progr
  | SetVerbCode compile timed_out desc code =>
      bf_set_verb_code numeric_names same compile timed_out [Obj x; desc; List code] progr
  end.

Inductive op :=
  | Create (room : bool) (garbage : Object) (args : list Var) (progr : Z)
  | MoveStep (room : bool) (returned : Var) (next what where_ progr : Z)
  | Chparent (what new progr : Z)
  | Recycle (room : bool) (x progr : Z)
  | RecycleAgain (room : bool) (x : Z)
  | SetPlayerFlag (x : Z) (v : Var) (progr : Z)
  | Renumber (x : Z)
  | AddPropdef (x : Z) (pname : cstr) (value : Var) (own pflags : Z)
  | DeletePropdef (x : Z) (pname : cstr)
  | RenamePropdef (x : Z) (old new : cstr)
  | ChangeProp (x : Z) (pname : cstr) (c : prop_change)
  | AddVerb (x : Z) (vnames : cstr) (own flags dobj prep iobj : Z)
  | ChangeVerb (same : positive -> bool) (x : Z) (vname : cstr) (allow_numbers : bool) (c : verb_change)
  | CallVerb (room : bool) (x : Z) (vname : cstr)
  | PropCall (c : prop_call) (x : Z) (pname : cstr) (progr : Z)
  | VerbCall (c : verb_call) (numeric_names : bool) (same : positive -> bool) (x progr : Z).

(** The database after the operation; a property or verb that is not found is left alone. *)
Definition exec (o : op) (d : db) : res db :=
  match o with
  | Create room garbage args progr => snd <$> bf_create room garbage args progr d
  | MoveStep room returned next what where_ progr => snd <$> bf_move_again room returned next (what, where_) progr d
  | Chparent what new progr => snd <$> bf_chparent [Obj what; Obj new] progr d
  | Recycle room x progr => snd <$> bf_recycle room [Obj x] progr d
  | RecycleAgain room x => snd <$> bf_recycle_again room x d
  | SetPlayerFlag x v progr => snd <$> bf_set_player_flag [Obj x; v] progr d
  | Renumber x => snd <$> db_renumber_object x d
  | AddPropdef x pname value own pflags => snd <$> db_add_propdef x pname value own pflags d
  | DeletePropdef x pname => snd <$> db_delete_propdef x pname d
  | RenamePropdef x old new => snd <$> db_rename_propdef x old new d
  | ChangeProp x pname c =>
      r ← db_find_property d x pname;
      match r with Some (h, _) => change_prop c h d | None => Ok d end
  | AddVerb x vnames own flags dobj prep iobj => snd <$> db_add_verb x vnames own flags dobj prep iobj d
  | ChangeVerb same x vname allow_numbers c =>
      vh ← db_find_defined_verb d same x vname allow_numbers;
      match vh with NullHandle => Ok d | _ => change_verb c vh d end
  | CallVerb room x vname => snd <$> call_verb room x vname d
  | PropCall c x pname progr => snd <$> call_prop c x pname progr d
  | VerbCall c numeric_names same x progr => snd <$> call_verb_function c numeric_names same x progr d
  end.

(** ** What the callers have checked *)

(** Built-in properties have their types, and where things are is not for them to say;
    only an inherited property may be cleared. *)
Definition settable (d : db) (x : Z) (pname : cstr) (c : prop_change) : Prop :=
  match c, find_builtin pname with
  | Value v, Some BP_NAME => exists s, v = Str s
  | Value v, Some BP_OWNER => exists y, v = Obj y
  | Value v, Some (BP_LOCATION | BP_CONTENTS) => False
  | Value v, Some _ => True
  | Value v, None => v = Clear -> ~ defines d pname x
  | _, b => b = None
  end.

(** Verbs have names, four flags and argument specifications of db.h. *)
Definition verb_settable (c : verb_change) : Prop :=
  match c with
  | Names names => nul_free names
  | Flags flags => 0 <= flags < 16
  | ArgSpecs dobj prep iobj => good_spec dobj prep iobj
  | _ => True
  end.

(** Strings have no NULs; the name of a waif property is not turned into another name; a new
    property has a value; and no preposition starts with a hash mark. *)
Definition good_prop_call (pname : cstr) (c : prop_call) : Prop :=
  match c with
  | SetPropertyInfo info => good_info pname info
  | AddProperty value _ => value <> Clear
  | _ => True
  end.
Definition good_verb_call (c : verb_call) : Prop :=
  match c with
  | AddNewVerb _ info spec => good_names_of info /\ good_prep_of spec
  | SetVerbInfo _ info => good_names_of info
  | SetVerbArgs _ _ spec => good_prep_of spec
  | _ => True
  end.

Definition allowed (d : db) (o : op) : Prop :=
  match o with
  | Create _ _ args _ => (exists p, args = [Obj p]) \/ exists p who, args = [Obj p; Obj who]
  | MoveStep _ _ next _ _ _ => 1 <= next <= 4
  | Chparent _ _ _ | Recycle _ _ _ | RecycleAgain _ _ | SetPlayerFlag _ _ _ => True
  | Renumber x => valid d x = true
  | AddPropdef x pname value _ _ => valid d x = true /\ nul_free pname /\ value <> Clear
  | DeletePropdef x pname => valid d x = true /\ nul_free pname
  | RenamePropdef x old new =>
      valid d x = true /\ nul_free old /\ nul_free new /\ no_waif_rename old new
  | ChangeProp x pname c => valid d x = true /\ nul_free pname /\ settable d x pname c
  | AddVerb x vnames _ flags dobj prep iobj =>
      valid d x = true /\ nul_free vnames /\ 0 <= flags < 16 /\ good_spec dobj prep iobj
  | ChangeVerb _ x _ _ c => valid d x = true /\ verb_settable c
  | CallVerb _ _ vname => nul_free vname
  | PropCall c _ pname _ => nul_free pname /\ good_prop_call pname c
  | VerbCall c _ _ _ _ => good_verb_call c
  end.

(** ** Each operation *)

Section keeping.
Context (F P : forest) (d : db) (Hg : good F P d).

Definition keeps (r : res db) : Prop := exists d', r = Ok d' /\ is_good d'.

Lemma create_keeps room garbage args progr : allowed d (Create room garbage args progr) ->
  keeps (exec (Create room garbage args progr) d).
Proof.
  intros Ha. assert (exists p who, args = [Obj p] /\ who = progr \/ args = [Obj p; Obj who]) as (p & who & Hargs).
  { destruct Ha as [[p ->]|(p & who & ->)]; [exists p, progr; by left|exists p, who; by right]. }
  destruct (create_args_Ok room garbage F P d args p who progr Hg Hargs) as (pk & data & d' & H & Hc).
  cbn [exec]. rewrite H. exists d'. split; [done|].
  destruct Hc as [(-> & _)|[(_ & Hg' & _) _]]; eauto.
Qed.

Lemma move_keeps room returned next what where_ progr : 1 <= next <= 4 ->
  keeps (exec (MoveStep room returned next what where_ progr) d).
Proof.
  intros Hn. destruct (move_step_Ok room F P d returned next what where_ progr Hg Hn)
    as (pk & data & d' & H & Hm & _).
  cbn [exec]. rewrite H. exists d'. split; [done|]. destruct Hm; eauto.
Qed.

Lemma chparent_keeps what new progr : keeps (exec (Chparent what new progr) d).
Proof.
  destruct (chparent_Ok F P d what new progr Hg) as (pk & d' & H & Hc). cbn [exec]. rewrite H.
  exists d'. split; [done|]. destruct Hc as [(_ & Hg' & _)|[-> _]]; eauto.
Qed.

Lemma recycled_good x pk data d' : recycled F P d x pk data d' -> is_good d'.
Proof. destruct 1; eauto. Qed.

Lemma recycle_again_keeps room x : keeps (exec (RecycleAgain room x) d).
Proof.
  destruct (recycle_moving_Ok room F P d x Hg) as (pk & data & d' & H & Hr).
  cbn [exec]. unfold bf_recycle_again. rewrite H. exists d'. split; [done|]. by apply recycled_good in Hr.
Qed.

Lemma set_player_flag_keeps x v progr : keeps (exec (SetPlayerFlag x v progr) d).
Proof.
  cbn [exec]. unfold bf_set_player_flag. change (arg_obj [Obj x; v] 1) with (Ok x).
  change (arg_var [Obj x; v] 2) with (Ok v). cbn [mbind res_bind].
  destruct (valid d x) eqn:Hv; cbn [negb]; [|exists d; eauto].
  apply (valid_iff F P d x Hg) in Hv. destruct (read_wizard F P d Hg progr) as [w ->]. cbn [mbind res_bind].
  destruct w; cbn [negb]; [|exists d; eauto].
  destruct (is_true v).
  - destruct (good_set_flag F P d x FLAG_USER Hg Hv) as (d' & -> & Hg'). exists d'. eauto.
  - destruct (good_clear_flag F P d x FLAG_USER Hg Hv) as (d' & -> & Hg'). exists d'. eauto.
Qed.

Lemma renumber_keeps x : valid d x = true -> keeps (exec (Renumber x) d).
Proof.
  intros Hv%(valid_iff F P d x Hg). destruct (good_renumber F P d x Hg Hv) as (n & d' & H & Hg').
  cbn [exec]. rewrite H. exists d'. eauto.
Qed.

(** *** Properties *)

Lemma set_flag_keeps x f v : is_Some (objects d !! x) -> keeps (set_flag_to x f v d).
Proof.
  intros Hx. unfold set_flag_to. destruct (is_true v).
  - destruct (good_set_flag F P d x f Hg Hx) as (d' & -> & Hg'). exists d'. eauto.
  - destruct (good_clear_flag F P d x f Hg Hx) as (d' & -> & Hg'). exists d'. eauto.
Qed.

Lemma read_builtin x bp : is_Some (objects d !! x) -> exists v, get_bi_value d bp x = Ok v.
Proof.
  intros Hx. pose proof Hx as [o Ho]. destruct (read_owner d x Hx) as [own Hown].
  destruct (proj1 (valid_place F P d x Hg) Hx) as [p Hp].
  destruct (proj1 (wf_dom P (wdb_place_forest _ _ _ (good_wf _ _ _ Hg)) x)) as [cs Hcs]; [by eexists|].
  assert (Hf : forall f, exists v, flag_value d x f = Ok v).
  { intros f. unfold flag_value, db_object_has_flag, get. rewrite Ho. cbn. by eexists. }
  destruct bp; cbn [get_bi_value]; try apply Hf.
  - unfold db_object_name, get. rewrite Ho. cbn. by eexists.
  - rewrite Hown. cbn. by eexists.
  - rewrite (read_location F P d Hg x p Hp). cbn. by eexists.
  - rewrite (good_contents F P d x cs Hg Hcs). cbn. by eexists.
Qed.

Lemma set_builtin_keeps x pname bp v : is_Some (objects d !! x) -> find_builtin pname = Some bp ->
  settable d x pname (Value v) -> keeps (db_set_property_value (BuiltIn bp x) v d).
Proof.
  intros Hx Hb Hs. unfold settable in Hs. rewrite Hb in Hs. cbn [db_set_property_value].
  destruct bp; try (by apply set_flag_keeps); try done.
  - destruct Hs as [s ->]. destruct (good_set_name F P d x s Hg Hx) as (d' & -> & Hg' & _). exists d'. eauto.
  - destruct Hs as [y ->]. destruct (good_set_owner F P d x y Hg Hx) as (d' & -> & Hg' & _). exists d'. eauto.
Qed.

Lemma change_prop_keeps x pname c : allowed d (ChangeProp x pname c) ->
  keeps (exec (ChangeProp x pname c) d).
Proof.
  intros (Hx%(valid_iff F P d x Hg) & Hn & Hs). cbn [exec]. destruct (find_builtin pname) as [bp|] eqn:Hb.
  - unfold db_find_property, find_property_handle. rewrite Hb. cbn [mbind res_bind].
    destruct (read_builtin x bp Hx) as [w ->]. cbn [mbind res_bind].
    destruct c as [v|own|fl]; [by apply (set_builtin_keeps x pname)|..];
      unfold settable in Hs; by rewrite Hb in Hs.
  - destruct (good_find_property F P d x pname Hg Hx Hn Hb) as (r & -> & Hr). cbn [mbind res_bind].
    destruct r as [[[bp y|def y n] w]|]; [done| |exists d; eauto].
    destruct Hr as (-> & o & pv & Ho & Hpv & Hdef).
    assert (Hupd : forall f, (p_var (f pv) = Clear -> (cur_length (propdefs o) <= n)%nat) -> keeps (upd_slot x n f d)).
    { intros f Hf. destruct (good_upd_slot F P d x n f o pv Hg Ho Hpv Hf) as (d' & -> & Hg' & _). exists d'. eauto. }
    assert (Hsame : p_var pv = Clear -> (cur_length (propdefs o) <= n)%nat).
    { intros E. destruct (decide (n < cur_length (propdefs o))%nat) as [Hlt|]; [|lia].
      by destruct (wp_clear _ _ (good_props _ _ _ Hg) x o n pv Ho Hpv Hlt). }
    destruct c as [v|own|fl]; cbn [change_prop db_set_property_value db_set_property_owner db_set_property_flags];
      apply Hupd; cbn; [|done..].
    intros E. unfold settable in Hs. rewrite Hb in Hs. specialize (Hs E).
    destruct (decide (n < cur_length (propdefs o))%nat) as [Hlt|]; [|lia]. by destruct Hs; apply Hdef.
Qed.

(** *** Verbs *)

Lemma add_verb_keeps x vnames own flags dobj prep iobj : allowed d (AddVerb x vnames own flags dobj prep iobj) ->
  keeps (exec (AddVerb x vnames own flags dobj prep iobj) d).
Proof.
  intros (Hx%(valid_iff F P d x Hg) & Hn & Hf & Hspec).
  destruct (good_add_verb F P d Hg x vnames own flags dobj prep iobj Hx Hn Hf Hspec) as (n & d' & H & Hg').
  cbn [exec]. rewrite H. exists d'. eauto.
Qed.

Lemma change_verb_keeps c h o vd : good_handle d (StaticHandle h) h o vd -> verb_settable c ->
  keeps (change_verb c (StaticHandle h) d).
Proof.
  intros Hh Hc. pose proof (good_wf _ _ _ Hg) as Hw.
  assert (Hok : verb_ok vd) by (destruct Hh as (_ & _ & _ & Hv); by apply (good_names _ _ _ Hg (verbdef h))).
  assert (Hchange : forall null f, verb_ok (f vd) ->
    keeps (upd_verb (StaticHandle h) null f (db_priv_affected_callable_verb_lookup d))).
  { intros null f Hf. destruct (good_change_verb F P d Hg h o vd null f Hh Hf) as (d' & -> & Hg' & _).
    exists d'. eauto. }
  assert (Htouch : forall null f, but_owner (f vd) = but_owner vd -> keeps (upd_verb (StaticHandle h) null f d)).
  { intros null f Hf. destruct (good_touch_verb F P d Hg h o vd null f Hh Hf) as (d' & -> & Hg' & _).
    exists d'. eauto. }
  destruct c as [|names|flags|dobj prep iobj|own|program]; cbn [change_verb];
    [|apply Hchange; by destruct Hok|by apply Hchange, flagged_ok| |by apply Htouch..].
  - destruct (good_delete_verb F P d Hg h o vd Hh) as (d' & -> & Hg'). exists d'. eauto.
  - apply Hchange. apply packed_ok; [by apply Hok|apply permmask_range|done].
Qed.

(** *** The built-in functions *)

Lemma answers_keep (r : res (package * db)) : answers_well F P r -> keeps (snd <$> r).
Proof. intros (pk & d' & -> & Hg'). exists d'. split; [done|]. by exists F, P. Qed.

Lemma call_prop_well c x pname progr : nul_free pname -> good_prop_call pname c ->
  answers_well F P (call_prop c x pname progr d).
Proof.
  intros Hn Hc. destruct c as [info|value info| |]; cbn [call_prop].
  - unfold bf_set_prop_info. change (arg_obj _ 1) with (Ok x). change (arg_str _ 2) with (Ok pname).
    change (arg_var _ 3) with (Ok info). cbn [mbind res_bind].
    destruct (set_prop_info_Ok F P d x pname info progr Hg Hn Hc) as (e & d' & -> & Hg' & _).
    by exists (answer_pack e), d'.
  - by apply add_prop_keeps.
  - by apply delete_prop_keeps.
  - destruct (clear_prop_keeps F P d Hg x pname progr Hn) as (pk & d' & H & Hg' & _). by exists pk, d'.
Qed.

Lemma call_verb_function_well c numeric_names same x progr : good_verb_call c ->
  answers_well F P (call_verb_function c numeric_names same x progr d).
Proof.
  intros Hc. destruct c as [mx info spec|desc|desc info|mx desc spec|compile timed_out desc code];
    cbn [call_verb_function].
  - destruct Hc. by apply add_verb_well.
  - by apply delete_verb_well.
  - destruct (set_verb_info_Ok numeric_names same F P d Hg x desc info progr Hc) as (e & d' & H & Hg' & _).
    by exists (answer_pack e), d'.
  - destruct (set_verb_args_Ok numeric_names same F P d Hg mx x desc spec progr Hc)
      as (r & mx' & e & d' & _ & H & Hg' & _). by exists (answer_pack e), d'.
  - by apply set_verb_code_well.
Qed.

End keeping.

(** ** Steps *)

Lemma exec_keeps F P d o : good F P d -> allowed d o -> keeps (exec o d).
Proof.
  intros Hg Ha. destruct o.
  - by apply (create_keeps F P).
  - by apply (move_keeps F P).
  - by apply (chparent_keeps F P).
  - destruct (recycle_first_Ok room F P d x progr Hg) as (pk & data & d' & H & Hc).
    cbn [exec]. rewrite H. exists d'. split; [done|].
    destruct Hc as [(-> & _)|(_ & d1 & _ & Hg1 & [(_ & _ & ->)|Hr])]; eauto using recycled_good.
  - by apply (recycle_again_keeps F P).
  - by apply (set_player_flag_keeps F P).
  - by apply (renumber_keeps F P).
  - destruct Ha as (Hx%(valid_iff F P d x Hg) & Hn & Hv).
    destruct (good_add_propdef F P d x pname value own pflags Hg Hx Hn Hv) as (b & d' & H & Hg').
    cbn [exec]. rewrite H. exists d'. eauto.
  - destruct Ha as (Hx%(valid_iff F P d x Hg) & Hn).
    destruct (good_delete_propdef F P d x pname Hg Hx Hn) as (b & d' & H & Hg').
    cbn [exec]. rewrite H. exists d'. eauto.
  - destruct Ha as (Hx%(valid_iff F P d x Hg) & Ho & Hn & Hw).
    destruct (good_rename_propdef F P d x old new Hg Hx Ho Hn Hw) as (b & d' & H & Hg').
    cbn [exec]. rewrite H. exists d'. eauto.
  - by apply (change_prop_keeps F P).
  - by apply (add_verb_keeps F P).
  - destruct Ha as (Hx%(valid_iff F P d x Hg) & Hc).
    destruct (find_defined_Ok F P d Hg same x vname allow_numbers Hx) as (vh & H & Hvh).
    cbn [exec]. rewrite H. cbn [mbind res_bind]. destruct vh as [|h|]; [exists d; eauto| |done].
    destruct Hvh as (o & vd & Hh). by apply (change_verb_keeps F P d Hg c h o vd).
  - destruct (call_verb_Ok F P d room x vname Hg Ha) as (e & d' & H & Hg' & _).
    cbn [exec]. rewrite H. exists d'. eauto.
  - destruct Ha as [Hn Hc]. by apply (answers_keep F P), call_prop_well.
  - by apply (answers_keep F P), call_verb_function_well.
Qed.

(** The server starts without objects. *)
Definition empty_db : db := mkDb ∅ 0 0 [] ∅ ∅ None 0 0 0 0.

Inductive step : db -> db -> Prop :=
  | step_op d o d' : allowed d o -> exec o d = Ok d' -> step d d'.

Lemma empty_good : is_good empty_db.
Proof.
  exists (mkForest ∅ ∅), (mkForest ∅ ∅). split.
  - apply db_ok_wf. vm_compute. reflexivity.
  - intros v vd. cbn. by rewrite lookup_empty.
  - apply wf_cache_empty. by left.
Qed.

Lemma step_keeps d d' : step d d' -> is_good d -> is_good d'.
Proof.
  intros [d0 o d1 Ha H] (F & P & Hg). destruct (exec_keeps F P d0 o Hg Ha) as (d2 & H2 & Hg2). congruence.
Qed.

Lemma reachable_good d : rtc step empty_db d -> is_good d.
Proof.
  intros Hr. pose proof empty_good as Hd. revert Hd. induction Hr as [|d1 d2 d3 H _ IH]; [done|]. intros Hd. by apply IH, (step_keeps d1).
Qed.

(** C1: In every database that a sequence of operations leads to from the empty one, the
    hierarchies of parents and places are forests whose links agree, the property tables fit
    the definitions, the lists of players and verbs are right and no cached verb is stale;
    and no operation that its callers allow faults there, so none is ever stuck. *)
Theorem reachable_databases_are_sound d : rtc step empty_db d ->
  is_good d /\ forall o, allowed d o -> exists d', exec o d = Ok d' /\ is_good d'.
Proof.
  intros Hr. pose proof (reachable_good d Hr) as (F & P & Hg). split; [by exists F, P|].
  intros o Ha. exact (exec_keeps F P d o Hg Ha).
Qed.

(** The programmer need not be an object to create the first one. *)
Lemma reachable_databases_are_sound_witness : exists d1 d2,
  exec (Create true junk [Obj NOTHING] 0) empty_db = Ok d1 /\
  exec (AddPropdef 0 (lit "colour") (Str (lit "red")) 0 5) d1 = Ok d2 /\
  rtc step empty_db d2 /\ is_good d2 /\ exists d3, exec (Chparent 0 NOTHING 0) d2 = Ok d3.
Proof.
  set (create := Create true junk [Obj NOTHING] 0).
  assert (Ha1 : allowed empty_db create) by (left; by exists NOTHING).
  destruct (proj2 (reachable_databases_are_sound empty_db (rtc_refl _ _)) create Ha1) as (d1 & H1 & _).
  assert (Hv : match exec create empty_db with Ok d => valid d 0 | Fail _ => false end = true)
    by (vm_compute; reflexivity).
  rewrite H1 in Hv. pose proof (rtc_once (R := step) _ _ (step_op _ _ _ Ha1 H1)) as Hr1.
  set (add := AddPropdef 0 (lit "colour") (Str (lit "red")) 0 5).
  assert (Ha2 : allowed d1 add).
  { split; [exact Hv|]. split; [apply (bool_decide_unpack _); vm_compute; exact I|discriminate]. }
  destruct (proj2 (reachable_databases_are_sound d1 Hr1) add Ha2) as (d2 & H2 & _).
  pose proof (rtc_r _ _ _ Hr1 (step_op _ _ _ Ha2 H2)) as Hr2.
  destruct (reachable_databases_are_sound d2 Hr2) as [Hg Hops].
  destruct (Hops (Chparent 0 NOTHING 0) I) as (d3 & H3 & _).
  exists d1, d2. split; [exact H1|]. split; [exact H2|]. split; [exact Hr2|]. split; [exact Hg|].
  exists d3. exact H3.
Defined.
