(* ===== verification/Validate.v ===== *)
(** * Checking the hierarchies of a database that has been read (src/db_file.c)

    [validate_hierarchies] repairs references to objects that do not exist, looks for
    cycles with two pointers of which one is twice as fast, and then compares the lists of
    children and contents with what the objects say.  It answers true exactly when the
    objects are two forests. *)

From stdpp Require Import finite.
From S2P Require Import Prelude CStrings Values Lists Links Db Properties Layout Tables Objects Sample.

Open Scope Z_scope.

(** ** The phases *)

Definition FLAG_FIRST_TEMP : Z := 14.

(** [CHECK(field, name)] of phase 1. *)
Definition check_field (d : db) (field : Object -> Z) (set : Z -> Object -> Object) (o : Object) : Object :=
  if negb (field o =? NOTHING) && negb (valid d (field o)) then set NOTHING o else o.

(** The body of phase 1; what is logged is left out. *)
Definition fix_object (d : db) (o : Object) : Object :=
  let o := if (location o =? NOTHING) && negb (next o =? NOTHING) then set_next NOTHING o else o in
  let o := check_field d parent set_parent o in
  let o := check_field d child set_child o in
  let o := check_field d sibling set_sibling o in
  let o := check_field d location set_location o in
  let o := check_field d contents set_contents o in
  check_field d next set_next o.

(** [for (oid = 0; oid < size; oid++) { o = dbpriv_find_object(oid); if (o) ... }], with
    [broken] and the database as state. *)
Fixpoint each_object (body : Z -> Object -> bool * db -> res (bool * db)) (oids : list Z) (s : bool * db)
    : res (bool * db) :=
  match oids with
  | [] => Ok s
  | oid :: oids =>
      s ← match dbpriv_find_object s.2 oid with Some o => body oid o s | None => Ok s end;
      each_object body oids s
  end.

Definition phase1 (oid : Z) (o : Object) (s : bool * db) : res (bool * db) :=
  d ← upd_object oid (fix_object s.2) s.2;
  Ok (s.1, d).

(** [dbpriv_find_object(x)->field]. *)
Definition follow (field : Object -> Z) (d : db) (x : Z) : res Z :=
  o ← deref (dbpriv_find_object d x);
  Ok (field o).

(** The loop of phase 2. *)
Fixpoint has_cycle (fuel : nat) (nx : Z -> res Z) (slower faster : Z) : res bool :=
  if faster =? NOTHING then Ok false else
  match fuel with
  | O => Fail OutOfFuel
  | S fuel =>
      faster ← nx faster;
      if faster =? NOTHING then Ok false
      else
        faster ← nx faster;
        slower ← nx slower;
        if faster =? slower then Ok true else has_cycle fuel nx slower faster
  end.

Definition temp_flags : Z := Z.shiftl 3 FLAG_FIRST_TEMP.

Definition phase2 (oid : Z) (o : Object) (s : bool * db) : res (bool * db) :=
  let '(broken, d) := s in
  let check field start := has_cycle (S (Z.to_nat (num_objects d))) (follow field d) start start in
  c1 ← check parent (parent o);
  c2 ← check sibling (child o);
  c3 ← check location (location o);
  c4 ← check next (contents o);
  d ← upd_object oid (fun o => set_flags (Z.lor (flags o) temp_flags) o) d;
  Ok (broken || c1 || c2 || c3 || c4, d).

(** [okid->flags &= ~(1<<(FLAG))]. *)
Definition clear_temp (bit : Z) (o : Object) : Object :=
  set_flags (Z.land (flags o) (Z.lnot (Z.shiftl 1 bit))) o.

(** [CHECK(up, down, down_name, across, FLAG)] of phase 3a, from [oidkid] on. *)
Fixpoint claim (fuel : nat) (L : Links Object) (bit oid oidkid : Z) (s : bool * db) : res (bool * db) :=
  if oidkid =? NOTHING then Ok s else
  match fuel with
  | O => Fail OutOfFuel
  | S fuel =>
      let '(broken, d) := s in
      okid ← deref (dbpriv_find_object d oidkid);
      if negb (up L okid =? oid) then claim fuel L bit oid (nxt L okid) (true, d)
      else
        d ← upd_object oidkid (clear_temp bit) d;
        claim fuel L bit oid (nxt L okid) (broken, d)
  end.

Definition phase3a (oid : Z) (o : Object) (s : bool * db) : res (bool * db) :=
  let fuel := S (Z.to_nat (num_objects s.2)) in
  s ← claim fuel family FLAG_FIRST_TEMP oid (child o) s;
  claim fuel place (FLAG_FIRST_TEMP + 1) oid (contents o) s.

(** [CHECK(up, up_name, down_name, FLAG)] of phase 3b. *)
Definition unclaimed (L : Links Object) (bit : Z) (o : Object) : bool :=
  negb (Z.land (flags o) (Z.shiftl 1 bit) =? 0) && negb (up L o =? NOTHING).

Definition phase3b (oid : Z) (o : Object) (s : bool * db) : res (bool * db) :=
  let '(broken, d) := s in
  d ← upd_object oid (fun o => set_flags (Z.land (flags o) (Z.lnot temp_flags)) o) d;
  Ok (broken || unclaimed family FLAG_FIRST_TEMP o || unclaimed place (FLAG_FIRST_TEMP + 1) o, d).

Definition validate_hierarchies (d : db) : res (bool * db) :=
  let size := db_last_used_objid d + 1 in
  s ← each_object phase1 (seqZ 0 size) (false, d);
  s ← each_object phase2 (seqZ 0 size) s;
  if (s.1 : bool) then Ok (false, s.2)
  else
    s ← each_object phase3a (seqZ 0 size) s;
    '(broken, d) ← each_object phase3b (seqZ 0 size) s;
    Ok (negb broken, d).

(** ** Finding cycles *)

Section cycles.
Context (nx : Z -> res Z) (D : list Z).
Hypothesis Hclosed : forall x, x ∈ D -> exists y, nx x = Ok y /\ (y = NOTHING \/ y ∈ D).
Hypothesis Hnothing : NOTHING ∉ D.

(** One step, which stays at the end, and the object after [k] steps. *)
Definition hop (x : Z) : Z := if decide (x = NOTHING) then NOTHING else match nx x with Ok y => y | Fail _ => NOTHING end.
Definition orbit (s : Z) (k : nat) : Z := Nat.iter k hop s.
Definition nx_opt (x : Z) : option Z := match nx x with Ok y => Some y | Fail _ => None end.

Lemma hop_Ok x : x ∈ D -> nx x = Ok (hop x) /\ (hop x = NOTHING \/ hop x ∈ D).
Proof.
  intros Hx. unfold hop. rewrite decide_False by (by intros ->).
  destruct (Hclosed x Hx) as (y & -> & Hy). done.
Qed.

Lemma orbit_S s k : orbit s (S k) = hop (orbit s k).
Proof. done. Qed.

Lemma orbit_add s j k : orbit s (j + k) = orbit (orbit s k) j.
Proof. unfold orbit. by rewrite Nat.iter_add. Qed.

Lemma orbit_end j : orbit NOTHING j = NOTHING.
Proof. induction j as [|j IH]; [done|]. rewrite orbit_S, IH. done. Qed.

Lemma orbit_ended s j k : (j <= k)%nat -> orbit s j = NOTHING -> orbit s k = NOTHING.
Proof. intros Hle H. replace k with ((k - j) + j)%nat by lia. by rewrite orbit_add, H, orbit_end. Qed.

Lemma orbit_in s k : s = NOTHING \/ s ∈ D -> orbit s k = NOTHING \/ orbit s k ∈ D.
Proof.
  intros Hs. induction k as [|k IH]; [done|]. rewrite orbit_S. destruct IH as [->|H]; [by left|].
  by apply hop_Ok.
Qed.

(** A chain ends when the orbit does. *)
Lemma orbit_path s k : s = NOTHING \/ s ∈ D -> orbit s k = NOTHING -> exists ls, path nx_opt s ls.
Proof.
  revert s. induction k as [|k IH]; intros s Hs Hk; [by exists []|].
  destruct (decide (s = NOTHING)) as [->|Hne]; [by exists []|]. destruct Hs as [|Hs]; [done|].
  destruct (hop_Ok s Hs) as [Hn Hin]. replace (S k) with (k + 1)%nat in Hk by lia. rewrite orbit_add in Hk.
  destruct (IH _ Hin Hk) as [ls Hls]. exists (s :: ls). cbn [path]. split; [done|]. split; [done|].
  exists (hop s). unfold nx_opt. by rewrite Hn.
Qed.

Lemma path_orbit s ls : path nx_opt s ls -> orbit s (length ls) = NOTHING.
Proof.
  revert s. induction ls as [|x ls IH]; intros s; cbn [path length]; [done|].
  intros (-> & Hne & n & Hn & H). replace (S (length ls)) with (length ls + 1)%nat by lia.
  rewrite orbit_add. change (orbit x 1) with (hop x). unfold hop. rewrite decide_False by done.
  unfold nx_opt in Hn. destruct (nx x); [|done]. injection Hn as ->. by apply IH.
Qed.

(** Coming back to the same place, one never ends. *)
Lemma orbit_periodic s p : (0 < p)%nat -> orbit s (p + p) = orbit s p -> orbit s p <> NOTHING ->
  forall n, orbit s n <> NOTHING.
Proof.
  intros Hp Hper Hne n Hn.
  assert (Hall : forall q, orbit s (q * p + p) = orbit s p).
  { induction q as [|q IH]; [done|]. replace (S q * p + p)%nat with (p + (q * p + p))%nat by lia.
    by rewrite orbit_add, IH, <- orbit_add. }
  apply Hne. rewrite <- (Hall n). apply (orbit_ended s n); [nia|done].
Qed.

(** An orbit that does not end repeats itself, and then the fast pointer meets the slow one. *)
Lemma orbit_meets s : s = NOTHING \/ s ∈ D -> (forall k, (k <= length D)%nat -> orbit s k <> NOTHING) ->
  exists m, (1 <= m <= length D)%nat /\ orbit s (m + m) = orbit s m.
Proof.
  intros Hs Hne. set (trace := orbit s <$> seq 0 (S (length D))).
  assert (Hin : trace ⊆ D).
  { intros x (k & -> & Hk%elem_of_seq)%list_elem_of_fmap.
    destruct (orbit_in s k Hs) as [H|]; [|done]. destruct (Hne k); [lia|done]. }
  destruct (list_pigeonhole _ _ Hin) as (i & j & x & Hij & Hi & Hj).
  { unfold trace. rewrite length_fmap, length_seq. lia. }
  unfold trace in Hi, Hj. rewrite list_lookup_fmap, fmap_Some in Hi, Hj.
  destruct Hi as (i' & [-> Hi]%lookup_seq & Hxi), Hj as (j' & [-> Hj]%lookup_seq & Hxj). cbn [Nat.add] in Hxi, Hxj.
  set (p := (j - i)%nat).
  assert (Hper : forall q k, orbit s (q * p + (k + i)) = orbit s (k + i)).
  { intros q k. induction q as [|q IH]; [done|].
    replace (S q * p + (k + i))%nat with ((q * p + k) + j)%nat by (unfold p; lia).
    rewrite orbit_add, <- Hxj, Hxi, <- orbit_add.
    replace (q * p + k + i)%nat with (q * p + (k + i))%nat by lia. done. }
  assert (Hm : exists q k, (1 <= q * p <= j)%nat /\ (q * p = k + i)%nat).
  { destruct (decide (i = 0)%nat) as [->|Hi0]; [exists 1%nat, (1 * p)%nat; unfold p; lia|].
    pose proof (Nat.div_mod (i + p - 1) p ltac:(unfold p; lia)) as Hdiv.
    pose proof (Nat.mod_upper_bound (i + p - 1) p ltac:(unfold p; lia)) as Hmod.
    exists ((i + p - 1) / p)%nat, ((i + p - 1) / p * p - i)%nat. unfold p in *. nia. }
  destruct Hm as (q & k & Hm & Hk). exists (q * p)%nat. split; [lia|]. rewrite Hk at 2 3. apply Hper.
Qed.

(** The loop ends within [length D + 1] turns and answers whether the orbit never ends. *)
Lemma has_cycle_from s fuel k : s = NOTHING \/ s ∈ D ->
  (forall j, (1 <= j <= k)%nat -> orbit s (j + j) <> orbit s j \/ orbit s (j + j) = NOTHING) ->
  (length D < fuel + k)%nat ->
  exists b, has_cycle fuel nx (orbit s k) (orbit s (k + k)) = Ok b /\
    (b = false <-> exists n, orbit s n = NOTHING).
Proof.
  intros Hs. revert k. induction fuel as [|fuel IH]; intros k Hno Hf; cbn [has_cycle];
    (destruct (Z.eqb_spec (orbit s (k + k)) NOTHING) as [E|Hne]; [exists false; split; [done|]; split; [by eauto|done]|]).
  - exfalso. destruct (orbit_meets s Hs) as (m & Hm & Heq).
    { intros j Hj H. apply Hne. by apply (orbit_ended s j); [lia|]. }
    destruct (Hno m ltac:(lia)) as [|H]; [done|]. apply Hne. apply (orbit_ended s (m + m)); [lia|done].
  - destruct (orbit_in s (k + k) Hs) as [|Hin]; [done|]. destruct (hop_Ok _ Hin) as [-> Hin1].
    cbn [mbind res_bind]. change (hop (orbit s (k + k))) with (orbit s (S (k + k))) in *.
    destruct (Z.eqb_spec (orbit s (S (k + k))) NOTHING) as [E|Hne1]; [exists false; split; [done|]; split; [by eauto|done]|].
    destruct Hin1 as [|Hin1]; [done|]. destruct (hop_Ok _ Hin1) as [-> Hin2]. cbn [mbind res_bind].
    assert (Hslow : orbit s k ∈ D).
    { destruct (orbit_in s k Hs) as [H|]; [|done]. destruct Hne. apply (orbit_ended s k); [lia|done]. }
    destruct (hop_Ok _ Hslow) as [-> _]. cbn [mbind res_bind].
    change (hop (orbit s k)) with (orbit s (S k)).
    replace (hop (orbit s (S (k + k)))) with (orbit s (S k + S k))
      by (replace (S k + S k)%nat with (S (S (k + k))) by lia; done).
    destruct (Z.eqb_spec (orbit s (S k + S k)) (orbit s (S k))) as [E|Hdiff].
    + exists true. split; [done|]. split; [done|]. intros [n Hn]. exfalso.
      apply (orbit_periodic s (S k)) with (n := n); [lia|done| |done].
      intros H. apply Hne1. apply (orbit_ended s (S k)); [lia|done].
    + apply IH; [|lia]. intros j Hj. destruct (decide (j = S k)) as [->|]; [by left|]. apply Hno. lia.
Qed.

Lemma has_cycle_Ok s fuel : s = NOTHING \/ s ∈ D -> (length D < fuel)%nat ->
  exists b, has_cycle fuel nx s s = Ok b /\ (b = false <-> exists ls, path nx_opt s ls).
Proof.
  intros Hs Hf. destruct (has_cycle_from s fuel 0 Hs) as (b & Hb & Hn); [lia|lia|].
  exists b. split; [exact Hb|]. rewrite Hn. split.
  - intros [n H]. by apply (orbit_path s n).
  - intros [ls H]. exists (length ls). by apply path_orbit.
Qed.

End cycles.

(** ** The loops *)

(** What holds before every turn of a loop holds after it. *)
Lemma each_object_rule (I : list Z -> bool -> db -> Prop) body oids b d :
  (forall seen x b d, I seen b d -> x ∈ oids -> x ∉ seen ->
     match dbpriv_find_object d x with
     | Some o => exists b' d', body x o (b, d) = Ok (b', d') /\ I (seen ++ [x]) b' d'
     | None => I (seen ++ [x]) b d
     end) ->
  NoDup oids -> I [] b d -> exists b' d', each_object body oids (b, d) = Ok (b', d') /\ I oids b' d'.
Proof.
  intros Hbody Hnd Hi.
  assert (Hgen : forall todo seen b d, oids = seen ++ todo -> I seen b d ->
    exists b' d', each_object body todo (b, d) = Ok (b', d') /\ I oids b' d'); [|by apply (Hgen oids [])].
  induction todo as [|x todo IH]; intros seen b0 d0 E Hs; cbn [each_object].
  { rewrite app_nil_r in E. subst seen. eauto. }
  assert (Hx : x ∈ oids) by (rewrite E; apply elem_of_app; right; apply list_elem_of_here).
  assert (Hn : x ∉ seen).
  { rewrite E in Hnd. apply NoDup_app in Hnd as (_ & Hnd & _). intros H. apply (Hnd x H), list_elem_of_here. }
  specialize (Hbody seen x b0 d0 Hs Hx Hn). cbn [snd].
  destruct (dbpriv_find_object d0 x) as [o|].
  - destruct Hbody as (b1 & d1 & -> & H1). cbn [mbind res_bind].
    apply (IH (seen ++ [x])); [by rewrite <- app_assoc|done].
  - cbn [mbind res_bind]. apply (IH (seen ++ [x])); [by rewrite <- app_assoc|done].
Qed.

(** Objects are numbered within the table. *)
Definition in_table (d : db) : Prop := forall x, is_Some (objects d !! x) -> 0 <= x < num_objects d.

Lemma find_in_table d x : in_table d -> dbpriv_find_object d x = objects d !! x.
Proof.
  intros Ht. unfold dbpriv_find_object. destruct (objects d !! x) eqn:E.
  - pose proof (Ht x ltac:(eauto)). destruct (Z.ltb_spec x 0); [lia|]. destruct (Z.geb_spec x (num_objects d)); [lia|done].
  - by destruct (_ || _).
Qed.

Lemma in_table_alike d objs : in_table d -> (forall x, is_Some (objs !! x) -> is_Some (objects d !! x)) ->
  in_table (with_objects objs d).
Proof. intros Ht Ho x Hx. by apply Ht, Ho. Qed.

Lemma seen_other {B} (a b : B) (x y : Z) seen : y <> x ->
  (if decide (y ∈ seen ++ [x]) then a else b) = if decide (y ∈ seen) then a else b.
Proof.
  intros Hy. assert (H : y ∈ seen ++ [x] <-> y ∈ seen) by (rewrite elem_of_app, list_elem_of_singleton; tauto).
  repeat case_decide; tauto.
Qed.

(** *** Phase 1 *)

(** A turn of phase 1 changes no object's validity. *)
Lemma fix_object_alike d d' o : (forall x, valid d' x = valid d x) -> fix_object d' o = fix_object d o.
Proof. intros H. unfold fix_object, check_field. by rewrite !H. Qed.

Lemma phase1_Ok d : in_table d -> forall b, exists d1,
  each_object phase1 (seqZ 0 (num_objects d)) (b, d) = Ok (b, d1) /\
  d1 = with_objects (fix_object d <$> objects d) d.
Proof.
  intros Ht b.
  destruct (each_object_rule (fun seen b' d' => b' = b /\ exists objs, d' = with_objects objs d /\
    forall x, objs !! x = (if decide (x ∈ seen) then fix_object d else fun o => o) <$> objects d !! x)
    phase1 (seqZ 0 (num_objects d)) b d) as (b' & d' & H & -> & objs & -> & Hobjs).
  - intros seen x b0 d0 (-> & objs & -> & Ho) Hx Hn.
    assert (Hdom : forall y, is_Some (objs !! y) <-> is_Some (objects d !! y)) by (intros y; by rewrite Ho, fmap_is_Some).
    assert (Ht' : in_table (with_objects objs d)) by (apply in_table_alike; [done|intros y; apply Hdom]).
    rewrite (find_in_table _ x Ht'). cbn [objects with_objects].
    destruct (objs !! x) as [o|] eqn:Eo.
    + do 2 eexists. split.
      { unfold phase1. cbn [fst snd]. unfold upd_object, upd, get. cbn [objects with_objects]. rewrite Eo.
        cbn [deref mbind res_bind]. reflexivity. }
      split; [done|]. eexists. split; [reflexivity|]. intros y.
      assert (Hv : forall z, valid (with_objects objs d) z = valid d z).
      { intros z. unfold valid. apply bool_decide_ext. rewrite !find_in_table by done. apply Hdom. }
      destruct (decide (y = x)) as [->|Hy].
      * rewrite lookup_insert_eq, decide_True by (apply elem_of_app; right; apply list_elem_of_here).
        rewrite Ho, decide_False in Eo by done. destruct (objects d !! x) as [o'|]; [|done]. injection Eo as ->.
        cbn. f_equal. by apply fix_object_alike.
      * rewrite lookup_insert_ne, Ho by done. by rewrite seen_other.
    + split; [done|]. eexists. split; [reflexivity|]. intros y. rewrite Ho.
      destruct (decide (y = x)) as [->|Hy].
      * rewrite Ho in Eo. destruct (objects d !! x); [|done]. by destruct (decide (x ∈ seen)).
      * by rewrite seen_other.
  - apply NoDup_seqZ.
  - split; [done|]. exists (objects d). split; [by destruct d|]. intros x.
    rewrite decide_False by apply not_elem_of_nil. by destruct (objects d !! x).
  - eexists. split; [exact H|]. f_equal. apply map_eq. intros x. rewrite Hobjs, lookup_fmap.
    destruct (objects d !! x) as [o|] eqn:E; [|done]. rewrite decide_True; [done|].
    apply elem_of_seqZ. pose proof (Ht x ltac:(eauto)). lia.
Qed.

(** ** Flags

    From here on only flags change. *)

Definition flagged (fl : Z -> Z) (d : db) : db :=
  with_objects (map_imap (fun x o => Some (set_flags (fl x) o)) (objects d)) d.

Lemma flagged_lookup fl d x : objects (flagged fl d) !! x = set_flags (fl x) <$> objects d !! x.
Proof. cbn. rewrite map_lookup_imap. by destruct (objects d !! x). Qed.

Lemma flagged_in_table fl d : in_table d -> in_table (flagged fl d).
Proof. intros Ht. apply in_table_alike; [done|]. intros x. change (is_Some (objects (flagged fl d) !! x) -> is_Some (objects d !! x)).
  by rewrite flagged_lookup, fmap_is_Some. Qed.

Lemma flagged_find fl d x : in_table d -> dbpriv_find_object (flagged fl d) x = set_flags (fl x) <$> objects d !! x.
Proof. intros Ht. by rewrite (find_in_table _ x (flagged_in_table fl d Ht)), flagged_lookup. Qed.

Lemma flagged_ext fl fl' d : (forall x, is_Some (objects d !! x) -> fl x = fl' x) -> flagged fl d = flagged fl' d.
Proof.
  intros H. unfold flagged. f_equal. apply map_eq. intros x. rewrite !map_lookup_imap.
  destruct (objects d !! x) as [o|] eqn:E; [|done]. cbn. by rewrite H by eauto.
Qed.

Definition flags_of (d : db) (x : Z) : Z := default 0 (flags <$> objects d !! x).

Lemma flagged_self d : flagged (flags_of d) d = d.
Proof.
  unfold flagged. transitivity (with_objects (objects d) d); [|by destruct d]. f_equal. apply map_eq. intros x.
  rewrite map_lookup_imap. unfold flags_of. destruct (objects d !! x) as [o|]; [|done]. by destruct o.
Qed.

Lemma flagged_upd fl d x (g : Z -> Z) : is_Some (objects d !! x) ->
  upd_object x (fun o => set_flags (g (flags o)) o) (flagged fl d)
  = Ok (flagged (fun y => if decide (y = x) then g (fl x) else fl y) d).
Proof.
  intros [o Ho]. unfold upd_object, upd, get. rewrite flagged_lookup, Ho. cbn [fmap option_fmap option_map deref mbind res_bind].
  f_equal. match goal with |- with_objects ?m _ = _ =>
    assert (E : m = objects (flagged (fun y => if decide (y = x) then g (fl x) else fl y) d)) end.
  { apply map_eq. intros y. rewrite flagged_lookup. destruct (decide (y = x)) as [->|Hy].
    - by rewrite lookup_insert_eq, Ho.
    - by rewrite lookup_insert_ne, flagged_lookup. }
  by rewrite E.
Qed.

(** *** Phase 2 *)

(** The fields refer to objects of the table. *)
Definition closed (d : db) : Prop := forall x o field, objects d !! x = Some o ->
  field ∈ [parent; child; sibling; location; contents; next] -> field o = NOTHING \/ is_Some (objects d !! field o).

Definition chain (field : Object -> Z) (d : db) : Z -> list Z -> Prop := path (fun x => field <$> objects d !! x).

Definition follows_flags (field : Object -> Z) : Prop := forall fl o, field (set_flags fl o) = field o.

Lemma follow_flagged field fl d x : follows_flags field -> in_table d ->
  follow field (flagged fl d) x = deref (field <$> objects d !! x).
Proof.
  intros Hf Ht. unfold follow. rewrite flagged_find by done. destruct (objects d !! x); [|done]. cbn. by rewrite Hf.
Qed.

Lemma check_cycle_Ok field fl d s : follows_flags field -> in_table d -> closed d ->
  field ∈ [parent; child; sibling; location; contents; next] -> s = NOTHING \/ is_Some (objects d !! s) ->
  exists b, has_cycle (S (Z.to_nat (num_objects d))) (follow field (flagged fl d)) s s = Ok b /\
    (b = false <-> exists ls, chain field d s ls).
Proof.
  intros Hf Ht Hc Hin Hs.
  set (D := List.filter (fun x => bool_decide (is_Some (objects d !! x))) (seqZ 0 (num_objects d))).
  assert (HD : forall x, x ∈ D <-> is_Some (objects d !! x)).
  { intros x. unfold D. rewrite list_elem_of_In, filter_In, bool_decide_eq_true, <- list_elem_of_In, elem_of_seqZ.
    split; [by intros [_ ?]|]. intros Hx. split; [|done]. pose proof (Ht x Hx). lia. }
  destruct (has_cycle_Ok (follow field (flagged fl d)) D) with (s := s) (fuel := S (Z.to_nat (num_objects d)))
    as (b & Hb & Hend).
  - intros x [o Ho]%HD. rewrite follow_flagged by done. rewrite Ho. exists (field o). split; [done|].
    rewrite HD. by apply (Hc x o).
  - rewrite HD. intros H%Ht. unfold NOTHING in H. lia.
  - by rewrite HD.
  - unfold D. pose proof (filter_length_le (fun x => bool_decide (is_Some (objects d !! x))) (seqZ 0 (num_objects d))) as H.
    rewrite length_seqZ in H. lia.
  - exists b. split; [exact Hb|]. rewrite Hend.
    assert (E : forall ls, path (nx_opt (follow field (flagged fl d))) s ls <-> chain field d s ls).
    { intros ls. assert (H : forall x, nx_opt (follow field (flagged fl d)) x = field <$> objects d !! x).
      { intros x. unfold nx_opt. rewrite follow_flagged by done. by destruct (objects d !! x). }
      split; apply path_ext; intros x _; by rewrite H. }
    split; intros [ls H]; exists ls; by apply E.
Qed.

(** None of the four chains of an object goes round in a circle. *)
Definition chains_end (d : db) (o : Object) : Prop :=
  (exists ls, chain parent d (parent o) ls) /\ (exists ls, chain sibling d (child o) ls) /\
  (exists ls, chain location d (location o) ls) /\ (exists ls, chain next d (contents o) ls).

Lemma phase2_body x o fl b d : in_table d -> closed d -> objects d !! x = Some o ->
  exists c, phase2 x (set_flags (fl x) o) (b, flagged fl d)
    = Ok (b || c, flagged (fun y => if decide (y = x) then Z.lor (fl x) temp_flags else fl y) d) /\
    (c = false <-> chains_end d o).
Proof.
  intros Ht Hc Ho. unfold phase2. cbn [parent child location contents set_flags]. change (num_objects (flagged fl d)) with (num_objects d).
  assert (Hfield : forall field, field ∈ [parent; child; sibling; location; contents; next] ->
    field o = NOTHING \/ is_Some (objects d !! field o)) by (intros field; by apply (Hc x o)).
  destruct (check_cycle_Ok parent fl d (parent o)) as (c1 & -> & H1); [done..|set_solver|apply Hfield; set_solver|].
  destruct (check_cycle_Ok sibling fl d (child o)) as (c2 & -> & H2); [done..|set_solver|apply Hfield; set_solver|].
  destruct (check_cycle_Ok location fl d (location o)) as (c3 & -> & H3); [done..|set_solver|apply Hfield; set_solver|].
  destruct (check_cycle_Ok next fl d (contents o)) as (c4 & -> & H4); [done..|set_solver|apply Hfield; set_solver|].
  cbn [mbind res_bind]. rewrite (flagged_upd fl d x (fun f => Z.lor f temp_flags)) by eauto. cbn [mbind res_bind].
  exists (c1 || c2 || c3 || c4). split; [by rewrite !orb_assoc|]. unfold chains_end. rewrite <- H1, <- H2, <- H3, <- H4.
  rewrite !orb_false_iff. tauto.
Qed.

Lemma phase2_Ok d : in_table d -> closed d -> exists b,
  each_object phase2 (seqZ 0 (num_objects d)) (false, d) =
    Ok (b, flagged (fun x => Z.lor (flags_of d x) temp_flags) d) /\
  (b = false <-> forall x o, objects d !! x = Some o -> chains_end d o).
Proof.
  intros Ht Hc.
  destruct (each_object_rule (fun seen b d' => exists fl, d' = flagged fl d /\
    (forall x, is_Some (objects d !! x) ->
       fl x = if decide (x ∈ seen) then Z.lor (flags_of d x) temp_flags else flags_of d x) /\
    (b = false <-> forall x o, x ∈ seen -> objects d !! x = Some o -> chains_end d o))
    phase2 (seqZ 0 (num_objects d)) false d) as (b & d' & H & fl & -> & Hfl & Hb).
  - intros seen x b d0 (fl & -> & Hfl & Hb) Hx Hn. rewrite flagged_find by done.
    destruct (objects d !! x) as [o|] eqn:Ho; cbn [fmap option_fmap option_map].
    + destruct (phase2_body x o fl b d Ht Hc Ho) as (c & -> & Hends). do 2 eexists. split; [done|].
      eexists. split; [done|]. split.
      * intros y Hy. destruct (decide (y = x)) as [->|Hyx].
        -- rewrite decide_True by (apply elem_of_app; right; apply list_elem_of_here).
           by rewrite (Hfl x), decide_False.
        -- rewrite seen_other by done. by apply Hfl.
      * rewrite orb_false_iff, Hb, Hends. split.
        -- intros [Hall Hlast] y oy [Hy|Hy%list_elem_of_singleton]%elem_of_app Hoy; [by apply (Hall y)|congruence].
        -- intros Hall. split; [intros y oy Hy; apply (Hall y); apply elem_of_app; by left|].
           apply (Hall x); [apply elem_of_app; right; apply list_elem_of_here|done].
    + exists fl. split; [done|]. split.
      * intros y Hy. rewrite seen_other by (intros ->; rewrite Ho in Hy; by destruct Hy). by apply Hfl.
      * rewrite Hb. split; intros Hall y oy.
        -- intros [Hy|Hy%list_elem_of_singleton]%elem_of_app Hoy; [by apply (Hall y)|congruence].
        -- intros Hy. apply Hall, elem_of_app. by left.
  - apply NoDup_seqZ.
  - exists (flags_of d). split; [by rewrite flagged_self|]. split.
    + intros x _. by rewrite decide_False by apply not_elem_of_nil.
    + split; [|done]. intros _ x o Hx. by apply elem_of_nil in Hx.
  - exists b. split.
    + rewrite H. f_equal. f_equal. apply flagged_ext. intros x Hx. rewrite Hfl by done.
      rewrite decide_True; [done|]. apply elem_of_seqZ. pose proof (Ht x Hx). lia.
    + rewrite Hb. split; [|by intros Hall x o _; apply Hall]. intros Hall x o Ho. apply (Hall x o); [|done].
      apply elem_of_seqZ. pose proof (Ht x ltac:(eauto)). lia.
Qed.

(** *** Phase 3 *)

Definition up_of (L : Links Object) (d : db) (x : Z) : Z := from_option (up L) NOTHING (objects d !! x).

Lemma claim_Ok L bit oid d : follows_flags (up L) -> follows_flags (nxt L) -> in_table d ->
  forall ls s fuel b fl, path (nxts L (objects d)) s ls -> (length ls < fuel)%nat ->
  exists fl', claim fuel L bit oid s (b, flagged fl d)
      = Ok (b || existsb (fun x => negb (up_of L d x =? oid)) ls, flagged fl' d) /\
    forall x, fl' x = if decide (x ∈ ls /\ up_of L d x = oid) then Z.land (fl x) (Z.lnot (Z.shiftl 1 bit)) else fl x.
Proof.
  intros Hup Hnxt Ht. induction ls as [|x ls IH]; intros s fuel b fl Hp Hf; cbn [path length] in Hp, Hf.
  - subst s. destruct fuel; [lia|]. exists fl. split; [cbn; by rewrite orb_false_r|].
    intros x. rewrite decide_False; [done|]. intros [Hx _]. by apply elem_of_nil in Hx.
  - destruct Hp as (-> & Hne & n & Hn & Hp). destruct fuel as [|fuel]; [lia|]. cbn [claim].
    destruct (Z.eqb_spec x NOTHING); [done|]. rewrite flagged_find by done.
    unfold nxts in Hn. apply fmap_Some in Hn as (o & Ho & ->). rewrite Ho.
    cbn [fmap option_fmap option_map deref mbind res_bind]. rewrite Hup, Hnxt.
    assert (Hu : up_of L d x = up L o) by (unfold up_of; by rewrite Ho).
    assert (Hnin : x ∉ ls).
    { assert (Hp' : path (nxts L (objects d)) x (x :: ls)).
      { cbn [path]. split; [done|]. split; [done|]. exists (nxt L o). split; [|done]. unfold nxts. by rewrite Ho. }
      by apply path_NoDup, NoDup_cons in Hp' as [? _]. }
    destruct (Z.eqb_spec (up L o) oid) as [E|E]; cbn [negb].
    + change (clear_temp bit) with (fun o => set_flags ((fun f => Z.land f (Z.lnot (Z.shiftl 1 bit))) (flags o)) o).
      rewrite flagged_upd by eauto. cbn [mbind res_bind].
      destruct (IH (nxt L o) fuel b (fun y => if decide (y = x) then Z.land (fl x) (Z.lnot (Z.shiftl 1 bit)) else fl y))
        as (fl' & -> & Hfl); [done|lia|]. exists fl'. split.
      * cbn [existsb]. rewrite Hu, E, Z.eqb_refl. done.
      * intros y. rewrite Hfl. destruct (decide (y = x)) as [->|Hy].
        -- rewrite decide_False by tauto. rewrite decide_True; [done|]. split; [apply list_elem_of_here|congruence].
        -- destruct (decide (y ∈ ls /\ up_of L d y = oid)) as [[H1 H2]|H1].
           ++ rewrite decide_True; [done|]. split; [by apply list_elem_of_further|done].
           ++ rewrite decide_False; [done|]. intros [[->|H2]%elem_of_cons H3]; tauto.
    + destruct (IH (nxt L o) fuel true fl) as (fl' & -> & Hfl); [done|lia|]. exists fl'. split.
      * cbn [existsb]. rewrite Hu. destruct (Z.eqb_spec (up L o) oid); [done|]. cbn. by rewrite !orb_true_r.
      * intros y. rewrite Hfl. destruct (decide (y ∈ ls /\ up_of L d y = oid)) as [[H1 H2]|H1].
        -- rewrite decide_True; [done|]. split; [by apply list_elem_of_further|done].
        -- rewrite decide_False; [done|]. intros [[->|H2]%elem_of_cons H3]; [congruence|tauto].
Qed.

Lemma shiftl1_bit b c : 0 <= b -> 0 <= c -> Z.testbit (Z.shiftl 1 b) c = (c =? b).
Proof.
  intros Hb Hc. rewrite Z.shiftl_spec by done. destruct (Z.eqb_spec c b) as [->|Hne]; [by rewrite Z.sub_diag|].
  destruct (Z.lt_ge_cases c b); [by rewrite Z.testbit_neg_r by lia|].
  apply (Z.bits_above_log2 1 (c - b)); cbn; lia.
Qed.

Lemma clear_bit f b c : 0 <= b -> 0 <= c ->
  Z.testbit (Z.land f (Z.lnot (Z.shiftl 1 b))) c = Z.testbit f c && negb (c =? b).
Proof. intros Hb Hc. by rewrite Z.land_spec, Z.lnot_spec, shiftl1_bit. Qed.

Lemma temp_bit c : 0 <= c -> Z.testbit temp_flags c = (c =? FLAG_FIRST_TEMP) || (c =? FLAG_FIRST_TEMP + 1).
Proof.
  intros Hc. change temp_flags with (Z.lor (Z.shiftl 1 FLAG_FIRST_TEMP) (Z.shiftl 1 (FLAG_FIRST_TEMP + 1))).
  unfold FLAG_FIRST_TEMP. by rewrite Z.lor_spec, !shiftl1_bit by lia.
Qed.

(** The flags that last. *)
Definition lasting (f : Z) : Z := Z.land f (Z.lnot temp_flags).

Lemma lasting_set f : lasting (Z.lor f temp_flags) = lasting f.
Proof.
  unfold lasting. apply Z.bits_inj'. intros c Hc. rewrite !Z.land_spec, Z.lor_spec, Z.lnot_spec by done.
  by destruct (Z.testbit f c), (Z.testbit temp_flags c).
Qed.

Lemma lasting_clear f b : b = FLAG_FIRST_TEMP \/ b = FLAG_FIRST_TEMP + 1 ->
  lasting (Z.land f (Z.lnot (Z.shiftl 1 b))) = lasting f.
Proof.
  intros Hb. unfold lasting. apply Z.bits_inj'. intros c Hc.
  rewrite !Z.land_spec, !Z.lnot_spec, shiftl1_bit, temp_bit by (destruct Hb; subst; unfold FLAG_FIRST_TEMP; lia).
  destruct (Z.testbit f c); cbn; [|done].
  destruct (Z.eqb_spec c b) as [->|]; cbn; [|done].
  destruct Hb as [->| ->]; rewrite Z.eqb_refl; cbn; by rewrite ?orb_true_r.
Qed.

Lemma bit_nonzero f b : 0 <= b -> (Z.land f (Z.shiftl 1 b) =? 0) = negb (Z.testbit f b).
Proof.
  intros Hb. destruct (Z.testbit f b) eqn:E; cbn.
  - apply Z.eqb_neq. intros H. apply (f_equal (fun z => Z.testbit z b)) in H.
    rewrite Z.land_spec, shiftl1_bit, E, Z.eqb_refl, Z.bits_0 in H by done. done.
  - apply Z.eqb_eq, Z.bits_inj'. intros c Hc. rewrite Z.land_spec, shiftl1_bit, Z.bits_0 by done.
    destruct (Z.eqb_spec c b) as [->|]; [by rewrite E|]. by rewrite andb_false_r.
Qed.

Section claims.
Context (d : db) (Ht : in_table d) (Hends : forall x o, objects d !! x = Some o -> chains_end d o).

(** The objects on the list of [p]. *)
Definition listed (L : Links Object) (p : Z) : list Z :=
  match ll_below L (objects d) p with Ok ls => ls | Fail _ => [] end.

Definition hierarchy (L : Links Object) (bit : Z) : Prop :=
  L = family /\ bit = FLAG_FIRST_TEMP \/ L = place /\ bit = FLAG_FIRST_TEMP + 1.

Lemma listed_path L bit p o : hierarchy L bit -> objects d !! p = Some o ->
  path (nxts L (objects d)) (first L o) (listed L p).
Proof.
  intros HL Ho. assert (exists ls, path (nxts L (objects d)) (first L o) ls) as [ls Hls].
  { destruct (Hends p o Ho) as (_ & [l1 H1] & _ & [l2 H2]). destruct HL as [[-> _]|[-> _]]; eauto. }
  unfold listed, ll_below, get. rewrite Ho. cbn [deref mbind res_bind].
  rewrite (ll_list_Ok L (objects d) (first L o) ls); [done|done|].
  pose proof (path_objs_length L (objects d) _ _ Hls). lia.
Qed.

Lemma listed_length L bit p : hierarchy L bit -> is_Some (objects d !! p) ->
  (length (listed L p) < S (Z.to_nat (num_objects d)))%nat.
Proof.
  intros HL [o Ho]. pose proof (listed_path L bit p o HL Ho) as Hp.
  assert (Hsub : listed L p ⊆ seqZ 0 (num_objects d)).
  { intros x Hx. destruct (path_some _ _ _ _ Hp Hx) as [Hs _]. unfold nxts in Hs. rewrite fmap_is_Some in Hs.
    apply elem_of_seqZ. pose proof (Ht x Hs). lia. }
  pose proof (submseteq_length _ _ (NoDup_submseteq _ _ (path_NoDup _ _ _ Hp) Hsub)) as Hl.
  rewrite length_seqZ in Hl. lia.
Qed.

(** [x] is on the list of the object above it, which has been looked at. *)
Definition claimed (L : Links Object) (seen : list Z) (x : Z) : Prop :=
  up_of L d x ∈ seen /\ is_Some (objects d !! up_of L d x) /\ x ∈ listed L (up_of L d x).
(** [p] lists an object that is not below it. *)
Definition deluded (L : Links Object) (p : Z) : Prop :=
  is_Some (objects d !! p) /\ exists x, x ∈ listed L p /\ up_of L d x <> p.

Lemma claim_listed L bit p fuel b fl : hierarchy L bit -> is_Some (objects d !! p) -> fuel = S (Z.to_nat (num_objects d)) ->
  exists fl' c, claim fuel L bit p (from_option (first L) NOTHING (objects d !! p)) (b, flagged fl d)
      = Ok (b || c, flagged fl' d) /\ (c = true <-> deluded L p) /\
    (forall x, lasting (fl' x) = lasting (fl x)) /\
    forall x a, 0 <= a -> (Z.testbit (fl' x) a = true <->
      Z.testbit (fl x) a = true /\ ~ (a = bit /\ x ∈ listed L p /\ up_of L d x = p)).
Proof.
  intros HL Hp ->. destruct (Hp) as [o Ho]. rewrite Ho. cbn [from_option].
  assert (Hbit : bit = FLAG_FIRST_TEMP \/ bit = FLAG_FIRST_TEMP + 1) by (destruct HL as [[_ ?]|[_ ?]]; auto).
  destruct (claim_Ok L bit p d) with (ls := listed L p) (s := first L o) (fuel := S (Z.to_nat (num_objects d))) (b := b) (fl := fl)
    as (fl' & -> & Hfl).
  - by destruct HL as [[-> _]|[-> _]].
  - by destruct HL as [[-> _]|[-> _]].
  - done.
  - by apply (listed_path L bit).
  - by apply (listed_length L bit).
  - do 2 eexists. split; [done|]. split; [|split].
    + rewrite existsb_exists. split.
      * intros (x & Hx%list_elem_of_In & Hne%negb_true_iff%Z.eqb_neq). split; [done|]. eauto.
      * intros [_ (x & Hx & Hne)]. exists x. split; [by apply list_elem_of_In|]. by apply negb_true_iff, Z.eqb_neq.
    + intros x. rewrite Hfl. case_decide; [by apply lasting_clear|done].
    + intros x a Ha. rewrite Hfl. case_decide as Hd.
      * rewrite clear_bit by (destruct Hbit; subst; unfold FLAG_FIRST_TEMP in *; lia).
        rewrite andb_true_iff, negb_true_iff, Z.eqb_neq. tauto.
      * tauto.
Qed.

(** The claims of the objects seen so far. *)
Definition claims (seen : list Z) (b : bool) (d' : db) : Prop := exists fl, d' = flagged fl d /\
  (forall x, lasting (fl x) = lasting (flags_of d x)) /\
  (forall L bit x, hierarchy L bit -> (Z.testbit (fl x) bit = true <-> ~ claimed L seen x)) /\
  (b = true <-> exists p L bit, p ∈ seen /\ hierarchy L bit /\ deluded L p).

Lemma phase3a_body seen x b d' : claims seen b d' -> is_Some (objects d !! x) -> forall o,
  child o = from_option child NOTHING (objects d !! x) -> contents o = from_option contents NOTHING (objects d !! x) ->
  exists b2 d2, phase3a x o (b, d') = Ok (b2, d2) /\ claims (seen ++ [x]) b2 d2.
Proof.
  intros (fl & -> & Hlast & Hbit & Hb) Hx o Hch Hco. unfold phase3a. rewrite Hch, Hco. cbn [snd].
  change (num_objects (flagged fl d)) with (num_objects d).
  destruct (claim_listed family FLAG_FIRST_TEMP x _ b fl (or_introl (conj eq_refl eq_refl)) Hx eq_refl)
    as (fl1 & c1 & H1 & Hc1 & Hl1 & Hb1).
  change (first family) with child in H1. rewrite H1. cbn [mbind res_bind].
  destruct (claim_listed place (FLAG_FIRST_TEMP + 1) x _ (b || c1) fl1 (or_intror (conj eq_refl eq_refl)) Hx eq_refl)
    as (fl2 & c2 & H2 & Hc2 & Hl2 & Hb2).
  change (first place) with contents in H2. rewrite H2. do 2 eexists. split; [done|].
  exists fl2. split; [done|]. split; [intros y; by rewrite Hl2, Hl1|]. split.
  - intros L bit y HL. assert (Hbit0 : 0 <= bit) by (destruct HL as [[_ ->]|[_ ->]]; unfold FLAG_FIRST_TEMP; lia).
    rewrite Hb2, Hb1, (Hbit L bit y HL) by done.
    assert (Hmore : claimed L (seen ++ [x]) y <-> claimed L seen y \/ y ∈ listed L x /\ up_of L d y = x).
    { unfold claimed. rewrite elem_of_app, list_elem_of_singleton. split.
      - intros ([H| ->] & ? & ?); [by left|by right].
      - intros [(? & ? & ?)|[? Hup]]; [by split; [left|]|]. by rewrite Hup; split; [right|]. }
    rewrite Hmore. clear -HL. destruct HL as [[-> ->]|[-> ->]]; unfold FLAG_FIRST_TEMP.
    + assert (14 <> 14 + 1) by lia. tauto.
    + assert (14 + 1 <> 14) by lia. tauto.
  - rewrite !orb_true_iff, Hb, Hc1, Hc2. split.
    + intros [[(p & L & bit & Hp & HL & Hdel)|Hdel]|Hdel].
      * exists p, L, bit. split; [apply elem_of_app; by left|done].
      * exists x, family, FLAG_FIRST_TEMP. split; [apply elem_of_app; right; apply list_elem_of_here|].
        split; [by left|done].
      * exists x, place, (FLAG_FIRST_TEMP + 1). split; [apply elem_of_app; right; apply list_elem_of_here|].
        split; [by right|done].
    + intros (p & L & bit & [Hp|Hp%list_elem_of_singleton]%elem_of_app & HL & Hdel); [left; left; by exists p, L, bit|].
      subst p. destruct HL as [[-> _]|[-> _]]; [left; by right|by right].
Qed.

Lemma phase3a_Ok : exists b d',
  each_object phase3a (seqZ 0 (num_objects d)) (false, flagged (fun x => Z.lor (flags_of d x) temp_flags) d)
    = Ok (b, d') /\ claims (seqZ 0 (num_objects d)) b d'.
Proof.
  apply (each_object_rule claims phase3a (seqZ 0 (num_objects d)) false).
  - intros seen x b d0 Hi Hx Hn. pose proof Hi as (fl & -> & _). rewrite flagged_find by done.
    destruct (objects d !! x) as [o|] eqn:Ho; cbn [fmap option_fmap option_map].
    + apply phase3a_body; [done|by rewrite Ho; eauto|by rewrite Ho..].
    + destruct Hi as (fl' & E & Hlast & Hbit & Hb). exists fl'. split; [done|]. split; [done|]. split.
      * intros L bit y HL. rewrite (Hbit L bit y HL). unfold claimed. rewrite elem_of_app, list_elem_of_singleton.
        split; intros H; contradict H; [|tauto]. destruct H as ([Hu|Hu] & Hv & Hl); [done|].
        rewrite Hu, Ho in Hv. by destruct Hv.
      * rewrite Hb. split; intros (p & L & bit & Hp & HL & Hdel); exists p, L, bit; (split; [|done]).
        -- apply elem_of_app. by left.
        -- apply elem_of_app in Hp as [|Hp%list_elem_of_singleton]; [done|]. subst p.
           destruct Hdel as [Hv _]. rewrite Ho in Hv. by destruct Hv.
  - apply NoDup_seqZ.
  - eexists. split; [done|]. split; [intros x; apply lasting_set|]. split.
    + intros L bit x HL. assert (Hb : bit = FLAG_FIRST_TEMP \/ bit = FLAG_FIRST_TEMP + 1) by (destruct HL as [[_ ->]|[_ ->]]; auto).
      rewrite Z.lor_spec, temp_bit by (destruct Hb; subst; unfold FLAG_FIRST_TEMP; lia).
      split; [|destruct Hb; subst; by rewrite Z.eqb_refl, ?orb_true_r].
      intros _ [H _]. by apply elem_of_nil in H.
    + split; [done|]. intros (p & L & bit & Hp & _). by apply elem_of_nil in Hp.
Qed.

(** *** Phase 3b *)

(** An object that no list has must not be below another. *)
Lemma phase3b_Ok seen b d' : claims seen b d' -> exists c,
  each_object phase3b (seqZ 0 (num_objects d)) (b, d') = Ok (b || c, flagged (fun x => lasting (flags_of d x)) d) /\
  (c = true <-> exists x L bit, is_Some (objects d !! x) /\ hierarchy L bit /\ ~ claimed L seen x /\ up_of L d x <> NOTHING).
Proof.
  intros (fl & -> & Hlast & Hbit & _). pose (bad := fun x => exists L bit, is_Some (objects d !! x) /\ hierarchy L bit /\
    ~ claimed L seen x /\ up_of L d x <> NOTHING).
  destruct (each_object_rule (fun done b' d' => exists fl' c, d' = flagged fl' d /\ b' = b || c /\
    (forall x, is_Some (objects d !! x) -> fl' x = if decide (x ∈ done) then lasting (fl x) else fl x) /\
    (c = true <-> exists x, x ∈ done /\ bad x)) phase3b (seqZ 0 (num_objects d)) b (flagged fl d))
    as (b' & d' & H & fl' & c & -> & -> & Hfl & Hc).
  - intros done x b0 d0 (fl' & c & -> & -> & Hfl & Hc) Hx Hn. rewrite flagged_find by done.
    destruct (objects d !! x) as [o|] eqn:Ho; cbn [fmap option_fmap option_map].
    + unfold phase3b. rewrite (flagged_upd fl' d x (fun f => Z.land f (Z.lnot temp_flags))) by eauto.
      cbn [mbind res_bind]. do 2 eexists. split; [reflexivity|]. do 2 eexists. split; [reflexivity|].
      split; [by rewrite <- !orb_assoc|]. split.
      * intros y Hy. destruct (decide (y = x)) as [->|Hyx].
        -- rewrite decide_True by (apply elem_of_app; right; apply list_elem_of_here).
           rewrite (Hfl x), decide_False by done. done.
        -- rewrite seen_other by done. by apply Hfl.
      * assert (Hun : forall L bit, hierarchy L bit -> unclaimed L bit (set_flags (fl' x) o) = true <->
          ~ claimed L seen x /\ up_of L d x <> NOTHING).
        { intros L bit HL. unfold unclaimed. rewrite <- (Hbit L bit x HL).
          assert (Hb0 : 0 <= bit) by (destruct HL as [[_ ->]|[_ ->]]; unfold FLAG_FIRST_TEMP; lia).
          cbn [flags set_flags]. rewrite bit_nonzero, negb_involutive by done.
          rewrite (Hfl x) by eauto. rewrite decide_False by exact Hn.
          rewrite andb_true_iff, negb_true_iff, Z.eqb_neq. unfold up_of. rewrite Ho. cbn [from_option].
          by destruct HL as [[-> _]|[-> _]]. }
        rewrite !orb_true_iff, Hc, (Hun family FLAG_FIRST_TEMP), (Hun place (FLAG_FIRST_TEMP + 1)) by first [by left|by right].
        split.
        -- intros [(y & Hy & Hbad)|[[H1 H2]|[H1 H2]]].
           ++ exists y. split; [apply elem_of_app; by left|done].
           ++ exists x. split; [apply elem_of_app; right; apply list_elem_of_here|].
              exists family, FLAG_FIRST_TEMP. split; [eauto|]. split; [by left|done].
           ++ exists x. split; [apply elem_of_app; right; apply list_elem_of_here|].
              exists place, (FLAG_FIRST_TEMP + 1). split; [eauto|]. split; [by right|done].
        -- intros (y & [Hy|Hy%list_elem_of_singleton]%elem_of_app & Hbad); [left; by exists y|]. subst y.
           destruct Hbad as (L & bit & _ & [[-> _]|[-> _]] & H); [right; by left|right; by right].
    + do 2 eexists. split; [done|]. split; [done|]. split.
      * intros y Hy. rewrite seen_other by (intros ->; rewrite Ho in Hy; by destruct Hy). by apply Hfl.
      * rewrite Hc. split; intros (y & Hy & Hbad); exists y; (split; [|done]).
        -- apply elem_of_app. by left.
        -- apply elem_of_app in Hy as [|Hy%list_elem_of_singleton]; [done|]. subst y.
           destruct Hbad as (L & bit & Hv & _). rewrite Ho in Hv. by destruct Hv.
  - apply NoDup_seqZ.
  - exists fl, false. split; [done|]. split; [by rewrite orb_false_r|]. split.
    + intros x _. by rewrite decide_False by apply not_elem_of_nil.
    + split; [done|]. intros (x & Hx & _). by apply elem_of_nil in Hx.
  - exists c. split.
    + rewrite H. f_equal. f_equal. apply flagged_ext. intros x Hx. rewrite Hfl, decide_True; [by apply Hlast| |done].
      apply elem_of_seqZ. pose proof (Ht x Hx). lia.
    + rewrite Hc. unfold bad. split; [intros (x & _ & L & bit & ?); by exists x, L, bit|].
      intros (x & L & bit & Hv & Hrest). exists x. split; [|by exists L, bit]. apply elem_of_seqZ. pose proof (Ht x Hv). lia.
Qed.

End claims.

(** ** What a true answer means *)

(** The lists of a hierarchy are the children of the forest, in order. *)
Definition lists_match (L : Links Object) (objs : gmap Z Object) (F : forest) : Prop :=
  forall x, ups L objs x = par F !! x /\
    forall l, kids F !! x = Some l -> exists s, fsts L objs x = Some s /\ path (nxts L objs) s l.

Definition two_forests (objs : gmap Z Object) : Prop :=
  exists F P, wf_forest F /\ wf_forest P /\ lists_match family objs F /\ lists_match place objs P.

Definition fields_closed (L : Links Object) (d : db) : Prop := forall x o, objects d !! x = Some o ->
  up L o = NOTHING \/ is_Some (objects d !! up L o).

(** The checks of a hierarchy, as they are made. *)
Definition checks (L : Links Object) (d : db) : Prop :=
  (forall x o, objects d !! x = Some o ->
     (exists ls, path (ups L (objects d)) (up L o) ls) /\ (exists ls, path (nxts L (objects d)) (first L o) ls)) /\
  (forall p x, is_Some (objects d !! p) -> x ∈ listed d L p -> up_of L d x = p) /\
  (forall x, is_Some (objects d !! x) -> up_of L d x = NOTHING \/ x ∈ listed d L (up_of L d x)).

Lemma listed_of_path L d p o ls : objects d !! p = Some o -> path (nxts L (objects d)) (first L o) ls -> listed d L p = ls.
Proof.
  intros Ho Hp. unfold listed, ll_below, get. rewrite Ho. cbn [deref mbind res_bind].
  rewrite (ll_list_Ok L (objects d) (first L o) ls); [done|done|].
  pose proof (path_objs_length L (objects d) _ _ Hp). lia.
Qed.

Lemma up_of_eq L d x o : objects d !! x = Some o -> up_of L d x = up L o.
Proof. intros H. unfold up_of. by rewrite H. Qed.

Lemma up_of_ups L d x p : is_Some (objects d !! x) -> ups L (objects d) x = Some p <-> up_of L d x = p.
Proof. intros [o Ho]. unfold ups, up_of. rewrite Ho. cbn. split; congruence. Qed.

Lemma forest_checks L d F : wf_forest F -> lists_match L (objects d) F -> checks L d.
Proof.
  intros HF Hm. assert (Hdom : forall x, is_Some (objects d !! x) <-> is_Some (par F !! x)).
  { intros x. destruct (Hm x) as [<- _]. unfold ups. by rewrite fmap_is_Some. }
  assert (Hlist : forall p, is_Some (objects d !! p) -> kids F !! p = Some (listed d L p)).
  { intros p Hp. pose proof Hp as [o Ho]. apply Hdom, (wf_dom F HF) in Hp as [ls Hls].
    destruct (Hm p) as [_ Hk]. destruct (Hk ls Hls) as (s & Hs & Hpath). unfold fsts in Hs. rewrite Ho in Hs.
    injection Hs as <-. by rewrite (listed_of_path L d p o ls). }
  split; [|split].
  - intros x o Ho. assert (Hx : is_Some (objects d !! x)) by eauto. split.
    + apply Hdom in Hx as [p Hp]. destruct (lineage_cons F HF x p Hp) as (l & Hl & _). exists l.
      assert (up L o = p) as -> by (destruct (Hm x) as [E _]; unfold ups in E; rewrite Ho, Hp in E; by injection E).
      eapply path_ext; [|exact Hl]. intros y _. symmetry. by destruct (Hm y) as [-> _].
    + specialize (Hlist x Hx). destruct (Hm x) as [_ Hk]. destruct (Hk _ Hlist) as (s & Hs & Hpath).
      unfold fsts in Hs. rewrite Ho in Hs. injection Hs as <-. eauto.
  - intros p x Hp Hx. destruct (wf_kids F HF p _ (Hlist p Hp)) as [_ Hc]. apply Hc in Hx.
    apply up_of_ups; [apply Hdom; by rewrite Hx|]. by destruct (Hm x) as [-> _].
  - intros x Hx. pose proof Hx as [p Hp]%Hdom. assert (Hu : up_of L d x = p).
    { apply up_of_ups; [done|]. by destruct (Hm x) as [-> _]. }
    rewrite Hu. destruct (wf_par F HF x p Hp) as [->|Hv]; [by left|right]. apply Hdom in Hv.
    destruct (wf_kids F HF p _ (Hlist p Hv)) as [_ Hc]. by apply Hc.
Qed.

Lemma checks_forest L d : in_table d -> fields_closed L d -> checks L d -> exists F, wf_forest F /\ lists_match L (objects d) F.
Proof.
  intros Ht Hclosed (Hends & Hdel & Hun).
  set (F := mkForest (up L <$> objects d) (map_imap (fun x _ => Some (listed d L x)) (objects d))).
  assert (Hkids : forall x, kids F !! x = (fun _ => listed d L x) <$> objects d !! x).
  { intros x. unfold F. cbn [kids]. rewrite map_lookup_imap. by destruct (objects d !! x). }
  assert (Hpar : forall x, par F !! x = ups L (objects d) x) by (intros x; unfold F; cbn [par]; by rewrite lookup_fmap).
  assert (Hpath : forall x o, objects d !! x = Some o -> path (nxts L (objects d)) (first L o) (listed d L x)).
  { intros x o Ho. destruct (Hends x o Ho) as [_ [ls Hls]]. by rewrite (listed_of_path L d x o ls). }
  exists F. split; [split|].
  - intros x. rewrite Hkids, Hpar. unfold ups. by rewrite !fmap_is_Some.
  - rewrite Hpar. unfold ups. destruct (objects d !! NOTHING) eqn:E; [|done].
    pose proof (Ht NOTHING ltac:(eauto)). unfold NOTHING in *. lia.
  - intros x p. rewrite !Hpar. unfold ups. rewrite fmap_Some. intros (o & Ho & ->). rewrite fmap_is_Some.
    by apply (Hclosed x o).
  - intros x ls. rewrite Hkids, fmap_Some. intros (o & Ho & ->). pose proof (Hpath x o Ho) as Hp.
    split; [by eapply path_NoDup|]. intros c. rewrite Hpar. split.
    + intros Hc. destruct (path_some _ _ _ _ Hp Hc) as [Hs _]. unfold nxts in Hs. rewrite fmap_is_Some in Hs.
      apply up_of_ups; [done|]. by apply Hdel; [eauto|].
    + intros Hu. assert (Hcv : is_Some (objects d !! c)) by (unfold ups in Hu; destruct (objects d !! c); [eauto|done]).
      apply up_of_ups in Hu; [|done]. destruct (Hun c Hcv) as [Hno|Hl]; [|by rewrite Hu in Hl].
      rewrite Hno in Hu. subst x. pose proof (Ht NOTHING ltac:(eauto)). unfold NOTHING in *. lia.
  - intros x [p Hp]. rewrite Hpar in Hp. unfold ups in Hp. apply fmap_Some in Hp as (o & Ho & ->).
    destruct (Hends x o Ho) as [[ls Hls] _]. exists (x :: ls). unfold lineage. cbn [path]. split; [done|].
    split; [intros ->; pose proof (Ht NOTHING ltac:(eauto)); unfold NOTHING in *; lia|].
    exists (up L o). rewrite Hpar. unfold ups at 1. rewrite Ho. split; [done|].
    eapply path_ext; [|exact Hls]. intros y _. by rewrite Hpar.
  - intros x. split; [by rewrite Hpar|]. intros ls. rewrite Hkids, fmap_Some. intros (o & Ho & ->).
    exists (first L o). unfold fsts. rewrite Ho. split; [done|]. by apply Hpath.
Qed.

(** *** What phase 1 leaves *)

Definition clean (d : db) (v : Z) : Z := if negb (v =? NOTHING) && negb (valid d v) then NOTHING else v.

Lemma check_self d field set o : (forall v o, field (set v o) = v) -> field (check_field d field set o) = clean d (field o).
Proof. intros H. unfold check_field, clean. by destruct (_ && _). Qed.

Lemma check_other d field set (g : Object -> Z) o : (forall v o, g (set v o) = g o) -> g (check_field d field set o) = g o.
Proof. intros H. unfold check_field. by destruct (_ && _). Qed.

Lemma fix_next_other (g : Object -> Z) (b : bool) o : (forall v o, g (set_next v o) = g o) ->
  g (if b then set_next NOTHING o else o) = g o.
Proof. intros H. by destruct b. Qed.

Lemma clean_ok d v : clean d v = NOTHING \/ valid d (clean d v) = true.
Proof.
  unfold clean. destruct (Z.eqb_spec v NOTHING) as [->|]; cbn; [by left|].
  destruct (valid d v) eqn:E; cbn; [by right|by left].
Qed.

Lemma fix_object_fields d o : let o' := fix_object d o in
  parent o' = clean d (parent o) /\ child o' = clean d (child o) /\ sibling o' = clean d (sibling o) /\
  location o' = clean d (location o) /\ contents o' = clean d (contents o) /\
  next o' = clean d (if location o =? NOTHING then NOTHING else next o).
Proof.
  cbv zeta. unfold fix_object.
  repeat split; rewrite ?check_other by done; rewrite check_self by done; rewrite ?check_other by done;
    rewrite ?fix_next_other by done; try done.
  f_equal. by destruct (Z.eqb_spec (location o) NOTHING), (Z.eqb_spec (next o) NOTHING).
Qed.

Lemma fixed_closed d : in_table d -> closed (with_objects (fix_object d <$> objects d) d).
Proof.
  intros Ht x o field Ho Hin. cbn [objects with_objects] in *. rewrite lookup_fmap, fmap_Some in Ho.
  destruct Ho as (o0 & Ho & ->). destruct (fix_object_fields d o0) as (E1 & E2 & E3 & E4 & E5 & E6).
  assert (Hclean : forall v, clean d v = NOTHING \/ is_Some ((fix_object d <$> objects d) !! clean d v)).
  { intros v. rewrite lookup_fmap, fmap_is_Some. destruct (clean_ok d v) as [|Hv]; [by left|right].
    unfold valid in Hv. by rewrite bool_decide_eq_true, find_in_table in Hv. }
  repeat (apply elem_of_cons in Hin as [->|Hin]; [rewrite ?E1, ?E2, ?E3, ?E4, ?E5, ?E6; apply Hclean|]).
  by apply elem_of_nil in Hin.
Qed.

(** Claims and delusions together are the checks. *)
Lemma claims_checks d : in_table d -> closed d ->
  ((forall x o, objects d !! x = Some o -> chains_end d o) /\
   ~ (exists p L bit, p ∈ seqZ 0 (num_objects d) /\ hierarchy L bit /\ deluded d L p) /\
   ~ (exists x L bit, is_Some (objects d !! x) /\ hierarchy L bit /\ ~ claimed d L (seqZ 0 (num_objects d)) x /\
        up_of L d x <> NOTHING)) <-> checks family d /\ checks place d.
Proof.
  intros Ht Hc.
  assert (Hin : forall x, is_Some (objects d !! x) -> x ∈ seqZ 0 (num_objects d)).
  { intros x Hx. apply elem_of_seqZ. pose proof (Ht x Hx). lia. }
  assert (Hup : forall L bit x, hierarchy L bit -> is_Some (objects d !! x) ->
    up_of L d x = NOTHING \/ is_Some (objects d !! up_of L d x)).
  { intros L bit x HL [o Ho]. rewrite (up_of_eq L d x o Ho).
    destruct HL as [[-> _]|[-> _]]; [apply (Hc x o parent Ho)|apply (Hc x o location Ho)]; set_solver. }
  split.
  - intros (Hends & Hdel & Hun).
    assert (H : forall L bit, hierarchy L bit ->
      (forall x o, objects d !! x = Some o -> exists ls, path (ups L (objects d)) (up L o) ls) -> checks L d);
      [|split; [apply (H family FLAG_FIRST_TEMP)|apply (H place (FLAG_FIRST_TEMP + 1))];
        [by left| |by right|]; intros x o Ho; destruct (Hends x o Ho) as (? & ? & ? & ?); done].
    intros L bit HL Hchain. split; [|split].
    + intros x o Ho. split; [by apply (Hchain x)|]. exists (listed d L x). by apply (listed_path d Hends L bit).
    + intros p x Hp Hx. destruct (decide (up_of L d x = p)) as [|Hne]; [done|]. destruct Hdel.
      exists p, L, bit. split; [by apply Hin|]. split; [done|]. split; [done|]. by exists x.
    + intros x Hx. destruct (Hup L bit x HL Hx) as [|Hv]; [by left|].
      destruct (decide (x ∈ listed d L (up_of L d x))) as [|Hno]; [by right|]. left.
      destruct (decide (up_of L d x = NOTHING)) as [|Hne]; [done|]. destruct Hun. exists x, L, bit.
      split; [done|]. split; [done|]. split; [|done]. by intros (_ & _ & ?).
  - intros [(HeF & HdF & HuF) (HeP & HdP & HuP)]. split; [|split].
    + intros x o Ho. destruct (HeF x o Ho), (HeP x o Ho). done.
    + intros (p & L & bit & _ & HL & Hp & x & Hx & Hne).
      destruct HL as [[-> _]|[-> _]]; [by apply Hne, HdF|by apply Hne, HdP].
    + intros (x & L & bit & Hx & HL & Hno & Hne). apply Hno.
      destruct (Hup L bit x HL Hx) as [|Hv]; [done|]. split; [by apply Hin|]. split; [done|].
      destruct HL as [[-> _]|[-> _]]; [by destruct (HuF x Hx)|by destruct (HuP x Hx)].
Qed.

Lemma checks_forests d : in_table d -> closed d -> checks family d /\ checks place d <-> two_forests (objects d).
Proof.
  intros Ht Hc. split.
  - intros [HF HP]. destruct (checks_forest family d) as (F & HF1 & HF2); [done| |done|].
    { intros x o Ho. apply (Hc x o parent Ho). set_solver. }
    destruct (checks_forest place d) as (P & HP1 & HP2); [done| |done|].
    { intros x o Ho. apply (Hc x o location Ho). set_solver. }
    by exists F, P.
  - intros (F & P & HF & HP & HmF & HmP). split; [by apply (forest_checks _ _ F)|by apply (forest_checks _ _ P)].
Qed.

Lemma flagged_after fl f g d : (forall x o, objects d !! x = Some o -> set_flags (fl x) (f o) = g o) ->
  flagged fl (with_objects (f <$> objects d) d) = with_objects (g <$> objects d) d.
Proof.
  intros H. unfold flagged. cbn [objects with_objects]. transitivity (with_objects
    (map_imap (fun x o => Some (set_flags (fl x) o)) (f <$> objects d)) d); [done|]. f_equal. apply map_eq. intros x.
  rewrite map_lookup_imap, !lookup_fmap. destruct (objects d !! x) as [o|] eqn:Ho; [|done]. cbn. f_equal. by apply (H x).
Qed.

(** An object after validation. *)
Definition tidy (d : db) (o : Object) : Object := let o := fix_object d o in set_flags (lasting (flags o)) o.

Lemma validate_Ok d : in_table d -> exists b d',
  validate_hierarchies d = Ok (b, d') /\ (b = true <-> two_forests (fix_object d <$> objects d)) /\
  (b = true -> d' = with_objects (tidy d <$> objects d) d).
Proof.
  intros Ht. unfold validate_hierarchies, db_last_used_objid. replace (num_objects d - 1 + 1) with (num_objects d) by lia.
  destruct (phase1_Ok d Ht false) as (d1 & -> & E1). cbn [mbind res_bind].
  assert (Ht1 : in_table d1).
  { rewrite E1. apply in_table_alike; [done|]. intros x. by rewrite lookup_fmap, fmap_is_Some. }
  assert (Hc1 : closed d1) by (rewrite E1; by apply fixed_closed).
  assert (En : num_objects d = num_objects d1) by (by rewrite E1).
  assert (Eo : fix_object d <$> objects d = objects d1) by (by rewrite E1).
  rewrite En, Eo. destruct (phase2_Ok d1 Ht1 Hc1) as (b2 & -> & Hb2). cbn [mbind res_bind fst snd].
  pose proof (checks_forests d1 Ht1 Hc1) as Hforests. rewrite <- (claims_checks d1 Ht1 Hc1) in Hforests.
  destruct b2.
  { do 2 eexists. split; [done|]. split; [|done]. split; [done|]. intros [Hends _]%Hforests. by apply Hb2 in Hends. }
  pose proof (proj1 Hb2 eq_refl) as Hends.
  destruct (phase3a_Ok d1 Ht1 Hends) as (b3 & d3 & -> & Hcl). cbn [mbind res_bind].
  pose proof Hcl as (_ & _ & _ & _ & Hb3).
  destruct (phase3b_Ok d1 Ht1 _ b3 d3 Hcl) as (c & -> & Hc). cbn [mbind res_bind].
  do 2 eexists. split; [done|]. split.
  - rewrite <- Hforests, negb_true_iff, orb_false_iff. split.
    + intros [-> ->]. split; [done|]. split; intros H; [by apply Hb3 in H|by apply Hc in H].
    + intros (_ & H1 & H2). split; apply not_true_is_false; intros H; [apply H1, Hb3, H|apply H2, Hc, H].
  - intros _. rewrite E1. apply flagged_after. intros x o Ho. unfold tidy, flags_of. cbn [objects with_objects].
    by rewrite lookup_fmap, Ho.
Qed.

(** *** Well-formed databases pass *)

Lemma check_field_id d field set o : field o = NOTHING \/ valid d (field o) = true -> check_field d field set o = o.
Proof. unfold check_field. intros [->| ->]; cbn; [done|]. by rewrite andb_false_r. Qed.

Lemma fix_object_id d o : (forall field, field ∈ [parent; child; sibling; location; contents; next] ->
    field o = NOTHING \/ valid d (field o) = true) -> (location o = NOTHING -> next o = NOTHING) -> fix_object d o = o.
Proof.
  intros Hf Hn. unfold fix_object.
  assert (E : (if (location o =? NOTHING) && negb (next o =? NOTHING) then set_next NOTHING o else o) = o).
  { destruct (Z.eqb_spec (location o) NOTHING) as [Hl|]; [|done]. by rewrite (Hn Hl). }
  rewrite E. rewrite (check_field_id d parent) by (apply Hf; set_solver).
  rewrite (check_field_id d child) by (apply Hf; set_solver). rewrite (check_field_id d sibling) by (apply Hf; set_solver).
  rewrite (check_field_id d location) by (apply Hf; set_solver). rewrite (check_field_id d contents) by (apply Hf; set_solver).
  by rewrite (check_field_id d next) by (apply Hf; set_solver).
Qed.

Lemma represents_match L objs F : represents L objs F -> lists_match L objs F.
Proof. intros Hr x. destruct (Hr x) as (? & ? & _). done. Qed.

Lemma wf_db_in_table F P d : wf_db F P d -> in_table d.
Proof. intros Hw x [o Ho]. by apply (wf_range d (wp_table _ _ (wdb_props _ _ _ Hw)) x o). Qed.

(** A database whose links are right passes unchanged. *)
Section passes.
Context (F P : forest) (d : db) (HwF : wf_forest F) (HF : represents family (objects d) F) (HwP : wf_forest P)
  (HP : represents place (objects d) P) (Ht : in_table d).

Lemma linked_valid x o field : objects d !! x = Some o ->
  field ∈ [parent; child; sibling; location; contents; next] -> field o = NOTHING \/ is_Some (objects d !! field o).
Proof.
  intros Ho Hin.
  assert (HF' : forall v, v = NOTHING \/ is_Some (par F !! v) -> v = NOTHING \/ is_Some (objects d !! v)).
  { intros v [|Hv]; [by left|right]. by apply (represents_dom family (objects d) F). }
  assert (HP' : forall v, v = NOTHING \/ is_Some (par P !! v) -> v = NOTHING \/ is_Some (objects d !! v)).
  { intros v [|Hv]; [by left|right]. by apply (represents_dom place (objects d) P). }
  repeat (apply elem_of_cons in Hin as [->|Hin]); [..|by apply elem_of_nil in Hin].
  - apply HF', (wf_par F HwF x). destruct (HF x) as [<- _]. unfold ups. by rewrite Ho.
  - apply HF', (first_valid family (objects d) F HwF HF x). unfold fsts. by rewrite Ho.
  - apply HF', (next_valid family (objects d) F HwF HF x). unfold nxts. by rewrite Ho.
  - apply HP', (wf_par P HwP x). destruct (HP x) as [<- _]. unfold ups. by rewrite Ho.
  - apply HP', (first_valid place (objects d) P HwP HP x). unfold fsts. by rewrite Ho.
  - apply HP', (next_valid place (objects d) P HwP HP x). unfold nxts. by rewrite Ho.
Qed.

Lemma linked_fixed x o : objects d !! x = Some o -> fix_object d o = o.
Proof.
  intros Ho. apply fix_object_id.
  - intros field Hin. destruct (linked_valid x o field Ho Hin) as [|Hv]; [by left|right].
    unfold valid. by rewrite bool_decide_eq_true, (find_in_table d _ Ht).
  - intros Hl. destruct (HP x) as (Hu & _ & Hroot). unfold ups, nxts in *. rewrite Ho in *. cbn in Hu, Hroot.
    rewrite Hl in Hu. specialize (Hroot (eq_sym Hu)). by injection Hroot.
Qed.

Lemma validate_linked : (forall x o, objects d !! x = Some o -> lasting (flags o) = flags o) ->
  validate_hierarchies d = Ok (true, d).
Proof.
  intros Hfl.
  assert (E : fix_object d <$> objects d = objects d).
  { apply map_eq. intros x. rewrite lookup_fmap. destruct (objects d !! x) as [o|] eqn:Ho; [|done]. cbn.
    by rewrite (linked_fixed x). }
  destruct (validate_Ok d Ht) as (b & d' & -> & Hb & Hd). rewrite E in Hb.
  assert (b = true) as ->.
  { apply Hb. exists F, P. do 2 (split; [done|]). split; by apply represents_match. }
  rewrite (Hd eq_refl). f_equal. f_equal. transitivity (with_objects (objects d) d); [|by destruct d]. f_equal.
  apply map_eq. intros x. rewrite lookup_fmap. destruct (objects d !! x) as [o|] eqn:Ho; [|done]. cbn. f_equal.
  unfold tidy. rewrite (linked_fixed x o Ho), (Hfl x o Ho). by destruct o.
Qed.

End passes.

Lemma validate_wf F P d : wf_db F P d -> (forall x o, objects d !! x = Some o -> lasting (flags o) = flags o) ->
  validate_hierarchies d = Ok (true, d).
Proof.
  intros Hw. pose proof (wdb_props _ _ _ Hw) as Hp.
  by apply (validate_linked F P); [apply Hp|apply Hp|apply Hw|apply Hw|apply (wf_db_in_table F P)].
Qed.

(** ** Properties *)

(** C27: The checks that a database that has been read must pass always end, however its lists
    are entangled.  They answer true exactly when, after references to missing objects have
    been dropped, the parents and the places are two forests whose lists of children and
    contents agree with them; and then nothing else has changed but the temporary flags,
    which are clear.  Every well-formed database passes unchanged. *)
Theorem validate_hierarchies_correct d : in_table d ->
  (exists b d', validate_hierarchies d = Ok (b, d') /\
     (b = true <-> two_forests (fix_object d <$> objects d)) /\
     (b = true -> d' = with_objects (tidy d <$> objects d) d)) /\
  forall F P, wf_db F P d -> (forall x o, objects d !! x = Some o -> lasting (flags o) = flags o) ->
    validate_hierarchies d = Ok (true, d).
Proof. intros Ht. split; [by apply validate_Ok|]. intros F P. apply validate_wf. Qed.

(** The sample passes; with two objects each the parent of the other it does not. *)
Definition looped : db :=
  with_objects (alter (set_parent 3) 2 (alter (fun o => set_parent 2 o) 3 (objects sample))) sample.

Lemma validate_hierarchies_correct_witness :
  validate_hierarchies sample = Ok (true, sample) /\ ~ two_forests (fix_object looped <$> objects looped).
Proof.
  assert (Ht : forall d, forallb (fun x => (0 <=? x) && (x <? num_objects d)) (map_to_list (objects d)).*1 = true ->
    in_table d).
  { intros d H x [o Ho]. rewrite forallb_forall in H.
    specialize (H x). rewrite andb_true_iff, Z.leb_le, Z.ltb_lt in H. apply H.
    apply list_elem_of_In, list_elem_of_fmap. exists (x, o). split; [done|]. by apply elem_of_map_to_list. }
  split.
  - apply (proj2 (validate_hierarchies_correct sample (Ht sample eq_refl)) sample_family sample_place).
    + exact sample_wf.
    + intros x o Ho.
      assert (H : bool_decide (map_Forall (fun _ o => lasting (flags o) = flags o) (objects sample)) = true)
        by (vm_compute; reflexivity).
      apply bool_decide_eq_true in H. exact (H x o Ho).
  - destruct (proj1 (validate_hierarchies_correct looped (Ht looped eq_refl))) as (b & d' & H & Hb & _).
    rewrite <- Hb. intros ->. apply (f_equal (fun r => match r with Ok (b, _) => b | Fail _ => false end)) in H.
    vm_compute in H. discriminate H.
Defined.
