(* ===== verification/Dbio.v ===== *)
(** * Reading and writing the database file (src/db_io.c)

    Numbers, strings, floats and values as lines of text.  The file is a list of bytes; the
    C library's [fgets] and [scanf] are written out. *)

From S2P Require Import Prelude CStrings Values Libc Words Db ObjectBuiltins.

Open Scope Z_scope.

(** ** Input *)

Definition NL : ascii := chr 10.

(** What is left of the input file, and the static [buffer] of [dbio_read_string]. *)
Record reader := mkReader { input : cstr; buffer : cstr }.

(** At most [n] characters, up to and with a newline. *)
Fixpoint take_line (n : nat) (s : cstr) : cstr * cstr :=
  match n, s with
  | S n, c :: s' => if decide (c = NL) then ([c], s') else let '(t, r) := take_line n s' in (c :: t, r)
  | _, _ => ([], s)
  end.

(** [fgets(s, size, input)] for [size >= 2]: the C string in [s] and the rest of the input,
    or nothing at its end, where [s] keeps what it has. *)
Definition fgets (size : nat) (s : cstr) : option (cstr * cstr) :=
  match s with
  | [] => None
  | _ => let '(t, r) := take_line (size - 1) s in Some (until_nul t, r)
  end.

(** Into an array that holds nothing yet. *)
Definition read_line (size : nat) (rd : reader) : res (cstr * reader) :=
  match fgets size (input rd) with
  | None => Fail Undefined
  | Some (s, r) => Ok (s, mkReader r (buffer rd))
  end.

(** Directives of [scanf]: a character, white space, [%lld] and [%u]. *)
Inductive directive :=
  | Lit (c : ascii)
  | White
  | Num
  | UNum.

(** The numbers that are assigned, and where the input is then. *)
Fixpoint scanf (ds : list directive) (s : cstr) : list Z * cstr :=
  match ds with
  | [] => ([], s)
  | Lit c :: ds =>
      match s with
      | c' :: s' => if decide (c' = c) then scanf ds s' else ([], s)
      | [] => ([], [])
      end
  | White :: ds => scanf ds (skip_while isspace s)
  | Num :: ds =>
      let '(n, r) := strtoimax s in
      if decide (r = s) then ([], s) else let '(ns, r) := scanf ds r in (n :: ns, r)
  | UNum :: ds =>
      let '(n, r) := strtoimax s in
      if decide (r = s) then ([], s) else let '(ns, r) := scanf ds r in (u32 n :: ns, r)
  end.
Definition dbio_scanf (ds : list directive) (rd : reader) : list Z * reader :=
  let '(ns, r) := scanf ds (input rd) in (ns, mkReader r (buffer rd)).

(** Complaints in the log are left out. *)
Definition dbio_read_num (rd : reader) : res (Z * reader) :=
  '(s, rd) ← read_line 22 rd;
  Ok ((strtoimax s).1, rd).

Definition dbio_read_float (rd : reader) : res (double * reader) :=
  '(s, rd) ← read_line 40 rd;
  Ok ((strtod s).1, rd).

Definition dbio_read_objid (rd : reader) : res (Z * reader) := dbio_read_num rd.

(** [used]: the contents of the static stream.  A string of 1023 characters at the end of
    the file is read for ever; the byte before an empty buffer is out of bounds. *)
Fixpoint read_string (fuel : nat) (used : cstr) (rd : reader) : res (cstr * reader) :=
  match fuel with
  | O => Fail OutOfFuel
  | S fuel =>
      let '(buf, r) := match fgets 1024 (input rd) with Some (s, r) => (s, r) | None => (buffer rd, []) end in
      match last buf with
      | None => Fail Undefined
      | Some c =>
          if decide (length buf = 1023%nat) then
            if decide (c = NL) then let s := removelast buf in Ok (used ++ s, mkReader r s)
            else read_string fuel (used ++ buf) (mkReader r buf)
          else
            let s := if decide (c = NL) then removelast buf else buf in
            Ok (used ++ s, mkReader r s)
      end
  end.
Definition dbio_read_string (rd : reader) : res (cstr * reader) :=
  read_string (S (length (input rd))) [] rd.

(** Interned strings are shared; the string is the same. *)
Definition dbio_read_string_intern (rd : reader) : res (cstr * reader) := dbio_read_string rd.

(** The member [err] of the union, of which [num] is 64 bits wide: its low half. *)
Definition err_of_num (n : Z) : res error :=
  deref (List.find (fun e => error_num e =? u32 n)
    [E_NONE; E_TYPE; E_DIV; E_PERM; E_PROPNF; E_VERBNF; E_VARNF; E_INVIND; E_RECMOVE; E_MAXREC; E_RANGE;
     E_ARGS; E_NACC; E_INVARG; E_QUOTA; E_FLOAT]).

Definition DBV_Prehistory : Z := 0.
Definition Num_DB_Versions : Z := 5.
Definition current_version : Z := Num_DB_Versions - 1.
Definition check_version (version : Z) : bool := version <? Num_DB_Versions.

(** A loop that reads [k] things: [for (i = 0; i < l; i++) r.v.list[i + 1] = dbio_read_var();] *)
Fixpoint read_times {A} (read : reader -> res (A * reader)) (k : nat) (rd : reader) : res (list A * reader) :=
  match k with
  | O => Ok ([], rd)
  | S k =>
      '(x, rd) ← read rd;
      '(xs, rd) ← read_times read k rd;
      Ok (x :: xs, rd)
  end.

Section values.

(** [read_waif] and [write_waif] of src/waif.c; what the upper half of the union holds when
    an error is stored. *)
Context (read_waif : reader -> res (positive * reader)) (write_waif : positive -> cstr) (upper : error -> Z).

Fixpoint dbio_read_var (fuel : nat) (version : Z) (rd : reader) : res (Var * reader) :=
  match fuel with
  | O => Fail OutOfFuel
  | S fuel =>
      '(n, rd) ← dbio_read_num rd;
      let l := wrap32 n in
      let l := if (l =? -1) && (version =? DBV_Prehistory) then 6 else l in
      if l =? 5 then Ok (Clear, rd)
      else if l =? 6 then Ok (None_, rd)
      else if l =? 2 then '(s, rd) ← dbio_read_string_intern rd; Ok (Str s, rd)
      else if l =? 1 then '(n, rd) ← dbio_read_num rd; Ok (Obj n, rd)
      else if l =? 3 then '(n, rd) ← dbio_read_num rd; e ← err_of_num n; Ok (Err e, rd)
      else if l =? 0 then '(n, rd) ← dbio_read_num rd; Ok (Int n, rd)
      else if l =? 7 then '(n, rd) ← dbio_read_num rd; Ok (Catch n, rd)
      else if l =? 8 then '(n, rd) ← dbio_read_num rd; Ok (Finally n, rd)
      else if l =? 9 then '(f, rd) ← dbio_read_float rd; Ok (Float f, rd)
      else if l =? 4 then
        '(n, rd) ← dbio_read_num rd;
        if wrap32 n <? 0 then Fail Undefined
        else
          '(vs, rd) ← read_times (dbio_read_var fuel version) (Z.to_nat (wrap32 n)) rd;
          Ok (List vs, rd)
      else if l =? 10 then '(w, rd) ← read_waif rd; Ok (WaifV w, rd)
      else Ok (zero_var, rd)
  end.

(** ** Output

    What is appended to the file; that writing fails is not modelled. *)

Definition dbio_write_num (n : Z) : cstr := print_int n ++ [NL].
Definition dbio_write_float (f : double) : cstr := print_g 19 f ++ [NL].
Definition dbio_write_objid (oid : Z) : cstr := dbio_write_num oid.
Definition dbio_write_string (s : cstr) : cstr := s ++ [NL].

Fixpoint dbio_write_var (v : Var) : cstr :=
  dbio_write_num (type_num (type_of v)) ++
  match v with
  | Clear | None_ => []
  | Str s => dbio_write_string s
  | Err e => dbio_write_num (wrap64 (upper e * 2 ^ 32 + error_num e))
  | Obj n | Int n | Catch n | Finally n => dbio_write_num n
  | Float f => dbio_write_float f
  | List vs => dbio_write_num (Z.of_nat (length vs)) ++ concat (dbio_write_var <$> vs)
  | WaifV w => write_waif w
  end.

End values.

(** ** Programs *)

(** [my_getc] until the end of a program: a dot at the start of a line, whose next character
    is dropped, or the end of the file. *)
Fixpoint program_text (prev_char : ascii) (s : cstr) : cstr * cstr :=
  match s with
  | [] => ([], [])
  | c :: s' =>
      if decide (c = chr 46 /\ prev_char = NL) then ([], tail s')
      else let '(t, r) := program_text c s' in (c :: t, r)
  end.

Section programs.

(** [parse_program] of src/parser.y, which reads all of the text if it succeeds, and
    [unparse_program] of src/unparse.c. *)
Context (parse_program : Z -> cstr -> option positive) (unparse_program : positive -> list cstr).

Definition dbio_read_program (version : Z) (rd : reader) : option positive * reader :=
  let '(text, r) := program_text NL (input rd) in
  (parse_program version text, mkReader r (buffer rd)).

Definition receiver (line : cstr) : cstr := line ++ [NL].
Definition dbio_write_program (program : positive) : cstr :=
  concat (receiver <$> unparse_program program) ++ [chr 46; NL].

End programs.

(** ** What reads back *)

(** [rd] reads [a] from the text [t], wherever that is followed by other things. *)
Definition reads {A} (rd : reader -> res (A * reader)) (t : cstr) (a : A) : Prop :=
  forall rest b, exists b', rd (mkReader (t ++ rest) b) = Ok (a, mkReader rest b').

(** Characters that end a line. *)
Definition line_ok (s : cstr) : Prop := nul_free s /\ NL ∉ s.

Lemma take_line_short n s rest : NL ∉ s -> (length s < n)%nat -> take_line n (s ++ NL :: rest) = (s ++ [NL], rest).
Proof.
  revert n. induction s as [|c s IH]; intros n Hs Hn; (destruct n as [|n]; [cbn in Hn; lia|]); cbn [app take_line].
  - by rewrite decide_True.
  - apply not_elem_of_cons in Hs as [Hc Hs]. rewrite decide_False by done. rewrite IH; [done|done|cbn in Hn; lia].
Qed.

Lemma take_line_long n s rest : NL ∉ s -> (n <= length s)%nat -> take_line n (s ++ rest) = (take n s, drop n s ++ rest).
Proof.
  revert n. induction s as [|c s IH]; intros n Hs Hn; (destruct n as [|n]; [done|]); [cbn in Hn; lia|].
  apply not_elem_of_cons in Hs as [Hc Hs]. cbn [app take_line take drop]. rewrite decide_False by done.
  rewrite IH; [done|done|cbn in Hn; lia].
Qed.

Lemma until_nul_id s : nul_free s -> until_nul s = s.
Proof.
  intros Hs. induction s as [|c s IH]; [done|]. apply nul_free_cons in Hs as [Hc Hs]. cbn [until_nul].
  rewrite decide_False by done. by rewrite IH.
Qed.

Lemma NL_nul_free : nul_free [NL].
Proof. apply (bool_decide_unpack _). vm_compute. exact I. Qed.

Lemma line_nul_free s : nul_free s -> nul_free (s ++ [NL]).
Proof. intros Hs. apply nul_free_app. split; [done|apply NL_nul_free]. Qed.

Lemma fgets_line size s rest : line_ok s -> (length s + 1 < size)%nat ->
  fgets size (s ++ NL :: rest) = Some (s ++ [NL], rest).
Proof.
  intros [Hn Hs] Hl. unfold fgets.
  destruct (s ++ NL :: rest) as [|c s'] eqn:E; [by destruct s|]. rewrite <- E.
  rewrite take_line_short by (done || lia). by rewrite until_nul_id by (by apply line_nul_free).
Qed.

Lemma reads_line size s rest b : line_ok s -> (length s + 1 < size)%nat ->
  read_line size (mkReader (s ++ NL :: rest) b) = Ok (s ++ [NL], mkReader rest b).
Proof. intros Hs Hl. unfold read_line. cbn [input buffer]. by rewrite fgets_line. Qed.

(** Numbers are lines. *)
Lemma print_int_line n : line_ok (print_int n).
Proof.
  split; [apply print_int_nul_free|]. intros Hin. assert (Hd : forall m, 0 <= m -> NL ∉ dec_nat m).
  { intros m Hm H. pose proof (dec_nat_chars m Hm) as Hc. rewrite Forall_forall in Hc. specialize (Hc NL H).
    unfold is_dec in Hc. change (ord NL) with 10 in Hc. lia. }
  unfold print_int in Hin. destruct (Z.ltb_spec n 0); [|by apply (Hd n)].
  apply elem_of_cons in Hin as [Hin|Hin]; [discriminate Hin|by apply (Hd (- n)); [lia|]].
Qed.

Lemma no_digit_NL t : no_digit (NL :: t).
Proof. done. Qed.

Lemma read_num_reads n : int_range 64 n -> reads dbio_read_num (dbio_write_num n) n.
Proof.
  intros Hn rest b. exists b. unfold dbio_read_num, dbio_write_num. rewrite <- app_assoc. cbn [app].
  rewrite reads_line; [|apply print_int_line|pose proof (print_int_length n Hn); lia].
  cbn [mbind res_bind]. by rewrite strtoimax_print_then.
Qed.

(** The library's nineteen digits are read back, and the line fits. *)
Definition float_ok (f : double) : Prop :=
  line_ok (print_g 19 f) /\ (length (print_g 19 f) < 39)%nat /\ (strtod (print_g 19 f ++ [NL])).1 = f.

Lemma read_float_reads f : float_ok f -> reads dbio_read_float (dbio_write_float f) f.
Proof.
  intros (Hl & Hn & Hf) rest b. exists b. unfold dbio_read_float, dbio_write_float. rewrite <- app_assoc. cbn [app].
  rewrite reads_line by (done || lia). cbn [mbind res_bind]. by rewrite Hf.
Qed.

(** Strings of any length, in pieces of 1023 characters. *)
Lemma read_string_Ok s : line_ok s -> forall fuel used rest b, (length s < fuel)%nat -> exists b',
  read_string fuel used (mkReader (s ++ NL :: rest) b) = Ok (used ++ s, mkReader rest b').
Proof.
  induction s as [s IH] using (induction_ltof1 _ (@length ascii)); unfold ltof in IH. intros [Hnul Hs] fuel used rest b Hf.
  destruct fuel as [|fuel]; [lia|]. cbn [read_string input buffer].
  destruct (decide (length s < 1023)%nat) as [Hshort|Hlong].
  - rewrite fgets_line by (done || lia). rewrite last_snoc, removelast_last. rewrite !(decide_True (P := NL = NL)) by done.
    exists s. by destruct (decide (length (s ++ [NL]) = 1023%nat)).
  - unfold fgets. destruct (s ++ NL :: rest) as [|c s'] eqn:E; [by destruct s|]. rewrite <- E. clear E.
    rewrite take_line_long by (done || lia). change (1024 - 1)%nat with 1023%nat.
    assert (Hnul' : nul_free (take 1023 s) /\ nul_free (drop 1023 s))
      by (apply nul_free_app; by rewrite take_drop).
    rewrite until_nul_id by apply Hnul'.
    assert (Hlen : length (take 1023 s) = 1023%nat) by (rewrite length_take; lia).
    destruct (last (take 1023 s)) as [c'|] eqn:El.
    2: { apply last_None in El. rewrite El in Hlen. discriminate Hlen. }
    rewrite decide_True by done. rewrite decide_False.
    2: { intros ->. apply last_Some in El as [l' El]. apply Hs. apply (subseteq_take 1023 s). rewrite El.
         apply elem_of_app. right. apply list_elem_of_here. }
    destruct (IH (drop 1023 s)) with (fuel := fuel) (used := used ++ take 1023 s) (rest := rest) (b := take 1023 s)
      as [b' Hb].
    + rewrite length_drop. lia.
    + split; [apply Hnul'|]. intros H. apply Hs. by apply (subseteq_drop 1023 s).
    + rewrite length_drop. lia.
    + exists b'. rewrite Hb, <- app_assoc. by rewrite take_drop.
Qed.

Lemma read_string_reads s : line_ok s -> reads dbio_read_string (dbio_write_string s) s.
Proof.
  intros Hs rest b. unfold dbio_read_string, dbio_write_string. cbn [input]. rewrite <- app_assoc. cbn [app].
  destruct (read_string_Ok s Hs (S (length (s ++ NL :: rest))) [] rest b) as [b' ->]; [|by exists b'].
  rewrite length_app. lia.
Qed.

Lemma reads_bind {A B} (rd : reader -> res (A * reader)) (k : A -> reader -> res (B * reader)) t a t' b :
  reads rd t a -> reads (k a) t' b -> reads (fun r => '(x, r) ← rd r; k x r) (t ++ t') b.
Proof.
  intros H1 H2 rest buf. rewrite <- app_assoc. destruct (H1 (t' ++ rest) buf) as [b1 ->]. cbn [mbind res_bind].
  apply H2.
Qed.

Lemma reads_ret {A} (a : A) : reads (fun r => Ok (a, r)) [] a.
Proof. intros rest b. by exists b. Qed.

Lemma reads_map {A B} (rd : reader -> res (A * reader)) (f : A -> B) t a :
  reads rd t a -> reads (fun r => '(x, r) ← rd r; Ok (f x, r)) t (f a).
Proof. intros H. rewrite <- (app_nil_r t). by apply (reads_bind rd (fun x r => Ok (f x, r)) t a); [|apply reads_ret]. Qed.

Lemma read_times_reads {A B} (rd : reader -> res (B * reader)) (write : A -> cstr) (f : A -> B) xs :
  Forall (fun x => reads rd (write x) (f x)) xs ->
  reads (read_times rd (length xs)) (concat (write <$> xs)) (f <$> xs).
Proof.
  induction 1 as [|x xs Hx _ IH]; intros rest b; [by exists b|]. cbn [length read_times fmap list_fmap concat].
  rewrite <- app_assoc. destruct (Hx (concat (write <$> xs) ++ rest) b) as [b1 ->]. cbn [mbind res_bind].
  destruct (IH rest b1) as [b2 ->]. by eexists.
Qed.

(** *** Values *)

(** Values that have a text: no waifs, numbers in their range, strings without newlines. *)
Fixpoint var_ok (v : Var) : Prop :=
  match v with
  | Int n | Obj n | Catch n | Finally n => int_range 64 n
  | Str s => line_ok s
  | Float f => float_ok f
  | List vs => Z.of_nat (length vs) < 2 ^ 31 /\ foldr (fun v P => var_ok v /\ P) True vs
  | WaifV _ => False
  | _ => True
  end.

Fixpoint depth (v : Var) : nat :=
  match v with
  | List vs => S (foldr (fun v n => Nat.max (depth v) n) 0%nat vs)
  | _ => 1%nat
  end.

Lemma foldr_Forall {A} (P : A -> Prop) xs : foldr (fun x Q => P x /\ Q) True xs <-> Forall P xs.
Proof. induction xs as [|x xs IH]; cbn; [done|]. by rewrite Forall_cons, IH. Qed.

Section values_back.
Context (read_waif : reader -> res (positive * reader)) (write_waif : positive -> cstr) (upper : error -> Z).
Local Abbreviation write := (dbio_write_var write_waif upper).
Local Abbreviation read := (dbio_read_var read_waif).

Lemma depth_length v : (depth v <= length (write v))%nat.
Proof.
  assert (Hnum : forall n, (1 <= length (dbio_write_num n))%nat).
  { intros n. unfold dbio_write_num. rewrite length_app. cbn. lia. }
  induction v as [| | | |vs IH| | | | | |] using Var_nested_ind; cbn [dbio_write_var depth]; rewrite length_app;
    try (pose proof (Hnum (type_num (type_of (List [])))); unfold dbio_write_num at 1; rewrite length_app; cbn; lia).
  rewrite length_app. pose proof (Hnum (type_num TYPE_LIST)). cbn [type_of].
  assert (foldr (fun v n => Nat.max (depth v) n) 0%nat vs <= length (concat (write <$> vs)))%nat; [|lia].
  clear -IH. induction IH as [|v vs Hv _ IH]; cbn; [lia|]. rewrite length_app. lia.
Qed.

Lemma err_back e : err_of_num (wrap64 (upper e * 2 ^ 32 + error_num e)) = Ok e.
Proof.
  assert (H : u32 (wrap64 (upper e * 2 ^ 32 + error_num e)) = error_num e).
  { unfold u32. pose proof (swrap_congr 64 (upper e * 2 ^ 32 + error_num e) ltac:(lia)) as H.
    apply (f_equal (fun z => z mod 2 ^ 32)) in H.
    change (2 ^ 64) with (2 ^ 32 * 2 ^ 32) in H. rewrite !Z.rem_mul_r in H by lia.
    rewrite !(Z.mul_comm (2 ^ 32) (_ mod _)), !Z_mod_plus_full, !Z.mod_mod in H by lia.
    unfold wrap64. rewrite H, Z.add_comm, Z_mod_plus_full. apply Z.mod_small. destruct e; cbn; lia. }
  unfold err_of_num. rewrite H. by destruct e.
Qed.

(** One turn of the reader, after the type. *)
Ltac read_type :=
  intros rest b; cbn [dbio_write_var dbio_read_var type_of type_num]; rewrite <- app_assoc;
  match goal with
  | |- context [mkReader (dbio_write_num ?n ++ ?t) b] =>
      let b1 := fresh "b" in
      destruct (read_num_reads n ltac:(vm_compute; split; [discriminate|reflexivity]) t b) as [b1 ->]
  end;
  cbn [mbind res_bind];
  match goal with |- context [wrap32 ?n] => change (wrap32 n) with n end;
  cbn [Z.eqb Pos.eqb andb].

Lemma read_var_reads v : var_ok v -> forall fuel version, (depth v <= fuel)%nat -> reads (read fuel version) (write v) v.
Proof.
  induction v as [n|n|s|e|vs IH| | |n|n|f|w] using Var_nested_ind; cbn [var_ok]; intros Hv fuel version Hf;
    (destruct fuel as [|fuel]; [cbn in Hf; lia|]); try done.
  - read_type. destruct (read_num_reads n Hv rest b0) as [b1 ->]. by eexists.
  - read_type. destruct (read_num_reads n Hv rest b0) as [b1 ->]. by eexists.
  - read_type. destruct (read_string_reads s Hv rest b0) as [b1 H]. unfold dbio_read_string_intern. rewrite H. by eexists.
  - read_type. destruct (read_num_reads _ (swrap_range 64 (upper e * 2 ^ 32 + error_num e) ltac:(lia)) rest b0) as [b1 H].
    unfold wrap64. rewrite H. cbn [mbind res_bind]. fold (wrap64 (upper e * 2 ^ 32 + error_num e)). rewrite err_back.
    by eexists.
  - destruct Hv as [Hlen Hvs]. rewrite foldr_Forall in Hvs. read_type. rewrite <- app_assoc.
    assert (Hn : int_range 32 (Z.of_nat (length vs))) by (unfold int_range; lia).
    destruct (read_num_reads (Z.of_nat (length vs)) ltac:(unfold int_range in *; lia) (concat (write <$> vs) ++ rest) b0)
      as [b1 ->]. cbn [mbind res_bind]. unfold wrap32. rewrite !swrap_id by (done || lia).
    destruct (Z.ltb_spec (Z.of_nat (length vs)) 0); [lia|]. rewrite Nat2Z.id.
    assert (Hall : Forall (fun v => reads (read fuel version) (write v) (Datatypes.id v)) vs);
      [|destruct (read_times_reads _ write Datatypes.id vs Hall rest b1) as [b2 ->]; rewrite list_fmap_id; by eexists].
    cbn [depth] in Hf. clear -IH Hvs Hf. induction vs as [|v vs IHvs]; [by constructor|]. cbn in Hf.
    apply Forall_cons in IH as [IHv IH]. apply Forall_cons in Hvs as [Hv Hvs].
    constructor; [apply IHv; [done|lia]|apply IHvs; [done|done|lia]].
  - read_type. by eexists.
  - read_type. by eexists.
  - read_type. destruct (read_num_reads n Hv rest b0) as [b1 ->]. by eexists.
  - read_type. destruct (read_num_reads n Hv rest b0) as [b1 ->]. by eexists.
  - read_type. destruct (read_float_reads f Hv rest b0) as [b1 ->]. by eexists.
Qed.
End values_back.

(** *** Programs *)

(** Lines that do not start with a dot. *)
Definition program_line (line : cstr) : Prop := NL ∉ line /\ head line <> Some (chr 46).

Lemma program_text_in_line prev line rest : NL ∉ line -> (prev <> NL \/ head line <> Some (chr 46)) ->
  program_text prev (line ++ NL :: rest) = let '(t, r) := program_text NL rest in (line ++ NL :: t, r).
Proof.
  revert prev. induction line as [|c line IH]; intros prev Hn Hd; cbn [app program_text].
  - rewrite decide_False by (intros [H _]; discriminate H). done.
  - apply not_elem_of_cons in Hn as [Hc Hn]. rewrite decide_False.
    2: { intros [-> ->]. by destruct Hd. }
    rewrite IH by (try done; by left). by destruct (program_text NL rest).
Qed.

Lemma program_text_Ok lines rest : Forall program_line lines ->
  program_text NL (concat (receiver <$> lines) ++ chr 46 :: NL :: rest) = (concat (receiver <$> lines), rest).
Proof.
  induction 1 as [|line lines [Hn Hd] _ IH]; cbn [fmap list_fmap concat]; [done|]. unfold receiver at 1.
  rewrite <- !app_assoc. cbn [app]. rewrite program_text_in_line by (done || by right).
  rewrite IH. unfold receiver at 2. by rewrite <- app_assoc.
Qed.

Section programs_back.
Context (parse_program : Z -> cstr -> option positive) (unparse_program : positive -> list cstr).

(** The decompiler's text compiles to the same program, and no line of it starts with a
    dot. *)
Definition program_ok (p : positive) : Prop := Forall program_line (unparse_program p) /\
  parse_program current_version (concat (receiver <$> unparse_program p)) = Some p.

Lemma read_program_Ok p rest b : program_ok p ->
  dbio_read_program parse_program current_version (mkReader (dbio_write_program unparse_program p ++ rest) b)
  = (Some p, mkReader rest b).
Proof.
  intros [Hl Hp]. unfold dbio_read_program, dbio_write_program. cbn [input buffer]. rewrite <- app_assoc. cbn [app].
  rewrite program_text_Ok by done. by rewrite Hp.
Qed.
End programs_back.

(** ** Properties *)

(** C29: Reading back: every value without waifs, whose numbers fit in 64 bits, whose strings
    have no newline and whose floating-point numbers the library prints well, is read from
    the text that was written for it, whatever follows, and exactly that text is consumed;
    strings may have any length and lists any depth, and the unused upper half of an error
    does not matter. *)
Theorem dbio_roundtrip read_waif write_waif upper v version rest b : var_ok v -> exists b',
  dbio_read_var read_waif (S (length (dbio_write_var write_waif upper v ++ rest))) version
    (mkReader (dbio_write_var write_waif upper v ++ rest) b) = Ok (v, mkReader rest b').
Proof.
  intros Hv. apply read_var_reads; [done|]. rewrite length_app.
  pose proof (depth_length write_waif upper v). lia.
Qed.

Lemma dbio_roundtrip_witness :
  let v := List [Str (replicate 3000 "x"%char); Err E_PERM; List [Float (strtod (lit "-2.5")).1; Int MININT]; Clear] in
  exists b', dbio_read_var (fun _ => Fail Undefined) (S (length (dbio_write_var (fun _ => []) (fun _ => -7) v ++ lit "0")))
    4 (mkReader (dbio_write_var (fun _ => []) (fun _ => -7) v ++ lit "0") []) = Ok (v, mkReader (lit "0") b').
Proof.
  intros v. apply (dbio_roundtrip (fun _ => Fail Undefined) (fun _ => []) (fun _ => -7) v 4 (lit "0") []).
  cbn [var_ok foldr]. split; [vm_compute; reflexivity|]. split.
  { apply (bool_decide_unpack _). vm_compute. exact I. }
  split; [exact I|]. split; [|split; exact I]. split; [vm_compute; reflexivity|]. split.
  - apply (bool_decide_unpack _). vm_compute. exact I.
  - split; [|exact I]. vm_compute. split; [discriminate|reflexivity].
Defined.
