(* ===== verification/DbFile.v ===== *)
(** * The database file (src/db_file.c)

    Writing the whole database as text, and loading it.  The programs' syntax, the queue of
    tasks and the list of connections are parameters. *)

From S2P Require Import Prelude CStrings Values Libc Links Db Properties Layout Tables Objects Words Preps Verbs.
From S2P Require Import ObjectBuiltins Dbio Validate.

Open Scope Z_scope.

(** ** Verbs and properties *)

Definition write_verbdef (v : Verbdef) : cstr :=
  dbio_write_string (v_name v) ++ dbio_write_objid (v_owner v) ++ dbio_write_num (v_perms v) ++
  dbio_write_num (v_prep v).

Definition read_verbdef (rd : reader) : res (Verbdef * reader) :=
  '(nm, rd) ← dbio_read_string_intern rd;
  '(own, rd) ← dbio_read_objid rd;
  '(perms, rd) ← dbio_read_num rd;
  '(prep, rd) ← dbio_read_num rd;
  Ok (mkVerbdef nm None own (wrap16 perms) (wrap16 prep), rd).

Definition write_propdef (p : Propdef) : cstr := dbio_write_string (pd_name p).

Definition read_propdef (rd : reader) : res (Propdef * reader) :=
  '(nm, rd) ← dbio_read_string_intern rd;
  Ok (dbpriv_new_propdef nm, rd).

(** Results of a function for each element, one after the other. *)
Fixpoint collect {A B} (f : A -> res (list B)) (xs : list A) : res (list B) :=
  match xs with
  | [] => Ok []
  | x :: xs => y ← f x; ys ← collect f xs; Ok (y ++ ys)
  end.

(** [#%d] *)
Definition hash_num (oid : Z) : cstr := chr 35 :: print_int oid.

Section file.

Context (read_waif : reader -> res (positive * reader)) (write_waif : positive -> cstr) (upper : error -> Z).
Context (parse_program : Z -> cstr -> option positive) (unparse_program : positive -> list cstr).
(** [write_task_queue] and [read_task_queue] of src/tasks.c, [write_active_connections] and
    [read_active_connections] of src/server.c. *)
Context (write_task_queue write_active_connections : cstr).
Context (read_task_queue read_active_connections : reader -> res (bool * reader)).

Definition write_propval (p : Pval) : cstr :=
  dbio_write_var write_waif upper (p_var p) ++ dbio_write_objid (p_owner p) ++ dbio_write_num (p_perms p).

Definition read_propval (version : Z) (rd : reader) : res (Pval * reader) :=
  '(v, rd) ← dbio_read_var read_waif (S (length (input rd))) version rd;
  '(own, rd) ← dbio_read_objid rd;
  '(perms, rd) ← dbio_read_num rd;
  Ok (mkPval v own (wrap16 perms), rd).

(** ** Objects *)

Definition write_object (d : db) (oid : Z) : res cstr :=
  match dbpriv_find_object d oid with
  | None => Ok (hash_num oid ++ lit " recycled" ++ [NL])
  | Some o =>
      vs ← collect (fun v => vd ← deref (verbs d !! v); Ok (write_verbdef vd)) (verbdefs o);
      nprops ← dbpriv_count_properties d oid;
      cells ← copy (propval o) 0 nprops;
      Ok (hash_num oid ++ [NL] ++ dbio_write_string (name o) ++ dbio_write_string [] ++ dbio_write_num (flags o) ++
        dbio_write_objid (owner o) ++
        dbio_write_objid (location o) ++ dbio_write_objid (contents o) ++ dbio_write_objid (next o) ++
        dbio_write_objid (parent o) ++ dbio_write_objid (child o) ++ dbio_write_objid (sibling o) ++
        dbio_write_num (Z.of_nat (length (verbdefs o))) ++ vs ++
        dbio_write_num (Z.of_nat (cur_length (propdefs o))) ++ concat (write_propdef <$> l (propdefs o)) ++
        dbio_write_num (Z.of_nat nprops) ++ concat (write_propval <$> cells))
  end.

(** [for (i = dbio_read_num(); i > 0; i--)]: every verb is allocated. *)
Fixpoint read_verbdefs (k : nat) (heap : gmap positive Verbdef) (rd : reader)
    : res (list positive * gmap positive Verbdef * reader) :=
  match k with
  | O => Ok ([], heap, rd)
  | S k =>
      '(vd, rd) ← read_verbdef rd;
      let p : positive := base.fresh (dom heap) in
      '(vs, heap, rd) ← read_verbdefs k (<[p := vd]> heap) rd;
      Ok (p :: vs, heap, rd)
  end.

(** A count that an array is allocated for. *)
Definition read_count (rd : reader) : res (nat * reader) :=
  '(n, rd) ← dbio_read_num rd;
  if wrap32 n <? 0 then Fail Undefined else Ok (Z.to_nat (wrap32 n), rd).

(** What is read after the number of an object. *)
Definition read_object_body (version oid : Z) (d : db) (rd : reader) : res (db * reader) :=
  '(nm, rd) ← dbio_read_string_intern rd;
  '(_, rd) ← dbio_read_string rd;
  '(fl, rd) ← dbio_read_num rd;
  '(own, rd) ← dbio_read_objid rd;
  '(loc, rd) ← dbio_read_objid rd;
  '(cont, rd) ← dbio_read_objid rd;
  '(nx, rd) ← dbio_read_objid rd;
  '(par, rd) ← dbio_read_objid rd;
  '(ch, rd) ← dbio_read_objid rd;
  '(sib, rd) ← dbio_read_objid rd;
  '(n, rd) ← dbio_read_num rd;
  '(vs, heap, rd) ← read_verbdefs (Z.to_nat (wrap32 n)) (verbs d) rd;
  '(n, rd) ← read_count rd;
  '(defs, rd) ← read_times read_propdef n rd;
  '(nprops, rd) ← read_count rd;
  '(cells, rd) ← read_times (read_propval version) nprops rd;
  d ← upd_object oid (fun o => mkObject (id o) own loc cont nx par ch sib nm (wrap32 fl) vs
        (mkProplist (Z.of_nat n) defs) cells (waif_propdefs o)) (with_verbs heap d);
  Ok (d, rd).

(** [garbage]: the memory of a new object. *)
Definition read_object (garbage : Object) (version : Z) (d : db) (rd : reader) : res (bool * (db * reader)) :=
  let '(ns, rd) := dbio_scanf [Lit (chr 35); Num] rd in
  match ns with
  | [oid] =>
      if negb (oid =? db_last_used_objid d + 1) then Ok (false, (d, rd))
      else
        '(s, rd) ← read_line 20 rd;
        if decide (s = lit " recycled" ++ [NL]) then
          d ← dbpriv_new_recycled_object d; Ok (true, (d, rd))
        else if decide (s <> [NL]) then Ok (false, (d, rd))
        else
          '(oid, d) ← dbpriv_new_object garbage d;
          r ← read_object_body version oid d rd;
          Ok (true, r)
  | _ => Ok (false, (d, rd))
  end.

(** [for (i = 1; i <= k; i++) if (!body) return 0;] *)
Fixpoint load_times (body : db -> reader -> res (bool * (db * reader))) (k : nat) (d : db) (rd : reader)
    : res (bool * (db * reader)) :=
  match k with
  | O => Ok (true, (d, rd))
  | S k =>
      '(ok, (d, rd)) ← body d rd;
      if (ok : bool) then load_times body k d rd else Ok (false, (d, rd))
  end.

(** ** Programs *)

(** The verbs with programs, in the order of the file: object, position and program. *)
Definition object_programs (d : db) (oid : Z) : res (list (Z * nat * positive)) :=
  match dbpriv_find_object d oid with
  | None => Ok []
  | Some o =>
      collect (fun '(n, v) => vd ← deref (verbs d !! v);
                 Ok (match v_program vd with Some p => [(oid, n, p)] | None => [] end))
        (imap pair (verbdefs o))
  end.

Definition write_program_entry (e : Z * nat * positive) : cstr :=
  let '(oid, vcount, p) := e in
  hash_num oid ++ chr 58 :: print_int (Z.of_nat vcount) ++ [NL] ++ dbio_write_program unparse_program p.

Definition read_program_entry (version : Z) (d : db) (rd : reader) : res (bool * (db * reader)) :=
  let '(ns, rd) := dbio_scanf [Lit (chr 35); Num; Lit (chr 58); Num; White] rd in
  match ns with
  | [oid; vnum] =>
      if negb (valid d oid) then Ok (false, (d, rd))
      else
        h ← db_find_indexed_verb d oid (u32 (vnum + 1));
        match h with
        | NullHandle => Ok (false, (d, rd))
        | h =>
            let '(p, rd) := dbio_read_program parse_program version rd in
            match p with
            | None => Ok (false, (d, rd))
            | Some p => d ← db_set_verb_program h p d; Ok (true, (d, rd))
            end
        end
  | _ => Ok (false, (d, rd))
  end.

(** ** The whole file *)

(** [header_format_string], and its directives. *)
Definition header (version : Z) : cstr :=
  lit "** LambdaMOO Database, Format Version " ++ print_int version ++ lit " **" ++ [NL].
Definition literals (s : cstr) : list directive := (fun c => if isspace (ord c) then White else Lit c) <$> s.
Definition header_directives : list directive :=
  literals (lit "** LambdaMOO Database, Format Version ") ++ [UNum] ++ literals (lit " **") ++ [White].

Definition write_user (v : Var) : res cstr :=
  match v with Obj oid => Ok (dbio_write_objid oid) | _ => Fail Undefined end.

(** [waif_before_saving] and [waif_after_saving], which prepare the table of waifs, are left
    out. *)
Definition write_db_file (d : db) : res cstr :=
  let oids := seqZ 0 (db_last_used_objid d + 1) in
  programs ← collect (object_programs d) oids;
  users ← collect write_user (all_users d);
  objs ← collect (write_object d) oids;
  Ok (header current_version ++
      dbio_write_num (db_last_used_objid d + 1) ++ dbio_write_num (wrap32 (Z.of_nat (length programs))) ++
      dbio_write_num 0 ++ dbio_write_num (Z.of_nat (length (all_users d))) ++
      users ++ objs ++ concat (write_program_entry <$> programs) ++
      write_task_queue ++ write_active_connections).

(** What is read after the users: objects, their validation and the programs. *)
Definition read_contents (garbage : Object) (version nobjs nprogs : Z) (d : db) (rd : reader)
    : res (bool * (db * reader)) :=
  '(ok, (d, rd)) ← load_times (read_object garbage version) (Z.to_nat nobjs) d rd;
  if negb ok then Ok (false, (d, rd))
  else
    '(ok, d) ← validate_hierarchies d;
    if negb (ok : bool) then Ok (false, (d, rd))
    else load_times (read_program_entry version) (Z.to_nat nprogs) d rd.

(** The table of waifs that [waif_after_loading] fills in is left out. *)
Definition read_db_file (garbage : Object) (d : db) (rd : reader) : res (bool * (db * reader)) :=
  let '(ns, rd) := dbio_scanf header_directives rd in
  let version := match ns with [v] => v | _ => DBV_Prehistory end in
  if negb (check_version version) then Ok (false, (d, rd))
  else
    let '(ns, rd) := dbio_scanf [Num; White; Num; White; Num; White; Num; White] rd in
    match ns with
    | [nobjs; nprogs; _; nusers] =>
        if (nusers <? 0) || (2 ^ 31 <=? nusers) then Fail Undefined
        else
          '(users, rd) ← read_times dbio_read_objid (Z.to_nat nusers) rd;
          let d := dbpriv_set_all_users d (Obj <$> users) in
          '(ok, (d, rd)) ← read_contents garbage version nobjs nprogs d rd;
          if negb ok then Ok (false, (d, rd))
          else
            '(ok, rd) ← read_task_queue rd;
            if negb (ok : bool) then Ok (false, (d, rd))
            else
              '(ok, rd) ← read_active_connections rd;
              Ok (ok, (d, rd))
    | _ => Ok (false, (d, rd))
    end.

End file.
