(* ===== verification/DbFileOps.v ===== *)
(** * The database file: what is written is read back (src/db_file.c) *)

From S2P Require Import Prelude CStrings Values Lists Libc Links Db Properties Layout Tables Objects.
From S2P Require Import Sample PropertyOps RenameProp Reparent ObjectOps Renumber Words Preps Verbs VerbCache VerbOps.
From S2P Require Import Numbers ObjectBuiltins Invariant Validate Dbio DbFile.

Open Scope Z_scope.

(** Reading the next thing, by a lemma [reads _ _ _]. *)
Ltac eat H :=
  lazymatch type of H with
  | reads ?f ?t _ =>
      match goal with
      | |- context [f (mkReader (t ++ ?r) ?b)] =>
          let b' := fresh "b" in
          destruct (H r b) as [b' ->]; cbn [mbind res_bind]
      end
  end.

Lemma wrap16_id n : int_range 16 n -> wrap16 n = n.
Proof. intros H. by apply swrap_id. Qed.

Lemma range_16_64 n : int_range 16 n -> int_range 64 n.
Proof. unfold int_range. lia. Qed.

Lemma range_32_64 n : int_range 32 n -> int_range 64 n.
Proof. unfold int_range. lia. Qed.

Lemma count_range n : Z.of_nat n < 2 ^ 31 -> int_range 32 (Z.of_nat n) /\ int_range 64 (Z.of_nat n).
Proof. unfold int_range. lia. Qed.

(** ** Pieces *)

(** A verb as it is read: without its program. *)
Definition reverb (programmed : bool) (vd : Verbdef) : Verbdef :=
  mkVerbdef (v_name vd) (if programmed then v_program vd else None) (v_owner vd) (v_perms vd) (v_prep vd).

Definition verb_text_ok (vd : Verbdef) : Prop := line_ok (v_name vd) /\ int_range 64 (v_owner vd) /\
  int_range 16 (v_perms vd) /\ int_range 16 (v_prep vd).

Lemma read_verbdef_reads vd : verb_text_ok vd -> reads read_verbdef (write_verbdef vd) (reverb false vd).
Proof.
  intros (Hn & Ho & Hp & Hr) rest b. unfold read_verbdef, write_verbdef. rewrite <- !app_assoc.
  unfold dbio_read_string_intern. eat (read_string_reads _ Hn). unfold dbio_read_objid, dbio_write_objid.
  eat (read_num_reads _ Ho). eat (read_num_reads _ (range_16_64 _ Hp)). eat (read_num_reads _ (range_16_64 _ Hr)).
  eexists. by rewrite !wrap16_id.
Qed.

Definition def_text_ok (p : Propdef) : Prop := line_ok (pd_name p) /\ pd_hash p = str_hash (pd_name p).

Lemma read_propdef_reads p : def_text_ok p -> reads read_propdef (write_propdef p) p.
Proof.
  intros [Hn Hh] rest b. unfold read_propdef, write_propdef, dbio_read_string_intern.
  eat (read_string_reads _ Hn). eexists. unfold dbpriv_new_propdef. rewrite <- Hh. by destruct p.
Qed.

Section pieces.
Context (read_waif : reader -> res (positive * reader)) (write_waif : positive -> cstr) (upper : error -> Z).

Definition cell_ok (pv : Pval) : Prop := var_ok (p_var pv) /\ int_range 64 (p_owner pv) /\ int_range 16 (p_perms pv).

Lemma read_propval_reads version pv : cell_ok pv ->
  reads (read_propval read_waif version) (write_propval write_waif upper pv) pv.
Proof.
  intros (Hv & Ho & Hp) rest b. unfold read_propval, write_propval. rewrite <- !app_assoc. cbn [input].
  match goal with |- context [mkReader (_ ++ ?r) b] =>
    destruct (read_var_reads read_waif write_waif upper (p_var pv) Hv
      (S (length (dbio_write_var write_waif upper (p_var pv) ++ r))) version) with (rest := r) (b := b) as [b1 ->] end.
  { rewrite length_app. pose proof (depth_length write_waif upper (p_var pv)). lia. }
  cbn [mbind res_bind]. unfold dbio_read_objid, dbio_write_objid. eat (read_num_reads _ Ho).
  eat (read_num_reads _ (range_16_64 _ Hp)). eexists. rewrite wrap16_id by done. by destruct pv.
Qed.

Lemma read_count_reads n : Z.of_nat n < 2 ^ 31 -> reads read_count (dbio_write_num (Z.of_nat n)) n.
Proof.
  intros Hn rest b. destruct (count_range n Hn) as [H32 H64]. unfold read_count. eat (read_num_reads _ H64).
  unfold wrap32. rewrite swrap_id by (done || lia). destruct (Z.ltb_spec (Z.of_nat n) 0); [lia|].
  rewrite Nat2Z.id. by eexists.
Qed.

(** Verbs get new addresses, and nothing else is in the heap. *)
Lemma read_verbdefs_Ok vds : Forall verb_text_ok vds -> forall heap rest b, exists vs heap' b',
  read_verbdefs (length vds) heap (mkReader (concat (write_verbdef <$> vds) ++ rest) b)
    = Ok (vs, heap', mkReader rest b') /\
  (forall v vd, heap !! v = Some vd -> heap' !! v = Some vd) /\ NoDup vs /\ (forall v, v ∈ vs -> heap !! v = None) /\
  (forall v vd, heap' !! v = Some vd -> heap !! v = Some vd \/ exists vd', vd' ∈ vds /\ vd = reverb false vd') /\
  Forall2 (fun vd v => heap' !! v = Some (reverb false vd)) vds vs.
Proof.
  induction 1 as [|vd vds Hvd _ IH]; intros heap rest b; cbn [length read_verbdefs fmap list_fmap concat].
  - exists [], heap, b. split; [done|]. split; [done|]. split; [constructor|]. split; [|split; [by left|constructor]].
    intros v Hv. by apply elem_of_nil in Hv.
  - rewrite <- app_assoc. eat (read_verbdef_reads vd Hvd). set (p := base.fresh (dom heap)).
    assert (Hp : heap !! p = None) by (apply not_elem_of_dom, is_fresh).
    destruct (IH (<[p := reverb false vd]> heap) rest b0) as (vs & heap' & b' & -> & Hsub & Hnd & Hnew & Hback & Hall).
    cbn [mbind res_bind]. exists (p :: vs), heap', b'. split; [done|]. split; [|split; [|split; [|split]]].
    + intros v wd Hv. apply Hsub. rewrite lookup_insert_ne; [done|]. intros <-. congruence.
    + apply NoDup_cons. split; [|done]. intros Hin. specialize (Hnew p Hin). by rewrite lookup_insert_eq in Hnew.
    + intros v [->|Hv]%elem_of_cons; [done|]. specialize (Hnew v Hv).
      destruct (decide (v = p)) as [->|]; [done|]. by rewrite lookup_insert_ne in Hnew.
    + intros v wd [Hv|(vd' & Hin & ->)]%Hback.
      * destruct (decide (v = p)) as [->|]; [|rewrite lookup_insert_ne in Hv by done; by left].
        rewrite lookup_insert_eq in Hv. injection Hv as <-. right. exists vd. split; [apply list_elem_of_here|done].
      * right. exists vd'. split; [by apply list_elem_of_further|done].
    + constructor; [|done]. apply Hsub. by rewrite lookup_insert_eq.
Qed.

End pieces.

(** ** What can be saved *)

(** Names and strings are lines, numbers fit their types, programs can be compiled. *)
Section savable.
Context (parse_program : Z -> cstr -> option positive) (unparse_program : positive -> list cstr).

(** The program's text, which [scanf] has not eaten into. *)
Definition program_text_ok (p : positive) : Prop := program_ok parse_program unparse_program p /\
  match unparse_program p with line :: _ => exists c s, line = c :: s /\ isspace (ord c) = false | [] => True end.

Record object_ok (d : db) (o : Object) : Prop := {
  ok_name : line_ok (name o);
  ok_flags : int_range 32 (flags o) /\ lasting (flags o) = flags o;
  ok_owner : int_range 64 (owner o);
  ok_verbs : Z.of_nat (length (verbdefs o)) < 2 ^ 31;
  ok_verb v vd : v ∈ verbdefs o -> verbs d !! v = Some vd -> line_ok (v_name vd) /\ int_range 64 (v_owner vd) /\
    forall p, v_program vd = Some p -> program_text_ok p;
  ok_defs : Z.of_nat (cur_length (propdefs o)) < 2 ^ 31;
  ok_def p : p ∈ l (propdefs o) -> line_ok (pd_name p);
  ok_cells : Z.of_nat (length (propval o)) < 2 ^ 31;
  ok_cell pv : pv ∈ propval o -> cell_ok pv }.

Record savable (d : db) : Prop := {
  sv_size : 0 < num_objects d < 2 ^ 31;
  sv_users : Z.of_nat (length (all_users d)) < 2 ^ 31;
  sv_programs es : collect (object_programs d) (seqZ 0 (num_objects d)) = Ok es -> Z.of_nat (length es) < 2 ^ 31;
  sv_object x o : objects d !! x = Some o -> object_ok d o }.

End savable.

(** ** Directives *)

Definition no_space (s : cstr) : Prop := match s with c :: _ => isspace (ord c) = false | [] => True end.

Lemma scanf_lit c ds s : scanf (Lit c :: ds) (c :: s) = scanf ds s.
Proof. cbn [scanf]. by rewrite decide_True. Qed.

Lemma scanf_white c ds s : isspace (ord c) = true -> no_space s -> scanf (White :: ds) (c :: s) = scanf ds s.
Proof. intros Hc Hs. cbn [scanf skip_while]. rewrite Hc. destruct s as [|c' s]; [done|]. by rewrite skip_while_head. Qed.

Lemma print_int_head n : int_range 64 n -> exists c s, print_int n = c :: s /\ isspace (ord c) = false.
Proof.
  intros Hn. unfold print_int. destruct (Z.ltb_spec n 0); [by do 2 eexists|].
  destruct (dec_nat_head n) as (c & s & -> & Hc); [lia|]. unfold is_dec in Hc. do 2 eexists. split; [done|].
  unfold isspace. lia.
Qed.

Lemma print_int_space n t : int_range 64 n -> no_space (print_int n ++ t).
Proof. intros Hn. by destruct (print_int_head n Hn) as (c & s & -> & Hc). Qed.

Lemma print_int_longer n t : int_range 64 n -> t <> print_int n ++ t.
Proof.
  intros Hn E. apply (f_equal length) in E. rewrite length_app in E.
  destruct (print_int_head n Hn) as (c & s & Hp & _). rewrite Hp in E. cbn in E. lia.
Qed.

Lemma scanf_num n ds t : int_range 64 n -> no_digit t ->
  scanf (Num :: ds) (print_int n ++ t) = let '(ns, r) := scanf ds t in (n :: ns, r).
Proof.
  intros Hn Ht. cbn [scanf]. rewrite strtoimax_print_then by done. rewrite decide_False; [done|].
  by apply print_int_longer.
Qed.

Lemma scanf_unum n ds t : 0 <= n < 2 ^ 32 -> no_digit t ->
  scanf (UNum :: ds) (print_int n ++ t) = let '(ns, r) := scanf ds t in (n :: ns, r).
Proof.
  intros Hn Ht. assert (H64 : int_range 64 n) by (unfold int_range; lia).
  cbn [scanf]. rewrite strtoimax_print_then by done. rewrite decide_False by (by apply print_int_longer).
  unfold u32. by rewrite Z.mod_small.
Qed.

(** A literal whose white space is single spaces. *)
Fixpoint spaced (s : cstr) : bool :=
  match s with
  | [] => true
  | c :: s' => (negb (isspace (ord c)) || bool_decide (c = chr 32) && match s' with c' :: _ => negb (isspace (ord c')) | [] => true end)
               && spaced s'
  end.

Lemma spaced_literals s ds t : spaced s = true -> no_space t -> scanf (literals s ++ ds) (s ++ t) = scanf ds t.
Proof.
  revert ds t. induction s as [|c s IH]; intros ds t Hs Ht; [done|]. cbn [spaced] in Hs.
  rewrite andb_true_iff, orb_true_iff, negb_true_iff, andb_true_iff in Hs. destruct Hs as [Hc Hs].
  cbn [literals fmap list_fmap app]. destruct (isspace (ord c)) eqn:E; [|rewrite scanf_lit; by apply IH].
  destruct Hc as [Hc|[_ Hc]]; [discriminate Hc|].
  rewrite scanf_white; [by apply IH|done|]. destruct s as [|c' s']; [done|]. by apply negb_true_iff.
Qed.

Lemma header_Ok rest : no_space rest -> scanf header_directives (header current_version ++ rest) = ([current_version], rest).
Proof.
  intros Hr. unfold header, header_directives. rewrite <- !app_assoc.
  rewrite spaced_literals; [|reflexivity|by apply print_int_space].
  cbn [app]. rewrite scanf_unum; [|unfold current_version, Num_DB_Versions; lia|done].
  change (literals (lit " **") ++ [White]) with [White; Lit (chr 42); Lit (chr 42); White].
  change (lit " **" ++ NL :: rest) with (chr 32 :: chr 42 :: chr 42 :: NL :: rest).
  rewrite scanf_white, !scanf_lit by done. by rewrite scanf_white.
Qed.

(** Four numbers on lines of their own. *)
Lemma counts_Ok a b c d rest : int_range 64 a -> int_range 64 b -> int_range 64 c -> int_range 64 d -> no_space rest ->
  scanf [Num; White; Num; White; Num; White; Num; White]
    (dbio_write_num a ++ dbio_write_num b ++ dbio_write_num c ++ dbio_write_num d ++ rest) = ([a; b; c; d], rest).
Proof.
  intros Ha Hb Hc Hd Hr. unfold dbio_write_num. rewrite <- !app_assoc.
  do 3 (rewrite scanf_num by done; cbn [app]; rewrite scanf_white; [|done|by apply print_int_space]).
  rewrite scanf_num by done. cbn [app]. by rewrite scanf_white.
Qed.

Lemma hash_Ok x ds t : int_range 64 x -> no_digit t ->
  scanf (Lit (chr 35) :: Num :: ds) (hash_num x ++ t) = let '(ns, r) := scanf ds t in (x :: ns, r).
Proof. intros Hx Ht. unfold hash_num. cbn [app]. rewrite scanf_lit. by apply scanf_num. Qed.

(** ** Writing an object *)

Lemma collect_Ok {A B C} (f : A -> res (list B)) (g : C -> list B) xs ys : Forall2 (fun x y => f x = Ok (g y)) xs ys ->
  collect f xs = Ok (concat (g <$> ys)).
Proof.
  induction 1 as [|x y xs ys Hx _ IH]; [done|]. cbn [collect fmap list_fmap concat]. rewrite Hx. cbn [mbind res_bind].
  by rewrite IH.
Qed.

Lemma collect_app_Ok {A B} (f : A -> res (list B)) xs ys a b : collect f xs = Ok a -> collect f ys = Ok b ->
  collect f (xs ++ ys) = Ok (a ++ b).
Proof.
  revert a. induction xs as [|x xs IH]; intros a; cbn [collect app]; [by intros [= <-]|].
  destruct (f x) as [y|]; [|done]. cbn [mbind res_bind]. destruct (collect f xs) as [a'|]; [|done].
  cbn [mbind res_bind]. intros [= <-] Hb. rewrite (IH a' eq_refl Hb). cbn [mbind res_bind]. by rewrite app_assoc.
Qed.

Lemma collect_total {A B} (f : A -> res (list B)) xs : (forall x, x ∈ xs -> exists y, f x = Ok y) ->
  exists ys, collect f xs = Ok ys /\ forall y, y ∈ ys <-> exists x zs, x ∈ xs /\ f x = Ok zs /\ y ∈ zs.
Proof.
  induction xs as [|x xs IH]; intros Hf.
  - exists []. split; [done|]. intros y. split; [by intros ?%elem_of_nil|]. by intros (x & zs & ?%elem_of_nil & _).
  - destruct (Hf x (list_elem_of_here _ _)) as [zs Hz]. destruct IH as (ys & Hys & Hin).
    { intros y Hy. by apply Hf, list_elem_of_further. }
    exists (zs ++ ys). cbn [collect]. rewrite Hz, Hys. split; [done|]. intros y. rewrite elem_of_app, Hin. split.
    + intros [Hy|(x' & zs' & Hx' & Hz' & Hy)]; [exists x, zs; by split; [apply list_elem_of_here|]|].
      exists x', zs'. by split; [apply list_elem_of_further|].
    + intros (x' & zs' & [->|Hx']%elem_of_cons & Hz' & Hy); [left; congruence|right]. by exists x', zs'.
Qed.

Section objects.
Context (read_waif : reader -> res (positive * reader)) (write_waif : positive -> cstr) (upper : error -> Z).

(** The text of an object whose verbs are [vds], after its number. *)
Definition body_text (o : Object) (vds : list Verbdef) : cstr :=
  dbio_write_string (name o) ++ dbio_write_string [] ++ dbio_write_num (flags o) ++ dbio_write_objid (owner o) ++
  dbio_write_objid (location o) ++ dbio_write_objid (contents o) ++ dbio_write_objid (next o) ++
  dbio_write_objid (parent o) ++ dbio_write_objid (child o) ++ dbio_write_objid (sibling o) ++
  dbio_write_num (Z.of_nat (length vds)) ++ concat (write_verbdef <$> vds) ++
  dbio_write_num (Z.of_nat (cur_length (propdefs o))) ++ concat (write_propdef <$> l (propdefs o)) ++
  dbio_write_num (Z.of_nat (length (propval o))) ++ concat (write_propval write_waif upper <$> propval o).

Lemma write_object_Ok F P d x o vds : good F P d -> objects d !! x = Some o ->
  Forall2 (fun v vd => verbs d !! v = Some vd) (verbdefs o) vds ->
  write_object write_waif upper d x = Ok (hash_num x ++ [NL] ++ body_text o vds).
Proof.
  intros Hg Ho Hvs. pose proof (good_props F P d Hg) as Hp. unfold write_object. rewrite (good_lookup F P d x Hg), Ho.
  rewrite (collect_Ok _ write_verbdef _ vds).
  2: { eapply Forall2_impl; [exact Hvs|]. intros v vd Hv. cbn beta. by rewrite Hv. }
  cbn [mbind res_bind].
  assert (Hx : is_Some (par F !! x)) by (apply (valid_family F P d x Hg); eauto).
  destruct (wf_acyclic F (wp_forest _ _ Hp) x Hx) as [ls Hl].
  rewrite (count_total d F (wp_family _ _ Hp) (wp_table _ _ Hp) x ls Hl). cbn [mbind res_bind].
  rewrite <- (length_schema F d x (wp_forest _ _ Hp) (wp_family _ _ Hp) (wp_table _ _ Hp) Hx).
  rewrite <- (wp_cells _ _ Hp x o Ho), copy_prefix by done. cbn [mbind res_bind].
  rewrite firstn_all. by rewrite (Forall2_length _ _ _ Hvs).
Qed.

(** *** Reading it *)

(** What is read: the verbs have new addresses, the array of definitions is full. *)
Definition saved (o : Object) (vs : list positive) : Object :=
  set_waif_propdefs None (set_verbdefs vs (set_propdefs (mkProplist (Z.of_nat (cur_length (propdefs o))) (l (propdefs o))) o)).

Lemma empty_line : line_ok [].
Proof. split; [constructor|]. apply not_elem_of_nil. Qed.

Record texts_ok (o : Object) (vds : list Verbdef) : Prop := {
  tx_name : line_ok (name o);
  tx_flags : int_range 32 (flags o);
  tx_owner : int_range 64 (owner o);
  tx_links f : f ∈ [location; contents; next; parent; child; sibling] -> int_range 64 (f o);
  tx_verbs : Z.of_nat (length vds) < 2 ^ 31 /\ Forall verb_text_ok vds;
  tx_defs : Z.of_nat (cur_length (propdefs o)) < 2 ^ 31 /\ Forall def_text_ok (l (propdefs o));
  tx_cells : Z.of_nat (length (propval o)) < 2 ^ 31 /\ Forall cell_ok (propval o) }.

Lemma read_object_body_Ok version x d g o vds rest b : texts_ok o vds ->
  objects d !! x = Some g -> waif_propdefs g = None -> id g = id o -> exists vs heap b',
  read_object_body read_waif version x d (mkReader (body_text o vds ++ rest) b) =
    Ok (with_objects (<[x := saved o vs]> (objects d)) (with_verbs heap d), mkReader rest b') /\
  (forall v vd, verbs d !! v = Some vd -> heap !! v = Some vd) /\ NoDup vs /\ (forall v, v ∈ vs -> verbs d !! v = None) /\
  (forall v vd, heap !! v = Some vd -> verbs d !! v = Some vd \/ exists vd', vd' ∈ vds /\ vd = reverb false vd') /\
  Forall2 (fun vd v => heap !! v = Some (reverb false vd)) vds vs.
Proof.
  intros Ht Hg Hw Hid. unfold read_object_body, body_text. rewrite <- !app_assoc.
  pose proof (range_32_64 _ (tx_flags o vds Ht)) as Hfl. pose proof (wrap32_id _ (tx_flags o vds Ht)) as Ewrap.
  unfold dbio_read_string_intern, dbio_read_objid, dbio_write_objid.
  eat (read_string_reads _ (tx_name o vds Ht)). eat (read_string_reads [] empty_line).
  eat (read_num_reads _ Hfl). eat (read_num_reads _ (tx_owner o vds Ht)).
  assert (Hlink : forall f, f ∈ [location; contents; next; parent; child; sibling] -> int_range 64 (f o)) by apply Ht.
  eat (read_num_reads (location o) (Hlink location ltac:(set_solver))).
  eat (read_num_reads (contents o) (Hlink contents ltac:(set_solver))).
  eat (read_num_reads (next o) (Hlink next ltac:(set_solver))).
  eat (read_num_reads (parent o) (Hlink parent ltac:(set_solver))).
  eat (read_num_reads (child o) (Hlink child ltac:(set_solver))).
  eat (read_num_reads (sibling o) (Hlink sibling ltac:(set_solver))).
  destruct (tx_verbs o vds Ht) as [Hn Hvds]. destruct (count_range _ Hn) as [H32 H64].
  eat (read_num_reads _ H64). rewrite (wrap32_id _ H32), Nat2Z.id.
  match goal with |- context [read_verbdefs _ _ (mkReader (_ ++ ?r) ?b)] =>
    destruct (read_verbdefs_Ok vds Hvds (verbs d) r b) as (vs & heap & b' & -> & Hrest) end.
  cbn [mbind res_bind]. destruct (tx_defs o vds Ht) as [Hdn Hdefs]. destruct (tx_cells o vds Ht) as [Hcn Hcells].
  eat (read_count_reads _ Hdn). change (cur_length (propdefs o)) with (length (l (propdefs o))) in *.
  eat (read_times_reads read_propdef write_propdef (fun p => p) (l (propdefs o))
         ltac:(eapply Forall_impl; [exact Hdefs|]; intros p; apply read_propdef_reads)).
  eat (read_count_reads _ Hcn).
  eat (read_times_reads (read_propval read_waif version) (write_propval write_waif upper) (fun p => p) (propval o)
         ltac:(eapply Forall_impl; [exact Hcells|]; intros p; apply read_propval_reads)).
  rewrite !list_fmap_id. rewrite (upd_object_Ok _ x g) by done. cbn [mbind res_bind].
  exists vs, heap. eexists. split; [|exact Hrest]. repeat f_equal. unfold saved. destruct o; cbn in *.
  by rewrite Hw, Hid, Ewrap.
Qed.

End objects.

(** ** Loading *)

Section loading.
Context (read_waif : reader -> res (positive * reader)) (write_waif : positive -> cstr) (upper : error -> Z).
Context (parse_program : Z -> cstr -> option positive) (unparse_program : positive -> list cstr).
Context (F P : forest) (d : db) (Hg : good F P d) (Hs : savable parse_program unparse_program d).

Lemma saved_range x o : objects d !! x = Some o -> 0 <= x < num_objects d /\ id o = x.
Proof.
  intros Ho. pose proof (wp_table _ _ (good_props F P d Hg)) as Ht. split; [by apply (wf_range d Ht x o)|].
  by apply (wf_id d Ht x o).
Qed.

Lemma verbdefs_exist vs : (forall v, v ∈ vs -> is_Some (verbs d !! v)) ->
  exists vds, Forall2 (fun v vd => verbs d !! v = Some vd) vs vds.
Proof.
  induction vs as [|v vs IH]; intros Hv; [exists []; constructor|].
  destruct (Hv v ltac:(apply list_elem_of_here)) as [vd Hvd].
  destruct IH as [vds Hvds]; [intros w Hw; apply Hv; by apply list_elem_of_further|]. exists (vd :: vds). by constructor.
Qed.

Lemma object_verbs x o : objects d !! x = Some o -> exists vds, Forall2 (fun v vd => verbs d !! v = Some vd) (verbdefs o) vds.
Proof. intros Ho. apply verbdefs_exist. intros v Hv. by apply (wv_exists d (wdb_verbs _ _ _ (good_wf _ _ _ Hg)) x o). Qed.

Lemma object_texts x o vds : objects d !! x = Some o -> Forall2 (fun v vd => verbs d !! v = Some vd) (verbdefs o) vds ->
  texts_ok o vds.
Proof.
  intros Ho Hvs. pose proof (sv_object _ _ d Hs x o Ho) as Hk. pose proof (good_props F P d Hg) as Hp. split.
  - apply Hk.
  - apply Hk.
  - apply Hk.
  - intros f Hf. destruct (linked_valid F P d (wp_forest _ _ Hp) (wp_family _ _ Hp) (wdb_place_forest _ _ _ (good_wf _ _ _ Hg))
      (wdb_place _ _ _ (good_wf _ _ _ Hg)) x o f Ho) as [->|[o' Ho']]; [set_solver|done|].
    destruct (saved_range _ _ Ho') as [Hr _]. pose proof (sv_size _ _ d Hs). unfold int_range. lia.
  - rewrite <- (Forall2_length _ _ _ Hvs). split; [apply Hk|]. rewrite Forall_forall. intros vd Hvd.
    apply list_elem_of_lookup in Hvd as [n Hn]. destruct (Forall2_lookup_r _ _ _ _ _ Hvs Hn) as (v & Hv & Hvd).
    destruct (ok_verb _ _ d o Hk v vd (list_elem_of_lookup_2 _ _ _ Hv) Hvd) as (H1 & H2 & _).
    destruct (good_names F P d Hg v vd Hvd) as [_ Hperm _ _ Hprep]. unfold verb_text_ok. split; [done|]. split; [done|].
    split; [unfold int_range; lia|]. rewrite <- (prep_wrap _ Hprep). apply swrap_range. lia.
  - split; [apply Hk|]. rewrite Forall_forall. intros p Hin. split; [by apply (ok_def _ _ d o Hk)|].
    by apply (wp_def _ _ Hp x o p).
  - split; [apply Hk|]. rewrite Forall_forall. apply (ok_cell _ _ d o Hk).
Qed.

(** What is there when the objects below [k] have been read and the programs in [done]. *)
Record partial (k : Z) (seen : list (Z * nat)) (t : db) : Prop := {
  pt_num : num_objects t = k /\ k <= max_objects t;
  pt_rest : all_users t = all_users d /\ vc_table t = None;
  pt_out x : ~ 0 <= x < k -> objects t !! x = None;
  pt_none x : objects d !! x = None -> objects t !! x = None;
  pt_some x o : 0 <= x < k -> objects d !! x = Some o -> exists vs, objects t !! x = Some (saved o vs) /\
    length vs = length (verbdefs o) /\
    forall n v vd v', verbdefs o !! n = Some v -> vs !! n = Some v' -> verbs d !! v = Some vd ->
      verbs t !! v' = Some (reverb (bool_decide ((x, n) ∈ seen)) vd);
  pt_verbs : wf_verbs t;
  pt_vdefs : wf_vdefs t }.

Lemma partial_inv k seen t x o' : partial k seen t -> objects t !! x = Some o' ->
  0 <= x < k /\ exists o vs, objects d !! x = Some o /\ o' = saved o vs.
Proof.
  intros Hp Ho'. assert (Hx : 0 <= x < k).
  { destruct (decide (0 <= x < k)) as [|Hn]; [done|]. by rewrite (pt_out k seen t Hp x Hn) in Ho'. }
  split; [done|]. destruct (objects d !! x) as [o|] eqn:Ho; [|by rewrite (pt_none k seen t Hp x Ho) in Ho'].
  destruct (pt_some k seen t Hp x o Hx Ho) as (vs & Hvs & _). exists o, vs. split; [done|]. congruence.
Qed.

Lemma partial_table k seen t : 0 <= k -> partial k seen t -> wf_table t.
Proof.
  intros Hk Hp. destruct (pt_num k seen t Hp) as [Hn Hm]. split.
  - intros x o' Ho'. destruct (partial_inv k seen t x o' Hp Ho') as [Hx _]. lia.
  - intros x o' Ho'. destruct (partial_inv k seen t x o' Hp Ho') as (_ & o & vs & Ho & ->). cbn. by apply saved_range.
  - lia.
Qed.

Lemma reverb_ok b vd : verb_ok vd -> verb_ok (reverb b vd).
Proof. intros []. by split. Qed.

(** A new entry in the table. *)
Lemma partial_recycled k t m : 0 <= k -> partial k [] t -> k < m -> objects d !! k = None ->
  partial (k + 1) [] (with_table (delete k (objects t)) (k + 1) m t).
Proof.
  intros Hk Hp Hm Hd. assert (E : delete k (objects t) = objects t) by (apply delete_id; by apply (pt_none k [] t Hp)).
  rewrite E. destruct Hp as [Hn Hr Hout Hnone Hsome Hv Hvd]. split; cbn; try done; [lia|intros x Hx; apply Hout; lia| |].
  - intros x o Hx Ho. apply Hsome; [|done]. destruct (decide (x = k)) as [->|]; [congruence|lia].
  - by destruct Hv.
Qed.

Lemma partial_new k t m o vds vs heap : 0 <= k -> partial k [] t -> k < m -> objects d !! k = Some o ->
  Forall2 (fun v vd => verbs d !! v = Some vd) (verbdefs o) vds ->
  (forall v vd, verbs t !! v = Some vd -> heap !! v = Some vd) -> NoDup vs -> (forall v, v ∈ vs -> verbs t !! v = None) ->
  (forall v vd, heap !! v = Some vd -> verbs t !! v = Some vd \/ exists vd', vd' ∈ vds /\ vd = reverb false vd') ->
  Forall2 (fun vd v => heap !! v = Some (reverb false vd)) vds vs ->
  partial (k + 1) [] (with_objects (<[k := saved o vs]> (objects t)) (with_verbs heap (with_table (objects t) (k + 1) m t))).
Proof.
  intros Hk Hp Hm Ho Hvds Hsub Hnd Hnew Hback Hvs. destruct Hp as [Hn Hr Hout Hnone Hsome [Hve Hvn Hvo] Hvd].
  assert (Hex : forall v, v ∈ vs -> is_Some (heap !! v)).
  { intros v [n Hv]%list_elem_of_lookup. destruct (Forall2_lookup_r _ _ _ _ _ Hvs Hv) as (vd & _ & H). eauto. }
  assert (Hdis : forall x ox v, objects t !! x = Some ox -> v ∈ verbdefs ox -> v ∉ vs).
  { intros x ox v Hx Hv Hin. destruct (Hve x ox v Hx Hv) as [? H]. by rewrite (Hnew v Hin) in H. }
  assert (Hcase : forall x ox, <[k := saved o vs]> (objects t) !! x = Some ox ->
    x = k /\ ox = saved o vs \/ x <> k /\ objects t !! x = Some ox).
  { intros x ox. destruct (decide (x = k)) as [->|]; [rewrite lookup_insert_eq; intros [= <-]; by left|].
    rewrite lookup_insert_ne by done. by right. }
  split; cbn [objects num_objects max_objects all_users vc_table verbs with_objects with_verbs with_table]; try done; [lia|..].
  - intros x Hx. rewrite lookup_insert_ne by lia. apply Hout. lia.
  - intros x Hx. rewrite lookup_insert_ne by congruence. by apply Hnone.
  - intros x ox Hx Hox. destruct (decide (x = k)) as [->|].
    + assert (ox = o) as -> by congruence. exists vs. rewrite lookup_insert_eq. split; [done|]. split.
      { rewrite <- (Forall2_length _ _ _ Hvs). symmetry. apply (Forall2_length _ _ _ Hvds). }
      intros n v vd v' Hv Hv' Hverb. destruct (Forall2_lookup_l _ _ _ _ _ Hvds Hv) as (vd' & Hvd' & Hverb').
      assert (vd' = vd) as -> by congruence. rewrite bool_decide_false by apply not_elem_of_nil.
      exact (Forall2_lookup_lr _ _ _ _ _ _ Hvs Hvd' Hv').
    + rewrite lookup_insert_ne by done. destruct (Hsome x ox ltac:(lia) Hox) as (vs' & H1 & H2 & H3).
      exists vs'. split; [done|]. split; [done|]. intros i v vd v' Hv Hv' Hverb. apply Hsub. by apply (H3 i v).
  - split; cbn [objects verbs with_objects with_verbs with_table].
    + intros x ox v [[_ ->]|[_ Hx]]%Hcase Hv; [by apply Hex|]. destruct (Hve x ox v Hx Hv) as [vd Hvd']. eauto.
    + intros x ox [[_ ->]|[_ Hx]]%Hcase; [done|by apply (Hvn x)].
    + intros x y ox oy v [[-> ->]|[_ Hx]]%Hcase [[-> ->]|[_ Hy]]%Hcase Hvx Hvy; [done| | |by apply (Hvo x y ox oy v)].
      * by destruct (Hdis y oy v Hy Hvy).
      * by destruct (Hdis x ox v Hx Hvx).
  - intros v vd [Hv|(vd' & Hin & ->)]%Hback; [by apply (Hvd v)|]. apply reverb_ok.
    apply list_elem_of_lookup in Hin as [n Hn']. destruct (Forall2_lookup_r _ _ _ _ _ Hvds Hn') as (w & _ & Hw).
    by apply (good_names F P d Hg w).
Qed.

Lemma oid_range x : 0 <= x < num_objects d -> int_range 64 x.
Proof. pose proof (sv_size _ _ d Hs). unfold int_range. lia. Qed.

Lemma space_line : line_ok (lit " recycled").
Proof. apply (bool_decide_unpack _). vm_compute. exact I. Qed.

(** One object. *)
Lemma read_object_Ok garbage version k : 0 <= k < num_objects d ->
  exists text, write_object write_waif upper d k = Ok (chr 35 :: text) /\
    forall t rest b, partial k [] t -> exists t' b',
    read_object read_waif garbage version t (mkReader (chr 35 :: text ++ rest) b) = Ok (true, (t', mkReader rest b')) /\
    partial (k + 1) [] t'.
Proof.
  intros Hk. pose proof (oid_range k Hk) as Hr. destruct (objects d !! k) as [o|] eqn:Ho.
  - destruct (object_verbs k o Ho) as [vds Hvds]. pose proof (object_texts k o vds Ho Hvds) as Htext.
    rewrite (write_object_Ok write_waif upper F P d k o vds Hg Ho Hvds). eexists. split; [reflexivity|]. intros t rest b Hp.
    pose proof (partial_table k [] t ltac:(lia) Hp) as Ht. destruct (pt_num k [] t Hp) as [Hn _].
    destruct (room_for_one t Ht) as (m & Eroom & Hm).
    set (o0 := set_waif_propdefs None (set_id k garbage)).
    set (t1 := with_table (<[k := o0]> (objects t)) (k + 1) m t).
    destruct (read_object_body_Ok read_waif write_waif upper version k t1 o0 o vds rest b Htext)
      as (vs & heap & b' & Hbody & Hsub & Hnd & Hnew & Hback & Hvs).
    { unfold t1. cbn. apply lookup_insert_eq. } { done. } { cbn. symmetry. by apply saved_range. }
    do 2 eexists. split.
    + unfold read_object, dbio_scanf. cbn [input buffer]. rewrite <- app_assoc. cbn [app].
      pose proof (hash_Ok k [] (NL :: body_text write_waif upper o vds ++ rest) Hr ltac:(done)) as Hh.
      unfold hash_num in Hh. cbn [app] in Hh. rewrite Hh. cbn [scanf]. unfold db_last_used_objid. rewrite Hn.
      replace (k - 1 + 1) with k by lia. rewrite Z.eqb_refl. cbn [negb].
      pose proof (reads_line 20 [] (body_text write_waif upper o vds ++ rest) b empty_line ltac:(cbn; lia)) as Hl.
      cbn [app] in Hl. rewrite Hl. cbn [mbind res_bind].
      rewrite decide_False by (intros H; vm_compute in H; discriminate H). rewrite decide_False by (intros H; by apply H).
      unfold dbpriv_new_object. rewrite Eroom. cbn [num_objects max_objects with_table objects].
      rewrite Hn. destruct (Z.geb_spec k m); [lia|]. cbn [mbind res_bind].
      change (with_table (<[k := _]> (objects t)) (k + 1) _ _) with t1. rewrite Hbody. cbn [mbind res_bind]. reflexivity.
    + unfold t1 in *. cbn [objects with_table verbs] in *. rewrite insert_insert_eq.
      apply (partial_new k t m o vds vs heap); try done; lia.
  - unfold write_object. rewrite (good_lookup F P d k Hg), Ho. unfold hash_num. cbn [app].
    eexists. split; [reflexivity|]. intros t rest b Hp.
    pose proof (partial_table k [] t ltac:(lia) Hp) as Ht. destruct (pt_num k [] t Hp) as [Hn _].
    destruct (room_for_one t Ht) as (m & Eroom & Hm). do 2 eexists. split.
    + unfold read_object, dbio_scanf. cbn [input buffer]. rewrite <- !app_assoc.
      pose proof (hash_Ok k [] (lit " recycled" ++ NL :: rest) Hr ltac:(done)) as Hh.
      unfold hash_num in Hh. cbn [app] in Hh |- *. rewrite Hh. cbn [scanf]. unfold db_last_used_objid. rewrite Hn.
      replace (k - 1 + 1) with k by lia. rewrite Z.eqb_refl. cbn [negb].
      rewrite (reads_line 20 _ _ b space_line) by (cbn; lia). cbn [mbind res_bind app].
      rewrite decide_True by done. unfold dbpriv_new_recycled_object. rewrite Eroom.
      cbn [num_objects max_objects with_table objects]. rewrite Hn.
      destruct (Z.geb_spec k m); [lia|]. cbn [mbind res_bind]. reflexivity.
    + apply (partial_recycled k t m); try done; lia.
Qed.

(** All objects. *)
Lemma load_objects_Ok garbage version n : forall k, 0 <= k -> k + Z.of_nat n = num_objects d ->
  exists text, collect (write_object write_waif upper d) (seqZ k (Z.of_nat n)) = Ok text /\
    ((0 < n)%nat -> exists s, text = chr 35 :: s) /\ forall t rest b, partial k [] t -> exists t' b',
    load_times (read_object read_waif garbage version) n t (mkReader (text ++ rest) b) = Ok (true, (t', mkReader rest b')) /\
    partial (num_objects d) [] t'.
Proof.
  induction n as [|n IH]; intros k Hk Hn.
  - exists []. split; [done|]. split; [lia|]. intros t rest b Hp. exists t, b. split; [done|].
    by replace (num_objects d) with k by lia.
  - rewrite seqZ_cons by lia. replace (Z.pred (Z.of_nat (S n))) with (Z.of_nat n) by lia.
    replace (Z.succ k) with (k + 1) by lia. cbn [collect load_times].
    destruct (read_object_Ok garbage version k ltac:(lia)) as (text & -> & Hread). cbn [mbind res_bind].
    destruct (IH (k + 1) ltac:(lia) ltac:(lia)) as (texts & -> & _ & Hload). cbn [mbind res_bind].
    exists ((chr 35 :: text) ++ texts). split; [done|]. split; [intros _; by eexists|]. intros t rest b Hp.
    rewrite <- app_assoc. cbn [app]. destruct (Hread t (texts ++ rest) b Hp) as (t1 & b1 & -> & Hp1). cbn [mbind res_bind].
    by apply Hload.
Qed.

(** *** Programs *)

Definition program_of (e : Z * nat * positive) : Prop := let '(x, n, p) := e in
  exists o v vd, objects d !! x = Some o /\ verbdefs o !! n = Some v /\ verbs d !! v = Some vd /\ v_program vd = Some p.

Lemma object_programs_Ok x : exists es, object_programs d x = Ok es /\ forall e, e ∈ es <-> program_of e /\ e.1.1 = x.
Proof.
  unfold object_programs. rewrite (good_lookup F P d x Hg). destruct (objects d !! x) as [o|] eqn:Ho.
  2: { exists []. split; [done|]. intros [[y n] p]. split; [by intros ?%elem_of_nil|]. cbn.
       intros [(o & v & vd & Ho' & _) ->]. congruence. }
  destruct (collect_total (fun '(n, v) => vd ← deref (verbs d !! v);
    Ok (match v_program vd with Some p => [(x, n, p)] | None => [] end)) (imap pair (verbdefs o))) as (es & Hes & Hin).
  { intros [n v] Hv. apply elem_of_lookup_imap in Hv as (i & w & [= -> ->] & Hv).
    destruct (wv_exists d (wdb_verbs _ _ _ (good_wf _ _ _ Hg)) x o w Ho (list_elem_of_lookup_2 _ _ _ Hv)) as [vd Hvd].
    rewrite Hvd. cbn [deref mbind res_bind]. by eexists. }
  exists es. split; [exact Hes|]. intros [[y n] p]. rewrite Hin. cbn [fst]. split.
  - intros ([i v] & zs & Hv & Hz & Hy). apply elem_of_lookup_imap in Hv as (j & w & [= -> ->] & Hv).
    destruct (verbs d !! w) as [vd|] eqn:Hvd; [|done]. cbn [deref mbind res_bind] in Hz. injection Hz as <-.
    destruct (v_program vd) as [q|] eqn:Hq; [|by apply elem_of_nil in Hy].
    apply list_elem_of_singleton in Hy as [= -> -> ->]. split; [|done]. by exists o, w, vd.
  - intros [(o' & v & vd & Ho' & Hv & Hvd & Hp) ->]. assert (o' = o) as -> by congruence.
    exists (n, v), [(x, n, p)]. split; [apply elem_of_lookup_imap; by exists n, v|]. rewrite Hvd. cbn. rewrite Hp.
    split; [done|]. apply list_elem_of_here.
Qed.

Lemma programs_Ok : exists es, collect (object_programs d) (seqZ 0 (num_objects d)) = Ok es /\
  forall e, e ∈ es <-> program_of e.
Proof.
  destruct (collect_total (object_programs d) (seqZ 0 (num_objects d))) as (es & Hes & Hin).
  { intros x _. destruct (object_programs_Ok x) as (es & -> & _). by exists es. }
  exists es. split; [done|]. intros e. rewrite Hin. split.
  - intros (x & zs & _ & Hz & He). destruct (object_programs_Ok x) as (es' & Hes' & Hin'). 
    assert (zs = es') as -> by congruence. by apply Hin' in He as [? _].
  - intros He. destruct (object_programs_Ok e.1.1) as (es' & Hes' & Hin'). exists e.1.1, es'.
    split; [|split; [done|by apply Hin']]. destruct e as [[x n] p]. destruct He as (o & _ & _ & Ho & _).
    apply elem_of_seqZ. cbn. pose proof (proj1 (saved_range x o Ho)). lia.
Qed.

Lemma program_no_space p t : program_text_ok parse_program unparse_program p ->
  no_space (dbio_write_program unparse_program p ++ t).
Proof.
  intros [_ H]. unfold dbio_write_program. destruct (unparse_program p) as [|line lines]; [done|].
  destruct H as (c & s & -> & Hc). exact Hc.
Qed.

Lemma partial_program k seen t x n o v vd vs v' p : partial k seen t -> objects d !! x = Some o ->
  objects t !! x = Some (saved o vs) -> verbdefs o !! n = Some v -> vs !! n = Some v' -> verbs d !! v = Some vd ->
  v_program vd = Some p -> 
  partial k ((x, n) :: seen) (with_verbs (<[v' := reverb true vd]> (verbs t)) t).
Proof.
  intros Hp Ho Hvs Hv Hv' Hvd Hpr. pose proof Hp as Hp'. destruct Hp as [Hn Hr Hout Hnone Hsome [Hve Hvn Hvo] Hok].
  split; cbn [objects num_objects max_objects all_users vc_table verbs with_verbs]; try done.
  - intros y oy Hy Hoy. destruct (Hsome y oy Hy Hoy) as (ws & Hws & Hlen & Hall). exists ws. split; [done|].
    split; [done|]. intros i w wd w' Hw Hw' Hwd. specialize (Hall i w wd w' Hw Hw' Hwd).
    destruct (decide (w' = v')) as [->|Hne].
    + assert (y = x) as ->.
      { apply (Hvo y x _ _ v' Hws Hvs); cbn; by apply list_elem_of_lookup; eauto. }
      assert (oy = o /\ ws = vs) as [-> ->].
      { split; [congruence|]. rewrite Hvs in Hws. by injection Hws. }
      assert (i = n) as ->.
      { pose proof (Hvn x _ Hvs) as Hnd. cbn in Hnd. by apply (NoDup_lookup vs i n v'). }
      rewrite lookup_insert_eq. rewrite bool_decide_true by apply list_elem_of_here. congruence.
    + rewrite lookup_insert_ne by done. rewrite Hall. do 2 f_equal. apply bool_decide_ext. rewrite elem_of_cons.
      split; [by right|]. intros [[= -> ->]|]; [|done]. destruct Hne.
      assert (ws = vs) as -> by (rewrite Hvs in Hws; by injection Hws). congruence.
  - split; cbn [objects verbs with_verbs]; [|done..]. intros y oy w Hy Hw. apply lookup_insert_is_Some'. right. eauto.
  - intros w wd Hw. cbn [verbs with_verbs] in Hw. revert Hw. destruct (decide (w = v')) as [->|Hne]; [|rewrite lookup_insert_ne by done; apply Hok].
    rewrite lookup_insert_eq. intros [= <-]. apply reverb_ok. by apply (good_names F P d Hg v).
Qed.

Lemma read_program_entry_Ok t seen e rest b : partial (num_objects d) seen t -> program_of e -> exists t',
  read_program_entry parse_program current_version t (mkReader (write_program_entry unparse_program e ++ rest) b) =
    Ok (true, (t', mkReader rest b)) /\ partial (num_objects d) (e.1 :: seen) t'.
Proof.
  destruct e as [[x n] p]. intros Hp (o & v & vd & Ho & Hv & Hvd & Hpr). destruct (saved_range x o Ho) as [Hx Hid].
  destruct (pt_some _ _ _ Hp x o Hx Ho) as (vs & Hvs & Hlen & Hall).
  pose proof (sv_object _ _ d Hs x o Ho) as Hk. pose proof (lookup_lt_Some _ _ _ Hv) as Hlt.
  pose proof (ok_verbs _ _ d o Hk) as Hmany.
  destruct (lookup_lt_is_Some_2 vs n ltac:(lia)) as [v' Hv']. specialize (Hall n v vd v' Hv Hv' Hvd).
  destruct (ok_verb _ _ d o Hk v vd (list_elem_of_lookup_2 _ _ _ Hv) Hvd) as (_ & _ & Hprog). specialize (Hprog p Hpr).
  exists (with_verbs (<[v' := reverb true vd]> (verbs t)) t). split.
  2: { cbn [fst]. by apply (partial_program _ seen t x n o v vd vs v' p). }
  unfold read_program_entry, write_program_entry, dbio_scanf. cbn [input buffer]. rewrite <- !app_assoc. cbn [app].
  rewrite hash_Ok by (done || by apply oid_range). rewrite scanf_lit, <- app_assoc. cbn [app].
  rewrite scanf_num by (done || unfold int_range; lia). rewrite scanf_white by (done || by apply program_no_space).
  cbn [scanf]. pose proof (partial_table _ _ t (Z.lt_le_incl _ _ (proj1 (sv_size _ _ d Hs))) Hp) as Ht.
  unfold valid, db_find_indexed_verb. rewrite (find_object_eq t x Ht), Hvs. rewrite bool_decide_true by eauto. cbn [negb].
  cbn [deref mbind res_bind]. unfold u32. rewrite Z.mod_small by lia. destruct (Z.eqb_spec (Z.of_nat n + 1) 0); [lia|].
  replace (Z.to_nat (Z.of_nat n + 1 - 1)) with n by lia. cbn [verbdefs saved set_verbdefs set_waif_propdefs]. rewrite Hv'.
  cbn [fmap option_fmap option_map static_handle mbind res_bind]. rewrite read_program_Ok by apply Hprog.
  unfold db_set_verb_program, upd_verb. cbn [deref_handle verbdef mbind res_bind]. rewrite Hall. cbn [deref mbind res_bind].
  unfold reverb. cbn [v_name v_owner v_perms v_prep]. by rewrite Hpr.
Qed.

Lemma load_programs_Ok es : forall t seen rest b, partial (num_objects d) seen t -> (forall e, e ∈ es -> program_of e) ->
  exists t' seen', load_times (read_program_entry parse_program current_version) (length es) t
    (mkReader (concat (write_program_entry unparse_program <$> es) ++ rest) b) = Ok (true, (t', mkReader rest b)) /\
  partial (num_objects d) seen' t' /\ forall e, e ∈ es \/ e.1 ∈ seen -> e.1 ∈ seen'.
Proof.
  induction es as [|e es' IH]; intros t seen rest b Hp He.
  - exists t, seen. split; [done|]. split; [done|]. by intros e [?%elem_of_nil|].
  - cbn [length load_times fmap list_fmap concat]. rewrite <- app_assoc.
    destruct (read_program_entry_Ok t seen e (concat (write_program_entry unparse_program <$> es') ++ rest) b Hp)
      as (t1 & -> & Hp1); [apply He, list_elem_of_here|]. cbn [mbind res_bind].
    destruct (IH t1 _ rest b Hp1) as (t' & seen' & H1 & H2 & H3); [intros e' Hin; by apply He, list_elem_of_further|].
    exists t', seen'. split; [done|]. split; [done|]. intros e' [[->|Hin]%elem_of_cons|Hin]; apply H3.
    + right. apply list_elem_of_here.
    + by left.
    + right. by apply list_elem_of_further.
Qed.

(** *** What has been loaded *)

Section loaded.
Context (t : db) (seen : list (Z * nat)) (Hp : partial (num_objects d) seen t).

Lemma loaded_field {A} (f : Object -> A) x : (forall o vs, f (saved o vs) = f o) -> f <$> objects t !! x = f <$> objects d !! x.
Proof.
  intros Hf. destruct (objects d !! x) as [o|] eqn:Ho; [|by rewrite (pt_none _ _ _ Hp x Ho)].
  destruct (pt_some _ _ _ Hp x o (proj1 (saved_range x o Ho)) Ho) as (vs & -> & _). cbn. by rewrite Hf.
Qed.

Lemma loaded_lookup x o' : objects t !! x = Some o' -> exists o vs, objects d !! x = Some o /\ o' = saved o vs.
Proof. intros Ho'. by apply (partial_inv _ seen t x o' Hp). Qed.

Lemma loaded_family : represents family (objects t) F.
Proof. apply (represents_ext family (objects d)); [intros y; by apply loaded_field..|]. apply (wp_family _ _ (good_props F P d Hg)). Qed.

Lemma loaded_place : represents place (objects t) P.
Proof. apply (represents_ext place (objects d)); [intros y; by apply loaded_field..|]. apply (wdb_place _ _ _ (good_wf F P d Hg)). Qed.

Lemma loaded_table : wf_table t.
Proof. apply (partial_table (num_objects d) seen); [|done]. pose proof (sv_size _ _ d Hs). lia. Qed.

Lemma loaded_valid : validate_hierarchies t = Ok (true, t).
Proof.
  apply (validate_linked F P).
  - apply (good_props F P d Hg).
  - apply loaded_family.
  - apply (good_wf F P d Hg).
  - apply loaded_place.
  - intros x [o Ho]. by apply (wf_range t loaded_table x o).
  - intros x o' (o & vs & Ho & ->)%loaded_lookup. by apply (sv_object _ _ d Hs x o Ho).
Qed.

Lemma loaded_schema x : schema t x = schema d x.
Proof.
  pose proof (good_props F P d Hg) as Hw. destruct (objects d !! x) as [o|] eqn:Ho.
  - assert (Hx : is_Some (par F !! x)) by (apply (valid_family F P d x Hg); eauto).
    destruct (wf_acyclic F (wp_forest _ _ Hw) x Hx) as [ls Hl].
    rewrite (schema_along F d x ls (wp_family _ _ Hw) (wp_table _ _ Hw) Hl).
    rewrite (schema_along F t x ls loaded_family loaded_table Hl). unfold along. clear Hl.
    induction ls as [|y ls IH]; [done|]. cbn. rewrite IH. f_equal.
    pose proof (loaded_field defs_of y ltac:(done)) as H.
    destruct (objects t !! y), (objects d !! y); try discriminate H; cbn in *; [by injection H|done].
  - assert (Hx : par F !! x = None).
    { destruct (Hw.(wp_family _ _) x) as [<- _]. unfold ups. by rewrite Ho. }
    by rewrite (schema_invalid F d x (wp_family _ _ Hw) (wp_table _ _ Hw) Hx), (schema_invalid F t x loaded_family loaded_table Hx).
Qed.

Lemma loaded_props : wf_props F t.
Proof.
  pose proof (good_props F P d Hg) as Hw. split.
  - apply Hw.
  - apply loaded_family.
  - apply loaded_table.
  - split; [intros x o' p (o & vs & _ & ->)%loaded_lookup|intros x y o' oy p (o & vs & _ & ->)%loaded_lookup _]; done.
  - intros x o' (o & vs & Ho & ->)%loaded_lookup. rewrite loaded_schema. by apply (wp_cells _ _ Hw x o).
  - intros x o' p (o & vs & Ho & ->)%loaded_lookup. by apply (wp_def _ _ Hw x o).
  - intros x. rewrite loaded_schema. apply Hw.
  - intros x o' (o & vs & Ho & ->)%loaded_lookup. apply Z.le_refl.
  - intros x o' n pv (o & vs & Ho & ->)%loaded_lookup. by apply (wp_clear _ _ Hw x o).
Qed.

Lemma loaded_users : wf_users t.
Proof.
  destruct (wdb_users _ _ _ (good_wf F P d Hg)) as [H1 H2 H3 H4]. destruct (pt_rest _ _ _ Hp) as [Eu _].
  split; rewrite Eu; [done|done| |].
  - intros x o' (o & vs & Ho & ->)%loaded_lookup. exact (H3 x o Ho).
  - intros x Hx. apply H4 in Hx as [o Ho]. destruct (pt_some _ _ _ Hp x o (proj1 (saved_range x o Ho)) Ho) as (vs & -> & _).
    by eexists.
Qed.

Lemma loaded_good : good F P t.
Proof.
  split; [split|apply Hp|].
  - apply loaded_props.
  - apply (good_wf F P d Hg).
  - apply loaded_place.
  - apply loaded_users.
  - apply Hp.
  - apply wf_cache_empty. left. apply Hp.
Qed.

End loaded.

Lemma users_text : exists users, Obj <$> users = all_users d /\ Forall (int_range 64) users /\
  collect write_user (all_users d) = Ok (concat (dbio_write_objid <$> users)).
Proof.
  destruct (wdb_users _ _ _ (good_wf F P d Hg)) as [H1 _ _ H4]. destruct (obj_list _ H1) as [users E].
  exists users. split; [done|]. split.
  - rewrite Forall_forall. intros x Hx. assert (Hin : Obj x ∈ all_users d) by (rewrite E; by apply list_elem_of_fmap_2).
    apply H4 in Hin as [o Ho]. by apply oid_range, (saved_range x o).
  - apply (collect_Ok write_user). rewrite E. apply Forall2_fmap_l. clear E. induction users as [|x users IH]; by constructor.
Qed.

(** The same database, up to the addresses of the verbs, the room in arrays of definitions
    and what is only cached. *)
Definition reloaded (t : db) : Prop := num_objects t = num_objects d /\ all_users t = all_users d /\
  forall x, match objects d !! x with
  | None => objects t !! x = None
  | Some o => exists vs, objects t !! x = Some (saved o vs) /\ Forall2 (fun v w => verbs t !! w = verbs d !! v) (verbdefs o) vs
  end.

Lemma loaded_reloaded t seen : partial (num_objects d) seen t -> (forall e, program_of e -> e.1 ∈ seen) -> reloaded t.
Proof.
  intros Hp Hseen. split; [apply Hp|]. split; [apply Hp|]. intros x. destruct (objects d !! x) as [o|] eqn:Ho.
  2: { by apply (pt_none _ _ _ Hp). }
  destruct (pt_some _ _ _ Hp x o (proj1 (saved_range x o Ho)) Ho) as (vs & Hvs & Hlen & Hall). exists vs. split; [done|].
  apply Forall2_same_length_lookup. split; [done|]. intros n v w Hv Hw.
  destruct (wv_exists d (wdb_verbs _ _ _ (good_wf F P d Hg)) x o v Ho (list_elem_of_lookup_2 _ _ _ Hv)) as [vd Hvd].
  rewrite (Hall n v vd w Hv Hw Hvd), Hvd. f_equal. unfold reverb. case_bool_decide as Hin; [by destruct vd|].
  destruct (v_program vd) as [p|] eqn:Hpr; [|destruct vd; cbn in *; by rewrite Hpr].
  destruct Hin. apply (Hseen (x, n, p)). by exists o, v, vd.
Qed.

Lemma read_contents_Ok garbage n : Z.of_nat n = num_objects d ->
  exists objs progs, collect (write_object write_waif upper d) (seqZ 0 (num_objects d)) = Ok objs /\
  (exists s, objs = chr 35 :: s) /\ collect (object_programs d) (seqZ 0 (num_objects d)) = Ok progs /\
  forall t rest b, partial 0 [] t -> exists t' b',
    read_contents read_waif parse_program garbage current_version (num_objects d) (Z.of_nat (length progs)) t
      (mkReader (objs ++ concat (write_program_entry unparse_program <$> progs) ++ rest) b) =
      Ok (true, (t', mkReader rest b')) /\ good F P t' /\ reloaded t'.
Proof.
  intros Hn. pose proof (sv_size _ _ d Hs) as Hsize.
  destruct (load_objects_Ok garbage current_version n 0 ltac:(lia) ltac:(lia)) as (objs & Ho & Hhead & Hload).
  rewrite Hn in Ho. destruct programs_Ok as (progs & Hpr & Hin). exists objs, progs.
  split; [done|]. split; [apply Hhead; lia|]. split; [done|]. intros t rest b Hp.
  unfold read_contents. replace (Z.to_nat (num_objects d)) with n by lia.
  destruct (Hload t (concat (write_program_entry unparse_program <$> progs) ++ rest) b Hp) as (t1 & b1 & -> & Hp1).
  cbn [mbind res_bind negb]. rewrite (loaded_valid t1 [] Hp1). cbn [mbind res_bind negb]. rewrite Nat2Z.id.
  destruct (load_programs_Ok progs t1 [] rest b1 Hp1) as (t2 & seen & -> & Hp2 & Hseen); [by intros e He; apply Hin|].
  exists t2, b1. split; [done|]. split; [by apply (loaded_good t2 seen)|]. apply (loaded_reloaded t2 seen Hp2).
  intros e He. apply Hseen. left. by apply Hin.
Qed.

Lemma db_file_Ok wtq wac rtq rac garbage b :
  exists text t b', write_db_file write_waif upper unparse_program wtq wac d = Ok text /\
    read_db_file read_waif parse_program rtq rac garbage (mkDb ∅ 0 0 [] ∅ ∅ None 0 0 0 0) (mkReader text b) =
      ('(ok, rd) ← rtq (mkReader (wtq ++ wac) b');
       if negb (ok : bool) then Ok (false, (t, rd))
       else '(ok, rd) ← rac rd; Ok (ok, (t, rd))) /\
    good F P t /\ reloaded t.
Proof.
  pose proof (sv_size _ _ d Hs) as Hsize. pose proof (sv_users _ _ d Hs) as Husers.
  destruct (read_contents_Ok garbage (Z.to_nat (num_objects d)) ltac:(lia)) as (objs & progs & Ho & [s Hhead] & Hpr & Hread).
  destruct users_text as (users & Eu & Hur & Hut). pose proof (sv_programs _ _ d Hs progs Hpr) as Hmany.
  unfold write_db_file, db_last_used_objid. replace (num_objects d - 1 + 1) with (num_objects d) by lia.
  rewrite Hpr, Hut, Ho. cbn [mbind res_bind].
  rewrite (wrap32_id _ (proj1 (count_range _ Hmany))).
  assert (Elen : length (all_users d) = length users) by (by rewrite <- Eu, length_fmap).
  set (rest := concat (dbio_write_objid <$> users) ++ objs ++ concat (write_program_entry unparse_program <$> progs) ++ wtq ++ wac).
  assert (Hspace : no_space rest).
  { unfold rest. destruct users as [|u us]; [by rewrite Hhead|]. apply Forall_cons in Hur as [Hu _].
    cbn [fmap list_fmap concat]. unfold dbio_write_objid at 1, dbio_write_num at 1. rewrite <- !app_assoc.
    by apply print_int_space. }
  set (t0 := with_users (all_users d) (mkDb ∅ 0 0 [] ∅ ∅ None 0 0 0 0)).
  assert (Hp0 : partial 0 [] t0).
  { assert (He : forall x o, objects t0 !! x = Some o -> False) by (intros x o H; change ((∅ : gmap Z Object) !! x = Some o) in H;
      by rewrite lookup_empty in H).
    split; [done|done|done|done|intros x o Hx; lia| |].
    2: { intros v vd H. change ((∅ : gmap positive Verbdef) !! v = Some vd) in H. by rewrite lookup_empty in H. }
    split; [by intros x o v ?%He|by intros x o ?%He|by intros x y ox oy v ?%He]. }
  destruct (read_times_reads dbio_read_objid dbio_write_objid (fun x => x) users) with (rest := objs ++
    concat (write_program_entry unparse_program <$> progs) ++ wtq ++ wac) (b := b) as [b1 Hb1].
  { eapply Forall_impl; [exact Hur|]. intros x Hx. by apply read_num_reads. }
  destruct (Hread t0 (wtq ++ wac) b1 Hp0) as (t & b2 & Hc & Hgood & Hre).
  exists (header current_version ++ dbio_write_num (num_objects d) ++ dbio_write_num (Z.of_nat (length progs)) ++
    dbio_write_num 0 ++ dbio_write_num (Z.of_nat (length (all_users d))) ++ rest), t, b2.
  split; [done|]. split; [|done].
  unfold read_db_file, dbio_scanf. cbn [input buffer]. rewrite header_Ok.
  2: { unfold dbio_write_num at 1. rewrite <- !app_assoc. apply print_int_space. unfold int_range. lia. }
  change (negb (check_version current_version)) with false. cbv iota. cbn [input buffer].
  rewrite counts_Ok; [|unfold int_range; lia..|done].
  destruct (Z.ltb_spec (Z.of_nat (length (all_users d))) 0); [lia|].
  destruct (Z.leb_spec (2 ^ 31) (Z.of_nat (length (all_users d)))); [lia|]. cbn [orb].
  rewrite Elen, Nat2Z.id. unfold rest. rewrite Hb1. cbn [mbind res_bind]. rewrite list_fmap_id.
  unfold dbpriv_set_all_users. rewrite Eu. change (with_users (all_users d) _) with t0. rewrite Hc.
  reflexivity.
Qed.

End loading.

(** ** Properties *)

(** C26: Saving and loading a database: the file that is written for a database in which
    everything fits its type and every program compiles to itself is read back into an empty
    server as the same database -- the same object numbers, recycled ones included, the same
    users, attributes, hierarchies, property definitions and values, and verbs with their
    programs in the same order; only the verbs' addresses, the room in arrays and caches
    differ -- the invariant holds again, and reading goes on with the queue of tasks exactly
    where it was written. *)
Theorem db_file_roundtrip read_waif write_waif upper parse_program unparse_program
    write_task_queue write_active_connections read_task_queue read_active_connections garbage F P d b :
  good F P d -> savable parse_program unparse_program d -> exists text t b',
  write_db_file write_waif upper unparse_program write_task_queue write_active_connections d = Ok text /\
  read_db_file read_waif parse_program read_task_queue read_active_connections garbage
      (mkDb ∅ 0 0 [] ∅ ∅ None 0 0 0 0) (mkReader text b) =
    ('(ok, rd) ← read_task_queue (mkReader (write_task_queue ++ write_active_connections) b');
     if negb (ok : bool) then Ok (false, (t, rd))
     else '(ok, rd) ← read_active_connections rd; Ok (ok, (t, rd))) /\
  good F P t /\ reloaded d t.
Proof. intros Hg Hs. by apply db_file_Ok. Qed.

(** For a concrete database without floating-point numbers and lists. *)
Definition simple_varb (v : Var) : bool :=
  match v with
  | Int n | Obj n => bool_decide (int_range 64 n)
  | Str s => bool_decide (line_ok s)
  | Clear => true
  | _ => false
  end.
Definition verb_textb (compiles : positive -> bool) (vd : Verbdef) : bool :=
  bool_decide (line_ok (v_name vd)) && bool_decide (int_range 64 (v_owner vd)) &&
  match v_program vd with Some p => compiles p | None => true end.
Definition object_okb (compiles : positive -> bool) (d : db) (o : Object) : bool :=
  bool_decide (line_ok (name o)) && bool_decide (int_range 32 (flags o)) && (lasting (flags o) =? flags o) &&
  bool_decide (int_range 64 (owner o)) &&
  bool_decide (Z.of_nat (length (verbdefs o)) < 2 ^ 31 /\ Z.of_nat (cur_length (propdefs o)) < 2 ^ 31 /\
    Z.of_nat (length (propval o)) < 2 ^ 31) &&
  forallb (fun v => match verbs d !! v with Some vd => verb_textb compiles vd | None => true end) (verbdefs o) &&
  forallb (fun p => bool_decide (line_ok (pd_name p))) (l (propdefs o)) &&
  forallb (fun pv => simple_varb (p_var pv) && bool_decide (int_range 64 (p_owner pv) /\ int_range 16 (p_perms pv))) (propval o).

Lemma simple_var_ok v : simple_varb v = true -> var_ok v.
Proof. by destruct v; cbn [simple_varb var_ok]; rewrite ?bool_decide_eq_true. Qed.

Lemma object_okb_ok parse_program unparse_program compiles d o :
  (forall p, compiles p = true -> program_text_ok parse_program unparse_program p) ->
  object_okb compiles d o = true -> object_ok parse_program unparse_program d o.
Proof.
  intros Hc. unfold object_okb. rewrite !andb_true_iff, !bool_decide_eq_true, Z.eqb_eq, !forallb_forall.
  intros (((((((H1 & H2) & H3) & H4) & H5) & H6) & H7) & H8). split; try done; try by apply H5.
  - intros v vd Hv Hvd. specialize (H6 v (proj1 (list_elem_of_In _ _) Hv)). rewrite Hvd in H6. unfold verb_textb in H6.
    rewrite !andb_true_iff, !bool_decide_eq_true in H6. destruct H6 as [[? ?] H]. split; [done|]. split; [done|].
    intros p Hp. rewrite Hp in H. by apply Hc.
  - intros p Hp. specialize (H7 p (proj1 (list_elem_of_In _ _) Hp)). by rewrite bool_decide_eq_true in H7.
  - intros pv Hp. specialize (H8 pv (proj1 (list_elem_of_In _ _) Hp)). rewrite andb_true_iff, bool_decide_eq_true in H8.
    destruct H8 as [H ?]. split; [by apply simple_var_ok|done].
Qed.

(** The sample, with a program for the verb of its root class. *)
Definition programmed : db :=
  with_verbs (<[1%positive := mkVerbdef (lit "l*ook") (Some 7%positive) 1 13 (-1)]> (verbs sample)) sample.

Lemma programmed_good : good sample_family sample_place programmed.
Proof.
  split; [apply db_ok_wf; vm_compute; reflexivity|exact (vdefs_ok_spec programmed eq_refl)|].
  apply wf_cache_empty. by left.
Qed.

(** A compiler that knows one program. *)
Definition parse_one (version : Z) (text : cstr) : option positive :=
  if decide (text = lit "return 1;" ++ [NL]) then Some 7%positive else None.
Definition unparse_one (program : positive) : list cstr := [lit "return 1;"].

Lemma one_text_ok p : (p =? 7)%positive = true -> program_text_ok parse_one unparse_one p.
Proof.
  rewrite Pos.eqb_eq. intros ->. split; [split|].
  - constructor; [|constructor]. split; [apply (bool_decide_unpack _); vm_compute; exact I|done].
  - vm_compute. reflexivity.
  - by do 2 eexists.
Qed.

Lemma programmed_savable : savable parse_one unparse_one programmed.
Proof.
  split; [done|done| |].
  - intros es Hes. assert (E : collect (object_programs programmed) (seqZ 0 7) = Ok [(0, 0%nat, 7%positive)])
      by (vm_compute; reflexivity).
    change (num_objects programmed) with 7 in Hes. rewrite E in Hes. by injection Hes as <-.
  - intros x o Ho.
    assert (H : bool_decide (map_Forall (fun _ o => object_okb (fun p => (p =? 7)%positive) programmed o = true) (objects programmed))
      = true) by (vm_compute; reflexivity).
    apply bool_decide_eq_true in H. apply (object_okb_ok _ _ (fun p => (p =? 7)%positive)); [apply one_text_ok|].
    exact (H x o Ho).
Qed.

Definition junk : Object :=
  mkObject 9 9 9 9 9 9 9 9 (lit "junk") 9 [3%positive] (mkProplist 2 []) [] (Some 5%positive).

Lemma db_file_roundtrip_witness : exists text t b',
  write_db_file (fun _ => []) error_num unparse_one (lit "0 clocks") [] programmed = Ok text /\
  read_db_file (fun _ => Fail Undefined) parse_one (fun rd => Ok (true, rd)) (fun rd => Ok (true, rd)) junk
    (mkDb ∅ 0 0 [] ∅ ∅ None 0 0 0 0) (mkReader text []) = Ok (true, (t, mkReader (lit "0 clocks") b')) /\
  reloaded programmed t.
Proof.
  destruct (db_file_roundtrip (fun _ => Fail Undefined) (fun _ => []) error_num parse_one unparse_one
    (lit "0 clocks") [] (fun rd => Ok (true, rd)) (fun rd => Ok (true, rd)) junk sample_family sample_place programmed [])
    as (text & t & b' & Hw & Hr & _ & Hre); [exact programmed_good|exact programmed_savable|].
  exists text, t, b'. split; [exact Hw|]. split; [exact Hr|exact Hre].
Defined.
