(* ===== verification/Ast.v ===== *)
(** * Syntax trees and opcodes (src/ast.h, src/opcode.h)

    What the parser builds and the code generator translates, and the instructions of the
    virtual machine with their numbers. *)

From S2P Require Import Prelude CStrings Values.

Open Scope Z_scope.

(** ** Syntax

    The structures are linked by pointers, with a null pointer at the end of a list or where
    an optional part is missing.  [id]s are variable slots, or -1. *)

Inductive Arg_Kind := ARG_NORMAL | ARG_SPLICE.
Inductive Scatter_Kind := SCAT_REQUIRED | SCAT_OPTIONAL | SCAT_REST.

#[export] Instance Scatter_Kind_eq_dec : EqDecision Scatter_Kind.
Proof. solve_decision. Defined.

(** The kinds of expressions that share the member [bin], and [expr], of the union. *)
Inductive Binary_Kind :=
  | EXPR_PROP | EXPR_PLUS | EXPR_MINUS | EXPR_TIMES | EXPR_DIVIDE | EXPR_MOD | EXPR_EXP
  | EXPR_EQ | EXPR_NE | EXPR_LT | EXPR_LE | EXPR_GT | EXPR_GE | EXPR_IN
  | EXPR_BITOR | EXPR_BITXOR | EXPR_BITAND | EXPR_SHL | EXPR_SHR | EXPR_LSHR.
Inductive Unary_Kind := EXPR_NEGATE | EXPR_NOT | EXPR_COMPLEMENT.

Inductive Expr :=
  | EXPR_VAR (var : Var)
  | EXPR_ID (id : Z)
  | Expr_Binary (kind : Binary_Kind) (lhs rhs : Expr)
  | Expr_Unary (kind : Unary_Kind) (expr : Expr)
  | EXPR_AND (lhs rhs : Expr)
  | EXPR_OR (lhs rhs : Expr)
  | EXPR_INDEX (lhs rhs : Expr)
  | EXPR_RANGE (base from to : Expr)
  | EXPR_LENGTH
  | EXPR_LIST (list : Arg_List)
  | EXPR_CALL (func : Z) (args : Arg_List)
  | EXPR_VERB (obj verb : Expr) (args : Arg_List)
  | EXPR_COND (condition consequent alternate : Expr)
  | EXPR_ASGN (lhs rhs : Expr)
  | EXPR_SCATTER (scatter : Scatter)
  | EXPR_CATCH (expr : Expr) (codes : Arg_List) (except : Opt_Expr)
with Opt_Expr :=
  | No_Expr
  | Some_Expr (expr : Expr)
with Arg_List :=
  | Arg_Nil
  | Arg_Cons (kind : Arg_Kind) (expr : Expr) (next : Arg_List)
with Scatter :=
  | Scat_Nil
  | Scat_Cons (kind : Scatter_Kind) (id : Z) (expr : Opt_Expr) (next : Scatter).

Inductive Stmt :=
  | Stmt_Nil
  | STMT_COND (arms : Cond_Arm) (otherwise : Stmt) (next : Stmt)
  | STMT_LIST (id : Z) (expr : Expr) (body : Stmt) (next : Stmt)
  | STMT_RANGE (id : Z) (from to : Expr) (body : Stmt) (next : Stmt)
  | STMT_WHILE (id : Z) (condition : Expr) (body : Stmt) (next : Stmt)
  | STMT_FORK (id : Z) (time : Expr) (body : Stmt) (next : Stmt)
  | STMT_EXPR (expr : Expr) (next : Stmt)
  | STMT_RETURN (expr : Opt_Expr) (next : Stmt)
  | STMT_TRY_EXCEPT (body : Stmt) (excepts : Except_Arm) (next : Stmt)
  | STMT_TRY_FINALLY (body handler : Stmt) (next : Stmt)
  | STMT_BREAK (exit : Z) (next : Stmt)
  | STMT_CONTINUE (exit : Z) (next : Stmt)
with Cond_Arm :=
  | Arm_Nil
  | Arm_Cons (condition : Expr) (stmt : Stmt) (next : Cond_Arm)
with Except_Arm :=
  | Exc_Nil
  | Exc_Cons (id : Z) (codes : Arg_List) (stmt : Stmt) (next : Except_Arm).

Scheme Expr_mut := Induction for Expr Sort Prop
with Opt_Expr_mut := Induction for Opt_Expr Sort Prop
with Arg_List_mut := Induction for Arg_List Sort Prop
with Scatter_mut := Induction for Scatter Sort Prop.
Combined Scheme Expr_mutind from Expr_mut, Opt_Expr_mut, Arg_List_mut, Scatter_mut.

Scheme Stmt_mut := Induction for Stmt Sort Prop
with Cond_Arm_mut := Induction for Cond_Arm Sort Prop
with Except_Arm_mut := Induction for Except_Arm Sort Prop.
Combined Scheme Stmt_mutind from Stmt_mut, Cond_Arm_mut, Except_Arm_mut.

(** ** Opcodes *)

Definition NUM_READY_VARS : Z := 32.

Inductive Extended_Opcode :=
  | EOP_RANGESET | EOP_LENGTH | EOP_PUSH_LABEL | EOP_END_CATCH | EOP_END_EXCEPT | EOP_END_FINALLY
  | EOP_CONTINUE | EOP_CATCH | EOP_TRY_EXCEPT | EOP_TRY_FINALLY | EOP_WHILE_ID | EOP_EXIT | EOP_EXIT_ID
  | EOP_SCATTER | EOP_EXP | EOP_BITAND | EOP_BITXOR | EOP_BITOR | EOP_SHL | EOP_SHR | EOP_LSHR
  | EOP_COMPLEMENT.

(** [OP_PUT] and [OP_PUSH] stand for 32 opcodes each, and [OPTIM_NUM] for those that push a
    small number. *)
Inductive Opcode :=
  | OP_IF | OP_WHILE | OP_EIF | OP_FORK | OP_FORK_WITH_ID | OP_FOR_LIST | OP_FOR_RANGE
  | OP_INDEXSET | OP_PUSH_GET_PROP | OP_GET_PROP | OP_CALL_VERB | OP_PUT_PROP
  | OP_BI_FUNC_CALL | OP_IF_QUES | OP_REF | OP_RANGE_REF
  | OP_MAKE_SINGLETON_LIST | OP_CHECK_LIST_FOR_SPLICE
  | OP_MULT | OP_DIV | OP_MOD | OP_ADD | OP_MINUS
  | OP_EQ | OP_NE | OP_LT | OP_LE | OP_GT | OP_GE | OP_IN
  | OP_AND | OP_OR | OP_UNARY_MINUS | OP_NOT
  | OP_PUT (i : Z) | OP_G_PUT | OP_PUSH (i : Z) | OP_G_PUSH
  | OP_IMM | OP_MAKE_EMPTY_LIST | OP_LIST_ADD_TAIL | OP_LIST_APPEND
  | OP_PUSH_REF | OP_PUT_TEMP | OP_PUSH_TEMP
  | OP_JUMP | OP_RETURN | OP_RETURN0 | OP_DONE | OP_POP
  | OP_EXTENDED
  | OPTIM_NUM (n : Z).

#[export] Instance Extended_Opcode_eq_dec : EqDecision Extended_Opcode.
Proof. solve_decision. Defined.
#[export] Instance Opcode_eq_dec : EqDecision Opcode.
Proof. solve_decision. Defined.

Definition ops_to_not : list Opcode :=
  [OP_IF; OP_WHILE; OP_EIF; OP_FORK; OP_FORK_WITH_ID; OP_FOR_LIST; OP_FOR_RANGE; OP_INDEXSET; OP_PUSH_GET_PROP;
   OP_GET_PROP; OP_CALL_VERB; OP_PUT_PROP; OP_BI_FUNC_CALL; OP_IF_QUES; OP_REF; OP_RANGE_REF;
   OP_MAKE_SINGLETON_LIST; OP_CHECK_LIST_FOR_SPLICE; OP_MULT; OP_DIV; OP_MOD; OP_ADD; OP_MINUS; OP_EQ; OP_NE;
   OP_LT; OP_LE; OP_GT; OP_GE; OP_IN; OP_AND; OP_OR; OP_UNARY_MINUS; OP_NOT].
Definition ops_from_imm : list Opcode :=
  [OP_IMM; OP_MAKE_EMPTY_LIST; OP_LIST_ADD_TAIL; OP_LIST_APPEND; OP_PUSH_REF; OP_PUT_TEMP; OP_PUSH_TEMP; OP_JUMP;
   OP_RETURN; OP_RETURN0; OP_DONE; OP_POP; OP_EXTENDED].

Definition OPTIM_NUM_START : Z := 113.
Definition OPTIM_NUM_LOW : Z := -10.
Definition OPTIM_NUM_HI : Z := 255 - OPTIM_NUM_START + OPTIM_NUM_LOW.
Definition IN_OPTIM_NUM_RANGE (i : Z) : bool := (OPTIM_NUM_LOW <=? i) && (i <=? OPTIM_NUM_HI).

(** The position of an element. *)
Fixpoint index_of (o : Opcode) (l : list Opcode) : Z :=
  match l with
  | [] => 0
  | x :: l => if decide (x = o) then 0 else 1 + index_of o l
  end.

Definition opcode_num (o : Opcode) : Z :=
  match o with
  | OP_PUT i => 34 + i
  | OP_G_PUT => 34 + NUM_READY_VARS
  | OP_PUSH i => 67 + i
  | OP_G_PUSH => 67 + NUM_READY_VARS
  | OPTIM_NUM n => OPTIM_NUM_START + n - OPTIM_NUM_LOW
  | o => if bool_decide (o ∈ ops_to_not) then index_of o ops_to_not else 100 + index_of o ops_from_imm
  end.

(** The cases of the interpreter's [switch]. *)
Definition opcode_of (b : Z) : Opcode :=
  if b <? 34 then nth (Z.to_nat b) ops_to_not OP_IF
  else if b <? 34 + NUM_READY_VARS then OP_PUT (b - 34)
  else if b =? 34 + NUM_READY_VARS then OP_G_PUT
  else if b <? 67 + NUM_READY_VARS then OP_PUSH (b - 67)
  else if b =? 67 + NUM_READY_VARS then OP_G_PUSH
  else if b <? OPTIM_NUM_START then nth (Z.to_nat (b - 100)) ops_from_imm OP_IMM
  else OPTIM_NUM (b - OPTIM_NUM_START + OPTIM_NUM_LOW).

Definition eops : list Extended_Opcode :=
  [EOP_RANGESET; EOP_LENGTH; EOP_PUSH_LABEL; EOP_END_CATCH; EOP_END_EXCEPT; EOP_END_FINALLY; EOP_CONTINUE; EOP_CATCH;
   EOP_TRY_EXCEPT; EOP_TRY_FINALLY; EOP_WHILE_ID; EOP_EXIT; EOP_EXIT_ID; EOP_SCATTER; EOP_EXP; EOP_BITAND; EOP_BITXOR;
   EOP_BITOR; EOP_SHL; EOP_SHR; EOP_LSHR; EOP_COMPLEMENT].
Definition eopcode_num (o : Extended_Opcode) : Z :=
  (fix go (l : list Extended_Opcode) : Z :=
     match l with [] => 0 | x :: l => if decide (x = o) then 0 else 1 + go l end) eops.
(** [None]: the default case, which panics. *)
Definition eopcode_of (b : Z) : option Extended_Opcode := eops !! Z.to_nat b.

(** [COUNT_TICK] and [COUNT_EOP_TICK]. *)
Definition COUNT_TICK (b : Z) : bool := b <=? opcode_num OP_G_PUT.
Definition COUNT_EOP_TICK (b : Z) : bool := eopcode_num EOP_CATCH <=? b.

Definition good_opcode (o : Opcode) : Prop :=
  match o with
  | OP_PUT i | OP_PUSH i => 0 <= i < NUM_READY_VARS
  | OPTIM_NUM n => OPTIM_NUM_LOW <= n <= OPTIM_NUM_HI
  | _ => True
  end.

Lemma opcode_of_num o : good_opcode o -> 0 <= opcode_num o < 256 /\ opcode_of (opcode_num o) = o.
Proof.
  assert (Hlt : forall a b, a < b -> (a <? b) = true) by lia. assert (Hge : forall a b, b <= a -> (a <? b) = false) by lia.
  destruct o; cbn [good_opcode opcode_num]; intros Ho; try (vm_compute; split; [split; [discriminate|reflexivity]|reflexivity]);
    unfold NUM_READY_VARS, OPTIM_NUM_HI, OPTIM_NUM_START, OPTIM_NUM_LOW in *; (split; [lia|]);
    unfold opcode_of, NUM_READY_VARS, OPTIM_NUM_START, OPTIM_NUM_LOW.
  - rewrite Hge, Hlt by lia. f_equal. lia.
  - rewrite !Hge, Hlt by lia. destruct (Z.eqb_spec (67 + i) (34 + 32)); [lia|]. f_equal. lia.
  - rewrite !Hge by lia. destruct (Z.eqb_spec (113 + n - -10) (34 + 32)); [lia|].
    destruct (Z.eqb_spec (113 + n - -10) (67 + 32)); [lia|]. f_equal. lia.
Qed.

Lemma eopcode_of_num o : eopcode_of (eopcode_num o) = Some o /\ 0 <= eopcode_num o < 256.
Proof. destruct o; vm_compute; split; try reflexivity; split; try reflexivity; discriminate. Qed.

(** Opcodes have different numbers. *)
Lemma opcode_num_inj o o' : good_opcode o -> good_opcode o' -> opcode_num o = opcode_num o' -> o = o'.
Proof. intros Ho Ho' E. rewrite <- (proj2 (opcode_of_num o Ho)), <- (proj2 (opcode_of_num o' Ho')). by rewrite E. Qed.
