(* ===== verification/CodeGen.v ===== *)
(** * The code generator (src/code_gen.c)

    From syntax trees to byte code.  The code of a vector is first generated with one byte
    for every reference -- to a literal, a variable, a place in the code -- and a list of
    "fixups" that say what these stand for; then the sizes of references are chosen and the
    final vector is written.  The option BYTECODE_REDUCE_REF is off, as it is by default. *)

From S2P Require Import Prelude CStrings Values Ast.

Open Scope Z_scope.

(** ** State

    [unsigned] numbers that count what is in memory are natural numbers. *)

Inductive fixup_kind := FIXUP_LITERAL | FIXUP_FORK | FIXUP_LABEL | FIXUP_VAR_REF | FIXUP_STACK.

#[export] Instance fixup_kind_eq_dec : EqDecision fixup_kind.
Proof. solve_decision. Defined.

(** How many references of each kind there are: the fields [num_literals ...] of the state
    and [prev_literals ...] of a fixup. *)
Record counts := mkCounts { n_literals : nat; n_forks : nat; n_var_refs : nat; n_labels : nat; n_stacks : nat }.
Definition no_counts : counts := mkCounts 0 0 0 0 0.

(** [next]: an index of [fixups], or none for -1. *)
Record Fixup := mkFixup { f_kind : fixup_kind; f_pc : nat; f_value : nat; f_prev : counts; f_next : option nat }.

Record Loop := mkLoop { loop_id : Z; top_label : Fixup; top_stack : nat; bottom_label : option nat; bottom_stack : nat }.

(** [Bytecodes] of src/program.h. *)
Record Bytecodes := mkBytecodes {
  numbytes_label : nat; numbytes_literal : nat; numbytes_fork : nat; numbytes_var_name : nat; numbytes_stack : nat;
  vector : list Z; bc_size : nat; bc_max_stack : nat }.

(** [GState]: shared by a program and its forked parts. *)
Record GState := mkGState { total_var_refs : nat; literals : list Var; fork_vectors : list Bytecodes }.

(** [State]; the innermost loop comes first.  [saved_stack]: none for UINT_MAX. *)
Record State := mkState {
  max_literal : nat; max_fork : nat; max_var_ref : nat; nums : counts;
  fixups : list Fixup; bytes : list Z;
  cur_stack : nat; max_stack : nat; saved_stack : option nat;
  loops : list Loop; gstate : GState }.

Definition init_gstate : GState := mkGState 0 [] [].
Definition init_state (g : GState) : State := mkState 0 0 0 no_counts [] [] 0 0 None [] g.

Definition with_nums c s := mkState (max_literal s) (max_fork s) (max_var_ref s) c (fixups s) (bytes s) (cur_stack s)
  (max_stack s) (saved_stack s) (loops s) (gstate s).
Definition with_fixups f s := mkState (max_literal s) (max_fork s) (max_var_ref s) (nums s) f (bytes s) (cur_stack s)
  (max_stack s) (saved_stack s) (loops s) (gstate s).
Definition with_bytes b s := mkState (max_literal s) (max_fork s) (max_var_ref s) (nums s) (fixups s) b (cur_stack s)
  (max_stack s) (saved_stack s) (loops s) (gstate s).
Definition with_stack c m s := mkState (max_literal s) (max_fork s) (max_var_ref s) (nums s) (fixups s) (bytes s) c m
  (saved_stack s) (loops s) (gstate s).
Definition with_saved o s := mkState (max_literal s) (max_fork s) (max_var_ref s) (nums s) (fixups s) (bytes s) (cur_stack s)
  (max_stack s) o (loops s) (gstate s).
Definition with_loops l s := mkState (max_literal s) (max_fork s) (max_var_ref s) (nums s) (fixups s) (bytes s) (cur_stack s)
  (max_stack s) (saved_stack s) l (gstate s).
Definition with_gstate g s := mkState (max_literal s) (max_fork s) (max_var_ref s) (nums s) (fixups s) (bytes s) (cur_stack s)
  (max_stack s) (saved_stack s) (loops s) g.
Definition with_maxima a b c s := mkState a b c (nums s) (fixups s) (bytes s) (cur_stack s) (max_stack s) (saved_stack s)
  (loops s) (gstate s).

(** ** The monad of the generator *)

Definition gen (A : Type) : Type := State -> res (A * State).
#[export] Instance gen_ret : MRet gen := fun A a s => Ok (a, s).
#[export] Instance gen_bind : MBind gen := fun A B f m s => '(a, s) ← m s; f a s.

Definition modify (f : State -> State) : gen unit := fun s => Ok (tt, f s).
Definition gets {A} (f : State -> A) : gen A := fun s => Ok (f s, s).
Definition panic {A} (msg : string) : gen A := fun _ => Fail (Panic msg).
Definition skip : gen unit := mret tt.

(** ** Emitting *)

(** [Byte b]: a parameter of a narrower type. *)
Definition emit_byte (b : Z) : gen unit := modify (fun s => with_bytes (bytes s ++ [b mod 256]) s).
Definition emit_op (o : Opcode) : gen unit := emit_byte (opcode_num o).
Definition emit_extended_byte (o : Extended_Opcode) : gen unit := _ ← emit_op OP_EXTENDED; emit_byte (eopcode_num o).

(** The index of the new fixup; a placeholder for its value. *)
Definition add_known_fixup (f : Fixup) : gen nat := fun s =>
  let f := mkFixup (f_kind f) (length (bytes s)) (f_value f) (f_prev f) (f_next f) in
  (_ ← emit_byte 0; mret (length (fixups s))) (with_fixups (fixups s ++ [f]) s).

Definition add_linked_fixup (kind : fixup_kind) (value : nat) (next : option nat) : gen nat := fun s =>
  add_known_fixup (mkFixup kind 0 value (nums s) next) s.
Definition add_fixup (kind : fixup_kind) (value : nat) : gen nat := add_linked_fixup kind value None.

(** [state->num_literals++] and so on.  No code counts [num_stacks]. *)
Definition count_literal : gen unit :=
  modify (fun s => with_nums (let c := nums s in mkCounts (S (n_literals c)) (n_forks c) (n_var_refs c) (n_labels c) (n_stacks c)) s).
Definition count_fork : gen unit :=
  modify (fun s => with_nums (let c := nums s in mkCounts (n_literals c) (S (n_forks c)) (n_var_refs c) (n_labels c) (n_stacks c)) s).
Definition count_var_ref : gen unit :=
  modify (fun s => with_nums (let c := nums s in mkCounts (n_literals c) (n_forks c) (S (n_var_refs c)) (n_labels c) (n_stacks c)) s).
Definition count_label : gen unit :=
  modify (fun s => with_nums (let c := nums s in mkCounts (n_literals c) (n_forks c) (n_var_refs c) (S (n_labels c)) (n_stacks c)) s).

(** Where an equal literal of the same type is, or the end of the table. *)
Fixpoint find_literal (v : Var) (lits : list Var) : res nat :=
  match lits with
  | [] => Ok 0%nat
  | w :: lits =>
      same ← (if decide (type_of v = type_of w) then equality v w true else Ok false);
      if (same : bool) then Ok 0%nat else S <$> find_literal v lits
  end.

Definition add_literal (v : Var) : gen unit := fun s =>
  let g := gstate s in
  i ← find_literal v (literals g);
  let lits := if decide (i = length (literals g)) then literals g ++ [v] else literals g in
  (_ ← modify (with_gstate (mkGState (total_var_refs g) lits (fork_vectors g)));
   _ ← add_fixup FIXUP_LITERAL i;
   _ ← count_literal;
   modify (fun s => with_maxima (Nat.max (max_literal s) i) (max_fork s) (max_var_ref s) s)) s.

Definition add_fork (b : Bytecodes) : gen unit := fun s =>
  let g := gstate s in
  let i := length (fork_vectors g) in
  (_ ← modify (with_gstate (mkGState (total_var_refs g) (literals g) (fork_vectors g ++ [b])));
   _ ← add_fixup FIXUP_FORK i;
   _ ← count_fork;
   modify (fun s => with_maxima (max_literal s) (Nat.max (max_fork s) i) (max_var_ref s) s)) s.

(** [slot] is an unsigned parameter. *)
Definition add_var_ref (slot : Z) : gen unit :=
  let slot := Z.to_nat (u32 slot) in
  _ ← add_fixup FIXUP_VAR_REF slot;
  _ ← count_var_ref;
  _ ← modify (fun s => with_maxima (max_literal s) (max_fork s) (Nat.max (max_var_ref s) slot) s);
  modify (fun s => let g := gstate s in with_gstate (mkGState (S (total_var_refs g)) (literals g) (fork_vectors g)) s).

Definition add_linked_label (next : option nat) : gen nat :=
  label ← add_linked_fixup FIXUP_LABEL 0 next; _ ← count_label; mret label.
Definition add_label : gen nat := add_linked_label None.

Definition add_pseudo_label (value : nat) : gen unit :=
  _ ← add_known_fixup (mkFixup FIXUP_LABEL 0 value no_counts None); count_label.

Definition add_known_label (f : Fixup) : gen unit := _ ← add_known_fixup f; count_label.

(** Where the code is now. *)
Definition capture_label : gen Fixup := fun s => Ok (mkFixup FIXUP_LABEL 0 (length (bytes s)) (nums s) None, s).

(** Along a chain of labels. *)
Fixpoint define_labels (fuel : nat) (label : option nat) (s : State) : res State :=
  match label with
  | None => Ok s
  | Some i =>
      match fuel with
      | O => Fail OutOfFuel
      | S fuel =>
          f ← deref (fixups s !! i);
          let f' := mkFixup (f_kind f) (f_pc f) (length (bytes s)) (nums s) (f_next f) in
          define_labels fuel (f_next f) (with_fixups (<[i := f']> (fixups s)) s)
      end
  end.
Definition define_label (label : option nat) : gen unit := fun s =>
  s ← define_labels (S (length (fixups s))) label s; Ok (tt, s).

Definition add_stack_ref (index : nat) : gen unit := _ ← add_fixup FIXUP_STACK index; skip.

Definition push_stack (n : nat) : gen unit :=
  modify (fun s => with_stack (cur_stack s + n) (Nat.max (max_stack s) (cur_stack s + n)) s).
(** Below zero the number would wrap around. *)
Definition pop_stack (n : nat) : gen unit := fun s =>
  if decide (cur_stack s < n)%nat then Fail Undefined else Ok (tt, with_stack (cur_stack s - n) (max_stack s) s).

Definition save_stack_top : gen (option nat) := fun s =>
  if decide (cur_stack s = 0%nat) then Fail Undefined
  else Ok (saved_stack s, with_saved (Some (cur_stack s - 1)%nat) s).
Definition saved_stack_top : gen (option nat) := gets saved_stack.
Definition restore_stack_top (old : option nat) : gen unit := modify (with_saved old).

Definition enter_loop (id : Z) (top : Fixup) (tstack : nat) (bottom : option nat) (bstack : nat) : gen unit :=
  modify (fun s => with_loops (mkLoop id top tstack bottom bstack :: loops s) s).
Definition exit_loop : gen (option nat) := fun s =>
  match loops s with
  | [] => Fail Segv
  | lp :: ls => Ok (bottom_label lp, with_loops ls s)
  end.

Definition emit_var_op (op : Z -> Opcode) (g_op : Opcode) (slot : Z) : gen unit :=
  if u32 slot >=? NUM_READY_VARS then _ ← emit_op g_op; add_var_ref slot else emit_op (op (u32 slot)).
Definition emit_put := emit_var_op OP_PUT OP_G_PUT.
Definition emit_push := emit_var_op OP_PUSH OP_G_PUSH.

(** ** Expressions *)

Definition binary_op (k : Binary_Kind) : Opcode + Extended_Opcode :=
  match k with
  | EXPR_EQ => inl OP_EQ | EXPR_NE => inl OP_NE | EXPR_GE => inl OP_GE | EXPR_GT => inl OP_GT
  | EXPR_LE => inl OP_LE | EXPR_LT => inl OP_LT | EXPR_IN => inl OP_IN
  | EXPR_PLUS => inl OP_ADD | EXPR_MINUS => inl OP_MINUS | EXPR_TIMES => inl OP_MULT
  | EXPR_DIVIDE => inl OP_DIV | EXPR_MOD => inl OP_MOD | EXPR_PROP => inl OP_GET_PROP
  | EXPR_BITAND => inr EOP_BITAND | EXPR_BITXOR => inr EOP_BITXOR | EXPR_BITOR => inr EOP_BITOR
  | EXPR_SHL => inr EOP_SHL | EXPR_SHR => inr EOP_SHR | EXPR_LSHR => inr EOP_LSHR
  | EXPR_EXP => inr EOP_EXP
  end.
Definition emit_binary (k : Binary_Kind) : gen unit :=
  match binary_op k with inl op => emit_op op | inr eop => emit_extended_byte eop end.

Definition emit_unary (k : Unary_Kind) : gen unit :=
  match k with
  | EXPR_NOT => emit_op OP_NOT
  | EXPR_NEGATE => emit_op OP_UNARY_MINUS
  | EXPR_COMPLEMENT => emit_extended_byte EOP_COMPLEMENT
  end.

(** The loop of an assignment, outwards from the assigned part; the answer is
    [is_indexed]. *)
Fixpoint store_lvalue (e : Expr) (is_indexed : bool) : gen bool :=
  match e with
  | EXPR_RANGE base _ _ => _ ← emit_extended_byte EOP_RANGESET; _ ← pop_stack 3; store_lvalue base true
  | EXPR_INDEX lhs _ => _ ← emit_op OP_INDEXSET; _ ← pop_stack 2; store_lvalue lhs true
  | EXPR_ID id => _ ← emit_put id; mret is_indexed
  | Expr_Binary EXPR_PROP _ _ => _ ← emit_op OP_PUT_PROP; _ ← pop_stack 2; mret is_indexed
  | _ => panic "Bad lvalue in GENERATE_EXPR()"
  end.

Definition is_part (e : Expr) : bool :=
  match e with EXPR_RANGE _ _ _ | EXPR_INDEX _ _ => true | _ => false end.

(** [nargs], [nreq] and [rest] of a scattering assignment. *)
Fixpoint scatter_counts (sc : Scatter) (nargs nreq : Z) (rest : option Z) : Z * Z * Z :=
  match sc with
  | Scat_Nil => (nargs, nreq, default (nargs + 1) rest)
  | Scat_Cons kind _ _ sc =>
      let nargs := nargs + 1 in
      scatter_counts sc nargs (if decide (kind = SCAT_REQUIRED) then nreq + 1 else nreq)
        (if decide (kind = SCAT_REST) then Some nargs else rest)
  end.

(** The operands of EOP_SCATTER; the labels of the defaults are kept, [sc->label]. *)
Fixpoint scatter_refs (sc : Scatter) : gen (list (option nat)) :=
  match sc with
  | Scat_Nil => mret []
  | Scat_Cons kind id expr sc =>
      _ ← add_var_ref id;
      label ← match kind, expr with
              | SCAT_OPTIONAL, No_Expr => _ ← add_pseudo_label 1; mret None
              | SCAT_OPTIONAL, Some_Expr _ => label ← add_label; mret (Some label)
              | _, _ => _ ← add_pseudo_label 0; mret None
              end;
      labels ← scatter_refs sc;
      mret (label :: labels)
  end.

Fixpoint generate_expr (e : Expr) : gen unit :=
  match e with
  | EXPR_VAR v =>
      match v with
      | Int n =>
          if IN_OPTIM_NUM_RANGE n then _ ← emit_op (OPTIM_NUM n); push_stack 1
          else _ ← emit_op OP_IMM; _ ← add_literal v; push_stack 1
      | _ => _ ← emit_op OP_IMM; _ ← add_literal v; push_stack 1
      end
  | EXPR_ID id => _ ← emit_push id; push_stack 1
  | EXPR_AND lhs rhs | EXPR_OR lhs rhs =>
      _ ← generate_expr lhs;
      _ ← emit_op (match e with EXPR_AND _ _ => OP_AND | _ => OP_OR end);
      end_label ← add_label;
      _ ← pop_stack 1;
      _ ← generate_expr rhs;
      define_label (Some end_label)
  | Expr_Unary k e => _ ← generate_expr e; emit_unary k
  | Expr_Binary k lhs rhs =>
      _ ← generate_expr lhs;
      _ ← generate_expr rhs;
      _ ← emit_binary k;
      pop_stack 1
  | EXPR_INDEX lhs rhs =>
      _ ← generate_expr lhs;
      old ← save_stack_top;
      _ ← generate_expr rhs;
      _ ← restore_stack_top old;
      _ ← emit_op OP_REF;
      pop_stack 1
  | EXPR_RANGE base from to =>
      _ ← generate_expr base;
      old ← save_stack_top;
      _ ← generate_expr from;
      _ ← generate_expr to;
      _ ← restore_stack_top old;
      _ ← emit_op OP_RANGE_REF;
      pop_stack 2
  | EXPR_LENGTH =>
      saved ← saved_stack_top;
      match saved with
      | Some saved => _ ← emit_extended_byte EOP_LENGTH; _ ← add_stack_ref saved; push_stack 1
      | None => panic "Missing saved stack for `$' in GENERATE_EXPR()"
      end
  | EXPR_LIST args => generate_arg_list args
  | EXPR_CALL func args =>
      _ ← generate_arg_list args;
      _ ← emit_op OP_BI_FUNC_CALL;
      emit_byte func
  | EXPR_VERB obj verb args =>
      _ ← generate_expr obj;
      _ ← generate_expr verb;
      _ ← generate_arg_list args;
      _ ← emit_op OP_CALL_VERB;
      pop_stack 2
  | EXPR_COND condition consequent alternate =>
      _ ← generate_expr condition;
      _ ← emit_op OP_IF_QUES;
      else_label ← add_label;
      _ ← pop_stack 1;
      _ ← generate_expr consequent;
      _ ← emit_op OP_JUMP;
      end_label ← add_label;
      _ ← pop_stack 1;
      _ ← define_label (Some else_label);
      _ ← generate_expr alternate;
      define_label (Some end_label)
  | EXPR_ASGN (EXPR_SCATTER sc) rhs =>
      _ ← generate_expr rhs;
      let '(nargs, nreq, rest) := scatter_counts sc 0 0 None in
      _ ← emit_extended_byte EOP_SCATTER;
      _ ← emit_byte nargs;
      _ ← emit_byte nreq;
      _ ← emit_byte rest;
      labels ← scatter_refs sc;
      done ← add_label;
      _ ← scatter_defaults sc labels;
      define_label (Some done)
  | EXPR_ASGN e rhs =>
      _ ← push_lvalue e false;
      _ ← generate_expr rhs;
      _ ← (if is_part e then emit_op OP_PUT_TEMP else skip);
      is_indexed ← store_lvalue e false;
      if (is_indexed : bool) then _ ← emit_op OP_POP; emit_op OP_PUSH_TEMP else skip
  | EXPR_SCATTER _ => panic "Can't happen in GENERATE_EXPR()"
  | EXPR_CATCH e codes except =>
      _ ← match codes with
          | Arg_Nil => _ ← emit_op (OPTIM_NUM 0); push_stack 1
          | _ => generate_arg_list codes
          end;
      _ ← emit_extended_byte EOP_PUSH_LABEL;
      handler_label ← add_label;
      _ ← push_stack 1;
      _ ← emit_extended_byte EOP_CATCH;
      _ ← push_stack 1;
      _ ← generate_expr e;
      _ ← emit_extended_byte EOP_END_CATCH;
      end_label ← add_label;
      _ ← pop_stack 3;
      _ ← define_label (Some handler_label);
      _ ← match except with
          | Some_Expr except => _ ← emit_op OP_POP; _ ← pop_stack 1; generate_expr except
          | No_Expr => _ ← emit_op (OPTIM_NUM 1); emit_op OP_REF
          end;
      define_label (Some end_label)
  end
with generate_arg_list (args : Arg_List) : gen unit :=
  match args with
  | Arg_Nil => _ ← emit_op OP_MAKE_EMPTY_LIST; push_stack 1
  | Arg_Cons kind e args =>
      _ ← generate_expr e;
      _ ← emit_op (match kind with ARG_NORMAL => OP_MAKE_SINGLETON_LIST | ARG_SPLICE => OP_CHECK_LIST_FOR_SPLICE end);
      _ ← pop_stack 0;
      generate_more_args args
  end
with generate_more_args (args : Arg_List) : gen unit :=
  match args with
  | Arg_Nil => skip
  | Arg_Cons kind e args =>
      _ ← generate_expr e;
      _ ← emit_op (match kind with ARG_NORMAL => OP_LIST_ADD_TAIL | ARG_SPLICE => OP_LIST_APPEND end);
      _ ← pop_stack 1;
      generate_more_args args
  end
with push_lvalue (e : Expr) (indexed_above : bool) : gen unit :=
  match e with
  | EXPR_RANGE base from to =>
      _ ← push_lvalue base true;
      old ← save_stack_top;
      _ ← generate_expr from;
      _ ← generate_expr to;
      restore_stack_top old
  | EXPR_INDEX lhs rhs =>
      _ ← push_lvalue lhs true;
      old ← save_stack_top;
      _ ← generate_expr rhs;
      _ ← restore_stack_top old;
      if indexed_above then _ ← emit_op OP_PUSH_REF; push_stack 1 else skip
  | EXPR_ID id => if indexed_above then _ ← emit_push id; push_stack 1 else skip
  | Expr_Binary EXPR_PROP lhs rhs =>
      _ ← generate_expr lhs;
      _ ← generate_expr rhs;
      if indexed_above then _ ← emit_op OP_PUSH_GET_PROP; push_stack 1 else skip
  | _ => panic "Bad lvalue in PUSH_LVALUE()"
  end
with scatter_defaults (sc : Scatter) (labels : list (option nat)) : gen unit :=
  match sc, labels with
  | Scat_Cons kind id expr sc, label :: labels =>
      _ ← match kind, expr with
          | SCAT_OPTIONAL, Some_Expr e =>
              _ ← define_label label;
              _ ← generate_expr e;
              _ ← emit_put id;
              _ ← emit_op OP_POP;
              pop_stack 1
          | _, _ => skip
          end;
      scatter_defaults sc labels
  | _, _ => skip
  end.

Definition generate_codes (codes : Arg_List) : gen unit :=
  match codes with
  | Arg_Nil => _ ← emit_op (OPTIM_NUM 0); push_stack 1
  | _ => generate_arg_list codes
  end.

(** ** The final vector *)

Definition ref_size (rmax : nat) : nat :=
  if decide (rmax <= 256)%nat then 1 else if decide (Z.of_nat rmax <= 256 * 256) then 2 else 4.

(** The bytes of a reference. *)
Definition put_value (size value : nat) : list Z :=
  let v := Z.of_nat value in
  match size with
  | 4%nat => [Z.shiftr v 24 mod 256; Z.shiftr v 16 mod 256; Z.shiftr v 8 mod 256; v mod 256]
  | 2%nat => [Z.shiftr v 8 mod 256; v mod 256]
  | _ => [v mod 256]
  end.

Definition fixup_size (bc : Bytecodes) (k : fixup_kind) : nat :=
  match k with
  | FIXUP_LITERAL => numbytes_literal bc
  | FIXUP_FORK => numbytes_fork bc
  | FIXUP_VAR_REF => numbytes_var_name bc
  | FIXUP_STACK => numbytes_stack bc
  | FIXUP_LABEL => numbytes_label bc
  end.

(** A label counts the bytes that references before it take. *)
Definition moved_label (bc : Bytecodes) (value : nat) (prev : counts) : nat :=
  (value + n_literals prev * (numbytes_literal bc - 1) + n_forks prev * (numbytes_fork bc - 1) +
   n_var_refs prev * (numbytes_var_name bc - 1) + n_labels prev * (numbytes_label bc - 1) +
   n_stacks prev * (numbytes_stack bc - 1))%nat.
Definition fixup_value (bc : Bytecodes) (f : Fixup) : nat :=
  match f_kind f with
  | FIXUP_LABEL => moved_label bc (f_value f) (f_prev f)
  | _ => f_value f
  end.

(** The loop that copies the bytes, from [old_i] on. *)
Fixpoint link (bc : Bytecodes) (fs : list Fixup) (old_i : nat) (bs : list Z) : list Z :=
  match bs with
  | [] => []
  | b :: bs =>
      match fs with
      | f :: fs' =>
          if decide (f_pc f = old_i) then put_value (fixup_size bc (f_kind f)) (fixup_value bc f) ++ link bc fs' (S old_i) bs
          else b :: link bc fs (S old_i) bs
      | [] => b :: link bc [] (S old_i) bs
      end
  end.

Definition label_size (size labels : nat) : nat :=
  if decide (size <= 256)%nat then 1 else if decide (Z.of_nat (size + labels) <= 256 * 256) then 2 else 4.

(** The sizes, and the size of the vector, which does not count [numbytes_stack]. *)
Definition layout (s : State) : Bytecodes :=
  let g := gstate s in
  let literal := ref_size (Nat.max (max_literal s) (length (literals g))) in
  let fork := ref_size (Nat.max (max_fork s) (length (fork_vectors g))) in
  let var_name := ref_size (Nat.max (max_var_ref s) (total_var_refs g)) in
  let c := nums s in
  let size := (length (bytes s) + (literal - 1) * n_literals c + (fork - 1) * n_forks c + (var_name - 1) * n_var_refs c)%nat in
  let label := label_size size (n_labels c) in
  let size := (size + (label - 1) * n_labels c)%nat in
  mkBytecodes label literal fork var_name (ref_size (max_stack s)) [] size (max_stack s).

Definition with_vector (v : list Z) (bc : Bytecodes) : Bytecodes :=
  mkBytecodes (numbytes_label bc) (numbytes_literal bc) (numbytes_fork bc) (numbytes_var_name bc) (numbytes_stack bc)
    v (bc_size bc) (bc_max_stack bc).

(** [stmt_to_code] after [generate_stmt]; writing past the vector is out of bounds. *)
Definition finish_code (s : State) : res (Bytecodes * GState) :=
  if negb (bool_decide (cur_stack s = 0%nat)) then Fail (Panic "Stack not entirely popped in STMT_TO_CODE()")
  else if bool_decide (is_Some (saved_stack s)) then Fail (Panic "Still a saved stack index in STMT_TO_CODE()")
  else
    let bc := layout s in
    let v := link bc (fixups s) 0 (bytes s) in
    if decide (bc_size bc < length v)%nat then Fail Segv else Ok (with_vector v bc, gstate s).

(** ** Statements *)

(** The loop to leave: its place from the innermost, and itself. *)
Fixpoint find_loop (id : Z) (ls : list Loop) : option (nat * Loop) :=
  match ls with
  | [] => None
  | lp :: ls => if loop_id lp =? id then Some (0%nat, lp) else (fun '(i, lp) => (S i, lp)) <$> find_loop id ls
  end.

Definition set_bottom_label (i : nat) (label : nat) : gen unit :=
  modify (fun s => with_loops (alter (fun lp =>
    mkLoop (loop_id lp) (top_label lp) (top_stack lp) (Some label) (bottom_stack lp)) i (loops s)) s).

Definition generate_exit (continue : bool) (exit : Z) : gen unit :=
  '(i, lp) ← (if exit =? -1 then
                _ ← emit_extended_byte EOP_EXIT;
                ls ← gets loops;
                match ls with
                | [] => panic "No loop to exit, in CODE_GEN!"
                | lp :: _ => mret (0%nat, lp)
                end
              else
                _ ← emit_extended_byte EOP_EXIT_ID;
                _ ← add_var_ref exit;
                ls ← gets loops;
                match find_loop exit ls with
                | None => panic "Can't find loop in CONTINUE_LOOP!"
                | Some r => mret r
                end);
  if continue then _ ← add_stack_ref (top_stack lp); add_known_label (top_label lp)
  else
    _ ← add_stack_ref (bottom_stack lp);
    label ← add_linked_label (bottom_label lp);
    set_bottom_label i label.

(** The head of a loop that leaves [n] values on the stack when it ends. *)
Definition begin_loop (id : Z) (loop_top : Fixup) (n : nat) : gen unit :=
  end_label ← add_label;
  cur ← gets cur_stack;
  enter_loop id loop_top cur (Some end_label) (cur - n).
Definition end_loop (loop_top : Fixup) : gen unit :=
  end_label ← exit_loop;
  _ ← emit_op OP_JUMP;
  _ ← add_known_label loop_top;
  define_label end_label.

Fixpoint generate_stmt (stmt : Stmt) : gen unit :=
  match stmt with
  | Stmt_Nil => skip
  | STMT_COND arms otherwise next =>
      end_label ← generate_arms OP_IF arms None;
      _ ← generate_stmt otherwise;
      _ ← define_label end_label;
      generate_stmt next
  | STMT_LIST id expr body next =>
      _ ← generate_expr expr;
      _ ← emit_op (OPTIM_NUM 1);
      _ ← push_stack 1;
      loop_top ← capture_label;
      _ ← emit_op OP_FOR_LIST;
      _ ← add_var_ref id;
      _ ← begin_loop id loop_top 2;
      _ ← generate_stmt body;
      _ ← end_loop loop_top;
      _ ← pop_stack 2;
      generate_stmt next
  | STMT_RANGE id from to body next =>
      _ ← generate_expr from;
      _ ← generate_expr to;
      loop_top ← capture_label;
      _ ← emit_op OP_FOR_RANGE;
      _ ← add_var_ref id;
      _ ← begin_loop id loop_top 2;
      _ ← generate_stmt body;
      _ ← end_loop loop_top;
      _ ← pop_stack 2;
      generate_stmt next
  | STMT_WHILE id condition body next =>
      loop_top ← capture_label;
      _ ← generate_expr condition;
      _ ← (if id =? -1 then emit_op OP_WHILE else _ ← emit_extended_byte EOP_WHILE_ID; add_var_ref id);
      end_label ← add_label;
      _ ← pop_stack 1;
      cur ← gets cur_stack;
      _ ← enter_loop id loop_top cur (Some end_label) cur;
      _ ← generate_stmt body;
      _ ← end_loop loop_top;
      generate_stmt next
  | STMT_FORK id time body next =>
      _ ← generate_expr time;
      _ ← emit_op (if 0 <=? id then OP_FORK_WITH_ID else OP_FORK);
      g ← gets gstate;
      '(bc, g) ← (fun s : State =>
        '(_, t) ← (_ ← generate_stmt body; emit_op OP_DONE) (init_state g);
        r ← finish_code t;
        Ok (r, s));
      _ ← modify (with_gstate g);
      _ ← add_fork bc;
      _ ← (if 0 <=? id then add_var_ref id else skip);
      _ ← pop_stack 1;
      generate_stmt next
  | STMT_EXPR expr next =>
      _ ← generate_expr expr;
      _ ← emit_op OP_POP;
      _ ← pop_stack 1;
      generate_stmt next
  | STMT_RETURN expr next =>
      _ ← match expr with
          | Some_Expr expr => _ ← generate_expr expr; _ ← emit_op OP_RETURN; pop_stack 1
          | No_Expr => emit_op OP_RETURN0
          end;
      generate_stmt next
  | STMT_TRY_EXCEPT body excepts next =>
      labels ← generate_handlers excepts;
      let arm_count := length labels in
      _ ← emit_extended_byte EOP_TRY_EXCEPT;
      _ ← emit_byte (Z.of_nat arm_count);
      _ ← push_stack 1;
      _ ← generate_stmt body;
      _ ← emit_extended_byte EOP_END_EXCEPT;
      end_label ← add_label;
      _ ← pop_stack (2 * arm_count + 1);
      end_label ← generate_excepts excepts labels (Some end_label);
      _ ← define_label end_label;
      generate_stmt next
  | STMT_TRY_FINALLY body handler next =>
      _ ← emit_extended_byte EOP_TRY_FINALLY;
      handler_label ← add_label;
      _ ← push_stack 1;
      _ ← generate_stmt body;
      _ ← emit_extended_byte EOP_END_FINALLY;
      _ ← pop_stack 1;
      _ ← define_label (Some handler_label);
      _ ← push_stack 2;
      _ ← generate_stmt handler;
      _ ← emit_extended_byte EOP_CONTINUE;
      _ ← pop_stack 2;
      generate_stmt next
  | STMT_BREAK exit next => _ ← generate_exit false exit; generate_stmt next
  | STMT_CONTINUE exit next => _ ← generate_exit true exit; generate_stmt next
  end
with generate_arms (if_op : Opcode) (arms : Cond_Arm) (end_label : option nat) : gen (option nat) :=
  match arms with
  | Arm_Nil => mret end_label
  | Arm_Cons condition stmt arms =>
      _ ← generate_expr condition;
      _ ← emit_op if_op;
      else_label ← add_label;
      _ ← pop_stack 1;
      _ ← generate_stmt stmt;
      _ ← emit_op OP_JUMP;
      end_label ← add_linked_label end_label;
      _ ← define_label (Some else_label);
      generate_arms OP_EIF arms (Some end_label)
  end
with generate_handlers (excepts : Except_Arm) : gen (list nat) :=
  match excepts with
  | Exc_Nil => mret []
  | Exc_Cons _ codes _ excepts =>
      _ ← generate_codes codes;
      _ ← emit_extended_byte EOP_PUSH_LABEL;
      label ← add_label;
      _ ← push_stack 1;
      labels ← generate_handlers excepts;
      mret (label :: labels)
  end
with generate_excepts (excepts : Except_Arm) (labels : list nat) (end_label : option nat) : gen (option nat) :=
  match excepts, labels with
  | Exc_Cons id _ stmt excepts, label :: labels =>
      _ ← define_label (Some label);
      _ ← push_stack 1;
      _ ← (if 0 <=? id then emit_put id else skip);
      _ ← emit_op OP_POP;
      _ ← pop_stack 1;
      _ ← generate_stmt stmt;
      match excepts with
      | Exc_Nil => mret end_label
      | _ =>
          _ ← emit_op OP_JUMP;
          end_label ← add_linked_label end_label;
          generate_excepts excepts labels (Some end_label)
      end
  | _, _ => mret end_label
  end.

Definition stmt_to_code (stmt : Stmt) (g : GState) : res (Bytecodes * GState) :=
  '(_, s) ← (_ ← generate_stmt stmt; emit_op OP_DONE) (init_state g);
  finish_code s.

(** [Program] of src/program.h, as far as the code generator and the interpreter use it. *)
Record Program := mkProgram {
  pr_version : Z; main_vector : Bytecodes; pr_literals : list Var; pr_fork_vectors : list Bytecodes;
  num_var_names : nat }.

(** The parser adds the names of variables. *)
Definition generate_code (stmt : Stmt) (version : Z) (num_var_names : nat) : res Program :=
  '(bc, g) ← stmt_to_code stmt init_gstate;
  Ok (mkProgram version bc (literals g) (fork_vectors g) num_var_names).
