(* ===== verification/CodeShape.v ===== *)
(** * What the code generator writes (src/code_gen.c)

    The state of the generator only grows: bytes and fixups are appended, and the only old
    thing that changes is the target of a label that is still open.  [ext] says so; the
    predicates [..._at] say what is at a place of the code, now and in every extension. *)

From S2P Require Import Prelude CStrings Values Ast CodeGen.

Open Scope nat_scope.

(** The place where the next byte goes. *)
Abbreviation here s := (length (bytes s)).

(** ** The invariant *)

Definition kind_count (k : fixup_kind) (fs : list Fixup) : nat := length (filter (fun f => f_kind f = k) fs).
(** The counters that the fixups amount to; references to the stack are not counted. *)
Definition counts_of (fs : list Fixup) : counts :=
  mkCounts (kind_count FIXUP_LITERAL fs) (kind_count FIXUP_FORK fs) (kind_count FIXUP_VAR_REF fs) (kind_count FIXUP_LABEL fs) 0.
(** The counters when the code was [p] bytes long. *)
Definition counts_at (s : State) (p : nat) : counts := counts_of (filter (fun f => f_pc f < p) (fixups s)).

(** References that their tables have room for. *)
Definition ref_ok (s : State) (f : Fixup) : Prop :=
  match f_kind f with
  | FIXUP_LITERAL => f_value f < length (literals (gstate s))
  | FIXUP_FORK => f_value f < length (fork_vectors (gstate s))
  | FIXUP_VAR_REF => f_value f <= max_var_ref s
  | FIXUP_STACK => f_value f <= max_stack s
  | FIXUP_LABEL => True
  end.

(** Literals of the parser, whose floating-point numbers have no sign: not the negative zero,
    which is equal to the positive one. *)
Definition literal_ok (v : Var) : Prop := good_value v = true /\
  match v with List _ | WaifV _ => False | Float (S754_zero neg) => neg = false | _ => True end.

Record Inv (s : State) : Prop := {
  inv_sorted i j f g : i < j -> fixups s !! i = Some f -> fixups s !! j = Some g -> f_pc f < f_pc g;
  inv_pc i f : fixups s !! i = Some f -> f_pc f < length (bytes s);
  inv_nums : nums s = counts_of (fixups s);
  inv_bytes : Forall (fun b => 0 <= b < 256)%Z (bytes s);
  inv_refs : Forall (ref_ok s) (fixups s);
  inv_lits : Forall literal_ok (literals (gstate s)) }.

(** ** Growing *)

Definition same_place (f g : Fixup) : Prop := f_pc f = f_pc g /\ f_kind f = f_kind g.

(** [F] has what [s] has, but for the targets of the labels in [O], and more behind it. *)
Record ext (O : nat -> Prop) (s F : State) : Prop := {
  ext_bytes : bytes s `prefix_of` bytes F;
  ext_fixup i f : fixups s !! i = Some f -> exists g, fixups F !! i = Some g /\ same_place f g /\
    (~ O i \/ f_kind f <> FIXUP_LABEL -> g = f);
  ext_new i g : fixups F !! i = Some g -> length (fixups s) <= i -> length (bytes s) <= f_pc g;
  ext_lits : literals (gstate s) `prefix_of` literals (gstate F);
  ext_forks : fork_vectors (gstate s) `prefix_of` fork_vectors (gstate F);
  ext_stack : max_stack s <= max_stack F;
  ext_vars : max_var_ref s <= max_var_ref F }.

Definition none (i : nat) : Prop := False.
(** The labels that are older than [s]. *)
Definition below (O : nat -> Prop) (s : State) : Prop := forall i, O i -> i < length (fixups s).

Lemma ext_refl s : ext none s s.
Proof. split; try done. - intros i f Hf. exists f. by split; [|split]. - intros i g Hg Hi. apply lookup_lt_Some in Hg. lia. Qed.

Lemma ext_length O s F : ext O s F -> length (fixups s) <= length (fixups F).
Proof.
  intros He. destruct (decide (length (fixups s) <= length (fixups F))); [done|].
  destruct (lookup_lt_is_Some_2 (fixups s) (length (fixups F)) ltac:(lia)) as [f Hf].
  destruct (ext_fixup O s F He _ f Hf) as (g & Hg & _). apply lookup_lt_Some in Hg. lia.
Qed.

Lemma ext_bytes_length O s F : ext O s F -> length (bytes s) <= length (bytes F).
Proof. intros He. apply prefix_length, He. Qed.

Lemma ext_trans O1 O2 O s t F : ext O1 s t -> ext O2 t F ->
  (forall i, i < length (fixups s) -> O1 i \/ O2 i -> O i) -> ext O s F.
Proof.
  intros H1 H2 Ho. split.
  - etransitivity; [apply H1|apply H2].
  - intros i f Hf. destruct (ext_fixup _ _ _ H1 i f Hf) as (g & Hg & [Hp1 Hk1] & He1).
    destruct (ext_fixup _ _ _ H2 i g Hg) as (h & Hh & [Hp2 Hk2] & He2). exists h. split; [done|].
    split; [split; congruence|]. intros Hn. pose proof (lookup_lt_Some _ _ _ Hf) as Hlt.
    assert (g = f) as -> by (apply He1; destruct Hn as [Hn|Hn]; [left; intros Hi; apply Hn, Ho; auto|by right]).
    apply He2. destruct Hn as [Hn|Hn]; [left; intros Hi; apply Hn, Ho; auto|by right].
  - intros i g Hg Hi. destruct (decide (i < length (fixups t))) as [Hlt|].
    + destruct (lookup_lt_is_Some_2 _ _ Hlt) as [f Hf]. pose proof (ext_new _ _ _ H1 i f Hf Hi).
      destruct (ext_fixup _ _ _ H2 i f Hf) as (h & Hh & [Hp2 _] & _). assert (h = g) as -> by congruence. lia.
    + pose proof (ext_new _ _ _ H2 i g Hg ltac:(lia)). pose proof (ext_bytes_length _ _ _ H1). lia.
  - etransitivity; [apply H1|apply H2].
  - etransitivity; [apply H1|apply H2].
  - etransitivity; [apply H1|apply H2].
  - etransitivity; [apply H1|apply H2].
Qed.

(** Labels that are opened later do not matter to what was there before. *)
Lemma ext_weaken O O' s F : ext O s F -> (forall i, i < length (fixups s) -> O i -> O' i) -> ext O' s F.
Proof. intros He Ho. eapply ext_trans; [apply ext_refl|exact He|]. intros i Hi [[]|H]. by apply Ho. Qed.

Lemma ext_none s t F O : ext none s t -> ext O t F -> ext O s F.
Proof. intros H1 H2. eapply ext_trans; [exact H1|exact H2|]. by intros i _ [[]|]. Qed.

(** *** Counters *)

Lemma kind_count_app k fs gs : kind_count k (fs ++ gs) = kind_count k fs + kind_count k gs.
Proof. unfold kind_count. by rewrite filter_app, length_app. Qed.

Lemma filter_all {A} (P : A -> Prop) `{!forall x, Decision (P x)} l : Forall P l -> filter P l = l.
Proof. induction 1 as [|x l Hx _ IH]; [done|]. rewrite filter_cons_True by done. by rewrite IH. Qed.

Lemma filter_none {A} (P : A -> Prop) `{!forall x, Decision (P x)} l : Forall (fun x => ~ P x) l -> filter P l = [].
Proof. induction 1 as [|x l Hx _ IH]; [done|]. by rewrite filter_cons_False. Qed.

Lemma inv_nums_at s : Inv s -> counts_at s (length (bytes s)) = nums s.
Proof.
  intros Hi. unfold counts_at. rewrite filter_all; [by rewrite (inv_nums s Hi)|].
  apply Forall_lookup. intros i f Hf. by apply (inv_pc s Hi i).
Qed.

(** Counters depend on places and kinds only. *)
Lemma counts_of_places fs gs : Forall2 same_place fs gs -> forall p,
  counts_of (filter (fun f => f_pc f < p) fs) = counts_of (filter (fun f => f_pc f < p) gs).
Proof.
  intros H p. assert (Hk : forall k, kind_count k (filter (fun f => f_pc f < p) fs) = kind_count k (filter (fun f => f_pc f < p) gs));
    [|unfold counts_of; by rewrite !Hk].
  intros k. unfold kind_count. induction H as [|f g fs gs [Hp Hkd] _ IH]; [done|]. rewrite !filter_cons, Hp.
  destruct (decide (f_pc g < p)); [|exact IH]. rewrite !filter_cons, Hkd. case_decide; cbn [length]; congruence.
Qed.

Lemma ext_counts O s F p : ext O s F -> p <= length (bytes s) -> counts_at F p = counts_at s p.
Proof.
  intros He Hp. unfold counts_at.
  rewrite <- (take_drop (length (fixups s)) (fixups F)), filter_app.
  rewrite (filter_none _ (drop _ _)).
  2: { apply Forall_lookup. intros i g Hg. rewrite lookup_drop in Hg.
       pose proof (ext_new _ _ _ He _ g Hg ltac:(lia)). lia. }
  rewrite app_nil_r. symmetry. apply counts_of_places. apply Forall2_same_length_lookup. split.
  - rewrite length_take. pose proof (ext_length _ _ _ He). lia.
  - intros i f g Hf Hg. rewrite lookup_take_Some in Hg. destruct Hg as [Hg _].
    destruct (ext_fixup _ _ _ He i f Hf) as (h & Hh & Hs & _). congruence.
Qed.

(** ** What is at a place *)

Definition byte_at (s : State) (p : nat) (b : Z) : Prop :=
  bytes s !! p = Some b /\ forall i f, fixups s !! i = Some f -> f_pc f <> p.
Definition op_at (s : State) (p : nat) (o : Opcode) : Prop := good_opcode o /\ byte_at s p (opcode_num o).
Definition eop_at (s : State) (p : nat) (o : Extended_Opcode) : Prop := op_at s p OP_EXTENDED /\ byte_at s (S p) (eopcode_num o).

(** The fixup number [i] is for the byte at [p]. *)
Definition slot_at (s : State) (i p : nat) (k : fixup_kind) : Prop :=
  p < length (bytes s) /\ exists f, fixups s !! i = Some f /\ f_pc f = p /\ f_kind f = k.

Definition ref_at (s : State) (p : nat) (k : fixup_kind) (value : nat) : Prop :=
  exists i f, fixups s !! i = Some f /\ f_pc f = p /\ f_kind f = k /\ f_value f = value.
Definition label_at (s : State) (p target : nat) : Prop :=
  exists i f, fixups s !! i = Some f /\ f_pc f = p /\ f_kind f = FIXUP_LABEL /\ f_value f = target /\
    f_prev f = counts_at s target /\ target <= length (bytes s).
Definition pseudo_at (s : State) (p value : nat) : Prop :=
  exists i f, fixups s !! i = Some f /\ f_pc f = p /\ f_kind f = FIXUP_LABEL /\ f_value f = value /\ f_prev f = no_counts.

Lemma byte_at_ext O s F p b : ext O s F -> byte_at s p b -> byte_at F p b.
Proof.
  intros He [Hb Hf]. split; [by eapply prefix_lookup_Some, He|]. intros i g Hg <-.
  destruct (decide (i < length (fixups s))) as [Hlt|].
  - destruct (lookup_lt_is_Some_2 _ _ Hlt) as [f Hf']. destruct (ext_fixup _ _ _ He i f Hf') as (h & Hh & [Hp _] & _).
    apply (Hf i f Hf'). congruence.
  - pose proof (ext_new _ _ _ He i g Hg ltac:(lia)). apply lookup_lt_Some in Hb. lia.
Qed.

Lemma op_at_ext O s F p o : ext O s F -> op_at s p o -> op_at F p o.
Proof. intros He [? ?]. split; [done|]. by eapply byte_at_ext. Qed.

Lemma eop_at_ext O s F p o : ext O s F -> eop_at s p o -> eop_at F p o.
Proof. intros He [? ?]. split; [by eapply op_at_ext|by eapply byte_at_ext]. Qed.

Lemma slot_at_ext O s F i p k : ext O s F -> slot_at s i p k -> slot_at F i p k.
Proof.
  intros He (Hp & f & Hf & <- & <-). destruct (ext_fixup _ _ _ He i f Hf) as (g & Hg & [Hs Hk] & _).
  split; [pose proof (ext_bytes_length _ _ _ He); lia|]. exists g. split; [done|]. by split.
Qed.

Lemma ref_at_ext O s F p k v : k <> FIXUP_LABEL -> ext O s F -> ref_at s p k v -> ref_at F p k v.
Proof.
  intros Hk He (i & f & Hf & <- & <- & <-). destruct (ext_fixup _ _ _ He i f Hf) as (g & Hg & _ & Heq).
  rewrite Heq in Hg by (by right). by exists i, f.
Qed.

Definition lit_at (s : State) (p : nat) (v : Var) : Prop :=
  exists i, ref_at s p FIXUP_LITERAL i /\ literals (gstate s) !! i = Some v.

Lemma lit_at_ext O s F p v : ext O s F -> lit_at s p v -> lit_at F p v.
Proof.
  intros He (i & Hr & Hv). exists i. split; [by eapply ref_at_ext|]. by eapply prefix_lookup_Some, He.
Qed.

(** A label that has been defined and is not open any more. *)
Lemma label_closed O t F i p f : Inv t -> ext O t F -> slot_at t i p FIXUP_LABEL -> ~ O i ->
  fixups t !! i = Some f -> f_value f <= length (bytes t) -> f_prev f = counts_at t (f_value f) -> label_at F p (f_value f).
Proof.
  intros Hi He (_ & f' & Hf' & Hp & Hk) Ho Hf Hv Hprev. assert (f' = f) as -> by congruence.
  destruct (ext_fixup _ _ _ He i f Hf) as (g & Hg & _ & Heq). rewrite Heq in Hg by (by left).
  exists i, f. split; [done|]. split; [done|]. split; [done|]. split; [done|].
  split; [by rewrite (ext_counts O t F)|]. pose proof (ext_bytes_length _ _ _ He). lia.
Qed.

Lemma pseudo_closed O t F i p f : ext O t F -> slot_at t i p FIXUP_LABEL -> ~ O i ->
  fixups t !! i = Some f -> f_prev f = no_counts -> pseudo_at F p (f_value f).
Proof.
  intros He (_ & f' & Hf' & Hp & Hk) Ho Hf Hprev. assert (f' = f) as -> by congruence.
  destruct (ext_fixup _ _ _ He i f Hf) as (g & Hg & _ & Heq). rewrite Heq in Hg by (by left).
  by exists i, f.
Qed.

(** ** Primitives *)

(** Growing by [n] bytes, and what is not touched. *)
Record grows (s s' : State) : Prop := {
  gr_inv : Inv s';
  gr_ext : ext none s s';
  gr_saved : saved_stack s' = saved_stack s;
  gr_loops : loops s' = loops s }.

Lemma grows_refl s : Inv s -> grows s s.
Proof. intros Hi. split; [done|apply ext_refl|done|done]. Qed.

Lemma grows_trans s t u : grows s t -> grows t u -> grows s u.
Proof.
  intros H1 H2. split; [apply H2| |by rewrite (gr_saved _ _ H2), (gr_saved _ _ H1)|
    by rewrite (gr_loops _ _ H2), (gr_loops _ _ H1)].
  eapply ext_none; [apply H1|apply H2].
Qed.

(** The state of the generator besides the code: [t] is [s] with other code. *)
Definition code_only (s s' : State) : Prop := cur_stack s' = cur_stack s /\ max_stack s' = max_stack s.

Lemma emit_byte_Ok b s : Inv s -> exists s', emit_byte b s = Ok (tt, s') /\ grows s s' /\ code_only s s' /\
  length (bytes s') = S (length (bytes s)) /\ fixups s' = fixups s /\ byte_at s' (length (bytes s)) (b mod 256).
Proof.
  intros Hi. eexists. split; [reflexivity|]. split; [|split; [done|split; [cbn; rewrite length_app; cbn; lia|split; [done|]]]].
  - split; [|split|done|done]; cbn.
    + destruct Hi as [H1 H2 H3 H4 H5 H6]. split; try done; cbn.
      * intros i f Hf. rewrite length_app. specialize (H2 i f Hf). lia.
      * apply Forall_app. split; [done|]. constructor; [|constructor]. apply Z.mod_pos_bound. lia.
    + by apply prefix_app_r.
    + intros i f Hf. exists f. by split; [|split].
    + intros i g Hg Hlt. apply lookup_lt_Some in Hg. lia.
    + done.
    + done.
    + done.
    + done.
  - split; cbn; [rewrite lookup_app_r, Nat.sub_diag by lia; done|]. intros i f Hf. pose proof (inv_pc s Hi i f Hf). lia.
Qed.

Lemma emit_op_Ok o s : good_opcode o -> Inv s -> exists s', emit_op o s = Ok (tt, s') /\ grows s s' /\
  code_only s s' /\ length (bytes s') = S (length (bytes s)) /\ fixups s' = fixups s /\ op_at s' (length (bytes s)) o.
Proof.
  intros Ho Hi. destruct (emit_byte_Ok (opcode_num o) s Hi) as (s' & H1 & H2 & H3 & H4 & H5 & H6).
  exists s'. rewrite Z.mod_small in H6 by (by apply opcode_of_num). do 5 (split; [done|]). by split.
Qed.

Lemma emit_extended_Ok o s : Inv s -> exists s', emit_extended_byte o s = Ok (tt, s') /\ grows s s' /\
  code_only s s' /\ length (bytes s') = S (S (length (bytes s))) /\ fixups s' = fixups s /\
  eop_at s' (length (bytes s)) o.
Proof.
  intros Hi. destruct (emit_op_Ok OP_EXTENDED s I Hi) as (s1 & H1 & G1 & C1 & L1 & F1 & O1).
  destruct (emit_byte_Ok (eopcode_num o) s1 (gr_inv _ _ G1)) as (s2 & H2 & G2 & C2 & L2 & F2 & B2).
  rewrite Z.mod_small in B2 by apply eopcode_of_num. exists s2. split.
  { unfold emit_extended_byte, mbind, gen_bind. rewrite H1. exact H2. }
  split; [by eapply grows_trans|]. destruct C1, C2. split; [split; congruence|]. do 2 (split; [congruence|]). split; [eapply op_at_ext; [apply G2|done]|by rewrite <- L1].
Qed.

(** *** References *)

Definition bump (k : fixup_kind) (c : counts) : counts :=
  match k with
  | FIXUP_LITERAL => mkCounts (S (n_literals c)) (n_forks c) (n_var_refs c) (n_labels c) (n_stacks c)
  | FIXUP_FORK => mkCounts (n_literals c) (S (n_forks c)) (n_var_refs c) (n_labels c) (n_stacks c)
  | FIXUP_VAR_REF => mkCounts (n_literals c) (n_forks c) (S (n_var_refs c)) (n_labels c) (n_stacks c)
  | FIXUP_LABEL => mkCounts (n_literals c) (n_forks c) (n_var_refs c) (S (n_labels c)) (n_stacks c)
  | FIXUP_STACK => c
  end.

Lemma kind_count_one k f : kind_count k [f] = if decide (f_kind f = k) then 1 else 0.
Proof. unfold kind_count. rewrite filter_cons, filter_nil. by case_decide. Qed.

Lemma counts_of_snoc fs f : counts_of (fs ++ [f]) = bump (f_kind f) (counts_of fs).
Proof.
  unfold counts_of. rewrite !kind_count_app, !kind_count_one.
  destruct (f_kind f); cbn [bump n_literals n_forks n_var_refs n_labels n_stacks];
    repeat case_decide; try done; f_equal; lia.
Qed.

Lemma ref_ok_mono s t f : ref_ok s f -> literals (gstate s) `prefix_of` literals (gstate t) ->
  fork_vectors (gstate s) `prefix_of` fork_vectors (gstate t) -> max_stack s <= max_stack t -> max_var_ref s <= max_var_ref t ->
  ref_ok t f.
Proof.
  intros Hr Hl Hf Hs Hv. apply prefix_length in Hl, Hf. unfold ref_ok in *. destruct (f_kind f); lia.
Qed.

(** Appending a fixup with its placeholder. *)
Lemma grows_fixup s t f : Inv s -> fixups t = fixups s ++ [f] -> bytes t = bytes s ++ [0%Z] -> f_pc f = length (bytes s) ->
  nums t = bump (f_kind f) (nums s) -> literals (gstate s) `prefix_of` literals (gstate t) ->
  fork_vectors (gstate s) `prefix_of` fork_vectors (gstate t) -> max_stack t = max_stack s -> max_var_ref s <= max_var_ref t ->
  saved_stack t = saved_stack s -> loops t = loops s -> ref_ok t f -> Forall literal_ok (literals (gstate t)) ->
  grows s t /\ length (bytes t) = S (length (bytes s)) /\ slot_at t (length (fixups s)) (length (bytes s)) (f_kind f).
Proof.
  intros Hi Hf Hb Hpc Hn Hl Hfk Hm Hv Hsv Hlp Hr Hlits. pose proof Hi as [H1 H2 H3 H4 H5 H6].
  assert (Hlook : forall i g, fixups t !! i = Some g -> fixups s !! i = Some g \/ i = length (fixups s) /\ g = f).
  { intros i g Hg. rewrite Hf in Hg. apply lookup_app_Some in Hg as [Hg|[Hge Hg]]; [by left|right].
    apply list_lookup_singleton_Some in Hg as [Hg ->]. split; [lia|done]. }
  assert (Hlen : length (bytes t) = S (length (bytes s))) by (rewrite Hb, length_app; cbn; lia).
  split; [split; [split|split|done|done]|split; [done|]].
  - intros i j g h Hij [Hg|[-> ->]]%Hlook [Hh|[-> ->]]%Hlook; [by apply (H1 i j)| | |lia].
    + pose proof (H2 i g Hg). lia.
    + apply lookup_lt_Some in Hh. lia.
  - intros i g [Hg|[-> ->]]%Hlook; [pose proof (H2 i g Hg)|]; lia.
  - by rewrite Hn, Hf, counts_of_snoc, H3.
  - rewrite Hb. apply Forall_app. split; [done|]. by repeat constructor.
  - rewrite Hf. apply Forall_app. split; [|by constructor]. eapply Forall_impl; [exact H5|]. intros g Hg.
    eapply ref_ok_mono; [exact Hg|done|done|lia|done].
  - done.
  - rewrite Hb. by apply prefix_app_r.
  - intros i g Hg. exists g. rewrite Hf. split; [by apply lookup_app_l_Some|]. by split; [split|].
  - intros i g [Hg|[-> ->]]%Hlook Hge; [apply lookup_lt_Some in Hg; lia|lia].
  - done.
  - done.
  - lia.
  - done.
  - split; [lia|]. exists f. split; [|done]. rewrite Hf, lookup_app_r, Nat.sub_diag by lia. done.
Qed.

Lemma slot_ref s i p k f : slot_at s i p k -> fixups s !! i = Some f -> ref_at s p k (f_value f).
Proof. intros (_ & g & Hg & <- & <-) Hf. assert (g = f) as -> by congruence. by exists i, f. Qed.

Lemma equal_literals v w : literal_ok v -> literal_ok w -> type_of v = type_of w -> exists b,
  equality v w true = Ok b /\ (b = true -> v = w).
Proof.
  intros [Hv Kv] [Hw Kw] Ht. destruct (equality_spec v w true Hv Hw) as (b & Hb & Hiff). exists b. split; [done|].
  intros Heq. apply Hiff in Heq. destruct Heq as [n|n|e|w|x y Hxy|x y Hxy|l k Hlk]; try done; [|by f_equal].
  f_equal. unfold SFeqb in Hxy. destruct x as [s|s| |s m e], y as [s'|s'| |s' m' e']; cbn in *; try done;
    repeat case_match; simplify_eq; try done.
  - destruct (Z.compare_spec e e') as [->| |]; try done. destruct (Pos.compare_cont Eq m m') eqn:E; try done.
    apply Pos.compare_eq in E. by subst.
  - destruct (Z.compare_spec e e') as [->| |]; try done. apply Pos.compare_eq in H. by subst.
Qed.

Lemma find_literal_Ok v lits : literal_ok v -> Forall literal_ok lits -> exists i, find_literal v lits = Ok i /\
  i <= length lits /\ (i < length lits -> lits !! i = Some v).
Proof.
  intros Hv. induction 1 as [|w lits Hw _ (i & Hi & Hle & Hl)]; [exists 0; split; [done|split; [done|cbn; lia]]|].
  cbn [find_literal]. destruct (decide (type_of v = type_of w)) as [Ht|].
  - destruct (equal_literals v w Hv Hw Ht) as (b & -> & Hb). cbn [mbind res_bind]. destruct b.
    + exists 0. split; [done|]. split; [lia|]. intros _. by rewrite Hb.
    + rewrite Hi. exists (S i). split; [done|]. split; [cbn; lia|]. intros. apply Hl. cbn in *. lia.
  - cbn [mbind res_bind]. rewrite Hi. exists (S i). split; [done|]. split; [cbn; lia|]. intros. apply Hl. cbn in *. lia.
Qed.

(** Code appended with one reference: the answer of the primitives below. *)
Lemma add_literal_Ok v s : literal_ok v -> Inv s -> exists s', add_literal v s = Ok (tt, s') /\ grows s s' /\
  code_only s s' /\ length (bytes s') = S (length (bytes s)) /\ lit_at s' (length (bytes s)) v.
Proof.
  intros Hv Hi. destruct (find_literal_Ok v (literals (gstate s)) Hv (inv_lits s Hi)) as (i & Hf & Hle & Hlt).
  unfold add_literal. rewrite Hf. cbn [mbind res_bind]. eexists. split; [reflexivity|].
  match goal with |- grows s ?x /\ _ => set (t := x) end.
  set (lits := if decide (i = length (literals (gstate s))) then literals (gstate s) ++ [v] else literals (gstate s)).
  assert (Hlits : literals (gstate t) = lits) by done.
  assert (Hv' : lits !! i = Some v /\ i < length lits).
  { unfold lits. case_decide as Hd; [|split; [apply Hlt|]; lia]. subst i. rewrite lookup_app_r, Nat.sub_diag, length_app by lia.
    split; [done|cbn; lia]. }
  destruct (grows_fixup s t (mkFixup FIXUP_LITERAL (length (bytes s)) i (nums s) None)) as (G & L & S); try done.
  - rewrite Hlits. unfold lits. case_decide; [by apply prefix_app_r|done].
  - unfold ref_ok. cbn [f_kind f_value]. rewrite Hlits. apply Hv'.
  - rewrite Hlits. unfold lits. pose proof (inv_lits s Hi). case_decide; [|done]. apply Forall_app. split; [done|by constructor].
  - do 2 (split; [done|]). split; [done|]. exists i. split; [|rewrite Hlits; apply Hv'].
    apply (slot_ref t (length (fixups s)) _ _ (mkFixup FIXUP_LITERAL (length (bytes s)) i (nums s) None)); [exact S|].
    cbn. rewrite lookup_app_r, Nat.sub_diag by lia. done.
Qed.

Definition slot_ok (id : Z) : Prop := (0 <= id < 2 ^ 32)%Z.

Lemma slot_u32 id : slot_ok id -> u32 id = id.
Proof. intros H. unfold u32. by apply Z.mod_small. Qed.

Lemma add_var_ref_Ok id s : Inv s -> exists s', add_var_ref id s = Ok (tt, s') /\ grows s s' /\
  code_only s s' /\ length (bytes s') = S (length (bytes s)) /\
  ref_at s' (length (bytes s)) FIXUP_VAR_REF (Z.to_nat (u32 id)).
Proof.
  intros Hi. eexists. split; [reflexivity|]. match goal with |- grows s ?x /\ _ => set (t := x) end.
  destruct (grows_fixup s t (mkFixup FIXUP_VAR_REF (length (bytes s)) (Z.to_nat (u32 id)) (nums s) None)) as (G & L & S); try done.
  - cbn. lia.
  - cbn. unfold ref_ok. cbn. lia.
  - apply Hi.
  - do 2 (split; [done|]). split; [done|].
    apply (slot_ref t (length (fixups s)) _ _ (mkFixup FIXUP_VAR_REF (length (bytes s)) (Z.to_nat (u32 id)) (nums s) None)); [exact S|].
    cbn. rewrite lookup_app_r, Nat.sub_diag by lia. done.
Qed.

Lemma add_stack_ref_Ok n s : Inv s -> n <= max_stack s -> exists s', add_stack_ref n s = Ok (tt, s') /\ grows s s' /\
  code_only s s' /\ length (bytes s') = S (length (bytes s)) /\ ref_at s' (length (bytes s)) FIXUP_STACK n.
Proof.
  intros Hi Hn. eexists. split; [reflexivity|]. match goal with |- grows s ?x /\ _ => set (t := x) end.
  destruct (grows_fixup s t (mkFixup FIXUP_STACK (length (bytes s)) n (nums s) None)) as (G & L & S); try done.
  - apply Hi.
  - do 2 (split; [done|]). split; [done|].
    apply (slot_ref t (length (fixups s)) _ _ (mkFixup FIXUP_STACK (length (bytes s)) n (nums s) None)); [exact S|].
    cbn. rewrite lookup_app_r, Nat.sub_diag by lia. done.
Qed.

Lemma add_fork_Ok bc s : Inv s -> exists s', add_fork bc s = Ok (tt, s') /\ grows s s' /\
  code_only s s' /\ length (bytes s') = S (length (bytes s)) /\
  ref_at s' (length (bytes s)) FIXUP_FORK (length (fork_vectors (gstate s))) /\
  fork_vectors (gstate s') !! length (fork_vectors (gstate s)) = Some bc.
Proof.
  intros Hi. eexists. split; [reflexivity|]. match goal with |- grows s ?x /\ _ => set (t := x) end.
  set (f := mkFixup FIXUP_FORK (length (bytes s)) (length (fork_vectors (gstate s))) (nums s) None).
  destruct (grows_fixup s t f) as (G & L & S); try done.
  - cbn. by apply prefix_app_r.
  - unfold ref_ok. cbn. rewrite length_app. cbn. lia.
  - apply Hi.
  - do 3 (split; [done|]). split; [|cbn; by rewrite lookup_app_r, Nat.sub_diag by lia].
    apply (slot_ref t (length (fixups s)) _ _ f); [exact S|]. cbn. rewrite lookup_app_r, Nat.sub_diag by lia. done.
Qed.

Lemma add_linked_label_Ok nxt s : Inv s -> exists s', add_linked_label nxt s = Ok (length (fixups s), s') /\ grows s s' /\
  code_only s s' /\ length (bytes s') = S (length (bytes s)) /\
  fixups s' = fixups s ++ [mkFixup FIXUP_LABEL (length (bytes s)) 0 (nums s) nxt] /\
  slot_at s' (length (fixups s)) (length (bytes s)) FIXUP_LABEL.
Proof.
  intros Hi. eexists. split; [reflexivity|]. match goal with |- grows s ?x /\ _ => set (t := x) end.
  destruct (grows_fixup s t (mkFixup FIXUP_LABEL (length (bytes s)) 0 (nums s) nxt)) as (G & L & S); try done.
  apply Hi.
Qed.

Lemma add_pseudo_label_Ok v s : Inv s -> exists s', add_pseudo_label v s = Ok (tt, s') /\ grows s s' /\
  code_only s s' /\ length (bytes s') = S (length (bytes s)) /\
  fixups s' = fixups s ++ [mkFixup FIXUP_LABEL (length (bytes s)) v no_counts None] /\
  slot_at s' (length (fixups s)) (length (bytes s)) FIXUP_LABEL.
Proof.
  intros Hi. eexists. split; [reflexivity|]. match goal with |- grows s ?x /\ _ => set (t := x) end.
  destruct (grows_fixup s t (mkFixup FIXUP_LABEL (length (bytes s)) v no_counts None)) as (G & L & S); try done.
  apply Hi.
Qed.

(** The place of a loop, which is known, as a label. *)
Definition known_label (s : State) (f : Fixup) : Prop :=
  f_kind f = FIXUP_LABEL /\ f_value f <= length (bytes s) /\ f_prev f = counts_at s (f_value f).

Lemma add_known_label_Ok f s : Inv s -> f_kind f = FIXUP_LABEL -> exists s', add_known_label f s = Ok (tt, s') /\ grows s s' /\
  code_only s s' /\ length (bytes s') = S (length (bytes s)) /\
  fixups s' = fixups s ++ [mkFixup FIXUP_LABEL (length (bytes s)) (f_value f) (f_prev f) (f_next f)] /\
  slot_at s' (length (fixups s)) (length (bytes s)) FIXUP_LABEL.
Proof.
  destruct f as [k0 pc v prev nxt]. cbn [f_kind f_value f_prev f_next]. intros Hi ->. eexists. split; [reflexivity|].
  match goal with |- grows s ?x /\ _ => set (t := x) end.
  destruct (grows_fixup s t (mkFixup FIXUP_LABEL (length (bytes s)) v prev nxt)) as (G & L & S); try done.
  apply Hi.
Qed.

(** *** The stack *)

Lemma push_stack_Ok n s : Inv s -> exists s', push_stack n s = Ok (tt, s') /\ grows s s' /\
  cur_stack s' = cur_stack s + n /\ max_stack s' = Nat.max (max_stack s) (cur_stack s + n) /\ bytes s' = bytes s /\ fixups s' = fixups s.
Proof.
  intros Hi. eexists. split; [reflexivity|]. split; [|cbn; split; [done|split; [lia|done]]].
  destruct Hi as [H1 H2 H3 H4 H5 H6]. split; [split|split|done|done]; try done; cbn.
  - eapply Forall_impl; [exact H5|]. intros f Hf. eapply ref_ok_mono; [exact Hf|done|done|cbn; lia|done].
  - intros i f Hf. exists f. by split; [|split].
  - intros i g Hg Hlt. apply lookup_lt_Some in Hg. lia.
  - lia.
Qed.

Lemma pop_stack_Ok n s : Inv s -> n <= cur_stack s -> exists s', pop_stack n s = Ok (tt, s') /\ grows s s' /\
  cur_stack s' = cur_stack s - n /\ max_stack s' = max_stack s /\ bytes s' = bytes s /\ fixups s' = fixups s.
Proof.
  intros Hi Hn. unfold pop_stack. rewrite decide_False by lia. eexists. split; [reflexivity|]. split; [|done].
  destruct Hi as [H1 H2 H3 H4 H5 H6]. split; [split|split|done|done]; try done; cbn.
  - intros i f Hf. exists f. by split; [|split].
  - intros i g Hg Hlt. apply lookup_lt_Some in Hg. lia.
Qed.

Lemma Inv_saved o s : Inv s -> Inv (with_saved o s).
Proof. intros [H1 H2 H3 H4 H5 H6]. by split. Qed.

(** Code generated while another stack position is saved. *)
Lemma grows_saved o s t : grows (with_saved o s) t -> grows s (with_saved (saved_stack s) t).
Proof. intros [Hi [H1 H2 H3 H4 H5 H6 H7] H8 H9]. split; [by apply Inv_saved|by split|done|done]. Qed.

Lemma ext_saved O o t F : ext O (with_saved o t) F <-> ext O t F.
Proof. by split; intros [H1 H2 H3 H4 H5 H6 H7]. Qed.

(** *** Defining labels *)

(** The labels of a chain, from the newest. *)
Fixpoint chain (fs : list Fixup) (ls : list nat) (label : option nat) : Prop :=
  match ls with
  | [] => label = None
  | i :: ls => label = Some i /\ exists f, fs !! i = Some f /\ f_kind f = FIXUP_LABEL /\ chain fs ls (f_next f)
  end.

(** What [define_label] does to the labels of a chain. *)
Record defines (ls : list nat) (s t : State) : Prop := {
  df_inv : Inv t;
  df_ext : ext (fun i => i ∈ ls) s t;
  df_same : bytes t = bytes s /\ nums t = nums s /\ gstate t = gstate s /\ cur_stack t = cur_stack s /\
    max_stack t = max_stack s /\ saved_stack t = saved_stack s /\ loops t = loops s /\ max_var_ref t = max_var_ref s;
  df_label i : i ∈ ls -> exists f, fixups t !! i = Some f /\ f_kind f = FIXUP_LABEL /\ f_value f = length (bytes s) /\
    f_prev f = nums s }.

Lemma retarget_Ok s i f v c nxt : Inv s -> fixups s !! i = Some f -> f_kind f = FIXUP_LABEL ->
  let t := with_fixups (<[i := mkFixup (f_kind f) (f_pc f) v c nxt]> (fixups s)) s in
  Inv t /\ ext (fun j => j = i) s t.
Proof.
  intros [H1 H2 H3 H4 H5 H6] Hf Hk. set (f' := mkFixup _ _ _ _ _). cbn zeta.
  assert (Hl : forall j g, <[i := f']> (fixups s) !! j = Some g -> exists g0, fixups s !! j = Some g0 /\ same_place g0 g /\ (j <> i -> g = g0)).
  { intros j g. destruct (decide (j = i)) as [->|Hne].
    - rewrite list_lookup_insert_eq by (by eapply lookup_lt_Some). intros [= <-]. exists f. by split; [|split].
    - rewrite list_lookup_insert_ne by done. intros Hg. exists g. by split; [|split]. }
  split; [split|split]; cbn; try done.
  - intros j k g h Hjk (g0 & Hg0 & [<- _] & _)%Hl (h0 & Hh0 & [<- _] & _)%Hl. by apply (H1 j k).
  - intros j g (g0 & Hg0 & [<- _] & _)%Hl. by apply (H2 j).
  - rewrite H3. assert (Hc : forall k, kind_count k (<[i := f']> (fixups s)) = kind_count k (fixups s)); [|unfold counts_of; by rewrite !Hc].
    intros k. rewrite <- (take_drop_middle (fixups s) i f Hf) at 2. rewrite insert_take_drop by (by eapply lookup_lt_Some).
    rewrite !kind_count_app. f_equal. change (f' :: ?l) with ([f'] ++ l). change (f :: ?l) with ([f] ++ l).
    rewrite !kind_count_app, !kind_count_one. done.
  - apply Forall_lookup. intros j g Hg. destruct (Hl j g Hg) as (g0 & Hg0 & [_ Hk0] & Hne).
    destruct (decide (j = i)) as [->|Hji].
    + unfold ref_ok. assert (g0 = f) as -> by congruence. rewrite <- Hk0, Hk. done.
    + rewrite (Hne Hji). rewrite Forall_lookup in H5. by apply (H5 j).
  - intros j g Hg. destruct (decide (j = i)) as [->|Hne].
    + rewrite list_lookup_insert_eq by (by eapply lookup_lt_Some). assert (g = f) as -> by congruence. exists f'.
      split; [done|]. split; [done|]. intros [Hn|Hn]; [by destruct Hn|by destruct Hn].
    + rewrite list_lookup_insert_ne by done. exists g. by split; [|split].
  - intros j g Hg Hlt. apply lookup_lt_Some in Hg. rewrite length_insert in Hg. lia.
Qed.

Lemma chain_insert fs i f ls label : i ∉ ls -> chain fs ls label -> chain (<[i := f]> fs) ls label.
Proof.
  revert label. induction ls as [|j ls IH]; intros label Hi; [done|]. apply not_elem_of_cons in Hi as [Hne Hi].
  cbn [chain]. intros [-> (g & Hg & Hk & Hc)]. split; [done|]. exists g. rewrite list_lookup_insert_ne by done.
  split; [done|]. split; [done|]. by apply IH.
Qed.

Lemma define_labels_Ok ls : forall fuel label s, length ls < fuel -> NoDup ls -> Inv s -> chain (fixups s) ls label ->
  exists t, define_labels fuel label s = Ok t /\ defines ls s t.
Proof.
  induction ls as [|i ls IH]; intros fuel label s Hfuel Hnd Hi Hc; cbn [chain] in Hc.
  - subst label. exists s. split; [by destruct fuel|]. split; [done| |done|by intros i ?%elem_of_nil].
    eapply ext_weaken; [apply ext_refl|]. by intros i _ [].
  - destruct Hc as [-> (f & Hf & Hk & Hc)]. destruct fuel as [|fuel]; [cbn in Hfuel; lia|]. apply NoDup_cons in Hnd as [Hni Hnd].
    cbn [define_labels]. rewrite Hf. cbn [deref mbind res_bind].
    destruct (retarget_Ok s i f (length (bytes s)) (nums s) (f_next f) Hi Hf Hk) as [Hi1 He1].
    match type of Hi1 with Inv ?x => set (s1 := x) in * end.
    destruct (IH fuel (f_next f) s1) as (t & -> & [D1 D2 D3 D4]); [cbn in Hfuel; lia|done|done| |].
    { by apply chain_insert. }
    exists t. split; [done|]. split; [done| |done|].
    + eapply ext_trans; [exact He1|exact D2|]. intros j _ [->|Hj]; [apply list_elem_of_here|by apply list_elem_of_further].
    + intros j [->|Hj]%elem_of_cons; [|by apply D4].
      assert (Hlook : fixups s1 !! i = Some (mkFixup (f_kind f) (f_pc f) (length (bytes s)) (nums s) (f_next f))).
      { cbn. apply list_lookup_insert_eq. by eapply lookup_lt_Some. }
      destruct (ext_fixup _ _ _ D2 i _ Hlook) as (g & Hg & _ & Heq). rewrite Heq in Hg by (by left).
      eexists. split; [exact Hg|]. by split.
Qed.

Lemma define_label_Ok ls label s : NoDup ls -> Inv s -> chain (fixups s) ls label ->
  exists t, define_label label s = Ok (tt, t) /\ defines ls s t.
Proof.
  intros Hnd Hi Hc. assert (Hlen : length ls <= length (fixups s)).
  { rewrite <- (length_seq (length (fixups s)) 0). apply submseteq_length, NoDup_submseteq; [done|].
    intros i Hin. apply elem_of_seq. split; [lia|]. clear -Hc Hin. revert label Hc.
    induction ls as [|j ls IH]; intros label Hc; [by apply elem_of_nil in Hin|]. destruct Hc as [-> (f & Hf & _ & Hc)].
    apply elem_of_cons in Hin as [->|Hin]; [by apply lookup_lt_Some in Hf|]. by apply (IH Hin (f_next f)). }
  destruct (define_labels_Ok ls (S (length (fixups s))) label s ltac:(lia) Hnd Hi Hc) as (t & Ht & Hd).
  exists t. split; [|done]. unfold define_label. by rewrite Ht.
Qed.

Lemma defines_label_at O s t F ls i p : Inv s -> defines ls s t -> i ∈ ls -> slot_at s i p FIXUP_LABEL -> ext O t F -> ~ O i ->
  label_at F p (length (bytes s)).
Proof.
  intros Hi [D1 D2 (Db & Dn & _) D4] Hin Hs He Ho. destruct (D4 i Hin) as (f & Hf & Hk & Hv & Hp). rewrite <- Hv.
  apply (label_closed O t F i p f D1 He); [by eapply slot_at_ext|done|done|rewrite Hv, Db; lia|].
  rewrite Hp, Hv, <- Dn, <- Db. symmetry. by apply inv_nums_at.
Qed.
