(* ===== verification/CodeExpr.v ===== *)
(** * The code of expressions (src/code_gen.c)

    [compiled F e p q saved k]: the code from [p] to [q] is that of [e], where [k] values are
    on the stack before and [saved] is the place on it of the value that [$] measures.  The
    generator does not panic on what the parser accepts, and what it writes is so compiled. *)

From S2P Require Import Prelude CStrings Values Ast CodeGen CodeShape.

Open Scope nat_scope.

(** ** What the parser accepts *)

Fixpoint is_base (e : Expr) : bool :=
  match e with
  | EXPR_INDEX lhs _ => is_base lhs
  | EXPR_ID _ | Expr_Binary EXPR_PROP _ _ => true
  | _ => false
  end.
Definition is_lvalue (e : Expr) : bool := match e with EXPR_RANGE base _ _ => is_base base | _ => is_base e end.

Fixpoint scat_length (sc : Scatter) : nat := match sc with Scat_Nil => 0 | Scat_Cons _ _ _ sc => S (scat_length sc) end.

(** The values that [push_lvalue] leaves. *)
Fixpoint lvalue_size (e : Expr) (above : bool) : nat :=
  match e with
  | EXPR_RANGE base _ _ => lvalue_size base true + 2
  | EXPR_INDEX lhs _ => lvalue_size lhs true + 1 + (if above then 1 else 0)
  | EXPR_ID _ => if above then 1 else 0
  | _ => 2 + (if above then 1 else 0)
  end.

(** A vector with a deeper stack does not fit in the memory that is allocated for it (see
    [CodeLimits.deep_stack_overflows]). *)
Definition STACK_LIMIT : nat := 255.

(** [dollar]: may [$] stand here?  [k]: the values on the stack before.  255 targets of a
    scattering assignment are too many, even though the parser allows them. *)
Fixpoint expr_ok (dollar : bool) (k : nat) (e : Expr) : Prop :=
  match e with
  | EXPR_VAR v => literal_ok v /\ k < STACK_LIMIT
  | EXPR_ID id => slot_ok id /\ k < STACK_LIMIT
  | EXPR_AND lhs rhs | EXPR_OR lhs rhs => expr_ok dollar k lhs /\ expr_ok dollar k rhs
  | Expr_Binary _ lhs rhs => expr_ok dollar k lhs /\ expr_ok dollar (S k) rhs
  | Expr_Unary _ e => expr_ok dollar k e
  | EXPR_INDEX lhs rhs => expr_ok dollar k lhs /\ expr_ok true (S k) rhs
  | EXPR_RANGE base from to => expr_ok dollar k base /\ expr_ok true (S k) from /\ expr_ok true (S (S k)) to
  | EXPR_LENGTH => dollar = true /\ k < STACK_LIMIT
  | EXPR_LIST args => args_ok dollar k args
  | EXPR_CALL func args => (0 <= func < 256)%Z /\ args_ok dollar k args
  | EXPR_VERB obj verb args => expr_ok dollar k obj /\ expr_ok dollar (S k) verb /\ args_ok dollar (S (S k)) args
  | EXPR_COND c a b => expr_ok dollar k c /\ expr_ok dollar k a /\ expr_ok dollar k b
  | EXPR_ASGN (EXPR_SCATTER sc) rhs => expr_ok dollar k rhs /\ scat_ok dollar (S k) sc /\ scat_length sc < 255
  | EXPR_ASGN lhs rhs => is_lvalue lhs = true /\ lvalue_ok dollar k false lhs /\ expr_ok dollar (k + lvalue_size lhs false) rhs
  | EXPR_SCATTER _ => False
  | EXPR_CATCH e codes except =>
      codes_ok dollar k codes /\ expr_ok dollar (k + 3) e /\ k + 3 <= STACK_LIMIT /\
      match except with Some_Expr e => expr_ok dollar k e | No_Expr => True end
  end
with args_ok (dollar : bool) (k : nat) (args : Arg_List) : Prop :=
  match args with Arg_Nil => k < STACK_LIMIT | Arg_Cons _ e args => expr_ok dollar k e /\ more_ok dollar k args end
with more_ok (dollar : bool) (k : nat) (args : Arg_List) : Prop :=
  match args with Arg_Nil => True | Arg_Cons _ e args => expr_ok dollar (S k) e /\ more_ok dollar k args end
with codes_ok (dollar : bool) (k : nat) (codes : Arg_List) : Prop :=
  match codes with Arg_Nil => k < STACK_LIMIT | Arg_Cons _ e args => expr_ok dollar k e /\ more_ok dollar k args end
with lvalue_ok (dollar : bool) (k : nat) (above : bool) (e : Expr) : Prop :=
  match e with
  | EXPR_RANGE base from to => let n := k + lvalue_size base true in
      lvalue_ok dollar k true base /\ expr_ok true n from /\ expr_ok true (S n) to
  | EXPR_INDEX lhs rhs => let n := k + lvalue_size lhs true in
      lvalue_ok dollar k true lhs /\ expr_ok true n rhs /\ (above = true -> n + 2 <= STACK_LIMIT)
  | EXPR_ID id => slot_ok id /\ (above = true -> k < STACK_LIMIT)
  | Expr_Binary EXPR_PROP lhs rhs =>
      expr_ok dollar k lhs /\ expr_ok dollar (S k) rhs /\ (above = true -> k + 3 <= STACK_LIMIT)
  | _ => False
  end
with scat_ok (dollar : bool) (k : nat) (sc : Scatter) : Prop :=
  match sc with
  | Scat_Nil => True
  | Scat_Cons _ id expr sc =>
      slot_ok id /\ match expr with Some_Expr e => expr_ok dollar k e | No_Expr => True end /\ scat_ok dollar k sc
  end.

(** ** Compiled code *)

Section compiled.
Context (F : State).

Definition var_op_at (op : Z -> Opcode) (g_op : Opcode) (id : Z) (p q : nat) : Prop :=
  ((id < NUM_READY_VARS)%Z /\ op_at F p (op id) /\ q = S p) \/
  ((NUM_READY_VARS <= id)%Z /\ op_at F p g_op /\ ref_at F (S p) FIXUP_VAR_REF (Z.to_nat id) /\ q = S (S p)).

Definition binary_at (k : Binary_Kind) (p q : nat) : Prop :=
  match binary_op k with inl op => op_at F p op /\ q = S p | inr eop => eop_at F p eop /\ q = S (S p) end.

Definition unary_at (k : Unary_Kind) (p q : nat) : Prop :=
  match k with
  | EXPR_NOT => op_at F p OP_NOT /\ q = S p
  | EXPR_NEGATE => op_at F p OP_UNARY_MINUS /\ q = S p
  | EXPR_COMPLEMENT => eop_at F p EOP_COMPLEMENT /\ q = S (S p)
  end.

Fixpoint store_at (e : Expr) (p q : nat) : Prop :=
  match e with
  | EXPR_RANGE base _ _ => eop_at F p EOP_RANGESET /\ store_at base (S (S p)) q
  | EXPR_INDEX lhs _ => op_at F p OP_INDEXSET /\ store_at lhs (S p) q
  | EXPR_ID id => var_op_at OP_PUT OP_G_PUT id p q
  | Expr_Binary EXPR_PROP _ _ => op_at F p OP_PUT_PROP /\ q = S p
  | _ => False
  end.

(** The operands of a scattering assignment; [targets] are the places of the defaults. *)
Fixpoint scatter_at (sc : Scatter) (targets : list nat) (p q : nat) : Prop :=
  match sc, targets with
  | Scat_Nil, [] => q = p
  | Scat_Cons kind id expr sc, t :: targets =>
      ref_at F p FIXUP_VAR_REF (Z.to_nat id) /\
      match kind, expr with
      | SCAT_OPTIONAL, No_Expr => pseudo_at F (S p) 1
      | SCAT_OPTIONAL, Some_Expr _ => label_at F (S p) t
      | _, _ => pseudo_at F (S p) 0
      end /\ scatter_at sc targets (S (S p)) q
  | _, _ => False
  end.

Fixpoint compiled (e : Expr) (p q : nat) (saved : option nat) (k : nat) : Prop :=
  match e with
  | EXPR_VAR v => k < max_stack F /\
      ((exists n, v = Int n /\ op_at F p (OPTIM_NUM n) /\ q = S p) \/
       (op_at F p OP_IMM /\ lit_at F (S p) v /\ q = S (S p)))
  | EXPR_ID id => k < max_stack F /\ var_op_at OP_PUSH OP_G_PUSH id p q
  | EXPR_AND lhs rhs | EXPR_OR lhs rhs => exists p1,
      compiled lhs p p1 saved k /\ op_at F p1 (match e with EXPR_AND _ _ => OP_AND | _ => OP_OR end) /\
      label_at F (S p1) q /\ compiled rhs (S (S p1)) q saved k
  | Expr_Unary u e => exists p1, compiled e p p1 saved k /\ unary_at u p1 q
  | Expr_Binary b lhs rhs => exists p1 p2,
      compiled lhs p p1 saved k /\ compiled rhs p1 p2 saved (S k) /\ binary_at b p2 q
  | EXPR_INDEX lhs rhs => exists p1 p2,
      compiled lhs p p1 saved k /\ compiled rhs p1 p2 (Some k) (S k) /\ op_at F p2 OP_REF /\ q = S p2
  | EXPR_RANGE base from to => exists p1 p2 p3,
      compiled base p p1 saved k /\ compiled from p1 p2 (Some k) (S k) /\ compiled to p2 p3 (Some k) (S (S k)) /\
      op_at F p3 OP_RANGE_REF /\ q = S p3
  | EXPR_LENGTH => exists i, saved = Some i /\ k < max_stack F /\
      eop_at F p EOP_LENGTH /\ ref_at F (S (S p)) FIXUP_STACK i /\ q = S (S (S p))
  | EXPR_LIST args => compiled_args args p q saved k
  | EXPR_CALL func args => exists p1,
      compiled_args args p p1 saved k /\ op_at F p1 OP_BI_FUNC_CALL /\ byte_at F (S p1) func /\ q = S (S p1)
  | EXPR_VERB obj verb args => exists p1 p2 p3,
      compiled obj p p1 saved k /\ compiled verb p1 p2 saved (S k) /\ compiled_args args p2 p3 saved (S (S k)) /\
      op_at F p3 OP_CALL_VERB /\ q = S p3
  | EXPR_COND c a b => exists p1 p2,
      compiled c p p1 saved k /\ op_at F p1 OP_IF_QUES /\ label_at F (S p1) (S (S p2)) /\
      compiled a (S (S p1)) p2 saved k /\ op_at F p2 OP_JUMP /\ label_at F (S p2) q /\
      compiled b (S (S p2)) q saved k
  | EXPR_ASGN (EXPR_SCATTER sc) rhs => exists p1 p2 targets,
      compiled rhs p p1 saved k /\
      (let '(nargs, nreq, rest) := scatter_counts sc 0 0 None in
       eop_at F p1 EOP_SCATTER /\ byte_at F (p1 + 2) nargs /\ byte_at F (p1 + 3) nreq /\ byte_at F (p1 + 4) rest) /\
      scatter_at sc targets (p1 + 5) p2 /\ label_at F p2 q /\ compiled_defaults sc targets (S p2) q saved (S k)
  | EXPR_ASGN e rhs => exists p1 p2 p3 p4,
      compiled_lvalue e false p p1 saved k /\ compiled rhs p1 p2 saved (k + lvalue_size e false) /\
      (if is_part e then op_at F p2 OP_PUT_TEMP /\ p3 = S p2 else p3 = p2) /\
      store_at e p3 p4 /\
      (if is_part e then op_at F p4 OP_POP /\ op_at F (S p4) OP_PUSH_TEMP /\ q = S (S p4) else q = p4)
  | EXPR_SCATTER _ => False
  | EXPR_CATCH e codes except => exists p1 p2,
      match codes with
      | Arg_Nil => k < max_stack F /\ op_at F p (OPTIM_NUM 0) /\ p1 = S p
      | _ => compiled_args codes p p1 saved k
      end /\
      eop_at F p1 EOP_PUSH_LABEL /\ label_at F (p1 + 2) (p2 + 3) /\ eop_at F (p1 + 3) EOP_CATCH /\
      k + 3 <= max_stack F /\ compiled e (p1 + 5) p2 saved (k + 3) /\
      eop_at F p2 EOP_END_CATCH /\ label_at F (p2 + 2) q /\
      match except with
      | Some_Expr e => op_at F (p2 + 3) OP_POP /\ compiled e (p2 + 4) q saved k
      | No_Expr => op_at F (p2 + 3) (OPTIM_NUM 1) /\ op_at F (p2 + 4) OP_REF /\ q = p2 + 5
      end
  end
with compiled_args (args : Arg_List) (p q : nat) (saved : option nat) (k : nat) : Prop :=
  match args with
  | Arg_Nil => k < max_stack F /\ op_at F p OP_MAKE_EMPTY_LIST /\ q = S p
  | Arg_Cons kind e args => exists p1,
      compiled e p p1 saved k /\
      op_at F p1 (match kind with ARG_NORMAL => OP_MAKE_SINGLETON_LIST | ARG_SPLICE => OP_CHECK_LIST_FOR_SPLICE end) /\
      compiled_more args (S p1) q saved k
  end
with compiled_more (args : Arg_List) (p q : nat) (saved : option nat) (k : nat) : Prop :=
  match args with
  | Arg_Nil => q = p
  | Arg_Cons kind e args => exists p1,
      compiled e p p1 saved (S k) /\
      op_at F p1 (match kind with ARG_NORMAL => OP_LIST_ADD_TAIL | ARG_SPLICE => OP_LIST_APPEND end) /\
      compiled_more args (S p1) q saved k
  end
with compiled_lvalue (e : Expr) (above : bool) (p q : nat) (saved : option nat) (k : nat) : Prop :=
  match e with
  | EXPR_RANGE base from to => exists p1 p2, let n := k + lvalue_size base true in
      compiled_lvalue base true p p1 saved k /\ compiled from p1 p2 (Some (n - 1)) n /\ compiled to p2 q (Some (n - 1)) (S n)
  | EXPR_INDEX lhs rhs => exists p1 p2, let n := k + lvalue_size lhs true in
      compiled_lvalue lhs true p p1 saved k /\ compiled rhs p1 p2 (Some (n - 1)) n /\
      (if above then n + 2 <= max_stack F /\ op_at F p2 OP_PUSH_REF /\ q = S p2 else q = p2)
  | EXPR_ID id => if above then k < max_stack F /\ var_op_at OP_PUSH OP_G_PUSH id p q else q = p
  | Expr_Binary EXPR_PROP lhs rhs => exists p1 p2,
      compiled lhs p p1 saved k /\ compiled rhs p1 p2 saved (S k) /\
      (if above then k + 3 <= max_stack F /\ op_at F p2 OP_PUSH_GET_PROP /\ q = S p2 else q = p2)
  | _ => False
  end
with compiled_defaults (sc : Scatter) (targets : list nat) (p q : nat) (saved : option nat) (k : nat) : Prop :=
  match sc, targets with
  | Scat_Nil, [] => q = p
  | Scat_Cons kind id expr sc, t :: targets =>
      match kind, expr with
      | SCAT_OPTIONAL, Some_Expr e => t = p /\ exists p1 p2,
          compiled e p p1 saved k /\ var_op_at OP_PUT OP_G_PUT id p1 p2 /\ op_at F p2 OP_POP /\
          compiled_defaults sc targets (S p2) q saved k
      | _, _ => compiled_defaults sc targets p q saved k
      end
  | _, _ => False
  end.

End compiled.

(** ** What the generator needs, and does *)

Record ready (s : State) : Prop := {
  rd_inv : Inv s;
  rd_stack : cur_stack s <= max_stack s;
  rd_saved i : saved_stack s = Some i -> i < cur_stack s }.

(** A label that is still to be defined: its number, its place and the next of its chain. *)
Record open_label := Open { o_index : nat; o_place : nat; o_next : option nat }.

Definition open_at (s : State) (o : open_label) : Prop :=
  exists f, fixups s !! o_index o = Some f /\ f_pc f = o_place o /\ f_kind f = FIXUP_LABEL /\ f_next f = o_next o.

(** From [s] to [s'] with [c] values on the stack and the loops [ls] in the end, leaving the
    labels [W] open.  Then [P] holds of all extensions that do not change other new labels. *)
Record emits (s s' : State) (c : nat) (ls : list Loop) (W : list open_label) (P : State -> Prop) : Prop := {
  em_ready : ready s';
  em_ext : ext none s s';
  em_saved : saved_stack s' = saved_stack s;
  em_cur : cur_stack s' = c;
  em_max : max_stack s' <= Nat.max (max_stack s) STACK_LIMIT;
  em_loops : loops s' = ls;
  em_open o : o ∈ W -> length (fixups s) <= o_index o /\ open_at s' o;
  em_nodup : NoDup (o_index <$> W);
  em_code (O : nat -> Prop) F : (forall i, length (fixups s) <= i < length (fixups s') -> O i -> i ∈ o_index <$> W) ->
    ext O s' F -> P F }.

Lemma back_grows s t F O : ext none s t -> ext O t F -> ext O s F.
Proof. intros G. eapply ext_none, G. Qed.

Lemma open_at_ext s t o : ext none s t -> open_at s o -> open_at t o.
Proof.
  intros He (f & Hf & Hr). destruct (ext_fixup _ _ _ He _ _ Hf) as (g & Hg & _ & Heq). rewrite Heq in Hg by (left; intros []).
  by exists f.
Qed.

Lemma open_at_lt s o : open_at s o -> o_index o < length (fixups s).
Proof. intros (f & Hf & _). by apply lookup_lt_Some in Hf. Qed.

Lemma emits_refl s : ready s -> emits s s (cur_stack s) (loops s) [] (fun _ => True).
Proof. intros Hr. split; try done. - apply ext_refl. - lia. - by intros o ?%elem_of_nil. - constructor. Qed.

Lemma emits_weaken s s' c ls W P Q : emits s s' c ls W P -> (forall F, P F -> Q F) -> emits s s' c ls W Q.
Proof. intros [H1 H2 H3 H4 Hm H5 H6 H7 H8] Hq. split; try done. intros O F Ho He. by apply Hq, (H8 O). Qed.

Lemma emits_perm s s' c ls W W' P : W ≡ₚ W' -> emits s s' c ls W P -> emits s s' c ls W' P.
Proof.
  intros Hw [H1 H2 H3 H4 Hm H5 H6 H7 H8]. split; try done.
  - intros o Ho. apply H6. by rewrite Hw.
  - by rewrite <- Hw.
  - intros O F Ho. apply H8. intros i. rewrite Hw. apply Ho.
Qed.

(** *** Composition *)

Lemma emits_seq s t u c d ls ls' V W P Q : emits s t c ls V P -> emits t u d ls' W Q ->
  emits s u d ls' (V ++ W) (fun F => P F /\ Q F).
Proof.
  intros [R1 G1 S1 C1 M1 L1 O1 N1 E1] [R2 G2 S2 C2 M2 L2 O2 N2 E2]. pose proof (ext_length _ _ _ G1). pose proof (ext_length _ _ _ G2).
  split; try done.
  - by eapply back_grows.
  - congruence.
  - lia.
  - intros o [Ho|Ho]%elem_of_app.
    + destruct (O1 o Ho) as [? Hs]. split; [done|]. by eapply open_at_ext.
    + destruct (O2 o Ho) as [? Hs]. split; [lia|done].
  - rewrite fmap_app. apply NoDup_app. split; [done|]. split; [|done].
    intros i (o & -> & Ho)%list_elem_of_fmap (o' & E & Ho')%list_elem_of_fmap.
    destruct (O1 _ Ho) as [_ Hlt%open_at_lt]. destruct (O2 _ Ho'). lia.
  - intros O F Ho He. split.
    + apply (E1 O); [|by eapply back_grows]. intros i Hi HO. specialize (Ho i ltac:(lia) HO). rewrite fmap_app in Ho.
      apply elem_of_app in Ho as [Ho|(o & -> & HL)%list_elem_of_fmap]; [done|]. destruct (O2 _ HL). lia.
    + apply (E2 O); [|done]. intros i Hi HO. specialize (Ho i ltac:(lia) HO). rewrite fmap_app in Ho.
      apply elem_of_app in Ho as [(o & -> & HL)%list_elem_of_fmap|Ho]; [|done]. destruct (O1 _ HL) as [_ ?%open_at_lt]. lia.
Qed.

(** *** Running *)

Definition wp {A} (m : gen A) (s : State) (Q : A -> State -> Prop) : Prop := exists a t, m s = Ok (a, t) /\ Q a t.

Lemma wp_bind {A B} (m : gen A) (f : A -> gen B) s Q : wp m s (fun a t => wp (f a) t Q) -> wp (m ≫= f) s Q.
Proof. intros (a & t & H & b & u & H' & HQ). exists b, u. split; [|done]. unfold mbind, gen_bind. by rewrite H. Qed.

Lemma wp_ret {A} (a : A) s (Q : A -> State -> Prop) : Q a s -> wp (mret a) s Q.
Proof. intros H. by exists a, s. Qed.

Lemma wp_mono {A} (m : gen A) s (Q Q' : A -> State -> Prop) : (forall a t, Q a t -> Q' a t) -> wp m s Q -> wp m s Q'.
Proof. intros H (a & t & Hm & HQ). exists a, t. split; [done|]. by apply H. Qed.

Lemma wp_gets {A} (f : State -> A) s Q : Q (f s) s -> wp (gets f) s Q.
Proof. intros H. by exists (f s), s. Qed.

(** A primitive that appends code and does not touch the stack. *)
Lemma emits_grows s0 s t c ls W P (Q : State -> Prop) : emits s0 s c ls W P -> grows s t -> code_only s t ->
  (forall O F, ext O t F -> (forall i, length (fixups s) <= i < length (fixups t) -> ~ O i) -> Q F) ->
  emits s0 t c ls W (fun F => P F /\ Q F).
Proof.
  intros E G [C M] HQ. pose proof (ext_stack _ _ _ (gr_ext _ _ G)). pose proof (em_ready _ _ _ _ _ _ E) as [R1 R2 R3].
  rewrite <- (app_nil_r W). eapply emits_seq; [exact E|].
  split; try apply G; try done.
  - split; [apply G|lia|]. intros i. rewrite (gr_saved _ _ G), C. apply R3.
  - rewrite C. apply E.
  - lia.
  - rewrite (gr_loops _ _ G). apply E.
  - by intros o ?%elem_of_nil.
  - constructor.
  - intros O F Ho He. apply (HQ O F He). intros i Hi HO. by apply (Ho i Hi), elem_of_nil in HO.
Qed.

(** One that opens a label, or adds a label that is not defined. *)
Lemma emits_opens s0 s t c ls W P o : emits s0 s c ls W P -> grows s t -> code_only s t ->
  o_index o = length (fixups s) -> open_at t o ->
  emits s0 t c ls (W ++ [o]) P.
Proof.
  intros E G [C M] Ho Hat. pose proof (ext_stack _ _ _ (gr_ext _ _ G)). pose proof (em_ready _ _ _ _ _ _ E) as [R1 R2 R3].
  eapply (emits_weaken _ _ _ _ _ (fun F => P F /\ True)); [|tauto]. eapply emits_seq; [exact E|].
  split; try apply G; try done.
  - split; [apply G|lia|]. intros i. rewrite (gr_saved _ _ G), C. apply R3.
  - rewrite C. apply E.
  - lia.
  - rewrite (gr_loops _ _ G). apply E.
  - intros o' ->%list_elem_of_singleton. split; [lia|done].
  - apply NoDup_singleton.
Qed.

Lemma emits_inv s0 s c ls W P : emits s0 s c ls W P -> Inv s.
Proof. intros E. apply (rd_inv _ (em_ready _ _ _ _ _ _ E)). Qed.

Section rules.
Context {s0 s : State} {c : nat} {ls : list Loop} {W : list open_label} {P : State -> Prop}
  (E : emits s0 s c ls W P) {Q : unit -> State -> Prop}.

Lemma wp_byte b : (0 <= b < 256)%Z ->
  (forall t, emits s0 t c ls W (fun F => P F /\ byte_at F (here s) b) -> here t = S (here s) -> Q tt t) -> wp (emit_byte b) s Q.
Proof.
  intros Hb HQ. destruct (emit_byte_Ok b s (emits_inv _ _ _ _ _ _ E)) as (t & Ht & G & C & L & Fx & B). exists tt, t. split; [done|].
  apply HQ; [|done]. rewrite Z.mod_small in B by done. eapply emits_grows; try done. intros O F He _. by eapply byte_at_ext.
Qed.

Lemma wp_op o : good_opcode o ->
  (forall t, emits s0 t c ls W (fun F => P F /\ op_at F (here s) o) -> here t = S (here s) -> Q tt t) -> wp (emit_op o) s Q.
Proof.
  intros Ho HQ. destruct (emit_op_Ok o s Ho (emits_inv _ _ _ _ _ _ E)) as (t & Ht & G & C & L & Fx & B). exists tt, t. split; [done|].
  apply HQ; [|done]. eapply emits_grows; try done. intros O F He _. by eapply op_at_ext.
Qed.

Lemma wp_eop o :
  (forall t, emits s0 t c ls W (fun F => P F /\ eop_at F (here s) o) -> here t = S (S (here s)) -> Q tt t) ->
  wp (emit_extended_byte o) s Q.
Proof.
  intros HQ. destruct (emit_extended_Ok o s (emits_inv _ _ _ _ _ _ E)) as (t & Ht & G & C & L & Fx & B). exists tt, t. split; [done|].
  apply HQ; [|done]. eapply emits_grows; try done. intros O F He _. by eapply eop_at_ext.
Qed.

Lemma wp_literal v : literal_ok v ->
  (forall t, emits s0 t c ls W (fun F => P F /\ lit_at F (here s) v) -> here t = S (here s) -> Q tt t) -> wp (add_literal v) s Q.
Proof.
  intros Hv HQ. destruct (add_literal_Ok v s Hv (emits_inv _ _ _ _ _ _ E)) as (t & Ht & G & C & L & B). exists tt, t. split; [done|].
  apply HQ; [|done]. eapply emits_grows; try done. intros O F He _. by eapply lit_at_ext.
Qed.

Lemma wp_var_ref id : slot_ok id ->
  (forall t, emits s0 t c ls W (fun F => P F /\ ref_at F (here s) FIXUP_VAR_REF (Z.to_nat id)) -> here t = S (here s) -> Q tt t) ->
  wp (add_var_ref id) s Q.
Proof.
  intros Hv HQ. destruct (add_var_ref_Ok id s (emits_inv _ _ _ _ _ _ E)) as (t & Ht & G & C & L & B). exists tt, t. split; [done|].
  apply HQ; [|done]. rewrite slot_u32 in B by done. eapply emits_grows; try done. intros O F He _. by eapply ref_at_ext.
Qed.

Lemma wp_stack_ref n : n <= max_stack s ->
  (forall t, emits s0 t c ls W (fun F => P F /\ ref_at F (here s) FIXUP_STACK n) -> here t = S (here s) -> Q tt t) ->
  wp (add_stack_ref n) s Q.
Proof.
  intros Hv HQ. destruct (add_stack_ref_Ok n s (emits_inv _ _ _ _ _ _ E) Hv) as (t & Ht & G & C & L & B). exists tt, t. split; [done|].
  apply HQ; [|done]. eapply emits_grows; try done. intros O F He _. by eapply ref_at_ext.
Qed.

Lemma wp_pseudo_label v :
  (forall t, emits s0 t c ls W (fun F => P F /\ pseudo_at F (here s) v) -> here t = S (here s) -> Q tt t) ->
  wp (add_pseudo_label v) s Q.
Proof.
  intros HQ. destruct (add_pseudo_label_Ok v s (emits_inv _ _ _ _ _ _ E)) as (t & Ht & G & C & L & Fx & B). exists tt, t. split; [done|].
  apply HQ; [|done]. eapply emits_grows; try done. intros O F He Ho.
  assert (Hlook : fixups t !! length (fixups s) = Some (mkFixup FIXUP_LABEL (here s) v no_counts None))
    by (rewrite Fx, lookup_app_r, Nat.sub_diag by lia; done).
  assert (Hn : ~ O (length (fixups s))) by (apply Ho; rewrite Fx, length_app; cbn; lia).
  by apply (pseudo_closed O t F _ _ _ He B Hn Hlook).
Qed.

Lemma wp_push n : c + n <= STACK_LIMIT ->
  (forall t, emits s0 t (c + n) ls W (fun F => P F /\ c + n <= max_stack F) -> here t = here s -> Q tt t) -> wp (push_stack n) s Q.
Proof.
  intros Hn HQ. destruct (push_stack_Ok n s (emits_inv _ _ _ _ _ _ E)) as (t & Ht & G & C & M & B & Fx). exists tt, t. split; [done|].
  apply HQ; [|by rewrite B]. rewrite <- (app_nil_r W). eapply emits_seq; [exact E|]. pose proof (em_cur _ _ _ _ _ _ E).
  split; try apply G; try done; try lia.
  - split; [apply G|lia|]. intros i. rewrite (gr_saved _ _ G). intros Hi%(rd_saved _ (em_ready _ _ _ _ _ _ E)). lia.
  - rewrite (gr_loops _ _ G). apply E.
  - by intros o ?%elem_of_nil.
  - constructor.
  - intros O F Ho He. pose proof (ext_stack _ _ _ He). lia.
Qed.

Lemma wp_pop n : n <= c -> (forall i, saved_stack s = Some i -> i < c - n) ->
  (forall t, emits s0 t (c - n) ls W P -> here t = here s -> Q tt t) -> wp (pop_stack n) s Q.
Proof.
  intros Hn Hs HQ. pose proof (em_cur _ _ _ _ _ _ E) as Hc.
  destruct (pop_stack_Ok n s (emits_inv _ _ _ _ _ _ E) ltac:(lia)) as (t & Ht & G & C & M & B & Fx). exists tt, t. split; [done|].
  apply HQ; [|by rewrite B]. eapply (emits_weaken _ _ _ _ _ (fun F => P F /\ True)); [|tauto].
  rewrite <- (app_nil_r W). eapply emits_seq; [exact E|]. pose proof (rd_stack _ (em_ready _ _ _ _ _ _ E)).
  split; try apply G; try done; try lia.
  - split; [apply G|lia|]. intros i. rewrite (gr_saved _ _ G). intros Hi%Hs. lia.
  - rewrite (gr_loops _ _ G). apply E.
  - by intros o ?%elem_of_nil.
  - constructor.
Qed.

Lemma wp_linked_label nxt {R : nat -> State -> Prop} :
  (forall t, emits s0 t c ls (W ++ [Open (length (fixups s)) (here s) nxt]) P -> here t = S (here s) -> R (length (fixups s)) t) ->
  wp (add_linked_label nxt) s R.
Proof.
  intros HQ. destruct (add_linked_label_Ok nxt s (emits_inv _ _ _ _ _ _ E)) as (t & Ht & G & C & L & Fx & B).
  exists (length (fixups s)), t. split; [done|]. apply HQ; [|done]. eapply emits_opens; try done.
  eexists. split; [rewrite Fx; cbn [o_index]; rewrite lookup_app_r, Nat.sub_diag by lia; done|]. done.
Qed.

(** The labels of a chain, in order. *)
Fixpoint linked (os : list open_label) (label : option nat) : Prop :=
  match os with
  | [] => label = None
  | o :: os => label = Some (o_index o) /\ linked os (o_next o)
  end.

Lemma linked_chain t os label : (forall o, o ∈ os -> open_at t o) -> linked os label -> chain (fixups t) (o_index <$> os) label.
Proof.
  revert label. induction os as [|o os IH]; intros label Ho; [done|]. intros [-> Hl]. split; [done|].
  destruct (Ho o) as (f & Hf & _ & Hk & Hn); [by left|]. exists f. split; [done|]. split; [done|]. rewrite Hn. apply IH; [|done].
  intros o' Ho'. apply Ho. by right.
Qed.

Lemma wp_define os W' label : W ≡ₚ os ++ W' -> linked os label ->
  (forall t, emits s0 t c ls W' (fun F => P F /\ forall o, o ∈ os -> label_at F (o_place o) (here s)) -> here t = here s -> Q tt t) ->
  wp (define_label label) s Q.
Proof.
  intros HW Hl HQ. pose proof (emits_perm _ _ _ _ _ _ _ HW E) as [R1 G1 S1 C1 M1 L1 O1 N1 E1]. clear E HW W.
  rewrite fmap_app in N1. apply NoDup_app in N1 as (Nd1 & Ndis & Nd2).
  destruct (define_label_Ok (o_index <$> os) label s Nd1 (rd_inv _ R1)) as (t & Ht & D).
  { apply linked_chain; [|done]. intros o Ho. apply O1, elem_of_app. by left. }
  exists tt, t. split; [done|]. pose proof D as [D1 D2 (Db & Dn & Dg & Dc & Dm & Ds & Dl & Dv) D4].
  assert (Hnew : forall i, i ∈ o_index <$> os -> length (fixups s0) <= i).
  { intros i (o & -> & Ho)%list_elem_of_fmap. apply O1, elem_of_app. by left. }
  apply HQ; [|by rewrite Db]. split; try done; try congruence.
  - destruct R1 as [I1 I2 I3]. split; [done|congruence|]. intros i. rewrite Ds, Dc. apply I3.
  - eapply ext_trans; [exact G1|exact D2|]. intros i Hi [[]|Hin%Hnew]. lia.
  - intros o Ho. destruct (O1 o) as [Hlt (f & Hf & Hp & Hk & Hn)]; [apply elem_of_app; by right|]. split; [done|].
    destruct (ext_fixup _ _ _ D2 _ _ Hf) as (g & Hg & _ & Heq). exists f. split; [|done]. rewrite Heq in Hg; [done|left].
    intros Hin. apply (Ndis _ Hin). by apply list_elem_of_fmap_2.
  - intros O F Ho He. pose proof (ext_length _ _ _ D2) as Hlen. split.
    + apply (E1 (fun i => O i \/ i ∈ o_index <$> os)).
      * intros i Hi [HO|Hin]; rewrite fmap_app; apply elem_of_app; [right|by left]. apply Ho; [lia|done].
      * eapply ext_trans; [exact D2|exact He|]. intros i _ [H|H]; [by right|by left].
    + intros o Hin. destruct (O1 o) as [Hlt Hat]; [apply elem_of_app; by left|].
      assert (Hio : o_index o ∈ o_index <$> os) by (by apply list_elem_of_fmap_2).
      eapply (defines_label_at O s t F _ (o_index o)); [apply R1|exact D|done| |exact He|].
      * destruct Hat as (f & Hf & Hp & Hk & _). split; [|by exists f]. rewrite <- Hp. by apply (inv_pc s (rd_inv _ R1) (o_index o) f).
      * intros HO. pose proof (open_at_lt _ _ Hat). apply (Ndis _ Hio). apply Ho; [lia|done].
Qed.

Lemma wp_define_one L p W' : W ≡ₚ Open L p None :: W' ->
  (forall t, emits s0 t c ls W' (fun F => P F /\ label_at F p (here s)) -> here t = here s -> Q tt t) ->
  wp (define_label (Some L)) s Q.
Proof.
  intros HW HQ. apply (wp_define [Open L p None] W'); [exact HW|done|]. intros t Et. apply HQ. eapply emits_weaken; [exact Et|].
  cbn beta. intros F [HP Hl]. split; [done|]. apply (Hl (Open L p None)). by left.
Qed.

Lemma wp_save {R : option nat -> State -> Prop} k : c = S k ->
  (forall t, t = with_saved (Some k) s -> saved_stack t = Some k -> here t = here s -> ready t ->
    emits t t (S k) ls [] (fun _ => True) -> R (saved_stack s) t) -> wp save_stack_top s R.
Proof.
  intros -> HQ. pose proof (em_cur _ _ _ _ _ _ E) as Hcur. exists (saved_stack s), (with_saved (Some k) s).
  unfold save_stack_top. rewrite decide_False by lia. split; [by rewrite Hcur, Nat.sub_succ, Nat.sub_0_r|].
  assert (Hr : ready (with_saved (Some k) s)).
  { destruct (em_ready _ _ _ _ _ _ E) as [R1 R2 R3]. split; [by apply Inv_saved|done|]. cbn [saved_stack with_saved cur_stack].
    intros i Hi. injection Hi as <-. lia. }
  apply HQ; try done. rewrite <- Hcur, <- (em_loops _ _ _ _ _ _ E). by apply (emits_refl (with_saved (Some k) s)).
Qed.

Lemma wp_restore o s' t d P' : s' = with_saved o s -> emits s' t d ls [] P' -> c <= d ->
  (forall u, emits s0 u d ls W (fun F => P F /\ P' F) -> here u = here t -> Q tt u) ->
  wp (restore_stack_top (saved_stack s)) t Q.
Proof.
  intros -> [R1 G1 S1 C1 M1 L1 O1 N1 E1] Hc HQ. eexists tt, _. split; [reflexivity|]. apply HQ; [|done].
  rewrite <- (app_nil_r W). eapply emits_seq; [exact E|]. pose proof (em_ready _ _ _ _ _ _ E) as [I1 I2 I3].
  pose proof (em_cur _ _ _ _ _ _ E). destruct G1 as [H1 H2 H3 H4 H5 H6 H7], R1 as [J1 J2 J3]. split; try done.
  - split; [by apply Inv_saved|done|]. cbn. intros i Hi%I3. lia.
  - intros O F Ho [F1 F2 F3 F4 F5 F6 F7]. apply (E1 O); [done|by split].
Qed.

End rules.

(** ** Expressions *)

(** Code for [C] that leaves [d] values. *)
Definition makes (m : gen unit) (s : State) (d : nat) (C : State -> nat -> nat -> Prop) : Prop :=
  wp m s (fun _ t => emits s t d (loops s) [] (fun F => C F (here s) (here t))).

Lemma wp_makes {s0 s c ls W P} (E : emits s0 s c ls W P) {m d C} {Q : unit -> State -> Prop} : makes m s d C ->
  (forall t, emits s0 t d ls W (fun F => P F /\ C F (here s) (here t)) -> Q tt t) -> wp m s Q.
Proof.
  intros ([] & t & Hm & Ht) HQ. exists tt, t. split; [done|]. apply HQ. rewrite <- (app_nil_r W). eapply emits_seq; [exact E|].
  by rewrite <- (em_loops _ _ _ _ _ _ E).
Qed.

Lemma makes_intro m s d C : ready s ->
  (emits s s (cur_stack s) (loops s) [] (fun _ => True) ->
   wp m s (fun _ t => emits s t d (loops s) [] (fun F => C F (here s) (here t)))) -> makes m s d C.
Proof. intros Hr H. by apply H, emits_refl. Qed.

(** The saved place is below what is popped. *)
Ltac saved_below :=
  let i := fresh "i" in let Hi := fresh "Hi" in intros i Hi;
  match goal with
  | E : emits ?s0 ?s _ _ _ _, Hs : saved_stack ?s0 = None |- _ =>
      try rewrite (em_saved _ _ _ _ _ _ E) in Hi; rewrite Hs in Hi; discriminate Hi
  | E : emits ?s0 ?s _ _ _ _, R : ready ?s0 |- _ => try rewrite (em_saved _ _ _ _ _ _ E) in Hi; pose proof (rd_saved _ R _ Hi); lia
  | E : emits ?s0 ?s _ _ _ _, R : forall i, saved_stack ?s0 = Some i -> _ |- _ =>
      try rewrite (em_saved _ _ _ _ _ _ E) in Hi; pose proof (R _ Hi); lia
  end.

(** One step of the generator. *)
Ltac step :=
  lazymatch goal with
  | |- wp (_ ≫= _) _ _ => apply wp_bind
  | |- wp (mret _) _ _ => apply wp_ret
  | |- wp skip _ _ => apply wp_ret
  | E : emits _ ?s _ _ _ _ |- wp (emit_op _) ?s _ => apply (wp_op E); [try done|clear E; intros ? E ?]
  | E : emits _ ?s _ _ _ _ |- wp (emit_byte _) ?s _ => apply (wp_byte E); [try done|clear E; intros ? E ?]
  | E : emits _ ?s _ _ _ _ |- wp (emit_extended_byte _) ?s _ => apply (wp_eop E); clear E; intros ? E ?
  | E : emits _ ?s _ _ _ _ |- wp (add_literal _) ?s _ => apply (wp_literal E); [try done|clear E; intros ? E ?]
  | E : emits _ ?s _ _ _ _ |- wp (add_var_ref _) ?s _ => apply (wp_var_ref E); [try done|clear E; intros ? E ?]
  | E : emits _ ?s _ _ _ _ |- wp (add_stack_ref _) ?s _ => apply (wp_stack_ref E); [|clear E; intros ? E ?]
  | E : emits _ ?s _ _ _ _ |- wp (add_pseudo_label _) ?s _ => apply (wp_pseudo_label E); clear E; intros ? E ?
  | E : emits _ ?s _ _ _ _ |- wp (push_stack _) ?s _ => apply (wp_push E); [try lia|clear E; intros ? E ?; rewrite ?Nat.add_1_r in E]
  | E : emits _ ?s _ _ _ _ |- wp (pop_stack _) ?s _ => apply (wp_pop E); [try lia|try saved_below|clear E; intros ? E ?; rewrite ?Nat.sub_succ, ?Nat.sub_0_r in E]
  | E : emits _ ?s _ _ _ _ |- wp (add_linked_label _) ?s _ => apply (wp_linked_label E); clear E; intros ? E ?
  | E : emits _ ?s _ _ _ _ |- wp add_label ?s _ => apply (wp_linked_label E); clear E; intros ? E ?
  end; cbn beta.

(** Places in terms of the first one. *)
Ltac places :=
  repeat match goal with
  | H : here ?t = _ |- _ => let p := fresh "p" in set (p := here t) in *; clearbody p; subst p
  end.
(** The end: [E] says what is at all the places. *)
Ltac finish E F :=
  eapply emits_weaken; [exact E|]; clear E; intros F; cbn beta;
  let H := fresh in intros H; destruct_and? H; places; repeat match goal with |- _ /\ _ => split; [done|] end; try done.

Lemma wp_var_op op g_op id {s0 s c ls W P} (E : emits s0 s c ls W P) {Q : unit -> State -> Prop} : slot_ok id ->
  good_opcode g_op -> (forall i, 0 <= i < NUM_READY_VARS -> good_opcode (op i))%Z ->
  (forall t, emits s0 t c ls W (fun F => P F /\ var_op_at F op g_op id (here s) (here t)) -> Q tt t) ->
  wp (emit_var_op op g_op id) s Q.
Proof.
  intros Hid Hg Ho HQ. unfold emit_var_op. rewrite slot_u32 by done. rewrite Z.geb_leb. destruct (Z.leb_spec NUM_READY_VARS id).
  - do 3 step. apply HQ. finish E F. by right.
  - step; [apply Ho; unfold slot_ok in Hid; lia|]. apply HQ. finish E F. by left.
Qed.

Lemma binary_op_good k op : binary_op k = inl op -> good_opcode op.
Proof. by destruct k; intros [= <-]. Qed.

Lemma wp_binary k {s0 s c ls W P} (E : emits s0 s c ls W P) {Q : unit -> State -> Prop} :
  (forall t, emits s0 t c ls W (fun F => P F /\ binary_at F k (here s) (here t)) -> Q tt t) -> wp (emit_binary k) s Q.
Proof.
  intros HQ. unfold emit_binary, binary_at in *. pose proof (binary_op_good k). destruct (binary_op k) as [op|op].
  - step; [by apply H|]. apply HQ. finish E F.
  - step. apply HQ. finish E F.
Qed.

Lemma wp_unary k {s0 s c ls W P} (E : emits s0 s c ls W P) {Q : unit -> State -> Prop} :
  (forall t, emits s0 t c ls W (fun F => P F /\ unary_at F k (here s) (here t)) -> Q tt t) -> wp (emit_unary k) s Q.
Proof. intros HQ. destruct k; cbn [emit_unary]; step; apply HQ; finish E F. Qed.

(** *** Storing *)

Lemma lvalue_size_above e : is_base e = true -> lvalue_size e true = S (lvalue_size e false).
Proof. destruct e; cbn; try done; try destruct kind; try done; lia. Qed.

Lemma is_base_lvalue e : is_base e = true -> is_lvalue e = true.
Proof. by destruct e. Qed.

Fixpoint lvalue_ids_ok (e : Expr) : Prop :=
  match e with
  | EXPR_INDEX lhs _ => lvalue_ids_ok lhs
  | EXPR_RANGE base _ _ => lvalue_ids_ok base
  | EXPR_ID id => slot_ok id
  | _ => True
  end.
Lemma lvalue_ok_ids d k above e : lvalue_ok d k above e -> lvalue_ids_ok e.
Proof.
  enough (H : (forall e k above, lvalue_ok d k above e -> lvalue_ids_ok e) /\ (forall e : Opt_Expr, True) /\
    (forall a : Arg_List, True) /\ (forall s : Scatter, True)) by (apply H).
  apply Expr_mutind; cbn; try done; intros; destruct_and?; eauto.
Qed.

(** The code of [store_lvalue] takes what [push_lvalue] has left, and leaves the value. *)
Lemma store_base_Ok e : forall indexed s0 s c ls W P, is_base e = true -> lvalue_ids_ok e ->
  emits s0 s (S (c + lvalue_size e false)) ls W P -> (forall i, saved_stack s0 = Some i -> i < c) ->
  wp (store_lvalue e indexed) s (fun b t => b = (is_part e || indexed) /\
    emits s0 t (S c) ls W (fun F => P F /\ store_at F e (here s) (here t))).
Proof.
  enough (H : (forall e, forall indexed s0 s c ls W P, is_base e = true -> lvalue_ids_ok e ->
    emits s0 s (S (c + lvalue_size e false)) ls W P -> (forall i, saved_stack s0 = Some i -> i < c) ->
    wp (store_lvalue e indexed) s (fun b t => b = (is_part e || indexed) /\
      emits s0 t (S c) ls W (fun F => P F /\ store_at F e (here s) (here t)))) /\
    (forall e : Opt_Expr, True) /\ (forall a : Arg_List, True) /\ (forall s : Scatter, True)) by (apply H).
  apply Expr_mutind; try done; cbn [is_base lvalue_ids_ok store_lvalue lvalue_size is_part orb]; intros.
  - rename H1 into E. step. apply (wp_var_op _ _ _ E); [done|done|done|]. clear E. intros t E. step. split; [done|].
    rewrite Nat.add_0_r in E. finish E F.
  - destruct kind; try done. rename H3 into E. do 4 step.
    step. split; [done|]. replace (c + (2 + 0) - 1) with (S c) in E by lia. finish E F.
  - rename H3 into E. pose proof (lvalue_size_above lhs H1) as Hs. rewrite Nat.add_0_r in E. do 4 step.
    replace (c + (lvalue_size lhs true + 1) - 1) with (S (c + lvalue_size lhs false)) in E by lia.
    eapply wp_mono; [|eapply H; [done|done|exact E|done]]. cbn beta. intros b u [Hb E']. split; [by destruct (is_part lhs)|].
    finish E' F.
Qed.

Lemma store_lvalue_Ok e s0 s c ls W P : is_lvalue e = true -> lvalue_ids_ok e ->
  emits s0 s (S (c + lvalue_size e false)) ls W P -> (forall i, saved_stack s0 = Some i -> i < c) ->
  wp (store_lvalue e false) s (fun b t => b = is_part e /\
    emits s0 t (S c) ls W (fun F => P F /\ store_at F e (here s) (here t))).
Proof.
  intros Hl Hid E Hs.
  destruct e; try (eapply wp_mono; [|eapply store_base_Ok; [done|done|exact E|done]]; intros b t [Hb ?]; by rewrite orb_false_r in Hb).
  cbn [store_lvalue is_lvalue lvalue_ids_ok lvalue_size is_part] in *. pose proof (lvalue_size_above _ Hl) as Hz.
  do 4 step.
  replace (c + (lvalue_size e1 true + 2) - 2) with (S (c + lvalue_size e1 false)) in E by lia.
  eapply wp_mono; [|eapply store_base_Ok; [done|done|exact E|done]]. cbn beta. intros b u [Hb E'].
  split; [by rewrite Hb, orb_true_r|]. finish E' F.
Qed.

(** *** Scattering *)

(** What is known of the operands before the defaults are generated, *)
Fixpoint scatter_pre (F : State) (sc : Scatter) (p q : nat) : Prop :=
  match sc with
  | Scat_Nil => q = p
  | Scat_Cons kind id expr sc =>
      ref_at F p FIXUP_VAR_REF (Z.to_nat id) /\
      match kind, expr with
      | SCAT_OPTIONAL, No_Expr => pseudo_at F (S p) 1
      | SCAT_OPTIONAL, Some_Expr _ => True
      | _, _ => pseudo_at F (S p) 0
      end /\ scatter_pre F sc (S (S p)) q
  end.

(** and the labels of the defaults. *)
Fixpoint scatter_opens (sc : Scatter) (labels : list (option nat)) (p : nat) (os : list open_label) : Prop :=
  match sc, labels with
  | Scat_Nil, [] => os = []
  | Scat_Cons kind _ expr sc, label :: labels =>
      match kind, expr with
      | SCAT_OPTIONAL, Some_Expr _ => exists o os', os = o :: os' /\ label = Some (o_index o) /\ o_place o = S p /\ o_next o = None /\
          scatter_opens sc labels (S (S p)) os'
      | _, _ => scatter_opens sc labels (S (S p)) os
      end
  | _, _ => False
  end.

Fixpoint scatter_ids_ok (sc : Scatter) : Prop :=
  match sc with Scat_Nil => True | Scat_Cons _ id _ sc => slot_ok id /\ scatter_ids_ok sc end.

Lemma scatter_refs_Ok sc : forall s0 s c ls W P, scatter_ids_ok sc -> emits s0 s c ls W P ->
  wp (scatter_refs sc) s (fun labels t => exists os, scatter_opens sc labels (here s) os /\
    emits s0 t c ls (W ++ os) (fun F => P F /\ scatter_pre F sc (here s) (here t))).
Proof.
  induction sc as [|kind id expr sc IH]; intros s0 s c ls W P; cbn [scatter_ids_ok scatter_refs].
  - intros _ E. step. exists []. split; [done|]. rewrite app_nil_r. finish E F.
  - intros [Hid Hok] E. do 2 step.
    assert (Hrest : forall label t2 W2 P2 (Q : list (option nat) -> State -> Prop), emits s0 t2 c ls W2 P2 ->
      (forall labels u os, scatter_opens sc labels (here t2) os ->
        emits s0 u c ls (W2 ++ os) (fun F => P2 F /\ scatter_pre F sc (here t2) (here u)) -> Q (label :: labels) u) ->
      wp (labels ← scatter_refs sc; mret (label :: labels)) t2 Q).
    { intros label t2 W2 P2 Q E2 HQ. apply wp_bind. eapply wp_mono; [|eapply IH; [done|exact E2]]. cbn beta.
      intros labels u (os & Ho & Eu). step. by eapply HQ. }
    step. destruct kind as [| |]; [|destruct expr as [|e]|]; do 3 step; eapply Hrest; try exact E;
      intros labels u os Ho Eu; cbn [scatter_opens].
    all: try (exists os; split; [by places|finish Eu F]).
    eexists (_ :: os). rewrite (cons_middle _ W os), app_assoc. split; [|finish Eu F].
    eexists _, os. split; [reflexivity|]. split; [done|]. cbn. split; [done|]. split; [done|]. by places.
Qed.

(** *** The induction *)

Definition expr_goal (e : Expr) : Prop := forall d s, expr_ok d (cur_stack s) e -> ready s -> (d = true -> is_Some (saved_stack s)) ->
  makes (generate_expr e) s (S (cur_stack s)) (fun F p q => compiled F e p q (saved_stack s) (cur_stack s)).
Definition args_goal (args : Arg_List) : Prop := forall d s, args_ok d (cur_stack s) args -> ready s -> (d = true -> is_Some (saved_stack s)) ->
  makes (generate_arg_list args) s (S (cur_stack s)) (fun F p q => compiled_args F args p q (saved_stack s) (cur_stack s)).
Definition more_goal (args : Arg_List) : Prop := forall d s k, more_ok d k args -> ready s -> (d = true -> is_Some (saved_stack s)) ->
  cur_stack s = S k -> (forall i, saved_stack s = Some i -> i < k) ->
  makes (generate_more_args args) s (S k) (fun F p q => compiled_more F args p q (saved_stack s) k).
Definition lvalue_goal (e : Expr) : Prop := forall d (above : bool) s, lvalue_ok d (cur_stack s) above e -> (if above then is_base e else is_lvalue e) = true ->
  ready s -> (d = true -> is_Some (saved_stack s)) ->
  makes (push_lvalue e above) s (cur_stack s + lvalue_size e above)
    (fun F p q => compiled_lvalue F e above p q (saved_stack s) (cur_stack s)).

Section sub.
Context {s0 s : State} {c : nat} {ls : list Loop} {W : list open_label} {P : State -> Prop}
  (E : emits s0 s c ls W P) {Q : unit -> State -> Prop} {d : bool} (Hd : d = true -> is_Some (saved_stack s0)).

Lemma wp_expr e : expr_goal e -> expr_ok d c e ->
  (forall t, emits s0 t (S c) ls W (fun F => P F /\ compiled F e (here s) (here t) (saved_stack s0) c) -> Q tt t) ->
  wp (generate_expr e) s Q.
Proof.
  intros IH Hok HQ. pose proof E as [R G Sv C _ _ _ _]. eapply wp_makes; [exact E|apply (IH d); [by rewrite C|done|by rewrite Sv]|].
  rewrite Sv, C. exact HQ.
Qed.

Lemma wp_args args : args_goal args -> args_ok d c args ->
  (forall t, emits s0 t (S c) ls W (fun F => P F /\ compiled_args F args (here s) (here t) (saved_stack s0) c) -> Q tt t) ->
  wp (generate_arg_list args) s Q.
Proof.
  intros IH Hok HQ. pose proof E as [R G Sv C _ _ _ _]. eapply wp_makes; [exact E|apply (IH d); [by rewrite C|done|by rewrite Sv]|].
  rewrite Sv, C. exact HQ.
Qed.

Lemma wp_more args k : c = S k -> (forall i, saved_stack s0 = Some i -> i < k) -> more_goal args -> more_ok d k args ->
  (forall t, emits s0 t (S k) ls W (fun F => P F /\ compiled_more F args (here s) (here t) (saved_stack s0) k) -> Q tt t) ->
  wp (generate_more_args args) s Q.
Proof.
  intros Hc Hk IH Hok HQ. pose proof E as [R G Sv C _ _ _ _].
  eapply wp_makes; [exact E|apply (IH d s k); [done|done|by rewrite Sv|congruence|by rewrite Sv]|].
  rewrite Sv. exact HQ.
Qed.

Lemma wp_lvalue e (above : bool) : lvalue_goal e -> lvalue_ok d c above e -> (if above then is_base e else is_lvalue e) = true ->
  (forall t, emits s0 t (c + lvalue_size e above) ls W
    (fun F => P F /\ compiled_lvalue F e above (here s) (here t) (saved_stack s0) c) -> Q tt t) ->
  wp (push_lvalue e above) s Q.
Proof.
  intros IH Hok Hl HQ. pose proof E as [R G Sv C _ _ _ _]. eapply wp_makes; [exact E|apply (IH d); [by rewrite C|done|done|by rewrite Sv]|].
  rewrite Sv, C. exact HQ.
Qed.

End sub.

Ltac substep :=
  lazymatch goal with
  | E : emits ?s0 ?s _ _ _ _, Hd : ?d = true -> is_Some (saved_stack ?s0), IH : expr_goal ?e |- wp (generate_expr ?e) ?s _ =>
      apply (wp_expr E Hd e IH); [try done|clear E; intros ? E]; cbn beta
  | E : emits ?s0 ?s _ _ _ _, Hd : ?d = true -> is_Some (saved_stack ?s0), IH : args_goal ?e |- wp (generate_arg_list ?e) ?s _ =>
      apply (wp_args E Hd e IH); [try done|clear E; intros ? E]; cbn beta
  | E : emits ?s0 ?s _ _ _ _, Hd : ?d = true -> is_Some (saved_stack ?s0), IH : more_goal ?e |- wp (generate_more_args ?e) ?s _ =>
      eapply (wp_more E Hd e _); [reflexivity|try saved_below|exact IH|try done|clear E; intros ? E]; cbn beta
  | E : emits ?s0 ?s _ _ _ _, Hd : ?d = true -> is_Some (saved_stack ?s0), IH : lvalue_goal ?e |- wp (push_lvalue ?e _) ?s _ =>
      apply (wp_lvalue E Hd e _ IH); [try done|try done|clear E; intros ? E]; cbn beta
  | E : emits ?s0 ?s _ _ _ _ |- wp (emit_binary _) ?s _ => apply (wp_binary _ E); clear E; intros ? E; cbn beta
  | E : emits ?s0 ?s _ _ _ _ |- wp (emit_unary _) ?s _ => apply (wp_unary _ E); clear E; intros ? E; cbn beta
  | E : emits ?s0 ?s _ _ _ _ |- wp (emit_push _) ?s _ => apply (wp_var_op _ _ _ E); [try done|done|done|clear E; intros ? E]; cbn beta
  | E : emits ?s0 ?s _ _ _ _ |- wp (emit_put _) ?s _ => apply (wp_var_op _ _ _ E); [try done|done|done|clear E; intros ? E]; cbn beta
  | _ => step
  end.
Ltac steps := repeat substep.
Ltac begin :=
  let s := fresh "s" in let R := fresh "R" in let E := fresh "E" in let Hok := fresh "Hok" in let Hd := fresh "Hd" in
  intros d s Hok R Hd; apply makes_intro; [exact R|intros E; cbn [generate_expr generate_arg_list compiled compiled_args expr_ok args_ok codes_ok] in *; destruct_and? Hok].

Lemma goal_var v : expr_goal (EXPR_VAR v).
Proof.
  begin.
  assert (Himm : wp (_ ← emit_op OP_IMM; _ ← add_literal v; push_stack 1) s (fun _ t => emits s t (S (cur_stack s)) (loops s) []
    (fun F => op_at F (here s) OP_IMM /\ lit_at F (S (here s)) v /\ cur_stack s < max_stack F /\ here t = S (S (here s))))).
  { clear Hd. steps. finish E F. }
  assert (HI : forall t, emits s t (S (cur_stack s)) (loops s) []
    (fun F => op_at F (here s) OP_IMM /\ lit_at F (S (here s)) v /\ cur_stack s < max_stack F /\ here t = S (S (here s))) ->
    emits s t (S (cur_stack s)) (loops s) [] (fun F => cur_stack s < max_stack F /\
      ((exists n, v = Int n /\ op_at F (here s) (OPTIM_NUM n) /\ here t = S (here s)) \/
       op_at F (here s) OP_IMM /\ lit_at F (S (here s)) v /\ here t = S (S (here s))))).
  { intros t Et. finish Et F. by right. }
  destruct v; try (eapply wp_mono; [|exact Himm]; intros []; apply HI).
  match goal with |- context [IN_OPTIM_NUM_RANGE ?n] => rename n into i end.
  destruct (IN_OPTIM_NUM_RANGE i) eqn:Hr; [|eapply wp_mono; [|exact Himm]; intros []; apply HI].
  clear Himm HI. unfold IN_OPTIM_NUM_RANGE in Hr. steps; [cbn; lia|]. finish E F. left. by exists i.
Qed.

Lemma goal_id id : expr_goal (EXPR_ID id).
Proof. begin. steps. finish E F. Qed.

Lemma goal_binary k lhs rhs : expr_goal lhs -> expr_goal rhs -> expr_goal (Expr_Binary k lhs rhs).
Proof. intros H1 H2. begin. steps. finish E F. eauto 10. Qed.

Lemma goal_unary k e : expr_goal e -> expr_goal (Expr_Unary k e).
Proof. intros H1. begin. steps. finish E F. eauto. Qed.

(** Defining the first open label. *)
Ltac define_open :=
  match goal with
  | E : emits _ ?s _ _ _ _ |- wp (define_label _) ?s _ =>
      eapply (wp_define_one E); [cbn [app]; reflexivity|clear E; intros ? E ?]; cbn beta
  end.

Lemma goal_and lhs rhs : expr_goal lhs -> expr_goal rhs -> expr_goal (EXPR_AND lhs rhs).
Proof. intros H1 H2. begin. steps. define_open. finish E F. eauto 10. Qed.

Lemma goal_or lhs rhs : expr_goal lhs -> expr_goal rhs -> expr_goal (EXPR_OR lhs rhs).
Proof. intros H1 H2. begin. steps. define_open. finish E F. eauto 10. Qed.

Lemma goal_cond c a b : expr_goal c -> expr_goal a -> expr_goal b -> expr_goal (EXPR_COND c a b).
Proof. intros H1 H2 H3. begin. steps. define_open. steps. define_open. finish E F. eauto 20. Qed.

Lemma goal_list args : args_goal args -> expr_goal (EXPR_LIST args).
Proof. intros H1. begin. steps. finish E F. Qed.

Lemma goal_call func args : args_goal args -> expr_goal (EXPR_CALL func args).
Proof. intros H1. begin. steps. finish E F. eauto 10. Qed.

Lemma goal_verb obj verb args : expr_goal obj -> expr_goal verb -> args_goal args -> expr_goal (EXPR_VERB obj verb args).
Proof. intros H1 H2 H3. begin. steps. finish E F. eauto 10. Qed.

Lemma goal_length : expr_goal EXPR_LENGTH.
Proof.
  begin. substep. apply wp_gets. destruct (Hd ltac:(done)) as [i Hi]. rewrite Hi. steps.
  - pose proof (rd_saved _ R _ Hi). pose proof (rd_stack _ R). pose proof (ext_stack _ _ _ (em_ext _ _ _ _ _ _ E)). lia.
  - finish E F. eauto 10.
Qed.

(** Code between saving the place of a value and restoring the old one. *)
Ltac save :=
  match goal with E : emits _ ?s _ _ _ _ |- wp save_stack_top ?s _ =>
    let t := fresh "t" in let E' := fresh "E" in let R := fresh "R" in let Hs := fresh "Hs" in
    let Ht := fresh "Ht" in let Hd := fresh "Hd" in
    eapply (wp_save E); [first [reflexivity|lia]|intros t Ht Hs ? R E'; cbn beta];
    assert (Hd : true = true -> is_Some (saved_stack t)) by (intros _; by eexists)
  end.
Ltac restore :=
  match goal with E : emits _ ?s _ _ _ _, Ht : ?s' = with_saved _ ?s, E' : emits ?s' ?t _ _ _ _ |- wp (restore_stack_top (saved_stack ?s)) ?t _ =>
    match goal with Hs : saved_stack s' = _ |- _ => rewrite Hs in E' end;
    eapply (wp_restore E _ _ _ _ _ Ht E'); [lia|clear E E' Ht; intros ? E ?; cbn beta]
  end.

Lemma goal_index lhs rhs : expr_goal lhs -> expr_goal rhs -> expr_goal (EXPR_INDEX lhs rhs).
Proof. intros H1 H2. begin. steps. save. steps. restore. steps. finish E F. eauto 10. Qed.

Lemma goal_range base from to : expr_goal base -> expr_goal from -> expr_goal to -> expr_goal (EXPR_RANGE base from to).
Proof. intros H1 H2 H3. begin. steps. save. steps. restore. steps. finish E F. eauto 20. Qed.

(** *** Arguments *)

Lemma goal_args_nil : args_goal Arg_Nil.
Proof. begin. steps. finish E F. Qed.

Lemma goal_args_cons kind e args : expr_goal e -> more_goal args -> args_goal (Arg_Cons kind e args).
Proof. intros H1 H2. begin. destruct kind; steps. all: finish E F; eauto 10. Qed.

Lemma goal_more_nil : more_goal Arg_Nil.
Proof.
  intros d s k Hok R Hd Hk Hs. apply makes_intro; [exact R|intros E; cbn [generate_more_args compiled_more more_ok] in *].
  rewrite Hk in E. steps. finish E F.
Qed.

Lemma goal_more_cons kind e args : expr_goal e -> more_goal args -> more_goal (Arg_Cons kind e args).
Proof.
  intros H1 H2 d s k Hok R Hd Hk Hs. apply makes_intro; [exact R|intros E; cbn [generate_more_args compiled_more more_ok] in *].
  destruct_and? Hok. rewrite Hk in E. destruct kind; steps. all: finish E F; eauto 10.
Qed.

(** *** Assignments *)

Ltac begin_lvalue :=
  let s := fresh "s" in let R := fresh "R" in let E := fresh "E" in let Hok := fresh "Hok" in let Hd := fresh "Hd" in
  intros d above s Hok Hl R Hd; apply makes_intro;
  [exact R|intros E; cbn [push_lvalue compiled_lvalue lvalue_ok is_base is_lvalue lvalue_size] in *; destruct_and? Hok];
  destruct above; repeat match goal with
  | H : true = true -> _ <= _ |- _ => specialize (H eq_refl)
  | H : true = true -> _ < _ |- _ => specialize (H eq_refl)
  end; rewrite ?Nat.add_0_r in *; rewrite ?Nat.add_1_r in *.

Lemma lvalue_id id : lvalue_goal (EXPR_ID id).
Proof. begin_lvalue; steps; finish E F. Qed.

Lemma lvalue_prop lhs rhs : expr_goal lhs -> expr_goal rhs -> lvalue_goal (Expr_Binary EXPR_PROP lhs rhs).
Proof.
  intros H1 H2. begin_lvalue.
  - replace (cur_stack s + 3) with (S (S (S (cur_stack s)))) in * by lia. steps. finish E F. by eexists _, _.
  - replace (cur_stack s + 2) with (S (S (cur_stack s))) by lia. steps. finish E F. by eexists _, _.
Qed.

Lemma lvalue_index lhs rhs : lvalue_goal lhs -> expr_goal rhs -> lvalue_goal (EXPR_INDEX lhs rhs).
Proof.
  intros H1 H2. begin_lvalue; pose proof (lvalue_size_above lhs Hl) as Hz;
    assert (Hz' : cur_stack s + lvalue_size lhs true = S (cur_stack s + lvalue_size lhs false)) by lia.
  all: replace (cur_stack s + S (S (lvalue_size lhs true))) with (S (S (cur_stack s + lvalue_size lhs true))) by lia.
  all: replace (cur_stack s + S (lvalue_size lhs true)) with (S (cur_stack s + lvalue_size lhs true)) by lia.
  all: steps; rewrite Hz' in *; rewrite Nat.sub_succ, Nat.sub_0_r; save; steps; restore; steps; finish E F; eexists _, _.
  all: do 2 (split; [done|]). 2: done. split; [lia|]. done.
Qed.

Lemma lvalue_range base from to : lvalue_goal base -> expr_goal from -> expr_goal to -> lvalue_goal (EXPR_RANGE base from to).
Proof.
  intros H1 H2 H3. begin_lvalue; [done|]. pose proof (lvalue_size_above base Hl) as Hz.
  assert (Hz' : cur_stack s + lvalue_size base true = S (cur_stack s + lvalue_size base false)) by lia.
  replace (cur_stack s + (lvalue_size base true + 2)) with (S (S (cur_stack s + lvalue_size base true))) by lia.
  steps. rewrite Hz' in *. rewrite Nat.sub_succ, Nat.sub_0_r. save. steps. restore. finish E F; eexists _, _. done.
Qed.

(** The places of the defaults. *)
Fixpoint scatter_targets (F : State) (sc : Scatter) (targets : list nat) (p : nat) : Prop :=
  match sc, targets with
  | Scat_Nil, [] => True
  | Scat_Cons kind _ expr sc, t :: targets =>
      match kind, expr with SCAT_OPTIONAL, Some_Expr _ => label_at F (S p) t | _, _ => True end /\
      scatter_targets F sc targets (S (S p))
  | _, _ => False
  end.

Lemma scatter_at_join F sc : forall targets p q, scatter_pre F sc p q -> scatter_targets F sc targets p ->
  scatter_at F sc targets p q.
Proof.
  induction sc as [|kind id expr sc IH]; intros [|t targets] p q; cbn; try done. intros (H1 & H2 & H3) (H4 & H5).
  split; [done|]. split; [by destruct kind, expr|]. by apply IH.
Qed.

Definition opt_goal (e : Opt_Expr) : Prop := match e with Some_Expr e => expr_goal e | No_Expr => True end.
Definition scat_goal (sc : Scatter) : Prop := forall d labels os s0 s k ls W P p1, scat_ok d (S k) sc ->
  (d = true -> is_Some (saved_stack s0)) -> (forall i, saved_stack s0 = Some i -> i < S k) ->
  scatter_opens sc labels p1 os -> emits s0 s (S k) ls (os ++ W) P ->
  wp (scatter_defaults sc labels) s (fun _ t => exists targets, emits s0 t (S k) ls W (fun F => P F /\
    scatter_targets F sc targets p1 /\ compiled_defaults F sc targets (here s) (here t) (saved_stack s0) (S k))).

Lemma scat_nil : scat_goal Scat_Nil.
Proof.
  intros d [|] os s0 s k ls W P p1 _ _ _ Ho E; [|done]. cbn in Ho. subst os. cbn [scatter_defaults]. step. exists [].
  cbn [scatter_targets compiled_defaults]. finish E F.
Qed.

Lemma scat_cons kind id e sc : opt_goal e -> scat_goal sc -> scat_goal (Scat_Cons kind id e sc).
Proof.
  intros H1 H2 d [|label labels] os s0 s k ls W P p1 (Hid & He & Hok) Hd Hs Ho E; [done|]. cbn [scatter_defaults].
  assert (Hskip : forall s' P', scatter_opens sc labels (S (S p1)) os -> emits s0 s' (S k) ls (os ++ W) P' ->
    wp (_ ← skip; scatter_defaults sc labels) s' (fun _ t => exists targets, emits s0 t (S k) ls W (fun F => P' F /\
      scatter_targets F sc targets (S (S p1)) /\ compiled_defaults F sc targets (here s') (here t) (saved_stack s0) (S k)))).
  { intros s' P' Ho' E'. steps. by eapply H2. }
  destruct kind; [|destruct e as [|e]|].
  all: try (eapply wp_mono; [|apply Hskip; [exact Ho|exact E]]; cbn beta; intros _ t (targets & E'); exists (0 :: targets);
    cbn [scatter_targets compiled_defaults]; clear E; finish E' F).
  clear Hskip. cbn [scatter_opens] in Ho. destruct Ho as ([L p nxt] & os' & -> & -> & Hp & Hn & Ho). cbn in Hp, Hn. subst p nxt.
  cbn [opt_goal o_index] in *. step. step. define_open. steps. eapply wp_mono; [|eapply H2; [done|exact Hd|exact Hs|exact Ho|exact E]].
  cbn beta. intros _ u (targets & E'). clear E. exists (here s :: targets). cbn [scatter_targets compiled_defaults]. finish E' F.
  eexists _, _. done.
Qed.

Lemma scatter_counts_bound sc : forall a b r n m x, (0 <= b <= a)%Z -> (forall y, r = Some y -> 0 <= y <= a)%Z ->
  (a + Z.of_nat (scat_length sc) < 255)%Z -> scatter_counts sc a b r = (n, m, x) ->
  (0 <= n < 256 /\ 0 <= m < 256 /\ 0 <= x < 256)%Z.
Proof.
  induction sc as [|kind id e sc IH]; intros a b r n m x Hb Hr Hlen; cbn [scatter_counts scat_length] in *.
  - intros [= <- <- <-]. destruct r as [y|]; cbn [default from_option id]; [specialize (Hr y eq_refl)|]; lia.
  - apply IH; [case_decide; lia| |lia]. intros y. case_decide; [intros [= <-]; lia|]. intros Hy%Hr. lia.
Qed.

Lemma scat_ids_ok d k sc : scat_ok d k sc -> scatter_ids_ok sc.
Proof. induction sc; cbn; [done|]. intros (? & _ & ?). auto. Qed.

Lemma goal_asgn_scatter sc rhs : scat_goal sc -> expr_goal rhs -> expr_goal (EXPR_ASGN (EXPR_SCATTER sc) rhs).
Proof.
  intros H1 H2. begin. steps. destruct (scatter_counts sc 0 0 None) as [[nargs nreq] rest] eqn:Hc.
  pose proof (scatter_counts_bound sc 0 0 None nargs nreq rest ltac:(lia) ltac:(done) ltac:(lia) Hc) as (B1 & B2 & B3).
  steps. eapply wp_mono; [|eapply scatter_refs_Ok; [by eapply scat_ids_ok|exact E]]. cbn beta. clear E.
  intros labels u (os & Ho & E). steps. cbn [app] in E.
  eapply wp_mono; [|eapply (H1 d labels os s _ (cur_stack s) _ [_]); [done|exact Hd|intros i Hi; pose proof (rd_saved _ R _ Hi); lia|exact Ho|exact E]].
  cbn beta. clear E. intros [] v (targets & E). define_open. finish E F.
  assert (Hn : forall x, x + 2 = S (S x) /\ x + 3 = S (S (S x)) /\ x + 4 = S (S (S (S x))) /\ x + 5 = S (S (S (S (S x))))) by lia.
  eexists _, _, targets. destruct (Hn (here t)) as (-> & -> & -> & ->).
  split; [done|]. split; [done|]. split; [by apply scatter_at_join|]. done.
Qed.

(** The case of an assignment whose left side is not a scattering. *)
Definition plain_asgn (F : State) (e rhs : Expr) (p q : nat) (saved : option nat) (k : nat) : Prop := exists p1 p2 p3 p4,
  compiled_lvalue F e false p p1 saved k /\ compiled F rhs p1 p2 saved (k + lvalue_size e false) /\
  (if is_part e then op_at F p2 OP_PUT_TEMP /\ p3 = S p2 else p3 = p2) /\
  store_at F e p3 p4 /\
  (if is_part e then op_at F p4 OP_POP /\ op_at F (S p4) OP_PUSH_TEMP /\ q = S (S p4) else q = p4).

Lemma plain_asgn_cases e rhs : is_lvalue e = true ->
  (forall F p q saved k, compiled F (EXPR_ASGN e rhs) p q saved k = plain_asgn F e rhs p q saved k) /\
  (forall d k, expr_ok d k (EXPR_ASGN e rhs) -> lvalue_ok d k false e /\ expr_ok d (k + lvalue_size e false) rhs) /\
  generate_expr (EXPR_ASGN e rhs) =
    (_ ← push_lvalue e false; _ ← generate_expr rhs; _ ← (if is_part e then emit_op OP_PUT_TEMP else skip);
     is_indexed ← store_lvalue e false;
     if (is_indexed : bool) then _ ← emit_op OP_POP; emit_op OP_PUSH_TEMP else skip).
Proof. destruct e; try done; (split; [done|split; [by intros d k (_ & ? & ?)|done]]). Qed.

Lemma goal_asgn e rhs : is_lvalue e = true -> lvalue_goal e -> expr_goal rhs -> expr_goal (EXPR_ASGN e rhs).
Proof.
  intros Hl H1 H2 d s Hok R Hd. destruct (plain_asgn_cases e rhs Hl) as (Hc & Ho & Hg). destruct (Ho d _ Hok) as [Hok1 Hok2].
  apply makes_intro; [exact R|]. intros E. rewrite Hg. steps.
  assert (Hrest : forall s1 P1 (Q : unit -> State -> Prop), emits s s1 (S (cur_stack s + lvalue_size e false)) (loops s) [] P1 ->
    (forall t, emits s t (S (cur_stack s)) (loops s) [] (fun F => P1 F /\ exists p4, store_at F e (here s1) p4 /\
       (if is_part e then op_at F p4 OP_POP /\ op_at F (S p4) OP_PUSH_TEMP /\ here t = S (S p4) else here t = p4)) -> Q tt t) ->
    wp (is_indexed ← store_lvalue e false; if (is_indexed : bool) then _ ← emit_op OP_POP; emit_op OP_PUSH_TEMP else skip) s1 Q).
  { clear E. intros s1 P1 Q E HQ. apply wp_bind. eapply wp_mono; [|eapply store_lvalue_Ok; [exact Hl|by eapply lvalue_ok_ids|exact E|apply R]].
    cbn beta. clear E. intros b u [-> E]. destruct (is_part e); steps; apply HQ; finish E F; eexists; done. }
  destruct (is_part e) eqn:Hp; step; (eapply Hrest; [exact E|]); clear E; intros u E; finish E F.
  all: rewrite Hc; unfold plain_asgn; rewrite Hp; match goal with H : exists _, _ |- _ => destruct H as (p4 & H) end;
    eexists _, _, _, p4; do 2 (split; [done|]); eauto.
Qed.

(** The codes that a handler catches. *)
Definition codes_at (F : State) (codes : Arg_List) (p q : nat) (saved : option nat) (k : nat) : Prop :=
  match codes with
  | Arg_Nil => k < max_stack F /\ op_at F p (OPTIM_NUM 0) /\ q = S p
  | _ => compiled_args F codes p q saved k
  end.

Lemma codes_Ok codes d s : args_goal codes -> codes_ok d (cur_stack s) codes -> ready s -> (d = true -> is_Some (saved_stack s)) ->
  makes (generate_codes codes) s (S (cur_stack s)) (fun F p q => codes_at F codes p q (saved_stack s) (cur_stack s)).
Proof.
  intros H1 Hok R Hd. apply makes_intro; [exact R|]. intros E. unfold codes_at, generate_codes.
  destruct codes; cbn [codes_ok] in Hok; [steps; finish E F|].
  assert (Hok' : args_ok d (cur_stack s) (Arg_Cons kind expr codes)) by exact Hok. steps. finish E F.
Qed.

Lemma goal_catch e codes except : expr_goal e -> args_goal codes -> opt_goal except -> expr_goal (EXPR_CATCH e codes except).
Proof.
  intros H1 H2 H3. begin. replace (cur_stack s + 3) with (S (S (S (cur_stack s)))) in * by lia. step.
  eapply (wp_makes E (codes_Ok codes d s H2 ltac:(done) R Hd)). clear E. intros t E. steps. define_open.
  assert (Hn : forall x, x + 1 = S x /\ x + 2 = S (S x) /\ x + 3 = S (S (S x)) /\ x + 4 = S (S (S (S x))) /\ x + 5 = S (S (S (S (S x)))))
    by lia.
  destruct except as [|e']; cbn [opt_goal] in H3; steps; define_open; finish E F.
  all: exists (here t), (here t5); destruct (Hn (here t)) as (_ & -> & -> & _ & ->), (Hn (here t5)) as (_ & -> & -> & -> & Hn5); rewrite ?Hn5.
  all: repeat (split; [done|]); done.
Qed.

(** ** Every expression *)

Lemma expr_goals :
  (forall e, expr_goal e /\ (is_lvalue e = true -> lvalue_goal e) /\ match e with EXPR_SCATTER sc => scat_goal sc | _ => True end) /\
  (forall e, opt_goal e) /\ (forall args, args_goal args /\ more_goal args) /\ (forall sc, scat_goal sc).
Proof.
  apply Expr_mutind.
  - intros v. split; [apply goal_var|done].
  - intros i. split; [apply goal_id|split; [intros _; apply lvalue_id|done]].
  - intros k lhs [H1 _] rhs [H2 _]. split; [by apply goal_binary|]. split; [|done]. destruct k; try done. intros _. by apply lvalue_prop.
  - intros k e [H1 _]. split; [by apply goal_unary|done].
  - intros lhs [H1 _] rhs [H2 _]. split; [by apply goal_and|done].
  - intros lhs [H1 _] rhs [H2 _]. split; [by apply goal_or|done].
  - intros lhs (H1 & L1 & _) rhs [H2 _]. split; [by apply goal_index|]. split; [|done]. intros Hl. apply lvalue_index; [|done].
    by apply L1, is_base_lvalue.
  - intros base (H1 & L1 & _) from [H2 _] to [H3 _]. split; [by apply goal_range|]. split; [|done]. intros Hl.
    apply lvalue_range; [|done|done]. by apply L1, is_base_lvalue.
  - split; [apply goal_length|done].
  - intros args [H1 _]. split; [by apply goal_list|done].
  - intros f args [H1 _]. split; [by apply goal_call|done].
  - intros obj [H1 _] verb [H2 _] args [H3 _]. split; [by apply goal_verb|done].
  - intros c [H1 _] a [H2 _] b [H3 _]. split; [by apply goal_cond|done].
  - intros lhs (H1 & L1 & S1) rhs [H2 _]. split; [|done]. destruct (is_lvalue lhs) eqn:Hl; [by apply goal_asgn; [|apply L1|]|].
    destruct lhs; try (intros d s [Hl' _]; congruence). by apply goal_asgn_scatter.
  - intros sc H1. split; [by intros d s []|done].
  - intros e [H1 _] codes [H2 _] except H3. split; [by apply goal_catch|done].
  - done.
  - by intros e [H1 _].
  - split; [apply goal_args_nil|apply goal_more_nil].
  - intros k e [H1 _] args [H2 H3]. split; [by apply goal_args_cons|by apply goal_more_cons].
  - apply scat_nil.
  - intros k i e H1 sc H2. by apply scat_cons.
Qed.

Lemma generate_expr_Ok e : expr_goal e.
Proof. apply expr_goals. Qed.
