(* ===== verification/CodeLink.v ===== *)
(** * The final vector of the code generator (src/code_gen.c)

    [stmt_to_code] copies the bytes, and every fixup becomes a reference of the size chosen
    for its kind.  Byte [p] moves to [pos p]; here is where everything is in the vector, and
    that references can be read back from it. *)

From S2P Require Import Prelude CStrings Values Ast CodeGen CodeShape.

Open Scope nat_scope.

(** ** Places *)

Section link.
Context (bc : Bytecodes).

Definition extra (f : Fixup) : nat := fixup_size bc (f_kind f) - 1.
Definition extras (fs : list Fixup) : nat := sum_list (extra <$> fs).
(** Where the byte at [p] goes. *)
Definition pos (fs : list Fixup) (p : nat) : nat := p + extras (filter (fun f => f_pc f < p) fs).

Definition good_size (n : nat) : Prop := n = 1 \/ n = 2 \/ n = 4.
Context (Hsizes : forall k, good_size (fixup_size bc k)).

Lemma length_put_value size v : good_size size -> length (put_value size v) = size.
Proof. by intros [-> | [-> | ->]]. Qed.

(** Fixups in order, from place [n] on. *)
Fixpoint in_order (n : nat) (fs : list Fixup) : Prop :=
  match fs with [] => True | f :: fs => n <= f_pc f /\ in_order (S (f_pc f)) fs end.

Lemma in_order_le n fs f : in_order n fs -> f ∈ fs -> n <= f_pc f.
Proof.
  revert n. induction fs as [|g fs IH]; intros n; [by intros _ ?%elem_of_nil|]. intros [Hn Ho] [->|Hf]%elem_of_cons; [done|].
  specialize (IH _ Ho Hf). lia.
Qed.

Lemma in_order_mono m n fs : m <= n -> in_order n fs -> in_order m fs.
Proof. destruct fs; [done|]. intros H [? ?]. split; [lia|done]. Qed.

Lemma sorted_in_order fs : (forall i j f g, i < j -> fs !! i = Some f -> fs !! j = Some g -> f_pc f < f_pc g) ->
  forall n, (forall f, f ∈ fs -> n <= f_pc f) -> in_order n fs.
Proof.
  induction fs as [|f fs IH]; intros Hs n Hn; [done|]. split; [apply Hn; by left|]. apply IH.
  - intros i j g h Hij Hg Hh. by apply (Hs (S i) (S j)); [lia| |].
  - intros g [i Hi]%list_elem_of_lookup_1. by apply (Hs 0 (S i)); [lia| |].
Qed.

Lemma Inv_in_order s : Inv s -> in_order 0 (fixups s).
Proof. intros Hi. apply sorted_in_order; [apply Hi|]. intros. lia. Qed.

(** The extra bytes of the fixups before [p], when counting starts at [n]. *)
Lemma filter_before fs n p : in_order n fs -> p <= n -> filter (fun f => f_pc f < p) fs = [].
Proof. intros Ho Hp. apply filter_none, Forall_forall. intros f Hf. pose proof (in_order_le _ _ _ Ho Hf). lia. Qed.

(** What the byte [b] at [p] becomes. *)
Definition chunk (fs : list Fixup) (p : nat) (b : Z) : list Z :=
  match filter (fun f => f_pc f = p) fs with
  | [] => [b]
  | f :: _ => put_value (fixup_size bc (f_kind f)) (fixup_value bc f)
  end.

Lemma extras_cons f fs : extras (f :: fs) = extra f + extras fs.
Proof. done. Qed.

Lemma length_fixup f : length (put_value (fixup_size bc (f_kind f)) (fixup_value bc f)) = S (extra f).
Proof. rewrite length_put_value by done. unfold extra. destruct (Hsizes (f_kind f)) as [-> | [-> | ->]]; done. Qed.

Lemma length_link bs : forall fs n, in_order n fs -> (forall f, f ∈ fs -> f_pc f < n + length bs) ->
  length (link bc fs n bs) = length bs + extras fs.
Proof.
  induction bs as [|b bs IH]; intros fs n Ho Hlt; cbn [link length] in *.
  - destruct fs as [|f fs]; [done|]. pose proof (Hlt f ltac:(left)). destruct Ho. lia.
  - destruct fs as [|f fs].
    + cbn [length]. rewrite IH; [done|done|]. by intros f ?%elem_of_nil.
    + destruct Ho as [Hn Ho]. case_decide as Hd.
      * rewrite length_app, length_fixup, extras_cons, IH; [lia|by rewrite <- Hd|]. intros g Hg. specialize (Hlt g ltac:(by right)). lia.
      * cbn [length]. rewrite IH; [lia|split; [lia|done]|]. intros g Hg. specialize (Hlt g Hg). lia.
Qed.

Lemma link_chunk bs : forall fs n p b, in_order n fs -> n <= p -> bs !! (p - n) = Some b ->
  let off := p - n + extras (filter (fun f => f_pc f < p) fs) in
  take (length (chunk fs p b)) (drop off (link bc fs n bs)) = chunk fs p b.
Proof.
  induction bs as [|b0 bs IH]; intros fs n p b Ho Hp Hb; [done|]. cbn zeta.
  assert (Hnil : forall fs', in_order n fs' -> p = n -> extras (filter (fun f => f_pc f < p) fs') = 0)
    by (intros fs' Ho' ->; by rewrite (filter_before fs' n n)).
  assert (Hskip : forall fs', in_order (S n) fs' -> link bc fs' n (b0 :: bs) = b0 :: link bc fs' (S n) bs).
  { intros [|f fs'] Ho'; [done|]. cbn [link]. destruct Ho'. by rewrite decide_False by lia. }
  assert (Hlater : n < p -> forall fs', in_order (S n) fs' -> take (length (chunk fs' p b))
    (drop (p - S n + extras (filter (fun f => f_pc f < p) fs')) (link bc fs' (S n) bs)) = chunk fs' p b).
  { intros Hlt fs' Ho'. apply IH; [done|lia|]. by replace (p - n) with (S (p - S n)) in Hb by lia. }
  assert (Hc : (exists f fs', fs = f :: fs' /\ f_pc f = n) \/ in_order (S n) fs).
  { destruct fs as [|f fs]; [by right|]. destruct Ho as [Hn Ho]. destruct (decide (f_pc f = n)); [left; by eexists _, _|right].
    split; [lia|done]. }
  destruct Hc as [(f & fs' & -> & Hf)|Ho'].
  - destruct Ho as [_ Ho]. rewrite Hf in Ho. cbn [link]. rewrite decide_True by done. destruct (decide (p = n)) as [->|Hne].
    + rewrite Hnil, Nat.sub_diag by (split; [lia|by rewrite Hf] || done). cbn [drop Nat.add].
      unfold chunk. rewrite filter_cons_True by done. by rewrite drop_0, take_app_length.
    + unfold chunk. rewrite filter_cons_False, filter_cons_True, extras_cons by lia. fold (chunk fs' p b).
      rewrite drop_app_ge, length_fixup by (rewrite length_fixup; lia).
      replace (p - n + _ - _) with (p - S n + extras (filter (fun f => f_pc f < p) fs')) by lia. apply Hlater; [lia|done].
  - rewrite Hskip by done. destruct (decide (p = n)) as [->|Hne].
    + rewrite Hnil, Nat.sub_diag by done. rewrite Nat.sub_diag in Hb. injection Hb as ->. unfold chunk.
      rewrite filter_none; [done|]. apply Forall_forall. intros f Hf. pose proof (in_order_le _ _ _ Ho' Hf). lia.
    + replace (p - n + extras (filter (fun f => f_pc f < p) fs)) with (S (p - S n + extras (filter (fun f => f_pc f < p) fs))) by lia.
      cbn [drop]. apply Hlater; [lia|done].
Qed.

End link.

(** ** The vector of a finished state *)

Lemma kind_count_cons k f fs : kind_count k (f :: fs) = (if decide (f_kind f = k) then 1 else 0) + kind_count k fs.
Proof. unfold kind_count. rewrite filter_cons. by case_decide. Qed.

Lemma extras_kinds bc fs : extras bc fs =
  kind_count FIXUP_LITERAL fs * (numbytes_literal bc - 1) + kind_count FIXUP_FORK fs * (numbytes_fork bc - 1) +
  kind_count FIXUP_VAR_REF fs * (numbytes_var_name bc - 1) + kind_count FIXUP_LABEL fs * (numbytes_label bc - 1) +
  kind_count FIXUP_STACK fs * (numbytes_stack bc - 1).
Proof.
  induction fs as [|f fs IH]; [done|]. rewrite extras_cons, IH. unfold extra. rewrite !kind_count_cons.
  destruct (f_kind f); repeat case_decide; try congruence; cbn [fixup_size]; lia.
Qed.

(** A label is moved to where its target goes. *)
Lemma moved_label_pos bc s p : numbytes_stack bc = 1 -> moved_label bc p (counts_at s p) = pos bc (fixups s) p.
Proof.
  intros Hs. unfold moved_label, pos. rewrite extras_kinds. unfold counts_at, counts_of.
  cbn [n_literals n_forks n_var_refs n_labels n_stacks]. rewrite Hs. lia.
Qed.

Lemma moved_pseudo bc v : moved_label bc v no_counts = v.
Proof. unfold moved_label, no_counts. cbn. lia. Qed.

Lemma pos_mono bc fs p q : p <= q -> pos bc fs p <= pos bc fs q.
Proof.
  intros H. unfold pos. enough (extras bc (filter (fun f => f_pc f < p) fs) <= extras bc (filter (fun f => f_pc f < q) fs)) by lia.
  induction fs as [|f fs IH]; [done|]. rewrite !filter_cons. repeat case_decide; rewrite ?extras_cons; lia.
Qed.

Lemma pos_lt_pos bc fs p q : p < q -> pos bc fs p < pos bc fs q.
Proof. intros H. pose proof (pos_mono bc fs (S p) q H). enough (pos bc fs p < pos bc fs (S p)) by lia.
  unfold pos. enough (extras bc (filter (fun f => f_pc f < p) fs) <= extras bc (filter (fun f => f_pc f < S p) fs)) by lia.
  clear. induction fs as [|f fs IH]; [done|]. rewrite !filter_cons. repeat case_decide; rewrite ?extras_cons; lia.
Qed.

(** Byte [p] itself. *)
Lemma extras_step bc fs p : extras bc (filter (fun f => f_pc f < S p) fs) =
  extras bc (filter (fun f => f_pc f < p) fs) + extras bc (filter (fun f => f_pc f = p) fs).
Proof. induction fs as [|f fs IH]; [done|]. rewrite !filter_cons. repeat case_decide; rewrite ?extras_cons; lia. Qed.

Lemma filter_here fs n f : in_order n fs -> f ∈ fs -> filter (fun g => f_pc g = f_pc f) fs = [f].
Proof.
  revert n. induction fs as [|g fs IH]; intros n; [by intros _ ?%elem_of_nil|]. intros [Hn Ho] Hf. rewrite filter_cons.
  assert (Hlater : forall h, h ∈ fs -> f_pc g < f_pc h) by (intros h Hh; apply (in_order_le _ _ _ Ho) in Hh; lia).
  apply elem_of_cons in Hf as [->|Hf].
  - rewrite decide_True by done. rewrite filter_none; [done|]. apply Forall_forall. intros h Hh%Hlater. lia.
  - rewrite decide_False by (pose proof (Hlater f Hf); lia). by apply (IH _ Ho).
Qed.

(** The values that fit in a reference. *)
Definition fits (size n : nat) : Prop := (Z.of_nat n < 256 ^ Z.of_nat size)%Z.

Lemma pow_size1 : (256 ^ Z.of_nat 1 = 256)%Z.
Proof. done. Qed.
Lemma pow_size2 : (256 ^ Z.of_nat 2 = 65536)%Z.
Proof. done. Qed.
Lemma pow_size4 : (256 ^ Z.of_nat 4 = 2 ^ 32)%Z.
Proof. done. Qed.

Lemma good_ref_size (n : nat) : good_size (ref_size n).
Proof. unfold ref_size, good_size. repeat case_decide; auto. Qed.

Lemma layout_sizes s k : good_size (fixup_size (layout s) k).
Proof.
  destruct k; cbn [fixup_size layout numbytes_literal numbytes_fork numbytes_var_name numbytes_label numbytes_stack];
    try apply good_ref_size. unfold label_size, good_size. repeat case_decide; auto.
Qed.

Lemma ref_size_fits m n : n < m -> (Z.of_nat m <= 2 ^ 32)%Z -> fits (ref_size m) n.
Proof. intros H Hm. unfold ref_size, fits. repeat case_decide; cbn; lia. Qed.

(** A state that ends well; *)
Record finished (s : State) : Prop := {
  fin_inv : Inv s;
  fin_cur : cur_stack s = 0;
  fin_saved : saved_stack s = None;
  fin_stack : max_stack s < 256 }.

(** and one whose references can be read back.  The bound on variables leaves out the numbers
    for which [ref_size] chooses too few bytes (see [CodeLimits.variable_256_is_lost]). *)
Record small (s : State) : Prop := {
  small_vars : max_var_ref s <> 256 /\ (Z.of_nat (max_var_ref s) <> 65536 /\ Z.of_nat (max_var_ref s) < 2 ^ 32)%Z;
  small_total : (Z.of_nat (total_var_refs (gstate s)) < 2 ^ 32)%Z;
  small_lits : (Z.of_nat (length (literals (gstate s))) < 2 ^ 32)%Z /\ (Z.of_nat (max_literal s) < 2 ^ 32)%Z;
  small_forks : (Z.of_nat (length (fork_vectors (gstate s))) < 2 ^ 32)%Z /\ (Z.of_nat (max_fork s) < 2 ^ 32)%Z;
  small_size : (Z.of_nat (bc_size (layout s)) < 2 ^ 32)%Z }.

Section finished.
Context (s : State) (Hs : finished s).
Notation bc := (layout s).
Notation at_ p := (pos bc (fixups s) p).
Definition the_vector : list Z := link bc (fixups s) 0 (bytes s).

Lemma stack_size : numbytes_stack bc = 1.
Proof. cbn. unfold ref_size. rewrite decide_True; [done|]. pose proof (fin_stack s Hs). lia. Qed.

Lemma size_pos : bc_size bc = at_ (here s).
Proof.
  pose proof stack_size as Hst. unfold pos. rewrite filter_all.
  2: { apply Forall_lookup. intros i f. apply (inv_pc s (fin_inv s Hs)). }
  rewrite extras_kinds, Hst.
  cbn [layout bc_size numbytes_literal numbytes_fork numbytes_var_name numbytes_label]. rewrite (inv_nums s (fin_inv s Hs)).
  unfold counts_of. cbn [n_literals n_forks n_var_refs n_labels n_stacks]. lia.
Qed.

Lemma length_vector : length the_vector = bc_size bc.
Proof.
  rewrite size_pos. unfold the_vector, pos. rewrite length_link; [|apply layout_sizes|by apply Inv_in_order, Hs|].
  - rewrite filter_all; [done|]. apply Forall_lookup. intros i f. apply (inv_pc s (fin_inv s Hs)).
  - intros f [i Hi]%list_elem_of_lookup_1. by apply (inv_pc s (fin_inv s Hs) i).
Qed.

Lemma finish_code_Ok : finish_code s = Ok (with_vector the_vector bc, gstate s).
Proof.
  unfold finish_code. rewrite bool_decide_eq_true_2 by apply Hs. cbn [negb].
  rewrite bool_decide_eq_false_2 by (rewrite (fin_saved s Hs); by intros [? ?]). fold the_vector.
  rewrite decide_False; [done|]. rewrite length_vector. lia.
Qed.

(** *** Reading *)

(** [size] bytes at [q] that hold [n]. *)
Definition field (v : list Z) (q size n : nat) : Prop :=
  good_size size /\ take size (drop q v) = put_value size n /\ fits size n.

Lemma chunk_at p b : bytes s !! p = Some b -> let c := chunk bc (fixups s) p b in take (length c) (drop (at_ p) the_vector) = c.
Proof.
  intros Hb. pose proof (link_chunk bc (layout_sizes s) (bytes s) (fixups s) 0 p b (Inv_in_order s (fin_inv s Hs))) as H.
  rewrite Nat.sub_0_r in H. apply H; [lia|done].
Qed.

Lemma vector_byte p b : byte_at s p b -> the_vector !! at_ p = Some b /\ at_ (S p) = S (at_ p).
Proof.
  intros [Hb Hf]. assert (Hnil : filter (fun f => f_pc f = p) (fixups s) = []).
  { apply filter_none, Forall_lookup. exact Hf. }
  split; [|unfold pos; rewrite extras_step, Hnil; cbn; lia].
  pose proof (chunk_at p b Hb) as H. unfold chunk in H. rewrite Hnil in H. cbn in H.
  rewrite <- (Nat.add_0_r (at_ p)), <- lookup_drop. destruct (drop (at_ p) the_vector); by simplify_eq/=.
Qed.

Lemma vector_fixup i f : fixups s !! i = Some f ->
  take (fixup_size bc (f_kind f)) (drop (at_ (f_pc f)) the_vector) = put_value (fixup_size bc (f_kind f)) (fixup_value bc f) /\
  at_ (S (f_pc f)) = at_ (f_pc f) + fixup_size bc (f_kind f).
Proof.
  intros Hf. pose proof (filter_here (fixups s) 0 f (Inv_in_order s (fin_inv s Hs)) (list_elem_of_lookup_2 _ _ _ Hf)) as Hone.
  split.
  - destruct (lookup_lt_is_Some_2 (bytes s) (f_pc f)) as [b Hb]; [by apply (inv_pc s (fin_inv s Hs) i)|].
    pose proof (chunk_at _ b Hb) as H. unfold chunk in H. rewrite Hone in H. cbn zeta in H.
    rewrite length_put_value in H by apply layout_sizes. exact H.
  - unfold pos. rewrite extras_step, Hone. rewrite extras_cons. unfold extra. cbn [extras fmap list_fmap sum_list foldr].
    pose proof (layout_sizes s (f_kind f)) as Hz. unfold good_size, extras in *. cbn. lia.
Qed.

Context (Hsm : small s).

Lemma label_fits p : p < here s -> fits (numbytes_label bc) (at_ p).
Proof.
  intros Hp. pose proof (pos_lt_pos bc (fixups s) p (here s) Hp) as Hlt. rewrite <- size_pos in Hlt. pose proof (small_size s Hsm) as Hz.
  revert Hlt Hz. unfold fits. cbn [layout bc_size numbytes_label]. unfold label_size. repeat case_decide; cbn [Nat.sub Nat.mul]; intros; cbn; lia.
Qed.

Lemma vector_ref p k v : k <> FIXUP_LABEL -> ref_at s p k v ->
  field the_vector (at_ p) (fixup_size bc k) v /\ at_ (S p) = at_ p + fixup_size bc k.
Proof.
  intros Hk (i & f & Hf & <- & <- & <-). destruct (vector_fixup i f Hf) as [H1 H2]. split; [|done].
  split; [apply layout_sizes|]. unfold fixup_value in H1. pose proof (inv_refs s (fin_inv s Hs)) as Hr.
  rewrite Forall_lookup in Hr. specialize (Hr i f Hf). unfold ref_ok in Hr. pose proof stack_size as Hst.
  pose proof (fin_stack s Hs) as F1. destruct Hsm as [F2 F3 F4 F5 _]. split; [by destruct (f_kind f)|].
  destruct (f_kind f); cbn [fixup_size layout numbytes_literal numbytes_fork numbytes_var_name]; try done.
  - apply ref_size_fits; lia.
  - apply ref_size_fits; lia.
  - destruct (decide (f_value f < Nat.max (max_var_ref s) (total_var_refs (gstate s)))) as [|Hge]; [apply ref_size_fits; lia|].
    unfold fits, ref_size. repeat case_decide; rewrite ?pow_size1, ?pow_size2, ?pow_size4; lia.
  - unfold fits. rewrite Hst. cbn. lia.
Qed.

Lemma vector_label p t : t < here s -> label_at s p t ->
  field the_vector (at_ p) (numbytes_label bc) (at_ t) /\ at_ (S p) = at_ p + numbytes_label bc.
Proof.
  intros Ht (i & f & Hf & <- & Hk & <- & Hp & _). destruct (vector_fixup i f Hf) as [H1 H2]. unfold fixup_value in H1.
  rewrite Hk in *. split; [|done]. split; [apply (layout_sizes s FIXUP_LABEL)|]. split; [|by apply label_fits].
  rewrite Hp, moved_label_pos in H1 by apply stack_size. exact H1.
Qed.

Lemma vector_pseudo p n : n < 256 -> pseudo_at s p n ->
  field the_vector (at_ p) (numbytes_label bc) n /\ at_ (S p) = at_ p + numbytes_label bc.
Proof.
  intros Hn (i & f & Hf & <- & Hk & <- & Hp). destruct (vector_fixup i f Hf) as [H1 H2]. unfold fixup_value in H1.
  rewrite Hk in *. split; [|done]. split; [apply (layout_sizes s FIXUP_LABEL)|]. rewrite Hp, moved_pseudo in H1. split; [exact H1|].
  destruct (layout_sizes s FIXUP_LABEL) as [E|[E|E]]; cbn [fixup_size] in E; rewrite E; unfold fits; cbn; lia.
Qed.

End finished.
