(* ===== verification/CodeStmt.v ===== *)
(** * The code of statements (src/code_gen.c)

    [compiled_stmt F st p q k ds]: the code from [p] to [q] is that of [st], where [k] values
    are on the stack and [ds] are the loops around, the innermost first. *)

From S2P Require Import Prelude CStrings Values Ast CodeGen CodeShape CodeExpr CodeLink.

Open Scope nat_scope.

(** ** What the parser accepts *)

Fixpoint exc_length (excepts : Except_Arm) : nat := match excepts with Exc_Nil => 0 | Exc_Cons _ _ _ excepts => S (exc_length excepts) end.

Fixpoint handlers_ok (k : nat) (excepts : Except_Arm) : Prop :=
  match excepts with
  | Exc_Nil => True
  | Exc_Cons _ codes _ excepts => codes_ok false k codes /\ k + 2 <= STACK_LIMIT /\ handlers_ok (k + 2) excepts
  end.

(** [ids]: the loops around; -1 for one without a name. *)
Fixpoint stmt_ok (ids : list Z) (k : nat) (st : Stmt) : Prop :=
  match st with
  | Stmt_Nil => True
  | STMT_COND arms otherwise next => arms_ok ids k arms /\ stmt_ok ids k otherwise /\ stmt_ok ids k next
  | STMT_LIST id e body next => slot_ok id /\ expr_ok false k e /\ stmt_ok (id :: ids) (k + 2) body /\ k + 2 <= STACK_LIMIT /\ stmt_ok ids k next
  | STMT_RANGE id from to body next =>
      slot_ok id /\ expr_ok false k from /\ expr_ok false (S k) to /\ stmt_ok (id :: ids) (k + 2) body /\ stmt_ok ids k next
  | STMT_WHILE id c body next => (id = -1 \/ slot_ok id)%Z /\ expr_ok false k c /\ stmt_ok (id :: ids) k body /\ stmt_ok ids k next
  | STMT_FORK id time body next => ((id < 0)%Z \/ slot_ok id) /\ expr_ok false k time /\ stmt_ok [] 0 body /\ stmt_ok ids k next
  | STMT_EXPR e next => expr_ok false k e /\ stmt_ok ids k next
  | STMT_RETURN e next => match e with Some_Expr e => expr_ok false k e | No_Expr => True end /\ stmt_ok ids k next
  | STMT_TRY_EXCEPT body excepts next => exc_length excepts < 256 /\ handlers_ok k excepts /\
      k + 2 * exc_length excepts + 1 <= STACK_LIMIT /\ stmt_ok ids (k + 2 * exc_length excepts + 1) body /\
      excepts_ok ids k excepts /\ stmt_ok ids k next
  | STMT_TRY_FINALLY body handler next =>
      k + 2 <= STACK_LIMIT /\ stmt_ok ids (k + 1) body /\ stmt_ok ids (k + 2) handler /\ stmt_ok ids k next
  | STMT_BREAK exit next | STMT_CONTINUE exit next =>
      (if decide (exit = -1)%Z then ids <> [] else exit ∈ ids /\ slot_ok exit) /\ stmt_ok ids k next
  end
with arms_ok (ids : list Z) (k : nat) (arms : Cond_Arm) : Prop :=
  match arms with Arm_Nil => True | Arm_Cons c st arms => expr_ok false k c /\ stmt_ok ids k st /\ arms_ok ids k arms end
with excepts_ok (ids : list Z) (k : nat) (excepts : Except_Arm) : Prop :=
  match excepts with
  | Exc_Nil => True
  | Exc_Cons id _ st excepts => ((id < 0)%Z \/ slot_ok id) /\ stmt_ok ids k st /\ excepts_ok ids k excepts
  end.

(** ** Compiled code *)

(** A loop: its name, where it begins and ends, and the values on the stack there. *)
Record loop_place := mkLoop_place { lp_id : Z; lp_top : nat; lp_top_stack : nat; lp_bottom : nat; lp_bottom_stack : nat }.

Definition find_place (id : Z) (ds : list loop_place) : option loop_place :=
  if decide (id = -1)%Z then head ds else snd <$> list_find (fun d => lp_id d = id) ds.

Definition exit_at (F : State) (continue : bool) (exit : Z) (p q : nat) (ds : list loop_place) : Prop := exists p1 d,
  (if decide (exit = -1)%Z then eop_at F p EOP_EXIT /\ p1 = p + 2
   else eop_at F p EOP_EXIT_ID /\ ref_at F (p + 2) FIXUP_VAR_REF (Z.to_nat exit) /\ p1 = p + 3) /\
  find_place exit ds = Some d /\
  ref_at F p1 FIXUP_STACK (if continue then lp_top_stack d else lp_bottom_stack d) /\
  label_at F (p1 + 1) (if continue then lp_top d else lp_bottom d) /\ q = p1 + 2.

Definition store_id_at (F : State) (id : Z) (p q : nat) : Prop :=
  if (0 <=? id)%Z then var_op_at F OP_PUT OP_G_PUT id p q else q = p.

(** The handlers on the stack, [targets] being the places of the [except] parts. *)
Fixpoint handlers_at (F : State) (excepts : Except_Arm) (targets : list nat) (p q k : nat) : Prop :=
  match excepts, targets with
  | Exc_Nil, [] => q = p
  | Exc_Cons _ codes _ excepts, t :: targets => exists p1, codes_at F codes p p1 None k /\ eop_at F p1 EOP_PUSH_LABEL /\
      label_at F (p1 + 2) t /\ k + 2 <= max_stack F /\ handlers_at F excepts targets (p1 + 3) q (k + 2)
  | _, _ => False
  end.

Fixpoint compiled_stmt (F : State) (st : Stmt) (p q k : nat) (ds : list loop_place) : Prop :=
  match st with
  | Stmt_Nil => q = p
  | STMT_COND arms otherwise next => exists p1 p2,
      compiled_arms F OP_IF arms p p1 p2 k ds /\ compiled_stmt F otherwise p1 p2 k ds /\ compiled_stmt F next p2 q k ds
  | STMT_LIST id e body next => exists p1 p2,
      compiled F e p p1 None k /\ op_at F p1 (OPTIM_NUM 1) /\ k + 2 <= max_stack F /\
      op_at F (p1 + 1) OP_FOR_LIST /\ ref_at F (p1 + 2) FIXUP_VAR_REF (Z.to_nat id) /\ label_at F (p1 + 3) (p2 + 2) /\
      compiled_stmt F body (p1 + 4) p2 (k + 2) (mkLoop_place id (p1 + 1) (k + 2) (p2 + 2) k :: ds) /\
      op_at F p2 OP_JUMP /\ label_at F (p2 + 1) (p1 + 1) /\ compiled_stmt F next (p2 + 2) q k ds
  | STMT_RANGE id from to body next => exists p1 p2 p3,
      compiled F from p p1 None k /\ compiled F to p1 p2 None (k + 1) /\
      op_at F p2 OP_FOR_RANGE /\ ref_at F (p2 + 1) FIXUP_VAR_REF (Z.to_nat id) /\ label_at F (p2 + 2) (p3 + 2) /\
      compiled_stmt F body (p2 + 3) p3 (k + 2) (mkLoop_place id p2 (k + 2) (p3 + 2) k :: ds) /\
      op_at F p3 OP_JUMP /\ label_at F (p3 + 1) p2 /\ compiled_stmt F next (p3 + 2) q k ds
  | STMT_WHILE id c body next => exists p1 p2 p3,
      compiled F c p p1 None k /\
      (if (id =? -1)%Z then op_at F p1 OP_WHILE /\ p2 = p1 + 1
       else eop_at F p1 EOP_WHILE_ID /\ ref_at F (p1 + 2) FIXUP_VAR_REF (Z.to_nat id) /\ p2 = p1 + 3) /\
      label_at F p2 (p3 + 2) /\ compiled_stmt F body (p2 + 1) p3 k (mkLoop_place id p k (p3 + 2) k :: ds) /\
      op_at F p3 OP_JUMP /\ label_at F (p3 + 1) p /\ compiled_stmt F next (p3 + 2) q k ds
  | STMT_FORK id time body next => exists p1 p2 i bc t q',
      compiled F time p p1 None k /\ op_at F p1 (if (0 <=? id)%Z then OP_FORK_WITH_ID else OP_FORK) /\
      ref_at F (p1 + 1) FIXUP_FORK i /\ fork_vectors (gstate F) !! i = Some bc /\
      (if (0 <=? id)%Z then ref_at F (p1 + 2) FIXUP_VAR_REF (Z.to_nat id) /\ p2 = p1 + 2 + 1 else p2 = p1 + 2) /\
      finished t /\ bc = with_vector (the_vector t) (layout t) /\ literals (gstate t) `prefix_of` literals (gstate F) /\
      fork_vectors (gstate t) `prefix_of` fork_vectors (gstate F) /\
      compiled_stmt t body 0 q' 0 [] /\ op_at t q' OP_DONE /\ here t = S q' /\
      compiled_stmt F next p2 q k ds
  | STMT_EXPR e next => exists p1, compiled F e p p1 None k /\ op_at F p1 OP_POP /\ compiled_stmt F next (p1 + 1) q k ds
  | STMT_RETURN e next => exists p1,
      match e with
      | Some_Expr e => compiled F e p p1 None k /\ op_at F p1 OP_RETURN
      | No_Expr => op_at F p OP_RETURN0 /\ p1 = p
      end /\ compiled_stmt F next (p1 + 1) q k ds
  | STMT_TRY_EXCEPT body excepts next => exists p1 p2 p3 targets,
      let n := exc_length excepts in
      handlers_at F excepts targets p p1 k /\ eop_at F p1 EOP_TRY_EXCEPT /\ byte_at F (p1 + 2) (Z.of_nat n) /\
      k + 2 * n + 1 <= max_stack F /\ compiled_stmt F body (p1 + 3) p2 (k + 2 * n + 1) ds /\
      eop_at F p2 EOP_END_EXCEPT /\ label_at F (p2 + 2) p3 /\
      compiled_excepts F excepts targets (p2 + 3) p3 p3 k ds /\ compiled_stmt F next p3 q k ds
  | STMT_TRY_FINALLY body handler next => exists p1 p2,
      eop_at F p EOP_TRY_FINALLY /\ label_at F (p + 2) (p1 + 2) /\ k + 2 <= max_stack F /\
      compiled_stmt F body (p + 3) p1 (k + 1) ds /\ eop_at F p1 EOP_END_FINALLY /\
      compiled_stmt F handler (p1 + 2) p2 (k + 2) ds /\ eop_at F p2 EOP_CONTINUE /\ compiled_stmt F next (p2 + 2) q k ds
  | STMT_BREAK exit next => exists p1, exit_at F false exit p p1 ds /\ compiled_stmt F next p1 q k ds
  | STMT_CONTINUE exit next => exists p1, exit_at F true exit p p1 ds /\ compiled_stmt F next p1 q k ds
  end
with compiled_arms (F : State) (if_op : Opcode) (arms : Cond_Arm) (p q e k : nat) (ds : list loop_place) : Prop :=
  match arms with
  | Arm_Nil => q = p
  | Arm_Cons c st arms => exists p1 p2,
      compiled F c p p1 None k /\ op_at F p1 if_op /\ label_at F (p1 + 1) (p2 + 2) /\ compiled_stmt F st (p1 + 2) p2 k ds /\
      op_at F p2 OP_JUMP /\ label_at F (p2 + 1) e /\ compiled_arms F OP_EIF arms (p2 + 2) q e k ds
  end
with compiled_excepts (F : State) (excepts : Except_Arm) (targets : list nat) (p q e k : nat) (ds : list loop_place) : Prop :=
  match excepts, targets with
  | Exc_Nil, [] => q = p
  | Exc_Cons id _ st excepts, t :: targets => exists p1 p2, t = p /\ k + 1 <= max_stack F /\
      store_id_at F id p p1 /\ op_at F p1 OP_POP /\ compiled_stmt F st (p1 + 1) p2 k ds /\
      match excepts with
      | Exc_Nil => q = p2 /\ targets = []
      | _ => op_at F p2 OP_JUMP /\ label_at F (p2 + 1) e /\ compiled_excepts F excepts targets (p2 + 2) q e k ds
      end
  | _, _ => False
  end.

(** ** Loops and their open labels *)

Lemma plus2 n : n + 2 = S (S n).
Proof. lia. Qed.
Lemma plus3 n : n + 3 = S (S (S n)).
Proof. lia. Qed.
Lemma plus4 n : n + 4 = S (S (S (S n))).
Proof. lia. Qed.

Definition same_loop (lp lp' : Loop) : Prop :=
  loop_id lp' = loop_id lp /\ top_label lp' = top_label lp /\ top_stack lp' = top_stack lp /\ bottom_stack lp' = bottom_stack lp.

(** [ls']: the loops [ls] with other open labels, namely [B]. *)
Record tracked (ls ls' : list Loop) (B : list (list open_label)) : Prop := {
  tr_same : Forall2 same_loop ls ls';
  tr_linked : Forall2 (fun os lp => linked os (bottom_label lp)) B ls' }.

Definition known_loop (F : State) (lp : Loop) : Prop :=
  known_label F (top_label lp) /\ top_stack lp <= max_stack F /\ bottom_stack lp <= max_stack F.

Definition place_of (lp : Loop) (d : loop_place) : Prop :=
  lp_id d = loop_id lp /\ lp_top d = f_value (top_label lp) /\ lp_top_stack d = top_stack lp /\ lp_bottom_stack d = bottom_stack lp.
Definition targets (F : State) (B : list (list open_label)) (ds : list loop_place) : Prop :=
  Forall2 (fun os d => forall o, o ∈ os -> label_at F (o_place o) (lp_bottom d)) B ds.
Definition grown (B B' : list (list open_label)) : Prop := Forall2 (fun os os' => os ⊆ os') B B'.
(** What holds when the labels of the loops around are at their ends. *)
Definition fact (F : State) (ls : list Loop) (B : list (list open_label)) (C : list loop_place -> Prop) : Prop :=
  forall ds, Forall2 place_of ls ds -> targets F B ds -> C ds.

Lemma grown_refl B : grown B B.
Proof. apply Forall2_same_length_lookup_2; [done|]. intros i x y Hx Hy. by simplify_eq. Qed.

Lemma grown_trans B1 B2 B3 : grown B1 B2 -> grown B2 B3 -> grown B1 B3.
Proof.
  intros H. revert B3. induction H as [|os os' B B' Hs _ IH]; intros B3 H3; inversion H3; subst; constructor; [by etrans|by apply IH].
Qed.

Lemma targets_grown F B B' ds : grown B B' -> targets F B' ds -> targets F B ds.
Proof.
  intros H. revert ds. induction H as [|os os' B B' Hs _ IH]; intros ds Ht; inversion Ht; subst; constructor; [|by apply IH].
  intros o Ho. by apply H1, Hs.
Qed.

Lemma fact_grown F ls B B' C : grown B B' -> fact F ls B C -> fact F ls B' C.
Proof. intros H Hf ds Hd Ht. apply Hf; [done|]. by eapply targets_grown. Qed.

Lemma fact_mono F ls B (C C' : list loop_place -> Prop) : (forall ds, C ds -> C' ds) -> fact F ls B C -> fact F ls B C'.
Proof. intros H Hf ds Hd Ht. by apply H, Hf. Qed.

(** What is known of all extensions is known now. *)
Lemma emits_now s0 s c ls W P : emits s0 s c ls W P -> P s.
Proof. intros E. apply (em_code _ _ _ _ _ _ E none); [by intros i _ []|apply ext_refl]. Qed.

Lemma known_label_ext O s F f : ext O s F -> known_label s f -> known_label F f.
Proof.
  intros He (Hk & Hv & Hp). split; [done|]. pose proof (ext_bytes_length _ _ _ He). split; [lia|].
  by rewrite (ext_counts O s F).
Qed.

Section more_rules.
Context {s0 s : State} {c : nat} {ls : list Loop} {W : list open_label} {P : State -> Prop} (E : emits s0 s c ls W P).

Lemma wp_known_label f {Q : unit -> State -> Prop} : known_label s f ->
  (forall t, emits s0 t c ls W (fun F => P F /\ label_at F (here s) (f_value f)) -> here t = S (here s) -> Q tt t) ->
  wp (add_known_label f) s Q.
Proof.
  intros Hk HQ. destruct (add_known_label_Ok f s (emits_inv _ _ _ _ _ _ E) ltac:(apply Hk)) as (t & Ht & G & C & L & Fx & Sl).
  exists tt, t. split; [done|]. apply HQ; [|done]. eapply emits_grows; try done. intros O F He Ho.
  set (f' := mkFixup FIXUP_LABEL (here s) (f_value f) (f_prev f) (f_next f)).
  assert (Hlook : fixups t !! length (fixups s) = Some f') by (rewrite Fx, lookup_app_r, Nat.sub_diag by lia; done).
  assert (Hn : ~ O (length (fixups s))) by (apply Ho; rewrite Fx, length_app; cbn; lia).
  destruct (known_label_ext _ _ _ f (gr_ext _ _ G) Hk) as (_ & Hv & Hp).
  by apply (label_closed O t F _ _ f' (gr_inv _ _ G) He Sl Hn Hlook).
Qed.

Lemma wp_capture {Q : Fixup -> State -> Prop} :
  (forall f, f_value f = here s -> emits s0 s c ls W (fun F => P F /\ known_label F f) -> Q f s) -> wp capture_label s Q.
Proof.
  intros HQ. eexists _, s. split; [reflexivity|]. apply HQ; [done|]. pose proof E as [R1 G1 S1 C1 M1 L1 O1 N1 E1]. split; try done.
  intros O F Ho He. split; [by apply (E1 O)|]. eapply known_label_ext; [exact He|]. split; [done|]. split; [cbn; lia|]. cbn.
  symmetry. apply inv_nums_at, R1.
Qed.

Lemma wp_loops (f : State -> State) ls' {Q : unit -> State -> Prop} : f s = with_loops ls' s ->
  (forall t, emits s0 t c ls' W P -> here t = here s -> Q tt t) -> wp (modify f) s Q.
Proof.
  intros Hf HQ. exists tt, (with_loops ls' s). split; [unfold modify; by rewrite Hf|]. apply HQ; [|done].
  destruct E as [[[H1 H2 H3 H4 H5 H6] J2 J3] [G1 G2 G3 G4 G5 G6 G7] S1 C1 M1 L1 O1 N1 E1]. split; try done.
  - intros O F Ho [F1 F2 F3 F4 F5 F6 F7]. apply (E1 O); [done|by split].
Qed.

Lemma wp_exit_loop lp ls' {Q : option nat -> State -> Prop} : ls = lp :: ls' ->
  (forall t, emits s0 t c ls' W P -> here t = here s -> Q (bottom_label lp) t) -> wp exit_loop s Q.
Proof.
  intros Hls HQ. pose proof (em_loops _ _ _ _ _ _ E) as Hl. rewrite Hls in Hl.
  destruct (wp_loops (fun s => with_loops ls' s) ls' (Q := fun _ => Q (bottom_label lp)) eq_refl HQ) as ([] & t & Ht & HQt).
  exists (bottom_label lp), t. split; [|done]. unfold exit_loop. rewrite Hl. unfold modify in Ht. by injection Ht as <-.
Qed.

End more_rules.

(** *** Leaving a loop *)

Lemma find_loop_Ok exit ls ls' : Forall2 same_loop ls ls' -> exit ∈ loop_id <$> ls -> exists i lp lp',
  find_loop exit ls' = Some (i, lp') /\ ls !! i = Some lp /\ ls' !! i = Some lp' /\
  forall ds, Forall2 place_of ls ds -> exists d, snd <$> list_find (fun d => lp_id d = exit) ds = Some d /\ ds !! i = Some d.
Proof.
  induction 1 as [|lp lp' ls ls' Hs Hsame IH]; [by intros ?%elem_of_nil|]. intros Hin. cbn [find_loop]. pose proof Hs as (Hid & _).
  rewrite Hid. destruct (Z.eqb_spec (loop_id lp) exit) as [Heq|Hne].
  - exists 0, lp, lp'. do 3 (split; [done|]). intros ds Hds. inversion Hds as [|? d ? ds' [Hd _] _]; subst. exists d. split; [|done].
    cbn [list_find]. by rewrite decide_True by congruence.
  - cbn [fmap list_fmap] in Hin. apply elem_of_cons in Hin as [?|Hin]; [congruence|]. destruct (IH Hin) as (i & lp1 & lp1' & H1 & H2 & H3 & H4).
    exists (S i), lp1, lp1'. rewrite H1. do 3 (split; [done|]). intros ds Hds. inversion Hds as [|? d ? ds' [Hd _] Hds']; subst.
    destruct (H4 _ Hds') as (d' & Hd' & Hi). exists d'. split; [|done]. cbn [list_find]. rewrite decide_False by congruence.
    destruct (list_find _ ds') as [[]|]; by simplify_eq/=.
Qed.

Lemma concat_alter (B : list (list open_label)) i os o : B !! i = Some os ->
  concat (alter (cons o) i B) ≡ₚ o :: concat B.
Proof.
  revert i. induction B as [|b B IH]; intros [|i]; cbn; try done. intros Hi. rewrite (IH i Hi). by rewrite Permutation_middle.
Qed.

Lemma grown_alter B i o : grown B (alter (cons o) i B).
Proof.
  apply Forall2_same_length_lookup_2; [by rewrite length_alter|]. intros j x y Hx Hy. destruct (decide (i = j)) as [->|Hne].
  - rewrite list_lookup_alter_eq, Hx in Hy. injection Hy as <-. intros o' Ho'. by right.
  - rewrite list_lookup_alter_ne in Hy by done. by simplify_eq.
Qed.

Lemma tracked_alter ls ls' B i lp os (L p : nat) : tracked ls ls' B -> ls' !! i = Some lp -> B !! i = Some os ->
  let o := Open L p (bottom_label lp) in
  tracked ls (alter (fun lp => mkLoop (loop_id lp) (top_label lp) (top_stack lp) (Some L) (bottom_stack lp)) i ls') (alter (cons o) i B).
Proof.
  intros [Hs Hl] Hi Hb. cbn zeta. split.
  - apply Forall2_same_length_lookup_2; [rewrite length_alter; by eapply Forall2_length|]. intros j x y Hx Hy. destruct (decide (i = j)) as [->|Hne].
    + rewrite list_lookup_alter_eq, Hi in Hy. injection Hy as <-. by apply (Forall2_lookup_lr _ _ _ _ _ _ Hs Hx Hi).
    + rewrite list_lookup_alter_ne in Hy by done. by apply (Forall2_lookup_lr _ _ _ _ _ _ Hs Hx Hy).
  - apply Forall2_same_length_lookup_2; [rewrite !length_alter; by eapply Forall2_length|]. intros j x y Hx Hy. destruct (decide (i = j)) as [->|Hne].
    + rewrite list_lookup_alter_eq, Hi in Hy. rewrite list_lookup_alter_eq, Hb in Hx. injection Hy as <-. injection Hx as <-.
      split; [done|]. cbn [o_next]. by apply (Forall2_lookup_lr _ _ _ _ _ _ Hl Hb Hi).
    + rewrite list_lookup_alter_ne in Hx by done. rewrite list_lookup_alter_ne in Hy by done. by apply (Forall2_lookup_lr _ _ _ _ _ _ Hl Hx Hy).
Qed.

Section exits.
Context {s0 s : State} {k : nat} {ls ls' : list Loop} {B : list (list open_label)} {W : list open_label} {P : State -> Prop}
  (E : emits s0 s k ls' (concat B ++ W) P) (T : tracked ls ls' B) (K : forall F, P F -> Forall (known_loop F) ls)
  {Q : unit -> State -> Prop}.

(** After the instruction: the place on the stack and the place in the code. *)
Lemma wp_exit_tail (continue : bool) i lp lp' : ls !! i = Some lp -> ls' !! i = Some lp' ->
  (forall t ls2 B', tracked ls ls2 B' -> grown B B' -> here t = S (S (here s)) ->
    emits s0 t k ls2 (concat B' ++ W) (fun F => P F /\ fact F ls B' (fun ds => exists d, ds !! i = Some d /\
      ref_at F (here s) FIXUP_STACK (if continue then lp_top_stack d else lp_bottom_stack d) /\
      label_at F (S (here s)) (if continue then lp_top d else lp_bottom d))) -> Q tt t) ->
  wp (if continue then _ ← add_stack_ref (top_stack lp'); add_known_label (top_label lp')
      else _ ← add_stack_ref (bottom_stack lp'); label ← add_linked_label (bottom_label lp'); set_bottom_label i label) s Q.
Proof.
  intros Hi Hi' HQ. pose proof (K s (emits_now _ _ _ _ _ _ E)) as Hk. rewrite Forall_lookup in Hk. destruct (Hk i lp Hi) as (Kl & Kt & Kb).
  pose proof (Forall2_lookup_lr _ _ _ _ _ _ (tr_same _ _ _ T) Hi Hi') as (_ & Hl & Ht & Hb). rewrite Hl, Ht, Hb.
  destruct continue.
  - apply wp_bind. apply (wp_stack_ref E); [done|]. intros t1 E1 L1. apply (wp_known_label E1).
    { pose proof (K t1 (proj1 (emits_now _ _ _ _ _ _ E1))) as Hk1. rewrite Forall_lookup in Hk1. by apply (Hk1 i lp Hi). }
    intros t2 E2 L2. apply (HQ t2 ls' B); [done|apply grown_refl|congruence|]. finish E2 F. intros ds Hds _.
    destruct (Forall2_lookup_l _ _ _ _ _ Hds Hi) as (d & Hd & (_ & Hd2 & Hd3 & _)). exists d. rewrite Hd2, Hd3. split; [done|]. by split.
  - apply wp_bind. apply (wp_stack_ref E); [done|]. intros t1 E1 L1. cbn beta. apply wp_bind. apply (wp_linked_label E1). clear E1.
    intros t2 E2 L2. destruct (Forall2_lookup_r _ _ _ _ _ (tr_linked _ _ _ T) Hi') as (os & Hos & Hlinked).
    eapply (wp_loops E2); [by rewrite (em_loops _ _ _ _ _ _ E2)|]. clear E2. intros t3 E3 L3.
    rewrite L1 in E3. set (o := Open (length (fixups t1)) (S (here s)) (bottom_label lp')) in *.
    eapply (HQ t3 _ (alter (cons o) i B)); [by eapply (tracked_alter _ _ _ _ _ os)|apply grown_alter|congruence|].
    apply (emits_perm _ _ _ _ ((concat B ++ W) ++ [o])); [rewrite (concat_alter B i os _ Hos); apply (Permutation_app_comm (concat B ++ W) [o])|].
    finish E3 F. intros ds Hds Htar. destruct (Forall2_lookup_l _ _ _ _ _ Hds Hi) as (d & Hd & (_ & _ & _ & Hd4)).
    exists d. rewrite Hd4. split; [done|]. split; [done|].
    assert (Hos' : alter (cons o) i B !! i = Some (o :: os)) by (by rewrite list_lookup_alter_eq, Hos).
    apply (Forall2_lookup_lr _ _ _ _ _ _ Htar Hos' Hd o). by left.
Qed.

End exits.

(** The instruction, and the loop it is about. *)
Lemma wp_exit {s0 s k ls ls' B W P} (E : emits s0 s k ls' (concat B ++ W) P) (T : tracked ls ls' B)
  (K : forall F, P F -> Forall (known_loop F) ls) {Q : unit -> State -> Prop} (continue : bool) exit :
  (if decide (exit = -1)%Z then loop_id <$> ls <> [] else exit ∈ loop_id <$> ls /\ slot_ok exit) ->
  (forall t ls2 B', tracked ls ls2 B' -> grown B B' ->
    emits s0 t k ls2 (concat B' ++ W) (fun F => P F /\ fact F ls B' (exit_at F continue exit (here s) (here t))) -> Q tt t) ->
  wp (generate_exit continue exit) s Q.
Proof.
  intros Hok HQ. unfold generate_exit. apply wp_bind.
  destruct (Z.eqb_spec exit (-1)) as [->|Hne].
  - rewrite decide_True in Hok by done. steps. apply wp_gets. rewrite (em_loops _ _ _ _ _ _ E).
    destruct ls as [|lp ls]; [done|]. inversion T as [Hs _]. destruct ls' as [|lp' ls']; [by inversion Hs|]. step.
    apply (wp_exit_tail E T (fun F H => K F (proj1 H)) continue 0 lp lp' eq_refl eq_refl). clear E.
    intros u ls2 B' T' G' L' E. apply (HQ u ls2 B'); [done|done|]. finish E F.
    match goal with H : fact _ _ _ _ |- _ => revert H end. apply fact_mono. intros ds (d & Hd & H1 & H2).
    exists (S (S (here s))), d. rewrite decide_True by done. rewrite plus2, Nat.add_1_r, plus2. split; [done|]. unfold find_place.
    rewrite decide_True by done. split; [by destruct ds|]. done.
  - rewrite decide_False in Hok by done. destruct Hok as [Hin Hid]. steps. apply wp_gets. rewrite (em_loops _ _ _ _ _ _ E).
    destruct (find_loop_Ok exit ls ls' (tr_same _ _ _ T) Hin) as (i & lp & lp' & -> & Hi & Hi' & Hfind). step.
    apply (wp_exit_tail E T (fun F H => K F (proj1 (proj1 H))) continue i lp lp' Hi Hi'). clear E.
    intros u ls2 B' T' G' L' E. apply (HQ u ls2 B'); [done|done|]. finish E F.
    match goal with H : fact _ _ _ _ |- _ => rename H into Hf end. intros ds Hds Htar. destruct (Hf ds Hds Htar) as (d & Hd & H1' & H2').
    exists (S (S (S (here s)))), d. rewrite decide_False by done. rewrite plus2, plus3, Nat.add_1_r, plus2. split; [done|].
    unfold find_place. rewrite decide_False by done. destruct (Hfind ds Hds) as (d' & -> & Hd'). split; [congruence|]. done.
Qed.

(** ** The induction *)

(** The generator does not fail, and what is known afterwards. *)
Definition stmt_goal (st : Stmt) : Prop := forall s0 s k ls0 ls B W P (Q : unit -> State -> Prop),
  emits s0 s k ls (concat B ++ W) P -> tracked ls0 ls B -> (forall F, P F -> Forall (known_loop F) ls0) ->
  ready s0 -> saved_stack s0 = None -> stmt_ok (loop_id <$> ls0) k st ->
  (forall t ls' B', tracked ls0 ls' B' -> grown B B' ->
    emits s0 t k ls' (concat B' ++ W) (fun F => P F /\ fact F ls0 B' (compiled_stmt F st (here s) (here t) k)) -> Q tt t) ->
  wp (generate_stmt st) s Q.

Definition arms_goal (arms : Cond_Arm) : Prop := forall if_op end_label s0 s k ls0 ls B es W P (Q : option nat -> State -> Prop),
  emits s0 s k ls (concat B ++ es ++ W) P -> tracked ls0 ls B -> (forall F, P F -> Forall (known_loop F) ls0) ->
  ready s0 -> saved_stack s0 = None -> arms_ok (loop_id <$> ls0) k arms -> linked es end_label -> good_opcode if_op ->
  (forall t ls' B' es' l, tracked ls0 ls' B' -> grown B B' -> linked es' l -> es ⊆ es' ->
    emits s0 t k ls' (concat B' ++ es' ++ W) (fun F => P F /\ forall e, (forall o, o ∈ es' -> label_at F (o_place o) e) ->
      fact F ls0 B' (compiled_arms F if_op arms (here s) (here t) e k)) -> Q l t) ->
  wp (generate_arms if_op arms end_label) s Q.

Ltac know := let F := fresh "F" in let HF := fresh "HF" in intros F HF; destruct_and? HF;
  match goal with K : forall F, _ -> Forall (known_loop F) _ |- _ => by apply K end.
Ltac assoc E := rewrite <- ?app_assoc in E.
Ltac more_grown := solve [eauto 8 using grown_trans, grown_refl].
(** Using what is known about the code of statements. *)
Ltac facts :=
  let ds := fresh "ds" in let Hds := fresh "Hds" in let Ht := fresh "Ht" in intros ds Hds Ht;
  repeat match goal with
  | H : fact ?F _ ?B _ |- _ => match type of Ht with targets _ ?B' _ => specialize (H ds Hds (targets_grown F B B' ds ltac:(more_grown) Ht)) end
  end.
Ltac substmt IH :=
  match goal with E : emits _ ?s _ _ _ _, T : tracked _ _ _ |- wp (generate_stmt _) ?s _ =>
    assoc E; eapply (IH _ _ _ _ _ _ _ _ _ E T); [know|done|done|try done|clear E T; intros ? ? ? T ? E; cbn beta] end.
Ltac norm_places := rewrite ?Nat.add_1_r, ?plus2, ?plus3, ?plus4 in *.

(** Defining the label at [p], leaving [W'] open. *)
Ltac define_one p W' :=
  match goal with
  | E : emits _ ?s _ _ _ _ |- wp (define_label _) ?s _ =>
      eapply (wp_define_one E _ p W'); [cbn [app]; solve_Permutation|clear E; intros ? E ?]; cbn beta
  end.

Lemma stmt_nil : stmt_goal Stmt_Nil.
Proof.
  intros s0 s k ls0 ls B W P Q E T K R Hs Hok HQ. cbn [generate_stmt]. step. eapply HQ; [exact T|apply grown_refl|]. finish E F.
Qed.

(** A statement without labels or loops, and what follows. *)
Lemma wp_stmt_expr e {s0 s k ls W P} (E : emits s0 s k ls W P) {Q : unit -> State -> Prop} :
  expr_ok false k e -> saved_stack s0 = None ->
  (forall t, emits s0 t (S k) ls W (fun F => P F /\ compiled F e (here s) (here t) None k) -> Q tt t) -> wp (generate_expr e) s Q.
Proof. intros Hok Hs HQ. eapply (wp_expr E (d := false)); [done|apply generate_expr_Ok|exact Hok|]. rewrite Hs. exact HQ. Qed.

Ltac subexpr :=
  match goal with E : emits ?s0 ?s _ _ _ _, Hs : saved_stack ?s0 = None |- wp (generate_expr ?e) ?s _ =>
    apply (wp_stmt_expr e E); [try done|exact Hs|clear E; intros ? E; cbn beta] end.
Ltac stmt_steps := repeat first [subexpr|substep].
Ltac begin_stmt :=
  let s := fresh "s" in intros s0 s k ls0 ls B W P Q E T K R Hs Hok HQ; cbn [generate_stmt stmt_ok] in *; destruct_and? Hok;
  assert (Hdd : false = true -> is_Some (saved_stack s0)) by done.
Ltac end_stmt := match goal with HQ : forall t ls' B', _, E : emits _ _ _ _ _ _ |- _ => eapply HQ; [done|more_grown|] end.

Lemma stmt_expr e next : stmt_goal next -> stmt_goal (STMT_EXPR e next).
Proof. intros H1. begin_stmt. stmt_steps. substmt H1. end_stmt. finish E F. facts. eexists. norm_places. done. Qed.

Lemma stmt_return e next : stmt_goal next -> stmt_goal (STMT_RETURN e next).
Proof.
  intros H1. begin_stmt. destruct e as [|e]; stmt_steps; substmt H1; end_stmt; finish E F; facts; eexists; norm_places; done.
Qed.

Lemma stmt_break exit next : stmt_goal next -> stmt_goal (STMT_BREAK exit next).
Proof.
  intros H1. begin_stmt. step. eapply (wp_exit E T K); [destruct (decide (exit = -1)%Z); [|done]; by destruct ls0|].
  clear E T. intros ? ? ? T ? E. substmt H1. end_stmt. finish E F. facts. by eexists.
Qed.

Lemma stmt_continue exit next : stmt_goal next -> stmt_goal (STMT_CONTINUE exit next).
Proof.
  intros H1. begin_stmt. step. eapply (wp_exit E T K); [destruct (decide (exit = -1)%Z); [|done]; by destruct ls0|].
  clear E T. intros ? ? ? T ? E. substmt H1. end_stmt. finish E F. facts. by eexists.
Qed.

(** *** Conditions *)

Lemma arms_nil : arms_goal Arm_Nil.
Proof.
  intros if_op end_label s0 s k ls0 ls B es W P Q E T K R Hs Hok Hl Hg HQ. cbn [generate_arms]. step.
  eapply HQ; [exact T|apply grown_refl|exact Hl|done|]. finish E F.
Qed.

Lemma arms_cons c st arms : stmt_goal st -> arms_goal arms -> arms_goal (Arm_Cons c st arms).
Proof.
  intros H1 H2 if_op end_label s0 s k ls0 ls B es W P Q E T K R Hs Hok Hl Hg HQ. cbn [generate_arms arms_ok] in *.
  destruct_and? Hok. stmt_steps. substmt H1. steps. assoc E.
  define_one (here t0) (concat B' ++ (Open (length (fixups t4)) (here t4) end_label :: es) ++ W).
  eapply (H2 OP_EIF (Some (length (fixups t4))) _ _ _ _ _ _ _ _ _ _ E T); [know|done|done|done|by split|done|].
  clear E T. intros t7 ls2 B2 es2 l T G Hl2 Hes E. eapply HQ; [exact T|more_grown|exact Hl2|intros o Ho; apply Hes; by right|].
  finish E F. intros e He. match goal with H : forall e, _ -> fact _ _ _ _ |- _ => specialize (H e He) end. facts. exists (here t), (here t3). norm_places.
  do 5 (split; [done|]). split; [|done]. apply (He (Open (length (fixups t4)) (S (here t3)) end_label)). apply Hes. by left.
Qed.

Lemma stmt_cond arms otherwise next : arms_goal arms -> stmt_goal otherwise -> stmt_goal next ->
  stmt_goal (STMT_COND arms otherwise next).
Proof.
  intros H1 H2 H3. begin_stmt. step.
  eapply (H1 OP_IF None _ _ _ _ _ _ [] _ _ _ E T); [done|done|done|done|done|done|]. clear E T. intros t ls1 B1 es l T G Hl _ E. cbn beta.
  step. replace (concat B1 ++ es ++ W) with (concat B1 ++ (es ++ W)) in E by done. substmt H2. step.
  match goal with T : tracked _ _ ?B' |- _ => apply (wp_define E es (concat B' ++ W)); [by rewrite Permutation_app_swap_app|exact Hl|] end.
  clear E. intros t3 E L. substmt H3. end_stmt. finish E F.
  match goal with H : forall e, _ -> fact _ _ _ _ |- _ => specialize (H _ ltac:(eassumption)) end.
  facts. eexists _, _. eauto.
Qed.

(** *** Loops *)

Lemma emits_stack s0 s c ls W P : emits s0 s c ls W P -> emits s0 s c ls W (fun F => P F /\ c <= max_stack F).
Proof.
  intros [R1 G1 S1 C1 M1 L1 O1 N1 E1]. split; try done. intros O F Ho He. split; [by apply (E1 O)|].
  pose proof (rd_stack _ R1). pose proof (ext_stack _ _ _ He). lia.
Qed.

(** The body of a loop, after its head with the label at [p], and the jump back. *)
Lemma wp_loop_body body rest id top L p kb {s0 s k ls0 ls B W P} {Q : unit -> State -> Prop} : stmt_goal body ->
  emits s0 s k (mkLoop id top k (Some L) kb :: ls) ((concat B ++ W) ++ [Open L p None]) P -> tracked ls0 ls B ->
  (forall F, P F -> Forall (known_loop F) ls0) -> ready s0 -> saved_stack s0 = None -> stmt_ok (id :: (loop_id <$> ls0)) k body ->
  kb <= k -> (forall F, P F -> known_label F top) ->
  (forall t ls' B', tracked ls0 ls' B' -> grown B B' -> emits s0 t k ls' (concat B' ++ W) (fun F => P F /\ fact F ls0 B' (fun ds =>
     exists p2, label_at F p (p2 + 2) /\ compiled_stmt F body (here s) p2 k (mkLoop_place id (f_value top) k (p2 + 2) kb :: ds) /\
       op_at F p2 OP_JUMP /\ label_at F (p2 + 1) (f_value top) /\ here t = p2 + 2)) -> wp rest t Q) ->
  wp (generate_stmt body) s (fun _ u => wp (_ ← end_loop top; rest) u Q).
Proof.
  intros H1 E T K R Hs Hok Hkb Ktop HQ. set (lp := mkLoop id top k (Some L) kb) in *.
  apply emits_stack in E. apply (emits_perm _ _ _ _ _ (concat ([Open L p None] :: B) ++ W)) in E as E';
    [|cbn [concat]; solve_Permutation]. clear E.
  eapply (H1 _ _ _ (lp :: ls0) _ _ _ _ _ E'); [|intros F [HP Hk]; constructor; [|by apply K]|done|done|exact Hok|].
  { destruct T as [T1 T2]. split; [constructor; [done|exact T1]|constructor; [by split|exact T2]]. }
  { split; [by apply Ktop|]. cbn. lia. }
  clear E'. intros t ls2 B2 T2 G E. cbn beta. step. unfold end_loop.
  destruct T2 as [Ts Tl]. inversion Ts as [|? lp2 ? ls3 Hsame Ts']; subst. inversion Tl as [|os ? B3 ? Hos Tl']; subst.
  inversion G as [|? ? ? ? Hsub G']; subst. step. eapply (wp_exit_loop E); [done|]. clear E. intros t1 E L1. steps.
  apply (wp_known_label E); [apply Ktop; by destruct (emits_now _ _ _ _ _ _ E) as [[[? ?] ?] ?]|]. clear E. intros t3 E L3.
  eapply (wp_define E os (concat B3 ++ W)); [by rewrite app_assoc|exact Hos|]. clear E. intros t4 E L4.
  eapply HQ; [by split|exact G'|]. finish E F. intros ds Hds Ht.
  match goal with H : fact _ _ _ _ |- _ => rename H into Hf end. match goal with H : forall o, _ |- _ => rename H into Hl end.
  exists (here t). norm_places. split; [apply (Hl (Open L p None)); apply Hsub; by left|]. split; [|done].
  apply Hf; [by constructor|constructor; [|done]]. intros o Ho. by apply Hl.
Qed.

(** Entering a loop after its head: the label at its end is open. *)
Lemma wp_begin_loop id top n {s0 s k ls W P} (E : emits s0 s k ls W P) {Q : unit -> State -> Prop} :
  (forall t L, emits s0 t k (mkLoop id top k (Some L) (k - n) :: ls) (W ++ [Open L (here s) None]) P -> here t = S (here s) -> Q tt t) ->
  wp (begin_loop id top n) s Q.
Proof.
  intros HQ. unfold begin_loop. steps. apply wp_gets. rewrite (em_cur _ _ _ _ _ _ E).
  eapply (wp_loops E); [by rewrite (em_loops _ _ _ _ _ _ E)|]. clear E. intros u E L. eapply HQ; [exact E|congruence].
Qed.

Ltac begin_loop_step :=
  match goal with E : emits _ ?s _ _ _ _ |- wp (begin_loop _ _ _) ?s _ =>
    apply (wp_begin_loop _ _ _ E); clear E; let L := fresh "L" in intros ? L E ?; cbn beta end.
Ltac capture :=
  match goal with E : emits _ ?s _ _ _ _ |- wp capture_label ?s _ =>
    apply (wp_capture E); clear E; let top := fresh "top" in let Htop := fresh "Htop" in intros top Htop E; cbn beta end.

Ltac body_step H1 :=
  match goal with E : emits _ ?s _ (mkLoop _ _ _ _ _ :: _) _ _, T : tracked _ _ _ |- wp (generate_stmt _) ?s _ =>
    eapply (wp_loop_body _ _ _ _ _ _ _ H1 E T);
    [know|done|done|done|lia|let F := fresh in let HF := fresh in intros F HF; destruct_and? HF; done|
     clear E T; intros ? ? ? T ? E; cbn beta] end.

(** Opening what is known of a loop. *)
Ltac open_loop Htop :=
  match goal with H : (fun _ => exists _, _) _ |- _ => let p2 := fresh "p2" in cbn beta in H; rewrite ?Htop in H; norm_places;
    destruct H as (p2 & ? & ? & ? & ? & Hend); rewrite ?Hend in *; clear Hend end.

Lemma stmt_list id e body next : stmt_goal body -> stmt_goal next -> stmt_goal (STMT_LIST id e body next).
Proof.
  intros H1 H2. begin_stmt. norm_places. stmt_steps. capture. stmt_steps. begin_loop_step.
  rewrite !Nat.sub_succ, Nat.sub_0_r in E. step. body_step H1. stmt_steps. substmt H2. end_stmt. finish E F. facts.
  open_loop Htop. exists (here t), p2. norm_places. do 3 (split; [done|]). auto 10.
Qed.

Lemma stmt_range id from to body next : stmt_goal body -> stmt_goal next -> stmt_goal (STMT_RANGE id from to body next).
Proof.
  intros H1 H2. begin_stmt. norm_places. stmt_steps. capture. stmt_steps. begin_loop_step.
  rewrite !Nat.sub_succ, Nat.sub_0_r in E. step. body_step H1. stmt_steps. substmt H2. end_stmt. finish E F. facts.
  open_loop Htop. eexists _, _, p2. norm_places. eauto 15.
Qed.

Definition while_at (F : State) (id : Z) (p q : nat) : Prop :=
  if (id =? -1)%Z then op_at F p OP_WHILE /\ q = p + 1
  else eop_at F p EOP_WHILE_ID /\ ref_at F (p + 2) FIXUP_VAR_REF (Z.to_nat id) /\ q = p + 3.

Lemma wp_while id {s0 s k ls W P} (E : emits s0 s k ls W P) {Q : unit -> State -> Prop} : (id = -1 \/ slot_ok id)%Z ->
  (forall t, emits s0 t k ls W (fun F => P F /\ while_at F id (here s) (here t)) -> Q tt t) ->
  wp (if (id =? -1)%Z then emit_op OP_WHILE else _ ← emit_extended_byte EOP_WHILE_ID; add_var_ref id) s Q.
Proof.
  unfold while_at. intros Hid HQ. destruct (Z.eqb_spec id (-1)) as [->|Hne]; steps; [|by destruct Hid|]; apply HQ; finish E F; norm_places; done.
Qed.

Lemma stmt_while id c body next : stmt_goal body -> stmt_goal next -> stmt_goal (STMT_WHILE id c body next).
Proof.
  intros H1 H2. begin_stmt. step. capture. stmt_steps. apply (wp_while id E); [done|]. clear E. intros t1 E. stmt_steps.
  apply wp_gets. rewrite (em_cur _ _ _ _ _ _ E). step. eapply (wp_loops E); [by rewrite (em_loops _ _ _ _ _ _ E)|]. clear E.
  intros t4 E L4. cbn beta. step. body_step H1. substmt H2. end_stmt. finish E F. facts.
  open_loop Htop. eexists _, _, p2. unfold while_at in *. norm_places. eauto 15.
Qed.

(** *** Handlers *)

(** The codes and labels that [generate_handlers] pushes; the labels are open. *)
Fixpoint handlers_pre (F : State) (excepts : Except_Arm) (hs : list open_label) (p q k : nat) : Prop :=
  match excepts, hs with
  | Exc_Nil, [] => q = p
  | Exc_Cons _ codes _ excepts, h :: hs => exists p1, codes_at F codes p p1 None k /\ eop_at F p1 EOP_PUSH_LABEL /\
      o_place h = p1 + 2 /\ o_next h = None /\ k + 2 <= max_stack F /\ handlers_pre F excepts hs (p1 + 3) q (k + 2)
  | _, _ => False
  end.

Lemma handlers_join F excepts : forall hs ts p q k, handlers_pre F excepts hs p q k ->
  Forall2 (fun h t => label_at F (o_place h) t) hs ts -> handlers_at F excepts ts p q k.
Proof.
  induction excepts as [|id codes st excepts IH]; intros [|h hs] ts p q k; cbn [handlers_pre]; try done; intros Hp Hl; inversion Hl; subst; [done|].
  destruct Hp as (p1 & Ha & Hb & Hc & _ & Hd & He). exists p1. rewrite <- Hc. do 4 (split; [done|]). by eapply IH.
Qed.

Lemma wp_codes codes {s0 s k ls W P} (E : emits s0 s k ls W P) {Q : unit -> State -> Prop} :
  codes_ok false k codes -> saved_stack s0 = None ->
  (forall t, emits s0 t (S k) ls W (fun F => P F /\ codes_at F codes (here s) (here t) None k) -> Q tt t) ->
  wp (generate_codes codes) s Q.
Proof.
  intros Hok Hs HQ. pose proof E as [R1 _ S1 C1 _ _ _ _ _].
  eapply (wp_makes E (codes_Ok codes false s ltac:(apply expr_goals) ltac:(by rewrite C1) R1 ltac:(done))).
  intros t Et. apply HQ. by rewrite S1, Hs, C1 in Et.
Qed.

Lemma generate_handlers_Ok excepts : forall s0 s k ls W P (Q : list nat -> State -> Prop), emits s0 s k ls W P ->
  handlers_ok k excepts -> saved_stack s0 = None ->
  (forall t hs, length hs = exc_length excepts -> Forall (fun h => o_next h = None) hs ->
    emits s0 t (k + 2 * exc_length excepts) ls (W ++ hs) (fun F => P F /\ handlers_pre F excepts hs (here s) (here t) k) ->
    Q (o_index <$> hs) t) ->
  wp (generate_handlers excepts) s Q.
Proof.
  induction excepts as [|id codes st excepts IH]; intros s0 s k ls W P Q E Hok Hs HQ; cbn [generate_handlers handlers_ok exc_length] in *.
  - step. apply (HQ s []); [done|done|]. rewrite Nat.add_0_r, app_nil_r. finish E F.
  - destruct_and? Hok. norm_places. step. apply (wp_codes codes E); [done|done|]. clear E. intros t E. steps.
    eapply (IH _ _ _ _ _ _ _ E); [done|done|]. clear E. intros u hs Hlen Hn E. cbn beta. step.
    match type of E with emits _ _ _ _ ((_ ++ [?o]) ++ _) _ => apply (HQ u (o :: hs)); [cbn; congruence|by constructor|] end.
    assoc E. replace (k + 2 * S (exc_length excepts)) with (S (S k) + 2 * exc_length excepts) by lia. finish E F.
    exists (here t). norm_places. cbn [o_place o_next]. auto 10.
Qed.

Definition excepts_goal (excepts : Except_Arm) : Prop := forall hs end_label s0 s k ls0 ls B es W P (Q : option nat -> State -> Prop),
  emits s0 s k ls (concat B ++ es ++ hs ++ W) P -> tracked ls0 ls B -> (forall F, P F -> Forall (known_loop F) ls0) ->
  ready s0 -> saved_stack s0 = None -> excepts_ok (loop_id <$> ls0) k excepts -> linked es end_label ->
  length hs = exc_length excepts -> Forall (fun h => o_next h = None) hs -> k < STACK_LIMIT ->
  (forall t ls' B' es' l ts, tracked ls0 ls' B' -> grown B B' -> linked es' l -> es ⊆ es' ->
    emits s0 t k ls' (concat B' ++ es' ++ W) (fun F => P F /\ Forall2 (fun h t => label_at F (o_place h) t) hs ts /\
      forall e, (forall o, o ∈ es' -> label_at F (o_place o) e) ->
        fact F ls0 B' (compiled_excepts F excepts ts (here s) (here t) e k)) -> Q l t) ->
  wp (generate_excepts excepts (o_index <$> hs) end_label) s Q.

Lemma excepts_nil : excepts_goal Exc_Nil.
Proof.
  intros [|] end_label s0 s k ls0 ls B es W P Q E T K R Hs Hok Hl Hlen Hn Hk HQ; [|done]. cbn [generate_excepts]. step.
  eapply (HQ _ _ _ _ _ []); [exact T|apply grown_refl|exact Hl|done|]. finish E F.
Qed.

Definition maybe_put (id : Z) : gen unit := if (0 <=? id)%Z then emit_put id else skip.
Lemma wp_maybe_put id {s0 s k ls W P} (E : emits s0 s k ls W P) {Q : unit -> State -> Prop} : ((id < 0)%Z \/ slot_ok id) ->
  (forall t, emits s0 t k ls W (fun F => P F /\ store_id_at F id (here s) (here t)) -> Q tt t) ->
  wp (if (0 <=? id)%Z then emit_put id else skip) s Q.
Proof.
  unfold store_id_at. intros Hid HQ. destruct (Z.leb_spec 0 id); steps; [by destruct Hid; [lia|]| |]; apply HQ; finish E F.
Qed.

Lemma excepts_cons id codes st excepts : stmt_goal st -> excepts_goal excepts -> excepts_goal (Exc_Cons id codes st excepts).
Proof.
  intros H1 H2 [|[hi hp hn] hs] end_label s0 s k ls0 ls B es W P Q E T K R Hs Hok Hl Hlen Hn Hk HQ; [done|].
  apply Forall_cons in Hn as [Hn0 Hn]. cbn in Hn0. subst hn. cbn [length exc_length] in Hlen. injection Hlen as Hlen.
  cbn [generate_excepts fmap list_fmap excepts_ok o_index] in *. destruct_and? Hok. step.
  define_one hp (concat B ++ es ++ hs ++ W). steps. apply (wp_maybe_put id E); [done|]. clear E. intros t2 E. steps. substmt H1.
  destruct excepts as [|id' codes' st' excepts'] eqn:Hx; [destruct hs; [|done]|].
  - step. eapply (HQ _ _ _ es end_label [_]); [exact T|more_grown|exact Hl|done|]. finish E F. split; [by repeat constructor|]. intros e He. facts.
    eexists _, _. norm_places. eauto 10.
  - rewrite <- Hx in *. steps.
    set (o := Open (length (fixups t5)) (here t5) end_label) in *.
    apply (emits_perm _ _ _ _ _ (concat B' ++ (o :: es) ++ hs ++ W)) in E; [|cbn [app]; solve_Permutation].
    eapply (H2 hs _ _ _ _ _ _ _ _ _ _ _ E T); [know|done|done|done|by split|done|done|done|]. clear E T.
    intros u ls2 B2 es2 l ts T G Hl2 Hes E. eapply (HQ _ _ _ es2 l (_ :: ts)); [exact T|more_grown|exact Hl2|intros o' Ho'; apply Hes; by right|].
    assert (Ho : o_place o = S (here t4)) by done. finish E F. split; [by constructor|]. intros e He.
    match goal with H : forall e, _ -> fact _ _ _ _ |- _ => specialize (H e He) end. facts. eexists _, (here t4). norm_places.
    do 2 (split; [done|]). split; [done|]. split; [done|]. split; [done|]. rewrite Hx in *.
    split; [done|]. split; [|done]. rewrite <- Ho. apply He, Hes. by left.
Qed.

Lemma stmt_try_except body excepts next : stmt_goal body -> excepts_goal excepts -> stmt_goal next ->
  stmt_goal (STMT_TRY_EXCEPT body excepts next).
Proof.
  intros H1 H2 H3. begin_stmt. step. eapply (generate_handlers_Ok excepts _ _ _ _ _ _ _ E); [done|done|]. clear E.
  intros t1 hs Hlen Hn E. cbn beta. rewrite length_fmap, Hlen. stmt_steps; [lia|].
  replace (k + 2 * exc_length excepts + 1) with (S (k + 2 * exc_length excepts)) in * by lia. substmt H1. stmt_steps.
  replace (S (k + 2 * exc_length excepts) - (2 * exc_length excepts + 1)) with k in E by lia.
  match type of E with emits _ _ _ _ ((concat ?B1 ++ _) ++ [?o]) _ =>
    apply (emits_perm _ _ _ _ _ (concat B1 ++ [o] ++ hs ++ W)) in E; [|cbn [app]; solve_Permutation]; set (o1 := o) in * end.
  eapply (H2 hs _ _ _ _ _ _ _ _ _ _ _ E T); [know|done|done|done|done|done|done|unfold STACK_LIMIT in *; lia|]. clear E T.
  intros u ls2 B2 es l ts T G Hl Hes E. cbn beta. step.
  apply (wp_define E es (concat B2 ++ W)); [by rewrite Permutation_app_swap_app|exact Hl|]. clear E. intros u2 E L2. substmt H3. end_stmt.
  assert (Ho1 : o_place o1 = here t4) by done.
  finish E F. match goal with H : forall e, _ -> fact _ _ _ _ |- _ => specialize (H _ ltac:(eassumption)) end.
  facts. exists (here t1), (here t3), (here u), ts. cbn zeta.
  replace (k + 2 * exc_length excepts + 1) with (S (k + 2 * exc_length excepts)) by lia. norm_places.
  split; [by eapply handlers_join|]. do 5 (split; [done|]). split; [|done].
  rewrite <- Ho1. match goal with H : forall o, _ |- _ => apply H end. apply Hes. by left.
Qed.

Lemma stmt_try_finally body handler next : stmt_goal body -> stmt_goal handler -> stmt_goal next ->
  stmt_goal (STMT_TRY_FINALLY body handler next).
Proof.
  intros H1 H2 H3. begin_stmt. norm_places. stmt_steps. substmt H1. stmt_steps.
  match type of E with emits _ _ _ _ (concat ?B1 ++ _ ++ [?o]) _ => define_one (o_place o) (concat B1 ++ W) end.
  stmt_steps. replace (k + 2) with (S (S k)) in * by lia. substmt H2. stmt_steps. substmt H3. end_stmt. finish E F.
  cbn [o_place] in *. places. facts. eexists _, _. norm_places. eauto 15.
Qed.

(** *** Forks *)

Lemma wp_gstate g {s0 s c ls W P} (E : emits s0 s c ls W P) {Q : unit -> State -> Prop} :
  literals (gstate s) `prefix_of` literals g -> fork_vectors (gstate s) `prefix_of` fork_vectors g -> Forall literal_ok (literals g) ->
  (forall t, emits s0 t c ls W (fun F => P F /\ literals g `prefix_of` literals (gstate F) /\
     fork_vectors g `prefix_of` fork_vectors (gstate F)) -> here t = here s -> Q tt t) -> wp (modify (with_gstate g)) s Q.
Proof.
  intros Hl Hf Hok HQ. exists tt, (with_gstate g s). split; [done|]. apply HQ; [|done].
  destruct E as [[[H1 H2 H3 H4 H5 H6] J2 J3] [G1 G2 G3 G4 G5 G6 G7] S1 C1 M1 L1 O1 N1 E1]. split; try done.
  - split; [|done|done]. split; try done. cbn. eapply Forall_impl; [exact H5|]. intros f Hr. by eapply ref_ok_mono.
  - split; try done; etrans; done.
  - intros O F Ho [F1 F2 F3 F4 F5 F6 F7]. split; [|done]. apply (E1 O); [done|]. split; try done; cbn in *; etrans; done.
Qed.

Lemma wp_fork bc {s0 s c ls W P} (E : emits s0 s c ls W P) {Q : unit -> State -> Prop} :
  (forall t, emits s0 t c ls W (fun F => P F /\ exists i, ref_at F (here s) FIXUP_FORK i /\ fork_vectors (gstate F) !! i = Some bc) ->
     here t = S (here s) -> Q tt t) -> wp (add_fork bc) s Q.
Proof.
  intros HQ. destruct (add_fork_Ok bc s (emits_inv _ _ _ _ _ _ E)) as (t & Ht & G & C & L & Hr & Hf). exists tt, t. split; [done|].
  apply HQ; [|done]. eapply emits_grows; try done. intros O F He _. eexists. split; [by eapply ref_at_ext|].
  eapply prefix_lookup_Some; [exact Hf|apply He].
Qed.

Lemma init_ready g : Forall literal_ok (literals g) -> ready (init_state g).
Proof. intros H. split; [|done|done]. split; try done. Qed.

(** A vector of its own: the body of a program or of a fork. *)
Lemma body_Ok body g : stmt_goal body -> stmt_ok [] 0 body -> Forall literal_ok (literals g) -> exists t q,
  (_ ← generate_stmt body; emit_op OP_DONE) (init_state g) = Ok (tt, t) /\ finished t /\
  compiled_stmt t body 0 q 0 [] /\ op_at t q OP_DONE /\ here t = S q /\
  literals g `prefix_of` literals (gstate t) /\ fork_vectors g `prefix_of` fork_vectors (gstate t).
Proof.
  intros H1 Hok Hl. pose proof (init_ready g Hl) as R. pose proof (emits_refl _ R) as E. cbn [init_state cur_stack loops] in E.
  assert (Hw : wp (_ ← generate_stmt body; emit_op OP_DONE) (init_state g) (fun _ t => exists q,
    emits (init_state g) t 0 [] [] (fun F => compiled_stmt F body 0 q 0 [] /\ op_at F q OP_DONE) /\ here t = S q)).
  { step. eapply (H1 _ _ _ [] [] [] [] _ _ E); [by split|by intros|done|done|exact Hok|]. clear E. intros t ls' B' T G E.
    inversion G; subst. inversion T as [T1 _]. inversion T1; subst. cbn [concat app] in E. step. exists (here t). split; [|done].
    eapply emits_weaken; [exact E|]. cbn beta. intros F [[_ Hf] Ho]. split; [|done]. apply Hf; constructor. }
  destruct Hw as ([] & t & Ht & q & E' & Hq). exists t, q. split; [exact Ht|]. destruct (emits_now _ _ _ _ _ _ E') as [Hc Hd].
  pose proof E' as [[R1 R2 R3] G1 S1 C1 M1 L1 O1 N1 E1]. split.
  { split; [done|done|by rewrite S1|]. cbn in M1. unfold STACK_LIMIT in M1. lia. }
  split; [done|]. split; [done|]. split; [done|]. split; apply G1.
Qed.

Definition fork_id_at (F : State) (id : Z) (p q : nat) : Prop :=
  if (0 <=? id)%Z then ref_at F p FIXUP_VAR_REF (Z.to_nat id) /\ q = p + 1 else q = p.
Lemma wp_maybe_ref id {s0 s k ls W P} (E : emits s0 s k ls W P) {Q : unit -> State -> Prop} : ((id < 0)%Z \/ slot_ok id) ->
  (forall t, emits s0 t k ls W (fun F => P F /\ fork_id_at F id (here s) (here t)) -> Q tt t) ->
  wp (if (0 <=? id)%Z then add_var_ref id else skip) s Q.
Proof.
  unfold fork_id_at. intros Hid HQ. destruct (Z.leb_spec 0 id); steps; [by destruct Hid; [lia|]| |]; apply HQ; finish E F; norm_places; done.
Qed.

Lemma stmt_fork id time body next : stmt_goal body -> stmt_goal next -> stmt_goal (STMT_FORK id time body next).
Proof.
  intros H1 H2. begin_stmt. stmt_steps; [by destruct (0 <=? id)%Z|]. apply wp_gets. step.
  destruct (body_Ok body (gstate t0) H1) as (u & q' & Hu & Hfin & Hc & Hd & Hq & Hl & Hf); [done|apply (emits_inv _ _ _ _ _ _ E)|].
  eexists (with_vector (the_vector u) (layout u), gstate u), t0. split.
  { rewrite Hu. cbn [mbind res_bind]. by rewrite (finish_code_Ok u Hfin). }
  step. apply (wp_gstate _ E); [done|done|apply Hfin|]. clear E. intros t1 E L1. cbn beta. step. apply (wp_fork _ E). clear E.
  intros t2 E L2. cbn beta. step.
  symmetry in Hq. apply (wp_maybe_ref id E); [done|]. clear E. intros t3 E. stmt_steps. substmt H2. end_stmt. finish E F.
  match goal with H : exists _, _ |- _ => destruct H as (i & Hi1 & Hi2) end. facts.
  exists (here t), (here t3), i, (with_vector (the_vector u) (layout u)), u, q'. unfold fork_id_at in *. norm_places.
  do 11 (split; [done|]). by split.
Qed.

(** *** Every statement *)

Lemma stmt_goals : (forall st, stmt_goal st) /\ (forall arms, arms_goal arms) /\ (forall excepts, excepts_goal excepts).
Proof.
  apply Stmt_mutind.
  - apply stmt_nil.
  - intros arms H1 otherwise H2 next H3. by apply stmt_cond.
  - intros id e body H1 next H2. by apply stmt_list.
  - intros id from to body H1 next H2. by apply stmt_range.
  - intros id c body H1 next H2. by apply stmt_while.
  - intros id time body H1 next H2. by apply stmt_fork.
  - intros e next H1. by apply stmt_expr.
  - intros e next H1. by apply stmt_return.
  - intros body H1 excepts H2 next H3. by apply stmt_try_except.
  - intros body H1 handler H2 next H3. by apply stmt_try_finally.
  - intros exit next H1. by apply stmt_break.
  - intros exit next H1. by apply stmt_continue.
  - apply arms_nil.
  - intros c st H1 arms H2. by apply arms_cons.
  - apply excepts_nil.
  - intros id codes st H1 excepts H2. by apply excepts_cons.
Qed.

(** ** Programs *)

(** What [generate_code] makes of a program: the code of its body, whose references can be
    found in its vector. *)
Lemma generate_code_Ok body version names : stmt_ok [] 0 body -> exists s q,
  generate_code body version names = Ok (mkProgram version (with_vector (the_vector s) (layout s)) (literals (gstate s))
    (fork_vectors (gstate s)) names) /\
  finished s /\ compiled_stmt s body 0 q 0 [] /\ op_at s q OP_DONE /\ here s = S q.
Proof.
  intros Hok. destruct (body_Ok body init_gstate ltac:(apply stmt_goals) Hok ltac:(constructor)) as (s & q & Hs & Hfin & Hc & Hd & Hq & _).
  exists s, q. split; [|done]. unfold generate_code, stmt_to_code. rewrite Hs. cbn [mbind res_bind].
  by rewrite (finish_code_Ok s Hfin).
Qed.
