(* ===== verification/CodeLimits.v ===== *)
(** * Where references do not fit (src/code_gen.c)

    The sizes of references are chosen by the largest number that is referred to, but 256 and
    65536 are taken for numbers that fit into one and two bytes, and references to the stack
    are left out when the size of the vector is counted. *)

From S2P Require Import Prelude CStrings Values Ast CodeGen.

Open Scope Z_scope.

(** The variable in slot 256 is read from slot 0. *)
Lemma variable_256_is_lost : main_vector <$> generate_code (STMT_EXPR (EXPR_ID 256) Stmt_Nil) 4 257 =
  Ok (mkBytecodes 1 1 1 1 1 [opcode_num OP_G_PUSH; 0; opcode_num OP_POP; opcode_num OP_DONE] 4 1).
Proof. vm_compute. reflexivity. Qed.

(** [x[$]] inside of [n] lists. *)
Fixpoint nested (n : nat) : Expr :=
  match n with
  | O => EXPR_INDEX (EXPR_ID 18) EXPR_LENGTH
  | S n => EXPR_LIST (Arg_Cons ARG_NORMAL (EXPR_VAR (Int 0)) (Arg_Cons ARG_NORMAL (nested n) Arg_Nil))
  end.

(** More than 256 values on the stack, one of which is referred to: the code is longer than
    the memory that is allocated for it. *)
Lemma deep_stack_overflows : generate_code (STMT_EXPR (nested 260) Stmt_Nil) 4 19 = Fail Segv.
Proof. vm_compute. reflexivity. Qed.
Example shallow_stack_fits : num_var_names <$> generate_code (STMT_EXPR (nested 200) Stmt_Nil) 4 19 = Ok 19%nat.
Proof. vm_compute. reflexivity. Qed.
