(* ===== verification/EvalEnv.v ===== *)
(** * Variables of an activation (src/eval_env.c, src/sym_table.h)

    An environment holds the variables of a program by their slots; the first ones are
    filled in by the interpreter. *)

From S2P Require Import Prelude CStrings Values.

Open Scope Z_scope.

(** ** Slots *)

Definition SLOT_NUM : nat := 0.
Definition SLOT_OBJ : nat := 1.
Definition SLOT_STR : nat := 2.
Definition SLOT_LIST : nat := 3.
Definition SLOT_ERR : nat := 4.
Definition SLOT_PLAYER : nat := 5.
Definition SLOT_THIS : nat := 6.
Definition SLOT_CALLER : nat := 7.
Definition SLOT_VERB : nat := 8.
Definition SLOT_ARGS : nat := 9.
Definition SLOT_ARGSTR : nat := 10.
Definition SLOT_DOBJ : nat := 11.
Definition SLOT_DOBJSTR : nat := 12.
Definition SLOT_PREPSTR : nat := 13.
Definition SLOT_IOBJ : nat := 14.
Definition SLOT_IOBJSTR : nat := 15.
Definition SLOT_INT : nat := 16.
Definition SLOT_FLOAT : nat := 17.

(** [DB_Version]: the version with the variables [INT] and [FLOAT]. *)
Definition DBV_Float : Z := 3.

(** ** Environments

    An environment has room for at least 32 variables, but only those of the program are
    initialized. *)

Definition new_rt_env (size : nat) : list Var := replicate size None_.

Definition copy_rt_env (from : list Var) (size : nat) : res (list Var) :=
  mapM (fun i => deref (from !! i)) (seq 0 size).

(** Writing past the variables of the program is not caught by C as long as there is room
    for it, but then nothing is ever read there. *)
Definition set_rt_env_var (slot : nat) (v : Var) (env : list Var) : res (list Var) :=
  if decide (slot < length env)%nat then Ok (<[slot := v]> env)
  else if decide (slot < 32)%nat then Ok env else Fail Segv.
Definition set_rt_env_obj (slot : nat) (o : Z) := set_rt_env_var slot (Obj o).
Definition set_rt_env_str (slot : nat) (s : cstr) := set_rt_env_var slot (Str s).

(** The types, without the flag for complex ones, are variables. *)
Definition fill_in_rt_consts (version : Z) (env : list Var) : res (list Var) :=
  env ← set_rt_env_var SLOT_ERR (Int 3) env;
  env ← set_rt_env_var SLOT_NUM (Int 0) env;
  env ← set_rt_env_var SLOT_STR (Int 2) env;
  env ← set_rt_env_var SLOT_OBJ (Int 1) env;
  env ← set_rt_env_var SLOT_LIST (Int 4) env;
  if version >=? DBV_Float then
    env ← set_rt_env_var SLOT_INT (Int 0) env;
    set_rt_env_var SLOT_FLOAT (Int 9) env
  else Ok env.

(** ** Lemmas *)

Lemma set_rt_env_var_Ok slot v env : (slot < 32)%nat -> exists env', set_rt_env_var slot v env = Ok env' /\
  length env' = length env /\ forall i, env' !! i = if decide (i = slot) then (fun _ => v) <$> env !! i else env !! i.
Proof.
  intros Hs. unfold set_rt_env_var. case_decide as Hl; [|rewrite decide_True by done]; eexists; (split; [done|]).
  - rewrite length_insert. split; [done|]. intros i. case_decide as Hi; [subst i|by rewrite list_lookup_insert_ne].
    rewrite list_lookup_insert_eq by done. destruct (lookup_lt_is_Some_2 env slot Hl) as [x ->]. done.
  - split; [done|]. intros i. case_decide as Hi; [|done]. subst i. by rewrite lookup_ge_None_2 by lia.
Qed.

Lemma copy_rt_env_Ok from : copy_rt_env from (length from) = Ok from.
Proof.
  unfold copy_rt_env. enough (H : forall pre l, mapM (fun i => deref ((pre ++ l) !! i)) (seq (length pre) (length l)) = Ok l) by apply (H []).
  intros pre l. revert pre. induction l as [|x l IH]; intros pre; [done|]. cbn [seq length mapM].
  rewrite lookup_app_r, Nat.sub_diag by lia. cbn [lookup list_lookup deref mbind res_bind].
  specialize (IH (pre ++ [x])). rewrite <- app_assoc, length_app in IH. cbn [app length] in IH. rewrite Nat.add_1_r in IH. by rewrite IH.
Qed.
