(* ===== verification/Vm.v ===== *)
(** * The state of the interpreter (src/execute.c, src/execute.h)

    Activations and their stacks; unwinding them, by errors, returns, aborts and exits from
    loops; and calling verbs.  Built-in functions, tasks and waifs are parameters, collected
    in the class [Host]. *)

From S2P Require Import Prelude CStrings Libc Values Lists Numbers Db Properties Verbs Ast CodeGen EvalEnv.

Open Scope Z_scope.

(** ** State *)

(** Why a FINALLY handler is executed. *)
Inductive Finally_Reason := FIN_FALL_THRU | FIN_RAISE | FIN_UNCAUGHT | FIN_RETURN | FIN_ABORT | FIN_EXIT.
#[export] Instance Finally_Reason_eq_dec : EqDecision Finally_Reason.
Proof. solve_decision. Defined.

Definition reason_num (why : Finally_Reason) : Z :=
  match why with FIN_FALL_THRU => 0 | FIN_RAISE => 1 | FIN_UNCAUGHT => 2 | FIN_RETURN => 3 | FIN_ABORT => 4 | FIN_EXIT => 5 end.

Inductive outcome := OUTCOME_DONE | OUTCOME_ABORTED | OUTCOME_BLOCKED.

(** [struct package] with the data that stays with a call, and with tasks. *)
Inductive bi_package (Data Susp : Type) :=
  | BI_RETURN (ret : Var)
  | BI_RAISE (code : Var) (msg : cstr) (value : Var)
  | BI_CALL (pc : Z) (data : option Data)
  | BI_SUSPEND (susp : Susp)
  | BI_KILL.
Arguments BI_RETURN {Data Susp} ret.
Arguments BI_RAISE {Data Susp} code msg value.
Arguments BI_CALL {Data Susp} pc data.
Arguments BI_SUSPEND {Data Susp} susp.
Arguments BI_KILL {Data Susp}.

Section State.
Context {Data World : Type}.

(** The stack has its top first; there is room for [rt_stack_size] values and at least 15. *)
Record activation := mkActivation {
  a_prog : Program; rt_env : list Var; rt_stack : list Var; rt_stack_size : nat;
  a_pc : nat; error_pc : nat; bi_func_pc : Z; bi_func_id : nat; bi_func_data : option Data; a_temp : Var;
  a_THIS : Var; a_this : Z; a_player : Z; a_progr : Z; a_vloc : Z; a_verb : cstr; a_verbname : cstr; a_debug : bool }.

(** The global variables.  The running activation is the first of [activ_stack]; the root is
    the last.  [root_activ_vector]: none for MAIN_VECTOR.  [handler]: [handler_verb_name] and
    [handler_verb_args]. *)
Record vm := mkVm {
  activ_stack : list activation; root_activ_vector : option nat; max_stack_size : Z;
  ticks_remaining : Z; task_timed_out : bool; handler : option (cstr * Var);
  vm_db : db; programs : gmap positive Program; world : World }.

Definition set_pc p a := mkActivation (a_prog a) (rt_env a) (rt_stack a) (rt_stack_size a) p (error_pc a) (bi_func_pc a)
  (bi_func_id a) (bi_func_data a) (a_temp a) (a_THIS a) (a_this a) (a_player a) (a_progr a) (a_vloc a) (a_verb a) (a_verbname a) (a_debug a).
Definition set_error_pc p a := mkActivation (a_prog a) (rt_env a) (rt_stack a) (rt_stack_size a) (a_pc a) p (bi_func_pc a)
  (bi_func_id a) (bi_func_data a) (a_temp a) (a_THIS a) (a_this a) (a_player a) (a_progr a) (a_vloc a) (a_verb a) (a_verbname a) (a_debug a).
Definition set_rt_stack st a := mkActivation (a_prog a) (rt_env a) st (rt_stack_size a) (a_pc a) (error_pc a) (bi_func_pc a)
  (bi_func_id a) (bi_func_data a) (a_temp a) (a_THIS a) (a_this a) (a_player a) (a_progr a) (a_vloc a) (a_verb a) (a_verbname a) (a_debug a).
Definition set_rt_env e a := mkActivation (a_prog a) e (rt_stack a) (rt_stack_size a) (a_pc a) (error_pc a) (bi_func_pc a)
  (bi_func_id a) (bi_func_data a) (a_temp a) (a_THIS a) (a_this a) (a_player a) (a_progr a) (a_vloc a) (a_verb a) (a_verbname a) (a_debug a).
Definition set_temp v a := mkActivation (a_prog a) (rt_env a) (rt_stack a) (rt_stack_size a) (a_pc a) (error_pc a) (bi_func_pc a)
  (bi_func_id a) (bi_func_data a) v (a_THIS a) (a_this a) (a_player a) (a_progr a) (a_vloc a) (a_verb a) (a_verbname a) (a_debug a).
Definition set_bi_func (id : nat) (pc : Z) (data : option Data) a := mkActivation (a_prog a) (rt_env a) (rt_stack a) (rt_stack_size a)
  (a_pc a) (error_pc a) pc id data (a_temp a) (a_THIS a) (a_this a) (a_player a) (a_progr a) (a_vloc a) (a_verb a)
  (a_verbname a) (a_debug a).
Definition set_progr p a := mkActivation (a_prog a) (rt_env a) (rt_stack a) (rt_stack_size a) (a_pc a) (error_pc a) (bi_func_pc a)
  (bi_func_id a) (bi_func_data a) (a_temp a) (a_THIS a) (a_this a) (a_player a) p (a_vloc a) (a_verb a) (a_verbname a) (a_debug a).

Definition with_activs acts m := mkVm acts (root_activ_vector m) (max_stack_size m) (ticks_remaining m) (task_timed_out m)
  (handler m) (vm_db m) (programs m) (world m).
Definition with_ticks t m := mkVm (activ_stack m) (root_activ_vector m) (max_stack_size m) t (task_timed_out m)
  (handler m) (vm_db m) (programs m) (world m).
Definition with_handler h m := mkVm (activ_stack m) (root_activ_vector m) (max_stack_size m) (ticks_remaining m) (task_timed_out m)
  h (vm_db m) (programs m) (world m).
Definition with_db d m := mkVm (activ_stack m) (root_activ_vector m) (max_stack_size m) (ticks_remaining m) (task_timed_out m)
  (handler m) d (programs m) (world m).
Definition with_timed_out b m := mkVm (activ_stack m) (root_activ_vector m) (max_stack_size m) (ticks_remaining m) b
  (handler m) (vm_db m) (programs m) (world m).
Definition with_root r m := mkVm (activ_stack m) r (max_stack_size m) (ticks_remaining m) (task_timed_out m)
  (handler m) (vm_db m) (programs m) (world m).
Definition with_max_stack_size n m := mkVm (activ_stack m) (root_activ_vector m) n (ticks_remaining m) (task_timed_out m)
  (handler m) (vm_db m) (programs m) (world m).

Definition RUN_ACTIV (m : vm) : res activation := deref (head (activ_stack m)).
Definition upd_activ (f : activation -> activation) (m : vm) : vm :=
  match activ_stack m with
  | [] => m
  | a :: acts => with_activs (f a :: acts) m
  end.

End State.
Arguments activation : clear implicits.
Arguments vm : clear implicits.

(** ** What the interpreter uses of other files *)

Class Host (Data Susp World : Type) := {
  (** The first argument: the number of the function; then its arguments or the value
      returned to it, where it is to go on, on whose behalf, and its data. *)
  call_bi_func : nat -> Var -> Z -> Z -> option Data -> vm Data World -> res (bi_package Data Susp * vm Data World);
  name_func_by_num : nat -> cstr;
  find_line_number : Program -> option nat -> nat -> Z;
  enqueue_forked_task2 : activation Data -> nat -> Z -> option nat -> vm Data World -> res (error * vm Data World);
  (** [suspend_task]: the package's procedure is given the machine. *)
  suspend_task : Susp -> vm Data World -> res (error * vm Data World);
  waif_class : positive -> vm Data World -> res Z;
  waif_get_prop : positive -> cstr -> Z -> vm Data World -> res (error * Var * vm Data World);
  waif_put_prop : positive -> cstr -> Var -> Z -> vm Data World -> res (error * vm Data World);
  pow : double -> double -> double * Z;
  null_program : positive }.

Section Unwinding.
Context {Data Susp World : Type} `{H : Host Data Susp World}.

(** ** The run-time stack *)

Definition RT_STACK_QUICKSIZE : nat := 15.

Definition PUSH (v : Var) (m : vm Data World) : res (vm Data World) :=
  a ← RUN_ACTIV m;
  if decide (length (rt_stack a) < Nat.max (rt_stack_size a) RT_STACK_QUICKSIZE)%nat
  then Ok (upd_activ (set_rt_stack (v :: rt_stack a)) m)
  else Fail Segv.

Definition POP (m : vm Data World) : res (Var * vm Data World) :=
  a ← RUN_ACTIV m;
  match rt_stack a with
  | v :: st => Ok (v, upd_activ (set_rt_stack st) m)
  | [] => Fail Segv
  end.

Definition TOP_RT_VALUE (m : vm Data World) : res Var := a ← RUN_ACTIV m; deref (rt_stack a !! 0%nat).
Definition NEXT_TOP_RT_VALUE (m : vm Data World) : res Var := a ← RUN_ACTIV m; deref (rt_stack a !! 1%nat).

(** ** Tracebacks *)

Definition MAIN_VECTOR : option nat := None.

(** The vector of the activation that has [below] others below it. *)
Definition vector_of (m : vm Data World) (below : nat) : option nat :=
  if decide (below = 0%nat) then root_activ_vector m else MAIN_VECTOR.

Definition activ_line (m : vm Data World) (below : nat) (a : activation Data) : Z :=
  find_line_number (a_prog a) (vector_of m below) (error_pc a).

(** [print_error_backtrace]: the lines that it passes to [output]. *)
Fixpoint backtrace_from (m : vm Data World) (msg : cstr) (top : bool) (acts : list (activation Data)) : list cstr :=
  match acts with
  | [] => [lit "(End of traceback)"]
  | a :: acts =>
      ((if top then [] else lit "... called from ") ++
       lit "#" ++ print_int (a_vloc a) ++ lit ":" ++ a_verbname a ++
       (if a_vloc a =? a_this a then [] else lit " (this == #" ++ print_int (a_this a) ++ lit ")") ++
       lit ", line " ++ print_int (activ_line m (length acts) a) ++
       (if top then lit ":  " ++ msg else []))
      :: (if (0 <? length acts)%nat && negb (bi_func_pc a =? 0)
          then [lit "... called from built-in function " ++ name_func_by_num (bi_func_id a) ++ lit "()"] else [])
      ++ backtrace_from m msg false acts
  end.
Definition error_backtrace_list (msg : cstr) (m : vm Data World) : Var :=
  List (Str <$> backtrace_from m msg true (activ_stack m)).

(** [make_stack_list], from the running activation down to number [start]. *)
Fixpoint make_stack_list (m : vm Data World) (acts : list (activation Data)) (start : nat) (include : bool)
    (line_numbers_too : bool) : list Var :=
  match acts with
  | [] => []
  | a :: acts =>
      let i := length acts in
      if (i <? start)%nat then []
      else
        (if include then
           [List ([a_THIS a; Str (a_verb a); Obj (a_progr a); Obj (a_vloc a); Obj (a_player a)] ++
                  if line_numbers_too then [Int (activ_line m i a)] else [])]
         else []) ++
        (if negb (i =? start)%nat && negb (bi_func_pc a =? 0) then
           [List ([Obj NOTHING; Str (name_func_by_num (bi_func_id a)); Obj NOTHING; Obj NOTHING; Obj (a_player a)] ++
                  if line_numbers_too then [Int (bi_func_pc a)] else [])]
         else []) ++
        make_stack_list m acts start true line_numbers_too
  end.

(** ** Handlers on the stack *)

(** The [n] handlers below a marker, the lowest first, and what is below them. *)
Fixpoint take_handlers (n : nat) (st : list Var) (acc : list (Var * Var)) : res (list (Var * Var) * list Var) :=
  match n with
  | O => Ok (acc, st)
  | S n =>
      match st with
      | label :: codes :: st => take_handlers n st ((codes, label) :: acc)
      | _ => Fail Segv
      end
  end.

(** [vv->type != TYPE_LIST || ismember(code, *vv, 0)]. *)
Definition catches (code codes : Var) : res bool :=
  match codes with
  | List l => i ← ismember code l false; Ok (negb (i =? 0))
  | _ => Ok true
  end.

Fixpoint find_code (code : Var) (hs : list (Var * Var)) : res (option Var) :=
  match hs with
  | [] => Ok None
  | (codes, label) :: hs =>
      b ← catches code codes;
      if (b : bool) then Ok (Some label) else find_code code hs
  end.

(** Is there a handler for [code] on the stack? *)
Fixpoint has_handler (fuel : nat) (code : Var) (st : list Var) : res bool :=
  match fuel with
  | O => Fail OutOfFuel
  | S fuel =>
      match st with
      | [] => Ok false
      | Catch n :: st =>
          '(hs, below) ← take_handlers (Z.to_nat n) st [];
          r ← find_code code hs;
          match r with Some _ => Ok true | None => has_handler fuel code below end
      | _ :: st => has_handler fuel code st
      end
  end.

(** The number of the topmost activation with a handler. *)
Fixpoint find_handler_activ (code : Var) (acts : list (activation Data)) : res (option nat) :=
  match acts with
  | [] => Ok None
  | a :: acts =>
      b ← has_handler (S (length (rt_stack a))) code (rt_stack a);
      if (b : bool) then Ok (Some (length acts)) else find_handler_activ code acts
  end.

(** Where the loop over a stack stops: at a handler, with the new stack and where to go on, or
    at the goal. *)
Inductive rt_result := At_handler (st : list Var) (pc : Z) | At_goal (st : list Var).

Fixpoint unwind_rt (fuel : nat) (why : Finally_Reason) (value code : Var) (goal : nat) (st : list Var) : res rt_result :=
  match fuel with
  | O => Fail OutOfFuel
  | S fuel =>
      match st with
      | [] => Ok (At_goal [])
      | v :: rest =>
          if (length st <=? goal)%nat then Ok (At_goal st)
          else
            match v with
            | Finally label =>
                if decide (why = FIN_ABORT) then unwind_rt fuel why value code goal rest
                else Ok (At_handler (value :: Int (reason_num why) :: rest) label)
            | Catch n =>
                if decide (why = FIN_RAISE) then
                  '(hs, below) ← take_handlers (Z.to_nat n) rest [];
                  r ← find_code code hs;
                  match r with
                  | Some (Int label) => Ok (At_handler (value :: below) label)
                  | Some _ => Fail (Panic "Non-numeric PC value on stack!")
                  | None => unwind_rt fuel why value code goal below
                  end
                else unwind_rt fuel why value code goal rest
            | _ => unwind_rt fuel why value code goal rest
            end
      end
  end.

(** ** Unwinding *)

(** Whether the interpreter goes on, or the whole stack is unwound. *)
Inductive unwound := Resumed | Unwound (o : outcome).

(** A built-in function that is not to go on receives zero as a returned value, and zero from
    all verbs that it calls then.  [progr]: in the slot of the activation that was freed. *)
Fixpoint squelch (fuel : nat) (id : nat) (pc progr : Z) (data : option Data) (m : vm Data World) : res (vm Data World) :=
  match fuel with
  | O => Fail OutOfFuel
  | S fuel =>
      '(p, m) ← call_bi_func id zero_var pc progr data m;
      match p with
      | BI_CALL pc data =>
          a ← RUN_ACTIV m;
          let m := with_activs (tail (activ_stack m)) m in
          if pc =? 0 then Ok m else squelch fuel id pc (a_progr a) data m
      | _ => Ok m
      end
  end.

(** [raise_error]; [unwind] is [unwind_stack]. *)
Definition raise_error_with (unwind : Finally_Reason -> Var -> vm Data World -> res (unwound * vm Data World))
    (code : Var) (msg : cstr) (value : Var) (m : vm Data World) : res (unwound * vm Data World) :=
  frame ← find_handler_activ code (activ_stack m);
  match frame with
  | Some frame =>
      unwind FIN_RAISE (List [code; Str msg; value; List (make_stack_list m (activ_stack m) frame true true)]) m
  | None =>
      let info := List [code; Str msg; value; List (make_stack_list m (activ_stack m) 0 true true); error_backtrace_list msg m] in
      unwind FIN_UNCAUGHT zero_var (with_handler (Some (lit "handle_uncaught_error", info)) m)
  end.

Definition exit_goal (why : Finally_Reason) (value : Var) : res (nat * Z) :=
  match why with
  | FIN_EXIT => match value with List (Int n :: Int pc :: _) => Ok (Z.to_nat n, pc) | _ => Fail Segv end
  | _ => Ok (0%nat, 0)
  end.

(** [value.v.list[1]]. *)
Definition raise_code (why : Finally_Reason) (value : Var) : res Var :=
  match why with
  | FIN_RAISE => match value with List (code :: _) => Ok code | _ => Fail Segv end
  | _ => Ok zero_var
  end.

(** Fuel: one for every activation, and for every call of itself. *)
Fixpoint unwind_stack (fuel : nat) (why : Finally_Reason) (value : Var) (m : vm Data World) : res (unwound * vm Data World) :=
  match fuel with
  | O => Fail OutOfFuel
  | S fuel =>
      code ← raise_code why value;
      a ← RUN_ACTIV m;
      '(goal, exit_pc) ← exit_goal why value;
      r ← unwind_rt (S (length (rt_stack a))) why value code goal (rt_stack a);
      match r with
      | At_handler st pc => Ok (Resumed, upd_activ (fun a => set_pc (Z.to_nat pc) (set_rt_stack st a)) m)
      | At_goal st =>
          if decide (why = FIN_EXIT) then
            Ok (Resumed, upd_activ (fun a => set_pc (Z.to_nat exit_pc) (set_rt_stack st a)) m)
          else
            match tail (activ_stack m) with
            | [] =>
                Ok (Unwound (if decide (why = FIN_RETURN) then OUTCOME_DONE else OUTCOME_ABORTED),
                    upd_activ (set_rt_stack []) m)
            | caller :: _ as acts =>
                let m := with_activs acts m in
                if negb (bi_func_pc a =? 0) then
                  if decide (why = FIN_RETURN) then
                    '(p, m) ← call_bi_func (bi_func_id a) value (bi_func_pc a) (a_progr caller) (bi_func_data a) m;
                    match p with
                    | BI_RETURN ret => m ← PUSH ret m; Ok (Resumed, m)
                    | BI_RAISE code msg v =>
                        a ← RUN_ACTIV m;
                        if (a_debug a : bool) then raise_error_with (unwind_stack fuel) code msg v m
                        else m ← PUSH code m; Ok (Resumed, m)
                    | BI_SUSPEND susp =>
                        '(e, m) ← suspend_task susp m;
                        if decide (e = E_NONE) then Ok (Unwound OUTCOME_BLOCKED, m)
                        else unwind_stack fuel FIN_RAISE (Err e) m
                    | BI_CALL pc data => Ok (Resumed, upd_activ (set_bi_func (bi_func_id a) pc data) m)
                    | BI_KILL => unwind_stack fuel FIN_ABORT zero_var m
                    end
                  else
                    m ← squelch 256 (bi_func_id a) (bi_func_pc a) (a_progr a) (bi_func_data a) m;
                    unwind_stack fuel why value m
                else if decide (why = FIN_RETURN) then m ← PUSH value m; Ok (Resumed, m)
                else unwind_stack fuel why value m
            end
      end
  end.

Definition unwind (why : Finally_Reason) (value : Var) (m : vm Data World) : res (unwound * vm Data World) :=
  unwind_stack (length (activ_stack m) + 2) why value m.
Definition raise_error := raise_error_with unwind.

Definition abort_task (is_ticks : bool) (m : vm Data World) : res (vm Data World) :=
  let msg := if is_ticks then lit "Task ran out of ticks" else lit "Task ran out of seconds" in
  let value := List [Str (if is_ticks then lit "ticks" else lit "seconds");
                     List (make_stack_list m (activ_stack m) 0 true true); error_backtrace_list msg m] in
  '(_, m) ← unwind FIN_ABORT zero_var (with_handler (Some (lit "handle_task_timeout", value)) m);
  Ok m.

(** ** Calling verbs *)

Definition WAIF_VERB_PREFIX : Z := 58.

(** [top_activ_stack < max_stack_size - 1], unsigned. *)
Definition room_for_activation (m : vm Data World) : bool :=
  Z.of_nat (length (activ_stack m)) - 1 <? u32 (max_stack_size m - 1).

(** [db_find_callable_verb] and what is read of the handle. *)
Record callable := mkCallable { c_prog : Program; c_version : Z; c_progr : Z; c_vloc : Z; c_names : cstr; c_debug : bool }.
Definition find_callable (where_ : Z) (vname : cstr) (m : vm Data World) : res (option callable * vm Data World) :=
  '(h, d) ← db_find_callable_verb (fun _ => false) where_ vname (vm_db m);
  let m := with_db d m in
  match h with
  | NullHandle => Ok (None, m)
  | _ =>
      p ← db_verb_program null_program d h;
      prog ← deref (programs m !! p);
      own ← db_verb_owner d h;
      def ← db_verb_definer d h;
      names ← db_verb_names d h;
      fl ← db_verb_flags d h;
      Ok (Some (mkCallable prog (pr_version prog) own def names (negb (Z.land fl VF_DEBUG =? 0))), m)
  end.

(** The activation for a verb, called from [caller]. *)
Definition verb_activation (c : callable) (this : Z) (vname : cstr) (THIS args : Var) (caller : activation Data)
    (wizard : bool) : res (activation Data) :=
  let program := c_prog c in
  env ← fill_in_rt_consts (pr_version program) (new_rt_env (num_var_names program));
  env ← set_rt_env_var SLOT_THIS THIS env;
  env ← set_rt_env_var SLOT_CALLER (a_THIS caller) env;
  let ENV_COPY slot env := v ← deref (rt_env caller !! slot); set_rt_env_var slot v env in
  env ← ENV_COPY SLOT_ARGSTR env;
  env ← ENV_COPY SLOT_DOBJ env;
  env ← ENV_COPY SLOT_DOBJSTR env;
  env ← ENV_COPY SLOT_PREPSTR env;
  env ← ENV_COPY SLOT_IOBJ env;
  env ← ENV_COPY SLOT_IOBJSTR env;
  p ← deref (rt_env caller !! SLOT_PLAYER);
  let player := match p with Obj p => if wizard then p else a_player caller | _ => a_player caller end in
  env ← set_rt_env_obj SLOT_PLAYER player env;
  env ← set_rt_env_str SLOT_VERB (if cur vname =? WAIF_VERB_PREFIX then drop 1 vname else vname) env;
  env ← set_rt_env_var SLOT_ARGS args env;
  Ok (mkActivation program env [] (bc_max_stack (main_vector program)) 0 0 0 0 None None_
        THIS this player (c_progr c) (c_vloc c) vname (c_names c) (c_debug c)).

Definition call_verb2 (this : Z) (vname : cstr) (THIS args : Var) (do_pass : bool) (m : vm Data World)
    : res (error * vm Data World) :=
  a ← RUN_ACTIV m;
  where_ ← (if do_pass then
              if valid (vm_db m) (a_vloc a) then Some <$> db_object_parent (vm_db m) (a_vloc a) else Ok None
            else Ok (Some this));
  match where_ with
  | None => Ok (E_INVIND, m)
  | Some where_ =>
      if negb (valid (vm_db m) where_) then Ok (E_INVIND, m)
      else
        '(c, m) ← find_callable where_ vname m;
        match c with
        | None => Ok (E_VERBNF, m)
        | Some c =>
            if negb (room_for_activation m) then Ok (E_MAXREC, m)
            else
              wizard ← is_wizard (vm_db m) (a_progr a);
              callee ← verb_activation c this vname THIS args a wizard;
              Ok (E_NONE, with_activs (callee :: activ_stack m) m)
        end
  end.

(** [call_verb]: THIS is the object. *)
Definition call_verb (this : Z) (vname : cstr) (args : Var) (do_pass : bool) : vm Data World -> res (error * vm Data World) :=
  call_verb2 this vname (Obj this) args do_pass.

End Unwinding.
