(* ===== verification/VmRun.v ===== *)
(** * The interpreter (src/execute.c: [run])

    One instruction at a time.  The variables [bv] and [rts] of [run], which are saved in the
    running activation before anything else can look at them, are the fields of the activation
    here.  The options WAIF_DICT and IGNORE_PROP_PROTECTED are on and BYTECODE_REDUCE_REF is
    off, as they are by default; what goes to the server's log is left out. *)

From S2P Require Import Prelude Utf CStrings Values Lists Numbers Db Properties Ast CodeGen EvalEnv Vm.

Open Scope Z_scope.

(** What an instruction leads to: the next one, or the end of [run] with its [result]. *)
Inductive next_step := Next | Stop (o : outcome) (result : option Var).

Section Run.
Context {Data Susp World : Type} `{H : Host Data Susp World}.

(** ** The monad of the instructions *)

Definition act (A : Type) : Type := vm Data World -> res (A * vm Data World).
#[local] Instance act_ret : MRet act := fun A a m => Ok (a, m).
#[local] Instance act_bind : MBind act := fun A B f x m => '(a, m) ← x m; f a m.

Definition liftM {A} (x : res A) : act A := fun m => a ← x; Ok (a, m).
Definition observe {A} (f : vm Data World -> res A) : act A := fun m => a ← f m; Ok (a, m).
Definition alter_ (f : vm Data World -> vm Data World) : act unit := fun m => Ok (tt, f m).
Definition push (v : Var) : act unit := fun m => m ← PUSH v m; Ok (tt, m).
Definition pop : act Var := POP.
Definition run_activ : act (activation Data) := observe RUN_ACTIV.
Definition next_op : act next_step := mret Next.

(** ** Reading the code *)

(** [bc] of LOAD_STATE_VARIABLES. *)
Definition code_of (m : vm Data World) : res Bytecodes :=
  a ← RUN_ACTIV m;
  match vector_of m (length (tail (activ_stack m))) with
  | None => Ok (main_vector (a_prog a))
  | Some i => deref (pr_fork_vectors (a_prog a) !! i)
  end.

Definition code_byte (bc : Bytecodes) (i : nat) : res Z := deref (vector bc !! i).

(** The operands that READ_BYTES adds up. *)
Definition bytes_at (bc : Bytecodes) (pc nb : nat) : res Z :=
  if decide (nb = 1%nat) then code_byte bc pc
  else if decide (nb = 2%nat) then
    a ← code_byte bc pc; b ← code_byte bc (pc + 1); Ok (256 * a + b)
  else
    a ← code_byte bc (pc + nb - 4); b ← code_byte bc (pc + nb - 3); c ← code_byte bc (pc + nb - 2); d ← code_byte bc (pc + nb - 1);
    Ok (2 ^ 24 * a + 2 ^ 16 * b + 2 ^ 8 * c + d).

Definition SKIP_BYTES (nb : nat) : act unit := alter_ (upd_activ (fun a => set_pc (a_pc a + nb) a)).
Definition READ_BYTES (nb : nat) : act nat :=
  bc ← observe code_of;
  a ← run_activ;
  v ← liftM (bytes_at bc (a_pc a) nb);
  _ ← SKIP_BYTES nb;
  mret (Z.to_nat v).
Definition JUMP (label : nat) : act unit := alter_ (upd_activ (set_pc label)).

Definition read_label : act nat := bc ← observe code_of; READ_BYTES (numbytes_label bc).
Definition skip_label : act unit := bc ← observe code_of; SKIP_BYTES (numbytes_label bc).
Definition read_var_name : act nat := bc ← observe code_of; READ_BYTES (numbytes_var_name bc).
Definition skip_var_name : act unit := bc ← observe code_of; SKIP_BYTES (numbytes_var_name bc).
Definition read_stack_ref : act nat := bc ← observe code_of; READ_BYTES (numbytes_stack bc).

(** The byte at [bv]. *)
Definition peek (ahead : nat) : act Z :=
  bc ← observe code_of; a ← run_activ; liftM (code_byte bc (a_pc a + ahead)).

(** ** Variables and errors *)

(** What is in the slots of the environment behind those of the program is not initialized. *)
Definition get_var (slot : nat) : act Var := a ← run_activ; liftM (deref (rt_env a !! slot)).
Definition put_var (slot : nat) (v : Var) : act unit :=
  _ ← get_var slot; alter_ (upd_activ (fun a => set_rt_env (<[slot := v]> (rt_env a)) a)).

(** RAISE_ERROR, with what follows it if it does not leave the instruction;
    [make_error_pack]. *)
Definition RAISE_ERROR (e : error) (otherwise : act next_step) : act next_step :=
  a ← run_activ;
  if (a_debug a : bool) then
    u ← raise_error (Err e) (unparse_error e) zero_var;
    mret (match u with Resumed => Next | Unwound _ => Stop OUTCOME_ABORTED None end)
  else otherwise.

Definition PUSH_ERROR (e : error) : act next_step := RAISE_ERROR e (_ ← push (Err e); next_op).

Definition push_value (v : Var) : act next_step := _ ← push v; next_op.

(** The end of many instructions: a value is pushed, or an error is raised. *)
Definition push_result (r : error + Var) : act next_step :=
  match r with inl e => PUSH_ERROR e | inr v => push_value v end.
(** [ans.type == TYPE_ERR]. *)
Definition answer (ans : Var) : error + Var := match ans with Err e => inl e | v => inr v end.
Definition push_answer (ans : Var) : act next_step := push_result (answer ans).

(** ** Control *)

(** [do_test]. *)
Definition do_test : act next_step :=
  cond ← pop;
  if is_true cond then _ ← skip_label; next_op
  else lab ← read_label; _ ← JUMP lab; next_op.

Definition op_jump : act next_step := lab ← read_label; _ ← JUMP lab; next_op.

(** The last turn of a loop, or one that cannot be done. *)
Definition leave_loop (lab : nat) : act next_step := _ ← pop; _ ← pop; _ ← JUMP lab; next_op.

Definition set_top (v : Var) : act unit := _ ← pop; push v.
Definition set_next_top (v : Var) : act unit := t ← pop; _ ← pop; _ ← push v; push t.

Definition op_for_list : act next_step :=
  id ← read_var_name;
  lab ← read_label;
  count ← observe TOP_RT_VALUE;
  l ← observe NEXT_TOP_RT_VALUE;
  match l with
  | List xs =>
      n ← liftM (num count);
      if n >? len xs then leave_loop lab
      else
        v ← liftM (if n <? 1 then Fail Undefined else deref (xs !! Z.to_nat (n - 1)));
        _ ← put_var id v;
        _ ← set_top (Int (wrap64 (n + 1)));
        next_op
  | _ => RAISE_ERROR E_TYPE (leave_loop lab)
  end.

Definition MAXOBJ : Z := MAXINT.

(** [mk]: the constructor of both values.  The bounds stay in range: the last turn moves the
    end below the start. *)
Definition range_turn (mk : Z -> Var) (max from to : Z) (id lab : nat) : act next_step :=
  if from >? to then leave_loop lab
  else
    _ ← put_var id (mk from);
    _ ← (if from <? max then set_next_top (mk (from + 1)) else set_top (mk (wrap64 (to - 1))));
    next_op.

Definition op_for_range : act next_step :=
  id ← read_var_name;
  lab ← read_label;
  to ← observe TOP_RT_VALUE;
  from ← observe NEXT_TOP_RT_VALUE;
  match to, from with
  | Int to, Int from => range_turn Int MAXINT from to id lab
  | Obj to, Obj from => range_turn Obj MAXOBJ from to id lab
  | _, _ => RAISE_ERROR E_TYPE (leave_loop lab)
  end.

Definition op_pop : act next_step := _ ← pop; next_op.

Definition op_imm : act next_step :=
  bc ← observe code_of;
  b ← peek (numbytes_literal bc);
  if b =? opcode_num OP_POP then _ ← SKIP_BYTES (numbytes_literal bc + 1); next_op
  else
    slot ← READ_BYTES (numbytes_literal bc);
    a ← run_activ;
    v ← liftM (deref (pr_literals (a_prog a) !! slot));
    push_value v.

(** ** Lists *)

Definition op_list_add_tail : act next_step :=
  tail ← pop;
  l ← pop;
  match l with
  | List xs => ys ← liftM (listappend xs tail); push_value (List ys)
  | _ => PUSH_ERROR E_TYPE
  end.

Definition op_list_append : act next_step :=
  tail ← pop;
  l ← pop;
  match tail, l with
  | List ys, List xs => zs ← liftM (listconcat xs ys); push_value (List zs)
  | _, _ => PUSH_ERROR E_TYPE
  end.

Definition op_make_singleton_list : act next_step := v ← pop; push_value (List [v]).

Definition op_check_list_for_splice : act next_step :=
  v ← observe TOP_RT_VALUE;
  match v with
  | List _ => next_op
  | _ => _ ← pop; PUSH_ERROR E_TYPE
  end.

(** Indexing a waif calls a verb of its class. *)
Definition waif_index_call (vname : cstr) (w : positive) (args : list Var) : act next_step :=
  class ← observe (waif_class w);
  d ← observe (fun m => Ok (vm_db m));
  err ← (if negb (valid d class) then mret E_INVIND
         else
           own ← liftM (db_object_owner d class);
           wiz ← liftM (is_wizard d own);
           if negb wiz then mret E_TYPE
           else
             err ← call_verb2 class vname (WaifV w) (List args) false;
             mret (if decide (err = E_VERBNF) then E_TYPE else err));
  if decide (err = E_NONE) then next_op else PUSH_ERROR err.

Definition WAIF_INDEX_VERB : cstr := lit ":_index".
Definition WAIF_INDEXSET_VERB : cstr := lit ":_set_index".

Definition op_indexset_step : act next_step :=
  value ← pop;
  index ← pop;
  l ← pop;
  match l with
  | WaifV w => waif_index_call WAIF_INDEXSET_VERB w [index; value]
  | _ => ans ← liftM (op_indexset l index value); push_answer ans
  end.

(** An element, which may be an error, of a list. *)
Definition element (xs : list Var) (i : Z) : res (error + Var) :=
  if (i <=? 0) || (i >? len xs) then Ok (inl E_RANGE) else inr <$> deref (xs !! Z.to_nat (i - 1)).
Definition index_result (l index : Var) : res (error + Var) :=
  match l, index with
  | List xs, Int i => element xs i
  | _, _ => answer <$> op_ref l index
  end.

Definition op_ref_step : act next_step :=
  index ← pop;
  l ← pop;
  match l with
  | WaifV w => waif_index_call WAIF_INDEX_VERB w [index]
  | _ => r ← liftM (index_result l index); push_result r
  end.

(** The operands stay on the stack. *)
Definition push_ref_result (l index : Var) : res (error + Var) :=
  match index, l with
  | Int i, List xs => element xs i
  | _, _ => Ok (inl E_TYPE)
  end.
Definition op_push_ref : act next_step :=
  index ← observe TOP_RT_VALUE;
  l ← observe NEXT_TOP_RT_VALUE;
  r ← liftM (push_ref_result l index);
  push_result r.

Definition op_range_ref_step : act next_step :=
  to ← pop;
  from ← pop;
  base ← pop;
  ans ← liftM (op_range_ref base from to);
  push_answer ans.

Definition op_put_temp : act next_step :=
  v ← observe TOP_RT_VALUE; _ ← alter_ (upd_activ (set_temp v)); next_op.
Definition op_push_temp : act next_step :=
  a ← run_activ; _ ← push (a_temp a); _ ← alter_ (upd_activ (set_temp None_)); next_op.

(** ** Comparisons, arithmetic and logic *)

Definition is_number (v : Var) : bool := match v with Int _ | Float _ => true | _ => false end.
Definition truth (b : bool) : Var := Int (if b then 1 else 0).

Definition op_equal (negated : bool) : act next_step :=
  rhs ← pop;
  lhs ← pop;
  e ← liftM (equality rhs lhs false);
  push_value (truth (xorb negated e)).

(** [inl]: an error; [inr]: [comparison]. *)
Definition comparison (lhs rhs : Var) : res (error + Z) :=
  if is_number lhs && is_number rhs then
    ans ← compare_numbers lhs rhs;
    match ans with
    | Err e => Ok (inl e)
    | Int n => Ok (inr n)
    | _ => Fail Undefined
    end
  else if negb (bool_decide (type_of rhs = type_of lhs)) || bool_decide (type_of rhs = TYPE_LIST) then Ok (inl E_TYPE)
  else
    match lhs, rhs with
    | Obj a, Obj b => Ok (inr (compare_integers a b))
    | Err a, Err b => Ok (inr (error_num a - error_num b))
    | Str a, Str b => Ok (inr (mystrcasecmp a b))
    | _, _ => Ok (inr 0)
    end.

(** [test]: the comparison with zero that the opcode makes. *)
Definition op_compare (test : Z -> bool) : act next_step :=
  rhs ← pop;
  lhs ← pop;
  c ← liftM (comparison lhs rhs);
  match c with
  | inl e => PUSH_ERROR e
  | inr n => push_value (truth (test n))
  end.

Definition op_in : act next_step :=
  rhs ← pop;
  lhs ← pop;
  match rhs with
  | List l => i ← liftM (ismember lhs l false); push_value (Int i)
  | _ => PUSH_ERROR E_TYPE
  end.

Definition arith_ans (f : Var -> Var -> res Var) (lhs rhs : Var) : res Var :=
  if is_number lhs && is_number rhs then f lhs rhs else Ok (Err E_TYPE).

Definition add_ans (lhs rhs : Var) : res Var :=
  match lhs, rhs with
  | Str a, Str b => Ok (Str (a ++ b))
  | _, _ => arith_ans do_add lhs rhs
  end.

Definition op_binary (f : Var -> Var -> res Var) : act next_step :=
  rhs ← pop;
  lhs ← pop;
  ans ← liftM (f lhs rhs);
  push_answer ans.

(** The left operand stays on the stack when it decides. *)
Definition op_and_or (is_or : bool) : act next_step :=
  lab ← read_label;
  lhs ← observe TOP_RT_VALUE;
  if Bool.eqb (is_true lhs) is_or then _ ← JUMP lab; next_op
  else _ ← pop; next_op.

Definition op_not : act next_step := v ← pop; push_value (truth (negb (is_true v))).

Definition unary_minus_ans (v : Var) : Var :=
  match v with
  | Int n => Int (wrap64 (- n))
  | Float f => Float (SFopp f)
  | _ => Err E_TYPE
  end.
Definition complement_ans (v : Var) : Var := match v with Int n => Int (Z.lnot n) | _ => Err E_TYPE end.
Definition op_unary (f : Var -> Var) : act next_step := v ← pop; push_answer (f v).

Definition bit_ans (f : Z -> Z -> Z) (lhs rhs : Var) : res Var :=
  match lhs, rhs with
  | Int a, Int b => Ok (Int (f a b))
  | _, _ => Ok (Err E_TYPE)
  end.

(** [HIGHONES(c)]: shifting by the whole width, when [c] is zero, is undefined. *)
Definition HIGHONES (c : Z) : res Z :=
  if 64 - c >=? 64 then Fail Undefined else Ok (wrap64 (Z.shiftl (Z.lnot 0) (64 - c))).
Definition LOWONES (c : Z) : res Z := h ← HIGHONES c; Ok (Z.lnot h).
Definition LOGSHIFTR (a b : Z) : res Z := lo ← LOWONES b; Ok (Z.land (wrap64 (Z.shiftr (a mod 2 ^ 64) b)) lo).
Definition SHIFTR (a b : Z) : res Z :=
  x ← LOGSHIFTR a b;
  y ← (if a <? 0 then HIGHONES b else Ok 0);
  Ok (Z.lxor x y).
Definition SHL (a b : Z) : res Z := Ok (wrap64 (Z.shiftl a b)).

Definition shift_ans (f : Z -> Z -> res Z) (lhs rhs : Var) : res Var :=
  match lhs, rhs with
  | Int a, Int b => if (b <? 0) || (b >=? 64) then Ok (Err E_INVARG) else Int <$> f a b
  | _, _ => Ok (Err E_TYPE)
  end.

(** ** Variables and properties *)

Definition op_g_put : act next_step :=
  id ← read_var_name; v ← observe TOP_RT_VALUE; _ ← put_var id v; next_op.

Definition push_var (slot : nat) : act next_step :=
  v ← get_var slot;
  match v with
  | None_ => PUSH_ERROR E_VARNF
  | _ => push_value v
  end.
Definition op_g_push : act next_step := id ← read_var_name; push_var id.

(** An OP_POP that follows is done as well. *)
Definition op_put (slot : nat) : act next_step :=
  _ ← get_var slot;
  b ← peek 0;
  if b =? opcode_num OP_POP then v ← pop; _ ← SKIP_BYTES 1; _ ← put_var slot v; next_op
  else v ← observe TOP_RT_VALUE; _ ← put_var slot v; next_op.

(** The value of a property of a valid object, or an error. *)
Definition prop_value (d : db) (progr o : Z) (name : cstr) : res (error + Var) :=
  h ← db_find_property d o name;
  match h with
  | None => Ok (inl E_PROPNF)
  | Some (BuiltIn _ _, v) => Ok (inr v)
  | Some (h, v) =>
      ok ← db_property_allows d h progr PF_READ;
      Ok (if (ok : bool) then inr v else inl E_PERM)
  end.

Definition get_prop (obj propname : Var) : act (error + Var) :=
  a ← run_activ;
  match obj, propname with
  | WaifV w, Str name =>
      fun m => '(e, v, m) ← waif_get_prop w name (a_progr a) m; Ok (if decide (e = E_NONE) then inr v else inl e, m)
  | Obj o, Str name =>
      d ← observe (fun m => Ok (vm_db m));
      if valid d o then liftM (prop_value d (a_progr a) o name) else mret (inl E_INVIND)
  | _, _ => mret (inl E_TYPE)
  end.

Definition op_get_prop : act next_step :=
  propname ← pop; obj ← pop; r ← get_prop obj propname; push_result r.
Definition op_push_get_prop : act next_step :=
  propname ← observe TOP_RT_VALUE; obj ← observe NEXT_TOP_RT_VALUE; r ← get_prop obj propname; push_result r.

(** Whether the programmer may give the property of [o] the value. *)
Definition put_prop_error (d : db) (progr o : Z) (h : db_prop_handle) (rhs : Var) : res error :=
  let require (c : res bool) := b ← c; Ok (if (b : bool) then E_NONE else E_PERM) in
  match h with
  | Slot _ _ _ => require (db_property_allows d h progr PF_WRITE)
  | BuiltIn bp _ =>
      match bp with
      | BP_NAME =>
          match rhs with
          | Str _ =>
              require (wiz ← is_wizard d progr;
                       if (wiz : bool) then Ok true
                       else
                         usr ← is_user d o;
                         if (usr : bool) then Ok false
                         else own ← db_object_owner d o; Ok (progr =? own))
          | _ => Ok E_TYPE
          end
      | BP_OWNER => match rhs with Obj _ => require (is_wizard d progr) | _ => Ok E_TYPE end
      | BP_PROGRAMMER | BP_WIZARD => require (is_wizard d progr)
      | BP_R | BP_W | BP_F => require (own ← db_object_owner d o; if progr =? own then Ok true else is_wizard d progr)
      | BP_LOCATION | BP_CONTENTS => Ok E_PERM
      end
  end.

(** The database with the new value, or an error. *)
Definition prop_store (d : db) (progr o : Z) (name : cstr) (rhs : Var) : res (error + db) :=
  h ← find_property_handle d o name;
  match h with
  | None => Ok (inl E_PROPNF)
  | Some h =>
      err ← put_prop_error d progr o h rhs;
      if decide (err = E_NONE) then inr <$> db_set_property_value h rhs d else Ok (inl err)
  end.

Definition op_put_prop : act next_step :=
  rhs ← pop;
  propname ← pop;
  obj ← pop;
  a ← run_activ;
  match obj, propname with
  | WaifV w, Str name =>
      err ← waif_put_prop w name rhs (a_progr a);
      if decide (err = E_NONE) then push_value rhs else PUSH_ERROR err
  | Obj o, Str name =>
      d ← observe (fun m => Ok (vm_db m));
      if valid d o then
        r ← liftM (prop_store d (a_progr a) o name rhs);
        match r with
        | inl err => PUSH_ERROR err
        | inr d => _ ← alter_ (with_db d); push_value rhs
        end
      else PUSH_ERROR E_INVIND
  | _, _ => PUSH_ERROR E_TYPE
  end.

(** ** Tasks, verbs and built-in functions *)

Definition op_fork (with_id : bool) : act next_step :=
  time ← pop;
  bc ← observe code_of;
  f_index ← READ_BYTES (numbytes_fork bc);
  id ← (if with_id then id ← read_var_name; mret (Some id) else mret None);
  match time with
  | Int n =>
      if n <? 0 then RAISE_ERROR E_INVARG next_op
      else
        a ← run_activ;
        e ← enqueue_forked_task2 a f_index n id;
        if decide (e = E_NONE) then next_op else RAISE_ERROR e next_op
  | _ => RAISE_ERROR E_TYPE next_op
  end.

Definition op_call_verb : act next_step :=
  args ← pop;
  verb ← pop;
  obj ← pop;
  target ← (match verb, args, obj with
            | Str verb, List _, WaifV w => class ← observe (waif_class w); mret (inr (class, chr WAIF_VERB_PREFIX :: verb))
            | Str verb, List _, Obj o => mret (if cur verb =? WAIF_VERB_PREFIX then inl E_VERBNF else inr (o, verb))
            | _, _, _ => mret (inl E_TYPE)
            end);
  match target with
  | inl err => PUSH_ERROR err
  | inr (class, verb) =>
      d ← observe (fun m => Ok (vm_db m));
      if negb (valid d class) then PUSH_ERROR E_INVIND
      else
        err ← call_verb2 class verb obj args false;
        if decide (err = E_NONE) then next_op else PUSH_ERROR err
  end.

(** OP_RETURN, OP_RETURN0 and OP_DONE: the result is stored if this ends [run]. *)
Definition op_return (ret_val : Var) : act next_step :=
  u ← unwind FIN_RETURN ret_val;
  mret (match u with
        | Resumed => Next
        | Unwound OUTCOME_DONE => Stop OUTCOME_DONE (Some ret_val)
        | Unwound o => Stop o None
        end).

Definition op_bi_func_call : act next_step :=
  func_id ← READ_BYTES 1;
  args ← pop;
  match args with
  | List _ =>
      a ← run_activ;
      p ← call_bi_func func_id args 1 (a_progr a) None;
      match p with
      | BI_RETURN ret => push_value ret
      | BI_RAISE code msg value =>
          a ← run_activ;
          if (a_debug a : bool) then
            u ← raise_error code msg value;
            mret (match u with Resumed => Next | Unwound _ => Stop OUTCOME_ABORTED None end)
          else push_value code
      | BI_CALL pc data => _ ← alter_ (upd_activ (set_bi_func func_id pc data)); next_op
      | BI_SUSPEND susp =>
          e ← suspend_task susp;
          if decide (e = E_NONE) then mret (Stop OUTCOME_BLOCKED None) else PUSH_ERROR e
      | BI_KILL => _ ← unwind FIN_ABORT zero_var; mret (Stop OUTCOME_ABORTED None)
      end
  | _ => PUSH_ERROR E_TYPE
  end.

(** ** Extended opcodes *)

Definition eop_rangeset : act next_step :=
  value ← pop;
  to ← pop;
  from ← pop;
  base ← pop;
  ans ← liftM (op_rangeset base from to value);
  push_answer ans.

(** [base_rt_stack[i]]. *)
Definition eop_length : act next_step :=
  i ← read_stack_ref;
  a ← run_activ;
  item ← liftM (deref (rev (rt_stack a) !! i));
  match item with
  | Str s => push_value (Int (strlen_utf s))
  | List xs => push_value (Int (len xs))
  | _ => PUSH_ERROR E_TYPE
  end.

(** The targets of a scattering assignment from number [i]; [where_]: the first default that
    has to be evaluated, or zero. *)
Fixpoint scatter_targets (n : nat) (i nargs rest : Z) (l : list Var) (offset nopt_avail nrest : Z) (where_ : nat) : act nat :=
  match n with
  | O => mret where_
  | S n =>
      id ← read_var_name;
      label ← read_label;
      let element := if i + offset <? 1 then Fail Segv else deref (l !! Z.to_nat (i + offset - 1)) in
      if i =? rest then
        v ← liftM (sublist l i (i + nrest - 1));
        _ ← put_var id (List v);
        scatter_targets n (i + 1) nargs rest l (offset + (nrest - 1)) nopt_avail nrest where_
      else if decide (label = 0%nat) then
        v ← liftM element;
        _ ← put_var id v;
        scatter_targets n (i + 1) nargs rest l offset nopt_avail nrest where_
      else if nopt_avail >? 0 then
        v ← liftM element;
        _ ← put_var id v;
        scatter_targets n (i + 1) nargs rest l offset (nopt_avail - 1) nrest where_
      else
        scatter_targets n (i + 1) nargs rest l (offset - 1) nopt_avail nrest
          (if decide (where_ = 0%nat) then if decide (label = 1%nat) then where_ else label else where_)
  end.

Fixpoint skip_operands (n : nat) : act unit :=
  match n with
  | O => mret tt
  | S n => _ ← skip_var_name; _ ← skip_label; skip_operands n
  end.

Definition eop_scatter : act next_step :=
  nargs ← READ_BYTES 1;
  nreq ← READ_BYTES 1;
  rest ← READ_BYTES 1;
  let have_rest := (rest <=? nargs)%nat in
  v ← observe TOP_RT_VALUE;
  let finish (where_ : nat) : act next_step :=
    done ← read_label; _ ← JUMP (if decide (where_ = 0%nat) then done else where_); next_op in
  let bad (e : error) : act next_step :=
    _ ← pop; RAISE_ERROR e (_ ← push (Err e); _ ← skip_operands nargs; finish 0%nat) in
  match v with
  | List l =>
      if (length l <? nreq)%nat || (negb have_rest && (nargs <? length l)%nat) then bad E_ARGS
      else
        let nrest := if have_rest && (nargs <=? length l)%nat then len l - Z.of_nat nargs + 1 else 0 in
        where_ ← scatter_targets nargs 1 (Z.of_nat nargs) (Z.of_nat rest) l 0 (len l - Z.of_nat nreq) nrest 0;
        finish where_
  | _ => bad E_TYPE
  end.

Definition eop_push_label : act next_step := lab ← read_label; push_value (Int (Z.of_nat lab)).
Definition eop_try_finally : act next_step := lab ← read_label; push_value (Finally (Z.of_nat lab)).
Definition eop_catch : act next_step := push_value (Catch 1).
Definition eop_try_except : act next_step := n ← READ_BYTES 1; push_value (Catch (Z.of_nat n)).

Fixpoint pop_n (n : nat) : act unit :=
  match n with
  | O => mret tt
  | S n => _ ← pop; pop_n n
  end.

(** The marker and the labels and lists of codes below it. *)
Definition pop_handlers : act unit :=
  marker ← pop;
  match marker with
  | Catch n => pop_n (2 * Z.to_nat n)
  | _ => liftM (Fail (Panic "Stack marker is not TYPE_CATCH!"))
  end.

Definition eop_end_catch : act next_step := v ← pop; _ ← pop_handlers; _ ← push v; op_jump.
Definition eop_end_except : act next_step := _ ← pop_handlers; op_jump.

Definition eop_end_finally : act next_step :=
  v ← pop;
  match v with
  | Finally _ => _ ← push (Int (reason_num FIN_FALL_THRU)); push_value zero_var
  | _ => liftM (Fail (Panic "Stack marker is not TYPE_FINALLY!"))
  end.

Definition reason_of (why : Var) : option Finally_Reason :=
  match why with
  | Int 0 => Some FIN_FALL_THRU
  | Int 1 => Some FIN_RAISE
  | Int 2 => Some FIN_UNCAUGHT
  | Int 3 => Some FIN_RETURN
  | Int 5 => Some FIN_EXIT
  | _ => None
  end.

(** The result of [run] is not set here. *)
Definition eop_continue : act next_step :=
  v ← pop;
  why ← pop;
  match reason_of why with
  | Some FIN_FALL_THRU => next_op
  | Some why => u ← unwind why v; mret (match u with Resumed => Next | Unwound o => Stop o None end)
  | None => liftM (Fail (Panic "Unknown FINALLY reason!"))
  end.

Definition eop_while_id : act next_step :=
  id ← read_var_name; v ← observe TOP_RT_VALUE; _ ← put_var id v; do_test.

Definition eop_exit : act next_step :=
  s ← read_stack_ref;
  lab ← read_label;
  _ ← unwind FIN_EXIT (List [Int (Z.of_nat s); Int (Z.of_nat lab)]);
  next_op.
Definition eop_exit_id : act next_step := _ ← skip_var_name; eop_exit.

Definition extended_instr (eop : Extended_Opcode) : act next_step :=
  match eop with
  | EOP_RANGESET => eop_rangeset
  | EOP_LENGTH => eop_length
  | EOP_PUSH_LABEL => eop_push_label
  | EOP_END_CATCH => eop_end_catch
  | EOP_END_EXCEPT => eop_end_except
  | EOP_END_FINALLY => eop_end_finally
  | EOP_CONTINUE => eop_continue
  | EOP_CATCH => eop_catch
  | EOP_TRY_EXCEPT => eop_try_except
  | EOP_TRY_FINALLY => eop_try_finally
  | EOP_WHILE_ID => eop_while_id
  | EOP_EXIT => eop_exit
  | EOP_EXIT_ID => eop_exit_id
  | EOP_SCATTER => eop_scatter
  | EOP_EXP => op_binary (do_power pow)
  | EOP_BITAND => op_binary (bit_ans Z.land)
  | EOP_BITXOR => op_binary (bit_ans Z.lxor)
  | EOP_BITOR => op_binary (bit_ans Z.lor)
  | EOP_SHL => op_binary (shift_ans SHL)
  | EOP_SHR => op_binary (shift_ans SHIFTR)
  | EOP_LSHR => op_binary (shift_ans LOGSHIFTR)
  | EOP_COMPLEMENT => op_unary complement_ans
  end.

(** Extended opcodes count ticks without looking whether there are any left. *)
Definition op_extended : act next_step :=
  b ← peek 0;
  _ ← SKIP_BYTES 1;
  _ ← alter_ (fun m => if COUNT_EOP_TICK b then with_ticks (wrap32 (ticks_remaining m - 1)) m else m);
  match eopcode_of b with
  | Some eop => extended_instr eop
  | None => liftM (Fail (Panic "Unknown extended opcode!"))
  end.

(** ** The loop *)

Definition instr (op : Opcode) : act next_step :=
  match op with
  | OP_IF_QUES | OP_IF | OP_WHILE | OP_EIF => do_test
  | OP_JUMP => op_jump
  | OP_FOR_LIST => op_for_list
  | OP_FOR_RANGE => op_for_range
  | OP_POP => op_pop
  | OP_IMM => op_imm
  | OP_MAKE_EMPTY_LIST => push_value (List [])
  | OP_LIST_ADD_TAIL => op_list_add_tail
  | OP_LIST_APPEND => op_list_append
  | OP_INDEXSET => op_indexset_step
  | OP_MAKE_SINGLETON_LIST => op_make_singleton_list
  | OP_CHECK_LIST_FOR_SPLICE => op_check_list_for_splice
  | OP_PUT_TEMP => op_put_temp
  | OP_PUSH_TEMP => op_push_temp
  | OP_EQ => op_equal false
  | OP_NE => op_equal true
  | OP_GT => op_compare (fun c => c >? 0)
  | OP_LT => op_compare (fun c => c <? 0)
  | OP_GE => op_compare (fun c => c >=? 0)
  | OP_LE => op_compare (fun c => c <=? 0)
  | OP_IN => op_in
  | OP_MULT => op_binary (arith_ans do_multiply)
  | OP_MINUS => op_binary (arith_ans do_subtract)
  | OP_DIV => op_binary (arith_ans do_divide)
  | OP_MOD => op_binary (arith_ans do_modulus)
  | OP_ADD => op_binary add_ans
  | OP_AND => op_and_or false
  | OP_OR => op_and_or true
  | OP_NOT => op_not
  | OP_UNARY_MINUS => op_unary unary_minus_ans
  | OP_REF => op_ref_step
  | OP_PUSH_REF => op_push_ref
  | OP_RANGE_REF => op_range_ref_step
  | OP_G_PUT => op_g_put
  | OP_G_PUSH => op_g_push
  | OP_GET_PROP => op_get_prop
  | OP_PUSH_GET_PROP => op_push_get_prop
  | OP_PUT_PROP => op_put_prop
  | OP_FORK => op_fork false
  | OP_FORK_WITH_ID => op_fork true
  | OP_CALL_VERB => op_call_verb
  | OP_RETURN => v ← pop; op_return v
  | OP_RETURN0 | OP_DONE => op_return zero_var
  | OP_BI_FUNC_CALL => op_bi_func_call
  | OP_EXTENDED => op_extended
  | OP_PUSH i => push_var (Z.to_nat i)
  | OP_PUT i => op_put (Z.to_nat i)
  | OPTIM_NUM n => push_value (Int n)
  end.

(** The part of an instruction that counts ticks. *)
Definition count_tick (b : Z) (k : act next_step) : act next_step := fun m =>
  if COUNT_TICK b then
    let m := with_ticks (wrap32 (ticks_remaining m - 1)) m in
    if ticks_remaining m <=? 0 then m ← abort_task true m; Ok (Stop OUTCOME_ABORTED None, m)
    else if task_timed_out m then m ← abort_task false m; Ok (Stop OUTCOME_ABORTED None, m)
    else k m
  else k m.

Definition vm_step : act next_step :=
  b ← peek 0;
  _ ← alter_ (upd_activ (fun a => set_pc (S (a_pc a)) (set_error_pc (a_pc a) a)));
  count_tick b (instr (opcode_of b)).

Fixpoint run_loop (fuel : nat) : act (outcome * option Var) := fun m =>
  match fuel with
  | O => Fail OutOfFuel
  | S fuel =>
      '(n, m) ← vm_step m;
      match n with
      | Next => run_loop fuel m
      | Stop o r => Ok ((o, r), m)
      end
  end.

(** [run]: an error is raised first when a task is resumed with one. *)
Definition run (fuel : nat) (resumption_error : option error) : act (outcome * option Var) :=
  n ← match resumption_error with
      | Some e => _ ← alter_ (upd_activ (fun a => set_error_pc (a_pc a) a)); PUSH_ERROR e
      | None => mret Next
      end;
  match n with
  | Next => run_loop fuel
  | Stop o r => mret (o, r)
  end.

(** What can happen between two states: an instruction, or the timer. *)
Inductive transition (m : vm Data World) : vm Data World -> Prop :=
  | T_step m' : vm_step m = Ok (Next, m') -> transition m m'
  | T_timeout : transition m (with_timed_out true m).
End Run.
