(* ===== verification/VmTasks.v ===== *)
(** * Entering the interpreter (src/execute.c, src/server.c)

    Starting and resuming tasks, their limits, and what happens when they are aborted; the
    built-in functions of src/execute.c. *)

From S2P Require Import Prelude CStrings Values Lists Libc Db Properties Verbs ParseCmd Ast CodeGen EvalEnv Vm VmRun.

Open Scope Z_scope.

(** ** Server options (src/server.c) *)

(** The value of a property, where there is such an object and such a property. *)
Definition valid_property (d : db) (oid : Z) (name : cstr) : res (option Var) :=
  if valid d oid then
    h ← db_find_property d oid name; Ok (match h with Some (_, v) => Some v | None => None end)
  else Ok None.

(** A property of the object that [$server_options] names, or of the one that the object's own
    [server_options] names. *)
Definition get_server_option (d : db) (oid : Z) (name : cstr) : res (option Var) :=
  own ← valid_property d oid (lit "server_options");
  r ← match own with Some v => Ok (Some v) | None => valid_property d SYSTEM_OBJECT (lit "server_options") end;
  match r with
  | Some (Obj o) => valid_property d o name
  | _ => Ok None
  end.

Definition server_flag_option (d : db) (name : cstr) : res bool :=
  v ← get_server_option d SYSTEM_OBJECT name;
  Ok (match v with Some v => is_true v | None => false end).

(** The [Num] is returned as an [int]. *)
Definition server_int_option (d : db) (name : cstr) (defallt : Z) : res Z :=
  v ← get_server_option d SYSTEM_OBJECT name;
  Ok (match v with Some (Int n) => wrap32 n | _ => defallt end).

Definition DEFAULT_MAX_STACK_DEPTH : Z := 50.
Definition DEFAULT_FG_TICKS : Z := 30000.
Definition DEFAULT_BG_TICKS : Z := 15000.
Definition DEFAULT_FG_SECONDS : Z := 5.
Definition DEFAULT_BG_SECONDS : Z := 3.

Section Tasks.
Context {Data Susp World : Type} `{H : Host Data Susp World}.

(** [notify], of the server loop, and the timer of a task are parameters. *)
Variable notify : Z -> cstr -> World -> World.
Variable set_virtual_timer : Z -> World -> World.

Definition with_world (w : World) (m : vm Data World) : vm Data World := mkVm (activ_stack m) (root_activ_vector m) (max_stack_size m) (ticks_remaining m)
  (task_timed_out m) (handler m) (vm_db m) (programs m) w.

(** ** Limits *)

Definition setup_task_execution_limits (seconds ticks : Z) (m : vm Data World) : vm Data World :=
  let m := with_world (set_virtual_timer (if seconds <? 1 then 1 else seconds) (world m)) m in
  with_ticks (if ticks <? 100 then 100 else ticks) (with_timed_out false m).

Definition check_activ_stack_size (max : Z) (m : vm Data World) : vm Data World := with_max_stack_size max m.

Definition current_max_stack_size (d : db) : res Z :=
  max ← server_int_option d (lit "max_stack_depth") DEFAULT_MAX_STACK_DEPTH;
  Ok (if max <? DEFAULT_MAX_STACK_DEPTH then DEFAULT_MAX_STACK_DEPTH else max).

(** ** Running *)

(** What the handler of uncaught errors and timeouts in the database returns. *)
Definition db_handler : Type := db_verb_handle -> cstr -> Var -> vm Data World -> res (outcome * option Var * vm Data World).

Definition root_player (m : vm Data World) : res Z := a ← deref (last (activ_stack m)); Ok (a_player a).

(** The traceback is the last argument of the handler. *)
Definition notify_traceback (args : Var) (m : vm Data World) : res (vm Data World) :=
  lines ← match args with List l => match last l with Some (List t) => Ok t | _ => Fail Segv end | _ => Fail Segv end;
  player ← root_player m;
  strs ← mapM (fun v => match v with Str s => Ok s | _ => Fail Undefined end) lines;
  Ok (with_world (foldl (fun w s => notify player s w) (world m) strs) m).

(** [run_interpreter]: [do_db_tracebacks] is false without a [db_handler]. *)
Definition run_interpreter_with (handle : option db_handler) (fuel : nat) (raise : option error) (is_fg : bool)
    (m : vm Data World) : res (outcome * option Var * vm Data World) :=
  seconds ← (if is_fg then server_int_option (vm_db m) (lit "fg_seconds") DEFAULT_FG_SECONDS
             else server_int_option (vm_db m) (lit "bg_seconds") DEFAULT_BG_SECONDS);
  ticks ← (if is_fg then server_int_option (vm_db m) (lit "fg_ticks") DEFAULT_FG_TICKS
           else server_int_option (vm_db m) (lit "bg_ticks") DEFAULT_BG_TICKS);
  '(ret, result, m) ← run fuel raise (with_handler None (setup_task_execution_limits seconds ticks m));
  let m := with_timed_out false m in
  match ret, Vm.handler m with
  | OUTCOME_ABORTED, Some (name, args) =>
      '(h, d) ← db_find_callable_verb (fun _ => false) SYSTEM_OBJECT name (vm_db m);
      let m := with_db d m in
      '(handled, m) ← match handle, h with
                      | None, _ | _, NullHandle => Ok (false, m)
                      | Some handle, h =>
                          '(hret, handled, m) ← handle h name args m;
                          match hret with
                          | OUTCOME_DONE => v ← match handled with Some v => Ok v | None => Fail Undefined end; Ok (is_true v, m)
                          | OUTCOME_BLOCKED => Ok (true, m)
                          | OUTCOME_ABORTED => Ok (false, m)
                          end
                      end;
      if (handled : bool) then Ok (OUTCOME_ABORTED, result, m)
      else m ← notify_traceback args m; Ok (ret, result, m)
  | _, _ => Ok (ret, result, m)
  end.

(** [do_task]: the root activation gets the program, an empty stack and no place where a
    built-in function called it. *)
Definition do_task_with (handle : option db_handler) (fuel : nat) (prog : Program) (which_vector : option nat) (is_fg : bool)
    (root : activation Data) (m : vm Data World) : res (outcome * option Var * vm Data World) :=
  size ← match which_vector with
         | None => Ok (bc_max_stack (main_vector prog))
         | Some i => bc_max_stack <$> deref (pr_fork_vectors prog !! i)
         end;
  let root := mkActivation prog (rt_env root) [] size 0 0 0 (bi_func_id root) (bi_func_data root) None_
                (a_THIS root) (a_this root) (a_player root) (a_progr root) (a_vloc root) (a_verb root) (a_verbname root)
                (a_debug root) in
  run_interpreter_with handle fuel None is_fg (with_root which_vector (with_activs [root] m)).

(** The variables that a task starts with. *)
Record task_vars := mkTaskVars {
  tv_player : Z; tv_caller : Z; tv_this : Z; tv_dobj : Z; tv_iobj : Z; tv_dobjstr : cstr; tv_iobjstr : cstr;
  tv_argstr : cstr; tv_prepstr : cstr; tv_verb : cstr; tv_args : Var }.

Definition task_env (prog : Program) (t : task_vars) : res (list Var) :=
  env ← fill_in_rt_consts (pr_version prog) (new_rt_env (num_var_names prog));
  env ← set_rt_env_obj SLOT_PLAYER (tv_player t) env;
  env ← set_rt_env_obj SLOT_CALLER (tv_caller t) env;
  env ← set_rt_env_obj SLOT_THIS (tv_this t) env;
  env ← set_rt_env_obj SLOT_DOBJ (tv_dobj t) env;
  env ← set_rt_env_obj SLOT_IOBJ (tv_iobj t) env;
  env ← set_rt_env_str SLOT_DOBJSTR (tv_dobjstr t) env;
  env ← set_rt_env_str SLOT_IOBJSTR (tv_iobjstr t) env;
  env ← set_rt_env_str SLOT_ARGSTR (tv_argstr t) env;
  env ← set_rt_env_str SLOT_PREPSTR (tv_prepstr t) env;
  env ← set_rt_env_str SLOT_VERB (tv_verb t) env;
  set_rt_env_var SLOT_ARGS (tv_args t) env.

Definition new_activation (prog : Program) (env : list Var) (this player progr vloc : Z) (verb verbname : cstr) (debug : bool)
    : activation Data :=
  mkActivation prog env [] (bc_max_stack (main_vector prog)) 0 0 0 0 None None_ (Obj this) this player progr vloc verb verbname debug.

Definition do_server_program_task_with (handle : option db_handler) (fuel : nat) (this : Z) (verb : cstr) (args : Var) (vloc : Z)
    (verbname : cstr) (program : Program) (progr : Z) (debug : bool) (player : Z) (argstr : cstr) (m : vm Data World)
    : res (outcome * option Var * vm Data World) :=
  max ← current_max_stack_size (vm_db m);
  env ← task_env program (mkTaskVars player (-1) this NOTHING NOTHING [] [] argstr [] verb args);
  do_task_with handle fuel program None true (new_activation program env this player progr vloc verb verbname debug)
    (check_activ_stack_size max m).

(** What [do_server_verb_task] and [do_input_task] read of a handle. *)
Definition verb_of_handle (m : vm Data World) (h : db_verb_handle) : res callable :=
  p ← db_verb_program null_program (vm_db m) h;
  prog ← deref (programs m !! p);
  own ← db_verb_owner (vm_db m) h;
  def ← db_verb_definer (vm_db m) h;
  names ← db_verb_names (vm_db m) h;
  fl ← db_verb_flags (vm_db m) h;
  Ok (mkCallable prog (pr_version prog) own def names (negb (Z.land fl VF_DEBUG =? 0))).

Definition do_server_verb_task_with (handle : option db_handler) (fuel : nat) (this : Z) (verb : cstr) (args : Var)
    (h : db_verb_handle) (player : Z) (argstr : cstr) (m : vm Data World) : res (outcome * option Var * vm Data World) :=
  c ← verb_of_handle m h;
  do_server_program_task_with handle fuel this verb args (c_vloc c) (c_names c) (c_prog c) (c_progr c) (c_debug c) player argstr m.

(** The task of a handler makes no such task when it is aborted itself. *)
Definition db_handler_task (fuel : nat) : db_handler := fun h name args m =>
  player ← root_player m;
  do_server_verb_task_with None fuel SYSTEM_OBJECT name args h player [] m.

Definition tracebacks (fuel : nat) (do_db_tracebacks : bool) : option db_handler :=
  if do_db_tracebacks then Some (db_handler_task fuel) else None.

Definition run_interpreter (fuel : nat) (raise : option error) (is_fg do_db_tracebacks : bool) :=
  run_interpreter_with (tracebacks fuel do_db_tracebacks) fuel raise is_fg.
Definition do_task (fuel : nat) (prog : Program) (which_vector : option nat) (is_fg do_db_tracebacks : bool) :=
  do_task_with (tracebacks fuel do_db_tracebacks) fuel prog which_vector is_fg.
Definition do_server_program_task (fuel : nat) (this : Z) (verb : cstr) (args : Var) (vloc : Z) (verbname : cstr)
    (program : Program) (progr : Z) (debug : bool) (player : Z) (argstr : cstr) (do_db_tracebacks : bool) :=
  do_server_program_task_with (tracebacks fuel do_db_tracebacks) fuel this verb args vloc verbname program progr debug player argstr.
Definition do_server_verb_task (fuel : nat) (this : Z) (verb : cstr) (args : Var) (h : db_verb_handle) (player : Z)
    (argstr : cstr) (do_db_tracebacks : bool) :=
  do_server_verb_task_with (tracebacks fuel do_db_tracebacks) fuel this verb args h player argstr.

Definition do_input_task (fuel : nat) (user : Z) (pc : Parsed_Command) (this : Z) (vh : db_verb_handle) (m : vm Data World)
    : res (outcome * option Var * vm Data World) :=
  max ← current_max_stack_size (vm_db m);
  c ← verb_of_handle m vh;
  env ← task_env (c_prog c) (mkTaskVars user user this (pc_dobj pc) (pc_iobj pc) (pc_dobjstr pc) (pc_iobjstr pc)
                               (pc_argstr pc) (pc_prepstr pc) (pc_verb pc) (pc_args pc));
  do_task fuel (c_prog c) None true true
    (new_activation (c_prog c) env this user (c_progr c) (c_vloc c) (pc_verb pc) (c_names c) (c_debug c))
    (check_activ_stack_size max m).

Definition do_forked_task (fuel : nat) (prog : Program) (env : list Var) (a : activation Data) (f_id : option nat)
    (m : vm Data World) : res (outcome * option Var * vm Data World) :=
  max ← current_max_stack_size (vm_db m);
  do_task fuel prog f_id false true (set_rt_env env a) (check_activ_stack_size max m).

(** A suspended machine: [struct vmstruct] without the task's number. *)
Record saved_vm := mkSaved { s_activ_stack : list (activation Data); s_root_activ_vector : option nat; s_max_stack_size : Z }.

Definition resume_from_previous_vm (fuel : nat) (the_vm : saved_vm) (v : Var) (m : vm Data World)
    : res (outcome * option Var * vm Data World) :=
  let m := check_activ_stack_size (s_max_stack_size the_vm) m in
  let m := with_root (s_root_activ_vector the_vm) (with_activs (s_activ_stack the_vm) m) in
  match v with
  | Err e => run_interpreter fuel (Some e) false true m
  | v => m ← PUSH v m; run_interpreter fuel None false true m
  end.

(** [setup_activ_for_eval]: false when the stack is full. *)
Definition setup_activ_for_eval (prog : Program) (m : vm Data World) : res (bool * vm Data World) :=
  if negb (room_for_activation m) then Ok (false, m)
  else
    caller ← RUN_ACTIV m;
    env ← task_env prog (mkTaskVars (a_player caller) (a_this caller) NOTHING NOTHING NOTHING [] [] [] [] [] (List []));
    Ok (true, with_activs (new_activation prog env NOTHING (a_player caller) (a_progr caller) NOTHING [] (lit "Input to EVAL") true
                           :: activ_stack m) m).

(** ** Built-in functions *)

Definition make_error_pack (e : error) : bi_package Data Susp := BI_RAISE (Err e) (unparse_error e) zero_var.
Definition make_var_pack (v : Var) : bi_package Data Susp := BI_RETURN v.
Definition no_var_pack : bi_package Data Susp := make_var_pack zero_var.
Definition tail_call_pack : bi_package Data Susp := BI_CALL 0 None.

Definition bf_ticks_left (m : vm Data World) : res (bi_package Data Susp * vm Data World) :=
  Ok (make_var_pack (Int (ticks_remaining m)), m).

Definition bf_pass (args : list Var) (m : vm Data World) : res (bi_package Data Susp * vm Data World) :=
  a ← RUN_ACTIV m;
  '(e, m) ← call_verb2 (a_this a) (a_verb a) (a_THIS a) (List args) true m;
  Ok (if decide (e = E_NONE) then tail_call_pack else make_error_pack e, m).

Definition bf_set_task_perms (args : list Var) (progr : Z) (m : vm Data World) : res (bi_package Data Susp * vm Data World) :=
  oid ← match args with Obj o :: _ => Ok o | _ => Fail Undefined end;
  ok ← (if progr =? oid then Ok true else is_wizard (vm_db m) progr);
  if (ok : bool) then Ok (no_var_pack, upd_activ (set_progr oid) m) else Ok (make_error_pack E_PERM, m).

Definition bf_caller_perms (m : vm Data World) : res (bi_package Data Susp * vm Data World) :=
  Ok (make_var_pack (Obj match activ_stack m with _ :: caller :: _ => a_progr caller | _ => NOTHING end), m).

Definition bf_callers (args : list Var) (m : vm Data World) : res (bi_package Data Susp * vm Data World) :=
  let line_numbers_too := match args with v :: _ => is_true v | [] => false end in
  Ok (make_var_pack (List (make_stack_list m (activ_stack m) 0 false line_numbers_too)), m).

(** [bf_eval] of src/verbs.c; the parser is a parameter: a program, or the errors. *)
Definition bf_eval (parse_list_as_program : list Var -> Program + Var) (args : list Var) (ret : Var) (next progr : Z)
    (m : vm Data World) : res (bi_package Data Susp * vm Data World) :=
  if next =? 1 then
    ok ← is_programmer (vm_db m) progr;
    if negb ok then Ok (make_error_pack E_PERM, m)
    else
      match parse_list_as_program args with
      | inl program =>
          '(ok, m) ← setup_activ_for_eval program m;
          Ok (if (ok : bool) then BI_CALL 2 None else make_error_pack E_MAXREC, m)
      | inr errors => Ok (make_var_pack (List [Int 0; errors]), m)
      end
  else Ok (make_var_pack (List [Int 1; ret]), m).

End Tasks.

(** [reorder_rt_env]: the variables of a suspended program, by name. *)
Fixpoint find_name (names : list cstr) (name : cstr) : option nat :=
  match names with
  | [] => None
  | n :: names => if mystrcasecmp n name =? 0 then Some 0%nat else S <$> find_name names name
  end.
Definition reorder_rt_env (old_rt_env : list Var) (old_names var_names : list cstr) : res (list Var) :=
  mapM (fun n => match find_name old_names n with
                 | Some slot => deref (old_rt_env !! slot)
                 | None => Ok None_
                 end) var_names.
