(* ===== verification/Eval.v ===== *)
(** * What expressions mean

    A reference semantics for the expressions of a program that do not call anything: how
    values are computed, in which order, and which variables and properties change.  It is
    defined on syntax trees, without a stack or jumps; [VmExpr] shows that the interpreter
    does the same with the code that the compiler makes.

    In code without the debug flag an error is a value like any other. *)

From S2P Require Import Prelude CStrings Utf Values Lists Numbers Db Properties Ast CodeGen CodeExpr EvalEnv Vm VmRun.

Open Scope Z_scope.

(** What an expression can read and change. *)
Record estate := mkEstate { e_env : list Var; e_db : db }.

Section Eval.
Context (debug : bool) (progr : Z) (pow : double -> double -> double * Z).

(** ** Evaluation

    [inl]: the error that ends it.  [Fail]: it is undefined, or outside of this semantics. *)
Definition ev (A : Type) : Type := estate -> res ((error + A) * estate).
#[local] Instance ev_ret : MRet ev := fun A a s => Ok (inr a, s).
#[local] Instance ev_bind : MBind ev := fun A B f x s =>
  '(r, s) ← x s; match r with inl e => Ok (inl e, s) | inr a => f a s end.

Definition lift {A} (x : res A) : ev A := fun s => a ← x; Ok (inr a, s).
Definition fails (e : error) : ev Var := fun s => Ok (if debug then inl e else inr (Err e), s).
Definition result (r : error + Var) : ev Var := match r with inl e => fails e | inr v => mret v end.
Definition calculate (x : res (error + Var)) : ev Var := r ← lift x; result r.

Definition slot (id : Z) : nat := Z.to_nat id.
Definition variable (id : Z) : ev Var := fun s =>
  v ← deref (e_env s !! slot id);
  match v with None_ => fails E_VARNF s | _ => Ok (inr v, s) end.
Definition assign (id : Z) (v : Var) : ev unit := fun s =>
  _ ← deref (e_env s !! slot id);
  Ok (inr tt, mkEstate (<[slot id := v]> (e_env s)) (e_db s)).

(** ** Operators *)

Definition compared (test : Z -> bool) (lhs rhs : Var) : res (error + Var) :=
  c ← comparison lhs rhs;
  Ok (match c with inl e => inl e | inr n => inr (truth (test n)) end).

Definition binary (k : Binary_Kind) (lhs rhs : Var) : res (error + Var) :=
  match k with
  | EXPR_EQ => b ← equality rhs lhs false; Ok (inr (truth b))
  | EXPR_NE => b ← equality rhs lhs false; Ok (inr (truth (negb b)))
  | EXPR_LT => compared (fun c => c <? 0) lhs rhs
  | EXPR_LE => compared (fun c => c <=? 0) lhs rhs
  | EXPR_GT => compared (fun c => c >? 0) lhs rhs
  | EXPR_GE => compared (fun c => c >=? 0) lhs rhs
  | EXPR_IN => match rhs with List l => i ← ismember lhs l false; Ok (inr (Int i)) | _ => Ok (inl E_TYPE) end
  | EXPR_PLUS => answer <$> add_ans lhs rhs
  | EXPR_MINUS => answer <$> arith_ans do_subtract lhs rhs
  | EXPR_TIMES => answer <$> arith_ans do_multiply lhs rhs
  | EXPR_DIVIDE => answer <$> arith_ans do_divide lhs rhs
  | EXPR_MOD => answer <$> arith_ans do_modulus lhs rhs
  | EXPR_EXP => answer <$> do_power pow lhs rhs
  | EXPR_BITAND => answer <$> bit_ans Z.land lhs rhs
  | EXPR_BITXOR => answer <$> bit_ans Z.lxor lhs rhs
  | EXPR_BITOR => answer <$> bit_ans Z.lor lhs rhs
  | EXPR_SHL => answer <$> shift_ans SHL lhs rhs
  | EXPR_SHR => answer <$> shift_ans SHIFTR lhs rhs
  | EXPR_LSHR => answer <$> shift_ans LOGSHIFTR lhs rhs
  | EXPR_PROP => Fail Undefined
  end.

Definition unary (k : Unary_Kind) (v : Var) : error + Var :=
  match k with
  | EXPR_NOT => inr (truth (negb (is_true v)))
  | EXPR_NEGATE => answer (unary_minus_ans v)
  | EXPR_COMPLEMENT => answer (complement_ans v)
  end.

(** Waifs have their properties and elements elsewhere. *)
Definition property (obj name : Var) : ev Var := fun s =>
  match obj, name with
  | WaifV _, Str _ => Fail Undefined
  | Obj o, Str name => if valid (e_db s) o then calculate (prop_value (e_db s) progr o name) s else fails E_INVIND s
  | _, _ => fails E_TYPE s
  end.

Definition set_property (obj name rhs : Var) : ev Var := fun s =>
  match obj, name with
  | WaifV _, Str _ => Fail Undefined
  | Obj o, Str name =>
      if valid (e_db s) o then
        r ← prop_store (e_db s) progr o name rhs;
        match r with inl e => fails e s | inr d => Ok (inr rhs, mkEstate (e_env s) d) end
      else fails E_INVIND s
  | _, _ => fails E_TYPE s
  end.

Definition indexed (l index : Var) : ev Var :=
  match l with WaifV _ => lift (Fail Undefined) | _ => calculate (index_result l index) end.
Definition with_index (l index value : Var) : ev Var :=
  match l with WaifV _ => lift (Fail Undefined) | _ => calculate (answer <$> op_indexset l index value) end.
Definition range (base from to : Var) : ev Var := calculate (answer <$> op_range_ref base from to).
Definition with_range (base from to value : Var) : ev Var := calculate (answer <$> op_rangeset base from to value).

Definition measure_of (dollar : option Var) : ev Var :=
  match dollar with
  | Some (Str s) => mret (Int (strlen_utf s))
  | Some (List l) => mret (Int (len l))
  | Some _ => fails E_TYPE
  | None => lift (Fail Undefined)
  end.

(** Lists are put together from the left. *)
Definition as_list (kind : Arg_Kind) (v : Var) : ev Var :=
  match kind, v with
  | ARG_NORMAL, v => mret (List [v])
  | ARG_SPLICE, List l => mret (List l)
  | ARG_SPLICE, _ => fails E_TYPE
  end.
Definition extended (kind : Arg_Kind) (acc v : Var) : ev Var :=
  match acc, kind, v with
  | List l, ARG_NORMAL, v => mret (List (l ++ [v]))
  | List l, ARG_SPLICE, List l' => mret (List (l ++ l'))
  | _, _, _ => fails E_TYPE
  end.

(** ** Assignments *)

(** What can be assigned to, with the values that its expressions have. *)
Inductive place :=
  | PVariable (id : Z)
  | PProperty (obj name : Var)
  | PElement (of_ : place) (container index : Var)
  | PRange (of_ : place) (container from to : Var).

Fixpoint store (pl : place) (v : Var) : ev unit :=
  match pl with
  | PVariable id => assign id v
  | PProperty obj name => _ ← set_property obj name v; mret tt
  | PElement pl l index => v ← with_index l index v; store pl v
  | PRange pl base from to => v ← with_range base from to v; store pl v
  end.

(** The value of a property is the one that was assigned unless that failed, without the debug
    flag; of other things it is the right-hand side in any case. *)
Definition stored (pl : place) (v : Var) : ev Var :=
  match pl with
  | PProperty obj name => set_property obj name v
  | _ => _ ← store pl v; mret v
  end.

(** Without the debug flag a place whose container could not be read is still there. *)
Definition part (l index : Var) : ev Var := calculate (push_ref_result l index).

(** *** Scattering *)

(** [nreq]: the targets that must get an element; [have_rest]: one takes what is left. *)
Fixpoint required (sc : Scatter) : nat :=
  match sc with
  | Scat_Nil => 0
  | Scat_Cons SCAT_REQUIRED _ _ sc => S (required sc)
  | Scat_Cons _ _ _ sc => required sc
  end.
Fixpoint has_rest (sc : Scatter) : bool :=
  match sc with
  | Scat_Nil => false
  | Scat_Cons SCAT_REST _ _ _ => true
  | Scat_Cons _ _ _ sc => has_rest sc
  end.

Fixpoint one_rest (sc : Scatter) : bool :=
  match sc with
  | Scat_Nil => true
  | Scat_Cons SCAT_REST _ _ sc => negb (has_rest sc)
  | Scat_Cons _ _ _ sc => one_rest sc
  end.

(** Whether a list with [n] elements has enough, and not too many. *)
Definition scatter_fits (sc : Scatter) (n : nat) : bool :=
  (required sc <=? n)%nat && (has_rest sc || (n <=? scat_length sc)%nat).

(** The targets from the left: [nopt] optional ones get an element, the rest takes [nrest]. *)
Fixpoint bind_targets (sc : Scatter) (l : list Var) (nopt nrest : nat) : ev unit :=
  match sc with
  | Scat_Nil => mret tt
  | Scat_Cons SCAT_REST id _ sc => _ ← assign id (List (take nrest l)); bind_targets sc (drop nrest l) nopt nrest
  | Scat_Cons SCAT_REQUIRED id _ sc =>
      match l with
      | x :: l => _ ← assign id x; bind_targets sc l nopt nrest
      | [] => lift (Fail Undefined)
      end
  | Scat_Cons SCAT_OPTIONAL id _ sc =>
      match nopt with
      | S nopt =>
          match l with
          | x :: l => _ ← assign id x; bind_targets sc l nopt nrest
          | [] => lift (Fail Undefined)
          end
      | O => bind_targets sc l 0 nrest
      end
  end.

(** ** Expressions *)

(** [dollar]: what [$] measures. *)
Fixpoint eval (e : Expr) (dollar : option Var) : ev Var :=
  match e with
  | EXPR_VAR v => mret v
  | EXPR_ID id => variable id
  | EXPR_AND lhs rhs => v ← eval lhs dollar; if is_true v then eval rhs dollar else mret v
  | EXPR_OR lhs rhs => v ← eval lhs dollar; if is_true v then mret v else eval rhs dollar
  | Expr_Unary k e => v ← eval e dollar; result (unary k v)
  | Expr_Binary EXPR_PROP obj name => o ← eval obj dollar; n ← eval name dollar; property o n
  | Expr_Binary k lhs rhs => x ← eval lhs dollar; y ← eval rhs dollar; calculate (binary k x y)
  | EXPR_INDEX lhs rhs => l ← eval lhs dollar; i ← eval rhs (Some l); indexed l i
  | EXPR_RANGE base from to =>
      b ← eval base dollar; f ← eval from (Some b); t ← eval to (Some b); range b f t
  | EXPR_LENGTH => measure_of dollar
  | EXPR_LIST args => eval_args args dollar
  | EXPR_COND c a b => v ← eval c dollar; if is_true v then eval a dollar else eval b dollar
  | EXPR_ASGN (EXPR_SCATTER sc) rhs =>
      if negb (one_rest sc) then lift (Fail Undefined)
      else
        v ← eval rhs dollar;
        match v with
        | List l =>
            if scatter_fits sc (length l) then
              _ ← bind_targets sc l (length l - required sc) (if has_rest sc then length l + 1 - scat_length sc else 0);
              _ ← eval_defaults sc (length l - required sc) dollar;
              mret v
            else fails E_ARGS
        | _ => fails E_TYPE
        end
  | EXPR_ASGN lhs rhs => pl ← eval_place lhs dollar; v ← eval rhs dollar; stored pl v
  | EXPR_CALL _ _ | EXPR_VERB _ _ _ | EXPR_CATCH _ _ _ | EXPR_SCATTER _ => lift (Fail Undefined)
  end
with eval_args (args : Arg_List) (dollar : option Var) : ev Var :=
  match args with
  | Arg_Nil => mret (List [])
  | Arg_Cons kind e args => v ← eval e dollar; acc ← as_list kind v; eval_more args acc dollar
  end
with eval_more (args : Arg_List) (acc : Var) (dollar : option Var) : ev Var :=
  match args with
  | Arg_Nil => mret acc
  | Arg_Cons kind e args => v ← eval e dollar; acc ← extended kind acc v; eval_more args acc dollar
  end
with eval_place (e : Expr) (dollar : option Var) : ev place :=
  match e with
  | EXPR_ID id => mret (PVariable id)
  | Expr_Binary EXPR_PROP obj name => o ← eval obj dollar; n ← eval name dollar; mret (PProperty o n)
  | EXPR_INDEX lhs rhs => '(pl, l) ← eval_container lhs dollar; i ← eval rhs (Some l); mret (PElement pl l i)
  | EXPR_RANGE base from to =>
      '(pl, b) ← eval_container base dollar; f ← eval from (Some b); t ← eval to (Some b); mret (PRange pl b f t)
  | _ => lift (Fail Undefined)
  end
with eval_container (e : Expr) (dollar : option Var) : ev (place * Var) :=
  match e with
  | EXPR_ID id => v ← variable id; mret (PVariable id, v)
  | Expr_Binary EXPR_PROP obj name => o ← eval obj dollar; n ← eval name dollar; v ← property o n; mret (PProperty o n, v)
  | EXPR_INDEX lhs rhs =>
      '(pl, l) ← eval_container lhs dollar; i ← eval rhs (Some l); v ← part l i; mret (PElement pl l i, v)
  | _ => lift (Fail Undefined)
  end
with eval_defaults (sc : Scatter) (nopt : nat) (dollar : option Var) : ev unit :=
  match sc with
  | Scat_Nil => mret tt
  | Scat_Cons SCAT_OPTIONAL id expr sc =>
      match nopt, expr with
      | S nopt, _ => eval_defaults sc nopt dollar
      | O, Some_Expr e => v ← eval e dollar; _ ← assign id v; eval_defaults sc 0 dollar
      | O, No_Expr => eval_defaults sc 0 dollar
      end
  | Scat_Cons _ _ _ sc => eval_defaults sc nopt dollar
  end.

(** *** The equations of the parts *)

Lemma eval_args_cons kind e args dollar : eval_args (Arg_Cons kind e args) dollar =
  (v ← eval e dollar; acc ← as_list kind v; eval_more args acc dollar).
Proof. reflexivity. Qed.
Lemma eval_more_cons kind e args acc dollar : eval_more (Arg_Cons kind e args) acc dollar =
  (v ← eval e dollar; acc ← extended kind acc v; eval_more args acc dollar).
Proof. reflexivity. Qed.
Lemma eval_place_prop obj name dollar : eval_place (Expr_Binary EXPR_PROP obj name) dollar =
  (o ← eval obj dollar; n ← eval name dollar; mret (PProperty o n)).
Proof. reflexivity. Qed.
Lemma eval_place_index lhs rhs dollar : eval_place (EXPR_INDEX lhs rhs) dollar =
  ('(pl, l) ← eval_container lhs dollar; i ← eval rhs (Some l); mret (PElement pl l i)).
Proof. reflexivity. Qed.
Lemma eval_place_range base from to dollar : eval_place (EXPR_RANGE base from to) dollar =
  ('(pl, b) ← eval_container base dollar; f ← eval from (Some b); t ← eval to (Some b); mret (PRange pl b f t)).
Proof. reflexivity. Qed.
Lemma eval_container_prop obj name dollar : eval_container (Expr_Binary EXPR_PROP obj name) dollar =
  (o ← eval obj dollar; n ← eval name dollar; v ← property o n; mret (PProperty o n, v)).
Proof. reflexivity. Qed.
Lemma eval_container_index lhs rhs dollar : eval_container (EXPR_INDEX lhs rhs) dollar =
  ('(pl, l) ← eval_container lhs dollar; i ← eval rhs (Some l); v ← part l i; mret (PElement pl l i, v)).
Proof. reflexivity. Qed.
Lemma eval_defaults_cons kind id expr sc nopt dollar : eval_defaults (Scat_Cons kind id expr sc) nopt dollar =
  match kind with
  | SCAT_OPTIONAL =>
      match nopt, expr with
      | S nopt, _ => eval_defaults sc nopt dollar
      | O, Some_Expr e => v ← eval e dollar; _ ← assign id v; eval_defaults sc 0 dollar
      | O, No_Expr => eval_defaults sc 0 dollar
      end
  | _ => eval_defaults sc nopt dollar
  end.
Proof. reflexivity. Qed.
Lemma eval_scatter sc rhs dollar : eval (EXPR_ASGN (EXPR_SCATTER sc) rhs) dollar =
  if negb (one_rest sc) then lift (Fail Undefined)
  else
    v ← eval rhs dollar;
    match v with
    | List l =>
        if scatter_fits sc (length l) then
          _ ← bind_targets sc l (length l - required sc) (if has_rest sc then length l + 1 - scat_length sc else 0);
          _ ← eval_defaults sc (length l - required sc) dollar;
          mret v
        else fails E_ARGS
    | _ => fails E_TYPE
    end.
Proof. reflexivity. Qed.
Lemma eval_asgn lhs rhs dollar : is_lvalue lhs = true -> eval (EXPR_ASGN lhs rhs) dollar =
  (pl ← eval_place lhs dollar; v ← eval rhs dollar; stored pl v).
Proof. by destruct lhs. Qed.

End Eval.
