(* ===== verification/VmCode.v ===== *)
(** * Compiled code in the interpreter (src/execute.c, src/code_gen.c)

    A machine whose running activation executes a finished vector of the code generator: how
    instructions and their operands are read back, and single steps.  Places in the code are
    those of the generator, before references are given their final sizes. *)

From S2P Require Import Prelude CStrings Values Lists Db Ast CodeGen CodeShape CodeLink EvalEnv Vm VmRun Eval.

Open Scope Z_scope.

#[export] Existing Instances act_ret act_bind ev_ret ev_bind.

(** ** Reading *)

Lemma field_lookup (v : list Z) n pc bs i : take n (drop pc v) = bs -> (i < n)%nat -> v !! (pc + i)%nat = bs !! i.
Proof. intros H Hi. rewrite <- H, lookup_take_lt by done. by rewrite lookup_drop. Qed.

(** A reference is read back as it was written. *)
Lemma bytes_at_field bc pc size n : field (vector bc) pc size n -> bytes_at bc pc size = Ok (Z.of_nat n).
Proof.
  intros (Hg & Hv & Hf). unfold CodeLink.fits in Hf. unfold bytes_at, code_byte.
  assert (Hn : 0 <= Z.of_nat n) by lia.
  destruct Hg as [-> | [-> | ->]]; cbn [put_value] in Hv; revert Hf Hn Hv; generalize (Z.of_nat n) as z; intros z Hf Hn Hv.
  - rewrite decide_True by done. pose proof (field_lookup _ _ _ _ 0%nat Hv ltac:(cbn; lia)) as H0. rewrite Nat.add_0_r in H0.
    rewrite H0. cbn. rewrite Z.mod_small by (cbn in Hf; lia). done.
  - rewrite decide_False, decide_True by done. pose proof (field_lookup _ _ _ _ 0%nat Hv ltac:(cbn; lia)) as H0.
    pose proof (field_lookup _ _ _ _ 1%nat Hv ltac:(cbn; lia)) as H1. rewrite Nat.add_0_r in H0. rewrite H0, H1. cbn [mbind res_bind lookup list_lookup deref].
    rewrite Z.shiftr_div_pow2 by lia. f_equal. change (256 ^ Z.of_nat 2) with 65536 in Hf. change (2 ^ 8) with 256. dlia.
  - rewrite !decide_False by done.
    pose proof (field_lookup _ _ _ _ 0%nat Hv ltac:(cbn; lia)) as H0. pose proof (field_lookup _ _ _ _ 1%nat Hv ltac:(cbn; lia)) as H1.
    pose proof (field_lookup _ _ _ _ 2%nat Hv ltac:(cbn; lia)) as H2. pose proof (field_lookup _ _ _ _ 3%nat Hv ltac:(cbn; lia)) as H3.
    replace (pc + 4 - 4)%nat with (pc + 0)%nat by lia. replace (pc + 4 - 3)%nat with (pc + 1)%nat by lia.
    replace (pc + 4 - 2)%nat with (pc + 2)%nat by lia. replace (pc + 4 - 1)%nat with (pc + 3)%nat by lia.
    rewrite H0, H1, H2, H3. cbn [mbind res_bind lookup list_lookup deref]. f_equal. rewrite !Z.shiftr_div_pow2 by lia.
    change (256 ^ Z.of_nat 4) with 4294967296 in Hf. change (2 ^ 24) with 16777216. change (2 ^ 16) with 65536. change (2 ^ 8) with 256. dlia.
Qed.

Lemma ev_bind_Ok {A B} (x : ev A) (f : A -> ev B) s r s' : (x ≫= f) s = Ok (r, s') -> exists r1 s1, x s = Ok (r1, s1) /\
  match r1 with inl e => r = inl e /\ s' = s1 | inr a => f a s1 = Ok (r, s') end.
Proof.
  unfold mbind, ev_bind. destruct (x s) as [[r1 s1]|]; cbn; [|done]. intros H. exists r1, s1. split; [done|].
  destruct r1; [by simplify_eq|done].
Qed.

(** A machine, the state of the generator in the end, and what the running activation does not
    change. *)
Class Machine (Data World : Type) := {
  F : State;
  m0 : vm Data World;
  a0 : activation Data;
  acts : list (activation Data);
  mc_finished : finished F;
  mc_small : small F;
  mc_code : code_of (with_activs (a0 :: acts) m0) = Ok (with_vector (the_vector F) (layout F));
  mc_lits : pr_literals (a_prog a0) = literals (gstate F);
  mc_size : rt_stack_size a0 = max_stack F }.

Section Code.
Context {Data Susp World : Type} `{H : Host Data Susp World} {M : Machine Data World}.
Abbreviation bc := (with_vector (the_vector F) (layout F)).

Definition loc (p : nat) : nat := pos (layout F) (fixups F) p.

(** What instructions change besides the stack and the state of the program. *)
Record scratch := mkScratch { sc_ticks : Z; sc_temp : Var; sc_epc : nat }.

Definition running (pc : nat) (st : list Var) (es : estate) (k : scratch) : activation Data :=
  mkActivation (a_prog a0) (e_env es) st (rt_stack_size a0) pc (sc_epc k) (bi_func_pc a0) (bi_func_id a0)
    (bi_func_data a0) (sc_temp k) (a_THIS a0) (a_this a0) (a_player a0) (a_progr a0) (a_vloc a0) (a_verb a0) (a_verbname a0)
    (a_debug a0).
Definition conf_at (pc : nat) (st : list Var) (es : estate) (k : scratch) : vm Data World :=
  mkVm (running pc st es k :: acts) (root_activ_vector m0) (max_stack_size m0) (sc_ticks k) false (Vm.handler m0) (e_db es)
    (programs m0) (world m0).
Definition conf (p : nat) := conf_at (loc p).

Definition step_to (m m' : vm Data World) : Prop := vm_step m = Ok (Next, m').

Lemma bind_act {A B} (x : @act Data World A) (f : A -> @act Data World B) m a m' : x m = Ok (a, m') -> (x ≫= f) m = f a m'.
Proof. unfold mbind, act_bind. by intros ->. Qed.

Lemma observe_code pc st es k : observe code_of (conf_at pc st es k) = Ok (bc, conf_at pc st es k).
Proof.
  assert (E : code_of (conf_at pc st es k) = Ok bc) by exact mc_code. unfold observe. by rewrite E.
Qed.

Lemma run_activ_conf pc st es k : run_activ (conf_at pc st es k) = Ok (running pc st es k, conf_at pc st es k).
Proof. done. Qed.

Lemma lift_conf {A} (x : res A) a (m : vm Data World) : x = Ok a -> liftM x m = Ok (a, m).
Proof. by intros ->. Qed.

(** *** Operands *)

Lemma loc_byte p b : CodeShape.byte_at F p b -> the_vector F !! loc p = Some b /\ loc (S p) = S (loc p).
Proof. by apply vector_byte, mc_finished. Qed.

Lemma peek_conf p st es k b : CodeShape.byte_at F p b -> peek 0 (conf p st es k) = Ok (b, conf p st es k).
Proof.
  intros [Hb _]%loc_byte. unfold peek, conf. rewrite (bind_act _ _ _ _ _ (observe_code _ _ _ _)), (bind_act _ _ _ _ _ (run_activ_conf _ _ _ _)).
  apply lift_conf. cbn [a_pc running]. rewrite Nat.add_0_r. unfold code_byte. cbn [vector with_vector]. by rewrite Hb.
Qed.

Lemma read_conf pc st es k nb n : field (the_vector F) pc nb n ->
  READ_BYTES nb (conf_at pc st es k) = Ok (n, conf_at (pc + nb) st es k).
Proof.
  intros Hf. unfold READ_BYTES. rewrite (bind_act _ _ _ _ _ (observe_code _ _ _ _)), (bind_act _ _ _ _ _ (run_activ_conf _ _ _ _)).
  rewrite (bind_act _ _ _ _ _ (lift_conf _ _ _ (bytes_at_field bc pc nb n Hf))). cbn. by rewrite Nat2Z.id.
Qed.

Lemma read_ref_conf p size n st es k (f : Bytecodes -> nat) : f bc = size ->
  field (the_vector F) (loc p) size n -> loc (S p) = (loc p + size)%nat ->
  (bc' ← observe code_of; READ_BYTES (f bc')) (conf p st es k) = Ok (n, conf (S p) st es k).
Proof.
  intros <- Hf Hn. unfold conf. rewrite (bind_act _ _ _ _ _ (observe_code _ _ _ _)). by rewrite (read_conf _ _ _ _ _ _ Hf), Hn.
Qed.

Lemma read_label_conf p t st es k : (t < here F)%nat -> label_at F p t ->
  read_label (conf p st es k) = Ok (loc t, conf (S p) st es k).
Proof. intros Ht Hl. destruct (vector_label F mc_finished mc_small p t Ht Hl) as [Hf Hn]. by eapply (read_ref_conf p _ _ _ _ _ numbytes_label). Qed.

Lemma skip_label_conf p t st es k : (t < here F)%nat -> label_at F p t ->
  skip_label (conf p st es k) = Ok (tt, conf (S p) st es k).
Proof.
  intros Ht Hl. destruct (vector_label F mc_finished mc_small p t Ht Hl) as [Hf Hn]. unfold skip_label, conf. rewrite (bind_act _ _ _ _ _ (observe_code _ _ _ _)).
  unfold loc. by rewrite Hn.
Qed.

Lemma read_pseudo_conf p n st es k : (n < 256)%nat -> pseudo_at F p n ->
  read_label (conf p st es k) = Ok (n, conf (S p) st es k).
Proof. intros Ht Hl. destruct (vector_pseudo F mc_finished p n Ht Hl) as [Hf Hn]. by eapply (read_ref_conf p _ _ _ _ _ numbytes_label). Qed.

Lemma read_var_conf p i st es k : ref_at F p FIXUP_VAR_REF i ->
  read_var_name (conf p st es k) = Ok (i, conf (S p) st es k).
Proof.
  intros Hr. destruct (vector_ref F mc_finished mc_small p FIXUP_VAR_REF i ltac:(done) Hr) as [Hf Hn]. by eapply (read_ref_conf p _ _ _ _ _ numbytes_var_name).
Qed.

Lemma read_stack_conf p i st es k : ref_at F p FIXUP_STACK i ->
  read_stack_ref (conf p st es k) = Ok (i, conf (S p) st es k).
Proof.
  intros Hr. destruct (vector_ref F mc_finished mc_small p FIXUP_STACK i ltac:(done) Hr) as [Hf Hn]. by eapply (read_ref_conf p _ _ _ _ _ numbytes_stack).
Qed.

Lemma read_byte_conf p b st es k : (b < 256)%nat -> CodeShape.byte_at F p (Z.of_nat b) ->
  READ_BYTES 1 (conf p st es k) = Ok (b, conf (S p) st es k).
Proof.
  intros Hlt Hb. pose proof (loc_byte _ _ Hb) as [Hv Hn]. unfold conf. rewrite (read_conf _ _ _ _ 1 b).
  { unfold loc in *. rewrite Hn. by rewrite Nat.add_1_r. }
  split; [by left|]. split; [|unfold CodeLink.fits; cbn; lia]. cbn [put_value]. rewrite Z.mod_small by lia.
  rewrite <- (Nat.add_0_r (loc p)), <- lookup_drop in Hv. destruct (drop (loc p) (the_vector F)) as [|x l]; [done|].
  cbn in *. by simplify_eq.
Qed.

(** *** Single steps *)

(** After the opcode at [p] is read. *)
Definition fetched (o : Opcode) (p : nat) (k : scratch) : scratch :=
  mkScratch (if COUNT_TICK (opcode_num o) then sc_ticks k - 1 else sc_ticks k) (sc_temp k) (loc p).

(** Enough ticks for [n] more instructions. *)
Definition enough (n : nat) (k : scratch) : Prop := Z.of_nat n < sc_ticks k < 2 ^ 31.

Lemma step_op p o st es k : op_at F p o -> enough 1 k ->
  vm_step (conf p st es k) = instr o (conf (S p) st es (fetched o p k)).
Proof.
  intros [Ho Hb] Ht. unfold enough in Ht. unfold vm_step. rewrite (bind_act _ _ _ _ _ (peek_conf _ _ _ _ _ Hb)).
  destruct (opcode_of_num o Ho) as [_ Hof]. unfold conf at 2. rewrite (proj2 (loc_byte _ _ Hb)).
  unfold mbind, act_bind, alter_. cbn [mbind res_bind].
  unfold count_tick, fetched. cbn [upd_activ conf conf_at running activ_stack with_activs set_pc set_error_pc a_pc a_prog rt_env rt_stack
    rt_stack_size error_pc bi_func_pc bi_func_id bi_func_data a_temp a_THIS a_this a_player a_progr a_vloc a_verb a_verbname a_debug
    ticks_remaining with_ticks task_timed_out root_activ_vector max_stack_size Vm.handler vm_db programs world sc_ticks sc_temp sc_epc].
  rewrite Hof. destruct (COUNT_TICK (opcode_num o)); [|done]. rewrite wrap32_id by (unfold int_range; lia).
  destruct (Z.leb_spec (sc_ticks k - 1) 0); [lia|]. done.
Qed.

Definition fetched_eop (o : Extended_Opcode) (p : nat) (k : scratch) : scratch :=
  mkScratch (if COUNT_EOP_TICK (eopcode_num o) then sc_ticks k - 1 else sc_ticks k) (sc_temp k) (loc p).

Lemma step_eop p o st es k : eop_at F p o -> enough 1 k ->
  vm_step (conf p st es k) = extended_instr o (conf (S (S p)) st es (fetched_eop o p k)).
Proof.
  intros [Ho Hb] Ht. rewrite (step_op _ _ _ _ _ Ho Ht). cbn [instr]. unfold op_extended.
  rewrite (bind_act _ _ _ _ _ (peek_conf _ _ _ _ _ Hb)). unfold conf at 2. rewrite (proj2 (loc_byte _ _ Hb)).
  unfold mbind, act_bind, alter_, SKIP_BYTES. cbn [mbind res_bind]. rewrite (proj1 (eopcode_of_num o)).
  unfold fetched_eop, fetched, conf. change (COUNT_TICK (opcode_num OP_EXTENDED)) with false. unfold enough in Ht.
  unfold alter_, upd_activ, set_pc. cbn [conf_at activ_stack running with_activs a_pc]. rewrite Nat.add_1_r.
  destruct (COUNT_EOP_TICK (eopcode_num o)); [|done]. unfold with_ticks. cbn [mbind res_bind ticks_remaining sc_ticks with_activs conf_at].
  by rewrite wrap32_id by (unfold int_range; lia).
Qed.

(** *** The stack *)

Lemma pop_conf pc v st es k : pop (conf_at pc (v :: st) es k) = Ok (v, conf_at pc st es k).
Proof. done. Qed.

Lemma push_conf pc v st es k : (length st < max_stack F)%nat -> push v (conf_at pc st es k) = Ok (tt, conf_at pc (v :: st) es k).
Proof.
  intros Hl. unfold push, PUSH. cbn [RUN_ACTIV conf_at activ_stack head deref mbind res_bind rt_stack rt_stack_size running].
  by rewrite decide_True by (rewrite mc_size; lia).
Qed.

Lemma push_value_conf pc v st es k : (length st < max_stack F)%nat ->
  push_value v (conf_at pc st es k) = Ok (Next, conf_at pc (v :: st) es k).
Proof. intros Hl. unfold push_value. by rewrite (bind_act _ _ _ _ _ (push_conf _ _ _ _ _ Hl)). Qed.

Lemma top_conf pc v st es k : observe TOP_RT_VALUE (conf_at pc (v :: st) es k) = Ok (v, conf_at pc (v :: st) es k).
Proof. done. Qed.
Lemma next_top_conf pc v w st es k : observe NEXT_TOP_RT_VALUE (conf_at pc (v :: w :: st) es k) = Ok (w, conf_at pc (v :: w :: st) es k).
Proof. done. Qed.

Lemma skip_conf n pc st es k : SKIP_BYTES n (conf_at pc st es k) = Ok (tt, conf_at (pc + n) st es k).
Proof. done. Qed.

(** ** Going through code *)

(** At most [n] ticks are used. *)
Definition left_ (n : nat) (k k' : scratch) : Prop := sc_ticks k - Z.of_nat n <= sc_ticks k' <= sc_ticks k.

Lemma left_refl n k : left_ n k k.
Proof. unfold left_. lia. Qed.
Lemma left_trans n1 n2 k k1 k2 : left_ n1 k k1 -> left_ n2 k1 k2 -> left_ (n1 + n2) k k2.
Proof. unfold left_. lia. Qed.
Lemma left_mono n1 n2 k k1 : left_ n1 k k1 -> (n1 <= n2)%nat -> left_ n2 k k1.
Proof. unfold left_. lia. Qed.
Lemma enough_left n1 n2 k k1 : enough (n1 + n2) k -> left_ n1 k k1 -> enough n2 k1.
Proof. unfold enough, left_. lia. Qed.
Lemma enough_mono n1 n2 k : enough n1 k -> (n2 <= n1)%nat -> enough n2 k.
Proof. unfold enough. lia. Qed.
Lemma left_fetched o p k : left_ 1 k (fetched o p k).
Proof. unfold left_, fetched. cbn. destruct (COUNT_TICK _); lia. Qed.
Lemma left_fetched_eop o p k : left_ 1 k (fetched_eop o p k).
Proof. unfold left_, fetched_eop. cbn. destruct (COUNT_EOP_TICK _); lia. Qed.

Section going.
(** A saved value that is kept, if one has to be. *)
Context (T : option Var).
Definition keeps (k : scratch) : Prop := match T with Some t => sc_temp k = t | None => True end.

Lemma keeps_same k k' : sc_temp k' = sc_temp k -> keeps k -> keeps k'.
Proof. unfold keeps. by intros ->. Qed.

(** From one state to another, given enough ticks. *)
Definition goes (p : nat) (st : list Var) (es : estate) (p' : nat) (st' : list Var) (es' : estate) : Prop :=
  exists n, forall k, enough n k -> keeps k -> exists k',
    rtc step_to (conf p st es k) (conf p' st' es' k') /\ left_ n k k' /\ keeps k'.

(** An error is raised, with [st'] at the bottom of the stack. *)
Definition raises (p : nat) (st : list Var) (es : estate) (e : error) (st' : list Var) (es' : estate) : Prop :=
  a_debug a0 = true /\ exists n, forall k, enough n k -> keeps k -> exists m ext pc k', rtc step_to (conf p st es k) m /\
    vm_step m = PUSH_ERROR e (conf_at pc (ext ++ st') es' k') /\ left_ n k k'.

(** A value arrives on top of the stack [st'], at [q]; an OP_POP there may have been done
    together with the last instruction.  Or an error is raised. *)
Definition delivers p st es q (st' : list Var) (r : error + Var) es' : Prop :=
  match r with
  | inr v => goes p st es q (v :: st') es' \/ op_at F q OP_POP /\ goes p st es (S q) st' es'
  | inl e => raises p st es e st' es'
  end.

(** The same with several values, at a place where there is no OP_POP. *)
Definition leaves p st es q (st' : list Var) (r : error + list Var) es' : Prop :=
  match r with
  | inr vs => goes p st es q (vs ++ st') es'
  | inl e => raises p st es e st' es'
  end.

Lemma goes_refl p st es : goes p st es p st es.
Proof. exists 0%nat. intros k _ Hk. exists k. split; [apply rtc_refl|split; [apply left_refl|done]]. Qed.

Lemma goes_step p st es q st' es' : (forall k, enough 1 k -> exists k', vm_step (conf p st es k) = Ok (Next, conf q st' es' k') /\
  left_ 1 k k' /\ sc_temp k' = sc_temp k) -> goes p st es q st' es'.
Proof.
  intros Hs. exists 1%nat. intros k Hk Ht. destruct (Hs k Hk) as (k' & Hv & Hl & Ht'). exists k'. split; [by apply rtc_once|].
  split; [done|by eapply keeps_same].
Qed.

Lemma goes_trans p st es p1 st1 es1 p2 st2 es2 : goes p st es p1 st1 es1 -> goes p1 st1 es1 p2 st2 es2 -> goes p st es p2 st2 es2.
Proof.
  intros [n1 H1] [n2 H2]. exists (n1 + n2)%nat. intros k Hk Ht.
  destruct (H1 k) as (k1 & Hs & Hl & Ht1); [apply (enough_mono (n1 + n2)); [done|lia]|done|].
  destruct (H2 k1) as (k2 & Hs2 & Hl2 & Ht2); [by eapply enough_left|done|]. exists k2. split; [by etrans|split; [by eapply left_trans|done]].
Qed.

Lemma raises_trans p st es p1 st1 es1 e st2 es2 : goes p st es p1 st1 es1 -> raises p1 st1 es1 e st2 es2 -> raises p st es e st2 es2.
Proof.
  intros [n1 H1] [Hd [n2 H2]]. split; [done|]. exists (n1 + n2)%nat. intros k Hk Ht.
  destruct (H1 k) as (k1 & Hs & Hl & Ht1); [apply (enough_mono (n1 + n2)); [done|lia]|done|].
  destruct (H2 k1) as (m & ext & pc & k2 & Hs2 & Hr & Hl2); [by eapply enough_left|done|]. exists m, ext, pc, k2.
  split; [by etrans|]. split; [done|by eapply left_trans].
Qed.

(** What is above does not matter. *)
Lemma raises_below p st es e st1 st2 es1 : raises p st es e (st1 ++ st2) es1 -> raises p st es e st2 es1.
Proof.
  intros [Hd [n Hn]]. split; [done|]. exists n. intros k Hk Ht. destruct (Hn k Hk Ht) as (m & ext & pc & k2 & Hs2 & Hr & Hl2).
  exists m, (ext ++ st1), pc, k2. by rewrite <- app_assoc.
Qed.

Lemma delivers_trans p st es p1 st1 es1 q st2 r es2 : goes p st es p1 st1 es1 -> delivers p1 st1 es1 q st2 r es2 ->
  delivers p st es q st2 r es2.
Proof.
  intros Hg Hd. destruct r as [e|v]; [by eapply raises_trans|].
  destruct Hd as [Hd|[Ho Hd]]; [left|right; split; [done|]]; by eapply goes_trans.
Qed.

Lemma leaves_trans p st es p1 st1 es1 q st2 r es2 : goes p st es p1 st1 es1 -> leaves p1 st1 es1 q st2 r es2 ->
  leaves p st es q st2 r es2.
Proof. intros Hg Hd. destruct r as [e|v]; [by eapply raises_trans|by eapply goes_trans]. Qed.

(** A value that is not thrown away at once. *)
Lemma delivers_goes p st es q st' v es' o : op_at F q o -> o <> OP_POP -> delivers p st es q st' (inr v) es' ->
  goes p st es q (v :: st') es'.
Proof.
  intros [Hg Hb] Hne [?|[[_ Hb'] _]]; [done|]. exfalso. apply Hne. apply opcode_num_inj; [done..|].
  destruct Hb, Hb'. congruence.
Qed.

(** A value is pushed at the end of an instruction, or an error is raised. *)
Definition pushes p st es q st' r es1 : Prop := forall k, enough 1 k -> exists k1,
  vm_step (conf p st es k) = push_result r (conf q st' es1 k1) /\ left_ 1 k k1 /\ sc_temp k1 = sc_temp k.

Lemma pushes_value p st es q st' es1 v : pushes p st es q st' (inr v) es1 -> (length st' < max_stack F)%nat ->
  goes p st es q (v :: st') es1.
Proof.
  intros Hp Hn. apply goes_step. intros k Hk. destruct (Hp k Hk) as (k1 & Hs & Hl). exists k1. split; [|done]. rewrite Hs.
  by apply push_value_conf.
Qed.

Lemma pushes_result p st es q st' es1 r r' es2 : pushes p st es q st' r es1 -> (length st' < max_stack F)%nat ->
  result (a_debug a0) r es1 = Ok (r', es2) ->
  match r' with inr v => goes p st es q (v :: st') es2 | inl e => raises p st es e st' es2 end.
Proof.
  intros Hp Hn Hr. destruct r as [e|v]; cbn [result] in *.
  - unfold fails in Hr. destruct (a_debug a0) eqn:Hd; simplify_eq.
    + split; [done|]. exists 1%nat. intros k Hk _. destruct (Hp k Hk) as (k1 & Hs & Hl & _).
      exists (conf p st es k), [], (loc q), k1. split; [apply rtc_refl|done].
    + apply pushes_value; [|done]. intros k Hk. destruct (Hp k Hk) as (k1 & Hs & Hl). exists k1. split; [|done]. rewrite Hs.
      cbn [push_result]. unfold PUSH_ERROR, RAISE_ERROR, conf. rewrite (bind_act _ _ _ _ _ (run_activ_conf _ _ _ _)).
      cbn [a_debug running]. by rewrite Hd.
  - unfold mret, ev_ret in Hr. simplify_eq. by apply pushes_value.
Qed.

Lemma pushes_delivers p st es q st' es1 r r' es2 : pushes p st es q st' r es1 -> (length st' < max_stack F)%nat ->
  result (a_debug a0) r es1 = Ok (r', es2) -> delivers p st es q st' r' es2.
Proof. intros Hp Hn Hr. pose proof (pushes_result _ _ _ _ _ _ _ _ _ Hp Hn Hr). destruct r'; [done|by left]. Qed.

End going.

End Code.

(** ** Tactics *)

(** Reads an opcode, then the operands on the stack. *)
Ltac pops := repeat first
  [ rewrite (bind_act _ _ _ _ _ (pop_conf _ _ _ _ _)) | rewrite (bind_act _ _ _ _ _ (top_conf _ _ _ _ _))
  | rewrite (bind_act _ _ _ _ _ (next_top_conf _ _ _ _ _ _)) ].
Ltac calc E := rewrite (bind_act _ _ _ _ _ (lift_conf _ _ _ E)).
Ltac opcode Ho := intros ? Hk; eexists (fetched _ _ _); split; [|split; [apply left_fetched|done]];
  rewrite (step_op _ _ _ _ _ Ho Hk); cbn [instr]; unfold conf.
Ltac eopcode Ho := intros ? Hk; eexists (fetched_eop _ _ _); split; [|split; [apply left_fetched_eop|done]];
  rewrite (step_eop _ _ _ _ _ Ho Hk); cbn [extended_instr]; unfold conf.
