(* ===== verification/VmInstr.v ===== *)
(** * Instructions of compiled expressions (src/execute.c)

    What one instruction does on a machine that executes compiled code, with the values of the
    reference semantics; where the code of expressions starts, and how long it is. *)

From S2P Require Import Prelude CStrings Utf Values Lists Db Properties Ast CodeGen CodeShape CodeExpr CodeLink EvalEnv Vm VmRun Eval VmCode.

Open Scope Z_scope.

Section Instr.
Context {Data Susp World : Type} `{H : Host Data Susp World} {M : Machine Data World}.

(** ** Places in the code *)

Definition code_at (q : nat) : Prop := exists o, op_at F q o.
Definition nopop_at (q : nat) : Prop := exists o, op_at F q o /\ o <> OP_POP.

Lemma nopop_code q : nopop_at q -> code_at q.
Proof. intros (o & Ho & _). by exists o. Qed.

Lemma code_lt q : code_at q -> (q < here F)%nat.
Proof. intros (o & _ & Hb & _). by apply lookup_lt_Some in Hb. Qed.

Lemma delivers_on p st es q st' v es' : nopop_at q -> delivers None p st es q st' (inr v) es' -> goes None p st es q (v :: st') es'.
Proof. intros (o & Ho & Hne). by apply (delivers_goes _ _ _ _ _ _ _ _ o). Qed.

(** Code of an expression does not start with OP_POP. *)
Definition starts (e : Expr) : Prop :=
  (forall p q saved k, compiled F e p q saved k -> nopop_at p) /\
  (forall above p q saved k, compiled_lvalue F e above p q saved k -> nopop_at q -> nopop_at p).
Definition args_start (args : Arg_List) : Prop := forall p q saved k, compiled_args F args p q saved k -> nopop_at p.

Lemma nopop_intro p o : op_at F p o -> o <> OP_POP -> nopop_at p.
Proof. intros H1 H2. by exists o. Qed.

Lemma var_op_nopop op g_op id p q : (forall i, op i <> OP_POP) -> g_op <> OP_POP -> var_op_at F op g_op id p q -> nopop_at p.
Proof. intros H1 H2 [(_ & Ho & _)|(_ & Ho & _)]; by eapply nopop_intro. Qed.

Lemma starts_asgn lhs rhs : starts lhs -> starts rhs -> starts (EXPR_ASGN lhs rhs).
Proof.
  intros [_ H1] [H2 _]. split; [|by intros above p q saved k []]. intros p q saved k Hc.
  assert (Hp : plain_asgn F lhs rhs p q saved k \/ exists sc, lhs = EXPR_SCATTER sc) by (destruct lhs; eauto).
  destruct Hp as [(p1 & p2 & p3 & p4 & C1 & C2 & _)|[sc ->]]; [by eapply H1, H2|].
  destruct Hc as (p1 & p2 & targets & C1 & _). by eapply H2.
Qed.

Lemma starts_all : (forall e, starts e) /\ (forall e : Opt_Expr, True) /\ (forall args, args_start args) /\ (forall sc : Scatter, True).
Proof.
  apply Expr_mutind; try done.
  - intros v. split; [|by intros above p q saved k []]. intros p q saved k [_ [(n & _ & Ho & _)|(Ho & _)]]; by eapply nopop_intro.
  - intros i. split.
    + intros p q saved k [_ Hv]. by eapply (var_op_nopop OP_PUSH OP_G_PUSH).
    + intros [|] p q saved k; cbn; [intros [_ Hv] _; by eapply (var_op_nopop OP_PUSH OP_G_PUSH)|by intros ->].
  - intros k lhs [H1 _] rhs _. split; [intros p q saved j (p1 & p2 & C & _); by eapply H1|].
    intros above p q saved j; cbn. destruct k; try done. intros (p1 & p2 & C & _) _. by eapply H1.
  - intros u e [H1 _]. split; [|by intros above p q saved k []]. intros p q saved k (p1 & C & _). by eapply H1.
  - intros lhs [H1 _] rhs _. split; [|by intros above p q saved k []]. intros p q saved k (p1 & C & _). by eapply H1.
  - intros lhs [H1 _] rhs _. split; [|by intros above p q saved k []]. intros p q saved k (p1 & C & _). by eapply H1.
  - intros lhs [H1 L1] rhs [H2 _]. split; [intros p q saved j (p1 & p2 & C & _); by eapply H1|].
    intros above p q saved j (p1 & p2 & C1 & C2 & _) _. by eapply L1, H2.
  - intros base [H1 L1] from [H2 _] to _. split; [intros p q saved j (p1 & p2 & p3 & C & _); by eapply H1|].
    intros above p q saved j (p1 & p2 & C1 & C2 & _) _. by eapply L1, H2.
  - split; [|by intros above p q saved k []]. intros p q saved k (i & _ & _ & [Ho _] & _). by eapply nopop_intro.
  - intros f args H1. split; [|by intros above p q saved k []]. intros p q saved k (p1 & C & _). by eapply H1.
  - intros obj [H1 _] verb _ args _. split; [|by intros above p q saved k []]. intros p q saved k (p1 & p2 & p3 & C & _). by eapply H1.
  - intros c [H1 _] a _ b _. split; [|by intros above p q saved k []]. intros p q saved k (p1 & p2 & C & _). by eapply H1.
  - intros lhs H1 rhs H2. by apply starts_asgn.
  - intros e _ codes H1 except _. split; [|by intros above p q saved k []]. intros p q saved k (p1 & p2 & C & _).
    destruct codes; [destruct C as (_ & Ho & _); by eapply nopop_intro|by eapply H1].
  - intros p q saved k (_ & Ho & _). by eapply nopop_intro.
  - intros k e [H1 _] args _ p q saved j (p1 & C & _). by eapply H1.
Qed.

Lemma start_at e p q saved k : compiled F e p q saved k -> nopop_at p.
Proof. apply starts_all. Qed.
Lemma place_start e above p q saved k : compiled_lvalue F e above p q saved k -> nopop_at q -> nopop_at p.
Proof. apply starts_all. Qed.

(** ** Instructions *)

Lemma run_binary_op f x y ans pc st es k : f x y = Ok ans ->
  op_binary f (conf_at pc (y :: x :: st) es k) = push_result (answer ans) (conf_at pc st es k).
Proof. intros Hf. unfold op_binary. pops. by calc Hf. Qed.

Lemma run_compare test x y c pc st es k : comparison x y = Ok c ->
  op_compare test (conf_at pc (y :: x :: st) es k) =
    push_result (match c with inl e => inl e | inr n => inr (truth (test n)) end) (conf_at pc st es k).
Proof. unfold op_compare. intros Hc. pops. calc Hc. by destruct c. Qed.

Lemma run_equal negated x y b pc st es k : equality y x false = Ok b ->
  op_equal negated (conf_at pc (y :: x :: st) es k) = push_value (truth (xorb negated b)) (conf_at pc st es k).
Proof. intros Hb. unfold op_equal. pops. by calc Hb. Qed.

Lemma binary_pushes b x y r p q st es : binary pow b x y = Ok r -> b <> EXPR_PROP -> binary_at F b p q ->
  pushes p (y :: x :: st) es q st r es.
Proof.
  intros Hr Hb Ho. unfold binary_at in Ho. destruct b; try done; cbn [binary_op binary] in *;
    try (apply res_fmap_Ok in Hr as (ans & Hr & <-)); destruct Ho as [Ho ->].
  all: try (opcode Ho; first [by apply run_binary_op | by apply run_compare]).
  all: try (eopcode Ho; by apply run_binary_op).
  - opcode Ho. by rewrite (run_equal _ _ _ _ _ _ _ _ Hr).
  - opcode Ho. rewrite (run_equal _ _ _ _ _ _ _ _ Hr). by destruct ans.
  - opcode Ho. unfold op_in. pops. destruct y; simplify_eq; try done. apply res_bind_Ok in Hr as (i & Hi & Hr). simplify_eq. by calc Hi.
Qed.

Lemma unary_pushes u v p q st es : unary_at F u p q -> pushes p (v :: st) es q st (unary u v) es.
Proof.
  intros Ho. destruct u; cbn [unary_at unary] in *; destruct Ho as [Ho ->].
  - opcode Ho. unfold op_unary. by pops.
  - opcode Ho. unfold op_not. by pops.
  - eopcode Ho. unfold op_unary. by pops.
Qed.

(** *** With the reference semantics *)

Lemma listconcat_Ok l1 l2 : listconcat l1 l2 = Ok (l1 ++ l2).
Proof. unfold listconcat. rewrite !slice_prefix by (pose proof (len_nonneg l1); pose proof (len_nonneg l2); lia). cbn [mbind res_bind].
  unfold len. by rewrite !Nat2Z.id, !firstn_all. Qed.

Lemma calculate_Ok dbg x es r' es' : calculate dbg x es = Ok (r', es') -> exists r, x = Ok r /\ result dbg r es = Ok (r', es').
Proof. unfold calculate, mbind, ev_bind, lift. destruct x as [r|]; cbn; [|done]. intros Hr. by exists r. Qed.

Lemma calculated T p st0 es q st x r' es' : calculate (a_debug a0) x es = Ok (r', es') -> (length st < max_stack F)%nat ->
  (forall r, x = Ok r -> pushes p st0 es q st r es) -> delivers T p st0 es q st r' es'.
Proof. intros (r & Hx & Hr)%calculate_Ok Hn Hp. eapply pushes_delivers; [by apply Hp|done|done]. Qed.

(** Variables of the running activation. *)
Lemma get_var_conf pc st es k n v : e_env es !! n = Some v -> get_var n (conf_at pc st es k) = Ok (v, conf_at pc st es k).
Proof. intros Hv. unfold get_var. rewrite (bind_act _ _ _ _ _ (run_activ_conf _ _ _ _)). cbn [rt_env running]. unfold liftM. by rewrite Hv. Qed.

Lemma put_var_conf pc st es k n w v : e_env es !! n = Some w ->
  put_var n v (conf_at pc st es k) = Ok (tt, conf_at pc st (mkEstate (<[n := v]> (e_env es)) (e_db es)) k).
Proof. intros Hw. unfold put_var. by rewrite (bind_act _ _ _ _ _ (get_var_conf _ _ _ _ _ _ Hw)). Qed.

Section instructions.
Context (T : option Var) (p : nat) (st : list Var) (es : estate).
Context (Hroom : (length st < max_stack F)%nat).

Lemma do_binary b x y q r es' : binary_at F b p q -> b <> EXPR_PROP -> calculate (a_debug a0) (binary pow b x y) es = Ok (r, es') ->
  delivers T p (y :: x :: st) es q st r es'.
Proof. intros Ho Hb Hr. eapply calculated; [exact Hr|done|]. intros r0 Hr0. by eapply binary_pushes. Qed.

Lemma do_unary u v q r es' : unary_at F u p q -> result (a_debug a0) (unary u v) es = Ok (r, es') ->
  delivers T p (v :: st) es q st r es'.
Proof. intros Ho Hr. eapply pushes_delivers; [by apply unary_pushes|done|done]. Qed.

Lemma do_index l i r es' : op_at F p OP_REF -> indexed (a_debug a0) l i es = Ok (r, es') ->
  delivers T p (i :: l :: st) es (S p) st r es'.
Proof.
  intros Ho Hr. unfold indexed in Hr. destruct l; try done; (eapply calculated; [exact Hr|done|]; intros r0 Hr0);
    opcode Ho; unfold op_ref_step; pops; by calc Hr0.
Qed.

Lemma do_indexset l i v r es' : op_at F p OP_INDEXSET -> with_index (a_debug a0) l i v es = Ok (r, es') ->
  delivers T p (v :: i :: l :: st) es (S p) st r es'.
Proof.
  intros Ho Hr. unfold with_index in Hr. destruct l; try done; (eapply calculated; [exact Hr|done|]; intros r0 Hr0);
    apply res_fmap_Ok in Hr0 as (ans & Hr0 & <-); opcode Ho; unfold op_indexset_step; pops; by calc Hr0.
Qed.

Lemma do_range b f t r es' : op_at F p OP_RANGE_REF -> range (a_debug a0) b f t es = Ok (r, es') ->
  delivers T p (t :: f :: b :: st) es (S p) st r es'.
Proof.
  intros Ho Hr. eapply calculated; [exact Hr|done|]; intros r0 Hr0.
  apply res_fmap_Ok in Hr0 as (ans & Hr0 & <-). opcode Ho. unfold op_range_ref_step. pops. by calc Hr0.
Qed.

Lemma do_rangeset b f t v r es' : eop_at F p EOP_RANGESET -> with_range (a_debug a0) b f t v es = Ok (r, es') ->
  delivers T p (v :: t :: f :: b :: st) es (S (S p)) st r es'.
Proof.
  intros Ho Hr. eapply calculated; [exact Hr|done|]; intros r0 Hr0.
  apply res_fmap_Ok in Hr0 as (ans & Hr0 & <-). eopcode Ho. unfold eop_rangeset. pops. by calc Hr0.
Qed.

(** The operands are still needed. *)
Lemma do_push_ref l i r es' : (S (S (length st)) < max_stack F)%nat -> op_at F p OP_PUSH_REF -> part (a_debug a0) l i es = Ok (r, es') ->
  delivers T p (i :: l :: st) es (S p) (i :: l :: st) r es'.
Proof.
  intros Hn Ho Hr. eapply calculated; [exact Hr|done|]; intros r0 Hr0. opcode Ho. unfold op_push_ref. pops. by calc Hr0.
Qed.

(** Lists are pushed, or an error is raised, whatever comes next. *)
Lemma do_singleton v : op_at F p OP_MAKE_SINGLETON_LIST -> goes T p (v :: st) es (S p) (List [v] :: st) es.
Proof.
  intros Ho. apply pushes_value; [|done]. opcode Ho. unfold op_make_singleton_list. by pops.
Qed.

Lemma do_splice v r es' : op_at F p OP_CHECK_LIST_FOR_SPLICE -> as_list (a_debug a0) ARG_SPLICE v es = Ok (r, es') ->
  match r with inr w => goes T p (v :: st) es (S p) (w :: st) es' | inl e => raises T p (v :: st) es e st es' end.
Proof.
  intros Ho Hr. destruct v; cbn [as_list] in Hr.
  all: try (eapply (pushes_result T _ _ _ _ _ _ (inl E_TYPE)); [|done|exact Hr]; opcode Ho; done).
  unfold mret, ev_ret in Hr. simplify_eq. apply goes_step. opcode Ho. done.
Qed.

Lemma do_extend kind acc v r es' : op_at F p (match kind with ARG_NORMAL => OP_LIST_ADD_TAIL | ARG_SPLICE => OP_LIST_APPEND end) ->
  extended (a_debug a0) kind acc v es = Ok (r, es') ->
  match r with inr w => goes T p (v :: acc :: st) es (S p) (w :: st) es' | inl e => raises T p (v :: acc :: st) es e st es' end.
Proof.
  intros Ho Hr. destruct kind.
  - destruct acc; cbn [extended] in Hr.
    all: try (eapply (pushes_result T _ _ _ _ _ _ (inl E_TYPE)); [|done|exact Hr]; opcode Ho; unfold op_list_add_tail; by pops).
    unfold mret, ev_ret in Hr. simplify_eq. apply pushes_value; [|done]. opcode Ho. unfold op_list_add_tail. pops.
    by calc (listappend_Ok list v).
  - destruct acc, v; cbn [extended] in Hr.
    all: try (eapply (pushes_result T _ _ _ _ _ _ (inl E_TYPE)); [|done|exact Hr]; opcode Ho; unfold op_list_append; by pops).
    unfold mret, ev_ret in Hr. simplify_eq. apply pushes_value; [|done]. opcode Ho. unfold op_list_append. pops.
    by calc (listconcat_Ok list list0).
Qed.

(** A property of an object. *)
Lemma run_get_prop o n r es' : property (a_debug a0) (a_progr a0) o n es = Ok (r, es') -> exists r0,
  (forall pc st' k, get_prop o n (conf_at pc st' es k) = Ok (r0, conf_at pc st' es k)) /\ result (a_debug a0) r0 es = Ok (r, es').
Proof.
  intros Hr. unfold property in Hr.
  assert (Hd : forall pc st' k r0, (match o, n with
      | WaifV _, Str _ => fun _ => Fail Undefined
      | Obj o, Str name => if valid (e_db es) o then liftM (prop_value (e_db es) (a_progr a0) o name) else mret (inl E_INVIND)
      | _, _ => mret (inl E_TYPE) end) (conf_at pc st' es k) = Ok (r0, conf_at pc st' es k) ->
    get_prop o n (conf_at pc st' es k) = Ok (r0, conf_at pc st' es k)).
  { intros pc st' k r0. unfold get_prop. rewrite (bind_act _ _ _ _ _ (run_activ_conf _ _ _ _)). by destruct o, n. }
  destruct o, n; try done; try (exists (inl E_TYPE); split; [intros; by apply Hd|exact Hr]).
  destruct (valid (e_db es) obj); [|exists (inl E_INVIND); split; [intros; by apply Hd|exact Hr]].
  apply calculate_Ok in Hr as (r0 & Hp & Hr). exists r0. split; [|done]. intros. apply Hd. by rewrite Hp.
Qed.

Lemma do_get_prop o n r es' : op_at F p OP_GET_PROP -> property (a_debug a0) (a_progr a0) o n es = Ok (r, es') ->
  delivers T p (n :: o :: st) es (S p) st r es'.
Proof.
  intros Ho Hr. destruct (run_get_prop o n r es' Hr) as (r0 & Hg & H0).
  eapply pushes_delivers; [|done|exact H0]. opcode Ho. unfold op_get_prop. pops. by rewrite (bind_act _ _ _ _ _ (Hg _ _ _)).
Qed.

Lemma do_push_get_prop o n r es' : (S (S (length st)) < max_stack F)%nat -> op_at F p OP_PUSH_GET_PROP ->
  property (a_debug a0) (a_progr a0) o n es = Ok (r, es') -> delivers T p (n :: o :: st) es (S p) (n :: o :: st) r es'.
Proof.
  intros Hn Ho Hr. destruct (run_get_prop o n r es' Hr) as (r0 & Hg & H0).
  eapply pushes_delivers; [|done|exact H0]. opcode Ho. unfold op_push_get_prop. pops. by rewrite (bind_act _ _ _ _ _ (Hg _ _ _)).
Qed.

Lemma do_put_prop o n v r es' : op_at F p OP_PUT_PROP -> set_property (a_debug a0) (a_progr a0) o n v es = Ok (r, es') ->
  delivers T p (v :: n :: o :: st) es (S p) st r es'.
Proof.
  intros Ho Hr. unfold set_property in Hr.
  assert (Hrun : forall es1 r0 k, (match o, n with
      | WaifV _, Str _ => fun _ => Fail Undefined
      | Obj o, Str name => if valid (e_db es) o then
          r ← liftM (prop_store (e_db es) (a_progr a0) o name v);
          match r with inl err => PUSH_ERROR err | inr d => _ ← alter_ (with_db d); push_value v end else PUSH_ERROR E_INVIND
      | _, _ => PUSH_ERROR E_TYPE end) (conf (S p) st es k) = push_result r0 (conf (S p) st es1 k) ->
    op_put_prop (conf (S p) (v :: n :: o :: st) es k) = push_result r0 (conf (S p) st es1 k)).
  { intros es1 r0 k. unfold op_put_prop, conf. pops. rewrite (bind_act _ _ _ _ _ (run_activ_conf _ _ _ _)). by destruct o, n. }
  destruct o, n; try done; try (eapply (pushes_delivers T _ _ _ _ _ _ (inl E_TYPE)); [opcode Ho; by apply Hrun|done|exact Hr]).
  destruct (valid (e_db es) obj); [|eapply (pushes_delivers T _ _ _ _ _ _ (inl E_INVIND)); [opcode Ho; by apply Hrun|done|exact Hr]].
  apply res_bind_Ok in Hr as (r0 & Hp & Hr). destruct r0 as [e|d].
  - eapply (pushes_delivers T _ _ _ _ _ _ (inl e)); [opcode Ho; apply Hrun; by calc Hp|done|exact Hr].
  - eapply (pushes_delivers T _ _ _ _ _ (mkEstate (e_env es) d) (inr v)); [opcode Ho; apply Hrun; by calc Hp|done|exact Hr].
Qed.

(** *** Variables *)

Lemma do_push_var id q r es' : var_op_at F OP_PUSH OP_G_PUSH id p q -> variable (a_debug a0) id es = Ok (r, es') ->
  delivers T p st es q st r es'.
Proof.
  intros Ho Hr. unfold variable in Hr. apply res_bind_Ok in Hr as (v & Hv & Hr). apply deref_Ok in Hv.
  assert (Hp : pushes p st es q st (match v with None_ => inl E_VARNF | v => inr v end) es).
  { assert (Hrun : forall pc k, push_var (slot id) (conf_at pc st es k) =
      push_result (match v with None_ => inl E_VARNF | v => inr v end) (conf_at pc st es k)).
    { intros pc k. unfold push_var. rewrite (bind_act _ _ _ _ _ (get_var_conf _ _ _ _ _ _ Hv)). by destruct v. }
    destruct Ho as [(Hi & Ho & ->)|(Hi & Ho & Hf & ->)]; opcode Ho; [apply Hrun|].
    unfold op_g_push. change (conf_at (loc (S p))) with (conf (S p)). rewrite (bind_act _ _ _ _ _ (read_var_conf _ _ _ _ _ Hf)). apply Hrun. }
  eapply pushes_delivers; [exact Hp|done|]. by destruct v.
Qed.

(** A following OP_POP may be done together with the assignment. *)
Lemma do_put id v q r es' : code_at q -> var_op_at F OP_PUT OP_G_PUT id p q -> assign id v es = Ok (r, es') ->
  r = inr tt /\ delivers T p (v :: st) es q st (inr v) es'.
Proof.
  intros (o & Hq) Ho Hr. unfold assign in Hr. apply res_bind_Ok in Hr as (w & Hw & Hr). apply deref_Ok in Hw. simplify_eq. split; [done|].
  destruct Ho as [(Hi & Ho & ->)|(Hi & Ho & Hf & ->)].
  - destruct Hq as [Hgo Hb]. destruct (decide (o = OP_POP)) as [->|Hne].
    + right. split; [done|]. apply goes_step. opcode Ho. unfold op_put.
      rewrite (bind_act _ _ _ _ _ (get_var_conf _ _ _ _ _ _ Hw)). change (conf_at (loc (S p))) with (conf (S p)). rewrite (bind_act _ _ _ _ _ (peek_conf _ _ _ _ _ Hb)).
      rewrite Z.eqb_refl. unfold conf. pops.
      rewrite (bind_act _ _ _ _ _ (skip_conf _ _ _ _ _)), (proj2 (loc_byte _ _ Hb)), Nat.add_1_r. by rewrite (bind_act _ _ _ _ _ (put_var_conf _ _ _ _ _ _ v Hw)).
    + left. apply goes_step. opcode Ho. unfold op_put.
      rewrite (bind_act _ _ _ _ _ (get_var_conf _ _ _ _ _ _ Hw)). change (conf_at (loc (S p))) with (conf (S p)). rewrite (bind_act _ _ _ _ _ (peek_conf _ _ _ _ _ Hb)).
      destruct (Z.eqb_spec (opcode_num o) (opcode_num OP_POP)) as [E|_]; [by apply opcode_num_inj in E|]. unfold conf. pops.
      by rewrite (bind_act _ _ _ _ _ (put_var_conf _ _ _ _ _ _ v Hw)).
  - left. apply goes_step. opcode Ho. unfold op_g_put. change (conf_at (loc (S p))) with (conf (S p)). rewrite (bind_act _ _ _ _ _ (read_var_conf _ _ _ _ _ Hf)). unfold conf. pops.
    by rewrite (bind_act _ _ _ _ _ (put_var_conf _ _ _ _ _ _ v Hw)).
Qed.

(** *** Constants and lengths *)

Lemma do_literal v q saved : compiled F (EXPR_VAR v) p q saved (length st) -> code_at q -> delivers T p st es q st (inr v) es.
Proof.
  intros [_ [(n & -> & Ho & ->)|(Ho & (i & Hf & Hv) & ->)]] (o & Hgo & Hb).
  { left. apply pushes_value; [|done]. by opcode Ho. }
  destruct (vector_ref F mc_finished mc_small (S p) FIXUP_LITERAL i ltac:(done) Hf) as [Hfield Hn].
  assert (Hpeek : forall k, peek (numbytes_literal (layout F)) (conf (S p) st es k) = Ok (opcode_num o, conf (S p) st es k)).
  { intros k. unfold peek, conf. rewrite (bind_act _ _ _ _ _ (observe_code _ _ _ _)), (bind_act _ _ _ _ _ (run_activ_conf _ _ _ _)).
    apply lift_conf. cbn [a_pc running vector with_vector]. unfold code_byte. pose proof (loc_byte _ _ Hb) as [Hl _].
    unfold loc in *. cbn [fixup_size] in Hn. cbn [vector with_vector]. by rewrite <- Hn, Hl. }
  destruct (decide (o = OP_POP)) as [->|Hne].
  - right. split; [done|]. apply goes_step. opcode Ho. unfold op_imm. rewrite (bind_act _ _ _ _ _ (observe_code _ _ _ _)).
    change (conf_at (loc (S p))) with (conf (S p)). cbn [numbytes_literal with_vector]. rewrite (bind_act _ _ _ _ _ (Hpeek _)), Z.eqb_refl.
    unfold conf. rewrite (bind_act _ _ _ _ _ (skip_conf _ _ _ _ _)). pose proof (loc_byte _ _ Hb) as [_ Hl]. rewrite Hl.
    unfold loc in *. cbn [fixup_size] in Hn. by rewrite Hn, Nat.add_assoc, Nat.add_1_r.
  - left. apply pushes_value; [|done]. opcode Ho. unfold op_imm. rewrite (bind_act _ _ _ _ _ (observe_code _ _ _ _)).
    change (conf_at (loc (S p))) with (conf (S p)). cbn [numbytes_literal with_vector]. rewrite (bind_act _ _ _ _ _ (Hpeek _)).
    destruct (Z.eqb_spec (opcode_num o) (opcode_num OP_POP)) as [E|_]; [by apply opcode_num_inj in E|]. unfold conf at 1.
    rewrite (bind_act _ _ _ _ _ (read_conf _ _ _ _ _ _ Hfield)). rewrite (bind_act _ _ _ _ _ (run_activ_conf _ _ _ _)).
    cbn [a_prog running]. rewrite mc_lits. unfold conf, loc in *. rewrite <- Hn.
    by calc (proj2 (deref_Ok _ _) Hv).
Qed.

Lemma do_length i b r es' : eop_at F p EOP_LENGTH -> ref_at F (S (S p)) FIXUP_STACK i -> rev st !! i = Some b ->
  measure_of (a_debug a0) (Some b) es = Ok (r, es') -> delivers T p st es (S (S (S p))) st r es'.
Proof.
  intros Ho Hf Hb Hr.
  assert (Hrun : forall r0 k, match b with Str s => r0 = inr (Int (strlen_utf s)) | List l => r0 = inr (Int (len l)) | _ => r0 = inl E_TYPE end ->
    eop_length (conf (S (S p)) st es k) = push_result r0 (conf (S (S (S p))) st es k)).
  { intros r0 k Hr0. unfold eop_length. rewrite (bind_act _ _ _ _ _ (read_stack_conf _ _ _ _ _ Hf)). unfold conf.
    rewrite (bind_act _ _ _ _ _ (run_activ_conf _ _ _ _)). cbn [rt_stack running]. calc (proj2 (deref_Ok _ _) Hb). by destruct b; subst r0. }
  destruct b; cbn [measure_of] in Hr.
  all: try (eapply (pushes_delivers T _ _ _ _ _ _ (inl E_TYPE)); [eopcode Ho; by apply Hrun|done|exact Hr]).
  - eapply (pushes_delivers T _ _ _ _ _ _ (inr _)); [eopcode Ho; by apply Hrun|done|exact Hr].
  - eapply (pushes_delivers T _ _ _ _ _ _ (inr _)); [eopcode Ho; by apply Hrun|done|exact Hr].
Qed.

(** *** Jumps *)

Lemma do_jump t : op_at F p OP_JUMP -> label_at F (S p) t -> code_at t -> goes T p st es t st es.
Proof.
  intros Ho Hl Ht%code_lt. apply goes_step. opcode Ho. unfold op_jump. change (conf_at (loc (S p))) with (conf (S p)).
  by rewrite (bind_act _ _ _ _ _ (read_label_conf _ _ _ _ _ Ht Hl)).
Qed.

(** OP_IF_QUES, OP_IF, OP_WHILE, OP_EIF. *)
Lemma do_test_op o v t : instr o = do_test -> op_at F p o -> label_at F (S p) t -> code_at t ->
  goes T p (v :: st) es (if is_true v then S (S p) else t) st es.
Proof.
  intros Hi Ho Hl Ht%code_lt. apply goes_step. opcode Ho. rewrite Hi. unfold do_test. pops. destruct (is_true v).
  - change (conf_at (loc (S p))) with (conf (S p)). by rewrite (bind_act _ _ _ _ _ (skip_label_conf _ _ _ _ _ Ht Hl)).
  - change (conf_at (loc (S p))) with (conf (S p)). by rewrite (bind_act _ _ _ _ _ (read_label_conf _ _ _ _ _ Ht Hl)).
Qed.

Lemma do_and_or (is_or : bool) v t : op_at F p (if is_or then OP_OR else OP_AND) -> label_at F (S p) t -> code_at t ->
  if Bool.eqb (is_true v) is_or then goes T p (v :: st) es t (v :: st) es else goes T p (v :: st) es (S (S p)) st es.
Proof.
  intros Ho Hl Ht%code_lt. destruct (Bool.eqb (is_true v) is_or) eqn:Hv.
  all: apply goes_step; destruct is_or; opcode Ho; unfold op_and_or; change (conf_at (loc (S p))) with (conf (S p));
    rewrite (bind_act _ _ _ _ _ (read_label_conf _ _ _ _ _ Ht Hl)); unfold conf; pops; by rewrite Hv.
Qed.

Lemma do_pop v : op_at F p OP_POP -> goes T p (v :: st) es (S p) st es.
Proof. intros Ho. apply goes_step. opcode Ho. unfold op_pop. by pops. Qed.

End instructions.

(** *** Saving a value while it is stored *)

Lemma keep_none k : keeps None k.
Proof. done. Qed.

Lemma put_temp_step p v st es k : op_at F p OP_PUT_TEMP -> enough 1 k -> exists k1,
  vm_step (conf p (v :: st) es k) = Ok (Next, conf (S p) (v :: st) es k1) /\ left_ 1 k k1 /\ sc_temp k1 = v.
Proof.
  intros Ho Hk. exists (mkScratch (sc_ticks (fetched OP_PUT_TEMP p k)) v (loc p)). rewrite (step_op _ _ _ _ _ Ho Hk). cbn [instr].
  unfold op_put_temp, conf. pops. split; [done|]. split; [apply (left_fetched OP_PUT_TEMP p)|done].
Qed.

Lemma push_temp_step p v st es k : (length st < max_stack F)%nat -> op_at F p OP_PUSH_TEMP -> enough 1 k -> sc_temp k = v -> exists k1,
  vm_step (conf p st es k) = Ok (Next, conf (S p) (v :: st) es k1) /\ left_ 1 k k1.
Proof.
  intros Hn Ho Hk Ht. exists (mkScratch (sc_ticks (fetched OP_PUSH_TEMP p k)) None_ (loc p)). rewrite (step_op _ _ _ _ _ Ho Hk). cbn [instr].
  unfold op_push_temp, conf. rewrite (bind_act _ _ _ _ _ (run_activ_conf _ _ _ _)).
  rewrite (bind_act _ _ _ _ _ (push_conf _ _ _ _ _ Hn)). split; [|apply (left_fetched OP_PUSH_TEMP p)].
  cbn [a_temp running]. by rewrite <- Ht.
Qed.

Lemma saved_goes p v st es q st' es' : (length st' < max_stack F)%nat -> op_at F p OP_PUT_TEMP -> op_at F q OP_PUSH_TEMP ->
  goes (Some v) (S p) (v :: st) es q st' es' -> goes None p (v :: st) es (S q) (v :: st') es'.
Proof.
  intros Hn H1 H2 [n Hg]. exists (1 + n + 1)%nat. intros k Hk _.
  destruct (put_temp_step p v st es k H1) as (k1 & S1 & L1 & T1); [eapply enough_mono; [exact Hk|lia]|].
  destruct (Hg k1) as (k2 & S2 & L2 & T2); [eapply (enough_left 1); [eapply enough_mono; [exact Hk|lia]|done]|done|].
  destruct (push_temp_step q v st' es' k2 Hn H2) as (k3 & S3 & L3); [eapply (enough_left (1 + n)); [exact Hk|by eapply left_trans]|done|].
  exists k3. split; [|split; [by do 2 (eapply left_trans; [|done])|done]].
  eapply rtc_l; [exact S1|]. eapply rtc_r; [exact S2|exact S3].
Qed.

Lemma saved_raises p v st es e st' es' : op_at F p OP_PUT_TEMP ->
  raises (Some v) (S p) (v :: st) es e st' es' -> raises None p (v :: st) es e st' es'.
Proof.
  intros H1 [Hd [n Hg]]. split; [done|]. exists (1 + n)%nat. intros k Hk _.
  destruct (put_temp_step p v st es k H1) as (k1 & S1 & L1 & T1); [eapply enough_mono; [exact Hk|lia]|].
  destruct (Hg k1) as (m & ext & pc & k2 & S2 & R2 & L2); [by eapply (enough_left 1)|done|].
  exists m, ext, pc, k2. split; [by eapply rtc_l|]. split; [done|by eapply left_trans].
Qed.

(** *** Places *)

(** The values of a place, the topmost first. *)
Fixpoint vals (pl : place) : list Var :=
  match pl with
  | PVariable _ => []
  | PProperty o n => [n; o]
  | PElement pl l i => i :: l :: vals pl
  | PRange pl b f t => t :: f :: b :: vals pl
  end.

Fixpoint place_of (e : Expr) (pl : place) : Prop :=
  match e, pl with
  | EXPR_ID id, PVariable id' => id = id'
  | Expr_Binary EXPR_PROP _ _, PProperty _ _ => True
  | EXPR_INDEX lhs _, PElement pl _ _ => place_of lhs pl
  | EXPR_RANGE base _ _, PRange pl _ _ _ => place_of base pl
  | _, _ => False
  end.

Lemma store_nopop e p q : store_at F e p q -> nopop_at p.
Proof.
  intros Hs. destruct e; try done; cbn [store_at] in Hs.
  - by eapply (var_op_nopop OP_PUT OP_G_PUT).
  - destruct kind; try done. destruct Hs as [Ho _]. by eapply nopop_intro.
  - destruct Hs as [Ho _]. by eapply nopop_intro.
  - destruct Hs as [[Ho _] _]. by eapply nopop_intro.
Qed.

Lemma store_delivers T pl : forall e v es r es' p q st, place_of e pl -> store_at F e p q -> code_at q ->
  (length (vals pl ++ st) < max_stack F)%nat -> store (a_debug a0) (a_progr a0) pl v es = Ok (r, es') ->
  match r with
  | inr _ => exists w, delivers T p (v :: vals pl ++ st) es q st (inr w) es'
  | inl err => raises T p (v :: vals pl ++ st) es err st es'
  end.
Proof.
  induction pl as [id|o n|pl IH l i|pl IH b f t]; intros e v es r es' p q st Hp Hs Hq Hn Hr; destruct e; try done;
    try (by destruct kind); cbn [place_of store_at store vals app length] in *.
  - subst id0. destruct (do_put T p st es id v q r es' Hq Hs Hr) as [-> Hd]. by exists v.
  - destruct kind; try done. destruct Hs as [Ho ->]. apply ev_bind_Ok in Hr as (r1 & es1 & Hr & Hk).
    pose proof (do_put_prop T p st es ltac:(lia) o n v r1 es1 Ho Hr) as Hd. destruct r1 as [err|w]; [by destruct Hk as [-> ->]|].
    unfold mret, ev_ret in Hk. simplify_eq. by exists w.
  - destruct Hs as [Ho Hs]. apply ev_bind_Ok in Hr as (r1 & es1 & Hr & Hk).
    pose proof (do_indexset T p (vals pl ++ st) es ltac:(lia) l i v r1 es1 Ho Hr) as Hd.
    destruct r1 as [err|w]; [destruct Hk as [-> ->]; by eapply raises_below|].
    destruct (store_nopop _ _ _ Hs) as (o & Hoo & Hne). apply (delivers_goes _ _ _ _ _ _ _ _ o) in Hd; [|done..].
    specialize (IH e1 w es1 r es' (S p) q st Hp Hs Hq ltac:(lia) Hk). destruct r as [err|[]]; [by eapply raises_trans|].
    destruct IH as [w' Hw]. exists w'. by eapply delivers_trans.
  - destruct Hs as [Ho Hs]. apply ev_bind_Ok in Hr as (r1 & es1 & Hr & Hk).
    pose proof (do_rangeset T p (vals pl ++ st) es ltac:(lia) b f t v r1 es1 Ho Hr) as Hd.
    destruct r1 as [err|w]; [destruct Hk as [-> ->]; by eapply raises_below|].
    destruct (store_nopop _ _ _ Hs) as (o & Hoo & Hne). apply (delivers_goes _ _ _ _ _ _ _ _ o) in Hd; [|done..].
    specialize (IH e1 w es1 r es' (S (S p)) q st Hp Hs Hq ltac:(lia) Hk). destruct r as [err|[]]; [by eapply raises_trans|].
    destruct IH as [w' Hw]. exists w'. by eapply delivers_trans.
Qed.

(** *** Sizes *)

(** Code is not empty, and there is room on the stack for its value. *)
Definition sizes (e : Expr) : Prop :=
  (forall p q saved k, compiled F e p q saved k -> (p < q)%nat /\ (k < max_stack F)%nat) /\
  (forall above p q saved k, compiled_lvalue F e above p q saved k -> (p <= q)%nat).
Definition args_sizes (args : Arg_List) : Prop :=
  (forall p q saved k, compiled_args F args p q saved k -> (p < q)%nat /\ (k < max_stack F)%nat) /\
  (forall p q saved k, compiled_more F args p q saved k -> (p <= q)%nat).
(** The defaults, if they are compiled, are at [n] or later. *)
Fixpoint targets_from (sc : Scatter) (targets : list nat) (n : nat) : Prop :=
  match sc, targets with
  | Scat_Cons kind _ expr sc, t :: targets =>
      match kind, expr with SCAT_OPTIONAL, Some_Expr _ => (n <= t)%nat | _, _ => True end /\ targets_from sc targets n
  | _, _ => True
  end.
Definition scat_sizes (sc : Scatter) : Prop := forall targets p q saved k, compiled_defaults F sc targets p q saved k ->
  (p <= q)%nat /\ targets_from sc targets p.

Lemma targets_from_mono sc m n : forall targets, (m <= n)%nat -> targets_from sc targets n -> targets_from sc targets m.
Proof.
  revert sc. fix IH 1. intros [|kind id expr sc] [|t targets] Hmn; cbn [targets_from]; [done..|]. intros [Ht Hr].
  split; [destruct kind, expr; try done; lia|]. by apply IH.
Qed.

Lemma var_op_size op g_op id p q : var_op_at F op g_op id p q -> (p < q)%nat.
Proof. intros [(_ & _ & ->)|(_ & _ & _ & ->)]; lia. Qed.

Lemma store_le e : forall p q, store_at F e p q -> (p <= q)%nat.
Proof.
  induction e using Expr_ind; intros p q Hs; try done; cbn [store_at] in Hs.
  - apply var_op_size in Hs. lia.
  - destruct kind; try done. destruct Hs as [_ ->]. lia.
  - destruct Hs as [_ Hs%IHe1]. lia.
  - destruct Hs as [_ Hs%IHe1]. lia.
Qed.

Lemma binary_size b p q : binary_at F b p q -> (p < q)%nat.
Proof. unfold binary_at. destruct (binary_op b); intros [_ ->]; lia. Qed.

(** Applies the induction hypotheses to the code of the parts. *)
Ltac part_sizes := repeat match goal with
  | Hs : (forall p q saved k, compiled F ?e p q saved k -> _), C : compiled F ?e _ _ _ _ |- _ =>
      let H1 := fresh in let H2 := fresh in destruct (Hs _ _ _ _ C) as [H1 H2]; clear C
  | Hs : (forall p q saved k, compiled_args F ?e p q saved k -> _), C : compiled_args F ?e _ _ _ _ |- _ =>
      let H1 := fresh in let H2 := fresh in destruct (Hs _ _ _ _ C) as [H1 H2]; clear C
  | Hs : (forall p q saved k, compiled_more F ?e p q saved k -> _), C : compiled_more F ?e _ _ _ _ |- _ => apply Hs in C
  | Hs : (forall above p q saved k, compiled_lvalue F ?e above p q saved k -> _), C : compiled_lvalue F ?e _ _ _ _ _ |- _ => apply Hs in C
  | Hs : scat_sizes ?sc, C : compiled_defaults F ?sc _ _ _ _ _ |- _ => apply Hs in C as [C ?]
  | C : binary_at F _ _ _ |- _ => apply binary_size in C
  | C : var_op_at F _ _ _ _ _ |- _ => apply var_op_size in C
  | C : store_at F _ _ _ |- _ => apply store_le in C
  end.

Lemma scatter_size targets : forall sc p q, scatter_at F sc targets p q -> q = (p + 2 * length targets)%nat /\ scat_length sc = length targets.
Proof.
  induction targets as [|t targets IH]; intros [|kind id expr sc] p q; cbn [scatter_at length scat_length]; try done.
  - intros ->. lia.
  - intros (_ & _ & C%IH). lia.
Qed.

Lemma sizes_asgn lhs rhs : sizes lhs -> (forall sc, lhs = EXPR_SCATTER sc -> scat_sizes sc) -> sizes rhs -> sizes (EXPR_ASGN lhs rhs).
Proof.
  intros [_ H1] Hsc [H2 _]. split; [|by intros above p q saved k []]. intros p q saved k Hc.
  assert (Hp : plain_asgn F lhs rhs p q saved k \/ exists sc, lhs = EXPR_SCATTER sc) by (destruct lhs; eauto).
  destruct Hp as [(p1 & p2 & p3 & p4 & C1 & C2 & C3 & C4 & C5)|[sc ->]].
  - part_sizes. destruct (is_part lhs); destruct_and?; subst; lia.
  - destruct Hc as (p1 & p2 & targets & C1 & C2 & C3 & C4 & C5). specialize (Hsc sc eq_refl). part_sizes.
    apply scatter_size in C3. lia.
Qed.

Lemma sizes_all : (forall e, sizes e /\ match e with EXPR_SCATTER sc => scat_sizes sc | _ => True end) /\
  (forall e, match e with Some_Expr e => sizes e | No_Expr => True end) /\ (forall args, args_sizes args) /\ (forall sc, scat_sizes sc).
Proof.
  apply Expr_mutind.
  - intros v. split; [|done]. split; [|by intros above p q saved k []].
    intros p q saved k [Hk [(n & _ & _ & ->)|(_ & _ & ->)]]; lia.
  - intros i. split; [|done]. split; [intros p q saved k [Hk C%var_op_size]; lia|].
    intros [] p q saved k; cbn; [intros [_ C%var_op_size]; lia|lia].
  - intros b lhs [[H1 _] _] rhs [[H2 _] _]. split; [|done]. split; [intros p q saved k (p1 & p2 & C1 & C2 & C3); part_sizes; lia|].
    intros above p q saved k. destruct b; try done. intros (p1 & p2 & C1 & C2 & C3). part_sizes. destruct above; destruct_and?; lia.
  - intros u e [[H1 _] _]. split; [|done]. split; [|by intros above p q saved k []]. intros p q saved k (p1 & C1 & C2). part_sizes.
    destruct u, C2 as [_ ->]; lia.
  - intros lhs [[H1 _] _] rhs [[H2 _] _]. split; [|done]. split; [|by intros above p q saved k []].
    intros p q saved k (p1 & C1 & _ & _ & C2). part_sizes. lia.
  - intros lhs [[H1 _] _] rhs [[H2 _] _]. split; [|done]. split; [|by intros above p q saved k []].
    intros p q saved k (p1 & C1 & _ & _ & C2). part_sizes. lia.
  - intros lhs [[H1 L1] _] rhs [[H2 _] _]. split; [|done]. split; [intros p q saved k (p1 & p2 & C1 & C2 & _ & ->); part_sizes; lia|].
    intros above p q saved k (p1 & p2 & C1 & C2 & C3). part_sizes. destruct above; destruct_and?; lia.
  - intros base [[H1 L1] _] from [[H2 _] _] to [[H3 _] _]. split; [|done].
    split; [intros p q saved k (p1 & p2 & p3 & C1 & C2 & C3 & _ & ->); part_sizes; lia|].
    intros above p q saved k (p1 & p2 & C1 & C2 & C3). part_sizes. lia.
  - split; [|done]. split; [|by intros above p q saved k []]. intros p q saved k (i & _ & Hk & _ & _ & ->). lia.
  - intros args [H1 _]. split; [|done]. split; [|by intros above p q saved k []]. intros p q saved k C. by apply H1 in C.
  - intros f args [H1 _]. split; [|done]. split; [|by intros above p q saved k []]. intros p q saved k (p1 & C & _ & _ & ->). part_sizes. lia.
  - intros obj [[H1 _] _] verb [[H2 _] _] args [H3 _]. split; [|done]. split; [|by intros above p q saved k []].
    intros p q saved k (p1 & p2 & p3 & C1 & C2 & C3 & _ & ->). part_sizes. lia.
  - intros c [[H1 _] _] a [[H2 _] _] b [[H3 _] _]. split; [|done]. split; [|by intros above p q saved k []].
    intros p q saved k (p1 & p2 & C1 & _ & _ & C2 & _ & _ & C3). part_sizes. lia.
  - intros lhs [H1 Hsc] rhs [H2 _]. split; [|done]. apply sizes_asgn; [done| |done]. by intros sc ->.
  - intros sc H1. split; [|done]. split; by intros.
  - intros e [[H1 _] _] codes [H2 _] except H3. split; [|done]. split; [|by intros above p q saved k []].
    intros p q saved k (p1 & p2 & C1 & _ & _ & _ & Hk & C2 & _ & _ & C3).
    assert (p <= p1)%nat by (destruct codes; [destruct C1 as (_ & _ & ->); lia|apply H2 in C1; lia]). part_sizes.
    destruct except as [|e']; [destruct C3 as (_ & _ & ->); lia|]. destruct C3 as [_ C3]. destruct H3 as [H3 _]. part_sizes. lia.
  - done.
  - by intros e [H1 _].
  - split; intros p q saved k; [intros (Hk & _ & ->); lia|by intros ->].
  - intros kind e [[H1 _] _] args [_ H2]. split; intros p q saved k (p1 & C1 & _ & C2); part_sizes; lia.
  - intros [|] p q saved k; [|done]. by intros ->.
  - intros kind i expr H1 sc H2 [|t targets] p q saved k; [done|]. cbn [compiled_defaults targets_from]. intros C.
    assert (Hc : (kind = SCAT_OPTIONAL /\ exists e, expr = Some_Expr e) \/ compiled_defaults F sc targets p q saved k).
    { destruct kind, expr; eauto. }
    destruct Hc as [[-> [e ->]]|Hc].
    + destruct C as (-> & p1 & p2 & C1 & C2 & _ & C3). destruct H1 as [H1 _]. apply H2 in C3 as [C3 Ht]. part_sizes.
      split; [lia|]. split; [done|]. eapply targets_from_mono; [|exact Ht]. lia.
    + destruct (H2 _ _ _ _ _ Hc) as [? Ht]. split; [done|]. split; [|done]. destruct kind, expr; try done. by destruct C as [-> _].
Qed.

End Instr.
