(* ===== verification/VmExpr.v ===== *)
(** * Compiled expressions compute what expressions mean (src/code_gen.c, src/execute.c)

    The interpreter, given the code of an expression and enough ticks, leaves on the stack the
    value that [Eval.eval] says, with the same variables and properties; or it raises the
    same error. *)

From S2P Require Import Prelude CStrings Utf Values Lists Db Properties Ast CodeGen CodeShape CodeExpr CodeLink EvalEnv Vm VmRun Eval VmCode VmInstr.

Open Scope Z_scope.

(** ** Counting the targets of a scattering assignment *)

(** The number of the target that takes the rest, from 1. *)
Fixpoint rest_number (sc : Scatter) : option nat :=
  match sc with
  | Scat_Nil => None
  | Scat_Cons SCAT_REST _ _ _ => Some 1%nat
  | Scat_Cons _ _ _ sc => S <$> rest_number sc
  end.

Lemma rest_number_has sc : has_rest sc = bool_decide (is_Some (rest_number sc)).
Proof.
  revert sc. fix IH 1. intros [|[] id expr sc]; cbn [has_rest rest_number]; try done; rewrite IH; destruct (rest_number sc); done.
Qed.

Lemma no_rest_one sc : has_rest sc = false -> one_rest sc = true.
Proof. revert sc. fix IH 1. intros [|[] id expr sc]; cbn [has_rest one_rest]; try done; apply IH. Qed.

Lemma scatter_counts_spec : forall sc n r o, one_rest sc = true -> scatter_counts sc n r o =
  (n + Z.of_nat (scat_length sc), r + Z.of_nat (required sc),
   match rest_number sc with Some i => n + Z.of_nat i | None => default (n + Z.of_nat (scat_length sc) + 1) o end).
Proof.
  assert (Hp : forall a b c a' b' c' : Z, a = a' -> b = b' -> c = c' -> (a, b, c) = (a', b', c')) by congruence.
  fix IH 1. intros [|kind id expr sc] n r o H1; cbn [scatter_counts scat_length required rest_number].
  { apply Hp; [lia|lia|]. destruct o; cbn [default]; lia. }
  assert (Hone : one_rest sc = true).
  { destruct kind; [done..|]. apply no_rest_one. cbn in H1. by destruct (has_rest sc). }
  rewrite (IH sc) by done. destruct kind; repeat case_decide; try done; apply Hp; try lia.
  1-2: destruct (rest_number sc), o; cbn; lia.
  cbn in H1. rewrite rest_number_has in H1. destruct (rest_number sc); [done|]. cbn. lia.
Qed.

(** Where the default of the first optional target is that gets no element, but has one. *)
Fixpoint first_default (sc : Scatter) (targets : list nat) (nopt : nat) : option nat :=
  match sc, targets with
  | Scat_Cons SCAT_OPTIONAL _ expr sc, t :: targets =>
      match nopt, expr with
      | S nopt, _ => first_default sc targets nopt
      | O, Some_Expr _ => Some t
      | O, No_Expr => first_default sc targets 0
      end
  | Scat_Cons _ _ _ sc, _ :: targets => first_default sc targets nopt
  | _, _ => None
  end.

(** Optional targets to the left of the one that takes the rest. *)
Fixpoint opts_before (sc : Scatter) : nat :=
  match sc with
  | Scat_Cons SCAT_OPTIONAL _ _ sc => S (opts_before sc)
  | Scat_Cons SCAT_REQUIRED _ _ sc => opts_before sc
  | _ => 0
  end.

Section Expr.
Context {Data Susp World : Type} `{H : Host Data Susp World} {M : Machine Data World}.

Lemma loc_ge p : (p <= loc p)%nat.
Proof. unfold loc, pos. lia. Qed.

Lemma assign_Ok id v es r es' : assign id v es = Ok (r, es') ->
  exists w, e_env es !! slot id = Some w /\ r = inr tt /\ es' = mkEstate (<[slot id := v]> (e_env es)) (e_db es).
Proof. unfold assign. intros (w & Hw & Hr)%res_bind_Ok. apply deref_Ok in Hw. simplify_eq. by exists w. Qed.

(** Binding one target. *)
Lemma bind_assign {B} id v (f : unit -> ev B) es r es' : (_ ← assign id v; f tt) es = Ok (r, es') -> exists w,
  e_env es !! slot id = Some w /\ f tt (mkEstate (<[slot id := v]> (e_env es)) (e_db es)) = Ok (r, es').
Proof. intros (r1 & es1 & Ha & Hf)%ev_bind_Ok. apply assign_Ok in Ha as (w & Hw & -> & ->). by exists w. Qed.

(** The places of the defaults. *)
Fixpoint targets_ok (sc : Scatter) (targets : list nat) : Prop :=
  match sc, targets with
  | Scat_Cons kind _ expr sc, t :: targets =>
      match kind, expr with SCAT_OPTIONAL, Some_Expr _ => (2 <= t)%nat /\ code_at t | _, _ => True end /\ targets_ok sc targets
  | _, _ => True
  end.

Section targets.
Context (l : list Var) (nargs rest : Z) (nrest : nat).

(** What is known before the targets [sc] from number [i] on, when [i - 1 + offset] elements
    have been used. *)
Record binding (sc : Scatter) (i offset : Z) (nopt : nat) : Prop := {
  bd_one : one_rest sc = true;
  bd_rest : match rest_number sc with Some j => rest = i + Z.of_nat j - 1 | None => rest < i \/ i + Z.of_nat (scat_length sc) <= rest end;
  bd_first : 1 <= i;
  bd_used : 0 <= i - 1 + offset <= len l;
  bd_more j : rest_number sc = Some j -> (0 < nrest)%nat -> offset = 0 /\ (opts_before sc <= nopt)%nat /\
    i + Z.of_nat j + Z.of_nat nrest - 2 <= len l }.

Lemma rest_positive sc j : rest_number sc = Some j -> (0 < j)%nat.
Proof.
  destruct sc as [|[] ? ? sc]; cbn; [done|..]; destruct (rest_number sc); cbn; intros; simplify_eq; lia.
Qed.

(** The first target takes one element, or none, and is not the one for the rest. *)
Lemma binding_next kind id expr sc i offset offset' nopt nopt' : kind <> SCAT_REST ->
  binding (Scat_Cons kind id expr sc) i offset nopt -> 0 <= i + offset' <= len l ->
  (forall j, rest_number sc = Some j -> (0 < nrest)%nat -> (opts_before (Scat_Cons kind id expr sc) <= nopt)%nat ->
    offset = 0 -> offset' = 0 /\ (opts_before sc <= nopt')%nat) ->
  binding sc (i + 1) offset' nopt' /\ i <> rest.
Proof.
  intros Hk [H1 H2 H3 H4 H5] Hu Hm. split; [split|].
  - by destruct kind.
  - destruct kind; try done; cbn [rest_number scat_length] in H2; destruct (rest_number sc); cbn in *; lia.
  - lia.
  - lia.
  - intros j Hj Hn. destruct (H5 (S j)) as (Ho & Hopt & Hb); [destruct kind; try done; cbn; by rewrite Hj|done|].
    destruct (Hm j Hj Hn Hopt Ho). split; [done|]. split; [done|lia].
  - destruct kind; try done; cbn [rest_number scat_length] in H2; destruct (rest_number sc) eqn:Hr; cbn in *;
      try (pose proof (rest_positive _ _ Hr)); lia.
Qed.

Lemma drop_cons (k : nat) x l' : drop k l = x :: l' -> l !! k = Some x /\ drop (S k) l = l'.
Proof.
  intros Hd. split; [rewrite <- (Nat.add_0_r k), <- lookup_drop, Hd; done|].
  replace (S k) with (k + 1)%nat by lia. by rewrite <- drop_drop, Hd.
Qed.

Lemma used_element i offset x l' : 0 <= i - 1 + offset -> drop (Z.to_nat (i - 1 + offset)) l = x :: l' ->
  (if i + offset <? 1 then Fail Segv else deref (l !! Z.to_nat (i + offset - 1))) = Ok x /\
  drop (Z.to_nat (i + 1 - 1 + offset)) l = l' /\ 0 <= i + offset <= len l.
Proof.
  intros Hi Hd. pose proof (lookup_lt_Some l (Z.to_nat (i - 1 + offset)) x) as Hlt. apply drop_cons in Hd as [Hx Hd].
  destruct (Z.ltb_spec (i + offset) 1); [lia|]. replace (i + offset - 1) with (i - 1 + offset) by lia. rewrite Hx.
  split; [done|]. replace (Z.to_nat (i + 1 - 1 + offset)) with (S (Z.to_nat (i - 1 + offset))) by lia. split; [done|].
  specialize (Hlt Hx). unfold len. lia.
Qed.

Lemma run_targets targets : forall sc p q i offset nopt where_ es r es' st k,
  scatter_at F sc targets p q -> targets_ok sc targets -> binding sc i offset nopt ->
  bind_targets sc (drop (Z.to_nat (i - 1 + offset)) l) nopt nrest es = Ok (r, es') ->
  r = inr tt /\ VmRun.scatter_targets (scat_length sc) i nargs rest l offset (Z.of_nat nopt) (Z.of_nat nrest) where_ (conf p st es k) =
    Ok (if decide (where_ = 0%nat) then default 0%nat (loc <$> first_default sc targets nopt) else where_, conf q st es' k).
Proof.
  induction targets as [|t targets IH]; intros [|kind id expr sc] p q i offset nopt where_ es r es' st k Hs Ht Hb Hr; try done.
  { cbn [scatter_at] in Hs. subst q. unfold bind_targets, mret, ev_ret in Hr. simplify_eq. split; [done|]. cbn [first_default fmap option_fmap option_map default scat_length VmRun.scatter_targets]. by destruct (decide (where_ = 0%nat)) as [->|]. }
  cbn [scatter_at] in Hs. destruct Hs as (Hv & Hl & Hs). cbn [targets_ok] in Ht. destruct Ht as [Ht1 Ht].
  cbn [scat_length VmRun.scatter_targets]. rewrite (bind_act _ _ _ _ _ (read_var_conf _ _ _ _ _ Hv)).
  assert (Hlabel : exists label, read_label (conf (S p) st es k) = Ok (label, conf (S (S p)) st es k) /\
    match kind, expr with SCAT_OPTIONAL, No_Expr => label = 1%nat | SCAT_OPTIONAL, Some_Expr _ => label = loc t | _, _ => label = 0%nat end).
  { destruct kind; [|destruct expr|].
    - exists 0%nat. split; [by apply read_pseudo_conf; [lia|]|done].
    - exists 1%nat. split; [by apply read_pseudo_conf; [lia|]|done].
    - destruct Ht1 as [_ Hc%code_lt]. exists (loc t). split; [by apply read_label_conf|done].
    - exists 0%nat. split; [by apply read_pseudo_conf; [lia|]|done]. }
  destruct Hlabel as (label & Hread & Hlab). rewrite (bind_act _ _ _ _ _ Hread).
  destruct kind.
  - subst label. destruct (drop _ l) as [|x l'] eqn:Hd; [done|]. cbn [bind_targets] in Hr.
    apply (bind_assign id x (fun _ => bind_targets sc l' nopt nrest)) in Hr as (w & Hw & Hr).
    destruct (used_element _ _ _ _ ltac:(apply Hb) Hd) as (Hx & Hd' & Hu).
    destruct (binding_next SCAT_REQUIRED id expr sc i offset offset nopt nopt) as [Hb' Hne]; [done|done|lia|by intros|].
    destruct (Z.eqb_spec i rest); [done|]. rewrite decide_True by done. calc Hx. unfold conf.
    rewrite (bind_act _ _ _ _ _ (put_var_conf _ _ _ _ _ _ x Hw)). rewrite <- Hd' in Hr. by eapply IH.
  - cbn [bind_targets] in Hr. destruct nopt as [|nopt].
    + destruct (binding_next SCAT_OPTIONAL id expr sc i offset (offset - 1) 0 0) as [Hb' Hne]; [done|done|pose proof (bd_used _ _ _ _ Hb); lia| |].
      { intros j Hj Hn Ho _. cbn in Ho. lia. }
      destruct (Z.eqb_spec i rest); [done|]. rewrite decide_False. 2: { destruct expr; [lia|]. subst label. pose proof (loc_ge t). destruct Ht1. lia. }
      change (Z.of_nat 0 >? 0) with false. cbv iota. replace (i - 1 + offset) with (i + 1 - 1 + (offset - 1)) in Hr by lia.
      cbn [first_default]. destruct expr as [|e].
      * subst label. destruct (IH sc _ q (i + 1) (offset - 1) 0%nat where_ es r es' st k Hs Ht Hb' Hr) as [-> Hrun]. split; [done|].
        rewrite (decide_True _ _ (eq_refl 1%nat)). destruct (decide (where_ = 0%nat)) as [->|]; exact Hrun.
      * subst label. destruct Ht1 as [Ht1 _]. pose proof (loc_ge t). rewrite (decide_False (P := loc t = 1%nat)) by lia.
        destruct (IH sc _ q (i + 1) (offset - 1) 0%nat (if decide (where_ = 0%nat) then loc t else where_) es r es' st k Hs Ht Hb' Hr) as [-> Hrun].
        split; [done|]. rewrite Hrun. destruct (decide (where_ = 0%nat)); rewrite decide_False by lia; done.
    + destruct (drop _ l) as [|x l'] eqn:Hd; [done|].
      apply (bind_assign id x (fun _ => bind_targets sc l' nopt nrest)) in Hr as (w & Hw & Hr).
      destruct (used_element _ _ _ _ ltac:(apply Hb) Hd) as (Hx & Hd' & Hu).
      destruct (binding_next SCAT_OPTIONAL id expr sc i offset offset (S nopt) nopt) as [Hb' Hne]; [done|done|lia| |].
      { intros j Hj Hn Ho Hz. cbn in Ho. lia. }
      destruct (Z.eqb_spec i rest); [done|]. rewrite decide_False. 2: { destruct expr; [lia|]. subst label. pose proof (loc_ge t). destruct Ht1. lia. }
      destruct (Z.gtb_spec (Z.of_nat (S nopt)) 0); [|lia]. calc Hx. unfold conf.
      rewrite (bind_act _ _ _ _ _ (put_var_conf _ _ _ _ _ _ x Hw)). rewrite <- Hd' in Hr.
      replace (Z.of_nat (S nopt) - 1) with (Z.of_nat nopt) by lia. by eapply IH.
  - cbn [bind_targets] in Hr. apply (bind_assign id _ (fun _ => bind_targets sc _ nopt nrest)) in Hr as (w & Hw & Hr).
    destruct Hb as [B1 B2 B3 B4 B5]. cbn [rest_number one_rest] in *. destruct (Z.eqb_spec i rest); [|lia].
    assert (Hno : rest_number sc = None).
    { rewrite rest_number_has in B1. by destruct (rest_number sc). }
    assert (Hsub : sublist l i (i + Z.of_nat nrest - 1) = Ok (take nrest (drop (Z.to_nat (i - 1 + offset)) l)) /\
      i - 1 + offset + Z.of_nat nrest <= len l).
    { destruct nrest as [|n]; [split; [unfold sublist; destruct (Z.gtb_spec i (i + Z.of_nat 0 - 1)); [done|lia]|lia]|].
      destruct (B5 1%nat eq_refl ltac:(lia)) as (-> & _ & Hlen). rewrite sublist_Ok by lia. split; [|lia]. do 2 f_equal; [lia|].
      do 2 f_equal; lia. }
    destruct Hsub as [Hsub Hlen]. calc Hsub. unfold conf. rewrite (bind_act _ _ _ _ _ (put_var_conf _ _ _ _ _ _ _ Hw)).
    rewrite drop_drop in Hr.
    replace (Z.to_nat (i - 1 + offset) + nrest)%nat with (Z.to_nat (i + 1 - 1 + (offset + (Z.of_nat nrest - 1)))) in Hr by lia.
    eapply IH; [done|done| |exact Hr]. split; [|rewrite Hno; lia|lia|lia|by rewrite Hno].
    apply no_rest_one. rewrite rest_number_has, Hno. done.
Qed.

End targets.
(** ** What is proved of every expression *)

Abbreviation eval := (eval (a_debug a0) (a_progr a0) pow).
Abbreviation eval_args := (eval_args (a_debug a0) (a_progr a0) pow).
Abbreviation eval_more := (eval_more (a_debug a0) (a_progr a0) pow).
Abbreviation eval_place := (eval_place (a_debug a0) (a_progr a0) pow).
Abbreviation eval_container := (eval_container (a_debug a0) (a_progr a0) pow).
Abbreviation eval_defaults := (eval_defaults (a_debug a0) (a_progr a0) pow).

(** What [$] measures is on the stack. *)
Definition dollar_ok (saved : option nat) (dollar : option Var) (st : list Var) : Prop :=
  forall i, saved = Some i -> exists v, dollar = Some v /\ rev st !! i = Some v.

Definition arrives {A} (p : nat) (st : list Var) (es : estate) (q : nat) (st' : A -> list Var) (base : list Var) (r : error + A)
    (es' : estate) : Prop :=
  match r with inr a => goes None p st es q (st' a) es' | inl err => raises None p st es err base es' end.

Definition expr_runs (e : Expr) : Prop := forall dollar es r es', eval e dollar es = Ok (r, es') ->
  forall p q saved st, compiled F e p q saved (length st) -> dollar_ok saved dollar st -> code_at q ->
  delivers None p st es q st r es'.
Definition args_run (args : Arg_List) : Prop := forall dollar es r es', eval_args args dollar es = Ok (r, es') ->
  forall p q saved st, compiled_args F args p q saved (length st) -> dollar_ok saved dollar st -> code_at q ->
  delivers None p st es q st r es'.
Definition more_run (args : Arg_List) : Prop := forall acc dollar es r es', eval_more args acc dollar es = Ok (r, es') ->
  forall p q saved st, compiled_more F args p q saved (length st) -> dollar_ok saved dollar st -> code_at q ->
  (length st < max_stack F)%nat -> delivers None p (acc :: st) es q st r es'.
Definition place_runs (e : Expr) : Prop := forall dollar es r es', eval_place e dollar es = Ok (r, es') ->
  forall p q saved st, compiled_lvalue F e false p q saved (length st) -> dollar_ok saved dollar st -> nopop_at q ->
  arrives p st es q (fun pl => vals pl ++ st) st r es' /\ match r with inr pl => place_of e pl /\ lvalue_size e false = length (vals pl) | inl _ => True end.
Definition container_runs (e : Expr) : Prop := forall dollar es r es', eval_container e dollar es = Ok (r, es') ->
  forall p q saved st, compiled_lvalue F e true p q saved (length st) -> dollar_ok saved dollar st -> nopop_at q ->
  arrives p st es q (fun c => snd c :: vals (fst c) ++ st) st r es' /\
  match r with inr c => place_of e (fst c) /\ lvalue_size e true = S (length (vals (fst c))) | inl _ => True end.
Definition defaults_run (sc : Scatter) : Prop := forall nopt dollar es r es', eval_defaults sc nopt dollar es = Ok (r, es') ->
  forall targets p q saved st, compiled_defaults F sc targets p q saved (length st) -> dollar_ok saved dollar st -> code_at q ->
  match first_default sc targets nopt with
  | Some t => arrives t st es q (fun _ => st) st r es'
  | None => r = inr tt /\ es' = es
  end /\ (nopt = 0%nat -> arrives p st es q (fun _ => st) st r es').

(** ** Stacks *)

Lemma dollar_push saved dollar v st : dollar_ok saved dollar st -> dollar_ok saved dollar (v :: st).
Proof.
  intros Hd i Hi. destruct (Hd i Hi) as (w & -> & Hw). exists w. split; [done|]. cbn [rev]. by apply lookup_app_l_Some.
Qed.

Lemma dollar_app saved dollar vs st : dollar_ok saved dollar st -> dollar_ok saved dollar (vs ++ st).
Proof. intros Hd. induction vs as [|v vs IH]; [done|]. by apply dollar_push. Qed.

Lemma dollar_top v st : dollar_ok (Some (length st)) (Some v) (v :: st).
Proof.
  intros i [= <-]. exists v. split; [done|]. cbn [rev]. rewrite lookup_app_r by (rewrite length_rev; lia).
  by rewrite length_rev, Nat.sub_diag.
Qed.

Lemma arrives_trans {A} p st es p1 st1 es1 q (st' : A -> list Var) base r es' : goes None p st es p1 st1 es1 ->
  arrives p1 st1 es1 q st' base r es' -> arrives p st es q st' base r es'.
Proof. intros Hg Hd. destruct r; [by eapply raises_trans|by eapply goes_trans]. Qed.

(** A value on top, where no OP_POP is. *)
Lemma delivers_arrives p st es q st' r es' : nopop_at q -> delivers None p st es q st' r es' ->
  arrives p st es q (fun v => v :: st') st' r es'.
Proof. intros Hq Hd. destruct r as [e|v]; [done|by apply delivers_on]. Qed.

(** ** Every kind of expression *)

Lemma op_nopop p o : op_at F p o -> o <> OP_POP -> nopop_at p.
Proof. apply nopop_intro. Qed.

(** Evaluates the first part: its error is the error of the whole, or its value is on top. *)
Ltac seq He IH C Hd :=
  let r1 := fresh "r" in let es1 := fresh "es" in let D := fresh "D" in let E := fresh "E" in
  let err := fresh "err" in let v := fresh "v" in
  apply ev_bind_Ok in He as (r1 & es1 & E & He);
  let T := type of Hd in
  lazymatch T with dollar_ok _ _ ?stk =>
    pose proof (IH _ _ _ _ E _ _ _ stk C Hd ltac:(apply nopop_code; first [assumption | by eapply start_at | by eapply op_nopop])) as D; clear E
  end;
  apply delivers_arrives in D; [|first [assumption | by eapply start_at | by eapply op_nopop]];
  destruct r1 as [err|v]; [destruct He as [-> ->]|cbn [arrives] in D].

Lemma room e p q saved k : compiled F e p q saved k -> (k < max_stack F)%nat.
Proof. intros C. by apply (proj1 (proj1 (proj1 sizes_all e))) in C as [_ C]. Qed.

Lemma var_runs v : expr_runs (EXPR_VAR v).
Proof.
  intros dollar es r es' He p q saved st C Hd Hq. unfold Eval.eval, mret, ev_ret in He. simplify_eq.
  apply (do_literal None p st es' (room _ _ _ _ _ C) v q saved C Hq).
Qed.

Lemma id_runs id : expr_runs (EXPR_ID id).
Proof. intros dollar es r es' He p q saved st [Hn C] Hd Hq. by eapply do_push_var. Qed.

Lemma unary_runs u e : expr_runs e -> expr_runs (Expr_Unary u e).
Proof.
  intros IH dollar es r es' He p q saved st C Hd Hq. pose proof (room _ _ _ _ _ C) as Hn. destruct C as (p1 & C1 & C2). cbn [Eval.eval] in He.
  assert (Hq1 : nopop_at p1) by (destruct u; destruct C2 as [C2 _]; [by eapply op_nopop|by eapply op_nopop|destruct C2; by eapply op_nopop]).
  apply ev_bind_Ok in He as (r1 & es1 & E & He). pose proof (IH _ _ _ _ E _ _ _ _ C1 Hd (nopop_code _ Hq1)) as D.
  destruct r1 as [err|v]; [by destruct He as [-> ->]|]. apply delivers_on in D; [|done].
  eapply delivers_trans; [exact D|]. by eapply do_unary.
Qed.

Lemma and_runs lhs rhs : expr_runs lhs -> expr_runs rhs -> expr_runs (EXPR_AND lhs rhs).
Proof.
  intros IH1 IH2 dollar es r es' He p q saved st C Hd Hq. pose proof (room _ _ _ _ _ C) as Hn. destruct C as (p1 & C1 & Ho & Hl & C2).
  cbn [Eval.eval] in He. seq He IH1 C1 Hd; [done|]. eapply delivers_trans; [exact D|].
  pose proof (do_and_or None p1 st es0 false v q Ho Hl Hq) as J. destruct (is_true v); cbn [Bool.eqb] in J.
  - eapply delivers_trans; [exact J|]. by eapply IH2.
  - unfold mret, ev_ret in He. simplify_eq. by left.
Qed.

Lemma or_runs lhs rhs : expr_runs lhs -> expr_runs rhs -> expr_runs (EXPR_OR lhs rhs).
Proof.
  intros IH1 IH2 dollar es r es' He p q saved st C Hd Hq. pose proof (room _ _ _ _ _ C) as Hn. destruct C as (p1 & C1 & Ho & Hl & C2).
  cbn [Eval.eval] in He. seq He IH1 C1 Hd; [done|]. eapply delivers_trans; [exact D|].
  pose proof (do_and_or None p1 st es0 true v q Ho Hl Hq) as J. destruct (is_true v); cbn [Bool.eqb] in J.
  - unfold mret, ev_ret in He. simplify_eq. by left.
  - eapply delivers_trans; [exact J|]. by eapply IH2.
Qed.

Lemma cond_runs c a b : expr_runs c -> expr_runs a -> expr_runs b -> expr_runs (EXPR_COND c a b).
Proof.
  intros IH1 IH2 IH3 dollar es r es' He p q saved st C Hd Hq. destruct C as (p1 & p2 & C1 & Ho & Hl & C2 & Hj & Hl2 & C3).
  cbn [Eval.eval] in He. seq He IH1 C1 Hd; [done|]. eapply delivers_trans; [exact D|].
  eapply delivers_trans; [eapply (do_test_op None p1 st _ OP_IF_QUES v (S (S p2))); [done..|]; eapply nopop_code, start_at, C3|].
  destruct (is_true v).
  - pose proof (IH2 _ _ _ _ He _ _ _ _ C2 Hd ltac:(eexists; exact Hj)) as D2. destruct r as [err|w]; [done|].
    apply delivers_on in D2; [|by eapply op_nopop]. eapply delivers_trans; [exact D2|]. left.
    by eapply do_jump.
  - by eapply IH3.
Qed.

Lemma binary_runs b lhs rhs : expr_runs lhs -> expr_runs rhs -> expr_runs (Expr_Binary b lhs rhs).
Proof.
  intros IH1 IH2 dollar es r es' He p q saved st C Hd Hq. pose proof (room _ _ _ _ _ C) as Hn. destruct C as (p1 & p2 & C1 & C2 & C3).
  assert (Hq2 : nopop_at p2).
  { unfold binary_at in C3. destruct (binary_op b) eqn:Hb.
    - destruct C3 as [C3 _]. eapply op_nopop; [exact C3|]. intros ->. by destruct b.
    - destruct C3 as [[C3 _] _]. by eapply op_nopop. }
  assert (Hgo : forall f : Var -> Var -> ev Var, (forall x y es1, f x y es1 = Ok (r, es') -> delivers None p2 (y :: x :: st) es1 q st r es') ->
    (x ← eval lhs dollar; y ← eval rhs dollar; f x y) es = Ok (r, es') -> delivers None p st es q st r es').
  { intros f Hf He'. seq He' IH1 C1 Hd; [done|]. eapply delivers_trans; [exact D|].
    apply ev_bind_Ok in He' as (r1 & es1 & E & He').
    pose proof (IH2 _ _ _ _ E _ _ _ (v :: st) C2 (dollar_push _ _ _ _ Hd) (nopop_code _ Hq2)) as D2.
    destruct r1 as [err|w]; [destruct He' as [-> ->]; by eapply (raises_below None _ _ _ _ [_])|].
    apply delivers_on in D2; [|done]. eapply delivers_trans; [exact D2|]. by apply Hf. }
  assert (Hb : b = EXPR_PROP \/ b <> EXPR_PROP) by (destruct b; auto). destruct Hb as [->|Hb].
  - apply (Hgo (property (a_debug a0) (a_progr a0))); [|exact He]. intros x y es1 Hp. destruct C3 as [Ho ->].
    by eapply do_get_prop.
  - apply (Hgo (fun x y => calculate (a_debug a0) (binary pow b x y))); [|by destruct b].
    intros x y es1 Hp. by eapply do_binary.
Qed.

Lemma index_runs lhs rhs : expr_runs lhs -> expr_runs rhs -> expr_runs (EXPR_INDEX lhs rhs).
Proof.
  intros IH1 IH2 dollar es r es' He p q saved st C Hd Hq. pose proof (room _ _ _ _ _ C) as Hn. destruct C as (p1 & p2 & C1 & C2 & Ho & ->).
  cbn [Eval.eval] in He. seq He IH1 C1 Hd; [done|]. eapply delivers_trans; [exact D|].
  seq He IH2 C2 (dollar_top v st); [by eapply (raises_below None _ _ _ _ [_])|]. eapply delivers_trans; [exact D0|].
  by eapply do_index.
Qed.

Lemma range_runs base from to : expr_runs base -> expr_runs from -> expr_runs to -> expr_runs (EXPR_RANGE base from to).
Proof.
  intros IH1 IH2 IH3 dollar es r es' He p q saved st C Hd Hq. pose proof (room _ _ _ _ _ C) as Hn.
  destruct C as (p1 & p2 & p3 & C1 & C2 & C3 & Ho & ->).
  cbn [Eval.eval] in He. seq He IH1 C1 Hd; [done|]. eapply delivers_trans; [exact D|].
  seq He IH2 C2 (dollar_top v st); [by eapply (raises_below None _ _ _ _ [_])|]. eapply delivers_trans; [exact D0|].
  seq He IH3 C3 (dollar_push _ _ v0 _ (dollar_top v st)); [by apply (raises_below None _ _ _ _ [v0; v])|]. eapply delivers_trans; [exact D1|].
  by eapply do_range.
Qed.

Lemma length_runs : expr_runs EXPR_LENGTH.
Proof.
  intros dollar es r es' He p q saved st (i & Hi & Hn & Ho & Hf & ->) Hd Hq. destruct (Hd i Hi) as (b & -> & Hb).
  by eapply do_length.
Qed.

(** *** Lists *)

Lemma args_nil : args_run Arg_Nil.
Proof.
  intros dollar es r es' He p q saved st (Hn & Ho & ->) Hd Hq. cbn in He. unfold mret, ev_ret in He. simplify_eq. left.
  apply pushes_value; [|done]. by opcode Ho.
Qed.

Lemma more_nil : more_run Arg_Nil.
Proof.
  intros acc dollar es r es' He p q saved st -> Hd Hq Hn. cbn in He. unfold mret, ev_ret in He. simplify_eq. left. apply goes_refl.
Qed.

Lemma args_cons kind e args : expr_runs e -> more_run args -> args_run (Arg_Cons kind e args).
Proof.
  intros IH1 IH2 dollar es r es' He p q saved st (p1 & C1 & Ho & C2) Hd Hq. pose proof (room _ _ _ _ _ C1) as Hn.
  rewrite eval_args_cons in He. assert (Hq1 : nopop_at p1) by (destruct kind; by eapply op_nopop).
  seq He IH1 C1 Hd; [done|]. eapply delivers_trans; [exact D|].
  apply ev_bind_Ok in He as (r1 & es1 & E & He).
  assert (D2 : match r1 with inr w => goes None p1 (v :: st) es0 (S p1) (w :: st) es1 | inl e => raises None p1 (v :: st) es0 e st es1 end).
  { destruct kind; [cbn in E; unfold mret, ev_ret in E; simplify_eq; by apply do_singleton|by eapply do_splice]. }
  destruct r1 as [err|acc]; [by destruct He as [-> ->]|]. eapply delivers_trans; [exact D2|].
  by eapply IH2.
Qed.

Lemma more_cons kind e args : expr_runs e -> more_run args -> more_run (Arg_Cons kind e args).
Proof.
  intros IH1 IH2 acc dollar es r es' He p q saved st (p1 & C1 & Ho & C2) Hd Hq Hn.
  rewrite eval_more_cons in He. assert (Hq1 : nopop_at p1) by (destruct kind; by eapply op_nopop).
  apply ev_bind_Ok in He as (r1 & es1 & E & He).
  pose proof (IH1 _ _ _ _ E _ _ _ (acc :: st) C1 (dollar_push _ _ _ _ Hd) (nopop_code _ Hq1)) as D.
  destruct r1 as [err|v]; [destruct He as [-> ->]; by eapply (raises_below None _ _ _ _ [_])|].
  apply delivers_on in D; [|done]. eapply delivers_trans; [exact D|].
  apply ev_bind_Ok in He as (r2 & es2 & E2 & He). pose proof (do_extend None p1 st es1 Hn kind acc v r2 es2 Ho E2) as D2.
  destruct r2 as [err|acc']; [by destruct He as [-> ->]|]. eapply delivers_trans; [exact D2|].
  by eapply IH2.
Qed.

(** *** Places *)

Lemma place_id id : place_runs (EXPR_ID id).
Proof.
  intros dollar es r es' He p q saved st -> Hd Hq. cbn in He. unfold mret, ev_ret in He. simplify_eq. split; [apply goes_refl|done].
Qed.

Lemma container_id id : container_runs (EXPR_ID id).
Proof.
  intros dollar es r es' He p q saved st [Hn C] Hd Hq. cbn [Eval.eval_container] in He.
  apply ev_bind_Ok in He as (r1 & es1 & E & He). pose proof (do_push_var None p st es Hn id q r1 es1 C E) as D.
  destruct r1 as [err|v]; [by destruct He as [-> ->]|]. unfold mret, ev_ret in He. simplify_eq.
  apply delivers_on in D; [|done]. done.
Qed.

(** The object and the name of a property. *)
Lemma prop_parts {A} obj name dollar es (f : Var -> Var -> ev A) r es' p p1 p2 saved st : expr_runs obj -> expr_runs name ->
  (o ← eval obj dollar; n ← eval name dollar; f o n) es = Ok (r, es') ->
  compiled F obj p p1 saved (length st) -> compiled F name p1 p2 saved (S (length st)) -> dollar_ok saved dollar st -> nopop_at p2 ->
  match r with inl err => raises None p st es err st es' | inr _ => False end \/
  exists o n es2, goes None p st es p2 (n :: o :: st) es2 /\ f o n es2 = Ok (r, es').
Proof.
  intros IH1 IH2 He C1 C2 Hd Hq. seq He IH1 C1 Hd; [by left|].
  seq He IH2 C2 (dollar_push _ _ v _ Hd).
  - left. eapply raises_trans; [exact D|]. by eapply (raises_below None _ _ _ _ [_]).
  - right. exists v, v0, es1. split; [by eapply goes_trans|done].
Qed.

Lemma place_prop obj name : expr_runs obj -> expr_runs name -> place_runs (Expr_Binary EXPR_PROP obj name).
Proof.
  intros IH1 IH2 dollar es r es' He p q saved st (p1 & p2 & C1 & C2 & ->) Hd Hq. rewrite eval_place_prop in He.
  destruct (prop_parts _ _ _ _ _ _ _ _ _ _ _ _ IH1 IH2 He C1 C2 Hd Hq) as [Hr|(o & n & es2 & D & Hr)].
  - destruct r; [done|by destruct Hr].
  - unfold mret, ev_ret in Hr. simplify_eq. done.
Qed.

Lemma container_prop obj name : expr_runs obj -> expr_runs name -> container_runs (Expr_Binary EXPR_PROP obj name).
Proof.
  intros IH1 IH2 dollar es r es' He p q saved st (p1 & p2 & C1 & C2 & Hn & Ho & ->) Hd Hq. rewrite eval_container_prop in He.
  destruct (prop_parts _ _ _ _ _ _ _ _ _ _ _ _ IH1 IH2 He C1 C2 Hd
    ltac:(by eapply op_nopop)) as [Hr|(o & n & es2 & D & Hr)].
  - destruct r; [done|by destruct Hr].
  - apply ev_bind_Ok in Hr as (r1 & es3 & E & Hr).
    pose proof (do_push_get_prop None p2 st es2 o n r1 es3 ltac:(lia) Ho E) as D2.
    apply delivers_arrives in D2; [|done]. destruct r1 as [err|v].
    + destruct Hr as [-> ->]. split; [|done]. eapply raises_trans; [exact D|]. by apply (raises_below None _ _ _ _ [n; o]).
    + unfold mret, ev_ret in Hr. simplify_eq. split; [by eapply goes_trans|done].
Qed.

(** A container and what is computed with [$] standing for its size. *)
Lemma container_then {A} e dollar es (f : place * Var -> ev A) r es' p p1 saved st : container_runs e ->
  (c ← eval_container e dollar; f c) es = Ok (r, es') -> compiled_lvalue F e true p p1 saved (length st) ->
  dollar_ok saved dollar st -> nopop_at p1 ->
  match r with inl err => raises None p st es err st es' | inr _ => False end \/
  exists pl l es1, let stk := l :: vals pl ++ st in goes None p st es p1 stk es1 /\ f (pl, l) es1 = Ok (r, es') /\ place_of e pl /\
    (length st + lvalue_size e true)%nat = length stk /\ dollar_ok (Some (length stk - 1)%nat) (Some l) stk.
Proof.
  intros IH He C Hd Hq. apply ev_bind_Ok in He as (r1 & es1 & E & He). destruct (IH _ _ _ _ E _ _ _ _ C Hd Hq) as [D Hp].
  destruct r1 as [err|[pl l]]; [destruct He as [-> ->]; by left|]. right. destruct Hp as [Hp Hs]. exists pl, l, es1. cbn [fst snd] in *.
  split; [done|]. split; [done|]. split; [done|]. cbn [length]. rewrite length_app, Hs. split; [lia|]. cbn [Nat.sub].
  rewrite Nat.sub_0_r, <- length_app. apply dollar_top.
Qed.

Lemma place_index lhs rhs : container_runs lhs -> expr_runs rhs -> place_runs (EXPR_INDEX lhs rhs).
Proof.
  intros IH1 IH2 dollar es r es' He p q saved st (p1 & p2 & C1 & C2 & ->) Hd Hq. rewrite eval_place_index in He.
  destruct (container_then _ _ _ _ _ _ _ _ _ _ IH1 He C1 Hd ltac:(by eapply start_at)) as [Hr|(pl & l & es1 & D & Hr & Hp & Hs & Hd')].
  - destruct r; [done|by destruct Hr].
  - cbv zeta in *. rewrite Hs in C2. cbn beta iota in Hr. seq Hr IH2 C2 Hd'.
    + split; [|done]. eapply raises_trans; [exact D|]. by eapply (raises_below None _ _ _ _ (_ :: _)).
    + unfold mret, ev_ret in Hr. simplify_eq. split; [by eapply goes_trans|]. split; [done|].
      cbn [lvalue_size vals length] in *. rewrite length_app in Hs. lia.
Qed.

Lemma container_index lhs rhs : container_runs lhs -> expr_runs rhs -> container_runs (EXPR_INDEX lhs rhs).
Proof.
  intros IH1 IH2 dollar es r es' He p q saved st (p1 & p2 & C1 & C2 & Hn & Ho & ->) Hd Hq. rewrite eval_container_index in He.
  destruct (container_then _ _ _ _ _ _ _ _ _ _ IH1 He C1 Hd ltac:(by eapply start_at)) as [Hr|(pl & l & es1 & D & Hr & Hp & Hs & Hd')].
  - destruct r; [done|by destruct Hr].
  - cbv zeta in *. rewrite Hs in C2, Hn. cbn beta iota in Hr. seq Hr IH2 C2 Hd'.
    + split; [|done]. eapply raises_trans; [exact D|]. by eapply (raises_below None _ _ _ _ (_ :: _)).
    + apply ev_bind_Ok in Hr as (r1 & es3 & E & Hr). cbn [length] in Hn.
      pose proof (do_push_ref None p2 (vals pl ++ st) es0 l v r1 es3 ltac:(lia) Ho E) as D2.
      apply delivers_arrives in D2; [|done]. destruct r1 as [err|w].
      * destruct Hr as [-> ->]. split; [|done]. do 2 (eapply raises_trans; [done|]). by apply (raises_below None _ _ _ _ (v :: l :: vals pl)).
      * unfold mret, ev_ret in Hr. simplify_eq. split; [do 2 (eapply goes_trans; [done|]); done|]. cbn [fst snd place_of vals length lvalue_size].
        split; [done|]. cbn [length] in Hs. rewrite length_app in Hs. lia.
Qed.

Lemma place_range base from to : container_runs base -> expr_runs from -> expr_runs to -> place_runs (EXPR_RANGE base from to).
Proof.
  intros IH1 IH2 IH3 dollar es r es' He p q saved st (p1 & p2 & C1 & C2 & C3) Hd Hq. rewrite eval_place_range in He.
  destruct (container_then _ _ _ _ _ _ _ _ _ _ IH1 He C1 Hd ltac:(by eapply start_at)) as [Hr|(pl & l & es1 & D & Hr & Hp & Hs & Hd')].
  - destruct r; [done|by destruct Hr].
  - cbv zeta in *. rewrite Hs in C2, C3. cbn beta iota in Hr. seq Hr IH2 C2 Hd'.
    + split; [|done]. eapply raises_trans; [exact D|]. by eapply (raises_below None _ _ _ _ (_ :: _)).
    + seq Hr IH3 C3 (dollar_push _ _ v _ Hd').
      * split; [|done]. do 2 (eapply raises_trans; [done|]). by apply (raises_below None _ _ _ _ (v :: l :: vals pl)).
      * unfold mret, ev_ret in Hr. simplify_eq. split; [do 2 (eapply goes_trans; [done|]); done|]. split; [done|].
        cbn [lvalue_size vals length] in *. rewrite length_app in Hs. lia.
Qed.

(** *** Assignments *)

Lemma part_place e pl : place_of e pl -> is_part e = match pl with PElement _ _ _ | PRange _ _ _ _ => true | _ => false end.
Proof. destruct e, pl; try done; by destruct kind. Qed.

(** The value is saved while the parts are put together. *)
Lemma store_part pl e v es r es' p q st : place_of e pl -> is_part e = true -> (length (vals pl ++ st) < max_stack F)%nat ->
  op_at F p OP_PUT_TEMP -> store_at F e (S p) q -> op_at F q OP_POP -> op_at F (S q) OP_PUSH_TEMP ->
  stored (a_debug a0) (a_progr a0) pl v es = Ok (r, es') ->
  delivers None p (v :: vals pl ++ st) es (S (S q)) st r es'.
Proof.
  intros Hp Hpart Hn H1 Hs H2 H3 Hr. rewrite (part_place _ _ Hp) in Hpart.
  assert (Hst : (length st < max_stack F)%nat) by (rewrite length_app in Hn; lia).
  assert (Hr' : (_ ← store (a_debug a0) (a_progr a0) pl v; mret v) es = Ok (r, es')) by (by destruct pl).
  apply ev_bind_Ok in Hr' as (r1 & es1 & E & Hk).
  pose proof (store_delivers (Some v) pl e v es r1 es1 (S p) q st Hp Hs ltac:(by eexists) Hn E) as D. destruct r1 as [err|[]].
  - destruct Hk as [-> ->]. by eapply saved_raises.
  - destruct D as [w D]. unfold mret, ev_ret in Hk. simplify_eq. left. eapply saved_goes; [done..|].
    destruct D as [D|[_ D]]; [|exact D]. eapply goes_trans; [exact D|]. by apply do_pop.
Qed.

Lemma asgn_runs lhs rhs : match lhs with EXPR_SCATTER _ => False | _ => True end -> place_runs lhs -> expr_runs rhs ->
  expr_runs (EXPR_ASGN lhs rhs).
Proof.
  intros Hl IH1 IH2 dollar es r es' He p q saved st C Hd Hq.
  assert (He' : (pl ← eval_place lhs dollar; v ← eval rhs dollar; stored (a_debug a0) (a_progr a0) pl v) es = Ok (r, es')) by (by destruct lhs).
  assert (C' : plain_asgn F lhs rhs p q saved (length st)) by (by destruct lhs). clear Hl He C.
  destruct C' as (p1 & p2 & p3 & p4 & C1 & C2 & C3 & C4 & C5).
  assert (Hq2 : nopop_at p2) by (destruct (is_part lhs); [destruct C3; by eapply op_nopop|subst p3; by eapply store_nopop]).
  apply ev_bind_Ok in He' as (r1 & es1 & E & He). destruct (IH1 _ _ _ _ E _ _ _ _ C1 Hd ltac:(by eapply start_at)) as [D Hp].
  destruct r1 as [err|pl]; [by destruct He as [-> ->]|]. destruct Hp as [Hp Hs]. eapply delivers_trans; [exact D|]. clear D E.
  rewrite Hs, Nat.add_comm, <- length_app in C2. pose proof (room _ _ _ _ _ C2) as Hn.
  seq He IH2 C2 (dollar_app _ _ (vals pl) _ Hd); [by eapply raises_below|]. eapply delivers_trans; [exact D|].
  destruct (is_part lhs) eqn:Hpart.
  - destruct C3 as [Ho ->], C5 as (Ho2 & Ho3 & ->). by eapply store_part.
  - subst p3 q. pose proof (part_place _ _ Hp) as Hpl. rewrite Hpart in Hpl. destruct pl; try done; cbn [stored store] in He.
    + apply ev_bind_Ok in He as (r1 & es2 & E & He). destruct lhs; try done; try (by destruct kind). cbn [place_of store_at] in *. subst id0.
      destruct (do_put None p2 st es0 id v p4 r1 es2 Hq C4 E) as [-> D2]. unfold mret, ev_ret in He. by simplify_eq.
    + destruct lhs; try done. destruct kind; try done. destruct C4 as [Ho ->].
      eapply do_put_prop; [|done|done]. cbn [vals app length] in Hn. lia.
Qed.

(** *** Scattering assignments *)

Lemma defaults_targets sc : forall targets p q saved k, compiled_defaults F sc targets p q saved k -> (2 <= p)%nat -> targets_ok sc targets.
Proof.
  revert sc. fix IH 1. intros [|kind id expr sc] [|t targets] p q saved k C Hp; try done. cbn [compiled_defaults targets_ok] in *.
  assert (Hc : (kind = SCAT_OPTIONAL /\ exists e, expr = Some_Expr e) \/ compiled_defaults F sc targets p q saved k /\ 
    match kind, expr with SCAT_OPTIONAL, Some_Expr _ => False | _, _ => True end).
  { destruct kind, expr; eauto. }
  destruct Hc as [[-> [e ->]]|[Hc Hk]].
  - destruct C as (-> & p1 & p2 & C1 & C2 & C3 & C4). split; [split; [done|by eapply nopop_code, start_at]|].
    apply (proj1 (proj1 (proj1 sizes_all e))) in C1 as [C1 _]. apply var_op_size in C2. eapply IH; [exact C4|lia].
  - split; [by destruct kind, expr|]. by eapply IH.
Qed.

Lemma first_default_ok sc : forall targets nopt t, targets_ok sc targets -> first_default sc targets nopt = Some t -> (2 <= t)%nat.
Proof.
  revert sc. fix IH 1. intros [|kind id expr sc] [|t' targets] nopt t Ht Hf; try (by destruct kind); try done.
  destruct Ht as [Ht1 Ht]. destruct kind; cbn [first_default] in Hf; [by eapply IH| |by eapply IH].
  destruct nopt, expr; try (by eapply IH). simplify_eq. apply Ht1.
Qed.

Lemma defaults_nil : defaults_run Scat_Nil.
Proof.
  intros nopt dollar es r es' He [|t targets] p q saved st C Hd Hq; [|done]. cbn in He, C. unfold mret, ev_ret in He. simplify_eq.
  split; [done|]. intros _. apply goes_refl.
Qed.

Lemma defaults_cons kind id expr sc : match expr with Some_Expr e => expr_runs e | No_Expr => True end -> defaults_run sc ->
  defaults_run (Scat_Cons kind id expr sc).
Proof.
  intros IH1 IH2 nopt dollar es r es' He [|t targets] p q saved st C Hd Hq; [done|]. rewrite eval_defaults_cons in He.
  destruct kind; [by eapply IH2| |by eapply IH2]. destruct expr as [|e].
  { destruct nopt as [|nopt]; cbn [first_default]; destruct (IH2 _ _ _ _ _ He _ _ _ _ _ C Hd Hq) as [H1 H2]; [by split|]. by split. }
  destruct C as (-> & p1 & p2 & C1 & C2 & C3 & C4). destruct nopt as [|nopt]; cbn [first_default].
  2: { split; [|done]. exact (proj1 (IH2 _ _ _ _ _ He _ _ _ _ _ C4 Hd Hq)). }
  assert (G : arrives p st es q (fun _ : unit => st) st r es'); [|by split]. pose proof (room _ _ _ _ _ C1) as Hn.
  assert (Hq1 : nopop_at p1) by (by eapply (var_op_nopop OP_PUT OP_G_PUT)).
  seq He IH1 C1 Hd; [done|]. eapply arrives_trans; [exact D|].
  apply ev_bind_Ok in He as (r1 & es1 & E & He).
  destruct (do_put None p1 st es0 id v p2 r1 es1 ltac:(by eexists) C2 E) as [-> D2]. cbn beta iota in He.
  eapply arrives_trans; [|by eapply (IH2 0%nat)]. destruct D2 as [D2|[_ D2]]; [|exact D2]. eapply goes_trans; [exact D2|]. by apply do_pop.
Qed.

Lemma opts_required sc j : rest_number sc = Some j -> (opts_before sc + required sc < scat_length sc)%nat /\ (j <= scat_length sc)%nat.
Proof.
  assert (Hr : forall sc, (required sc <= scat_length sc)%nat).
  { fix IH 1. intros [|[] id expr sc']; cbn [required scat_length]; [done|pose proof (IH sc'); lia..]. }
  revert sc j. fix IH 1. intros [|[] id expr sc] j; cbn [rest_number opts_before required scat_length]; [done|..].
  - intros (j' & Hj & ->)%fmap_Some. destruct (IH sc j' Hj). lia.
  - intros (j' & Hj & ->)%fmap_Some. destruct (IH sc j' Hj). lia.
  - intros [= <-]. pose proof (Hr sc). lia.
Qed.

Lemma skip_var_conf p i st es k : ref_at F p FIXUP_VAR_REF i -> skip_var_name (conf p st es k) = Ok (tt, conf (S p) st es k).
Proof.
  intros Hr. destruct (vector_ref F mc_finished mc_small p FIXUP_VAR_REF i ltac:(done) Hr) as [Hf Hn]. unfold skip_var_name, conf.
  rewrite (bind_act _ _ _ _ _ (observe_code _ _ _ _)). unfold loc. by rewrite Hn.
Qed.
Lemma skip_pseudo_conf p n st es k : (n < 256)%nat -> pseudo_at F p n -> skip_label (conf p st es k) = Ok (tt, conf (S p) st es k).
Proof.
  intros Hlt Hl. destruct (vector_pseudo F mc_finished p n Hlt Hl) as [Hf Hn]. unfold skip_label, conf.
  rewrite (bind_act _ _ _ _ _ (observe_code _ _ _ _)). unfold loc. by rewrite Hn.
Qed.

Lemma run_skip sc : forall targets p q st es k, scatter_at F sc targets p q -> targets_ok sc targets ->
  skip_operands (scat_length sc) (conf p st es k) = Ok (tt, conf q st es k).
Proof.
  revert sc. fix IH 1. intros [|kind id expr sc] [|t targets] p q st es k Hs Ht; try done; cbn [scatter_at targets_ok scat_length skip_operands] in *.
  { by subst q. }
  destruct Hs as (Hv & Hl & Hs), Ht as [Ht1 Ht]. rewrite (bind_act _ _ _ _ _ (skip_var_conf _ _ _ _ _ Hv)).
  assert (E : skip_label (conf (S p) st es k) = Ok (tt, conf (S (S p)) st es k)).
  { destruct kind, expr; try (by apply (skip_pseudo_conf _ 0%nat); [lia|]); [by apply (skip_pseudo_conf _ 1%nat); [lia|]|].
    destruct Ht1 as [_ Hc%code_lt]. by eapply skip_label_conf. }
  rewrite (bind_act _ _ _ _ _ E). by eapply IH.
Qed.

Lemma raise_is_push e o (m : vm Data World) a : run_activ m = Ok (a, m) -> a_debug a = true -> RAISE_ERROR e o m = PUSH_ERROR e m.
Proof. intros Ha Hd. unfold PUSH_ERROR, RAISE_ERROR. by rewrite !(bind_act _ _ _ _ _ Ha), Hd. Qed.


(** The instruction, from its operands on. *)
Section scatter.
Context (sc : Scatter) (targets : list nat) (p p2 q : nat) (nreq rest : nat).
Context (Ho : eop_at F p EOP_SCATTER) (Hb1 : CodeShape.byte_at F (p + 2) (Z.of_nat (scat_length sc)))
  (Hb2 : CodeShape.byte_at F (p + 3) (Z.of_nat nreq)) (Hb3 : CodeShape.byte_at F (p + 4) (Z.of_nat rest)).
Context (Hlt : (scat_length sc < 256)%nat /\ (nreq < 256)%nat /\ (rest < 256)%nat).
Context (Hone : one_rest sc = true) (Hnreq : nreq = required sc)
  (Hrest : rest = match rest_number sc with Some i => i | None => S (scat_length sc) end).
Context (Hs : scatter_at F sc targets (p + 5) p2) (Ht : targets_ok sc targets) (Hl : label_at F p2 q) (Hq : code_at q).

Lemma rest_here : (rest <=? scat_length sc)%nat = has_rest sc.
Proof.
  rewrite rest_number_has, Hrest. destruct (rest_number sc) as [j|] eqn:Hj.
  - apply opts_required in Hj as [_ Hj]. by apply Nat.leb_le.
  - apply Nat.leb_gt. lia.
Qed.

Lemma fits_here n : scatter_fits sc n = negb ((n <? nreq)%nat || (negb (has_rest sc) && (scat_length sc <? n)%nat)).
Proof.
  unfold scatter_fits. subst nreq. destruct (has_rest sc), (Nat.leb_spec (required sc) n), (Nat.ltb_spec n (required sc)),
    (Nat.leb_spec n (scat_length sc)), (Nat.ltb_spec (scat_length sc) n); try done; lia.
Qed.

(** Everything up to the value. *)
Ltac operands k :=
  unfold eop_scatter; replace (S (S p)) with (p + 2)%nat by lia; destruct Hlt as (L1 & L2 & L3);
  rewrite (bind_act _ _ _ _ _ (read_byte_conf _ _ _ _ k L1 Hb1)); replace (S (p + 2)) with (p + 3)%nat by lia;
  rewrite (bind_act _ _ _ _ _ (read_byte_conf _ _ _ _ k L2 Hb2)); replace (S (p + 3)) with (p + 4)%nat by lia;
  rewrite (bind_act _ _ _ _ _ (read_byte_conf _ _ _ _ k L3 Hb3)); replace (S (p + 4)) with (p + 5)%nat by lia; unfold conf at 1; pops.

Lemma finish_conf w st es k :
  (done ← read_label; _ ← JUMP (if decide (w = 0%nat) then done else w); next_op) (conf p2 st es k) =
    Ok (Next, conf_at (if decide (w = 0%nat) then loc q else w) st es k).
Proof. by rewrite (bind_act _ _ _ _ _ (read_label_conf _ _ _ _ _ (code_lt _ Hq) Hl)). Qed.

(** It does not fit. *)
Lemma scatter_bad e v st es r es' : match v with List l => e = E_ARGS /\ scatter_fits sc (length l) = false | _ => e = E_TYPE end ->
  (length st < max_stack F)%nat -> fails (a_debug a0) e es = Ok (r, es') -> delivers None p (v :: st) es q st r es'.
Proof.
  intros Hv Hn Hr.
  assert (G : forall k, exists o, eop_scatter (conf (S (S p)) (v :: st) es k) = RAISE_ERROR e o (conf (p + 5) st es k) /\
    o (conf (p + 5) st es k) = Ok (Next, conf q (Err e :: st) es k)).
  { intros k. eexists. split.
    - operands k. assert (Hc : forall l, v = List l ->
        (length l <? nreq)%nat || (negb (rest <=? scat_length sc)%nat && (scat_length sc <? length l)%nat) = true /\ e = E_ARGS).
      { intros l ->. destruct Hv as [-> Hf]. rewrite fits_here in Hf. rewrite rest_here. split; [|done]. by destruct (_ || _). }
      destruct v; try (subst e; pops; reflexivity). destruct (Hc _ eq_refl) as [-> ->]. pops. reflexivity.
    - cbn beta. unfold conf at 1. rewrite (bind_act _ _ _ _ _ (push_conf _ _ _ _ _ Hn)). change (conf_at (loc (p + 5))) with (conf (p + 5)).
      rewrite (bind_act _ _ _ _ _ (run_skip _ _ _ _ _ _ _ Hs Ht)). apply (finish_conf 0%nat). }
  unfold fails in Hr. destruct (a_debug a0) eqn:Hd; simplify_eq.
  - split; [done|]. exists 1%nat. intros k Hk _. exists (conf p (v :: st) es' k), [], (loc (p + 5)), (fetched_eop EOP_SCATTER p k).
    split; [apply rtc_refl|]. split; [|apply left_fetched_eop]. rewrite (step_eop _ _ _ _ _ Ho Hk). cbn [extended_instr].
    destruct (G (fetched_eop EOP_SCATTER p k)) as (o & -> & _). by eapply raise_is_push.
  - left. apply goes_step. eopcode Ho. change (conf_at (loc (S (S p)))) with (conf (S (S p))).
    destruct (G (fetched_eop EOP_SCATTER p k)) as (o & -> & Hk'). unfold RAISE_ERROR, conf in *. rewrite (bind_act _ _ _ _ _ (run_activ_conf _ _ _ _)).
    cbn [a_debug running]. rewrite Hd. exact Hk'.
Qed.

Lemma scatter_binding l : scatter_fits sc (length l) = true ->
  binding l (Z.of_nat rest) (if has_rest sc then length l + 1 - scat_length sc else 0)%nat sc 1 0 (length l - required sc).
Proof.
  intros Hf. unfold scatter_fits in Hf. apply andb_true_iff in Hf as [Hf1%Nat.leb_le Hf2]. split; [done| |lia|unfold len; lia|].
  - rewrite Hrest. destruct (rest_number sc); lia.
  - rewrite rest_number_has. intros j Hj. rewrite Hj. cbn. pose proof (opts_required _ _ Hj). intros Hn. unfold len.
    split; [done|]. split; lia.
Qed.

Lemma scatter_good l st es r1 es1 : scatter_fits sc (length l) = true ->
  bind_targets sc l (length l - required sc) (if has_rest sc then length l + 1 - scat_length sc else 0) es = Ok (r1, es1) ->
  r1 = inr tt /\ goes None p (List l :: st) es (default q (first_default sc targets (length l - required sc))) (List l :: st) es1.
Proof.
  intros Hf Hr. pose proof (scatter_binding l Hf) as Hb.
  assert (Hrun := fun k => run_targets l (Z.of_nat (scat_length sc)) (Z.of_nat rest) _ targets sc (p + 5) p2 1 0 _ 0 es r1 es1
    (List l :: st) k Hs Ht Hb Hr).
  split; [by eapply (Hrun (mkScratch 0 None_ 0))|]. apply goes_step. eopcode Ho. change (conf_at (loc (S (S p)))) with (conf (S (S p))).
  match goal with |- eop_scatter (conf _ _ _ ?f) = _ => set (k1 := f) end. destruct (Hrun k1) as [_ E]. clear Hrun.
  rewrite fits_here, <- rest_here in Hf.
  operands k1. destruct (_ || _) eqn:Hor; [done|]. apply orb_false_iff in Hor as [Hor _].
  assert (En : (if (rest <=? scat_length sc)%nat && (scat_length sc <=? length l)%nat then len l - Z.of_nat (scat_length sc) + 1 else 0)
    = Z.of_nat (if has_rest sc then length l + 1 - scat_length sc else 0)).
  { rewrite rest_here. unfold len. destruct (has_rest sc), (Nat.leb_spec (scat_length sc) (length l)); cbn [andb]; lia. }
  rewrite En. replace (len l - Z.of_nat nreq) with (Z.of_nat (length l - required sc)).
  2: { rewrite Hnreq in *. destruct (Nat.ltb_spec (length l) (required sc)); [done|]. unfold len. lia. }
  change (conf_at (loc (p + 5))) with (conf (p + 5)). rewrite (bind_act _ _ _ _ _ E), finish_conf.
  destruct (first_default sc targets _) as [t|] eqn:Ht'; cbn [default fmap option_fmap option_map]; [|done].
  pose proof (first_default_ok _ _ _ _ Ht Ht'). pose proof (loc_ge t).
  unfold Datatypes.id. by rewrite decide_False by lia.
Qed.

End scatter.

Lemma byte_bound p b : CodeShape.byte_at F p b -> 0 <= b < 256.
Proof. intros [Hb _]. pose proof (inv_bytes F (fin_inv F mc_finished)) as Hall. by apply (Forall_lookup_1 _ _ _ _ Hall Hb). Qed.

Lemma scatter_runs sc rhs : defaults_run sc -> expr_runs rhs -> expr_runs (EXPR_ASGN (EXPR_SCATTER sc) rhs).
Proof.
  intros IH1 IH2 dollar es r es' He p q saved st (p1 & p2 & targets & C1 & C2 & C3 & C4 & C5) Hd Hq. rewrite eval_scatter in He.
  pose proof (room _ _ _ _ _ C1) as Hn. destruct (one_rest sc) eqn:Hone; [|done]. cbn [negb] in He.
  rewrite scatter_counts_spec in C2 by done. destruct C2 as (Ho & B1 & B2 & B3). rewrite !Z.add_0_l in B1, B2.
  pose proof (byte_bound _ _ B1). pose proof (byte_bound _ _ B2). pose proof (byte_bound _ _ B3).
  set (rest := match rest_number sc with Some i => i | None => S (scat_length sc) end).
  assert (B3' : CodeShape.byte_at F (p1 + 4) (Z.of_nat rest)).
  { unfold rest. destruct (rest_number sc); cbn [default] in B3; [by rewrite Z.add_0_l in B3|]. rewrite Nat2Z.inj_succ. by rewrite Z.add_0_l in B3. }
  pose proof (byte_bound _ _ B3'). assert (Hlt : (scat_length sc < 256)%nat /\ (required sc < 256)%nat /\ (rest < 256)%nat) by lia.
  pose proof (defaults_targets _ _ _ _ _ _ C5 ltac:(pose proof (scatter_size _ _ _ _ C3); lia)) as Ht.
  assert (Hp1 : nopop_at p1) by (destruct Ho; by eapply op_nopop).
  seq He IH2 C1 Hd; [done|]. eapply delivers_trans; [exact D|].
  assert (Hbad : forall e, match v with List l => e = E_ARGS /\ scatter_fits sc (length l) = false | _ => e = E_TYPE end ->
    fails (a_debug a0) e es0 = Ok (r, es') -> delivers None p1 (v :: st) es0 q st r es').
  { intros e Hv Hr. by eapply (scatter_bad sc targets p1 p2 q (required sc) rest). }
  destruct v; try (by apply Hbad in He). destruct (scatter_fits sc (length list)) eqn:Hf; [|by apply Hbad in He].
  clear Hbad. apply ev_bind_Ok in He as (r1 & es1 & E & He).
  destruct (scatter_good sc targets p1 p2 q (required sc) rest Ho B1 B2 B3' Hlt Hone eq_refl eq_refl C3 Ht C4 Hq list st _ _ _ Hf E) as [-> G].
  cbn beta iota in He. apply ev_bind_Ok in He as (r2 & es2 & E2 & He).
  destruct (IH1 _ _ _ _ _ E2 _ _ _ _ (List list :: st) C5 (dollar_push _ _ _ _ Hd) Hq) as [D2 _].
  destruct (first_default sc targets _) as [t|]; cbn [default] in G.
  - destruct r2 as [err|[]].
    + destruct He as [-> ->]. eapply raises_trans; [exact G|]. by apply (raises_below None _ _ _ _ [List list]).
    + unfold mret, ev_ret in He. simplify_eq. left. by eapply goes_trans.
  - destruct D2 as [-> ->]. unfold mret, ev_ret in He. simplify_eq. by left.
Qed.

(** *** Every expression *)

Lemma runs_all : (forall e, expr_runs e /\ (place_runs e /\ container_runs e) /\ match e with EXPR_SCATTER sc => defaults_run sc | _ => True end) /\
  (forall e, match e with Some_Expr e => expr_runs e | No_Expr => True end) /\ (forall args, args_run args /\ more_run args) /\
  (forall sc, defaults_run sc).
Proof.
  assert (NP : forall e, match e with EXPR_ID _ | EXPR_INDEX _ _ | EXPR_RANGE _ _ _ | Expr_Binary EXPR_PROP _ _ => False | _ => True end ->
    place_runs e /\ container_runs e).
  { intros e He. split; intros dollar es r es' Hr; exfalso; destruct e; try done; by destruct kind. }
  apply Expr_mutind.
  - intros v. split; [apply var_runs|]. split; [by apply NP|done].
  - intros i. split; [apply id_runs|]. split; [split; [apply place_id|apply container_id]|done].
  - intros k lhs (H1 & _) rhs (H2 & _). split; [by apply binary_runs|]. split; [|done].
    assert (Hk : k = EXPR_PROP \/ k <> EXPR_PROP) by (destruct k; auto). destruct Hk as [->|Hk]; [|apply NP; by destruct k].
    split; [by apply place_prop|by apply container_prop].
  - intros k e (H1 & _). split; [by apply unary_runs|]. split; [by apply NP|done].
  - intros lhs (H1 & _) rhs (H2 & _). split; [by apply and_runs|]. split; [by apply NP|done].
  - intros lhs (H1 & _) rhs (H2 & _). split; [by apply or_runs|]. split; [by apply NP|done].
  - intros lhs (H1 & (P1 & C1) & _) rhs (H2 & _). split; [by apply index_runs|]. split; [|done].
    split; [by apply place_index|by apply container_index].
  - intros base (H1 & (P1 & C1) & _) from (H2 & _) to (H3 & _). split; [by apply range_runs|]. split; [|done].
    split; [by apply place_range|]. by intros dollar es r es' Hr.
  - split; [apply length_runs|]. split; [by apply NP|done].
  - intros args [H1 _]. split; [exact H1|]. split; [by apply NP|done].
  - intros f args _. split; [by intros dollar es r es' Hr|]. split; [by apply NP|done].
  - intros obj _ verb _ args _. split; [by intros dollar es r es' Hr|]. split; [by apply NP|done].
  - intros c (H1 & _) a (H2 & _) b (H3 & _). split; [by apply cond_runs|]. split; [by apply NP|done].
  - intros lhs (H1 & (P1 & _) & S1) rhs (H2 & _). split; [|split; [by apply NP|done]].
    destruct lhs; try (by apply asgn_runs). by apply scatter_runs.
  - intros sc H1. split; [by intros dollar es r es' Hr|]. split; [by apply NP|done].
  - intros e _ codes _ except _. split; [by intros dollar es r es' Hr|]. split; [by apply NP|done].
  - done.
  - by intros e [H1 _].
  - split; [apply args_nil|apply more_nil].
  - intros kind e (H1 & _) args [H2 H3]. split; [by apply args_cons|by apply more_cons].
  - apply defaults_nil.
  - intros kind id expr H1 sc H2. by apply defaults_cons.
Qed.

Lemma compiled_expr_runs e : expr_runs e.
Proof. apply runs_all. Qed.

End Expr.
