(* ===== verification/Exec.v ===== *)
(** * What statements mean

    A reference semantics for statements without calls, forks and handlers of errors, on syntax
    trees; [VmStmt] shows that the interpreter does the same with their code.  Loops have fuel,
    one for every turn of a [while] loop or a loop over a range. *)

From S2P Require Import Prelude CStrings Values Lists Numbers Db Ast CodeGen CodeExpr EvalEnv Vm VmRun Eval.

Open Scope Z_scope.

#[local] Existing Instances ev_ret ev_bind.

(** How a statement ends: normally, by a return, or by leaving or continuing a loop, the
    innermost one if the name is -1. *)
Inductive completion := Falls | Returns (v : Var) | Exits (continue : bool) (id : Z).

Section Exec.
Context (debug : bool) (progr : Z) (pow : double -> double -> double * Z).

Definition then_ (c : completion) (next : ev completion) : ev completion :=
  match c with Falls => next | c => mret c end.

(** What a turn of the loop [id] that ended with [c] is followed by: another one, or the end of
    the loop. *)
Definition loop_ends (id : Z) (c : completion) : option completion :=
  match c with
  | Falls => None
  | Returns v => Some (Returns v)
  | Exits continue exit =>
      if decide (exit = -1 \/ exit = id) then if continue then None else Some Falls else Some (Exits continue exit)
  end.
Definition turn (id : Z) (c : completion) (again : ev completion) : ev completion :=
  match loop_ends id c with None => again | Some c => mret c end.

Definition name_loop (id : Z) (v : Var) : ev unit := if id =? -1 then mret tt else assign id v.

Fixpoint while_loop (fuel : nat) (id : Z) (condition : ev Var) (body : ev completion) : ev completion :=
  match fuel with
  | O => lift (Fail OutOfFuel)
  | S fuel =>
      v ← condition;
      _ ← name_loop id v;
      if is_true v then c ← body; turn id c (while_loop fuel id condition body) else mret Falls
  end.

Fixpoint list_loop (id : Z) (xs : list Var) (body : ev completion) : ev completion :=
  match xs with
  | [] => mret Falls
  | x :: xs => _ ← assign id x; c ← body; turn id c (list_loop id xs body)
  end.

(** The last turn may not increase the largest number. *)
Fixpoint range_loop (fuel : nat) (mk : Z -> Var) (max id from to : Z) (body : ev completion) : ev completion :=
  match fuel with
  | O => lift (Fail OutOfFuel)
  | S fuel =>
      if from >? to then mret Falls
      else
        _ ← assign id (mk from);
        c ← body;
        turn id c (if from <? max then range_loop fuel mk max id (from + 1) to body
                   else range_loop fuel mk max id from (wrap64 (to - 1)) body)
  end.

(** What cannot be gone through is an error, or nothing without the debug flag. *)
Definition no_loop : ev completion := fun s => Ok (if debug then inl E_TYPE else inr Falls, s).

Fixpoint exec (fuel : nat) (st : Stmt) : ev completion :=
  let eval e := eval debug progr pow e None in
  match st with
  | Stmt_Nil => mret Falls
  | STMT_COND arms otherwise next => c ← exec_arms fuel arms (exec fuel otherwise); then_ c (exec fuel next)
  | STMT_LIST id e body next =>
      v ← eval e;
      c ← match v with
          | List xs => if len xs <? MAXINT then list_loop id xs (exec fuel body) else lift (Fail Undefined)
          | _ => no_loop
          end;
      then_ c (exec fuel next)
  | STMT_RANGE id from to body next =>
      f ← eval from;
      t ← eval to;
      c ← match t, f with
          | Int t, Int f => range_loop fuel Int MAXINT id f t (exec fuel body)
          | Obj t, Obj f => range_loop fuel Obj MAXOBJ id f t (exec fuel body)
          | _, _ => no_loop
          end;
      then_ c (exec fuel next)
  | STMT_WHILE id c body next =>
      c ← while_loop fuel id (eval c) (exec fuel body); then_ c (exec fuel next)
  | STMT_EXPR e next => _ ← eval e; exec fuel next
  | STMT_RETURN No_Expr _ => mret (Returns zero_var)
  | STMT_RETURN (Some_Expr e) _ => v ← eval e; mret (Returns v)
  | STMT_BREAK exit _ => mret (Exits false exit)
  | STMT_CONTINUE exit _ => mret (Exits true exit)
  | STMT_FORK _ _ _ _ | STMT_TRY_EXCEPT _ _ _ | STMT_TRY_FINALLY _ _ _ => lift (Fail Undefined)
  end
with exec_arms (fuel : nat) (arms : Cond_Arm) (otherwise : ev completion) : ev completion :=
  match arms with
  | Arm_Nil => otherwise
  | Arm_Cons c st arms =>
      v ← eval debug progr pow c None; if is_true v then exec fuel st else exec_arms fuel arms otherwise
  end.

End Exec.
