(* ===== verification/VmStmt.v ===== *)
(** * Compiled statements do what statements mean (src/code_gen.c, src/execute.c)

    The code of statements on a machine, against [Exec.exec], and whole programs: what
    [generate_code] makes is run with the result that the reference semantics gives. *)

From S2P Require Import Prelude CStrings Values Lists Numbers Db Ast CodeGen CodeShape CodeExpr CodeLink CodeStmt EvalEnv Vm VmRun Eval Exec VmCode VmInstr VmExpr.

Open Scope Z_scope.

Section Stmt.
Context {Data Susp World : Type} `{H : Host Data Susp World} {M : Machine Data World}.

(** ** Places *)

Lemma handlers_start excepts targets p q k : handlers_at F excepts targets p q k -> code_at q -> code_at p.
Proof.
  destruct excepts, targets; try done; cbn [handlers_at]; [by intros ->|]. intros (p1 & C & _) _. unfold codes_at in C.
  apply nopop_code. destruct codes; [destruct C as (_ & Ho & _); by eapply nopop_intro|]. by eapply (proj1 (proj2 (proj2 starts_all))).
Qed.

Lemma stmt_starts :
  (forall st p q k ds, compiled_stmt F st p q k ds -> code_at q -> code_at p) /\
  (forall arms if_op p q e k ds, compiled_arms F if_op arms p q e k ds -> code_at q -> code_at p) /\ (forall e : Except_Arm, True).
Proof.
  apply Stmt_mutind; try done.
  - by intros p q k ds ->.
  - intros arms H1 otherwise H2 next H3 p q k ds (p1 & p2 & C1 & C2 & C3) Hq. by eapply H1, H2, H3.
  - intros id e body _ next _ p q k ds (p1 & p2 & C & _) _. by eapply nopop_code, start_at.
  - intros id from to body _ next _ p q k ds (p1 & p2 & p3 & C & _) _. by eapply nopop_code, start_at.
  - intros id c body _ next _ p q k ds (p1 & p2 & p3 & C & _) _. by eapply nopop_code, start_at.
  - intros id time body _ next _ p q k ds (p1 & p2 & i & bc & t & q' & C & _) _. by eapply nopop_code, start_at.
  - intros e next _ p q k ds (p1 & C & _) _. by eapply nopop_code, start_at.
  - intros [|e] next _ p q k ds (p1 & C & _) _; [destruct C as [Ho _]; by eexists|destruct C as [C _]]. by eapply nopop_code, start_at.
  - intros body _ excepts _ next _ p q k ds (p1 & p2 & p3 & ts & C1 & [C2 _] & _) _. eapply handlers_start; [exact C1|by eexists].
  - intros body _ handler _ next _ p q k ds (p1 & p2 & [C _] & _) _. by eexists.
  - intros exit next _ p q k ds (p1 & (p2 & d & C & _) & _) _. destruct (decide _); destruct C as [[C _] _]; by eexists.
  - intros exit next _ p q k ds (p1 & (p2 & d & C & _) & _) _. destruct (decide _); destruct C as [[C _] _]; by eexists.
  - by intros if_op p q e k ds ->.
  - intros c st _ arms _ if_op p q e k ds (p1 & p2 & C & _) _. by eapply nopop_code, start_at.
Qed.

Lemma stmt_start st p q k ds : compiled_stmt F st p q k ds -> code_at q -> code_at p.
Proof. apply stmt_starts. Qed.

(** ** Stacks and loops *)

(** Neither a handler nor a marker. *)
Definition plain (v : Var) : Prop := match v with Finally _ | Catch _ => False | _ => True end.

(** The lowest [n] values. *)
Definition lowest (n : nat) (stk : list Var) : list Var := drop (length stk - n) stk.

Lemma lowest_all stk : lowest (length stk) stk = stk.
Proof. unfold lowest. by rewrite Nat.sub_diag. Qed.
Lemma lowest_app stk' stk n : (n <= length stk)%nat -> lowest n (stk' ++ stk) = lowest n stk.
Proof.
  intros Hn. unfold lowest. rewrite length_app, drop_app. replace (length stk' + length stk - n)%nat with (length stk' + (length stk - n))%nat by lia.
  rewrite drop_ge by lia. cbn. f_equal. lia.
Qed.

Record frame_ok (n : nat) (d : loop_place) : Prop := {
  fr_top : code_at (lp_top d);
  fr_bottom : code_at (lp_bottom d);
  fr_stack : (lp_top_stack d <= n)%nat /\ (lp_bottom_stack d <= n)%nat }.
Record frames (ds : list loop_place) (stk : list Var) : Prop := {
  frs_ok : Forall (frame_ok (length stk)) ds;
  frs_plain : Forall plain stk }.

Lemma find_place_in id ds d : find_place id ds = Some d -> d ∈ ds.
Proof.
  unfold find_place. case_decide.
  - destruct ds; cbn; [done|]. intros [= ->]. by left.
  - intros ([i d'] & Hf & ->)%fmap_Some. apply list_find_Some in Hf as (Hd & _). by eapply list_elem_of_lookup_2.
Qed.

(** Leaving a loop. *)
Lemma unwind_exit goal stk : forall ext value code fuel, Forall plain (ext ++ stk) -> length stk = goal -> (length ext < fuel)%nat ->
  unwind_rt fuel FIN_EXIT value code goal (ext ++ stk) = Ok (At_goal stk).
Proof.
  induction ext as [|v ext IH]; intros value code [|fuel] Hp Hg Hf; try (cbn in Hf; lia).
  - cbn [app unwind_rt]. destruct stk; [done|]. destruct (Nat.leb_spec (length (v :: stk)) goal); [done|lia].
  - cbn [app unwind_rt]. destruct (Nat.leb_spec (length (v :: ext ++ stk)) goal); [cbn in *; rewrite length_app in *; lia|].
    apply Forall_cons in Hp as [Hv Hp]. cbn in Hf. destruct v; try done; by apply IH; [..|lia].
Qed.

Lemma run_unwind_exit n t pc stk es k : Forall plain stk -> (n <= length stk)%nat ->
  unwind FIN_EXIT (List [Int (Z.of_nat n); Int (Z.of_nat t)]) (conf_at pc stk es k) = Ok (Resumed, conf_at t (lowest n stk) es k).
Proof.
  intros Hp Hn. assert (E : unwind_rt (S (length stk)) FIN_EXIT (List [Int (Z.of_nat n); Int (Z.of_nat t)]) zero_var n stk =
    Ok (At_goal (lowest n stk))).
  { pose proof (take_drop (length stk - n) stk) as Hs. change (drop _ stk) with (lowest n stk) in Hs.
    pose proof (unwind_exit n (lowest n stk) (take (length stk - n) stk) (List [Int (Z.of_nat n); Int (Z.of_nat t)]) zero_var (S (length stk))) as E.
    rewrite Hs in E. apply E; [done|unfold lowest; rewrite length_drop; lia|rewrite length_take; lia]. }
  unfold unwind. rewrite Nat.add_comm. generalize (length (activ_stack (conf_at pc stk es k))). intros fuel.
  lazy beta iota zeta delta [unwind_stack Nat.add raise_code RUN_ACTIV conf_at activ_stack head deref exit_goal mbind res_bind rt_stack running].
  rewrite Nat2Z.id, E. cbn. by rewrite Nat2Z.id.
Qed.

Lemma do_exit continue exit p p1 ds stk es : exit_at F continue exit p p1 ds -> frames ds stk -> exists d, find_place exit ds = Some d /\
  goes None p stk es (if continue then lp_top d else lp_bottom d) (lowest (if continue then lp_top_stack d else lp_bottom_stack d) stk) es.
Proof.
  intros (p2 & d & Ho & Hd & Hr & Hl & _) [Hf Hp]. exists d. split; [done|].
  pose proof (proj1 (Forall_forall _ _) Hf d (find_place_in _ _ _ Hd)) as [Ht Hb Hs].
  set (n := if continue then lp_top_stack d else lp_bottom_stack d) in *. set (t := if continue then lp_top d else lp_bottom d) in *.
  assert (Hn : (n <= length stk)%nat) by (destruct continue; apply Hs).
  assert (Hlt : (t < here F)%nat) by (apply code_lt; destruct continue; done).
  assert (Hrun : forall k, eop_exit (conf p2 stk es k) = Ok (Next, conf t (lowest n stk) es k)).
  { intros k. unfold eop_exit. rewrite (bind_act _ _ _ _ _ (read_stack_conf _ _ _ _ _ Hr)). rewrite Nat.add_1_r in Hl.
    rewrite (bind_act _ _ _ _ _ (read_label_conf _ _ _ _ _ Hlt Hl)). unfold conf. by rewrite (bind_act _ _ _ _ _ (run_unwind_exit _ _ _ _ _ _ Hp Hn)). }
  apply goes_step. case_decide.
  - destruct Ho as [Ho ->]. eopcode Ho. replace (S (S p)) with (p + 2)%nat by lia. change (conf_at (loc (p + 2))) with (conf (p + 2)). apply Hrun.
  - destruct Ho as (Ho & Hv & ->). eopcode Ho. unfold eop_exit_id. replace (S (S p)) with (p + 2)%nat by lia.
    change (conf_at (loc (p + 2))) with (conf (p + 2)). rewrite (bind_act _ _ _ _ _ (skip_var_conf _ _ _ _ _ Hv)).
    replace (S (p + 2)) with (p + 3)%nat by lia. apply Hrun.
Qed.

(** ** How a statement ends *)

Abbreviation eval := (Eval.eval (a_debug a0) (a_progr a0) pow).
Abbreviation exec := (Exec.exec (a_debug a0) (a_progr a0) pow).
Abbreviation exec_arms := (Exec.exec_arms (a_debug a0) (a_progr a0) pow).

(** An instruction is reached that returns [v]. *)
Definition returns (p : nat) (st : list Var) (es : estate) (v : Var) (es' : estate) : Prop :=
  exists n, forall k, enough n k -> exists m st' pc k', rtc step_to (conf p st es k) m /\
    vm_step m = op_return v (conf_at pc st' es' k') /\ Forall plain st'.

(** From [p] with [st], to the end [q] with [stk], or out of one of the loops [ds]. *)
Definition ends (p : nat) (st : list Var) (es : estate) (q : nat) (stk : list Var) (ds : list loop_place) (r : error + completion)
    (es' : estate) : Prop :=
  match r with
  | inl err => raises None p st es err [] es'
  | inr Falls => goes None p st es q stk es'
  | inr (Returns v) => returns p st es v es'
  | inr (Exits continue exit) => exists d, find_place exit ds = Some d /\
      goes None p st es (if continue then lp_top d else lp_bottom d) (lowest (if continue then lp_top_stack d else lp_bottom_stack d) stk) es'
  end.

Lemma returns_trans p st es p1 st1 es1 v es' : goes None p st es p1 st1 es1 -> returns p1 st1 es1 v es' -> returns p st es v es'.
Proof.
  intros [n1 H1] [n2 H2]. exists (n1 + n2)%nat. intros k Hk.
  destruct (H1 k) as (k1 & Hs & Hl & _); [apply (enough_mono (n1 + n2)); [done|lia]|done|].
  destruct (H2 k1) as (m & st' & pc & k2 & Hs2 & Hr); [by eapply enough_left|]. exists m, st', pc, k2. by split; [etrans|].
Qed.

Lemma ends_trans p st es p1 st1 es1 q stk ds r es' : goes None p st es p1 st1 es1 -> ends p1 st1 es1 q stk ds r es' ->
  ends p st es q stk ds r es'.
Proof.
  intros Hg He. destruct r as [err|[|v|c id]]; cbn [ends] in *.
  - by eapply raises_trans.
  - by eapply goes_trans.
  - by eapply returns_trans.
  - destruct He as (d & Hd & He). exists d. split; [done|by eapply goes_trans].
Qed.

Lemma ends_raises p st es q stk ds err base es' : raises None p st es err base es' -> ends p st es q stk ds (inl err) es'.
Proof. intros Hr. cbn [ends]. apply (raises_below None _ _ _ _ base). by rewrite app_nil_r. Qed.

(** One part after another. *)
Lemma then_ends {p st es p1 q stk ds} r es1 (next : ev completion) r' es' : ends p st es p1 stk ds r es1 ->
  match r with inl e => r' = inl e /\ es' = es1 | inr c => then_ c next es1 = Ok (r', es') end ->
  (r = inr Falls -> next es1 = Ok (r', es') -> ends p1 stk es1 q stk ds r' es') -> ends p st es q stk ds r' es'.
Proof.
  intros He Hr Hn. destruct r as [err|[|v|c id]]; cbn [then_] in Hr.
  - destruct Hr as [-> ->]. exact He.
  - eapply ends_trans; [exact He|]. by apply Hn.
  - unfold mret, ev_ret in Hr. simplify_eq. exact He.
  - unfold mret, ev_ret in Hr. simplify_eq. exact He.
Qed.

(** ** Loops *)

Lemma find_place_own d ds exit : exit = -1 \/ exit = lp_id d -> find_place exit (d :: ds) = Some d.
Proof.
  intros He. unfold find_place. case_decide; [done|]. destruct He as [?|He]; [done|]. cbn. by rewrite decide_True.
Qed.
Lemma find_place_outer d ds exit : exit <> -1 -> exit <> lp_id d -> find_place exit (d :: ds) = find_place exit ds.
Proof.
  intros H1 H2. unfold find_place. rewrite !decide_False by done. cbn. rewrite decide_False by done.
  by destruct (list_find _ ds) as [[]|].
Qed.

Lemma frames_in ds stk exit d (b : bool) : frames ds stk -> find_place exit ds = Some d ->
  ((if b then lp_top_stack d else lp_bottom_stack d) <= length stk)%nat.
Proof.
  intros [Hf _] Hd%find_place_in. pose proof (proj1 (Forall_forall _ _) Hf d Hd) as [_ _ Hs]. destruct b; apply Hs.
Qed.

Lemma frames_cons d ds ex stk : frames ds stk -> Forall plain ex -> code_at (lp_top d) -> code_at (lp_bottom d) ->
  lp_top_stack d = length (ex ++ stk) -> lp_bottom_stack d = length stk -> frames (d :: ds) (ex ++ stk).
Proof.
  intros [Hf Hp] He Ht Hb H1 H2. split; [|by apply Forall_app].
  constructor; [split; [done..|]; rewrite H1, H2, length_app; lia|]. eapply Forall_impl; [exact Hf|]. cbn.
  intros d' [A B C]. split; [done..|]. rewrite length_app. lia.
Qed.

(** A turn of a loop that has the values [ex] on the stack. *)
Lemma turn_ends d ds ex stk pb st es p2 c es1 : ends pb st es p2 (ex ++ stk) (d :: ds) (inr c) es1 -> frames ds stk ->
  code_at (lp_top d) -> op_at F p2 OP_JUMP -> label_at F (S p2) (lp_top d) ->
  lp_top_stack d = length (ex ++ stk) -> lp_bottom_stack d = length stk ->
  match loop_ends (lp_id d) c with
  | None => goes None pb st es (lp_top d) (ex ++ stk) es1
  | Some c' => ends pb st es (lp_bottom d) stk ds (inr c') es1
  end.
Proof.
  intros He Hf Ht Ho Hl H1 H2. destruct c as [|v|continue exit]; cbn [ends loop_ends] in *; [|done|].
  - eapply goes_trans; [exact He|]. by apply do_jump.
  - destruct He as (d' & Hd & Hg). case_decide as Hx.
    + rewrite find_place_own in Hd by done. simplify_eq. destruct continue; cbn [ends]; rewrite ?H1, ?H2 in Hg.
      * by rewrite lowest_all in Hg.
      * by rewrite lowest_app, lowest_all in Hg by done.
    + rewrite find_place_outer in Hd by tauto. cbn [ends]. exists d'. split; [done|].
      by rewrite lowest_app in Hg by (by eapply frames_in).
Qed.

(** *** Their instructions *)

Lemma run_leave_loop t v w pc stk es k : leave_loop t (conf_at pc (v :: w :: stk) es k) = Ok (Next, conf_at t stk es k).
Proof. unfold leave_loop. by pops. Qed.

Lemma run_set_top w v pc stk es k : (length stk < max_stack F)%nat ->
  set_top w (conf_at pc (v :: stk) es k) = Ok (tt, conf_at pc (w :: stk) es k).
Proof. intros Hn. unfold set_top. pops. by apply push_conf. Qed.

Lemma run_set_next_top w u v pc stk es k : (S (length stk) < max_stack F)%nat ->
  set_next_top w (conf_at pc (u :: v :: stk) es k) = Ok (tt, conf_at pc (u :: w :: stk) es k).
Proof. intros Hn. unfold set_next_top. pops. rewrite (bind_act _ _ _ _ _ (push_conf pc w stk es k ltac:(lia))). by apply push_conf. Qed.

Section loops.
Context (p i t : nat) (stk : list Var) (es : estate).
Context (Hv : ref_at F (S p) FIXUP_VAR_REF i) (Hl : label_at F (S (S p)) t) (Ht : code_at t) (Hn : (S (length stk) < max_stack F)%nat).

(** After the operands of a loop are read. *)
Lemma loop_operands st es0 k (f : nat -> nat -> @act Data World next_step) :
  (id ← read_var_name; lab ← read_label; f id lab) (conf (S p) st es0 k) = f i (loc t) (conf (p + 3) st es0 k).
Proof using Hl Hn Ht Hv es stk.
  clear Hn stk es.
  rewrite (bind_act _ _ _ _ _ (read_var_conf _ _ _ _ _ Hv)), (bind_act _ _ _ _ _ (read_label_conf _ _ _ _ _ (code_lt _ Ht) Hl)).
  by replace (p + 3)%nat with (S (S (S p))) by lia.
Qed.

Lemma list_turn v n xs w : op_at F p OP_FOR_LIST -> 1 <= n < MAXINT -> xs !! Z.to_nat (n - 1) = Some v -> e_env es !! i = Some w ->
  goes None p (Int n :: List xs :: stk) es (p + 3) (Int (n + 1) :: List xs :: stk) (mkEstate (<[i := v]> (e_env es)) (e_db es)).
Proof using Hl Hn Ht Hv.
  intros Ho Hr Hx Hw. apply goes_step. opcode Ho. unfold op_for_list. change (conf_at (loc (S p))) with (conf (S p)).
  rewrite loop_operands. unfold conf. pops. rewrite (bind_act _ _ _ _ _ (lift_conf (num (Int n)) n _ eq_refl)).
  assert (Hlt : n <= len xs) by (apply lookup_lt_Some in Hx; unfold len; lia).
  destruct (Z.gtb_spec n (len xs)); [lia|]. destruct (Z.ltb_spec n 1); [lia|]. calc (proj2 (deref_Ok _ _) Hx).
  rewrite (bind_act _ _ _ _ _ (put_var_conf _ _ _ _ _ _ v Hw)). rewrite wrap64_id by (unfold int_range, MAXINT in *; lia).
  by rewrite (bind_act _ _ _ _ _ (run_set_top _ _ _ (List xs :: stk) _ _ Hn)).
Qed.

Lemma list_end n xs : op_at F p OP_FOR_LIST -> len xs < n -> goes None p (Int n :: List xs :: stk) es t stk es.
Proof using Hl Hn Ht Hv.
  intros Ho Hr. apply goes_step. opcode Ho. unfold op_for_list. change (conf_at (loc (S p))) with (conf (S p)).
  rewrite loop_operands. unfold conf. pops. rewrite (bind_act _ _ _ _ _ (lift_conf (num (Int n)) n _ eq_refl)).
  destruct (Z.gtb_spec n (len xs)); [|lia]. by apply run_leave_loop.
Qed.

(** Neither a list nor a range. *)
Definition no_loop_turn (op : Opcode) (u v : Var) : Prop := forall k,
  instr op (conf (S p) (u :: v :: stk) es k) = RAISE_ERROR E_TYPE (leave_loop (loc t)) (conf (p + 3) (u :: v :: stk) es k).

Lemma no_loop_ends op u v q ds r es' : op_at F p op -> no_loop_turn op u v -> no_loop (a_debug a0) es = Ok (r, es') ->
  q = t -> ends p (u :: v :: stk) es q stk ds r es'.
Proof using.
  clear Hv Hl Ht Hn. intros Ho Hi Hr ->. unfold no_loop in Hr. destruct (a_debug a0) eqn:Hd; injection Hr as <- <-.
  - apply (ends_raises _ _ _ _ _ _ _ (u :: v :: stk)). split; [done|]. exists 1%nat. intros k Hk _.
    exists (conf p (u :: v :: stk) es k), [], (loc (p + 3)), (fetched op p k). split; [apply rtc_refl|]. split; [|apply left_fetched].
    rewrite (step_op _ _ _ _ _ Ho Hk), Hi. unfold PUSH_ERROR, RAISE_ERROR, conf. rewrite !(bind_act _ _ _ _ _ (run_activ_conf _ _ _ _)).
    cbn [a_debug running app]. by rewrite Hd.
  - cbn [ends]. apply goes_step. intros k Hk. eexists (fetched op p k). split; [|split; [apply left_fetched|done]].
    rewrite (step_op _ _ _ _ _ Ho Hk), Hi. unfold RAISE_ERROR, conf. rewrite (bind_act _ _ _ _ _ (run_activ_conf _ _ _ _)).
    cbn [a_debug running]. rewrite Hd. apply run_leave_loop.
Qed.

Lemma list_no_turn u v : op_at F p OP_FOR_LIST -> match v with List _ => False | _ => True end -> no_loop_turn OP_FOR_LIST u v.
Proof using Hl Hn Ht Hv.
  intros Ho Hx k. cbn [instr]. unfold op_for_list. rewrite loop_operands. unfold conf. pops. by destruct v.
Qed.

Lemma range_no_turn u v : op_at F p OP_FOR_RANGE -> match u, v with Int _, Int _ | Obj _, Obj _ => False | _, _ => True end ->
  no_loop_turn OP_FOR_RANGE u v.
Proof using Hl Hn Ht Hv.
  intros Ho Hx k. cbn [instr]. unfold op_for_range. rewrite loop_operands. unfold conf. pops. by destruct u, v.
Qed.

Section ranges.
Context (mk : Z -> Var) (max : Z) (Ho : op_at F p OP_FOR_RANGE).
Context (Hmk : (mk = Int /\ max = MAXINT) \/ (mk = Obj /\ max = MAXOBJ)).

Lemma range_operands from to k :
  instr OP_FOR_RANGE (conf (S p) (mk to :: mk from :: stk) es k) = range_turn mk max from to i (loc t) (conf (p + 3) (mk to :: mk from :: stk) es k).
Proof using Hl Hmk Hn Ht Hv.
  cbn [instr]. unfold op_for_range. rewrite loop_operands. unfold conf. destruct Hmk as [[-> ->]|[-> ->]]; by pops.
Qed.

Lemma range_turn_goes from to w : from <= to -> e_env es !! i = Some w ->
  goes None p (mk to :: mk from :: stk) es (p + 3)
    (if from <? max then mk to :: mk (from + 1) :: stk else mk (wrap64 (to - 1)) :: mk from :: stk)
    (mkEstate (<[i := mk from]> (e_env es)) (e_db es)).
Proof using Hl Hmk Hn Ho Ht Hv.
  intros Hle Hw. apply goes_step. intros k Hk. eexists (fetched OP_FOR_RANGE p k). split; [|split; [apply left_fetched|done]].
  rewrite (step_op _ _ _ _ _ Ho Hk), range_operands. unfold range_turn, conf. destruct (Z.gtb_spec from to); [lia|].
  rewrite (bind_act _ _ _ _ _ (put_var_conf _ _ _ _ _ _ (mk from) Hw)). destruct (from <? max).
  - by rewrite (bind_act _ _ _ _ _ (run_set_next_top _ _ _ _ _ _ _ Hn)).
  - by rewrite (bind_act _ _ _ _ _ (run_set_top _ _ _ (mk from :: stk) _ _ Hn)).
Qed.

Lemma range_end from to : to < from -> goes None p (mk to :: mk from :: stk) es t stk es.
Proof using Hl Hmk Hn Ho Ht Hv.
  intros Hlt. apply goes_step. intros k Hk. eexists (fetched OP_FOR_RANGE p k). split; [|split; [apply left_fetched|done]].
  rewrite (step_op _ _ _ _ _ Ho Hk), range_operands. unfold range_turn. destruct (Z.gtb_spec from to); [|lia]. apply run_leave_loop.
Qed.

End ranges.

End loops.

(** The test of a [while] loop. *)
Lemma do_while id p p2 t v stk es r es' : (length stk < max_stack F)%nat ->
  (if id =? -1 then op_at F p OP_WHILE /\ p2 = (p + 1)%nat
   else eop_at F p EOP_WHILE_ID /\ ref_at F (p + 2) FIXUP_VAR_REF (Z.to_nat id) /\ p2 = (p + 3)%nat) ->
  label_at F p2 t -> code_at t -> name_loop id v es = Ok (r, es') ->
  r = inr tt /\ goes None p (v :: stk) es (if is_true v then S p2 else t) stk es'.
Proof.
  intros Hn Ho Hl Ht Hr. unfold name_loop in Hr. destruct (id =? -1).
  - destruct Ho as [Ho ->]. unfold mret, ev_ret in Hr. simplify_eq. split; [done|]. rewrite Nat.add_1_r in *. by apply (do_test_op _ _ _ _ OP_WHILE).
  - destruct Ho as (Ho & Hv & ->). apply assign_Ok in Hr as (w & Hw & -> & ->). split; [done|]. pose proof (code_lt _ Ht) as Hlt.
    apply goes_step. eopcode Ho. unfold eop_while_id. replace (S (S p)) with (p + 2)%nat by lia. change (conf_at (loc (p + 2))) with (conf (p + 2)).
    rewrite (bind_act _ _ _ _ _ (read_var_conf _ _ _ _ _ Hv)). replace (S (p + 2)) with (p + 3)%nat by lia. unfold conf. pops.
    rewrite (bind_act _ _ _ _ _ (put_var_conf _ _ _ _ _ _ v Hw)). unfold do_test. pops. change (conf_at (loc (p + 3))) with (conf (p + 3)).
    destruct (is_true v).
    + by rewrite (bind_act _ _ _ _ _ (skip_label_conf _ _ _ _ _ Hlt Hl)).
    + by rewrite (bind_act _ _ _ _ _ (read_label_conf _ _ _ _ _ Hlt Hl)).
Qed.

(** *** All their turns *)

Definition body_runs (body : ev completion) pb p2 stk ds : Prop := forall es r es', body es = Ok (r, es') -> ends pb stk es p2 stk ds r es'.

Section turns.
Context (d : loop_place) (ds : list loop_place) (stk : list Var) (body : ev completion) (pb p2 : nat).
Context (Hf : frames ds stk) (Htop : code_at (lp_top d)) (Hbot : code_at (lp_bottom d)).
Context (Ho : op_at F p2 OP_JUMP) (Hl : label_at F (S p2) (lp_top d)) (Hb : lp_bottom_stack d = length stk).

(** The body, with the values [ex] of the loop, and then either the next turn or the end. *)
Lemma body_turn ex again es r1 es1 r es' : body_runs body pb p2 (ex ++ stk) (d :: ds) -> lp_top_stack d = length (ex ++ stk) ->
  body es = Ok (r1, es1) -> match r1 with inl e => r = inl e /\ es' = es1 | inr c => turn (lp_id d) c again es1 = Ok (r, es') end ->
  (again es1 = Ok (r, es') -> ends (lp_top d) (ex ++ stk) es1 (lp_bottom d) stk ds r es') ->
  ends pb (ex ++ stk) es (lp_bottom d) stk ds r es'.
Proof using Hb Hf Hl Ho Htop.
  intros Hrun Hs He Hr Ha. apply Hrun in He. destruct r1 as [err|c].
  - destruct Hr as [-> ->]. exact He.
  - pose proof (turn_ends _ _ _ _ _ _ _ _ _ _ He Hf Htop Ho Hl Hs Hb) as Ht. unfold turn in Hr. destruct (loop_ends (lp_id d) c).
    + unfold mret, ev_ret in Hr. by simplify_eq.
    + eapply ends_trans; [exact Ht|]. by apply Ha.
Qed.

Lemma list_loop_ends xs : op_at F (lp_top d) OP_FOR_LIST -> ref_at F (S (lp_top d)) FIXUP_VAR_REF (Z.to_nat (lp_id d)) ->
  label_at F (S (S (lp_top d))) (lp_bottom d) -> (S (length stk) < max_stack F)%nat -> pb = (lp_top d + 3)%nat ->
  lp_top_stack d = S (S (length stk)) -> len xs < MAXINT ->
  (forall n, body_runs body pb p2 (Int n :: List xs :: stk) (d :: ds)) ->
  forall todo done es r es', xs = done ++ todo -> list_loop (lp_id d) todo body es = Ok (r, es') ->
  ends (lp_top d) (Int (len done + 1) :: List xs :: stk) es (lp_bottom d) stk ds r es'.
Proof using Hb Hbot Hf Hl Ho Htop.
  intros Hop Hv Hlab Hn Hpb Hs Hlen Hrun. induction todo as [|x todo IH]; intros seen es r es' Hx Hr; cbn [list_loop] in Hr.
  - unfold mret, ev_ret in Hr. simplify_eq. rewrite app_nil_r. cbn [ends]. eapply list_end; try done. lia.
  - apply ev_bind_Ok in Hr as (r0 & es0 & (w & Hw & -> & ->)%assign_Ok & Hr). apply ev_bind_Ok in Hr as (r1 & es1 & He & Hr).
    assert (Hlt : 0 <= len seen < len xs) by (subst xs; unfold len; rewrite length_app; cbn; lia).
    eapply ends_trans; [eapply (list_turn _ _ _ _ _ Hv Hlab Hbot Hn x); [done|lia| |exact Hw]|].
    { replace (len seen + 1 - 1) with (len seen) by lia. unfold len. rewrite Nat2Z.id, Hx. by apply list_lookup_middle. }
    rewrite <- Hpb. apply (body_turn [Int _; List xs] (list_loop (lp_id d) todo body) _ r1 es1); [apply Hrun|done|done|done|].
    intros Ha. replace (len seen + 1 + 1) with (len (seen ++ [x]) + 1) by (unfold len; rewrite length_app; cbn; lia).
    apply IH; [by rewrite <- app_assoc|done].
Qed.

Lemma range_loop_ends (mk : Z -> Var) max : (mk = Int /\ max = MAXINT) \/ (mk = Obj /\ max = MAXOBJ) ->
  op_at F (lp_top d) OP_FOR_RANGE -> ref_at F (S (lp_top d)) FIXUP_VAR_REF (Z.to_nat (lp_id d)) ->
  label_at F (S (S (lp_top d))) (lp_bottom d) -> (S (length stk) < max_stack F)%nat -> pb = (lp_top d + 3)%nat ->
  lp_top_stack d = S (S (length stk)) -> (forall from to, body_runs body pb p2 (mk to :: mk from :: stk) (d :: ds)) ->
  forall fuel from to es r es', range_loop fuel mk max (lp_id d) from to body es = Ok (r, es') ->
  ends (lp_top d) (mk to :: mk from :: stk) es (lp_bottom d) stk ds r es'.
Proof using Hb Hbot Hf Hl Ho Htop.
  intros Hmk Hop Hv Hlab Hn Hpb Hs Hrun. induction fuel as [|fuel IH]; intros from to es r es' Hr; cbn [range_loop] in Hr; [done|].
  destruct (Z.gtb_spec from to).
  - unfold mret, ev_ret in Hr. simplify_eq. cbn [ends]. by eapply range_end.
  - apply ev_bind_Ok in Hr as (r0 & es0 & (w & Hw & -> & ->)%assign_Ok & Hr). apply ev_bind_Ok in Hr as (r1 & es1 & He & Hr).
    eapply ends_trans; [by eapply (range_turn_goes _ _ _ _ _ Hv Hlab Hbot Hn mk max Hop Hmk)|]. rewrite <- Hpb. destruct (from <? max).
    + by eapply (body_turn [mk to; mk (from + 1)]); [apply Hrun| | | |intros Ha; by apply IH].
    + by eapply (body_turn [mk (wrap64 (to - 1)); mk from]); [apply Hrun| | | |intros Ha; by apply IH].
Qed.

Lemma while_loop_ends (condition : ev Var) p1 p1' : (length stk < max_stack F)%nat -> lp_top_stack d = length stk ->
  (forall es r es', condition es = Ok (r, es') -> match r with
     | inr v => goes None (lp_top d) stk es p1 (v :: stk) es'
     | inl e => raises None (lp_top d) stk es e stk es' end) ->
  (if lp_id d =? -1 then op_at F p1 OP_WHILE /\ p1' = (p1 + 1)%nat
   else eop_at F p1 EOP_WHILE_ID /\ ref_at F (p1 + 2) FIXUP_VAR_REF (Z.to_nat (lp_id d)) /\ p1' = (p1 + 3)%nat) ->
  label_at F p1' (lp_bottom d) -> pb = S p1' -> body_runs body pb p2 stk (d :: ds) ->
  forall fuel es r es', while_loop fuel (lp_id d) condition body es = Ok (r, es') ->
  ends (lp_top d) stk es (lp_bottom d) stk ds r es'.
Proof using Hb Hbot Hf Hl Ho Htop.
  intros Hn Hs Hc Hw Hlab Hpb Hrun. induction fuel as [|fuel IH]; intros es r es' Hr; cbn [while_loop] in Hr; [done|].
  apply ev_bind_Ok in Hr as (r1 & es1 & E1%Hc & Hr). destruct r1 as [err|v]; [destruct Hr as [-> ->]; by eapply ends_raises|].
  apply ev_bind_Ok in Hr as (r2 & es2 & E2 & Hr). destruct (do_while _ _ _ _ v _ _ _ _ Hn Hw Hlab Hbot E2) as [-> G].
  eapply ends_trans; [exact E1|]. eapply ends_trans; [exact G|]. rewrite <- Hpb. destruct (is_true v).
  - apply ev_bind_Ok in Hr as (r3 & es3 & E3 & Hr). by eapply (body_turn []); [apply Hrun| | | |intros Ha; by apply IH].
  - unfold mret, ev_ret in Hr. simplify_eq. apply goes_refl.
Qed.

End turns.

(** ** Statements *)

Definition stmt_runs (st : Stmt) : Prop := forall fuel es r es', exec fuel st es = Ok (r, es') ->
  forall p q stk ds, compiled_stmt F st p q (length stk) ds -> frames ds stk -> code_at q -> ends p stk es q stk ds r es'.
Definition arms_run (arms : Cond_Arm) : Prop := forall fuel otherwise es r es', exec_arms fuel arms otherwise es = Ok (r, es') ->
  forall if_op p q e stk ds, instr if_op = do_test -> compiled_arms F if_op arms p q e (length stk) ds -> frames ds stk ->
  code_at q -> code_at e -> body_runs otherwise q e stk ds -> if_op <> OP_POP -> ends p stk es e stk ds r es'.

(** The value of an expression, where it is not thrown away. *)
Lemma expr_value e es r es' p q stk : eval e None es = Ok (r, es') -> compiled F e p q None (length stk) -> nopop_at q ->
  match r with inr v => goes None p stk es q (v :: stk) es' | inl err => raises None p stk es err stk es' end.
Proof.
  intros He Hc Hq. pose proof (compiled_expr_runs e None es r es' He p q None stk Hc ltac:(by intros ?) (nopop_code _ Hq)) as D.
  destruct r; [done|]. by apply delivers_on.
Qed.

Lemma nil_runs : stmt_runs Stmt_Nil.
Proof. intros fuel es r es' Hr p q stk ds -> _ _. cbn in Hr. unfold mret, ev_ret in Hr. simplify_eq. apply goes_refl. Qed.

Lemma expr_stmt_runs e next : stmt_runs next -> stmt_runs (STMT_EXPR e next).
Proof.
  intros IH fuel es r es' Hr p q stk ds (p1 & Hc & Ho & Hn) Hf Hq. rewrite Nat.add_1_r in Hn.
  apply ev_bind_Ok in Hr as (r1 & es1 & He & Hr).
  pose proof (compiled_expr_runs e None es r1 es1 He p p1 None stk Hc ltac:(by intros ?) ltac:(by eexists)) as D.
  destruct r1 as [err|v]; [destruct Hr as [-> ->]; by eapply ends_raises|].
  eapply ends_trans; [|by eapply IH]. destruct D as [D|[_ D]]; [|done]. eapply goes_trans; [exact D|]. by apply do_pop.
Qed.

Lemma returns_zero p stk es : op_at F p OP_RETURN0 -> Forall plain stk -> returns p stk es zero_var es.
Proof.
  intros Ho Hp. exists 1%nat. intros k Hk. exists (conf p stk es k), stk, (loc (S p)), (fetched OP_RETURN0 p k).
  split; [apply rtc_refl|]. split; [by rewrite (step_op _ _ _ _ _ Ho Hk)|done].
Qed.
Lemma returns_value p v stk es : op_at F p OP_RETURN -> Forall plain stk -> returns p (v :: stk) es v es.
Proof.
  intros Ho Hp. exists 1%nat. intros k Hk. exists (conf p (v :: stk) es k), stk, (loc (S p)), (fetched OP_RETURN p k).
  split; [apply rtc_refl|]. split; [|done]. rewrite (step_op _ _ _ _ _ Ho Hk). cbn [instr]. unfold conf. by pops.
Qed.

Lemma return_runs e next : stmt_runs (STMT_RETURN e next).
Proof.
  intros fuel es r es' Hr p q stk ds (p1 & Hc & Hn) Hf Hq. destruct e as [|e].
  - destruct Hc as [Ho ->]. cbn in Hr. unfold mret, ev_ret in Hr. simplify_eq. by apply returns_zero, Hf.
  - destruct Hc as [Hc Ho]. apply ev_bind_Ok in Hr as (r1 & es1 & He & Hr).
    pose proof (expr_value e es r1 es1 p p1 stk He Hc ltac:(by eexists)) as D.
    destruct r1 as [err|v]; [destruct Hr as [-> ->]; by eapply ends_raises|].
    unfold mret, ev_ret in Hr. simplify_eq. eapply ends_trans; [exact D|]. by apply returns_value, Hf.
Qed.

Lemma exit_runs (continue : bool) exit next : stmt_runs (if continue then STMT_CONTINUE exit next else STMT_BREAK exit next).
Proof.
  intros fuel es r es' Hr p q stk ds Hc Hf Hq.
  assert (Hx : exists p1, exit_at F continue exit p p1 ds) by (destruct continue, Hc as (p1 & Hc & _); eauto). destruct Hx as [p1 Hx].
  assert (r = inr (Exits continue exit) /\ es' = es) as [-> ->] by (destruct continue; cbn in Hr; unfold mret, ev_ret in Hr; by simplify_eq).
  cbn [ends]. by eapply do_exit.
Qed.

Lemma arms_nil_run : arms_run Arm_Nil.
Proof. intros fuel otherwise es r es' Hr if_op p q e stk ds _ -> Hf Hq He Ho _. by apply Ho. Qed.

Lemma arms_cons_run c st arms : stmt_runs st -> arms_run arms -> arms_run (Arm_Cons c st arms).
Proof.
  intros H1 H2 fuel otherwise es r es' Hr if_op p q e stk ds Hi (p1 & p2 & C1 & Ho & Hl & C2 & Hj & Hje & C3) Hf Hq He Hot Hne.
  rewrite plus2 in *. rewrite Nat.add_1_r in *. assert (Hp2 : code_at (S (S p2))) by (by eapply (proj1 (proj2 stmt_starts))).
  apply ev_bind_Ok in Hr as (r1 & es1 & E & Hr). pose proof (expr_value c es r1 es1 p p1 stk E C1 ltac:(by eexists)) as D.
  destruct r1 as [err|v]; [destruct Hr as [-> ->]; by eapply ends_raises|]. eapply ends_trans; [exact D|].
  pose proof (room _ _ _ _ _ C1) as Hn. eapply ends_trans; [by eapply (do_test_op None p1 stk es1 if_op)|]. destruct (is_true v).
  - pose proof (H1 _ _ _ _ Hr _ _ _ _ C2 Hf ltac:(by eexists)) as Hs. destruct r as [err|[]]; try exact Hs.
    eapply goes_trans; [exact Hs|]. by apply do_jump.
  - by eapply (H2 _ _ _ _ _ Hr OP_EIF).
Qed.

Lemma cond_stmt_runs arms otherwise next : arms_run arms -> stmt_runs otherwise -> stmt_runs next -> stmt_runs (STMT_COND arms otherwise next).
Proof.
  intros H1 H2 H3 fuel es r es' Hr p q stk ds (p1 & p2 & C1 & C2 & C3) Hf Hq.
  assert (Hp2 : code_at p2) by (by eapply stmt_start). assert (Hp1 : code_at p1) by (by eapply stmt_start).
  apply ev_bind_Ok in Hr as (r1 & es1 & E & Hr). eapply then_ends; [|exact Hr|].
  - eapply (H1 _ _ _ _ _ E OP_IF p p1 p2); try done. intros ? ? ? ?. by eapply H2.
  - intros _ Hn. by eapply H3.
Qed.

Lemma list_stmt_runs id e body next : stmt_runs body -> stmt_runs next -> stmt_runs (STMT_LIST id e body next).
Proof.
  intros H1 H2 fuel es r es' Hr p q stk ds (p1 & p2 & C1 & Hone & Hroom & Ho & Hv & Hl & C2 & Hj & Hjl & C3) Hf Hq.
  rewrite plus2 in *. rewrite !Nat.add_1_r in *. rewrite plus3 in Hl. rewrite !plus2 in *.
  assert (Hb : code_at (S (S p2))) by (by eapply stmt_start). set (d := mkLoop_place id (S p1) (S (S (length stk))) (S (S p2)) (length stk)) in *.
  assert (Hd : forall ex, Forall plain ex -> length ex = 2%nat -> frames (d :: ds) (ex ++ stk)).
  { intros ex He Hx. apply frames_cons; try done; [by eexists|]. cbn. rewrite length_app. lia. }
  apply ev_bind_Ok in Hr as (r1 & es1 & E & Hr).
  pose proof (expr_value e es r1 es1 p p1 stk E C1 ltac:(by eexists)) as D.
  destruct r1 as [err|v]; [destruct Hr as [-> ->]; by eapply ends_raises|]. eapply ends_trans; [exact D|].
  eapply (ends_trans _ _ _ (S p1) (Int 1 :: v :: stk)).
  { apply pushes_value; [|cbn; lia]. by opcode Hone. }
  apply ev_bind_Ok in Hr as (r2 & es2 & E2 & Hr). apply (then_ends r2 es2 (exec fuel next) _ _ (p1 := S (S p2))); [|exact Hr|intros _ Hn; by eapply H2].
  assert (Hbad : match v with List _ => False | _ => True end -> no_loop (a_debug a0) es1 = Ok (r2, es2) ->
    ends (S p1) (Int 1 :: v :: stk) es1 (S (S p2)) stk ds r2 es2).
  { intros Hx Hr2. eapply (no_loop_ends _ (S (S p2)) _ _ OP_FOR_LIST); [done| |exact Hr2|done]. by eapply list_no_turn. }
  destruct v; try (by apply Hbad). clear Hbad. destruct (Z.ltb_spec (len list) MAXINT); [|done].
  apply (list_loop_ends d ds stk (exec fuel body) (p1 + 4) p2 Hf ltac:(by eexists) Hb Hj Hjl eq_refl list Ho Hv Hl ltac:(lia)
    ltac:(cbn; lia) eq_refl ltac:(done)) with (todo := list) (done := []); [|done|done].
  intros n es0 r0 es0' He. eapply H1; [exact He|exact C2| |by eexists].
  apply (Hd [Int n; List list]); [|done]. by repeat constructor.
Qed.

Lemma range_stmt_runs id from to body next : stmt_runs body -> stmt_runs next -> stmt_runs (STMT_RANGE id from to body next).
Proof.
  intros H1 H2 fuel es r es' Hr p q stk ds (p1 & p2 & p3 & C1 & C2 & Ho & Hv & Hl & C3 & Hj & Hjl & C4) Hf Hq.
  rewrite plus2 in *. rewrite !Nat.add_1_r in *. rewrite !plus2 in *.
  assert (Hb : code_at (S (S p3))) by (by eapply stmt_start). set (d := mkLoop_place id p2 (S (S (length stk))) (S (S p3)) (length stk)) in *.
  assert (Hd : forall ex, Forall plain ex -> length ex = 2%nat -> frames (d :: ds) (ex ++ stk)).
  { intros ex He Hx. apply frames_cons; try done; [by eexists|]. cbn. rewrite length_app. lia. }
  pose proof (room _ _ _ _ _ C2) as Hn.
  apply ev_bind_Ok in Hr as (r1 & es1 & E & Hr).
  pose proof (expr_value from es r1 es1 p p1 stk E C1 ltac:(by eapply start_at)) as D.
  destruct r1 as [err|f]; [destruct Hr as [-> ->]; by eapply ends_raises|]. eapply ends_trans; [exact D|]. clear D E.
  apply ev_bind_Ok in Hr as (r2 & es2 & E & Hr).
  pose proof (expr_value to es1 r2 es2 p1 p2 (f :: stk) E C2 ltac:(by eexists)) as D.
  destruct r2 as [err|t]; [destruct Hr as [-> ->]; by eapply ends_raises|]. eapply ends_trans; [exact D|]. clear D E.
  apply ev_bind_Ok in Hr as (r3 & es3 & E & Hr). apply (then_ends r3 es3 (exec fuel next) _ _ (p1 := S (S p3))); [|exact Hr|intros _ Hx; by eapply H2].
  assert (Hbad : match t, f with Int _, Int _ | Obj _, Obj _ => False | _, _ => True end -> no_loop (a_debug a0) es2 = Ok (r3, es3) ->
    ends p2 (t :: f :: stk) es2 (S (S p3)) stk ds r3 es3).
  { intros Hx Hr2. eapply (no_loop_ends _ (S (S p3)) _ _ OP_FOR_RANGE); [done| |exact Hr2|done]. by eapply range_no_turn. }
  assert (Hok : forall mk max f' t', (mk = Int /\ max = MAXINT) \/ (mk = Obj /\ max = MAXOBJ) ->
    range_loop fuel mk max id f' t' (exec fuel body) es2 = Ok (r3, es3) ->
    ends p2 (mk t' :: mk f' :: stk) es2 (S (S p3)) stk ds r3 es3).
  { intros mk max f' t' Hmk Hr3.
    apply (range_loop_ends d ds stk (exec fuel body) (p2 + 3) p3 Hf ltac:(by eexists) Hb Hj Hjl eq_refl mk max Hmk Ho Hv Hl Hn eq_refl eq_refl)
      with (fuel := fuel); [|done].
    intros f0 t0 es0 r0 es0' He. eapply H1; [exact He|exact C3| |by eexists]. apply (Hd [mk t0; mk f0]); [|done].
    by destruct Hmk as [[-> _]|[-> _]]; repeat constructor. }
  destruct t, f; try (by apply Hbad); (eapply Hok; [|exact E]); auto.
Qed.

Lemma while_stmt_runs id c body next : stmt_runs body -> stmt_runs next -> stmt_runs (STMT_WHILE id c body next).
Proof.
  intros H1 H2 fuel es r es' Hr p q stk ds (p1 & p2 & p3 & C1 & Hw & Hl & C2 & Hj & Hjl & C3) Hf Hq.
  rewrite !Nat.add_1_r in *. rewrite !plus2 in *. pose proof (room _ _ _ _ _ C1) as Hn.
  assert (Hb : code_at (S (S p3))) by (by eapply stmt_start). assert (Ht : code_at p) by (by eapply nopop_code, start_at).
  set (d := mkLoop_place id p (length stk) (S (S p3)) (length stk)) in *.
  apply ev_bind_Ok in Hr as (r1 & es1 & E & Hr). apply (then_ends r1 es1 (exec fuel next) _ _ (p1 := S (S p3))); [|exact Hr|intros _ Hx; by eapply H2].
  apply (while_loop_ends d ds stk (exec fuel body) (S p2) p3 Hf Ht Hb Hj Hjl eq_refl (eval c None) p1 p2 Hn eq_refl) with (fuel := fuel);
    [| |exact Hl|done| |exact E].
  - intros es0 r0 es0' He. eapply expr_value; [exact He|exact C1|]. destruct (id =? -1); destruct Hw as [Hw _]; [by eexists|].
    destruct Hw as [Hw _]. by eexists.
  - cbn [lp_id d]. rewrite plus2, Nat.add_1_r. exact Hw.
  - intros es0 r0 es0' He. eapply H1; [exact He|exact C2| |by eexists]. by apply (frames_cons d ds []).
Qed.

(** Every statement. *)
Lemma runs_stmts : (forall st, stmt_runs st) /\ (forall arms, arms_run arms) /\ (forall e : Except_Arm, True).
Proof.
  apply Stmt_mutind; try done.
  - apply nil_runs.
  - intros arms H1 otherwise H2 next H3. by apply cond_stmt_runs.
  - intros id e body H1 next H2. by apply list_stmt_runs.
  - intros id from to body H1 next H2. by apply range_stmt_runs.
  - intros id c body H1 next H2. by apply while_stmt_runs.
  - intros e next H1. by apply expr_stmt_runs.
  - intros e next _. apply return_runs.
  - intros exit next _. apply (exit_runs false).
  - intros exit next _. apply (exit_runs true).
  - apply arms_nil_run.
  - intros c st H1 arms H2. by apply arms_cons_run.
Qed.

End Stmt.
