(* ===== verification/VmProgram.v ===== *)
(** * Compiled programs (src/code_gen.c, src/execute.c)

    What [generate_code] makes of a program is run by the interpreter with the result that the
    reference semantics gives. *)

From S2P Require Import Prelude CStrings Values Db Ast CodeGen CodeShape CodeExpr CodeLink CodeStmt EvalEnv Vm VmRun Eval Exec VmCode VmInstr VmExpr VmStmt Sample.

Open Scope Z_scope.

(** The generator when all of a program is generated. *)
Definition code_state (body : Stmt) : res State :=
  '(_, s) ← (_ ← generate_stmt body; emit_op OP_DONE) (init_state init_gstate); Ok s.

(** What a program that ends like this returns. *)
Definition result_of (c : completion) : Var := match c with Returns v => v | _ => zero_var end.

Section Loop.
Context {Data Susp World : Type} `{H : Host Data Susp World}.

(** The running activation, the only one, is about to execute the program. *)
Record starts_program (prog : Program) (a : activation Data) (m : vm Data World) : Prop := {
  sp_activ : activ_stack m = [a];
  sp_root : root_activ_vector m = None;
  sp_time : task_timed_out m = false;
  sp_prog : a_prog a = prog;
  sp_pc : a_pc a = 0%nat;
  sp_stack : rt_stack a = [];
  sp_size : rt_stack_size a = bc_max_stack (main_vector prog) }.

Lemma run_reaches m m1 o r m2 : rtc (fun m m' => vm_step m = Ok (Next, m')) m m1 -> vm_step m1 = Ok (Stop o r, m2) ->
  exists fuel, run_loop fuel m = Ok ((o, r), m2).
Proof.
  intros Hs Hr. induction Hs as [m|m m' m1 Hs _ IH].
  - exists 1%nat. cbn [run_loop]. by rewrite Hr.
  - destruct (IH Hr) as [fuel Hf]. exists (S fuel). cbn [run_loop]. by rewrite Hs.
Qed.

(** Nothing on the stack stops a return. *)
Lemma unwind_return value code st : forall fuel, Forall plain st -> (length st < fuel)%nat ->
  unwind_rt fuel FIN_RETURN value code 0 st = Ok (At_goal []).
Proof.
  induction st as [|v st IH]; intros [|fuel] Hp Hf; cbn in Hf; try lia; [done|]. apply Forall_cons in Hp as [Hv Hp].
  cbn [unwind_rt length Nat.leb]. destruct v; try done; apply IH; (done || lia).
Qed.

End Loop.

Section Single.
Context {Data Susp World : Type} `{H : Host Data Susp World} {M : Machine Data World}.
Context (Hacts : acts = []).

Lemma return_stops v pc st es k : Forall plain st ->
  op_return v (conf_at pc st es k) = Ok (Stop OUTCOME_DONE (Some v), conf_at pc [] es k).
Proof using Hacts.
  intros Hp. unfold op_return. enough (E : unwind FIN_RETURN v (conf_at pc st es k) = Ok (Unwound OUTCOME_DONE, conf_at pc [] es k))
    by by rewrite (bind_act _ _ _ _ _ E).
  unfold unwind. rewrite Nat.add_comm. cbn [Nat.add unwind_stack raise_code exit_goal mbind res_bind RUN_ACTIV conf_at activ_stack head deref
    rt_stack running]. rewrite unwind_return by (done || lia). cbn [mbind res_bind]. rewrite decide_False by done. by rewrite Hacts.
Qed.

Lemma finishes fuel body es c es' q : compiled_stmt F body 0 q 0 [] -> op_at F q OP_DONE ->
  Exec.exec (a_debug a0) (a_progr a0) pow fuel body es = Ok (inr c, es') -> exists n, forall k, enough n k -> exists steps m',
  run_loop steps (conf 0 [] es k) = Ok ((OUTCOME_DONE, Some (result_of c)), m') /\ vm_db m' = e_db es'.
Proof using Hacts.
  intros Hc Ho He. assert (Hr : returns 0 [] es (result_of c) es').
  { pose proof (proj1 runs_stmts body fuel es _ _ He 0%nat q [] [] Hc ltac:(split; constructor) ltac:(by eexists)) as Hr.
    destruct c as [|v|continue exit]; cbn [ends result_of] in *; [|done|].
    - eapply returns_trans; [exact Hr|]. exists 1%nat. intros k Hk.
      exists (conf q [] es' k), [], (loc (S q)), (fetched OP_DONE q k). split; [apply rtc_refl|]. split; [by rewrite (step_op _ _ _ _ _ Ho Hk)|done].
    - destruct Hr as (d & Hd%find_place_in & _). by apply elem_of_nil in Hd. }
  destruct Hr as [n Hn]. exists n. intros k Hk. destruct (Hn k Hk) as (m & st & pc & k' & Hs & Hm & Hpl).
  rewrite (return_stops _ _ _ _ _ Hpl) in Hm. destruct (run_reaches _ _ _ _ _ Hs Hm) as [steps Hf].
  exists steps, (conf_at pc [] es' k'). by split.
Qed.

Lemma fails_with fuel body es e es' q : compiled_stmt F body 0 q 0 [] -> op_at F q OP_DONE ->
  Exec.exec (a_debug a0) (a_progr a0) pow fuel body es = Ok (inl e, es') -> a_debug a0 = true /\ exists n, forall k, enough n k -> exists m1 m2,
  rtc step_to (conf 0 [] es k) m1 /\ vm_step m1 = PUSH_ERROR e m2 /\ vm_db m2 = e_db es'.
Proof.
  intros Hc Ho He.
  destruct (proj1 runs_stmts body fuel es _ _ He 0%nat q [] [] Hc ltac:(split; constructor) ltac:(by eexists)) as [Hd [n Hn]].
  split; [done|]. exists n. intros k Hk. destruct (Hn k Hk (keep_none k)) as (m & ext & pc & k' & Hs & Hm & _).
  exists m, (conf_at pc (ext ++ []) es' k'). by split.
Qed.

End Single.

Section Programs.
Context {Data Susp World : Type} `{H : Host Data Susp World}.
Context (body : Stmt) (version : Z) (names : nat) (prog : Program) (s : State).
Context (Hok : stmt_ok [] 0 body) (Hs : code_state body = Ok s) (Hsmall : small s) (Hp : generate_code body version names = Ok prog).
Context (a : activation Data) (m : vm Data World) (Ha : starts_program prog a m).

Lemma the_program : exists q, finished s /\ compiled_stmt s body 0 q 0 [] /\ op_at s q OP_DONE /\
  prog = mkProgram version (with_vector (the_vector s) (layout s)) (literals (gstate s)) (fork_vectors (gstate s)) names.
Proof using Hok Hs Hp.
  destruct (body_Ok body init_gstate ltac:(apply stmt_goals) Hok ltac:(constructor)) as (t & q & Ht & Hf & Hc & Hd & _).
  unfold code_state in Hs. rewrite Ht in Hs. cbn [mbind res_bind] in Hs. injection Hs as ->.
  exists q. do 3 (split; [done|]). unfold generate_code, stmt_to_code in Hp. rewrite Ht in Hp. cbn [mbind res_bind] in Hp.
  rewrite (finish_code_Ok s Hf) in Hp. by injection Hp.
Qed.

Definition the_machine (Hf : finished s) (Hprog : prog = mkProgram version (with_vector (the_vector s) (layout s)) (literals (gstate s)) (fork_vectors (gstate s)) names) :
  Machine Data World.
Proof using a m Ha Hsmall.
  refine {| F := s; m0 := m; a0 := a; acts := []; mc_finished := Hf; mc_small := Hsmall |}.
  - unfold code_of, vector_of. cbn. destruct Ha as [_ -> _ -> _ _ _]. by rewrite Hprog.
  - destruct Ha as [_ _ _ -> _ _ _]. by rewrite Hprog.
  - destruct Ha as [_ _ _ _ _ _ ->]. by rewrite Hprog.
Defined.

Lemma start_conf ticks (Hf : finished s) Hprog : let M := the_machine Hf Hprog in
  with_ticks ticks m = conf 0 [] (mkEstate (rt_env a) (vm_db m)) (mkScratch ticks (a_temp a) (error_pc a)).
Proof using Ha Hsmall.
  clear Hok Hs Hp body. assert (Hl : forall p, p = 0%nat -> pos (layout s) (fixups s) p = 0%nat).
  { intros p ->. unfold pos. rewrite filter_none; [done|]. apply Forall_forall. intros f _. lia. }
  cbn. unfold conf, conf_at, running, loc. cbn [F the_machine a0 acts m0]. rewrite Hl by done. destruct Ha as [H1 H2 H3 H4 H5 H6 H7].
  unfold with_ticks. rewrite H1, H3. destruct a; cbn in *; by subst.
Qed.

Lemma program_returns_Ok fuel c es' :
  Exec.exec (a_debug a) (a_progr a) pow fuel body (mkEstate (rt_env a) (vm_db m)) = Ok (inr c, es') ->
  exists n, forall ticks, Z.of_nat n < ticks < 2 ^ 31 -> exists steps m',
    run steps None (with_ticks ticks m) = Ok ((OUTCOME_DONE, Some (result_of c)), m') /\ vm_db m' = e_db es'.
Proof using Ha Hok Hs Hp Hsmall.
  intros He. destruct the_program as (q & Hf & Hc & Ho & Hprog). set (M := the_machine Hf Hprog).
  destruct (finishes (M := M) eq_refl fuel body (mkEstate (rt_env a) (vm_db m)) c es' q Hc Ho He) as [n Hn].
  exists n. intros ticks Ht. destruct (Hn (mkScratch ticks (a_temp a) (error_pc a)) Ht) as (steps & m' & Hr & Hdb).
  exists steps, m'. split; [|done]. unfold run. rewrite (start_conf ticks Hf Hprog). exact Hr.
Qed.

Lemma program_raises_Ok fuel e es' :
  Exec.exec (a_debug a) (a_progr a) pow fuel body (mkEstate (rt_env a) (vm_db m)) = Ok (inl e, es') ->
  a_debug a = true /\ exists n, forall ticks, Z.of_nat n < ticks < 2 ^ 31 -> exists m1 m2,
    rtc (fun m m' => vm_step m = Ok (Next, m')) (with_ticks ticks m) m1 /\ vm_step m1 = PUSH_ERROR e m2 /\ vm_db m2 = e_db es'.
Proof using Ha Hok Hs Hp Hsmall.
  intros He. destruct the_program as (q & Hf & Hc & Ho & Hprog). set (M := the_machine Hf Hprog).
  destruct (fails_with (M := M) fuel body (mkEstate (rt_env a) (vm_db m)) e es' q Hc Ho He) as [Hd [n Hn]].
  split; [done|]. exists n. intros ticks Ht. destruct (Hn (mkScratch ticks (a_temp a) (error_pc a)) Ht) as (m1 & m2 & Hr).
  exists m1, m2. by rewrite (start_conf ticks Hf Hprog).
Qed.

(** C3: Compiled programs: let [body] be what the parser can make, without calls, forks and
    handlers of errors, and its references fit into the code (see [small]).  If the reference
    semantics, with the variables and the database that the activation has, says that [body]
    ends, then the interpreter, given the program that the code generator makes of it and enough
    ticks, ends with OUTCOME_DONE, the value that [body] returns (zero if none) and the same
    database. *)
Theorem program_returns fuel c es' :
  Exec.exec (a_debug a) (a_progr a) pow fuel body (mkEstate (rt_env a) (vm_db m)) = Ok (inr c, es') ->
  exists n, forall ticks, Z.of_nat n < ticks < 2 ^ 31 -> exists steps m',
    run steps None (with_ticks ticks m) = Ok ((OUTCOME_DONE, Some (result_of c)), m') /\ vm_db m' = e_db es'.
Proof using Ha Hok Hs Hp Hsmall. apply program_returns_Ok. Qed.

(** C11: Errors of compiled programs: if the reference semantics says that [body] ends with an
    error, the code has the debug flag and the interpreter, given enough ticks, reaches an
    instruction that raises this error, with the database as it is to be then. *)
Theorem program_raises fuel e es' :
  Exec.exec (a_debug a) (a_progr a) pow fuel body (mkEstate (rt_env a) (vm_db m)) = Ok (inl e, es') ->
  a_debug a = true /\ exists n, forall ticks, Z.of_nat n < ticks < 2 ^ 31 -> exists m1 m2,
    rtc (fun m m' => vm_step m = Ok (Next, m')) (with_ticks ticks m) m1 /\ vm_step m1 = PUSH_ERROR e m2 /\ vm_db m2 = e_db es'.
Proof using Ha Hok Hs Hp Hsmall. apply program_raises_Ok. Qed.

End Programs.

(** ** A machine *)

(** What other files do when a program needs nothing of them. *)
Definition no_host : Host unit unit unit := {|
  call_bi_func _ _ _ _ _ _ := Fail Undefined;
  name_func_by_num _ := lit "f";
  find_line_number _ _ _ := 1;
  enqueue_forked_task2 _ _ _ _ _ := Fail Undefined;
  suspend_task _ _ := Fail Undefined;
  waif_class _ _ := Fail Undefined;
  waif_get_prop _ _ _ _ := Fail Undefined;
  waif_put_prop _ _ _ _ _ := Fail Undefined;
  pow x _ := (x, 0);
  null_program := 1%positive |}.

Definition main_activation (prog : Program) : activation unit :=
  mkActivation prog (new_rt_env (num_var_names prog)) [] (bc_max_stack (main_vector prog)) 0 0 0 0 None None_ (Obj 2) 2 2 2 2
    (lit "test") (lit "test") true.
Definition main_machine (prog : Program) : vm unit unit := mkVm [main_activation prog] None 50 0 false None sample ∅ tt.

(** [x = 0; for i in [1..5] if (i == 2) continue; endif x = x + i; endfor
     for y in ({10, 20, 30}) if (y > 20) break; else x = x + y; endif endfor
     while loop (x) x = x - 4; if (x < 0) break loop; endif endwhile
     return {x, i, loop};] *)
Definition example_body : Stmt :=
  let num n := EXPR_VAR (Int n) in
  let x := EXPR_ID 18 in let i := EXPR_ID 19 in let y := EXPR_ID 20 in let loop := EXPR_ID 21 in
  STMT_EXPR (EXPR_ASGN x (num 0))
  (STMT_RANGE 19 (num 1) (num 5)
     (STMT_COND (Arm_Cons (Expr_Binary EXPR_EQ i (num 2)) (STMT_CONTINUE (-1) Stmt_Nil) Arm_Nil) Stmt_Nil
     (STMT_EXPR (EXPR_ASGN x (Expr_Binary EXPR_PLUS x i)) Stmt_Nil))
  (STMT_LIST 20 (EXPR_LIST (Arg_Cons ARG_NORMAL (num 10) (Arg_Cons ARG_NORMAL (num 20) (Arg_Cons ARG_NORMAL (num 30) Arg_Nil))))
     (STMT_COND (Arm_Cons (Expr_Binary EXPR_GT y (num 20)) (STMT_BREAK (-1) Stmt_Nil) Arm_Nil)
        (STMT_EXPR (EXPR_ASGN x (Expr_Binary EXPR_PLUS x y)) Stmt_Nil) Stmt_Nil)
  (STMT_WHILE 21 x
     (STMT_EXPR (EXPR_ASGN x (Expr_Binary EXPR_MINUS x (num 4)))
     (STMT_COND (Arm_Cons (Expr_Binary EXPR_LT x (num 0)) (STMT_BREAK 21 Stmt_Nil) Arm_Nil) Stmt_Nil Stmt_Nil))
  (STMT_RETURN (Some_Expr (EXPR_LIST (Arg_Cons ARG_NORMAL x (Arg_Cons ARG_NORMAL i (Arg_Cons ARG_NORMAL loop Arg_Nil))))) Stmt_Nil)))).

(** [x = 3; return x / 0;] *)
Definition failing_body : Stmt :=
  STMT_EXPR (EXPR_ASGN (EXPR_ID 18) (EXPR_VAR (Int 3)))
  (STMT_RETURN (Some_Expr (Expr_Binary EXPR_DIVIDE (EXPR_ID 18) (EXPR_VAR (Int 0)))) Stmt_Nil).

Definition state_of (body : Stmt) : State := match code_state body with Ok s => s | Fail _ => init_state init_gstate end.
Definition program_of (body : Stmt) (names : nat) : Program :=
  match generate_code body 4 names with Ok p => p | Fail _ => mkProgram 0 (layout (init_state init_gstate)) [] [] 0 end.

Lemma example_ok : stmt_ok [] 0 example_body.
Proof. cbn. unfold slot_ok, literal_ok, STACK_LIMIT. repeat split; try (cbn; lia); try done; set_solver by lia. Qed.
Lemma failing_ok : stmt_ok [] 0 failing_body.
Proof. cbn. unfold slot_ok, literal_ok, STACK_LIMIT. repeat split; try (cbn; lia); done. Qed.

Lemma example_small : small (state_of example_body).
Proof. split; vm_compute; repeat split; (reflexivity || congruence). Qed.
Lemma failing_small : small (state_of failing_body).
Proof. split; vm_compute; repeat split; (reflexivity || congruence). Qed.

#[local] Existing Instance no_host.

Lemma main_starts prog : starts_program prog (main_activation prog) (main_machine prog).
Proof. done. Qed.

Definition example_vars (x i y loop : Z) : list Var := replicate 18 None_ ++ [Int x; Int i; Int y; Int loop].

Lemma program_returns_witness : exists n, forall ticks, Z.of_nat n < ticks < 2 ^ 31 -> exists steps m',
  run steps None (with_ticks ticks (main_machine (program_of example_body 22)))
    = Ok ((OUTCOME_DONE, Some (List [Int (-1); Int 5; Int 3])), m') /\ vm_db m' = sample.
Proof.
  refine (program_returns example_body 4 22 (program_of example_body 22) (state_of example_body) example_ok _ example_small _ _ _
    (main_starts _) 50 (Returns (List [Int (-1); Int 5; Int 3])) (mkEstate (example_vars (-1) 5 30 3) sample) _).
  all: vm_compute; reflexivity.
Defined.

Lemma program_raises_witness : exists n, forall ticks, Z.of_nat n < ticks < 2 ^ 31 -> exists m1 m2,
  rtc (fun m m' => vm_step m = Ok (Next, m')) (with_ticks ticks (main_machine (program_of failing_body 19))) m1 /\
  vm_step m1 = PUSH_ERROR E_DIV m2 /\ vm_db m2 = sample.
Proof.
  refine (proj2 (program_raises failing_body 4 19 (program_of failing_body 19) (state_of failing_body) failing_ok _ failing_small _ _ _
    (main_starts _) 50 E_DIV (mkEstate (replicate 18 None_ ++ [Int 3]) sample) _)).
  all: vm_compute; reflexivity.
Defined.

(** The interpreter on both. *)
Example example_runs : fst <$> run 400 None (with_ticks 1000 (main_machine (program_of example_body 22))) =
  Ok (OUTCOME_DONE, Some (List [Int (-1); Int 5; Int 3])).
Proof. vm_compute. reflexivity. Qed.
Example failing_runs : fst <$> run 400 None (with_ticks 1000 (main_machine (program_of failing_body 19))) = Ok (OUTCOME_ABORTED, None).
Proof. vm_compute. reflexivity. Qed.
