(* ===== verification/VmOps.v ===== *)
(** * Shifts (src/execute.c)

    What the operators on the bits of integers compute. *)

From S2P Require Import Prelude Values Numbers EvalEnv Vm VmRun.

Open Scope Z_scope.

Lemma high_ones b : 0 < b < 64 -> HIGHONES b = Ok (- 2 ^ (64 - b)).
Proof.
  intros Hb. unfold HIGHONES. destruct (Z.geb_spec (64 - b) 64); [lia|]. f_equal. rewrite Z.shiftl_mul_pow2 by lia.
  change (Z.lnot 0) with (-1). replace (-1 * 2 ^ (64 - b)) with (- 2 ^ (64 - b)) by lia. apply wrap64_id. unfold int_range.
  assert (2 ^ (64 - b) <= 2 ^ (64 - 1)) by (apply Z.pow_le_mono_r; lia). assert (0 < 2 ^ (64 - b)) by (apply Z.pow_pos_nonneg; lia). lia.
Qed.

Lemma low_ones b : 0 < b < 64 -> LOWONES b = Ok (Z.ones (64 - b)).
Proof. intros Hb. unfold LOWONES. rewrite high_ones by done. cbn [mbind res_bind]. f_equal. rewrite Z.ones_equiv. unfold Z.lnot. lia. Qed.

Lemma shifted_bound a b : 0 < b < 64 -> 0 <= Z.shiftr (a mod 2 ^ 64) b < 2 ^ (64 - b).
Proof.
  intros Hb. rewrite Z.shiftr_div_pow2 by lia. pose proof (Z.mod_pos_bound a (2 ^ 64) ltac:(lia)).
  assert (0 < 2 ^ b) by (apply Z.pow_pos_nonneg; lia). split; [apply Z.div_pos; lia|]. apply Z.div_lt_upper_bound; [lia|].
  rewrite <- Z.pow_add_r by lia. replace (b + (64 - b)) with 64 by lia. lia.
Qed.

Lemma logical_shift a b : 0 < b < 64 -> LOGSHIFTR a b = Ok (Z.shiftr (a mod 2 ^ 64) b).
Proof.
  intros Hb. unfold LOGSHIFTR. rewrite low_ones by done. cbn [mbind res_bind]. f_equal. pose proof (shifted_bound a b Hb) as Hs.
  rewrite wrap64_id.
  - rewrite Z.land_ones by lia. by apply Z.mod_small.
  - unfold int_range. assert (2 ^ (64 - b) <= 2 ^ (64 - 1)) by (apply Z.pow_le_mono_r; lia). lia.
Qed.

Lemma lxor_ones x n : 0 <= n -> 0 <= x < 2 ^ n -> Z.lxor x (Z.ones n) = Z.ones n - x.
Proof.
  intros Hn Hx. enough (x + Z.lxor x (Z.ones n) = Z.ones n) by lia. rewrite Z.add_nocarry_lxor.
  - by rewrite <- Z.lxor_assoc, Z.lxor_nilpotent, Z.lxor_0_l.
  - apply Z.bits_inj'. intros i Hi. rewrite Z.land_spec, Z.lxor_spec, Z.bits_0, Z.testbit_ones_nonneg by lia.
    destruct (Z.ltb_spec i n); [by destruct (Z.testbit x i)|].
    replace (Z.testbit x i) with false; [done|]. symmetry. rewrite <- (Z.mod_small x (2 ^ n)) by done. by apply Z.mod_pow2_bits_high.
Qed.

Lemma arithmetic_shift a b : int_range 64 a -> 0 < b < 64 -> SHIFTR a b = Ok (Z.shiftr a b).
Proof.
  intros Ha Hb. unfold SHIFTR. rewrite logical_shift by done. cbn [mbind res_bind]. unfold int_range in Ha.
  pose proof (shifted_bound a b Hb) as Hs. destruct (Z.ltb_spec a 0).
  - rewrite high_ones by done. cbn [mbind res_bind]. f_equal.
    replace (- 2 ^ (64 - b)) with (Z.lnot (Z.ones (64 - b))) by (rewrite Z.ones_equiv; unfold Z.lnot; lia).
    rewrite <- Z.lnot_lxor_r, lxor_ones by lia. rewrite Z.ones_equiv. unfold Z.lnot. rewrite !Z.shiftr_div_pow2 by lia.
    replace (a mod 2 ^ 64) with (a + 2 ^ (64 - b) * 2 ^ b).
    + rewrite Z.div_add by (pose proof (Z.pow_pos_nonneg 2 b); lia). lia.
    + rewrite <- Z.pow_add_r by lia. replace (64 - b + b) with 64 by lia. symmetry. rewrite <- (Z.mod_small (a + 2 ^ 64) (2 ^ 64)) by lia.
      rewrite <- (Z.mul_1_l (2 ^ 64)) at 2. by rewrite Z.mod_add.
  - cbn [mbind res_bind]. f_equal. rewrite Z.lxor_0_r. by rewrite Z.mod_small by lia.
Qed.

(** C40: Shifting an integer: a distance below zero or of 64 and more is refused with E_INVARG,
    and operands of other types with E_TYPE.  Otherwise a shift to the left multiplies by a
    power of two and wraps around; a shift to the right rounds towards minus infinity, the
    logical one taking the integer as unsigned.  A shift to the right by zero is undefined: a
    mask is made by shifting by the whole width. *)
Theorem shifts_correct a b : int_range 64 a ->
  let distance (ok : res Var) := if (b <? 0) || (b >=? 64) then Ok (Err E_INVARG) else ok in
  let right (z : Z) := if b =? 0 then Fail Undefined else Ok (Int z) in
  shift_ans SHL (Int a) (Int b) = distance (Ok (Int (wrap64 (a * 2 ^ b)))) /\
  shift_ans SHIFTR (Int a) (Int b) = distance (right (a / 2 ^ b)) /\
  shift_ans LOGSHIFTR (Int a) (Int b) = distance (right ((a mod 2 ^ 64) / 2 ^ b)) /\
  (forall f v w, is_Some (match v, w with Int _, Int _ => None | _, _ => Some tt end) -> shift_ans f v w = Ok (Err E_TYPE)).
Proof.
  intros Ha distance right. unfold distance, right. cbn [shift_ans].
  assert (Ht : forall f v w, is_Some (match v, w with Int _, Int _ => None | _, _ => Some tt end) -> shift_ans f v w = Ok (Err E_TYPE)).
  { intros f v w Hs. by destruct v, w, Hs. }
  destruct (Z.ltb_spec b 0); [done|]. destruct (Z.geb_spec b 64); [done|]. cbn [orb]. split; [unfold SHL; by rewrite Z.shiftl_mul_pow2|].
  destruct (Z.eqb_spec b 0) as [->|Hb]; [done|]. rewrite arithmetic_shift, logical_shift by (done || lia). cbn. by rewrite !Z.shiftr_div_pow2.
Qed.

Lemma shifts_correct_witness : shift_ans SHIFTR (Int (-9)) (Int 1) = Ok (Int (-5)) /\
  shift_ans LOGSHIFTR (Int (-9)) (Int 1) = Ok (Int 9223372036854775803).
Proof. split; [apply (shifts_correct (-9) 1)|apply (shifts_correct (-9) 1)]; unfold int_range; lia. Defined.
