(* ===== verification/VmLoop.v ===== *)
(** * A loop that nothing stops (src/execute.c)

    A loop with a name, such as [while x (1) endwhile], executes no instruction that looks at
    the ticks or at the seconds that are left. *)

From S2P Require Import Prelude CStrings Values Ast CodeGen EvalEnv Vm VmRun Sample VmProgram.

Open Scope Z_scope.

Definition endless_body (id : Z) : Stmt := STMT_WHILE id (EXPR_VAR (Int 1)) Stmt_Nil Stmt_Nil.
Definition endless (id : Z) : Program := program_of (endless_body id) 19.

Section Loop.
Context {Data Susp World : Type} `{H : Host Data Susp World} (w : World).

(** The activation at [pc], where the loop variable is [v]. *)
Definition looping (id : Z) (pc : nat) (st : list Var) (v : Var) (ticks : Z) (late : bool) (epc : nat) : vm Data World :=
  mkVm [mkActivation (endless id) (replicate 18 None_ ++ [v]) st (bc_max_stack (main_vector (endless id))) pc epc 0 0 None None_
    (Obj 2) 2 2 2 2 (lit "test") (lit "test") true] None 50 ticks late None sample ∅ w.
Definition endless_machine (id : Z) (ticks : Z) (late : bool) : vm Data World := looping id 0 [] None_ ticks late 0.

Definition in_loop (m : vm Data World) : Prop := exists pc st v ticks late epc, m = looping 18 pc st v ticks late epc /\
  (pc = 0%nat /\ st = [] \/ pc = 1%nat /\ st = [Int 1] \/ pc = 5%nat /\ st = []).

Lemma loop_step m : in_loop m -> exists m', vm_step m = Ok (Next, m') /\ in_loop m'.
Proof.
  intros (pc & st & v & ticks & late & epc & -> & [[-> ->]|[[-> ->]|[-> ->]]]).
  - exists (looping 18 1 [Int 1] v ticks late 0). split; [by vm_compute|]. do 6 eexists. split; [done|]. auto.
  - exists (looping 18 5 [] (Int 1) (wrap32 (ticks - 1)) late 1). split; [by lazy -[wrap32]|]. do 6 eexists. split; [done|]. auto.
  - exists (looping 18 0 [] v ticks late 5). split; [by vm_compute|]. do 6 eexists. split; [done|]. auto.
Qed.

Lemma loop_transition m m' : in_loop m -> transition m m' -> in_loop m'.
Proof.
  intros Hl [m1 Hs|].
  - apply loop_step in Hl as (m2 & Hs' & Hl). rewrite Hs in Hs'. by injection Hs' as ->.
  - destruct Hl as (pc & st & v & ticks & late & epc & -> & Hp). by exists pc, st, v, ticks, true, epc.
Qed.

Lemma loop_runs fuel : forall m, in_loop m -> run_loop fuel m = Fail OutOfFuel.
Proof.
  induction fuel as [|fuel IH]; intros m Hl; [done|]. apply loop_step in Hl as (m' & Hs & Hl). cbn [run_loop]. rewrite Hs. by apply IH.
Qed.

(** C28: The task that executes [while x (1) endwhile] never ends: however few ticks it has, and
    even when the timer has found that its time is up, in every state that it can reach the
    interpreter goes on for any number of instructions. *)
Theorem named_while_never_stops ticks late m : rtc transition (endless_machine 18 ticks late) m ->
  forall fuel, run_loop fuel m = Fail OutOfFuel.
Proof.
  intros Hr fuel. apply loop_runs. assert (Hl : in_loop (endless_machine 18 ticks late)) by (do 6 eexists; split; [done|]; auto).
  induction Hr as [|m1 m2 m3 Ht _ IH]; [done|]. by eapply IH, loop_transition.
Qed.

End Loop.

Lemma named_while_never_stops_witness : run_loop (H := no_host) 1000 (with_timed_out true (endless_machine tt 18 1 false)) = Fail OutOfFuel.
Proof. apply (named_while_never_stops (H := no_host) tt 1 false). apply rtc_once. apply T_timeout. Defined.

(** The loop without a name. *)
Example plain_while_stops : fst <$> run_loop (H := no_host) 1000 (endless_machine tt (-1) 100 false) = Ok (OUTCOME_ABORTED, None) /\
  fst <$> run_loop (H := no_host) 1000 (endless_machine tt (-1) 1000 true) = Ok (OUTCOME_ABORTED, None).
Proof. vm_compute. done. Qed.
