(* ===== verification/VmCalls.v ===== *)
(** * Calling a verb (src/execute.c)

    What [call_verb2] does: which verb it finds, when it is refused, and the activation that it
    makes. *)

From S2P Require Import Prelude CStrings Values Links Db Properties Layout Tables Objects Sample Verbs VerbCache Invariant Handlers.
From S2P Require Import Ast CodeGen EvalEnv Vm VmProgram.

Open Scope Z_scope.

Section Calls.
Context {Data Susp World : Type} `{H : Host Data Susp World}.
Context (F P : forest) (m : vm Data World) (a : activation Data).

(** The program of a verb. *)
Definition verb_prog (vd : Verbdef) : option Program := programs m !! default null_program (v_program vd).

(** A machine in which every verb has a program, with the variables that all programs have. *)
Record callable_machine : Prop := {
  cm_good : good F P (vm_db m);
  cm_activ : head (activ_stack m) = Some a;
  cm_env : (SLOT_IOBJSTR < length (rt_env a))%nat;
  cm_programs v vd : verbs (vm_db m) !! v = Some vd -> exists prog, verb_prog vd = Some prog /\ (SLOT_FLOAT < num_var_names prog)%nat }.

(** The player that the callee sees: only a wizard may change it. *)
Definition callee_player (wizard : bool) : Z :=
  match rt_env a !! SLOT_PLAYER with
  | Some (Obj p) => if wizard then p else a_player a
  | _ => a_player a
  end.

(** The variables of the callee. *)
Definition callee_var (prog : Program) (vname : cstr) (THIS args : Var) (wizard : bool) (slot : nat) : Var :=
  match slot with
  | 0 => Int 0 | 1 => Int 1 | 2 => Int 2 | 3 => Int 4 | 4 => Int 3
  | 5 => Obj (callee_player wizard)
  | 6 => THIS
  | 7 => a_THIS a
  | 8 => Str (if (cur vname =? WAIF_VERB_PREFIX)%Z then drop 1 vname else vname)
  | 9 => args
  | 10 | 11 | 12 | 13 | 14 | 15 => default None_ (rt_env a !! slot)
  | 16 => if (pr_version prog >=? DBV_Float)%Z then Int 0 else None_
  | 17 => if (pr_version prog >=? DBV_Float)%Z then Int 9 else None_
  | _ => None_
  end%nat.

Record callee_ok (h : handle) (this : Z) (vname : cstr) (THIS args : Var) (callee : activation Data) : Prop := {
  co_verb : exists vd prog wizard, verbs (vm_db m) !! verbdef h = Some vd /\ verb_prog vd = Some prog /\
    is_wizard (vm_db m) (a_progr a) = Ok wizard /\
    a_prog callee = prog /\ a_progr callee = v_owner vd /\ a_verbname callee = v_name vd /\
    a_debug callee = negb (Z.land (v_perms vd) VF_DEBUG =? 0) /\ a_player callee = callee_player wizard /\
    rt_stack_size callee = bc_max_stack (main_vector prog) /\
    rt_env callee = callee_var prog vname THIS args wizard <$> seq 0 (num_var_names prog);
  co_place : a_vloc callee = definer h;
  co_object : a_this callee = this /\ a_THIS callee = THIS /\ a_verb callee = vname;
  co_start : a_pc callee = 0%nat /\ rt_stack callee = [] /\ bi_func_pc callee = 0 }.

(** *** The environment *)

(** A list of assignments, the first one done first. *)
Fixpoint set_all (l : list (nat * Var)) (env : list Var) : res (list Var) :=
  match l with
  | [] => Ok env
  | (slot, v) :: l => env ← set_rt_env_var slot v env; set_all l env
  end.

Definition assigned (l : list (nat * Var)) (i : nat) (old : Var) : Var := foldl (fun v '(slot, w) => if decide (i = slot) then w else v) old l.

Lemma set_all_Ok l : forall env, (forall slot v, (slot, v) ∈ l -> (slot < 32)%nat) -> exists env', set_all l env = Ok env' /\
  length env' = length env /\ forall i, env' !! i = assigned l i <$> env !! i.
Proof.
  induction l as [|[slot v] l IH]; intros env Hl; cbn [set_all].
  - exists env. split; [done|]. split; [done|]. intros i. by destruct (env !! i).
  - destruct (set_rt_env_var_Ok slot v env) as (env1 & -> & Hn & H1); [apply (Hl slot v); by left|]. cbn [mbind res_bind].
    destruct (IH env1) as (env2 & -> & Hn2 & H2); [intros s w Hs; apply (Hl s w); by right|]. exists env2. split; [done|]. split; [congruence|].
    intros i. rewrite H2, H1. unfold assigned. cbn [foldl]. case_decide; by destruct (env !! i).
Qed.

Definition rt_consts (version : Z) : list (nat * Var) :=
  [(SLOT_ERR, Int 3); (SLOT_NUM, Int 0); (SLOT_STR, Int 2); (SLOT_OBJ, Int 1); (SLOT_LIST, Int 4)] ++
  if version >=? DBV_Float then [(SLOT_INT, Int 0); (SLOT_FLOAT, Int 9)] else [].

Lemma set_all_app l1 l2 env : set_all (l1 ++ l2) env = (env ← set_all l1 env; set_all l2 env).
Proof.
  revert env. induction l1 as [|[slot v] l1 IH]; intros env; [done|]. cbn [app set_all].
  destruct (set_rt_env_var slot v env); cbn [mbind res_bind]; [apply IH|done].
Qed.

Lemma fill_consts version env : fill_in_rt_consts version env = set_all (rt_consts version) env.
Proof.
  unfold fill_in_rt_consts, rt_consts. cbn [app set_all].
  do 5 (destruct (set_rt_env_var _ _ _) as [?|]; cbn [mbind res_bind]; [|done]).
  destruct (version >=? DBV_Float); [|done]. cbn [set_all]. destruct (set_rt_env_var _ _ _) as [?|]; [|done]. cbn [mbind res_bind].
  by destruct (set_rt_env_var _ _ _).
Qed.

(** The assignments that [call_verb2] makes. *)
Definition callee_sets (c : callable) (vname : cstr) (THIS args : Var) (wizard : bool) : list (nat * Var) :=
  let copied slot := (slot, default None_ (rt_env a !! slot)) in
  rt_consts (pr_version (c_prog c)) ++
  [(SLOT_THIS, THIS); (SLOT_CALLER, a_THIS a); copied SLOT_ARGSTR; copied SLOT_DOBJ; copied SLOT_DOBJSTR; copied SLOT_PREPSTR;
   copied SLOT_IOBJ; copied SLOT_IOBJSTR; (SLOT_PLAYER, Obj (callee_player wizard));
   (SLOT_VERB, Str (if cur vname =? WAIF_VERB_PREFIX then drop 1 vname else vname)); (SLOT_ARGS, args)].

Lemma callee_slots c vname THIS args wizard slot v : (slot, v) ∈ callee_sets c vname THIS args wizard -> (slot < 32)%nat.
Proof.
  intros Hs. assert (Hall : Forall (fun i => i < 32)%nat (fst <$> callee_sets c vname THIS args wizard)).
  { unfold callee_sets, rt_consts. destruct (pr_version (c_prog c) >=? DBV_Float); cbn; repeat constructor; unfold SLOT_IOBJSTR; lia. }
  rewrite Forall_forall in Hall. apply Hall, list_elem_of_fmap. by exists (slot, v).
Qed.

Lemma callee_vars c vname THIS args wizard env : (SLOT_FLOAT < num_var_names (c_prog c))%nat ->
  set_all (callee_sets c vname THIS args wizard) (new_rt_env (num_var_names (c_prog c))) = Ok env ->
  env = callee_var (c_prog c) vname THIS args wizard <$> seq 0 (num_var_names (c_prog c)).
Proof.
  intros Hn He. destruct (set_all_Ok (callee_sets c vname THIS args wizard) (new_rt_env (num_var_names (c_prog c)))) as (env' & He' & Hl & Hi);
    [by apply callee_slots|]. rewrite He in He'. injection He' as <-. apply list_eq. intros i. rewrite Hi, list_lookup_fmap.
  unfold new_rt_env in *. rewrite length_replicate in Hl.
  destruct (decide (i < num_var_names (c_prog c))%nat) as [Hlt|Hge].
  - rewrite lookup_replicate_2, lookup_seq_lt by done. cbn [fmap option_fmap option_map Nat.add]. f_equal.
    unfold assigned, callee_sets, rt_consts. destruct (pr_version (c_prog c) >=? DBV_Float) eqn:Hv;
      do 18 (destruct i as [|i]; [cbn; by rewrite ?Hv|]); by cbn.
  - rewrite lookup_ge_None_2 by (rewrite length_replicate; lia). by rewrite lookup_ge_None_2 by (rewrite length_seq; lia).
Qed.

Lemma caller_var slot : (SLOT_IOBJSTR < length (rt_env a))%nat -> (slot <= SLOT_IOBJSTR)%nat ->
  deref (rt_env a !! slot) = Ok (default None_ (rt_env a !! slot)).
Proof. intros Hl Hs. destruct (lookup_lt_is_Some_2 (rt_env a) slot) as [v ->]; [lia|done]. Qed.

Lemma bind_assoc {A B C} (x : res A) (f : A -> res B) (g : B -> res C) : (x ≫= f) ≫= g = x ≫= (fun v => f v ≫= g).
Proof. by destruct x. Qed.
Lemma bind_ext {A B} (x : res A) (f g : A -> res B) : (forall v, f v = g v) -> x ≫= f = x ≫= g.
Proof. intros Hf. destruct x; [apply Hf|done]. Qed.

Lemma verb_activation_Ok c this vname THIS args wizard : (SLOT_IOBJSTR < length (rt_env a))%nat ->
  (SLOT_FLOAT < num_var_names (c_prog c))%nat ->
  verb_activation c this vname THIS args a wizard = Ok (mkActivation (c_prog c)
    (callee_var (c_prog c) vname THIS args wizard <$> seq 0 (num_var_names (c_prog c))) [] (bc_max_stack (main_vector (c_prog c)))
    0 0 0 0 None None_ THIS this (callee_player wizard) (c_progr c) (c_vloc c) vname (c_names c) (c_debug c)).
Proof.
  intros Hl Hn.
  destruct (set_all_Ok (callee_sets c vname THIS args wizard) (new_rt_env (num_var_names (c_prog c)))) as (env & He & _); [by apply callee_slots|].
  pose proof (callee_vars _ _ _ _ _ _ Hn He) as Hv. rewrite <- Hv. clear Hv. unfold callee_sets in He. rewrite set_all_app, <- fill_consts in He.
  unfold verb_activation, set_rt_env_obj, set_rt_env_str.
  destruct (fill_in_rt_consts (pr_version (c_prog c)) (new_rt_env (num_var_names (c_prog c)))) as [env0|]; cbn [mbind res_bind] in He |- *; [|done].
  revert He. cbn [set_all].
  repeat first [rewrite caller_var by (done || (unfold SLOT_IOBJSTR; cbv; lia)); cbn [mbind res_bind]
    | match goal with |- set_rt_env_var ?slot ?v ?e ≫= _ = _ -> set_rt_env_var ?slot ?v ?e ≫= _ = _ =>
        destruct (set_rt_env_var slot v e); cbn [mbind res_bind]; [|by intros] end].
  replace (match default None_ (rt_env a !! SLOT_PLAYER) with Obj p => if wizard then p else a_player a | _ => a_player a end)
    with (callee_player wizard) by (unfold callee_player; by destruct (rt_env a !! SLOT_PLAYER) as [[]|]).
  repeat match goal with |- set_rt_env_var ?slot ?v ?e ≫= _ = _ -> set_rt_env_var ?slot ?v ?e ≫= _ = _ =>
    destruct (set_rt_env_var slot v e); cbn [mbind res_bind]; [|by intros] end.
  intros He. by injection He as ->.
Qed.

(** *** The call *)

(** What is the case after the call: the error, and the new activation or none. *)
Definition call_result (where_ this : Z) (vname : cstr) (THIS args : Var) (e : error) (m' : vm Data World) : Prop :=
  (e = E_INVIND /\ activ_stack m' = activ_stack m /\ objects (vm_db m) !! where_ = None) \/
  exists ls, lineage F where_ ls /\ is_Some (objects (vm_db m) !! where_) /\
    match List.find (answers (vm_db m) vname) (chain (vm_db m) ls) with
    | None => e = E_VERBNF /\ activ_stack m' = activ_stack m
    | Some h =>
        if room_for_activation m then
          e = E_NONE /\ exists callee, activ_stack m' = callee :: activ_stack m /\ callee_ok h this vname THIS args callee
        else e = E_MAXREC /\ activ_stack m' = activ_stack m
    end.

Lemma chain_answer vname ls h : wf_verbs (vm_db m) -> List.find (answers (vm_db m) vname) (chain (vm_db m) ls) = Some h ->
  is_Some (verbs (vm_db m) !! verbdef h).
Proof.
  intros Hv [Hin _]%List.find_some. apply list_elem_of_In in Hin. apply list_elem_of_bind in Hin as (x & Hx & _).
  destruct (objects (vm_db m) !! x) as [o|] eqn:Ho; [|by apply elem_of_nil in Hx].
  apply list_elem_of_fmap in Hx as (v & -> & Hin). by apply (wv_exists _ Hv x o v).
Qed.


Lemma wizard_same d d' x : same_but_cache d d' -> is_wizard d' x = is_wizard d x.
Proof.
  intros Hs. destruct (same_but_cache_fields d d' Hs) as (Fo & Fn & _).
  unfold is_wizard, valid_with_flag, valid, dbpriv_find_object, db_object_has_flag, get. by rewrite Fo, Fn.
Qed.

Lemma callable_Ok h vd prog d' vh : same_but_cache (vm_db m) d' -> denotes d' vh (Some h) -> verbs (vm_db m) !! verbdef h = Some vd ->
  verb_prog vd = Some prog ->
  (p ← db_verb_program null_program d' vh; prog ← deref (programs (with_db d' m) !! p); own ← db_verb_owner d' vh;
   def ← db_verb_definer d' vh; names ← db_verb_names d' vh; fl ← db_verb_flags d' vh;
   Ok (Some (mkCallable prog (pr_version prog) own def names (negb (Z.land fl VF_DEBUG =? 0))), with_db d' m)) =
  Ok (Some (mkCallable prog (pr_version prog) (v_owner vd) (definer h) (v_name vd) (negb (Z.land (v_perms vd) VF_DEBUG =? 0))), with_db d' m).
Proof.
  intros Hs Hd Hv Hp. assert (Hg : forall null, get_verb d' vh null = Ok vd).
  { intros null. unfold get_verb. rewrite Hd. cbn [mbind res_bind]. destruct (same_but_cache_fields _ _ Hs) as (_ & _ & _ & _ & Fv & _).
    by rewrite Fv, Hv. }
  unfold db_verb_program, db_verb_owner, db_verb_definer, db_verb_names, db_verb_flags. rewrite !Hg, Hd.
  cbn [fmap res_fmap mbind res_bind with_db programs]. unfold verb_prog in Hp. rewrite Hp. cbn [deref mbind res_bind].
  by rewrite <- Z.land_assoc.
Qed.

Lemma call_verb2_Ok this vname THIS args (do_pass : bool) where_ : callable_machine -> nul_free vname ->
  (if do_pass then par F !! a_vloc a = Some where_ else where_ = this) ->
  exists e m', call_verb2 this vname THIS args do_pass m = Ok (e, m') /\ same_but_cache (vm_db m) (vm_db m') /\ good F P (vm_db m') /\
    call_result where_ this vname THIS args e m'.
Proof.
  intros [Hg Ha Hl Hprog] Hn Hw. unfold call_verb2, RUN_ACTIV. rewrite Ha. cbn [deref mbind res_bind].
  assert (Hwhere : (if do_pass return res (option Z) then if valid (vm_db m) (a_vloc a) then Some <$> db_object_parent (vm_db m) (a_vloc a) else Ok None
    else Ok (Some this)) = Ok (Some where_)).
  { destruct do_pass; [|by subst]. assert (Hv : valid (vm_db m) (a_vloc a) = true).
    { apply (valid_iff F P); [done|]. apply (valid_family F P); [done|by eexists]. }
    rewrite Hv. by rewrite (read_parent F P _ Hg _ _ Hw). }
  rewrite Hwhere. cbn [mbind res_bind]. destruct (valid (vm_db m) where_) eqn:Hval; cbn [negb].
  2: { exists E_INVIND, m. do 3 (split; [done|]). left. split; [done|]. split; [done|].
       destruct (objects (vm_db m) !! where_) eqn:Ho; [|done]. apply eq_None_not_Some. intros Hs. apply not_false_iff_true in Hval; [done|].
       by apply (valid_iff F P). }
  apply (valid_iff F P _ _ Hg) in Hval. pose proof (good_props _ _ _ Hg) as Hp.
  destruct (wf_acyclic F (wp_forest _ _ Hp) where_) as [ls Hls]; [by apply (valid_family F P (vm_db m))|].
  destruct (callable_cached F (vm_db m) where_ vname) as (r & vh & d' & Hu & Hf & Hd & Hs & Hc); try done;
    [first [apply Hp|apply wf_vdefs_names, Hg|apply Hg|apply (good_wf _ _ _ Hg)]..|].
  rewrite (uncached_lineage F) with (ls := ls) in Hu; try done; [|first [apply Hp|apply (good_wf _ _ _ Hg)]..]. injection Hu as Hu.
  pose proof (good_same F P _ d' Hg Hs Hc) as Hg'. unfold find_callable. rewrite Hf. cbn [mbind res_bind].
  destruct r as [h|].
  - destruct (chain_answer vname ls h (wdb_verbs _ _ _ (good_wf _ _ _ Hg)) Hu) as [vd Hvd]. destruct (Hprog _ _ Hvd) as (prog & Hprg & Hnum).
    pose proof (callable_Ok h vd prog d' vh Hs Hd Hvd Hprg) as Hcall. destruct (read_wizard F P _ Hg (a_progr a)) as [wizard Hwiz].
    set (c := mkCallable _ _ _ _ _ _) in Hcall. rewrite <- (wizard_same _ d') in Hwiz by done.
    assert (Hnull : vh <> NullHandle) by (intros ->; specialize (Hd Segv); by cbn in Hd).
    assert (Hres : exists e m', (if negb (room_for_activation (with_db d' m)) then Ok (E_MAXREC, with_db d' m)
      else wizard ← is_wizard (vm_db (with_db d' m)) (a_progr a); callee ← verb_activation c this vname THIS args a wizard;
           Ok (E_NONE, with_activs (callee :: activ_stack (with_db d' m)) (with_db d' m))) = Ok (e, m') /\ vm_db m' = d' /\
      call_result where_ this vname THIS args e m').
    { assert (Hcr : forall e m', (if room_for_activation m then
          e = E_NONE /\ exists callee, activ_stack m' = callee :: activ_stack m /\ callee_ok h this vname THIS args callee
        else e = E_MAXREC /\ activ_stack m' = activ_stack m) -> call_result where_ this vname THIS args e m').
      { intros e m' Hr. right. exists ls. do 2 (split; [done|]). by rewrite Hu. }
      change (room_for_activation (with_db d' m)) with (room_for_activation m).
      destruct (room_for_activation m); cbn [negb vm_db with_db]; [|exists E_MAXREC, (with_db d' m); split; [done|]; split; [done|]; by apply Hcr].
      rewrite Hwiz. cbn [mbind res_bind]. rewrite verb_activation_Ok by done. cbn [mbind res_bind]. do 2 eexists. split; [done|]. split; [done|].
      apply Hcr. split; [done|]. eexists. split; [done|]. rewrite (wizard_same (vm_db m) d') in Hwiz by done.
      split; [|done..]. exists vd, prog, wizard. by repeat split. }
    destruct Hres as (e & m' & He & Hm & Hr). exists e, m'. rewrite Hm. destruct vh; [done| |]; (rewrite Hcall; cbn [mbind res_bind]; by rewrite He).
  - cbn [denotes] in Hd. subst vh. cbn [mbind res_bind]. exists E_VERBNF, (with_db d' m). do 3 (split; [done|]). right. exists ls.
    split; [done|]. split; [done|]. by rewrite Hu.
Qed.


End Calls.

(** A machine over the sample database, whose verbs all have the same program. *)
Definition calling_machine : vm unit unit :=
  let m := main_machine (program_of failing_body 19) in
  mkVm (activ_stack m) None 50 1000 false None sample {[1%positive := program_of failing_body 19]} tt.
Definition caller : activation unit := main_activation (program_of failing_body 19).

#[local] Existing Instance no_host.

Lemma calling_machine_ok : callable_machine sample_family sample_place calling_machine caller.
Proof.
  split; [exact sample_good|done|apply (bool_decide_unpack _); vm_compute; exact I|].
  assert (Hall : forallb (fun e => bool_decide (default 1%positive (v_program e.2) = 1%positive)) (map_to_list (verbs sample)) = true)
    by (vm_compute; reflexivity).
  intros v vd Hv%elem_of_map_to_list. rewrite forallb_forall in Hall. apply list_elem_of_In, Hall, bool_decide_eq_true in Hv as Hp.
  exists (program_of failing_body 19). split; [|apply (bool_decide_unpack _); vm_compute; exact I]. unfold verb_prog. cbn [snd] in Hp.
  change (default null_program (v_program vd)) with (default 1%positive (v_program vd)). rewrite Hp. vm_compute. reflexivity.
Qed.

Definition outcome_of {A B} (r : res (A * B)) : option A := match r with Ok (a, _) => Some a | Fail _ => None end.

