(* ===== verification/InputQueue.v ===== *)
(** * The queue of input lines of a connection (src/tasks.c)

    Lines are doubly threaded: in their order, and from the end of one sequence of lines of the
    same kind (out-of-band or not) to the end of the next, so that the first line of either
    kind is found at once.  The pointers, also those into the middle of a structure that stand
    for the ends of both threads, are in the model. *)

From S2P Require Import Prelude CStrings.

Open Scope Z_scope.

(** ** Data *)

Inductive task_kind := TASK_INBAND | TASK_OOB | TASK_QUOTED | TASK_BINARY.
#[export] Instance task_kind_eq_dec : EqDecision task_kind.
Proof. solve_decision. Defined.

(** A task with its [input_task]. *)
Record input_task := mkInput {
  it_kind : task_kind; it_string : cstr; it_length : Z; it_next : option positive; it_next_itail : option positive }.

Definition set_next (n : option positive) (t : input_task) : input_task :=
  mkInput (it_kind t) (it_string t) (it_length t) n (it_next_itail t).
Definition set_next_itail (n : option positive) (t : input_task) : input_task :=
  mkInput (it_kind t) (it_string t) (it_length t) (it_next t) n.

(** Where a pointer to a task is stored. *)
Inductive slot := First_input | Next_of (p : positive) | First_itail | Next_itail_of (p : positive).

(** The members of [tqueue]; [tasks]: the memory of the tasks in the queue. *)
Record input_queue := mkQueue {
  tasks : gmap positive input_task;
  first_input : option positive; last_input : slot;
  first_itail : option positive; last_itail : slot }.

Definition empty_queue : input_queue := mkQueue ∅ None First_input None First_itail.

Definition with_tasks h q := mkQueue h (first_input q) (last_input q) (first_itail q) (last_itail q).
Definition with_first_input p q := mkQueue (tasks q) p (last_input q) (first_itail q) (last_itail q).
Definition with_last_input s q := mkQueue (tasks q) (first_input q) s (first_itail q) (last_itail q).
Definition with_first_itail p q := mkQueue (tasks q) (first_input q) (last_input q) p (last_itail q).
Definition with_last_itail s q := mkQueue (tasks q) (first_input q) (last_input q) (first_itail q) s.

Definition task_at (q : input_queue) (p : positive) : res input_task := deref (tasks q !! p).
Definition upd_task (p : positive) (f : input_task -> input_task) (q : input_queue) : res input_queue :=
  t ← task_at q p; Ok (with_tasks (<[p := f t]> (tasks q)) q).

(** [*s] *)
Definition read_slot (q : input_queue) (s : slot) : res (option positive) :=
  match s with
  | First_input => Ok (first_input q)
  | Next_of p => it_next <$> task_at q p
  | First_itail => Ok (first_itail q)
  | Next_itail_of p => it_next_itail <$> task_at q p
  end.
(** [*s = v] *)
Definition write_slot (s : slot) (v : option positive) (q : input_queue) : res input_queue :=
  match s with
  | First_input => Ok (with_first_input v q)
  | Next_of p => upd_task p (set_next v) q
  | First_itail => Ok (with_first_itail v q)
  | Next_itail_of p => upd_task p (set_next_itail v) q
  end.

#[export] Instance slot_eq_dec : EqDecision slot.
Proof. solve_decision. Defined.

Definition is_oob (t : input_task) : bool := bool_decide (it_kind t = TASK_OOB).

(** ** Operations *)

Inductive dequeue_how := DQ_FIRST | DQ_OOB | DQ_INBAND.
#[export] Instance dequeue_how_eq_dec : EqDecision dequeue_how.
Proof. solve_decision. Defined.

(** [how == (kind == TASK_OOB)]: is the line asked for in the second sequence? *)
Definition skips_first (how : dequeue_how) (first_is_oob : bool) : bool :=
  match how with DQ_FIRST => false | DQ_OOB => negb first_is_oob | DQ_INBAND => first_is_oob end.

(** The task [p], to which [*pt] points, leaves the thread of all lines. *)
Definition unlink_thread (pt : slot) (p : positive) (q : input_queue) : res input_queue :=
  cell ← task_at q p;
  q ← write_slot pt (it_next cell) q;
  match it_next cell with
  | None => Ok (with_last_input pt q)
  | Some _ => upd_task p (set_next None) q
  end.

(** ... and the one of the ends of sequences, if it is the whole sequence. *)
Definition unlink_itail (pitail : slot) (p : positive) (q : input_queue) : res input_queue :=
  ends ← read_slot q pitail;
  if decide (ends = Some p) then
    q ← write_slot pitail None q;
    cell ← task_at q p;
    q ← match it_next_itail cell with
        | Some n => upd_task p (set_next_itail None) (with_first_itail (Some n) q)
        | None => Ok q
        end;
    last ← read_slot q (last_itail q);
    Ok match last with None => with_last_itail First_itail q | Some _ => q end
  else Ok q.

(** [dequeue_input_task] as far as the threads go. *)
Definition unlink_input (how : dequeue_how) (q : input_queue) : res (option input_task * input_queue) :=
  match first_input q with
  | None => Ok (None, q)
  | Some f =>
      first ← task_at q f;
      '(pt, pitail) ← (if skips_first how (is_oob first)
                       then tail ← deref (first_itail q); Ok (Next_of tail, Next_itail_of tail)
                       else Ok (First_input, First_itail));
      t ← read_slot q pt;
      match t with
      | None => Ok (None, q)
      | Some p =>
          q ← unlink_thread pt p q;
          q ← unlink_itail pitail p q;
          cell ← task_at q p;
          Ok (Some cell, with_tasks (delete p (tasks q)) q)
      end
  end.

(** [enqueue_input_task] as far as the threads go; [p]: the memory that [mymalloc] gives. *)
Definition link_input (at_front : bool) (p : positive) (kind : task_kind) (s : cstr) (q : input_queue) : res input_queue :=
  let t := mkInput kind s (Z.of_nat (length s)) None None in
  let q := with_tasks (<[p := t]> (tasks q)) q in
  match first_input q with
  | Some f =>
      if at_front then
        first ← task_at q f;
        q ← (if Bool.eqb (is_oob first) (is_oob t) then Ok q
             else
               q ← upd_task p (set_next_itail (first_itail q)) q;
               let q := with_first_itail (Some p) q in
               Ok (if decide (last_itail q = First_itail) then with_last_itail (Next_itail_of p) q else q));
        q ← upd_task p (set_next (first_input q)) q;
        Ok (with_first_input (Some p) q)
      else
        l ← read_slot q (last_itail q);
        l ← deref l;
        lcell ← task_at q l;
        let q := if Bool.eqb (is_oob lcell) (is_oob t) then q else with_last_itail (Next_itail_of l) q in
        q ← write_slot (last_itail q) (Some p) q;
        q ← write_slot (last_input q) (Some p) q;
        upd_task p (set_next None) (with_last_input (Next_of p) q)
  | None =>
      q ← write_slot (last_itail q) (Some p) q;
      q ← write_slot (last_input q) (Some p) q;
      upd_task p (set_next None) (with_last_input (Next_of p) q)
  end.

(** ** What a queue stands for *)

(** A line with the memory that it is in. *)
Record line := mkLine { ln_at : positive; ln_kind : task_kind; ln_text : cstr }.
Definition oob_line (x : line) : bool := bool_decide (ln_kind x = TASK_OOB).

(** The last lines of the sequences. *)
Fixpoint tails (l : list line) : list positive :=
  match l with
  | [] => []
  | x :: l' =>
      match l' with
      | [] => [ln_at x]
      | y :: _ => if Bool.eqb (oob_line x) (oob_line y) then tails l' else ln_at x :: tails l'
      end
  end.

(** The two halves of a task. *)
Definition core (h : gmap positive input_task) (p : positive) : option (task_kind * cstr * Z * option positive) :=
  (fun t => (it_kind t, it_string t, it_length t, it_next t)) <$> h !! p.
Definition itail (h : gmap positive input_task) (p : positive) : option (option positive) := it_next_itail <$> h !! p.

(** The lines are linked, and the last one to [e]; likewise for the ends of sequences. *)
Definition head_or (e : option positive) (l : list positive) : option positive := match l with [] => e | p :: _ => Some p end.
Fixpoint linked (h : gmap positive input_task) (l : list line) (e : option positive) : Prop :=
  match l with
  | [] => True
  | x :: l =>
      core h (ln_at x) = Some (ln_kind x, ln_text x, Z.of_nat (length (ln_text x)), head_or e (ln_at <$> l)) /\ linked h l e
  end.
Fixpoint linked_tails (h : gmap positive input_task) (l : list positive) (e : option positive) : Prop :=
  match l with
  | [] => True
  | p :: l => itail h p = Some (head_or e l) /\ linked_tails h l e
  end.

(** The slot behind all of [l]. *)
Definition end_slot (first : slot) (mk : positive -> slot) (l : list positive) : slot :=
  match last l with None => first | Some p => mk p end.

Record represents_lines (q : input_queue) (l : list line) : Prop := {
  rl_nodup : NoDup (ln_at <$> l);
  rl_dom : forall p, is_Some (tasks q !! p) <-> p ∈ ln_at <$> l;
  rl_linked : linked (tasks q) l None;
  rl_first : first_input q = head (ln_at <$> l);
  rl_last : last_input q = end_slot First_input Next_of (ln_at <$> l);
  rl_tails : linked_tails (tasks q) (tails l) None;
  rl_first_itail : first_itail q = head (tails l);
  rl_last_itail : last_itail q = end_slot First_itail Next_itail_of (removelast (tails l)) }.

Lemma empty_represents : represents_lines empty_queue [].
Proof. split; try done; [constructor|]. intros p. split; [by intros []|by intros ?%elem_of_nil]. Qed.

(** *** Lists *)

Lemma head_or_None l : head_or None l = head l.
Proof. by destruct l. Qed.
Lemma head_or_app e l1 l2 : head_or e (l1 ++ l2) = head_or (head_or e l2) l1.
Proof. by destruct l1. Qed.

Lemma linked_app h l1 l2 e : linked h (l1 ++ l2) e <-> linked h l1 (head_or e (ln_at <$> l2)) /\ linked h l2 e.
Proof.
  induction l1 as [|x l1 IH]; cbn [app linked]; [tauto|]. rewrite IH, fmap_app, head_or_app. tauto.
Qed.
Lemma linked_tails_app h l1 l2 e : linked_tails h (l1 ++ l2) e <-> linked_tails h l1 (head_or e l2) /\ linked_tails h l2 e.
Proof.
  induction l1 as [|x l1 IH]; cbn [app linked_tails]; [tauto|]. rewrite IH, head_or_app. tauto.
Qed.

Lemma linked_ext h h' l e : (forall p, p ∈ ln_at <$> l -> core h' p = core h p) -> linked h l e -> linked h' l e.
Proof.
  induction l as [|x l IH]; intros He; [done|]. cbn [linked]. intros [Hx Hl]. rewrite He by (cbn; left). split; [done|].
  apply IH; [|done]. intros p Hp. apply He. cbn. by right.
Qed.
Lemma linked_tails_ext h h' l e : (forall p, p ∈ l -> itail h' p = itail h p) -> linked_tails h l e -> linked_tails h' l e.
Proof.
  induction l as [|x l IH]; intros He; [done|]. cbn [linked_tails]. intros [Hx Hl]. rewrite He by left. split; [done|].
  apply IH; [|done]. intros p Hp. apply He. by right.
Qed.

Lemma tails_cons x y l : tails (x :: y :: l) = if Bool.eqb (oob_line x) (oob_line y) then tails (y :: l) else ln_at x :: tails (y :: l).
Proof. done. Qed.

Lemma tails_in l p : p ∈ tails l -> p ∈ ln_at <$> l.
Proof.
  induction l as [|x l IH]; [done|]. cbn [tails fmap list_fmap]. destruct l as [|y l]; [done|].
  destruct (Bool.eqb _ _); [intros Hp; right; by apply IH|]. intros [->|Hp]%elem_of_cons; [by left|right; by apply IH].
Qed.

Lemma tails_sublist l : tails l `sublist_of` ln_at <$> l.
Proof.
  induction l as [|x [|y l] IH]; [done|done|]. rewrite tails_cons. change (ln_at <$> x :: y :: l) with (ln_at x :: (ln_at <$> y :: l)).
  destruct (Bool.eqb _ _); [by apply sublist_cons|by apply sublist_skip].
Qed.
Lemma tails_nodup l : NoDup (ln_at <$> l) -> NoDup (tails l).
Proof. intros H. eapply sublist_NoDup; [exact H|apply tails_sublist]. Qed.

Lemma tails_nil l : tails l = [] -> l = [].
Proof. induction l as [|x [|y l] IH]; [done|done|]. cbn [tails] in *. destruct (Bool.eqb _ _); [|done]. intros Ht. by apply IH in Ht. Qed.

Lemma tails_last l : last (tails l) = last (ln_at <$> l).
Proof.
  induction l as [|x [|y l] IH]; [done|done|]. rewrite tails_cons. assert (Hl : last (ln_at <$> x :: y :: l) = last (ln_at <$> y :: l)) by done. rewrite Hl, <- IH. destruct (Bool.eqb _ _); [done|].
  destruct (tails (y :: l)) eqn:Ht; [by apply tails_nil in Ht|done].
Qed.

(** One more line, whose sequence may be the last one. *)
Lemma tails_snoc l x y : tails ((l ++ [x]) ++ [y]) =
  (if Bool.eqb (oob_line x) (oob_line y) then removelast (tails (l ++ [x])) else tails (l ++ [x])) ++ [ln_at y].
Proof.
  induction l as [|z l IH]; [cbn; by destruct (Bool.eqb _ _)|]. destruct l as [|w l].
  - cbn [app] in *. rewrite !tails_cons. cbn [tails] in *.
    by destruct (Bool.eqb (oob_line z) (oob_line x)), (Bool.eqb (oob_line x) (oob_line y)).
  - assert (Hne : tails ((w :: l) ++ [x]) <> []) by (intros Ht%tails_nil; done).
    cbn [app] in *. rewrite !tails_cons, IH.
    destruct (Bool.eqb (oob_line z) (oob_line w)), (Bool.eqb (oob_line x) (oob_line y)); try done.
    cbn [removelast]. by destruct (tails (w :: l ++ [x])).
Qed.

(** ** Pointers *)

Definition next_of (c : task_kind * cstr * Z * option positive) : option positive := c.2.
Definition with_next (n : option positive) (c : task_kind * cstr * Z * option positive) : task_kind * cstr * Z * option positive := (c.1, n).

Definition slot_ok (q : input_queue) (s : slot) : Prop :=
  match s with Next_of p | Next_itail_of p => is_Some (tasks q !! p) | _ => True end.

(** [q'] is [q] after [*s = v]. *)
Record writes (s : slot) (v : option positive) (q q' : input_queue) : Prop := {
  w_dom r : is_Some (tasks q' !! r) <-> is_Some (tasks q !! r);
  w_core r : core (tasks q') r = if decide (s = Next_of r) then with_next v <$> core (tasks q) r else core (tasks q) r;
  w_itail r : itail (tasks q') r = if decide (s = Next_itail_of r) then Some v else itail (tasks q) r;
  w_first_input : first_input q' = if decide (s = First_input) then v else first_input q;
  w_first_itail : first_itail q' = if decide (s = First_itail) then v else first_itail q;
  w_last_input : last_input q' = last_input q;
  w_last_itail : last_itail q' = last_itail q }.

Lemma write_slot_Ok s v q : slot_ok q s -> exists q', write_slot s v q = Ok q' /\ writes s v q q'.
Proof.
  destruct s as [|p| |p]; cbn [slot_ok write_slot].
  - intros _. eexists. split; [done|]. by split.
  - intros [t Ht]. unfold upd_task, task_at. rewrite Ht. eexists. split; [done|]. split; try done; cbn [tasks with_tasks]; intros r; unfold core, itail.
    + destruct (decide (r = p)) as [->|]; [rewrite lookup_insert_eq, Ht; split; by eexists|by rewrite lookup_insert_ne].
    + case_decide as Hr; [injection Hr as ->; by rewrite lookup_insert_eq, Ht|]. rewrite lookup_insert_ne by congruence. done.
    + rewrite decide_False by done. destruct (decide (p = r)) as [->|]; [by rewrite lookup_insert_eq, Ht|by rewrite lookup_insert_ne].
  - intros _. eexists. split; [done|]. by split.
  - intros [t Ht]. unfold upd_task, task_at. rewrite Ht. eexists. split; [done|]. split; try done; cbn [tasks with_tasks]; intros r; unfold core, itail.
    + destruct (decide (r = p)) as [->|]; [rewrite lookup_insert_eq, Ht; split; by eexists|by rewrite lookup_insert_ne].
    + rewrite decide_False by done. destruct (decide (p = r)) as [->|]; [by rewrite lookup_insert_eq, Ht|by rewrite lookup_insert_ne].
    + case_decide as Hr; [injection Hr as ->; by rewrite lookup_insert_eq|]. rewrite lookup_insert_ne by congruence. done.
Qed.

Lemma writes_ok s v q q' s' : writes s v q q' -> slot_ok q s' -> slot_ok q' s'.
Proof. intros W. destruct s'; cbn; try done; by rewrite (w_dom _ _ _ _ W). Qed.

Lemma writes_read s v q q' : writes s v q q' -> slot_ok q s -> s <> First_input -> read_slot q' s = Ok v.
Proof.
  intros [W1 W2 W3 W4 W5 W6 W7] Hs Hf. destruct s as [|r| |r]; [done| |cbn; by rewrite W5|].
  - destruct (proj2 (W1 r) Hs) as [t Ht]. pose proof (W2 r) as H. rewrite decide_True in H by done. cbn [read_slot]. unfold task_at. rewrite Ht.
    unfold core in H. rewrite Ht in H. destruct Hs as [t' Ht']. rewrite Ht' in H. cbn in H |- *. by injection H as _ _ _ ->.
  - destruct (proj2 (W1 r) Hs) as [t Ht]. pose proof (W3 r) as H. rewrite decide_True in H by done. cbn [read_slot]. unfold task_at. rewrite Ht.
    unfold itail in H. rewrite Ht in H. cbn in H |- *. by injection H as ->.
Qed.

(** Performs the next write. *)
Ltac write W := match goal with |- context [write_slot ?s ?v ?q] =>
  let q' := fresh "q" in let E := fresh "E" in destruct (write_slot_Ok s v q) as (q' & E & W); [|rewrite E; clear E; cbn [mbind res_bind]] end.

Lemma read_next q p c : core (tasks q) p = Some c -> read_slot q (Next_of p) = Ok (next_of c).
Proof. unfold core. cbn [read_slot]. unfold task_at. destruct (tasks q !! p); [|done]. intros [= <-]. done. Qed.
Lemma read_itail q p n : itail (tasks q) p = Some n -> read_slot q (Next_itail_of p) = Ok n.
Proof. unfold itail. cbn [read_slot]. unfold task_at. destruct (tasks q !! p); [|done]. intros [= <-]. done. Qed.

Lemma end_slot_snoc first mk l p : end_slot first mk (l ++ [p]) = mk p.
Proof. unfold end_slot. by rewrite last_snoc. Qed.

Lemma end_slot_cons first mk u us : exists v, end_slot first mk (u :: us) = mk v /\ v ∈ u :: us.
Proof.
  unfold end_slot. destruct (last (u :: us)) as [v|] eqn:Hv; [|by apply last_None in Hv]. exists v. split; [done|].
  by apply last_Some_elem_of.
Qed.

Lemma removelast_snoc {A} (l : list A) x : removelast (l ++ [x]) = l.
Proof. by rewrite removelast_app, app_nil_r. Qed.

(** The last end of a sequence, through the pointer to it. *)
Lemma read_last_itail q ts p : linked_tails (tasks q) (ts ++ [p]) None -> first_itail q = head (ts ++ [p]) ->
  read_slot q (end_slot First_itail Next_itail_of ts) = Ok (Some p).
Proof.
  intros Hl Hf. destruct ts as [|u ts _] using rev_ind; [cbn; by rewrite Hf|].
  rewrite end_slot_snoc. apply read_itail. rewrite <- app_assoc in Hl. apply linked_tails_app in Hl as [_ Hl]. apply Hl.
Qed.

Lemma represents_task q l x : represents_lines q l -> x ∈ l -> exists t, tasks q !! ln_at x = Some t /\ it_kind t = ln_kind x /\ it_string t = ln_text x.
Proof.
  intros R Hx. apply list_elem_of_split in Hx as (l1 & l2 & ->). pose proof (rl_linked _ _ R) as Hl. apply linked_app in Hl as [_ [Hc _]].
  unfold core in Hc. destruct (tasks q !! ln_at x) as [t|]; [|done]. exists t. injection Hc as H1 H2 _ _. done.
Qed.

Lemma represents_oob q l x t : represents_lines q l -> x ∈ l -> tasks q !! ln_at x = Some t -> is_oob t = oob_line x.
Proof. intros R Hx Ht. destruct (represents_task q l x R Hx) as (t' & Ht' & Hk & _). rewrite Ht in Ht'. injection Ht' as <-. unfold is_oob, oob_line. by rewrite Hk. Qed.

(** ** Adding a line *)

Lemma core_insert h p t r : core (<[p := t]> h) r = if decide (r = p) then Some (it_kind t, it_string t, it_length t, it_next t) else core h r.
Proof. unfold core. case_decide as Hr; [subst; by rewrite lookup_insert_eq|by rewrite lookup_insert_ne]. Qed.
Lemma itail_insert h p t r : itail (<[p := t]> h) r = if decide (r = p) then Some (it_next_itail t) else itail h r.
Proof. unfold itail. case_decide as Hr; [subst; by rewrite lookup_insert_eq|by rewrite lookup_insert_ne]. Qed.

Section link.
Context (q : input_queue) (l : list line) (p : positive) (kind : task_kind) (s : cstr).
Context (R : represents_lines q l) (Hp : p ∉ ln_at <$> l).
Abbreviation x := (mkLine p kind s).
Abbreviation t := (mkInput kind s (Z.of_nat (length s)) None None).
Abbreviation fresh_q := (with_tasks (<[p := t]> (tasks q)) q).

Lemma in_l_ne r : r ∈ ln_at <$> l -> r <> p.
Proof. by intros Hr ->. Qed.

Lemma fresh_dom r : is_Some (tasks fresh_q !! r) <-> r = p \/ r ∈ ln_at <$> l.
Proof using R.
  cbn [tasks with_tasks]. destruct (decide (r = p)) as [->|].
  - rewrite lookup_insert_eq. split; [by left|by eexists].
  - rewrite lookup_insert_ne, (rl_dom _ _ R) by done. tauto.
Qed.

Lemma fresh_oob y c : y ∈ l -> tasks fresh_q !! ln_at y = Some c -> is_oob c = oob_line y.
Proof using R Hp.
  intros Hy Hc. apply (represents_oob q l y c R Hy). cbn [tasks with_tasks] in Hc. rewrite lookup_insert_ne in Hc; [done|].
  intros E. apply Hp. rewrite E. apply list_elem_of_fmap. by exists y.
Qed.

Lemma link_first : l = [] -> exists q', link_input false p kind s q = Ok q' /\ represents_lines q' [x].
Proof using R.
  clear Hp. intros ->. unfold link_input. destruct R as [_ Hd _ Hf Hl _ Hfi Hli]. cbn in Hf, Hl, Hfi, Hli.
  change (first_input (with_tasks _ _)) with (first_input q). rewrite Hf.
  change (last_itail (with_tasks _ _)) with (last_itail q). rewrite Hli. cbn [write_slot end_slot last mbind res_bind].
  change (last_input (with_first_itail _ _)) with (last_input q). rewrite Hl. cbn [write_slot end_slot last mbind res_bind].
  change (upd_task p (set_next None)) with (write_slot (Next_of p) None).
  write W. { cbn. rewrite lookup_insert_eq. by eexists. }
  eexists. split; [done|]. destruct W as [W1 W2 W3 W4 W5 W6 W7].
  cbn [tasks with_last_input with_first_input with_first_itail with_tasks first_input first_itail last_input last_itail] in *.
  split; cbn [fmap list_fmap tails linked linked_tails head_or ln_at ln_kind ln_text head].
  - apply NoDup_singleton.
  - intros r. rewrite W1. destruct (decide (r = p)) as [->|Hr].
    + rewrite lookup_insert_eq. split; [left|by eexists].
    + rewrite lookup_insert_ne, Hd by done. split; [by intros ?%elem_of_nil|by intros ?%list_elem_of_singleton].
  - split; [|done]. by rewrite W2, decide_True, core_insert, decide_True.
  - by rewrite W4.
  - by rewrite W6.
  - split; [|done]. by rewrite W3, decide_False, itail_insert, decide_True.
  - by rewrite W5.
  - by rewrite W7.
Qed.

(** The ends of sequences that stay ends when the line is added behind [z]. *)
Definition kept_tails (z : line) (ts : list positive) : list positive :=
  if Bool.eqb (oob_line z) (oob_line x) then ts else ts ++ [ln_at z].

Lemma kept_tails_in z ts r : tails l = ts ++ [ln_at z] -> r ∈ kept_tails z ts -> r ∈ ln_at <$> l.
Proof using.
  intros Hts Hr. apply tails_in. rewrite Hts. unfold kept_tails in Hr. destruct (Bool.eqb _ _); [|done]. apply elem_of_app. by left.
Qed.

Lemma tails_back l0 z ts : l = l0 ++ [z] -> tails l = ts ++ [ln_at z] -> tails (l ++ [x]) = kept_tails z ts ++ [p].
Proof using.
  clear R Hp. intros Hl Hts. rewrite Hl, tails_snoc, <- Hl, Hts, removelast_snoc. unfold kept_tails. by destruct (Bool.eqb _ _).
Qed.

(** What the writes make of the queue. *)
Record linked_back (z : line) (ts : list positive) (q' : input_queue) : Prop := {
  lb_dom r : is_Some (tasks q' !! r) <-> r = p \/ r ∈ ln_at <$> l;
  lb_core r : core (tasks q') r = if decide (r = p) then Some (kind, s, Z.of_nat (length s), None)
    else if decide (r = ln_at z) then with_next (Some p) <$> core (tasks q) r else core (tasks q) r;
  lb_itail r : itail (tasks q') r = if decide (end_slot First_itail Next_itail_of (kept_tails z ts) = Next_itail_of r) then Some (Some p)
    else if decide (r = p) then Some None else itail (tasks q) r;
  lb_first_input : first_input q' = first_input q;
  lb_first_itail : first_itail q' = if decide (end_slot First_itail Next_itail_of (kept_tails z ts) = First_itail) then Some p else first_itail q;
  lb_last_input : last_input q' = Next_of p;
  lb_last_itail : last_itail q' = end_slot First_itail Next_itail_of (kept_tails z ts) }.

Lemma back_tails z ts q' : linked_back z ts q' -> tails l = ts ++ [ln_at z] -> linked_tails (tasks q') (kept_tails z ts ++ [p]) None.
Proof using R Hp.
  intros B Hts. pose proof (rl_tails _ _ R) as Hlt. rewrite Hts in Hlt. apply linked_tails_app. cbn [head_or].
  assert (Hne : forall r, r ∈ kept_tails z ts -> r <> p) by (intros r Hr; by eapply in_l_ne, kept_tails_in).
  split; [|split; [|done]].
  - destruct (kept_tails z ts) as [|u us _] eqn:Hk using rev_ind; [done|]. apply linked_tails_app. split; [|split; [|done]].
    + eapply (linked_tails_ext (tasks q)).
      * intros r Hr. rewrite (lb_itail _ _ _ B), Hk, end_slot_snoc. rewrite decide_False, decide_False; [done| |].
        { apply Hne, elem_of_app. by left. }
        intros [= ->]. assert (Hnd : NoDup (kept_tails z ts)).
        { pose proof (tails_nodup _ (rl_nodup _ _ R)) as Hn. rewrite Hts in Hn. unfold kept_tails. destruct (Bool.eqb _ _); [|done].
          by apply NoDup_app in Hn as [Hn _]. }
        rewrite Hk in Hnd. apply NoDup_app in Hnd as (_ & Hn & _). apply (Hn _ Hr). by apply list_elem_of_singleton.
      * cbn [head_or]. unfold kept_tails in Hk. destruct (Bool.eqb _ _).
        { subst ts. rewrite <- app_assoc in Hlt. by apply linked_tails_app in Hlt as [Hlt _]. }
        { apply app_inj_tail in Hk as [-> <-]. by apply linked_tails_app in Hlt as [Hlt _]. }
    + by rewrite (lb_itail _ _ _ B), Hk, end_slot_snoc, decide_True.
  - rewrite (lb_itail _ _ _ B), decide_False, decide_True; [done..|]. unfold end_slot. destruct (last (kept_tails z ts)) as [u|] eqn:Hu; [|done].
    intros [= ->]. apply last_Some in Hu as [us Hu]. apply (Hne p); [|done]. rewrite Hu. apply elem_of_app. right. by apply list_elem_of_singleton.
Qed.

Lemma back_represents l0 z ts q' : l = l0 ++ [z] -> tails l = ts ++ [ln_at z] -> linked_back z ts q' -> represents_lines q' (l ++ [x]).
Proof using R Hp.
  intros Hl Hts B. assert (Hids : ln_at <$> l = (ln_at <$> l0) ++ [ln_at z]) by (by rewrite Hl, fmap_app).
  pose proof (rl_nodup _ _ R) as Hnd. rewrite Hids in Hnd. apply NoDup_app in Hnd as (_ & Hz0 & _).
  pose proof (rl_linked _ _ R) as Hlk. rewrite Hl in Hlk. apply linked_app in Hlk as [Hlk0 [Hlkz _]].
  pose proof (tails_back l0 z ts Hl Hts) as Htl. pose proof (rl_first_itail _ _ R) as Hfi. rewrite Hts in Hfi. split.
  - rewrite fmap_app. apply NoDup_app. split; [apply R|]. split; [by intros r Hr ->%list_elem_of_singleton|apply NoDup_singleton].
  - intros r. rewrite (lb_dom _ _ _ B), fmap_app, elem_of_app. cbn [fmap list_fmap ln_at]. rewrite list_elem_of_singleton. tauto.
  - rewrite Hl, <- app_assoc. apply linked_app. split; [|cbn [app linked fmap list_fmap head_or ln_at ln_kind ln_text]; split; [|split; [|done]]].
    + eapply linked_ext; [|exact Hlk0]. intros r Hr. rewrite (lb_core _ _ _ B), decide_False, decide_False; [done| |].
      * intros ->. apply (Hz0 _ Hr). by apply list_elem_of_singleton.
      * intros ->. apply Hp. rewrite Hids. apply elem_of_app. by left.
    + rewrite (lb_core _ _ _ B), decide_False, decide_True, Hlkz; [done|done|]. intros E. apply Hp. rewrite Hids, <- E. apply elem_of_app. right.
      by apply list_elem_of_singleton.
    + by rewrite (lb_core _ _ _ B), decide_True.
  - rewrite (lb_first_input _ _ _ B), (rl_first _ _ R), fmap_app, Hids. by destruct l0.
  - rewrite (lb_last_input _ _ _ B), fmap_app. symmetry. apply (end_slot_snoc First_input Next_of).
  - rewrite Htl. by eapply back_tails.
  - rewrite Htl, (lb_first_itail _ _ _ B), Hfi. unfold kept_tails. destruct (Bool.eqb _ _).
    + unfold end_slot. destruct (last ts) as [u|] eqn:Hu; [|by apply last_None in Hu as ->]. rewrite decide_False by done.
      by destruct ts.
    + rewrite end_slot_snoc, decide_False by done. by destruct ts.
  - by rewrite Htl, (lb_last_itail _ _ _ B), removelast_snoc.
Qed.

(** The last three writes. *)
Lemma write_back z ts q1 : ln_at z ∈ ln_at <$> l -> tails l = ts ++ [ln_at z] -> tasks q1 = tasks fresh_q -> first_input q1 = first_input q ->
  last_input q1 = Next_of (ln_at z) -> first_itail q1 = first_itail q -> last_itail q1 = end_slot First_itail Next_itail_of (kept_tails z ts) ->
  exists q', (q1 ← write_slot (last_itail q1) (Some p) q1; q2 ← write_slot (last_input q1) (Some p) q1;
    upd_task p (set_next None) (with_last_input (Next_of p) q2)) = Ok q' /\ linked_back z ts q'.
Proof using R Hp.
  intros Hz Hts Qt Qf Ql Qfi Qli. rewrite Qli. set (e := end_slot _ _ _).
  assert (Hs : e <> First_input /\ (forall r, e <> Next_of r)) by (unfold e, end_slot; by destruct (last _)). destruct Hs as [Hs1 Hs2].
  write W1.
  { unfold e, end_slot. destruct (last (kept_tails z ts)) as [u|] eqn:Hu; [|done]. apply last_Some in Hu as [us Hu]. cbn [slot_ok]. rewrite Qt.
    apply fresh_dom. right. eapply kept_tails_in; [exact Hts|]. rewrite Hu. apply elem_of_app. right. by apply list_elem_of_singleton. }
  rewrite (w_last_input _ _ _ _ W1), Ql.
  write W2. { eapply writes_ok; [exact W1|]. cbn [slot_ok]. rewrite Qt. apply fresh_dom. by right. }
  change (upd_task p (set_next None)) with (write_slot (Next_of p) None).
  write W3. { cbn [slot_ok tasks with_last_input]. rewrite (w_dom _ _ _ _ W2), (w_dom _ _ _ _ W1), Qt. apply fresh_dom. by left. }
  eexists. split; [done|]. destruct W1 as [A1 A2 A3 A4 A5 A6 A7], W2 as [B1 B2 B3 B4 B5 B6 B7], W3 as [C1 C2 C3 C4 C5 C6 C7].
  cbn [tasks with_last_input first_input first_itail last_input last_itail] in C1, C2, C3, C4, C5, C6, C7.
  rewrite Qt in A1, A2, A3. split; fold e.
  - intros r. by rewrite C1, B1, A1, fresh_dom.
  - intros r. rewrite C2, B2, A2, (decide_False (P := e = Next_of r)) by done. cbn [tasks with_tasks]. rewrite core_insert.
    repeat case_decide; subst; try done; congruence.
  - intros r. rewrite C3, B3, A3, !(decide_False (P := Next_of _ = Next_itail_of r)) by done. cbn [tasks with_tasks]. by rewrite itail_insert.
  - by rewrite C4, B4, A4, !decide_False.
  - by rewrite C5, B5, A5, (decide_False (P := Next_of p = _)), (decide_False (P := Next_of _ = _)), Qfi.
  - by rewrite C6.
  - by rewrite C7, B7, A7.
Qed.

Lemma link_back l0 z : l = l0 ++ [z] -> exists q', link_input false p kind s q = Ok q' /\ represents_lines q' (l ++ [x]).
Proof using R Hp.
  intros Hl. assert (Hz : z ∈ l) by (rewrite Hl; apply elem_of_app; right; by apply list_elem_of_singleton).
  assert (Hids : ln_at <$> l = (ln_at <$> l0) ++ [ln_at z]) by (by rewrite Hl, fmap_app).
  assert (Hts : exists ts, tails l = ts ++ [ln_at z]).
  { pose proof (tails_last l) as Ht. rewrite Hids, last_snoc in Ht. apply last_Some in Ht as [ts Ht]. by exists ts. }
  destruct Hts as [ts Hts]. enough (He : exists q', link_input false p kind s q = Ok q' /\ linked_back z ts q').
  { destruct He as (q' & He & B). exists q'. split; [done|]. by eapply back_represents. }
  pose proof (rl_tails _ _ R) as Hlt. pose proof (rl_first_itail _ _ R) as Hfi. pose proof (rl_last_itail _ _ R) as Hli.
  rewrite Hts in Hlt, Hfi, Hli. rewrite removelast_snoc in Hli.
  assert (Hlt0 : linked_tails (tasks fresh_q) (ts ++ [ln_at z]) None).
  { eapply linked_tails_ext; [|exact Hlt]. intros r Hr. cbn [tasks with_tasks]. rewrite itail_insert, decide_False; [done|].
    apply in_l_ne, tails_in. by rewrite Hts. }
  pose proof (rl_first _ _ R) as Hfst. pose proof (rl_last _ _ R) as Hlst. rewrite Hids, end_slot_snoc in Hlst.
  assert (Hsome : exists f, first_input q = Some f) by (rewrite Hfst, Hids; destruct l0; cbn; by eexists). destruct Hsome as [f Hf].
  unfold link_input. change (first_input (with_tasks _ _)) with (first_input q). rewrite Hf.
  change (last_itail (with_tasks _ _)) with (last_itail q). rewrite Hli. rewrite (read_last_itail fresh_q ts (ln_at z)) by done. cbn [mbind res_bind deref].
  assert (Hin : forall r, r ∈ ln_at <$> l -> is_Some (tasks fresh_q !! r)) by (intros r Hr; apply fresh_dom; by right).
  assert (Hzin : ln_at z ∈ ln_at <$> l) by (apply list_elem_of_fmap; by exists z). destruct (Hin _ Hzin) as [c Hc].
  unfold task_at at 1. rewrite Hc. cbn [deref mbind res_bind]. rewrite (fresh_oob z c Hz Hc). change (is_oob t) with (oob_line x).
  set (q1 := if Bool.eqb (oob_line z) (oob_line x) then _ else _).
  assert (Hq1 : tasks q1 = tasks fresh_q /\ first_input q1 = first_input q /\ last_input q1 = Next_of (ln_at z) /\ first_itail q1 = first_itail q /\
    last_itail q1 = end_slot First_itail Next_itail_of (kept_tails z ts)).
  { unfold q1, kept_tails. destruct (Bool.eqb _ _); [done|]. by rewrite end_slot_snoc. }
  destruct Hq1 as (Qt & Qf & Ql & Qfi & Qli). by apply write_back.
Qed.

(** What the writes of an insertion in front of [z] make of the queue. *)
Record linked_front (z : line) (q' : input_queue) : Prop := {
  lf_dom r : is_Some (tasks q' !! r) <-> r = p \/ r ∈ ln_at <$> l;
  lf_core r : core (tasks q') r = if decide (r = p) then Some (kind, s, Z.of_nat (length s), Some (ln_at z)) else core (tasks q) r;
  lf_itail r : r <> p -> itail (tasks q') r = itail (tasks q) r;
  lf_first_input : first_input q' = Some p;
  lf_last_input : last_input q' = last_input q;
  lf_ends : if Bool.eqb (oob_line z) (oob_line x) then first_itail q' = first_itail q /\ last_itail q' = last_itail q
    else itail (tasks q') p = Some (first_itail q) /\ first_itail q' = Some p /\
      last_itail q' = if decide (last_itail q = First_itail) then Next_itail_of p else last_itail q }.

Lemma front_represents z l0 q' : l = z :: l0 -> linked_front z q' -> represents_lines q' (x :: l).
Proof using R Hp.
  intros Hl [F1 F2 F3 F4 F5 F6].
  assert (Hlt : linked_tails (tasks q') (tails l) None).
  { eapply linked_tails_ext; [|apply (rl_tails _ _ R)]. intros r Hr. apply F3, in_l_ne. by apply tails_in. }
  assert (Htl : tails (x :: l) = if Bool.eqb (oob_line z) (oob_line x) then tails l else p :: tails l).
  { rewrite Hl. rewrite tails_cons. by destruct (oob_line z), (oob_line x). }
  assert (Hne : tails l <> []) by (intros Ht%tails_nil; by rewrite Hl in Ht).
  split; rewrite ?Htl.
  - change (ln_at <$> x :: l) with (p :: (ln_at <$> l)). apply NoDup_cons. split; [done|apply R].
  - intros r. rewrite F1. change (ln_at <$> x :: l) with (p :: (ln_at <$> l)). by rewrite elem_of_cons.
  - cbn [linked ln_at ln_kind ln_text]. split; [by rewrite F2, decide_True, Hl|].
    eapply linked_ext; [|apply (rl_linked _ _ R)]. intros r Hr. rewrite F2, decide_False; [done|]. by apply in_l_ne.
  - by rewrite F4.
  - rewrite F5, (rl_last _ _ R), Hl. done.
  - destruct (Bool.eqb _ _); [done|]. cbn [linked_tails]. split; [|done]. destruct F6 as [-> _]. by rewrite (rl_first_itail _ _ R), head_or_None.
  - destruct (Bool.eqb _ _); [by rewrite (proj1 F6), (rl_first_itail _ _ R)|]. by rewrite (proj1 (proj2 F6)).
  - destruct (Bool.eqb _ _); [by rewrite (proj2 F6), (rl_last_itail _ _ R)|]. rewrite (proj2 (proj2 F6)), (rl_last_itail _ _ R).
    destruct (tails l) as [|u us]; [done|]. cbn [removelast]. destruct us as [|w us]; [by rewrite decide_True|].
    rewrite decide_False; [done|]. destruct (end_slot_cons First_itail Next_itail_of u (removelast (w :: us))) as (v & -> & _). done.
Qed.

Lemma link_front z l0 : l = z :: l0 -> exists q', link_input true p kind s q = Ok q' /\ represents_lines q' (x :: l).
Proof using R Hp.
  intros Hl. enough (He : exists q', link_input true p kind s q = Ok q' /\ linked_front z q').
  { destruct He as (q' & He & B). exists q'. split; [done|]. by eapply front_represents. }
  assert (Hz : z ∈ l) by (rewrite Hl; left). assert (Hzin : ln_at z ∈ ln_at <$> l) by (apply list_elem_of_fmap; by exists z).
  pose proof (rl_first _ _ R) as Hf. rewrite Hl in Hf. cbn in Hf. unfold link_input.
  change (first_input (with_tasks _ _)) with (first_input q). rewrite Hf.
  destruct (proj2 (fresh_dom (ln_at z)) (or_intror Hzin)) as [c Hc]. unfold task_at at 1. rewrite Hc. cbn [deref mbind res_bind].
  rewrite (fresh_oob z c Hz Hc). change (is_oob t) with (oob_line x).
  assert (Hpin : is_Some (tasks fresh_q !! p)) by (apply fresh_dom; by left).
  change (upd_task p (set_next_itail ?v) ?q) with (write_slot (Next_itail_of p) v q).
  destruct (Bool.eqb (oob_line z) (oob_line x)) eqn:Hk.
  - cbn [mbind res_bind]. change (upd_task p (set_next ?v) ?q) with (write_slot (Next_of p) v q). write W; [exact Hpin|].
    eexists. split; [done|]. destruct W as [W1 W2 W3 W4 W5 W6 W7]. split; rewrite ?Hk; cbn [tasks with_first_input first_input last_input first_itail last_itail].
    + intros r. by rewrite W1, fresh_dom.
    + intros r. rewrite W2. cbn [tasks with_tasks first_input]. rewrite core_insert, Hf. repeat case_decide; subst; try done; congruence.
    + intros r Hr. rewrite W3, decide_False by done. cbn [tasks with_tasks]. by rewrite itail_insert, decide_False.
    + done.
    + by rewrite W6.
    + by rewrite W5, W7, decide_False.
  - write W; [exact Hpin|]. set (q1 := if decide _ then _ else _). assert (Hq1 : tasks q1 = tasks q0 /\ first_input q1 = first_input q /\
      last_input q1 = last_input q /\ first_itail q1 = Some p /\ last_itail q1 = if decide (last_itail q = First_itail) then Next_itail_of p else last_itail q).
    { destruct W as [W1 W2 W3 W4 W5 W6 W7]. unfold q1. cbn [last_itail with_first_itail]. rewrite W7. cbn [last_itail with_tasks].
      rewrite (decide_False (P := Next_itail_of p = _)) in W4 by done. destruct (decide (last_itail q = First_itail)); (repeat split); [exact W4|exact W6|exact W4|exact W6|exact W7]. }
    destruct Hq1 as (Qt & Qf & Ql & Qfi & Qli). cbn [mbind res_bind].
    change (upd_task p (set_next ?v) ?q) with (write_slot (Next_of p) v q). write V.
    { cbn [slot_ok]. rewrite Qt, (w_dom _ _ _ _ W). exact Hpin. }
    eexists. split; [done|]. destruct W as [W1 W2 W3 W4 W5 W6 W7], V as [V1 V2 V3 V4 V5 V6 V7].
    split; rewrite ?Hk; cbn [tasks with_first_input first_input last_input first_itail last_itail].
    + intros r. by rewrite V1, Qt, W1, fresh_dom.
    + intros r. rewrite V2, Qt, Qf, W2, Hf, (decide_False (P := Next_itail_of p = _)) by done. cbn [tasks with_tasks]. rewrite core_insert.
      repeat case_decide; subst; try done; congruence.
    + intros r Hr. rewrite V3, Qt, W3, !decide_False by congruence. cbn [tasks with_tasks]. by rewrite itail_insert, decide_False.
    + done.
    + by rewrite V6.
    + rewrite V3, V5, V7, Qt, W3, !(decide_False (P := Next_of p = _)), decide_True by done. done.
Qed.

End link.

(** ** Taking a line *)

(** The first element that satisfies [f], and the others. *)
Fixpoint pick {A} (f : A -> bool) (l : list A) : option (A * list A) :=
  match l with
  | [] => None
  | x :: l => if f x then Some (x, l) else '(y, l') ← pick f l; Some (y, x :: l')
  end.

(** Is a line of that kind asked for? *)
Definition wanted (how : dequeue_how) (is_oob : bool) : bool :=
  match how with DQ_FIRST => true | DQ_OOB => is_oob | DQ_INBAND => negb is_oob end.

Lemma pick_spec {A} (f : A -> bool) l : match pick f l with
  | None => forall x, x ∈ l -> f x = false
  | Some (y, l') => exists l1 l2, l = l1 ++ y :: l2 /\ l' = l1 ++ l2 /\ f y = true /\ forall x, x ∈ l1 -> f x = false
  end.
Proof.
  induction l as [|x l IH]; [by intros x ?%elem_of_nil|]. cbn [pick]. destruct (f x) eqn:Hx.
  - exists [], l. repeat split; [done|]. by intros y ?%elem_of_nil.
  - destruct (pick f l) as [[y l']|]; cbn [mbind option_bind].
    + destruct IH as (l1 & l2 & -> & -> & Hy & H1). exists (x :: l1), l2. repeat split; [done|]. intros z [->|Hz]%elem_of_cons; [done|by apply H1].
    + intros z [->|Hz]%elem_of_cons; [done|by apply IH].
Qed.

Lemma pick_fmap {A B} (g : A -> B) (f : B -> bool) (l : list A) :
  pick f (g <$> l) = option_map (fun p : A * list A => (g p.1, g <$> p.2)) (pick (fun x => f (g x)) l).
Proof.
  induction l as [|x l IH]; [done|]. cbn [fmap list_fmap pick]. destruct (f (g x)); [done|]. change (list_fmap A B g l) with (g <$> l). rewrite IH.
  by destruct (pick _ l) as [[y l']|].
Qed.

(** The first sequence ends at [a]. *)
Lemma tails_same l a m : (forall w, w ∈ l -> oob_line w = oob_line a) -> tails (l ++ a :: m) = tails (a :: m).
Proof.
  induction l as [|z l IH]; intros H; [done|]. cbn [app]. rewrite <- IH by (intros w Hw; apply H; by right).
  assert (Hz : oob_line z = oob_line a) by (apply H; left). destruct l as [|w l]; cbn [app]; rewrite tails_cons.
  - by rewrite Hz, eqb_reflx.
  - rewrite Hz, (H w) by (right; left). by rewrite eqb_reflx.
Qed.

(** Lines in front of [y]: none, or exactly a first sequence, of the other kind. *)
Definition sequence_before (l1 : list line) (y : line) : Prop :=
  forall w, w ∈ l1 -> oob_line w = negb (oob_line y).

Lemma tails_before l1 y l2 : sequence_before l1 y -> tails (l1 ++ y :: l2) = option_list (last (ln_at <$> l1)) ++ tails (y :: l2).
Proof.
  intros H. destruct l1 as [|a l1 _] using rev_ind; [done|]. rewrite fmap_app, last_app. cbn [fmap list_fmap last option_list app].
  rewrite <- app_assoc. cbn [app]. assert (Ha : oob_line a = negb (oob_line y)) by (apply H, elem_of_app; right; by apply list_elem_of_singleton).
  rewrite tails_same, tails_cons.
  - rewrite Ha. by destruct (oob_line y).
  - intros w Hw. rewrite Ha. apply H, elem_of_app. by left.
Qed.

(** Is [y] a sequence of its own in front of [l2]? *)
Definition alone (y : line) (l2 : list line) : bool :=
  match l2 with [] => true | z :: _ => negb (Bool.eqb (oob_line y) (oob_line z)) end.

Lemma tails_alone y l2 : tails (y :: l2) = if alone y l2 then ln_at y :: tails l2 else tails l2.
Proof. destruct l2 as [|z l2]; [done|]. rewrite tails_cons. unfold alone. by destruct (Bool.eqb _ _). Qed.

(** The sequences when [y] is gone. *)
Lemma tails_without l1 y l2 : sequence_before l1 y -> tails (l1 ++ l2) =
  if alone y l2 then match tails l2 with [] => option_list (last (ln_at <$> l1)) | _ => tails l2 end
  else option_list (last (ln_at <$> l1)) ++ tails l2.
Proof.
  intros H. destruct l1 as [|a l1 _] using rev_ind; [cbn; by destruct (alone _ _), (tails l2)|]. rewrite fmap_app, last_app.
  cbn [fmap list_fmap last option_list app]. rewrite <- app_assoc. cbn [app].
  assert (Ha : oob_line a = negb (oob_line y)) by (apply H, elem_of_app; right; by apply list_elem_of_singleton).
  rewrite tails_same by (intros w Hw; rewrite Ha; apply H, elem_of_app; by left). destruct l2 as [|z l2]; [done|].
  rewrite tails_cons, Ha. cbn [alone]. assert (Hne : tails (z :: l2) <> []) by (intros Ht%tails_nil; done).
  revert Hne. generalize (tails (z :: l2)). intros [|u us] Hne; [done|]. by destruct (oob_line y), (oob_line z).
Qed.

(** The last line is linked to something else. *)
Lemma linked_relink h h' l e e' : NoDup (ln_at <$> l) ->
  (forall r, r ∈ ln_at <$> l -> core h' r = if decide (last (ln_at <$> l) = Some r) then with_next e' <$> core h r else core h r) ->
  linked h l e -> linked h' l e'.
Proof.
  destruct l as [|a l _] using rev_ind; [done|]. rewrite fmap_app. cbn [fmap list_fmap]. intros Hn Hc Hl. rewrite last_snoc in Hc.
  apply linked_app in Hl as [Hl [Ha _]]. apply NoDup_app in Hn as (_ & Hn & _). apply linked_app. split.
  - eapply linked_ext; [|exact Hl]. intros r Hr. rewrite Hc by (apply elem_of_app; by left). rewrite decide_False; [done|].
    intros [= <-]. apply (Hn _ Hr). by apply list_elem_of_singleton.
  - split; [|done]. rewrite Hc, decide_True, Ha; [done|done|]. apply elem_of_app. right. by apply list_elem_of_singleton.
Qed.

Section unlink.
Context (q : input_queue) (l1 : list line) (y : line) (l2 : list line).
Context (R : represents_lines q (l1 ++ y :: l2)) (Hb : sequence_before l1 y).
Abbreviation pt := (end_slot First_input Next_of (ln_at <$> l1)).
Abbreviation pitail := (end_slot First_itail Next_itail_of (ln_at <$> l1)).
Abbreviation before := (option_list (last (ln_at <$> l1))).

Lemma split_nodup : (forall r, r ∈ ln_at <$> l1 -> r <> ln_at y) /\ (forall r, r ∈ ln_at <$> l2 -> r <> ln_at y) /\
  (forall r, r ∈ ln_at <$> l1 -> r ∉ ln_at <$> l2) /\ NoDup (ln_at <$> l1) /\ NoDup (ln_at <$> l2).
Proof using R.
  pose proof (rl_nodup _ _ R) as H. rewrite fmap_app in H. apply NoDup_app in H as (H1 & H12 & H2).
  change (ln_at <$> y :: l2) with (ln_at y :: (ln_at <$> l2)) in *. apply NoDup_cons in H2 as [Hy H2]. split; [|split; [|split; [|done]]].
  - intros r Hr ->. apply (H12 _ Hr). left.
  - by intros r Hr ->.
  - intros r Hr Hr2. apply (H12 _ Hr). by right.
Qed.

Lemma ids_in r : r ∈ ln_at <$> l1 ++ y :: l2 <-> r ∈ ln_at <$> l1 \/ r = ln_at y \/ r ∈ ln_at <$> l2.
Proof using. rewrite fmap_app, elem_of_app. cbn [fmap list_fmap]. by rewrite elem_of_cons. Qed.

Lemma last_before r : last (ln_at <$> l1) = Some r -> r ∈ ln_at <$> l1.
Proof using. apply last_Some_elem_of. Qed.

Lemma pt_ok : slot_ok q pt /\ slot_ok q pitail.
Proof using R.
  unfold end_slot. destruct (last _) as [r|] eqn:Hr; [|done]. cbn [slot_ok].
  assert (H : is_Some (tasks q !! r)) by (apply (rl_dom _ _ R), ids_in; left; by apply last_before). done.
Qed.

Lemma core_y : core (tasks q) (ln_at y) = Some (ln_kind y, ln_text y, Z.of_nat (length (ln_text y)), head (ln_at <$> l2)).
Proof using R. pose proof (rl_linked _ _ R) as H. apply linked_app in H as [_ [H _]]. by rewrite head_or_None in H. Qed.

(** What the first half makes of the queue. *)
Record thread_cut (q' : input_queue) : Prop := {
  tc_dom r : is_Some (tasks q' !! r) <-> is_Some (tasks q !! r);
  tc_core r : r <> ln_at y -> core (tasks q') r = if decide (pt = Next_of r) then with_next (head (ln_at <$> l2)) <$> core (tasks q) r else core (tasks q) r;
  tc_data : (fun c => c.1) <$> core (tasks q') (ln_at y) = Some (ln_kind y, ln_text y, Z.of_nat (length (ln_text y)));
  tc_itail r : itail (tasks q') r = itail (tasks q) r;
  tc_first_input : first_input q' = if decide (pt = First_input) then head (ln_at <$> l2) else first_input q;
  tc_last_input : last_input q' = match head (ln_at <$> l2) with None => pt | _ => last_input q end;
  tc_first_itail : first_itail q' = first_itail q;
  tc_last_itail : last_itail q' = last_itail q }.

Lemma unlink_thread_Ok : exists q', unlink_thread pt (ln_at y) q = Ok q' /\ thread_cut q'.
Proof using R.
  pose proof core_y as Hy. destruct split_nodup as (H1y & H2y & _). unfold unlink_thread.
  assert (Hn : exists t, tasks q !! ln_at y = Some t /\ it_next t = head (ln_at <$> l2)).
  { unfold core in Hy. destruct (tasks q !! ln_at y) as [t|]; [|done]. exists t. by injection Hy as _ _ _ ?. }
  destruct Hn as (t & Ht & Hn). unfold task_at at 1. rewrite Ht. cbn [deref mbind res_bind]. rewrite Hn.
  write W; [apply pt_ok|]. destruct W as [W1 W2 W3 W4 W5 W6 W7].
  assert (Hpt : pt <> Next_of (ln_at y) /\ pt <> First_itail /\ forall r, pt <> Next_itail_of r).
  { unfold end_slot. destruct (last _) as [r|] eqn:Hr; [|done]. repeat split; try done. intros [= ->]. by apply (H1y (ln_at y)), eq_refl; apply last_before. }
  destruct Hpt as (Hpy & Hp1 & Hp2). destruct (head (ln_at <$> l2)) as [n|] eqn:Hh; revgoals.
  - eexists. split; [done|]. split; cbn [tasks with_last_input first_input last_input first_itail last_itail].
    + done.
    + intros r _. by rewrite W2, Hh.
    + by rewrite W2, decide_False, Hy.
    + intros r. by rewrite W3, decide_False.
    + by rewrite W4, Hh.
    + by rewrite Hh.
    + by rewrite W5, decide_False.
    + done.
  - change (upd_task ?p (set_next None)) with (write_slot (Next_of p) None). write V.
    { cbn [slot_ok]. rewrite W1, Ht. by eexists. }
    eexists. split; [done|]. destruct V as [V1 V2 V3 V4 V5 V6 V7]. split.
    + intros r. by rewrite V1.
    + intros r Hr. rewrite V2, W2, Hh, decide_False by congruence. done.
    + rewrite V2, W2, decide_True, decide_False, Hy by done. done.
    + intros r. by rewrite V3, W3, !decide_False.
    + by rewrite V4, W4, Hh, decide_False.
    + by rewrite V6, W6, Hh.
    + by rewrite V5, W5, !decide_False.
    + by rewrite V7, W7.
Qed.

(** What the second half makes of it. *)
Record ends_cut (q1 q' : input_queue) : Prop := {
  ec_dom r : is_Some (tasks q' !! r) <-> is_Some (tasks q1 !! r);
  ec_core r : core (tasks q') r = core (tasks q1) r;
  ec_first_input : first_input q' = first_input q1;
  ec_last_input : last_input q' = last_input q1;
  ec_ends : if alone y l2 then
      (forall r, r <> ln_at y -> itail (tasks q') r = if decide (pitail = Next_itail_of r) then Some None else itail (tasks q) r) /\
      first_itail q' = match tails l2 with n :: _ => Some n | [] => if decide (pitail = First_itail) then None else first_itail q end /\
      last_itail q' = match tails l2 with _ :: _ :: _ => last_itail q | _ => First_itail end
    else (forall r, itail (tasks q') r = itail (tasks q) r) /\ first_itail q' = first_itail q /\ last_itail q' = last_itail q }.

Lemma ends_before : linked_tails (tasks q) before (head (tails (y :: l2))) /\ linked_tails (tasks q) (tails (y :: l2)) None.
Proof using R Hb.
  pose proof (rl_tails _ _ R) as H. rewrite (tails_before _ _ _ Hb) in H. apply linked_tails_app in H. by rewrite head_or_None in H.
Qed.

Lemma read_pitail q1 : thread_cut q1 -> read_slot q1 pitail = Ok (head (tails (y :: l2))).
Proof using R Hb.
  intros T. pose proof (rl_first_itail _ _ R) as Hf. rewrite (tails_before _ _ _ Hb) in Hf. destruct ends_before as [Hl _].
  unfold end_slot. destruct (last (ln_at <$> l1)) as [a|]; cbn [option_list app] in *.
  - apply read_itail. rewrite (tc_itail _ T). apply Hl.
  - cbn [read_slot]. by rewrite (tc_first_itail _ T), Hf.
Qed.

Lemma pitail_ne : pitail <> First_input /\ (forall r, pitail <> Next_of r) /\ pitail <> Next_itail_of (ln_at y).
Proof using R.
  unfold end_slot. destruct (last _) as [r|] eqn:Hr; [|done]. repeat split; try done. intros [= ->].
  destruct split_nodup as [H _]. by apply (H (ln_at y)), eq_refl; apply last_before.
Qed.

Lemma last_itail_alone : alone y l2 = true ->
  last_itail q = match tails l2 with [] => pitail | _ => end_slot First_itail Next_itail_of (ln_at y :: removelast (tails l2)) end.
Proof using R Hb.
  intros Ha. rewrite (rl_last_itail _ _ R), (tails_before _ _ _ Hb), tails_alone, Ha. rewrite removelast_app by done.
  destruct (tails l2) as [|n ts] eqn:Ht.
  - cbn [removelast]. rewrite app_nil_r. unfold end_slot. by destruct (last (ln_at <$> l1)).
  - change (removelast (ln_at y :: n :: ts)) with (ln_at y :: removelast (n :: ts)). unfold end_slot. rewrite last_app.
    by destruct (last (ln_at y :: _)) eqn:E; [|apply last_None in E].
Qed.

(** What the pointer to the last end is after the writes, when [n] and [ts] are the ends that are left. *)
Lemma read_last_end q0 q2 n ts : writes (Next_itail_of (ln_at y)) None q0 q2 -> slot_ok q0 (Next_itail_of (ln_at y)) -> tails l2 = n :: ts ->
  last_itail q = end_slot First_itail Next_itail_of (ln_at y :: removelast (n :: ts)) ->
  (forall r, r <> ln_at y -> itail (tasks q2) r = if decide (pitail = Next_itail_of r) then Some None else itail (tasks q) r) ->
  read_slot q2 (last_itail q) = Ok (if ts is [] then None else last ts).
Proof using R Hb.
  intros V Hok Ht Hli Hi. destruct split_nodup as (H1y & H2y & H12 & _). rewrite Hli. destruct ts as [|m ts _] using rev_ind.
  { cbn [removelast]. apply (writes_read _ _ _ _ V Hok). done. }
  change (n :: ts ++ [m]) with ((n :: ts) ++ [m]) in *. rewrite removelast_snoc, last_snoc.
  change (end_slot First_itail Next_itail_of (ln_at y :: n :: ts)) with (end_slot First_itail Next_itail_of (n :: ts)).
  destruct (end_slot_cons First_itail Next_itail_of n ts) as (u & Hu & Hin). rewrite Hu.
  assert (Hu2 : u ∈ ln_at <$> l2) by (apply tails_in; rewrite Ht; apply elem_of_app; by left).
  rewrite (read_itail q2 u (Some m)); [by destruct ts|]. rewrite Hi by (by apply H2y). rewrite decide_False.
  - destruct ends_before as [_ Hlt]. rewrite tails_alone in Hlt. assert (Hlt2 : linked_tails (tasks q) ((n :: ts) ++ [m]) None).
    { rewrite <- Ht. destruct (alone y l2); [by destruct Hlt|done]. }
    unfold end_slot in Hu. destruct (last (n :: ts)) as [u'|] eqn:Hl; [|done]. injection Hu as ->. apply last_Some in Hl as [us Hl].
    rewrite Hl, <- app_assoc in Hlt2. apply linked_tails_app in Hlt2 as [_ [Hlt2 _]]. exact Hlt2.
  - unfold end_slot. destruct (last (ln_at <$> l1)) as [a|] eqn:Hl; [|done]. intros [= ->]. apply (H12 u); [by apply last_before|done].
Qed.

Lemma unlink_itail_Ok q1 : thread_cut q1 -> exists q', unlink_itail pitail (ln_at y) q1 = Ok q' /\ ends_cut q1 q'.
Proof using R Hb.
  intros T. destruct split_nodup as (H1y & H2y & _). destruct pitail_ne as (Hp1 & Hp2 & Hp3). destruct ends_before as [_ Hlt]. unfold unlink_itail.
  rewrite (read_pitail q1 T), tails_alone. cbn [mbind res_bind]. rewrite tails_alone in Hlt. destruct (alone y l2) eqn:Ha.
  2:{ rewrite decide_False.
      - eexists. split; [done|]. split; try done. rewrite Ha. split; [apply (tc_itail _ T)|]. split; [apply (tc_first_itail _ T)|apply (tc_last_itail _ T)].
      - intros Hh%head_Some_elem_of. apply (H2y (ln_at y)); [by apply tails_in|done]. }
  cbn [head]. rewrite decide_True by done. destruct Hlt as [Hiy Hlt]. rewrite head_or_None in Hiy. pose proof (last_itail_alone Ha) as Hli.
  assert (Hpok : slot_ok q1 pitail).
  { destruct pt_ok as [_ Hok]. revert Hok. unfold end_slot. destruct (last _); [|done]. cbn [slot_ok]. by rewrite (tc_dom _ T). }
  write W; [exact Hpok|]. pose proof W as [W1 W2 W3 W4 W5 W6 W7].
  assert (Hy : itail (tasks q0) (ln_at y) = Some (head (tails l2))) by (by rewrite W3, decide_False, (tc_itail _ T)).
  assert (Hc : exists c, tasks q0 !! ln_at y = Some c /\ it_next_itail c = head (tails l2)).
  { unfold itail in Hy. destruct (tasks q0 !! ln_at y) as [c|]; [|done]. exists c. by injection Hy. }
  destruct Hc as (c & Hc & Hcn). unfold task_at at 1. rewrite Hc. cbn [deref mbind res_bind]. rewrite Hcn.
  destruct (tails l2) as [|n ts] eqn:Ht; cbn [head].
  - cbn [mbind res_bind]. rewrite W7, (tc_last_itail _ T), Hli, (writes_read _ _ _ _ W Hpok Hp1). cbn [mbind res_bind].
    eexists. split; [done|]. split; cbn [tasks with_last_itail first_input last_input first_itail last_itail].
    + done.
    + intros r. by rewrite W2, decide_False.
    + by rewrite W4, decide_False.
    + done.
    + rewrite Ha, Ht, W5, (tc_first_itail _ T). split; [|done]. intros r _. by rewrite W3, (tc_itail _ T).
  - change (upd_task ?p (set_next_itail ?v) ?q) with (write_slot (Next_itail_of p) v q).
    assert (Hyok : slot_ok (with_first_itail (Some n) q0) (Next_itail_of (ln_at y))) by (cbn [slot_ok tasks with_first_itail]; by eexists).
    write V; [exact Hyok|]. pose proof V as [V1 V2 V3 V4 V5 V6 V7].
    cbn [tasks with_first_itail first_input last_input first_itail last_itail] in V1, V2, V3, V4, V5, V6, V7.
    assert (Hi : forall r, r <> ln_at y -> itail (tasks q2) r = if decide (pitail = Next_itail_of r) then Some None else itail (tasks q) r).
    { intros r Hr. by rewrite V3, W3, (tc_itail _ T), (decide_False (P := Next_itail_of _ = _)) by congruence. }
    rewrite V7, W7, (tc_last_itail _ T), (read_last_end _ q2 n ts V Hyok Ht Hli Hi). cbn [mbind res_bind].
    eexists. split; [done|]. rewrite decide_False in V4 by done. rewrite decide_False in W4 by done. rewrite decide_False in V5 by done.
    assert (Hcore : forall r, core (tasks q2) r = core (tasks q1) r) by (intros r; by rewrite V2, W2, !decide_False).
    assert (Hdom : forall r, is_Some (tasks q2 !! r) <-> is_Some (tasks q1 !! r)) by (intros r; by rewrite V1, W1).
    destruct ts as [|m ts]; [|destruct (last (m :: ts)) eqn:Hm; [|by apply last_None in Hm]]; split; cbn [tasks with_last_itail first_input last_input first_itail last_itail]; rewrite ?Ha, ?Ht; try done; try congruence.
    split; [done|]. split; [done|]. by rewrite V7, W7, (tc_last_itail _ T).
Qed.

Lemma slot_before {A} (mk : positive -> slot) (first : slot) r (a b : A) : (forall p q, mk p = mk q -> p = q) -> (forall p, first <> mk p) ->
  (if decide (end_slot first mk (ln_at <$> l1) = mk r) then a else b) = if decide (last (ln_at <$> l1) = Some r) then a else b.
Proof using.
  clear R Hb. intros Hinj Hf. unfold end_slot. destruct (last _) as [u|]; [|by rewrite !decide_False]. destruct (decide (u = r)) as [->|Hu].
  - by rewrite !decide_True.
  - rewrite !decide_False; [done|by intros [=]|]. intros H. by apply Hu, Hinj.
Qed.

Lemma without_linked q1 h : thread_cut q1 -> (forall r, r <> ln_at y -> core h r = core (tasks q1) r) -> linked h (l1 ++ l2) None.
Proof using R.
  intros T Hc. destruct split_nodup as (H1y & H2y & H12 & Hn1 & Hn2). pose proof (rl_linked _ _ R) as Hl. apply linked_app in Hl as [Hl1 [_ Hl2]].
  apply linked_app. rewrite head_or_None. split.
  - eapply (linked_relink (tasks q)); [exact Hn1| |exact Hl1]. intros r Hr. rewrite Hc, (tc_core _ T) by (by apply H1y).
    by apply (slot_before Next_of First_input); [intros ?? [=]|].
  - eapply (linked_ext (tasks q)); [|exact Hl2]. intros r Hr. rewrite Hc, (tc_core _ T) by (by apply H2y).
    rewrite (slot_before Next_of First_input) by (by try intros ?? [=]). rewrite decide_False; [done|]. intros Hla%last_before. by apply (H12 r).
Qed.

Lemma without_tails q1 q' h : ends_cut q1 q' -> (forall r, r <> ln_at y -> itail h r = itail (tasks q') r) ->
  linked_tails h (tails (l1 ++ l2)) None /\ first_itail q' = head (tails (l1 ++ l2)) /\
  last_itail q' = end_slot First_itail Next_itail_of (removelast (tails (l1 ++ l2))).
Proof using R Hb.
  intros E Hi. pose proof (ec_ends _ _ E) as Hends. destruct split_nodup as (H1y & H2y & H12 & _). pose proof (rl_first_itail _ _ R) as Hf.
  destruct ends_before as [Hlb Hlt]. pose proof (rl_tails _ _ R) as Hall. rewrite (tails_before _ _ _ Hb), tails_alone in Hf, Hall.
  rewrite tails_alone in Hlt. rewrite (tails_without _ _ _ Hb). destruct (alone y l2) eqn:Ha.
  - destruct Hends as (Hit & Hfi & Hla). pose proof (last_itail_alone Ha) as Hli. destruct (tails l2) as [|n ts] eqn:Ht.
    + rewrite Hfi, Hla, Hf. unfold end_slot in *. destruct (last (ln_at <$> l1)) as [a|] eqn:Hl; [|done]. cbn [option_list linked_tails head removelast last app].
      split; [split; [|done]|by rewrite decide_False]. rewrite Hi, Hit, decide_True; [done|done| |]; by apply H1y, last_before.
    + split; [|split; [done|]].
      * eapply linked_tails_ext; [|apply Hlt]. intros r Hr. assert (Hr2 : r ∈ ln_at <$> l2) by (apply tails_in; by rewrite Ht).
        rewrite Hi, Hit by (by apply H2y). rewrite (slot_before Next_itail_of First_itail) by (by try intros ?? [=]).
        rewrite decide_False; [done|]. intros Hl%last_before. by apply (H12 r).
      * rewrite Hla. by destruct ts.
  - destruct Hends as (Hit & Hfi & Hla). split; [|split].
    + eapply linked_tails_ext; [|exact Hall]. intros r Hr. rewrite Hi, Hit; [done|]. apply elem_of_app in Hr as [Hr|Hr].
      * destruct (last (ln_at <$> l1)) as [a|] eqn:Hl; [|by apply elem_of_nil in Hr]. apply list_elem_of_singleton in Hr as ->. by apply H1y, last_before.
      * by apply H2y, tails_in.
    + by rewrite Hfi, Hf.
    + by rewrite Hla, (rl_last_itail _ _ R), (tails_before _ _ _ Hb), tails_alone, Ha.
Qed.

Lemma unlinked_represents q1 q' : thread_cut q1 -> ends_cut q1 q' -> represents_lines (with_tasks (delete (ln_at y) (tasks q')) q') (l1 ++ l2).
Proof using R Hb.
  intros T [E1 E2 E3 E4 E5]. destruct split_nodup as (H1y & H2y & H12 & Hn1 & Hn2).
  assert (Hc : forall r, r <> ln_at y -> core (delete (ln_at y) (tasks q')) r = core (tasks q1) r).
  { intros r Hr. unfold core at 1. rewrite lookup_delete_ne by done. apply E2. }
  assert (Hi : forall r, r <> ln_at y -> itail (delete (ln_at y) (tasks q')) r = itail (tasks q') r).
  { intros r Hr. unfold itail. by rewrite lookup_delete_ne. }
  pose proof (without_tails q1 q' _ (Build_ends_cut q1 q' E1 E2 E3 E4 E5) Hi) as Hw.
  split; cbn [tasks with_tasks first_input last_input first_itail last_itail].
  - rewrite fmap_app. by apply NoDup_app.
  - intros r. destruct (decide (r = ln_at y)) as [->|Hr].
    + rewrite lookup_delete_eq. split; [by intros []|]. rewrite fmap_app. intros [Hy|Hy]%elem_of_app; [by apply H1y in Hy|by apply H2y in Hy].
    + rewrite lookup_delete_ne by done. rewrite E1, (tc_dom _ T), (rl_dom _ _ R), ids_in, fmap_app, elem_of_app. tauto.
  - by apply (without_linked q1).
  - rewrite E3, (tc_first_input _ T), (rl_first _ _ R). unfold end_slot. destruct l1 as [|a l _] using rev_ind; [by rewrite decide_True|].
    rewrite !fmap_app. cbn [fmap list_fmap]. rewrite last_snoc, decide_False by done. by destruct l.
  - rewrite E4, (tc_last_input _ T), (rl_last _ _ R). unfold end_slot. rewrite !fmap_app, !last_app.
    destruct l2 as [|z l]; [done|]. cbn [fmap list_fmap head]. assert (Hs : is_Some (last (ln_at <$> z :: l))) by (by apply last_is_Some).
    cbn [fmap list_fmap] in *. change (last (ln_at y :: ln_at z :: (ln_at <$> l))) with (last (ln_at z :: (ln_at <$> l))).
    by destruct Hs as [u ->].
  - apply Hw.
  - apply Hw.
  - apply Hw.
Qed.

Lemma slots_found : (if match l1 with [] => false | _ => true end : bool then tail ← deref (first_itail q); Ok (Next_of tail, Next_itail_of tail)
  else Ok (First_input, First_itail)) = Ok (pt, pitail).
Proof using R Hb.
  pose proof (rl_first_itail _ _ R) as Hfi. rewrite (tails_before _ _ _ Hb) in Hfi. unfold end_slot.
  destruct l1 as [|a l _] using rev_ind; [done|]. rewrite fmap_app in *. cbn [fmap list_fmap] in *. rewrite last_snoc in *. rewrite Hfi. by destruct l.
Qed.

Lemma pt_reads : read_slot q pt = Ok (Some (ln_at y)).
Proof using R.
  clear Hb. unfold end_slot. destruct l1 as [|a l _] using rev_ind; [cbn; by rewrite (rl_first _ _ R)|]. rewrite fmap_app. cbn [fmap list_fmap].
  rewrite last_snoc. pose proof (rl_linked _ _ R) as Hlk. rewrite <- app_assoc in Hlk. apply linked_app in Hlk as [_ [Hc _]]. exact (read_next _ _ _ Hc).
Qed.

End unlink.

(** What taking a line does, with the pointers and without. *)
Lemma unlink_found how q l1 y l2 : represents_lines q (l1 ++ y :: l2) -> wanted how (oob_line y) = true ->
  (forall w, w ∈ l1 -> wanted how (oob_line w) = false) ->
  exists t q', unlink_input how q = Ok (Some t, q') /\ it_kind t = ln_kind y /\ it_string t = ln_text y /\
    it_length t = Z.of_nat (length (ln_text y)) /\ represents_lines q' (l1 ++ l2).
Proof.
  intros R Hy H1. assert (Hb : sequence_before l1 y).
  { intros w Hw%H1. destruct how; cbn in *; [done|by destruct (oob_line w), (oob_line y)..]. }
  assert (Hne : exists z l0, l1 ++ y :: l2 = z :: l0 /\ z ∈ l1 ++ y :: l2 /\ skips_first how (oob_line z) = if l1 is [] then false else true).
  { destruct l1 as [|z l1]; cbn [app].
    - exists y, l2. split; [done|]. split; [left|]. by destruct how, (oob_line y).
    - exists z, (l1 ++ y :: l2). split; [done|]. split; [left|]. assert (Hz : wanted how (oob_line z) = false) by (apply H1; left).
      by destruct how, (oob_line z). }
  destruct Hne as (z & l0 & Hl & Hz & Hsk). pose proof (rl_first _ _ R) as Hf. rewrite Hl in Hf. cbn in Hf. unfold unlink_input. rewrite Hf.
  destruct (represents_task q _ z R Hz) as (t & Ht & _).
  assert (Hta : task_at q (ln_at z) = Ok t) by (unfold task_at; by rewrite Ht). rewrite Hta. cbn [mbind res_bind]. rewrite (represents_oob q _ z t R Hz Ht), Hsk.
  rewrite (slots_found q l1 y l2 R Hb). cbn [mbind res_bind].
  rewrite (pt_reads q l1 y l2 R). cbn [mbind res_bind]. destruct (unlink_thread_Ok q l1 y l2 R) as (q1 & E1 & T). rewrite E1. cbn [mbind res_bind].
  destruct (unlink_itail_Ok q l1 y l2 R Hb q1 T) as (q2 & E2 & E). rewrite E2. cbn [mbind res_bind].
  pose proof (tc_data _ _ _ _ _ T) as Hd. rewrite <- (ec_core _ _ _ _ _ _ E) in Hd. unfold core in Hd. unfold task_at.
  destruct (tasks q2 !! ln_at y) as [c|]; [|done]. cbn in Hd. injection Hd as Hd1 Hd2 Hd3. cbn [deref mbind res_bind].
  exists c. eexists. split; [done|]. do 3 (split; [done|]). by eapply unlinked_represents.
Qed.

Lemma unlink_none how q l : represents_lines q l -> (forall w, w ∈ l -> wanted how (oob_line w) = false) -> unlink_input how q = Ok (None, q).
Proof.
  intros R H. destruct l as [|a l _] using rev_ind; unfold unlink_input; [by rewrite (rl_first _ _ R)|].
  assert (Ha : forall w, w ∈ l ++ [a] -> how <> DQ_FIRST /\ oob_line w = oob_line a).
  { intros w Hw. pose proof (H w Hw) as H1. assert (H2 : wanted how (oob_line a) = false) by (apply H, elem_of_app; right; by apply list_elem_of_singleton).
    destruct how; cbn in *; [done|by rewrite H1, H2|by destruct (oob_line w), (oob_line a)]. }
  assert (Hne : exists z l0, l ++ [a] = z :: l0 /\ z ∈ l ++ [a]).
  { destruct l as [|z l]; [exists a, []|exists z, (l ++ [a])]; (split; [done|left]). }
  destruct Hne as (z & l0 & Hl & Hz). pose proof (rl_first _ _ R) as Hf. rewrite Hl in Hf. cbn in Hf. rewrite Hf.
  destruct (represents_task q _ z R Hz) as (t & Ht & _). assert (Hta : task_at q (ln_at z) = Ok t) by (unfold task_at; by rewrite Ht).
  rewrite Hta. cbn [mbind res_bind]. rewrite (represents_oob q _ z t R Hz Ht).
  assert (Hsk : skips_first how (oob_line z) = true) by (pose proof (H z Hz) as Hw; by destruct how, (oob_line z)). rewrite Hsk.
  rewrite (rl_first_itail _ _ R), tails_same by (intros w Hw; apply Ha, elem_of_app; by left). cbn [tails head deref mbind res_bind].
  pose proof (rl_linked _ _ R) as Hlk. apply linked_app in Hlk as [_ [Hc _]]. by rewrite (read_next _ _ _ Hc).
Qed.

(** ** Queues of lines *)

(** A queue as a list of kinds and texts. *)
Definition message : Type := task_kind * cstr.
Definition oob_message (m : message) : bool := bool_decide (m.1 = TASK_OOB).
Definition as_message (x : line) : message := (ln_kind x, ln_text x).
Definition queue_of (q : input_queue) (ms : list message) : Prop := exists l, represents_lines q l /\ as_message <$> l = ms.

Definition add_message (at_front : bool) (m : message) (ms : list message) : list message := if at_front then m :: ms else ms ++ [m].
Definition take_message (how : dequeue_how) : list message -> option (message * list message) := pick (fun m => wanted how (oob_message m)).

Definition task_message (t : input_task) : message := (it_kind t, it_string t).

Lemma empty_queue_of : queue_of empty_queue [].
Proof. exists []. split; [apply empty_represents|done]. Qed.

Lemma link_input_Ok at_front p kind s q ms : queue_of q ms -> p ∉ dom (tasks q) ->
  exists q', link_input at_front p kind s q = Ok q' /\ queue_of q' (add_message at_front (kind, s) ms).
Proof.
  intros (l & R & <-) Hp. assert (Hpl : p ∉ ln_at <$> l) by (intros Hin; apply Hp; by apply elem_of_dom, (rl_dom _ _ R)).
  assert (He : exists q', link_input at_front p kind s q = Ok q' /\ represents_lines q' (if at_front then mkLine p kind s :: l else l ++ [mkLine p kind s])).
  { destruct l as [|z l'].
    - destruct (link_first q [] p kind s R eq_refl) as (q' & E & R'). exists q'. split; [|by destruct at_front]. rewrite <- E.
      unfold link_input. change (first_input (with_tasks _ _)) with (first_input q). by rewrite (rl_first _ _ R).
    - destruct at_front; [by eapply link_front|]. destruct (exists_last (l := z :: l')) as (l0 & a & Hl); [done|]. by eapply link_back. }
  destruct He as (q' & E & R'). exists q'. split; [done|]. eexists. split; [exact R'|]. destruct at_front; [done|]. by rewrite fmap_app.
Qed.

Lemma unlink_input_Ok how q ms : queue_of q ms -> match take_message how ms with
  | None => unlink_input how q = Ok (None, q)
  | Some (m, ms') => exists t q', unlink_input how q = Ok (Some t, q') /\ task_message t = m /\ it_length t = Z.of_nat (length m.2) /\ queue_of q' ms'
  end.
Proof.
  intros (l & R & <-). unfold take_message. rewrite pick_fmap.
  pose proof (pick_spec (fun x => wanted how (oob_message (as_message x))) l) as Hs. destruct (pick _ l) as [[y l']|]; cbn [option_map fst snd].
  - destruct Hs as (l1 & l2 & -> & -> & Hy & H1). destruct (unlink_found how q l1 y l2 R Hy H1) as (t & q' & E & Ht1 & Ht2 & Ht3 & R').
    exists t, q'. split; [done|]. unfold task_message, as_message. rewrite Ht1, Ht2. split; [done|]. split; [done|]. by exists (l1 ++ l2).
  - by apply unlink_none with l.
Qed.

(** ** Any sequence of operations *)

Inductive queue_op := Add (at_front : bool) (m : message) | Take (how : dequeue_how).

Section runs.
Context (mymalloc : gset positive -> positive).

(** The lines that were taken, in order, and the queue in the end. *)
Fixpoint run_ops (ops : list queue_op) (q : input_queue) : res (list (option message) * input_queue) :=
  match ops with
  | [] => Ok ([], q)
  | Add at_front (kind, s) :: ops => q ← link_input at_front (mymalloc (dom (tasks q))) kind s q; run_ops ops q
  | Take how :: ops => '(t, q) ← unlink_input how q; '(ts, q) ← run_ops ops q; Ok (option_map task_message t :: ts, q)
  end.

(** The same with a list. *)
Fixpoint run_messages (ops : list queue_op) (ms : list message) : list (option message) * list message :=
  match ops with
  | [] => ([], ms)
  | Add at_front m :: ops => run_messages ops (add_message at_front m ms)
  | Take how :: ops =>
      match take_message how ms with
      | Some (m, ms) => let r := run_messages ops ms in (Some m :: r.1, r.2)
      | None => let r := run_messages ops ms in (None :: r.1, r.2)
      end
  end.

Context (mymalloc_fresh : forall X, mymalloc X ∉ X).

Lemma run_ops_Ok ops : forall q ms, queue_of q ms ->
  exists q', run_ops ops q = Ok ((run_messages ops ms).1, q') /\ queue_of q' (run_messages ops ms).2.
Proof using mymalloc_fresh.
  induction ops as [|[at_front [kind s]|how] ops IH]; intros q ms Hq; cbn [run_ops run_messages].
  - by exists q.
  - destruct (link_input_Ok at_front _ kind s q ms Hq (mymalloc_fresh _)) as (q' & -> & Hq'). by apply IH.
  - pose proof (unlink_input_Ok how q ms Hq) as H. destruct (take_message how ms) as [[m ms']|].
    + destruct H as (t & q' & -> & <- & _ & Hq'). cbn [mbind res_bind]. destruct (IH q' ms' Hq') as (q'' & -> & Hq'').
      cbn [mbind res_bind option_map fst snd]. by exists q''.
    + rewrite H. cbn [mbind res_bind]. destruct (IH q ms Hq) as (q'' & -> & Hq''). by exists q''.
Qed.

End runs.

(** C17: The two threads of [tasks.c] implement a plain queue: whatever lines are added at its ends and taken - the first one,
    the first out-of-band one or the first other one - from the empty queue on, no null or freed
    pointer is followed, every operation gives the line that a search through the list of all lines
    would, and the pointers in the end represent the lines that are left. *)
Theorem input_queue_refines mymalloc (mymalloc_fresh : forall X, mymalloc X ∉ X) (ops : list queue_op) :
  exists q', run_ops mymalloc ops empty_queue = Ok ((run_messages ops []).1, q') /\ queue_of q' (run_messages ops []).2.
Proof. apply (run_ops_Ok mymalloc mymalloc_fresh). apply empty_queue_of. Qed.

Definition example_ops : list queue_op :=
  [Add false (TASK_INBAND, lit "look"); Add false (TASK_OOB, lit "#$#a"); Add false (TASK_QUOTED, lit "say");
   Take DQ_OOB; Add true (TASK_OOB, lit "#$#b"); Take DQ_INBAND; Take DQ_FIRST; Take DQ_OOB; Take DQ_FIRST].

Lemma input_queue_refines_witness :
  (run_messages example_ops []).1 = [Some (TASK_OOB, lit "#$#a"); Some (TASK_INBAND, lit "look");
    Some (TASK_OOB, lit "#$#b"); None; Some (TASK_QUOTED, lit "say")] /\
  exists q', run_ops (fun X => fresh X) example_ops empty_queue = Ok ((run_messages example_ops []).1, q') /\
    queue_of q' (run_messages example_ops []).2.
Proof.
  split; [reflexivity|]. apply (input_queue_refines (fun X => fresh X)). intros X. apply is_fresh.
Defined.
