(* ===== verification/TaskQueues.v ===== *)
(** * The queues of tasks (src/tasks.c)

    Every player or connection, and every programmer of a background task, has a task queue, with lines of input and
    with background tasks that are ready; queues are active, in the order of their usage, or idle.
    Forked and suspended tasks wait in the order of their start times.  This file has the
    operations that other parts of the server call; running tasks is in [RunTasks].

    The threads of input lines are taken as the lists that [InputQueue] proves them to be. *)

From S2P Require Import Prelude CStrings Values Lists Libc Db Properties Words Ast CodeGen EvalEnv Vm VmTasks InputQueue.

Open Scope Z_scope.

(** ** Intrinsic commands *)

Definition ICMD_SUFFIX : Z := 1.
Definition ICMD_OUTPUTSUFFIX : Z := 2.
Definition ICMD_OUTPUTPREFIX : Z := 3.
Definition ICMD_PREFIX : Z := 4.
Definition ICMD_PROGRAM : Z := 5.
Definition ICMD_ALL_CMDS : Z := Z.shiftl 1 (ICMD_PROGRAM + 1) - 2.

(** The table of [ICMD_FOR_EACH]: numbers, names and matchers. *)
Definition icmd_table : list (Z * cstr * (cstr -> bool)) :=
  [(ICMD_PROGRAM, lit ".program", fun verb => verbcasecmp false (lit ".pr*ogram") verb);
   (ICMD_PREFIX, lit "PREFIX", fun verb => strcmp verb (lit "PREFIX") =? 0);
   (ICMD_SUFFIX, lit "SUFFIX", fun verb => strcmp verb (lit "SUFFIX") =? 0);
   (ICMD_OUTPUTPREFIX, lit "OUTPUTPREFIX", fun verb => strcmp verb (lit "OUTPUTPREFIX") =? 0);
   (ICMD_OUTPUTSUFFIX, lit "OUTPUTSUFFIX", fun verb => strcmp verb (lit "OUTPUTSUFFIX") =? 0)].

(** One entry is chosen by two characters and the length, and then compared. *)
Definition icmd_hash (verb : cstr) : Z :=
  let c2 := if decide (2 < length verb)%nat then at_ verb 2 else 0 in
  let c8 := if decide (8 < length verb)%nat then at_ verb 8 else 0 in
  Z.lxor (Z.land c2 7) 6 + if Z.land c8 2 =? 0 then 1 else 0.
Definition icmd_index (verb : cstr) : Z :=
  match list_find (fun e => e.1.1 = icmd_hash verb) icmd_table with
  | Some (_, (n, _, matches)) => if matches verb then n else 0
  | None => 0
  end.

Definition icmd_list (icmd_flags : Z) : list Var :=
  (fun e => Str e.1.2) <$> filter (fun e => Z.testbit icmd_flags e.1.1 = true) icmd_table.

(** None: the value is not accepted. *)
Fixpoint icmd_names_flags (names : list Var) (newflags : Z) : option Z :=
  match names with
  | [] => Some newflags
  | Str s :: names => let icmd := icmd_index s in if icmd =? 0 then None else icmd_names_flags names (Z.lor newflags (Z.shiftl 1 icmd))
  | _ => None
  end.
Definition icmd_set_flags (v : Var) : option Z :=
  match v with
  | Int _ => Some (if is_true v then ICMD_ALL_CMDS else 0)
  | List names => icmd_names_flags names 0
  | _ => None
  end.

(** ** Tasks and queues *)

(** What is done to connections (src/server.c), in order. *)
Inductive server_call := Notify (player : Z) (s : cstr) | Suspend_input (player : Z) | Resume_input (player : Z).

Definition INPUT_HIWAT : Z := 65536.
Definition INPUT_LOWAT : Z := INPUT_HIWAT / 2.
Definition NO_USAGE : Z := -1.
Definition INT32_MAX : Z := 2 ^ 31 - 1.

Section data.
Context {Data : Type}.

(** A suspended machine, which has at least one activation. *)
Record vmstruct := mkVmstruct {
  vm_task_id : Z; vm_top : activation Data; vm_below : list (activation Data); vm_root : option nat; vm_max : Z }.

Definition top_activ (v : vmstruct) : activation Data := vm_top v.
Definition progr_of_cur_verb (v : vmstruct) : Z := a_progr (top_activ v).
Definition saved (v : vmstruct) : saved_vm := mkSaved (vm_top v :: vm_below v) (vm_root v) (vm_max v).

Record forked_task := mkForked {
  ft_id : Z; ft_program : Program; ft_a : activation Data; ft_rt_env : list Var; ft_f_index : option nat; ft_start_time : Z }.
Record suspended_task := mkSuspended { st_vm : vmstruct; st_start_time : Z; st_value : Var }.

(** A background task. *)
Inductive task := FORKED (f : forked_task) | SUSPENDED (s : suspended_task).

Definition GET_START_TIME (t : task) : Z := match t with FORKED f => ft_start_time f | SUSPENDED s => st_start_time s end.
Definition progr_of_task (t : task) : Z := match t with FORKED f => a_progr (ft_a f) | SUSPENDED s => progr_of_cur_verb (st_vm s) end.
Definition id_of_task (t : task) : Z := match t with FORKED f => ft_id f | SUSPENDED s => vm_task_id (st_vm s) end.

Record tqueue := mkTqueue {
  tq_player : Z; tq_handler : Z; tq_connected : bool; tq_input : list message;
  tq_total : Z; tq_last_id : Z; tq_suspended : bool; tq_bg : list task;
  tq_usage : Z; tq_num_bg : Z; tq_prefix : option cstr; tq_suffix : option cstr;
  tq_flush_cmd : option cstr; tq_program : option (cstr * Z * cstr); tq_hold : bool; tq_disable_oob : bool;
  tq_icmds : Z; tq_reading : option vmstruct }.

Definition set_tq_player (x : Z) (tq : tqueue) : tqueue := mkTqueue x (tq_handler tq) (tq_connected tq) (tq_input tq) (tq_total tq) (tq_last_id tq) (tq_suspended tq) (tq_bg tq) (tq_usage tq) (tq_num_bg tq) (tq_prefix tq) (tq_suffix tq) (tq_flush_cmd tq) (tq_program tq) (tq_hold tq) (tq_disable_oob tq) (tq_icmds tq) (tq_reading tq).
Definition set_tq_handler (x : Z) (tq : tqueue) : tqueue := mkTqueue (tq_player tq) x (tq_connected tq) (tq_input tq) (tq_total tq) (tq_last_id tq) (tq_suspended tq) (tq_bg tq) (tq_usage tq) (tq_num_bg tq) (tq_prefix tq) (tq_suffix tq) (tq_flush_cmd tq) (tq_program tq) (tq_hold tq) (tq_disable_oob tq) (tq_icmds tq) (tq_reading tq).
Definition set_tq_connected (x : bool) (tq : tqueue) : tqueue := mkTqueue (tq_player tq) (tq_handler tq) x (tq_input tq) (tq_total tq) (tq_last_id tq) (tq_suspended tq) (tq_bg tq) (tq_usage tq) (tq_num_bg tq) (tq_prefix tq) (tq_suffix tq) (tq_flush_cmd tq) (tq_program tq) (tq_hold tq) (tq_disable_oob tq) (tq_icmds tq) (tq_reading tq).
Definition set_tq_input (x : list message) (tq : tqueue) : tqueue := mkTqueue (tq_player tq) (tq_handler tq) (tq_connected tq) x (tq_total tq) (tq_last_id tq) (tq_suspended tq) (tq_bg tq) (tq_usage tq) (tq_num_bg tq) (tq_prefix tq) (tq_suffix tq) (tq_flush_cmd tq) (tq_program tq) (tq_hold tq) (tq_disable_oob tq) (tq_icmds tq) (tq_reading tq).
Definition set_tq_total (x : Z) (tq : tqueue) : tqueue := mkTqueue (tq_player tq) (tq_handler tq) (tq_connected tq) (tq_input tq) x (tq_last_id tq) (tq_suspended tq) (tq_bg tq) (tq_usage tq) (tq_num_bg tq) (tq_prefix tq) (tq_suffix tq) (tq_flush_cmd tq) (tq_program tq) (tq_hold tq) (tq_disable_oob tq) (tq_icmds tq) (tq_reading tq).
Definition set_tq_last_id (x : Z) (tq : tqueue) : tqueue := mkTqueue (tq_player tq) (tq_handler tq) (tq_connected tq) (tq_input tq) (tq_total tq) x (tq_suspended tq) (tq_bg tq) (tq_usage tq) (tq_num_bg tq) (tq_prefix tq) (tq_suffix tq) (tq_flush_cmd tq) (tq_program tq) (tq_hold tq) (tq_disable_oob tq) (tq_icmds tq) (tq_reading tq).
Definition set_tq_suspended (x : bool) (tq : tqueue) : tqueue := mkTqueue (tq_player tq) (tq_handler tq) (tq_connected tq) (tq_input tq) (tq_total tq) (tq_last_id tq) x (tq_bg tq) (tq_usage tq) (tq_num_bg tq) (tq_prefix tq) (tq_suffix tq) (tq_flush_cmd tq) (tq_program tq) (tq_hold tq) (tq_disable_oob tq) (tq_icmds tq) (tq_reading tq).
Definition set_tq_bg (x : list task) (tq : tqueue) : tqueue := mkTqueue (tq_player tq) (tq_handler tq) (tq_connected tq) (tq_input tq) (tq_total tq) (tq_last_id tq) (tq_suspended tq) x (tq_usage tq) (tq_num_bg tq) (tq_prefix tq) (tq_suffix tq) (tq_flush_cmd tq) (tq_program tq) (tq_hold tq) (tq_disable_oob tq) (tq_icmds tq) (tq_reading tq).
Definition set_tq_usage (x : Z) (tq : tqueue) : tqueue := mkTqueue (tq_player tq) (tq_handler tq) (tq_connected tq) (tq_input tq) (tq_total tq) (tq_last_id tq) (tq_suspended tq) (tq_bg tq) x (tq_num_bg tq) (tq_prefix tq) (tq_suffix tq) (tq_flush_cmd tq) (tq_program tq) (tq_hold tq) (tq_disable_oob tq) (tq_icmds tq) (tq_reading tq).
Definition set_tq_num_bg (x : Z) (tq : tqueue) : tqueue := mkTqueue (tq_player tq) (tq_handler tq) (tq_connected tq) (tq_input tq) (tq_total tq) (tq_last_id tq) (tq_suspended tq) (tq_bg tq) (tq_usage tq) x (tq_prefix tq) (tq_suffix tq) (tq_flush_cmd tq) (tq_program tq) (tq_hold tq) (tq_disable_oob tq) (tq_icmds tq) (tq_reading tq).
Definition set_tq_prefix (x : option cstr) (tq : tqueue) : tqueue := mkTqueue (tq_player tq) (tq_handler tq) (tq_connected tq) (tq_input tq) (tq_total tq) (tq_last_id tq) (tq_suspended tq) (tq_bg tq) (tq_usage tq) (tq_num_bg tq) x (tq_suffix tq) (tq_flush_cmd tq) (tq_program tq) (tq_hold tq) (tq_disable_oob tq) (tq_icmds tq) (tq_reading tq).
Definition set_tq_suffix (x : option cstr) (tq : tqueue) : tqueue := mkTqueue (tq_player tq) (tq_handler tq) (tq_connected tq) (tq_input tq) (tq_total tq) (tq_last_id tq) (tq_suspended tq) (tq_bg tq) (tq_usage tq) (tq_num_bg tq) (tq_prefix tq) x (tq_flush_cmd tq) (tq_program tq) (tq_hold tq) (tq_disable_oob tq) (tq_icmds tq) (tq_reading tq).
Definition set_tq_flush_cmd (x : option cstr) (tq : tqueue) : tqueue := mkTqueue (tq_player tq) (tq_handler tq) (tq_connected tq) (tq_input tq) (tq_total tq) (tq_last_id tq) (tq_suspended tq) (tq_bg tq) (tq_usage tq) (tq_num_bg tq) (tq_prefix tq) (tq_suffix tq) x (tq_program tq) (tq_hold tq) (tq_disable_oob tq) (tq_icmds tq) (tq_reading tq).
Definition set_tq_program (x : option (cstr * Z * cstr)) (tq : tqueue) : tqueue := mkTqueue (tq_player tq) (tq_handler tq) (tq_connected tq) (tq_input tq) (tq_total tq) (tq_last_id tq) (tq_suspended tq) (tq_bg tq) (tq_usage tq) (tq_num_bg tq) (tq_prefix tq) (tq_suffix tq) (tq_flush_cmd tq) x (tq_hold tq) (tq_disable_oob tq) (tq_icmds tq) (tq_reading tq).
Definition set_tq_hold (x : bool) (tq : tqueue) : tqueue := mkTqueue (tq_player tq) (tq_handler tq) (tq_connected tq) (tq_input tq) (tq_total tq) (tq_last_id tq) (tq_suspended tq) (tq_bg tq) (tq_usage tq) (tq_num_bg tq) (tq_prefix tq) (tq_suffix tq) (tq_flush_cmd tq) (tq_program tq) x (tq_disable_oob tq) (tq_icmds tq) (tq_reading tq).
Definition set_tq_disable_oob (x : bool) (tq : tqueue) : tqueue := mkTqueue (tq_player tq) (tq_handler tq) (tq_connected tq) (tq_input tq) (tq_total tq) (tq_last_id tq) (tq_suspended tq) (tq_bg tq) (tq_usage tq) (tq_num_bg tq) (tq_prefix tq) (tq_suffix tq) (tq_flush_cmd tq) (tq_program tq) (tq_hold tq) x (tq_icmds tq) (tq_reading tq).
Definition set_tq_icmds (x : Z) (tq : tqueue) : tqueue := mkTqueue (tq_player tq) (tq_handler tq) (tq_connected tq) (tq_input tq) (tq_total tq) (tq_last_id tq) (tq_suspended tq) (tq_bg tq) (tq_usage tq) (tq_num_bg tq) (tq_prefix tq) (tq_suffix tq) (tq_flush_cmd tq) (tq_program tq) (tq_hold tq) (tq_disable_oob tq) x (tq_reading tq).
Definition set_tq_reading (x : option vmstruct) (tq : tqueue) : tqueue := mkTqueue (tq_player tq) (tq_handler tq) (tq_connected tq) (tq_input tq) (tq_total tq) (tq_last_id tq) (tq_suspended tq) (tq_bg tq) (tq_usage tq) (tq_num_bg tq) (tq_prefix tq) (tq_suffix tq) (tq_flush_cmd tq) (tq_program tq) (tq_hold tq) (tq_disable_oob tq) (tq_icmds tq) x.

(** The global variables.  [randoms]: what [RANDOM()] will answer; [argv_size]: how many words the tokenizer has room for. *)
Record queues := mkQueues {
  tqueues : gmap positive tqueue; active_tqueues : list positive; idle_tqueues : list positive; waiting_tasks : list task;
  current_task_id : Z; external_queues : list (list vmstruct); randoms : list Z; argv_size : nat;
  server_calls : list server_call }.

Definition set_tqueues (x : gmap positive tqueue) (s : queues) : queues := mkQueues x (active_tqueues s) (idle_tqueues s) (waiting_tasks s) (current_task_id s) (external_queues s) (randoms s) (argv_size s) (server_calls s).
Definition set_active_tqueues (x : list positive) (s : queues) : queues := mkQueues (tqueues s) x (idle_tqueues s) (waiting_tasks s) (current_task_id s) (external_queues s) (randoms s) (argv_size s) (server_calls s).
Definition set_idle_tqueues (x : list positive) (s : queues) : queues := mkQueues (tqueues s) (active_tqueues s) x (waiting_tasks s) (current_task_id s) (external_queues s) (randoms s) (argv_size s) (server_calls s).
Definition set_waiting_tasks (x : list task) (s : queues) : queues := mkQueues (tqueues s) (active_tqueues s) (idle_tqueues s) x (current_task_id s) (external_queues s) (randoms s) (argv_size s) (server_calls s).
Definition set_current_task_id (x : Z) (s : queues) : queues := mkQueues (tqueues s) (active_tqueues s) (idle_tqueues s) (waiting_tasks s) x (external_queues s) (randoms s) (argv_size s) (server_calls s).
Definition set_external_queues (x : list (list vmstruct)) (s : queues) : queues := mkQueues (tqueues s) (active_tqueues s) (idle_tqueues s) (waiting_tasks s) (current_task_id s) x (randoms s) (argv_size s) (server_calls s).
Definition set_randoms (x : list Z) (s : queues) : queues := mkQueues (tqueues s) (active_tqueues s) (idle_tqueues s) (waiting_tasks s) (current_task_id s) (external_queues s) x (argv_size s) (server_calls s).
Definition set_argv_size (x : nat) (s : queues) : queues := mkQueues (tqueues s) (active_tqueues s) (idle_tqueues s) (waiting_tasks s) (current_task_id s) (external_queues s) (randoms s) x (server_calls s).
Definition set_server_calls (x : list server_call) (s : queues) : queues := mkQueues (tqueues s) (active_tqueues s) (idle_tqueues s) (waiting_tasks s) (current_task_id s) (external_queues s) (randoms s) (argv_size s) x.

End data.
Arguments vmstruct : clear implicits.
Arguments forked_task : clear implicits.
Arguments suspended_task : clear implicits.
Arguments task : clear implicits.
Arguments tqueue : clear implicits.
Arguments queues : clear implicits.

Section ops.
Context {Data : Type}.
Implicit Types (s : queues Data) (t : task Data) (p : positive).

(** ** Access *)

Definition at_queue (p : positive) (s : queues Data) : res (tqueue Data) := deref (tqueues s !! p).
Definition upd_queue (p : positive) (f : tqueue Data -> tqueue Data) (s : queues Data) : res (queues Data) :=
  tq ← at_queue p s; Ok (set_tqueues (<[p := f tq]> (tqueues s)) s).
Definition call (c : server_call) (s : queues Data) : queues Data := set_server_calls (server_calls s ++ [c]) s.

(** The first number that is not zero. *)
Fixpoint nonzero (l : list Z) : option (Z * list Z) :=
  match l with [] => None | i :: l => if i =? 0 then nonzero l else Some (i, l) end.
Definition new_task_id (s : queues Data) : res (Z * queues Data) :=
  match nonzero (randoms s) with Some (i, l) => Ok (i, set_randoms l s) | None => Fail OutOfFuel end.

(** ** Active and idle queues *)

Definition deactivate_tqueue (p : positive) (s : queues Data) : res (queues Data) :=
  s ← upd_queue p (set_tq_usage NO_USAGE) s; Ok (set_idle_tqueues (p :: idle_tqueues s) s).

(** Behind the queues with the same usage or less. *)
Fixpoint insert_active (h : gmap positive (tqueue Data)) (usage : Z) (p : positive) (l : list positive) : res (list positive) :=
  match l with
  | [] => Ok [p]
  | q :: l' => tq ← deref (h !! q); if tq_usage tq <=? usage then l' ← insert_active h usage p l'; Ok (q :: l') else Ok (p :: l)
  end.
Definition activate_tqueue (p : positive) (s : queues Data) : res (queues Data) :=
  tq ← at_queue p s; l ← insert_active (tqueues s) (tq_usage tq) p (active_tqueues s); Ok (set_active_tqueues l s).

Definition ensure_usage (p : positive) (s : queues Data) : res (queues Data) :=
  tq ← at_queue p s;
  if tq_usage tq =? NO_USAGE then
    usage ← match active_tqueues s with [] => Ok 0 | q :: _ => tq_usage <$> at_queue q s end;
    s ← upd_queue p (set_tq_usage usage) s;
    activate_tqueue p (set_idle_tqueues (filter (fun q => q <> p) (idle_tqueues s)) s)
  else Ok s.

Definition server_string_option (d : db) (name defallt : cstr) : res (option cstr) :=
  v ← get_server_option d SYSTEM_OBJECT name;
  Ok match v with Some (Str s) => Some s | Some _ => None | None => Some defallt end.
Definition default_flush_command (d : db) : res (option cstr) :=
  str ← server_string_option d (lit "default_flush_command") (lit ".flush");
  Ok match str with Some [] => None | str => str end.

Definition new_tqueue (player : Z) (flush : option cstr) : tqueue Data :=
  mkTqueue player 0 false [] 0 0 false [] NO_USAGE 0 None None flush None false false ICMD_ALL_CMDS None.

Fixpoint find_player (h : gmap positive (tqueue Data)) (player : Z) (l : list positive) : res (option positive) :=
  match l with
  | [] => Ok None
  | q :: l => tq ← deref (h !! q); if tq_player tq =? player then Ok (Some q) else find_player h player l
  end.
(** [find_tqueue(player, 0)] and [find_tqueue(player, 1)]. *)
Definition lookup_tqueue (player : Z) (s : queues Data) : res (option positive) :=
  r ← find_player (tqueues s) player (active_tqueues s);
  match r with Some p => Ok (Some p) | None => find_player (tqueues s) player (idle_tqueues s) end.
Definition find_tqueue (d : db) (player : Z) (s : queues Data) : res (positive * queues Data) :=
  r ← lookup_tqueue player s;
  match r with
  | Some p => Ok (p, s)
  | None =>
      flush ← default_flush_command d;
      let p := fresh (dom (tqueues s)) in
      s ← deactivate_tqueue p (set_tqueues (<[p := new_tqueue player flush]> (tqueues s)) s);
      Ok (p, s)
  end.

Definition free_tqueue (p : positive) (s : queues Data) : queues Data :=
  set_tqueues (delete p (tqueues s)) (set_idle_tqueues (filter (fun q => q <> p) (idle_tqueues s)) s).

(** ** Background tasks *)

Definition enqueue_bg_task (p : positive) (t : task Data) (s : queues Data) : res (queues Data) :=
  upd_queue p (fun tq => set_tq_bg (tq_bg tq ++ [t]) tq) s.
Definition dequeue_bg_task (p : positive) (s : queues Data) : res (option (task Data) * queues Data) :=
  tq ← at_queue p s;
  match tq_bg tq with
  | [] => Ok (None, s)
  | t :: ts => s ← upd_queue p (fun tq => set_tq_num_bg (wrap32 (tq_num_bg tq - 1)) (set_tq_bg ts tq)) s; Ok (Some t, s)
  end.

(** Behind the tasks that start at the same time or before. *)
Fixpoint insert_waiting (t : task Data) (ts : list (task Data)) : list (task Data) :=
  match ts with
  | [] => [t]
  | w :: ts' => if GET_START_TIME t <? GET_START_TIME w then t :: ts else w :: insert_waiting t ts'
  end.
Definition enqueue_waiting (d : db) (t : task Data) (s : queues Data) : res (queues Data) :=
  '(p, s) ← find_tqueue d (progr_of_task t) s;
  s ← upd_queue p (fun tq => set_tq_num_bg (wrap32 (tq_num_bg tq + 1)) tq) s;
  Ok (set_waiting_tasks (insert_waiting t (waiting_tasks s)) s).

(** A limit of the user, or of the server, if there is one that is not negative. *)
Definition queued_task_limit (d : db) (user : Z) : res Z :=
  v ← valid_property d user (lit "queued_task_limit");
  let limit := match v with Some (Int n) => wrap32 n | _ => -1 end in
  if limit <? 0 then server_int_option d (lit "queued_task_limit") (-1) else Ok limit.
Definition check_user_task_limit (d : db) (user : Z) (s : queues Data) : res bool :=
  p ← lookup_tqueue user s;
  limit ← queued_task_limit d user;
  if limit <? 0 then Ok true
  else num ← match p with Some p => tq_num_bg <$> at_queue p s | None => Ok 0 end; Ok (negb (limit <=? num)).

(** The environment that comes back is the one of the task that forks. *)
Definition enqueue_forked_task2 (d : db) (now : Z) (a : activation Data) (f_index : option nat) (after_seconds : Z) (vid : option nat)
    (s : queues Data) : res (error * list Var * queues Data) :=
  ok ← check_user_task_limit d (a_progr a) s;
  if negb ok then Ok (E_QUOTA, rt_env a, s)
  else
    '(id, s) ← new_task_id s;
    env ← match vid with
          | Some v => if decide (v < length (rt_env a))%nat then Ok (<[v := Int id]> (rt_env a)) else Fail Segv
          | None => Ok (rt_env a)
          end;
    env' ← copy_rt_env env (num_var_names (a_prog a));
    s ← enqueue_waiting d (FORKED (mkForked id (a_prog a) (set_rt_stack [] (set_rt_env env' a)) env' f_index (now + u32 after_seconds))) s;
    Ok (E_NONE, env, s).

Definition suspend_time (now after_seconds : Z) : Z :=
  let now := wrap32 now in if wrap32 (now + after_seconds) <? now then INT32_MAX else wrap32 (now + after_seconds).
Definition enqueue_suspended_task (d : db) (now : Z) (the_vm : vmstruct Data) (after_seconds : Z) (s : queues Data) : res (error * queues Data) :=
  ok ← check_user_task_limit d (progr_of_cur_verb the_vm) s;
  if ok : bool then
    s ← enqueue_waiting d (SUSPENDED (mkSuspended the_vm (suspend_time now after_seconds) zero_var)) s; Ok (E_NONE, s)
  else Ok (E_QUOTA, s).

Definition resume_task (d : db) (the_vm : vmstruct Data) (value : Var) (s : queues Data) : res (queues Data) :=
  '(p, s) ← find_tqueue d (progr_of_cur_verb the_vm) s;
  s ← enqueue_bg_task p (SUSPENDED (mkSuspended the_vm 0 value)) s;
  ensure_usage p s.

(** ** Lines of input *)

Definition oob_prefix : cstr := lit "#$#".
Definition oob_quote_prefix : cstr := lit "#$" ++ [QUOTE].

Definition kind_of_input (input : cstr) (binary : bool) : task_kind :=
  if binary then TASK_BINARY
  else if strncmp oob_quote_prefix input (length oob_quote_prefix) =? 0 then TASK_QUOTED
  else if strncmp oob_prefix input (length oob_prefix) =? 0 then TASK_OOB
  else TASK_INBAND.

Definition is_reading (tq : tqueue Data) : bool := match tq_reading tq with Some _ => true | None => false end.

Definition enqueue_input_task (p : positive) (input : cstr) (at_front binary : bool) (s : queues Data) : res (queues Data) :=
  let kind := kind_of_input input binary in
  s ← upd_queue p (fun tq => set_tq_total (wrap32 (tq_total tq + Z.of_nat (length input)))
                               (set_tq_input (add_message at_front (kind, input) (tq_input tq)) tq)) s;
  tq ← at_queue p s;
  s ← (if negb (tq_hold tq) || is_reading tq || (negb (tq_disable_oob tq) && bool_decide (kind = TASK_OOB)) then ensure_usage p s else Ok s);
  tq ← at_queue p s;
  if negb (tq_suspended tq) && tq_connected tq && (tq_total tq >? INPUT_HIWAT)
  then upd_queue p (set_tq_suspended true) (call (Suspend_input (tq_player tq)) s)
  else Ok s.

Definition task_suspend_input (p : positive) (s : queues Data) : res (queues Data) :=
  tq ← at_queue p s;
  if negb (tq_suspended tq) && tq_connected tq
  then upd_queue p (set_tq_suspended true) (call (Suspend_input (tq_player tq)) s)
  else Ok s.

(** What a line is when it leaves the queue. *)
Definition dequeued (disable_oob : bool) (m : message) : message :=
  match m.1 with
  | TASK_OOB => if disable_oob then (TASK_INBAND, m.2) else m
  | TASK_QUOTED => (TASK_INBAND, if disable_oob then m.2 else drop (length oob_quote_prefix) m.2)
  | _ => m
  end.

Definition dequeue_input_task (p : positive) (how : dequeue_how) (s : queues Data) : res (option message * queues Data) :=
  tq ← at_queue p s;
  if tq_disable_oob tq && bool_decide (how = DQ_OOB) then Ok (None, s)
  else
    match take_message (if tq_disable_oob tq then DQ_FIRST else how) (tq_input tq) with
    | None => Ok (None, s)
    | Some (m, rest) =>
        let total := wrap32 (tq_total tq - Z.of_nat (length m.2)) in
        s ← upd_queue p (fun tq => set_tq_total total (set_tq_input rest tq)) s;
        s ← (if tq_suspended tq && tq_connected tq && (total <? INPUT_LOWAT)
             then upd_queue p (set_tq_suspended false) (call (Resume_input (tq_player tq)) s)
             else Ok s);
        Ok (Some (dequeued (tq_disable_oob tq) m), s)
    end.

Fixpoint flush_loop (fuel : nat) (p : positive) (player : Z) (show_messages : bool) (s : queues Data) : res (queues Data) :=
  match fuel with
  | O => Fail OutOfFuel
  | S fuel =>
      '(t, s) ← dequeue_input_task p DQ_FIRST s;
      match t with
      | None => Ok s
      | Some m => flush_loop fuel p player show_messages (if show_messages then call (Notify player (lit ">>     " ++ m.2)) s else s)
      end
  end.
Definition flush_input (p : positive) (show_messages : bool) (s : queues Data) : res (queues Data) :=
  tq ← at_queue p s;
  let say m s := if show_messages then call (Notify (tq_player tq) (lit m)) s else s in
  match tq_input tq with
  | [] => Ok (say ">> No pending input to flush..."%string s)
  | _ =>
      s ← flush_loop (S (length (tq_input tq))) p (tq_player tq) show_messages (say ">> Flushing the following pending input:"%string s);
      Ok (say ">> (Done flushing)"%string s)
  end.

Definition new_input_task (p : positive) (input : cstr) (binary : bool) (s : queues Data) : res (queues Data) :=
  tq ← at_queue p s;
  if match tq_flush_cmd tq with Some c => mystrcasecmp input c =? 0 | None => false end
  then flush_input p true s
  else enqueue_input_task p input false binary s.

Definition is_out_of_input (tq : tqueue Data) : bool := negb (tq_connected tq) && match tq_input tq with [] => true | _ => false end.

(** An error, 0 when there is nothing, or a line. *)
Definition read_input_now (connection : Z) (s : queues Data) : res (Var * queues Data) :=
  r ← lookup_tqueue connection s;
  match r with
  | None => Ok (Err E_INVARG, s)
  | Some p =>
      tq ← at_queue p s;
      if is_out_of_input tq then Ok (Err E_INVARG, s)
      else '(t, s) ← dequeue_input_task p DQ_INBAND s; Ok (match t with None => Int 0 | Some m => Str m.2 end, s)
  end.

Definition make_reading_task (the_vm : vmstruct Data) (player : Z) (s : queues Data) : res (error * queues Data) :=
  r ← lookup_tqueue player s;
  match r with
  | None => Ok (E_INVARG, s)
  | Some p =>
      tq ← at_queue p s;
      if is_reading tq || is_out_of_input tq then Ok (E_INVARG, s)
      else
        s ← upd_queue p (set_tq_reading (Some the_vm)) s;
        s ← match tq_input tq with [] => Ok s | _ => ensure_usage p s end;
        Ok (E_NONE, s)
  end.

Definition last_input_task_id (player : Z) (s : queues Data) : res Z :=
  r ← lookup_tqueue player s; match r with Some p => tq_last_id <$> at_queue p s | None => Ok 0 end.

(** ** Connections *)

Definition new_task_queue (d : db) (player handler : Z) (s : queues Data) : res (positive * queues Data) :=
  '(p, s) ← find_tqueue d player s;
  s ← upd_queue p (fun tq => set_tq_handler handler (set_tq_connected true tq)) s;
  Ok (p, s).
Definition free_task_queue (p : positive) (s : queues Data) : res (queues Data) :=
  s ← upd_queue p (set_tq_connected false) s;
  tq ← at_queue p s;
  if is_reading tq then ensure_usage p s else Ok s.

(** Is there a second sequence of lines, or is the first one out-of-band? *)
Definition some_oob (ms : list message) : bool :=
  match ms with
  | [] => false
  | m :: _ => existsb (fun x => negb (Bool.eqb (oob_message x) (oob_message m))) ms || oob_message m
  end.

(** 0 when there is no such option, or when its value is refused. *)
Definition tasks_set_connection_option (p : positive) (opt : cstr) (value : Var) (s : queues Data) : res (bool * queues Data) :=
  let named n := mystrcasecmp opt (lit n) =? 0 in
  if named "flush-command"%string then
    s ← upd_queue p (set_tq_flush_cmd match value with Str (_ :: _ as c) => Some c | _ => None end) s; Ok (true, s)
  else if named "hold-input"%string then
    s ← upd_queue p (set_tq_hold (is_true value)) s;
    tq ← at_queue p s;
    s ← (if negb (tq_hold tq) && negb (bool_decide (tq_input tq = [])) then ensure_usage p s else Ok s);
    Ok (true, s)
  else if named "disable-oob"%string then
    s ← upd_queue p (set_tq_disable_oob (is_true value)) s;
    tq ← at_queue p s;
    s ← (if negb (tq_disable_oob tq) && some_oob (tq_input tq) then ensure_usage p s else Ok s);
    Ok (true, s)
  else if named "intrinsic-commands"%string then
    match icmd_set_flags value with
    | Some flags => s ← upd_queue p (set_tq_icmds flags) s; Ok (true, s)
    | None => Ok (false, s)
    end
  else Ok (false, s).

Definition bool_var (b : bool) : Var := Int (if b then 1 else 0).
Definition connection_values (tq : tqueue Data) : list (cstr * Var) :=
  [(lit "flush-command", Str (default [] (tq_flush_cmd tq))); (lit "hold-input", bool_var (tq_hold tq));
   (lit "disable-oob", bool_var (tq_disable_oob tq)); (lit "intrinsic-commands", List (icmd_list (tq_icmds tq)))].
Definition tasks_connection_option (p : positive) (opt : cstr) (s : queues Data) : res (option Var) :=
  tq ← at_queue p s;
  Ok (snd ∘ snd <$> list_find (fun e => mystrcasecmp opt e.1 = 0) (connection_values tq)).
Definition tasks_connection_options (p : positive) (l : list Var) (s : queues Data) : res (list Var) :=
  tq ← at_queue p s; Ok (l ++ ((fun e => List [Str e.1; e.2]) <$> connection_values tq)).

(** ** Waiting for tasks *)

Fixpoint any_ready (h : gmap positive (tqueue Data)) (l : list positive) : res bool :=
  match l with
  | [] => Ok false
  | q :: l =>
      tq ← deref (h !! q);
      match tq_input tq, tq_bg tq with [], [] => any_ready h l | _, _ => Ok true end
  end.

(** Seconds, or -1 when there is nothing to wait for. *)
Definition next_task_start (now : Z) (s : queues Data) : res Z :=
  ready ← any_ready (tqueues s) (active_tqueues s);
  if ready : bool then Ok 0
  else match waiting_tasks s with
       | t :: _ => let wait := wrap32 (GET_START_TIME t - now) in Ok (if wait >=? 0 then wait else 0)
       | [] => Ok (-1)
       end.

(** ** Finding, killing and resuming tasks *)

Definition suspended_as (id : Z) (t : task Data) : option (vmstruct Data) :=
  match t with SUSPENDED st => if vm_task_id (st_vm st) =? id then Some (st_vm st) else None | FORKED _ => None end.
Definition first_some {A B} (f : A -> option B) (l : list A) : option B := head (omap f l).

Definition reading_as (id : Z) (tq : tqueue Data) : option (vmstruct Data) :=
  match tq_reading tq with Some v => if vm_task_id v =? id then Some v else None | None => None end.
Definition find_suspended_task (id : Z) (s : queues Data) : res (option (vmstruct Data)) :=
  idle ← mapM (fun p => at_queue p s) (idle_tqueues s);
  active ← mapM (fun p => at_queue p s) (active_tqueues s);
  let or a b := match a with Some v => Some v | None => b end in
  Ok (or (first_some (suspended_as id) (waiting_tasks s))
     (or (first_some (reading_as id) idle)
     (or (first_some (fun tq => or (reading_as id tq) (first_some (suspended_as id) (tq_bg tq))) active)
         (first_some (fun v => if vm_task_id v =? id then Some v else None) (concat (external_queues s)))))).

Definition may_control (d : db) (who owner : Z) : res bool := w ← is_wizard d who; Ok (w || (who =? owner)).

(** The task that is read for, or one of the background tasks, of the queues [l], in turn. *)
Fixpoint kill_in_queues (d : db) (id owner : Z) (with_bg : bool) (l : list positive) (s : queues Data) : res (option (error * queues Data)) :=
  match l with
  | [] => Ok None
  | p :: l =>
      tq ← at_queue p s;
      match reading_as id tq, pick (fun t => id_of_task t =? id) (if with_bg then tq_bg tq else []) with
      | Some _, _ =>
          ok ← may_control d owner (tq_player tq);
          if ok : bool then s ← upd_queue p (set_tq_reading None) s; Ok (Some (E_NONE, s)) else Ok (Some (E_PERM, s))
      | None, Some (_, rest) =>
          ok ← may_control d owner (tq_player tq);
          if ok : bool then
            s ← upd_queue p (fun tq => set_tq_num_bg (wrap32 (tq_num_bg tq - 1)) (set_tq_bg rest tq)) s; Ok (Some (E_NONE, s))
          else Ok (Some (E_PERM, s))
      | None, None => kill_in_queues d id owner with_bg l s
      end
  end.

(** The machines of other parts of the server, each of which is asked in turn. *)
Fixpoint kill_external (d : db) (id owner : Z) (qs : list (list (vmstruct Data))) : res (error * list (list (vmstruct Data))) :=
  match qs with
  | [] => Ok (E_INVARG, [])
  | q :: qs =>
      match pick (fun v => vm_task_id v =? id) q with
      | Some (v, rest) => ok ← may_control d owner (progr_of_cur_verb v); Ok (if ok : bool then (E_NONE, rest :: qs) else (E_PERM, q :: qs))
      | None => '(e, qs) ← kill_external d id owner qs; Ok (e, q :: qs)
      end
  end.

Definition kill_task (d : db) (id owner : Z) (s : queues Data) : res (error * queues Data) :=
  if id =? current_task_id s then Ok (E_NONE, s)
  else
    match pick (fun t => id_of_task t =? id) (waiting_tasks s) with
    | Some (t, rest) =>
        ok ← may_control d owner (progr_of_task t);
        if ok : bool then
          r ← lookup_tqueue (progr_of_task t) s;
          s ← match r with
              | Some p => upd_queue p (fun tq => set_tq_num_bg (wrap32 (tq_num_bg tq - 1)) tq) s
              | None => Ok s
              end;
          Ok (E_NONE, set_waiting_tasks rest s)
        else Ok (E_PERM, s)
    | None =>
        r ← kill_in_queues d id owner false (idle_tqueues s) s;
        match r with
        | Some r => Ok r
        | None =>
            r ← kill_in_queues d id owner true (active_tqueues s) s;
            match r with
            | Some r => Ok r
            | None => '(e, qs) ← kill_external d id owner (external_queues s); Ok (e, set_external_queues qs s)
            end
        end
    end.

(** The first suspended task with the number gets a value. *)
Fixpoint set_value (id : Z) (value : Var) (ts : list (task Data)) : option (list (task Data)) :=
  match ts with
  | [] => None
  | (SUSPENDED st as t) :: ts =>
      if vm_task_id (st_vm st) =? id then Some (SUSPENDED (mkSuspended (st_vm st) (st_start_time st) value) :: ts)
      else cons t <$> set_value id value ts
  | t :: ts => cons t <$> set_value id value ts
  end.
Fixpoint resume_in_queues (d : db) (id : Z) (value : Var) (progr : Z) (l : list positive) (s : queues Data) : res (error * queues Data) :=
  match l with
  | [] => Ok (E_INVARG, s)
  | p :: l =>
      tq ← at_queue p s;
      match set_value id value (tq_bg tq) with
      | Some ts =>
          ok ← may_control d progr (tq_player tq);
          if ok : bool then s ← upd_queue p (set_tq_bg ts) s; Ok (E_NONE, s) else Ok (E_PERM, s)
      | None => resume_in_queues d id value progr l s
      end
  end.
Definition do_resume (d : db) (now id : Z) (value : Var) (progr : Z) (s : queues Data) : res (error * queues Data) :=
  match pick (fun t => match suspended_as id t with Some _ => true | None => false end) (waiting_tasks s) with
  | Some (SUSPENDED st, rest) =>
      let owner := progr_of_cur_verb (st_vm st) in
      ok ← may_control d progr owner;
      if ok : bool then
        '(p, s) ← find_tqueue d owner s;
        s ← ensure_usage p (set_waiting_tasks rest s);
        s ← enqueue_bg_task p (SUSPENDED (mkSuspended (st_vm st) now value)) s;
        Ok (E_NONE, s)
      else Ok (E_PERM, s)
  | _ => resume_in_queues d id value progr (active_tqueues s) s
  end.

(** ** Built-in functions *)

Section builtins.
Context {Susp : Type}.
Notation package := (bi_package Data Susp).

Definition bf_queue_info (args : list Var) (s : queues Data) : res (package * queues Data) :=
  match args with
  | [] => tqs ← mapM (fun p => at_queue p s) (active_tqueues s ++ idle_tqueues s);
          Ok (BI_RETURN (List (reverse ((fun tq => Obj (tq_player tq)) <$> tqs))), s)
  | Obj who :: _ =>
      r ← lookup_tqueue who s;
      num ← match r with Some p => tq_num_bg <$> at_queue p s | None => Ok 0 end;
      Ok (BI_RETURN (Int num), s)
  | _ => Fail Undefined
  end.
Definition bf_task_id (s : queues Data) : res (package * queues Data) := Ok (BI_RETURN (Int (current_task_id s)), s).

(** The number is a parameter of type [int]. *)
Definition bf_kill_task (d : db) (args : list Var) (progr : Z) (s : queues Data) : res (package * queues Data) :=
  match args with
  | Int n :: _ =>
      let id := wrap32 n in
      '(e, s) ← kill_task d id progr s;
      Ok (if decide (e = E_NONE) then if id =? current_task_id s then BI_KILL else no_var_pack else make_error_pack e, s)
  | _ => Fail Undefined
  end.
Definition bf_resume (d : db) (now : Z) (args : list Var) (progr : Z) (s : queues Data) : res (package * queues Data) :=
  match args with
  | Int n :: rest =>
      '(e, s) ← do_resume d now (wrap32 n) match rest with v :: _ => v | [] => zero_var end progr s;
      Ok (if decide (e = E_NONE) then no_var_pack else make_error_pack e, s)
  | _ => Fail Undefined
  end.
Definition bf_output_delimiters (d : db) (args : list Var) (progr : Z) (s : queues Data) : res (package * queues Data) :=
  match args with
  | Obj player :: _ =>
      ok ← may_control d progr player;
      if ok : bool then
        r ← lookup_tqueue player s;
        match r with
        | None => Ok (make_error_pack E_INVARG, s)
        | Some p =>
            tq ← at_queue p s;
            if tq_connected tq then Ok (BI_RETURN (List [Str (default [] (tq_prefix tq)); Str (default [] (tq_suffix tq))]), s)
            else Ok (make_error_pack E_INVARG, s)
        end
      else Ok (make_error_pack E_PERM, s)
  | _ => Fail Undefined
  end.
Definition bf_force_input (d : db) (args : list Var) (progr : Z) (s : queues Data) : res (package * queues Data) :=
  match args with
  | Obj conn :: Str line :: rest =>
      ok ← may_control d progr conn;
      if ok : bool then
        '(p, s) ← find_tqueue d conn s;
        s ← enqueue_input_task p line match rest with v :: _ => is_true v | [] => false end false s;
        Ok (no_var_pack, s)
      else Ok (make_error_pack E_PERM, s)
  | _ => Fail Undefined
  end.
Definition bf_flush_input (d : db) (args : list Var) (progr : Z) (s : queues Data) : res (package * queues Data) :=
  match args with
  | Obj conn :: rest =>
      ok ← may_control d progr conn;
      if ok : bool then
        '(p, s) ← find_tqueue d conn s;
        s ← flush_input p match rest with v :: _ => is_true v | [] => false end s;
        Ok (no_var_pack, s)
      else Ok (make_error_pack E_PERM, s)
  | _ => Fail Undefined
  end.

End builtins.
End ops.
