(* ===== verification/TaskOps.v ===== *)
(** * The invariant of the queues of tasks (src/tasks.c)

    Which queues are active and which idle, what their counters count, and that every operation
    of [TaskQueues] keeps that. *)

From Stdlib Require Import Sorting.Sorted.
From S2P Require Import Prelude CStrings Values Lists Libc Db Links Properties Layout Tables Objects PropertyOps Invariant Handlers.
From S2P Require Import Ast CodeGen EvalEnv Vm VmTasks InputQueue TaskQueues Sample.

Open Scope Z_scope.

Lemma sorted_weaken {A} (R R' : A -> A -> Prop) l : (forall x y, x ∈ l -> y ∈ l -> R x y -> R' x y) -> StronglySorted R l -> StronglySorted R' l.
Proof.
  induction 2 as [|x l Hs IH Hx]; [constructor|]. constructor; [apply IH; intros; apply H; by try right|]. rewrite Forall_forall in Hx |- *.
  intros y Hy. apply H; [left|by right|by apply Hx].
Qed.

(** Inserting behind everything that is not greater. *)
Lemma sorted_insert {A} (key : A -> Z) x l1 l2 : StronglySorted (fun a b => key a <= key b) (l1 ++ l2) -> (forall y, y ∈ l1 -> key y <= key x) ->
  (forall y, y ∈ l2 -> key x <= key y) -> StronglySorted (fun a b => key a <= key b) (l1 ++ x :: l2).
Proof.
  induction l1 as [|y l1 IH]; intros Hs H1 H2; cbn [app] in *.
  - constructor; [done|]. by apply Forall_forall.
  - apply StronglySorted_inv in Hs as [Hs Hy]. constructor; [apply IH; [done| |done]; intros z Hz; apply H1; by right|].
    rewrite Forall_app in Hy |- *. destruct Hy as [Hy1 Hy2]. split; [done|]. constructor; [apply H1; left|done].
Qed.

Section invariant.
Context {Data : Type}.
Implicit Types (h : gmap positive (tqueue Data)) (tq : tqueue Data) (wait ts : list (task Data)).

(** ** The invariant *)

Definition input_length (ms : list message) : Z := foldr (fun m n => Z.of_nat (length m.2) + n) 0 ms.

(** The waiting tasks of a programmer. *)
Definition waiting_of (player : Z) (ts : list (task Data)) : list (task Data) := filter (fun t => progr_of_task t = player) ts.

(** The counters of a queue, and whose tasks it holds.  ([NOTHING] is the player of queues that were given up.) *)
Record tq_ok wait tq : Prop := {
  tk_total : tq_total tq = wrap32 (input_length (tq_input tq));
  tk_bg : Forall (fun t => progr_of_task t = tq_player tq) (tq_bg tq);
  tk_num : tq_player tq <> NOTHING -> tq_num_bg tq = wrap32 (Z.of_nat (length (tq_bg tq) + length (waiting_of (tq_player tq) wait))) }.

Definition usage h (p : positive) : Z := default 0 (tq_usage <$> h !! p).

Record sound_of h (active idle : list positive) wait : Prop := {
  so_nodup : NoDup (active ++ idle);
  so_dom p : is_Some (h !! p) <-> p ∈ active ++ idle;
  so_idle p tq : p ∈ idle -> h !! p = Some tq -> tq_usage tq = NO_USAGE /\ tq_bg tq = [];
  so_active p : p ∈ active -> 0 <= usage h p;
  so_sorted : StronglySorted (fun p q => usage h p <= usage h q) active;
  so_players p q tq tq' : h !! p = Some tq -> h !! q = Some tq' -> tq_player tq = tq_player tq' -> tq_player tq <> NOTHING -> p = q;
  so_queues p tq : h !! p = Some tq -> tq_ok wait tq;
  so_homes t : t ∈ wait -> progr_of_task t <> NOTHING -> exists p tq, h !! p = Some tq /\ tq_player tq = progr_of_task t;
  so_waiting : StronglySorted (fun t u => GET_START_TIME t <= GET_START_TIME u) wait }.

Definition sound (s : queues Data) : Prop := sound_of (tqueues s) (active_tqueues s) (idle_tqueues s) (waiting_tasks s).

Definition known (s : queues Data) (p : positive) : Prop := is_Some (tqueues s !! p).

(** The invariant holds again, no queue is gone, and the first active one is still the first. *)
Record grows (s s' : queues Data) : Prop := {
  gr_known p : known s p -> known s' p;
  gr_head p l : active_tqueues s = p :: l -> exists l', active_tqueues s' = p :: l' }.
Definition keeps (s s' : queues Data) : Prop := sound s' /\ grows s s'.

Lemma keeps_refl s : sound s -> keeps s s.
Proof. split; [done|]. split; [done|]. intros p l Hl. by exists l. Qed.
#[local] Hint Extern 0 (keeps _ _) => apply keeps_refl; assumption : core.
Lemma keeps_trans s1 s2 s3 : keeps s1 s2 -> keeps s2 s3 -> keeps s1 s3.
Proof.
  intros [_ [H1 H1']] [Hs [H2 H2']]. split; [done|]. split; [intros p Hp; by apply H2, H1|]. intros p l Hl.
  destruct (H1' p l Hl) as [l' Hl']. by eapply H2'.
Qed.
Lemma keeps_known s s' p : keeps s s' -> known s p -> known s' p.
Proof. intros [_ [H _]]. apply H. Qed.

(** *** Access *)

Lemma at_queue_Ok (s : queues Data) p : known s p -> exists tq, tqueues s !! p = Some tq /\ at_queue p s = Ok tq.
Proof. intros [tq Hq]. exists tq. split; [done|]. unfold at_queue. by rewrite Hq. Qed.

Lemma upd_queue_Ok (s : queues Data) p f tq : tqueues s !! p = Some tq -> upd_queue p f s = Ok (set_tqueues (<[p := f tq]> (tqueues s)) s).
Proof. intros Hq. unfold upd_queue, at_queue. by rewrite Hq. Qed.

Lemma usage_insert h p q tq : usage (<[p := tq]> h) q = if decide (q = p) then tq_usage tq else usage h q.
Proof. unfold usage. case_decide as E; [subst; by rewrite lookup_insert_eq|by rewrite lookup_insert_ne]. Qed.

Lemma known_set (s : queues Data) p tq q : known s q -> known (set_tqueues (<[p := tq]> (tqueues s)) s) q.
Proof. intros H. unfold known. cbn [tqueues set_tqueues]. destruct (decide (q = p)) as [->|]; [rewrite lookup_insert_eq; by eexists|by rewrite lookup_insert_ne]. Qed.
Lemma grows_set (s : queues Data) p tq : grows s (set_tqueues (<[p := tq]> (tqueues s)) s).
Proof. split; [intros q; apply known_set|]. intros q l Hl. by exists l. Qed.
Lemma queues_grow_refl s : grows s s.
Proof. split; [done|]. intros p l Hl. by exists l. Qed.
Lemma grows_waiting ts s s' : grows s s' -> grows s (set_waiting_tasks ts s').
Proof. intros [H1 H2]. by split. Qed.
Lemma grows_external qs s s' : grows s s' -> grows s (set_external_queues qs s').
Proof. intros [H1 H2]. by split. Qed.

(** A queue is replaced by one of the same player, with the same usage, and that player's waiting tasks change. *)
Lemma rewait_sound h active idle wait wait' p tq tq' : sound_of h active idle wait -> h !! p = Some tq ->
  tq_player tq' = tq_player tq -> tq_usage tq' = tq_usage tq -> tq_ok wait' tq' -> (tq_bg tq' = [] \/ p ∈ active) ->
  (forall player, player <> tq_player tq -> length (waiting_of player wait') = length (waiting_of player wait)) ->
  (forall t, t ∈ wait' -> t ∈ wait \/ progr_of_task t = tq_player tq) ->
  StronglySorted (fun t u => GET_START_TIME t <= GET_START_TIME u) wait' ->
  sound_of (<[p := tq']> h) active idle wait'.
Proof.
  intros S Hq Hp Hu Hok Hbg Hw Hin' Hsort. assert (Hus : forall q, usage (<[p := tq']> h) q = usage h q).
  { intros q. rewrite usage_insert. case_decide as E; [|done]. subst. unfold usage. by rewrite Hq, Hu. }
  assert (Hpl : forall q r, <[p := tq']> h !! q = Some r -> exists r', h !! q = Some r' /\ tq_player r' = tq_player r).
  { intros q r. destruct (decide (q = p)) as [->|]; [rewrite lookup_insert_eq; intros [= <-]; by exists tq|rewrite lookup_insert_ne by done; by exists r]. }
  split.
  - apply S.
  - intros q. rewrite <- (so_dom _ _ _ _ S). destruct (decide (q = p)) as [->|]; [rewrite lookup_insert_eq, Hq; split; by eexists|by rewrite lookup_insert_ne].
  - intros q r Hin. destruct (decide (q = p)) as [->|]; [|rewrite lookup_insert_ne by done; by apply S]. rewrite lookup_insert_eq. intros [= <-].
    rewrite Hu. split; [by eapply (so_idle _ _ _ _ S p)|]. destruct Hbg as [Hbg|Hact]; [done|].
    pose proof (so_nodup _ _ _ _ S) as Hn. apply NoDup_app in Hn as (_ & Hn & _). by destruct (Hn p).
  - intros q Hin. rewrite Hus. by apply (so_active _ _ _ _ S).
  - eapply sorted_weaken; [|apply (so_sorted _ _ _ _ S)]. intros q r _ _. by rewrite !Hus.
  - intros q r t t' Hqt Hrt Hpt Hne. destruct (Hpl q t Hqt) as (u & Hu1 & Hu2), (Hpl r t' Hrt) as (u' & Hu1' & Hu2').
    eapply (so_players _ _ _ _ S q r); [exact Hu1|exact Hu1'|congruence|congruence].
  - intros q r. destruct (decide (q = p)) as [->|Hqp]; [rewrite lookup_insert_eq; by intros [= <-]|]. rewrite lookup_insert_ne by done.
    intros Hr. destruct (so_queues _ _ _ _ S q r Hr) as [K1 K2 K3]. split; [done|done|]. intros Hne. rewrite Hw; [by apply K3|].
    intros He. apply Hqp. by apply (so_players _ _ _ _ S q p r tq).
  - intros t Ht Hne. destruct (Hin' t Ht) as [Hold|Hown].
    + destruct (so_homes _ _ _ _ S t Hold Hne) as (q & r & Hr & Hpr). destruct (decide (q = p)) as [->|].
      * exists p, tq'. rewrite lookup_insert_eq. split; [done|]. congruence.
      * exists q, r. by rewrite lookup_insert_ne.
    + exists p, tq'. rewrite lookup_insert_eq. split; [done|]. congruence.
  - done.
Qed.

Lemma replace_sound h active idle wait p tq tq' : sound_of h active idle wait -> h !! p = Some tq ->
  tq_player tq' = tq_player tq -> tq_usage tq' = tq_usage tq -> tq_ok wait tq' -> (tq_bg tq' = [] \/ p ∈ active) ->
  sound_of (<[p := tq']> h) active idle wait.
Proof. intros S. intros. eapply rewait_sound; eauto; apply S. Qed.

(** Only active queues have background tasks. *)
Lemma bg_or_active (s : queues Data) p tq : sound s -> tqueues s !! p = Some tq -> tq_bg tq = [] \/ p ∈ active_tqueues s.
Proof.
  intros S Hq. destruct (decide (p ∈ active_tqueues s)) as [|Hn]; [by right|]. left. eapply (so_idle _ _ _ _ S p); [|exact Hq].
  assert (Hin : p ∈ active_tqueues s ++ idle_tqueues s) by (apply (so_dom _ _ _ _ S); by eexists). by apply elem_of_app in Hin as [|].
Qed.

(** In particular if its tasks are the same. *)
Lemma upd_keeps (s : queues Data) p f : sound s -> known s p ->
  (forall tq, tq_player (f tq) = tq_player tq /\ tq_usage (f tq) = tq_usage tq /\ tq_bg (f tq) = tq_bg tq /\ tq_num_bg (f tq) = tq_num_bg tq /\
    (tq_total tq = wrap32 (input_length (tq_input tq)) -> tq_total (f tq) = wrap32 (input_length (tq_input (f tq))))) ->
  exists s', upd_queue p f s = Ok s' /\ keeps s s' /\ active_tqueues s' = active_tqueues s /\ idle_tqueues s' = idle_tqueues s.
Proof.
  intros S [tq Hq] Hf. rewrite (upd_queue_Ok s p f tq Hq). eexists. split; [done|]. split; [|done]. split; [|apply grows_set].
  destruct (Hf tq) as (H1 & H2 & H3 & H4 & H5). pose proof (so_queues _ _ _ _ S p tq Hq) as [K1 K2 K3].
  apply (replace_sound _ _ _ _ p tq); [exact S|exact Hq|done|done| |].
  - split; [by apply H5|by rewrite H1, H3|by rewrite H1, H3, H4].
  - rewrite H3. exact (bg_or_active s p tq S Hq).
Qed.

(** ** Active and idle queues *)

(** Where [insert_active] puts a queue. *)
Lemma insert_active_Ok h u p l : (forall q, q ∈ l -> is_Some (h !! q)) -> StronglySorted (fun q r => usage h q <= usage h r) l ->
  exists l1 l2, l = l1 ++ l2 /\ insert_active h u p l = Ok (l1 ++ p :: l2) /\ (forall q, q ∈ l1 -> usage h q <= u) /\ (forall q, q ∈ l2 -> u < usage h q).
Proof.
  induction l as [|q l IH]; intros Hk Hs; [exists [], []; repeat split; [by intros ? ?%elem_of_nil..]|]. cbn [insert_active].
  destruct (Hk q) as [tq Hq]; [left|]. rewrite Hq. cbn [deref mbind res_bind]. assert (Hu : usage h q = tq_usage tq) by (unfold usage; by rewrite Hq).
  apply StronglySorted_inv in Hs as [Hs Hall]. rewrite Forall_forall in Hall. destruct (Z.leb_spec (tq_usage tq) u) as [Hle|Hgt].
  - destruct IH as (l1 & l2 & -> & -> & H1 & H2); [intros r Hr; apply Hk; by right|done|]. exists (q :: l1), l2. repeat split; [|done].
    intros r [->|Hr]%elem_of_cons; [lia|by apply H1].
  - exists [], (q :: l). repeat split; [by intros ? ?%elem_of_nil|]. intros r [->|Hr]%elem_of_cons; [lia|]. specialize (Hall r Hr). lia.
Qed.

(** A queue that is in neither list becomes active. *)
Lemma activate_sound h active idle wait p u l1 l2 tq : sound_of h active idle wait -> h !! p = Some tq -> p ∈ idle -> 0 <= u ->
  active = l1 ++ l2 -> (forall q, q ∈ l1 -> usage h q <= u) -> (forall q, q ∈ l2 -> u < usage h q) ->
  sound_of (<[p := set_tq_usage u tq]> h) (l1 ++ p :: l2) (filter (fun q => q <> p) idle) wait.
Proof.
  intros S Hq Hin Hu0 -> H1 H2. pose proof (so_nodup _ _ _ _ S) as Hn. apply NoDup_app in Hn as (Hna & Hai & Hni).
  assert (Hpa : p ∉ l1 ++ l2) by (intros Hp; by apply (Hai p)).
  assert (Hus : forall q, q ∈ l1 ++ l2 -> usage (<[p := set_tq_usage u tq]> h) q = usage h q).
  { intros q Hqin. rewrite usage_insert, decide_False; [done|]. by intros ->. }
  assert (Hpu : usage (<[p := set_tq_usage u tq]> h) p = u) by (by rewrite usage_insert, decide_True).
  split.
  - rewrite <- Permutation_middle. cbn [app]. apply NoDup_cons. rewrite elem_of_app. split.
    + intros [|Hp]; [done|]. by apply list_elem_of_filter in Hp as [].
    + apply NoDup_app. split; [done|]. split; [|by apply NoDup_filter]. intros q Hqa Hqi. apply list_elem_of_filter in Hqi as [_ Hqi]. by apply (Hai q).
  - intros q. rewrite <- Permutation_middle. cbn [app]. rewrite elem_of_cons, elem_of_app, list_elem_of_filter. destruct (decide (q = p)) as [->|Hqp].
    + rewrite lookup_insert_eq. split; [by left|by eexists].
    + rewrite lookup_insert_ne, (so_dom _ _ _ _ S), elem_of_app by done. tauto.
  - intros q r [Hqp Hqi]%list_elem_of_filter. rewrite lookup_insert_ne by done. by apply S.
  - intros q. rewrite <- Permutation_middle, elem_of_cons. intros [->|Hqa]; [by rewrite Hpu|]. rewrite Hus by done. by apply (so_active _ _ _ _ S).
  - apply (sorted_insert (usage _)).
    + eapply sorted_weaken; [|apply (so_sorted _ _ _ _ S)]. intros q r Hqa Hra. by rewrite !Hus.
    + intros q Hqa. rewrite (Hus q), Hpu by (apply elem_of_app; by left). by apply H1.
    + intros q Hqa. rewrite (Hus q), Hpu by (apply elem_of_app; by right). by apply Z.lt_le_incl, H2.
  - intros q r t t'. destruct (decide (q = p)) as [->|Hqp], (decide (r = p)) as [->|Hrp]; rewrite ?lookup_insert_eq, ?lookup_insert_ne by done; [done| | |by apply S].
    + intros [= <-] Ht'. by apply (so_players _ _ _ _ S p r tq t').
    + intros Ht [= <-]. by apply (so_players _ _ _ _ S q p t tq).
  - intros q r. destruct (decide (q = p)) as [->|Hqp]; [|rewrite lookup_insert_ne by done; by apply S]. rewrite lookup_insert_eq. intros [= <-].
    destruct (so_queues _ _ _ _ S p tq Hq). by split.
  - intros t Ht Hne. destruct (so_homes _ _ _ _ S t Ht Hne) as (q & r & Hr & Hpr). destruct (decide (q = p)) as [->|].
    + exists p, (set_tq_usage u tq). rewrite lookup_insert_eq. split; [done|]. rewrite Hq in Hr. by injection Hr as ->.
    + exists q, r. by rewrite lookup_insert_ne.
  - apply S.
Qed.

Lemma ensure_usage_Ok (s : queues Data) p : sound s -> known s p ->
  exists s', ensure_usage p s = Ok s' /\ keeps s s' /\ p ∈ active_tqueues s' /\
    waiting_tasks s' = waiting_tasks s /\ forall q tq, tqueues s !! q = Some tq -> exists u, tqueues s' !! q = Some (set_tq_usage u tq).
Proof.
  intros S Hk. destruct (at_queue_Ok s p Hk) as (tq & Hq & Ha). unfold ensure_usage. rewrite Ha. cbn [mbind res_bind].
  assert (Hin : p ∈ active_tqueues s ++ idle_tqueues s) by (by apply (so_dom _ _ _ _ S)). apply elem_of_app in Hin.
  assert (Hsame : forall t : tqueue Data, set_tq_usage (tq_usage t) t = t) by (by intros []).
  destruct (Z.eqb_spec (tq_usage tq) NO_USAGE) as [Hno|Hno].
  - assert (Hact : p ∉ active_tqueues s).
    { intros Hp. pose proof (so_active _ _ _ _ S p Hp) as H. unfold usage in H. rewrite Hq in H. cbn in H. unfold NO_USAGE in Hno. lia. }
    destruct Hin as [|Hin]; [done|].
    assert (Hu : exists u, (match active_tqueues s with [] => Ok 0 | q :: _ => tq_usage <$> at_queue q s end) = Ok u /\ 0 <= u /\ forall q l, active_tqueues s = q :: l -> u = usage (tqueues s) q).
    { destruct (active_tqueues s) as [|q l] eqn:E; [by exists 0|]. destruct (at_queue_Ok s q) as (tq' & Hq' & ->).
      { apply (so_dom _ _ _ _ S). rewrite E. left. }
      exists (tq_usage tq'). split; [done|]. split; [|intros ? ? [= <- _]; unfold usage; by rewrite Hq'].
      pose proof (so_active _ _ _ _ S q) as H. rewrite E in H. unfold usage in H. rewrite Hq' in H. apply H. left. }
    destruct Hu as (u & -> & Hu0 & Huh). cbn [mbind res_bind]. rewrite (upd_queue_Ok s p _ tq Hq). cbn [mbind res_bind].
    unfold activate_tqueue, at_queue. cbn [tqueues set_idle_tqueues set_tqueues active_tqueues]. rewrite lookup_insert_eq. cbn [deref mbind res_bind].
    destruct (insert_active_Ok (<[p := set_tq_usage u tq]> (tqueues s)) u p (active_tqueues s)) as (l1 & l2 & Hl & Hi & H1 & H2).
    { intros q Hqin. destruct (decide (q = p)) as [->|]; [rewrite lookup_insert_eq; by eexists|rewrite lookup_insert_ne by done].
      apply (so_dom _ _ _ _ S), elem_of_app. by left. }
    { eapply sorted_weaken; [|apply (so_sorted _ _ _ _ S)]. intros q r Hqa Hra. by rewrite !usage_insert, !decide_False by (by intros ->). }
    change (tq_usage (set_tq_usage u tq)) with u. rewrite Hi. cbn [mbind res_bind]. eexists. split; [done|].
    assert (Hus : forall q, q ∈ active_tqueues s -> usage (<[p := set_tq_usage u tq]> (tqueues s)) q = usage (tqueues s) q).
    { intros q Hqa. by rewrite usage_insert, decide_False by (by intros ->). }
    split; [|split; [|split; [done|]]].
    + split; [|split; [intros q; apply known_set|]]; cycle 1.
      { intros q l Hql. cbn [active_tqueues set_active_tqueues]. destruct l1 as [|q1 l1]; [|rewrite Hl in Hql; injection Hql as -> _; by eexists].
        cbn [app] in Hl. subst l2. assert (Hqin : q ∈ active_tqueues s) by (rewrite Hql; left). specialize (H2 q Hqin). rewrite Hus, (Huh q l Hql) in H2 by done. lia. }
      eapply (activate_sound _ (active_tqueues s)); [exact S|done..| |].
      * intros q Hq1. rewrite <- Hus by (rewrite Hl; apply elem_of_app; by left). by apply H1.
      * intros q Hq2. rewrite <- Hus by (rewrite Hl; apply elem_of_app; by right). by apply H2.
    + cbn [active_tqueues set_active_tqueues]. apply elem_of_app. right. left.
    + intros q r Hr. cbn [tqueues set_active_tqueues set_idle_tqueues set_tqueues]. destruct (decide (q = p)) as [->|].
      * exists u. rewrite lookup_insert_eq. congruence.
      * exists (tq_usage r). by rewrite lookup_insert_ne, Hsame.
  - exists s. split; [done|]. split; [done|]. split; [|split; [done|intros q r Hr; exists (tq_usage r); by rewrite Hsame]].
    destruct Hin as [|Hin]; [done|]. by destruct (so_idle _ _ _ _ S p tq Hin Hq).
Qed.

(** ** Finding queues *)

Lemma find_player_Ok h player l : (forall q, q ∈ l -> is_Some (h !! q)) -> exists r, find_player h player l = Ok r /\
  match r with
  | Some p => p ∈ l /\ exists tq, h !! p = Some tq /\ tq_player tq = player
  | None => forall q tq, q ∈ l -> h !! q = Some tq -> tq_player tq <> player
  end.
Proof.
  induction l as [|q l IH]; intros Hk; [exists None; split; [done|]; by intros q tq ?%elem_of_nil|]. cbn [find_player].
  destruct (Hk q) as [tq Hq]; [left|]. rewrite Hq. cbn [deref mbind res_bind]. destruct (Z.eqb_spec (tq_player tq) player) as [He|He].
  - exists (Some q). split; [done|]. split; [left|]. by exists tq.
  - destruct IH as (r & -> & Hr); [intros r Hr; apply Hk; by right|]. exists r. split; [done|]. destruct r as [p|].
    + destruct Hr as [Hp Hr]. split; [by right|done].
    + intros q' t [->|Hin]%elem_of_cons Ht; [congruence|by apply (Hr q')].
Qed.

Lemma lookup_tqueue_Ok (s : queues Data) player : sound s -> exists r, lookup_tqueue player s = Ok r /\
  match r with
  | Some p => exists tq, tqueues s !! p = Some tq /\ tq_player tq = player
  | None => forall q tq, tqueues s !! q = Some tq -> tq_player tq <> player
  end.
Proof.
  intros S. unfold lookup_tqueue. pose proof (so_dom _ _ _ _ S) as Hd.
  destruct (find_player_Ok (tqueues s) player (active_tqueues s)) as (r & -> & Hr); [intros q Hq; apply Hd, elem_of_app; by left|].
  cbn [mbind res_bind]. destruct r as [p|]; [exists (Some p); by split; [|apply Hr]|].
  destruct (find_player_Ok (tqueues s) player (idle_tqueues s)) as (r' & -> & Hr'); [intros q Hq; apply Hd, elem_of_app; by right|].
  exists r'. split; [done|]. destruct r' as [p|]; [apply Hr'|]. intros q tq Hq. assert (Hin : q ∈ active_tqueues s ++ idle_tqueues s) by (apply Hd; by eexists).
  apply elem_of_app in Hin as [Hin|Hin]; [by apply (Hr q)|by apply (Hr' q)].
Qed.

(** A new queue. *)
Lemma create_sound h active idle wait p player flush : sound_of h active idle wait -> h !! p = None ->
  (forall q tq, h !! q = Some tq -> tq_player tq <> player) -> sound_of (<[p := new_tqueue player flush]> h) active (p :: idle) wait.
Proof.
  intros S Hp Hpl. assert (Hpin : p ∉ active ++ idle) by (intros Hin; apply (so_dom _ _ _ _ S) in Hin as [tq Hq]; congruence).
  assert (Hus : forall q, q ∈ active -> usage (<[p := new_tqueue player flush]> h) q = usage h q).
  { intros q Hin. rewrite usage_insert, decide_False; [done|]. intros ->. apply Hpin, elem_of_app. by left. }
  split.
  - rewrite <- Permutation_middle. apply NoDup_cons. split; [done|apply S].
  - intros q. rewrite <- Permutation_middle, elem_of_cons. destruct (decide (q = p)) as [->|]; [rewrite lookup_insert_eq; split; [by left|by eexists]|].
    rewrite lookup_insert_ne, (so_dom _ _ _ _ S) by done. split; [by right|by intros [|]].
  - intros q tq [->|Hin]%elem_of_cons; [rewrite lookup_insert_eq; by intros [= <-]|]. rewrite lookup_insert_ne; [by apply S|].
    intros ->. apply Hpin, elem_of_app. by right.
  - intros q Hin. rewrite Hus by done. by apply (so_active _ _ _ _ S).
  - eapply sorted_weaken; [|apply (so_sorted _ _ _ _ S)]. intros q r Hq Hr. by rewrite !Hus.
  - intros q r t t'. destruct (decide (q = p)) as [->|], (decide (r = p)) as [->|]; rewrite ?lookup_insert_eq, ?lookup_insert_ne by done; [done| | |by apply S].
    + intros [= <-] Ht' He. by destruct (Hpl r t' Ht').
    + intros Ht [= <-] He. by destruct (Hpl q t Ht).
  - intros q tq. destruct (decide (q = p)) as [->|]; [|rewrite lookup_insert_ne by done; apply S]. rewrite lookup_insert_eq. intros [= <-].
    split; [done|done|]. intros Hne. cbn [tq_num_bg tq_bg tq_player new_tqueue length]. replace (waiting_of player wait) with (@nil (task Data)); [done|].
    symmetry. unfold waiting_of. destruct (filter _ wait) as [|t l] eqn:E; [done|]. assert (Ht : t ∈ filter (fun t => progr_of_task t = player) wait) by (rewrite E; left).
    apply list_elem_of_filter in Ht as [Ht1 Ht2]. destruct (so_homes _ _ _ _ S t Ht2) as (q & tq & Hq & Hqp); [cbn in Hne; congruence|].
    destruct (Hpl q tq Hq). congruence.
  - intros t Ht Hne. destruct (so_homes _ _ _ _ S t Ht Hne) as (q & r & Hr & Hpr). exists q, r. rewrite lookup_insert_ne; [done|]. intros ->. congruence.
  - apply S.
Qed.

Definition empty_queues (rs : list Z) : queues Data := mkQueues ∅ [] [] [] 0 [] rs 0 [].
Lemma empty_sound rs : sound (empty_queues rs).
Proof.
  split; cbn [tqueues active_tqueues idle_tqueues waiting_tasks empty_queues app]; try by constructor.
  - intros p. split; [by intros []|by intros ?%elem_of_nil].
  - intros p Hp. by apply elem_of_nil in Hp.
  - done.
  - intros t Ht. by apply elem_of_nil in Ht.
Qed.

(** ** What the database answers *)

Section good_db.
Context (F P : forest) (d : db) (Hg : good F P d).

Lemma valid_property_Ok oid pname : nul_free pname -> find_builtin pname = None -> exists v, valid_property d oid pname = Ok v.
Proof using Hg.
  intros Hn Hb. unfold valid_property. destruct (valid d oid) eqn:Hv; [|by exists None]. apply (valid_iff F P d oid Hg) in Hv.
  destruct (good_find_property F P d oid pname Hg Hv Hn Hb) as (r & -> & _). destruct r as [[h v]|]; by eexists.
Qed.

Lemma get_server_option_Ok oid pname : nul_free pname -> find_builtin pname = None -> exists v, get_server_option d oid pname = Ok v.
Proof using Hg.
  intros Hn Hb. unfold get_server_option.
  assert (Hs : forall o, exists v, valid_property d o (lit "server_options") = Ok v).
  { intros o. apply valid_property_Ok; [|done]. apply (bool_decide_unpack _). vm_compute. exact I. }
  destruct (Hs oid) as [v ->]. cbn [mbind res_bind].
  assert (Hr : exists r, match v with Some v => Ok (Some v) | None => valid_property d SYSTEM_OBJECT (lit "server_options") end = Ok r).
  { destruct v; [by eexists|apply Hs]. }
  destruct Hr as [r ->]. cbn [mbind res_bind]. destruct r as [[]|]; try (by eexists). by apply valid_property_Ok.
Qed.

Lemma server_int_option_Ok pname v0 : nul_free pname -> find_builtin pname = None -> exists v, server_int_option d pname v0 = Ok v.
Proof using Hg. intros Hn Hb. unfold server_int_option. destruct (get_server_option_Ok SYSTEM_OBJECT pname Hn Hb) as [v ->]. by eexists. Qed.

Lemma default_flush_command_Ok : exists v, default_flush_command d = Ok v.
Proof using Hg.
  unfold default_flush_command, server_string_option. destruct (get_server_option_Ok SYSTEM_OBJECT (lit "default_flush_command")) as [v ->]; [|done|].
  - apply (bool_decide_unpack _). vm_compute. exact I.
  - by eexists.
Qed.

Lemma queued_task_limit_Ok user : exists v, queued_task_limit d user = Ok v.
Proof using Hg.
  assert (Hn : nul_free (lit "queued_task_limit")) by (apply (bool_decide_unpack _); vm_compute; exact I). unfold queued_task_limit.
  destruct (valid_property_Ok user (lit "queued_task_limit") Hn) as [v ->]; [done|]. cbn [mbind res_bind].
  destruct (_ <? 0); [by apply server_int_option_Ok|by eexists].
Qed.

Lemma may_control_Ok who owner : exists b, may_control d who owner = Ok b.
Proof using Hg. unfold may_control. destruct (read_wizard F P d Hg who) as [b ->]. by eexists. Qed.

(** *** Finding or making a queue *)

Lemma find_tqueue_Ok (s : queues Data) player : sound s -> exists p s', find_tqueue d player s = Ok (p, s') /\ keeps s s' /\
  (exists tq, tqueues s' !! p = Some tq /\ tq_player tq = player) /\ waiting_tasks s' = waiting_tasks s.
Proof using Hg.
  intros S. unfold find_tqueue. destruct (lookup_tqueue_Ok s player S) as (r & -> & Hr). cbn [mbind res_bind]. destruct r as [p|]; [by exists p, s|].
  destruct default_flush_command_Ok as [flush ->]. cbn [mbind res_bind]. set (p := base.fresh (dom (tqueues s))).
  assert (Hp : tqueues s !! p = None) by (apply not_elem_of_dom, is_fresh).
  unfold deactivate_tqueue. rewrite (upd_queue_Ok _ p _ (new_tqueue player flush)) by (cbn [tqueues set_tqueues]; by rewrite lookup_insert_eq).
  cbn [mbind res_bind tqueues set_tqueues]. rewrite insert_insert_eq. exists p. eexists. split; [done|]. split; [split|split; [|done]].
  - by apply create_sound.
  - split; [|intros q l Hl; by exists l]. intros q [tq Hq]. unfold known. cbn [tqueues set_idle_tqueues set_tqueues]. rewrite lookup_insert_ne; [by eexists|]. intros ->. congruence.
  - eexists. cbn [tqueues set_idle_tqueues set_tqueues]. rewrite lookup_insert_eq. by split.
Qed.

(** *** Waiting *)

Lemma insert_waiting_spec (t : task Data) ts : StronglySorted (fun t u => GET_START_TIME t <= GET_START_TIME u) ts ->
  exists l1 l2, ts = l1 ++ l2 /\ insert_waiting t ts = l1 ++ t :: l2 /\
    (forall x, x ∈ l1 -> GET_START_TIME x <= GET_START_TIME t) /\ (forall x, x ∈ l2 -> GET_START_TIME t < GET_START_TIME x).
Proof using.
  induction ts as [|w ts IH]; intros Hs; [exists [], []; repeat split; intros x Hx; by apply elem_of_nil in Hx|]. cbn [insert_waiting].
  apply StronglySorted_inv in Hs as [Hs Hall]. rewrite Forall_forall in Hall. destruct (Z.ltb_spec (GET_START_TIME t) (GET_START_TIME w)) as [Hlt|Hge].
  - exists [], (w :: ts). repeat split; intros x Hx; [by apply elem_of_nil in Hx|]. apply elem_of_cons in Hx as [->|Hx]; [done|]. specialize (Hall x Hx). cbn in Hall. lia.
  - destruct (IH Hs) as (l1 & l2 & -> & -> & H1 & H2). exists (w :: l1), l2. repeat split; [|done]. intros x [->|Hx]%elem_of_cons; [lia|by apply H1].
Qed.

Lemma wrap32_shift a b : wrap32 (wrap32 a + b) = wrap32 (a + b).
Proof using. unfold wrap32, swrap. dlia. Qed.

Lemma enqueue_waiting_Ok (s : queues Data) t : sound s -> exists s', enqueue_waiting d t s = Ok s' /\ keeps s s' /\
  waiting_tasks s' = insert_waiting t (waiting_tasks s).
Proof using Hg.
  intros S. unfold enqueue_waiting. destruct (find_tqueue_Ok s (progr_of_task t) S) as (p & s1 & -> & [S1 K1] & (tq & Hq & Hp) & Hw). cbn [mbind res_bind].
  rewrite (upd_queue_Ok _ _ _ tq Hq). cbn [mbind res_bind]. eexists. split; [done|]. split; [split|cbn [waiting_tasks set_waiting_tasks set_tqueues]; by rewrite Hw].
  - unfold sound. cbn [tqueues active_tqueues idle_tqueues waiting_tasks set_waiting_tasks set_tqueues].
    destruct (insert_waiting_spec t (waiting_tasks s1) (so_waiting _ _ _ _ S1)) as (l1 & l2 & Hl & -> & H1 & H2).
    destruct (so_queues _ _ _ _ S1 p tq Hq) as [T1 T2 T3].
    eapply (rewait_sound _ _ _ _ _ p tq); [exact S1|exact Hq|done|done| | | | |].
    + split; [done|done|]. intros Hne. cbn [tq_num_bg tq_bg tq_player set_tq_num_bg] in *. rewrite (T3 Hne), wrap32_shift, Hl, Hp. f_equal.
      unfold waiting_of. rewrite !filter_app, filter_cons_True by done. rewrite !length_app. cbn [length]. lia.
    + exact (bg_or_active _ _ _ S1 Hq).
    + intros player Hpl. unfold waiting_of. rewrite Hl, !filter_app, filter_cons_False by congruence. done.
    + intros u. rewrite Hl, !elem_of_app, elem_of_cons, Hp. intros [|[->|]]; [left; by left|by right|left; by right].
    + apply (sorted_insert GET_START_TIME); [rewrite <- Hl; apply S1|done|]. intros x Hx. apply Z.lt_le_incl. by apply H2.
  - destruct K1 as [K1 K1']. split; [|exact K1']. intros q Hkq. apply known_set, K1, Hkq.
Qed.

Lemma check_user_task_limit_Ok (s : queues Data) user : sound s -> exists b, check_user_task_limit d user s = Ok b.
Proof using Hg.
  intros S. unfold check_user_task_limit. destruct (lookup_tqueue_Ok s user S) as (r & -> & Hr). cbn [mbind res_bind].
  destruct (queued_task_limit_Ok user) as [limit ->]. cbn [mbind res_bind]. destruct (limit <? 0); [by eexists|].
  destruct r as [p|]; [|by eexists]. destruct Hr as (tq & Hq & _). unfold at_queue. rewrite Hq. by eexists.
Qed.

Lemma enqueue_suspended_task_Ok now the_vm after (s : queues Data) : sound s -> exists e s', enqueue_suspended_task d now the_vm after s = Ok (e, s') /\ keeps s s' /\
  (e = E_QUOTA /\ s' = s \/ e = E_NONE /\
    waiting_tasks s' = insert_waiting (SUSPENDED (mkSuspended the_vm (suspend_time now after) zero_var)) (waiting_tasks s)).
Proof using Hg.
  intros S. unfold enqueue_suspended_task. destruct (check_user_task_limit_Ok s (progr_of_cur_verb the_vm) S) as [b ->]. cbn [mbind res_bind].
  destruct b; [|exists E_QUOTA, s; split; [done|]; split; [by apply keeps_refl|by left]].
  destruct (enqueue_waiting_Ok s (SUSPENDED (mkSuspended the_vm (suspend_time now after) zero_var)) S) as (s' & -> & K & Hw). cbn [mbind res_bind].
  exists E_NONE, s'. split; [done|]. split; [done|by right].
Qed.

(** *** Lines of input *)

Lemma ensure_keeps (s : queues Data) p : sound s -> known s p -> exists s', ensure_usage p s = Ok s' /\ keeps s s'.
Proof using. intros S Hk. destruct (ensure_usage_Ok s p S Hk) as (s' & E & K & _). by exists s'. Qed.

Lemma ensure_if_keeps (b : bool) (s : queues Data) p : sound s -> known s p -> exists s', (if b then ensure_usage p s else Ok s) = Ok s' /\ keeps s s'.
Proof using. intros S Hk. destruct b; [by apply ensure_keeps|by exists s]. Qed.

Ltac ensured S Hk s' K := match goal with |- context [if ?b then ensure_usage ?p ?s else Ok ?s] =>
  let E := fresh "E" in destruct (ensure_if_keeps b s p S Hk) as (s' & E & K); rewrite E; clear E end.

Lemma call_keeps (s : queues Data) c : sound s -> keeps s (call c s).
Proof using. intros S. split; [done|]. split; [done|]. intros p l Hl. by exists l. Qed.

Lemma call_if_keeps (b : bool) (s : queues Data) c p tq : sound s -> tqueues s !! p = Some tq ->
  keeps s (if b then call c s else s) /\ tqueues (if b then call c s else s) !! p = Some tq.
Proof using. intros S Hq. destruct b; [|done]. split; [by apply call_keeps|done]. Qed.

Lemma suspend_keeps (s : queues Data) p b c : sound s -> known s p -> exists s', upd_queue p (set_tq_suspended b) (call c s) = Ok s' /\ keeps s s'.
Proof using.
  intros S Hk. destruct (upd_keeps (call c s) p (set_tq_suspended b)) as (s' & E & K & _); [done..|]. exists s'. split; [done|].
  eapply keeps_trans; [by apply call_keeps|exact K].
Qed.

Lemma input_length_app ms ms' : input_length (ms ++ ms') = input_length ms + input_length ms'.
Proof using. induction ms as [|m ms IH]; [done|]. cbn [app input_length foldr] in *. unfold input_length in *. lia. Qed.

Lemma enqueue_input_task_Ok (s : queues Data) p input at_front binary : sound s -> known s p ->
  exists s', enqueue_input_task p input at_front binary s = Ok s' /\ keeps s s'.
Proof using.
  intros S Hk. unfold enqueue_input_task.
  destruct (upd_keeps s p (fun tq => set_tq_total (wrap32 (tq_total tq + Z.of_nat (length input)))
    (set_tq_input (add_message at_front (kind_of_input input binary, input) (tq_input tq)) tq))) as (s1 & -> & K1 & _); [done|done| |].
  { intros tq. repeat split. intros Ht. cbn [tq_total tq_input set_tq_total set_tq_input]. rewrite Ht, wrap32_shift. f_equal. unfold add_message.
    destruct at_front; [cbn [input_length foldr snd]; fold (input_length (tq_input tq)); lia|]. rewrite input_length_app. cbn [input_length foldr snd]. lia. }
  cbn [mbind res_bind]. pose proof (proj1 K1) as S1. pose proof (keeps_known _ _ p K1 Hk) as Hk1. destruct (at_queue_Ok s1 p Hk1) as (tq & _ & ->). cbn [mbind res_bind].
  ensured S1 Hk1 s2 K2. cbn [mbind res_bind]. pose proof (proj1 K2) as S2. pose proof (keeps_known _ _ p K2 Hk1) as Hk2.
  destruct (at_queue_Ok s2 p Hk2) as (tq2 & _ & ->). cbn [mbind res_bind]. pose proof (keeps_trans _ _ _ K1 K2) as K.
  destruct (_ && _ && _); [|by exists s2]. destruct (suspend_keeps s2 p true (Suspend_input (tq_player tq2)) S2 Hk2) as (s3 & -> & K3).
  exists s3. split; [done|]. by eapply keeps_trans.
Qed.

Lemma task_suspend_input_Ok (s : queues Data) p : sound s -> known s p -> exists s', task_suspend_input p s = Ok s' /\ keeps s s'.
Proof using.
  intros S Hk. unfold task_suspend_input. destruct (at_queue_Ok s p Hk) as (tq & _ & ->). cbn [mbind res_bind].
  destruct (_ && _); [by apply suspend_keeps|by exists s].
Qed.

Lemma take_message_length how ms m rest : take_message how ms = Some (m, rest) ->
  input_length ms = Z.of_nat (length m.2) + input_length rest /\ length ms = S (length rest).
Proof using.
  intros E. pose proof (pick_spec (fun m => wanted how (oob_message m)) ms) as H. unfold take_message in E. rewrite E in H.
  destruct H as (l1 & l2 & -> & -> & _). rewrite !input_length_app, !length_app. cbn [input_length foldr length]. split; [|lia]. unfold input_length. lia.
Qed.

Lemma dequeue_input_task_Ok (s : queues Data) p how tq : sound s -> tqueues s !! p = Some tq -> exists t s', dequeue_input_task p how s = Ok (t, s') /\ keeps s s' /\
  match t with
  | None => s' = s /\ (tq_disable_oob tq = true /\ how = DQ_OOB \/ take_message (if tq_disable_oob tq then DQ_FIRST else how) (tq_input tq) = None)
  | Some m => exists m0 rest tq', take_message (if tq_disable_oob tq then DQ_FIRST else how) (tq_input tq) = Some (m0, rest) /\
      m = dequeued (tq_disable_oob tq) m0 /\ tqueues s' !! p = Some tq' /\ tq_input tq' = rest
  end.
Proof using.
  intros S Hq. assert (Hk : known s p) by (by eexists). unfold dequeue_input_task, at_queue. rewrite Hq. cbn [deref mbind res_bind].
  destruct (tq_disable_oob tq && bool_decide (how = DQ_OOB)) eqn:Hoob.
  { exists None, s. split; [done|]. split; [done|]. split; [done|]. left. apply andb_true_iff in Hoob as [? ?%bool_decide_eq_true]. done. }
  clear Hoob. set (how' := if tq_disable_oob tq then DQ_FIRST else how).
  destruct (take_message how' (tq_input tq)) as [[m rest]|] eqn:Ht; [|exists None, s; split; [done|]; split; [done|]; split; [done|by right]]. set (total := wrap32 _).
  destruct (take_message_length how' _ _ _ Ht) as [Hlen _].
  rewrite (upd_queue_Ok s p _ tq Hq). cbn [mbind res_bind]. set (s1 := set_tqueues _ s).
  assert (S1 : sound s1).
  { destruct (so_queues _ _ _ _ S p tq Hq) as [T1 T2 T3]. eapply (replace_sound _ _ _ _ p tq); [exact S|exact Hq|done|done| |].
    - split; [|done|done]. cbn [tq_total tq_input set_tq_total set_tq_input]. unfold total. rewrite T1, Hlen, <- Z.add_opp_r, wrap32_shift. f_equal. lia.
    - exact (bg_or_active _ _ _ S Hq). }
  assert (K1 : keeps s s1) by (split; [done|apply grows_set]).
  assert (Hq1 : tqueues s1 !! p = Some (set_tq_total total (set_tq_input rest tq))) by (cbn [s1 tqueues set_tqueues]; by rewrite lookup_insert_eq).
  destruct (_ && _ && _).
  - assert (Hk1 : known s1 p) by (by eexists). destruct (suspend_keeps s1 p false (Resume_input (tq_player tq)) S1 Hk1) as (s2 & E & K2).
    rewrite E. cbn [mbind res_bind]. exists (Some (dequeued (tq_disable_oob tq) m)), s2. split; [done|]. split; [by eapply keeps_trans|].
    eexists m, rest, _. split; [done|]. split; [done|]. rewrite (upd_queue_Ok (call (Resume_input (tq_player tq)) s1) p _ _ Hq1) in E. injection E as <-. cbn [tqueues set_tqueues].
    rewrite lookup_insert_eq. by split.
  - cbn [mbind res_bind]. exists (Some (dequeued (tq_disable_oob tq) m)), s1. split; [done|]. split; [done|]. eexists m, rest, _. split; [done|]. split; [done|]. split; [exact Hq1|done].
Qed.

Lemma flush_loop_Ok player show fuel : forall (s : queues Data) p tq, sound s -> tqueues s !! p = Some tq -> (length (tq_input tq) < fuel)%nat ->
  exists s' tq', flush_loop fuel p player show s = Ok s' /\ keeps s s' /\ tqueues s' !! p = Some tq' /\ tq_input tq' = [].
Proof using.
  induction fuel as [|fuel IH]; intros s p tq S Hq Hf; [lia|]. cbn [flush_loop].
  destruct (dequeue_input_task_Ok s p DQ_FIRST tq S Hq) as (t & s1 & E & K1 & Ht). rewrite E. cbn [mbind res_bind]. destruct t as [m|].
  - destruct Ht as (m0 & rest & tq' & Ht & _ & Hq' & Hr). apply take_message_length in Ht as [_ Hlen].
    destruct (call_if_keeps show s1 (Notify player (lit ">>     " ++ m.2)) p tq' (proj1 K1) Hq') as [K1' Hq1].
    destruct (IH _ p tq' (proj1 K1') Hq1) as (s2 & tq2 & E2 & K2 & H2); [rewrite Hr; lia|].
    exists s2, tq2. split; [done|]. split; [|done]. eapply keeps_trans; [exact K1|]. by eapply keeps_trans.
  - destruct Ht as [-> [[_ Ht]|Ht]]; [done|]. exists s, tq. split; [done|]. split; [done|]. split; [done|].
    destruct (tq_input tq); [done|]. by destruct (tq_disable_oob tq).
Qed.

Lemma flush_input_Ok (s : queues Data) p show : sound s -> known s p ->
  exists s' tq', flush_input p show s = Ok s' /\ keeps s s' /\ tqueues s' !! p = Some tq' /\ tq_input tq' = [].
Proof using.
  intros S Hk. unfold flush_input. destruct (at_queue_Ok s p Hk) as (tq & Hq & ->). cbn [mbind res_bind]. destruct (tq_input tq) as [|m ms] eqn:Ei.
  - destruct (call_if_keeps show s (Notify (tq_player tq) (lit ">> No pending input to flush...")) p tq S Hq) as [K Hq']. by eexists _, tq.
  - destruct (call_if_keeps show s (Notify (tq_player tq) (lit ">> Flushing the following pending input:")) p tq S Hq) as [K1 Hq1].
    destruct (flush_loop_Ok (tq_player tq) show (Datatypes.S (length (m :: ms))) _ p tq (proj1 K1) Hq1) as (s2 & tq2 & E & K2 & Hq2 & Hi2); [rewrite Ei; lia|].
    cbv zeta. rewrite E. cbn [mbind res_bind].
    destruct (call_if_keeps show s2 (Notify (tq_player tq) (lit ">> (Done flushing)")) p tq2 (proj1 K2) Hq2) as [K3 Hq3].
    eexists _, tq2. split; [done|]. split; [|done]. eapply keeps_trans; [exact K1|]. by eapply keeps_trans.
Qed.

Lemma new_input_task_Ok (s : queues Data) p input binary : sound s -> known s p -> exists s', new_input_task p input binary s = Ok s' /\ keeps s s'.
Proof using.
  intros S Hk. unfold new_input_task. destruct (at_queue_Ok s p Hk) as (tq & Hq & ->). cbn [mbind res_bind]. destruct (match tq_flush_cmd tq with Some _ => _ | None => _ end).
  - destruct (flush_input_Ok s p true S Hk) as (s' & _ & E & K & _). by exists s'.
  - by apply enqueue_input_task_Ok.
Qed.

Lemma read_input_now_Ok (s : queues Data) connection : sound s -> exists v s', read_input_now connection s = Ok (v, s') /\ keeps s s'.
Proof using.
  intros S. unfold read_input_now. destruct (lookup_tqueue_Ok s connection S) as (r & -> & Hr). cbn [mbind res_bind].
  destruct r as [p|]; [|by eexists _, s]. destruct Hr as (tq & Hq & _). unfold at_queue. rewrite Hq. cbn [deref mbind res_bind].
  destruct (is_out_of_input tq); [by eexists _, s|]. destruct (dequeue_input_task_Ok s p DQ_INBAND tq S Hq) as (t & s' & -> & K & _). by eexists _, s'.
Qed.

Lemma make_reading_task_Ok the_vm player (s : queues Data) : sound s -> exists e s', make_reading_task the_vm player s = Ok (e, s') /\ keeps s s'.
Proof using.
  intros S. unfold make_reading_task. destruct (lookup_tqueue_Ok s player S) as (r & -> & Hr). cbn [mbind res_bind].
  destruct r as [p|]; [|by eexists _, s]. destruct Hr as (tq & Hq & _). unfold at_queue. rewrite Hq. cbn [deref mbind res_bind].
  destruct (_ || _); [by eexists _, s|]. destruct (upd_keeps s p (set_tq_reading (Some the_vm))) as (s1 & -> & K1 & _); [done|by eexists|done|].
  cbn [mbind res_bind]. destruct (tq_input tq); [by eexists _, s1|].
  destruct (ensure_keeps s1 p (proj1 K1)) as (s2 & -> & K2); [apply K1; by eexists|]. eexists _, s2. split; [done|]. by eapply keeps_trans.
Qed.

(** *** Connections *)

Lemma new_task_queue_Ok player handler (s : queues Data) : sound s -> exists p s', new_task_queue d player handler s = Ok (p, s') /\ keeps s s' /\
  exists tq, tqueues s' !! p = Some tq /\ tq_player tq = player /\ tq_handler tq = handler /\ tq_connected tq = true.
Proof using Hg.
  intros S. unfold new_task_queue. destruct (find_tqueue_Ok s player S) as (p & s1 & -> & K1 & (tq & Hq & Hp) & _). cbn [mbind res_bind].
  assert (Hk : known s1 p) by (by eexists).
  destruct (upd_keeps s1 p (fun tq => set_tq_handler handler (set_tq_connected true tq))) as (s2 & E & K2 & _); [apply K1|done|done|]. rewrite E.
  exists p, s2. split; [done|]. split; [by eapply keeps_trans|]. rewrite (upd_queue_Ok _ _ _ tq Hq) in E. injection E as <-.
  eexists. cbn [tqueues set_tqueues]. rewrite lookup_insert_eq. by split.
Qed.

Lemma free_task_queue_Ok p (s : queues Data) : sound s -> known s p -> exists s', free_task_queue p s = Ok s' /\ keeps s s'.
Proof using.
  intros S Hk. unfold free_task_queue. destruct (upd_keeps s p (set_tq_connected false)) as (s1 & -> & K1 & _); [done..|]. cbn [mbind res_bind].
  pose proof (keeps_known _ _ p K1 Hk) as Hk1. destruct (at_queue_Ok s1 p Hk1) as (tq & _ & ->). cbn [mbind res_bind]. pose proof (proj1 K1) as S1.
  ensured S1 Hk1 s2 K2. exists s2. split; [done|]. by eapply keeps_trans.
Qed.

Lemma tasks_set_connection_option_Ok p opt value (s : queues Data) : sound s -> known s p ->
  exists b s', tasks_set_connection_option p opt value s = Ok (b, s') /\ keeps s s'.
Proof using.
  intros S Hk. unfold tasks_set_connection_option.
  assert (Hthen : forall f (g : tqueue Data -> bool), (forall tq, tq_player (f tq) = tq_player tq /\ tq_usage (f tq) = tq_usage tq /\ tq_bg (f tq) = tq_bg tq /\
      tq_num_bg (f tq) = tq_num_bg tq /\ (tq_total tq = wrap32 (input_length (tq_input tq)) -> tq_total (f tq) = wrap32 (input_length (tq_input (f tq))))) ->
    exists s', (s ← upd_queue p f s; tq ← at_queue p s; s ← (if g tq then ensure_usage p s else Ok s); Ok (true, s)) = Ok (true, s') /\ keeps s s').
  { intros f g Hf. destruct (upd_keeps s p f S Hk Hf) as (s1 & -> & K1 & _). cbn [mbind res_bind]. pose proof (keeps_known _ _ p K1 Hk) as Hk1.
    destruct (at_queue_Ok s1 p Hk1) as (tq & _ & ->). cbn [mbind res_bind]. pose proof (proj1 K1) as S1.
    destruct (ensure_if_keeps (g tq) s1 p S1 Hk1) as (s2 & -> & K2). exists s2. split; [done|]. by eapply keeps_trans. }
  destruct (_ =? 0).
  { destruct (upd_keeps s p (set_tq_flush_cmd match value with Str (_ :: _ as c) => Some c | _ => None end)) as (s1 & -> & K1 & _); [done..|]. by eexists _, s1. }
  destruct (_ =? 0).
  { destruct (Hthen (set_tq_hold (is_true value)) (fun tq => negb (tq_hold tq) && negb (bool_decide (tq_input tq = [])))) as (s1 & E & K1); [done|].
    exists true, s1. by rewrite E. }
  destruct (_ =? 0).
  { destruct (Hthen (set_tq_disable_oob (is_true value)) (fun tq => negb (tq_disable_oob tq) && some_oob (tq_input tq))) as (s1 & E & K1); [done|].
    exists true, s1. by rewrite E. }
  destruct (_ =? 0); [|by eexists _, s]. destruct (icmd_set_flags value) as [flags|]; [|by eexists _, s].
  destruct (upd_keeps s p (set_tq_icmds flags)) as (s1 & -> & K1 & _); [done..|]. by eexists _, s1.
Qed.

(** *** All tasks *)

Definition reading_ids (tq : tqueue Data) : list Z := match tq_reading tq with Some v => [vm_task_id v] | None => [] end.
Definition queue_ids (h : gmap positive (tqueue Data)) (p : positive) : list Z :=
  match h !! p with Some tq => reading_ids tq ++ (id_of_task <$> tq_bg tq) | None => [] end.
(** The numbers of the tasks that are not running. *)
Definition all_ids (s : queues Data) : list Z :=
  (id_of_task <$> waiting_tasks s) ++ concat (queue_ids (tqueues s) <$> active_tqueues s ++ idle_tqueues s) ++
  (vm_task_id <$> concat (external_queues s)).

Lemma queue_ids_same h p tq (l : list positive) : p ∉ l -> queue_ids (<[p := tq]> h) <$> l = queue_ids h <$> l.
Proof using.
  induction l as [|q l IH]; [done|]. intros Hp. cbn [fmap list_fmap]. rewrite IH by (intros H; apply Hp; by right). f_equal. unfold queue_ids.
  rewrite lookup_insert_ne; [done|]. intros ->. apply Hp. left.
Qed.

(** One number less in one queue. *)
Lemma queue_ids_less h p tq tq' id (l : list positive) : NoDup l -> p ∈ l -> h !! p = Some tq ->
  reading_ids tq ++ (id_of_task <$> tq_bg tq) ≡ₚ id :: reading_ids tq' ++ (id_of_task <$> tq_bg tq') ->
  concat (queue_ids h <$> l) ≡ₚ id :: concat (queue_ids (<[p := tq']> h) <$> l).
Proof using.
  intros Hn Hp Hq Hids. apply list_elem_of_split in Hp as (l1 & l2 & ->). apply NoDup_app in Hn as (_ & H1 & Hn). apply NoDup_cons in Hn as [H2 _].
  assert (Hp1 : p ∉ l1) by (intros H; apply (H1 p H); left). rewrite !fmap_app. cbn [fmap list_fmap]. rewrite !queue_ids_same by done.
  rewrite !concat_app. cbn [concat]. unfold queue_ids at 2 5. rewrite Hq, lookup_insert_eq, Hids. cbn [app]. by rewrite <- Permutation_middle.
Qed.

Lemma pick_perm {A} (f : A -> bool) l x rest : pick f l = Some (x, rest) -> l ≡ₚ x :: rest /\ f x = true.
Proof using.
  intros E. pose proof (pick_spec f l) as H. rewrite E in H. destruct H as (l1 & l2 & -> & -> & Hx & _). split; [|done]. by rewrite Permutation_middle.
Qed.
Lemma pick_none {A} (f : A -> bool) l : pick f l = None -> forall x, x ∈ l -> f x = false.
Proof using. intros E. pose proof (pick_spec f l) as H. by rewrite E in H. Qed.

Lemma sublist_sorted (ts ts' : list (task Data)) : ts `sublist_of` ts' -> StronglySorted (fun t u => GET_START_TIME t <= GET_START_TIME u) ts' ->
  StronglySorted (fun t u => GET_START_TIME t <= GET_START_TIME u) ts.
Proof using.
  induction 1 as [|x l1 l2 Hs IH|x l1 l2 Hs IH]; intros H; [done| |].
  - apply StronglySorted_inv in H as [H Hx]. constructor; [by apply IH|]. rewrite Forall_forall in Hx |- *. intros y Hy. apply Hx.
    eapply elem_of_submseteq; [exact Hy|]. by apply sublist_submseteq.
  - apply StronglySorted_inv in H as [H _]. by apply IH.
Qed.
Lemma pick_sublist {A} (f : A -> bool) l x rest : pick f l = Some (x, rest) -> rest `sublist_of` l.
Proof using.
  intros E. pose proof (pick_spec f l) as H. rewrite E in H. destruct H as (l1 & l2 & -> & -> & _). apply sublist_app; [done|]. by apply sublist_cons.
Qed.

(** What killing a task does. *)
Definition killed (id : Z) (s s' : queues Data) : Prop := keeps s s' /\ all_ids s ≡ₚ id :: all_ids s'.

Lemma kill_waiting_Ok id t rest (s : queues Data) : sound s -> pick (fun t => id_of_task t =? id) (waiting_tasks s) = Some (t, rest) ->
  exists s', (r ← lookup_tqueue (progr_of_task t) s;
    s ← match r with Some p => upd_queue p (fun tq => set_tq_num_bg (wrap32 (tq_num_bg tq - 1)) tq) s | None => Ok s end;
    Ok (E_NONE, set_waiting_tasks rest s)) = Ok (E_NONE, s') /\ killed id s s'.
Proof using.
  intros S E. destruct (pick_perm _ _ _ _ E) as [Hperm Hid]. apply Z.eqb_eq in Hid. pose proof (pick_sublist _ _ _ _ E) as Hsub.
  destruct (lookup_tqueue_Ok s (progr_of_task t) S) as (r & -> & Hr). cbn [mbind res_bind].
  assert (Hids : forall l, (id_of_task <$> waiting_tasks s) ++ l ≡ₚ id :: (id_of_task <$> rest) ++ l) by (intros l; by rewrite Hperm, <- Hid).
  destruct r as [p|].
  - destruct Hr as (tq & Hq & Hp). rewrite (upd_queue_Ok s p _ tq Hq). cbn [mbind res_bind]. eexists. split; [done|]. split; [split|].
    + unfold sound. cbn [tqueues active_tqueues idle_tqueues waiting_tasks set_waiting_tasks set_tqueues]. destruct (so_queues _ _ _ _ S p tq Hq) as [T1 T2 T3].
      eapply (rewait_sound _ _ _ _ _ p tq); [exact S|exact Hq|done|done| |exact (bg_or_active s p tq S Hq)| | |].
      * split; [done|done|]. intros Hne. cbn [tq_num_bg tq_bg tq_player set_tq_num_bg] in *. rewrite (T3 Hne), <- Z.add_opp_r, wrap32_shift. f_equal.
        unfold waiting_of. rewrite Hp, Hperm, filter_cons_True by done. cbn [length]. lia.
      * intros player Hpl. unfold waiting_of. by rewrite Hperm, filter_cons_False by congruence.
      * intros u Hu. left. eapply elem_of_submseteq; [exact Hu|]. by apply sublist_submseteq.
      * eapply sublist_sorted; [exact Hsub|apply S].
    + apply grows_waiting, grows_set.
    + unfold all_ids. cbn [tqueues active_tqueues idle_tqueues waiting_tasks external_queues set_waiting_tasks set_tqueues].
      assert (Hsame : forall l, concat (queue_ids (<[p := set_tq_num_bg (wrap32 (tq_num_bg tq - 1)) tq]> (tqueues s)) <$> l) = concat (queue_ids (tqueues s) <$> l)).
      { intros l. f_equal. apply list_fmap_ext. intros _ q _. unfold queue_ids. destruct (decide (q = p)) as [->|]; [by rewrite lookup_insert_eq, Hq|by rewrite lookup_insert_ne]. }
      rewrite Hsame. by apply Hids.
  - cbn [mbind res_bind]. eexists. split; [done|]. assert (Hno : progr_of_task t = NOTHING).
    { destruct (decide (progr_of_task t = NOTHING)) as [|Hne]; [done|]. destruct (so_homes _ _ _ _ S t) as (q & tq & Hq & Hpq); [rewrite Hperm; left|done|]. by destruct (Hr q tq Hq). }
    split; [split; [|apply grows_waiting, queues_grow_refl]|by apply Hids]. destruct S as [S1 S2 S3 S4 S5 S6 S7 S8 S9]. split; try done; cbn [waiting_tasks set_waiting_tasks].
    + intros p tq Hq. destruct (S7 p tq Hq) as [T1 T2 T3]. split; [done|done|]. intros Hne. rewrite (T3 Hne). unfold waiting_of.
      by rewrite Hperm, filter_cons_False by congruence.
    + intros u Hu. apply S8. rewrite Hperm. by right.
    + by eapply sublist_sorted.
Qed.

(** One task less in a queue. *)
Lemma kill_one id p tq tq' (s : queues Data) : sound s -> tqueues s !! p = Some tq -> keeps s (set_tqueues (<[p := tq']> (tqueues s)) s) ->
  reading_ids tq ++ (id_of_task <$> tq_bg tq) ≡ₚ id :: reading_ids tq' ++ (id_of_task <$> tq_bg tq') ->
  killed id s (set_tqueues (<[p := tq']> (tqueues s)) s).
Proof using.
  intros S Hq K Hids. split; [done|]. unfold all_ids. cbn [tqueues active_tqueues idle_tqueues waiting_tasks external_queues set_tqueues].
  rewrite (queue_ids_less (tqueues s) p tq tq' id); [| |apply (so_dom _ _ _ _ S); by eexists|done|done]; [|apply S]. cbn [app]. by rewrite <- Permutation_middle.
Qed.

Lemma reading_as_spec id (tq : tqueue Data) : match reading_as id tq with Some v => reading_ids tq = [id] | None => id ∉ reading_ids tq end.
Proof using.
  unfold reading_as, reading_ids. destruct (tq_reading tq) as [v|]; [|by intros ?%elem_of_nil]. destruct (Z.eqb_spec (vm_task_id v) id) as [->|Hne]; [done|].
  intros ?%list_elem_of_singleton. congruence.
Qed.

Lemma in_queue_ids id p (s : queues Data) : p ∈ active_tqueues s ++ idle_tqueues s -> id ∈ queue_ids (tqueues s) p -> id ∈ all_ids s.
Proof using.
  intros Hp Hid. unfold all_ids. apply elem_of_app. right. apply elem_of_app. left. apply list_elem_of_In, in_concat. exists (queue_ids (tqueues s) p).
  split; [|by apply list_elem_of_In]. apply list_elem_of_In, list_elem_of_fmap. by exists p.
Qed.

Lemma kill_in_queues_Ok id owner (with_bg : bool) l (s : queues Data) : sound s -> (forall p, p ∈ l -> p ∈ if with_bg then active_tqueues s else idle_tqueues s) ->
  exists r, kill_in_queues d id owner with_bg l s = Ok r /\
  match r with
  | None => forall p, p ∈ l -> id ∉ queue_ids (tqueues s) p
  | Some (E_NONE, s') => killed id s s'
  | Some (E_PERM, s') => s' = s /\ id ∈ all_ids s /\ exists who, may_control d owner who = Ok false
  | _ => False
  end.
Proof using Hg.
  intros S. induction l as [|p l IH]; intros Hl; [exists None; split; [done|]; by intros p ?%elem_of_nil|]. cbn [kill_in_queues].
  assert (Hp : p ∈ active_tqueues s ++ idle_tqueues s) by (apply elem_of_app; specialize (Hl p ltac:(left)); by destruct with_bg; [left|right]).
  assert (Hk : known s p) by (by apply (so_dom _ _ _ _ S)). destruct (at_queue_Ok s p Hk) as (tq & Hq & ->). cbn [mbind res_bind].
  destruct (may_control_Ok owner (tq_player tq)) as [b Hb]. pose proof (reading_as_spec id tq) as Hr.
  assert (Hbg : (if with_bg then tq_bg tq else []) = tq_bg tq).
  { destruct with_bg; [done|]. symmetry. eapply (so_idle _ _ _ _ S p); [apply (Hl p); left|done]. }
  rewrite Hbg. destruct (reading_as id tq) as [v|].
  - rewrite Hb. cbn [mbind res_bind]. destruct b.
    + destruct (upd_keeps s p (set_tq_reading None)) as (s' & E & K & _); [done..|]. rewrite (upd_queue_Ok s p _ tq Hq) in E |- *. injection E as <-.
      cbn [mbind res_bind]. eexists. split; [done|]. apply (kill_one id p tq); [done|done|done|]. by rewrite Hr.
    + eexists. split; [done|]. split; [done|]. split; [|by eexists]. apply (in_queue_ids id p); [done|]. unfold queue_ids. rewrite Hq, Hr. left.
  - destruct (pick (fun t => id_of_task t =? id) (tq_bg tq)) as [[t rest]|] eqn:E.
    + destruct (pick_perm _ _ _ _ E) as [Hperm Hid]. apply Z.eqb_eq in Hid. rewrite Hb. cbn [mbind res_bind]. destruct b.
      * rewrite (upd_queue_Ok s p _ tq Hq). cbn [mbind res_bind]. eexists. split; [done|]. apply (kill_one id p tq); [done|done| |].
        { split; [|apply grows_set]. destruct (so_queues _ _ _ _ S p tq Hq) as [T1 T2 T3].
          apply (replace_sound _ _ _ _ p tq); [exact S|exact Hq|done|done| |].
          - split; [done| |].
            + cbn [tq_bg tq_player set_tq_num_bg set_tq_bg]. rewrite Hperm in T2. by apply Forall_cons in T2 as [_ T2].
            + intros Hne. cbn [tq_num_bg tq_bg tq_player set_tq_num_bg set_tq_bg] in *. rewrite (T3 Hne), <- Z.add_opp_r, wrap32_shift. f_equal.
              rewrite (Permutation_length Hperm). cbn [length waiting_tasks set_tqueues]. lia.
          - destruct (bg_or_active s p tq S Hq) as [Hnil|]; [rewrite Hnil in E; done|by right]. }
        { cbn [tq_bg set_tq_num_bg set_tq_bg]. rewrite Hperm. cbn [fmap list_fmap]. rewrite Hid. by rewrite <- Permutation_middle. }
      * eexists. split; [done|]. split; [done|]. split; [|by eexists]. apply (in_queue_ids id p); [done|]. unfold queue_ids. rewrite Hq. apply elem_of_app. right.
        rewrite Hperm, <- Hid. left.
    + destruct IH as (r & -> & H); [intros q Hqin; apply Hl; by right|]. exists r. split; [done|]. destruct r; [done|].
      intros q [->|Hqin]%elem_of_cons; [|by apply H]. unfold queue_ids. rewrite Hq, elem_of_app. intros [|Hid]; [done|].
      apply list_elem_of_fmap in Hid as (t & -> & Ht). pose proof (pick_none _ _ E t Ht) as Hf. cbn in Hf. by rewrite Z.eqb_refl in Hf.
Qed.

Lemma kill_external_Ok id owner (qs : list (list (vmstruct Data))) : exists e qs', kill_external d id owner qs = Ok (e, qs') /\
  match e with
  | E_NONE => vm_task_id <$> concat qs ≡ₚ id :: (vm_task_id <$> concat qs')
  | E_PERM => qs' = qs /\ id ∈ vm_task_id <$> concat qs /\ exists who, may_control d owner who = Ok false
  | E_INVARG => qs' = qs /\ id ∉ vm_task_id <$> concat qs
  | _ => False
  end.
Proof using Hg.
  induction qs as [|q qs IH]; [exists E_INVARG, []; repeat split; by intros ?%elem_of_nil|]. cbn [kill_external].
  destruct (pick (fun v => vm_task_id v =? id) q) as [[v rest]|] eqn:E.
  - destruct (pick_perm _ _ _ _ E) as [Hperm Hid]. apply Z.eqb_eq in Hid. destruct (may_control_Ok owner (progr_of_cur_verb v)) as [b Hb]. rewrite Hb.
    cbn [mbind res_bind]. destruct b.
    + exists E_NONE, (rest :: qs). split; [done|]. cbn [concat]. by rewrite Hperm, <- Hid.
    + exists E_PERM, (q :: qs). split; [done|]. split; [done|]. split; [|by eexists]. cbn [concat]. rewrite Hperm, <- Hid. left.
  - destruct IH as (e & qs' & -> & H). cbn [mbind res_bind]. exists e, (q :: qs'). split; [done|]. cbn [concat].
    destruct e; try done.
    + rewrite !fmap_app, H. by rewrite Permutation_middle.
    + destruct H as (-> & H & Hw). split; [done|]. split; [|done]. rewrite fmap_app. apply elem_of_app. by right.
    + destruct H as (-> & H). split; [done|]. rewrite fmap_app, elem_of_app. intros [Hin|]; [|done]. apply list_elem_of_fmap in Hin as (v & -> & Hv).
      pose proof (pick_none _ _ E v Hv) as Hf. cbn in Hf. by rewrite Z.eqb_refl in Hf.
Qed.

(** Killing a task removes exactly one task with that number. *)
Lemma kill_task_Ok id owner (s : queues Data) : sound s -> exists e s', kill_task d id owner s = Ok (e, s') /\
  match e with
  | E_NONE => if id =? current_task_id s then s' = s else killed id s s'
  | E_PERM => s' = s /\ id ∈ all_ids s /\ exists who, may_control d owner who = Ok false
  | E_INVARG => s' = s /\ id ∉ all_ids s
  | _ => False
  end.
Proof using Hg.
  intros S. unfold kill_task. destruct (id =? current_task_id s) eqn:Hc; [by exists E_NONE, s|].
  destruct (pick (fun t => id_of_task t =? id) (waiting_tasks s)) as [[t rest]|] eqn:E.
  - destruct (may_control_Ok owner (progr_of_task t)) as [b Hb]. rewrite Hb. cbn [mbind res_bind]. destruct b.
    + destruct (kill_waiting_Ok id t rest s S E) as (s' & -> & K). exists E_NONE, s'. done.
    + exists E_PERM, s. split; [done|]. split; [done|]. split; [|by eexists]. destruct (pick_perm _ _ _ _ E) as [Hperm Hid]. apply Z.eqb_eq in Hid.
      unfold all_ids. apply elem_of_app. left. rewrite Hperm, <- Hid. left.
  - destruct (kill_in_queues_Ok id owner false (idle_tqueues s) s S) as (r & -> & Hr); [done|]. cbn [mbind res_bind].
    destruct r as [[e s']|]; [exists e, s'; split; [done|]; by destruct e|].
    destruct (kill_in_queues_Ok id owner true (active_tqueues s) s S) as (r & -> & Hr'); [done|]. cbn [mbind res_bind].
    destruct r as [[e s']|]; [exists e, s'; split; [done|]; by destruct e|].
    destruct (kill_external_Ok id owner (external_queues s)) as (e & qs & -> & Hx). cbn [mbind res_bind]. exists e, (set_external_queues qs s). split; [done|].
    assert (Hsame : set_external_queues (external_queues s) s = s) by (by destruct s). destruct e; try done.
    + split; [split; [exact S|apply grows_external, queues_grow_refl]|]. unfold all_ids. cbn [tqueues active_tqueues idle_tqueues waiting_tasks external_queues set_external_queues].
      rewrite Hx. by rewrite <- !Permutation_middle.
    + destruct Hx as (-> & Hx & Hw). rewrite Hsame. split; [done|]. split; [|done]. unfold all_ids. apply elem_of_app. right. apply elem_of_app. by right.
    + destruct Hx as (-> & Hx). rewrite Hsame. split; [done|]. unfold all_ids. rewrite !elem_of_app. intros [Hin|[Hin|]]; [| |done].
      * apply list_elem_of_fmap in Hin as (t & -> & Ht). pose proof (pick_none _ _ E t Ht) as Hf. cbn in Hf. by rewrite Z.eqb_refl in Hf.
      * apply list_elem_of_In, in_concat in Hin as (ids & Hids & Hin). apply list_elem_of_In, list_elem_of_fmap in Hids as (p & -> & Hp). apply list_elem_of_In in Hin.
        apply elem_of_app in Hp as [Hp|Hp]; [by apply (Hr' p)|by apply (Hr p)].
Qed.

(** *** Resuming *)

Lemma ensure_usage_waiting p rest (s : queues Data) : ensure_usage p (set_waiting_tasks rest s) = set_waiting_tasks rest <$> ensure_usage p s.
Proof using.
  unfold ensure_usage, at_queue. cbn [tqueues set_waiting_tasks active_tqueues idle_tqueues]. destruct (tqueues s !! p) as [tq|] eqn:Hq; [|done].
  cbn [deref mbind res_bind]. destruct (tq_usage tq =? NO_USAGE); [|done].
  destruct (match active_tqueues s with [] => Ok 0 | q :: _ => tq_usage <$> deref (tqueues s !! q) end) as [u|]; [|done]. cbn [mbind res_bind].
  unfold upd_queue, at_queue. cbn [tqueues set_waiting_tasks]. rewrite Hq. cbn [deref mbind res_bind]. unfold activate_tqueue, at_queue.
  cbn [tqueues active_tqueues idle_tqueues set_waiting_tasks set_idle_tqueues set_tqueues]. rewrite lookup_insert_eq. cbn [deref mbind res_bind].
  by destruct (insert_active _ _ _ _).
Qed.

(** A waiting task becomes the last one that is ready, for its programmer. *)
Lemma ready_Ok (s : queues Data) p tq t t' rest : sound s -> tqueues s !! p = Some tq -> tq_player tq = progr_of_task t -> progr_of_task t' = progr_of_task t ->
  waiting_tasks s ≡ₚ t :: rest -> rest `sublist_of` waiting_tasks s ->
  exists s', (s ← ensure_usage p (set_waiting_tasks rest s); enqueue_bg_task p t' s) = Ok s' /\ keeps s s' /\ waiting_tasks s' = rest /\ p ∈ active_tqueues s' /\
    exists tq', tqueues s' !! p = Some tq' /\ tq_bg tq' = tq_bg tq ++ [t'].
Proof using.
  intros S Hq Hp Hp' Hperm Hsub. rewrite ensure_usage_waiting. destruct (ensure_usage_Ok s p S) as (s1 & -> & [S1 K1] & Hact & Hw & Hqs); [by eexists|].
  cbn [fmap res_fmap mbind res_bind]. destruct (Hqs p tq Hq) as [u Hq1]. unfold enqueue_bg_task.
  rewrite (upd_queue_Ok _ p _ (set_tq_usage u tq)) by done. eexists. split; [done|]. split; [split|split; [done|split; [done|]]].
  - unfold sound. cbn [tqueues active_tqueues idle_tqueues waiting_tasks set_waiting_tasks set_tqueues]. destruct (so_queues _ _ _ _ S1 p _ Hq1) as [T1 T2 T3].
    cbn [tq_total tq_input tq_bg tq_player tq_num_bg set_tq_usage] in *. eapply (rewait_sound _ _ _ _ _ p (set_tq_usage u tq)); [exact S1|exact Hq1|done|done| | | | |].
    + split; cbn [tq_total tq_input tq_bg tq_player tq_num_bg set_tq_usage set_tq_bg]; [done|apply Forall_app; split; [done|]; apply Forall_singleton; congruence|].
      intros Hne. rewrite (T3 Hne), Hw. f_equal. unfold waiting_of. rewrite Hperm, filter_cons_True by congruence. rewrite length_app. cbn [length]. lia.
    + by right.
    + intros player Hpl. cbn [tq_player set_tq_usage] in Hpl. unfold waiting_of. by rewrite Hw, Hperm, filter_cons_False by congruence.
    + intros x Hx. left. rewrite Hw. eapply elem_of_submseteq; [exact Hx|]. by apply sublist_submseteq.
    + rewrite <- Hw in Hsub. eapply sublist_sorted; [exact Hsub|apply S1].
  - destruct K1 as [K1 K1']. split; [|exact K1']. intros q Hk. apply (known_set (set_waiting_tasks rest s1)). by apply K1.
  - eexists. cbn [tqueues set_tqueues set_waiting_tasks]. rewrite lookup_insert_eq. by split.
Qed.

Lemma set_value_spec id value (ts ts' : list (task Data)) : set_value id value ts = Some ts' -> length ts' = length ts /\ progr_of_task <$> ts' = progr_of_task <$> ts.
Proof using.
  revert ts'. induction ts as [|[f|st] ts IH]; intros ts' E; [done| |]; cbn [set_value] in E.
  - apply fmap_Some in E as (ts1 & E & ->). destruct (IH _ E) as [H1 H2]. cbn [length fmap list_fmap]. by rewrite H1, <- H2.
  - destruct (_ =? _); [by injection E as <-|]. apply fmap_Some in E as (ts1 & E & ->). destruct (IH _ E) as [H1 H2]. cbn [length fmap list_fmap]. by rewrite H1, <- H2.
Qed.

Lemma resume_in_queues_Ok id value progr l (s : queues Data) : sound s -> (forall p, p ∈ l -> known s p) ->
  exists e s', resume_in_queues d id value progr l s = Ok (e, s') /\ keeps s s' /\ match e with E_NONE => True | E_PERM | E_INVARG => s' = s | _ => False end.
Proof using Hg.
  intros S. induction l as [|p l IH]; intros Hl; [by exists E_INVARG, s|]. cbn [resume_in_queues].
  destruct (at_queue_Ok s p) as (tq & Hq & ->); [apply Hl; left|]. cbn [mbind res_bind]. destruct (set_value id value (tq_bg tq)) as [ts|] eqn:E.
  - destruct (may_control_Ok progr (tq_player tq)) as [b ->]. cbn [mbind res_bind]. destruct b; [|by exists E_PERM, s].
    rewrite (upd_queue_Ok s p _ tq Hq). cbn [mbind res_bind]. eexists E_NONE, _. split; [done|]. split; [|done]. split; [|apply grows_set].
    destruct (set_value_spec _ _ _ _ E) as [H1 H2]. destruct (so_queues _ _ _ _ S p tq Hq) as [T1 T2 T3].
    apply (replace_sound _ _ _ _ p tq); [exact S|exact Hq|done|done| |].
    + split; [done| |by cbn [tq_bg tq_player tq_num_bg set_tq_bg]; rewrite H1].
      cbn [tq_bg tq_player set_tq_bg]. apply Forall_forall. intros t Ht.
      assert (Hin : progr_of_task t ∈ progr_of_task <$> ts) by (apply list_elem_of_fmap; by exists t). rewrite H2 in Hin.
      apply list_elem_of_fmap in Hin as (t0 & -> & Ht0). rewrite Forall_forall in T2. by apply T2.
    + destruct (bg_or_active s p tq S Hq) as [Hnil|]; [by rewrite Hnil in E|by right].
  - apply IH. intros q Hqin. apply Hl. by right.
Qed.

Lemma do_resume_Ok now id value progr (s : queues Data) : sound s -> exists e s', do_resume d now id value progr s = Ok (e, s') /\ keeps s s' /\
  match e with E_NONE => True | E_PERM | E_INVARG => s' = s | _ => False end.
Proof using Hg.
  intros S. unfold do_resume. assert (Hrest : exists e s', resume_in_queues d id value progr (active_tqueues s) s = Ok (e, s') /\ keeps s s' /\
    match e with E_NONE => True | E_PERM | E_INVARG => s' = s | _ => False end).
  { apply resume_in_queues_Ok; [done|]. intros p Hp. apply (so_dom _ _ _ _ S), elem_of_app. by left. }
  destruct (pick _ (waiting_tasks s)) as [[[f|st] rest]|] eqn:E; [done| |done].
  destruct (pick_perm _ _ _ _ E) as [Hperm _]. pose proof (pick_sublist _ _ _ _ E) as Hsub. clear E Hrest.
  destruct (may_control_Ok progr (progr_of_cur_verb (st_vm st))) as [b ->]. cbn [mbind res_bind]. destruct b; [|by exists E_PERM, s].
  destruct (find_tqueue_Ok s (progr_of_cur_verb (st_vm st)) S) as (p & s1 & -> & K1 & (tq & Hq & Hp) & Hw). cbn [mbind res_bind].
  rewrite <- Hw in Hperm, Hsub.
  destruct (ready_Ok s1 p tq (SUSPENDED st) (SUSPENDED (mkSuspended (st_vm st) now value)) rest) as (s2 & E & K2 & _); [apply K1|done..|].
  apply res_bind_Ok in E as (s1' & -> & E). cbn [mbind res_bind]. rewrite E. cbn [mbind res_bind]. exists E_NONE, s2. split; [done|]. split; [by eapply keeps_trans|done].
Qed.

(** *** Forking *)

Lemma copy_env_prefix (env : list Var) n : (n <= length env)%nat -> copy_rt_env env n = Ok (take n env).
Proof using.
  intros Hn. transitivity (copy_rt_env (take n env) (length (take n env))); [|apply copy_rt_env_Ok]. rewrite length_take, Nat.min_l by done. unfold copy_rt_env.
  assert (H : forall l, (forall i, i ∈ l -> (i < n)%nat) -> mapM (fun i => deref (env !! i)) l = mapM (fun i => deref (take n env !! i)) l).
  { induction l as [|i l IH]; [done|]. intros Hi. cbn [mapM]. rewrite lookup_take_lt by (apply Hi; left). destruct (deref (env !! i)); [|done]. cbn [mbind res_bind].
    rewrite IH; [done|]. intros j Hj. apply Hi. by right. }
  apply H. intros i Hi. apply elem_of_seq in Hi. lia.
Qed.

Lemma nonzero_spec l i l' : nonzero l = Some (i, l') -> i <> 0.
Proof using. induction l as [|j l IH]; [done|]. cbn [nonzero]. destruct (Z.eqb_spec j 0); [done|]. by intros [= -> ->]. Qed.

(** [id]: the number that the new task will get. *)
Lemma enqueue_forked_task2_Ok now a f_index after vid (s : queues Data) id rs : sound s -> nonzero (randoms s) = Some (id, rs) ->
  (num_var_names (a_prog a) <= length (rt_env a))%nat -> (forall v, vid = Some v -> (v < length (rt_env a))%nat) ->
  exists e env s', enqueue_forked_task2 d now a f_index after vid s = Ok (e, env, s') /\ keeps s s' /\
  match e with
  | E_QUOTA => s' = s /\ env = rt_env a
  | E_NONE => env = match vid with Some v => <[v := Int id]> (rt_env a) | None => rt_env a end /\ exists f, id <> 0 /\
      waiting_tasks s' = insert_waiting (FORKED f) (waiting_tasks s) /\ ft_id f = id /\ ft_program f = a_prog a /\ ft_f_index f = f_index /\
      ft_rt_env f = take (num_var_names (a_prog a)) env /\ ft_start_time f = now + u32 after /\ progr_of_task (FORKED f) = a_progr a
  | _ => False
  end.
Proof using Hg.
  intros S Hr Hn Hv. unfold enqueue_forked_task2. destruct (check_user_task_limit_Ok s (a_progr a) S) as [b ->]. cbn [mbind res_bind].
  destruct b; cbn [negb]; [|by exists E_QUOTA, (rt_env a), s]. unfold new_task_id. rewrite Hr. cbn [mbind res_bind].
  set (env := match vid with Some v => <[v := Int id]> (rt_env a) | None => rt_env a end).
  assert (He : (match vid with Some v => if decide (v < length (rt_env a))%nat then Ok (<[v := Int id]> (rt_env a)) else Fail Segv | None => Ok (rt_env a) end) = Ok env).
  { unfold env. destruct vid as [v|]; [|done]. rewrite decide_True; [done|]. by apply Hv. }
  rewrite He. cbn [mbind res_bind]. assert (Hlen : length env = length (rt_env a)) by (unfold env; destruct vid; [apply length_insert|done]).
  rewrite copy_env_prefix by lia. cbn [mbind res_bind]. set (f := mkForked _ _ _ _ _ _).
  destruct (enqueue_waiting_Ok (set_randoms rs s) (FORKED f) S) as (s' & -> & K & Hw). cbn [mbind res_bind]. exists E_NONE, env, s'. split; [done|]. split; [destruct K as [KS [K1 K2]]; by split|].
  split; [done|]. exists f. split; [by eapply nonzero_spec|]. split; [exact Hw|]. by repeat split.
Qed.

End good_db.
End invariant.
