(* ===== verification/VmFrame.v ===== *)
(** * What programs can do to the world (src/execute.c)

    The interpreter changes the world only through what it calls: a property of the world that
    built-in functions, forking, suspending, waifs, messages and the timer keep is kept by whole
    tasks, however they end. *)

From S2P Require Import Prelude CStrings Values Lists Libc Db Properties Verbs ParseCmd Ast CodeGen EvalEnv Vm VmRun VmTasks.

Open Scope Z_scope.

Create HintDb frame.

(** [Host] functions keep [I]. *)
Class HostKeeps {Data Susp World : Type} (H : Host Data Susp World) (I : World -> Prop) : Prop := {
  bi_func_keeps id v pc progr data m r m' : I (world m) -> call_bi_func id v pc progr data m = Ok (r, m') -> I (world m');
  fork_keeps a f n id m e m' : I (world m) -> enqueue_forked_task2 a f n id m = Ok (e, m') -> I (world m');
  suspend_keeps susp m e m' : I (world m) -> suspend_task susp m = Ok (e, m') -> I (world m');
  waif_get_keeps w name progr m e v m' : I (world m) -> waif_get_prop w name progr m = Ok (e, v, m') -> I (world m');
  waif_put_keeps w name v progr m e m' : I (world m) -> waif_put_prop w name v progr m = Ok (e, m') -> I (world m') }.

Section frame.
Context {Data Susp World : Type} {H : Host Data Susp World} {I : World -> Prop} {K : HostKeeps H I}.
Notation machine := (vm Data World).
Notation act := (@act Data World).

Definition framed {A} (a : act A) : Prop := forall m r m', I (world m) -> a m = Ok (r, m') -> I (world m').

#[local] Existing Instances act_ret act_bind.

Lemma framed_ret {A} (a : A) : framed (mret a : act A).
Proof. intros m r m' Hi [= _ <-]. done. Qed.
Lemma framed_bind {A B} (x : act A) (f : A -> act B) : framed x -> (forall a, framed (f a)) -> framed (x ≫= f).
Proof.
  intros Hx Hf m r m' Hi E. unfold mbind, act_bind in E. apply res_bind_Ok in E as ([a m1] & E1 & E2). eapply Hf; [|exact E2]. by eapply Hx.
Qed.
Lemma framed_liftM {A} (x : res A) : framed (liftM x).
Proof. intros m r m' Hi E. unfold liftM in E. simplify_res. done. Qed.
Lemma framed_observe {A} (f : machine -> res A) : framed (observe f).
Proof. intros m r m' Hi E. unfold observe in E. simplify_res. done. Qed.
Lemma framed_alter f : (forall m, world (f m) = world m) -> framed (alter_ f).
Proof. intros Hf m r m' Hi [= _ <-]. by rewrite Hf. Qed.

Lemma upd_activ_world f (m : machine) : world (upd_activ f m) = world m.
Proof. unfold upd_activ. by destruct (activ_stack m). Qed.
Lemma PUSH_world v (m m' : machine) : PUSH v m = Ok m' -> world m' = world m.
Proof. unfold PUSH. intros E. simplify_res. case_decide; simplify_res. apply upd_activ_world. Qed.
Lemma POP_world (m m' : machine) v : POP m = Ok (v, m') -> world m' = world m.
Proof. unfold POP. intros E. simplify_res. case_match; simplify_res. apply upd_activ_world. Qed.

Lemma framed_push v : framed (push v).
Proof. intros m r m' Hi E. unfold push in E. simplify_res. by erewrite PUSH_world. Qed.
Lemma framed_pop : framed pop.
Proof. intros m r m' Hi E. by erewrite POP_world. Qed.
Lemma framed_upd_activ f : framed (alter_ (upd_activ f)).
Proof. apply framed_alter, upd_activ_world. Qed.

(** ** Unwinding and calls *)

Lemma squelch_keeps fuel : forall id pc progr data m m', I (world m) -> squelch fuel id pc progr data m = Ok m' -> I (world m').
Proof using K.
  induction fuel as [|fuel IH]; intros id pc progr data m m' Hi E; [done|]. cbn [squelch] in E. apply res_bind_Ok in E as ([p m1] & E1 & E).
  pose proof (bi_func_keeps _ _ _ _ _ _ _ _ Hi E1) as Hi1. destruct p; simplify_res; try done. case_match; simplify_res; [done|].
  eapply IH; [|eassumption]. done.
Qed.

Lemma raise_with_keeps unw code msg v : (forall why value, framed (unw why value)) -> framed (raise_error_with unw code msg v).
Proof.
  intros Hu m r m' Hi E. unfold raise_error_with in E. apply res_bind_Ok in E as ([fr|] & _ & E); [by eapply Hu|].
  eapply (Hu _ _ (with_handler _ m)); [|exact E]. exact Hi.
Qed.

(** Splits a result into its cases; what is left of the world is rewritten. *)
Ltac walk := repeat (progress simplify_res || case_match).

Lemma framed_bi_func id v pc progr data : framed (call_bi_func id v pc progr data).
Proof using K. intros m r m' Hi E. by eapply bi_func_keeps. Qed.
Lemma framed_suspend susp : framed (suspend_task susp).
Proof using K. intros m r m' Hi E. by eapply suspend_keeps. Qed.
Lemma framed_fork a f n id : framed (enqueue_forked_task2 a f n id).
Proof using K. intros m r m' Hi E. by eapply fork_keeps. Qed.
Lemma framed_waif_put w name v progr : framed (waif_put_prop w name v progr).
Proof using K. intros m r m' Hi E. by eapply waif_put_keeps. Qed.

Lemma framed_waif_get w name progr : framed (waif_get_prop w name progr : act (error * Var)).
Proof using K. intros m [e v] m' Hi E. by eapply waif_get_keeps. Qed.

(** Follows the world back through the steps of a result; [tac] proves that they are framed. *)
Ltac kept_by tac := lazymatch goal with
  | |- I (world (upd_activ _ _)) => rewrite upd_activ_world; kept_by tac
  | E : PUSH _ _ = Ok ?m |- I (world ?m) => rewrite (PUSH_world _ _ _ E); kept_by tac
  | E : POP _ = Ok (_, ?m) |- I (world ?m) => rewrite (POP_world _ _ _ E); kept_by tac
  | E : squelch _ _ _ _ _ _ = Ok ?m |- I (world ?m) => eapply squelch_keeps; [|exact E]; kept_by tac
  | E : ?a ?m0 = Ok (?r, ?m) |- I (world ?m) => refine ((_ : framed a) m0 r m _ E); [tac|kept_by tac]
  | |- _ => assumption
  end.

Lemma unwind_stack_keeps fuel : forall why value, framed (unwind_stack fuel why value).
Proof using K.
  induction fuel as [|fuel IH]; intros why value m r m' Hi E; [done|].
  assert (IHr : forall code msg v, framed (raise_error_with (unwind_stack fuel) code msg v)) by (intros; by apply raise_with_keeps).
  cbn [unwind_stack] in E. walk; kept_by ltac:(first [apply framed_bi_func|apply framed_suspend|apply IHr|apply IH]).
Qed.

Lemma framed_unwind why value : framed (unwind why value).
Proof using K. intros m r m' Hi E. by eapply unwind_stack_keeps. Qed.
Lemma framed_raise_error code msg v : framed (raise_error code msg v).
Proof using K. apply raise_with_keeps. intros why value. apply framed_unwind. Qed.

Lemma find_callable_world where_ vname (m m' : machine) c : find_callable where_ vname m = Ok (c, m') -> world m' = world m.
Proof. unfold find_callable. intros E. by walk. Qed.
Lemma framed_call_verb2 this vname THIS args do_pass : framed (call_verb2 this vname THIS args do_pass).
Proof.
  intros m r m' Hi E. unfold call_verb2 in E. walk; try done;
    match goal with E : find_callable _ _ _ = Ok _ |- _ => apply find_callable_world in E; cbn [world with_activs]; by rewrite E end.
Qed.

(** ** Instructions *)

Ltac framing := repeat first
  [ apply framed_bind; [|intros ?] | apply framed_ret | apply framed_liftM | apply framed_observe | apply framed_push | apply framed_pop
  | apply framed_upd_activ | apply framed_bi_func | apply framed_suspend | apply framed_fork | apply framed_waif_put | apply framed_waif_get | apply framed_unwind
  | apply framed_raise_error | apply framed_call_verb2 | progress eauto with frame | case_match | apply framed_alter; by intros m ].

Lemma framed_READ_BYTES nb : framed (READ_BYTES nb).
Proof. unfold READ_BYTES, SKIP_BYTES, run_activ. framing. Qed.
#[local] Hint Resolve framed_READ_BYTES : frame.
Lemma framed_read_label : framed read_label.
Proof. unfold read_label. framing. Qed.
Lemma framed_skip_label : framed skip_label.
Proof. unfold skip_label, SKIP_BYTES. framing. Qed.
Lemma framed_read_var_name : framed read_var_name.
Proof. unfold read_var_name. framing. Qed.
Lemma framed_skip_var_name : framed skip_var_name.
Proof. unfold skip_var_name, SKIP_BYTES. framing. Qed.
Lemma framed_read_stack_ref : framed read_stack_ref.
Proof. unfold read_stack_ref. framing. Qed.
Lemma framed_peek i : framed (peek i).
Proof. unfold peek, run_activ. framing. Qed.
Lemma framed_get_var i : framed (get_var i).
Proof. unfold get_var, run_activ. framing. Qed.
#[local] Hint Resolve framed_read_label framed_skip_label framed_read_var_name framed_skip_var_name framed_read_stack_ref framed_peek framed_get_var : frame.
Lemma framed_put_var i v : framed (put_var i v).
Proof. unfold put_var. framing. Qed.
Lemma framed_RAISE_ERROR e k : framed k -> framed (RAISE_ERROR e k).
Proof using K. intros Hk. unfold RAISE_ERROR, run_activ. framing. Qed.
#[local] Hint Resolve framed_put_var framed_RAISE_ERROR : frame.
Lemma framed_PUSH_ERROR e : framed (PUSH_ERROR e).
Proof using K. unfold PUSH_ERROR, next_op. apply framed_RAISE_ERROR. framing. Qed.
Lemma framed_push_value v : framed (push_value v).
Proof. unfold push_value, next_op. framing. Qed.
#[local] Hint Resolve framed_PUSH_ERROR framed_push_value : frame.
Lemma framed_push_result r : framed (push_result r).
Proof using K. unfold push_result. framing. Qed.
Lemma framed_leave_loop lab : framed (leave_loop lab).
Proof. unfold leave_loop, JUMP, next_op. framing. Qed.
#[local] Hint Resolve framed_push_result framed_leave_loop : frame.
Lemma framed_do_test : framed do_test.
Proof. unfold do_test, JUMP, next_op. framing. Qed.
#[local] Hint Resolve framed_do_test : frame.

Lemma framed_waif_index vname w args : framed (waif_index_call vname w args).
Proof using K. unfold waif_index_call, next_op. framing. Qed.
Lemma framed_get_prop obj propname : framed (get_prop obj propname).
Proof using K.
  unfold get_prop, run_activ. apply framed_bind; [framing|]. intros a. framing.
Qed.
Lemma framed_scatter n : forall i nargs rest l offset avail nrest where_, framed (scatter_targets n i nargs rest l offset avail nrest where_).
Proof. induction n as [|n IH]; intros; cbn [scatter_targets]; framing. Qed.
Lemma framed_skip_operands n : framed (skip_operands n).
Proof. induction n as [|n IH]; cbn [skip_operands]; framing. Qed.
Lemma framed_pop_n n : framed (pop_n n).
Proof. induction n as [|n IH]; cbn [pop_n]; framing. Qed.
#[local] Hint Resolve framed_waif_index framed_get_prop framed_scatter framed_skip_operands framed_pop_n : frame.

Lemma framed_extended eop : framed (extended_instr eop).
Proof using K.
  destruct eop; cbn [extended_instr];
    unfold eop_rangeset, eop_length, eop_push_label, eop_end_catch, eop_end_except, eop_end_finally, eop_continue, eop_catch, eop_try_except, eop_try_finally,
      eop_while_id, eop_exit, eop_exit_id, eop_scatter, op_binary, op_unary, pop_handlers, op_jump, JUMP, push_answer, run_activ, next_op; framing.
Qed.
#[local] Hint Resolve framed_extended : frame.

Lemma framed_instr op : framed (instr op).
Proof using K.
  destruct op; cbn [instr];
    unfold op_jump, op_for_list, op_for_range, range_turn, op_pop, op_imm, op_list_add_tail, op_list_append, op_indexset_step, op_make_singleton_list,
      op_check_list_for_splice, op_put_temp, op_push_temp, op_equal, op_compare, op_in, op_binary, op_and_or, op_not, op_unary, op_ref_step, op_push_ref,
      op_range_ref_step, op_g_put, op_g_push, op_get_prop, op_push_get_prop, op_put_prop, op_fork, op_call_verb, op_return, op_bi_func_call, op_extended, push_var,
      op_put, set_top, set_next_top, JUMP, SKIP_BYTES, push_answer, run_activ, next_op; framing.
Qed.

Lemma framed_abort_task is_ticks (m m' : machine) : I (world m) -> abort_task is_ticks m = Ok m' -> I (world m').
Proof using K.
  intros Hi E. unfold abort_task in E. apply res_bind_Ok in E as ([u m1] & E & [= <-]).
  eapply (framed_unwind _ _ (with_handler _ m)); [|exact E]. exact Hi.
Qed.

Lemma framed_vm_step : framed vm_step.
Proof using K.
  unfold vm_step. framing. intros m r m' Hi E. unfold count_tick in E. walk; try (eapply framed_abort_task; [|eassumption]; exact Hi).
  - eapply framed_instr; [|eassumption]. exact Hi.
  - by eapply framed_instr.
Qed.

Lemma framed_run fuel e : framed (run fuel e).
Proof using K.
  assert (Hl : framed (run_loop fuel)).
  { induction fuel as [|fuel IH]; intros m r m' Hi E; [done|]. cbn [run_loop] in E. apply res_bind_Ok in E as ([n m1] & E1 & E).
    pose proof (framed_vm_step _ _ _ Hi E1) as Hi1. destruct n; [by eapply IH|]. by injection E as _ <-. }
  unfold run. framing.
Qed.

(** ** Tasks *)

Context (notify : Z -> cstr -> World -> World) (set_virtual_timer : Z -> World -> World).
Context (notify_keeps : forall player s w, I w -> I (notify player s w)) (timer_keeps : forall n w, I w -> I (set_virtual_timer n w)).

(** Tasks have an outcome and a result besides. *)
Definition tframed {A} (f : machine -> res (A * machine)) : Prop := forall m r m', I (world m) -> f m = Ok (r, m') -> I (world m').

Definition handler_keeps (handle : option db_handler) : Prop :=
  match handle with Some h => forall vh name args, tframed (h vh name args) | None => True end.

Lemma notify_traceback_keeps args (m m' : machine) : I (world m) -> notify_traceback notify args m = Ok m' -> I (world m').
Proof using notify_keeps.
  intros Hi E. unfold notify_traceback in E. apply res_bind_Ok in E as (lines & _ & E). apply res_bind_Ok in E as (player & _ & E).
  apply res_bind_Ok in E as (strs & _ & [= <-]). cbn [world with_world]. revert Hi. generalize (world m). induction strs as [|s strs IH]; intros w Hi; [done|].
  cbn [foldl]. by apply IH, notify_keeps.
Qed.

Lemma run_interpreter_keeps handle fuel raise is_fg : handler_keeps handle -> tframed (run_interpreter_with notify set_virtual_timer handle fuel raise is_fg).
Proof using K notify_keeps timer_keeps.
  intros Hh m [o v] m' Hi E. unfold run_interpreter_with in E. apply res_bind_Ok in E as (seconds & _ & E). apply res_bind_Ok in E as (ticks & _ & E).
  apply res_bind_Ok in E as ([[ret result] m1] & E1 & E). assert (Hi1 : I (world m1)).
  { eapply (framed_run fuel raise); [|exact E1]. cbn. by apply timer_keeps. }
  clear E1. walk; try exact Hi1; repeat lazymatch goal with
    | E : notify_traceback _ _ _ = Ok ?m |- I (world ?m) => eapply notify_traceback_keeps; [|exact E]; clear E
    | E : _ _ _ _ _ = Ok (_, ?m) |- I (world ?m) => eapply Hh; [|exact E]; clear E
    | |- _ => exact Hi1
    end.
Qed.

Lemma do_task_keeps handle fuel prog which is_fg root : handler_keeps handle -> tframed (do_task_with notify set_virtual_timer handle fuel prog which is_fg root).
Proof using K notify_keeps timer_keeps.
  intros Hh m r m' Hi E. unfold do_task_with in E. apply res_bind_Ok in E as (size & _ & E). eapply run_interpreter_keeps; [exact Hh| |exact E]. exact Hi.
Qed.

Lemma do_program_keeps handle fuel this verb args vloc verbname program progr debug player argstr : handler_keeps handle ->
  tframed (do_server_program_task_with notify set_virtual_timer handle fuel this verb args vloc verbname program progr debug player argstr).
Proof using K notify_keeps timer_keeps.
  intros Hh m r m' Hi E. unfold do_server_program_task_with in E. apply res_bind_Ok in E as (max & _ & E). apply res_bind_Ok in E as (env & _ & E).
  eapply do_task_keeps; [exact Hh| |exact E]. exact Hi.
Qed.

Lemma do_verb_keeps handle fuel this verb args h player argstr : handler_keeps handle ->
  tframed (do_server_verb_task_with notify set_virtual_timer handle fuel this verb args h player argstr).
Proof using K notify_keeps timer_keeps.
  intros Hh m r m' Hi E. unfold do_server_verb_task_with in E. apply res_bind_Ok in E as (c & _ & E). by eapply do_program_keeps.
Qed.

Lemma tracebacks_keep fuel b : handler_keeps (tracebacks notify set_virtual_timer fuel b).
Proof using K notify_keeps timer_keeps.
  destruct b; [|done]. intros vh name args m r m' Hi E. unfold db_handler_task in E. apply res_bind_Ok in E as (player & _ & E).
  eapply do_verb_keeps; [|exact Hi|exact E]. done.
Qed.

(** The entries that [tasks.c] uses. *)
Lemma do_server_verb_task_keeps fuel this verb args h player argstr b :
  tframed (do_server_verb_task notify set_virtual_timer fuel this verb args h player argstr b).
Proof using K notify_keeps timer_keeps. apply do_verb_keeps, tracebacks_keep. Qed.

Lemma do_input_task_keeps fuel user pc this vh : tframed (do_input_task notify set_virtual_timer fuel user pc this vh).
Proof using K notify_keeps timer_keeps.
  intros m r m' Hi E. unfold do_input_task in E. apply res_bind_Ok in E as (max & _ & E). apply res_bind_Ok in E as (c & _ & E). apply res_bind_Ok in E as (env & _ & E).
  eapply do_task_keeps; [apply tracebacks_keep| |exact E]. exact Hi.
Qed.

Lemma do_forked_task_keeps fuel prog env a f_id : tframed (do_forked_task notify set_virtual_timer fuel prog env a f_id).
Proof using K notify_keeps timer_keeps.
  intros m r m' Hi E. unfold do_forked_task in E. apply res_bind_Ok in E as (max & _ & E). eapply do_task_keeps; [apply tracebacks_keep| |exact E]. exact Hi.
Qed.

Lemma run_keeps fuel e is_fg b : tframed (run_interpreter notify set_virtual_timer fuel e is_fg b).
Proof using K notify_keeps timer_keeps. unfold run_interpreter. apply run_interpreter_keeps, tracebacks_keep. Qed.

Lemma push_then_run_keeps fuel is_fg b v (m : machine) r m' : I (world m) ->
  (m1 ← PUSH v m; run_interpreter notify set_virtual_timer fuel None is_fg b m1) = Ok (r, m') -> I (world m').
Proof using K notify_keeps timer_keeps.
  intros Hi E. apply res_bind_Ok in E as (m1 & E1 & E). eapply run_keeps; [|exact E]. by rewrite (PUSH_world _ _ _ E1).
Qed.

Lemma resume_keeps fuel the_vm v : tframed (resume_from_previous_vm notify set_virtual_timer fuel the_vm v).
Proof using K notify_keeps timer_keeps.
  intros m r m' Hi E. unfold resume_from_previous_vm in E. revert E. cbv zeta.
  lazymatch goal with |- context [with_root ?r ?n] => assert (Hi0 : I (world (with_root r n))) by exact Hi; revert Hi0; generalize (with_root r n) end.
  intros m0 Hi0. destruct v; intros E; first [exact (push_then_run_keeps _ _ _ _ _ _ _ Hi0 E) | exact (run_keeps _ _ _ _ _ _ _ Hi0 E)].
Qed.

End frame.
