(* ===== verification/RunTasks.v ===== *)
(** * Running tasks (src/tasks.c)

    Commands, logins, and the choice of the next task: [run_ready_tasks].  The queues of
    [TaskQueues] are a part of the world in which [VmTasks] runs programs. *)

From S2P Require Import Prelude CStrings Values Lists Libc Db Properties Objects Preps Verbs Words ParseCmd Match VerbBuiltins Ast CodeGen EvalEnv Vm VmRun VmTasks.
From S2P Require Import InputQueue TaskQueues.

Open Scope Z_scope.

(** Up to the first colon. *)
Fixpoint before_colon (s : cstr) : cstr :=
  match s with [] => [] | c :: s => if decide (c = ":"%char) then [] else c :: before_colon s end.

(** A part of the world, and the clock. *)
Class HasQueues (Data World : Type) := {
  queues_of : World -> queues Data;
  with_queues : queues Data -> World -> World;
  time : World -> Z }.

Section run.
Context {Data Susp World : Type} `{H : Host Data Susp World} `{W : HasQueues Data World}.
Notation machine := (vm Data World).

(** The timer, the parser of programs (with its messages), and [player_connected] of the server. *)
Variable set_virtual_timer : Z -> World -> World.
Variable parse_program : cstr -> list cstr * option Program.
Variable player_connected : Z -> Z -> bool -> machine -> res machine.
Variable numeric_names : bool.

Definition same_verb : positive -> bool := fun _ => false.

(** ** The queues of a machine *)

Definition qs (m : machine) : queues Data := queues_of (world m).
Definition put_qs (s : queues Data) (m : machine) : machine := with_world (with_queues s (world m)) m.
Definition on_queues {A} (f : queues Data -> res (A * queues Data)) (m : machine) : res (A * machine) :=
  '(a, s) ← f (qs m); Ok (a, put_qs s m).
Definition upd_queues (f : queues Data -> res (queues Data)) (m : machine) : res machine := s ← f (qs m); Ok (put_qs s m).
Definition queue_at (p : positive) (m : machine) : res (tqueue Data) := at_queue p (qs m).

(** [notify], as the interpreter and as this file call it. *)
Definition notify_world (player : Z) (msg : cstr) (w : World) : World := with_queues (call (Notify player msg) (queues_of w)) w.
Definition notify (player : Z) (msg : cstr) (m : machine) : machine := with_world (notify_world player msg (world m)) m.
Definition notify_queue (p : positive) (msg : cstr) (m : machine) : res machine := tq ← queue_at p m; Ok (notify (tq_player tq) msg m).
Definition notify_some (p : positive) (msg : option cstr) (m : machine) : res machine :=
  match msg with Some s => notify_queue p s m | None => Ok m end.

(** ** [.program] *)

Definition get_system_object (d : db) (name : cstr) : res Z :=
  v ← valid_property d SYSTEM_OBJECT name; Ok match v with Some (Obj o) => o | _ => NOTHING end.

(** The verb, its name, or what is wrong. *)
Definition find_verb_for_programming (d : db) (player : Z) (verbref : cstr) : res (option (db_verb_handle * cstr) * cstr) :=
  let quoted s := [QUOTE] ++ s ++ [QUOTE] in
  let object := before_colon verbref in
  match drop (S (length object)) verbref with
  | [] => Ok (None, lit "You must specify a verb; use the format object:verb.")
  | vname =>
      oid ← match object with
            | c :: rest => if decide (c = "$"%char) then get_system_object d rest else match_object d player object
            | [] => match_object d player object
            end;
      if negb (valid d oid) then
        Ok (None, if oid =? FAILED_MATCH then lit "I don't see " ++ quoted object ++ lit " here."
                  else if oid =? AMBIGUOUS then lit "I don't know which " ++ quoted object ++ lit " you mean."
                  else quoted object ++ lit " is not a valid object.")
      else
        h ← find_described_verb numeric_names same_verb d oid (Str vname);
        match h with
        | NullHandle => Ok (None, lit "That object does not have that verb definition.")
        | h =>
            ok ← db_verb_allows d h player VF_WRITE;
            refused ← (if negb ok then Ok true
                       else protected ← server_flag_option d (lit "protect_set_verb_code");
                            if protected : bool then w ← is_wizard d player; Ok (negb w) else Ok false);
            if refused : bool then Ok (None, lit "Permission denied.")
            else
              name ← db_object_name d oid;
              names ← db_verb_names d h;
              Ok (Some (h, vname), lit "Now programming " ++ name ++ lit ":" ++ names ++ lit ".  Use " ++ quoted (lit ".") ++ lit " to end.")
        end
  end.

Definition start_programming (p : positive) (argstr : cstr) (m : machine) : res machine :=
  tq ← queue_at p m;
  '(h, message) ← find_verb_for_programming (vm_db m) (tq_player tq) argstr;
  let m := notify (tq_player tq) message m in
  match h with
  | Some (h, vname) => def ← db_verb_definer (vm_db m) h; upd_queues (upd_queue p (set_tq_program (Some ([], def, vname)))) m
  | None => Ok m
  end.

(** A program in memory of its own. *)
Definition store_program (prog : Program) (m : machine) : positive * machine :=
  let k := base.fresh (dom (programs m)) in
  (k, mkVm (activ_stack m) (root_activ_vector m) (max_stack_size m) (ticks_remaining m) (task_timed_out m) (Vm.handler m) (vm_db m)
        (<[k := prog]> (programs m)) (world m)).

Definition end_programming (p : positive) (m : machine) : res machine :=
  tq ← queue_at p m;
  let player := tq_player tq in
  match tq_program tq with
  | None => Fail Segv
  | Some (text, oid, vname) =>
      m ← (if negb (valid (vm_db m) oid) then Ok (notify player (lit "That object appears to have disappeared ...") m)
           else
             h ← find_described_verb numeric_names same_verb (vm_db m) oid (Str vname);
             match h with
             | NullHandle => Ok (notify player (lit "That verb appears to have disappeared ...") m)
             | h =>
                 let '(errors, program) := parse_program text in
                 let m := foldl (fun m msg => notify player msg m) m errors in
                 let m := notify player (print_int (Z.of_nat (length errors)) ++ lit " error(s).") m in
                 match program with
                 | Some prog =>
                     let '(k, m) := store_program prog m in
                     d ← db_set_verb_program h k (vm_db m);
                     Ok (notify player (lit "Verb programmed.") (with_db d m))
                 | None => Ok (notify player (lit "Verb not programmed.") m)
                 end
             end);
      upd_queues (upd_queue p (set_tq_program None)) m
  end.

(** ** Commands *)

Definition delimiter (string : cstr) : option cstr := match string with [] => None | s => Some s end.

Definition find_verb_on (d : db) (oid : Z) (pc : Parsed_Command) : res (option db_verb_handle) :=
  if negb (valid d oid) then Ok None
  else
    let spec o := if o =? oid then ASPEC_THIS else if o =? NOTHING then ASPEC_NONE else ASPEC_ANY in
    vh ← db_find_command_verb d same_verb oid (pc_verb pc) (spec (pc_dobj pc)) (pc_prep pc) (spec (pc_iobj pc));
    Ok match vh with NullHandle => None | vh => Some vh end.

(** The first of the objects that has a verb for the command. *)
Fixpoint find_verb_among (d : db) (oids : list Z) (pc : Parsed_Command) : res (option (Z * db_verb_handle)) :=
  match oids with
  | [] => Ok None
  | o :: oids => vh ← find_verb_on d o pc; match vh with Some vh => Ok (Some (o, vh)) | None => find_verb_among d oids pc end
  end.

Definition do_intrinsic_command (p : positive) (pc : Parsed_Command) (m : machine) : res (bool * machine) :=
  tq ← queue_at p m;
  let icmd := icmd_index (pc_verb pc) in
  let set f := m ← upd_queues (upd_queue p f) m; Ok (true, m) in
  if (icmd =? 0) || negb (Z.testbit (tq_icmds tq) icmd) then Ok (false, m)
  else if icmd =? ICMD_PROGRAM then
    ok ← is_programmer (vm_db m) (tq_player tq);
    if negb ok then Ok (false, m)
    else match pc_args pc with
         | List [Str s] => m ← start_programming p s m; Ok (true, m)
         | _ => Ok (true, notify (tq_player tq) (lit "Usage:  .program object:verb") m)
         end
  else if (icmd =? ICMD_PREFIX) || (icmd =? ICMD_OUTPUTPREFIX) then set (set_tq_prefix (delimiter (pc_argstr pc)))
  else if (icmd =? ICMD_SUFFIX) || (icmd =? ICMD_OUTPUTSUFFIX) then set (set_tq_suffix (delimiter (pc_argstr pc)))
  else Fail (Panic "Bad return value from icmd_index()").

Definition new_current_task (s : queues Data) : res (Z * queues Data) := '(id, s) ← new_task_id s; Ok (id, set_current_task_id id s).

(** [run_server_task_setting_id]; the number is stored in a queue. *)
Definition run_server_task (fuel : nat) (player what : Z) (verb : cstr) (args : Var) (argstr : cstr) (id_for : option positive) (m : machine)
    : res (outcome * option Var * machine) :=
  '(id, m) ← on_queues new_current_task m;
  m ← match id_for with Some p => upd_queues (upd_queue p (set_tq_last_id id)) m | None => Ok m end;
  '(h, d) ← db_find_callable_verb same_verb what verb (vm_db m);
  let m := with_db d m in
  match h with
  | NullHandle => Ok (OUTCOME_DONE, Some (Int 0), m)
  | h => do_server_verb_task notify_world set_virtual_timer fuel what verb args h player argstr true m
  end.

Definition wordlist (command : cstr) (m : machine) : res (Var * machine) :=
  on_queues (fun s => '(l, n) ← parse_into_wordlist (argv_size s) command; Ok (l, set_argv_size n s)) m.

(** [:do_command], or the verb of an object, or [huh]. *)
Definition dispatch_command (fuel : nat) (p : positive) (pc : Parsed_Command) (command : cstr) (m : machine) : res machine :=
  tq ← queue_at p m;
  location ← (if valid (vm_db m) (tq_player tq) then db_object_location (vm_db m) (tq_player tq) else Ok NOTHING);
  m ← notify_some p (tq_prefix tq) m;
  '(args, m) ← wordlist command m;
  '(o, result, m) ← run_server_task fuel (tq_player tq) (tq_handler tq) (lit "do_command") args command (Some p) m;
  tq ← queue_at p m;
  m ← (if match o, result with OUTCOME_DONE, Some v => is_true v | OUTCOME_DONE, None => false | _, _ => true end then Ok m
       else
         found ← find_verb_among (vm_db m) [tq_player tq; location; pc_dobj pc; pc_iobj pc] pc;
         '(found, m) ← match found with
                       | Some _ => Ok (found, m)
                       | None =>
                           if valid (vm_db m) location then
                             '(h, d) ← db_find_callable_verb same_verb location (lit "huh") (vm_db m);
                             Ok (match h with NullHandle => None | h => Some (location, h) end, with_db d m)
                           else Ok (None, m)
                       end;
         match found with
         | Some (this, vh) => '(_, _, m) ← do_input_task notify_world set_virtual_timer fuel (tq_player tq) pc this vh m; Ok m
         | None =>
             let m := notify (tq_player tq) (lit "I couldn't understand that.") m in
             upd_queues (upd_queue p (set_tq_last_id 0)) m
         end);
  tq ← queue_at p m;
  notify_some p (tq_suffix tq) m.

(** False when there is nothing to do. *)
Definition do_command_task (fuel : nat) (p : positive) (command : cstr) (m : machine) : res (bool * machine) :=
  tq ← queue_at p m;
  match tq_program tq with
  | Some (text, oid, vname) =>
      m ← (if strcmp command (lit ".") =? 0 then end_programming p m
           else upd_queues (upd_queue p (set_tq_program (Some (text ++ command ++ [chr 10], oid, vname)))) m);
      Ok (true, m)
  | None =>
      '(pc, m) ← on_queues (fun s => '(pc, n) ← parse_command (vm_db m) (argv_size s) command (tq_player tq); Ok (pc, set_argv_size n s)) m;
      match pc with
      | None => Ok (false, m)
      | Some pc =>
          '(done, m) ← do_intrinsic_command p pc m;
          m ← (if done : bool then Ok m else dispatch_command fuel p pc command m);
          Ok (true, m)
      end
  end.

(** ** Logging in *)

(** Background tasks move from one queue to another, which does not become active by that. *)
Fixpoint move_bg (fuel : nat) (from to : positive) (s : queues Data) : res (queues Data) :=
  match fuel with
  | O => Fail OutOfFuel
  | S fuel =>
      '(t, s) ← dequeue_bg_task from s;
      match t with
      | None => Ok s
      | Some t => s ← enqueue_bg_task to t s; move_bg fuel from to s
      end
  end.
Definition all_bg (from to : positive) (s : queues Data) : res (queues Data) :=
  tq ← at_queue from s; move_bg (S (length (tq_bg tq))) from to s.
Fixpoint drop_input (fuel : nat) (p : positive) (s : queues Data) : res (queues Data) :=
  match fuel with
  | O => Fail OutOfFuel
  | S fuel => '(t, s) ← dequeue_input_task p DQ_FIRST s; match t with None => Ok s | Some _ => drop_input fuel p s end
  end.

(** The queue [p] becomes the one of [new_player]. *)
Definition log_in (d : db) (p : positive) (new_player : Z) (s : queues Data) : res (queues Data) :=
  tq ← at_queue p s;
  let old_player := tq_player tq in
  dead ← lookup_tqueue new_player s;
  s ← upd_queue p (set_tq_player new_player) s;
  s ← (if tq_num_bg tq =? 0 then Ok s
       else
         '(old, s) ← find_tqueue d old_player s;
         s ← upd_queue old (set_tq_num_bg (tq_num_bg tq)) s;
         s ← all_bg p old s;
         upd_queue p (set_tq_num_bg 0) s);
  match dead with
  | None => Ok s
  | Some dead =>
      dq ← at_queue dead s;
      s ← upd_queue p (set_tq_num_bg (tq_num_bg dq)) s;
      s ← drop_input (S (length (tq_input dq))) dead s;
      s ← all_bg dead p s;
      upd_queue dead (fun tq => set_tq_num_bg 0 (set_tq_player NOTHING tq)) s
  end.

Definition do_login_task (fuel : nat) (p : positive) (command : cstr) (m : machine) : res machine :=
  tq ← queue_at p m;
  let old_max_object := db_last_used_objid (vm_db m) in
  '(args, m) ← wordlist command m;
  '(o, result, m) ← run_server_task fuel (tq_player tq) (tq_handler tq) (lit "do_login_command") args command (Some p) m;
  tq ← queue_at p m;
  match result with
  | Some (Obj new_player) =>
      user ← (if tq_connected tq then is_user (vm_db m) new_player else Ok false);
      if user : bool then
        m ← upd_queues (log_in (vm_db m) p new_player) m;
        player_connected (tq_player tq) new_player (old_max_object <? new_player) m
      else Ok m
  | _ => Ok m
  end.

Definition do_out_of_band_command (fuel : nat) (p : positive) (command : cstr) (m : machine) : res machine :=
  tq ← queue_at p m;
  '(args, m) ← wordlist command m;
  '(_, _, m) ← run_server_task fuel (tq_player tq) (tq_handler tq) (lit "do_out_of_band_command") args command None m;
  Ok m.

(** ** The next task *)

Definition resume_with (fuel : nat) (v : vmstruct Data) (value : Var) (m : machine) : res machine :=
  let m := put_qs (set_current_task_id (vm_task_id v) (qs m)) m in
  '(_, _, m) ← resume_from_previous_vm notify_world set_virtual_timer fuel (saved v) value m; Ok m.

(** The task that reads gets a value. *)
Definition resume_reading (fuel : nat) (p : positive) (v : vmstruct Data) (value : Var) (m : machine) : res machine :=
  m ← upd_queues (upd_queue p (set_tq_reading None)) m; resume_with fuel v value m.

(** A line; false when it was blank. *)
Definition run_line (fuel : nat) (p : positive) (line : message) (m : machine) : res (bool * machine) :=
  tq ← queue_at p m;
  match line.1 with
  | TASK_OOB => m ← do_out_of_band_command fuel p line.2 m; Ok (true, m)
  | TASK_QUOTED => Fail (Panic "Unexpected task kind in run_ready_tasks()")
  | TASK_BINARY | TASK_INBAND =>
      match tq_reading tq with
      | Some v => m ← resume_reading fuel p v (Str line.2) m; Ok (true, m)
      | None => if tq_player tq >=? 0 then do_command_task fuel p line.2 m else m ← do_login_task fuel p line.2 m; Ok (true, m)
      end
  end.

Definition run_bg (fuel : nat) (t : task Data) (m : machine) : res machine :=
  match t with
  | FORKED ft =>
      let m := put_qs (set_current_task_id (ft_id ft) (qs m)) m in
      '(_, _, m) ← do_forked_task notify_world set_virtual_timer fuel (ft_program ft) (ft_rt_env ft) (ft_a ft) (ft_f_index ft) m; Ok m
  | SUSPENDED st => resume_with fuel (st_vm st) (st_value st) m
  end.

(** The lines of a queue, and then its background tasks, until one has run. *)
Fixpoint run_queue (tries fuel : nat) (p : positive) (m : machine) : res (bool * machine) :=
  match tries with
  | O => Fail OutOfFuel
  | S tries =>
      tq ← queue_at p m;
      '(line, m) ← on_queues (dequeue_input_task p (if tq_hold tq && negb (is_reading tq) then DQ_OOB else DQ_FIRST)) m;
      match line with
      | Some line =>
          '(did_one, m) ← run_line fuel p line m;
          if did_one : bool then Ok (true, m) else run_queue tries fuel p m
      | None =>
          '(t, m) ← on_queues (dequeue_bg_task p) m;
          match t with
          | Some t => m ← run_bg fuel t m; Ok (true, m)
          | None => Ok (false, m)
          end
      end
  end.

(** Also when there will be no more input to read. *)
Definition run_first (fuel : nat) (p : positive) (m : machine) : res (bool * machine) :=
  tq ← queue_at p m;
  match tq_reading tq, is_out_of_input tq with
  | Some v, true => m ← resume_reading fuel p v (Err E_INVARG) m; Ok (true, m)
  | _, _ => run_queue (S (length (tq_input tq))) fuel p m
  end.

(** [tq->next]. *)
Fixpoint next_after (p : positive) (l : list positive) : list positive :=
  match l with [] => [] | q :: l => if decide (q = p) then l else next_after p l end.

Definition end_turn (p : positive) (did_one : bool) (seconds : Z) (s : queues Data) : res (queues Data) :=
  let s := set_active_tqueues (next_after p (active_tqueues s)) s in
  if did_one then
    s ← upd_queue p (fun tq => set_tq_usage (wrap32 (tq_usage tq + seconds)) tq) s; activate_tqueue p s
  else deactivate_tqueue p s.

(** The active queues in turn; whether a task has run. *)
Fixpoint run_active (turns fuel : nat) (start : Z) (m : machine) : res (bool * machine) :=
  match active_tqueues (qs m), turns with
  | [], _ => Ok (false, m)
  | _, O => Fail OutOfFuel
  | p :: _, S turns =>
      '(did_one, m) ← run_first fuel p m;
      m ← upd_queues (end_turn p did_one (time (world m) - start)) m;
      if did_one : bool then Ok (true, m) else run_active turns fuel start m
  end.

(** ** [run_ready_tasks] *)

(** Waiting tasks whose time has come are put into the queues of their programmers. *)
Fixpoint release (d : db) (now : Z) (ts : list (task Data)) (s : queues Data) : res (queues Data) :=
  match ts with
  | [] => Ok (set_waiting_tasks [] s)
  | t :: ts' =>
      if GET_START_TIME t <=? now then
        '(p, s) ← find_tqueue d (progr_of_task t) s;
        s ← ensure_usage p s;
        s ← enqueue_bg_task p t s;
        release d now ts' s
      else Ok (set_waiting_tasks ts s)
  end.
Definition release_ready (d : db) (now : Z) (s : queues Data) : res (queues Data) := release d now (waiting_tasks s) s.

Definition unused (tq : tqueue Data) : bool :=
  negb (tq_connected tq) && match tq_input tq with [] => true | _ => false end && (tq_num_bg tq =? 0).
Fixpoint free_unused (l : list positive) (s : queues Data) : res (queues Data) :=
  match l with
  | [] => Ok s
  | p :: l => tq ← at_queue p s; free_unused l (if unused tq then free_tqueue p s else s)
  end.

(** Whether a task has run. *)
Definition run_ready_tasks (fuel : nat) (m : machine) : res (bool * machine) :=
  m ← upd_queues (release_ready (vm_db m) (time (world m))) m;
  '(did_one, m) ← run_active (length (active_tqueues (qs m))) fuel (time (world m)) m;
  m ← upd_queues (fun s => free_unused (idle_tqueues s) s) m;
  Ok (did_one, m).

End run.
