(* ===== verification/RunOps.v ===== *)
(** * The choice of the next task (src/tasks.c)

    What [run_ready_tasks] of [RunTasks] does to the queues: which waiting tasks become ready, which
    queue has the next turn, where it goes after its turn, and which queues are freed. *)

From Stdlib Require Import Sorting.Sorted.
From S2P Require Import Prelude CStrings Values Lists Libc Db Links Properties Layout Tables Objects PropertyOps Invariant Handlers.
From S2P Require Import Ast CodeGen EvalEnv Vm VmTasks InputQueue TaskQueues TaskOps RunTasks Sample VmProgram.

Open Scope Z_scope.

(** Its time has come. *)
Definition due {Data} (now : Z) (t : task Data) : Prop := GET_START_TIME t <= now.
#[export] Instance due_dec {Data} now (t : task Data) : Decision (due now t) := Z_le_dec _ _.

Section queues.
Context {Data : Type}.
Implicit Types (h : gmap positive (tqueue Data)) (tq : tqueue Data) (wait ts : list (task Data)) (s : queues Data).

(** ** Waiting tasks *)

Lemma waiting_again s w w' : set_waiting_tasks w (set_waiting_tasks w' s) = set_waiting_tasks w s.
Proof. done. Qed.

Lemma find_tqueue_waiting d player w s :
  find_tqueue d player (set_waiting_tasks w s) = (fun r => (r.1, set_waiting_tasks w r.2)) <$> find_tqueue d player s.
Proof.
  unfold find_tqueue. change (lookup_tqueue player (set_waiting_tasks w s)) with (lookup_tqueue player s).
  destruct (lookup_tqueue player s) as [[p|]|]; [done| |done]. cbn [mbind res_bind].
  destruct (default_flush_command d) as [flush|]; [|done]. unfold deactivate_tqueue, upd_queue, at_queue. cbn [tqueues set_waiting_tasks set_tqueues].
  cbn [mbind res_bind]. by rewrite lookup_insert_eq.
Qed.

Lemma enqueue_bg_waiting p t w s : enqueue_bg_task p t (set_waiting_tasks w s) = set_waiting_tasks w <$> enqueue_bg_task p t s.
Proof. unfold enqueue_bg_task, upd_queue, at_queue. cbn [tqueues set_waiting_tasks]. by destruct (tqueues s !! p). Qed.

(** The list that is left behind while the loop runs does not matter. *)
Lemma release_waiting d now ts : forall w s, release d now ts (set_waiting_tasks w s) = release d now ts s.
Proof.
  induction ts as [|t ts IH]; intros w s; [done|]. cbn [release]. destruct (_ <=? now); [|done]. rewrite find_tqueue_waiting.
  destruct (find_tqueue d (progr_of_task t) s) as [[p s1]|]; [|done]. cbn [fmap res_fmap mbind res_bind fst snd]. rewrite ensure_usage_waiting.
  destruct (ensure_usage p s1) as [s2|]; [|done]. cbn [fmap res_fmap mbind res_bind]. rewrite enqueue_bg_waiting.
  destruct (enqueue_bg_task p t s2) as [s3|]; [|done]. cbn [fmap res_fmap mbind res_bind]. apply IH.
Qed.

Lemma find_tqueue_same d player s p s' q tq : find_tqueue d player s = Ok (p, s') -> tqueues s !! q = Some tq -> tqueues s' !! q = Some tq.
Proof.
  unfold find_tqueue. intros E Hq. apply res_bind_Ok in E as ([r|] & _ & E); [by injection E as <- <-|]. apply res_bind_Ok in E as (flush & _ & E).
  unfold deactivate_tqueue, upd_queue, at_queue in E. cbn [tqueues set_tqueues] in E. rewrite lookup_insert_eq in E. cbn [deref mbind res_bind] in E.
  injection E as <- <-. cbn [tqueues set_idle_tqueues set_tqueues]. assert (Hne : base.fresh (dom (tqueues s)) <> q).
  { intros He. pose proof (is_fresh (dom (tqueues s))) as Hf. rewrite He in Hf. apply Hf, elem_of_dom. by eexists. }
  by rewrite !lookup_insert_ne.
Qed.

Section good_db.
Context (F P : forest) (d : db) (Hg : good F P d).

(** One more task is ready: the queue of its programmer is active and has it at its end, nothing else changes. *)
Lemma ready_all s p tq t rest : sound s -> tqueues s !! p = Some tq -> tq_player tq = progr_of_task t ->
  waiting_tasks s = t :: rest ->
  exists s', (s ← ensure_usage p (set_waiting_tasks rest s); enqueue_bg_task p t s) = Ok s' /\ keeps s s' /\ waiting_tasks s' = rest /\ p ∈ active_tqueues s' /\
    (forall q r, tqueues s !! q = Some r -> exists u, tqueues s' !! q = Some (set_tq_usage u (if decide (q = p) then set_tq_bg (tq_bg r ++ [t]) r else r))).
Proof.
  intros S Hq Hp Hw. destruct (ready_Ok s p tq t t rest) as (s' & E & K & H1 & H2 & _); [done..|by rewrite Hw|rewrite Hw; by apply sublist_cons|].
  exists s'. split; [done|]. split; [done|]. split; [done|]. split; [done|]. intros q r Hr. rewrite ensure_usage_waiting in E.
  destruct (ensure_usage_Ok s p S) as (s1 & E1 & _ & _ & _ & Hqs); [by eexists|]. rewrite E1 in E. cbn [fmap res_fmap mbind res_bind] in E.
  destruct (Hqs p tq Hq) as [u Hu]. unfold enqueue_bg_task in E. rewrite (upd_queue_Ok (set_waiting_tasks rest s1) p _ (set_tq_usage u tq) Hu) in E. injection E as <-.
  cbn [tqueues set_tqueues set_waiting_tasks]. case_decide as Hqp.
  - subst q. exists u. rewrite lookup_insert_eq. assert (r = tq) as -> by congruence. done.
  - rewrite lookup_insert_ne by done. apply (Hqs q r Hr).
Qed.

(** What queues get when the tasks [ts] become ready. *)
Definition received (ts : list (task Data)) s s' : Prop := forall q r, tqueues s !! q = Some r -> tq_player r <> NOTHING ->
  exists u, tqueues s' !! q = Some (set_tq_usage u (set_tq_bg (tq_bg r ++ waiting_of (tq_player r) ts) r)).

Lemma received_nil s s' : (forall q r, tqueues s !! q = Some r -> exists u, tqueues s' !! q = Some (set_tq_usage u r)) -> received [] s s'.
Proof. intros H q r Hr _. destruct (H q r Hr) as [u Hu]. exists u. rewrite Hu. unfold waiting_of. cbn [filter list_filter]. rewrite app_nil_r. by destruct r. Qed.

Lemma not_due_all now t ts : StronglySorted (fun t u => GET_START_TIME t <= GET_START_TIME u) (t :: ts) -> ~ due now t ->
  filter (due now) (t :: ts) = [] /\ filter (fun t => ~ due now t) (t :: ts) = t :: ts.
Proof.
  intros Hs Hn. assert (Hall : Forall (fun t => ~ due now t) (t :: ts)).
  { apply StronglySorted_inv in Hs as [_ Hs]. constructor; [done|]. eapply Forall_impl; [exact Hs|]. unfold due in *. lia. }
  clear Hs Hn. split; induction Hall as [|x l Hx _ IH]; [done| |done|].
  - by rewrite filter_cons_False.
  - by rewrite filter_cons_True, IH.
Qed.

Lemma release_Ok now ts : forall s, sound s -> waiting_tasks s = ts -> exists s', release d now ts s = Ok s' /\ keeps s s' /\
  waiting_tasks s' = filter (fun t => ~ due now t) ts /\ received (filter (due now) ts) s s'.
Proof using Hg.
  induction ts as [|t ts IH]; intros s S Hw.
  { exists s. cbn [release]. split; [rewrite <- Hw; by destruct s|]. split; [by apply keeps_refl|]. split; [done|]. apply received_nil. intros q r Hr. exists (tq_usage r). rewrite Hr. by destruct r. }
  cbn [release]. destruct (Z.leb_spec (GET_START_TIME t) now) as [Hle|Hgt]; cycle 1.
  { pose proof (so_waiting _ _ _ _ S) as Hs. rewrite Hw in Hs. destruct (not_due_all now t ts Hs) as [H1 H2]; [unfold due; lia|]. rewrite H1, H2.
    exists s. split; [rewrite <- Hw; by destruct s|]. split; [by apply keeps_refl|]. split; [done|]. apply received_nil. intros q r Hr. exists (tq_usage r). rewrite Hr. by destruct r. }
  destruct (find_tqueue_Ok F P d Hg s (progr_of_task t) S) as (p & s1 & E1 & K1 & (tq & Hq & Hp) & Hw1). rewrite E1. cbn [mbind res_bind].
  destruct (ready_all s1 p tq t ts) as (s2 & E2 & K2 & Hw2 & _ & Hqs); [apply K1|done|done|congruence|]. rewrite ensure_usage_waiting in E2.
  destruct (ensure_usage p s1) as [s3|]; [|done]. cbn [fmap res_fmap mbind res_bind] in E2 |- *. rewrite enqueue_bg_waiting in E2.
  destruct (enqueue_bg_task p t s3) as [s4|]; [|done]. cbn [fmap res_fmap mbind res_bind] in E2 |- *. injection E2 as <-.
  destruct (IH (set_waiting_tasks ts s4)) as (s' & E & K & Hw' & Hr); [apply K2|done|]. rewrite release_waiting in E. exists s'. split; [done|].
  split; [eapply keeps_trans; [exact K1|]; by eapply keeps_trans|]. rewrite filter_cons_False, filter_cons_True by (unfold due; tauto). split; [done|].
  intros q r Hqr Hne. apply (find_tqueue_same _ _ _ _ _ q r E1) in Hqr. destruct (Hqs q r Hqr) as [u Hu]. case_decide as Hqp.
  - subst q. assert (r = tq) as -> by congruence. destruct (Hr p _ Hu Hne) as [u' Hu']. exists u'. rewrite Hu'. cbn [tq_player tq_bg set_tq_usage set_tq_bg].
    unfold waiting_of at 2. rewrite filter_cons_True by done. by rewrite <- (assoc_L (++)).
  - destruct (Hr q _ Hu Hne) as [u' Hu']. exists u'. rewrite Hu'. cbn [tq_player tq_bg set_tq_usage]. unfold waiting_of at 2. rewrite filter_cons_False; [done|].
    intros He. apply Hqp. apply (so_players _ _ _ _ (proj1 K1) q p r tq); congruence.
Qed.

End good_db.

(** ** Turns *)

(** Queues change places and usage, and nothing else. *)
Lemma reorder_sound h active idle wait h' active' idle' : sound_of h active idle wait -> NoDup (active' ++ idle') ->
  (forall q, q ∈ active' ++ idle' <-> q ∈ active ++ idle) -> (forall q, exists u, h' !! q = set_tq_usage u <$> h !! q) ->
  (forall q tq, q ∈ idle' -> h' !! q = Some tq -> tq_usage tq = NO_USAGE /\ tq_bg tq = []) -> (forall q, q ∈ active' -> 0 <= usage h' q) ->
  StronglySorted (fun q r => usage h' q <= usage h' r) active' -> sound_of h' active' idle' wait.
Proof.
  intros S Hn Hin Hh Hidle Hact Hsort.
  assert (Hback : forall q tq, h' !! q = Some tq -> exists u tq0, h !! q = Some tq0 /\ tq = set_tq_usage u tq0).
  { intros q tq Hq. destruct (Hh q) as [u Hu]. rewrite Hq in Hu. destruct (h !! q) as [tq0|]; [|done]. injection Hu as ->. by exists u, tq0. }
  split; [done| |done|done|done| | | |apply S].
  - intros q. rewrite Hin, <- (so_dom _ _ _ _ S). destruct (Hh q) as [u ->]. by destruct (h !! q); split; intros []; eexists.
  - intros q r tq tq' Hq Hr. destruct (Hback q tq Hq) as (u & t & Ht & ->), (Hback r tq' Hr) as (u' & t' & Ht' & ->). by apply (so_players _ _ _ _ S q r t t').
  - intros q tq Hq. destruct (Hback q tq Hq) as (u & t & Ht & ->). by destruct (so_queues _ _ _ _ S q t Ht).
  - intros t Ht Hne. destruct (so_homes _ _ _ _ S t Ht Hne) as (q & tq & Hq & Hp). destruct (Hh q) as [u Hu]. rewrite Hq in Hu. by exists q, (set_tq_usage u tq).
Qed.

Lemma same_but_usage h p tq u q : h !! p = Some tq -> exists u', <[p := set_tq_usage u tq]> h !! q = set_tq_usage u' <$> h !! q.
Proof.
  intros Hp. destruct (decide (q = p)) as [->|]; [exists u; by rewrite lookup_insert_eq, Hp|]. rewrite lookup_insert_ne by done.
  exists (usage h q). unfold usage. destruct (h !! q) as [t|]; [|done]. by destruct t.
Qed.

Lemma next_after_head p (l : list positive) : next_after p (p :: l) = l.
Proof. cbn [next_after]. by rewrite decide_True. Qed.

(** A queue without ready tasks becomes idle. *)
Lemma end_turn_idle s p l tq seconds : sound s -> active_tqueues s = p :: l -> tqueues s !! p = Some tq -> tq_bg tq = [] ->
  end_turn p false seconds s = Ok (set_idle_tqueues (p :: idle_tqueues s) (set_tqueues (<[p := set_tq_usage NO_USAGE tq]> (tqueues s)) (set_active_tqueues l s))) /\
  sound (set_idle_tqueues (p :: idle_tqueues s) (set_tqueues (<[p := set_tq_usage NO_USAGE tq]> (tqueues s)) (set_active_tqueues l s))).
Proof.
  intros S Ha Hq Hbg. unfold end_turn, deactivate_tqueue. rewrite Ha, next_after_head, (upd_queue_Ok (set_active_tqueues l s) p _ tq Hq). split; [done|].
  unfold sound. cbn [tqueues active_tqueues idle_tqueues waiting_tasks set_idle_tqueues set_tqueues set_active_tqueues]. pose proof (so_nodup _ _ _ _ S) as Hn. rewrite Ha in Hn.
  assert (Hl : forall q, q ∈ l -> q <> p) by (intros q Hql ->; cbn [app] in Hn; apply NoDup_cons in Hn as [Hn _]; apply Hn, elem_of_app; by left).
  assert (Hus : forall q, q ∈ l -> usage (<[p := set_tq_usage NO_USAGE tq]> (tqueues s)) q = usage (tqueues s) q).
  { intros q Hql. rewrite usage_insert, decide_False; [done|by apply Hl]. }
  eapply reorder_sound; [exact S|by rewrite <- Permutation_middle| |intros q; by apply same_but_usage| | |].
  - intros q. by rewrite Ha, <- Permutation_middle.
  - intros q r [->|Hqi]%elem_of_cons; [rewrite lookup_insert_eq; by intros [= <-]|]. rewrite lookup_insert_ne; [by apply S|].
    intros ->. cbn [app] in Hn. apply NoDup_cons in Hn as [Hn _]. apply Hn, elem_of_app. by right.
  - intros q Hql. rewrite Hus by done. apply (so_active _ _ _ _ S). rewrite Ha. by right.
  - pose proof (so_sorted _ _ _ _ S) as Hs. rewrite Ha in Hs. apply StronglySorted_inv in Hs as [Hs _]. eapply sorted_weaken; [|exact Hs]. intros q r Hql Hrl. by rewrite !Hus.
Qed.

(** A queue whose task has run for some seconds goes behind all queues that were used no longer. *)
Lemma end_turn_active s p l tq seconds : sound s -> active_tqueues s = p :: l -> tqueues s !! p = Some tq -> 0 <= seconds -> tq_usage tq + seconds < 2 ^ 31 ->
  exists l1 l2 h', l = l1 ++ l2 /\ h' = <[p := set_tq_usage (tq_usage tq + seconds) tq]> (tqueues s) /\
    end_turn p true seconds s = Ok (set_active_tqueues (l1 ++ p :: l2) (set_tqueues h' (set_active_tqueues l s))) /\
    sound (set_active_tqueues (l1 ++ p :: l2) (set_tqueues h' (set_active_tqueues l s))) /\
    (forall q, q ∈ l1 -> usage (tqueues s) q <= tq_usage tq + seconds) /\ (forall q, q ∈ l2 -> tq_usage tq + seconds < usage (tqueues s) q).
Proof.
  intros S Ha Hq Hsec Hmax. set (u := tq_usage tq + seconds). set (h' := <[p := set_tq_usage u tq]> (tqueues s)).
  pose proof (so_nodup _ _ _ _ S) as Hn. rewrite Ha in Hn. assert (Hu0 : 0 <= tq_usage tq).
  { pose proof (so_active _ _ _ _ S p) as H. unfold usage in H. rewrite Hq in H. apply H. rewrite Ha. left. }
  assert (Hl : forall q, q ∈ l -> q <> p) by (intros q Hql ->; cbn [app] in Hn; apply NoDup_cons in Hn as [Hn _]; apply Hn, elem_of_app; by left).
  assert (Hus : forall q, q ∈ l -> usage h' q = usage (tqueues s) q) by (intros q Hql; unfold h'; rewrite usage_insert, decide_False; [done|by apply Hl]).
  pose proof (so_sorted _ _ _ _ S) as Hs. rewrite Ha in Hs. apply StronglySorted_inv in Hs as [Hs _].
  assert (Hs' : StronglySorted (fun q r => usage h' q <= usage h' r) l) by (eapply sorted_weaken; [|exact Hs]; intros q r Hql Hrl; by rewrite !Hus).
  destruct (insert_active_Ok h' u p l) as (l1 & l2 & Hsplit & E & H1 & H2); [|exact Hs'|].
  { intros q Hql. unfold h'. rewrite lookup_insert_ne by (apply not_eq_sym; by apply Hl). apply (so_dom _ _ _ _ S). rewrite Ha. right. apply elem_of_app. by left. }
  exists l1, l2, h'. split; [done|]. split; [done|]. split; [|split; [|split]].
  - unfold end_turn. rewrite Ha, next_after_head, (upd_queue_Ok (set_active_tqueues l s) p _ tq Hq). cbn [mbind res_bind].
    assert (Hw : wrap32 (tq_usage tq + seconds) = u) by (unfold wrap32, swrap; fold u; dlia). unfold activate_tqueue, at_queue. rewrite Hw.
    cbn [tqueues active_tqueues set_tqueues set_active_tqueues]. fold h'. replace (h' !! p) with (Some (set_tq_usage u tq)) by (symmetry; apply lookup_insert_eq).
    cbn [deref mbind res_bind tq_usage set_tq_usage]. by rewrite E.
  - unfold sound. cbn [tqueues active_tqueues idle_tqueues waiting_tasks set_tqueues set_active_tqueues].
    assert (Hperm : (l1 ++ p :: l2) ≡ₚ p :: l) by (by rewrite Hsplit, <- Permutation_middle).
    assert (Hpu : usage h' p = u) by (unfold h'; by rewrite usage_insert, decide_True).
    eapply reorder_sound; [exact S|by rewrite Hperm| |intros q; by apply same_but_usage| | |].
    + intros q. by rewrite Ha, Hperm.
    + intros q r Hqi. unfold h'. rewrite lookup_insert_ne; [by apply S|]. intros ->. cbn [app] in Hn. apply NoDup_cons in Hn as [Hn _]. apply Hn, elem_of_app. by right.
    + intros q. rewrite Hperm, elem_of_cons. intros [->|Hql]; [rewrite Hpu; unfold u; lia|]. rewrite Hus by done. apply (so_active _ _ _ _ S). rewrite Ha. by right.
    + apply (sorted_insert (usage h')); [by rewrite <- Hsplit| |]; intros q Hql; rewrite Hpu; [by apply H1|by apply Z.lt_le_incl, H2].
  - intros q Hql. rewrite <- Hus by (rewrite Hsplit; apply elem_of_app; by left). by apply H1.
  - intros q Hql. rewrite <- Hus by (rewrite Hsplit; apply elem_of_app; by right). by apply H2.
Qed.

(** C18: After its turn the queue in front gets a new place.  When it had nothing to run it is idle, and the
    other active queues keep their order.  When a task ran for some seconds the queue's usage grows by these,
    and it goes behind all the queues whose usage is not greater, so queues of equal usage take turns, and in front of
    all that were used more.  The queues stay well-formed. *)
Theorem end_turn_correct s p l tq seconds : sound s -> active_tqueues s = p :: l -> tqueues s !! p = Some tq -> 0 <= seconds -> tq_usage tq + seconds < 2 ^ 31 ->
  (tq_bg tq = [] -> exists s', end_turn p false seconds s = Ok s' /\ sound s' /\ active_tqueues s' = l /\ idle_tqueues s' = p :: idle_tqueues s /\
    tqueues s' = <[p := set_tq_usage NO_USAGE tq]> (tqueues s)) /\
  exists s' l1 l2, end_turn p true seconds s = Ok s' /\ sound s' /\ l = l1 ++ l2 /\ active_tqueues s' = l1 ++ p :: l2 /\ idle_tqueues s' = idle_tqueues s /\
    tqueues s' = <[p := set_tq_usage (tq_usage tq + seconds) tq]> (tqueues s) /\
    (forall q, q ∈ l1 -> usage (tqueues s) q <= tq_usage tq + seconds) /\ (forall q, q ∈ l2 -> tq_usage tq + seconds < usage (tqueues s) q).
Proof.
  intros S Ha Hq Hsec Hmax. split.
  - intros Hbg. destruct (end_turn_idle s p l tq seconds S Ha Hq Hbg) as [E S']. by eexists.
  - destruct (end_turn_active s p l tq seconds S Ha Hq Hsec Hmax) as (l1 & l2 & h' & Hl & -> & E & S' & H1 & H2). by eexists _, l1, l2.
Qed.

(** ** Unused queues *)

(** The counter is right as long as it has not wrapped around. *)
Lemma no_tasks_left wait tq : tq_ok wait tq -> tq_player tq <> NOTHING -> Z.of_nat (length (tq_bg tq) + length wait) < 2 ^ 32 -> tq_num_bg tq = 0 ->
  tq_bg tq = [] /\ waiting_of (tq_player tq) wait = [].
Proof.
  intros [_ _ Hn] Hne Hlt H0. rewrite (Hn Hne) in H0. assert (Hle : (length (waiting_of (tq_player tq) wait) <= length wait)%nat) by apply length_filter.
  assert (Hz : Z.of_nat (length (tq_bg tq) + length (waiting_of (tq_player tq) wait)) = 0) by (unfold wrap32, swrap in H0; dlia).
  destruct (tq_bg tq), (waiting_of (tq_player tq) wait); cbn [length] in Hz; [done|lia..].
Qed.

Lemma free_sound s p tq : sound s -> p ∈ idle_tqueues s -> tqueues s !! p = Some tq -> unused tq = true -> Z.of_nat (length (waiting_tasks s)) < 2 ^ 32 ->
  sound (free_tqueue p s).
Proof.
  intros S Hin Hq Hun Hlt. pose proof (so_nodup _ _ _ _ S) as Hn. apply NoDup_app in Hn as (Hna & Hai & Hni).
  assert (Hpa : forall q, q ∈ active_tqueues s -> q <> p) by (intros q Hqa ->; by apply (Hai p)).
  assert (Hus : forall q, q ∈ active_tqueues s -> usage (delete p (tqueues s)) q = usage (tqueues s) q).
  { intros q Hqa. unfold usage. by rewrite lookup_delete_ne by (apply not_eq_sym; by apply Hpa). }
  unfold sound, free_tqueue. cbn [tqueues active_tqueues idle_tqueues waiting_tasks set_tqueues set_idle_tqueues]. split.
  - apply NoDup_app. split; [done|]. split; [|by apply NoDup_filter]. intros q Hqa [_ Hqi]%list_elem_of_filter. by apply (Hai q).
  - intros q. rewrite elem_of_app, list_elem_of_filter. destruct (decide (q = p)) as [->|Hqp].
    + rewrite lookup_delete_eq. split; [by intros []|]. intros [Hp|[Hp _]]; [by destruct (Hpa p Hp)|done].
    + rewrite lookup_delete_ne, (so_dom _ _ _ _ S), elem_of_app by done. tauto.
  - intros q r [Hqp Hqi]%list_elem_of_filter. rewrite lookup_delete_ne by done. by apply S.
  - intros q Hqa. rewrite Hus by done. by apply (so_active _ _ _ _ S).
  - eapply sorted_weaken; [|apply (so_sorted _ _ _ _ S)]. intros q r Hqa Hra. by rewrite !Hus.
  - intros q r t t' [_ Ht]%lookup_delete_Some [_ Ht']%lookup_delete_Some. by apply (so_players _ _ _ _ S q r t t').
  - intros q r [_ Hr]%lookup_delete_Some. by apply (so_queues _ _ _ _ S q).
  - intros t Ht Hne. destruct (so_homes _ _ _ _ S t Ht Hne) as (q & r & Hr & Hp). exists q, r. split; [|done]. rewrite lookup_delete_ne; [done|]. intros <-.
    assert (r = tq) as -> by congruence. unfold unused in Hun. apply andb_true_iff in Hun as [_ H0]. apply Z.eqb_eq in H0.
    destruct (so_idle _ _ _ _ S p tq Hin Hq) as [_ Hbg]. destruct (no_tasks_left (waiting_tasks s) tq) as [_ Hw]; [by apply (so_queues _ _ _ _ S p)|congruence|rewrite Hbg; cbn [length]; lia|done|].
    assert (Hx : t ∈ waiting_of (tq_player tq) (waiting_tasks s)) by (apply list_elem_of_filter; by rewrite Hp). rewrite Hw in Hx. by apply elem_of_nil in Hx.
  - apply S.
Qed.

(** Exactly the unused ones are freed. *)
Lemma free_unused_Ok l : forall s, sound s -> NoDup l -> (forall q, q ∈ l -> q ∈ idle_tqueues s) -> Z.of_nat (length (waiting_tasks s)) < 2 ^ 32 ->
  exists s', free_unused l s = Ok s' /\ sound s' /\ active_tqueues s' = active_tqueues s /\ waiting_tasks s' = waiting_tasks s /\
    forall q, tqueues s' !! q = match tqueues s !! q with Some tq => if bool_decide (q ∈ l) && unused tq then None else Some tq | None => None end.
Proof.
  induction l as [|p l IH]; intros s S Hn Hl Hlt.
  { exists s. do 4 (split; [done|]). intros q. by destruct (tqueues s !! q). }
  apply NoDup_cons in Hn as [Hp Hn]. cbn [free_unused]. assert (Hpi : p ∈ idle_tqueues s) by (apply Hl; left).
  destruct (at_queue_Ok s p) as (tq & Hq & ->); [apply (so_dom _ _ _ _ S), elem_of_app; by right|]. cbn [mbind res_bind]. destruct (unused tq) eqn:Hun.
  - destruct (IH (free_tqueue p s)) as (s' & E & S' & Ha & Hw & Hqs); [by eapply free_sound|done| |done|].
    { intros q Hql. cbn [idle_tqueues free_tqueue set_tqueues set_idle_tqueues]. apply list_elem_of_filter. split; [by intros ->|]. apply Hl. by right. }
    exists s'. split; [done|]. split; [done|]. split; [done|]. split; [done|]. intros q. rewrite Hqs. unfold free_tqueue. cbn [tqueues set_tqueues].
    destruct (decide (q = p)) as [->|Hqp]; [rewrite lookup_delete_eq, Hq; by rewrite bool_decide_eq_true_2, Hun by left|]. rewrite lookup_delete_ne by done.
    destruct (tqueues s !! q) as [r|]; [|done]. f_equal. by rewrite (bool_decide_ext (q ∈ p :: l) (q ∈ l)) by (rewrite elem_of_cons; tauto).
  - destruct (IH s) as (s' & E & S' & Ha & Hw & Hqs); [done|done|intros q Hql; apply Hl; by right|done|]. exists s'.
    split; [done|]. split; [done|]. split; [done|]. split; [done|]. intros q. rewrite Hqs. destruct (decide (q = p)) as [->|Hqp].
    + rewrite Hq, Hun, !andb_false_r. done.
    + destruct (tqueues s !! q) as [r|]; [|done]. by rewrite (bool_decide_ext (q ∈ p :: l) (q ∈ l)) by (rewrite elem_of_cons; tauto).
Qed.

(** ** Runnable queues *)

(** The line that would be taken. *)
Definition next_line tq : option message :=
  let how := if tq_hold tq && negb (is_reading tq) then DQ_OOB else DQ_FIRST in
  if tq_disable_oob tq && bool_decide (how = DQ_OOB) then None
  else fst <$> take_message (if tq_disable_oob tq then DQ_FIRST else how) (tq_input tq).

Definition runnable tq : bool :=
  is_reading tq && is_out_of_input tq || match next_line tq, tq_bg tq with None, [] => false | _, _ => true end.

Lemma no_line tq s p : tqueues s !! p = Some tq -> next_line tq = None ->
  dequeue_input_task p (if tq_hold tq && negb (is_reading tq) then DQ_OOB else DQ_FIRST) s = Ok (None, s).
Proof.
  intros Hq E. unfold dequeue_input_task, at_queue. rewrite Hq. cbn [deref mbind res_bind]. unfold next_line in E.
  destruct (tq_disable_oob tq && bool_decide _); [done|]. by destruct (take_message _ _) as [[m rest]|].
Qed.

End queues.

(** ** Scheduling *)

(** The queues are a part of the world of their own. *)
Class QueuesLaws {Data World} (W : HasQueues Data World) : Prop := {
  queues_of_with s w : queues_of (with_queues s w) = s;
  with_queues_of w : with_queues (queues_of w) w = w;
  with_queues_with s s' w : with_queues s (with_queues s' w) = with_queues s w;
  time_with s w : time (with_queues s w) = time w }.

Section scheduling.
Context {Data Susp World : Type} `{H : Host Data Susp World} `{W : HasQueues Data World} {L : QueuesLaws W}.
Notation machine := (vm Data World).
Context (set_virtual_timer : Z -> World -> World) (parse_program : cstr -> list cstr * option Program)
  (player_connected : Z -> Z -> bool -> machine -> res machine) (numeric_names : bool).
Notation run_first := (run_first set_virtual_timer parse_program player_connected numeric_names).
Notation run_active := (run_active set_virtual_timer parse_program player_connected numeric_names).
Notation run_ready_tasks := (run_ready_tasks set_virtual_timer parse_program player_connected numeric_names).
Implicit Types (m : machine) (s : queues Data).

Lemma qs_put s m : qs (put_qs s m) = s.
Proof using L. unfold qs, put_qs. cbn [world with_world]. apply queues_of_with. Qed.
Lemma put_qs_qs m : put_qs (qs m) m = m.
Proof using L. unfold qs, put_qs. rewrite with_queues_of. by destruct m. Qed.
Lemma put_put s s' m : put_qs s (put_qs s' m) = put_qs s m.
Proof using L. unfold put_qs. cbn [world with_world]. unfold with_world. cbn. by rewrite with_queues_with. Qed.

Lemma run_first_idle fuel p m tq : tqueues (qs m) !! p = Some tq -> runnable tq = false -> run_first fuel p m = Ok (false, m).
Proof using L.
  intros Hq Hr. unfold runnable in Hr. apply orb_false_iff in Hr as [Hread Hr]. destruct (next_line tq) eqn:Hline; [done|]. destruct (tq_bg tq) eqn:Hbg; [|done].
  unfold RunTasks.run_first, queue_at, at_queue. rewrite Hq. cbn [deref mbind res_bind].
  transitivity (RunTasks.run_queue set_virtual_timer parse_program player_connected numeric_names (Datatypes.S (length (tq_input tq))) fuel p m).
  { unfold is_reading in Hread. destruct (tq_reading tq); [|done]. by destruct (is_out_of_input tq). }
  cbn [RunTasks.run_queue]. unfold queue_at, at_queue, on_queues. rewrite Hq. cbn [deref mbind res_bind]. rewrite (no_line tq) by done. cbn [mbind res_bind].
  rewrite put_qs_qs. unfold dequeue_bg_task, at_queue. rewrite Hq. cbn [deref mbind res_bind]. rewrite Hbg. cbn [mbind res_bind]. by rewrite put_qs_qs.
Qed.

(** The queues [l1], which were active, are idle now. *)
Record passed (l1 : list positive) (s s' : queues Data) : Prop := {
  pa_sound : sound s';
  pa_active : active_tqueues s = l1 ++ active_tqueues s';
  pa_idle : idle_tqueues s' = reverse l1 ++ idle_tqueues s;
  pa_waiting : waiting_tasks s' = waiting_tasks s;
  pa_queues q : tqueues s' !! q = if bool_decide (q ∈ l1) then set_tq_usage NO_USAGE <$> tqueues s !! q else tqueues s !! q }.

Definition is_runnable (s : queues Data) (p : positive) : Prop := exists tq, tqueues s !! p = Some tq /\ runnable tq = true.

Lemma run_active_passes turns fuel start l2 l1 : forall m, sound (qs m) -> active_tqueues (qs m) = l1 ++ l2 ->
  (forall p tq, p ∈ l1 -> tqueues (qs m) !! p = Some tq -> runnable tq = false) ->
  exists s', passed l1 (qs m) s' /\ run_active (length l1 + turns) fuel start m = run_active turns fuel start (put_qs s' m).
Proof using L.
  induction l1 as [|p l1 IH]; intros m S Ha Hr.
  { exists (qs m). rewrite put_qs_qs. split; [|done]. by split. }
  destruct (at_queue_Ok (qs m) p) as (tq & Hq & _); [apply (so_dom _ _ _ _ S); rewrite Ha; left|].
  assert (Hnr : runnable tq = false) by (apply (Hr p tq); [left|done]).
  assert (Hbg : tq_bg tq = []) by (unfold runnable in Hnr; apply orb_false_iff in Hnr as [_ Hnr]; destruct (next_line tq), (tq_bg tq); done).
  cbn [length Nat.add RunTasks.run_active]. rewrite Ha. cbn [app]. rewrite (run_first_idle fuel p m tq Hq Hnr). cbn [mbind res_bind]. unfold upd_queues.
  destruct (end_turn_idle (qs m) p (l1 ++ l2) tq (time (world m) - start) S Ha Hq Hbg) as [-> S1]. cbn [mbind res_bind].
  set (s1 := set_idle_tqueues _ _) in *. assert (Hp : p ∉ l1 ++ l2).
  { pose proof (so_nodup _ _ _ _ S) as Hn. rewrite Ha in Hn. cbn [app] in Hn. apply NoDup_cons in Hn as [Hn _]. rewrite elem_of_app in Hn. tauto. }
  assert (Hq1 : forall q, q ≠ p -> tqueues s1 !! q = tqueues (qs m) !! q) by (intros q Hqp; cbn [s1 tqueues set_idle_tqueues set_tqueues]; by rewrite lookup_insert_ne).
  destruct (IH (put_qs s1 m)) as (s' & [P1 P2 P3 P4 P5] & E); rewrite qs_put in *; [done|done| |].
  { intros q r Hql. rewrite Hq1 by (intros ->; apply Hp, elem_of_app; by left). apply Hr. by right. }
  exists s'. rewrite E, put_put. split; [|done]. split; [done|by rewrite <- app_comm_cons, <- P2| |by rewrite P4|].
  - rewrite P3, reverse_cons. by rewrite <- (assoc_L (++)).
  - intros q. rewrite P5. destruct (decide (q = p)) as [->|Hqp].
    + rewrite bool_decide_eq_false_2 by (intros Hin; apply Hp, elem_of_app; by left). rewrite bool_decide_eq_true_2 by left.
      cbn [s1 tqueues set_idle_tqueues set_tqueues]. by rewrite lookup_insert_eq, Hq.
    + rewrite Hq1 by done. by rewrite (bool_decide_ext (q ∈ p :: l1) (q ∈ l1)) by (rewrite elem_of_cons; tauto).
Qed.

Lemma first_runnable s l : (forall p, p ∈ l -> known s p) -> exists l1 l2, l = l1 ++ l2 /\
  (forall p tq, p ∈ l1 -> tqueues s !! p = Some tq -> runnable tq = false) /\ match l2 with [] => True | p :: _ => is_runnable s p end.
Proof using.
  induction l as [|p l IH]; intros Hk; [exists [], []; split; [done|]; split; [by intros ? ? ?%elem_of_nil|done]|].
  destruct (Hk p) as [tq Hq]; [left|]. destruct (runnable tq) eqn:Hr.
  - exists [], (p :: l). split; [done|]. split; [by intros ? ? ?%elem_of_nil|]. by exists tq.
  - destruct IH as (l1 & l2 & -> & H1 & H2); [intros q Hql; apply Hk; by right|]. exists (p :: l1), l2. split; [done|]. split; [|done].
    intros q r [->|Hql]%elem_of_cons; [congruence|by apply H1].
Qed.

(** What happens before a task runs: [l1] have nothing to run. *)
Record readied (d : db) (now : Z) (s : queues Data) (l1 : list positive) (s1 s2 : queues Data) : Prop := {
  rd_release : release_ready d now s = Ok s1;
  rd_keeps : keeps s s1;
  rd_waiting : waiting_tasks s1 = filter (fun t => ~ due now t) (waiting_tasks s);
  rd_received : received (filter (due now) (waiting_tasks s)) s s1;
  rd_passed : passed l1 s1 s2;
  rd_nothing p tq : p ∈ l1 -> tqueues s1 !! p = Some tq -> runnable tq = false }.

(** The end of [run_ready_tasks]. *)
Definition clean (s s' : queues Data) : Prop := sound s' /\ active_tqueues s' = active_tqueues s /\ waiting_tasks s' = waiting_tasks s /\
  forall q, tqueues s' !! q = match tqueues s !! q with Some tq => if bool_decide (q ∈ idle_tqueues s) && unused tq then None else Some tq | None => None end.

Definition finish (start : Z) (p : positive) (fuel turns : nat) (r : bool * machine) : res (bool * machine) :=
  m ← upd_queues (end_turn p r.1 (time (world r.2) - start)) r.2;
  '(did_one, m) ← if r.1 then Ok (true, m) else run_active turns fuel start m;
  m ← upd_queues (fun s => free_unused (idle_tqueues s) s) m;
  Ok (did_one, m).

Lemma run_ready_tasks_Ok F P fuel m : good F P (vm_db m) -> sound (qs m) -> Z.of_nat (length (waiting_tasks (qs m))) < 2 ^ 32 ->
  exists l1 s1 s2, readied (vm_db m) (time (world m)) (qs m) l1 s1 s2 /\
  match active_tqueues s2 with
  | [] => exists s3, run_ready_tasks fuel m = Ok (false, put_qs s3 m) /\ clean s2 s3
  | p :: l => is_runnable s2 p /\ run_ready_tasks fuel m = run_first fuel p (put_qs s2 m) ≫= finish (time (world m)) p fuel (length l)
  end.
Proof using L.
  intros Hg S Hlt. destruct (release_Ok F P (vm_db m) Hg (time (world m)) _ (qs m) S eq_refl) as (s1 & E1 & K1 & Hw1 & Hr1). pose proof (proj1 K1) as S1.
  destruct (first_runnable s1 (active_tqueues s1)) as (l1 & l2 & Ha & Hn & Hr).
  { intros p Hp. apply (so_dom _ _ _ _ S1), elem_of_app. by left. }
  assert (Hpass := fun turns => run_active_passes turns fuel (time (world m)) l2 l1 (put_qs s1 m)). rewrite qs_put in Hpass.
  destruct (Hpass (length l2) S1 Ha Hn) as (s2 & P2 & E2). rewrite put_put in E2. clear Hpass.
  exists l1, s1, s2. split; [by split|]. pose proof (pa_active _ _ _ P2) as Ha2. rewrite Ha in Ha2. apply app_inv_head in Ha2.
  assert (Erun : run_ready_tasks fuel m = ('(did_one, m') ← run_active (length l2) fuel (time (world m)) (put_qs s2 m);
    m' ← upd_queues (fun s => free_unused (idle_tqueues s) s) m'; Ok (did_one, m'))).
  { assert (Er : upd_queues (release_ready (vm_db m) (time (world m))) m = Ok (put_qs s1 m)) by (unfold upd_queues, release_ready; by rewrite E1).
    unfold RunTasks.run_ready_tasks. rewrite Er. cbn [mbind res_bind]. rewrite qs_put, Ha, length_app.
    replace (time (world (put_qs s1 m))) with (time (world m)) by (unfold put_qs; cbn [world with_world]; by rewrite time_with). by rewrite E2. }
  rewrite <- Ha2. destruct l2 as [|p l].
  - assert (Hnd : NoDup (idle_tqueues s2)) by (pose proof (so_nodup _ _ _ _ (pa_sound _ _ _ P2)) as Hnd; by apply NoDup_app in Hnd as (_ & _ & Hnd)).
    destruct (free_unused_Ok (idle_tqueues s2) s2) as (s3 & E3 & S3 & Ha3 & Hw3 & Hq3); [apply P2|done|done| |].
    { rewrite (pa_waiting _ _ _ P2), Hw1. pose proof (length_filter (fun t => ~ due (time (world m)) t) (waiting_tasks (qs m))). lia. }
    exists s3. rewrite Erun. cbn [length RunTasks.run_active]. rewrite qs_put, <- Ha2. cbn [mbind res_bind]. unfold upd_queues. rewrite qs_put, E3.
    cbn [mbind res_bind]. rewrite put_put. split; [done|]. by split.
  - split.
    + destruct Hr as (tq & Hq & Hr). exists tq. split; [|done]. rewrite (pa_queues _ _ _ P2), bool_decide_eq_false_2; [done|].
      pose proof (so_nodup _ _ _ _ S1) as Hnd. rewrite Ha, <- (assoc_L (++)) in Hnd. apply NoDup_app in Hnd as (_ & Hnd & _). intros Hin. apply (Hnd p Hin). left.
    + rewrite Erun. cbn [length RunTasks.run_active]. rewrite qs_put, <- Ha2. destruct (run_first fuel p (put_qs s2 m)) as [[did m1]|]; [|done].
      cbn [mbind res_bind]. unfold finish. cbn [fst snd]. by destruct (upd_queues _ m1).
Qed.

(** C5: A turn of the server.  First the waiting tasks whose time has come, and only these, become ready: in the order of
    their start times they go behind the ready tasks of their programmers, whose queues are then active.  The
    active queues in front that have nothing to run become idle.  If there are no others, no task runs, and of the idle queues exactly the unused
    ones are freed.  Otherwise the first queue that has a line it may take or a task, or that reads without
    hope of input, has a turn, and what is left is [finish].  None of this can fault, and the queues stay well-formed. *)
Theorem run_ready_tasks_correct F P fuel m : good F P (vm_db m) -> sound (qs m) -> Z.of_nat (length (waiting_tasks (qs m))) < 2 ^ 32 ->
  exists l1 s1 s2, readied (vm_db m) (time (world m)) (qs m) l1 s1 s2 /\
  match active_tqueues s2 with
  | [] => exists s3, run_ready_tasks fuel m = Ok (false, put_qs s3 m) /\ clean s2 s3
  | p :: l => is_runnable s2 p /\ run_ready_tasks fuel m = run_first fuel p (put_qs s2 m) ≫= finish (time (world m)) p fuel (length l)
  end.
Proof using L. apply run_ready_tasks_Ok. Qed.

End scheduling.

(** ** Examples *)

(** A world of queues and a clock, in which built-in functions do nothing. *)
Definition clock_world : HasQueues unit (queues unit * Z) := {| queues_of := fst; with_queues s w := (s, w.2); time := snd |}.
Lemma clock_world_laws : QueuesLaws clock_world.
Proof. split; by intros; try destruct w. Qed.
Definition quiet_host : Host unit unit (queues unit * Z) := {|
  call_bi_func _ _ _ _ _ m := Ok (no_var_pack, m);
  name_func_by_num _ := lit "f";
  find_line_number _ _ _ := 1;
  Vm.enqueue_forked_task2 _ _ _ _ _ := Fail Undefined;
  Vm.suspend_task _ _ := Fail Undefined;
  waif_class _ _ := Fail Undefined;
  waif_get_prop _ _ _ _ := Fail Undefined;
  waif_put_prop _ _ _ _ _ := Fail Undefined;
  pow x _ := (x, 0);
  null_program := 1%positive |}.

#[local] Existing Instances clock_world clock_world_laws quiet_host.

(** A task of programmer 2 that starts at 105. *)
Definition example_task : task unit :=
  FORKED (mkForked 7 (program_of example_body 22) (main_activation (program_of example_body 22)) (replicate 22 None_) None 105).
Definition example_queues : queues unit :=
  match enqueue_waiting sample example_task (empty_queues []) with Ok s => s | Fail _ => empty_queues [] end.
Lemma example_queues_sound : sound example_queues.
Proof.
  unfold example_queues. destruct (enqueue_waiting_Ok _ _ sample sample_good (empty_queues []) example_task (empty_sound [])) as (s & E & [S _] & _).
  rewrite E. exact S.
Qed.
Definition example_server (now : Z) : vm unit (queues unit * Z) := mkVm [] None 0 0 false None sample ∅ (example_queues, now).

Notation example_run now := (run_ready_tasks (fun _ w => w) (fun _ => ([], None)) (fun _ _ _ m => Ok m) true 1000 (example_server now)).

(** It waits until then, and leaves nothing behind. *)
Example example_waits : (fun r => (r.1, length (waiting_tasks (qs r.2)), active_tqueues (qs r.2))) <$> example_run 104 = Ok (false, 1%nat, []).
Proof. vm_compute. reflexivity. Qed.
Example example_turn : (fun r => (r.1, length (waiting_tasks (qs r.2)), current_task_id (qs r.2), active_tqueues (qs r.2))) <$> example_run 105 = Ok (true, 0%nat, 7, [1%positive]).
Proof. vm_compute. reflexivity. Qed.

Lemma server_sound now : sound (qs (example_server now)).
Proof. unfold qs, example_server. cbn [world queues_of clock_world fst]. apply example_queues_sound. Qed.

Lemma run_ready_tasks_correct_witness : exists l1 s1 s2, readied (vm_db (example_server 105)) (time (world (example_server 105))) (qs (example_server 105)) l1 s1 s2 /\
  match active_tqueues s2 with
  | [] => exists s3, example_run 105 = Ok (false, put_qs s3 (example_server 105)) /\ clean s2 s3
  | p :: l => is_runnable s2 p /\ example_run 105 = run_first (fun _ w => w) (fun _ => ([], None)) (fun _ _ _ m => Ok m) true 1000 p (put_qs s2 (example_server 105))
      ≫= finish (fun _ w => w) (fun _ => ([], None)) (fun _ _ _ m => Ok m) true (time (world (example_server 105))) p 1000 (length l)
  end.
Proof. refine (run_ready_tasks_correct _ _ _ _ sample_family sample_place 1000 (example_server 105) sample_good (server_sound 105) _). apply Z.ltb_lt. vm_compute. reflexivity. Defined.

(** Its queue after the task has become ready. *)
Definition ready_queues : queues unit := match release_ready sample 105 example_queues with Ok s => s | Fail _ => example_queues end.
Lemma ready_queues_sound : sound ready_queues.
Proof.
  unfold ready_queues, release_ready. destruct (release_Ok _ _ sample sample_good 105 _ example_queues example_queues_sound eq_refl) as (s & E & [S _] & _).
  rewrite E. exact S.
Qed.
Definition ready_queue : tqueue unit := match tqueues ready_queues !! 1%positive with Some tq => tq | None => new_tqueue 0 None end.
Lemma end_turn_correct_witness : exists s' l1 l2, end_turn 1 true 10 ready_queues = Ok s' /\ sound s' /\ [] = l1 ++ l2 /\ active_tqueues s' = l1 ++ 1%positive :: l2.
Proof.
  destruct (end_turn_correct ready_queues 1 [] ready_queue 10 ready_queues_sound) as (_ & s' & l1 & l2 & E & S & Hl & Ha & _); [vm_compute; reflexivity..|vm_compute; congruence|vm_compute; reflexivity|].
  exists s', l1, l2. exact (conj E (conj S (conj Hl Ha))).
Defined.
