(* ===== verification/TaskSteps.v ===== *)
(** * All that can happen to the queues of tasks (src/tasks.c)

    The operations that the rest of the server, the built-in functions and [run_ready_tasks] carry out on the
    queues, as one transition system.  Whatever they do in whatever order, the queues stay
    well-formed and no operation fails. *)

From Stdlib Require Import Sorting.Sorted.
From S2P Require Import Prelude CStrings Values Lists Libc Db Links Properties Layout Tables Objects PropertyOps Invariant Handlers.
From S2P Require Import Ast CodeGen EvalEnv Vm VmTasks InputQueue TaskQueues TaskOps RunTasks RunOps Sample VmProgram.

Open Scope Z_scope.

Section ops.
Context {Data : Type}.
Implicit Types (h : gmap positive (tqueue Data)) (tq : tqueue Data) (wait ts : list (task Data)) (s : queues Data).

(** ** Taking tasks *)

Lemma dequeue_bg_task_Ok s p : sound s -> known s p -> exists t s', dequeue_bg_task p s = Ok (t, s') /\ keeps s s'.
Proof.
  intros S [tq Hq]. unfold dequeue_bg_task, at_queue. rewrite Hq. cbn [deref mbind res_bind]. destruct (tq_bg tq) as [|t ts] eqn:Hbg.
  { exists None, s. split; [done|]. by apply keeps_refl. }
  rewrite (upd_queue_Ok s p _ tq Hq). cbn [mbind res_bind]. eexists _, _. split; [done|]. split; [|apply grows_set].
  destruct (so_queues _ _ _ _ S p tq Hq) as [T1 T2 T3]. rewrite Hbg in T2, T3. apply Forall_cons in T2 as [_ T2].
  unfold sound. cbn [tqueues active_tqueues idle_tqueues waiting_tasks set_tqueues]. apply (replace_sound _ _ _ _ p tq); [exact S|exact Hq|done|done| |].
  - split; [done|done|]. cbn [tq_num_bg tq_bg tq_player set_tq_num_bg set_tq_bg]. intros Hne. rewrite (T3 Hne), <- Z.add_opp_r, wrap32_shift. f_equal. cbn [length]. lia.
  - right. by destruct (bg_or_active s p tq S Hq) as [Hnil|]; [rewrite Hbg in Hnil|].
Qed.

(** ** Logging in *)

Lemma move_bg_Ok from to ts : from <> to -> forall fuel s tq tq', tqueues s !! from = Some tq -> tqueues s !! to = Some tq' -> tq_bg tq = ts -> (length ts < fuel)%nat ->
  exists n, move_bg fuel from to s = Ok (set_tqueues (<[from := set_tq_num_bg n (set_tq_bg [] tq)]> (<[to := set_tq_bg (tq_bg tq' ++ ts) tq']> (tqueues s))) s).
Proof.
  intros Hne. induction ts as [|t ts IH]; intros [|fuel] s tq tq' Hq Hq' Hbg Hf; [lia| |lia|]; cbn [move_bg length] in *; unfold dequeue_bg_task, at_queue; rewrite Hq; cbn [deref mbind res_bind]; rewrite Hbg.
  - exists (tq_num_bg tq). cbn [mbind res_bind]. rewrite app_nil_r. replace (set_tq_bg (tq_bg tq') tq') with tq' by (by destruct tq').
    replace (set_tq_num_bg _ (set_tq_bg [] tq)) with tq by (rewrite <- Hbg; by destruct tq). rewrite !insert_id by (rewrite ?lookup_insert_ne by done; done). by destruct s.
  - rewrite (upd_queue_Ok s from _ tq Hq). cbn [mbind res_bind]. set (tq1 := set_tq_num_bg _ (set_tq_bg ts tq)). unfold enqueue_bg_task.
    rewrite (upd_queue_Ok _ to _ tq') by (cbn [tqueues set_tqueues]; by rewrite lookup_insert_ne). cbn [mbind res_bind].
    destruct (IH fuel (set_tqueues (<[to := set_tq_bg (tq_bg tq' ++ [t]) tq']> (tqueues (set_tqueues (<[from := tq1]> (tqueues s)) s))) (set_tqueues (<[from := tq1]> (tqueues s)) s))
      tq1 (set_tq_bg (tq_bg tq' ++ [t]) tq')) as [n ->]; cbn [tqueues set_tqueues]; [by rewrite lookup_insert_ne, lookup_insert_eq|by rewrite lookup_insert_eq|done|lia|].
    exists n. cbn [tq_bg set_tq_bg]. rewrite <- (assoc_L (++)). cbn [app]. f_equal. unfold set_tqueues. cbn. f_equal. rewrite insert_insert_eq.
    rewrite (insert_insert_ne _ from to) by done. rewrite insert_insert_eq. rewrite (insert_insert_ne _ from to) by done. done.
Qed.

Lemma all_bg_Ok from to s tq tq' : from <> to -> tqueues s !! from = Some tq -> tqueues s !! to = Some tq' ->
  exists n, all_bg from to s = Ok (set_tqueues (<[from := set_tq_num_bg n (set_tq_bg [] tq)]> (<[to := set_tq_bg (tq_bg tq' ++ tq_bg tq) tq']> (tqueues s))) s).
Proof. intros Hne Hq Hq'. unfold all_bg, at_queue. rewrite Hq. cbn [deref mbind res_bind]. by apply move_bg_Ok; [..|lia]. Qed.

Lemma take_first m (ms : list message) : take_message DQ_FIRST (m :: ms) = Some (m, ms).
Proof. done. Qed.

(** The input is dropped; the connection may be asked for more. *)
Lemma drop_input_Ok fuel p : forall s tq, tqueues s !! p = Some tq -> (length (tq_input tq) < fuel)%nat -> exists total susp calls,
  drop_input fuel p s = Ok (set_server_calls calls (set_tqueues (<[p := set_tq_suspended susp (set_tq_total total (set_tq_input [] tq))]> (tqueues s)) s)) /\
  (tq_total tq = wrap32 (input_length (tq_input tq)) -> total = wrap32 0).
Proof.
  induction fuel as [|fuel IH]; intros s tq Hq Hf; [lia|]. cbn [drop_input]. unfold dequeue_input_task, at_queue. rewrite Hq. cbn [deref mbind res_bind].
  assert (Hoob : tq_disable_oob tq && bool_decide (DQ_FIRST = DQ_OOB) = false) by (by rewrite bool_decide_eq_false_2, andb_false_r).
  rewrite Hoob. replace (if tq_disable_oob tq then DQ_FIRST else DQ_FIRST) with DQ_FIRST by (by destruct (tq_disable_oob tq)).
  destruct (tq_input tq) as [|m ms] eqn:Hin.
  - exists (tq_total tq), (tq_suspended tq), (server_calls s). cbn [take_message pick mbind res_bind]. split; [|done].
    replace (set_tq_suspended _ _) with tq by (rewrite <- Hin; by destruct tq). rewrite insert_id by done. by destruct s.
  - rewrite take_first. set (total := wrap32 _). rewrite (upd_queue_Ok s p _ tq Hq). cbn [mbind res_bind]. set (tq1 := set_tq_total total (set_tq_input ms tq)).
    assert (Hnext : exists susp calls, (if tq_suspended tq && tq_connected tq && (total <? INPUT_LOWAT)
        then upd_queue p (set_tq_suspended false) (call (Resume_input (tq_player tq)) (set_tqueues (<[p := tq1]> (tqueues s)) s))
        else Ok (set_tqueues (<[p := tq1]> (tqueues s)) s)) = Ok (set_server_calls calls (set_tqueues (<[p := set_tq_suspended susp tq1]> (tqueues s)) s))).
    { destruct (_ && _ && _); [|exists (tq_suspended tq), (server_calls s); f_equal; replace (set_tq_suspended _ tq1) with tq1 by (by destruct tq); by destruct s].
      eexists false, _. rewrite (upd_queue_Ok _ p _ tq1) by (cbn [tqueues call set_server_calls set_tqueues]; by rewrite lookup_insert_eq).
      unfold call. cbn [tqueues set_server_calls set_tqueues]. rewrite insert_insert_eq. by unfold set_tqueues, set_server_calls. }
    destruct Hnext as (susp & calls & ->). cbn [mbind res_bind]. set (s1 := set_server_calls _ _).
    destruct (IH s1 (set_tq_suspended susp tq1)) as (total' & susp' & calls' & -> & Ht); [cbn [s1 tqueues set_server_calls set_tqueues]; by rewrite lookup_insert_eq|cbn [tq_input tq1 set_tq_suspended set_tq_total set_tq_input length] in *; lia|].
    exists total', susp', calls'. cbn [s1 tqueues set_server_calls set_tqueues]. rewrite insert_insert_eq. split; [done|].
    intros Htot. apply Ht. cbn [tq1 tq_total tq_input set_tq_suspended set_tq_total set_tq_input]. unfold total. rewrite Htot, <- Z.add_opp_r, wrap32_shift. f_equal.
    unfold input_length. cbn [foldr]. lia.
Qed.

(** Queues change in place. *)
Lemma retable_sound h active idle wait h' : sound_of h active idle wait -> (forall q, is_Some (h' !! q) <-> is_Some (h !! q)) -> (forall q, usage h' q = usage h q) ->
  (forall q tq, q ∈ idle -> h' !! q = Some tq -> tq_bg tq = []) ->
  (forall p q tq tq', h' !! p = Some tq -> h' !! q = Some tq' -> tq_player tq = tq_player tq' -> tq_player tq <> NOTHING -> p = q) ->
  (forall q tq, h' !! q = Some tq -> tq_ok wait tq) ->
  (forall t, t ∈ wait -> progr_of_task t <> NOTHING -> exists q tq, h' !! q = Some tq /\ tq_player tq = progr_of_task t) -> sound_of h' active idle wait.
Proof.
  intros S Hdom Hus Hidle Hpl Hok Hhome. split; [apply S| | | | |done|done|done|apply S].
  - intros q. rewrite Hdom. apply S.
  - intros q tq Hq Hl. split; [|by apply (Hidle q)]. assert (Hu : usage h q = tq_usage tq) by (rewrite <- Hus; unfold usage; by rewrite Hl).
    destruct (h !! q) as [tq0|] eqn:Hq0; [|exfalso; assert (Hno : is_Some (h !! q)) by (apply Hdom; by eexists); rewrite Hq0 in Hno; by destruct Hno].
    unfold usage in Hu. rewrite Hq0 in Hu. cbn in Hu. rewrite <- Hu. by apply (so_idle _ _ _ _ S q).
  - intros q Hq. rewrite Hus. by apply S.
  - eapply sorted_weaken; [|apply (so_sorted _ _ _ _ S)]. intros q r _ _. by rewrite !Hus.
Qed.

Lemma no_waiting player wait : waiting_of player wait = [] -> forall t : task Data, t ∈ wait -> progr_of_task t <> player.
Proof. intros Hw t Ht Hp. assert (Hin : t ∈ waiting_of player wait) by (by apply list_elem_of_filter). rewrite Hw in Hin. by apply elem_of_nil in Hin. Qed.

(** [p] is the queue of a connection, which has no tasks; another queue may be the one of the player. *)
Lemma take_over_sound h active idle wait p tq tq' new : sound_of h active idle wait -> h !! p = Some tq -> p ∈ active -> waiting_of (tq_player tq) wait = [] -> new <> NOTHING ->
  tq_player tq' = new -> tq_usage tq' = tq_usage tq -> tq_ok wait tq' ->
  (forall q r, h !! q = Some r -> tq_player r = new -> q = p) -> sound_of (<[p := tq']> h) active idle wait.
Proof.
  intros S Hq Hact Hw Hne Hnew Hu Hok Hno. eapply retable_sound; [exact S| | | | | |].
  - intros q. destruct (decide (q = p)) as [->|]; [rewrite lookup_insert_eq, Hq; split; by eexists|by rewrite lookup_insert_ne].
  - intros q. rewrite usage_insert. case_decide as E; [|done]. subst. unfold usage. by rewrite Hq, Hu.
  - intros q r Hqi. rewrite lookup_insert_ne; [by apply S|]. intros ->. pose proof (so_nodup _ _ _ _ S) as Hn. apply NoDup_app in Hn as (_ & Hn & _). by apply (Hn q).
  - intros q r t t'. destruct (decide (q = p)) as [->|], (decide (r = p)) as [->|]; rewrite ?lookup_insert_eq, ?lookup_insert_ne by done; [done| | |by apply S].
    + intros [= <-] Ht' Hp _. symmetry. apply (Hno r t' Ht'). congruence.
    + intros Ht [= <-] Hp _. apply (Hno q t Ht). congruence.
  - intros q r. destruct (decide (q = p)) as [->|]; [rewrite lookup_insert_eq; by intros [= <-]|rewrite lookup_insert_ne by done; apply S].
  - intros t Ht Hnot. destruct (so_homes _ _ _ _ S t Ht Hnot) as (q & r & Hr & Hp). destruct (decide (q = p)) as [->|]; [|exists q, r; by rewrite lookup_insert_ne].
    exfalso. apply (no_waiting _ _ Hw t Ht). congruence.
Qed.

Lemma swap_over_sound h active idle wait p tq tq' dead dq dq' new : sound_of h active idle wait -> h !! p = Some tq -> h !! dead = Some dq -> p ∈ active -> dead <> p ->
  waiting_of (tq_player tq) wait = [] -> new <> NOTHING -> tq_player dq = new ->
  tq_player tq' = new -> tq_usage tq' = tq_usage tq -> tq_ok wait tq' -> tq_player dq' = NOTHING -> tq_usage dq' = tq_usage dq -> tq_ok wait dq' -> tq_bg dq' = [] ->
  sound_of (<[dead := dq']> (<[p := tq']> h)) active idle wait.
Proof.
  intros S Hq Hd Hact Hdp Hw Hne Hdq Hnew Hu Hok Hd1 Hd2 Hd3 Hd4.
  assert (Hlook : forall q r, <[dead := dq']> (<[p := tq']> h) !! q = Some r -> (q = p /\ r = tq') \/ (q = dead /\ r = dq') \/ (q <> p /\ h !! q = Some r /\ (tq_player r = new -> False))).
  { intros q r. destruct (decide (q = dead)) as [->|Hqd]; [rewrite lookup_insert_eq; intros [= <-]; by right; left|]. rewrite lookup_insert_ne by done.
    destruct (decide (q = p)) as [->|Hqp]; [rewrite lookup_insert_eq; intros [= <-]; by left|]. rewrite lookup_insert_ne by done. intros Hr. right. right. split; [done|]. split; [done|].
    intros Hpl. apply Hqd. apply (so_players _ _ _ _ S q dead r dq); congruence. }
  eapply retable_sound; [exact S| | | | | |].
  - intros q. destruct (decide (q = dead)) as [->|]; [rewrite lookup_insert_eq, Hd; split; by eexists|]. rewrite lookup_insert_ne by done.
    destruct (decide (q = p)) as [->|]; [rewrite lookup_insert_eq, Hq; split; by eexists|by rewrite lookup_insert_ne].
  - intros q. rewrite !usage_insert. repeat case_decide; subst; [|by unfold usage; rewrite ?Hq, ?Hd, ?Hu, ?Hd2..|done]. unfold usage. by rewrite Hd, Hd2.
  - intros q r Hqi Hr. destruct (Hlook q r Hr) as [[-> ->]|[[-> ->]|(Hqp & Hr' & _)]]; [|done|by eapply (so_idle _ _ _ _ S q)].
    pose proof (so_nodup _ _ _ _ S) as Hn. apply NoDup_app in Hn as (_ & Hn & _). by destruct (Hn p).
  - intros q r t t' Ht Ht' Hp Hnot. destruct (Hlook q t Ht) as [[-> ->]|[[-> ->]|(Hqp & Hr & Hn1)]], (Hlook r t' Ht') as [[-> ->]|[[-> ->]|(Hrp & Hr' & Hn2)]]; try done; try congruence.
    by apply (so_players _ _ _ _ S q r t t').
  - intros q r Hr. destruct (Hlook q r Hr) as [[-> ->]|[[-> ->]|(Hqp & Hr' & _)]]; [done|done|by apply (so_queues _ _ _ _ S q)].
  - intros t Ht Hnot. destruct (decide (progr_of_task t = new)) as [Hn|Hn]; [exists p, tq'; rewrite lookup_insert_ne, lookup_insert_eq by done; by rewrite Hn|].
    destruct (so_homes _ _ _ _ S t Ht Hnot) as (q & r & Hr & Hp). exists q, r. split; [|done]. rewrite lookup_insert_ne by (intros ->; congruence).
    rewrite lookup_insert_ne; [done|]. intros ->. apply (no_waiting _ _ Hw t Ht). congruence.
Qed.

Lemma same_table h (p dead : positive) a b c e f : dead <> p ->
  <[dead := f]> (<[dead := e]> (<[p := c]> (<[dead := b]> (<[p := a]> h)))) = <[dead := f]> (<[p := c]> h) :> gmap positive (tqueue Data).
Proof. intros Hne. rewrite insert_insert_eq. rewrite (insert_insert_ne _ p dead) by done. rewrite insert_insert_eq. by rewrite insert_insert_eq. Qed.

(** The queue of a connection without tasks is the queue of the player after that, with all his tasks. *)
Lemma log_in_Ok d p new s tq : sound s -> tqueues s !! p = Some tq -> p ∈ active_tqueues s -> tq_bg tq = [] -> tq_num_bg tq = 0 ->
  Z.of_nat (length (waiting_tasks s)) < 2 ^ 32 -> tq_player tq <> NOTHING -> new <> NOTHING -> new <> tq_player tq ->
  exists s' tq', log_in d p new s = Ok s' /\ keeps s s' /\ waiting_tasks s' = waiting_tasks s /\ tqueues s' !! p = Some tq' /\ tq_player tq' = new /\ tq_input tq' = tq_input tq /\
    tq_bg tq' = match lookup_tqueue new s with Ok (Some dead) => default [] (tq_bg <$> tqueues s !! dead) | _ => [] end.
Proof.
  intros S Hq Hact Hbg Hnum Hlt Hold Hne Hnew. pose proof (so_queues _ _ _ _ S p tq Hq) as [T1 T2 T3].
  destruct (no_tasks_left (waiting_tasks s) tq) as [_ Hw]; [done|done|rewrite Hbg; cbn [length]; lia|done|].
  assert (Eq : at_queue p s = Ok tq) by (unfold at_queue; by rewrite Hq). unfold log_in. rewrite Eq. cbn [mbind res_bind]. destruct (lookup_tqueue_Ok s new S) as (dead & -> & Hdead). cbn [mbind res_bind].
  rewrite (upd_queue_Ok s p _ tq Hq), Hnum. cbn [mbind res_bind Z.eqb]. destruct dead as [dead|].
  - destruct Hdead as (dq & Hd & Hdp). assert (Hne' : dead <> p) by (intros ->; congruence). set (s1 := set_tqueues _ s).
    assert (Ed : at_queue dead s1 = Ok dq) by (unfold at_queue; cbn [s1 tqueues set_tqueues]; by rewrite lookup_insert_ne, Hd).
    rewrite Ed. cbn [mbind res_bind]. subst s1. clear Ed. rewrite (upd_queue_Ok _ p _ (set_tq_player new tq)) by (cbn [tqueues set_tqueues]; by rewrite lookup_insert_eq).
    cbn [mbind res_bind tqueues set_tqueues]. rewrite insert_insert_eq. set (p2 := set_tq_num_bg (tq_num_bg dq) (set_tq_player new tq)).
    destruct (drop_input_Ok (Datatypes.S (length (tq_input dq))) dead (set_tqueues (<[p := p2]> (tqueues s)) s) dq) as (total & susp & calls & E & Htot); [cbn [tqueues set_tqueues]; by rewrite lookup_insert_ne|lia|].
    unfold set_tqueues in E |- *. cbn [tqueues active_tqueues idle_tqueues waiting_tasks current_task_id external_queues randoms argv_size server_calls] in E |- *. rewrite E. clear E. cbn [mbind res_bind].
    set (dq1 := set_tq_suspended _ _). set (s2 := set_server_calls _ _).
    destruct (all_bg_Ok dead p s2 dq1 p2) as [n E]; [done|cbn [s2 tqueues set_server_calls]; by rewrite lookup_insert_eq|cbn [s2 tqueues set_server_calls]; by rewrite lookup_insert_ne, lookup_insert_eq|].
    rewrite E. clear E. cbn [mbind res_bind]. erewrite upd_queue_Ok by (cbn [tqueues set_tqueues]; by rewrite lookup_insert_eq).
    unfold set_tqueues. cbn [s2 tqueues set_server_calls]. rewrite same_table by done. eexists _, _. split; [done|].
    change (tq_bg p2) with (tq_bg tq). change (tq_bg dq1) with (tq_bg dq). rewrite Hbg. cbn [app].
    split; [split; [|split]|split; [done|]].
    + unfold sound. cbn [tqueues active_tqueues idle_tqueues waiting_tasks set_server_calls]. destruct (so_queues _ _ _ _ S dead dq Hd) as [D1 D2 D3].
      eapply (swap_over_sound _ _ _ _ p tq _ dead dq _ new); [exact S|done..| |done|done| |done].
      * rewrite Hdp in D2, D3. split; [exact T1|exact D2|]. intros _. cbn [tq_num_bg tq_bg tq_player p2 set_tq_bg set_tq_num_bg set_tq_player]. by apply D3.
      * split; [cbn; by apply Htot|constructor|]. intros Hx. by destruct Hx.
    + intros q [r Hr]. unfold known. cbn [tqueues set_server_calls]. destruct (decide (q = dead)) as [->|]; [rewrite lookup_insert_eq; by eexists|]. rewrite lookup_insert_ne by done.
      destruct (decide (q = p)) as [->|]; [rewrite lookup_insert_eq; by eexists|rewrite lookup_insert_ne by done; by eexists].
    + intros q l Hl. by exists l.
    + cbn [tqueues set_server_calls]. rewrite lookup_insert_ne, lookup_insert_eq by done. split; [done|]. split; [done|]. split; [done|]. by rewrite Hd.
  - eexists _, _. split; [done|]. split; [split; [|apply grows_set]|split; [done|]].
    + unfold sound. cbn [tqueues active_tqueues idle_tqueues waiting_tasks set_tqueues]. eapply (take_over_sound _ _ _ _ p tq _ new); [exact S|done..| |].
      * split; [exact T1|cbn [tq_bg set_tq_player]; rewrite Hbg; constructor|]. intros _. cbn [tq_num_bg tq_bg tq_player set_tq_player]. rewrite Hnum, Hbg.
        replace (waiting_of new (waiting_tasks s)) with (@nil (task Data)); [done|]. symmetry. destruct (waiting_of new (waiting_tasks s)) as [|t l] eqn:Ew; [done|].
        assert (Ht : t ∈ waiting_of new (waiting_tasks s)) by (rewrite Ew; left). apply list_elem_of_filter in Ht as [Ht1 Ht2].
        destruct (so_homes _ _ _ _ S t Ht2) as (q & r & Hr & Hpr); [congruence|]. destruct (Hdead q r Hr). congruence.
      * intros q r Hr Hpr. by destruct (Hdead q r Hr).
    + cbn [tqueues set_tqueues]. rewrite lookup_insert_eq. by repeat split.
Qed.

(** ** Steps *)

Inductive task_op :=
  | New_task_queue (player handler : Z) | Free_task_queue (p : positive) | Set_option (p : positive) (opt : cstr) (value : Var)
  | New_input (p : positive) (input : cstr) (binary : bool) | Force_input (conn : Z) (line : cstr) (at_front : bool) | Flush_input (conn : Z) (show : bool)
  | Hold_input (p : positive) | Fork (now : Z) (a : activation Data) (f_index : option nat) (after : Z) (vid : option nat)
  | Suspend_for (now : Z) (the_vm : vmstruct Data) (after : Z) | Read (the_vm : vmstruct Data) (player : Z) | Read_now (connection : Z)
  | Kill (id owner : Z) | Resume (now id : Z) (value : Var) (progr : Z)
  | Release (now : Z) | Take_line (p : positive) (how : dequeue_how) | Take_task (p : positive) | Log_in (p : positive) (new_player : Z)
  | End_turn (p : positive) (did_one : bool) (seconds : Z) | Free_unused | Stop_reading (p : positive) | New_id.

Definition task_step (d : db) (op : task_op) s : res (queues Data) :=
  match op with
  | New_task_queue player handler => snd <$> new_task_queue d player handler s
  | Free_task_queue p => free_task_queue p s
  | Set_option p opt value => snd <$> tasks_set_connection_option p opt value s
  | New_input p input binary => new_input_task p input binary s
  | Force_input conn line at_front => '(p, s) ← find_tqueue d conn s; enqueue_input_task p line at_front false s
  | Flush_input conn show => '(p, s) ← find_tqueue d conn s; flush_input p show s
  | Hold_input p => task_suspend_input p s
  | Fork now a f_index after vid => snd <$> enqueue_forked_task2 d now a f_index after vid s
  | Suspend_for now the_vm after => snd <$> enqueue_suspended_task d now the_vm after s
  | Read the_vm player => snd <$> make_reading_task the_vm player s
  | Read_now connection => snd <$> read_input_now connection s
  | Kill id owner => snd <$> kill_task d id owner s
  | Resume now id value progr => snd <$> do_resume d now id value progr s
  | Release now => release_ready d now s
  | Take_line p how => snd <$> dequeue_input_task p how s
  | Take_task p => snd <$> dequeue_bg_task p s
  | Log_in p new_player => log_in d p new_player s
  | End_turn p did_one seconds => end_turn p did_one seconds s
  | Free_unused => free_unused (idle_tqueues s) s
  | Stop_reading p => upd_queue p (set_tq_reading None) s
  | New_id => snd <$> new_current_task s
  end.

(** Queues are those that there are; random numbers do not run out; usages and counters do not overflow;
    the connection that logs in has no tasks. *)
Definition allowed (op : task_op) s : Prop :=
  match op with
  | Free_task_queue p | Set_option p _ _ | New_input p _ _ | Hold_input p | Take_line p _ | Take_task p | Stop_reading p => known s p
  | New_id => is_Some (nonzero (randoms s))
  | Fork _ a _ _ vid => is_Some (nonzero (randoms s)) /\ (num_var_names (a_prog a) <= length (rt_env a))%nat /\ forall v, vid = Some v -> (v < length (rt_env a))%nat
  | Log_in p new => p ∈ active_tqueues s /\ new <> NOTHING /\ Z.of_nat (length (waiting_tasks s)) < 2 ^ 32 /\
      exists tq, tqueues s !! p = Some tq /\ tq_bg tq = [] /\ tq_num_bg tq = 0 /\ tq_player tq <> NOTHING /\ new <> tq_player tq
  | End_turn p did_one seconds => 0 <= seconds /\ exists l tq, active_tqueues s = p :: l /\ tqueues s !! p = Some tq /\ tq_usage tq + seconds < 2 ^ 31 /\
      (did_one = false -> tq_bg tq = [])
  | Free_unused => Z.of_nat (length (waiting_tasks s)) < 2 ^ 32
  | _ => True
  end.

Inductive reachable : queues Data -> Prop :=
  | reach_start rs : reachable (empty_queues rs)
  | reach_step F P d op s s' : reachable s -> good F P d -> allowed op s -> task_step d op s = Ok s' -> reachable s'.

Lemma turn_Ok p did_one seconds s l tq : sound s -> 0 <= seconds -> active_tqueues s = p :: l -> tqueues s !! p = Some tq -> tq_usage tq + seconds < 2 ^ 31 ->
  (did_one = false -> tq_bg tq = []) -> exists s', end_turn p did_one seconds s = Ok s' /\ sound s'.
Proof.
  intros S Hsec Ha Hq Hmax Hbg. destruct did_one.
  - destruct (end_turn_active s p l tq seconds S Ha Hq Hsec Hmax) as (l1 & l2 & h' & _ & _ & E & S' & _). by eexists.
  - destruct (end_turn_idle s p l tq seconds S Ha Hq (Hbg eq_refl)) as [E S']. by eexists.
Qed.

(** What the lemmas about operations say, without the result. *)
Lemma done_step {A} (r : res (A * queues Data)) s : (exists a s', r = Ok (a, s') /\ keeps s s') -> exists s', snd <$> r = Ok s' /\ sound s'.
Proof. intros (a & s' & -> & S & _). by exists s'. Qed.
Lemma kept_step (r : res (queues Data)) s : (exists s', r = Ok s' /\ keeps s s') -> exists s', r = Ok s' /\ sound s'.
Proof. intros (s' & -> & S & _). by exists s'. Qed.

Lemma task_step_sound F P d op s : good F P d -> sound s -> allowed op s -> exists s', task_step d op s = Ok s' /\ sound s'.
Proof.
  intros Hg S Ha. destruct op; cbn [task_step allowed] in *.
  - apply (done_step _ s). destruct (new_task_queue_Ok F P d Hg player handler s S) as (p & s' & E & K & _). by exists p, s'.
  - by apply (kept_step _ s), free_task_queue_Ok.
  - by apply (done_step _ s), tasks_set_connection_option_Ok.
  - by apply (kept_step _ s), new_input_task_Ok.
  - destruct (find_tqueue_Ok F P d Hg s conn S) as (p & s1 & -> & [S1 _] & (tq & Hq & _) & _). cbn [mbind res_bind]. apply (kept_step _ s1), enqueue_input_task_Ok; [done|by eexists].
  - destruct (find_tqueue_Ok F P d Hg s conn S) as (p & s1 & -> & [S1 _] & (tq & Hq & _) & _). cbn [mbind res_bind].
    destruct (flush_input_Ok s1 p show S1) as (s' & tq' & E & [S' _] & _); [by eexists|]. by exists s'.
  - by apply (kept_step _ s), task_suspend_input_Ok.
  - destruct Ha as ([[id rs] Hr] & Hn & Hv). destruct (enqueue_forked_task2_Ok F P d Hg now a f_index after vid s id rs S Hr Hn Hv) as (e & env & s' & -> & [S' _] & _). by exists s'.
  - apply (done_step _ s). destruct (enqueue_suspended_task_Ok F P d Hg now the_vm after s S) as (e & s' & E & K & _). by exists e, s'.
  - by apply (done_step _ s), make_reading_task_Ok.
  - by apply (done_step _ s), read_input_now_Ok.
  - destruct (kill_task_Ok F P d Hg id owner s S) as (e & s' & -> & Hk). exists s'. split; [done|]. destruct e; try done; [|by destruct Hk as [-> _]..].
    destruct (id =? current_task_id s); [by subst|]. apply Hk.
  - apply (done_step _ s). destruct (do_resume_Ok F P d Hg now id value progr s S) as (e & s' & E & K & _). by exists e, s'.
  - destruct (release_Ok F P d Hg now _ s S eq_refl) as (s' & E & [S' _] & _). by exists s'.
  - destruct Ha as [tq Hq]. apply (done_step _ s). destruct (dequeue_input_task_Ok s p how tq S Hq) as (t & s' & E & K & _). by exists t, s'.
  - by apply (done_step _ s), dequeue_bg_task_Ok.
  - destruct Ha as (Hact & Hne & Hlt & tq & Hq & Hbg & Hnum & Hold & Hnew). destruct (log_in_Ok d p new_player s tq S Hq) as (s' & tq' & E & [S' _] & _); try done. by exists s'.
  - destruct Ha as (Hsec & l & tq & Hal & Hq & Hmax & Hbg). by apply (turn_Ok p did_one seconds s l tq).
  - destruct (free_unused_Ok (idle_tqueues s) s S) as (s' & E & S' & _); [|done|done|by exists s'].
    pose proof (so_nodup _ _ _ _ S) as Hn. by apply NoDup_app in Hn as (_ & _ & Hn).
  - destruct (upd_keeps s p (set_tq_reading None) S Ha) as (s' & E & [S' _] & _); [done|by exists s'].
  - destruct Ha as [[id rs] Hr]. unfold new_current_task, new_task_id. rewrite Hr. by eexists.
Qed.

Lemma reachable_Ok s : reachable s -> sound s.
Proof.
  induction 1 as [rs|F P d op s s' _ IH Hg Ha E]; [apply empty_sound|]. destruct (task_step_sound F P d op s Hg IH Ha) as (s1 & E1 & S1). congruence.
Qed.

(** C2: Whatever is done to the queues of tasks, in whatever order and on whatever well-formed databases, no operation fails, and
    the queues are well-formed: every queue is once in the list of active or of idle ones; active ones are sorted by usage, idle ones have no tasks;
    every player has one queue at most; waiting tasks are sorted by start time; and the counters of lines and of
    tasks, by which input is suspended and quotas are checked, count what is there. *)
Theorem reachable_queues_are_sound s : reachable s -> sound s /\
  forall F P d op, good F P d -> allowed op s -> exists s', task_step d op s = Ok s' /\ reachable s'.
Proof.
  intros Hr. pose proof (reachable_Ok s Hr) as S. split; [done|]. intros F P d op Hg Ha. destruct (task_step_sound F P d op s Hg S Ha) as (s' & E & _).
  exists s'. split; [done|]. by eapply reach_step.
Qed.


End ops.

(** ** Examples *)

Definition connected_queues : queues unit := match task_step sample (New_task_queue (-2) 0) (empty_queues [5]) with Ok s => s | Fail _ => empty_queues [] end.

Lemma connected_reachable : reachable connected_queues.
Proof. eapply (reach_step sample_family sample_place sample (New_task_queue (-2) 0)); [apply (reach_start [5])|apply sample_good|exact I|vm_compute; reflexivity]. Qed.

Lemma reachable_queues_are_sound_witness : sound connected_queues /\
  exists s', task_step sample (New_input 1 (lit "connect wizard") false) connected_queues = Ok s' /\ reachable s'.
Proof.
  destruct (reachable_queues_are_sound connected_queues connected_reachable) as [S Hs]. split; [exact S|].
  apply (Hs sample_family sample_place sample (New_input 1 (lit "connect wizard") false) sample_good). eexists. vm_compute. reflexivity.
Defined.


(** ** What goes wrong *)

Definition example_vm : vmstruct unit := mkVmstruct 9 (main_activation (program_of example_body 22)) [] None 50.

(** [resume_task] does not count the task that it makes ready, but taking it counts down. *)
Example resume_task_is_not_counted : (s ← resume_task sample example_vm (Int 0) (empty_queues []); '(_, s) ← dequeue_bg_task 1 s;
  tq ← at_queue 1 s; Ok (tq_num_bg tq, unused tq)) = Ok (-1, false).
Proof. vm_compute. reflexivity. Qed.

(** Tasks of a programmer with the number of the connection: when it logs in they go to an idle queue, where they
    do not run and from where they are not freed; one of them is ready, but the server waits. *)
Definition connection_task : task unit :=
  FORKED (mkForked 7 (program_of example_body 22) (set_progr (-2) (main_activation (program_of example_body 22))) (replicate 22 None_) None 105).
Example log_in_strands_tasks : (s ← enqueue_waiting sample connection_task connected_queues; s ← release_ready sample 105 s;
  s ← log_in sample 1 2 s; tq ← at_queue 2 s; Ok (active_tqueues s, idle_tqueues s, tq_player tq, length (tq_bg tq), next_task_start 105 s)) =
  Ok ([1%positive], [2%positive], -2, 1%nat, Ok (-1)).
Proof. vm_compute. reflexivity. Qed.

(** A task that starts in more than 2^31 seconds: the difference overflows, and the server does not wait. *)
Definition far_task : task unit :=
  FORKED (mkForked 7 (program_of example_body 22) (main_activation (program_of example_body 22)) (replicate 22 None_) None (105 + 2 ^ 31)).
Example far_tasks_keep_the_server_busy : (s ← enqueue_waiting sample far_task (empty_queues []); ready ← any_ready (tqueues s) (active_tqueues s);
  n ← next_task_start 105 s; Ok (ready, n)) = Ok (false, 0).
Proof. vm_compute. reflexivity. Qed.
