(* ===== verification/TurnOps.v ===== *)
(** * What a turn does to the queues of tasks (src/tasks.c)

    Commands, out-of-band commands, reading tasks and background tasks run programs, which can do anything that the
    functions of other files do; the queues stay well-formed as long as these functions keep them so. *)

From S2P Require Import Prelude CStrings Values Lists Libc Db Properties Objects Preps Verbs Words ParseCmd Match VerbBuiltins Ast CodeGen EvalEnv Vm VmRun VmTasks.
From S2P Require Import InputQueue TaskQueues TaskOps VmFrame RunTasks RunOps TaskSteps Invariant Sample VmProgram.

Open Scope Z_scope.

Section turns.
Context {Data Susp World : Type} {H : Host Data Susp World} {W : HasQueues Data World} {L : QueuesLaws W}.
Notation machine := (vm Data World).

(** From [s0] on the queues were kept. *)
Definition queues_kept (s0 : queues Data) (w : World) : Prop := keeps s0 (queues_of w).

Context (K : forall s0, HostKeeps H (queues_kept s0)).
Context (set_virtual_timer : Z -> World -> World) (timer_keeps : forall n w, queues_of (set_virtual_timer n w) = queues_of w).
Context (parse_program : cstr -> list cstr * option Program) (player_connected : Z -> Z -> bool -> machine -> res machine) (numeric_names : bool).

Variable s0 : queues Data.
Notation kept := (queues_kept s0).
Implicit Types m : machine.

Lemma notify_kept player msg (w : World) : kept w -> kept (notify_world player msg w).
Proof using L. unfold queues_kept, notify_world. rewrite queues_of_with. intros [S G]. split; [exact S|]. destruct G as [G1 G2]. by split. Qed.
Lemma timer_kept n (w : World) : kept w -> kept (set_virtual_timer n w).
Proof using timer_keeps. unfold queues_kept. by rewrite timer_keeps. Qed.

Lemma put_kept s m : keeps (qs m) s -> kept (world m) -> kept (world (put_qs s m)).
Proof using L. unfold queues_kept, put_qs, qs. cbn [world with_world]. rewrite queues_of_with. intros K1 K2. by eapply keeps_trans. Qed.

(** A change that keeps what the lists and counters say. *)
Definition harmless (f : tqueue Data -> tqueue Data) : Prop := forall tq, tq_player (f tq) = tq_player tq /\ tq_usage (f tq) = tq_usage tq /\
  tq_bg (f tq) = tq_bg tq /\ tq_num_bg (f tq) = tq_num_bg tq /\ (tq_total tq = wrap32 (input_length (tq_input tq)) -> tq_total (f tq) = wrap32 (input_length (tq_input (f tq)))).
Lemma upd_kept p f m m' : harmless f -> kept (world m) -> upd_queues (upd_queue p f) m = Ok m' -> kept (world m').
Proof using L.
  intros Hf Hk E. unfold upd_queues in E. apply res_bind_Ok in E as (s & E & [= <-]). assert (Hkn : known (qs m) p).
  { unfold upd_queue, at_queue in E. unfold known. destruct (tqueues (qs m) !! p); [by eexists|done]. }
  destruct (upd_keeps (qs m) p f (proj1 Hk) Hkn Hf) as (s' & E' & Kp & _). apply put_kept; [|exact Hk]. rewrite E in E'. by injection E' as ->.
Qed.

Lemma notify_m_kept player msg m : kept (world m) -> kept (world (notify player msg m)).
Proof using L. intros Hk. unfold notify. cbn [world with_world]. by apply notify_kept. Qed.
Lemma notify_queue_kept p msg m m' : kept (world m) -> notify_queue p msg m = Ok m' -> kept (world m').
Proof using L. intros Hk E. unfold notify_queue in E. apply res_bind_Ok in E as (tq & _ & [= <-]). by apply notify_m_kept. Qed.
Lemma notify_some_kept p msg m m' : kept (world m) -> notify_some p msg m = Ok m' -> kept (world m').
Proof using L. intros Hk E. destruct msg; cbn in E; [by eapply notify_queue_kept|by injection E as <-]. Qed.

Lemma argv_kept n m : kept (world m) -> kept (world (put_qs (set_argv_size n (qs m)) m)).
Proof using L. intros Hk. apply put_kept; [|done]. destruct Hk as [S _]. split; [exact S|]. by split; [|intros p l Hl; exists l]. Qed.
Lemma current_kept n m : kept (world m) -> kept (world (put_qs (set_current_task_id n (qs m)) m)).
Proof using L. intros Hk. apply put_kept; [|done]. destruct Hk as [S _]. split; [exact S|]. by split; [|intros p l Hl; exists l]. Qed.

Lemma wordlist_kept command m v m' : kept (world m) -> wordlist command m = Ok (v, m') -> kept (world m').
Proof using L.
  intros Hk E. unfold wordlist, on_queues in E. apply res_bind_Ok in E as ([a s] & E & [= <- <-]). apply res_bind_Ok in E as ([l n] & _ & [= <- <-]). by apply argv_kept.
Qed.

Lemma new_task_kept m id m' : kept (world m) -> on_queues new_current_task m = Ok (id, m') -> kept (world m').
Proof using L.
  intros Hk E. unfold on_queues in E. apply res_bind_Ok in E as ([a s] & E & [= <- <-]). unfold new_current_task, new_task_id in E.
  destruct (nonzero (randoms (qs m))) as [[i l]|]; [|done]. cbn [mbind res_bind] in E. injection E as <- <-. apply put_kept; [|done].
  destruct Hk as [S _]. split; [exact S|]. by split; [|intros p k Hl; exists k].
Qed.

(** ** Commands *)

Ltac kept_step := lazymatch goal with
  | |- kept (world (notify _ _ _)) => apply notify_m_kept
  | E : notify_queue _ _ _ = Ok ?m |- kept (world ?m) => eapply notify_queue_kept; [|exact E]; clear E
  | E : notify_some _ _ _ = Ok ?m |- kept (world ?m) => eapply notify_some_kept; [|exact E]; clear E
  | E : wordlist _ _ = Ok (_, ?m) |- kept (world ?m) => eapply wordlist_kept; [|exact E]; clear E
  | E : on_queues new_current_task _ = Ok (_, ?m) |- kept (world ?m) => eapply new_task_kept; [|exact E]; clear E
  | E : upd_queues (upd_queue _ _) _ = Ok ?m |- kept (world ?m) => refine (upd_kept _ _ _ _ _ _ E); [by intros []|]; clear E
  | |- _ => assumption
  end.

Lemma start_programming_kept p argstr m m' : kept (world m) -> start_programming numeric_names p argstr m = Ok m' -> kept (world m').
Proof using L.
  intros Hk E. unfold start_programming in E. apply res_bind_Ok in E as (tq & _ & E). apply res_bind_Ok in E as ([h msg] & _ & E).
  destruct h as [[h vname]|]; [|injection E as <-; by apply notify_m_kept]. apply res_bind_Ok in E as (def & _ & E).
  repeat kept_step.
Qed.

Lemma foldl_notify_kept player msgs : forall m, kept (world m) -> kept (world (foldl (fun m msg => notify player msg m) m msgs)).
Proof using L. induction msgs as [|msg msgs IH]; intros m Hk; [done|]. cbn [foldl]. by apply IH, notify_m_kept. Qed.

Lemma end_programming_kept p m m' : kept (world m) -> end_programming parse_program numeric_names p m = Ok m' -> kept (world m').
Proof using L.
  intros Hk E. unfold end_programming in E. apply res_bind_Ok in E as (tq & _ & E). destruct (tq_program tq) as [[[text oid] vname]|]; [|done].
  apply res_bind_Ok in E as (m1 & E1 & E). kept_step. destruct (negb _); [injection E1 as <-; by apply notify_m_kept|].
  apply res_bind_Ok in E1 as (h & _ & E1).
  assert (Hprog : forall h, ('(errors, program) ← Ok (parse_program text); let m := foldl (fun m msg => notify (tq_player tq) msg m) m errors in
      let m := notify (tq_player tq) (print_int (Z.of_nat (length errors)) ++ lit " error(s).") m in
      match program with
      | Some prog => let '(k, m) := store_program prog m in d ← db_set_verb_program h k (vm_db m); Ok (notify (tq_player tq) (lit "Verb programmed.") (with_db d m))
      | None => Ok (notify (tq_player tq) (lit "Verb not programmed.") m)
      end) = Ok m1 -> kept (world m1)).
  { intros h' E'. cbn [mbind res_bind] in E'. destruct (parse_program text) as [errors [prog|]]; cbv zeta in E'; [|injection E' as <-; repeat apply notify_m_kept; by apply foldl_notify_kept].
    unfold store_program in E'. apply res_bind_Ok in E' as (d & _ & [= <-]). apply notify_m_kept. cbn [world with_db]. apply notify_m_kept. by apply foldl_notify_kept. }
  destruct h; [injection E1 as <-; by apply notify_m_kept|eapply Hprog; exact E1..].
Qed.

Lemma intrinsic_kept p pc m b m' : kept (world m) -> do_intrinsic_command numeric_names p pc m = Ok (b, m') -> kept (world m').
Proof using L.
  intros Hk E. unfold do_intrinsic_command in E. apply res_bind_Ok in E as (tq & _ & E). cbv zeta in E.
  destruct (_ || _); [by injection E as _ <-|]. destruct (_ =? ICMD_PROGRAM).
  - apply res_bind_Ok in E as (ok & _ & E). destruct (negb ok); [by injection E as _ <-|].
    assert (Husage : forall msg, kept (world (notify (tq_player tq) msg m))) by (intros msg; by apply notify_m_kept).
    repeat (case_match; try (injection E as _ <-; apply Husage)).
    apply res_bind_Ok in E as (m1 & E1 & [= _ <-]). by eapply start_programming_kept.
  - destruct (_ || _); [|destruct (_ || _); [|done]]; apply res_bind_Ok in E as (m1 & E1 & [= _ <-]); kept_step; done.
Qed.

Lemma server_task_kept fuel player what verb args argstr id_for m r m' : kept (world m) ->
  run_server_task set_virtual_timer fuel player what verb args argstr id_for m = Ok (r, m') -> kept (world m').
Proof using K L timer_keeps.
  intros Hk E. unfold run_server_task in E. apply res_bind_Ok in E as ([id m1] & E1 & E). apply res_bind_Ok in E as (m2 & E2 & E). apply res_bind_Ok in E as ([h d] & _ & E).
  assert (Hk2 : kept (world m2)) by (destruct id_for; [repeat kept_step|injection E2 as <-; repeat kept_step]).
  destruct h; [by injection E as _ <-|..]; (eapply (do_server_verb_task_keeps (K := K s0)); [exact notify_kept|exact timer_kept| |exact E]; exact Hk2).
Qed.

Lemma dispatch_kept fuel p pc command m m' : kept (world m) -> dispatch_command set_virtual_timer fuel p pc command m = Ok m' -> kept (world m').
Proof using K L timer_keeps.
  intros Hk E. unfold dispatch_command in E. apply res_bind_Ok in E as (tq & _ & E). apply res_bind_Ok in E as (loc & _ & E). apply res_bind_Ok in E as (m1 & E1 & E).
  apply res_bind_Ok in E as ([args m2] & E2 & E). apply res_bind_Ok in E as ([[o result] m3] & E3 & E). apply res_bind_Ok in E as (tq' & _ & E).
  apply res_bind_Ok in E as (m4 & E4 & E). apply res_bind_Ok in E as (tq'' & _ & E). kept_step.
  assert (Hk3 : kept (world m3)) by (eapply server_task_kept; [|exact E3]; repeat kept_step). clear E1 E2 E3.
  destruct (match o with OUTCOME_DONE => _ | _ => _ end); [by injection E4 as <-|]. apply res_bind_Ok in E4 as (found & _ & E4). apply res_bind_Ok in E4 as ([found' m5] & E5 & E4).
  assert (Hk5 : kept (world m5)).
  { destruct found; [by injection E5 as _ <-|]. destruct (valid _ _); [|by injection E5 as _ <-]. apply res_bind_Ok in E5 as ([h d] & _ & E5). by injection E5 as _ <-. }
  destruct found' as [[this vh]|]; [|repeat kept_step]. apply res_bind_Ok in E4 as ([[o' r'] m6] & E6 & [= <-]).
  eapply (do_input_task_keeps (K := K s0)); [exact notify_kept|exact timer_kept|exact Hk5|exact E6].
Qed.

(** Only a line that is blank leaves nothing done, and changes nothing but the tokenizer's room. *)
Lemma command_kept fuel p command m b m' : kept (world m) -> do_command_task set_virtual_timer parse_program numeric_names fuel p command m = Ok (b, m') ->
  kept (world m') /\ (b = false -> exists n, m' = put_qs (set_argv_size n (qs m)) m).
Proof using K L timer_keeps.
  intros Hk E. unfold do_command_task in E. apply res_bind_Ok in E as (tq & _ & E). destruct (tq_program tq) as [[[text oid] vname]|].
  - apply res_bind_Ok in E as (m1 & E1 & [= <- <-]). split; [|done]. destruct (_ =? 0); [by eapply end_programming_kept|by kept_step].
  - apply res_bind_Ok in E as ([pc m1] & E1 & E). unfold on_queues in E1. apply res_bind_Ok in E1 as ([a s] & E1 & [= <- <-]). apply res_bind_Ok in E1 as ([a' n] & _ & [= <- <-]).
    pose proof (argv_kept n m Hk) as Hk1. destruct a' as [pc|]; [|injection E as <- <-; split; [done|by exists n]].
    apply res_bind_Ok in E as ([done m2] & E2 & E). apply res_bind_Ok in E as (m3 & E3 & [= <- <-]). split; [|done].
    pose proof (intrinsic_kept _ _ _ _ _ Hk1 E2) as Hk2. destruct done; [by injection E3 as <-|by eapply dispatch_kept].
Qed.

(** ** Lines and tasks *)

Lemma dequeue_input_same (s : queues Data) p how t s' tq : dequeue_input_task p how s = Ok (t, s') -> tqueues s !! p = Some tq ->
  exists tq', tqueues s' !! p = Some tq' /\ tq_player tq' = tq_player tq.
Proof using.
  intros E Hq. unfold dequeue_input_task, at_queue in E. rewrite Hq in E. cbn [deref mbind res_bind] in E.
  destruct (_ && _) in E; [injection E as _ <-; by exists tq|]. destruct (take_message _ _) as [[m rest]|] in E; [|injection E as _ <-; by exists tq].
  rewrite (upd_queue_Ok s p _ tq Hq) in E. cbn [mbind res_bind] in E. set (tq1 := set_tq_total _ _) in E.
  destruct (_ && _ && _) in E; [|cbn [mbind res_bind] in E; injection E as _ <-; exists tq1; cbn [tqueues set_tqueues]; by rewrite lookup_insert_eq].
  rewrite (upd_queue_Ok _ p _ tq1) in E by (cbn [tqueues call set_server_calls set_tqueues]; by rewrite lookup_insert_eq). cbn [mbind res_bind] in E. injection E as _ <-.
  eexists. cbn [tqueues set_tqueues]. rewrite lookup_insert_eq. by split.
Qed.

Lemma dequeue_input_kept p how m t m' : kept (world m) -> on_queues (dequeue_input_task p how) m = Ok (t, m') -> kept (world m').
Proof using L.
  intros Hk E. unfold on_queues in E. apply res_bind_Ok in E as ([a s] & E & [= <- <-]). assert (Hq : exists tq, tqueues (qs m) !! p = Some tq).
  { unfold dequeue_input_task, at_queue in E. destruct (tqueues (qs m) !! p) as [tq|]; [by exists tq|done]. }
  destruct Hq as [tq Hq]. destruct (dequeue_input_task_Ok (qs m) p how tq (proj1 Hk) Hq) as (t' & s' & E' & Kp & _). rewrite E in E'. injection E' as -> ->. by apply put_kept.
Qed.

Lemma dequeue_bg_kept p m t m' : kept (world m) -> on_queues (dequeue_bg_task p) m = Ok (t, m') -> kept (world m').
Proof using L.
  intros Hk E. unfold on_queues in E. apply res_bind_Ok in E as ([a s] & E & [= <- <-]). assert (Hq : known (qs m) p).
  { unfold dequeue_bg_task, at_queue in E. unfold known. destruct (tqueues (qs m) !! p) as [tq|]; [by exists tq|done]. }
  destruct (dequeue_bg_task_Ok (qs m) p (proj1 Hk) Hq) as (t' & s' & E' & Kp). rewrite E in E'. injection E' as -> ->. by apply put_kept.
Qed.

Lemma resume_with_kept fuel v value m m' : kept (world m) -> resume_with set_virtual_timer fuel v value m = Ok m' -> kept (world m').
Proof using K L timer_keeps.
  intros Hk E. unfold resume_with in E. apply res_bind_Ok in E as ([[o r] m1] & E & [= <-]).
  eapply (resume_keeps (K := K s0)); [exact notify_kept|exact timer_kept| |exact E]. by apply current_kept.
Qed.

Lemma resume_reading_kept fuel p v value m m' : kept (world m) -> resume_reading set_virtual_timer fuel p v value m = Ok m' -> kept (world m').
Proof using K L timer_keeps. intros Hk E. unfold resume_reading in E. apply res_bind_Ok in E as (m1 & E1 & E). eapply resume_with_kept; [|exact E]. by kept_step. Qed.

Lemma run_bg_kept fuel t m m' : kept (world m) -> run_bg set_virtual_timer fuel t m = Ok m' -> kept (world m').
Proof using K L timer_keeps.
  intros Hk E. destruct t as [ft|st]; cbn [run_bg] in E; [|by eapply resume_with_kept]. cbv zeta in E. apply res_bind_Ok in E as ([[o r] m1] & E & [= <-]).
  eapply (do_forked_task_keeps (K := K s0)); [exact notify_kept|exact timer_kept| |exact E]. by apply current_kept.
Qed.

(** The player of a queue is logged in. *)
Definition logged_in (p : positive) (m : machine) : Prop := exists tq, tqueues (qs m) !! p = Some tq /\ 0 <= tq_player tq.

Lemma run_line_kept fuel p line m b m' : kept (world m) -> logged_in p m ->
  run_line set_virtual_timer parse_program player_connected numeric_names fuel p line m = Ok (b, m') ->
  kept (world m') /\ (b = false -> exists n, m' = put_qs (set_argv_size n (qs m)) m).
Proof using K L timer_keeps.
  intros Hk (tq & Hq & Hpl) E. unfold run_line, queue_at, at_queue in E. rewrite Hq in E. cbn [deref mbind res_bind] in E.
  assert (Hin : match tq_reading tq with
      | Some v => m ← resume_reading set_virtual_timer fuel p v (Str line.2) m; Ok (true, m)
      | None => if tq_player tq >=? 0 then do_command_task set_virtual_timer parse_program numeric_names fuel p line.2 m
                else m ← do_login_task set_virtual_timer player_connected fuel p line.2 m; Ok (true, m)
      end = Ok (b, m') -> kept (world m') /\ (b = false -> exists n, m' = put_qs (set_argv_size n (qs m)) m)).
  { destruct (tq_reading tq) as [v|].
    - intros E'. apply res_bind_Ok in E' as (m1 & E' & [= <- <-]). split; [by eapply resume_reading_kept|done].
    - rewrite Z.geb_leb. destruct (Z.leb_spec 0 (tq_player tq)); [|lia]. by apply command_kept. }
  destruct line.1; [by apply Hin| |done|by apply Hin].
  apply res_bind_Ok in E as (m1 & E & [= <- <-]). split; [|done]. unfold do_out_of_band_command in E. apply res_bind_Ok in E as (tq' & _ & E).
  apply res_bind_Ok in E as ([args m2] & E2 & E). apply res_bind_Ok in E as ([[o r] m3] & E3 & [= <-]). eapply server_task_kept; [|exact E3]. by kept_step.
Qed.

Lemma run_queue_kept tries fuel p : forall m b m', kept (world m) -> logged_in p m ->
  run_queue set_virtual_timer parse_program player_connected numeric_names tries fuel p m = Ok (b, m') -> kept (world m').
Proof using K L timer_keeps.
  induction tries as [|tries IH]; intros m b m' Hk Hl E; [done|]. cbn [run_queue] in E. apply res_bind_Ok in E as (tq & _ & E).
  apply res_bind_Ok in E as ([line m1] & E1 & E). pose proof (dequeue_input_kept _ _ _ _ _ Hk E1) as Hk1.
  assert (Hl1 : logged_in p m1).
  { unfold on_queues in E1. apply res_bind_Ok in E1 as ([a s] & E1 & [= _ <-]). destruct Hl as (tq0 & Hq0 & Hpl).
    destruct (dequeue_input_same _ _ _ _ _ _ E1 Hq0) as (tq' & Hq' & Hp'). exists tq'. rewrite qs_put. split; [done|]. by rewrite Hp'. }
  destruct line as [line|].
  - apply res_bind_Ok in E as ([did m2] & E2 & E). destruct (run_line_kept _ _ _ _ _ _ Hk1 Hl1 E2) as [Hk2 Hsame].
    destruct did; [by injection E as _ <-|]. apply (IH m2 b m' Hk2); [|exact E]. destruct (Hsame eq_refl) as [n ->].
    destruct Hl1 as (tq1 & Hq1 & Hp1). exists tq1. rewrite qs_put. by split.
  - apply res_bind_Ok in E as ([t m2] & E2 & E). pose proof (dequeue_bg_kept _ _ _ _ Hk1 E2) as Hk2. destruct t as [t|]; [|by injection E as _ <-].
    apply res_bind_Ok in E as (m3 & E3 & [= _ <-]). by eapply run_bg_kept.
Qed.

Lemma run_first_kept fuel p m b m' : kept (world m) -> logged_in p m ->
  run_first set_virtual_timer parse_program player_connected numeric_names fuel p m = Ok (b, m') -> kept (world m').
Proof using K L timer_keeps.
  intros Hk Hl E. unfold run_first in E. apply res_bind_Ok in E as (tq & _ & E).
  destruct (tq_reading tq) as [v|]; [destruct (is_out_of_input tq)|]; [|by eapply run_queue_kept..].
  apply res_bind_Ok in E as (m1 & E & [= _ <-]). by eapply resume_reading_kept.
Qed.

End turns.

(** ** The property *)

Section property.
Context {Data Susp World : Type} {H : Host Data Susp World} {W : HasQueues Data World} {L : QueuesLaws W}.
Context (set_virtual_timer : Z -> World -> World) (parse_program : cstr -> list cstr * option Program)
  (player_connected : Z -> Z -> bool -> vm Data World -> res (vm Data World)) (numeric_names : bool).


End property.

#[local] Existing Instances clock_world clock_world_laws quiet_host.

Lemma quiet_host_keeps (s0 : queues unit) : HostKeeps quiet_host (queues_kept s0).
Proof. split; try (intros; by simplify_res). intros id v pc progr data m r m' Hk [= _ <-]. exact Hk. Qed.

(** The task of the example, in a machine of its own. *)
Definition ready_server : vm unit (queues unit * Z) := mkVm [] None 0 0 false None sample ∅ (ready_queues, 105).
Definition after_turn : vm unit (queues unit * Z) :=
  match run_first (fun _ w => w) (fun _ => ([], None)) (fun _ _ _ m => Ok m) true 1000 1 ready_server with Ok (_, m) => m | Fail _ => ready_server end.

Lemma ready_server_sound : sound (qs ready_server).
Proof. unfold qs, ready_server. cbn [world queues_of clock_world fst]. apply ready_queues_sound. Qed.
Lemma ready_turn : run_first (fun _ w => w) (fun _ => ([], None)) (fun _ _ _ m => Ok m) true 1000 1 ready_server = Ok (true, after_turn).
Proof. vm_compute. reflexivity. Qed.

