(* ===== verification/Intrinsic.v ===== *)
(** * Intrinsic commands (src/tasks.c)

    The hash by which [icmd_index] finds the command, and the option that says which commands are enabled. *)

From S2P Require Import Prelude CStrings Values Libc TaskQueues.

Open Scope Z_scope.

Ltac nul_free_literal := apply (bool_decide_unpack _); vm_compute; exact I.
Ltac decide_all := repeat first [rewrite decide_True by done|rewrite decide_False by done]; cbn [fmap option_fmap option_map prod_map fst snd]; cbv beta iota delta [id].

Lemma cmap_r c : cmap (ord c) = cmap 114 -> Z.land (ord c) 7 = 2.
Proof. destruct c as [[] [] [] [] [] [] [] []]; vm_compute; congruence. Qed.

Lemma only_name v a : name_in v a -> nul_free v -> no_space v -> a = v.
Proof.
  destruct 1 as [a rest Ha Hend _|a sp rest b Ha Hne Hsp _ _]; intros Hn Hs.
  - apply nul_free_app in Hn as [_ Hn]. apply Forall_app in Hs as [_ Hs]. destruct rest as [|c rest]; [by rewrite app_nil_r|].
    apply Forall_cons in Hn as [Hc _]. apply Forall_cons in Hs as [Hsc _]. unfold at_end_of_name in Hend. rewrite cur_cons in Hend.
    unfold is_space in Hsc. rewrite Hsc, orb_false_r in Hend. by apply Z.eqb_eq in Hend.
  - apply Forall_app in Hs as [_ Hs]. apply Forall_app in Hs as [Hs _]. destruct sp as [|c sp]; [done|]. apply Forall_cons in Hsp as [H1 _]. apply Forall_cons in Hs as [H2 _]. congruence.
Qed.

(** The abbreviations of [.program] have three to eight letters, of which the third is an r. *)
Lemma program_hash verb : nul_free verb -> verbcasecmp false (lit ".pr*ogram") verb = true -> icmd_hash verb = ICMD_PROGRAM.
Proof.
  intros Hn H. assert (Hp : nul_free (lit ".pr*ogram")) by nul_free_literal.
  unfold verbcasecmp in H. cbn [orb] in H. apply verbcasecmp_loop_spec in H as (a & Ha & Hm); [|done..]. apply only_name in Ha as ->; [|done|nul_free_literal].
  assert (Hab : abbreviates (lit ".pr*ogram") verb /\ (3 <= length verb)%nat).
  { unfold name_matches in Hm. change (has_star (lit ".pr*ogram")) with true in Hm. cbn iota in Hm. destruct Hm as [Hm|[Hm _]]; [exact Hm|by vm_compute in Hm]. }
  clear Hm. destruct Hab as [Hab Hlen]. unfold abbreviates, ci_eq, fold_case in Hab. change (letters (lit ".pr*ogram")) with (lit ".program") in Hab.
  assert (Hle : (length verb <= 8)%nat).
  { apply (f_equal length) in Hab. rewrite !length_fmap, length_take in Hab. change (length (lit ".program")) with 8%nat in Hab. lia. }
  destruct verb as [|c0 [|c1 [|c2 verb]]]; cbn [length] in Hlen; [lia..|]. unfold icmd_hash. rewrite decide_True, decide_False by (cbn [length] in *; lia).
  injection Hab as _ _ Hc2. cbn [take] in Hc2. change (at_ (c0 :: c1 :: c2 :: verb) 2) with (ord c2). rewrite (cmap_r c2) by exact Hc2. reflexivity.
Qed.

Lemma literal_hash verb s : nul_free verb -> nul_free s -> (strcmp verb s =? 0) = true -> icmd_hash verb = icmd_hash s.
Proof. intros Hv Hs E. apply Z.eqb_eq in E. apply strcmp_zero in E as ->; done. Qed.

Lemma icmd_index_Ok verb : nul_free verb ->
  icmd_index verb = match list_find (fun e => e.2 verb = true) icmd_table with Some (_, e) => e.1.1 | None => 0 end.
Proof.
  intros Hv. assert (Hl : forall s, nul_free (lit s) -> (strcmp verb (lit s) =? 0) = true -> icmd_hash verb = icmd_hash (lit s)) by (intros s; by apply literal_hash).
  pose proof (program_hash verb Hv) as H1. assert (H2 := Hl "PREFIX"%string). assert (H3 := Hl "SUFFIX"%string). assert (H4 := Hl "OUTPUTPREFIX"%string). assert (H5 := Hl "OUTPUTSUFFIX"%string).
  specialize (H2 ltac:(nul_free_literal)). specialize (H3 ltac:(nul_free_literal)). specialize (H4 ltac:(nul_free_literal)). specialize (H5 ltac:(nul_free_literal)).
  change (icmd_hash (lit "PREFIX")) with ICMD_PREFIX in H2. change (icmd_hash (lit "SUFFIX")) with ICMD_SUFFIX in H3.
  change (icmd_hash (lit "OUTPUTPREFIX")) with ICMD_OUTPUTPREFIX in H4. change (icmd_hash (lit "OUTPUTSUFFIX")) with ICMD_OUTPUTSUFFIX in H5. clear Hl.
  revert H1 H2 H3 H4 H5. unfold icmd_index, icmd_table. generalize (icmd_hash verb). intros n H1 H2 H3 H4 H5.
  cbn [list_find fst snd]. cbv beta.
  destruct (verbcasecmp false (lit ".pr*ogram") verb) eqn:E1; [by rewrite (H1 eq_refl), !decide_True, E1 by done|].
  destruct (strcmp verb (lit "PREFIX") =? 0) eqn:E2; [rewrite (H2 eq_refl); decide_all; by rewrite E2|].
  destruct (strcmp verb (lit "SUFFIX") =? 0) eqn:E3; [rewrite (H3 eq_refl); decide_all; by rewrite E3|].
  destruct (strcmp verb (lit "OUTPUTPREFIX") =? 0) eqn:E4; [rewrite (H4 eq_refl); decide_all; by rewrite E4|].
  destruct (strcmp verb (lit "OUTPUTSUFFIX") =? 0) eqn:E5; [rewrite (H5 eq_refl); decide_all; by rewrite E5|].
  transitivity 0; [|by decide_all].
  repeat (case_decide; [cbn [fmap option_fmap option_map prod_map fst snd]; cbv beta iota delta [id]; rewrite ?E1, ?E2, ?E3, ?E4, ?E5; done|]). done.
Qed.

(** C37: The perfect hash is one: for every verb [icmd_index] answers what a search through the table of intrinsic commands
    answers, the number of the command that the verb names, in full, or, for [.program], abbreviated to three letters or more in any case; and 0 if there is none. *)
Theorem icmd_index_correct verb : nul_free verb ->
  icmd_index verb = match list_find (fun e => e.2 verb = true) icmd_table with Some (_, e) => e.1.1 | None => 0 end.
Proof. apply icmd_index_Ok. Qed.

Lemma icmd_index_correct_witness : nul_free (lit ".PROG") /\ icmd_index (lit ".PROG") =
  match list_find (fun e => e.2 (lit ".PROG") = true) icmd_table with Some (_, e) => e.1.1 | None => 0 end.
Proof.
  assert (H : nul_free (lit ".PROG")) by nul_free_literal. split; [exact H|]. exact (icmd_index_correct (lit ".PROG") H).
Defined.
Example icmd_examples : icmd_index <$> [lit ".PROG"; lit ".pr"; lit ".program"; lit ".programs"; lit "SUFFIX"; lit "suffix"] = [5; 5; 5; 0; 1; 0].
Proof. vm_compute. reflexivity. Qed.

(** ** The option *)

Lemma icmd_index_range verb : 0 <= icmd_index verb <= 5.
Proof.
  unfold icmd_index. destruct (list_find _ icmd_table) as [[i [[n s] f]]|] eqn:E; [|lia]. apply list_find_Some in E as (E & _ & _).
  destruct (f verb); [|lia]. do 5 (destruct i as [|i]; [injection E as <- _ _; vm_compute; split; congruence|]). done.
Qed.

Lemma icmd_names_flags_subset names : forall f f', Z.land f ICMD_ALL_CMDS = f -> icmd_names_flags names f = Some f' -> Z.land f' ICMD_ALL_CMDS = f'.
Proof.
  induction names as [|v names IH]; intros f f' Hf E; cbn [icmd_names_flags] in E; [by injection E as <-|]. destruct v; try done.
  pose proof (icmd_index_range str) as Hr. cbv zeta in E. destruct (Z.eqb_spec (icmd_index str) 0) as [|Hne]; [done|]. apply IH in E; [done|].
  rewrite Z.land_lor_distr_l, Hf. f_equal.
  assert (Hi : icmd_index str = 1 \/ icmd_index str = 2 \/ icmd_index str = 3 \/ icmd_index str = 4 \/ icmd_index str = 5) by lia.
  by destruct Hi as [->|[->|[->|[->| ->]]]].
Qed.

Definition reads_back (f : Z) : bool := match icmd_set_flags (List (icmd_list f)) with Some f' => f' =? f | None => false end.
Lemma all_read_back : forallb (fun f => if Z.land f ICMD_ALL_CMDS =? f then reads_back f else true) (seqZ 0 64) = true.
Proof. vm_compute. reflexivity. Qed.

Lemma icmd_option_Ok v f : icmd_set_flags v = Some f -> icmd_set_flags (List (icmd_list f)) = Some f.
Proof.
  intros E. assert (Hf : Z.land f ICMD_ALL_CMDS = f).
  { destruct v; try done; cbn [icmd_set_flags] in E; [by destruct (is_true _); injection E as <-|]. by eapply icmd_names_flags_subset; [|exact E]. }
  assert (Hr : 0 <= f < 64).
  { assert (H0 : 0 <= f) by (rewrite <- Hf; apply Z.land_nonneg; right; by vm_compute). split; [done|].
    destruct (Z.eqb_spec f 0) as [->|Hne]; [done|]. apply (Z.log2_lt_pow2 f 6); [lia|]. rewrite <- Hf.
    eapply Z.le_lt_trans; [apply Z.log2_land; [done|by vm_compute]|]. assert (H5 : Z.log2 ICMD_ALL_CMDS = 5) by reflexivity. lia. }
  pose proof all_read_back as H. rewrite forallb_forall in H. specialize (H f). rewrite Hf, Z.eqb_refl in H. unfold reads_back in H.
  destruct (icmd_set_flags (List (icmd_list f))) as [f'|]; [|exfalso; discriminate H; apply list_elem_of_In, elem_of_seqZ; lia].
  f_equal. apply Z.eqb_eq, H. apply list_elem_of_In, elem_of_seqZ. lia.
Qed.
